(* ===== verification/_CoqProject ===== *)
-Q . S2P
Prelude.v
Regs.v
DynInst.v
CPU.v
Scoreboard.v
IQInterface.v
Decode.v
DecodeOps.v
DecodeProps.v
FreeList.v
RenameMap.v
RenameInv.v
RenameSpec.v
RenameProps.v
RenameCommit.v
RenameTotal.v
Rename.v
RenameStage.v
RenameTick.v
RenameCycle.v
RenameRun.v
Ring.v
LSQ.v
LSQInv.v
LSQCommit.v
LSQSquash.v
LSQRead.v
LSQViol.v
LSQStore.v
LSQWrite.v
LSQDrain.v
LSQSteps.v
LSQProps.v
LSQRun.v
LSQThreads.v
DepGraph.v
ROB.v
ROBInv.v
ROBOps.v
ROBSquash.v
ROBProps.v
IEW.v
Commit.v
NDAOps.v
IEWProps.v
StoreSet.v
FUPool.v
ReadyList.v
MemDep.v
IQ.v
IQSched.v
IQLaws.v
IQSchedProps.v
Dispatch.v
OperandProps.v
NDA.v
CommitArch.v
CommitArchProps.v
NDARun.v
Witnesses.v
IntMath.v
Targets.v
BPred.v
LocalBP.v
BiModeBP.v
TournamentBP.v
BPredInv.v
BPredSteps.v
BPredProps.v
LTAGE.v
LTAGEHist.v
LTAGEInv.v
LTAGEOps.v
LTAGEProps.v
BPredRun.v
Fetch.v
FetchProps.v
FetchLink.v
FetchRun.v
