(* ===== verification/Prelude.v ===== *)
(** * A verified model of the NDA out-of-order core of Lapidary's gem5

    Lapidary simulates programs on [custom_gem5], a gem5 whose out-of-order CPU (the
    O3 model, [src/custom_gem5/src/cpu/]) was extended with the NDA protection
    scheme: the result of an instruction that may still be squashed by an unresolved
    branch is withheld from the instructions that would consume it, so that
    misspeculated data cannot steer a side channel.  This library models the part of
    the CPU that implements the scheme, and the front end, register renaming, memory queues
    and branch prediction it relies on, operation by operation, and proves that they do what
    they are for.  File names
    below are in [src/custom_gem5/src/cpu/o3/]; a path that starts with [src/cpu/],
    here and in the other files, is under [src/custom_gem5/].

    ** The program

    Fetch reads cache lines, makes instructions along the path the branch predictor
    gives and hands them to decode; decode checks the targets of direct branches, keeps
    what rename cannot take in skid buffers and stops fetch meanwhile.  Rename replaces
    each architectural register by a physical one: destinations get a register from the free list, and a
    history remembers what they replaced, to undo it on a squash and to free it at
    commit.  They are then inserted in the reorder buffer (ROB) by commit and in the instruction queue (IQ) by the
    issue/execute/writeback stage (IEW).  The IQ keeps, per physical register, the
    chain of instructions that wait for it (the dependency graph), asks the memory
    dependence unit whether a load must wait for an older store (predicted by store
    sets), and issues ready instructions oldest first to free functional units.
    Executed instructions are written back: the scoreboard marks their destinations
    ready and the IQ wakes their dependents.  NDA adds: the ROB counts the branches
    of a thread that are not resolved ([numInstThatMayCauseSquash]); what is inserted
    behind one is [Unsafe]; writeback of an [Unsafe] instruction does not publish its
    result; when a branch resolves, the IEW tells the ROB, which walks its list,
    clears [Unsafe] up to the next unresolved branch and publishes the withheld
    results; a policy may instead enter runahead mode, in which unsafe results are
    published as zero; and a taint mode restricts the scheme to secrets loaded from
    secure memory.  Commit retires instructions in order and drives squashes.

    ** The files

    - [Prelude.v]: the failure monad ([assert], [panic], null dereference, fuel),
      loops over lists that may fail, 32-bit wrap-around, arrays as functions of the
      thread id, vectors with bounds-checked access, the shared list lemmas and
      tactics, and the hint database of the development.
    - [Regs.v] ([src/cpu/reg_class.hh], [comm.hh]): register identifiers.
      [DynInst.v] ([src/cpu/static_inst.hh], [base_dyn_inst.hh],
      [base_dyn_inst_impl.hh]): the dynamic instruction that all stages share, its
      status bits at their positions in the C++ enumerations, taint propagation, X86's
      program counters.
    - [CPU.v] ([src/cpu/timebuf.hh], [cpu.cc]): the time buffers that connect the stages, the
      CPU's list of instructions in flight.
    - The front end.  [Decode.v] ([decode.hh], [decode_impl.hh]): the decode stage;
      [DecodeOps.v]: what its operations do; [DecodeProps.v]: its cycle.  [Fetch.v]
      ([fetch.hh], [fetch_impl.hh]): the fetch stage; [FetchProps.v]: the loops that make
      instructions and hand them over; [FetchLink.v]: both stages connected; [FetchRun.v]:
      concrete runs.
    - [Scoreboard.v] ([scoreboard.hh], [scoreboard.cc]), [DepGraph.v]
      ([dep_graph.hh]): which operands are available and who waits for them.
    - [FreeList.v] ([regfile.hh], [regfile.cc], [free_list.hh], [free_list.cc]):
      physical registers and free lists.  [RenameMap.v] ([rename_map.hh],
      [rename_map.cc], [rename_impl.hh], [src/arch/x86/isa.hh]): rename maps, renaming of
      operands, the history.  [RenameInv.v], [RenameSpec.v]: the invariant, the contract and
      the simulation between them.  [RenameProps.v] (with start-up, from the
      constructor in [cpu.cc]), [RenameCommit.v] (with commit's own map), [RenameTotal.v]: the
      theorems.
    - [Rename.v] ([rename.hh], [rename_impl.hh]): the rename stage, cycle by cycle;
      [RenameStage.v], [RenameTick.v], [RenameCycle.v]: its invariant and the
      theorems; [RenameRun.v]: concrete runs.
    - [Ring.v]: circular queues.  [LSQ.v] ([lsq_unit.hh], [lsq_unit_impl.hh],
      [src/mem/request.hh]): the load and store queues of a thread; the calls the unit
      makes on the rest of the CPU and on the cache are recorded in order.  [LSQInv.v]:
      its invariant; [LSQCommit.v], [LSQSquash.v], [LSQRead.v],
      [LSQViol.v] (violations and snoops), [LSQStore.v], [LSQWrite.v], [LSQDrain.v]: what
      each operation does, and that it keeps the invariant;
      [LSQSteps.v]: responses, and the flow of writes to the cache; [LSQProps.v]: runs and
      the theorems; [LSQRun.v]: a concrete run.  [LSQThreads.v] ([lsq.hh], [lsq_impl.hh]):
      the units of all threads, and the policies that share the entries.
    - [IQInterface.v]: the configuration flags, and the class of instruction queues
      with its laws, what the ROB and the IEW rely on; and how operations
      change the instructions in flight.
    - [ROB.v] ([rob.hh], [rob_impl.hh]): the reorder buffer with the NDA additions.
      [ROBInv.v] defines its invariant, [ROBOps.v] proves that every
      operation keeps it, [ROBSquash.v] and [ROBProps.v] give the functional
      behaviour of the operations.
    - [IEW.v] ([iew.hh], [iew_impl.hh]) and [Commit.v] ([commit.hh], [commit_impl.hh]) with
      [IEWProps.v]; [NDAOps.v]: both keep the invariant.  [Dispatch.v] ([iew_impl.hh]): the
      first and the last part of the IEW's cycle, from rename to the queues and from commit's
      signals to the credits sent back.  [CommitArch.v] ([commit.hh],
      [commit_impl.hh]): the rest of commit, from the head of the ROB to the cycle;
      [CommitArchProps.v]: its theorems.
    - [StoreSet.v] ([store_set.hh], [store_set.cc]), [FUPool.v] ([fu_pool.hh],
      [fu_pool.cc]), [ReadyList.v] (the ready lists of [inst_queue_impl.hh]),
      [MemDep.v] ([mem_dep_unit.hh], [mem_dep_unit_impl.hh]): the memory
      dependence unit and its theorems.
    - [IQ.v], [IQSched.v] ([inst_queue.hh], [inst_queue_impl.hh]): the instruction
      queue; [IQLaws.v] makes it an instance of the interface; [IQSchedProps.v] is
      about scheduling.  [OperandProps.v]: registers, scoreboard, dependency graph.
    - [NDA.v]: all of it together as a transition system, and the guarantees in every
      reachable state.  [NDARun.v], [Witnesses.v]: concrete runs and
      inputs at which the theorems are instantiated.
    - Branch prediction ([src/cpu/pred/]).  [IntMath.v] ([src/base/intmath.hh],
      [bitfield.hh], [sat_counter.hh]): logarithms, masks, saturating counters.
      [Targets.v] ([ras.cc], [btb.cc], [indirect.cc] and their headers): where a branch
      goes.  [BPred.v] ([bpred_unit.hh], [bpred_unit.cc]): the
      unit that fetch calls, and what it relies on from a direction predictor, as the
      classes [Predictor], [PredictorOk] and [PredictorHist]; [LocalBP.v]
      ([2bit_local.cc]), [BiModeBP.v] ([bi_mode.cc]), [TournamentBP.v] ([tournament.cc])
      are the instances.  [BPredInv.v], [BPredSteps.v]: the invariant of the unit and
      what each operation does; [BPredProps.v]: the theorems; [BPredRun.v]: concrete runs.
      [LTAGE.v] ([ltage.hh], [ltage.cc]): the L-TAGE predictor; [LTAGEHist.v]: its folded
      histories and history buffer; [LTAGEInv.v], [LTAGEOps.v]: it keeps its tables and the
      contract; [LTAGEProps.v]: the theorems and a concrete run.

    ** How the model reads

    An object shared by pointer lives in a store: the instructions in the heap
    ([w_heap]), the entries of the memory dependence unit in [me_store].  An
    operation returns [Ok] with the new state or [Err] with the failure the code
    would hit.  Per-thread arrays are functions of the thread id; [std::vector]s are
    lists with checked access; an iterator is the element it points at.  Sequence
    numbers and counters are integers, wrapped where the code's width shows
    (unsigned 32-bit occupancies and comparisons, the 8-bit count of ready sources,
    the bit-field arithmetic of the store-set index).

    Parameters of the model, for code that is not in these files: [TheISA::advancePC],
    [StaticInst::branchTarget], the decoder, micro-code and disassembly (all generated from
    the description of the instruction set), the answers of the TLB and of the cache ports,
    the numbers of [rand()] and [random_mt], shifts by an amount out of range, the lengths of the L-TAGE histories
    (computed in floating point), the age of the eldest branch prerequisite and the
    violations found by the load/store queue, and whether an address is secure.  For commit
    ([CommitEnv]): the answers of the interrupt controller and of [hasStoresToWB], the program
    counter a trap leaves, the handlers of pc events, and whether the CPU's list is empty.

    ** What is proved

    - End to end ([NDA.v]): in every reachable state a load behind an unresolved
      branch, neither squashed nor running ahead, has no destination marked ready; in the
      secure-memory mode ([SS_DefendMemRegion]), where execution makes safe what touches no
      secret, this is so for what is still [Unsafe].  The branch counter and the
      occupancy counters are exact.  A thread has at most one branch that initiated runahead
      mode, and none outside that mode, so the panic of [leaveRunaheadMode] is not
      reachable from its callers; when the initiator resolves, the IEW asks commit to squash
      what is behind it.
    - The front end: fetch's loops end and make instructions that follow the predictions, one
      after the other; the hand-over to decode ends, in order, within the width; decode
      delivers in order, and a wrong target removes exactly the wrong path; for all delays
      between the two stages for which [skidBufferMax] is large enough (one cycle back to
      fetch, and decode no wider than fetch, is), the skid buffers never overflow and no assertion of
      decode fails, as long as rename and commit keep their side of the protocol.  Time buffers are delayed wires.
    - Renaming: it refines a contract in which a thread is a list of writes over
      committed locations ([RenameSpec.v]); no physical register is lost or used
      twice; a squash restores maps, histories and free registers exactly; squashing
      to the last commit yields commit's map; what [canRename] admits is renamed
      without failing an assertion (the zero register of a second thread apart), and a drained machine admits whatever fits it.
    - The rename stage: instructions leave in order, none is lost or repeated, within
      the credits and the width; a serializing instruction waits for an empty ROB;
      the invariant holds whatever the wires carry.
    - The load/store queue unit: every operation returns, whatever the interleaving of
      insertions, executions, commits, cache responses, refusals, retries, snoops and
      squashes; the cache receives exactly the writes of the committed stores, in order;
      what a load does (forward, wait, go to memory) is given by a reference definition on
      bytes: the youngest older store with one of its bytes decides, and forwards the latest
      value of each; a store that
      executes finds the loads that ran ahead of it; squashes and snoops are exact.
    - ROB: insertion, the walk and retirement, branch by branch; a squash marks
      exactly the instructions younger than the squash point, finishes within
      [length / squashWidth] cycles and cannot fail when wakeups are left to the IEW.
    - IEW and commit: unsafe results are withheld at writeback, the oldest squash
      request of a cycle wins, wakeups of a cycle are within the writeback width,
      writeback slots are never overwritten, the taint check, what a squash request
      does to the thread, for branches and memory-order violations, in one cycle or several;
      dispatch takes instructions in order.
    - The commit stage ([CommitArchProps.v]): instructions retire from the heads of the lists,
      in order, executed and free of faults, at most [commitWidth] in a cycle, and the commit
      map and the sequence numbers sent back are those of what retired; faults are precise;
      the head alone decides what a cycle does; the loop ends and its assertion holds;
      a cycle is a run of the system of [NDA.v]; rename is told the truth about
      the free entries of the ROB; the stage does not sleep over work.
    - IQ: wakeups are complete and change issue state only (the interface law), the
      ready lists stay ordered, the oldest instruction is considered first,
      scheduling terminates, respects the width and issues no squashed instruction.
    - Memory dependences: the store-set predictor learns from a violation, forgets
      on squash; barriers hold loads, completion releases them.
    - Branch prediction: every operation returns, for every direction predictor that
      keeps its contract; the speculative histories (local, bi-mode, tournament) and the top
      of the return stack are
      those of the path fetch is on, so that a squash restores them, up to the two defects
      below, which the statements name; the return stack
      loses only what overflow overwrites; targets are found once learnt.  L-TAGE: the
      incremental hashes equal their definition on every path, through mispredictions and
      roll-overs of the buffer, where the path keeps what is squashed without a correction;
      the longest match predicts.
    - Findings: the policy [oldestReady] compares a sequence number with a thread id and so
      takes the first thread that is ready, not the oldest; a decode wider than fetch can overflow its skid buffer
      ([skid_overflows_when_wider]), and so can a signal to fetch that takes two cycles
      ([skid_overflows_with_slow_signals]); under the dynamic sharing policy the question
      whether the store queue is full does not return ([dynamic_sqFull_diverges]); [runaheadZeroOutputRegs] never zeroes the first destination; the
      squash loop of the predictor spins on a list that violates its invariant; the
      zero register of a second thread cannot be renamed; switching back to
      whole-register renaming panics; undoing an element rename corrupts the map; the
      end of an access at the top of the address space wraps, and forwarding misses it; a
      return corrected to "taken" loses the top of the return stack at the next squash; a
      branch that misses in the target buffer is trained as taken although it was followed
      as not taken; a jump that misses clears a bit of an unrelated local history; L-TAGE
      allocates in all tables with room where it says one, and its loop predictor cannot
      hit above 4 MB.

    The steps of [NDA.v] are the operations themselves; their side conditions are what
    the other stages provide: rename delivers instructions with increasing sequence
    numbers whose destination registers are allocated to nobody else ([fresh_inst]),
    executed and written-back instructions are in the buffer, and commit retires from
    threads whose status lets them commit (the test of [getCommittingThread], which
    [commit_refines_scheme] discharges).

    ** Fuel

    Every loop over a C++ list is structural.  The others carry fuel: [wakeChain] one
    more than its chain; [findSlot] one more than the occupied slots; [getUnit_loop]
    the length of the class's queue; the squash loop of [StoreSet.v] one more than
    the stores in flight; [scheduleLoop] the ready instructions and classes
    ([schedule_fuel]); the drains one more than their lists; the loops of [LSQ.v] over a
    circular queue its number of entries, or one more (its capacity bounds the steps
    before the index comes back); the loops of [fetch] one more than the width, and the width
    times the length of a line ([outerFuel]); the hand-over to decode a pass over the threads
    per instruction; [commitLoop] one more than the instructions in the ROB; [servicePC] the
    bound [pcFuel] of the environment, within which the pc handlers are assumed to settle.  Each has a theorem that
    the fuel is not exhausted (for the predictor: on well-formed states, with a
    counterexample outside them).

    ** Not modelled

    The execution of instructions itself (the bodies generated from the description of the
    instruction set) and with it the calls of [executeInsts] into the load/store queue and
    of the queue back into the IEW, which [LSQ.v] records and [NDA.v] takes as lists of what
    executed and of what writes back; store conditionals (X86 has none); the register values that
    traps and [updateMiscRegs] write at commit, the checker CPU, the register file's values beyond those zeroed in runahead mode, caches, the other CPU models and instruction sets of gem5, and the
    Python driver of Lapidary.  Statistics, tracing and activity bookkeeping have no
    effect on the state modelled.  [regToProducerInst], which is only printed, is left out. *)

From Stdlib Require Export ZArith Lia.
From stdpp Require Export base gmap list fin_maps functions.

Local Open Scope Z_scope.

(** ** Failure monad

    [assert(...)] and [panic(...)] stop the simulator; [NullDeref] is the
    dereference of a pointer that denotes no live object (or of an [end()]
    iterator), which the C++ leaves undefined. *)
Inductive failure :=
| AssertFailed
| Panicked
| NullDeref
| OutOfFuel
| DivByZero.

#[export] Instance failure_eq_dec : EqDecision failure.
Proof. solve_decision. Defined.

Inductive res (A : Type) :=
| Ok (a : A)
| Err (e : failure).
Arguments Ok {A} a.
Arguments Err {A} e.

#[export] Instance res_ret : MRet res := @Ok.
#[export] Instance res_bind : MBind res :=
  λ A B f m, match m with Ok a => f a | Err e => Err e end.
#[export] Instance res_fmap : FMap res :=
  λ A B f m, match m with Ok a => Ok (f a) | Err e => Err e end.

(** [assert(b)]. *)
Definition assert (b : bool) : res unit := if b then Ok tt else Err AssertFailed.
(** [if (b) panic(...)]. *)
Definition panic_if (b : bool) : res unit := if b then Err Panicked else Ok tt.
(** Dereference of a possibly null pointer or end iterator. *)
Definition deref {A} (o : option A) : res A :=
  match o with Some a => Ok a | None => Err NullDeref end.

Definition is_ok {A} (m : res A) : bool := match m with Ok _ => true | Err _ => false end.
Lemma is_ok_spec {A} (m : res A) : is_ok m = true → ∃ a, m = Ok a.
Proof. destruct m; [eauto|done]. Qed.

Lemma bind_ok {A B} (m : res A) (f : A → res B) (b : B) :
  m ≫= f = Ok b ↔ ∃ a, m = Ok a ∧ f a = Ok b.
Proof. destruct m; cbn; naive_solver. Qed.

Lemma assert_ok (b : bool) (u : unit) : assert b = Ok u ↔ b = true.
Proof. destruct b, u; cbn; naive_solver. Qed.

Lemma panic_if_ok (b : bool) (u : unit) : panic_if b = Ok u ↔ b = false.
Proof. destruct b, u; cbn; naive_solver. Qed.

Lemma deref_ok {A} (o : option A) (a : A) : deref o = Ok a ↔ o = Some a.
Proof. destruct o; cbn; naive_solver. Qed.

(** [mfold f s l]: the loop [for (x : l) s = f(s, x)] of a body that may fail. *)
Fixpoint mfold {S A} (f : S → A → res S) (s : S) (l : list A) : res S :=
  match l with
  | [] => Ok s
  | x :: l' => s' ← f s x; mfold f s' l'
  end.

Lemma mfold_app {S A} (f : S → A → res S) (s : S) (l1 l2 : list A) :
  mfold f s (l1 ++ l2) = (mfold f s l1 ≫= λ s', mfold f s' l2).
Proof.
  revert s; induction l1 as [|x l1 IH]; intros s; [done|].
  cbn [app mfold]. destruct (f s x); [cbn; apply IH|done].
Qed.

(** An invariant of the body is an invariant of the loop. *)
Lemma mfold_inv {S A} (P : S → Prop) (f : S → A → res S) (s s' : S) (l : list A) :
  (∀ s x s', x ∈ l → P s → f s x = Ok s' → P s') →
  P s → mfold f s l = Ok s' → P s'.
Proof.
  revert s; induction l as [|x l IH]; intros s Hf Hs; cbn; [naive_solver|].
  destruct (f s x) as [s1|] eqn:E; cbn; [|done].
  intros Hl. eapply (IH s1); [|eapply (Hf s x); [left|exact Hs|exact E]|exact Hl].
  intros s2 y s3 Hy. apply Hf. by right.
Qed.

(** ** Record update

    [r <| f := v |>] is [r] with field [f] replaced by [v]; [r <| f ::= g |>]
    applies [g] to the field.  A record type declares its eta expansion as an
    [Updatable] instance; the setter of a field is computed from it by
    abstracting the field's projection. *)
Class Updatable (R : Type) := eta_of : R → R.
Class FieldUpdate {R E : Type} (field : R → E) := over_field : (E → E) → R → R.

Ltac derive_field_update :=
  match goal with
  | |- @FieldUpdate ?R ?E ?field =>
      let inst := constr:(_ : Updatable R) in
      let body := eval hnf in inst in
      lazymatch eval pattern field in body with
      | ?k _ =>
          let upd := eval cbv beta in (λ g : E → E, k (λ r : R, g (field r))) in
          exact upd
      end
  end.
#[export] Hint Extern 1 (FieldUpdate _) => derive_field_update : typeclass_instances.

Declare Scope record_update_scope.
Notation "r <| f ::= g |>" := (over_field (field := f) g r)
  (at level 12, f at next level, left associativity) : record_update_scope.
Notation "r <| f := v |>" := (over_field (field := f) (λ _, v) r)
  (at level 12, f at next level, left associativity) : record_update_scope.
Global Open Scope record_update_scope.

(** ** Machine integers *)
(** [unsigned] arithmetic wraps modulo 2^32. *)
Definition u8 (z : Z) : Z := z mod 2 ^ 8.
Definition u32 (z : Z) : Z := z mod 2 ^ 32.
Definition u64 (z : Z) : Z := z mod 2 ^ 64.

Lemma u32_small (z : Z) : 0 ≤ z < 2 ^ 32 → u32 z = z.
Proof. apply Z.mod_small. Qed.
Lemma u8_small (z : Z) : 0 ≤ z < 2 ^ 8 → u8 z = z.
Proof. apply Z.mod_small. Qed.
Lemma u32_range (z : Z) : 0 ≤ u32 z < 2 ^ 32.
Proof. apply Z.mod_pos_bound; lia. Qed.
Lemma u8_range (z : Z) : 0 ≤ u8 z < 2 ^ 8.
Proof. apply Z.mod_pos_bound; lia. Qed.
Lemma u64_range (z : Z) : 0 ≤ u64 z < 2 ^ 64.
Proof. apply Z.mod_pos_bound; lia. Qed.

(** ** Bit sets

    [std::bitset<N>] as a natural number; bit [i] is [N.testbit]. *)
Definition bit_get (i : N) (b : N) : bool := N.testbit b i.
Definition bit_set (i : N) (b : N) : N := N.setbit b i.
Definition bit_reset (i : N) (b : N) : N := N.clearbit b i.

Lemma bit_get_set (i j b : N) : bit_get j (bit_set i b) = (N.eqb i j || bit_get j b)%bool.
Proof. apply N.setbit_eqb. Qed.
Lemma bit_get_reset (i j b : N) :
  bit_get j (bit_reset i b) = (bit_get j b && negb (N.eqb i j))%bool.
Proof. apply N.clearbit_eqb. Qed.
Lemma bit_get_zero (j : N) : bit_get j 0%N = false.
Proof. apply N.bits_0. Qed.

(** ** Vectors

    Access to a [std::vector] or array at an [int] index; an index out of range is
    undefined behaviour in the code, here a failure. *)
Definition vget {A} (l : list A) (i : Z) : res A :=
  if 0 <=? i then deref (l !! Z.to_nat i) else Err NullDeref.
Definition vset {A} (i : Z) (v : A) (l : list A) : res (list A) :=
  if (0 <=? i) && (i <? Z.of_nat (length l)) then Ok (<[Z.to_nat i := v]> l) else Err NullDeref.

Lemma vget_ok {A} (l : list A) (i : Z) (x : A) :
  vget l i = Ok x ↔ 0 ≤ i ∧ l !! Z.to_nat i = Some x.
Proof. unfold vget. destruct (Z.leb_spec 0 i); rewrite ?deref_ok; [tauto|]. split; [done|lia]. Qed.

Lemma vget_in_range {A} (l : list A) (i : Z) : 0 ≤ i < Z.of_nat (length l) → ∃ x, vget l i = Ok x.
Proof.
  intros Hi. destruct (lookup_lt_is_Some_2 l (Z.to_nat i) ltac:(lia)) as [x Hx].
  exists x. apply vget_ok. split; [lia|done].
Qed.

Lemma vset_in_range {A} (l : list A) (i : Z) (v : A) :
  0 ≤ i < Z.of_nat (length l) → vset i v l = Ok (<[Z.to_nat i := v]> l).
Proof.
  intros Hi. unfold vset. destruct (Z.leb_spec 0 i), (Z.ltb_spec i (Z.of_nat (length l))); [done|lia..].
Qed.

Lemma vget_insert {A} (l : list A) (i j : Z) (v : A) :
  0 ≤ i < Z.of_nat (length l) → 0 ≤ j →
  vget (<[Z.to_nat i := v]> l) j = if i =? j then Ok v else vget l j.
Proof.
  intros Hi Hj. unfold vget. destruct (Z.leb_spec 0 j); [|lia].
  destruct (Z.eqb_spec i j) as [->|Hne].
  - rewrite list_lookup_insert_eq by lia. done.
  - rewrite list_lookup_insert_ne by lia. done.
Qed.

(** ** Counting *)
Fixpoint countb {A} (f : A → bool) (l : list A) : nat :=
  match l with
  | [] => 0
  | x :: l' => (if f x then 1 else 0) + countb f l'
  end%nat.

Lemma countb_app {A} (f : A → bool) (l1 l2 : list A) :
  countb f (l1 ++ l2) = (countb f l1 + countb f l2)%nat.
Proof. induction l1 as [|x l1 IH]; cbn; [done|]. rewrite IH. lia. Qed.

Lemma countb_ext {A} (f g : A → bool) (l : list A) :
  (∀ x, x ∈ l → f x = g x) → countb f l = countb g l.
Proof.
  induction l as [|x l IH]; intros H; cbn; [done|].
  rewrite (H x), IH by set_solver. done.
Qed.

Lemma countb_zero {A} (f : A → bool) (l : list A) :
  countb f l = 0%nat ↔ ∀ x, x ∈ l → f x = false.
Proof.
  induction l as [|x l IH]; cbn; [set_solver|].
  setoid_rewrite elem_of_cons. destruct (f x) eqn:E; split.
  - lia.
  - intros H. specialize (H x). rewrite H in E by auto. done.
  - intros H y [->|Hy]; [done|]. by apply IH; [lia|].
  - intros H. apply IH. auto.
Qed.

Lemma countb_pos {A} (f : A → bool) (l : list A) :
  (0 < countb f l)%nat ↔ ∃ x, x ∈ l ∧ f x = true.
Proof.
  induction l as [|x l IH]; cbn; [split; [lia|set_solver]|].
  setoid_rewrite elem_of_cons. destruct (f x) eqn:E; split; intros H; [|lia| |].
  - exists x. auto.
  - destruct IH as [IH _]. destruct IH as (y & ? & ?); [lia|]. eauto.
  - destruct H as (y & [->|Hy] & Hf); [congruence|]. apply IH. eauto.
Qed.

Lemma countb_le_length {A} (f : A → bool) (l : list A) : (countb f l ≤ length l)%nat.
Proof. induction l as [|x l IH]; cbn; [lia|]. destruct (f x); lia. Qed.

Lemma countb_update {A} (f g : A → bool) (x : A) (l : list A) :
  NoDup l → x ∈ l → (∀ y, y ∈ l → y ≠ x → g y = f y) →
  (countb g l + Nat.b2n (f x) = countb f l + Nat.b2n (g x))%nat.
Proof.
  induction l as [|z l IH]; intros Hnd Hx Hne; [by apply not_elem_of_nil in Hx|].
  inversion_clear Hnd as [|? ? Hz Hnd']. cbn [countb].
  apply elem_of_cons in Hx as [Hx|Hx]; [subst z|].
  - rewrite (countb_ext g f l); [destruct (f x), (g x); cbn; lia|].
    intros y Hy. apply Hne; [set_solver|]. intros ->. done.
  - rewrite (Hne z); [|left|congruence]. specialize (IH Hnd' Hx ltac:(set_solver)). lia.
Qed.

(** ** Iterators of a [std::list] with distinct elements

    An iterator of [std::list<DynInstPtr>] is denoted by the element it points
    at; [None] is [end()].  [back_from x l] lists the elements met when the
    iterator at [x] is decremented down to [begin()]. *)
Fixpoint upto {A} `{EqDecision A} (x : A) (l : list A) : list A :=
  match l with
  | [] => []
  | y :: l' => if decide (x = y) then [y] else y :: upto x l'
  end.
Definition back_from {A} `{EqDecision A} (x : A) (l : list A) : list A := reverse (upto x l).

Lemma upto_app_in {A} `{EqDecision A} (x : A) (l1 l2 : list A) :
  x ∉ l1 → upto x (l1 ++ x :: l2) = l1 ++ [x].
Proof.
  induction l1 as [|y l1 IH]; intros H; cbn.
  - by rewrite decide_True.
  - rewrite decide_False by set_solver. f_equal. apply IH. set_solver.
Qed.

Lemma back_from_app {A} `{EqDecision A} (x : A) (l1 l2 : list A) :
  x ∉ l1 → back_from x (l1 ++ x :: l2) = x :: reverse l1.
Proof. intros H. unfold back_from. by rewrite upto_app_in, reverse_app. Qed.

Lemma upto_prefix {A} `{EqDecision A} (x : A) (l : list A) : upto x l `prefix_of` l.
Proof.
  induction l as [|y l IH]; cbn; [done|]. case_decide; [exists l; done|].
  by apply prefix_cons.
Qed.

Lemma filter_keep {A} (P : A → Prop) `{∀ x, Decision (P x)} (l : list A) : Forall P l → filter P l = l.
Proof. induction 1 as [|x l Hx _ IH]; [done|]. by rewrite filter_cons_True, IH. Qed.
Lemma filter_void {A} (P : A → Prop) `{∀ x, Decision (P x)} (l : list A) : Forall (λ x, ¬ P x) l → filter P l = [].
Proof. induction 1 as [|x l Hx _ IH]; [done|]. by rewrite filter_cons_False. Qed.

Lemma filter_same {A} (P Q : A → Prop) `{∀ x, Decision (P x)} `{∀ x, Decision (Q x)} (l : list A) :
  (∀ x, x ∈ l → P x ↔ Q x) → filter P l = filter Q l.
Proof.
  induction l as [|x l IH]; intros Hi; [done|]. rewrite !filter_cons. rewrite IH by (intros y Hy; apply Hi; by right).
  specialize (Hi x ltac:(left)). do 2 case_decide; tauto.
Qed.

(** In a list without duplicates an element splits it in one way. *)
Lemma NoDup_split {A} (x : A) (l1 l2 k1 k2 : list A) :
  NoDup (l1 ++ x :: l2) → l1 ++ x :: l2 = k1 ++ x :: k2 → l1 = k1 ∧ l2 = k2.
Proof.
  revert k1; induction l1 as [|y l1 IH]; intros [|z k1] Hnd E; cbn in *; simplify_eq.
  - done.
  - inversion_clear Hnd. set_solver.
  - inversion_clear Hnd. set_solver.
  - inversion_clear Hnd as [|? ? _ Hnd']. destruct (IH k1 Hnd') as [-> ->]; done.
Qed.

(** ** Fuel

    Operations that do not run out of fuel; [fuel] holds the facts about the
    library's own operations, and [no_fuel] walks through a computation. *)
Definition fuelled {A} (m : res A) : Prop := m ≠ Err OutOfFuel.

Lemma fuelled_bind {A B} (m : res A) (f : A → res B) :
  fuelled m → (∀ a, m = Ok a → fuelled (f a)) → fuelled (m ≫= f).
Proof. unfold fuelled. destruct m; cbn; [auto|congruence]. Qed.
Lemma fuelled_ok {A} (a : A) : fuelled (Ok a).
Proof. done. Qed.
Lemma fuelled_err {A} (e : failure) : e ≠ OutOfFuel → fuelled (@Err A e).
Proof. unfold fuelled. congruence. Qed.
Lemma fuelled_assert (b : bool) : fuelled (assert b).
Proof. by destruct b. Qed.
Lemma fuelled_panic_if (b : bool) : fuelled (panic_if b).
Proof. by destruct b. Qed.
Lemma fuelled_deref {A} (o : option A) : fuelled (deref o).
Proof. by destruct o. Qed.
Lemma fuelled_vget {A} (l : list A) (i : Z) : fuelled (vget l i).
Proof. unfold vget. destruct (0 <=? i); [apply fuelled_deref|done]. Qed.
Lemma fuelled_vset {A} (i : Z) (v : A) (l : list A) : fuelled (vset i v l).
Proof. unfold vset. by destruct (_ && _). Qed.
Lemma fuelled_mfold {S A} (f : S → A → res S) (s : S) (l : list A) :
  (∀ s x, x ∈ l → fuelled (f s x)) → fuelled (mfold f s l).
Proof.
  revert s; induction l as [|x l IH]; intros s Hf; cbn [mfold]; [done|].
  apply fuelled_bind; [apply Hf; left|]. intros s' _. apply IH. intros. apply Hf. by right.
Qed.

Create HintDb fuel.
#[export] Hint Resolve fuelled_ok fuelled_assert fuelled_panic_if fuelled_deref fuelled_vget fuelled_vset : fuel.
#[export] Hint Extern 1 (fuelled (Err _)) => (apply fuelled_err; discriminate) : fuel.
Ltac no_fuel :=
  repeat first
    [ solve [eauto with fuel]
    | progress cbn zeta
    | apply fuelled_bind; [|intros ? ?]
    | match goal with |- fuelled (match ?x with _ => _ end) => destruct x end ].

(** ** Tactics *)
(** Unfold a chain of binds in a hypothesis [_ = Ok _]. *)
Ltac inv_res H :=
  repeat (first
    [ apply bind_ok in H; let a := fresh "a" in let E := fresh "E" in
      destruct H as (a & E & H)
    | apply assert_ok in H | apply panic_if_ok in H | apply deref_ok in H ]).

Ltac res_step :=
  match goal with
  | H : _ ≫= _ = Ok _ |- _ => apply bind_ok in H; destruct H as (? & ? & H)
  | H : assert _ = Ok _ |- _ => apply assert_ok in H
  | H : panic_if _ = Ok _ |- _ => apply panic_if_ok in H
  | H : deref _ = Ok _ |- _ => apply deref_ok in H
  | H : Ok _ = Ok _ |- _ => injection H as H; subst
  | H : mret _ = Ok _ |- _ => injection H as H; subst
  | H : Err _ = Ok _ |- _ => discriminate H
  | p : (_ * _)%type |- _ => destruct p
  | u : unit |- _ => destruct u
  end.
(** Decompose every successful computation of the context. *)
Ltac res_simp := repeat (res_step; cbn beta iota in * ).
