(* ===== verification/Regs.v ===== *)
(** * Register identifiers

    [src/cpu/reg_class.hh] ([RegClass], [RegId]) and the [PhysRegId] part of
    [src/cpu/o3/comm.hh], for the X86 ISA the simulator is built with.

    A [PhysRegIdPtr] of the code points at one of the [PhysRegId] objects owned
    by the [PhysRegFile], which are pairwise different; it is denoted by the
    immutable fields of that object.  The one mutable field, the taint bit
    [isNonSpec], is kept aside as the set of tainted registers ([taint]). *)

From S2P Require Import Prelude.
Local Open Scope Z_scope.

Inductive RegClass :=
| IntRegClass
| FloatRegClass
| VecRegClass
| VecElemClass
| CCRegClass
| MiscRegClass.

#[export] Instance RegClass_eq_dec : EqDecision RegClass.
Proof. solve_decision. Defined.

(** Position of the class in the C++ enumeration. *)
Definition RegClass_num (c : RegClass) : nat :=
  match c with
  | IntRegClass => 0
  | FloatRegClass => 1
  | VecRegClass => 2
  | VecElemClass => 3
  | CCRegClass => 4
  | MiscRegClass => 5
  end.

#[export] Instance RegClass_countable : Countable RegClass.
Proof.
  refine (inj_countable' RegClass_num
    (λ n, match n with
          | 0 => IntRegClass | 1 => FloatRegClass | 2 => VecRegClass
          | 3 => VecElemClass | 4 => CCRegClass | _ => MiscRegClass end)%nat _).
  by intros [].
Defined.

(** The X86 constants the register code uses. *)
Definition NUM_INTREGS : Z := 16.
Definition ZeroReg : Z := NUM_INTREGS.
Definition INTREG_RBP : Z := 5.
Definition NumVecElemPerVecReg : Z := 2.

(** ** Architectural registers *)
Record RegId := MkRegId {
  regClass : RegClass;
  regIdx : Z;
  elemIdx : Z;
}.

#[export] Instance RegId_eq_dec : EqDecision RegId.
Proof. solve_decision. Defined.

#[export] Instance RegId_countable : Countable RegId.
Proof.
  refine (inj_countable' (λ r, (regClass r, regIdx r, elemIdx r))
    (λ '(c, i, e), MkRegId c i e) _). by intros [].
Defined.

(** The scalar constructor refuses vector elements; [elemIdx] is [(uint16_t)-1]. *)
Definition RegId_scalar (reg_class : RegClass) (reg_idx : Z) : res RegId :=
  _ ← panic_if (bool_decide (reg_class = VecElemClass));
  Ok (MkRegId reg_class reg_idx (2 ^ 16 - 1)).
(** The vector-element constructor refuses everything else. *)
Definition RegId_elem (reg_class : RegClass) (reg_idx elem_idx : Z) : res RegId :=
  _ ← panic_if (bool_decide (reg_class ≠ VecElemClass));
  Ok (MkRegId reg_class reg_idx elem_idx).

(** [operator==] and [operator<]. *)
Definition RegId_eqb (r that : RegId) : bool :=
  bool_decide (regClass r = regClass that) && (regIdx r =? regIdx that)
  && (elemIdx r =? elemIdx that).
Definition RegId_ltb (r that : RegId) : bool :=
  (RegClass_num (regClass r) <? RegClass_num (regClass that))%nat
  || (bool_decide (regClass r = regClass that)
      && ((regIdx r <? regIdx that)
          || ((regIdx r =? regIdx that) && (elemIdx r <? elemIdx that)))).

Definition isRenameable (r : RegId) : bool := bool_decide (regClass r ≠ MiscRegClass).
Definition isZeroReg (r : RegId) : bool :=
  bool_decide (regClass r = IntRegClass) && (regIdx r =? ZeroReg).

(** Index into the class's rename table. *)
Definition RegId_flatIndex (r : RegId) : Z :=
  match regClass r with
  | VecElemClass => NumVecElemPerVecReg * regIdx r + elemIdx r
  | _ => regIdx r
  end.

(** ** Physical registers *)
Record PhysRegId := MkPhysRegId {
  pr_reg : RegId;
  flatIdx : Z;
}.

#[export] Instance PhysRegId_eq_dec : EqDecision PhysRegId.
Proof. solve_decision. Defined.

#[export] Instance PhysRegId_countable : Countable PhysRegId.
Proof.
  refine (inj_countable' (λ r, (pr_reg r, flatIdx r)) (λ '(r, f), MkPhysRegId r f) _).
  by intros [].
Defined.

(** [PhysRegId()]. *)
Definition PhysRegId_default : PhysRegId :=
  MkPhysRegId (MkRegId IntRegClass (2 ^ 16 - 1) (2 ^ 16 - 1)) (-1).
Definition flatIndex (r : PhysRegId) : Z := flatIdx r.
Definition isFixedMapping (r : PhysRegId) : bool := negb (isRenameable (pr_reg r)).
Definition isZeroPhysReg (r : PhysRegId) : bool := isZeroReg (pr_reg r).
Definition isCCPhysReg (r : PhysRegId) : bool := bool_decide (regClass (pr_reg r) = CCRegClass).

(** ** Taint

    The registers whose [isNonSpec] bit is set. *)
Abbreviation taint := (gset PhysRegId).

Definition isSecureSpecPhysReg (t : taint) (r : PhysRegId) : bool := bool_decide (r ∈ t).
Definition clearSecureSpecPhysReg (r : PhysRegId) (t : taint) : taint := t ∖ {[ r ]}.
Definition setSecureSpecPhysReg (r : PhysRegId) (t : taint) : taint :=
  if isZeroPhysReg r then t else {[ r ]} ∪ t.

(** ** Facts *)
Lemma RegId_eqb_eq (r r' : RegId) : RegId_eqb r r' = true ↔ r = r'.
Proof.
  unfold RegId_eqb. destruct r as [c i e], r' as [c' i' e']; cbn [regClass regIdx elemIdx].
  rewrite !andb_true_iff, bool_decide_eq_true, !Z.eqb_eq. naive_solver.
Qed.

(** [operator<] is a strict total order, as [std::map<RegId, _>] requires. *)
Lemma RegId_ltb_trichotomy (r r' : RegId) :
  RegId_ltb r r' = true ∨ r = r' ∨ RegId_ltb r' r = true.
Proof.
  unfold RegId_ltb. destruct r as [c i e], r' as [c' i' e']; cbn [regClass regIdx elemIdx].
  rewrite !orb_true_iff, !andb_true_iff, !orb_true_iff, !andb_true_iff,
    !Nat.ltb_lt, !Z.ltb_lt, !Z.eqb_eq, !bool_decide_eq_true.
  destruct (decide (c = c')) as [<-|Hc].
  - destruct (Z.lt_total i i') as [?|[<-|?]]; [tauto| |tauto].
    destruct (Z.lt_total e e') as [?|[<-|?]]; tauto.
  - destruct (Nat.lt_total (RegClass_num c) (RegClass_num c')) as [?|[E|?]]; [tauto| |tauto].
    destruct c, c'; cbn in E; congruence.
Qed.

Lemma RegId_ltb_irrefl (r : RegId) : RegId_ltb r r = false.
Proof.
  unfold RegId_ltb. rewrite Nat.ltb_irrefl, !Z.ltb_irrefl, andb_false_r. cbn.
  apply andb_false_r.
Qed.

(** The zero register cannot be tainted. *)
Lemma set_taint_zero (r : PhysRegId) (t : taint) :
  isZeroPhysReg r = true → setSecureSpecPhysReg r t = t.
Proof. intros H. unfold setSecureSpecPhysReg. by rewrite H. Qed.

Lemma elem_of_set_taint (r r' : PhysRegId) (t : taint) :
  r' ∈ setSecureSpecPhysReg r t ↔ (isZeroPhysReg r = false ∧ r' = r) ∨ r' ∈ t.
Proof. unfold setSecureSpecPhysReg. destruct (isZeroPhysReg r); set_solver. Qed.
