(* ===== verification/DynInst.v ===== *)
(** * Dynamic instructions

    [src/cpu/static_inst.hh], [src/cpu/base_dyn_inst.hh] and
    [src/cpu/base_dyn_inst_impl.hh]: the per-instruction object every pipeline
    stage shares.  [status] and [instFlags] are the [std::bitset]s of the code,
    indexed by the position of the flag in its C++ enumeration.  Setters are
    functions on the object; the objects live in a [heap] indexed by the
    [DynInstPtr], so that a flag set by one stage is seen by the others.

    [cpu->curCycle()] is a parameter of the operations that read it.  Trace data,
    statistics and the request pointers of the memory system are left out. *)

From S2P Require Import Prelude Regs.
Local Open Scope Z_scope.

(** ** Static instructions *)
(** The property flags, in the order of [StaticInstFlags.py]. *)
Inductive StaticInstFlags :=
| IsNop
| IsInteger
| IsFloating
| IsCC
| IsVector
| IsVectorElem
| IsMemRef
| IsLoad
| IsStore
| IsAtomic
| IsStoreConditional
| IsIndexed
| IsInstPrefetch
| IsDataPrefetch
| IsControl
| IsDirectControl
| IsIndirectControl
| IsCondControl
| IsUncondControl
| IsCall
| IsReturn
| IsCondDelaySlot
| IsThreadSync
| IsSerializing
| IsSerializeBefore
| IsSerializeAfter
| IsMemBarrier
| IsWriteBarrier
| IsReadBarrier
| IsERET
| IsNonSpeculative
| IsQuiesce
| IsIprAccess
| IsUnverifiable
| IsSyscall
| IsMacroop
| IsMicroop
| IsDelayedCommit
| IsLastMicroop
| IsFirstMicroop
| IsMicroBranch
| IsDspOp
| IsSquashAfter
| IsUnimplemented.
Definition SIF_idx (s : StaticInstFlags) : N :=
  match s with
  | IsNop => 0
  | IsInteger => 1
  | IsFloating => 2
  | IsCC => 3
  | IsVector => 4
  | IsVectorElem => 5
  | IsMemRef => 6
  | IsLoad => 7
  | IsStore => 8
  | IsAtomic => 9
  | IsStoreConditional => 10
  | IsIndexed => 11
  | IsInstPrefetch => 12
  | IsDataPrefetch => 13
  | IsControl => 14
  | IsDirectControl => 15
  | IsIndirectControl => 16
  | IsCondControl => 17
  | IsUncondControl => 18
  | IsCall => 19
  | IsReturn => 20
  | IsCondDelaySlot => 21
  | IsThreadSync => 22
  | IsSerializing => 23
  | IsSerializeBefore => 24
  | IsSerializeAfter => 25
  | IsMemBarrier => 26
  | IsWriteBarrier => 27
  | IsReadBarrier => 28
  | IsERET => 29
  | IsNonSpeculative => 30
  | IsQuiesce => 31
  | IsIprAccess => 32
  | IsUnverifiable => 33
  | IsSyscall => 34
  | IsMacroop => 35
  | IsMicroop => 36
  | IsDelayedCommit => 37
  | IsLastMicroop => 38
  | IsFirstMicroop => 39
  | IsMicroBranch => 40
  | IsDspOp => 41
  | IsSquashAfter => 42
  | IsUnimplemented => 43
  end%N.

Record StaticInst := MkStaticInst {
  si_flags : N;  (* std::bitset<NumFlags> flags *)
  opClass_ : nat;  (* _opClass *)
  srcRegs : list RegId;  (* _srcRegIdx[0.._numSrcRegs) *)
  destRegs : list RegId;  (* _destRegIdx[0.._numDestRegs) *)
  ignoreTaintFromRegIds : N;  (* X86StaticInst::ignoreTaintFromRegIds *)
}.

Definition si_flag (f : StaticInstFlags) (s : StaticInst) : bool := bit_get (SIF_idx f) (si_flags s).
(** The flag word with exactly the given flags set. *)
Definition flags_of (l : list StaticInstFlags) : N :=
  foldr (λ f b, bit_set (SIF_idx f) b) 0%N l.

(** ** Program counters

    X86's [PCState] ([src/arch/x86/types.hh], [src/arch/generic/types.hh]): the address of
    the instruction and of the next one, the same for micro-operations, and the size. *)
Record PCState := MkPCState { pc_ : Z; npc_ : Z; upc_ : Z; nupc_ : Z; size_ : Z }.
#[export] Instance PCState_eta : Updatable PCState := λ r, MkPCState (pc_ r) (npc_ r) (upc_ r) (nupc_ r) (size_ r).
#[export] Instance PCState_eq_dec : EqDecision PCState.
Proof. solve_decision. Defined.

(** [sizeof(MachInst)], a [uint64_t]. *)
Definition MachInst_size : Z := 8.
(** [PCState(Addr)], which is [set]. *)
Definition pc_set (val : Z) : PCState := MkPCState val (u64 (val + MachInst_size)) 0 1 0.
Definition instAddr (p : PCState) : Z := pc_ p.
(** [UPCState::uEnd] advances the program counter and restarts the micro-pc; the size is
    cleared by [PCState::uEnd]. *)
Definition uEnd (p : PCState) : PCState := MkPCState (npc_ p) (u64 (npc_ p + MachInst_size)) 0 1 0.
(** [TheISA::buildRetPC]; the first argument is not used. *)
Definition buildRetPC (curPC callPC : PCState) : PCState := uEnd callPC.
(** [operator==] is [UPCState]'s: the size is not compared. *)
Definition pc_eqb (p q : PCState) : bool :=
  (pc_ p =? pc_ q) && (npc_ p =? npc_ q) && (upc_ p =? upc_ q) && (nupc_ p =? nupc_ q).
Definition branching (p : PCState) : bool :=
  negb (npc_ p =? u64 (pc_ p + size_ p)) || negb (nupc_ p =? upc_ p + 1).

(** ** Dynamic instruction state *)
Inductive Status :=
| IqEntry
| RobEntry
| LsqEntry
| Completed
| ResultReady
| CanIssue
| Issued
| Executing
| Executed
| WritebackDone
| CanCommit
| AtCommit
| Committed
| Squashed
| SquashedInIQ
| SquashedInLSQ
| SquashedInROB
| RecoverInst
| BlockingInst
| ThreadsyncWait
| SerializeBefore
| SerializeAfter
| SerializeHandled
| MaySquashOthers
| Unsafe
| ResolvedAtDecode
| BranchPrequisite
| Runahead
| SatisfiedFromMemory
| SecureSpec.
Definition Status_idx (s : Status) : N :=
  match s with
  | IqEntry => 0
  | RobEntry => 1
  | LsqEntry => 2
  | Completed => 3
  | ResultReady => 4
  | CanIssue => 5
  | Issued => 6
  | Executing => 7
  | Executed => 8
  | WritebackDone => 9
  | CanCommit => 10
  | AtCommit => 11
  | Committed => 12
  | Squashed => 13
  | SquashedInIQ => 14
  | SquashedInLSQ => 15
  | SquashedInROB => 16
  | RecoverInst => 17
  | BlockingInst => 18
  | ThreadsyncWait => 19
  | SerializeBefore => 20
  | SerializeAfter => 21
  | SerializeHandled => 22
  | MaySquashOthers => 23
  | Unsafe => 24
  | ResolvedAtDecode => 25
  | BranchPrequisite => 26
  | Runahead => 27
  | SatisfiedFromMemory => 28
  | SecureSpec => 29
  end%N.

Inductive Flags :=
| NotAnInst
| TranslationStarted
| TranslationCompleted
| PossibleLoadViolation
| HitExternalSnoop
| EffAddrValid
| RecordResult
| Predicate
| PredTaken
| IsStrictlyOrdered
| ReqMade
| MemOpDone.
Definition Flags_idx (s : Flags) : N :=
  match s with
  | NotAnInst => 0
  | TranslationStarted => 1
  | TranslationCompleted => 2
  | PossibleLoadViolation => 3
  | HitExternalSnoop => 4
  | EffAddrValid => 5
  | RecordResult => 6
  | Predicate => 7
  | PredTaken => 8
  | IsStrictlyOrdered => 9
  | ReqMade => 10
  | MemOpDone => 11
  end%N.

Inductive Fault :=
| NoFault
| SecureMemProtection (vaddr : Z)
| ReExec
| M5PanicFault
| OtherFault (n : Z).

#[export] Instance Fault_eq_dec : EqDecision Fault.
Proof. solve_decision. Defined.

(** [(Tick)(-1)]: "not set". *)
Definition NoTick : Z := 2 ^ 64 - 1.

Record DynInst := MkDynInst {
  seqNum : Z;
  addedToLSQTimestamp : Z;
  addedToROBTimestamp : Z;
  latencyToIssue : Z;
  staticInst : StaticInst;
  macroop : option StaticInst;
  fault : Fault;
  pc : PCState;
  predPC : PCState;
  instFlags : N;
  status : N;
  readySrcRegIdx : N;  (* _readySrcRegIdx *)
  threadNumber : nat;
  readyRegs : Z;  (* uint8_t *)
  effAddr : Z;
  physEffAddrLow : Z;
  physEffAddrHigh : Z;
  effSize : Z;
  memData : option (list Z);  (* null, or the bytes *)
  lqIdx : Z;
  sqIdx : Z;
  flatDestRegIdx : list RegId;  (* _flatDestRegIdx *)
  destRegIdx_ : list PhysRegId;  (* _destRegIdx *)
  srcRegIdx_ : list PhysRegId;  (* _srcRegIdx *)
  prevDestRegIdx_ : list PhysRegId;  (* _prevDestRegIdx *)
}.
#[export] Instance DynInst_eta : Updatable DynInst := λ r, MkDynInst (seqNum r)
  (addedToLSQTimestamp r) (addedToROBTimestamp r) (latencyToIssue r) (staticInst r) (macroop r) (fault r)
  (pc r) (predPC r) (instFlags r) (status r) (readySrcRegIdx r) (threadNumber r) (readyRegs r)
  (effAddr r) (physEffAddrLow r) (physEffAddrHigh r) (effSize r) (memData r) (lqIdx r) (sqIdx r) (flatDestRegIdx r) (destRegIdx_ r) (srcRegIdx_ r)
  (prevDestRegIdx_ r).

#[export] Instance Status_eq_dec : EqDecision Status.
Proof. solve_decision. Defined.

(** A [DynInstPtr]. *)
Abbreviation InstPtr := nat (only parsing).
(** The live [DynInst] objects. *)
Abbreviation heap := (gmap nat DynInst).

Definition get_st (s : Status) (d : DynInst) : bool := bit_get (Status_idx s) (status d).
Definition st_set (s : Status) (d : DynInst) : DynInst := d <| status ::= bit_set (Status_idx s) |>.
Definition st_reset (s : Status) (d : DynInst) : DynInst := d <| status ::= bit_reset (Status_idx s) |>.

Definition get_fl (f : Flags) (d : DynInst) : bool := bit_get (Flags_idx f) (instFlags d).
(** [instFlags[f] = b]. *)
Definition fl_assign (f : Flags) (b : bool) (d : DynInst) : DynInst :=
  d <| instFlags ::= (if b then bit_set (Flags_idx f) else bit_reset (Flags_idx f)) |>.

(** *** Construction *)
(** The constructor followed by [initVars()].  The operand arrays, whose slots the
    code leaves unset until rename fills them, hold a placeholder per operand. *)
Definition initVars (si : StaticInst) (seq_num : Z) (pc0 predPC0 : PCState) : DynInst :=
  {| seqNum := seq_num; addedToLSQTimestamp := NoTick; addedToROBTimestamp := NoTick;
     latencyToIssue := NoTick; staticInst := si; macroop := None; fault := NoFault; pc := pc0;
     predPC := predPC0;
     instFlags := bit_set (Flags_idx Predicate) (bit_set (Flags_idx RecordResult) 0%N);
     status := 0%N; readySrcRegIdx := 0%N; threadNumber := 0%nat; readyRegs := 0;
     effAddr := 0; physEffAddrLow := 0; physEffAddrHigh := 0; effSize := 0; memData := None; lqIdx := -1; sqIdx := -1;
     flatDestRegIdx := destRegs si;
     destRegIdx_ := (λ _, PhysRegId_default) <$> destRegs si;
     srcRegIdx_ := (λ _, PhysRegId_default) <$> srcRegs si;
     prevDestRegIdx_ := (λ _, PhysRegId_default) <$> destRegs si |}.
Definition setTid (tid : nat) (d : DynInst) : DynInst := d <| threadNumber := tid |>.

(** *** Static properties *)
Definition isNop (d : DynInst) : bool := si_flag IsNop (staticInst d).
Definition isMemRef (d : DynInst) : bool := si_flag IsMemRef (staticInst d).
Definition isLoad (d : DynInst) : bool := si_flag IsLoad (staticInst d).
Definition isStore (d : DynInst) : bool := si_flag IsStore (staticInst d).
Definition isStoreConditional (d : DynInst) : bool := si_flag IsStoreConditional (staticInst d).
Definition isControl (d : DynInst) : bool := si_flag IsControl (staticInst d).
Definition isMemBarrier (d : DynInst) : bool := si_flag IsMemBarrier (staticInst d).
Definition isWriteBarrier (d : DynInst) : bool := si_flag IsWriteBarrier (staticInst d).
Definition isNonSpeculative (d : DynInst) : bool := si_flag IsNonSpeculative (staticInst d).
Definition canCauseMisprediction (d : DynInst) : bool := isControl d.
Definition opClass (d : DynInst) : nat := opClass_ (staticInst d).
Definition numSrcRegs (d : DynInst) : Z := Z.of_nat (length (srcRegs (staticInst d))).
Definition numDestRegs (d : DynInst) : Z := Z.of_nat (length (destRegs (staticInst d))).

(** *** NDA flags *)
Definition setMaySquashOthers : DynInst → DynInst := st_set MaySquashOthers.
Definition clearMaySquashOthers : DynInst → DynInst := st_reset MaySquashOthers.
Definition maySquashOthers : DynInst → bool := get_st MaySquashOthers.
Definition setUnsafe : DynInst → DynInst := st_set Unsafe.
Definition clearUnsafe : DynInst → DynInst := st_reset Unsafe.
Definition isUnsafe : DynInst → bool := get_st Unsafe.
Definition setExecuting : DynInst → DynInst := st_set Executing.
Definition isExecuting : DynInst → bool := get_st Executing.
Definition setWritebackDone : DynInst → DynInst := st_set WritebackDone.
Definition isWritebackDone : DynInst → bool := get_st WritebackDone.
Definition setResolvedAtDecode : DynInst → DynInst := st_set ResolvedAtDecode.
Definition isResolvedAtDecode : DynInst → bool := get_st ResolvedAtDecode.
Definition setBranchPrequisite : DynInst → DynInst := st_set BranchPrequisite.
Definition isBranchPrequisite : DynInst → bool := get_st BranchPrequisite.
Definition setRunahead : DynInst → DynInst := st_set Runahead.
Definition clearRunahead : DynInst → DynInst := st_reset Runahead.
Definition isRunahead : DynInst → bool := get_st Runahead.
Definition setSecureSpec : DynInst → DynInst := st_set SecureSpec.
Definition isSecureSpec : DynInst → bool := get_st SecureSpec.

(** *** Pipeline status *)
Definition setCanIssue (curCycle : Z) (d : DynInst) : DynInst :=
  st_set CanIssue
    (d <| latencyToIssue := (if addedToROBTimestamp d =? NoTick then 0
                             else u64 (curCycle - addedToROBTimestamp d)) |>).
Definition readyToIssue : DynInst → bool := get_st CanIssue.
Definition clearCanIssue : DynInst → DynInst := st_reset CanIssue.
Definition setIssued : DynInst → DynInst := st_set Issued.
Definition isIssued : DynInst → bool := get_st Issued.
Definition clearIssued : DynInst → DynInst := st_reset Issued.
Definition setExecuted : DynInst → DynInst := st_set Executed.
Definition isExecuted : DynInst → bool := get_st Executed.
Definition isCompleted : DynInst → bool := get_st Completed.
Definition setCanCommit : DynInst → DynInst := st_set CanCommit.
Definition readyToCommit : DynInst → bool := get_st CanCommit.
Definition setAtCommit : DynInst → DynInst := st_set AtCommit.
Definition setCommitted : DynInst → DynInst := st_set Committed.
Definition setSquashed : DynInst → DynInst := st_set Squashed.
Definition isSquashed : DynInst → bool := get_st Squashed.
Definition setInIQ : DynInst → DynInst := st_set IqEntry.
Definition clearInIQ : DynInst → DynInst := st_reset IqEntry.
Definition setSquashedInIQ (d : DynInst) : DynInst := st_set Squashed (st_set SquashedInIQ d).
Definition isSquashedInIQ : DynInst → bool := get_st SquashedInIQ.
Definition setInROB (curCycle : Z) (d : DynInst) : DynInst :=
  st_set RobEntry (d <| addedToROBTimestamp := curCycle |>).
Definition clearInROB : DynInst → DynInst := st_reset RobEntry.
Definition isInROB : DynInst → bool := get_st RobEntry.
Definition translationStarted : DynInst → bool := get_fl TranslationStarted.
Definition translationCompleted : DynInst → bool := get_fl TranslationCompleted.
Definition isTranslationDelayed (d : DynInst) : bool :=
  translationStarted d && negb (translationCompleted d).
Definition memOpDone : DynInst → bool := get_fl MemOpDone.

(** *** Memory accesses *)
Definition isDataPrefetch (d : DynInst) : bool := si_flag IsDataPrefetch (staticInst d).
Definition effAddrValid : DynInst → bool := get_fl EffAddrValid.
Definition strictlyOrdered : DynInst → bool := get_fl IsStrictlyOrdered.
Definition possibleLoadViolation : DynInst → bool := get_fl PossibleLoadViolation.
Definition set_possibleLoadViolation : bool → DynInst → DynInst := fl_assign PossibleLoadViolation.
Definition hitExternalSnoop : DynInst → bool := get_fl HitExternalSnoop.
Definition set_hitExternalSnoop : bool → DynInst → DynInst := fl_assign HitExternalSnoop.
Definition readPredicate : DynInst → bool := get_fl Predicate.
Definition hasRequest : DynInst → bool := get_fl ReqMade.
Definition isAtCommit : DynInst → bool := get_st AtCommit.
Definition setCompleted : DynInst → DynInst := st_set Completed.
Definition setInLSQ : DynInst → DynInst := st_set LsqEntry.
Definition setSatisfiedFromMemory : DynInst → DynInst := st_set SatisfiedFromMemory.

(** *** Serialization *)
Definition isIprAccess (d : DynInst) : bool := si_flag IsIprAccess (staticInst d).
Definition isSerializeBefore (d : DynInst) : bool :=
  si_flag IsSerializeBefore (staticInst d) || get_st SerializeBefore d.
Definition isSerializeAfter (d : DynInst) : bool :=
  si_flag IsSerializeAfter (staticInst d) || get_st SerializeAfter d.
Definition setSerializeBefore : DynInst → DynInst := st_set SerializeBefore.
Definition clearSerializeBefore : DynInst → DynInst := st_reset SerializeBefore.
Definition isTempSerializeBefore : DynInst → bool := get_st SerializeBefore.
Definition setSerializeHandled : DynInst → DynInst := st_set SerializeHandled.
Definition isSerializeHandled : DynInst → bool := get_st SerializeHandled.

(** *** Control flow *)
Definition isDirectCtrl (d : DynInst) : bool := si_flag IsDirectControl (staticInst d).
Definition isUncondCtrl (d : DynInst) : bool := si_flag IsUncondControl (staticInst d).
Definition readPredTaken : DynInst → bool := get_fl PredTaken.
Definition setPredTaken : bool → DynInst → DynInst := fl_assign PredTaken.
Definition readPredTarg (d : DynInst) : PCState := predPC d.
Definition setPredTarg (t : PCState) (d : DynInst) : DynInst := d <| predPC := t |>.

(** *** Commit *)
Definition isThreadSync (d : DynInst) : bool := si_flag IsThreadSync (staticInst d).
Definition isSquashAfter (d : DynInst) : bool := si_flag IsSquashAfter (staticInst d).
Definition isMicroop (d : DynInst) : bool := si_flag IsMicroop (staticInst d).
Definition isDelayedCommit (d : DynInst) : bool := si_flag IsDelayedCommit (staticInst d).
Definition isLastMicroop (d : DynInst) : bool := si_flag IsLastMicroop (staticInst d).
Definition clearCanCommit : DynInst → DynInst := st_reset CanCommit.
Definition notAnInst : DynInst → bool := get_fl NotAnInst.
Definition setNotAnInst : DynInst → DynInst := fl_assign NotAnInst true.
Definition isQuiesce (d : DynInst) : bool := si_flag IsQuiesce (staticInst d).

(** Age of a load in the LSQ, 0 when it was never inserted. *)
Definition ageInLSQ (curCycle : Z) (d : DynInst) : Z :=
  if addedToLSQTimestamp d =? NoTick then 0 else u64 (curCycle - addedToLSQTimestamp d).

(** *** Renamed operands *)
Definition renameDestReg (idx : nat) (renamed_dest previous_rename : PhysRegId) (d : DynInst) : DynInst :=
  d <| destRegIdx_ ::= <[idx := renamed_dest]> |>
    <| prevDestRegIdx_ ::= <[idx := previous_rename]> |>.
Definition renameSrcReg (idx : nat) (renamed_src : PhysRegId) (d : DynInst) : DynInst :=
  d <| srcRegIdx_ ::= <[idx := renamed_src]> |>.
Definition flattenDestReg (idx : nat) (flattened_dest : RegId) (d : DynInst) : DynInst :=
  d <| flatDestRegIdx ::= <[idx := flattened_dest]> |>.
(** [numIntDestRegs()] and its siblings: the destinations of a class. *)
Definition numDestRegsOf (cls : RegClass) (d : DynInst) : Z :=
  Z.of_nat (countb (λ r, bool_decide (regClass r = cls)) (destRegs (staticInst d))).
Definition isReadySrcRegIdx (idx : nat) (d : DynInst) : bool := bit_get (N.of_nat idx) (readySrcRegIdx d).

(** [markSrcRegReady()]: one more source operand is available. *)
Definition markSrcRegReady (curCycle : Z) (d : DynInst) : res DynInst :=
  let d := d <| readyRegs ::= (λ n, u8 (n + 1)) |> in
  let d := if readyRegs d =? numSrcRegs d then setCanIssue curCycle d else d in
  _ ← panic_if (numSrcRegs d <? readyRegs d);
  Ok d.
(** [markSrcRegReady(src_idx)]: also records which one. *)
Definition markSrcRegReady_idx (curCycle : Z) (src_idx : nat) (d : DynInst) : res DynInst :=
  markSrcRegReady curCycle (d <| readySrcRegIdx ::= bit_set (N.of_nat src_idx) |>).
(** Source registers 1.. are the ones an effective address depends on. *)
Definition eaSrcsReady (d : DynInst) : bool :=
  forallb (λ i, isReadySrcRegIdx i d) (seq 1 (Z.to_nat (numSrcRegs d) - 1)).

(** The destinations a loop [for (i < numDestRegs()) renamedDestRegIdx(i)] visits. *)
Definition renamedDests (d : DynInst) : list PhysRegId :=
  take (Z.to_nat (numDestRegs d)) (destRegIdx_ d).

(** *** Taint *)
(** Taint every renamed destination register. *)
Definition markDestRegsAsSecureSpec (d : DynInst) (t : taint) : taint :=
  foldl (λ t r, setSecureSpecPhysReg r t) t (renamedDests d).

(** The taint of a source operand is ignored for operands the instruction
    overwrites, for condition codes and for RBP. *)
Definition ignoreTaint (d : DynInst) (i : nat) (src_reg : PhysRegId) : bool :=
  bit_get (N.of_nat i) (ignoreTaintFromRegIds (staticInst d))
  || isCCPhysReg src_reg
  || match srcRegs (staticInst d) !! i with
     | Some r => regIdx r =? INTREG_RBP
     | None => false
     end.
Definition isSrcRegsSecureSpec (d : DynInst) (t : taint) : bool :=
  existsb (λ '(i, src_reg), isSecureSpecPhysReg t src_reg && negb (ignoreTaint d i src_reg))
    (zip (seq 0 (Z.to_nat (numSrcRegs d))) (srcRegIdx_ d)).

(** Is the effective address in [[secureMemStart, secureMemEnd)]? *)
Definition isAddrSecure (secureMemStart secureMemEnd effectiveAddress : Z) : bool :=
  (secureMemStart <=? effectiveAddress) && (effectiveAddress <? secureMemEnd).

(** *** Runahead outputs *)
(** The physical register file, as far as [setIntRegOperand] and its siblings write it. *)
Abbreviation regvals := (gmap PhysRegId Z).
(** One iteration of [runaheadZeroOutputRegs]: zero an int, float or CC register. *)
Definition zeroOutputReg (v : regvals) (destReg : PhysRegId) : res regvals :=
  match regClass (pr_reg destReg) with
  | IntRegClass | FloatRegClass | CCRegClass => Ok (<[destReg := 0]> v)
  | VecRegClass | VecElemClass | MiscRegClass => Err Panicked
  end.
(** The loop starts at destination 1. *)
Definition runaheadZeroOutputRegs (d : DynInst) (v : regvals) : res regvals :=
  mfold zeroOutputReg v (drop 1 (renamedDests d)).

(** ** Facts *)
Lemma Status_idx_inj (s s' : Status) : Status_idx s = Status_idx s' → s = s'.
Proof. by destruct s, s'. Qed.

Lemma get_st_set (s s' : Status) (d : DynInst) :
  get_st s' (st_set s d) = bool_decide (s = s') || get_st s' d.
Proof.
  unfold get_st, st_set; cbn. rewrite bit_get_set. f_equal.
  apply eq_bool_prop_intro. rewrite !Is_true_true, N.eqb_eq, bool_decide_eq_true.
  split; [apply Status_idx_inj|congruence].
Qed.
Lemma get_st_set_eq (s : Status) (d : DynInst) : get_st s (st_set s d) = true.
Proof. by rewrite get_st_set, bool_decide_eq_true_2. Qed.
Lemma get_st_set_ne (s s' : Status) (d : DynInst) :
  s ≠ s' → get_st s' (st_set s d) = get_st s' d.
Proof. intros ?. by rewrite get_st_set, bool_decide_eq_false_2. Qed.
Lemma get_st_reset (s s' : Status) (d : DynInst) :
  get_st s' (st_reset s d) = get_st s' d && negb (bool_decide (s = s')).
Proof.
  unfold get_st, st_reset; cbn. rewrite bit_get_reset. do 2 f_equal.
  apply eq_bool_prop_intro. rewrite !Is_true_true, N.eqb_eq, bool_decide_eq_true.
  split; [apply Status_idx_inj|congruence].
Qed.
Lemma get_st_reset_eq (s : Status) (d : DynInst) : get_st s (st_reset s d) = false.
Proof. by rewrite get_st_reset, bool_decide_eq_true_2, andb_false_r. Qed.
Lemma get_st_reset_ne (s s' : Status) (d : DynInst) :
  s ≠ s' → get_st s' (st_reset s d) = get_st s' d.
Proof. intros ?. by rewrite get_st_reset, bool_decide_eq_false_2, andb_true_r. Qed.

Create HintDb dyn.
#[export] Hint Rewrite get_st_set_eq get_st_reset_eq : dyn.
#[export] Hint Rewrite get_st_set_ne get_st_reset_ne using discriminate : dyn.
