(* ===== verification/CPU.v ===== *)
(** * What the stages share: wires and the list of instructions

    [src/cpu/timebuf.hh]: a time buffer holds what the stages tell each other, one slot per
    cycle; a wire is an offset from the current cycle.  [src/cpu/o3/cpu.cc]: the CPU's list
    of all instructions in flight, from which fetch and decode remove those of a wrong
    path.  Instructions are marked at once and erased at the end of the cycle. *)

From S2P Require Import Prelude Regs DynInst.
From stdpp Require Import sorting list.
Local Open Scope Z_scope.

(** ** Time buffers *)
Record TimeBuffer (T : Type) := MkTimeBuffer {
  tb_past : Z;
  tb_future : Z;
  tb_size : Z;  (* unsigned *)
  tb_index : list T;
  tb_base : Z;  (* unsigned *)
}.
Arguments MkTimeBuffer {T} _ _ _ _ _.
Arguments tb_past {T} _.
Arguments tb_future {T} _.
Arguments tb_size {T} _.
Arguments tb_index {T} _.
Arguments tb_base {T} _.
#[export] Instance TimeBuffer_eta (T : Type) : Updatable (TimeBuffer T) := λ r,
  MkTimeBuffer (tb_past r) (tb_future r) (tb_size r) (tb_index r) (tb_base r).

Section timebuf.
Context {T : Type} (zero : T).  (* a slot cleared by [memset] and constructed *)
Implicit Types (b : TimeBuffer T).

Definition TimeBuffer_new (p f : Z) : res (TimeBuffer T) :=
  let size := u32 (p + f + 1) in
  _ ← assert ((0 <=? p) && (0 <=? f));
  Ok (MkTimeBuffer p f size (replicate (Z.to_nat size) zero) 0).
Definition tb_valid (idx : Z) b : res unit := assert ((- tb_past b <=? idx) && (idx <=? tb_future b)).
Definition calculateVectorIndex (idx : Z) b : res Z :=
  _ ← tb_valid idx b;
  let vector_index := idx + tb_base b in
  Ok (if tb_size b <=? vector_index then vector_index - tb_size b
      else if vector_index <? 0 then vector_index + tb_size b else vector_index).
(** Reading and writing through a wire. *)
Definition tb_access (idx : Z) b : res T := i ← calculateVectorIndex idx b; vget (tb_index b) i.
Definition tb_write (idx : Z) (f : T → T) b : res (TimeBuffer T) :=
  i ← calculateVectorIndex idx b;
  v ← vget (tb_index b) i;
  l ← vset i (f v) (tb_index b);
  Ok (b <| tb_index := l |>).
Definition tb_advance b : res (TimeBuffer T) :=
  let base := u32 (tb_base b + 1) in
  let base := if tb_size b <=? base then 0 else base in
  let ptr := base + tb_future b in
  let ptr := if tb_size b <=? ptr then ptr - tb_size b else ptr in
  l ← vset ptr zero (tb_index b);
  Ok (b <| tb_base := base |> <| tb_index := l |>).

(** ** Well-formed buffers, and what they stand for *)
Record tb_wf b : Prop := {
  tw_range : 0 ≤ tb_past b ∧ 0 ≤ tb_future b ∧ tb_past b + tb_future b + 1 < 2 ^ 31;
  tw_size : tb_size b = tb_past b + tb_future b + 1;
  tw_len : Z.of_nat (length (tb_index b)) = tb_size b;
  tw_base : 0 ≤ tb_base b < tb_size b;
}.
(** The slot of an offset. *)
Definition tb_slot (idx : Z) b : Z := (idx + tb_base b) mod tb_size b.

Lemma vector_index_ok (idx : Z) b :
  tb_wf b → - tb_past b ≤ idx ≤ tb_future b → calculateVectorIndex idx b = Ok (tb_slot idx b) ∧ 0 ≤ tb_slot idx b < tb_size b.
Proof.
  intros [Hr Hs _ Hb] Hi. split; [|apply Z.mod_pos_bound; lia]. unfold calculateVectorIndex, tb_valid.
  destruct (Z.leb_spec (- tb_past b) idx); [|lia]. destruct (Z.leb_spec idx (tb_future b)); [|lia]. cbn. f_equal. unfold tb_slot.
  destruct (Z.leb_spec (tb_size b) (idx + tb_base b)); [apply Z.mod_unique with 1; lia|].
  destruct (Z.ltb_spec (idx + tb_base b) 0); [apply Z.mod_unique with (-1); lia|]. symmetry. apply Z.mod_small. lia.
Qed.

(** Distinct offsets have distinct slots. *)
Lemma slot_inj (i j : Z) b :
  tb_wf b → - tb_past b ≤ i ≤ tb_future b → - tb_past b ≤ j ≤ tb_future b → tb_slot i b = tb_slot j b → i = j.
Proof.
  intros [Hr Hs _ Hb] Hi Hj E. unfold tb_slot in E.
  pose proof (Z.div_mod (i + tb_base b) (tb_size b) ltac:(lia)). pose proof (Z.div_mod (j + tb_base b) (tb_size b) ltac:(lia)).
  rewrite E in *. assert ((i + tb_base b) / tb_size b = (j + tb_base b) / tb_size b) by nia. lia.
Qed.

(** At cycle [t] the buffer shows the window of [f] around [t], where [f] gives what was
    sent in each cycle. *)
Definition tb_shows (t : Z) (f : Z → T) b : Prop :=
  ∀ i, - tb_past b ≤ i ≤ tb_future b → tb_access i b = Ok (f (t + i)).

Lemma TimeBuffer_new_ok (p f : Z) :
  0 ≤ p → 0 ≤ f → p + f + 1 < 2 ^ 31 → ∃ b, TimeBuffer_new p f = Ok b ∧ tb_wf b ∧ tb_past b = p ∧ tb_future b = f ∧ ∀ t, tb_shows t (λ _, zero) b.
Proof.
  intros Hp Hf Hs. unfold TimeBuffer_new. destruct (Z.leb_spec 0 p); [|lia]. destruct (Z.leb_spec 0 f); [|lia]. cbn.
  eexists. split; [done|]. rewrite u32_small by lia.
  assert (Hw : tb_wf (MkTimeBuffer p f (p + f + 1) (replicate (Z.to_nat (p + f + 1)) zero) 0)).
  { split; cbn; rewrite ?length_replicate; lia. }
  split; [done|]. split; [done|]. split; [done|]. intros t i Hi. destruct (vector_index_ok i _ Hw Hi) as [E Hr]. unfold tb_access.
  rewrite E. cbn [mbind res_bind]. apply vget_ok. split; [lia|]. apply lookup_replicate_2. cbn in Hr. lia.
Qed.

Lemma tb_write_ok (t idx : Z) (g : T → T) (f : Z → T) b :
  tb_wf b → tb_shows t f b → - tb_past b ≤ idx ≤ tb_future b →
  ∃ b', tb_write idx g b = Ok b' ∧ tb_wf b' ∧ tb_past b' = tb_past b ∧ tb_future b' = tb_future b
    ∧ tb_shows t (λ x, if x =? t + idx then g (f x) else f x) b'.
Proof.
  intros Hw Hs Hi. destruct (vector_index_ok idx b Hw Hi) as [E Hr]. pose proof (Hs idx Hi) as Ha. unfold tb_access in Ha.
  rewrite E in Ha. cbn [mbind res_bind] in Ha. pose proof (tw_len _ Hw) as Hl. unfold tb_write. rewrite E. cbn [mbind res_bind].
  rewrite Ha. cbn [mbind res_bind]. rewrite vset_in_range by lia. cbn [mbind res_bind]. eexists. split; [done|].
  assert (Hw' : tb_wf (b <| tb_index := <[Z.to_nat (tb_slot idx b) := g (f (t + idx))]> (tb_index b) |>)).
  { destruct Hw. split; cbn; rewrite ?length_insert; done. }
  split; [done|]. split; [done|]. split; [done|]. intros i Hi'. destruct (vector_index_ok i _ Hw' Hi') as [E' Hr']. unfold tb_access.
  rewrite E'. cbn [mbind res_bind]. change (tb_slot i _) with (tb_slot i b) in *. cbn. rewrite vget_insert by lia.
  pose proof (Hs i Hi') as Hsi. unfold tb_access in Hsi. destruct (vector_index_ok i b Hw Hi') as [E'' _]. rewrite E'' in Hsi. cbn [mbind res_bind] in Hsi.
  destruct (Z.eqb_spec (tb_slot idx b) (tb_slot i b)) as [Es|Hne].
  - apply slot_inj in Es as ->; try done. by rewrite Z.eqb_refl.
  - destruct (Z.eqb_spec (t + i) (t + idx)) as [Eq|]; [|done]. assert (i = idx) as -> by lia. done.
Qed.

(** A cycle later everything is one further back, and the new slot is clear. *)
Lemma tb_advance_ok (t : Z) (f : Z → T) b :
  tb_wf b → tb_shows t f b →
  ∃ b', tb_advance b = Ok b' ∧ tb_wf b' ∧ tb_past b' = tb_past b ∧ tb_future b' = tb_future b
    ∧ tb_shows (t + 1) (λ x, if x =? t + 1 + tb_future b then zero else f x) b'.
Proof.
  intros Hw Hs. pose proof Hw as [Hr Hz Hl Hb]. unfold tb_advance. rewrite u32_small by lia. cbn zeta.
  set (base := if tb_size b <=? tb_base b + 1 then 0 else tb_base b + 1).
  assert (Hbase : base = (tb_base b + 1) mod tb_size b ∧ 0 ≤ base < tb_size b).
  { unfold base. destruct (Z.leb_spec (tb_size b) (tb_base b + 1)); [|rewrite Z.mod_small; lia].
    assert (tb_base b + 1 = tb_size b) as -> by lia. rewrite Z.mod_same; lia. }
  destruct Hbase as [Eb Hb']. set (ptr := if tb_size b <=? base + tb_future b then _ else _).
  assert (Hptr : ptr = (tb_future b + base) mod tb_size b ∧ 0 ≤ ptr < tb_size b).
  { unfold ptr. destruct (Z.leb_spec (tb_size b) (base + tb_future b)); [|rewrite Z.mod_small; lia].
    split; [apply Z.mod_unique with 1; lia|lia]. }
  destruct Hptr as [Ep Hp]. rewrite vset_in_range by lia. cbn [mbind res_bind]. eexists. split; [done|].
  set (b' := b <| tb_base := base |> <| tb_index := <[Z.to_nat ptr := zero]> (tb_index b) |>).
  assert (Hw' : tb_wf b') by (split; cbn; rewrite ?length_insert; done).
  split; [done|]. split; [done|]. split; [done|]. intros i Hi. cbn in Hi. destruct (vector_index_ok i b' Hw' Hi) as [E Hri]. unfold tb_access.
  rewrite E. cbn [mbind res_bind]. change (tb_index b') with (<[Z.to_nat ptr := zero]> (tb_index b)).
  rewrite vget_insert by lia. assert (Ep' : ptr = tb_slot (tb_future b) b') by done.
  destruct (Z.eqb_spec ptr (tb_slot i b')) as [Es|Hne].
  - rewrite Ep' in Es. apply slot_inj in Es as <-; [|done|cbn; lia|done]. by rewrite Z.eqb_refl.
  - destruct (Z.eqb_spec (t + 1 + i) (t + 1 + tb_future b)) as [Eq|Hni]; [assert (i = tb_future b) as -> by lia; congruence|].
    assert (Hi1 : - tb_past b ≤ i + 1 ≤ tb_future b) by lia. pose proof (Hs (i + 1) Hi1) as Hsi. unfold tb_access in Hsi.
    destruct (vector_index_ok (i + 1) b Hw Hi1) as [E1 _]. rewrite E1 in Hsi. cbn [mbind res_bind] in Hsi.
    replace (t + 1 + i) with (t + (i + 1)) by lia. rewrite <- Hsi. f_equal. unfold tb_slot. cbn [tb_base tb_size over_field b' tb_size].
    change (tb_base b') with base. change (tb_size b') with (tb_size b). rewrite Eb, Zplus_mod_idemp_r. f_equal. lia.
Qed.

(** *** Uses of a buffer *)
Inductive tb_op :=
| TbWrite (idx : Z) (g : T → T)  (* a stage writes through the wire [idx] *)
| TbAdvance.  (* the end of a cycle *)
Definition tb_step b (o : tb_op) : res (TimeBuffer T) :=
  match o with TbWrite idx g => tb_write idx g b | TbAdvance => tb_advance b end.
(** The contract: a clock, and what is sent for each cycle. *)
Definition stream_step (s : Z * (Z → T)) (o : tb_op) : Z * (Z → T) :=
  match o with
  | TbWrite idx g => (s.1, λ x, if x =? s.1 + idx then g (s.2 x) else s.2 x)
  | TbAdvance => (s.1 + 1, s.2)
  end.
Definition in_window (p f : Z) (o : tb_op) : Prop :=
  match o with TbWrite idx _ => - p ≤ idx ≤ f | TbAdvance => True end.

Record tb_refines (p fu : Z) (s : Z * (Z → T)) b : Prop := {
  tr_wf : tb_wf b;
  tr_past : tb_past b = p;
  tr_future : tb_future b = fu;
  tr_shows : tb_shows s.1 s.2 b;
  tr_ahead : ∀ x, s.1 + fu < x → s.2 x = zero;
}.

Lemma tb_step_refines (p fu : Z) (o : tb_op) s b :
  tb_refines p fu s b → in_window p fu o → ∃ b', tb_step b o = Ok b' ∧ tb_refines p fu (stream_step s o) b'.
Proof.
  intros [Hw Hp Hf Hs Ha] Ho. destruct o as [idx g|]; cbn in *.
  - destruct (tb_write_ok s.1 idx g s.2 b) as (b' & E & Hw' & Hp' & Hf' & Hs'); [done|done|lia|].
    exists b'. split; [done|]. split; try congruence; [done|]. intros x Hx. cbn in *.
    destruct (Z.eqb_spec x (s.1 + idx)); [lia|by apply Ha].
  - destruct (tb_advance_ok s.1 s.2 b) as (b' & E & Hw' & Hp' & Hf' & Hs'); [done|done|].
    exists b'. split; [done|]. split; try congruence; [|intros x Hx; apply Ha; cbn in Hx; lia].
    intros i Hi. cbn. rewrite (Hs' i Hi). f_equal. rewrite Hf' in *.
    destruct (Z.eqb_spec (s.1 + 1 + i) (s.1 + 1 + tb_future b)); [|done]. symmetry. apply Ha. lia.
Qed.
End timebuf.

(** C25: a time buffer implements delayed wires.  Starting from an empty buffer, whatever is
    written through wires within the window and however the cycles advance, every operation
    returns, and at cycle [t] the wire at offset [i] holds exactly what was sent for cycle
    [t + i] (nothing, if nothing was sent): slots are neither mixed up nor stale. *)
Theorem timebuf_refines_stream {T : Type} (zero : T) (p fu : Z) (ops : list (tb_op (T := T))) :
  0 ≤ p → 0 ≤ fu → p + fu + 1 < 2 ^ 31 → Forall (in_window p fu) ops →
  ∃ b, (b0 ← TimeBuffer_new zero p fu; mfold (tb_step zero) b0 ops) = Ok b
    ∧ let '(t, sent) := foldl stream_step (0, λ _, zero) ops in
      ∀ i, - p ≤ i ≤ fu → tb_access i b = Ok (sent (t + i)).
Proof.
  intros Hp Hf Hsz Hops. destruct (TimeBuffer_new_ok zero p fu Hp Hf Hsz) as (b0 & -> & Hw & Ep & Ef & Hs). cbn [mbind res_bind].
  assert (H0 : tb_refines zero p fu (0, λ _, zero) b0) by (split; try done; apply Hs).
  clear Hw Ep Ef Hs. revert b0 H0. generalize (0, λ _ : Z, zero) as s.
  induction Hops as [|o ops Ho Hops IH]; intros s b0 H0; cbn [mfold foldl].
  - exists b0. split; [done|]. destruct s as [t sent]. intros i Hi. destruct H0 as [_ E1 E2 H0 _]. apply H0. lia.
  - destruct (tb_step_refines _ _ _ _ _ _ H0 Ho) as (b1 & -> & H1). cbn [mbind res_bind]. by apply (IH _ b1).
Qed.

(** ** The instructions in flight *)
(** A [ListIt] is the instruction it points at. *)
Record CPUList := MkCPUList {
  cpu_instList : list InstPtr;
  removeList : list InstPtr;
  removeInstsThisCycle : bool;
}.
#[export] Instance CPUList_eta : Updatable CPUList := λ r, MkCPUList (cpu_instList r) (removeList r) (removeInstsThisCycle r).
Implicit Types (c : CPUList) (h : heap).

Definition addInst (p : InstPtr) c : CPUList := c <| cpu_instList := cpu_instList c ++ [p] |>.
Definition removeFrontInst (p : InstPtr) c : CPUList :=
  c <| removeInstsThisCycle := true |> <| removeList := removeList c ++ [p] |>.

Definition squashInstIt (p : InstPtr) (tid : nat) c h : res (CPUList * heap) :=
  d ← deref (h !! p);
  Ok (if bool_decide (threadNumber d = tid)
      then (c <| removeList := removeList c ++ [p] |>, <[p := setSquashed d]> h) else (c, h)).

(** The loop of [removeInstsUntil], from the youngest on. *)
Fixpoint removeUntil_loop (seq_num : Z) (tid : nat) (back : list InstPtr) c h : res (CPUList * heap) :=
  match back with
  | [] => Ok (c, h)
  | p :: back =>
      d ← deref (h !! p);
      if seq_num <? seqNum d then
        '(c, h) ← squashInstIt p tid c h;
        removeUntil_loop seq_num tid back c h
      else Ok (c, h)
  end.
Definition removeInstsUntil (seq_num : Z) (tid : nat) c h : res (CPUList * heap) :=
  _ ← assert (negb (bool_decide (cpu_instList c = [])));
  removeUntil_loop seq_num tid (reverse (cpu_instList c)) (c <| removeInstsThisCycle := true |>) h.

(** [rob_tail] is the youngest instruction of the thread in the reorder buffer, if any.  The
    loop runs down to [end_it]; past [begin()] it has no meaning. *)
Fixpoint removeNotInROB_loop (end_it : InstPtr) (tid : nat) (back : list InstPtr) c h : res (CPUList * heap) :=
  match back with
  | [] => Err NullDeref
  | p :: back =>
      if decide (p = end_it) then Ok (c, h)
      else
        '(c, h) ← squashInstIt p tid c h;
        removeNotInROB_loop end_it tid back c h
  end.
Definition removeInstsNotInROB (rob_tail : option InstPtr) (tid : nat) c h : res (CPUList * heap) :=
  match cpu_instList c with
  | [] => Ok (c, h)
  | front :: _ =>
      let c := c <| removeInstsThisCycle := true |> in
      let back := reverse (cpu_instList c) in
      match rob_tail with
      | Some p => removeNotInROB_loop p tid back c h
      | None =>
          '(c, h) ← removeNotInROB_loop front tid back c h;
          squashInstIt front tid c h
      end
  end.

Definition eraseInst c (p : InstPtr) : res CPUList :=
  _ ← (if decide (p ∈ cpu_instList c) then Ok tt else Err NullDeref);
  Ok (c <| cpu_instList := filter (λ q, q ≠ p) (cpu_instList c) |>).
Definition cleanUpRemovedInsts c : res CPUList :=
  c ← mfold eraseInst c (removeList c);
  Ok (c <| removeList := [] |> <| removeInstsThisCycle := false |>).

(** ** Squashed and live instructions *)
(** Whether an instruction is squashed. *)
Definition dead (h : heap) (p : InstPtr) : bool := from_option isSquashed false (h !! p).
Definition live (h : heap) (l : list InstPtr) : list InstPtr := filter (λ p, dead h p = false) l.

Lemma live_cons (h : heap) (p : InstPtr) (l : list InstPtr) :
  live h (p :: l) = if dead h p then live h l else p :: live h l.
Proof.
  unfold live. destruct (dead h p) eqn:E; [rewrite filter_cons_False; [done|by rewrite E]|by rewrite filter_cons_True].
Qed.
Lemma live_length (h : heap) (l : list InstPtr) : (length (live h l) ≤ length l)%nat.
Proof. apply length_filter. Qed.

(** ** What is removed *)
Definition seq_in h (p : InstPtr) : Z := from_option seqNum 0 (h !! p).
(** The instructions that a squash of [tid] to [seq_num] removes. *)
Definition younger_of (seq_num : Z) (tid : nat) h (p : InstPtr) : bool :=
  match h !! p with Some d => bool_decide (threadNumber d = tid) && (seq_num <? seqNum d) | None => false end.
(** [h'] is [h] with the instructions of [l] marked as squashed. *)
Definition marks (l : list InstPtr) h h' : Prop :=
  ∀ p, h' !! p = (if decide (p ∈ l) then setSquashed else id) <$> h !! p.

(** Everything in the list is live, and younger instructions are behind. *)
Definition listed c h : Prop :=
  NoDup (cpu_instList c) ∧ (∀ p, p ∈ cpu_instList c → is_Some (h !! p))
  ∧ StronglySorted (λ p q, seq_in h p < seq_in h q) (cpu_instList c).

Lemma ssorted_impl {A} (R R' : A → A → Prop) (l : list A) :
  (∀ x y, R x y → R' x y) → StronglySorted R l → StronglySorted R' l.
Proof. intros Hi. induction 1 as [|x l Hs IH Hx]; constructor; [done|]. eapply Forall_impl; [exact Hx|apply Hi]. Qed.
Lemma ssorted_reverse {A} (R : A → A → Prop) (l : list A) :
  StronglySorted R l → StronglySorted (λ x y, R y x) (reverse l).
Proof.
  induction 1 as [|x l Hs IH Hx]; [constructor|]. rewrite reverse_cons. apply StronglySorted_app_2; [|done|repeat constructor].
  intros a b Ha Hb%list_elem_of_singleton. subst. rewrite Forall_forall in Hx. apply Hx. by apply elem_of_reverse.
Qed.

Lemma ssorted_filter {A} (R : A → A → Prop) (P : A → Prop) `{∀ x, Decision (P x)} (l : list A) :
  StronglySorted R l → StronglySorted R (filter P l).
Proof.
  induction 1 as [|x l Hs IH Hx]; [constructor|]. rewrite filter_cons. case_decide; [|done]. constructor; [done|].
  rewrite Forall_forall in *. intros y [_ Hy]%list_elem_of_filter. by apply Hx.
Qed.

Lemma marks_nil h : marks [] h h.
Proof. intros p. rewrite decide_False by (by intros ?%not_elem_of_nil). by destruct (h !! p). Qed.
Lemma marks_app (l1 l2 : list InstPtr) h h1 h2 :
  marks l1 h h1 → marks l2 h1 h2 → marks (l1 ++ l2) h h2.
Proof.
  intros H1 H2 p. rewrite H2, H1. destruct (h !! p) as [d|]; [|done]. cbn. f_equal. unfold setSquashed.
  destruct (decide (p ∈ l1)), (decide (p ∈ l2)), (decide (p ∈ l1 ++ l2)) as [Hin|Hin]; try done; rewrite elem_of_app in Hin;
    try tauto. unfold st_set, over_field. cbn. unfold bit_set. destruct d; cbn. f_equal. apply N.bits_inj. intros j. rewrite !N.setbit_eqb. by destruct (N.eqb _ j).
Qed.
Lemma marks_insert (p : InstPtr) h (d : DynInst) : h !! p = Some d → marks [p] h (<[p := setSquashed d]> h).
Proof.
  intros Hd q. destruct (decide (q = p)) as [->|Hne].
  - rewrite lookup_insert_eq, Hd, decide_True by (left). done.
  - rewrite lookup_insert_ne, decide_False by (try done; by intros ?%list_elem_of_singleton). by destruct (h !! q).
Qed.
Lemma marks_younger (sn : Z) (tid : nat) (l : list InstPtr) h h' (p : InstPtr) :
  marks l h h' → younger_of sn tid h' p = younger_of sn tid h p.
Proof. intros Hm. unfold younger_of. rewrite Hm. by destruct (h !! p), (decide (p ∈ l)). Qed.
Lemma marks_seq (l : list InstPtr) h h' (p : InstPtr) : marks l h h' → seq_in h' p = seq_in h p.
Proof. intros Hm. unfold seq_in. rewrite Hm. by destruct (h !! p), (decide (p ∈ l)). Qed.
Lemma marks_is_Some (l : list InstPtr) h h' (p : InstPtr) : marks l h h' → is_Some (h' !! p) ↔ is_Some (h !! p).
Proof. intros Hm. rewrite Hm. apply fmap_is_Some. Qed.

Lemma squashInstIt_ok (p : InstPtr) (tid : nat) c h :
  is_Some (h !! p) → ∃ h' l, squashInstIt p tid c h = Ok (c <| removeList := removeList c ++ l |>, h') ∧ marks l h h'
    ∧ ∀ sn, sn < seq_in h p → l = filter (λ q, younger_of sn tid h q = true) [p].
Proof.
  intros [d Hd]. unfold squashInstIt. rewrite Hd. cbn [deref mbind res_bind]. unfold seq_in. rewrite Hd. cbn [from_option].
  case_bool_decide as Ht.
  - exists (<[p := setSquashed d]> h), [p]. split; [done|]. split; [by apply marks_insert|]. intros sn Hsn.
    rewrite filter_cons_True; [done|]. unfold younger_of. rewrite Hd, bool_decide_true by done. by apply Z.ltb_lt.
  - exists h, []. split; [cbn; f_equal; f_equal; destruct c; cbn; by rewrite app_nil_r|]. split; [apply marks_nil|]. intros sn _.
    rewrite filter_cons_False; [done|]. unfold younger_of. rewrite Hd, bool_decide_false by done. done.
Qed.

Lemma removeUntil_loop_ok (sn : Z) (tid : nat) (back : list InstPtr) : ∀ c h,
  (∀ p, p ∈ back → is_Some (h !! p)) → StronglySorted (λ p q, seq_in h q < seq_in h p) back →
  ∃ h', removeUntil_loop sn tid back c h = Ok (c <| removeList := removeList c ++ filter (λ p, younger_of sn tid h p = true) back |>, h')
    ∧ marks (filter (λ p, younger_of sn tid h p = true) back) h h'.
Proof.
  induction back as [|p back IH]; intros c h Hh Hs; cbn [removeUntil_loop].
  { exists h. split; [|apply marks_nil]. destruct c. cbn. by rewrite app_nil_r. }
  apply StronglySorted_inv in Hs as [Hs Hp]. destruct (Hh p ltac:(left)) as [d Hd]. rewrite Hd. cbn [deref mbind res_bind].
  destruct (Z.ltb_spec sn (seqNum d)) as [Hlt|Hge].
  - destruct (squashInstIt_ok p tid c h) as (h1 & l & -> & Hm & El); [by exists d|]. cbn [mbind res_bind].
    specialize (El sn). unfold seq_in in El. rewrite Hd in El. specialize (El Hlt).
    destruct (IH (c <| removeList := removeList c ++ l |>) h1) as (h' & -> & Hm').
    { intros q Hq. apply (marks_is_Some _ _ _ _ Hm), Hh. by right. }
    { eapply ssorted_impl; [|exact Hs]. intros x y. by rewrite !(marks_seq _ _ _ _ Hm). }
    assert (Ef : filter (λ q, younger_of sn tid h1 q = true) back = filter (λ q, younger_of sn tid h q = true) back).
    { apply list_filter_iff. intros q. by rewrite (marks_younger _ _ _ _ _ _ Hm). }
    rewrite Ef in *. exists h'. change (p :: back) with ([p] ++ back). rewrite filter_app, <- El.
    split; [cbn; by rewrite app_assoc|by eapply marks_app].
  - exists h. rewrite filter_void; [split; [destruct c; cbn; by rewrite app_nil_r|apply marks_nil]|].
    apply Forall_forall. intros q Hq. unfold younger_of. destruct (h !! q) as [e|] eqn:He; [|done].
    assert (seqNum e ≤ seqNum d).
    { apply elem_of_cons in Hq as [->|Hq]; [assert (e = d) by congruence; subst; lia|].
      rewrite Forall_forall in Hp. specialize (Hp q Hq). unfold seq_in in Hp. rewrite He, Hd in Hp. cbn in Hp. lia. }
    intros [_ ?%Z.ltb_lt]%andb_true_iff. lia.
Qed.

Lemma removeInstsUntil_ok (sn : Z) (tid : nat) c h :
  listed c h → cpu_instList c ≠ [] →
  let out := reverse (filter (λ p, younger_of sn tid h p = true) (cpu_instList c)) in
  ∃ h', removeInstsUntil sn tid c h
        = Ok (c <| removeInstsThisCycle := true |> <| removeList := removeList c ++ out |>, h')
    ∧ marks out h h'.
Proof.
  intros (Hnd & Hh & Hs) Hne out. unfold removeInstsUntil. rewrite bool_decide_false by done. cbn [negb assert mbind res_bind].
  destruct (removeUntil_loop_ok sn tid (reverse (cpu_instList c)) (c <| removeInstsThisCycle := true |>) h) as (h' & E & Hm).
  - intros p Hp. by apply Hh, elem_of_reverse.
  - by apply ssorted_reverse.
  - exists h'. rewrite E. unfold out. rewrite <- filter_reverse. done.
Qed.

Lemma eraseInsts_ok (l : list InstPtr) : ∀ c,
  NoDup l → l ⊆ cpu_instList c → mfold eraseInst c l = Ok (c <| cpu_instList := filter (λ p, p ∉ l) (cpu_instList c) |>).
Proof.
  induction l as [|p l IH]; intros c Hnd Hin; cbn [mfold].
  - rewrite filter_keep; [by destruct c|]. apply Forall_forall. intros x _ ?%not_elem_of_nil. done.
  - apply NoDup_cons in Hnd as [Hp Hnd]. unfold eraseInst. rewrite decide_True by (apply Hin; left). cbn [mbind res_bind].
    rewrite IH; [|done|].
    + assert (Ef : filter (λ x, x ∉ l) (filter (λ q, q ≠ p) (cpu_instList c)) = filter (λ x, x ∉ p :: l) (cpu_instList c)).
      { rewrite list_filter_filter. apply filter_same. intros x _. set_solver. }
      cbn in *. by rewrite Ef.
    + intros x Hx. cbn. apply list_elem_of_filter. split; [intros ->; done|]. apply Hin. by right.
Qed.

(** taking a thread off a wrong path.  When decode or fetch removes what follows
    instruction [sn] of a thread and the cycle ends, both steps return, every instruction in
    flight of that thread that is younger is marked as squashed, nothing else is marked, and
    exactly those leave the CPU's list, whose order is kept. *)
Theorem removed_exactly (sn : Z) (tid : nat) c h :
  listed c h → cpu_instList c ≠ [] → removeList c = [] →
  ∃ c1 h1 c2, removeInstsUntil sn tid c h = Ok (c1, h1) ∧ cleanUpRemovedInsts c1 = Ok c2
    ∧ cpu_instList c2 = filter (λ p, younger_of sn tid h p = false) (cpu_instList c)
    ∧ (∀ p, h1 !! p = (if decide (p ∈ cpu_instList c ∧ younger_of sn tid h p = true) then setSquashed else id) <$> h !! p)
    ∧ removeList c2 = [] ∧ listed c2 h1.
Proof.
  intros Hl Hne Hr. destruct (removeInstsUntil_ok sn tid c h Hl Hne) as (h1 & E & Hm).
  set (out := reverse _) in *. pose proof Hl as (Hnd & Hh & Hs).
  assert (Hout : ∀ p, p ∈ out ↔ p ∈ cpu_instList c ∧ younger_of sn tid h p = true).
  { intros p. unfold out. rewrite elem_of_reverse, list_elem_of_filter. tauto. }
  do 3 eexists. split; [exact E|]. unfold cleanUpRemovedInsts. cbn. rewrite Hr. cbn [app].
  rewrite eraseInsts_ok; [|unfold out; rewrite reverse_Permutation; by apply NoDup_filter|].
  2: { intros p Hp. by apply Hout in Hp as [Hp _]. }
  cbn [mbind res_bind]. split; [done|].
  assert (Ef : filter (λ p, p ∉ out) (cpu_instList c) = filter (λ p, younger_of sn tid h p = false) (cpu_instList c)).
  { apply filter_same. intros p Hp. rewrite Hout. destruct (younger_of sn tid h p); intuition congruence. }
  cbn. rewrite Ef. split; [done|]. split.
  { intros p. rewrite Hm. do 2 case_decide; try done; rewrite Hout in *; tauto. }
  split; [done|]. split_and!; cbn.
  - by apply NoDup_filter.
  - intros p [_ Hp]%list_elem_of_filter. by apply (marks_is_Some _ _ _ _ Hm), Hh.
  - apply ssorted_filter. eapply ssorted_impl; [|exact Hs]. intros x y. by rewrite !(marks_seq _ _ _ _ Hm).
Qed.

(** *** Instructions behind the reorder buffer *)
Definition of_thread (tid : nat) h (p : InstPtr) : bool :=
  match h !! p with Some d => bool_decide (threadNumber d = tid) | None => false end.
Lemma marks_thread (tid : nat) (l : list InstPtr) h h' (p : InstPtr) : marks l h h' → of_thread tid h' p = of_thread tid h p.
Proof. intros Hm. unfold of_thread. rewrite Hm. by destruct (h !! p), (decide (p ∈ l)). Qed.

Lemma squashInstIt_thread (p : InstPtr) (tid : nat) c h :
  is_Some (h !! p) →
  let l := filter (λ q, of_thread tid h q = true) [p] in
  ∃ h', squashInstIt p tid c h = Ok (c <| removeList := removeList c ++ l |>, h') ∧ marks l h h'.
Proof.
  intros [d Hd] l. unfold squashInstIt. rewrite Hd. cbn [deref mbind res_bind].
  assert (El : l = if bool_decide (threadNumber d = tid) then [p] else []).
  { unfold l. rewrite filter_cons. unfold of_thread. rewrite Hd. by case_bool_decide. }
  rewrite El. case_bool_decide.
  - eexists. split; [done|]. by apply marks_insert.
  - exists h. split; [|apply marks_nil]. destruct c. cbn. by rewrite app_nil_r.
Qed.

Lemma removeNotInROB_loop_ok (e : InstPtr) (tid : nat) (l1 l2 : list InstPtr) : ∀ c h,
  e ∉ l1 → (∀ p, p ∈ l1 → is_Some (h !! p)) →
  let l := filter (λ q, of_thread tid h q = true) l1 in
  ∃ h', removeNotInROB_loop e tid (l1 ++ e :: l2) c h = Ok (c <| removeList := removeList c ++ l |>, h') ∧ marks l h h'.
Proof.
  induction l1 as [|p l1 IH]; intros c h He Hh l; cbn [removeNotInROB_loop app].
  - rewrite decide_True by done. exists h. split; [|apply marks_nil]. destruct c. cbn. by rewrite app_nil_r.
  - rewrite decide_False by set_solver. destruct (squashInstIt_thread p tid c h) as (h1 & -> & Hm); [apply Hh; left|]. cbn [mbind res_bind].
    destruct (IH (c <| removeList := removeList c ++ filter (λ q, of_thread tid h q = true) [p] |>) h1) as (h' & -> & Hm'); [set_solver| |].
    { intros q Hq. apply (marks_is_Some _ _ _ _ Hm), Hh. by right. }
    assert (Ef : filter (λ q, of_thread tid h1 q = true) l1 = filter (λ q, of_thread tid h q = true) l1).
    { apply filter_same. intros q _. by rewrite (marks_thread _ _ _ _ _ Hm). }
    rewrite Ef in *. exists h'. unfold l. change (p :: l1) with ([p] ++ l1). rewrite filter_app. split; [cbn; by rewrite app_assoc|by eapply marks_app].
Qed.

(** After a squash from commit, exactly the instructions of the thread that never reached
    the reorder buffer are marked and queued for removal. *)
Lemma removeInstsNotInROB_ok (tid : nat) (older younger : list InstPtr) (p : InstPtr) c h :
  listed c h → cpu_instList c = older ++ p :: younger →
  let out := reverse (filter (λ q, of_thread tid h q = true) younger) in
  ∃ h', removeInstsNotInROB (Some p) tid c h = Ok (c <| removeInstsThisCycle := true |> <| removeList := removeList c ++ out |>, h')
    ∧ marks out h h'.
Proof.
  intros (Hnd & Hh & _) El out. unfold removeInstsNotInROB. cbn zeta.
  destruct (removeNotInROB_loop_ok p tid (reverse younger) (reverse older) (c <| removeInstsThisCycle := true |>) h) as (h' & E & Hm).
  - rewrite elem_of_reverse. rewrite El, NoDup_app in Hnd. destruct Hnd as (_ & _ & Hnd). by apply NoDup_cons in Hnd as [Hp _].
  - intros q Hq. apply Hh. rewrite El. apply elem_of_reverse in Hq. set_solver.
  - exists h'. assert (Er : reverse (cpu_instList c) = reverse younger ++ p :: reverse older).
    { rewrite El, reverse_app, reverse_cons, <- app_assoc. done. }
    unfold out. rewrite <- filter_reverse. split; [|done]. etrans; [|exact E].
    change (cpu_instList (c <| removeInstsThisCycle := true |>)) with (cpu_instList c). rewrite Er, El. by destruct older.
Qed.

Lemma removeInstsNotInROB_all (tid : nat) c h :
  listed c h → let out := reverse (filter (λ q, of_thread tid h q = true) (cpu_instList c)) in
  ∃ c' h', removeInstsNotInROB None tid c h = Ok (c', h') ∧ marks out h h' ∧ removeList c' = removeList c ++ out.
Proof.
  intros (Hnd & Hh & _) out. unfold removeInstsNotInROB. destruct (cpu_instList c) as [|x l] eqn:El.
  { exists c, h. split; [done|]. split; [apply marks_nil|by rewrite app_nil_r]. }
  cbn zeta. apply NoDup_cons in Hnd as [Hx Hnd].
  destruct (removeNotInROB_loop_ok x tid (reverse l) [] (c <| removeInstsThisCycle := true |>) h) as (h1 & E & Hm).
  - by rewrite elem_of_reverse.
  - intros q Hq. apply Hh. right. by apply elem_of_reverse.
  - assert (Er : reverse (cpu_instList (c <| removeInstsThisCycle := true |>)) = reverse l ++ [x]).
    { change (cpu_instList (c <| removeInstsThisCycle := true |>)) with (cpu_instList c). by rewrite El, reverse_cons. }
    rewrite Er, E. cbn [mbind res_bind].
    match goal with |- context [squashInstIt x tid ?c1 h1] => destruct (squashInstIt_thread x tid c1 h1) as (h2 & -> & Hm2) end.
    { apply (marks_is_Some _ _ _ _ Hm), Hh. left. }
    assert (Ef : filter (λ q, of_thread tid h1 q = true) [x] = filter (λ q, of_thread tid h q = true) [x]).
    { apply filter_same. intros q _. by rewrite (marks_thread _ _ _ _ _ Hm). }
    rewrite Ef in *. assert (Eo : out = filter (λ q, of_thread tid h q = true) (reverse l) ++ filter (λ q, of_thread tid h q = true) [x]).
    { unfold out. by rewrite <- filter_reverse, reverse_cons, filter_app. }
    do 2 eexists. split; [done|]. rewrite Eo. split; [by eapply marks_app|]. cbn. by rewrite app_assoc.
Qed.
