(* ===== verification/Scoreboard.v ===== *)
(** * Register scoreboard

    [src/cpu/o3/scoreboard.hh]: which physical registers hold their value.  This
    is the structure rename consults to decide whether a source operand of a new
    instruction is ready, so a bit set here is what makes a result visible to
    dependents that are renamed later. *)

From S2P Require Import Prelude Regs.
Local Open Scope Z_scope.

Record Scoreboard := MkScoreboard {
  regScoreBoard : list bool;
  numPhysRegs : Z;
}.
#[export] Instance Scoreboard_eta : Updatable Scoreboard :=
  λ r, MkScoreboard (regScoreBoard r) (numPhysRegs r).

(** All registers start ready. *)
Definition Scoreboard_init (numPhysicalRegs : nat) : Scoreboard :=
  MkScoreboard (replicate numPhysicalRegs true) (Z.of_nat numPhysicalRegs).

(** [assert(phys_reg->flatIndex() < numPhysRegs)]: the comparison is unsigned, so a
    negative index fails it too. *)
Definition in_range (sb : Scoreboard) (r : PhysRegId) : bool :=
  (0 <=? flatIndex r) && (flatIndex r <? numPhysRegs sb).

(** The bit of a flat index; out of range reads have no defined value, so they
    fail. *)
Definition bit_at (sb : Scoreboard) (i : Z) : res bool :=
  deref (regScoreBoard sb !! Z.to_nat i).

Definition getReg (phys_reg : PhysRegId) (sb : Scoreboard) : res bool :=
  _ ← assert (in_range sb phys_reg);
  if isFixedMapping phys_reg then Ok true
  else
    ready ← bit_at sb (flatIndex phys_reg);
    _ ← assert (implb (isZeroPhysReg phys_reg) ready);
    Ok ready.

Definition setReg (phys_reg : PhysRegId) (sb : Scoreboard) : res Scoreboard :=
  _ ← assert (in_range sb phys_reg);
  if isFixedMapping phys_reg then Ok sb
  else Ok (sb <| regScoreBoard ::= <[Z.to_nat (flatIndex phys_reg) := true]> |>).

Definition unsetReg (phys_reg : PhysRegId) (sb : Scoreboard) : res Scoreboard :=
  _ ← assert (in_range sb phys_reg);
  if isFixedMapping phys_reg then Ok sb
  else if isZeroPhysReg phys_reg then Ok sb
  else Ok (sb <| regScoreBoard ::= <[Z.to_nat (flatIndex phys_reg) := false]> |>).

(** ** Facts *)
(** The table has the size the bound checks use. *)
Definition sb_wf (sb : Scoreboard) : Prop := Z.of_nat (length (regScoreBoard sb)) = numPhysRegs sb.

(** A tracked register: one whose bit the scoreboard really maintains. *)
Definition tracked (r : PhysRegId) : Prop := isFixedMapping r = false ∧ isZeroPhysReg r = false.

(** The value of the bit of [r]. *)
Definition ready_bit (sb : Scoreboard) (r : PhysRegId) : option bool :=
  regScoreBoard sb !! Z.to_nat (flatIndex r).

Lemma Scoreboard_init_wf (n : nat) : sb_wf (Scoreboard_init n).
Proof. unfold sb_wf; cbn. by rewrite length_replicate. Qed.

Lemma setReg_ok (r : PhysRegId) (sb sb' : Scoreboard) :
  setReg r sb = Ok sb' →
  in_range sb r = true ∧
  sb' = if isFixedMapping r then sb
        else sb <| regScoreBoard ::= <[Z.to_nat (flatIndex r) := true]> |>.
Proof.
  unfold setReg. intros H. res_simp. split; [done|]. destruct (isFixedMapping r); by res_simp.
Qed.

Lemma setReg_wf (r : PhysRegId) (sb sb' : Scoreboard) :
  sb_wf sb → setReg r sb = Ok sb' → sb_wf sb'.
Proof.
  unfold sb_wf. intros Hwf [_ ->]%setReg_ok. destruct (isFixedMapping r); cbn; [done|].
  by rewrite length_insert.
Qed.

(** Setting a register leaves the bit of every register with another index. *)
Lemma setReg_other (r q : PhysRegId) (sb sb' : Scoreboard) :
  setReg r sb = Ok sb' → in_range sb q = true → flatIndex q ≠ flatIndex r →
  ready_bit sb' q = ready_bit sb q.
Proof.
  intros [Hr ->]%setReg_ok Hq Hne. unfold ready_bit.
  destruct (isFixedMapping r); [done|]. cbn. apply list_lookup_insert_ne.
  unfold in_range in *. rewrite !andb_true_iff, !Z.leb_le, !Z.ltb_lt in *. lia.
Qed.

Lemma setReg_numPhysRegs (r : PhysRegId) (sb sb' : Scoreboard) :
  setReg r sb = Ok sb' → numPhysRegs sb' = numPhysRegs sb.
Proof. intros [_ ->]%setReg_ok. by destruct (isFixedMapping r). Qed.

(** Marking a list of registers ready, as the wakeup loops do. *)
Abbreviation setRegs := (mfold (λ sb reg, setReg reg sb)) (only parsing).

(** A register outside the list, and with an index of its own, keeps its bit. *)
Lemma setRegs_other (l : list PhysRegId) (sb sb' : Scoreboard) (q : PhysRegId) :
  setRegs sb l = Ok sb' → 0 ≤ flatIndex q →
  (∀ r, r ∈ l → isFixedMapping r = false → flatIndex r ≠ flatIndex q) →
  ready_bit sb' q = ready_bit sb q.
Proof.
  revert sb; induction l as [|r l IH]; intros sb H Hq Hne; cbn in H; res_simp; [done|].
  rewrite (IH _ H Hq) by set_solver.
  match goal with H : setReg _ _ = Ok _ |- _ => apply setReg_ok in H as [Hr ->] end.
  destruct (isFixedMapping r) eqn:Hf; [done|]. unfold ready_bit; cbn.
  apply list_lookup_insert_ne.
  unfold in_range in Hr. rewrite !andb_true_iff, !Z.leb_le, !Z.ltb_lt in Hr.
  specialize (Hne r ltac:(set_solver) Hf). lia.
Qed.

Lemma setRegs_keeps_ready (l : list PhysRegId) (sb sb' : Scoreboard) (q : PhysRegId) :
  setRegs sb l = Ok sb' → ready_bit sb q = Some true → ready_bit sb' q = Some true.
Proof.
  revert sb; induction l as [|r l IH]; intros sb H Hq; cbn in H; res_simp; [done|].
  apply (IH _ H). match goal with H : setReg _ _ = Ok _ |- _ => apply setReg_ok in H as [Hr ->] end.
  destruct (isFixedMapping r); [done|]. unfold ready_bit in *; cbn.
  destruct (decide (Z.to_nat (flatIndex r) = Z.to_nat (flatIndex q))) as [->|Hne].
  - apply list_lookup_insert_eq. by eapply lookup_lt_Some.
  - by rewrite list_lookup_insert_ne.
Qed.

Lemma setRegs_numPhysRegs (l : list PhysRegId) (sb sb' : Scoreboard) :
  setRegs sb l = Ok sb' → numPhysRegs sb' = numPhysRegs sb.
Proof.
  revert sb; induction l as [|r l IH]; intros sb H; cbn in H; res_simp; [done|].
  rewrite (IH _ H). by eapply setReg_numPhysRegs.
Qed.

Lemma setRegs_wf (l : list PhysRegId) (sb sb' : Scoreboard) :
  sb_wf sb → setRegs sb l = Ok sb' → sb_wf sb'.
Proof.
  intros Hwf. apply (mfold_inv sb_wf); [|done]. intros s x s' _. apply setReg_wf.
Qed.

(** After the loop every register of the list that the scoreboard tracks is ready. *)
Lemma setRegs_ready (l : list PhysRegId) (sb sb' : Scoreboard) (r : PhysRegId) :
  sb_wf sb → setRegs sb l = Ok sb' → r ∈ l → isFixedMapping r = false →
  ready_bit sb' r = Some true.
Proof.
  revert sb; induction l as [|r0 l IH]; intros sb Hwf H Hin Hf; cbn in H; res_simp; [set_solver|].
  match goal with H : setReg _ _ = Ok _ |- _ => pose proof H as Hs; apply setReg_ok in H as [Hr ->] end.
  apply elem_of_cons in Hin as [->|Hin].
  - eapply setRegs_keeps_ready; [exact H|]. rewrite Hf. unfold ready_bit; cbn.
    apply list_lookup_insert_eq. unfold sb_wf, in_range in *.
    rewrite !andb_true_iff, !Z.leb_le, !Z.ltb_lt in Hr. lia.
  - eapply IH; [|exact H|done..]. by eapply setReg_wf.
Qed.
