(* ===== verification/IQInterface.v ===== *)
(** * What the instruction queue promises to the other stages

    The ROB and IEW call [instQueue.wakeDependents(inst)] when the output of an
    instruction may be consumed.  This file fixes the simulator's configuration
    flags, the equivalence of heaps "up to issue state", and the interface the
    ROB and IEW are verified against; [IQ.v] discharges it. *)

From S2P Require Import Prelude Regs DynInst Scoreboard.
Local Open Scope Z_scope.

(** ** Configuration

    The debug flags of [DTRACE(...)] that select the protection scheme. *)
Record DebugFlags := MkDebugFlags {
  CD_Allow_NonLoads_AfterBranch : bool;
  CD_MarkUnsafeIf_AfterBranch : bool;
  CD_MarkUnsafeIf_LoadtInstruction : bool;
  CD_Runahead_ifMoreThanNBranches : bool;
  CD_Runahead_ifBranchLoadIsStalling : bool;
  CD_Runahead_QuickOutputPropagation : bool;
  CD_Runahead_SquashInSingleCycle : bool;
  CD_SquashInSingleCycle : bool;
  CD_LimitWakeDependandsToWBWidth : bool;
  CD_Clear_MaySquash_AtExec : bool;
  CD_Clear_DirectUnconditionalBranches_AtDecode : bool;
  CD_Prioritize_Branch_Execution : bool;
  CD_MarkBranchPrequisites : bool;
  SS_DefendMemRegion : bool;
}.

#[export] Instance DebugFlags_eta : Updatable DebugFlags := λ r, MkDebugFlags
  (CD_Allow_NonLoads_AfterBranch r) (CD_MarkUnsafeIf_AfterBranch r) (CD_MarkUnsafeIf_LoadtInstruction r)
  (CD_Runahead_ifMoreThanNBranches r) (CD_Runahead_ifBranchLoadIsStalling r)
  (CD_Runahead_QuickOutputPropagation r) (CD_Runahead_SquashInSingleCycle r) (CD_SquashInSingleCycle r)
  (CD_LimitWakeDependandsToWBWidth r) (CD_Clear_MaySquash_AtExec r)
  (CD_Clear_DirectUnconditionalBranches_AtDecode r) (CD_Prioritize_Branch_Execution r) (CD_MarkBranchPrequisites r)
  (SS_DefendMemRegion r).

(** No protection at all. *)
Definition no_flags : DebugFlags :=
  MkDebugFlags false false false false false false false false false false false false false false.

(** ** Heaps up to issue state

    Waking dependents changes, of the instructions in flight, only how many
    operands are ready and whether they may issue.  [erase_issue] forgets those
    fields; two heaps are equivalent when they agree after erasure. *)
Definition erase_issue (d : DynInst) : DynInst :=
  st_reset CanIssue
    (d <| readyRegs := 0 |> <| latencyToIssue := 0 |> <| instFlags := 0%N |>
       <| readySrcRegIdx := 0%N |>).

Definition heap_equiv (h h' : heap) : Prop := erase_issue <$> h = erase_issue <$> h'.
Infix "≈" := heap_equiv (at level 70) : record_update_scope.

#[export] Instance heap_equiv_equivalence : Equivalence heap_equiv.
Proof. split; [by intros ?|by intros ???|]. intros ????. unfold heap_equiv in *. congruence. Qed.

Lemma heap_equiv_lookup (h h' : heap) (p : InstPtr) (d : DynInst) :
  h ≈ h' → h !! p = Some d → ∃ d', h' !! p = Some d' ∧ erase_issue d' = erase_issue d.
Proof.
  intros Heq Hp. apply (f_equal (lookup p)) in Heq.
  rewrite !lookup_fmap, Hp in Heq.
  destruct (h' !! p) as [d'|] eqn:E; [|done]. exists d'. split; [done|]. by apply (inj Some).
Qed.

Lemma heap_equiv_insert (h : heap) (p : InstPtr) (d d' : DynInst) :
  h !! p = Some d → erase_issue d' = erase_issue d → <[p := d']> h ≈ h.
Proof.
  intros Hp He. unfold heap_equiv. rewrite fmap_insert, He, <- fmap_insert.
  by rewrite insert_id.
Qed.

#[export] Instance heap_equiv_insert_proper (p : InstPtr) (d : DynInst) :
  Proper (heap_equiv ==> heap_equiv) (insert p d).
Proof. intros h h' Heq. unfold heap_equiv in *. by rewrite !fmap_insert, Heq. Qed.

(** What erasure keeps. *)
Lemma erase_seqNum (d d' : DynInst) : erase_issue d = erase_issue d' → seqNum d = seqNum d'.
Proof. intros H. by apply (f_equal seqNum) in H. Qed.
Lemma erase_staticInst (d d' : DynInst) :
  erase_issue d = erase_issue d' → staticInst d = staticInst d'.
Proof. intros H. by apply (f_equal staticInst) in H. Qed.
Lemma erase_destRegs (d d' : DynInst) :
  erase_issue d = erase_issue d' → destRegIdx_ d = destRegIdx_ d'.
Proof. intros H. by apply (f_equal destRegIdx_) in H. Qed.
Lemma erase_threadNumber (d d' : DynInst) :
  erase_issue d = erase_issue d' → threadNumber d = threadNumber d'.
Proof. intros H. by apply (f_equal threadNumber) in H. Qed.
Lemma erase_status (s : Status) (d d' : DynInst) :
  s ≠ CanIssue → erase_issue d = erase_issue d' → get_st s d = get_st s d'.
Proof.
  intros Hs H. apply (f_equal (get_st s)) in H. unfold erase_issue in H.
  by rewrite !get_st_reset_ne in H.
Qed.

(** ** Interface *)
(** [wakeDependents fl cyc p h q]: wake the dependents of [p]; the number of
    dependents woken, with the new heap and queue. *)
Class InstQueue (Q : Type) := wakeDependents :
  DebugFlags → Z → InstPtr → heap → Q → res (Z * heap * Q).

Class InstQueueLaws (Q : Type) `{InstQueue Q} := {
  (** Only issue state changes. *)
  wakeDependents_frame (fl : DebugFlags) (cyc : Z) (p : InstPtr) (h h' : heap) (q q' : Q) (n : Z) :
    wakeDependents fl cyc p h q = Ok (n, h', q') → h' ≈ h;
  (** A squashed instruction wakes nobody. *)
  wakeDependents_not_squashed (fl : DebugFlags) (cyc : Z) (p : InstPtr) (h : heap) (q : Q) r :
    wakeDependents fl cyc p h q = Ok r → ∃ d, h !! p = Some d ∧ isSquashed d = false;
}.

(** The structures a wakeup touches, besides the ROB. *)
Record World (Q : Type) := MkWorld {
  w_heap : heap;
  w_iq : Q;
  w_sb : Scoreboard;
}.
Arguments MkWorld {Q}.
Arguments w_heap {Q}.
Arguments w_iq {Q}.
Arguments w_sb {Q}.
#[export] Instance World_eta (Q : Type) : Updatable (World Q) :=
  λ r, MkWorld (w_heap r) (w_iq r) (w_sb r).

(** * Relations between heaps

    How an operation changes the instructions in flight: [hrel R h h'] relates
    the two versions of every live instruction by [R]; [changed ss d d'] says
    that at most the status flags [ss] (and the issue state the IQ maintains)
    differ between [d] and [d'].  Also the accessors of an instruction through
    its pointer, and the reorder-buffer order [seq_sorted]. *)
Local Open Scope Z_scope.

(** ** Access through a pointer *)
Definition st_at (s : Status) (h : heap) (p : InstPtr) : bool :=
  match h !! p with Some d => get_st s d | None => false end.
Definition seq_at (h : heap) (p : InstPtr) : Z :=
  match h !! p with Some d => seqNum d | None => 0 end.

(** ** Everything but status and issue state *)
Definition core (d : DynInst) : DynInst := erase_issue d <| status := 0%N |>.

Definition changed (ss : list Status) (d d' : DynInst) : Prop :=
  core d' = core d ∧ ∀ s, s ∉ ss → s ≠ CanIssue → get_st s d' = get_st s d.

Definition hrel (R : InstPtr → DynInst → DynInst → Prop) (h h' : heap) : Prop :=
  ∀ p, option_Forall2 (R p) (h !! p) (h' !! p).

#[export] Instance changed_refl (ss : list Status) : Reflexive (changed ss).
Proof. by intros d. Qed.

Lemma changed_trans (ss : list Status) : Transitive (changed ss).
Proof.
  intros d1 d2 d3 [E1 S1] [E2 S2]. split; [congruence|]. intros s H1 H2.
  rewrite S2, S1; auto.
Qed.

Lemma changed_mono (ss ss' : list Status) (d d' : DynInst) :
  ss ⊆ ss' → changed ss d d' → changed ss' d d'.
Proof. intros Hs [E H]. split; [done|]. intros s Hn. apply H. set_solver. Qed.

Lemma changed_get (s : Status) (ss : list Status) (d d' : DynInst) :
  changed ss d d' → s ∉ ss → s ≠ CanIssue → get_st s d' = get_st s d.
Proof. intros [_ H]. apply H. Qed.

Lemma changed_erase (d d' : DynInst) : erase_issue d' = erase_issue d → changed [] d d'.
Proof.
  intros E. split; [unfold core; by rewrite E|]. intros s _ Hs. by apply erase_status.
Qed.

Lemma changed_st_set (s : Status) (d : DynInst) : changed [s] d (st_set s d).
Proof.
  split; [done|]. intros s' Hs _. apply get_st_set_ne. set_solver.
Qed.
Lemma changed_st_reset (s : Status) (d : DynInst) : changed [s] d (st_reset s d).
Proof.
  split; [done|]. intros s' Hs _. apply get_st_reset_ne. set_solver.
Qed.

Section core_facts.
Context (ss : list Status) (d d' : DynInst) (Hc : changed ss d d').
Lemma changed_seqNum : seqNum d' = seqNum d.
Proof. by apply (f_equal seqNum (proj1 Hc)). Qed.
Lemma changed_staticInst : staticInst d' = staticInst d.
Proof. by apply (f_equal staticInst (proj1 Hc)). Qed.
Lemma changed_threadNumber : threadNumber d' = threadNumber d.
Proof. by apply (f_equal threadNumber (proj1 Hc)). Qed.
Lemma changed_destRegs : destRegIdx_ d' = destRegIdx_ d.
Proof. by apply (f_equal destRegIdx_ (proj1 Hc)). Qed.
Lemma changed_isLoad : isLoad d' = isLoad d.
Proof. unfold isLoad. by rewrite changed_staticInst. Qed.
Lemma changed_isControl : isControl d' = isControl d.
Proof. unfold isControl. by rewrite changed_staticInst. Qed.
End core_facts.

(** ** Heap relations *)
Lemma hrel_refl (R : InstPtr → DynInst → DynInst → Prop) (h : heap) :
  (∀ p d, R p d d) → hrel R h h.
Proof. intros HR p. destruct (h !! p); constructor. apply HR. Qed.

Lemma hrel_trans (R1 R2 R3 : InstPtr → DynInst → DynInst → Prop) (h1 h2 h3 : heap) :
  (∀ p d1 d2 d3, h1 !! p = Some d1 → R1 p d1 d2 → R2 p d2 d3 → R3 p d1 d3) →
  hrel R1 h1 h2 → hrel R2 h2 h3 → hrel R3 h1 h3.
Proof.
  intros HR H1 H2 p. specialize (H1 p). specialize (H2 p).
  inversion H1 as [d1 d2 Hr1 E1 E2|E1 E2]; rewrite <- E2 in H2; inversion H2; constructor.
  by eapply HR.
Qed.

Lemma hrel_mono (R R' : InstPtr → DynInst → DynInst → Prop) (h h' : heap) :
  (∀ p d d', h !! p = Some d → R p d d' → R' p d d') → hrel R h h' → hrel R' h h'.
Proof.
  intros HR H p. specialize (H p). destruct (h !! p) eqn:E; inversion H; constructor. by apply HR.
Qed.

Lemma hrel_lookup (R : InstPtr → DynInst → DynInst → Prop) (h h' : heap) (p : InstPtr) (d : DynInst) :
  hrel R h h' → h !! p = Some d → ∃ d', h' !! p = Some d' ∧ R p d d'.
Proof. intros H E. specialize (H p). rewrite E in H. inversion H; eauto. Qed.

Lemma hrel_lookup_r (R : InstPtr → DynInst → DynInst → Prop) (h h' : heap) (p : InstPtr) (d' : DynInst) :
  hrel R h h' → h' !! p = Some d' → ∃ d, h !! p = Some d ∧ R p d d'.
Proof. intros H E. specialize (H p). rewrite E in H. inversion H; eauto. Qed.

Lemma hrel_equiv (h h' : heap) : h' ≈ h → hrel (λ _, changed []) h h'.
Proof.
  intros Heq p. apply (f_equal (lookup p)) in Heq. rewrite !lookup_fmap in Heq.
  destruct (h !! p), (h' !! p); try discriminate; constructor.
  apply changed_erase. by apply (inj Some).
Qed.

Lemma hrel_alter (R : InstPtr → DynInst → DynInst → Prop) (f : DynInst → DynInst) (h : heap) (p : InstPtr) :
  (∀ q d, R q d d) → (∀ d, h !! p = Some d → R p d (f d)) → hrel R h (alter f p h).
Proof.
  intros Hrefl Hf q. destruct (decide (p = q)) as [->|Hne].
  - rewrite lookup_alter_eq. destruct (h !! q) eqn:E; constructor. by apply Hf.
  - rewrite lookup_alter_ne by done. destruct (h !! q); constructor. apply Hrefl.
Qed.

(** An unchanged flag reads the same. *)
Lemma st_at_hrel (s : Status) (R : InstPtr → DynInst → DynInst → Prop) (h h' : heap) (p : InstPtr) :
  hrel R h h' → (∀ d d', h !! p = Some d → R p d d' → get_st s d' = get_st s d) →
  st_at s h' p = st_at s h p.
Proof.
  intros H Hs. specialize (H p). unfold st_at.
  destruct (h !! p) eqn:E; inversion H; [|done]. by apply Hs.
Qed.
Lemma seq_at_hrel (R : InstPtr → DynInst → DynInst → Prop) (h h' : heap) (p : InstPtr) :
  hrel R h h' → (∀ d d', R p d d' → seqNum d' = seqNum d) → seq_at h' p = seq_at h p.
Proof.
  intros H Hs. specialize (H p). unfold seq_at. destruct H as [d d' Hr|]; [|done]. by apply Hs.
Qed.
