(* ===== verification/Decode.v ===== *)
(** * The decode stage

    [src/cpu/o3/decode.hh] and [decode_impl.hh]: instructions from fetch pass through a skid
    buffer to rename, as many per cycle as the stage is wide; the target of a PC-relative
    branch is checked against the prediction, and a wrong one redirects fetch; rename stalls
    the stage, and the stage tells fetch to stop and to resume.

    Wires: [DcIn] is what rename and commit drove some cycles ago, [fromFetch] the
    instructions that arrive; [toRename] (whose length is [toRenameIndex]), [decodeBlock],
    [decodeUnblock] and [decodeInfo] are written.  [StaticInst::branchTarget] belongs to the
    instruction set and is a parameter.  The activity flag and the statistics are left out. *)

From S2P Require Import Prelude Regs DynInst IQInterface CPU.
Local Open Scope Z_scope.

(** ** State *)
Inductive DecodeStatus :=
| DcActive
| DcInactive.
Inductive ThreadStatus :=
| DcRunning
| DcIdle
| DcStartSquash
| DcSquashing
| DcBlocked
| DcUnblocking.
#[export] Instance DecodeStatus_eq_dec : EqDecision DecodeStatus.
Proof. solve_decision. Defined.
#[export] Instance ThreadStatus_eq_dec : EqDecision ThreadStatus.
Proof. solve_decision. Defined.

(** [renameBlock], [renameUnblock] and [commitInfo.squash] of one thread. *)
Record DcIn := MkDcIn {
  in_renameBlock : bool;
  in_renameUnblock : bool;
  in_commitSquash : bool;
}.

(** [decodeComm]: the redirect sent to fetch. *)
Record DecodeComm := MkDecodeComm {
  di_nextPC : PCState;
  di_mispredictInst : option InstPtr;
  di_squashInst : option InstPtr;
  di_doneSeqNum : Z;
  di_squash : bool;
  di_predIncorrect : bool;
  di_branchMispredict : bool;
  di_branchTaken : bool;
}.
(** A cleared slot of the time buffer. *)
Definition no_comm : DecodeComm := MkDecodeComm (MkPCState 0 0 0 0 0) None None 0 false false false false.

Record Decode := MkDecode {
  dc_status : DecodeStatus;
  decodeStatus : nat → ThreadStatus;
  dc_insts : nat → list InstPtr;
  dc_skid : nat → list InstPtr;
  stalls_rename : nat → bool;
  toRename : list InstPtr;
  decodeBlock : nat → bool;
  decodeUnblock : nat → bool;
  decodeInfo : nat → DecodeComm;
  dc_heap : heap;
  dc_cpu : CPUList;
}.
#[export] Instance Decode_eta : Updatable Decode := λ r, MkDecode (dc_status r) (decodeStatus r) (dc_insts r)
  (dc_skid r) (stalls_rename r) (toRename r) (decodeBlock r) (decodeUnblock r) (decodeInfo r) (dc_heap r) (dc_cpu r).

Section stage.
Context (fl : DebugFlags) (branchTarget : StaticInst → PCState → PCState) (fullSystem : bool) (curCycle : Z).
Context (decodeWidth skidBufferMax : Z) (numThreads : nat) (activeThreads : list nat).
Context (from : nat → DcIn) (fromFetch : list InstPtr).
Implicit Types (s : Decode).

Definition dc_inst (p : InstPtr) s : res DynInst := deref (dc_heap s !! p).
Definition put_inst (p : InstPtr) (d : DynInst) s : Decode := s <| dc_heap ::= <[p := d]> |>.
(** [inst->branchTarget()]. *)
Definition inst_target (d : DynInst) : PCState := branchTarget (staticInst d) (pc d).

(** ** Queues *)
Definition sortInst s (p : InstPtr) : res Decode :=
  d ← dc_inst p s;
  Ok (s <| dc_insts ::= <[threadNumber d := dc_insts s (threadNumber d) ++ [p]]> |>).
Definition sortInsts s : res Decode := mfold sortInst s fromFetch.

Definition skidOne (tid : nat) s (p : InstPtr) : res Decode :=
  d ← dc_inst p s;
  _ ← assert (bool_decide (tid = threadNumber d));
  Ok (s <| dc_insts ::= <[tid := tail (dc_insts s tid)]> |> <| dc_skid ::= <[tid := dc_skid s tid ++ [p]]> |>).
Definition skidInsert (tid : nat) s : res Decode :=
  s ← mfold (skidOne tid) s (dc_insts s tid);
  _ ← assert (Z.of_nat (length (dc_skid s tid)) <=? skidBufferMax);
  Ok s.
Definition skidsEmpty s : bool := forallb (λ tid, bool_decide (dc_skid s tid = [])) activeThreads.

(** ** Blocking *)
Definition block (tid : nat) s : res (bool * Decode) :=
  s ← skidInsert tid s;
  if decide (decodeStatus s tid = DcBlocked) then Ok (false, s)
  else
    let s := s <| decodeStatus ::= <[tid := DcBlocked]> |> in
    Ok (true, if decodeUnblock s tid then s <| decodeUnblock ::= <[tid := false]> |>
              else s <| decodeBlock ::= <[tid := true]> |>).

Definition unblock (tid : nat) s : bool * Decode :=
  if decide (dc_skid s tid = []) then
    (true, s <| decodeUnblock ::= <[tid := true]> |> <| decodeStatus ::= <[tid := DcRunning]> |>)
  else (false, s).

Definition updateStatus s : Decode :=
  if existsb (λ tid, bool_decide (decodeStatus s tid = DcUnblocking)) activeThreads then
    (if decide (dc_status s = DcInactive) then s <| dc_status := DcActive |> else s)
  else (if decide (dc_status s = DcActive) then s <| dc_status := DcInactive |> else s).

(** ** Squash *)
(** [threadNumber == tid], and for a branch [seqNum > squash_seq_num]. *)
Definition squashFromFetch (above : DynInst → bool) (tid : nat) s (p : InstPtr) : res Decode :=
  d ← dc_inst p s;
  Ok (if bool_decide (threadNumber d = tid) && above d then put_inst p (setSquashed d) s else s).

(** [squash(inst, tid)]: a branch was predicted wrongly. *)
Definition squash_inst (p : InstPtr) (tid : nat) s : res Decode :=
  inst ← dc_inst p s;
  let info := MkDecodeComm (inst_target inst) (Some p) (Some p) (seqNum inst) true true true
                (isUncondCtrl inst || branching (pc inst)) in
  let s := s <| decodeInfo ::= <[tid := info]> |> in
  let s := match decodeStatus s tid with
           | DcBlocked | DcUnblocking => s <| decodeUnblock ::= <[tid := true]> |>
           | _ => s
           end in
  let s := s <| decodeStatus ::= <[tid := DcSquashing]> |> in
  s ← mfold (squashFromFetch (λ d, seqNum inst <? seqNum d) tid) s fromFetch;
  let s := s <| dc_insts ::= <[tid := []]> |> <| dc_skid ::= <[tid := []]> |> in
  '(c, h) ← removeInstsUntil (seqNum inst) tid (dc_cpu s) (dc_heap s);
  Ok (s <| dc_cpu := c |> <| dc_heap := h |>).

(** [squash(tid)]: a squash from commit. *)
Definition squash_commit (tid : nat) s : res Decode :=
  let s := match decodeStatus s tid with
           | DcBlocked | DcUnblocking =>
               if fullSystem then s <| decodeUnblock ::= <[tid := true]> |>
               else if decodeBlock s tid then s <| decodeBlock ::= <[tid := false]> |>
               else s <| decodeUnblock ::= <[tid := true]> |>
           | _ => s
           end in
  let s := s <| decodeStatus ::= <[tid := DcSquashing]> |> in
  s ← mfold (squashFromFetch (λ _, true) tid) s fromFetch;
  Ok (s <| dc_insts ::= <[tid := []]> |> <| dc_skid ::= <[tid := []]> |>).

(** ** Status *)
Definition readStallSignals (tid : nat) s : res Decode :=
  let s := if in_renameBlock (from tid) then s <| stalls_rename ::= <[tid := true]> |> else s in
  if in_renameUnblock (from tid) then
    _ ← assert (stalls_rename s tid);
    Ok (s <| stalls_rename ::= <[tid := false]> |>)
  else Ok s.
Definition checkStall (tid : nat) s : bool := stalls_rename s tid.

Definition checkSignalsAndUpdate (tid : nat) s : res (bool * Decode) :=
  s ← readStallSignals tid s;
  if in_commitSquash (from tid) then
    s ← squash_commit tid s;
    Ok (true, s)
  else if checkStall tid s then block tid s
  else match decodeStatus s tid with
       | DcBlocked => Ok (true, (unblock tid (s <| decodeStatus ::= <[tid := DcUnblocking]> |>)).2)
       | DcSquashing => Ok (false, s <| decodeStatus ::= <[tid := DcRunning]> |>)
       | _ => Ok (false, s)
       end.

(** ** Decoding *)
Definition queue (unblocking : bool) (tid : nat) s : list InstPtr :=
  if unblocking then dc_skid s tid else dc_insts s tid.
Definition set_queue (unblocking : bool) (tid : nat) (q : list InstPtr) s : Decode :=
  if unblocking then s <| dc_skid ::= <[tid := q]> |> else s <| dc_insts ::= <[tid := q]> |>.

(** A PC-relative branch that is taken for sure, or was predicted taken. *)
Definition resolves (inst : DynInst) : bool := isDirectCtrl inst && (isUncondCtrl inst || readPredTaken inst).
Definition wrongTarget (inst : DynInst) : bool :=
  resolves inst && negb (pc_eqb (inst_target inst) (readPredTarg inst)).

Fixpoint decodeLoop (unblocking : bool) (tid : nat) (insts_available : nat) s : res Decode :=
  match insts_available with
  | O => Ok s
  | S avail =>
      if decodeWidth <=? Z.of_nat (length (toRename s)) then Ok s
      else match queue unblocking tid s with
           | [] => Err AssertFailed
           | p :: rest =>
               let s := set_queue unblocking tid rest s in
               inst ← dc_inst p s;
               if isSquashed inst then decodeLoop unblocking tid avail s
               else
                 let inst := if numSrcRegs inst =? 0 then setCanIssue curCycle inst else inst in
                 let s := put_inst p inst s <| toRename := toRename s ++ [p] |> in
                 _ ← panic_if (readPredTaken inst && negb (isControl inst));
                 if wrongTarget inst then
                   s ← squash_inst p (threadNumber inst) s;
                   d ← dc_inst p s;
                   Ok (put_inst p (setPredTarg (inst_target d) d) s)
                 else
                   let s := if maySquashOthers inst && isResolvedAtDecode inst
                               && CD_Clear_DirectUnconditionalBranches_AtDecode fl
                            then put_inst p (clearMaySquashOthers inst) s else s in
                   decodeLoop unblocking tid avail s
           end
  end.

Definition decodeInsts (tid : nat) s : res Decode :=
  let unblocking := bool_decide (decodeStatus s tid = DcUnblocking) in
  let insts_available := length (queue unblocking tid s) in
  if decide (insts_available = O) then Ok s
  else
    s ← decodeLoop unblocking tid insts_available s;
    match queue unblocking tid s with
    | [] => Ok s
    | _ => '(_, s) ← block tid s; Ok s
    end.

Definition decode (status_change : bool) (tid : nat) s : res (bool * Decode) :=
  match decodeStatus s tid with
  | DcRunning | DcIdle => s ← decodeInsts tid s; Ok (status_change, s)
  | DcUnblocking =>
      _ ← assert (negb (skidsEmpty s));
      s ← decodeInsts tid s;
      s ← (if decide (fromFetch = []) then Ok s else skidInsert tid s);
      let '(b, s) := unblock tid s in
      Ok (b || status_change, s)
  | _ => Ok (status_change, s)
  end.

(** ** A cycle *)
Definition tickThread (st : bool * Decode) (tid : nat) : res (bool * Decode) :=
  let '(status_change, s) := st in
  '(b, s) ← checkSignalsAndUpdate tid s;
  decode (b || status_change) tid s.
(** The wires written this cycle start out clear. *)
Definition clear_wires s : Decode :=
  s <| toRename := [] |> <| decodeBlock := (λ _, false) |> <| decodeUnblock := (λ _, false) |>
    <| decodeInfo := (λ _, no_comm) |>.
Definition tick s : res Decode :=
  s ← sortInsts (clear_wires s);
  '(status_change, s) ← mfold tickThread (false, s) activeThreads;
  Ok (if (status_change : bool) then updateStatus s else s).

(** ** Start-up and draining *)
Definition resetStage s : Decode :=
  foldl (λ s tid, s <| decodeStatus ::= <[tid := DcIdle]> |> <| stalls_rename ::= <[tid := false]> |>)
    (s <| dc_status := DcInactive |>) (seq 0 numThreads).
Definition dc_isDrained s : bool :=
  forallb (λ tid, bool_decide (dc_insts s tid = []) && bool_decide (dc_skid s tid = [])
                  && (bool_decide (decodeStatus s tid = DcRunning) || bool_decide (decodeStatus s tid = DcIdle)))
    (seq 0 numThreads).
Definition drainSanityCheck s : res unit :=
  mfold (λ _ tid,
    _ ← assert (bool_decide (dc_insts s tid = []));
    assert (bool_decide (dc_skid s tid = []))) tt (seq 0 numThreads).
End stage.
