(* ===== verification/DecodeOps.v ===== *)
(** * What decode does

    What each operation of [Decode.v] takes, sends and keeps, and the signals it leaves on
    the wires to fetch; then the turn of a thread in a cycle. *)

From S2P Require Import Prelude Regs DynInst CPU IQInterface Decode.
Local Open Scope Z_scope.

(** ** Instructions *)
(** Decode changes no instruction's place in the program; it squashes and corrects only
    instructions of the threads in [M], and never revives one. *)
Definition inst_kept (M : nat → Prop) (d d' : DynInst) : Prop :=
  seqNum d' = seqNum d ∧ threadNumber d' = threadNumber d ∧ staticInst d' = staticInst d ∧ pc d' = pc d
  ∧ (isSquashed d = true → isSquashed d' = true)
  ∧ (¬ M (threadNumber d) → isSquashed d' = isSquashed d ∧ predPC d' = predPC d ∧ instFlags d' = instFlags d).
Definition kept (M : nat → Prop) (h h' : heap) : Prop :=
  ∀ p, match h !! p, h' !! p with Some d, Some d' => inst_kept M d d' | None, None => True | _, _ => False end.
Abbreviation nobody := (λ _ : nat, False).

#[export] Instance inst_kept_po (M : nat → Prop) : PreOrder (inst_kept M).
Proof.
  split; [by intros d|]. intros d1 d2 d3 (A1&A2&A3&A4&A5&A6) (B1&B2&B3&B4&B5&B6).
  split_and!; try congruence; [auto|]. intros HM. destruct (A6 HM) as (?&?&?). rewrite <- A2 in HM. destruct (B6 HM) as (?&?&?). split_and!; congruence.
Qed.
#[export] Instance kept_po (M : nat → Prop) : PreOrder (kept M).
Proof.
  split.
  - intros h p. by destruct (h !! p).
  - intros h1 h2 h3 H12 H23 p. specialize (H12 p). specialize (H23 p). destruct (h1 !! p), (h2 !! p), (h3 !! p); try done. by etrans.
Qed.
Lemma kept_mono (M M' : nat → Prop) h h' : (∀ t, M t → M' t) → kept M h h' → kept M' h h'.
Proof.
  intros HM Hk p. specialize (Hk p). destruct (h !! p) as [d|], (h' !! p); try done. destruct Hk as (?&?&?&?&?&Hs). split_and!; try done. auto.
Qed.
Lemma kept_insert (M : nat → Prop) h (p : InstPtr) (d d' : DynInst) :
  h !! p = Some d → inst_kept M d d' → kept M h (<[p := d']> h).
Proof.
  intros Hd Hk q. destruct (decide (q = p)) as [->|Hne]; [by rewrite lookup_insert_eq, Hd|].
  rewrite lookup_insert_ne by done. by destruct (h !! q).
Qed.
Lemma kept_lookup (M : nat → Prop) h h' (p : InstPtr) (d : DynInst) :
  kept M h h' → h !! p = Some d → ∃ d', h' !! p = Some d' ∧ inst_kept M d d'.
Proof. intros Hk Hd. specialize (Hk p). rewrite Hd in Hk. destruct (h' !! p) as [d'|]; [by exists d'|done]. Qed.
Lemma kept_dead (M : nat → Prop) h h' (p : InstPtr) (d : DynInst) :
  kept M h h' → h !! p = Some d → ¬ M (threadNumber d) → dead h' p = dead h p.
Proof.
  intros Hk Hd HM. destruct (kept_lookup _ _ _ _ _ Hk Hd) as (d' & Hd' & _ & _ & _ & _ & _ & Es). unfold dead. rewrite Hd, Hd'. by apply Es.
Qed.
Lemma kept_dead_mono (M : nat → Prop) h h' (p : InstPtr) : kept M h h' → dead h p = true → dead h' p = true.
Proof.
  intros Hk. specialize (Hk p). unfold dead. destruct (h !! p) as [d|], (h' !! p) as [d'|]; try done. apply Hk.
Qed.
Lemma kept_set (M : nat → Prop) (st : Status) (d : DynInst) : st ≠ Squashed → inst_kept M d (st_set st d).
Proof. intros Hs. assert (E : isSquashed (st_set st d) = isSquashed d) by (by apply get_st_set_ne). split_and!; try done. by rewrite E. Qed.
Lemma kept_reset (M : nat → Prop) (st : Status) (d : DynInst) : st ≠ Squashed → inst_kept M d (st_reset st d).
Proof. intros Hs. assert (E : isSquashed (st_reset st d) = isSquashed d) by (by apply get_st_reset_ne). split_and!; try done. by rewrite E. Qed.
Lemma kept_setSquashed (M : nat → Prop) (d : DynInst) : M (threadNumber d) → inst_kept M d (setSquashed d).
Proof. intros HM. split_and!; try done. intros _. unfold setSquashed, isSquashed. apply get_st_set_eq. Qed.

Lemma canIssue_kept (M : nat → Prop) (cyc : Z) (d : DynInst) : inst_kept M d (if numSrcRegs d =? 0 then setCanIssue cyc d else d).
Proof. destruct (_ =? _); [|done]. eapply (transitivity (y := d <| latencyToIssue := _ |>)); [|by apply kept_set]. done. Qed.

(** ** Squashes *)
Lemma squashInstIt_kept (p : InstPtr) (tid : nat) c c' h h' : squashInstIt p tid c h = Ok (c', h') → kept (eq tid) h h'.
Proof.
  unfold squashInstIt. intros E. apply bind_ok in E as (d & Hd%deref_ok & E). injection E as E. case_bool_decide as Ht; injection E as _ <-; [|done].
  apply (kept_insert _ _ _ d); [done|]. by apply kept_setSquashed.
Qed.
Lemma removeUntil_kept (sn : Z) (tid : nat) (back : list InstPtr) : ∀ c c' h h',
  removeUntil_loop sn tid back c h = Ok (c', h') → kept (eq tid) h h'.
Proof.
  induction back as [|p back IH]; intros c c' h h' E; cbn in E; [by injection E as _ <-|].
  apply bind_ok in E as (d & _ & E). destruct (sn <? seqNum d); [|by injection E as _ <-].
  apply bind_ok in E as ([c1 h1] & E1 & E). etrans; [by eapply squashInstIt_kept|by eapply IH].
Qed.

Lemma removeUntil_list (sn : Z) (tid : nat) (back : list InstPtr) : ∀ c c' h h',
  removeUntil_loop sn tid back c h = Ok (c', h') → cpu_instList c' = cpu_instList c.
Proof.
  induction back as [|p back IH]; intros c c' h h' E; cbn in E; [by injection E as <- _|].
  apply bind_ok in E as (d & _ & E). destruct (sn <? seqNum d); [|by injection E as <- _].
  apply bind_ok in E as ([c1 h1] & E1 & E). rewrite (IH _ _ _ _ E). unfold squashInstIt in E1.
  apply bind_ok in E1 as (d1 & _ & E1). injection E1 as E1. by case_bool_decide; injection E1 as <- _.
Qed.

Section stage.
Context (fl : DebugFlags) (bt : StaticInst → PCState → PCState) (fs : bool) (cyc : Z).
Context (decodeWidth skidMax : Z) (active : list nat) (from : nat → DcIn) (fromFetch : list InstPtr).
Implicit Types (s : Decode).

Lemma squashFromFetch_ok (above : DynInst → bool) (tid : nat) (l : list InstPtr) : ∀ s s',
  mfold (squashFromFetch above tid) s l = Ok s' →
  s' = s <| dc_heap := dc_heap s' |> ∧ kept (eq tid) (dc_heap s) (dc_heap s')
  ∧ (∀ p d, p ∈ l → dc_heap s !! p = Some d → threadNumber d = tid → above d = true → dead (dc_heap s') p = true).
Proof.
  induction l as [|p l IH]; intros s s' E; cbn in E.
  { injection E as <-. split; [by destruct s|]. split; [done|]. by intros p d ?%not_elem_of_nil. }
  apply bind_ok in E as (s1 & E1 & E). unfold squashFromFetch in E1. apply bind_ok in E1 as (d & Hd%deref_ok & E1). injection E1 as E1.
  assert (H1 : s1 = s <| dc_heap := dc_heap s1 |> ∧ kept (eq tid) (dc_heap s) (dc_heap s1)
               ∧ (threadNumber d = tid → above d = true → dead (dc_heap s1) p = true)).
  { destruct (bool_decide _ && above d) eqn:Eb; subst s1.
    - apply andb_true_iff in Eb as [Ht%bool_decide_eq_true _]. split; [done|]. split.
      + cbn. apply (kept_insert _ _ _ d); [done|]. by apply kept_setSquashed.
      + intros _ _. unfold dead. cbn. rewrite lookup_insert_eq. cbn. apply get_st_set_eq.
    - split; [by destruct s|]. split; [done|]. intros Ht Ha. rewrite bool_decide_true, Ha in Eb by done. done. }
  destruct H1 as (Es & Hk & Hp). destruct (IH s1 s' E) as (Es' & Hk' & Hl). split; [rewrite Es'; rewrite Es; done|]. split; [by etrans|].
  intros q e [->|Hq]%elem_of_cons He Ht Hab.
  - assert (e = d) as -> by congruence. eapply kept_dead_mono; [exact Hk'|]. by apply Hp.
  - destruct (kept_lookup _ _ _ _ _ Hk He) as (e' & He' & _ & Et & _).
    destruct (decide (p = q)) as [<-|Hne]; [assert (e = d) as -> by congruence; eapply kept_dead_mono; [exact Hk'|]; by apply Hp|].
    apply (Hl q e'); try done; [by rewrite Et|].
    assert (e' = e) as ->; [|done]. rewrite Es in He'. cbn in He'.
    assert (dc_heap s1 = if bool_decide (threadNumber d = tid) && above d then <[p := setSquashed d]> (dc_heap s) else dc_heap s) as Eh.
    { rewrite <- E1. by destruct (bool_decide _ && above d). }
    rewrite Eh in He'. destruct (bool_decide _ && above d); [rewrite lookup_insert_ne in He' by done|]; congruence.
Qed.

(** Whether fetch has been told to stop and not yet to resume. *)
Definition held s (tid : nat) : bool :=
  match decodeStatus s tid with DcBlocked | DcUnblocking => true | _ => false end.

(** The redirect that a branch sends. *)
Definition redirect_info (p : InstPtr) (d : DynInst) : DecodeComm :=
  MkDecodeComm (bt (staticInst d) (pc d)) (Some p) (Some p) (seqNum d) true true true (isUncondCtrl d || branching (pc d)).

(** The thread is off the wrong path behind [p]: what arrived or is in flight and younger is
    squashed, and nothing of the thread waits. *)
Record redirected (tid : nat) (p : InstPtr) (d : DynInst) s s' : Prop := {
  rd_info : decodeInfo s' = <[tid := redirect_info p d]> (decodeInfo s);
  rd_status : decodeStatus s' = <[tid := DcSquashing]> (decodeStatus s);
  rd_unblock : decodeUnblock s' = if held s tid then <[tid := true]> (decodeUnblock s) else decodeUnblock s;
  rd_block : decodeBlock s' = decodeBlock s;
  rd_insts : dc_insts s' = <[tid := []]> (dc_insts s);
  rd_skid : dc_skid s' = <[tid := []]> (dc_skid s);
  rd_sent : toRename s' = toRename s;
  rd_stalls : stalls_rename s' = stalls_rename s;
  rd_stage : dc_status s' = dc_status s;
  rd_kept : kept (eq tid) (dc_heap s) (dc_heap s');
  rd_list : cpu_instList (dc_cpu s') = cpu_instList (dc_cpu s);
  rd_arrived : ∀ q e, q ∈ fromFetch → dc_heap s !! q = Some e → threadNumber e = tid → seqNum d < seqNum e → dead (dc_heap s') q = true;
  rd_flight : listed (dc_cpu s) (dc_heap s) → ∀ q e, q ∈ cpu_instList (dc_cpu s) → dc_heap s !! q = Some e → threadNumber e = tid → seqNum d < seqNum e → dead (dc_heap s') q = true;
  rd_exact : ∀ q, dead (dc_heap s) q = false → dead (dc_heap s') q = true → younger_of (seqNum d) tid (dc_heap s) q = true;
}.

Lemma kept_younger (M : nat → Prop) (sn : Z) (tid : nat) h h' (q : InstPtr) :
  kept M h h' → younger_of sn tid h' q = younger_of sn tid h q.
Proof.
  intros Hk. specialize (Hk q). unfold younger_of. destruct (h !! q) as [d|], (h' !! q) as [d'|]; try done. destruct Hk as (E1 & E2 & _). by rewrite E1, E2.
Qed.
Lemma kept_listed (M : nat → Prop) c h h' : kept M h h' → listed c h → listed c h'.
Proof.
  intros Hk (Hnd & Hh & Hs). split_and!; [done| |].
  - intros p Hp. destruct (Hh p Hp) as [d Hd]. destruct (kept_lookup _ _ _ _ _ Hk Hd) as (d' & Hd' & _). by exists d'.
  - eapply ssorted_impl; [|exact Hs]. intros x y. assert (E : ∀ z, seq_in h' z = seq_in h z); [|by rewrite !E].
    intros z. specialize (Hk z). unfold seq_in. destruct (h !! z) as [d|], (h' !! z) as [d'|]; try done. by destruct Hk as (E & _).
Qed.

(** The instructions two successive loops squash. *)
Lemma squash_fetch_exact (sn : Z) (tid : nat) (l : list InstPtr) : ∀ s s',
  mfold (squashFromFetch (λ d, sn <? seqNum d) tid) s l = Ok s' →
  ∀ q, dead (dc_heap s) q = false → dead (dc_heap s') q = true → younger_of sn tid (dc_heap s) q = true.
Proof.
  induction l as [|p l IH]; intros s s' E q H0 H1; cbn in E; [injection E as <-; congruence|].
  apply bind_ok in E as (s1 & E1 & E). assert (Hk : kept (eq tid) (dc_heap s) (dc_heap s1)).
  { apply (squashFromFetch_ok (λ d, sn <? seqNum d) tid [p] s s1). cbn. by rewrite E1. }
  destruct (dead (dc_heap s1) q) eqn:Eq1; [|rewrite <- (kept_younger _ _ _ _ _ _ Hk); by eapply IH].
  unfold squashFromFetch in E1. apply bind_ok in E1 as (d & Hd%deref_ok & E1). injection E1 as E1.
  destruct (bool_decide _ && _) eqn:Eb; [|subst; congruence]. subst s1. unfold dead in Eq1, H0. cbn in Eq1.
  destruct (decide (q = p)) as [->|Hne]; [|rewrite lookup_insert_ne in Eq1 by done; congruence]. unfold younger_of. by rewrite Hd.
Qed.
Lemma removeUntil_exact (sn : Z) (tid : nat) (back : list InstPtr) : ∀ c c' h h',
  removeUntil_loop sn tid back c h = Ok (c', h') →
  ∀ q, dead h q = false → dead h' q = true → younger_of sn tid h q = true.
Proof.
  induction back as [|p back IH]; intros c c' h h' E q H0 H1; cbn in E; [injection E as _ <-; congruence|].
  apply bind_ok in E as (d & Hd%deref_ok & E). destruct (Z.ltb_spec sn (seqNum d)) as [Hlt|]; [|injection E as _ <-; congruence].
  apply bind_ok in E as ([c1 h1] & E1 & E). pose proof (squashInstIt_kept _ _ _ _ _ _ E1) as Hk.
  destruct (dead h1 q) eqn:Eq1; [|rewrite <- (kept_younger _ _ _ _ _ _ Hk); by eapply IH].
  unfold squashInstIt in E1. rewrite Hd in E1. injection E1 as E1. case_bool_decide as Ht; injection E1 as _ <-; [|congruence].
  unfold dead in Eq1, H0. destruct (decide (q = p)) as [->|Hne]; [|rewrite lookup_insert_ne in Eq1 by done; congruence].
  unfold younger_of. rewrite Hd, bool_decide_true by done. by apply Z.ltb_lt.
Qed.

Lemma squash_inst_ok (tid : nat) (p : InstPtr) (d : DynInst) s s' :
  dc_heap s !! p = Some d → squash_inst bt fromFetch p tid s = Ok s' → redirected tid p d s s'.
Proof.
  intros Hd E. unfold squash_inst, dc_inst in E. rewrite Hd in E. cbn [deref mbind res_bind] in E. cbn zeta in E.
  apply bind_ok in E as (s1 & E1 & E). apply bind_ok in E as ([c h] & E2 & E). injection E as <-.
  pose proof (squash_fetch_exact _ _ _ _ _ E1) as Hx1. apply squashFromFetch_ok in E1 as (Es & Hk & Hl).
  set (s0 := match decodeStatus _ tid with DcBlocked | DcUnblocking => _ | _ => _ end) in *.
  assert (E0 : dc_heap s0 = dc_heap s ∧ dc_cpu s0 = dc_cpu s) by (unfold s0; cbn; by destruct (decodeStatus s tid)). destruct E0 as [Eh0 Ec0].
  cbn in Hk, Hl, Hx1. rewrite Eh0 in Hk, Hl, Hx1. unfold removeInstsUntil in E2. apply bind_ok in E2 as (u & Hne & E2).
  pose proof (removeUntil_kept _ _ _ _ _ _ _ E2) as Hk2. pose proof (removeUntil_exact _ _ _ _ _ _ _ E2) as Hx2. cbn in Hk2, Hx2.
  assert (Hc1 : dc_cpu s1 = dc_cpu s) by (rewrite Es; cbn; done).
  split; cbn; try (rewrite Es; unfold s0; unfold held; cbn; by destruct (decodeStatus s tid)).
  - by etrans.
  - rewrite (removeUntil_list _ _ _ _ _ _ _ E2). cbn. by rewrite Hc1.
  - intros q e Hq He Ht Hlt. eapply kept_dead_mono; [exact Hk2|]. apply (Hl q e); try done. by apply Z.ltb_lt.
  - intros Hls q e Hq He Ht Hlt. assert (Hls1 : listed (dc_cpu s1) (dc_heap s1)) by (rewrite Hc1; by eapply kept_listed).
    destruct (removeInstsUntil_ok (seqNum d) tid (dc_cpu s1) (dc_heap s1) Hls1) as (h2 & E3 & Hm).
    { rewrite Hc1. intros En. rewrite En in Hq. by apply not_elem_of_nil in Hq. }
    unfold removeInstsUntil in E3. apply bind_ok in E3 as (u' & _ & E3). cbn in E2. rewrite E2 in E3. injection E3 as _ <-.
    destruct (kept_lookup _ _ _ _ _ Hk He) as (e' & He' & Eseq & Eth & _). unfold dead. rewrite Hm, decide_True, He'; [cbn; apply get_st_set_eq|].
    apply elem_of_reverse, list_elem_of_filter. split; [|by rewrite Hc1]. unfold younger_of. rewrite He', Eseq, Eth.
    rewrite bool_decide_true by done. by apply Z.ltb_lt.
  - intros q H0 H1. destruct (dead (dc_heap s1) q) eqn:Eq; [by apply Hx1|]. rewrite <- (kept_younger _ _ _ _ _ _ Hk). by apply Hx2.
Qed.

(** Nothing of the thread waits, after a squash from commit. *)
Record flushed (tid : nat) s s' : Prop := {
  fd_status : decodeStatus s' = <[tid := DcSquashing]> (decodeStatus s);
  fd_unblock : decodeUnblock s' = if held s tid then <[tid := true]> (decodeUnblock s) else decodeUnblock s;
  fd_block : decodeBlock s' = decodeBlock s;
  fd_insts : dc_insts s' = <[tid := []]> (dc_insts s);
  fd_skid : dc_skid s' = <[tid := []]> (dc_skid s);
  fd_sent : toRename s' = toRename s;
  fd_stalls : stalls_rename s' = stalls_rename s;
  fd_info : decodeInfo s' = decodeInfo s;
  fd_cpu : dc_cpu s' = dc_cpu s;
  fd_kept : kept (eq tid) (dc_heap s) (dc_heap s');
  fd_arrived : ∀ q e, q ∈ fromFetch → dc_heap s !! q = Some e → threadNumber e = tid → dead (dc_heap s') q = true;
}.

Lemma squash_commit_ok (tid : nat) s s' :
  decodeBlock s tid = false → squash_commit fs fromFetch tid s = Ok s' → flushed tid s s'.
Proof.
  intros Hb E. unfold squash_commit in E. cbn zeta in E. rewrite Hb in E. apply bind_ok in E as (s1 & E1 & E). injection E as <-.
  apply squashFromFetch_ok in E1 as (Es & Hk & Hl).
  set (s0 := match decodeStatus s tid with DcBlocked | DcUnblocking => _ | _ => _ end) in *.
  assert (E0 : dc_heap s0 = dc_heap s) by (unfold s0; by destruct (decodeStatus s tid), fs).
  cbn in Hk, Hl. rewrite E0 in Hk, Hl.
  split; cbn; try (rewrite Es; unfold s0, held; cbn; by destruct (decodeStatus s tid), fs); try done.
  intros q e Hq He Ht. by apply (Hl q e).
Qed.

(** ** The loop *)
Lemma dc_queue_set (u : bool) (tid : nat) (q : list InstPtr) s : queue u tid (set_queue u tid q s) = q.
Proof. destruct u; cbn; by rewrite fn_lookup_insert. Qed.
(** Everything but the queues, the instructions sent and the instructions themselves. *)
Definition rest_of s : Decode := s <| dc_insts := λ _, [] |> <| dc_skid := λ _, [] |> <| toRename := [] |> <| dc_heap := ∅ |>.
Definition queues_but (u : bool) (tid : nat) s s' : Prop :=
  ∀ v t, (v, t) ≠ (u, tid) → queue v t s' = queue v t s.
Lemma dc_queues_but_set (u : bool) (tid : nat) (q : list InstPtr) s : queues_but u tid s (set_queue u tid q s).
Proof. intros v t Hne. destruct u, v; cbn; rewrite ?fn_lookup_insert_ne by congruence; done. Qed.

(** [taken] left the front of the queue; those not squashed were sent. *)
Record consumed (u : bool) (tid : nat) (taken : list InstPtr) s s' : Prop := {
  cs_queue : queue u tid s = taken ++ queue u tid s';
  cs_sent : toRename s' = toRename s ++ live (dc_heap s) taken;
  cs_rest : rest_of s' = rest_of s;
  cs_others : queues_but u tid s s';
  cs_kept : kept nobody (dc_heap s) (dc_heap s');
}.
(** The instructions that wait exist and belong to the thread. *)
Definition owned (h : heap) (tid : nat) (l : list InstPtr) : Prop :=
  ∀ p, p ∈ l → ∃ d, h !! p = Some d ∧ threadNumber d = tid.
Lemma owned_kept (M : nat → Prop) h h' (tid : nat) (l : list InstPtr) : kept M h h' → owned h tid l → owned h' tid l.
Proof.
  intros Hk Ho p Hp. destruct (Ho p Hp) as (d & Hd & Ht). destruct (kept_lookup _ _ _ _ _ Hk Hd) as (d' & Hd' & _ & Et & _).
  exists d'. split; [done|congruence].
Qed.
Lemma live_kept_owned (M : nat → Prop) h h' (tid : nat) (l : list InstPtr) :
  kept M h h' → owned h tid l → ¬ M tid → live h' l = live h l.
Proof.
  intros Hk Ho HM. apply filter_same. intros p Hp. destruct (Ho p Hp) as (d & Hd & Ht).
  rewrite (kept_dead M h h' p d); [done|done|done|by rewrite Ht].
Qed.

Lemma consumed_nil (u : bool) (tid : nat) s : consumed u tid [] s s.
Proof. split; try done. by rewrite app_nil_r. Qed.
Lemma consumed_cons (u : bool) (tid : nat) (p : InstPtr) (taken : list InstPtr) s s1 s' :
  owned (dc_heap s) tid (queue u tid s) →
  consumed u tid [p] s s1 → consumed u tid taken s1 s' → consumed u tid (p :: taken) s s'.
Proof.
  intros Ho [Q1 T1 F1 O1 K1] [Q2 T2 F2 O2 K2]. split.
  - by rewrite Q1, Q2.
  - rewrite T2, T1. assert (E : live (dc_heap s1) taken = live (dc_heap s) taken).
    { eapply live_kept_owned; [exact K1| |by intros []]. intros q Hq. apply Ho. rewrite Q1, Q2. set_solver. }
    rewrite E, <- app_assoc, !(live_cons _ p). by destruct (dead (dc_heap s) p).
  - congruence.
  - intros v t Hne. by rewrite O2, O1.
  - by etrans.
Qed.

Lemma decodeLoop_ok (u : bool) (tid k : nat) : ∀ s s',
  decodeLoop fl bt cyc decodeWidth fromFetch u tid k s = Ok s' →
  owned (dc_heap s) tid (queue u tid s) → (k ≤ length (queue u tid s))%nat →
  ∃ taken s1, consumed u tid taken s s1 ∧ (length taken ≤ k)%nat
    ∧ (Z.of_nat (length (toRename s1)) ≤ Z.max decodeWidth (Z.of_nat (length (toRename s))))
    ∧ ((s' = s1 ∧ (length taken = k ∨ decodeWidth ≤ Z.of_nat (length (toRename s1))))
       ∨ ∃ l p d s2 d2, taken = l ++ [p] ∧ dc_heap s1 !! p = Some d ∧ isSquashed d = false ∧ threadNumber d = tid ∧ wrongTarget bt d = true
           ∧ redirected tid p d s1 s2 ∧ dc_heap s2 !! p = Some d2 ∧ s' = put_inst p (setPredTarg (inst_target bt d2) d2) s2).
Proof.
  induction k as [|k IH]; intros s s' E Ho Hk; cbn [decodeLoop] in E.
  { injection E as <-. exists [], s. split; [apply consumed_nil|]. split; [done|]. split; [lia|]. left. split; [done|by left]. }
  destruct (Z.leb_spec decodeWidth (Z.of_nat (length (toRename s)))) as [Hw|Hw].
  { injection E as <-. exists [], s. split; [apply consumed_nil|]. split; [cbn; lia|]. split; [lia|]. left. split; [done|by right]. }
  destruct (queue u tid s) as [|p rest] eqn:Eq; [done|]. cbn zeta in E. apply bind_ok in E as (d & Hd & E).
  assert (Hd0 : dc_heap s !! p = Some d).
  { unfold dc_inst in Hd. apply deref_ok in Hd. by destruct u. }
  destruct (Ho p ltac:(left)) as (d0 & Hd0' & Htid). assert (d0 = d) as -> by congruence. clear Hd0' Hd.
  destruct (isSquashed d) eqn:Esq.
  { (* skipped *)
    assert (C1 : consumed u tid [p] s (set_queue u tid rest s)).
    { split; rewrite ?dc_queue_set.
      - by rewrite Eq.
      - rewrite live_cons. unfold dead. rewrite Hd0. cbn. rewrite Esq. cbn. rewrite app_nil_r. by destruct u.
      - by destruct u.
      - apply dc_queues_but_set.
      - by destruct u. }
    destruct (IH _ _ E) as (taken & s1 & C & Hl & Hwd & Hend).
    { rewrite dc_queue_set. intros q Hq. destruct (Ho q ltac:(by right)) as (e & He & Ht). exists e. split; [by destruct u|done]. }
    { rewrite dc_queue_set. cbn in Hk. lia. }
    exists (p :: taken), s1. split; [eapply consumed_cons; [by rewrite Eq|exact C1|exact C]|]. split; [cbn; lia|].
    split; [destruct u; exact Hwd|]. destruct Hend as [[-> Hend]|(l & p' & d' & s2 & d2 & -> & Hr)].
    - left. split; [done|]. cbn. destruct Hend; [left; lia|by right].
    - right. exists (p :: l), p', d', s2, d2. by split. }
  (* sent *)
  set (inst := if numSrcRegs d =? 0 then setCanIssue cyc d else d) in *.
  assert (Hi : inst_kept nobody d inst) by apply canIssue_kept.
  pose proof Hi as (Hi1 & Hi2 & Hi3 & Hi4 & _ & Hi6). apply bind_ok in E as (? & Hpanic & E). clear Hpanic.
  set (s0 := put_inst p inst (set_queue u tid rest s) <| toRename := toRename (set_queue u tid rest s) ++ [p] |>) in *.
  assert (Hh0 : dc_heap s0 = <[p := inst]> (dc_heap s)) by (unfold s0; by destruct u).
  assert (C1 : consumed u tid [p] s s0).
  { unfold s0. split.
    - rewrite Eq. by destruct u; cbn; rewrite fn_lookup_insert.
    - rewrite live_cons. unfold dead. rewrite Hd0. cbn. rewrite Esq. by destruct u.
    - by destruct u.
    - intros v t Hne. transitivity (queue v t (set_queue u tid rest s)); [by destruct u, v|]. by apply dc_queues_but_set.
    - fold s0. rewrite Hh0. by apply (kept_insert _ _ _ d). }
  assert (Hq0 : queue u tid s0 = rest) by (pose proof (cs_queue _ _ _ _ _ C1) as Eq0; rewrite Eq in Eq0; by injection Eq0).
  assert (Hlen : Z.of_nat (length (toRename s0)) ≤ decodeWidth).
  { rewrite (cs_sent _ _ _ _ _ C1), length_app. assert (length (live (dc_heap s) [p]) ≤ 1)%nat by apply live_length. lia. }
  destruct (wrongTarget bt inst) eqn:Ewt.
  { apply bind_ok in E as (s2 & E2 & E). apply bind_ok in E as (d2 & Hd2 & E). injection E as <-.
    rewrite Hi2, Htid in E2. assert (Hp0 : dc_heap s0 !! p = Some inst) by (rewrite Hh0; apply lookup_insert_eq).
    exists [p], s0. split; [done|]. split; [cbn; lia|]. split; [lia|]. right. exists [], p, inst, s2, d2.
    split; [done|]. split; [done|]. split; [destruct Hi6 as [-> _]; [by intros []|done]|]. split; [congruence|]. split; [done|]. split; [by apply squash_inst_ok|].
    split; [by apply deref_ok in Hd2|done]. }
  set (b := maySquashOthers inst && _ && _) in E. set (s0' := if b then put_inst p (clearMaySquashOthers inst) s0 else s0) in E.
  assert (C1' : consumed u tid [p] s s0').
  { unfold s0'. destruct b; [|done]. destruct C1 as [Q1 T1 F1 O1 K1]. split; try done.
    change (dc_heap (put_inst p _ s0)) with (<[p := clearMaySquashOthers inst]> (dc_heap s0)). rewrite Hh0, insert_insert_eq. apply (kept_insert _ _ _ d); [done|]. etrans; [exact Hi|]. by apply kept_reset. }
  assert (Hq0' : queue u tid s0' = rest) by (unfold s0'; rewrite <- Hq0; by destruct b, u).
  destruct (IH s0' s' E) as (taken & s1 & C & Hl & Hwd & Hend).
  { rewrite Hq0'. eapply (owned_kept nobody); [apply C1'|]. intros q Hq. apply Ho. by right. }
  { rewrite Hq0'. cbn in Hk. lia. }
  assert (Ht0' : toRename s0' = toRename s0) by (unfold s0'; by destruct b).
  exists (p :: taken), s1. split; [eapply consumed_cons; [by rewrite Eq|exact C1'|exact C]|]. split; [cbn; lia|].
  split; [rewrite Ht0' in Hwd; lia|]. destruct Hend as [[-> Hend]|(l & p' & d' & s2 & d2 & -> & Hr)].
  - left. split; [done|]. cbn. destruct Hend; [left; lia|by right].
  - right. exists (p :: l), p', d', s2, d2. by split.
Qed.

(** ** The parts of the stage *)
(** What waits in a thread, oldest first. *)
Definition waiting s (tid : nat) : list InstPtr := dc_skid s tid ++ dc_insts s tid.

(** Nothing happens to the other threads. *)
Record local (tid : nat) s s' : Prop := {
  lc_wait : ∀ t, t ≠ tid → dc_skid s' t = dc_skid s t ∧ dc_insts s' t = dc_insts s t;
  lc_status : ∀ t, t ≠ tid → decodeStatus s' t = decodeStatus s t;
  lc_block : ∀ t, t ≠ tid → decodeBlock s' t = decodeBlock s t;
  lc_unblock : ∀ t, t ≠ tid → decodeUnblock s' t = decodeUnblock s t;
  lc_info : ∀ t, t ≠ tid → decodeInfo s' t = decodeInfo s t;
  lc_stalls : ∀ t, t ≠ tid → stalls_rename s' t = stalls_rename s t;
}.
#[export] Instance local_po (tid : nat) : PreOrder (local tid).
Proof.
  split; [by split|]. intros s1 s2 s3 [A1 A2 A3 A4 A5 A6] [B1 B2 B3 B4 B5 B6].
  split; intros t Hne; rewrite ?B2, ?B3, ?B4, ?B5, ?B6, ?A2, ?A3, ?A4, ?A5, ?A6 by done; try done.
  destruct (A1 t Hne) as [<- <-]. by apply B1.
Qed.

(** Instructions move within the thread; nothing is sent. *)
Record moved (tid : nat) s s' : Prop := {
  mv_local : local tid s s';
  mv_wait : waiting s' tid = waiting s tid;
  mv_sent : toRename s' = toRename s;
  mv_heap : dc_heap s' = dc_heap s;
  mv_cpu : dc_cpu s' = dc_cpu s;
  mv_info : decodeInfo s' = decodeInfo s;
}.
#[export] Instance moved_po (tid : nat) : PreOrder (moved tid).
Proof. split; [by split|]. intros s1 s2 s3 [] []. split; try congruence. by etrans. Qed.

Ltac by_thread := repeat (intros ? || split); cbn; rewrite ?fn_lookup_insert_ne by done; try done.

Lemma dc_skidFold_ok (tid : nat) (l : list InstPtr) : ∀ s s',
  dc_insts s tid = l → mfold (skidOne tid) s l = Ok s' →
  moved tid s s' ∧ dc_insts s' tid = [] ∧ rest_of s' = rest_of s.
Proof.
  induction l as [|p l IH]; intros s s' El E; cbn in E; [by injection E as <-|].
  apply bind_ok in E as (s1 & E1 & E). unfold skidOne in E1. apply bind_ok in E1 as (d & _ & E1). apply bind_ok in E1 as (u & _ & E1).
  injection E1 as <-. apply IH in E as (Hm & Hi & Hr); [|cbn; rewrite fn_lookup_insert, El; done]. split; [|by split].
  etrans; [|exact Hm]. split; try done; [by_thread|]. unfold waiting. cbn. rewrite !fn_lookup_insert, El. cbn. by rewrite <- app_assoc.
Qed.
Lemma dc_skidInsert_ok (tid : nat) s s' :
  skidInsert skidMax tid s = Ok s' → moved tid s s' ∧ dc_insts s' tid = [] ∧ rest_of s' = rest_of s.
Proof. unfold skidInsert. intros E. apply bind_ok in E as (s1 & E1 & E). apply bind_ok in E as (u & _ & E). injection E as <-. by eapply dc_skidFold_ok. Qed.

(** The signals of a cycle that began with fetch held ([b0]) or not. *)
Record sig (b0 : bool) s (tid : nat) : Prop := {
  sg_held : held s tid = (if decodeUnblock s tid then false else if decodeBlock s tid then true else b0);
  sg_one : decodeBlock s tid = true → decodeUnblock s tid = false;
  sg_resume : decodeUnblock s tid = true → b0 = true;
  sg_block : decodeBlock s tid = true → decodeStatus s tid = DcBlocked;
}.
Lemma sig_rest (b0 : bool) (tid : nat) s s' : rest_of s' = rest_of s → sig b0 s tid → sig b0 s' tid.
Proof.
  intros E [H1 H2 H3 H4]. assert (E1 := f_equal decodeStatus E). assert (E2 := f_equal decodeBlock E). assert (E3 := f_equal decodeUnblock E).
  cbn in E1, E2, E3. unfold held in *. split; unfold held; rewrite ?E1, ?E2, ?E3; done.
Qed.

Lemma dc_block_ok (tid : nat) (b : bool) s s' :
  block skidMax tid s = Ok (b, s') →
  moved tid s s' ∧ dc_insts s' tid = [] ∧ decodeStatus s' tid = DcBlocked ∧ stalls_rename s' = stalls_rename s
  ∧ ∀ b0, sig b0 s tid → sig b0 s' tid.
Proof.
  unfold block. intros E. apply bind_ok in E as (s1 & E1 & E). apply dc_skidInsert_ok in E1 as (Hm & Hi & Hr).
  assert (Es : stalls_rename s1 = stalls_rename s) by (by apply (f_equal stalls_rename) in Hr).
  destruct (decide (decodeStatus s1 tid = DcBlocked)) as [Hb|Hb].
  { injection E as _ <-. split_and!; try done. intros b0. by apply sig_rest. }
  injection E as _ <-. split_and!.
  - etrans; [exact Hm|]. cbn. destruct (decodeUnblock s1 tid); (split; try done; by_thread).
  - cbn. by destruct (decodeUnblock s1 tid).
  - cbn. by destruct (decodeUnblock s1 tid); cbn; rewrite fn_lookup_insert.
  - cbn. by destruct (decodeUnblock s1 tid).
  - intros b0 Hs. apply (sig_rest b0 tid s s1 Hr) in Hs as [H1 H2 H3 H4]. cbn.
    destruct (decodeUnblock s1 tid) eqn:Eu; split; unfold held; cbn; rewrite ?fn_lookup_insert, ?Eu; try done.
    rewrite (H3 eq_refl). by destruct (decodeBlock s1 tid).
Qed.

Lemma dc_unblock_ok (tid : nat) s :
  let s' := (unblock tid s).2 in
  moved tid s s' ∧ stalls_rename s' = stalls_rename s ∧ dc_insts s' = dc_insts s ∧ dc_skid s' = dc_skid s
  ∧ (dc_skid s tid = [] → decodeStatus s' tid = DcRunning) ∧ (dc_skid s tid ≠ [] → s' = s)
  ∧ ∀ b0, decodeBlock s tid = false → b0 = true → sig b0 s tid → sig b0 s' tid.
Proof.
  unfold unblock. destruct (decide (dc_skid s tid = [])) as [E|E]; cbn; [|by split_and!].
  split_and!; try done; [split; try done; by_thread|by rewrite fn_lookup_insert|].
  intros b0 Hb -> [H1 H2 H3 H4]. split; unfold held; cbn; rewrite ?fn_lookup_insert, ?Hb; done.
Qed.

(** How a thread's turn can end for the instructions of the thread: they stay in order behind
    those taken, or the last one taken redirects fetch and the rest is gone. *)
Inductive outcome (tid : nat) (taken : list InstPtr) s s' : Prop :=
| Stays :
    waiting s tid = taken ++ waiting s' tid → kept nobody (dc_heap s) (dc_heap s') → decodeInfo s' = decodeInfo s → dc_cpu s' = dc_cpu s →
    outcome tid taken s s'
| Redirects (l : list InstPtr) (p : InstPtr) (d d' : DynInst) (rest : list InstPtr) :
    taken = l ++ [p] → waiting s tid = taken ++ rest → waiting s' tid = [] →
    dc_heap s !! p = Some d → threadNumber d = tid → isSquashed d = false → wrongTarget bt d = true →
    decodeInfo s' = <[tid := redirect_info p d]> (decodeInfo s) →
    dc_heap s' !! p = Some d' → predPC d' = bt (staticInst d) (pc d) →
    (∀ q e, q ∈ fromFetch → dc_heap s !! q = Some e → threadNumber e = tid → seqNum d < seqNum e → dead (dc_heap s') q = true) →
    (listed (dc_cpu s) (dc_heap s) → ∀ q e, q ∈ cpu_instList (dc_cpu s) → dc_heap s !! q = Some e → threadNumber e = tid → seqNum d < seqNum e → dead (dc_heap s') q = true) →
    (∀ q, dead (dc_heap s) q = false → dead (dc_heap s') q = true → younger_of (seqNum d) tid (dc_heap s) q = true) →
    outcome tid taken s s'.

(** A thread had its turn. *)
Record advanced (tid : nat) (taken : list InstPtr) s s' : Prop := {
  ad_local : local tid s s';
  ad_sent : toRename s' = toRename s ++ live (dc_heap s) taken;
  ad_width : Z.of_nat (length (toRename s')) ≤ Z.max decodeWidth (Z.of_nat (length (toRename s)));
  ad_kept : kept (eq tid) (dc_heap s) (dc_heap s');
  ad_list : cpu_instList (dc_cpu s') = cpu_instList (dc_cpu s);
  ad_outcome : outcome tid taken s s';
}.

Lemma moved_advanced (tid : nat) s s' : moved tid s s' → advanced tid [] s s'.
Proof.
  intros [Hl Hw Hs Hh Hc Hi]. split; [done| |rewrite Hs; lia|by rewrite Hh|by rewrite Hc|].
  - by rewrite Hs, app_nil_r.
  - apply Stays; try done. by rewrite Hh.
Qed.
Lemma advanced_moved (tid : nat) (taken : list InstPtr) s s1 s' :
  advanced tid taken s s1 → moved tid s1 s' → advanced tid taken s s'.
Proof.
  intros [A1 A2 A3 A4 AL A5] [M1 M2 M3 M4 M5 M6]. split; rewrite ?M3, ?M4, ?M5; try done; [by etrans|].
  destruct A5 as [W K I C|l p d d' rest T W W' Hd Ht Hs Hw I Hd' Hp Ha Hf Hx].
  - apply Stays; rewrite ?M4, ?M2, ?M6, ?M5; done.
  - eapply (Redirects _ _ _ _ l p d d' rest); rewrite ?M4, ?M6; try done. by rewrite M2.
Qed.
Lemma moved_advanced_trans (tid : nat) (taken : list InstPtr) s s1 s' :
  moved tid s s1 → advanced tid taken s1 s' → advanced tid taken s s'.
Proof.
  intros [M1 M2 M3 M4 M5 M6] [A1 A2 A3 A4 AL A5]. rewrite M3, M4, M5 in *. split; try done; [by etrans|].
  destruct A5 as [W K I C|l p d d' rest T W W' Hd Ht Hs Hw I Hd' Hp Ha Hf Hx]; rewrite ?M2, ?M4, ?M5, ?M6 in *.
  - by apply Stays.
  - by eapply (Redirects _ _ _ _ l p d d' rest).
Qed.

(** A turn of the loop, seen from the thread. *)
Lemma consumed_local (u : bool) (tid : nat) (taken : list InstPtr) s s1 :
  consumed u tid taken s s1 → (u = false → dc_skid s tid = []) →
  local tid s s1 ∧ waiting s tid = taken ++ waiting s1 tid ∧ decodeInfo s1 = decodeInfo s ∧ dc_cpu s1 = dc_cpu s.
Proof.
  intros [Q T R O K] Hu.
  assert (Ef : decodeInfo s1 = decodeInfo s ∧ dc_cpu s1 = dc_cpu s ∧ decodeStatus s1 = decodeStatus s ∧ decodeBlock s1 = decodeBlock s
               ∧ decodeUnblock s1 = decodeUnblock s ∧ stalls_rename s1 = stalls_rename s).
  { split_and!; [by apply (f_equal decodeInfo) in R|by apply (f_equal dc_cpu) in R|by apply (f_equal decodeStatus) in R
      |by apply (f_equal decodeBlock) in R|by apply (f_equal decodeUnblock) in R|by apply (f_equal stalls_rename) in R]. }
  destruct Ef as (F1 & F2 & F3 & F4 & F5 & F6). split; [split; intros t Hne; rewrite ?F1, ?F3, ?F4, ?F5, ?F6; try done|].
  - split; [apply (O true t)|apply (O false t)]; congruence.
  - split; [|done]. unfold waiting. destruct u; cbn in Q.
    + rewrite Q, <- app_assoc. f_equal. f_equal. symmetry. apply (O false tid). done.
    + rewrite (Hu eq_refl). assert (E : dc_skid s1 tid = []) by (rewrite <- (Hu eq_refl); by apply (O true tid)). by rewrite E.
Qed.
Lemma consumed_advanced (u : bool) (tid : nat) (taken : list InstPtr) s s1 :
  consumed u tid taken s s1 → (u = false → dc_skid s tid = []) →
  Z.of_nat (length (toRename s1)) ≤ Z.max decodeWidth (Z.of_nat (length (toRename s))) → advanced tid taken s s1.
Proof.
  intros C Hu Hw. destruct (consumed_local _ _ _ _ _ C Hu) as (Hl & Ew & Ei & Ec). destruct C as [_ T _ _ K].
  split; [done|done|done|eapply kept_mono; [|exact K]; by intros ? []|by rewrite Ec|by apply Stays].
Qed.
Lemma redirected_advanced (u : bool) (tid : nat) (l : list InstPtr) (p : InstPtr) (d d2 : DynInst) s s1 s2 :
  consumed u tid (l ++ [p]) s s1 → (u = false → dc_skid s tid = []) →
  Z.of_nat (length (toRename s1)) ≤ Z.max decodeWidth (Z.of_nat (length (toRename s))) →
  dc_heap s1 !! p = Some d → isSquashed d = false → threadNumber d = tid → wrongTarget bt d = true →
  redirected tid p d s1 s2 → dc_heap s2 !! p = Some d2 →
  advanced tid (l ++ [p]) s (put_inst p (setPredTarg (inst_target bt d2) d2) s2).
Proof.
  intros C Hu Hw Hd1 Hsq Ht Hwt HR Hd2. destruct (consumed_local _ _ _ _ _ C Hu) as (A1 & W & Fi & Fc). destruct C as [_ A2 _ _ K].
  destruct HR as [R1 R2 R3 R4 R5 R6 R7 R8 R9 R10 RL R11 R12 R13].
  pose proof (K p) as Kp0. rewrite Hd1 in Kp0. destruct (dc_heap s !! p) as [d0|] eqn:Hd0; [|done].
  destruct Kp0 as (I1 & I2 & I3 & I4 & _ & I6). destruct I6 as (I6 & Ep & Ef); [by intros []|]. destruct (kept_lookup _ _ _ _ _ R10 Hd1) as (d2' & Hd2' & J1 & J2 & J3 & J4 & _).
  assert (d2' = d2) as -> by congruence. clear Hd2'.
  assert (Kp : kept (eq tid) (dc_heap s2) (<[p := setPredTarg (inst_target bt d2) d2]> (dc_heap s2))).
  { apply (kept_insert _ _ _ d2); [done|]. split_and!; try done. intros []. congruence. }
  assert (Dp : ∀ q, dead (<[p := setPredTarg (inst_target bt d2) d2]> (dc_heap s2)) q = dead (dc_heap s2) q).
  { intros q. unfold dead. destruct (decide (q = p)) as [->|]; [by rewrite lookup_insert_eq, Hd2|by rewrite lookup_insert_ne]. }
  assert (Dk : ∀ q, dead (dc_heap s1) q = dead (dc_heap s) q).
  { intros q. specialize (K q). unfold dead. destruct (dc_heap s !! q) as [x|], (dc_heap s1 !! q) as [x'|]; try done. cbn. apply K. by intros []. }
  assert (K1 : ∀ q e, dc_heap s !! q = Some e → ∃ e', dc_heap s1 !! q = Some e' ∧ seqNum e' = seqNum e ∧ threadNumber e' = threadNumber e).
  { intros q e He. destruct (kept_lookup _ _ _ _ _ K He) as (e' & He' & ? & ? & _). by exists e'. }
  split; cbn.
  - etrans; [exact A1|]. split; cbn; intros t Hne; rewrite ?R1, ?R2, ?R3, ?R4, ?R5, ?R6, ?R8; try rewrite !fn_lookup_insert_ne by done; try done.
    destruct (held s1 tid); [by rewrite fn_lookup_insert_ne|done].
  - by rewrite R7.
  - by rewrite R7.
  - etrans; [|exact Kp]. etrans; [|exact R10]. eapply kept_mono; [|exact K]; by intros ? [].
  - by rewrite RL, Fc.
  - eapply (Redirects _ _ _ _ l p d0 (setPredTarg (inst_target bt d2) d2) (waiting s1 tid)); cbn; try done.
    + unfold waiting. cbn. rewrite R5, R6, !fn_lookup_insert. done.
    + congruence.
    + by rewrite <- I6.
    + rewrite <- Hwt. unfold wrongTarget, resolves, inst_target, isDirectCtrl, isUncondCtrl, readPredTaken, get_fl, readPredTarg. by rewrite <- I3, <- I4, <- Ep, <- Ef.
    + rewrite R1, Fi. unfold redirect_info, isUncondCtrl. by rewrite I1, I3, I4.
    + apply lookup_insert_eq.
    + unfold inst_target. by rewrite J3, J4, I3, I4.
    + intros q e Hq He Hth Hlt. rewrite Dp. destruct (K1 q e He) as (e1 & He1 & S1 & S2). apply (R11 q e1); try done; [congruence|lia].
    + intros Hls q e Hq He Hth Hlt. rewrite Dp. destruct (K1 q e He) as (e1 & He1 & S1 & S2). rewrite Fc in R12.
        apply (R12 (kept_listed _ _ _ _ K Hls) q e1); try done; [congruence|lia].
    + intros q H0 H1. rewrite Dp in H1. rewrite <- (kept_younger nobody _ _ _ _ _ K), <- I1. apply R13; [by rewrite Dk|done].
Qed.

Lemma redirected_sig (b0 : bool) (tid : nat) (p : InstPtr) (d x : DynInst) s s1 s2 :
  rest_of s1 = rest_of s → redirected tid p d s1 s2 → decodeStatus s tid ≠ DcBlocked → sig b0 s tid → sig b0 (put_inst p x s2) tid.
Proof.
  intros Er [_ R2 R3 R4 _ _ _ _ _ _ _ _ _ _] Hb Hs. apply (sig_rest b0 tid s s1 Er) in Hs as [H1 H2 H3 H4].
  assert (Est : decodeStatus s1 tid = decodeStatus s tid) by (by apply (f_equal decodeStatus) in Er; cbn in Er; rewrite Er).
  assert (Hbl : decodeBlock s1 tid = false) by (destruct (decodeBlock s1 tid); [rewrite <- Est in Hb; by destruct Hb; apply H4|done]).
  rewrite Hbl in *. split; unfold held; cbn; rewrite ?R2, ?R3, ?R4, ?fn_lookup_insert, ?Hbl; try done.
  - destruct (held s1 tid); [by rewrite fn_lookup_insert|]. destruct (decodeUnblock s1 tid); [done|]. by rewrite <- H1.
  - destruct (held s1 tid); [|by apply H3]. intros _. destruct (decodeUnblock s1 tid); done.
Qed.

Lemma decodeInsts_ok (tid : nat) s s' :
  decodeInsts fl bt cyc decodeWidth skidMax fromFetch tid s = Ok s' →
  owned (dc_heap s) tid (waiting s tid) → decodeStatus s tid ≠ DcBlocked → (decodeStatus s tid ≠ DcUnblocking → dc_skid s tid = []) →
  ∃ taken, advanced tid taken s s' ∧ stalls_rename s' = stalls_rename s ∧ (∀ b0, sig b0 s tid → sig b0 s' tid)
    ∧ ((decodeStatus s' tid = decodeStatus s tid ∧ decodeBlock s' = decodeBlock s ∧ dc_skid s' tid = []
        ∧ dc_insts s' tid = if decide (decodeStatus s tid = DcUnblocking) then dc_insts s tid else [])
       ∨ (decodeStatus s' tid = DcBlocked ∧ dc_skid s' tid ≠ [] ∧ dc_insts s' tid = [])
       ∨ (decodeStatus s' tid = DcSquashing ∧ decodeBlock s' = decodeBlock s ∧ waiting s' tid = [])).
Proof.
  intros E Ho Hnb Hsk. unfold decodeInsts in E. cbn zeta in E. set (u := bool_decide (decodeStatus s tid = DcUnblocking)) in *.
  assert (Hu : u = false → dc_skid s tid = []) by (intros Eu%bool_decide_eq_false; by apply Hsk).
  assert (Hoq : owned (dc_heap s) tid (queue u tid s)).
  { intros q Hq. apply Ho. unfold waiting. destruct u; cbn in Hq; set_solver. }
  destruct (decide (length (queue u tid s) = 0%nat)) as [Hz|Hz].
  { injection E as <-. exists []. split; [by apply moved_advanced|]. split; [done|]. split; [done|]. left.
    apply nil_length_inv in Hz. case_decide as Eu.
    - unfold u in Hz. rewrite bool_decide_true in Hz by done. by split_and!.
    - unfold u in Hz. rewrite bool_decide_false in Hz by done. split_and!; try done. by apply Hsk. }
  apply bind_ok in E as (s1 & E1 & E). destruct (decodeLoop_ok _ _ _ _ _ E1 Hoq ltac:(lia)) as (taken & s0 & C & _ & Hw & Hend).
  exists taken. destruct Hend as [[-> _]|(l & p & d & s2 & d2 & -> & Hd & Hsq & Hth & Hwt & HR & Hd2 & ->)].
  - pose proof (consumed_advanced _ _ _ _ _ C Hu Hw) as A. destruct (consumed_local _ _ _ _ _ C Hu) as (_ & _ & _ & _).
    destruct C as [Q _ R O _]. assert (Est : decodeStatus s0 tid = decodeStatus s tid) by (by apply (f_equal decodeStatus) in R; cbn in R; rewrite R).
    destruct (queue u tid s0) as [|x q] eqn:Eq.
    + injection E as <-. split; [done|]. split; [by apply (f_equal stalls_rename) in R|]. split; [intros b0; by apply sig_rest|]. left.
      split; [done|]. split; [by apply (f_equal decodeBlock) in R|]. unfold u in *. case_bool_decide as Eu.
      * rewrite decide_True by done. split; [done|by apply (O false tid)].
      * rewrite decide_False by done. split; [|done]. rewrite <- (Hsk Eu). by apply (O true tid).
    + apply bind_ok in E as ([b s3] & E3 & E). injection E as <-. apply dc_block_ok in E3 as (Hm & Hi & Hb & Hst & Hsig).
      split; [by eapply advanced_moved|]. split; [rewrite Hst; by apply (f_equal stalls_rename) in R|].
      split; [intros b0 Hs; apply Hsig; by eapply sig_rest|]. right. left. split; [done|]. split; [|done].
      intros En. pose proof (mv_wait _ _ _ Hm) as Ew. unfold waiting in Ew. rewrite En, Hi in Ew. cbn in Ew.
      destruct u; cbn in Eq; rewrite Eq in Ew; [done|]. by destruct (dc_skid s0 tid).
  - pose proof (redirected_advanced _ _ _ _ _ _ _ _ _ C Hu Hw Hd Hsq Hth Hwt HR Hd2) as A. destruct C as [_ _ R _ _].
    assert (Ew : dc_insts s2 tid = [] ∧ dc_skid s2 tid = []) by (rewrite (rd_insts _ _ _ _ _ HR), (rd_skid _ _ _ _ _ HR), !fn_lookup_insert; done).
    destruct Ew as [Ei Ek]. assert (Eq : queue u tid (put_inst p (setPredTarg (inst_target bt d2) d2) s2) = []) by (destruct u; cbn; done).
    rewrite Eq in E. injection E as <-. split; [done|]. split; [cbn; rewrite (rd_stalls _ _ _ _ _ HR); by apply (f_equal stalls_rename) in R|].
    split; [intros b0; by eapply redirected_sig|]. right. right. split; [cbn; by rewrite (rd_status _ _ _ _ _ HR), fn_lookup_insert|].
    split; [cbn; rewrite (rd_block _ _ _ _ _ HR); by apply (f_equal decodeBlock) in R|]. unfold waiting. cbn. by rewrite Ei, Ek.
Qed.

(** Between turns: the skid buffer of a thread that does not hold fetch is empty, and that of
    a thread that drains is not.  Nothing ever sets [StartSquash]. *)
Definition dc_wf s (tid : nat) : Prop :=
  (held s tid = false → dc_skid s tid = []) ∧ (decodeStatus s tid = DcUnblocking → dc_skid s tid ≠ [])
  ∧ decodeStatus s tid ≠ DcStartSquash.
Lemma dc_wf_status s (tid : nat) : decodeStatus s tid = DcBlocked ∨ (dc_skid s tid = [] ∧ decodeStatus s tid ≠ DcUnblocking
  ∧ decodeStatus s tid ≠ DcStartSquash) → dc_wf s tid.
Proof. unfold dc_wf, held. intros [->|(H1 & H2 & H3)]; by split_and!. Qed.

Lemma decode_ok (tid : nat) (b b' : bool) s s' :
  decode fl bt cyc decodeWidth skidMax active fromFetch b tid s = Ok (b', s') →
  owned (dc_heap s) tid (waiting s tid) → dc_wf s tid → (decodeStatus s tid = DcBlocked ∨ decodeStatus s tid = DcSquashing → dc_insts s tid = []) →
  (fromFetch = [] → dc_insts s tid = []) →
  ∃ taken, advanced tid taken s s' ∧ stalls_rename s' = stalls_rename s ∧ dc_wf s' tid ∧ dc_insts s' tid = []
    ∧ (∀ b0, sig b0 s tid → sig b0 s' tid).
Proof.
  intros E Ho Hwf Hins Hff. unfold decode in E. destruct (decodeStatus s tid) eqn:Est.
  1,2: apply bind_ok in E as (s1 & E1 & E); injection E as _ <-;
    destruct (decodeInsts_ok tid s s1 E1 Ho ltac:(by rewrite Est)) as (taken & A & Hst & Hsig & Hend);
      [intros _; apply (proj1 Hwf); unfold held; by rewrite Est|];
    exists taken; split; [done|]; split; [done|];
    (destruct Hend as [(H1 & _ & H2 & H3)|[(H1 & _ & H3)|(H1 & _ & H3)]];
     [split; [apply dc_wf_status; right; by rewrite H1, Est|]; split; [by rewrite Est in H3|exact Hsig]
     |split; [apply dc_wf_status; by left|]; by split
     |unfold waiting in H3; apply app_nil in H3 as [H3 H4]; split; [apply dc_wf_status; right; by rewrite H1|]; by split]).
  1: by destruct Hwf as (_ & _ & Hwf).
  1,2: injection E as _ <-; exists []; split; [by apply moved_advanced|]; split; [done|]; split; [done|]; split; [apply Hins; tauto|done].
  apply bind_ok in E as (? & _ & E). apply bind_ok in E as (s1 & E1 & E). apply bind_ok in E as (s2 & E2 & E).
  destruct (decodeInsts_ok tid s s1 E1 Ho ltac:(by rewrite Est)) as (taken & A & Hst & Hsig & Hend); [by rewrite Est|].
  (* the arrivals follow into the skid buffer *)
  assert (H2 : moved tid s1 s2 ∧ dc_insts s2 tid = [] ∧ rest_of s2 = rest_of s1).
  { destruct (decide (fromFetch = [])) as [Ef|_]; [|by apply dc_skidInsert_ok]. injection E2 as <-. split; [done|]. split; [|done].
    destruct Hend as [(_ & _ & _ & H3)|[(_ & _ & H3)|(_ & _ & H3)]]; [|done|unfold waiting in H3; by apply app_nil in H3 as [_ H3]].
    rewrite Est in H3. cbn in H3. rewrite H3. by apply Hff. }
  destruct H2 as (Hm & Hi & Hr). destruct (dc_unblock_ok tid s2) as (Hm' & Hst' & Ei' & Ek' & Hrun & Hsame & Hsig').
  destruct (unblock tid s2) as [b2 s3] eqn:E3. cbn in *. injection E as _ <-.
  exists taken. split; [by eapply advanced_moved, Hm'; eapply advanced_moved|]. split; [rewrite Hst'; etrans; [by apply (f_equal stalls_rename) in Hr|done]|].
  assert (Est1 : decodeStatus s2 tid = decodeStatus s1 tid) by (by apply (f_equal decodeStatus) in Hr; cbn in Hr; rewrite Hr).
  assert (Ebl : decodeBlock s2 tid = decodeBlock s1 tid) by (by apply (f_equal decodeBlock) in Hr; cbn in Hr; rewrite Hr).
  split; [|split; [by rewrite Ei'|]].
  - destruct (decide (dc_skid s2 tid = [])) as [Hnil|Hne]; [apply dc_wf_status; right; by rewrite Ek', Hrun|].
    rewrite (Hsame Hne). pose proof (mv_wait _ _ _ Hm) as Ew. unfold dc_wf, held. rewrite Est1.
    destruct Hend as [(H1 & _)|[(H1 & _)|(_ & _ & H3)]]; [rewrite H1, Est; by split_and!|rewrite H1; by split_and!|].
    rewrite H3 in Ew. unfold waiting in Ew. by apply app_nil in Ew as [? _].
  - intros b0 Hs. pose proof Hs as [G1 G2 G3 G4]. unfold held in G1. rewrite Est in G1, G4.
    assert (Hbl : decodeBlock s tid = false) by (destruct (decodeBlock s tid); [by specialize (G4 eq_refl)|done]).
    assert (Hb0 : b0 = true) by (rewrite Hbl in G1; by destruct (decodeUnblock s tid)).
    apply Hsig, (sig_rest _ _ _ _ Hr) in Hs. destruct (decide (dc_skid s2 tid = [])) as [Hnil|Hne]; [|by rewrite (Hsame Hne)].
    apply Hsig'; [|done|done]. rewrite Ebl. destruct Hend as [(_ & H1 & _)|[(_ & H1 & _)|(_ & H1 & _)]]; [by rewrite H1| |by rewrite H1].
    exfalso. apply H1. pose proof (mv_wait _ _ _ Hm) as Ew. unfold waiting in Ew. rewrite Hnil, Hi in Ew. symmetry in Ew. by apply app_nil in Ew as [? _].
Qed.

(** ** A turn *)
Lemma readStallSignals_ok (tid : nat) s s' :
  readStallSignals from tid s = Ok s' → s' = s <| stalls_rename := stalls_rename s' |> ∧ moved tid s s'.
Proof.
  unfold readStallSignals. intros E. destruct (in_renameBlock (from tid)), (in_renameUnblock (from tid)); repeat (apply bind_ok in E as (? & _ & E));
    injection E as <-; (split; [by destruct s|split; try done; by_thread]).
Qed.

(** How a thread's turn ends: as [outcome] says, or commit squashed it. *)
Definition turn (tid : nat) (taken : list InstPtr) s s' : Prop :=
  local tid s s' ∧ toRename s' = toRename s ++ live (dc_heap s) taken
  ∧ Z.of_nat (length (toRename s')) ≤ Z.max decodeWidth (Z.of_nat (length (toRename s)))
  ∧ kept (eq tid) (dc_heap s) (dc_heap s') ∧ cpu_instList (dc_cpu s') = cpu_instList (dc_cpu s)
  ∧ if in_commitSquash (from tid)
    then taken = [] ∧ waiting s' tid = [] ∧ decodeInfo s' = decodeInfo s ∧ dc_cpu s' = dc_cpu s
         ∧ ∀ q e, q ∈ fromFetch → dc_heap s !! q = Some e → threadNumber e = tid → dead (dc_heap s') q = true
    else outcome tid taken s s'.

(** A squash from commit. *)
Lemma checkSignals_squash (tid : nat) (b : bool) s s' :
  checkSignalsAndUpdate fs skidMax from fromFetch tid s = Ok (b, s') → in_commitSquash (from tid) = true →
  decodeBlock s tid = false → decodeUnblock s tid = false →
  turn tid [] s s' ∧ decodeStatus s' tid = DcSquashing ∧ dc_wf s' tid ∧ dc_insts s' tid = [] ∧ sig (held s tid) s' tid.
Proof.
  unfold checkSignalsAndUpdate. intros E Hsq Hb Hu. rewrite Hsq in E. apply bind_ok in E as (s0 & E0 & E). apply readStallSignals_ok in E0 as [Es0 Hm0].
  apply bind_ok in E as (s2 & E2 & E). injection E as _ <-. assert (Hbu : decodeBlock s0 tid = false ∧ decodeUnblock s0 tid = false ∧ held s0 tid = held s tid) by (by rewrite Es0).
  destruct Hbu as (Hb0 & Hu0 & Hh). apply squash_commit_ok in E2 as [F1 F2 F3 F4 F5 F6 F7 F8 F9 F10 F11]; [|done].
  assert (Est : decodeStatus s2 tid = DcSquashing) by (by rewrite F1, fn_lookup_insert).
  assert (Ei : dc_insts s2 tid = [] ∧ dc_skid s2 tid = []) by (by rewrite F4, F5, !fn_lookup_insert). destruct Ei as [Ei Ek].
  assert (Hh0 : dc_heap s0 = dc_heap s) by (by rewrite Es0). rewrite Hh0 in *.
  split; [|split; [done|split; [apply dc_wf_status; right; by rewrite Ek, Est|split; [done|]]]].
  - unfold turn. rewrite Hsq. split_and!.
    + etrans; [apply Hm0|]. split; intros t Hne; rewrite ?F1, ?F2, ?F3, ?F4, ?F5, ?F7, ?F8; try rewrite !fn_lookup_insert_ne by done; try done.
      destruct (held s0 tid); [by rewrite fn_lookup_insert_ne|done].
    + by rewrite F6, app_nil_r, (mv_sent _ _ _ Hm0).
    + rewrite F6, (mv_sent _ _ _ Hm0). lia.
    + done.
    + by rewrite F9, (mv_cpu _ _ _ Hm0).
    + done.
    + unfold waiting. by rewrite Ei, Ek.
    + by rewrite F8, (mv_info _ _ _ Hm0).
    + by rewrite F9, (mv_cpu _ _ _ Hm0).
    + done.
  - rewrite Hh in F2. generalize dependent (held s tid). intros hb F2 _.
    split; unfold held; rewrite ?Est, ?F2, ?F3, ?Hb0; try done; (destruct hb; [by rewrite ?fn_lookup_insert|by rewrite Hu0]).
Qed.

(** No squash: the state in which the thread decodes. *)
Lemma dc_checkSignals_ok (tid : nat) (b : bool) s s1 :
  checkSignalsAndUpdate fs skidMax from fromFetch tid s = Ok (b, s1) → in_commitSquash (from tid) = false →
  dc_wf s tid → decodeBlock s tid = false → decodeUnblock s tid = false →
  moved tid s s1 ∧ dc_wf s1 tid ∧ sig (held s tid) s1 tid
  ∧ (decodeStatus s1 tid = DcBlocked ∨ decodeStatus s1 tid = DcSquashing → dc_insts s1 tid = []) ∧ (dc_insts s tid = [] → dc_insts s1 tid = []).
Proof.
  unfold checkSignalsAndUpdate. intros E1 Hsq Hwf Hb Hu. rewrite Hsq in E1. apply bind_ok in E1 as (s0 & E0 & E1). apply readStallSignals_ok in E0 as [Es0 Hm0].
  assert (Hs0 : sig (held s tid) s0 tid) by (rewrite Es0; split; unfold held; cbn; rewrite ?Hb, ?Hu; done).
  assert (Hst0 : decodeStatus s0 = decodeStatus s) by (by rewrite Es0).
  assert (Hk0 : dc_skid s0 = dc_skid s ∧ dc_insts s0 = dc_insts s) by (by rewrite Es0). destruct Hk0 as [Hk0 Hi0].
  destruct (checkStall tid s0).
  { apply dc_block_ok in E1 as (Hm & Hi & Hbk & _ & Hsig). split; [by etrans|].
    split; [apply dc_wf_status; by left|]. split; [by apply Hsig|by split]. }
  destruct (decodeStatus s0 tid) eqn:Est; injection E1 as _ <-.
  1,2,3,6: split; [done|]; split; [unfold dc_wf, held; rewrite Hst0, Hk0; apply Hwf|]; split; [done|]; split; [|by rewrite Hi0];
    rewrite Est; by intros [].
  - (* done squashing *)
    assert (Hm1 : moved tid s0 (s0 <| decodeStatus ::= <[tid := DcRunning]> |>)) by (split; try done; by_thread).
    split; [by etrans|]. split; [apply dc_wf_status; right; cbn; rewrite fn_lookup_insert; split; [|done]|].
    + rewrite Hk0. apply (proj1 Hwf). unfold held. rewrite <- Hst0. by rewrite Est.
    + split; [|split; [cbn; rewrite fn_lookup_insert; by intros []|cbn; by rewrite Hi0]].
      assert (Hh : held s tid = false) by (unfold held; by rewrite <- Hst0, Est). rewrite Hh in *. destruct Hs0 as [G1 G2 G3 G4].
      split; unfold held; cbn; rewrite ?fn_lookup_insert; try done.
      * destruct (decodeUnblock s0 tid); [done|]. destruct (decodeBlock s0 tid); [by specialize (G4 eq_refl); congruence|done].
      * intros Hbb. specialize (G4 Hbb). congruence.
  - (* unblocking *)
    set (s2 := s0 <| decodeStatus ::= <[tid := DcUnblocking]> |>).
    assert (Hm2 : moved tid s0 s2) by (split; try done; by_thread).
    assert (Hh : held s tid = true) by (unfold held; by rewrite <- Hst0, Est).
    assert (Hbu : decodeBlock s0 tid = false ∧ decodeUnblock s0 tid = false) by (by rewrite Es0). destruct Hbu as [Hb0 Hu0].
    assert (Hs2 : sig (held s tid) s2 tid) by (rewrite Hh; split; unfold held; cbn; rewrite ?fn_lookup_insert, ?Hb0, ?Hu0; done).
    destruct (dc_unblock_ok tid s2) as (Hm' & _ & Ei' & Ek' & Hrun & Hsame & Hsig'). split; [by etrans; [|etrans]|].
    destruct (decide (dc_skid s2 tid = [])) as [Hnil|Hne].
    + split; [apply dc_wf_status; right; by rewrite Ek', Hrun|]. split; [by apply Hsig'|]. rewrite Hrun by done. split; [by intros []|by rewrite Ei'; cbn; rewrite Hi0].
    + rewrite (Hsame Hne). split; [unfold dc_wf, held; cbn; rewrite fn_lookup_insert; by split_and!|]. split; [done|].
      cbn. rewrite fn_lookup_insert, Hi0. split; [by intros []|done].
Qed.

Lemma turn_ok (tid : nat) (b b' : bool) s s' :
  tickThread fl bt fs cyc decodeWidth skidMax active from fromFetch (b, s) tid = Ok (b', s') →
  owned (dc_heap s) tid (waiting s tid) → dc_wf s tid → decodeBlock s tid = false → decodeUnblock s tid = false →
  (fromFetch = [] → dc_insts s tid = []) →
  ∃ taken, turn tid taken s s' ∧ dc_wf s' tid ∧ dc_insts s' tid = [] ∧ sig (held s tid) s' tid.
Proof.
  intros E Ho Hwf Hb Hu Hff. unfold tickThread in E. apply bind_ok in E as ([b1 s1] & E1 & E).
  destruct (in_commitSquash (from tid)) eqn:Esq.
  { destruct (checkSignals_squash _ _ _ _ E1 Esq Hb Hu) as (Ht & Est & Hwf' & Hi & Hs). unfold decode in E. rewrite Est in E. injection E as _ <-.
    exists []. by split_and!. }
  destruct (dc_checkSignals_ok _ _ _ _ E1 Esq Hwf Hb Hu) as (Hm & Hwf1 & Hs1 & Hi1 & Hi1').
  apply decode_ok in E as (taken & A & _ & Hwf' & Hi' & Hsig); [| |done|done|by intros ?%Hff%Hi1'].
  2: { rewrite (mv_heap _ _ _ Hm), (mv_wait _ _ _ Hm). done. }
  exists taken. split; [|split; [done|split; [done|by apply Hsig]]]. pose proof (moved_advanced_trans _ _ _ _ _ Hm A) as [A1 A2 A3 A4 AL A5].
  unfold turn. rewrite Esq. by split_and!.
Qed.
End stage.
