(* ===== verification/DecodeProps.v ===== *)
(** * Decode, cycle by cycle

    Instructions reach rename in order, a wrong target removes exactly the wrong path, fetch
    is told to stop and to resume consistently, and no assertion of the stage fails as long as
    the other stages keep their side ([ready]). *)

From S2P Require Import Prelude Regs DynInst CPU IQInterface Decode DecodeOps.
From stdpp Require Import list.
Local Open Scope Z_scope.

Section cycle.
Context (fl : DebugFlags) (bt : StaticInst → PCState → PCState) (fs : bool) (cyc : Z).
Context (decodeWidth skidMax : Z) (active : list nat) (from : nat → DcIn) (fromFetch : list InstPtr).
Implicit Types (s : Decode).

(** What fetch sends a thread. *)
Definition arrivals (h : heap) (tid : nat) (l : list InstPtr) : list InstPtr := filter (λ p, of_thread tid h p = true) l.
#[local] Arguments arrivals : simpl never.

Lemma dc_sortInsts_ok (l : list InstPtr) : ∀ s s',
  mfold sortInst s l = Ok s' →
  (∀ t, dc_insts s' t = dc_insts s t ++ arrivals (dc_heap s) t l) ∧ dc_skid s' = dc_skid s ∧ rest_of s' = rest_of s
  ∧ dc_heap s' = dc_heap s ∧ toRename s' = toRename s ∧ ∀ p, p ∈ l → is_Some (dc_heap s !! p).
Proof.
  induction l as [|p l IH]; intros s s' E; cbn in E.
  { injection E as <-. split_and!; try done; [intros t; by rewrite app_nil_r|by intros p ?%not_elem_of_nil]. }
  apply bind_ok in E as (s1 & E1 & E). unfold sortInst in E1. apply bind_ok in E1 as (d & Hd%deref_ok & E1). injection E1 as <-.
  apply IH in E as (I1 & I2 & I3 & I4 & I5 & I6). cbn in *. split_and!; try done.
  - intros t. rewrite I1. unfold arrivals. rewrite filter_cons. assert (Eo : of_thread t (dc_heap s) p = bool_decide (threadNumber d = t)) by (unfold of_thread; by rewrite Hd). rewrite Eo.
    destruct (decide (threadNumber d = t)) as [<-|Hne].
    + rewrite fn_lookup_insert, decide_True by (by apply bool_decide_eq_true). by rewrite <- app_assoc.
    + rewrite fn_lookup_insert_ne by done. by rewrite bool_decide_false.
  - intros q [->|Hq]%elem_of_cons; [by exists d|by apply I6].
Qed.

(** What a cycle does for a thread, in terms of the states before and after it: [before] is
    what waited and arrived. *)
Definition delivered (t : nat) (before taken : list InstPtr) s s' : Prop :=
  if in_commitSquash (from t)
  then taken = [] ∧ waiting s' t = [] ∧ decodeInfo s' t = decodeInfo s t
       ∧ ∀ q e, q ∈ fromFetch → dc_heap s !! q = Some e → threadNumber e = t → dead (dc_heap s') q = true
  else
    (before = taken ++ waiting s' t ∧ decodeInfo s' t = decodeInfo s t
     ∧ ∀ q e, dc_heap s !! q = Some e → threadNumber e = t → dead (dc_heap s') q = dead (dc_heap s) q)
    ∨ ∃ l p d d' rest, taken = l ++ [p] ∧ before = taken ++ rest ∧ waiting s' t = []
        ∧ dc_heap s !! p = Some d ∧ threadNumber d = t ∧ isSquashed d = false ∧ wrongTarget bt d = true
        ∧ decodeInfo s' t = redirect_info bt p d
        ∧ dc_heap s' !! p = Some d' ∧ predPC d' = bt (staticInst d) (pc d)
        ∧ ∀ q e, dc_heap s !! q = Some e → threadNumber e = t → dead (dc_heap s) q = false →
            (q ∈ fromFetch ∨ q ∈ cpu_instList (dc_cpu s) → seqNum d < seqNum e → dead (dc_heap s') q = true)
            ∧ (dead (dc_heap s') q = true → seqNum d < seqNum e).

Record turns (l : list nat) (taken : nat → list InstPtr) s s' : Prop := {
  tn_sent : toRename s' = toRename s ++ concat ((λ t, live (dc_heap s) (taken t)) <$> l);
  tn_width : Z.of_nat (length (toRename s')) ≤ Z.max decodeWidth (Z.of_nat (length (toRename s)));
  tn_kept : kept (λ t, t ∈ l) (dc_heap s) (dc_heap s');
  tn_list : cpu_instList (dc_cpu s') = cpu_instList (dc_cpu s);
  tn_others : ∀ t, t ∉ l → dc_skid s' t = dc_skid s t ∧ dc_insts s' t = dc_insts s t ∧ decodeStatus s' t = decodeStatus s t
    ∧ decodeBlock s' t = decodeBlock s t ∧ decodeUnblock s' t = decodeUnblock s t ∧ decodeInfo s' t = decodeInfo s t;
  tn_threads : ∀ t, t ∈ l → delivered t (waiting s t) (taken t) s s' ∧ dc_wf s' t ∧ dc_insts s' t = [] ∧ sig (held s t) s' t;
}.

(** Later turns of other threads change nothing for this one. *)
Lemma delivered_later (t : nat) (M : nat → Prop) (before taken : list InstPtr) s s1 s' :
  delivered t before taken s s1 → kept M (dc_heap s1) (dc_heap s') → kept (eq t) (dc_heap s) (dc_heap s1) → ¬ M t →
  waiting s' t = waiting s1 t → decodeInfo s' t = decodeInfo s1 t → delivered t before taken s s'.
Proof.
  intros Hd Hk Hk1 HM Hw Hi.
  assert (Hdead : ∀ q e, dc_heap s !! q = Some e → threadNumber e = t → dead (dc_heap s') q = dead (dc_heap s1) q).
  { intros q e He Ht. destruct (kept_lookup _ _ _ _ _ Hk1 He) as (e1 & He1 & _ & Et & _). eapply (kept_dead M); [done|exact He1|congruence]. }
  unfold delivered in *. rewrite Hw, Hi. destruct (in_commitSquash (from t)).
  - destruct Hd as (H1 & H2 & H3 & H4). split_and!; try done. intros q e Hq He Ht. rewrite (Hdead q e) by done. by apply (H4 q e).
  - destruct Hd as [(H1 & H2 & H3)|(l & p & d & d' & rest & H1 & H2 & H3 & H4 & H5 & H6 & H7 & H8 & H9 & H10 & H11)].
    + left. split_and!; try done. intros q e He Ht. rewrite (Hdead q e) by done. by apply (H3 q e).
    + right. destruct (kept_lookup _ _ _ _ _ Hk1 H4) as (d1 & Hd1 & _ & Et & _). assert (d1 = d') as -> by congruence.
      destruct (kept_lookup _ _ _ _ _ Hk H9) as (d'' & Hd'' & _ & _ & _ & _ & _ & J). destruct J as (_ & J & _); [congruence|].
      exists l, p, d, d'', rest. split_and!; try done; [congruence|]. intros q e He Ht Hq. rewrite (Hdead q e) by done. by apply H11.
Qed.
(** Earlier turns of other threads changed nothing for this one. *)
Lemma delivered_earlier (t : nat) (M : nat → Prop) (before taken : list InstPtr) s s1 s' :
  delivered t before taken s1 s' → kept M (dc_heap s) (dc_heap s1) → ¬ M t →
  cpu_instList (dc_cpu s1) = cpu_instList (dc_cpu s) → decodeInfo s1 t = decodeInfo s t → delivered t before taken s s'.
Proof.
  intros Hdl Hk HM El Hi.
  assert (Hk1 : ∀ q e, dc_heap s !! q = Some e → threadNumber e = t →
    ∃ e1, dc_heap s1 !! q = Some e1 ∧ threadNumber e1 = t ∧ seqNum e1 = seqNum e ∧ dead (dc_heap s1) q = dead (dc_heap s) q).
  { intros q e He Ht. destruct (kept_lookup _ _ _ _ _ Hk He) as (e1 & He1 & Eq & Et & _). exists e1. split_and!; [done|congruence|done|].
    eapply (kept_dead M); [done|exact He|congruence]. }
  unfold delivered in *. rewrite <- Hi. destruct (in_commitSquash (from t)).
  - destruct Hdl as (H1 & H2 & H3 & H4). split_and!; try done. intros q e Hq He Ht.
    destruct (Hk1 q e He Ht) as (e1 & He1 & Et & _). by apply (H4 q e1).
  - destruct Hdl as [(W & I & K)|(l & p & d & d' & rest & T & W & W' & Hd & Ht & Hs & Hwt & I & Hd' & Hp & Hx)].
    + left. split_and!; try done. intros q e He Ht. destruct (Hk1 q e He Ht) as (e1 & He1 & Et & _ & <-). by apply (K q e1).
    + right. pose proof (Hk p) as Hkp. rewrite Hd in Hkp. destruct (dc_heap s !! p) as [d0|] eqn:Hd0; [|done].
      destruct Hkp as (I1 & I2 & I3 & I4 & _ & I5). destruct I5 as (I5 & I6 & I7); [congruence|].
      exists l, p, d0, d', rest. split_and!; try done; [congruence|congruence| | | |].
      * rewrite <- Hwt. unfold wrongTarget, resolves, inst_target, isDirectCtrl, isUncondCtrl, readPredTaken, get_fl, readPredTarg. by rewrite I3, I4, I6, I7.
      * rewrite I. unfold redirect_info, isUncondCtrl. by rewrite I1, I3, I4.
      * by rewrite <- I3, <- I4.
      * intros q e He Het Hq. destruct (Hk1 q e He Het) as (e1 & He1 & Et & Eseq & Ed). rewrite <- I1, <- Eseq, <- El. apply Hx; try done. congruence.
Qed.
Lemma turn_delivered (t : nat) (taken : list InstPtr) s s' :
  turn bt decodeWidth from fromFetch t taken s s' → listed (dc_cpu s) (dc_heap s) → delivered t (waiting s t) taken s s'.
Proof.
  intros (_ & _ & _ & Hk' & _ & Ho) Hls. unfold delivered. destruct (in_commitSquash (from t)).
  - destruct Ho as (H1 & H2 & H3 & _ & H4). split_and!; [done|done|by rewrite H3|done].
  - destruct Ho as [W K I C|l p d d' rest T W W' Hd Ht Hs Hwt I Hd' Hp Ha Hf Hx].
    + left. split_and!; [done|by rewrite I|]. intros q e He Ht. eapply (kept_dead nobody); [done|exact He|by intros []].
    + right. exists l, p, d, d', rest. split_and!; try done; [by rewrite I, fn_lookup_insert|].
      intros q e He Het Hq. split.
      * intros [Hin|Hin] Hlt; [by apply (Ha q e)|by apply (Hf Hls q e)].
      * intros Hdd. specialize (Hx q Hq Hdd). unfold younger_of in Hx. rewrite He in Hx. apply andb_true_iff in Hx as [_ Hx]. by apply Z.ltb_lt.
Qed.

Lemma turns_ok (l : list nat) : ∀ (b b' : bool) s s',
  mfold (tickThread fl bt fs cyc decodeWidth skidMax active from fromFetch) (b, s) l = Ok (b', s') → NoDup l →
  (∀ t, t ∈ l → owned (dc_heap s) t (waiting s t) ∧ dc_wf s t ∧ decodeBlock s t = false ∧ decodeUnblock s t = false ∧ (fromFetch = [] → dc_insts s t = [])) →
  listed (dc_cpu s) (dc_heap s) → ∃ taken, turns l taken s s'.
Proof.
  induction l as [|t l IH]; intros b b' s s' E Hnd Hpre Hls; cbn [mfold] in E.
  { injection E as _ <-. exists (λ _, []). split; try done; [by rewrite app_nil_r|lia|by intros t ?%not_elem_of_nil]. }
  apply NoDup_cons in Hnd as [Ht Hnd]. apply bind_ok in E as ([b1 s1] & E1 & E).
  destruct (Hpre t ltac:(left)) as (P1 & P2 & P3 & P4 & P5).
  destruct (turn_ok _ _ _ _ _ _ _ _ _ _ _ _ _ _ E1 P1 P2 P3 P4 P5) as (tk & Hturn & Hwf & Hins & Hsig).
  pose proof Hturn as ([L1 L2 L3 L4 L5 L6] & T2 & T3 & T4 & T5 & _).
  destruct (IH b1 b' s1 s' E Hnd) as (taken & [N1 N2 N3 N4 N5 N6]).
  { intros t' Ht'. assert (t' ≠ t) by (by intros ->). destruct (Hpre t' ltac:(by right)) as (Q1 & Q2 & Q3 & Q4 & Q5). destruct (L1 t' ltac:(done)) as [Es Ei].
    unfold waiting, dc_wf, held in *. rewrite Es, Ei, L2, L3, L4 by done. split_and!; try done; [by eapply owned_kept|by apply Q2..]. }
  { unfold listed. rewrite T5. by apply (kept_listed _ _ _ _ T4). }
  assert (Hw : ∀ t', t' ≠ t → waiting s1 t' = waiting s t' ∧ decodeInfo s1 t' = decodeInfo s t').
  { intros t' Hne. unfold waiting. destruct (L1 t' Hne) as [-> ->]. by rewrite L5. }
  exists (λ t', if decide (t' = t) then tk else taken t'). split.
  - rewrite N1, T2, fmap_cons, decide_True by done. cbn [concat]. rewrite app_assoc. f_equal. f_equal. apply list_fmap_ext. intros i t' Hi.
    apply list_elem_of_lookup_2 in Hi. rewrite decide_False by (by intros ->). destruct (N6 t' Hi) as (Hd & _).
    destruct (Hpre t' ltac:(by right)) as (Q1 & _). destruct (Hw t' ltac:(by intros ->)) as [Ew _].
    apply (live_kept_owned (eq t) _ _ t'); [done| |by intros ->].
    intros q Hq. apply Q1. unfold delivered in Hd. rewrite Ew in Hd.
    destruct (in_commitSquash (from t')); [destruct Hd as (Hd & _); rewrite Hd in Hq; by apply not_elem_of_nil in Hq|].
    destruct Hd as [(-> & _)|(? & ? & ? & ? & ? & _ & -> & _)]; set_solver.
  - lia.
  - etrans; [eapply kept_mono; [|exact T4]; intros ? <-; left|eapply kept_mono; [|exact N3]; intros; by right].
  - congruence.
  - intros t' Hn. assert (t' ≠ t ∧ t' ∉ l) as [Hne Hnl] by set_solver. destruct (N5 t' Hnl) as (-> & -> & -> & -> & -> & ->).
    destruct (L1 t' Hne) as [-> ->]. rewrite L2, L3, L4, L5 by done. done.
  - intros t' [->|Hin]%elem_of_cons.
    + rewrite decide_True by done. destruct (N5 t Ht) as (Es & Ei & Est & Eb & Eu & Ein). split_and!.
      * eapply (delivered_later t (λ x, x ∈ l) _ _ s s1); [|exact N3|exact T4|done|unfold waiting; by rewrite Es, Ei|done].
        by apply turn_delivered.
      * unfold dc_wf, held. by rewrite Es, Est.
      * by rewrite Ei.
      * destruct Hsig. unfold held in *. split; unfold held; rewrite ?Est, ?Eb, ?Eu; done.
    + assert (t' ≠ t) by (by intros ->). rewrite decide_False by done. destruct (N6 t' Hin) as (Hd & Hwf' & Hi' & Hs').
      destruct (Hw t' ltac:(done)) as [Ew Ein]. unfold held in Hs' at 1. rewrite L2 in Hs' by done. split_and!; try done. rewrite <- Ew.
      eapply (delivered_earlier t' (eq t)); [exact Hd|done|by intros ->|done|done].
Qed.
(** What a cycle starts from: nothing is left of the instructions that arrived before. *)
Record settled s (t : nat) : Prop := {
  st_insts : dc_insts s t = [];
  st_wf : dc_wf s t;
  st_owned : owned (dc_heap s) t (dc_skid s t);
}.

Lemma updateStatus_only s : updateStatus active s = s <| dc_status := dc_status (updateStatus active s) |>.
Proof. unfold updateStatus. destruct s, (existsb _ _); cbn; by case_decide. Qed.

(** A cycle sorts what arrives and gives every thread its turn. *)
Lemma tick_turns s s' :
  tick fl bt fs cyc decodeWidth skidMax active from fromFetch s = Ok s' →
  ∃ s1 b s2, sortInsts fromFetch (clear_wires s) = Ok s1
    ∧ mfold (tickThread fl bt fs cyc decodeWidth skidMax active from fromFetch) (false, s1) active = Ok (b, s2)
    ∧ s' = s2 <| dc_status := dc_status s' |>.
Proof.
  unfold tick. intros E. apply bind_ok in E as (s1 & E1 & E). apply bind_ok in E as ([b s2] & E2 & E). injection E as E.
  exists s1, b, s2. split_and!; [done|done|]. rewrite <- E. destruct b; [apply updateStatus_only|by destruct s2].
Qed.

Lemma arrivals_owned (h : heap) (t : nat) (l : list InstPtr) : owned h t (arrivals h t l).
Proof.
  intros p [Hp _]%list_elem_of_filter. unfold of_thread in Hp. destruct (h !! p) as [d|] eqn:Hd; [|done].
  exists d. split; [done|by apply bool_decide_eq_true in Hp].
Qed.

(** The state after sorting. *)
Lemma sorted_turn s s1 (t : nat) :
  sortInsts fromFetch (clear_wires s) = Ok s1 → settled s t →
  waiting s1 t = dc_skid s t ++ arrivals (dc_heap s) t fromFetch ∧ owned (dc_heap s1) t (waiting s1 t) ∧ dc_wf s1 t
  ∧ decodeBlock s1 t = false ∧ decodeUnblock s1 t = false ∧ (fromFetch = [] → dc_insts s1 t = []) ∧ held s1 t = held s t.
Proof.
  intros E [S1 S2 S3]. apply dc_sortInsts_ok in E as (I1 & I2 & I3 & I4 & I5 & I6). cbn in *.
  assert (F := f_equal decodeStatus I3). assert (F2 := f_equal decodeBlock I3). assert (F3 := f_equal decodeUnblock I3). cbn in F, F2, F3.
  unfold waiting. rewrite I1, I2, S1, F2, F3, I4. cbn. split_and!; try done.
  - intros p [Hp|Hp]%elem_of_app; [by apply S3|by eapply arrivals_owned].
  - unfold dc_wf, held in *. rewrite F, I2. apply S2.
  - intros ->. done.
  - unfold held. by rewrite F.
Qed.

Lemma delivered_waiting (t : nat) (before taken : list InstPtr) s s' :
  delivered t before taken s s' → ∃ l, before = l ++ waiting s' t ∨ waiting s' t = [].
Proof.
  unfold delivered. destruct (in_commitSquash (from t)); [intros (_ & H & _); exists []; by right|].
  intros [(H & _)|(? & ? & ? & ? & ? & _ & _ & H & _)]; [exists taken; by left|exists []; by right].
Qed.

Lemma tick_ran s s' :
  tick fl bt fs cyc decodeWidth skidMax active from fromFetch s = Ok s' → NoDup active →
  (∀ t, t ∈ active → settled s t) → listed (dc_cpu s) (dc_heap s) →
  ∃ s1 s2 taken, sortInsts fromFetch (clear_wires s) = Ok s1 ∧ turns active taken s1 s2 ∧ s' = s2 <| dc_status := dc_status s' |>.
Proof.
  intros E Hnd Hset Hls. apply tick_turns in E as (s1 & b & s2 & E1 & E2 & Es').
  pose proof (dc_sortInsts_ok _ _ _ E1) as (_ & _ & I3 & I4 & _ & _). cbn in I4. assert (F := f_equal dc_cpu I3). cbn in F.
  destruct (turns_ok _ _ _ _ _ E2 Hnd) as (taken & Ht).
  { intros t' Ht'. destruct (sorted_turn _ _ _ E1 (Hset t' Ht')) as (? & ? & ? & ? & ? & ? & ?). by split_and!. }
  { by rewrite F, I4. }
  by exists s1, s2, taken.
Qed.
Lemma tick_kept s s' :
  tick fl bt fs cyc decodeWidth skidMax active from fromFetch s = Ok s' → NoDup active →
  (∀ t, t ∈ active → settled s t) → listed (dc_cpu s) (dc_heap s) → kept (λ t, t ∈ active) (dc_heap s) (dc_heap s').
Proof.
  intros E Hnd Hset Hls. destruct (tick_ran s s' E Hnd Hset Hls) as (s1 & s2 & taken & E1 & [_ _ N3 _ _ _] & ->).
  pose proof (dc_sortInsts_ok _ _ _ E1) as (_ & _ & _ & I4 & _ & _). cbn in *. by rewrite <- I4.
Qed.

(** What a cycle keeps, and the signals it sends. *)
Lemma tick_settled s s' (t : nat) :
  tick fl bt fs cyc decodeWidth skidMax active from fromFetch s = Ok s' → NoDup active →
  (∀ t, t ∈ active → settled s t) → listed (dc_cpu s) (dc_heap s) → t ∈ active →
  settled s' t ∧ sig (held s t) s' t ∧ (length (dc_skid s' t) ≤ length (dc_skid s t) + length (arrivals (dc_heap s) t fromFetch))%nat.
Proof.
  intros E Hnd Hset Hls Ht. destruct (tick_ran s s' E Hnd Hset Hls) as (s1 & s2 & taken & E1 & [N1 N2 N3 N4 N5 N6] & Es').
  destruct (N6 t Ht) as (Hd & Hwf & Hi & Hs). destruct (sorted_turn _ _ _ E1 (Hset t Ht)) as (Ew & Ho & _ & _ & _ & _ & Eh).
  rewrite Eh in Hs. apply delivered_waiting in Hd as (l & Hd).
  assert (Hk : dc_skid s2 t = waiting s2 t) by (unfold waiting; by rewrite Hi, app_nil_r).
  rewrite Es'. cbn. split_and!.
  - split; [done|done|]. cbn. rewrite Hk. destruct Hd as [Hd|Hd]; [|rewrite Hd; by intros p ?%not_elem_of_nil].
    eapply owned_kept; [exact N3|]. intros p Hp. apply Ho. rewrite Hd. set_solver.
  - destruct Hs as [H1 H2 H3 H4]. by split.
  - rewrite Hk. rewrite <- length_app, <- Ew. destruct Hd as [Hd|Hd]; rewrite Hd; [rewrite length_app; lia|cbn; lia].
Qed.

(** ** No assertion fails *)
Definition present (h : heap) (l : list InstPtr) : Prop := ∀ p, p ∈ l → is_Some (h !! p).
(** Instructions of a thread that decode can take: those not squashed are known to the CPU, and
    only branches were predicted taken. *)
Definition takes (c : CPUList) (h : heap) (t : nat) (l : list InstPtr) : Prop :=
  ∀ p, p ∈ l → ∃ d, h !! p = Some d ∧ threadNumber d = t
    ∧ (isSquashed d = false → p ∈ cpu_instList c ∧ (readPredTaken d = true → isControl d = true)).
Lemma present_kept (M : nat → Prop) h h' (l : list InstPtr) : kept M h h' → present h l → present h' l.
Proof. intros Hk Hp p Hin. destruct (Hp p Hin) as [d Hd]. destruct (kept_lookup _ _ _ _ _ Hk Hd) as (d' & Hd' & _). by exists d'. Qed.
Lemma takes_owned c h (t : nat) (l : list InstPtr) : takes c h t l → owned h t l.
Proof. intros Hs p Hp. destruct (Hs p Hp) as (d & Hd & Ht & _). by exists d. Qed.
Lemma takes_kept (M : nat → Prop) c c' h h' (t : nat) (l l' : list InstPtr) :
  kept M h h' → ¬ M t → cpu_instList c' = cpu_instList c → (∀ p, p ∈ l' → p ∈ l) → takes c h t l → takes c' h' t l'.
Proof.
  intros Hk HM Ec Hin Hs p Hp. destruct (Hs p (Hin p Hp)) as (d & Hd & Ht & Hl).
  destruct (kept_lookup _ _ _ _ _ Hk Hd) as (d' & Hd' & _ & Et & Est & _ & _ & Hq). destruct Hq as (Eq & _ & Ef); [by rewrite Ht|].
  exists d'. rewrite Ec, Eq. unfold readPredTaken, get_fl, isControl in *. rewrite Ef, Est. split_and!; [done|congruence|done].
Qed.

Lemma squashFromFetch_total (above : DynInst → bool) (tid : nat) (l : list InstPtr) : ∀ s,
  present (dc_heap s) l → ∃ s', mfold (squashFromFetch above tid) s l = Ok s'.
Proof.
  induction l as [|p l IH]; intros s Hp; cbn [mfold]; [by exists s|].
  destruct (Hp p ltac:(left)) as [d Hd]. assert (∃ s1, squashFromFetch above tid s p = Ok s1) as [s1 E1].
  { unfold squashFromFetch, dc_inst. rewrite Hd. cbn. by eexists. }
  rewrite E1. cbn. apply IH. apply (present_kept (eq tid) (dc_heap s)); [|intros q Hq; apply Hp; by right].
  apply (squashFromFetch_ok above tid [p] s s1). cbn. by rewrite E1.
Qed.
Lemma squash_inst_total (tid : nat) (p : InstPtr) s :
  is_Some (dc_heap s !! p) → present (dc_heap s) fromFetch → listed (dc_cpu s) (dc_heap s) → cpu_instList (dc_cpu s) ≠ [] →
  ∃ s', squash_inst bt fromFetch p tid s = Ok s'.
Proof.
  intros [d Hd] Hp Hls Hne. unfold squash_inst, dc_inst. rewrite Hd. cbn [deref mbind res_bind]. cbn zeta.
  match goal with |- context [mfold ?f ?s0 fromFetch] => destruct (squashFromFetch_total (λ d0, seqNum d <? seqNum d0) tid fromFetch s0) as [s1 E1];
    assert (E0 : dc_heap s0 = dc_heap s ∧ dc_cpu s0 = dc_cpu s) by (cbn; by destruct (decodeStatus s tid)) end.
  { by rewrite (proj1 E0). }
  rewrite E1. cbn [mbind res_bind]. apply squashFromFetch_ok in E1 as (Es & Hk & _). destruct E0 as [Eh Ec]. rewrite Eh in Hk.
  assert (Ec1 : dc_cpu s1 = dc_cpu s) by (by rewrite Es).
  destruct (removeInstsUntil_ok (seqNum d) tid (dc_cpu s1) (dc_heap s1)) as (h' & E2 & _).
  { rewrite Ec1. by eapply kept_listed. } { by rewrite Ec1. }
  cbn. rewrite E2. cbn. by eexists.
Qed.
Lemma squash_commit_total (tid : nat) s : present (dc_heap s) fromFetch → ∃ s', squash_commit fs fromFetch tid s = Ok s'.
Proof.
  intros Hp. unfold squash_commit. cbn zeta.
  match goal with |- context [mfold ?f ?s0 fromFetch] => destruct (squashFromFetch_total (λ _, true) tid fromFetch s0) as [s1 E1];
    [replace (dc_heap s0) with (dc_heap s) by (cbn; by destruct (decodeStatus s tid), fs, (decodeBlock s tid)); done|] end.
  rewrite E1. cbn. by eexists.
Qed.

Lemma skidFold_total (tid : nat) (l : list InstPtr) : ∀ s, owned (dc_heap s) tid l → ∃ s', mfold (skidOne tid) s l = Ok s'.
Proof.
  induction l as [|p l IH]; intros s Ho; cbn [mfold]; [by exists s|]. destruct (Ho p ltac:(left)) as (d & Hd & Ht).
  assert (∃ s1, skidOne tid s p = Ok s1 ∧ dc_heap s1 = dc_heap s) as (s1 & E1 & Eh).
  { unfold skidOne, dc_inst. rewrite Hd. cbn. rewrite bool_decide_true by done. cbn. by eexists. }
  rewrite E1. cbn. apply IH. rewrite Eh. intros q Hq. apply Ho. by right.
Qed.
Lemma skidInsert_total (tid : nat) s :
  owned (dc_heap s) tid (dc_insts s tid) → Z.of_nat (length (waiting s tid)) ≤ skidMax → ∃ s', skidInsert skidMax tid s = Ok s'.
Proof.
  intros Ho Hl. unfold skidInsert. destruct (skidFold_total tid (dc_insts s tid) s Ho) as [s1 E1]. rewrite E1. cbn.
  apply dc_skidFold_ok in E1 as (Hm & Hi & _); [|done]. pose proof (mv_wait _ _ _ Hm) as Ew. unfold waiting in *. rewrite Hi, app_nil_r in Ew.
  rewrite Ew. destruct (Z.leb_spec (Z.of_nat (length (dc_skid s tid ++ dc_insts s tid))) skidMax); [cbn; by eexists|lia].
Qed.
Lemma block_total (tid : nat) s :
  owned (dc_heap s) tid (dc_insts s tid) → Z.of_nat (length (waiting s tid)) ≤ skidMax → ∃ r, Decode.block skidMax tid s = Ok r.
Proof. intros Ho Hl. unfold Decode.block. destruct (skidInsert_total tid s Ho Hl) as [s1 E1]. rewrite E1. cbn. case_decide; by eexists. Qed.

Lemma decodeLoop_total (u : bool) (tid k : nat) : ∀ s,
  takes (dc_cpu s) (dc_heap s) tid (queue u tid s) → present (dc_heap s) fromFetch → listed (dc_cpu s) (dc_heap s) →
  (k ≤ length (queue u tid s))%nat → ∃ s', decodeLoop fl bt cyc decodeWidth fromFetch u tid k s = Ok s'.
Proof.
  induction k as [|k IH]; intros s Ht Hp Hls Hk; cbn [decodeLoop]; [by exists s|].
  destruct (decodeWidth <=? Z.of_nat (length (toRename s))); [by exists s|].
  destruct (queue u tid s) as [|p rest] eqn:Eq; [cbn in Hk; lia|]. cbn zeta. destruct (Ht p ltac:(left)) as (d & Hd & Htid & Hl).
  (* the state the next round starts in *)
  assert (Hnext : ∀ s1, dc_cpu s1 = dc_cpu s → queue u tid s1 = rest → kept nobody (dc_heap s) (dc_heap s1) →
    ∃ s', decodeLoop fl bt cyc decodeWidth fromFetch u tid k s1 = Ok s').
  { intros s1 Ec Er Hk1. apply IH; rewrite ?Er, ?Ec.
    - eapply (takes_kept nobody); [exact Hk1|by intros []|done| |exact Ht]. intros q Hq. by right.
    - by eapply present_kept.
    - by eapply kept_listed.
    - cbn in Hk. lia. }
  assert (Eh : dc_heap (set_queue u tid rest s) = dc_heap s ∧ dc_cpu (set_queue u tid rest s) = dc_cpu s) by (by destruct u). destruct Eh as [Eh Ec].
  unfold dc_inst. rewrite Eh, Hd. cbn [deref mbind res_bind]. destruct (isSquashed d) eqn:Esq.
  { apply Hnext; [done|by rewrite dc_queue_set|by rewrite Eh]. }
  destruct (Hl eq_refl) as [Hin Hpt]. set (inst := if numSrcRegs d =? 0 then setCanIssue cyc d else d).
  assert (Hi : inst_kept nobody d inst) by (apply canIssue_kept). pose proof Hi as (_ & Hi2 & Hi3 & _ & _ & Hi6).
  destruct Hi6 as (_ & _ & Hfl); [by intros []|].
  assert (Epan : readPredTaken inst && negb (isControl inst) = false).
  { unfold readPredTaken, get_fl, isControl in *. rewrite Hfl, Hi3. destruct (bit_get _ _); [by rewrite Hpt|done]. }
  rewrite Epan. cbn [panic_if mbind res_bind].
  set (s0 := put_inst p inst (set_queue u tid rest s) <| toRename := toRename (set_queue u tid rest s) ++ [p] |>).
  assert (Eh0 : dc_heap s0 = <[p := inst]> (dc_heap s)) by (unfold s0; by destruct u).
  assert (Hk0 : kept nobody (dc_heap s) (dc_heap s0)) by (rewrite Eh0; by apply (kept_insert _ _ _ d)).
  destruct (wrongTarget bt inst).
  { destruct (squash_inst_total (threadNumber inst) p s0) as [s2 E2].
    - rewrite Eh0, lookup_insert_eq. by eexists.
    - by eapply present_kept.
    - change (dc_cpu s0) with (dc_cpu (set_queue u tid rest s)). rewrite Ec. by eapply kept_listed.
    - change (dc_cpu s0) with (dc_cpu (set_queue u tid rest s)). rewrite Ec. intros En. rewrite En in Hin. by apply not_elem_of_nil in Hin.
    - rewrite E2. cbn [mbind res_bind]. apply (squash_inst_ok _ _ _ _ inst) in E2 as HR; [|by rewrite Eh0, lookup_insert_eq].
      destruct (kept_lookup _ _ _ p inst (rd_kept _ _ _ _ _ _ _ HR)) as (d2 & Hd2 & _); [by rewrite Eh0, lookup_insert_eq|].
      unfold dc_inst. rewrite Hd2. cbn. by eexists. }
  apply Hnext.
  - by destruct (_ && _ && _), u.
  - transitivity (queue u tid (set_queue u tid rest s)); [by destruct (_ && _ && _), u|by rewrite dc_queue_set].
  - destruct (_ && _ && _); [|done]. change (dc_heap (put_inst p _ s0)) with (<[p := clearMaySquashOthers inst]> (dc_heap s0)).
    rewrite Eh0, insert_insert_eq. apply (kept_insert _ _ _ d); [done|]. etrans; [exact Hi|]. by apply kept_reset.
Qed.

(** What a thread's turn needs. *)
Record ready s (tid : nat) : Prop := {
  rdy_takes : takes (dc_cpu s) (dc_heap s) tid (waiting s tid);
  rdy_present : present (dc_heap s) fromFetch;
  rdy_listed : listed (dc_cpu s) (dc_heap s);
  rdy_room : Z.of_nat (length (waiting s tid)) ≤ skidMax;
}.
Lemma takes_sub c h (t : nat) (l l' : list InstPtr) : (∀ p, p ∈ l' → p ∈ l) → takes c h t l → takes c h t l'.
Proof. intros Hin Ht p Hp. by apply Ht, Hin. Qed.
Lemma insts_owned s (tid : nat) : owned (dc_heap s) tid (waiting s tid) → owned (dc_heap s) tid (dc_insts s tid).
Proof. intros Ho p Hp. apply Ho. unfold waiting. set_solver. Qed.

(** The advance of a thread leaves less waiting. *)
Lemma advanced_waiting (tid : nat) (taken : list InstPtr) s s' :
  advanced bt decodeWidth fromFetch tid taken s s' → ∃ l, waiting s tid = l ++ waiting s' tid ∨ waiting s' tid = [].
Proof.
  intros [_ _ _ _ _ [W _ _ _|l p d d' rest T W W' _ _ _ _ _ _ _ _ _ _]]; [exists taken; by left|exists []; by right].
Qed.
Lemma advanced_room (tid : nat) (taken : list InstPtr) s s' :
  advanced bt decodeWidth fromFetch tid taken s s' → Z.of_nat (length (waiting s tid)) ≤ skidMax → owned (dc_heap s) tid (waiting s tid) →
  Z.of_nat (length (waiting s' tid)) ≤ skidMax ∧ owned (dc_heap s') tid (waiting s' tid).
Proof.
  intros A Hl Ho. pose proof (ad_kept _ _ _ _ _ _ _ A) as Hk. apply advanced_waiting in A as (l & [E|E]); rewrite ?E in *.
  - rewrite length_app in Hl. split; [lia|]. eapply owned_kept; [exact Hk|]. intros p Hp. apply Ho. set_solver.
  - split; [cbn; lia|by intros p ?%not_elem_of_nil].
Qed.

Lemma decodeInsts_total (tid : nat) s :
  ready s tid → (decodeStatus s tid ≠ DcUnblocking → dc_skid s tid = []) →
  ∃ s', decodeInsts fl bt cyc decodeWidth skidMax fromFetch tid s = Ok s'.
Proof.
  intros [Ht Hp Hls Hroom] Hsk. unfold decodeInsts. set (u := bool_decide (decodeStatus s tid = DcUnblocking)).
  assert (Hu : u = false → dc_skid s tid = []) by (intros Eu%bool_decide_eq_false; by apply Hsk).
  case_decide; [by exists s|]. assert (Htq : takes (dc_cpu s) (dc_heap s) tid (queue u tid s)).
  { eapply takes_sub; [|exact Ht]. intros q. unfold waiting, queue. destruct u; set_solver. }
  destruct (decodeLoop_total u tid (length (queue u tid s)) s Htq Hp Hls ltac:(lia)) as [s1 E1]. rewrite E1. cbn [mbind res_bind].
  apply (decodeLoop_ok _ _ _ _ from) in E1 as (taken & s0 & C & _ & Hw & Hend); [|by eapply takes_owned|lia].
  destruct Hend as [[-> _]|(l & p & d & s2 & d2 & _ & _ & _ & _ & _ & HR & _ & ->)].
  - destruct (queue u tid s0); [by eexists|].
    destruct (advanced_room _ _ _ _ (consumed_advanced bt decodeWidth fromFetch _ _ _ _ _ C Hu Hw) Hroom (takes_owned _ _ _ _ Ht)) as [Hr Ho].
    destruct (block_total tid s0 (insts_owned _ _ Ho) Hr) as [[b s3] E3]. rewrite E3. cbn. by eexists.
  - assert (Eq : queue u tid (put_inst p (setPredTarg (inst_target bt d2) d2) s2) = []); [|rewrite Eq; by eexists].
    destruct u; cbn; rewrite ?(rd_insts _ _ _ _ _ _ _ HR), ?(rd_skid _ _ _ _ _ _ _ HR); apply fn_lookup_insert.
Qed.

Lemma decode_total (tid : nat) (b : bool) s :
  ready s tid → dc_wf s tid → tid ∈ active → ∃ r, decode fl bt cyc decodeWidth skidMax active fromFetch b tid s = Ok r.
Proof.
  intros Hr (Hwf1 & Hwf2 & _) Hin. unfold decode, held in *. destruct (decodeStatus s tid) eqn:Est; [| |by eexists..|].
  1,2: destruct (decodeInsts_total tid s Hr ltac:(auto)) as [s1 E1]; rewrite E1; cbn; by eexists.
  assert (Ene : skidsEmpty active s = false).
  { apply not_true_iff_false. intros E. unfold skidsEmpty in E. rewrite forallb_forall in E. apply Hwf2; [done|]. by apply (bool_decide_unpack _), Is_true_true, E, list_elem_of_In. }
  rewrite Ene. cbn [negb assert mbind res_bind].
  destruct (decodeInsts_total tid s Hr ltac:(by rewrite Est)) as [s1 E1]. rewrite E1. cbn [mbind res_bind].
  pose proof (takes_owned _ _ _ _ (rdy_takes _ _ Hr)) as Ho.
  apply (decodeInsts_ok _ _ _ _ _ from) in E1 as (taken & A & _); [|done|by rewrite Est..].
  destruct (advanced_room _ _ _ _ A (rdy_room _ _ Hr) Ho) as [Hr1 Ho1].
  assert (∃ s2, (if decide (fromFetch = []) then Ok s1 else skidInsert skidMax tid s1) = Ok s2) as [s2 E2].
  { case_decide; [by eexists|]. by apply skidInsert_total; [apply insts_owned|]. }
  rewrite E2. cbn. destruct (unblock tid s2). by eexists.
Qed.

(** Rename lets the stage go on only after it stopped it. *)
Definition rename_keeps s (t : nat) : Prop :=
  in_renameUnblock (from t) = true → in_renameBlock (from t) = true ∨ stalls_rename s t = true.

Lemma readStallSignals_total (tid : nat) s : rename_keeps s tid → ∃ s', readStallSignals from tid s = Ok s'.
Proof.
  unfold rename_keeps, readStallSignals. destruct (in_renameUnblock (from tid)); [|by eexists]. intros [E|E]; [done|rewrite E|..].
  - cbn. rewrite fn_lookup_insert. cbn. by eexists.
  - destruct (in_renameBlock (from tid)); cbn; rewrite ?fn_lookup_insert, ?E; cbn; by eexists.
Qed.

Lemma tickThread_total (tid : nat) (b : bool) s :
  ready s tid → dc_wf s tid → decodeBlock s tid = false → decodeUnblock s tid = false → rename_keeps s tid → tid ∈ active →
  ∃ r, tickThread fl bt fs cyc decodeWidth skidMax active from fromFetch (b, s) tid = Ok r.
Proof.
  intros Hr Hwf Hb Hu Hrn Hin. unfold tickThread.
  assert (∃ r, checkSignalsAndUpdate fs skidMax from fromFetch tid s = Ok r) as [[b1 s1] E1].
  { unfold checkSignalsAndUpdate. destruct (readStallSignals_total tid s Hrn) as [s0 E0]. rewrite E0. cbn [mbind res_bind].
    apply readStallSignals_ok in E0 as [Es0 Hm0]. destruct Hr as [R1 R2 R3 R4].
    destruct (in_commitSquash (from tid)).
    - destruct (squash_commit_total tid s0) as [s2 E2]; [by rewrite (mv_heap _ _ _ Hm0)|]. rewrite E2. cbn. by eexists.
    - destruct (checkStall tid s0); [|by destruct (decodeStatus s0 tid); eexists].
      apply block_total; [apply insts_owned; rewrite (mv_heap _ _ _ Hm0)|]; rewrite (mv_wait _ _ _ Hm0); [by eapply takes_owned|done]. }
  rewrite E1. cbn [mbind res_bind]. destruct (in_commitSquash (from tid)) eqn:Esq.
  - destruct (checkSignals_squash bt _ decodeWidth _ _ _ _ _ _ _ E1 Esq Hb Hu) as (_ & Est & _). unfold decode. rewrite Est. by eexists.
  - destruct (dc_checkSignals_ok _ _ _ _ _ _ _ _ E1 Esq Hwf Hb Hu) as (Hm & Hwf1 & _). apply decode_total; [|done|done].
    destruct Hr as [R1 R2 R3 R4]. split; rewrite ?(mv_heap _ _ _ Hm), ?(mv_wait _ _ _ Hm), ?(mv_cpu _ _ _ Hm); done.
Qed.

(** What every thread of a cycle needs, and that a turn of another thread keeps it. *)
Record can_turn s (t : nat) : Prop := {
  ct_ready : ready s t;
  ct_wf : dc_wf s t;
  ct_wires : decodeBlock s t = false ∧ decodeUnblock s t = false;
  ct_insts : fromFetch = [] → dc_insts s t = [];
  ct_rename : rename_keeps s t;
}.
Lemma can_turn_later (t t' : nat) (taken : list InstPtr) s s1 :
  turn bt decodeWidth from fromFetch t taken s s1 → t' ≠ t → can_turn s t' → can_turn s1 t'.
Proof.
  intros ([L1 L2 L3 L4 L5 L6] & _ & _ & T4 & T5 & _) Hne [[R1 R2 R3 R4] C2 C3 C4 C5]. destruct (L1 t' Hne) as [Es Ei].
  assert (Ew : waiting s1 t' = waiting s t') by (unfold waiting; by rewrite Es, Ei). split.
  - split; rewrite ?Ew; [|by eapply present_kept| |done].
    + eapply (takes_kept (eq t)); [exact T4|by intros ->|done| |exact R1]. done.
    + unfold listed. rewrite T5. by apply (kept_listed _ _ _ _ T4).
  - unfold dc_wf, held. rewrite Es, L2 by done. apply C2.
  - by rewrite L3, L4.
  - by rewrite Ei.
  - unfold rename_keeps. by rewrite L6.
Qed.
Lemma turns_total (l : list nat) : ∀ (b : bool) s,
  NoDup l → (∀ t, t ∈ l → t ∈ active ∧ can_turn s t) →
  ∃ r, mfold (tickThread fl bt fs cyc decodeWidth skidMax active from fromFetch) (b, s) l = Ok r.
Proof.
  induction l as [|t l IH]; intros b s Hnd Hc; cbn [mfold]; [by eexists|]. apply NoDup_cons in Hnd as [Hnt Hnd].
  destruct (Hc t ltac:(left)) as [Hin Hct]. pose proof Hct as [C1 C2 [C3 C3'] C4 C5].
  destruct (tickThread_total t b s C1 C2 C3 C3' C5 Hin) as [[b1 s1] E1]. rewrite E1. cbn [mbind res_bind].
  apply turn_ok in E1 as (taken & Ht & _); try done; [|eapply takes_owned; apply C1]. apply IH; [done|].
  intros t' Ht'. destruct (Hc t' ltac:(by right)) as [Hin' Hct']. split; [done|]. eapply can_turn_later; [exact Ht| |done]. by intros ->.
Qed.

(** What a cycle needs of the other stages. *)
Record cycle_ok s : Prop := {
  cy_takes : ∀ t, t ∈ active → takes (dc_cpu s) (dc_heap s) t (dc_skid s t ++ arrivals (dc_heap s) t fromFetch);
  cy_present : present (dc_heap s) fromFetch;
  cy_listed : listed (dc_cpu s) (dc_heap s);
  cy_room : ∀ t, t ∈ active → Z.of_nat (length (dc_skid s t) + length (arrivals (dc_heap s) t fromFetch)) ≤ skidMax;
  cy_rename : ∀ t, t ∈ active → rename_keeps s t;
}.
Lemma sortInsts_total (l : list InstPtr) : ∀ s, present (dc_heap s) l → ∃ s', mfold sortInst s l = Ok s'.
Proof.
  induction l as [|p l IH]; intros s Hp; cbn [mfold]; [by eexists|]. destruct (Hp p ltac:(left)) as [d Hd].
  assert (∃ s1, sortInst s p = Ok s1 ∧ dc_heap s1 = dc_heap s) as (s1 & E1 & Eh) by (unfold sortInst, dc_inst; rewrite Hd; cbn; by eexists).
  rewrite E1. cbn. apply IH. rewrite Eh. intros q Hq. apply Hp. by right.
Qed.
Lemma tick_total s :
  NoDup active → (∀ t, t ∈ active → settled s t) → cycle_ok s →
  ∃ s', tick fl bt fs cyc decodeWidth skidMax active from fromFetch s = Ok s'.
Proof.
  intros Hnd Hset [Y1 Y2 Y3 Y4 Y5]. unfold tick. destruct (sortInsts_total fromFetch (clear_wires s) Y2) as [s1 E1].
  unfold sortInsts at 1. rewrite E1. cbn [mbind res_bind].
  pose proof (dc_sortInsts_ok _ _ _ E1) as (_ & _ & I3 & I4 & _ & _). cbn in I4. assert (F := f_equal dc_cpu I3). assert (F2 := f_equal stalls_rename I3). cbn in F, F2.
  destruct (turns_total active false s1 Hnd) as [[b s2] E2]; [|rewrite E2; cbn; by eexists].
  intros t Ht. destruct (sorted_turn _ _ _ E1 (Hset t Ht)) as (Ew & _ & Hwf & Hb & Hu & Hi & _). split; [done|]. split; try done.
  - split; rewrite ?Ew, ?I4, ?F; [by apply Y1|done|done|]. rewrite length_app. by apply Y4.
  - unfold rename_keeps. rewrite F2. by apply Y5.
Qed.
End cycle.

(** C23: decode delivers in program order.  A cycle that ends well sends rename, thread after
    thread, the instructions at the front of what waited in the skid buffer followed by what
    arrived, without those already squashed, and at most [decodeWidth] of them; the rest waits
    for the next cycle in the same order.  A thread that commit squashes sends nothing, keeps
    nothing, and everything of it that arrives is squashed.  A thread stops early only behind a
    branch whose computed target is not the predicted one: the branch is the last instruction
    sent, fetch is told the target, the branch now carries it as its prediction, nothing of the
    thread waits, and of the thread's instructions in flight exactly the younger ones are
    squashed. *)
Theorem decode_delivers_in_order (fl : DebugFlags) (bt : StaticInst → PCState → PCState) (fs : bool)
    (cyc decodeWidth skidMax : Z) (active : list nat) (from : nat → DcIn) (fromFetch : list InstPtr) (s s' : Decode) :
  NoDup active → (∀ t, t ∈ active → settled s t) → listed (dc_cpu s) (dc_heap s) →
  tick fl bt fs cyc decodeWidth skidMax active from fromFetch s = Ok s' →
  ∃ taken : nat → list InstPtr,
    toRename s' = concat ((λ t, live (dc_heap s) (taken t)) <$> active)
    ∧ Z.of_nat (length (toRename s')) ≤ Z.max decodeWidth 0
    ∧ ∀ t, t ∈ active →
        delivered bt from fromFetch t (dc_skid s t ++ arrivals (dc_heap s) t fromFetch) (taken t) (clear_wires s) s'.
Proof.
  intros Hnd Hset Hls E. destruct (tick_ran _ _ _ _ _ _ _ _ _ s s' E Hnd Hset Hls) as (s1 & s2 & taken & E1 & [N1 N2 N3 N4 N5 N6] & Es').
  pose proof (dc_sortInsts_ok _ _ _ E1) as (_ & _ & I3 & I4 & I5 & _). cbn in I4, I5.
  assert (F := f_equal dc_cpu I3). assert (F2 := f_equal decodeInfo I3). cbn in F, F2.
  exists taken. rewrite Es'. cbn. rewrite N1, I5, I4. split_and!; [done| |].
  - rewrite N1, I5, I4 in N2. exact N2.
  - intros t Ht. destruct (N6 t Ht) as (Hd & _). destruct (sorted_turn _ _ _ _ E1 (Hset t Ht)) as (Ew & _). rewrite Ew in Hd.
    unfold delivered in *. rewrite I4, F, F2 in Hd. exact Hd.
Qed.
