(* ===== verification/FreeList.v ===== *)
(** * Physical registers and their free list

    [src/cpu/o3/regfile.hh], [regfile.cc] and [free_list.hh], [free_list.cc]: the
    identifiers of the physical registers, one vector per class, numbered by a flat
    index that runs through all classes, and the queues of registers that are not in
    use.  Adding a register to a free list also clears its taint bit.  The contents of
    the registers are kept for the vector file only, which [switchMode] copies.
    [TheISA::NumMiscRegs] is an argument of the constructor; indices stay below 2^15,
    the range of [PhysRegIndex]. *)

From S2P Require Import Prelude Regs.
Local Open Scope Z_scope.

(** [Enums::VecRegRenameMode]. *)
Inductive VecMode :=
| Full
| Elem.

#[export] Instance VecMode_eq_dec : EqDecision VecMode.
Proof. solve_decision. Defined.

(** ** Register file *)
Record PhysRegFile := MkPhysRegFile {
  intRegIds : list PhysRegId;
  floatRegIds : list PhysRegId;
  vecRegIds : list PhysRegId;
  vecElemIds : list PhysRegId;
  ccRegIds : list PhysRegId;
  miscRegIds : list PhysRegId;
  vectorRegFile : list (list Z);
  numPhysicalVecRegs : Z;
  numPhysicalVecElemRegs : Z;
  rf_vecMode : VecMode;
}.
#[export] Instance PhysRegFile_eta : Updatable PhysRegFile := λ r, MkPhysRegFile (intRegIds r)
  (floatRegIds r) (vecRegIds r) (vecElemIds r) (ccRegIds r) (miscRegIds r) (vectorRegFile r)
  (numPhysicalVecRegs r) (numPhysicalVecElemRegs r) (rf_vecMode r).

(** [elemIdx] of the scalar constructor. *)
Definition no_elem : Z := 2 ^ 16 - 1.

(** [for (i < n) ids.emplace_back(cls, i, flat_reg_idx++)], from flat index [flat]. *)
Definition scalarIds (cls : RegClass) (n : nat) (flat : Z) : list PhysRegId :=
  (λ i, MkPhysRegId (MkRegId cls (Z.of_nat i) no_elem) (flat + Z.of_nat i)) <$> seq 0 n.
(** The elements, [NumVecElemPerVecReg] for each vector register. *)
Definition elemIds (n : nat) (flat : Z) : list PhysRegId :=
  (λ k, MkPhysRegId (MkRegId VecElemClass (Z.of_nat k / NumVecElemPerVecReg)
                             (Z.of_nat k mod NumVecElemPerVecReg)) (flat + Z.of_nat k))
  <$> seq 0 (n * Z.to_nat NumVecElemPerVecReg).

Definition PhysRegFile_init (nInt nFloat nVec nCC nMisc : nat) (vmode : VecMode) : PhysRegFile :=
  let fFloat := Z.of_nat nInt in
  let fVec := fFloat + Z.of_nat nFloat in
  let fElem := fVec + Z.of_nat nVec in
  let fCC := fElem + Z.of_nat nVec * NumVecElemPerVecReg in
  {| intRegIds := scalarIds IntRegClass nInt 0;
     floatRegIds := scalarIds FloatRegClass nFloat fFloat;
     vecRegIds := scalarIds VecRegClass nVec fVec;
     vecElemIds := elemIds nVec fElem;
     ccRegIds := scalarIds CCRegClass nCC fCC;
     miscRegIds := (λ i, MkPhysRegId (MkRegId MiscRegClass (Z.of_nat i) no_elem) 0) <$> seq 0 nMisc;
     vectorRegFile := replicate nVec (replicate (Z.to_nat NumVecElemPerVecReg) 0);
     numPhysicalVecRegs := Z.of_nat nVec;
     numPhysicalVecElemRegs := Z.of_nat nVec * NumVecElemPerVecReg;
     rf_vecMode := vmode |}.

Definition getMiscRegId (reg_idx : Z) (rf : PhysRegFile) : res PhysRegId := vget (miscRegIds rf) reg_idx.

(** The range of the elements of a vector register. *)
Definition getRegElemIds (reg : PhysRegId) (rf : PhysRegFile) : res (list PhysRegId) :=
  _ ← panic_if (bool_decide (regClass (pr_reg reg) ≠ VecRegClass));
  let n := Z.to_nat NumVecElemPerVecReg in
  Ok (take n (drop (Z.to_nat (regIdx (pr_reg reg)) * n) (vecElemIds rf))).

Definition getRegIds (cls : RegClass) (rf : PhysRegFile) : list PhysRegId :=
  match cls with
  | IntRegClass => intRegIds rf
  | FloatRegClass => floatRegIds rf
  | VecRegClass => vecRegIds rf
  | VecElemClass => vecElemIds rf
  | CCRegClass => ccRegIds rf
  | MiscRegClass => miscRegIds rf
  end.

(** The default case panics, there being no other vector element class. *)
Definition getTrueId (reg : PhysRegId) (rf : PhysRegFile) : res PhysRegId :=
  match regClass (pr_reg reg) with
  | VecRegClass => vget (vecRegIds rf) (regIdx (pr_reg reg))
  | VecElemClass =>
      vget (vecElemIds rf) (regIdx (pr_reg reg) * NumVecElemPerVecReg + elemIdx (pr_reg reg))
  | _ => Err Panicked
  end.

Definition readVecElem (reg : PhysRegId) (rf : PhysRegFile) : res Z :=
  _ ← assert (bool_decide (regClass (pr_reg reg) = VecElemClass));
  v ← vget (vectorRegFile rf) (regIdx (pr_reg reg));
  vget v (elemIdx (pr_reg reg)).
Definition setVecReg (reg : PhysRegId) (val : list Z) (rf : PhysRegFile) : res PhysRegFile :=
  _ ← assert (bool_decide (regClass (pr_reg reg) = VecRegClass));
  f ← vset (regIdx (pr_reg reg)) val (vectorRegFile rf);
  Ok (rf <| vectorRegFile := f |>).

(** ** Free lists *)
(** [SimpleFreeList] is its queue, front first. *)
Record UnifiedFreeList := MkUnifiedFreeList {
  intList : list PhysRegId;
  floatList : list PhysRegId;
  vecList : list PhysRegId;
  vecElemList : list PhysRegId;
  ccList : list PhysRegId;
}.
#[export] Instance UnifiedFreeList_eta : Updatable UnifiedFreeList := λ r, MkUnifiedFreeList
  (intList r) (floatList r) (vecList r) (vecElemList r) (ccList r).

(** The list of a class, which miscellaneous registers do not have. *)
Definition list_of (cls : RegClass) (f : UnifiedFreeList) : list PhysRegId :=
  match cls with
  | IntRegClass => intList f
  | FloatRegClass => floatList f
  | VecRegClass => vecList f
  | VecElemClass => vecElemList f
  | CCRegClass => ccList f
  | MiscRegClass => []
  end.
Definition set_list (cls : RegClass) (l : list PhysRegId) (f : UnifiedFreeList) : UnifiedFreeList :=
  match cls with
  | IntRegClass => f <| intList := l |>
  | FloatRegClass => f <| floatList := l |>
  | VecRegClass => f <| vecList := l |>
  | VecElemClass => f <| vecElemList := l |>
  | CCRegClass => f <| ccList := l |>
  | MiscRegClass => f
  end.

(** [SimpleFreeList::addReg] and [getReg]. *)
Definition simple_addReg (st : list PhysRegId * taint) (reg : PhysRegId) : list PhysRegId * taint :=
  (st.1 ++ [reg], clearSecureSpecPhysReg reg st.2).
Definition simple_addRegs (regs : list PhysRegId) (st : list PhysRegId * taint) : list PhysRegId * taint :=
  foldl simple_addReg st regs.
Definition simple_getReg (l : list PhysRegId) : res (PhysRegId * list PhysRegId) :=
  match l with
  | [] => Err AssertFailed
  | r :: l' => Ok (r, l')
  end.
Definition numFreeRegs (l : list PhysRegId) : Z := Z.of_nat (length l).
Definition hasFreeRegs (l : list PhysRegId) : bool := negb (bool_decide (l = [])).

(** [UnifiedFreeList::addReg]: into the list of the register's class. *)
Definition addReg (reg : PhysRegId) (f : UnifiedFreeList) (t : taint) : res (UnifiedFreeList * taint) :=
  let cls := regClass (pr_reg reg) in
  _ ← panic_if (bool_decide (cls = MiscRegClass));
  let '(l, t) := simple_addReg (list_of cls f, t) reg in
  Ok (set_list cls l f, t).

(** [UnifiedFreeList::addRegs]: the class is that of the first; the last must agree. *)
Definition addRegs (regs : list PhysRegId) (f : UnifiedFreeList) (t : taint) : res (UnifiedFreeList * taint) :=
  match regs with
  | [] => Ok (f, t)
  | first :: _ =>
      let cls := regClass (pr_reg first) in
      _ ← panic_if (bool_decide ((regClass ∘ pr_reg <$> list.last regs) ≠ Some cls));
      _ ← panic_if (bool_decide (cls = MiscRegClass));
      let '(l, t) := simple_addRegs regs (list_of cls f, t) in
      Ok (set_list cls l f, t)
  end.

(** [getIntReg] and its siblings. *)
Definition getClassReg (cls : RegClass) (f : UnifiedFreeList) : res (PhysRegId * UnifiedFreeList) :=
  '(r, l) ← simple_getReg (list_of cls f);
  Ok (r, set_list cls l f).

(** The loops that check [ids[i].index() == i] before the lists are filled. *)
Definition ids_in_order (ids : list PhysRegId) : bool :=
  forallb (λ '(i, r), regIdx (pr_reg r) =? Z.of_nat i) (zip (seq 0 (length ids)) ids).
Definition elems_in_order (ids : list PhysRegId) : bool :=
  forallb (λ '(k, r), (regIdx (pr_reg r) =? Z.of_nat k / NumVecElemPerVecReg)
                      && (elemIdx (pr_reg r) =? Z.of_nat k mod NumVecElemPerVecReg))
    (zip (seq 0 (length ids)) ids).

Definition initFreeList (rf : PhysRegFile) (f : UnifiedFreeList) (t : taint) : res (UnifiedFreeList * taint) :=
  _ ← assert (ids_in_order (intRegIds rf));
  '(f, t) ← addRegs (intRegIds rf) f t;
  _ ← assert (ids_in_order (floatRegIds rf));
  '(f, t) ← addRegs (floatRegIds rf) f t;
  _ ← assert (ids_in_order (vecRegIds rf) && elems_in_order (vecElemIds rf));
  '(f, t) ← addRegs (if decide (rf_vecMode rf = Full) then vecRegIds rf else vecElemIds rf) f t;
  _ ← assert (ids_in_order (ccRegIds rf));
  addRegs (ccRegIds rf) f t.
Definition UnifiedFreeList_init (rf : PhysRegFile) (t : taint) : res (UnifiedFreeList * taint) :=
  initFreeList rf (MkUnifiedFreeList [] [] [] [] []) t.

(** ** Facts *)
(** Everything that is free. *)
Definition all_free (f : UnifiedFreeList) : list PhysRegId :=
  intList f ++ floatList f ++ vecList f ++ vecElemList f ++ ccList f.

(** Every list holds registers of its class. *)
Definition fl_wf (f : UnifiedFreeList) : Prop :=
  ∀ c r, r ∈ list_of c f → regClass (pr_reg r) = c.

Lemma list_of_set (c c' : RegClass) (l : list PhysRegId) (f : UnifiedFreeList) :
  c' ≠ MiscRegClass → list_of c (set_list c' l f) = if decide (c = c') then l else list_of c f.
Proof. intros Hm. by destruct c, c'. Qed.

Lemma set_list_list_of (c : RegClass) (f : UnifiedFreeList) : set_list c (list_of c f) f = f.
Proof. by destruct c, f. Qed.

(** The free registers are those of one class and the others. *)
Lemma all_free_split (c : RegClass) (f : UnifiedFreeList) :
  c ≠ MiscRegClass →
  ∃ rest, ∀ l, all_free (set_list c l f) ≡ₚ l ++ rest.
Proof.
  intros Hm. destruct f as [a b d e g]. destruct c; [..|done]; unfold all_free; cbn.
  - exists (b ++ d ++ e ++ g). done.
  - exists (a ++ d ++ e ++ g). intros l. solve_Permutation.
  - exists (a ++ b ++ e ++ g). intros l. solve_Permutation.
  - exists (a ++ b ++ d ++ g). intros l. solve_Permutation.
  - exists (a ++ b ++ d ++ e). intros l. solve_Permutation.
Qed.

Lemma all_free_set (c : RegClass) (l : list PhysRegId) (f : UnifiedFreeList) :
  c ≠ MiscRegClass → all_free f ++ l ≡ₚ all_free (set_list c l f) ++ list_of c f.
Proof.
  intros Hm. destruct (all_free_split c f Hm) as [rest Hr].
  rewrite (Hr l). pose proof (Hr (list_of c f)) as H0. rewrite set_list_list_of in H0. rewrite H0. solve_Permutation.
Qed.

Lemma elem_of_all_free (f : UnifiedFreeList) (r : PhysRegId) : r ∈ all_free f ↔ ∃ c, r ∈ list_of c f.
Proof.
  unfold all_free. rewrite !elem_of_app. split.
  - intros [H|[H|[H|[H|H]]]]; [exists IntRegClass|exists FloatRegClass|exists VecRegClass
      |exists VecElemClass|exists CCRegClass]; done.
  - intros [[] H]; cbn in H; try tauto. by apply not_elem_of_nil in H.
Qed.

Lemma addReg_ok (r : PhysRegId) (f f' : UnifiedFreeList) (t t' : taint) :
  addReg r f t = Ok (f', t') →
  regClass (pr_reg r) ≠ MiscRegClass ∧ t' = t ∖ {[ r ]}
  ∧ (∀ c, list_of c f' = if decide (c = regClass (pr_reg r)) then list_of c f ++ [r] else list_of c f)
  ∧ all_free f' ≡ₚ r :: all_free f.
Proof.
  unfold addReg. cbn zeta. intros E. apply bind_ok in E as (u & Hm%panic_if_ok%bool_decide_eq_false & E).
  cbn in E. injection E as <- <-. split; [done|]. split; [done|]. split.
  - intros c. rewrite list_of_set by done. by case_decide; subst.
  - pose proof (all_free_set _ (list_of (regClass (pr_reg r)) f ++ [r]) f Hm) as Hp.
    rewrite app_assoc in Hp. rewrite (Permutation_app_comm (all_free f)), <- app_assoc in Hp.
    rewrite (Permutation_app_comm (all_free (set_list _ _ _))) in Hp.
    apply Permutation_app_inv_l in Hp. rewrite <- Hp. solve_Permutation.
Qed.

Lemma addReg_total (r : PhysRegId) (f : UnifiedFreeList) (t : taint) :
  regClass (pr_reg r) ≠ MiscRegClass → ∃ f', addReg r f t = Ok (f', t ∖ {[ r ]}).
Proof. intros Hm. unfold addReg. cbn zeta. rewrite bool_decide_false by done. cbn. by eexists. Qed.

Lemma getClassReg_ok (c : RegClass) (f f' : UnifiedFreeList) (r : PhysRegId) :
  getClassReg c f = Ok (r, f') →
  c ≠ MiscRegClass ∧ list_of c f = r :: list_of c f'
  ∧ (∀ c', c' ≠ c → list_of c' f' = list_of c' f)
  ∧ all_free f ≡ₚ r :: all_free f'.
Proof.
  unfold getClassReg. intros E. apply bind_ok in E as ([r' l] & Hg & E). injection E as <- <-.
  unfold simple_getReg in Hg. destruct (list_of c f) as [|x l'] eqn:El; [done|]. injection Hg as <- <-.
  assert (Hm : c ≠ MiscRegClass) by (intros ->; done).
  split; [done|]. split; [by rewrite list_of_set, decide_True|]. split.
  - intros c' Hc. by rewrite list_of_set, decide_False.
  - pose proof (all_free_set c l' f Hm) as Hp. rewrite El in Hp.
    rewrite (cons_middle x), app_assoc in Hp. apply Permutation_app_inv_r in Hp.
    rewrite Hp. solve_Permutation.
Qed.

Lemma getClassReg_total (c : RegClass) (f : UnifiedFreeList) :
  0 < numFreeRegs (list_of c f) → ∃ r f', getClassReg c f = Ok (r, f').
Proof.
  unfold getClassReg, numFreeRegs. destruct (list_of c f) as [|x l]; cbn; [lia|]. intros _. by do 2 eexists.
Qed.

Lemma addReg_wf (r : PhysRegId) (f f' : UnifiedFreeList) (t t' : taint) :
  fl_wf f → addReg r f t = Ok (f', t') → fl_wf f'.
Proof.
  intros Hwf (_ & _ & Hl & _)%addReg_ok c x Hx. rewrite Hl in Hx. case_decide as Hc; [subst|by apply Hwf].
  apply elem_of_app in Hx as [Hx|Hx]; [by apply Hwf|]. apply list_elem_of_singleton in Hx. by subst.
Qed.

Lemma getClassReg_wf (c : RegClass) (f f' : UnifiedFreeList) (r : PhysRegId) :
  fl_wf f → getClassReg c f = Ok (r, f') → fl_wf f' ∧ regClass (pr_reg r) = c.
Proof.
  intros Hwf (_ & Hl & Ho & _)%getClassReg_ok. split.
  - intros c' x Hx. destruct (decide (c' = c)) as [->|Hne]; [apply Hwf; rewrite Hl; by right|].
    rewrite Ho in Hx by done. by apply Hwf.
  - apply Hwf. rewrite Hl. left.
Qed.
