(* ===== verification/RenameMap.v ===== *)
(** * Rename maps

    [src/cpu/o3/rename_map.hh] and [rename_map.cc]: the table from architectural to
    physical registers, one per class, and the initial mapping the CPU's constructor
    sets up ([cpu.cc]).  An entry that was never set is a null pointer, [None];
    reading it fails.  A map allocates from the free list of its class, which [init]
    wires up and which is threaded through the operations here. *)

From S2P Require Import Prelude Regs DynInst Scoreboard FreeList.
Local Open Scope Z_scope.

(** The X86 register counts ([arch/x86/registers.hh], [x86_traits.hh], [regs/ccr.hh]). *)
Definition NumIntRegs : nat := 16 + 16 + 6.
Definition NumFloatRegs : nat := 8 + 2 * 16 + 8 + 8.
Definition NumVecRegs : nat := 1.
Definition NumCCRegs : nat := 5.

(** ** One class *)
Record SimpleRenameMap := MkSimpleRenameMap {
  srm_map : list (option PhysRegId);
  srm_zeroReg : RegId;
}.
#[export] Instance SimpleRenameMap_eta : Updatable SimpleRenameMap := λ r,
  MkSimpleRenameMap (srm_map r) (srm_zeroReg r).

Definition srm_init (size : nat) (zeroIdx : Z) : SimpleRenameMap :=
  MkSimpleRenameMap (replicate size None) (MkRegId IntRegClass zeroIdx no_elem).

(** [rename] indexes the table by [arch_reg.index()]. *)
Definition srm_rename (arch_reg : RegId) (m : SimpleRenameMap) (l : list PhysRegId)
    : res (PhysRegId * PhysRegId * SimpleRenameMap * list PhysRegId) :=
  prev ← vget (srm_map m) (regIdx arch_reg);
  prev_reg ← deref prev;
  if RegId_eqb arch_reg (srm_zeroReg m) then
    _ ← assert (isZeroPhysReg prev_reg);
    Ok (prev_reg, prev_reg, m, l)
  else
    '(renamed_reg, l) ← simple_getReg l;
    t ← vset (regIdx arch_reg) (Some renamed_reg) (srm_map m);
    Ok (renamed_reg, prev_reg, m <| srm_map := t |>, l).

(** [lookup] and [setEntry] index it by [arch_reg.flatIndex()]. *)
Definition srm_lookup (arch_reg : RegId) (m : SimpleRenameMap) : res PhysRegId :=
  _ ← assert (RegId_flatIndex arch_reg <=? Z.of_nat (length (srm_map m)));
  e ← vget (srm_map m) (RegId_flatIndex arch_reg);
  deref e.
Definition srm_setEntry (arch_reg : RegId) (phys_reg : PhysRegId) (m : SimpleRenameMap) : res SimpleRenameMap :=
  _ ← assert (RegId_flatIndex arch_reg <=? Z.of_nat (length (srm_map m)));
  t ← vset (RegId_flatIndex arch_reg) (Some phys_reg) (srm_map m);
  Ok (m <| srm_map := t |>).

(** ** All classes *)
Record UnifiedRenameMap := MkUnifiedRenameMap {
  intMap : SimpleRenameMap;
  floatMap : SimpleRenameMap;
  ccMap : SimpleRenameMap;
  vecMap : SimpleRenameMap;
  vecElemMap : SimpleRenameMap;
  vecMode : VecMode;
}.
#[export] Instance UnifiedRenameMap_eta : Updatable UnifiedRenameMap := λ r, MkUnifiedRenameMap
  (intMap r) (floatMap r) (ccMap r) (vecMap r) (vecElemMap r) (vecMode r).

(** The table of a class; [None] for the fixed mappings. *)
Definition map_of (cls : RegClass) (m : UnifiedRenameMap) : option SimpleRenameMap :=
  match cls with
  | IntRegClass => Some (intMap m)
  | FloatRegClass => Some (floatMap m)
  | VecRegClass => Some (vecMap m)
  | VecElemClass => Some (vecElemMap m)
  | CCRegClass => Some (ccMap m)
  | MiscRegClass => None
  end.
Definition set_map (cls : RegClass) (s : SimpleRenameMap) (m : UnifiedRenameMap) : UnifiedRenameMap :=
  match cls with
  | IntRegClass => m <| intMap := s |>
  | FloatRegClass => m <| floatMap := s |>
  | VecRegClass => m <| vecMap := s |>
  | VecElemClass => m <| vecElemMap := s |>
  | CCRegClass => m <| ccMap := s |>
  | MiscRegClass => m
  end.

(** The assertions on the vector mode. *)
Definition mode_ok (cls : RegClass) (m : UnifiedRenameMap) : bool :=
  match cls with
  | VecRegClass => bool_decide (vecMode m = Full)
  | VecElemClass => bool_decide (vecMode m = Elem)
  | _ => true
  end.

(** There is no [(RegIndex)-1]-th register. *)
Definition no_reg : Z := 2 ^ 16 - 1.
Definition rm_init (intZeroReg floatZeroReg : Z) (mode : VecMode) : UnifiedRenameMap :=
  {| intMap := srm_init NumIntRegs intZeroReg;
     floatMap := srm_init NumFloatRegs floatZeroReg;
     vecMap := srm_init NumVecRegs no_reg;
     vecElemMap := srm_init (NumVecRegs * Z.to_nat NumVecElemPerVecReg) no_reg;
     ccMap := srm_init NumCCRegs no_reg;
     vecMode := mode |}.

Section maps.
Context (rf : PhysRegFile).

Definition rm_lookup (arch_reg : RegId) (m : UnifiedRenameMap) : res PhysRegId :=
  let cls := regClass arch_reg in
  _ ← assert (mode_ok cls m);
  match map_of cls m with
  | Some s => srm_lookup arch_reg s
  | None => getMiscRegId (RegId_flatIndex arch_reg) rf
  end.

(** The new and the previous physical register. *)
Definition rm_rename (arch_reg : RegId) (m : UnifiedRenameMap) (f : UnifiedFreeList)
    : res (PhysRegId * PhysRegId * UnifiedRenameMap * UnifiedFreeList) :=
  let cls := regClass arch_reg in
  _ ← assert (mode_ok cls m);
  match map_of cls m with
  | Some s =>
      '(new, prev, s, l) ← srm_rename arch_reg s (list_of cls f);
      Ok (new, prev, set_map cls s m, set_list cls l f)
  | None =>
      phys_reg ← rm_lookup arch_reg m;
      Ok (phys_reg, phys_reg, m, f)
  end.

Definition rm_setEntry (arch_reg : RegId) (phys_reg : PhysRegId) (m : UnifiedRenameMap) : res UnifiedRenameMap :=
  let cls := regClass arch_reg in
  match map_of cls m with
  | Some s =>
      _ ← assert (bool_decide (regClass (pr_reg phys_reg) = cls));
      _ ← assert (mode_ok cls m);
      s ← srm_setEntry arch_reg phys_reg s;
      Ok (set_map cls s m)
  | None =>
      p ← rm_lookup arch_reg m;
      _ ← assert (bool_decide (phys_reg = p));
      Ok m
  end.
End maps.

(** The number of free registers of a map is that of its free list. *)
Definition numFreeVecEntries (m : UnifiedRenameMap) (f : UnifiedFreeList) : Z :=
  if decide (vecMode m = Full) then numFreeRegs (vecList f) else numFreeRegs (vecElemList f).
Definition rm_numFreeEntries (m : UnifiedRenameMap) (f : UnifiedFreeList) : Z :=
  Z.min (Z.min (numFreeRegs (intList f)) (numFreeRegs (floatList f))) (numFreeVecEntries m f).
Definition canRename (intRegs floatRegs vectorRegs vecElemRegs ccRegs : Z) (f : UnifiedFreeList) : bool :=
  (intRegs <=? numFreeRegs (intList f)) && (floatRegs <=? numFreeRegs (floatList f))
  && (vectorRegs <=? numFreeRegs (vecList f)) && (vecElemRegs <=? numFreeRegs (vecElemList f))
  && (ccRegs <=? numFreeRegs (ccList f)).

(** ** Initial mapping *)
(** Both maps of a thread start with the same mapping; the entries are set directly,
    the zero register included. *)
Definition mapOne (rf : PhysRegFile) (cls : RegClass)
    (st : UnifiedRenameMap * UnifiedRenameMap * UnifiedFreeList) (arch_reg : RegId)
    : res (UnifiedRenameMap * UnifiedRenameMap * UnifiedFreeList) :=
  let '(rm, crm, f) := st in
  '(phys_reg, f) ← getClassReg cls f;
  rm ← rm_setEntry rf arch_reg phys_reg rm;
  crm ← rm_setEntry rf arch_reg phys_reg crm;
  Ok (rm, crm, f).
(** [for (ridx < n) RegId(cls, ridx)]. *)
Definition archRegs (cls : RegClass) (n : nat) : list RegId :=
  (λ i, MkRegId cls (Z.of_nat i) no_elem) <$> seq 0 n.
Definition archElems : list RegId :=
  (λ k, MkRegId VecElemClass (Z.of_nat k / NumVecElemPerVecReg) (Z.of_nat k mod NumVecElemPerVecReg))
  <$> seq 0 (NumVecRegs * Z.to_nat NumVecElemPerVecReg).
Definition initThreadMaps (rf : PhysRegFile) (mode : VecMode)
    (st : UnifiedRenameMap * UnifiedRenameMap * UnifiedFreeList)
    : res (UnifiedRenameMap * UnifiedRenameMap * UnifiedFreeList) :=
  st ← mfold (mapOne rf IntRegClass) st (archRegs IntRegClass NumIntRegs);
  st ← mfold (mapOne rf FloatRegClass) st (archRegs FloatRegClass NumFloatRegs);
  st ← (if decide (mode = Full) then mfold (mapOne rf VecRegClass) st (archRegs VecRegClass NumVecRegs)
        else mfold (mapOne rf VecElemClass) st archElems);
  mfold (mapOne rf CCRegClass) st (archRegs CCRegClass NumCCRegs).
(** The constructor's loops: every thread's maps are created, the active ones' filled. *)
Definition initMaps_tid (rf : PhysRegFile) (mode : VecMode)
    (st : (nat → UnifiedRenameMap) * (nat → UnifiedRenameMap) * UnifiedFreeList) (tid : nat)
    : res ((nat → UnifiedRenameMap) * (nat → UnifiedRenameMap) * UnifiedFreeList) :=
  let '(rms, crms, f) := st in
  '(rm, crm, f) ← initThreadMaps rf mode (rms tid, crms tid, f);
  Ok (<[tid := rm]> rms, <[tid := crm]> crms, f).
Definition initMaps (rf : PhysRegFile) (mode : VecMode) (active_threads : nat) (f : UnifiedFreeList)
    : res ((nat → UnifiedRenameMap) * (nat → UnifiedRenameMap) * UnifiedFreeList) :=
  let fresh := rm_init ZeroReg (Z.of_nat NumFloatRegs + 1) mode in
  mfold (initMaps_tid rf mode) (λ _, fresh, λ _, fresh, f) (seq 0 active_threads).

(** ** Switching the vector mode *)
(** Split the mapping of one vector register, [reg] counting them. *)
Definition splitOne (rf : PhysRegFile) (st : nat * SimpleRenameMap) (e : option PhysRegId)
    : res (nat * SimpleRenameMap) :=
  let '(reg, elems) := st in
  p ← deref e;
  range ← getRegElemIds p rf;
  elems ← mfold (λ elems '(i, x), srm_setEntry (MkRegId VecElemClass (Z.of_nat reg) (Z.of_nat i)) x elems)
            elems (zip (seq 0 (length range)) range);
  _ ← panic_if (negb (Z.of_nat (length range) =? NumVecElemPerVecReg));
  Ok (S reg, elems).
(** Split the free registers one by one. *)
Definition splitFree (rf : PhysRegFile) (st : UnifiedFreeList * taint) (vr : PhysRegId)
    : res (UnifiedFreeList * taint) :=
  let '(f, t) := st in
  '(_, f) ← getClassReg VecRegClass f;
  range ← getRegElemIds vr rf;
  addRegs range f t.

(** Gather the elements of the vector registers. *)
Definition stitch (rf : PhysRegFile) (m : UnifiedRenameMap) (vals : list (list Z)) (i : nat)
    : res (list (list Z)) :=
  v ← mfold (λ v l, s_prid ← srm_lookup (MkRegId VecElemClass (Z.of_nat i) (Z.of_nat l)) (vecElemMap m);
                    x ← readVecElem s_prid rf; Ok (v ++ [x]))
        [] (seq 0 (Z.to_nat NumVecElemPerVecReg));
  Ok (vals ++ [v]).
Definition storeVec (rf : PhysRegFile) '(i, v) : res PhysRegFile :=
  p ← getTrueId (MkPhysRegId (MkRegId VecRegClass (Z.of_nat i) no_elem) 0) rf;
  setVecReg p v rf.

Definition switchMode (newVecMode : VecMode) (rf : PhysRegFile) (m : UnifiedRenameMap)
    (f : UnifiedFreeList) (t : taint) : res (PhysRegFile * UnifiedRenameMap * UnifiedFreeList * taint) :=
  match newVecMode, vecMode m with
  | Elem, Full =>
      _ ← panic_if (hasFreeRegs (vecElemList f));
      _ ← panic_if (negb (numFreeRegs (vecList f) =? u32 (numPhysicalVecRegs rf - Z.of_nat NumVecRegs)));
      '(_, elems) ← mfold (splitOne rf) (0%nat, vecElemMap m) (srm_map (vecMap m));
      '(f, t) ← mfold (splitFree rf) (f, t) (vecList f);
      Ok (rf, m <| vecElemMap := elems |> <| vecMode := Elem |>, f, t)
  | Full, Elem =>
      _ ← panic_if (hasFreeRegs (vecList f));
      _ ← panic_if (negb (numFreeRegs (vecList f) =? u32 (numPhysicalVecElemRegs rf - Z.of_nat NumFloatRegs)));
      new_RF ← mfold (stitch rf m) [] (seq 0 NumVecRegs);
      rf ← mfold storeVec rf (zip (seq 0 NumVecRegs) new_RF);
      '(f, t) ← addRegs (drop NumVecRegs (getRegIds VecRegClass rf)) f t;
      Ok (rf, m <| vecMode := Full |>, f <| vecElemList := [] |>, t)
  | _, _ => Ok (rf, m, f, t)
  end.

(** ** Facts *)
(** Entries of a map, and updating one. *)
Definition table (cls : RegClass) (m : UnifiedRenameMap) : list (option PhysRegId) :=
  from_option srm_map [] (map_of cls m).
Definition slot (a : RegId) : nat := Z.to_nat (RegId_flatIndex a).
Definition entry (m : UnifiedRenameMap) (a : RegId) : option PhysRegId :=
  mjoin (table (regClass a) m !! slot a).
Definition update (a : RegId) (p : PhysRegId) (m : UnifiedRenameMap) : UnifiedRenameMap :=
  match map_of (regClass a) m with
  | Some s => set_map (regClass a) (s <| srm_map ::= <[slot a := Some p]> |>) m
  | None => m
  end.
(** The registers whose mapping never changes: the miscellaneous ones and the zero register. *)
Definition pinned_in (m : UnifiedRenameMap) (a : RegId) : bool :=
  match map_of (regClass a) m with
  | Some s => RegId_eqb a (srm_zeroReg s)
  | None => true
  end.
(** Two identifiers name the same entry. *)
Definition same_slot (a b : RegId) : Prop := regClass a = regClass b ∧ slot a = slot b.
#[export] Instance same_slot_dec (a b : RegId) : Decision (same_slot a b).
Proof. unfold same_slot. apply _. Defined.

(** The registers a map holds. *)
Definition entries (l : list (option PhysRegId)) : list PhysRegId := omap id l.
Definition mapped (m : UnifiedRenameMap) : list PhysRegId :=
  entries (srm_map (intMap m)) ++ entries (srm_map (floatMap m)) ++ entries (srm_map (vecMap m))
  ++ entries (srm_map (vecElemMap m)) ++ entries (srm_map (ccMap m)).

Lemma entries_insert (l : list (option PhysRegId)) (i : nat) (p q : PhysRegId) :
  l !! i = Some (Some p) → p :: entries (<[i := Some q]> l) ≡ₚ q :: entries l.
Proof.
  revert i; induction l as [|o l IH]; intros [|i] E; cbn in *; simplify_eq; [by apply perm_swap|].
  specialize (IH i E). unfold entries in *. destruct o as [x|]; cbn; [|done].
  rewrite (perm_swap x p), (perm_swap x q). by f_equiv.
Qed.

Lemma mapped_split (c : RegClass) (m : UnifiedRenameMap) :
  c ≠ MiscRegClass → ∃ rest, ∀ s, mapped (set_map c s m) ≡ₚ entries (srm_map s) ++ rest.
Proof.
  intros Hm. destruct m as [a b d e g o]. destruct c; [..|done]; unfold mapped; cbn.
  - exists (entries (srm_map b) ++ entries (srm_map e) ++ entries (srm_map g) ++ entries (srm_map d)). done.
  - exists (entries (srm_map a) ++ entries (srm_map e) ++ entries (srm_map g) ++ entries (srm_map d)).
    intros s. solve_Permutation.
  - exists (entries (srm_map a) ++ entries (srm_map b) ++ entries (srm_map g) ++ entries (srm_map d)).
    intros s. solve_Permutation.
  - exists (entries (srm_map a) ++ entries (srm_map b) ++ entries (srm_map e) ++ entries (srm_map d)).
    intros s. solve_Permutation.
  - exists (entries (srm_map a) ++ entries (srm_map b) ++ entries (srm_map e) ++ entries (srm_map g)).
    intros s. solve_Permutation.
Qed.

Lemma set_map_map_of (c : RegClass) (s : SimpleRenameMap) (m : UnifiedRenameMap) :
  map_of c m = Some s → set_map c s m = m.
Proof. destruct m as [? ? ? ? ? ?], c; cbn; intros [=]; by subst. Qed.
Lemma set_map_twice (c : RegClass) (s s' : SimpleRenameMap) (m : UnifiedRenameMap) :
  set_map c s (set_map c s' m) = set_map c s m.
Proof. by destruct c. Qed.
Lemma map_of_set (c c' : RegClass) (s : SimpleRenameMap) (m : UnifiedRenameMap) :
  map_of c (set_map c' s m) = if decide (c = c') then (λ _, s) <$> map_of c m else map_of c m.
Proof. by destruct c, c'. Qed.
Lemma map_of_None (c : RegClass) (m : UnifiedRenameMap) : map_of c m = None ↔ c = MiscRegClass.
Proof. by destruct c. Qed.
Lemma vecMode_set_map (c : RegClass) (s : SimpleRenameMap) (m : UnifiedRenameMap) :
  vecMode (set_map c s m) = vecMode m.
Proof. by destruct c. Qed.

Lemma entry_Some (m : UnifiedRenameMap) (a : RegId) (p : PhysRegId) :
  entry m a = Some p ↔ ∃ s, map_of (regClass a) m = Some s ∧ srm_map s !! slot a = Some (Some p).
Proof.
  unfold entry, table. destruct (map_of (regClass a) m) as [s|]; cbn.
  - destruct (srm_map s !! slot a) as [[x|]|] eqn:E; cbn; naive_solver.
  - naive_solver.
Qed.

(** Replacing an entry exchanges one register for another. *)
Lemma mapped_update (m : UnifiedRenameMap) (a : RegId) (p q : PhysRegId) :
  entry m a = Some p → p :: mapped (update a q m) ≡ₚ q :: mapped m.
Proof.
  intros (s & Hs & E)%entry_Some. unfold update. rewrite Hs.
  assert (Hc : regClass a ≠ MiscRegClass) by (intros Hc; rewrite Hc in Hs; done).
  destruct (mapped_split _ m Hc) as [rest Hr]. rewrite (Hr (s <| srm_map ::= _ |>)).
  pose proof (Hr s) as Hr0. rewrite (set_map_map_of _ _ _ Hs) in Hr0. rewrite Hr0.
  rewrite !app_comm_cons. f_equiv. by apply entries_insert.
Qed.

Lemma update_twice (m : UnifiedRenameMap) (a : RegId) (p q : PhysRegId) :
  update a q (update a p m) = update a q m.
Proof.
  unfold update. destruct (map_of (regClass a) m) as [s|] eqn:Hs; [|by rewrite Hs].
  rewrite map_of_set, decide_True, Hs by done. cbn. rewrite set_map_twice. f_equal. destruct s as [l z]. cbn.
  change (MkSimpleRenameMap (<[slot a := Some q]> (<[slot a := Some p]> l)) z
          = MkSimpleRenameMap (<[slot a := Some q]> l) z).
  by rewrite list_insert_insert_eq.
Qed.
Lemma update_id (m : UnifiedRenameMap) (a : RegId) (p : PhysRegId) : entry m a = Some p → update a p m = m.
Proof.
  intros (s & Hs & E)%entry_Some. unfold update. rewrite Hs. apply set_map_map_of. rewrite Hs. f_equal.
  destruct s as [l z]. cbn in E. change (MkSimpleRenameMap l z = MkSimpleRenameMap (<[slot a := Some p]> l) z).
  by rewrite list_insert_id.
Qed.

Lemma table_update (m : UnifiedRenameMap) (a : RegId) (p : PhysRegId) (c : RegClass) :
  table c (update a p m) = if decide (c = regClass a) then <[slot a := Some p]> (table c m) else table c m.
Proof.
  unfold table, update. destruct (map_of (regClass a) m) as [s|] eqn:Hs.
  - rewrite map_of_set. case_decide as Hc; [|done]. subst c. by rewrite Hs.
  - case_decide as Hc; [|done]. subst c. by rewrite Hs.
Qed.
Lemma entry_update (m : UnifiedRenameMap) (a b : RegId) (p q : PhysRegId) :
  entry m a = Some q →
  entry (update a p m) b = if decide (same_slot b a) then Some p else entry m b.
Proof.
  intros Ea. unfold entry. rewrite table_update. apply entry_Some in Ea as (s & Hs & El).
  assert (Ht : table (regClass a) m !! slot a = Some (Some q)) by (unfold table; by rewrite Hs).
  case_decide as Hc.
  - rewrite Hc. destruct (decide (slot b = slot a)) as [E|E].
    + rewrite decide_True by (by split). rewrite E, list_lookup_insert_eq; [done|].
      by apply lookup_lt_Some in Ht.
    + rewrite decide_False by (intros [? ?]; done). by rewrite list_lookup_insert_ne.
  - rewrite decide_False by (intros [? ?]; done). done.
Qed.
Lemma vecMode_update (m : UnifiedRenameMap) (a : RegId) (p : PhysRegId) : vecMode (update a p m) = vecMode m.
Proof. unfold update. destruct (map_of (regClass a) m); [apply vecMode_set_map|done]. Qed.

Lemma pinned_update (m : UnifiedRenameMap) (a b : RegId) (p : PhysRegId) :
  pinned_in (update a p m) b = pinned_in m b.
Proof.
  unfold pinned_in, update. destruct (map_of (regClass a) m) as [s|] eqn:Hs; [|done].
  rewrite map_of_set. case_decide as Hc; [|done]. rewrite <- Hc in Hs. by rewrite Hs.
Qed.
Lemma update_misc (m : UnifiedRenameMap) (a : RegId) (p : PhysRegId) : regClass a = MiscRegClass → update a p m = m.
Proof. intros Hc. unfold update. by rewrite Hc. Qed.

Lemma entry_in_mapped (m : UnifiedRenameMap) (a : RegId) (p : PhysRegId) : entry m a = Some p → p ∈ mapped m.
Proof.
  intros E. pose proof (mapped_update m a p p E) as Hp. rewrite (update_id _ _ _ E) in Hp.
  apply entry_Some in E as (s & Hs & El).
  assert (Hc : regClass a ≠ MiscRegClass) by (intros Hc; rewrite Hc in Hs; done).
  destruct (mapped_split _ m Hc) as [rest Hr]. pose proof (Hr s) as Hr0.
  rewrite (set_map_map_of _ _ _ Hs) in Hr0. rewrite Hr0. apply elem_of_app. left.
  unfold entries. apply list_elem_of_omap. exists (Some p). split; [by eapply list_elem_of_lookup_2|done].
Qed.

(** *** The operations, on entries *)
Section ops.
Context (rf : PhysRegFile).

(** Rolling back an entry that is there cannot fail. *)
Lemma rm_setEntry_total (a : RegId) (p q : PhysRegId) (m : UnifiedRenameMap) :
  mode_ok (regClass a) m = true → 0 ≤ RegId_flatIndex a → entry m a = Some q →
  regClass (pr_reg p) = regClass a → rm_setEntry rf a p m = Ok (update a p m).
Proof.
  intros Hm H0 (s & Hs & E)%entry_Some Hc. unfold rm_setEntry, update. cbn zeta. rewrite Hs, Hm, bool_decide_true by done.
  cbn [assert mbind res_bind]. unfold srm_setEntry. apply lookup_lt_Some in E. unfold slot in E.
  rewrite (proj2 (Z.leb_le _ _)) by lia. cbn [assert mbind res_bind]. rewrite vset_in_range by lia. done.
Qed.

(** Renaming in whole-register mode: a fixed register and the zero register keep their
    mapping, any other gets the first free register of its class. *)
Lemma rm_rename_ok (a : RegId) (m m' : UnifiedRenameMap) (f f' : UnifiedFreeList) (new prev : PhysRegId) :
  vecMode m = Full → rm_rename rf a m f = Ok (new, prev, m', f') →
  (∀ p, entry m a = Some p → regClass (pr_reg p) = regClass a) →
  (pinned_in m a = true ∧ new = prev ∧ m' = m ∧ f' = f ∧ rm_setEntry rf a new m = Ok m
   ∧ (regClass a = MiscRegClass ∨ isZeroPhysReg new = true))
  ∨ (pinned_in m a = false ∧ regClass a ≠ VecElemClass ∧ 0 ≤ RegId_flatIndex a ∧ entry m a = Some prev
     ∧ m' = update a new m ∧ getClassReg (regClass a) f = Ok (new, f')).
Proof.
  intros Hv E Hcl. unfold rm_rename in E. cbn zeta in E. apply bind_ok in E as (u & Hm%assert_ok & E).
  unfold pinned_in. destruct (map_of (regClass a) m) as [s|] eqn:Hs.
  2: { apply bind_ok in E as (p & Hp & E). injection E as <- <- <- <-. left. split_and!; try done; [|left; by apply map_of_None in Hs].
       unfold rm_setEntry. cbn zeta. rewrite Hs, Hp. cbn. by rewrite bool_decide_true. }
  assert (Hne : regClass a ≠ VecElemClass).
  { intros Hc. rewrite Hc in Hm. cbn in Hm. by rewrite Hv in Hm. }
  assert (Hidx : RegId_flatIndex a = regIdx a).
  { unfold RegId_flatIndex. by destruct (regClass a). }
  apply bind_ok in E as ([[[new0 prev0] s'] l] & Hr & E). injection E as <- <- <- <-.
  unfold srm_rename in Hr. apply bind_ok in Hr as (po & [Hp0 Hp]%vget_ok & Hr).
  apply bind_ok in Hr as (p & ->%deref_ok & Hr).
  assert (Hent : entry m a = Some p).
  { apply entry_Some. exists s. split; [done|]. unfold slot. by rewrite Hidx. }
  destruct (RegId_eqb a (srm_zeroReg s)).
  - apply bind_ok in Hr as (? & Hz%assert_ok & Hr). injection Hr as <- <- <- <-. left. split_and!; try done; [..|by right].
    + by apply set_map_map_of.
    + apply set_list_list_of.
    + rewrite (rm_setEntry_total _ _ p); [by rewrite (update_id _ _ _ Hent)|done|lia|done|by apply Hcl].
  - apply bind_ok in Hr as ([q l'] & Hg & Hr). apply bind_ok in Hr as (t & Ht & Hr).
    injection Hr as <- <- <- <-. right. split; [done|]. split; [done|]. rewrite Hidx. split; [done|].
    unfold vset in Ht. destruct (_ && _) in Ht; [|done]. injection Ht as <-. split_and!; [done|..].
    + unfold update. rewrite Hs. unfold slot. by rewrite Hidx.
    + unfold getClassReg. by rewrite Hg.
Qed.

Lemma rm_setEntry_ok (a : RegId) (p : PhysRegId) (m m' : UnifiedRenameMap) :
  rm_setEntry rf a p m = Ok m' → m' = update a p m.
Proof.
  unfold rm_setEntry, update. cbn zeta. intros E. destruct (map_of (regClass a) m) as [s|] eqn:Hs.
  - apply bind_ok in E as (? & _ & E). apply bind_ok in E as (? & _ & E). apply bind_ok in E as (s' & Hset & E).
    injection E as <-. unfold srm_setEntry in Hset. apply bind_ok in Hset as (? & _ & Hset).
    apply bind_ok in Hset as (t & Ht & Hset). injection Hset as <-. unfold vset in Ht.
    destruct (_ && _) in Ht; [|done]. by injection Ht as <-.
  - apply bind_ok in E as (? & _ & E). apply bind_ok in E as (? & _ & E). by injection E as <-.
Qed.

Lemma rm_setEntry_entry (a : RegId) (p : PhysRegId) (m m' : UnifiedRenameMap) :
  regClass a ≠ MiscRegClass → rm_setEntry rf a p m = Ok m' → entry m' a = Some p.
Proof.
  unfold rm_setEntry. cbn zeta. intros Hc E. destruct (map_of (regClass a) m) as [s|] eqn:Hs; [|by apply map_of_None in Hs].
  apply bind_ok in E as (? & _ & E). apply bind_ok in E as (? & _ & E). apply bind_ok in E as (s' & Hset & E).
  injection E as <-. unfold srm_setEntry in Hset. apply bind_ok in Hset as (? & _ & Hset).
  apply bind_ok in Hset as (t & Ht & Hset). injection Hset as <-. unfold vset in Ht.
  destruct (_ && _) eqn:Hb in Ht; [|done]. injection Ht as <-. apply entry_Some.
  rewrite map_of_set, decide_True, Hs by done. eexists. split; [done|]. cbn. unfold slot.
  apply list_lookup_insert_eq. lia.
Qed.

Lemma rm_lookup_entry (a : RegId) (p : PhysRegId) (m : UnifiedRenameMap) :
  regClass a ≠ MiscRegClass → rm_lookup rf a m = Ok p → entry m a = Some p.
Proof.
  unfold rm_lookup. cbn zeta. intros Hc E. apply bind_ok in E as (? & _ & E).
  destruct (map_of (regClass a) m) as [s|] eqn:Hs; [|by apply map_of_None in Hs].
  unfold srm_lookup in E. apply bind_ok in E as (? & _ & E). apply bind_ok in E as (o & [H0 Ho]%vget_ok & E).
  apply deref_ok in E as ->. apply entry_Some. eauto.
Qed.
End ops.

(** * Renaming operands

    The register half of [src/cpu/o3/rename.hh] and [rename_impl.hh]: renaming the
    sources and destinations of an instruction, the history of destination renames, and
    its two ends: undoing the youngest renames on a squash, and releasing the registers
    that committed instructions replaced.

    [RegState] gathers what these operations share: the instructions, the scoreboard,
    the free list with the taint bits, and per thread the rename map and the history,
    youngest first.  [iew_ptr->instQueue.regToProducerInst], which is only printed, is
    left out. *)
(** ** Flattening *)
(** [X86ISA::ISA::flattenRegId]; [x87_top] is [regVal[MISCREG_X87_TOP]]. *)
Definition IntFoldBit : Z := Z.shiftl 1 6.
Definition NUM_FLOATREGS : Z := 8 + 2 * 16 + 8.
Definition flattenIntIndex (reg : Z) : Z := Z.land reg (Z.lnot IntFoldBit).
Definition FLOATREG_STACK (index top : Z) : Z := Z.rem (top + index + 8) 8.
Definition flattenFloatIndex (x87_top reg : Z) : Z :=
  if NUM_FLOATREGS <=? reg then FLOATREG_STACK (reg - NUM_FLOATREGS) x87_top else reg.
Definition flattenRegId (x87_top : Z) (r : RegId) : RegId :=
  match regClass r with
  | IntRegClass => MkRegId IntRegClass (flattenIntIndex (regIdx r)) no_elem
  | FloatRegClass => MkRegId FloatRegClass (flattenFloatIndex x87_top (regIdx r)) no_elem
  | CCRegClass => MkRegId CCRegClass (regIdx r) no_elem
  | MiscRegClass => MkRegId MiscRegClass (regIdx r) no_elem
  | VecRegClass | VecElemClass => r
  end.

(** ** State *)
Record RenameHistory := MkRenameHistory {
  instSeqNum : Z;
  archReg : RegId;
  newPhysReg : PhysRegId;
  prevPhysReg : PhysRegId;
}.

Record RegState := MkRegState {
  rs_heap : heap;
  scoreboard : Scoreboard;
  freeList : UnifiedFreeList;
  rs_taint : taint;
  renameMap : nat → UnifiedRenameMap;
  historyBuffer : nat → list RenameHistory;
}.
#[export] Instance RegState_eta : Updatable RegState := λ r, MkRegState (rs_heap r) (scoreboard r)
  (freeList r) (rs_taint r) (renameMap r) (historyBuffer r).

Section regs.
Context (rf : PhysRegFile) (x87_top : nat → Z) (curCycle : Z).
Implicit Types (s : RegState).

(** ** Sources *)
(** One iteration of [renameSrcRegs]; the statistics switch knows no vector elements. *)
Definition renameOneSrc (p : InstPtr) (tid : nat) s (src_idx : nat) : res RegState :=
  inst ← deref (rs_heap s !! p);
  src_reg ← deref (srcRegs (staticInst inst) !! src_idx);
  renamed_reg ← rm_lookup rf (flattenRegId (x87_top (threadNumber inst)) src_reg) (renameMap s tid);
  _ ← panic_if (bool_decide (regClass src_reg = VecElemClass));
  let inst := renameSrcReg src_idx renamed_reg inst in
  ready ← getReg renamed_reg (scoreboard s);
  inst ← (if (ready : bool) then markSrcRegReady_idx curCycle src_idx inst else Ok inst);
  Ok (s <| rs_heap ::= <[p := inst]> |>).
Definition renameSrcRegs (p : InstPtr) (tid : nat) s : res RegState :=
  inst ← deref (rs_heap s !! p);
  mfold (renameOneSrc p tid) s (seq 0 (Z.to_nat (numSrcRegs inst))).

(** ** Destinations *)
Definition renameOneDest (p : InstPtr) (tid : nat) s (dest_idx : nat) : res RegState :=
  inst ← deref (rs_heap s !! p);
  dest_reg ← deref (destRegs (staticInst inst) !! dest_idx);
  let flat_dest_regid := flattenRegId (x87_top (threadNumber inst)) dest_reg in
  '(new, prev, m, f) ← rm_rename rf flat_dest_regid (renameMap s tid) (freeList s);
  let inst := flattenDestReg dest_idx flat_dest_regid inst in
  sb ← unsetReg new (scoreboard s);
  let hb_entry := MkRenameHistory (seqNum inst) flat_dest_regid new prev in
  let inst := renameDestReg dest_idx new prev inst in
  Ok (s <| rs_heap ::= <[p := inst]> |> <| scoreboard := sb |> <| freeList := f |>
        <| renameMap ::= <[tid := m]> |>
        <| historyBuffer ::= <[tid := hb_entry :: historyBuffer s tid]> |>).
Definition renameDestRegs (p : InstPtr) (tid : nat) s : res RegState :=
  inst ← deref (rs_heap s !! p);
  mfold (renameOneDest p tid) s (seq 0 (Z.to_nat (numDestRegs inst))).

(** ** Squash *)
(** Undo one rename; a register that was not really renamed is left alone. *)
Definition undoRename (tid : nat) (e : RenameHistory) s : res RegState :=
  if decide (newPhysReg e = prevPhysReg e) then Ok s
  else
    m ← rm_setEntry rf (archReg e) (prevPhysReg e) (renameMap s tid);
    '(f, t) ← addReg (newPhysReg e) (freeList s) (rs_taint s);
    Ok (s <| renameMap ::= <[tid := m]> |> <| freeList := f |> <| rs_taint := t |>).
(** The loop of [doSquash] from the front of the history [hb]. *)
Fixpoint rn_squash_loop (squashed_seq_num : Z) (tid : nat) (hb : list RenameHistory) s : res RegState :=
  match hb with
  | [] => Ok s
  | e :: hb' =>
      if squashed_seq_num <? instSeqNum e then
        s ← undoRename tid e s;
        rn_squash_loop squashed_seq_num tid hb' (s <| historyBuffer ::= <[tid := hb']> |>)
      else Ok s
  end.
Definition rn_doSquash (squashed_seq_num : Z) (tid : nat) s : res RegState :=
  rn_squash_loop squashed_seq_num tid (historyBuffer s tid) s.

(** ** Commit *)
(** Release the register a committed rename replaced. *)
Definition freePrev (e : RenameHistory) s : res RegState :=
  if decide (newPhysReg e = prevPhysReg e) then Ok s
  else
    '(f, t) ← addReg (prevPhysReg e) (freeList s) (rs_taint s);
    Ok (s <| freeList := f |> <| rs_taint := t |>).
(** The loop of [removeFromHistory] from the back; [back] is the history, oldest first. *)
Fixpoint removeFromHistory_loop (inst_seq_num : Z) (tid : nat) (back : list RenameHistory) s : res RegState :=
  match back with
  | [] => Ok s
  | e :: back' =>
      if instSeqNum e <=? inst_seq_num then
        s ← freePrev e s;
        removeFromHistory_loop inst_seq_num tid back' (s <| historyBuffer ::= <[tid := reverse back']> |>)
      else Ok s
  end.
Definition removeFromHistory (inst_seq_num : Z) (tid : nat) s : res RegState :=
  removeFromHistory_loop inst_seq_num tid (reverse (historyBuffer s tid)) s.
End regs.
