(* ===== verification/RenameInv.v ===== *)
(** * No register is lost, none is used twice

    The invariant of renaming: the free registers, the mapped registers of all threads
    and the previous mappings their histories still remember are together exactly the
    physical registers, each once; and the history of a thread explains how its map came
    about from an older map ([history_ok]).  Each operation of [RenameRegs.v] keeps it. *)

From S2P Require Import Prelude Regs DynInst Scoreboard FreeList RenameMap.
Local Open Scope Z_scope.

(** ** Histories *)
Definition real (e : RenameHistory) : bool := bool_decide (newPhysReg e ≠ prevPhysReg e).

(** [m] is [base] with the renames of the history applied, oldest first. *)
Inductive history_ok (rf : PhysRegFile) (base : UnifiedRenameMap) : list RenameHistory → UnifiedRenameMap → Prop :=
| history_nil : history_ok rf base [] base
| history_same e hb m :
    real e = false → history_ok rf base hb m → pinned_in m (archReg e) = true →
    rm_setEntry rf (archReg e) (newPhysReg e) m = Ok m →
    (regClass (archReg e) = MiscRegClass ∨ isZeroPhysReg (newPhysReg e) = true) → history_ok rf base (e :: hb) m
| history_real e hb m :
    real e = true → history_ok rf base hb m → pinned_in m (archReg e) = false → entry m (archReg e) = Some (prevPhysReg e) →
    0 ≤ RegId_flatIndex (archReg e) → regClass (archReg e) ≠ VecElemClass →
    regClass (pr_reg (newPhysReg e)) = regClass (archReg e) →
    regClass (pr_reg (prevPhysReg e)) = regClass (archReg e) →
    history_ok rf base (e :: hb) (update (archReg e) (newPhysReg e) m).

(** The mappings a history remembers. *)
Definition hist_prevs (hb : list RenameHistory) : list PhysRegId :=
  prevPhysReg <$> filter (λ e, real e = true) hb.

Lemma hist_prevs_cons (e : RenameHistory) (hb : list RenameHistory) :
  hist_prevs (e :: hb) = if real e then prevPhysReg e :: hist_prevs hb else hist_prevs hb.
Proof.
  unfold hist_prevs. destruct (real e) eqn:E.
  - by rewrite filter_cons_True.
  - rewrite filter_cons_False; [done|]. by rewrite E.
Qed.
Lemma hist_prevs_app (h1 h2 : list RenameHistory) : hist_prevs (h1 ++ h2) = hist_prevs h1 ++ hist_prevs h2.
Proof. unfold hist_prevs. by rewrite list.filter_app, fmap_app. Qed.

Section history.
Context (rf : PhysRegFile).

Lemma history_mode (base m : UnifiedRenameMap) (hb : list RenameHistory) :
  history_ok rf base hb m → vecMode m = vecMode base.
Proof. induction 1; [done|done|]. by rewrite vecMode_update. Qed.

(** The newest rename can be undone. *)
Lemma history_undo (base m : UnifiedRenameMap) (e : RenameHistory) (hb : list RenameHistory) :
  history_ok rf base (e :: hb) m → real e = true →
  entry m (archReg e) = Some (newPhysReg e) ∧ history_ok rf base hb (update (archReg e) (prevPhysReg e) m)
  ∧ 0 ≤ RegId_flatIndex (archReg e) ∧ regClass (archReg e) ≠ VecElemClass
  ∧ regClass (pr_reg (newPhysReg e)) = regClass (archReg e)
  ∧ regClass (pr_reg (prevPhysReg e)) = regClass (archReg e).
Proof.
  inversion 1 as [|? ? ? Hr|? ? m0 Hr Hh _ He H0 Hc Hn Hp]; subst; intros Hreal; [congruence|].
  split; [by rewrite (entry_update _ _ _ _ _ He), decide_True|]. split; [|done].
  rewrite update_twice. by rewrite (update_id _ _ _ He).
Qed.

(** The oldest rename moves into the base. *)
Lemma history_commit (base m : UnifiedRenameMap) (e : RenameHistory) (hb : list RenameHistory) :
  history_ok rf base (hb ++ [e]) m →
  if real e then entry base (archReg e) = Some (prevPhysReg e)
                 ∧ history_ok rf (update (archReg e) (newPhysReg e) base) hb m
  else history_ok rf base hb m.
Proof.
  revert m; induction hb as [|e' hb IH]; intros m Hh; cbn in Hh.
  - inversion Hh as [|? ? ? Hr Hh'|? ? m0 Hr Hh' ? He]; subst; rewrite Hr; inversion Hh'; subst; [constructor|].
    split; [done|constructor].
  - inversion Hh as [|? ? ? Hr Hh'|? ? m0 Hr Hh' ? He]; subst; specialize (IH _ Hh');
      destruct (real e); try (destruct IH as [? IH]; split; [done|]); by constructor.
Qed.

(** The map is the base with the history applied, so that a history can be cut anywhere. *)
Definition commit_one (e : RenameHistory) (m : UnifiedRenameMap) : UnifiedRenameMap :=
  if real e then update (archReg e) (newPhysReg e) m else m.

Lemma history_fold (base m : UnifiedRenameMap) (hb : list RenameHistory) :
  history_ok rf base hb m → m = foldr commit_one base hb.
Proof.
  induction 1 as [|e hb m Hr Hh IH|e hb m Hr Hh IH]; cbn; [done|..]; unfold commit_one at 1; rewrite Hr; congruence.
Qed.

Lemma history_split (base m : UnifiedRenameMap) (h1 h2 : list RenameHistory) :
  history_ok rf base (h2 ++ h1) m →
  history_ok rf base h1 (foldr commit_one base h1) ∧ history_ok rf (foldr commit_one base h1) h2 m.
Proof.
  revert m; induction h2 as [|e h2 IH]; intros m Hh; cbn in Hh.
  - pose proof (history_fold _ _ _ Hh) as <-. split; [done|constructor].
  - inversion Hh as [|? ? ? Hr Hh'|? ? m0 Hr Hh']; subst; apply IH in Hh' as [Ha Hb]; (split; [done|]).
    + by apply history_same.
    + by apply history_real.
Qed.

(** Seen from the other end: the base and the renames allocate what the map and the
    remembered mappings hold. *)
Definition hist_news (hb : list RenameHistory) : list PhysRegId :=
  newPhysReg <$> filter (λ e, real e = true) hb.
Lemma hist_news_cons (e : RenameHistory) (hb : list RenameHistory) :
  hist_news (e :: hb) = if real e then newPhysReg e :: hist_news hb else hist_news hb.
Proof.
  unfold hist_news. destruct (real e) eqn:E.
  - by rewrite filter_cons_True.
  - rewrite filter_cons_False; [done|]. by rewrite E.
Qed.

Lemma history_balance (base m : UnifiedRenameMap) (hb : list RenameHistory) :
  history_ok rf base hb m → mapped base ++ hist_news hb ≡ₚ mapped m ++ hist_prevs hb.
Proof.
  induction 1 as [|e hb m Hr Hh IH|e hb m Hr Hh IH ? He]; [done|..]; rewrite hist_news_cons, hist_prevs_cons, Hr; [done|].
  pose proof (mapped_update _ _ _ (newPhysReg e) He) as Hmp.
  rewrite <- !Permutation_middle, IH, !app_comm_cons, Hmp. done.
Qed.

(** What a history remembers is a register of a class that has a free list. *)
Lemma history_prev_class (base m : UnifiedRenameMap) (e : RenameHistory) (hb : list RenameHistory) :
  history_ok rf base (hb ++ [e]) m → real e = true → regClass (pr_reg (prevPhysReg e)) ≠ MiscRegClass.
Proof.
  revert m; induction hb as [|e' hb IH]; intros m Hh Hr; cbn in Hh;
    inversion Hh as [|? ? ? Hr'|? ? m0 Hr' Hh' ? He H0 Hc Hn Hp]; subst; eauto; [congruence|].
  rewrite Hp. intros Hm. apply entry_Some in He as (sm & Hsm & _). by rewrite Hm in Hsm.
Qed.

End history.

(** Histories are ordered, youngest first. *)
Fixpoint hist_sorted (hb : list RenameHistory) : Prop :=
  match hb with
  | [] => True
  | e :: hb' => (∀ e', e' ∈ hb' → instSeqNum e' ≤ instSeqNum e) ∧ hist_sorted hb'
  end.

Lemma hist_sorted_app (h1 h2 : list RenameHistory) : hist_sorted (h1 ++ h2) → hist_sorted h1 ∧ hist_sorted h2.
Proof.
  induction h1 as [|e h1 IH]; cbn; [done|]. intros [Hle Hs]. apply IH in Hs as [Hs1 Hs2].
  split; [|done]. split; [|done]. intros e' He'. apply Hle. apply elem_of_app. by left.
Qed.

(** ** The registers *)
Section inv.
Context (rf : PhysRegFile) (n : nat).
Implicit Types (s : RegState) (B : nat → UnifiedRenameMap).

Definition held s (tid : nat) : list PhysRegId :=
  mapped (renameMap s tid) ++ hist_prevs (historyBuffer s tid).
Definition regs_of s : list PhysRegId := all_free (freeList s) ++ mjoin (held s <$> seq 0 n).

(** [B tid] is the map the history of [tid] starts from: the committed one. *)
Record rename_inv (B : nat → UnifiedRenameMap) (U : list PhysRegId) s : Prop := {
  rn_all : regs_of s ≡ₚ U;
  rn_nodup : NoDup U;
  rn_hist : ∀ tid, (tid < n)%nat → history_ok rf (B tid) (historyBuffer s tid) (renameMap s tid);
  rn_mode : ∀ tid, (tid < n)%nat → vecMode (renameMap s tid) = Full;
  rn_class : ∀ tid a p, (tid < n)%nat → entry (renameMap s tid) a = Some p → regClass (pr_reg p) = regClass a;
  rn_free : fl_wf (freeList s);
  rn_sorted : ∀ tid, (tid < n)%nat → hist_sorted (historyBuffer s tid);
}.

(** Two states that differ in one thread only. *)
Definition same_but (tid : nat) s s' : Prop :=
  ∀ t, t ≠ tid → renameMap s' t = renameMap s t ∧ historyBuffer s' t = historyBuffer s t.

Lemma held_split (tid : nat) :
  (tid < n)%nat → ∃ rest, tid ∉ rest ∧ (∀ t, (t < n)%nat → t ≠ tid → t ∈ rest)
    ∧ ∀ g : nat → list PhysRegId, mjoin (g <$> seq 0 n) ≡ₚ g tid ++ mjoin (g <$> rest).
Proof.
  intros Ht. assert (Hin : tid ∈ seq 0 n) by (apply elem_of_seq; lia).
  apply list_elem_of_split in Hin as (l1 & l2 & El). exists (l1 ++ l2).
  pose proof (NoDup_seq 0 n) as Hnd. rewrite El in Hnd. apply list.NoDup_app in Hnd as (_ & Hd & Hnd).
  split_and!.
  - apply not_elem_of_app. split; [intros H1; apply (Hd tid H1); left|]. by inversion_clear Hnd.
  - intros t Ht' Hne. assert (Hin : t ∈ seq 0 n) by (apply elem_of_seq; lia). rewrite El in Hin.
    apply elem_of_app. apply elem_of_app in Hin as [?|[?|?]%elem_of_cons]; [by left|done|by right].
  - intros g. rewrite El, !fmap_app, fmap_cons, !join_app. cbn. solve_Permutation.
Qed.

(** Moving registers within a thread and the free list keeps the total. *)
Lemma regs_of_move (tid : nat) s s' :
  (tid < n)%nat → same_but tid s s' →
  all_free (freeList s') ++ held s' tid ≡ₚ all_free (freeList s) ++ held s tid →
  regs_of s' ≡ₚ regs_of s.
Proof.
  intros Ht Hsame Hp. unfold regs_of. destruct (held_split tid Ht) as (rest & Hr & _ & Hg).
  rewrite (Hg (held s')), (Hg (held s)), !app_assoc, Hp. f_equiv.
  assert (held s' <$> rest = held s <$> rest) as ->; [|done].
  apply list_fmap_ext. intros i t Hi. unfold held. destruct (Hsame t) as [-> ->]; [|done].
  intros ->. apply Hr. by eapply list_elem_of_lookup_2.
Qed.

Lemma free_not_held B (U : list PhysRegId) s (tid : nat) (r : PhysRegId) :
  rename_inv B U s → r ∈ all_free (freeList s) → (tid < n)%nat → r ∉ held s tid.
Proof.
  intros [Hall Hnd _ _ _ _ _] Hr Ht Hh. rewrite <- Hall in Hnd. apply list.NoDup_app in Hnd as (_ & Hd & _).
  apply (Hd r Hr). destruct (held_split tid Ht) as (rest & _ & _ & ->). apply elem_of_app. by left.
Qed.

Lemma rename_inv_move B B' (U : list PhysRegId) (tid : nat) s s' :
  rename_inv B U s → (tid < n)%nat → same_but tid s s' → (∀ t, t ≠ tid → B' t = B t) →
  all_free (freeList s') ++ held s' tid ≡ₚ all_free (freeList s) ++ held s tid →
  history_ok rf (B' tid) (historyBuffer s' tid) (renameMap s' tid) →
  vecMode (renameMap s' tid) = Full →
  (∀ a p, entry (renameMap s' tid) a = Some p → regClass (pr_reg p) = regClass a) →
  fl_wf (freeList s') → hist_sorted (historyBuffer s' tid) → rename_inv B' U s'.
Proof.
  intros [Hall Hnd Hh Hm Hc Hf Hs] Ht Hsame HB Hp Hh' Hm' Hc' Hf' Hs'.
  split; [|done|..|done|]; [by rewrite (regs_of_move tid s s')|..].
  all: intros t; destruct (decide (t = tid)) as [->|Hne]; [intros; by eauto|].
  all: destruct (Hsame t Hne) as [E1 E2]; rewrite ?E1, ?E2, ?HB by done.
  - apply Hh.
  - apply Hm.
  - apply Hc.
  - apply Hs.
Qed.

Lemma rename_inv_base B B' (U : list PhysRegId) s :
  (∀ t, B' t = B t) → rename_inv B U s → rename_inv B' U s.
Proof. intros HB [Hall Hnd Hh Hm Hc Hf Hs]. split; try done. intros t Ht. rewrite HB. by apply Hh. Qed.

(** Changes of the instructions and the scoreboard do not matter. *)
Lemma rename_inv_ext B (U : list PhysRegId) s s' :
  rename_inv B U s → freeList s' = freeList s → renameMap s' = renameMap s → historyBuffer s' = historyBuffer s →
  rename_inv B U s'.
Proof.
  intros [Hall Hnd Hh Hm Hc Hf Hs] E1 E2 E3. split; rewrite ?E1, ?E2, ?E3; try done.
  unfold regs_of, held. by rewrite E1, E2, E3.
Qed.
End inv.

(** ** The operations *)
Section ops.
Context (rf : PhysRegFile) (x87_top : nat → Z) (cyc : Z) (n : nat).
Implicit Types (s : RegState) (B : nat → UnifiedRenameMap) (U : list PhysRegId).

Lemma renameOneSrc_frame (p : InstPtr) (tid : nat) s s' (i : nat) :
  renameOneSrc rf x87_top cyc p tid s i = Ok s' →
  ∃ d d', rs_heap s !! p = Some d ∧ s' = s <| rs_heap ::= <[p := d']> |>
    ∧ seqNum d' = seqNum d ∧ staticInst d' = staticInst d ∧ threadNumber d' = threadNumber d.
Proof.
  unfold renameOneSrc. intros E. apply bind_ok in E as (d & Hd%deref_ok & E).
  apply bind_ok in E as (r & _ & E). apply bind_ok in E as (pr & _ & E). apply bind_ok in E as (u & _ & E).
  cbn zeta in E. apply bind_ok in E as (b & _ & E). apply bind_ok in E as (d' & Hd' & E). injection E as <-.
  exists d, d'. split; [done|]. split; [done|]. destruct b; [|by injection Hd' as <-].
  unfold markSrcRegReady_idx, markSrcRegReady in Hd'. cbn zeta in Hd'. apply bind_ok in Hd' as (u' & _ & Hd').
  injection Hd' as <-. by destruct (_ =? _).
Qed.

Lemma rename_src_inv B U (p : InstPtr) (tid : nat) s s' :
  rename_inv rf n B U s → renameSrcRegs rf x87_top cyc p tid s = Ok s' → rename_inv rf n B U s'.
Proof.
  intros Hinv E. unfold renameSrcRegs in E. apply bind_ok in E as (d & _ & E).
  eapply (mfold_inv (rename_inv rf n B U)); [|exact Hinv|exact E]. intros s1 i s2 _ Hinv1 E1.
  apply renameOneSrc_frame in E1 as (? & d' & _ & -> & _). by eapply rename_inv_ext.
Qed.

(** Renaming one destination. *)
Lemma renameOneDest_ok (p : InstPtr) (tid : nat) s s' (i : nat) :
  renameOneDest rf x87_top p tid s i = Ok s' →
  ∃ d d' e m f sb, rs_heap s !! p = Some d ∧ rs_heap s' = <[p := d']> (rs_heap s)
    ∧ seqNum d' = seqNum d ∧ staticInst d' = staticInst d ∧ threadNumber d' = threadNumber d
    ∧ instSeqNum e = seqNum d
    ∧ rm_rename rf (archReg e) (renameMap s tid) (freeList s) = Ok (newPhysReg e, prevPhysReg e, m, f)
    ∧ unsetReg (newPhysReg e) (scoreboard s) = Ok sb
    ∧ destRegIdx_ d' = <[i := newPhysReg e]> (destRegIdx_ d)
    ∧ s' = s <| rs_heap := rs_heap s' |> <| scoreboard := sb |> <| freeList := f |>
             <| renameMap ::= <[tid := m]> |> <| historyBuffer ::= <[tid := e :: historyBuffer s tid]> |>.
Proof.
  unfold renameOneDest. intros E. apply bind_ok in E as (d & Hd%deref_ok & E).
  apply bind_ok in E as (r & _ & E). cbn zeta in E. apply bind_ok in E as ([[[new prev] m] f] & Hr & E).
  apply bind_ok in E as (sb & Hsb & E). injection E as <-.
  eexists d, _, (MkRenameHistory (seqNum d) _ new prev), m, f, sb. cbn. done.
Qed.

Lemma rename_one_inv B U (p : InstPtr) (tid : nat) s s' (i : nat) (d : DynInst) :
  rename_inv rf n B U s → (tid < n)%nat → rs_heap s !! p = Some d →
  (∀ e, e ∈ historyBuffer s tid → instSeqNum e ≤ seqNum d) →
  renameOneDest rf x87_top p tid s i = Ok s' → rename_inv rf n B U s'.
Proof.
  intros Hinv Ht Hd Hseq (d0 & d' & e & m & f & sb & Hd0 & Hh & _ & _ & _ & He & Hr & _ & _ & Es)%renameOneDest_ok.
  simplify_eq. assert (Hsame : same_but tid s s').
  { rewrite Es. intros t Hne. cbn. by rewrite !fn_lookup_insert_ne. }
  assert (Em : renameMap s' tid = m) by (rewrite Es; cbn; by rewrite fn_lookup_insert).
  assert (Eh : historyBuffer s' tid = e :: historyBuffer s tid) by (rewrite Es; cbn; by rewrite fn_lookup_insert).
  assert (Ef : freeList s' = f) by (by rewrite Es). clear Es.
  pose proof (rn_mode _ _ _ _ _ Hinv tid Ht) as Hv. pose proof (rn_hist _ _ _ _ _ Hinv tid Ht) as Hb.
  assert (Hsort : hist_sorted (e :: historyBuffer s tid)).
  { split; [intros x Hx; rewrite He; by apply Hseq|by apply (rn_sorted _ _ _ _ _ Hinv)]. }
  destruct (rm_rename_ok rf _ _ _ _ _ _ _ Hv Hr (λ q, rn_class _ _ _ _ _ Hinv tid _ q Ht)) as [(Hpin & E1 & -> & -> & Hset & Hmz)|(Hpin & Hne & H0 & Hent & -> & Hg)].
  - assert (Hreal : real e = false) by (unfold real; by rewrite bool_decide_false by tauto).
    eapply (rename_inv_move rf n B B U tid s); rewrite ?Em, ?Eh, ?Ef; try done.
    + unfold held. by rewrite Em, Eh, hist_prevs_cons, Hreal.
    + by constructor.
    + intros a q. by apply (rn_class _ _ _ _ _ Hinv).
    + apply (rn_free _ _ _ _ _ Hinv).
  - destruct (getClassReg_wf _ _ _ _ (rn_free _ _ _ _ _ Hinv) Hg) as [Hwf Hcls].
    apply getClassReg_ok in Hg as (_ & _ & _ & Hperm).
    assert (Hreal : real e = true).
    { unfold real. apply bool_decide_eq_true. intros E1.
      apply (free_not_held rf n B U s tid (newPhysReg e) Hinv); [rewrite Hperm; left|done|].
      unfold held. apply elem_of_app. left. rewrite E1. by eapply entry_in_mapped. }
    eapply (rename_inv_move rf n B B U tid s); rewrite ?Em, ?Eh, ?Ef; try done.
    + unfold held. rewrite Em, Eh, hist_prevs_cons, Hreal, Hperm.
      pose proof (mapped_update _ _ _ (newPhysReg e) Hent) as Hmp. cbn [app].
      rewrite <- (Permutation_middle (mapped _)), app_comm_cons, Hmp. cbn [app].
      by rewrite <- Permutation_middle.
    + apply history_real; try done. by apply (rn_class _ _ _ _ _ Hinv tid).
    + by rewrite vecMode_update.
    + intros a q Ha. rewrite (entry_update _ _ _ _ _ Hent) in Ha. case_decide as Hs.
      * destruct Hs as [Hs _]. injection Ha as <-. congruence.
      * by apply (rn_class _ _ _ _ _ Hinv tid).
Qed.
(** What renaming the destinations of an instruction does to the thread's history and
    leaves alone elsewhere. *)
Lemma renameDests_frame (p : InstPtr) (tid : nat) (l : list nat) : ∀ s s' (d : DynInst),
  rs_heap s !! p = Some d → mfold (renameOneDest rf x87_top p tid) s l = Ok s' →
  same_but tid s s' ∧ (∃ es, historyBuffer s' tid = es ++ historyBuffer s tid ∧ length es = length l
                            ∧ ∀ e, e ∈ es → instSeqNum e = seqNum d).
Proof.
  induction l as [|i l IH]; intros s s' d Hd E; cbn [mfold] in E.
  { injection E as <-. split; [done|]. exists []. split; [done|]. split; [done|]. set_solver. }
  apply bind_ok in E as (s1 & E1 & E).
  apply renameOneDest_ok in E1 as (d0 & d' & e & m & f & sb & Hd0 & Hh & Hs & _ & _ & He & _ & _ & _ & Es).
  simplify_eq. destruct (IH s1 s' d') as (Hsame & es & Eh & El & Hes); [by rewrite Hh, lookup_insert_eq|done|].
  assert (Eh1 : historyBuffer s1 tid = e :: historyBuffer s tid) by (rewrite Es; cbn; by rewrite fn_lookup_insert).
  split.
  - intros t Hne. destruct (Hsame t Hne) as [-> ->]. rewrite Es. cbn. by rewrite !fn_lookup_insert_ne.
  - exists (es ++ [e]). rewrite Eh, Eh1, <- app_assoc. split; [done|]. rewrite length_app, El. cbn. split; [lia|].
    intros x [Hx|Hx]%elem_of_app; [rewrite <- Hs; by apply Hes|].
    apply list_elem_of_singleton in Hx. by subst.
Qed.

Lemma rename_dests_inv B U (p : InstPtr) (tid : nat) (l : list nat) : ∀ s s' (d : DynInst),
  rename_inv rf n B U s → (tid < n)%nat → rs_heap s !! p = Some d →
  (∀ e, e ∈ historyBuffer s tid → instSeqNum e ≤ seqNum d) →
  mfold (renameOneDest rf x87_top p tid) s l = Ok s' → rename_inv rf n B U s'.
Proof.
  induction l as [|i l IH]; intros s s' d Hinv Ht Hd Hseq E; cbn [mfold] in E; [by injection E as <-|].
  apply bind_ok in E as (s1 & E1 & E). pose proof (rename_one_inv B U p tid s s1 i d Hinv Ht Hd Hseq E1) as Hinv1.
  apply renameOneDest_ok in E1 as (d0 & d' & e & m & f & sb & Hd0 & Hh & Hs & _ & _ & He & _ & _ & _ & Es).
  simplify_eq. eapply (IH s1 s' d'); [done|done|by rewrite Hh, lookup_insert_eq| |done].
  rewrite Es, Hs. cbn. rewrite fn_lookup_insert. intros x [->|Hx]%elem_of_cons; [lia|by apply Hseq].
Qed.

End ops.

Section ends.
Context (rf : PhysRegFile) (n : nat).
Implicit Types (s : RegState) (B : nat → UnifiedRenameMap) (U : list PhysRegId).

(** Undoing the newest rename of a thread. *)
Lemma undo_ok B U (tid : nat) (e : RenameHistory) (hb : list RenameHistory) s :
  rename_inv rf n B U s → (tid < n)%nat → historyBuffer s tid = e :: hb →
  ∃ s', undoRename rf tid e s = Ok s' ∧ rename_inv rf n B U (s' <| historyBuffer ::= <[tid := hb]> |>)
    ∧ historyBuffer s' = historyBuffer s ∧ rs_heap s' = rs_heap s ∧ scoreboard s' = scoreboard s
    ∧ same_but tid s s'.
Proof.
  intros Hinv Ht Eh. unfold undoRename. pose proof (rn_hist _ _ _ _ _ Hinv tid Ht) as Hb.
  pose proof (rn_sorted _ _ _ _ _ Hinv tid Ht) as Hsort. rewrite Eh in Hsort. destruct Hsort as [_ Hsort].
  rewrite Eh in Hb. case_decide as Hd.
  - assert (Hreal : real e = false) by (unfold real; by rewrite bool_decide_false by tauto).
    exists s. split; [done|]. split; [|done].
    eapply (rename_inv_move rf n B B U tid s); cbn; rewrite ?fn_lookup_insert; try done.
    + intros t Hne. cbn. by rewrite fn_lookup_insert_ne.
    + unfold held. cbn. by rewrite fn_lookup_insert, Eh, hist_prevs_cons, Hreal.
    + by inversion Hb; subst; [|congruence].
    + by apply (rn_mode _ _ _ _ _ Hinv).
    + intros a q. by apply (rn_class _ _ _ _ _ Hinv).
    + apply (rn_free _ _ _ _ _ Hinv).
  - assert (Hreal : real e = true) by (unfold real; by rewrite bool_decide_true).
    destruct (history_undo _ _ _ _ _ Hb Hreal) as (Hent & Hhb & H0 & Hne & Hcls & Hpc).
    pose proof (rn_mode _ _ _ _ _ Hinv tid Ht) as Hv.
    assert (Hm : regClass (archReg e) ≠ MiscRegClass).
    { intros Hm. apply entry_Some in Hent as (sm & Hsm & _). by rewrite Hm in Hsm. }
    rewrite (rm_setEntry_total rf _ _ (newPhysReg e)); [|by destruct (regClass (archReg e)); cbn; rewrite ?Hv|done..].
    cbn [mbind res_bind]. destruct (addReg_total (newPhysReg e) (freeList s) (rs_taint s)) as [f Ef]; [by rewrite Hcls|].
    rewrite Ef. cbn [mbind res_bind]. eexists. split; [done|]. pose proof (addReg_wf _ _ _ _ _ (rn_free _ _ _ _ _ Hinv) Ef) as Hwf.
    apply addReg_ok in Ef as (_ & _ & _ & Hfp). split; [|split_and!; try done; intros t Ht'; cbn; by rewrite fn_lookup_insert_ne].
    eapply (rename_inv_move rf n B B U tid s); cbn; rewrite ?fn_lookup_insert; try done.
    + intros t Ht'. cbn. by rewrite !fn_lookup_insert_ne.
    + unfold held. cbn. rewrite !fn_lookup_insert, Eh, hist_prevs_cons, Hreal, Hfp.
      pose proof (mapped_update _ _ _ (prevPhysReg e) Hent) as Hmp.
      rewrite <- (Permutation_middle (mapped (renameMap s tid))), app_comm_cons, <- Hmp. cbn [app].
      by rewrite <- Permutation_middle.
    + by rewrite vecMode_update.
    + intros a q Ha. rewrite (entry_update _ _ _ _ _ Hent) in Ha. case_decide as Hs.
      * destruct Hs as [Hs _]. injection Ha as <-. congruence.
      * by apply (rn_class _ _ _ _ _ Hinv tid).
Qed.

(** Releasing the register the oldest rename replaced: the rename moves into the base. *)
Lemma freePrev_ok B U (tid : nat) (e : RenameHistory) (hb : list RenameHistory) s :
  rename_inv rf n B U s → (tid < n)%nat → historyBuffer s tid = hb ++ [e] →
  ∃ s', freePrev e s = Ok s'
    ∧ rename_inv rf n (<[tid := commit_one e (B tid)]> B) U (s' <| historyBuffer ::= <[tid := hb]> |>)
    ∧ renameMap s' = renameMap s ∧ historyBuffer s' = historyBuffer s ∧ rs_heap s' = rs_heap s
    ∧ scoreboard s' = scoreboard s.
Proof.
  intros Hinv Ht Eh. pose proof (rn_hist _ _ _ _ _ Hinv tid Ht) as Hb. rewrite Eh in Hb.
  pose proof (history_commit _ _ _ _ _ Hb) as Hc. pose proof (history_prev_class _ _ _ _ _ Hb) as Hcl.
  pose proof (rn_sorted _ _ _ _ _ Hinv tid Ht) as Hsort. rewrite Eh in Hsort. apply hist_sorted_app in Hsort as [Hsort _].
  unfold freePrev, commit_one, real in *. case_decide as Hd.
  - rewrite bool_decide_false in Hc |- * by tauto. exists s. split; [done|]. split; [|done].
    eapply (rename_inv_move rf n B _ U tid s); cbn; rewrite ?fn_lookup_insert; try done.
    + intros t Hne. cbn. by rewrite fn_lookup_insert_ne.
    + intros t Hne. by rewrite fn_lookup_insert_ne.
    + unfold held. cbn. rewrite fn_lookup_insert, Eh, hist_prevs_app, hist_prevs_cons. unfold real.
      rewrite bool_decide_false by tauto. by rewrite app_nil_r.
    + by apply (rn_mode _ _ _ _ _ Hinv).
    + intros a q. by apply (rn_class _ _ _ _ _ Hinv).
    + apply (rn_free _ _ _ _ _ Hinv).
  - rewrite bool_decide_true in Hc, Hcl |- * by done. destruct Hc as [_ Hc].
    destruct (addReg_total (prevPhysReg e) (freeList s) (rs_taint s)) as [f Ef]; [by apply Hcl|].
    rewrite Ef. cbn [mbind res_bind]. eexists. split; [done|]. split; [|done].
    pose proof (addReg_wf _ _ _ _ _ (rn_free _ _ _ _ _ Hinv) Ef) as Hwf. apply addReg_ok in Ef as (_ & _ & _ & Hfp).
    eapply (rename_inv_move rf n B _ U tid s); cbn; rewrite ?fn_lookup_insert; try done.
    + intros t Hne. cbn. by rewrite !fn_lookup_insert_ne.
    + intros t Hne. by rewrite fn_lookup_insert_ne.
    + unfold held. cbn. rewrite !fn_lookup_insert, Eh, hist_prevs_app, hist_prevs_cons, Hfp. unfold real.
      rewrite bool_decide_true by done. cbn. solve_Permutation.
    + by apply (rn_mode _ _ _ _ _ Hinv).
    + intros a q. by apply (rn_class _ _ _ _ _ Hinv).
Qed.
End ends.
