(* ===== verification/RenameSpec.v ===== *)
(** * What renaming promises

    The contract of the rename stage's register half, and the proof that
    [RenameRegs.v] keeps it.  Abstractly a thread has a committed value location for
    every architectural register and a log of the writes in flight; a source is the
    youngest write to it, or the committed location; a squash drops the young end of the
    log and commit moves the old end into the committed locations.  Renaming an
    instruction logs its writes with locations nobody uses. *)

From S2P Require Import Prelude Regs DynInst Scoreboard FreeList RenameMap RenameInv.
Local Open Scope Z_scope.

(** The age of an instruction. *)
Definition seq_of (h : heap) (p : InstPtr) : Z := from_option seqNum 0 (h !! p).

(** ** The two ends of the history *)
Definition younger (n : Z) (e : RenameHistory) : Prop := n < instSeqNum e.
#[export] Instance younger_dec (n : Z) (e : RenameHistory) : Decision (younger n e).
Proof. unfold younger. apply _. Defined.

Lemma filter_all {A} (P : A → Prop) `{∀ x, Decision (P x)} (l : list A) :
  (∀ x, x ∈ l → P x) → filter P l = l.
Proof.
  induction l as [|x l IH]; intros HP; [done|]. rewrite filter_cons_True by (apply HP; left).
  f_equal. apply IH. intros y Hy. apply HP. by right.
Qed.
Lemma filter_none {A} (P : A → Prop) `{∀ x, Decision (P x)} (l : list A) :
  (∀ x, x ∈ l → ¬ P x) → filter P l = [].
Proof.
  induction l as [|x l IH]; intros HP; [done|]. rewrite filter_cons_False by (apply HP; left).
  apply IH. intros y Hy. apply HP. by right.
Qed.

Lemma hist_sorted_last (e x : RenameHistory) (hb : list RenameHistory) :
  hist_sorted (hb ++ [e]) → x ∈ hb → instSeqNum e ≤ instSeqNum x.
Proof.
  induction hb as [|y hb IH]; cbn; [by intros _ ?%not_elem_of_nil|]. intros [Hle Hs] [->|Hx]%elem_of_cons.
  - apply Hle. apply elem_of_app. right. by apply list_elem_of_singleton.
  - by apply IH.
Qed.

Section ends.
Context (rf : PhysRegFile) (n : nat).
Implicit Types (s : RegState) (B : nat → UnifiedRenameMap) (U : list PhysRegId).

(** A squash succeeds, keeps the invariant, and leaves the older part of the history. *)
Lemma rn_squash_loop_ok B U (sn : Z) (tid : nat) (hb : list RenameHistory) : ∀ s,
  rename_inv rf n B U s → (tid < n)%nat → historyBuffer s tid = hb →
  ∃ s', rn_squash_loop rf sn tid hb s = Ok s' ∧ rename_inv rf n B U s'
    ∧ historyBuffer s' tid = filter (λ e, ¬ younger sn e) hb
    ∧ rs_heap s' = rs_heap s ∧ scoreboard s' = scoreboard s ∧ same_but tid s s'.
Proof.
  induction hb as [|e hb IH]; intros s Hinv Ht Eh; cbn [rn_squash_loop].
  { exists s. by rewrite Eh. }
  destruct (Z.ltb_spec sn (instSeqNum e)) as [Hy|Hy].
  - destruct (undo_ok rf n B U tid e hb s Hinv Ht Eh) as (s1 & -> & Hinv1 & Eh1 & Ehp & Esb & Hsame). cbn [mbind res_bind].
    destruct (IH _ Hinv1 Ht) as (s' & -> & Hinv' & Eh' & Ehp' & Esb' & Hsame'); [cbn; by rewrite fn_lookup_insert|].
    exists s'. split; [done|]. split; [done|]. split.
    + rewrite Eh', filter_cons_False; [done|]. unfold younger. lia.
    + rewrite Ehp', Esb'. split_and!; [done..|]. intros t Hne. destruct (Hsame' t Hne) as [-> ->]. cbn.
      rewrite fn_lookup_insert_ne by done. by apply Hsame.
  - exists s. split_and!; try done. rewrite filter_all; [done|].
    pose proof (rn_sorted _ _ _ _ _ Hinv tid Ht) as Hs. rewrite Eh in Hs. destruct Hs as [Hle _].
    intros x [->|Hx]%elem_of_cons; unfold younger; [lia|]. specialize (Hle x Hx). lia.
Qed.

(** Commit succeeds, moves the older part of the history into the base and leaves the maps. *)
Lemma commit_loop_ok U (sn : Z) (tid : nat) (back : list RenameHistory) : ∀ B s,
  rename_inv rf n B U s → (tid < n)%nat → historyBuffer s tid = reverse back →
  ∃ s', removeFromHistory_loop sn tid back s = Ok s'
    ∧ rename_inv rf n (<[tid := foldr commit_one (B tid) (filter (λ e, ¬ younger sn e) (reverse back))]> B) U s'
    ∧ historyBuffer s' tid = filter (younger sn) (reverse back)
    ∧ renameMap s' = renameMap s ∧ rs_heap s' = rs_heap s ∧ scoreboard s' = scoreboard s ∧ same_but tid s s'.
Proof.
  induction back as [|e back IH]; intros B s Hinv Ht Eh; cbn [removeFromHistory_loop].
  { exists s. split_and!; try done. eapply rename_inv_base; [|done]. intros t. cbn.
    destruct (decide (t = tid)) as [->|Hne]; [by rewrite fn_lookup_insert|by rewrite fn_lookup_insert_ne]. }
  rewrite reverse_cons in Eh. rewrite reverse_cons, !list.filter_app.
  destruct (Z.leb_spec (instSeqNum e) sn) as [Hy|Hy].
  - destruct (freePrev_ok rf n B U tid e _ s Hinv Ht Eh) as (s1 & -> & Hinv1 & Em1 & Eh1 & Ehp & Esb). cbn [mbind res_bind].
    destruct (IH _ _ Hinv1 Ht) as (s' & -> & Hinv' & Eh' & Em' & Ehp' & Esb' & Hsame'); [cbn; by rewrite fn_lookup_insert|].
    exists s'. rewrite Eh', Em', Ehp', Esb'. split; [done|].
    assert (filter (λ e, ¬ younger sn e) [e] = [e]) as -> by (rewrite filter_all; [done|]; unfold younger; set_solver by lia).
    assert (filter (younger sn) [e] = []) as -> by (rewrite filter_none; [done|]; unfold younger; set_solver by lia).
    rewrite app_nil_r, foldr_app. cbn [foldr]. split_and!; try done.
    + eapply rename_inv_base; [|exact Hinv']. intros t.
      destruct (decide (t = tid)) as [->|Hne]; [by rewrite !fn_lookup_insert|by rewrite !fn_lookup_insert_ne].
    + intros t Hne. destruct (Hsame' t Hne) as [-> ->]. cbn. by rewrite fn_lookup_insert_ne, Em1, Eh1.
  - pose proof (rn_sorted _ _ _ _ _ Hinv tid Ht) as Hs. rewrite Eh in Hs.
    assert (Hall : ∀ x, x ∈ reverse back ++ [e] → younger sn x).
    { intros x [Hx|Hx]%elem_of_app; unfold younger; [pose proof (hist_sorted_last _ _ _ Hs Hx); lia|].
      apply list_elem_of_singleton in Hx as ->. lia. }
    exists s. rewrite <- !list.filter_app, (filter_all (younger sn)), (filter_none (λ e, ¬ younger sn e)) by naive_solver.
    split_and!; try done. eapply rename_inv_base; [|done]. intros t. cbn.
    destruct (decide (t = tid)) as [->|Hne]; [by rewrite fn_lookup_insert|by rewrite fn_lookup_insert_ne].
Qed.
End ends.

(** ** The contract *)
Record Write := MkWrite {
  w_seq : Z;
  w_reg : RegId;
  w_loc : PhysRegId;
}.
Record SpecThread := MkSpecThread {
  sp_committed : RegId → option PhysRegId;
  sp_log : list Write;  (* youngest first *)
}.
#[export] Instance SpecThread_eta : Updatable SpecThread := λ r, MkSpecThread (sp_committed r) (sp_log r).

Definition newest (a : RegId) (log : list Write) : option PhysRegId :=
  w_loc <$> head (filter (λ w, same_slot a (w_reg w)) log).
Definition spec_lookup (t : SpecThread) (a : RegId) : option PhysRegId :=
  match newest a (sp_log t) with
  | Some p => Some p
  | None => sp_committed t a
  end.
Definition spec_squash (sn : Z) (t : SpecThread) : SpecThread :=
  t <| sp_log ::= filter (λ w, ¬ (sn < w_seq w)) |>.
Definition spec_commit (sn : Z) (t : SpecThread) : SpecThread :=
  MkSpecThread (spec_lookup (t <| sp_log ::= filter (λ w, ¬ (sn < w_seq w)) |>))
    (filter (λ w, sn < w_seq w) (sp_log t)).

(** What an observer sees: an instruction with its operands and the locations it got, or
    one of the signals from commit. *)
Inductive rn_label :=
| LRename (tid : nat) (seq : Z) (srcs dests : list (RegId * PhysRegId))
| LSquash (tid : nat) (sn : Z)
| LCommit (tid : nat) (sn : Z)
| LOther.

Section contract.
(** The registers that are never renamed. *)
Context (n : nat) (pinned : nat → RegId → bool).

Definition location_used (sp : nat → SpecThread) (p : PhysRegId) : Prop :=
  ∃ tid, (tid < n)%nat ∧ ((∃ a, sp_committed (sp tid) a = Some p) ∨ p ∈ w_loc <$> sp_log (sp tid)).

(** The writes of an instruction, last destination first. *)
Definition writes (tid : nat) (seq : Z) (dests : list (RegId * PhysRegId)) : list Write :=
  (λ '(a, p), MkWrite seq a p) <$> reverse (filter (λ '(a, _), pinned tid a = false) dests).

Inductive spec_step (sp : nat → SpecThread) : rn_label → (nat → SpecThread) → Prop :=
| spec_rename tid seq srcs dests :
    (∀ a p, (a, p) ∈ srcs → regClass a ≠ MiscRegClass → spec_lookup (sp tid) a = Some p) →
    (∀ w, w ∈ writes tid seq dests → ¬ location_used sp (w_loc w)) →
    NoDup (w_loc <$> writes tid seq dests) →
    spec_step sp (LRename tid seq srcs dests) (<[tid := sp tid <| sp_log ::= app (writes tid seq dests) |>]> sp)
| spec_squashes tid sn : spec_step sp (LSquash tid sn) (<[tid := spec_squash sn (sp tid)]> sp)
| spec_commits tid sn : spec_step sp (LCommit tid sn) (<[tid := spec_commit sn (sp tid)]> sp)
| spec_other : spec_step sp LOther sp.
End contract.

(** ** The implementation *)
Section impl.
Context (rf : PhysRegFile) (x87_top : nat → Z) (cyc : Z) (n : nat).
Implicit Types (s : RegState).

(** Operand arrays as the instruction's constructor makes them. *)
Definition operands_wf (d : DynInst) : Prop :=
  length (srcRegIdx_ d) = length (srcRegs (staticInst d))
  ∧ length (destRegIdx_ d) = length (destRegs (staticInst d))
  ∧ length (flatDestRegIdx d) = length (destRegs (staticInst d)).

(** An instruction is renamed in program order; other stages change the instructions, the
    scoreboard and the taint bits. *)
Inductive rn_step s : rn_label → RegState → Prop :=
| step_rename tid p d s1 s2 d' :
    (tid < n)%nat → rs_heap s !! p = Some d → operands_wf d →
    (∀ e, e ∈ historyBuffer s tid → instSeqNum e < seqNum d) →
    renameSrcRegs rf x87_top cyc p tid s = Ok s1 → renameDestRegs rf x87_top p tid s1 = Ok s2 →
    rs_heap s2 !! p = Some d' →
    rn_step s (LRename tid (seqNum d)
                 (zip (flattenRegId (x87_top (threadNumber d)) <$> srcRegs (staticInst d)) (srcRegIdx_ d'))
                 (zip (flattenRegId (x87_top (threadNumber d)) <$> destRegs (staticInst d)) (destRegIdx_ d'))) s2
| step_squash tid sn s' :
    (tid < n)%nat → rn_doSquash rf sn tid s = Ok s' → rn_step s (LSquash tid sn) s'
| step_commit tid sn s' :
    (tid < n)%nat → removeFromHistory sn tid s = Ok s' → rn_step s (LCommit tid sn) s'
| step_other h sb t :
    rn_step s LOther (s <| rs_heap := h |> <| scoreboard := sb |> <| rs_taint := t |>).
End impl.

(** ** Operands *)
Section operands.
Context (rf : PhysRegFile) (x87_top : nat → Z) (cyc : Z).
Implicit Types (s : RegState).

(** The parts of an instruction that renaming sources leaves alone. *)
Definition same_inst (d d' : DynInst) : Prop :=
  seqNum d' = seqNum d ∧ staticInst d' = staticInst d ∧ threadNumber d' = threadNumber d
  ∧ destRegIdx_ d' = destRegIdx_ d ∧ flatDestRegIdx d' = flatDestRegIdx d.

Lemma renameOneSrc_ok (p : InstPtr) (tid i : nat) s s' :
  renameOneSrc rf x87_top cyc p tid s i = Ok s' →
  ∃ d d' a q, rs_heap s !! p = Some d ∧ s' = s <| rs_heap ::= <[p := d']> |> ∧ same_inst d d'
    ∧ srcRegs (staticInst d) !! i = Some a
    ∧ rm_lookup rf (flattenRegId (x87_top (threadNumber d)) a) (renameMap s tid) = Ok q
    ∧ srcRegIdx_ d' = <[i := q]> (srcRegIdx_ d).
Proof.
  unfold renameOneSrc. intros E. apply bind_ok in E as (d & Hd%deref_ok & E).
  apply bind_ok in E as (a & Ha%deref_ok & E). apply bind_ok in E as (q & Hq & E). apply bind_ok in E as (u & _ & E).
  cbn zeta in E. apply bind_ok in E as (b & _ & E). apply bind_ok in E as (d' & Hd' & E). injection E as <-.
  exists d, d', a, q. split_and!; try done; destruct b; try (by injection Hd' as <-);
    unfold markSrcRegReady_idx, markSrcRegReady in Hd'; cbn zeta in Hd'; apply bind_ok in Hd' as (u' & _ & Hd');
    injection Hd' as <-; by destruct (_ =? _).
Qed.

(** Every source gets what the map says. *)
Lemma renameSrc_ok (p : InstPtr) (tid k : nat) s s' (d : DynInst) :
  rs_heap s !! p = Some d → (k ≤ length (srcRegIdx_ d))%nat →
  mfold (renameOneSrc rf x87_top cyc p tid) s (seq 0 k) = Ok s' →
  ∃ d', rs_heap s' = <[p := d']> (rs_heap s) ∧ s' = s <| rs_heap := rs_heap s' |> ∧ same_inst d d'
    ∧ length (srcRegIdx_ d') = length (srcRegIdx_ d)
    ∧ ∀ i a q, (i < k)%nat → srcRegs (staticInst d) !! i = Some a → srcRegIdx_ d' !! i = Some q →
        rm_lookup rf (flattenRegId (x87_top (threadNumber d)) a) (renameMap s tid) = Ok q.
Proof.
  revert s'. induction k as [|k IH]; intros s' Hd Hk E.
  { cbn in E. injection E as <-. exists d. rewrite insert_id by done. split_and!; try done; [by destruct s|lia]. }
  rewrite seq_S, mfold_app in E. apply bind_ok in E as (s1 & E1 & E). cbn in E. apply bind_ok in E as (s2 & E & [= <-]).
  destruct (IH s1 Hd ltac:(lia) E1) as (d1 & Hh1 & Es1 & Hsame & Hl & Hi).
  rewrite Hh1 in Es1. clear Hh1. subst s1.
  apply renameOneSrc_ok in E as (d1' & d' & a & q & Hd1 & -> & Hsame' & Ha & Hq & Hs).
  cbn in Hd1. rewrite lookup_insert_eq in Hd1. injection Hd1 as <-. exists d'. cbn. rewrite insert_insert_eq.
  rewrite Hs, length_insert. split; [done|]. split; [unfold over_field; cbn; by rewrite insert_insert_eq|].
  split; [|split; [done|]].
  - destruct Hsame as (?&?&?&?&?), Hsame' as (?&?&?&?&?). split_and!; congruence.
  - destruct Hsame as (?&Hst&Htn&?&?). intros i b r Hlt Hb Hr. destruct (decide (i = k)) as [->|Hne].
    + rewrite list_lookup_insert_eq in Hr by lia. injection Hr as <-. rewrite Hst, Hb in Ha. injection Ha as <-.
      cbn in Hq. by rewrite Htn in Hq.
    + rewrite list_lookup_insert_ne in Hr by done. apply (Hi i); [lia|done..].
Qed.

(** Every destination is logged with its flat register and location, in order. *)
Lemma renameDest_ok (p : InstPtr) (tid k : nat) s s' (d : DynInst) :
  rs_heap s !! p = Some d → (k ≤ length (destRegIdx_ d))%nat → (k ≤ length (flatDestRegIdx d))%nat →
  mfold (renameOneDest rf x87_top p tid) s (seq 0 k) = Ok s' →
  ∃ d' es, rs_heap s' !! p = Some d' ∧ seqNum d' = seqNum d ∧ staticInst d' = staticInst d
    ∧ threadNumber d' = threadNumber d ∧ srcRegIdx_ d' = srcRegIdx_ d
    ∧ length (destRegIdx_ d') = length (destRegIdx_ d)
    ∧ historyBuffer s' tid = reverse es ++ historyBuffer s tid
    ∧ archReg <$> es = flattenRegId (x87_top (threadNumber d)) <$> take k (destRegs (staticInst d))
    ∧ newPhysReg <$> es = take k (destRegIdx_ d')
    ∧ archReg <$> es = take k (flatDestRegIdx d') ∧ length (flatDestRegIdx d') = length (flatDestRegIdx d)
    ∧ (∀ e, e ∈ es → instSeqNum e = seqNum d)
    ∧ ∀ q, q ≠ p → rs_heap s' !! q = rs_heap s !! q.
Proof.
  revert s'. induction k as [|k IH]; intros s' Hd Hk Hkf E.
  { cbn in E. injection E as <-. exists d, []. split_and!; try done. intros e He%not_elem_of_nil. done. }
  rewrite seq_S, mfold_app in E. apply bind_ok in E as (s1 & E1 & E). cbn in E. apply bind_ok in E as (s2 & E & [= <-]).
  destruct (IH s1 Hd ltac:(lia) ltac:(lia) E1) as (d1 & es & Hh1 & Hq1 & Hst & Htn & Hsrc & Hl & Hhb & Ha & Hn & Hf & Hlf & Hs & Hq).
  unfold renameOneDest in E. rewrite Hh1 in E. cbn [deref mbind res_bind] in E.
  apply bind_ok in E as (r & Hr%deref_ok & E). cbn zeta in E. apply bind_ok in E as ([[[new prev] m] f] & _ & E).
  apply bind_ok in E as (sb & _ & E). injection E as <-.
  eexists _, (es ++ [MkRenameHistory (seqNum d1) _ new prev]). cbn. rewrite lookup_insert_eq, fn_lookup_insert.
  split; [done|]. cbn. rewrite !length_insert. split_and!; try done.
  - rewrite reverse_snoc, Hhb. done.
  - rewrite fmap_app, Ha. cbn. rewrite Hst in Hr. rewrite (take_S_r _ _ _ Hr), fmap_app. cbn. by rewrite Htn.
  - rewrite fmap_app, Hn. cbn. erewrite take_S_r; [|by apply list_lookup_insert_eq; lia].
    by rewrite take_insert_ge by lia.
  - rewrite fmap_app, Hf. cbn. erewrite take_S_r; [|by apply list_lookup_insert_eq; lia].
    by rewrite take_insert_ge by lia.
  - intros e [He|He]%elem_of_app; [by apply Hs|]. by apply list_elem_of_singleton in He as ->.
  - intros q Hne. rewrite lookup_insert_ne by done. by apply Hq.
Qed.
End operands.

(** ** Renaming keeps its contract

    A forward simulation from [rn_step] to [spec_step]: the log is the history, the
    committed locations are the map the history starts from. *)
(** ** The log of a history *)
Definition to_write (e : RenameHistory) : Write := MkWrite (instSeqNum e) (archReg e) (newPhysReg e).
Definition log_of (hb : list RenameHistory) : list Write := to_write <$> filter (λ e, real e = true) hb.

Lemma log_of_cons (e : RenameHistory) (hb : list RenameHistory) :
  log_of (e :: hb) = if real e then to_write e :: log_of hb else log_of hb.
Proof.
  unfold log_of. destruct (real e) eqn:E.
  - by rewrite filter_cons_True.
  - rewrite filter_cons_False; [done|]. by rewrite E.
Qed.
Lemma log_of_app (h1 h2 : list RenameHistory) : log_of (h1 ++ h2) = log_of h1 ++ log_of h2.
Proof. unfold log_of. by rewrite list.filter_app, fmap_app. Qed.
Lemma log_of_locs (hb : list RenameHistory) : w_loc <$> log_of hb = hist_news hb.
Proof. unfold log_of, hist_news. rewrite <- list_fmap_compose. done. Qed.

(** Selecting by sequence number. *)
Lemma log_of_filter (P : RenameHistory → Prop) (Q : Write → Prop) `{∀ e, Decision (P e)} `{∀ w, Decision (Q w)}
    (hb : list RenameHistory) :
  (∀ e, P e ↔ Q (to_write e)) → log_of (filter P hb) = filter Q (log_of hb).
Proof.
  intros HPQ. induction hb as [|e hb IH]; [done|]. rewrite log_of_cons.
  destruct (decide (P e)) as [Hp|Hp]; pose proof Hp as Hq; rewrite HPQ in Hq.
  - rewrite filter_cons_True, log_of_cons by done. destruct (real e); [|done]. by rewrite filter_cons_True, IH.
  - rewrite filter_cons_False by done. destruct (real e); [|done]. by rewrite filter_cons_False, IH.
Qed.

Lemma hist_sorted_split (sn : Z) (hb : list RenameHistory) :
  hist_sorted hb → hb = filter (younger sn) hb ++ filter (λ e, ¬ younger sn e) hb.
Proof.
  induction hb as [|e hb IH]; [done|]. intros [Hle Hs]. destruct (decide (younger sn e)) as [Hy|Hy].
  - rewrite filter_cons_True, (filter_cons_False (λ e, ¬ younger sn e)) by tauto. cbn. f_equal. by apply IH.
  - assert (Hall : ∀ x, x ∈ e :: hb → ¬ younger sn x).
    { intros x [->|Hx]%elem_of_cons; [done|]. specialize (Hle x Hx). unfold younger in *. lia. }
    by rewrite (filter_none (younger sn)), (filter_all (λ e, ¬ younger sn e)).
Qed.

Section lookup.
Context (rf : PhysRegFile).

(** The map shows the newest write of the log, or the base. *)
Lemma history_lookup (base m : UnifiedRenameMap) (hb : list RenameHistory) (a : RegId) :
  history_ok rf base hb m → entry m a = spec_lookup (MkSpecThread (entry base) (log_of hb)) a.
Proof.
  induction 1 as [|e hb m Hr Hh IH|e hb m Hr Hh IH ? He]; [done|..]; rewrite log_of_cons, Hr; [done|].
  rewrite (entry_update _ _ _ _ _ He). unfold spec_lookup, newest in *. cbn [sp_log sp_committed] in *.
  case_decide as Hs; [by rewrite filter_cons_True|]. rewrite filter_cons_False by done. apply IH.
Qed.

Lemma pinned_fold (base : UnifiedRenameMap) (hb : list RenameHistory) (a : RegId) :
  pinned_in (foldr commit_one base hb) a = pinned_in base a.
Proof.
  induction hb as [|e hb IH]; [done|]. cbn. unfold commit_one at 1. destruct (real e); [|done].
  by rewrite pinned_update.
Qed.

(** Exactly the pinned registers are not really renamed. *)
Lemma history_pinned (base m : UnifiedRenameMap) (hb : list RenameHistory) (e : RenameHistory) :
  history_ok rf base hb m → e ∈ hb → real e = negb (pinned_in base (archReg e)).
Proof.
  intros Hh. revert e. induction Hh as [|e hb m Hr Hh IH Hp|e hb m Hr Hh IH Hp]; intros x Hx; [by apply not_elem_of_nil in Hx|..];
    apply elem_of_cons in Hx as [->|Hx]; try (by apply IH); rewrite (history_fold _ _ _ _ Hh), pinned_fold in Hp;
    by rewrite Hp, Hr.
Qed.
End lookup.

(** ** Simulation *)
Section sim.
Context (rf : PhysRegFile) (x87_top : nat → Z) (cyc : Z) (n : nat) (pinned : nat → RegId → bool).
Implicit Types (s : RegState) (B : nat → UnifiedRenameMap) (U : list PhysRegId) (sp : nat → SpecThread).

Record refines B s sp : Prop := {
  ref_committed : ∀ tid a, (tid < n)%nat → sp_committed (sp tid) a = entry (B tid) a;
  ref_log : ∀ tid, (tid < n)%nat → sp_log (sp tid) = log_of (historyBuffer s tid);
  ref_pinned : ∀ tid a, (tid < n)%nat → pinned tid a = pinned_in (B tid) a;
}.

Lemma spec_lookup_ext (t t' : SpecThread) (a : RegId) :
  (∀ b, sp_committed t b = sp_committed t' b) → sp_log t = sp_log t' → spec_lookup t a = spec_lookup t' a.
Proof. intros Hc Hl. unfold spec_lookup. by rewrite Hl, Hc. Qed.

Lemma refines_lookup B U s sp (tid : nat) (a : RegId) :
  rename_inv rf n B U s → refines B s sp → (tid < n)%nat →
  entry (renameMap s tid) a = spec_lookup (sp tid) a.
Proof.
  intros Hinv Href Ht. rewrite (history_lookup rf _ _ _ a (rn_hist _ _ _ _ _ Hinv tid Ht)).
  apply spec_lookup_ext; cbn; [intros b; by rewrite (ref_committed _ _ _ Href)|by rewrite (ref_log _ _ _ Href)].
Qed.

(** The registers, seen from the committed maps. *)
Definition claimed B s (tid : nat) : list PhysRegId := mapped (B tid) ++ hist_news (historyBuffer s tid).

Lemma claimed_held B U s (tid : nat) :
  rename_inv rf n B U s → (tid < n)%nat → claimed B s tid ≡ₚ held s tid.
Proof. intros Hinv Ht. eapply history_balance, rn_hist; done. Qed.

Lemma held_disjoint B U s (t1 t2 : nat) (r : PhysRegId) :
  rename_inv rf n B U s → (t1 < n)%nat → (t2 < n)%nat → r ∈ held s t1 → r ∈ held s t2 → t1 = t2.
Proof.
  intros [Hall Hnd _ _ _ _ _] H1 H2 Hr1 Hr2. destruct (decide (t2 = t1)) as [->|Hne]; [done|exfalso].
  rewrite <- Hall in Hnd. unfold regs_of in Hnd. apply list.NoDup_app in Hnd as (_ & _ & Hnd).
  destruct (held_split n t1 H1) as (rest & _ & Hin & Hg). rewrite Hg in Hnd.
  apply list.NoDup_app in Hnd as (_ & Hd & _). apply (Hd r Hr1). apply list_elem_of_join.
  exists (held s t2). split; [done|]. apply list_elem_of_fmap. eauto.
Qed.

Lemma held_NoDup B U s (tid : nat) : rename_inv rf n B U s → (tid < n)%nat → NoDup (held s tid).
Proof.
  intros [Hall Hnd _ _ _ _ _] H1. rewrite <- Hall in Hnd. unfold regs_of in Hnd. apply list.NoDup_app in Hnd as (_ & _ & Hnd).
  destruct (held_split n tid H1) as (rest & _ & _ & Hg). rewrite Hg in Hnd. by apply list.NoDup_app in Hnd as (? & _ & _).
Qed.

(** Any location in the contract's hands is held. *)
Lemma used_held B U s sp (p : PhysRegId) :
  rename_inv rf n B U s → refines B s sp → location_used n sp p →
  ∃ tid, (tid < n)%nat ∧ p ∈ claimed B s tid.
Proof.
  intros Hinv Href (tid & Ht & Hu). exists tid. split; [done|]. unfold claimed. apply elem_of_app.
  destruct Hu as [[a Ha]|Hl]; [left|right].
  - rewrite (ref_committed _ _ _ Href) in Ha by done. by eapply entry_in_mapped.
  - by rewrite (ref_log _ _ _ Href), log_of_locs in Hl.
Qed.

(** The writes of an instruction are its part of the log. *)
Lemma writes_log B s sp (tid : nat) (seq : Z) (es : list RenameHistory) (m : UnifiedRenameMap) (hb : list RenameHistory) :
  refines B s sp → (tid < n)%nat → history_ok rf (B tid) (reverse es ++ hb) m →
  (∀ e, e ∈ es → instSeqNum e = seq) →
  writes pinned tid seq (zip (archReg <$> es) (newPhysReg <$> es)) = log_of (reverse es).
Proof.
  intros Href Ht Hh Hseq. unfold writes, log_of. rewrite filter_reverse, !fmap_reverse. f_equal.
  assert (Hreal : ∀ e, e ∈ es → real e = negb (pinned tid (archReg e))).
  { intros e He. rewrite (ref_pinned _ _ _ Href) by done. eapply history_pinned; [done|].
    apply elem_of_app. left. by apply elem_of_reverse. }
  clear Hh. induction es as [|e es IH]; [done|]. cbn [fmap list_fmap zip zip_with].
  specialize (IH ltac:(set_solver) ltac:(set_solver)).
  pose proof (Hreal e ltac:(left)) as Hr. destruct (pinned tid (archReg e)) eqn:Ep.
  - rewrite filter_cons_False, (filter_cons_False _ e) by (rewrite ?Ep, ?Hr; done). apply IH.
  - rewrite filter_cons_True, (filter_cons_True _ e) by done. cbn [fmap list_fmap]. rewrite IH. f_equal.
    unfold to_write. by rewrite (Hseq e) by left.
Qed.

Lemma refines_rename B U s s2 sp (tid : nat) (seq : Z) (srcs : list (RegId * PhysRegId)) (es : list RenameHistory) :
  rename_inv rf n B U s → rename_inv rf n B U s2 → refines B s sp → (tid < n)%nat →
  historyBuffer s2 tid = reverse es ++ historyBuffer s tid → same_but tid s s2 →
  (∀ e, e ∈ es → instSeqNum e = seq) →
  (∀ a p, (a, p) ∈ srcs → regClass a ≠ MiscRegClass → entry (renameMap s tid) a = Some p) →
  let l := LRename tid seq srcs (zip (archReg <$> es) (newPhysReg <$> es)) in
  ∃ sp', spec_step n pinned sp l sp' ∧ refines B s2 sp'.
Proof.
  intros Hinv Hinv2 Href Ht Eh Hsame Hseq Hsrc l. pose proof (rn_hist _ _ _ _ _ Hinv2 tid Ht) as Hh. rewrite Eh in Hh.
  pose proof (writes_log _ _ _ _ _ _ _ _ Href Ht Hh Hseq) as Hw.
  pose proof (held_NoDup _ _ _ tid Hinv2 Ht) as Hnd. rewrite <- (claimed_held _ _ _ _ Hinv2 Ht) in Hnd.
  unfold claimed in Hnd. rewrite Eh, <- log_of_locs, log_of_app, fmap_app in Hnd.
  eexists. split.
  - apply spec_rename; rewrite ?Hw.
    + intros a p Hin Hc. rewrite <- (refines_lookup _ _ _ _ _ a Hinv Href Ht). by apply Hsrc.
    + intros w Hwin Hu. destruct (used_held _ _ _ _ _ Hinv Href Hu) as (t & Ht' & Hp).
      assert (Hp2 : w_loc w ∈ claimed B s2 tid).
      { unfold claimed. rewrite Eh, <- log_of_locs, log_of_app, fmap_app. rewrite !elem_of_app. right. left.
        by apply list_elem_of_fmap_2. }
      assert (t = tid) as ->.
      { destruct (decide (t = tid)) as [|Hne]; [done|]. eapply (held_disjoint B U s2 _ _ (w_loc w)); try done.
        - rewrite <- (claimed_held B U) by done. unfold claimed in *. by destruct (Hsame t Hne) as [_ ->].
        - by rewrite <- (claimed_held B U). }
      unfold claimed in Hp. rewrite <- log_of_locs in Hp.
      rewrite (Permutation_app_comm (w_loc <$> log_of (reverse es))), app_assoc in Hnd.
      apply list.NoDup_app in Hnd as (_ & Hd & _). apply (Hd _ Hp). by apply list_elem_of_fmap_2.
    + apply list.NoDup_app in Hnd as (_ & _ & Hnd). by apply list.NoDup_app in Hnd as (? & _ & _).
  - split.
    + intros t a Ht'. destruct (decide (t = tid)) as [->|Hne]; rewrite ?fn_lookup_insert, ?fn_lookup_insert_ne by done;
        by apply (ref_committed _ _ _ Href).
    + intros t Ht'. destruct (decide (t = tid)) as [->|Hne].
      * rewrite fn_lookup_insert, Eh, log_of_app, Hw. cbn. by rewrite (ref_log _ _ _ Href).
      * rewrite fn_lookup_insert_ne by done. destruct (Hsame t Hne) as [_ ->]. by apply (ref_log _ _ _ Href).
    + apply (ref_pinned _ _ _ Href).
Qed.

(** One instruction. *)
Lemma rename_inst_ok B U s s1 s2 (p : InstPtr) (tid : nat) (d d' : DynInst) :
  rename_inv rf n B U s → (tid < n)%nat → rs_heap s !! p = Some d → operands_wf d →
  (∀ e, e ∈ historyBuffer s tid → instSeqNum e < seqNum d) →
  renameSrcRegs rf x87_top cyc p tid s = Ok s1 → renameDestRegs rf x87_top p tid s1 = Ok s2 →
  rs_heap s2 !! p = Some d' →
  rename_inv rf n B U s2 ∧ same_but tid s s2
  ∧ (∀ a q, (a, q) ∈ zip (flattenRegId (x87_top (threadNumber d)) <$> srcRegs (staticInst d)) (srcRegIdx_ d') →
       regClass a ≠ MiscRegClass → entry (renameMap s tid) a = Some q)
  ∧ ∃ es, historyBuffer s2 tid = reverse es ++ historyBuffer s tid ∧ (∀ e, e ∈ es → instSeqNum e = seqNum d)
    ∧ archReg <$> es = flattenRegId (x87_top (threadNumber d)) <$> destRegs (staticInst d)
    ∧ newPhysReg <$> es = destRegIdx_ d' ∧ archReg <$> es = flatDestRegIdx d'
    ∧ seqNum d' = seqNum d ∧ staticInst d' = staticInst d
    ∧ ∀ q, q ≠ p → rs_heap s2 !! q = rs_heap s !! q.
Proof.
  intros Hinv Ht Hd (Hw1 & Hw2 & Hw3) Hyoung E1 E2 Hd'. pose proof (rename_src_inv _ _ _ _ _ _ _ _ _ _ Hinv E1) as Hinv1.
  unfold renameSrcRegs in E1. rewrite Hd in E1. cbn [deref mbind res_bind] in E1. unfold numSrcRegs in E1. rewrite Nat2Z.id in E1.
  destruct (renameSrc_ok rf x87_top cyc p tid (length (srcRegs (staticInst d))) s s1 d Hd ltac:(lia) E1) as (d1 & Hh1 & Es1 & (Hq1 & Hst1 & Htn1 & Hde1 & Hfl1) & Hl1 & Hi).
  assert (Hd1 : rs_heap s1 !! p = Some d1) by (by rewrite Hh1, lookup_insert_eq).
  assert (Em1 : renameMap s1 = renameMap s) by (by rewrite Es1).
  assert (Eh1 : historyBuffer s1 = historyBuffer s) by (by rewrite Es1).
  unfold renameDestRegs in E2. rewrite Hd1 in E2. cbn [deref mbind res_bind] in E2. unfold numDestRegs in E2. rewrite Nat2Z.id in E2.
  rewrite Hst1 in E2.
  destruct (renameDest_ok rf x87_top p tid (length (destRegs (staticInst d))) s1 s2 d1 Hd1 ltac:(rewrite Hde1; lia) ltac:(rewrite Hfl1; lia) E2)
    as (d2 & es & Hd2 & Hq2 & Hst2 & Htn2 & Hsrc2 & Hl2 & Hhb & Ha & Hn & Hf & Hlf & Hs & Hq).
  destruct (renameDests_frame rf x87_top p tid _ s1 s2 d1 Hd1 E2) as [Hsame _]. simplify_eq.
  split; [|split; [|split]].
  - eapply (rename_dests_inv rf x87_top n B U p tid _ s1); try done. rewrite Eh1, Hq1. intros e He. specialize (Hyoung e He). lia.
  - intros t Hne. rewrite <- Em1, <- Eh1. by apply Hsame.
  - intros a q Hin Hc. apply list_elem_of_lookup in Hin as [i Hi'].
    apply lookup_zip_Some in Hi' as [Hfa Hx]. apply list_lookup_fmap_Some in Hfa as (b & -> & Hb).
    apply (rm_lookup_entry rf); [done|]. apply (Hi i); [by apply lookup_lt_Some in Hb|done|by rewrite <- Hsrc2].
  - exists es. rewrite Hhb, Eh1. split_and!; [done| | | | |congruence|congruence|].
    + intros e He. rewrite <- Hq1. by apply Hs.
    + rewrite Ha, Hst1, Htn1, take_ge by lia. done.
    + rewrite Hn, take_ge; [done|]. rewrite Hl2, Hde1. lia.
    + rewrite Hf, take_ge; [done|]. rewrite Hlf, Hfl1. lia.
    + intros q Hne. by rewrite Hq, Hh1, lookup_insert_ne.
Qed.

(** Every step of the implementation is a step of the contract. *)
Lemma rn_simulation B U s s' sp (l : rn_label) :
  rename_inv rf n B U s → refines B s sp → rn_step rf x87_top cyc n s l s' →
  ∃ B' sp', spec_step n pinned sp l sp' ∧ rename_inv rf n B' U s' ∧ refines B' s' sp'.
Proof.
  intros Hinv Href Hstep.
  destruct Hstep as [tid p d s1 s2 d' Ht Hd Hwf Hy E1 E2 Hd'|tid sn s' Ht E|tid sn s' Ht E|h sb t].
  - destruct (rename_inst_ok _ _ _ _ _ _ _ _ _ Hinv Ht Hd Hwf Hy E1 E2 Hd') as (Hinv2 & Hsame & Hsrc & es & Eh & Hseq & Ha & Hn & _).
    destruct (refines_rename B U s s2 sp tid _ _ es Hinv Hinv2 Href Ht Eh Hsame Hseq Hsrc) as (sp' & Hs & Href').
    rewrite Ha, Hn in Hs. by exists B, sp'.
  - unfold rn_doSquash in E. destruct (rn_squash_loop_ok rf n B U sn tid _ s Hinv Ht eq_refl) as (s1 & E1 & Hinv' & Eh & _ & _ & Hsame).
    rewrite E in E1. injection E1 as <-. exists B. eexists. split; [apply spec_squashes|]. split; [done|].
    destruct Href as [Hc Hl Hp]. split; [|intros t Ht'|done].
    + intros t a Ht'. destruct (decide (t = tid)) as [->|Hne]; rewrite ?fn_lookup_insert, ?fn_lookup_insert_ne by done;
        by apply Hc.
    + destruct (decide (t = tid)) as [->|Hne].
      * rewrite fn_lookup_insert, Eh. cbn. rewrite Hl by done. symmetry. by apply log_of_filter.
      * rewrite fn_lookup_insert_ne by done. destruct (Hsame t Hne) as [_ ->]. by apply Hl.
  - unfold removeFromHistory in E.
    destruct (commit_loop_ok rf n U sn tid _ B s Hinv Ht ltac:(by rewrite reverse_involutive)) as (s1 & E1 & Hinv' & Eh & _ & _ & _ & Hsame).
    rewrite E in E1. injection E1 as <-. rewrite reverse_involutive in *. eexists. eexists. split; [apply spec_commits|]. split; [exact Hinv'|].
    destruct Href as [Hc Hl Hp]. split; intros t; [intros a Ht'|intros Ht'|intros a Ht'].
    all: destruct (decide (t = tid)) as [->|Hne];
      [rewrite ?fn_lookup_insert|rewrite ?fn_lookup_insert_ne by done; try destruct (Hsame t Hne) as [_ ->]; by eauto].
    + pose proof (rn_hist _ _ _ _ _ Hinv tid Ht) as Hh.
      rewrite (hist_sorted_split sn _ (rn_sorted _ _ _ _ _ Hinv tid Ht)) in Hh. apply history_split in Hh as [Hh _].
      rewrite (history_lookup rf _ _ _ a Hh). cbn. apply spec_lookup_ext; cbn; [intros b; by apply Hc|].
      rewrite Hl by done. symmetry. by apply log_of_filter.
    + rewrite Eh. cbn. rewrite Hl by done. symmetry. by apply log_of_filter.
    + rewrite pinned_fold. by apply Hp.
  - exists B, sp. split; [constructor|]. split; [by eapply rename_inv_ext|]. by destruct Href.
Qed.
End sim.
