(* ===== verification/RenameProps.v ===== *)
(** * The initial mapping

    The CPU's constructor ([cpu.cc]) fills the free lists with all physical registers and
    maps every architectural register of every active thread.  The state it leaves
    satisfies the invariant of renaming, and commit's maps agree with rename's. *)

From S2P Require Import Prelude Regs DynInst Scoreboard FreeList RenameMap RenameInv RenameSpec.
Local Open Scope Z_scope.

(** Every register that is renamed, in whole-register mode. *)
Definition all_ids (rf : PhysRegFile) : list PhysRegId :=
  intRegIds rf ++ floatRegIds rf ++ vecRegIds rf ++ ccRegIds rf.

(** The part of [FullO3CPU]'s constructor that concerns renaming, with the commit maps. *)
Definition boot (rf : PhysRegFile) (sb : Scoreboard) (active_threads : nat)
    : res (RegState * (nat → UnifiedRenameMap)) :=
  '(f, t) ← UnifiedFreeList_init rf ∅;
  '(rms, crms, f) ← initMaps rf (rf_vecMode rf) active_threads f;
  Ok (MkRegState ∅ sb f t rms (λ _, []), crms).

(** ** Free lists *)
Lemma simple_addRegs_1 (regs l : list PhysRegId) (t : taint) : (simple_addRegs regs (l, t)).1 = l ++ regs.
Proof.
  unfold simple_addRegs. revert l t; induction regs as [|r regs IH]; intros l t; cbn [foldl]; [by rewrite app_nil_r|].
  unfold simple_addReg at 2. rewrite IH. by rewrite <- app_assoc.
Qed.

Definition of_class (c : RegClass) (l : list PhysRegId) : Prop := ∀ r, r ∈ l → regClass (pr_reg r) = c.

Lemma addRegs_ok (c : RegClass) (regs : list PhysRegId) (f f' : UnifiedFreeList) (t t' : taint) :
  of_class c regs → fl_wf f → addRegs regs f t = Ok (f', t') → fl_wf f' ∧ all_free f' ≡ₚ all_free f ++ regs.
Proof.
  intros Hc Hwf E. unfold addRegs in E. destruct regs as [|r regs]; [injection E as <- <-; by rewrite app_nil_r|].
  cbn zeta in E. rewrite (Hc r ltac:(left)) in E. apply bind_ok in E as (? & _ & E).
  apply bind_ok in E as (u & Hm%panic_if_ok%bool_decide_eq_false & E).
  pose proof (simple_addRegs_1 (r :: regs) (list_of c f) t) as Hs.
  destruct (simple_addRegs _ _) as [l t0]. cbn in Hs. injection E as <- <-. subst l. split.
  - intros c1 y Hx. rewrite list_of_set in Hx by done. case_decide as Hc'; [subst c1|by apply Hwf].
    apply elem_of_app in Hx as [Hx|Hx]; [by apply Hwf|by apply Hc].
  - pose proof (all_free_set c (list_of c f ++ r :: regs) f Hm) as Hp.
    apply (Permutation_app_inv_r (list_of c f)). rewrite <- Hp. solve_Permutation.
Qed.

Lemma scalarIds_class (c : RegClass) (k : nat) (flat : Z) : of_class c (scalarIds c k flat).
Proof. intros r Hr. unfold scalarIds in Hr. by apply list_elem_of_fmap in Hr as (i & -> & _). Qed.
Lemma scalarIds_NoDup (c : RegClass) (k : nat) (flat : Z) : NoDup (scalarIds c k flat).
Proof. unfold scalarIds. apply NoDup_fmap_2_strong; [|apply NoDup_seq]. intros i j _ _ [= E]. lia. Qed.

Lemma of_class_disjoint (c c' : RegClass) (l l' : list PhysRegId) (r : PhysRegId) :
  c ≠ c' → of_class c l → of_class c' l' → r ∈ l → r ∉ l'.
Proof. intros Hne H1 H2 Hr Hr'. apply Hne. rewrite <- (H1 r Hr). by apply H2. Qed.

Section start.
Context (nInt nFloat nVec nCC nMisc : nat).
Let rf := PhysRegFile_init nInt nFloat nVec nCC nMisc Full.

Lemma all_ids_NoDup : NoDup (all_ids rf).
Proof.
  unfold all_ids. cbn.
  repeat (apply list.NoDup_app; split; [apply scalarIds_NoDup|split]); try apply scalarIds_NoDup.
  all: intros r Hr; rewrite ?not_elem_of_app; repeat split;
    (eapply of_class_disjoint; [|apply scalarIds_class|apply scalarIds_class|exact Hr]; done).
Qed.

Lemma initFreeList_ok (t t' : taint) (f : UnifiedFreeList) :
  UnifiedFreeList_init rf t = Ok (f, t') → fl_wf f ∧ all_free f ≡ₚ all_ids rf.
Proof.
  unfold UnifiedFreeList_init, initFreeList. intros E.
  apply bind_ok in E as (? & _ & E). apply bind_ok in E as ([f1 t1] & E1 & E).
  apply bind_ok in E as (? & _ & E). apply bind_ok in E as ([f2 t2] & E2 & E).
  apply bind_ok in E as (? & _ & E). apply bind_ok in E as ([f3 t3] & E3 & E).
  apply bind_ok in E as (? & _ & E4).
  apply (addRegs_ok IntRegClass) in E1 as [W1 P1]; [|apply scalarIds_class|by intros c r; destruct c; intros ?%not_elem_of_nil].
  apply (addRegs_ok FloatRegClass) in E2 as [W2 P2]; [|apply scalarIds_class|done].
  apply (addRegs_ok VecRegClass) in E3 as [W3 P3]; [|apply scalarIds_class|done].
  apply (addRegs_ok CCRegClass) in E4 as [W4 P4]; [|apply scalarIds_class|done].
  split; [done|]. rewrite P4, P3, P2, P1. unfold all_ids. rewrite <- !app_assoc. done.
Qed.
End start.

(** ** Maps *)
Lemma entries_insert_None (l : list (option PhysRegId)) (i : nat) (q : PhysRegId) :
  l !! i = Some None → entries (<[i := Some q]> l) ≡ₚ q :: entries l.
Proof.
  revert i; induction l as [|o l IH]; intros [|i] E; cbn in *; simplify_eq; [done|].
  specialize (IH i E). unfold entries in *. destruct o as [x|]; cbn; [|done].
  rewrite IH. apply perm_swap.
Qed.
Lemma entry_update_ne (m : UnifiedRenameMap) (a b : RegId) (p : PhysRegId) :
  ¬ same_slot b a → entry (update a p m) b = entry m b.
Proof.
  intros Hs. unfold entry. rewrite table_update. case_decide as Hc; [|done].
  rewrite list_lookup_insert_ne; [done|]. intros E. apply Hs. by split.
Qed.

Section maps.
Context (rf : PhysRegFile).

(** Setting an entry for the first time adds its register. *)
Lemma setEntry_first (a : RegId) (p : PhysRegId) (m m' : UnifiedRenameMap) :
  regClass a ≠ MiscRegClass → entry m a = None → rm_setEntry rf a p m = Ok m' → mapped m' ≡ₚ p :: mapped m.
Proof.
  unfold rm_setEntry. cbn zeta. intros Hm Hn E. destruct (map_of (regClass a) m) as [s|] eqn:Hs; [|by apply map_of_None in Hs].
  apply bind_ok in E as (? & _ & E). apply bind_ok in E as (? & _ & E). apply bind_ok in E as (s' & Hset & E).
  injection E as <-. unfold srm_setEntry in Hset. apply bind_ok in Hset as (? & _ & Hset).
  apply bind_ok in Hset as (t & Ht & Hset). injection Hset as <-. unfold vset in Ht.
  destruct (_ && _) eqn:Hb in Ht; [|done]. injection Ht as <-.
  unfold entry, table in Hn. rewrite Hs in Hn. cbn in Hn. change (Z.to_nat (RegId_flatIndex a)) with (slot a).
  destruct (lookup_lt_is_Some_2 (srm_map s) (slot a)) as [[y|] Hx]; [unfold slot; lia|by rewrite Hx in Hn|].
  destruct (mapped_split _ m Hm) as [rest Hr]. pose proof (Hr s) as Hr0. rewrite (set_map_map_of _ _ _ Hs) in Hr0.
  rewrite Hr0, Hr. cbn. by rewrite (entries_insert_None _ _ _ Hx).
Qed.

(** What the loops of the constructor maintain; [L] is what there is to distribute. *)
Record mapping_ok (L : list PhysRegId) (st : UnifiedRenameMap * UnifiedRenameMap * UnifiedFreeList) : Prop := {
  mo_same : st.1.2 = st.1.1;
  mo_all : mapped st.1.1 ++ all_free st.2 ≡ₚ L;
  mo_free : fl_wf st.2;
  mo_class : ∀ b p, entry st.1.1 b = Some p → regClass (pr_reg p) = regClass b;
  mo_mode : vecMode st.1.1 = Full;
}.

Lemma mapOne_ok (L : list PhysRegId) (c : RegClass) (a : RegId) st st' :
  mapping_ok L st → regClass a = c → entry st.1.1 a = None → mapOne rf c st a = Ok st' →
  mapping_ok L st' ∧ ∀ b, ¬ same_slot b a → entry st'.1.1 b = entry st.1.1 b.
Proof.
  destruct st as [[rm crm] f]. intros [Hsame Hall Hf Hc Hv] Ha Hn E. cbn in *. subst crm.
  apply bind_ok in E as ([p f'] & Hg & E). apply bind_ok in E as (rm' & Hs & E). rewrite Hs in E. cbn in E. injection E as <-. cbn.
  destruct (getClassReg_wf _ _ _ _ Hf Hg) as [Hf' Hpc]. apply getClassReg_ok in Hg as (Hm & _ & _ & Hp). subst c.
  pose proof (rm_setEntry_entry _ _ _ _ _ Hm Hs) as He. pose proof (setEntry_first _ _ _ _ Hm Hn Hs) as Hmp.
  apply rm_setEntry_ok in Hs as Eq. split; [split; cbn; try done|].
  - rewrite <- Hall, Hmp, Hp. solve_Permutation.
  - intros b q Hb. destruct (decide (same_slot b a)) as [[Hcl Hsl]|Hns].
    + assert (entry rm' b = entry rm' a) as E by (unfold entry; by rewrite Hcl, Hsl). rewrite E, He in Hb.
      injection Hb as <-. congruence.
    + rewrite Eq, entry_update_ne in Hb by done. by apply Hc.
  - by rewrite Eq, vecMode_update.
  - intros b Hns. by rewrite Eq, entry_update_ne.
Qed.

Lemma mapAll_ok (L : list PhysRegId) (c : RegClass) (l : list RegId) : ∀ st st',
  mapping_ok L st → NoDup (slot <$> l) → (∀ a, a ∈ l → regClass a = c ∧ entry st.1.1 a = None) →
  mfold (mapOne rf c) st l = Ok st' →
  mapping_ok L st' ∧ ∀ b, regClass b ≠ c → entry st'.1.1 b = entry st.1.1 b.
Proof.
  induction l as [|a l IH]; intros st st' Hok Hnd Hl E; cbn in E; [by injection E as <-|].
  apply bind_ok in E as (st1 & E1 & E). destruct (Hl a ltac:(left)) as [Hc Hn].
  destruct (mapOne_ok L c a st st1 Hok Hc Hn E1) as [Hok1 Hk]. inversion_clear Hnd as [|? ? Hna Hnd'].
  destruct (IH st1 st' Hok1 Hnd') as [Hok' Hk'].
  - intros b Hb. destruct (Hl b ltac:(by right)) as [Hcb Hnb]. split; [done|]. rewrite Hk; [done|].
    intros [_ Hs]. apply Hna. rewrite <- Hs. by apply list_elem_of_fmap_2.
  - exact E.
  - split; [done|]. intros b Hb. rewrite Hk', Hk; [done| |done]. intros [Hcl _]. congruence.
Qed.

Lemma archRegs_slots (c : RegClass) (k : nat) : c ≠ VecElemClass → NoDup (slot <$> archRegs c k).
Proof.
  intros Hc. unfold archRegs. rewrite <- list_fmap_compose. apply NoDup_fmap_2_strong; [|apply NoDup_seq].
  intros i j _ _. unfold compose, slot, RegId_flatIndex. cbn. destruct c; cbn; try done; lia.
Qed.
Lemma archRegs_class (c : RegClass) (k : nat) (a : RegId) : a ∈ archRegs c k → regClass a = c.
Proof. unfold archRegs. by intros (i & -> & _)%list_elem_of_fmap. Qed.

(** The mapping of one thread. *)
Lemma initThreadMaps_ok (L : list PhysRegId) st st' :
  mapping_ok L st → (∀ b, entry st.1.1 b = None) → initThreadMaps rf Full st = Ok st' → mapping_ok L st'.
Proof.
  intros Hok Hn E. unfold initThreadMaps in E.
  apply bind_ok in E as (s1 & E1 & E). apply bind_ok in E as (s2 & E2 & E). apply bind_ok in E as (s3 & E3 & E4).
  cbn [decide] in E3. rewrite decide_True in E3 by done.
  assert (H : ∀ c k s s', c ≠ VecElemClass → mapping_ok L s → (∀ b, regClass b = c → entry s.1.1 b = None) →
    mfold (mapOne rf c) s (archRegs c k) = Ok s' →
    mapping_ok L s' ∧ ∀ b, regClass b ≠ c → entry s'.1.1 b = entry s.1.1 b).
  { intros c k s s' Hc Hs Hb. apply mapAll_ok; [done|by apply archRegs_slots|]. intros a Ha%archRegs_class. auto. }
  apply H in E1 as [H1 K1]; [|done|done|intros; apply Hn].
  apply H in E2 as [H2 K2]; [|done|done|intros b Hb; rewrite K1 by congruence; apply Hn].
  apply H in E3 as [H3 K3]; [|done|done|intros b Hb; rewrite K2, K1 by congruence; apply Hn].
  apply H in E4 as [H4 _]; [done|done|done|intros b Hb; rewrite K3, K2, K1 by congruence; apply Hn].
Qed.
End maps.

(** ** All threads *)
Lemma fresh_entries (z1 z2 : Z) (mode : VecMode) (b : RegId) : entry (rm_init z1 z2 mode) b = None.
Proof.
  unfold entry, table. destruct (regClass b); cbn [map_of from_option rm_init intMap floatMap vecMap vecElemMap ccMap srm_init srm_map];
    try (destruct (replicate _ _ !! _) eqn:E; [apply lookup_replicate in E as [-> _]|]); done.
Qed.
Section threads.
Context (rf : PhysRegFile).

Lemma initMaps_ok (L : list PhysRegId) (f f' : UnifiedFreeList) (rms crms : nat → UnifiedRenameMap) (k : nat) :
  fl_wf f → all_free f ≡ₚ L → initMaps rf Full k f = Ok (rms, crms, f') →
  fl_wf f' ∧ all_free f' ++ mjoin ((λ t, mapped (rms t)) <$> seq 0 k) ≡ₚ L
  ∧ (∀ t, crms t = rms t)
  ∧ (∀ t, vecMode (rms t) = Full)
  ∧ (∀ t b p, entry (rms t) b = Some p → regClass (pr_reg p) = regClass b)
  ∧ ∀ t, (k ≤ t)%nat → rms t = rm_init ZeroReg (Z.of_nat NumFloatRegs + 1) Full.
Proof.
  intros Hf HL. unfold initMaps. revert rms crms f'. induction k as [|k IH]; intros rms crms f' E.
  { cbn in E. injection E as <- <- <-. split_and!; try done; [by rewrite app_nil_r|]. intros t b p Hb. by rewrite fresh_entries in Hb. }
  rewrite seq_S, mfold_app in E. apply bind_ok in E as ([[rms1 crms1] f1] & E1 & E).
  destruct (IH _ _ _ E1) as (Hf1 & HL1 & Hsame & Hm & Hc & Hfresh). cbn [Nat.add mfold] in E.
  apply bind_ok in E as ([[rms2 crms2] f2] & E & [= <- <- <-]). unfold initMaps_tid in E.
  apply bind_ok in E as ([[rm crm] f3] & E & [= <- <- <-]).
  pose proof (Hfresh k ltac:(lia)) as Hk. rewrite Hsame, Hk in E.
  eapply (initThreadMaps_ok rf (all_free f1)) in E as [Hs Ha Hw Hcl Hv].
  - cbn [fst snd] in Hs, Ha, Hw, Hcl, Hv. rewrite seq_S, fmap_app, join_app, Nat.add_0_l.
    change (mjoin ((λ t, mapped (<[k := rm]> rms1 t)) <$> [k])) with (mapped (<[k := rm]> rms1 k) ++ []).
    rewrite app_nil_r, fn_lookup_insert. split_and!; [done|..].
    + rewrite <- HL1, <- Ha.
      assert ((λ t, mapped (<[k := rm]> rms1 t)) <$> seq 0 k = (λ t, mapped (rms1 t)) <$> seq 0 k) as ->; [|solve_Permutation].
      apply list_fmap_ext. intros i t Hi. apply lookup_seq in Hi as [-> ?]. by rewrite fn_lookup_insert_ne by lia.
    + intros t. destruct (decide (t = k)) as [->|Hne]; [by rewrite !fn_lookup_insert|by rewrite !fn_lookup_insert_ne].
    + intros t. destruct (decide (t = k)) as [->|Hne]; [by rewrite fn_lookup_insert|by rewrite fn_lookup_insert_ne].
    + intros t. destruct (decide (t = k)) as [->|Hne]; [by rewrite fn_lookup_insert|]. rewrite fn_lookup_insert_ne by done. apply Hc.
    + intros t Ht. rewrite fn_lookup_insert_ne by lia. apply Hfresh. lia.
  - split; try done. intros b p Hb. cbn [fst snd] in Hb. by rewrite fresh_entries in Hb.
  - intros b. apply fresh_entries.
Qed.
End threads.

(** The state the constructor leaves. *)
Lemma boot_ok (nInt nFloat nVec nCC nMisc n : nat) (sb : Scoreboard) s (crms : nat → UnifiedRenameMap) :
  let rf := PhysRegFile_init nInt nFloat nVec nCC nMisc Full in
  boot rf sb n = Ok (s, crms) →
  rename_inv rf n (renameMap s) (all_ids rf) s ∧ (∀ t, crms t = renameMap s t) ∧ (∀ t, historyBuffer s t = []).
Proof.
  intros rf E. unfold boot in E. apply bind_ok in E as ([f t] & Hf & E). apply bind_ok in E as ([[rms crms'] f'] & Hm & E).
  injection E as <- <-. cbn. destruct (initFreeList_ok nInt nFloat nVec nCC nMisc _ _ _ Hf) as [Hw Hp].
  change (rf_vecMode rf) with Full in Hm.
  destruct (initMaps_ok rf _ _ _ _ _ _ Hw Hp Hm) as (Hf' & HL & Hsame & Hmode & Hc & _).
  split; [|done]. split; cbn; try done; [|apply (all_ids_NoDup nInt nFloat nVec nCC nMisc)| |eauto].
  - rewrite <- HL. unfold regs_of, held. cbn. f_equiv. apply reflexive_eq. f_equal. apply list_fmap_ext.
    intros. by rewrite app_nil_r.
  - intros tid _. constructor.
Qed.

(** * What renaming guarantees

    The theorems about the register half of the rename stage, from the state the CPU's
    constructor leaves: it refines its contract, loses and shares no register, a squash
    is an exact undo, and an instruction that [canRename] admits does not run dry. *)
Section traces.
Context (rf : PhysRegFile) (x87_top : nat → Z) (cyc : Z) (n : nat).

Inductive rn_trace (s : RegState) : list rn_label → RegState → Prop :=
| rn_start : rn_trace s [] s
| rn_next ls s1 l s2 : rn_trace s ls s1 → rn_step rf x87_top cyc n s1 l s2 → rn_trace s (ls ++ [l]) s2.

Inductive spec_trace (pinned : nat → RegId → bool) (sp : nat → SpecThread) : list rn_label → (nat → SpecThread) → Prop :=
| spec_start : spec_trace pinned sp [] sp
| spec_next ls sp1 l sp2 :
    spec_trace pinned sp ls sp1 → spec_step n pinned sp1 l sp2 → spec_trace pinned sp (ls ++ [l]) sp2.

Lemma trace_simulation (pinned : nat → RegId → bool) B U s sp ls s' :
  rename_inv rf n B U s → refines n pinned B s sp → rn_trace s ls s' →
  ∃ B' sp', spec_trace pinned sp ls sp' ∧ rename_inv rf n B' U s' ∧ refines n pinned B' s' sp'.
Proof.
  intros Hinv Href. induction 1 as [|ls s1 l s2 Htr IH Hst].
  - exists B, sp. split_and!; [constructor|done..].
  - destruct IH as (B1 & sp1 & Htr1 & Hinv1 & Href1).
    destruct (rn_simulation rf x87_top cyc n pinned B1 U s1 s2 sp1 l Hinv1 Href1 Hst) as (B2 & sp2 & Hs & Hinv2 & Href2).
    exists B2, sp2. split_and!; [|done..]. econstructor; eauto.
Qed.

(** The contract before anything is renamed. *)
Definition spec_initial (s : RegState) (tid : nat) : SpecThread := MkSpecThread (entry (renameMap s tid)) [].

Lemma refines_initial (s : RegState) :
  (∀ t, historyBuffer s t = []) →
  refines n (λ t, pinned_in (renameMap s t)) (renameMap s) s (spec_initial s).
Proof. intros Hh. split; try done. intros t _. cbn. by rewrite Hh. Qed.

Lemma rename_inv_reachable B U s ls s' :
  rename_inv rf n B U s → rn_trace s ls s' → ∃ B', rename_inv rf n B' U s'.
Proof.
  intros Hinv Htr. set (pinned := λ t, pinned_in (B t)).
  set (sp := λ t, MkSpecThread (entry (B t)) (log_of (historyBuffer s t))).
  destruct (trace_simulation pinned B U s sp ls s' Hinv ltac:(by split) Htr) as (B' & _ & _ & H & _). by exists B'.
Qed.

(** Renaming instructions of [tid] younger than [sn], the other stages running. *)
Definition young_label (sn : Z) (tid : nat) (l : rn_label) : Prop :=
  match l with
  | LRename t seq _ _ => t = tid ∧ sn < seq
  | LOther => True
  | _ => False
  end.

Lemma young_trace B U s (sn : Z) (tid : nat) ls s' :
  rename_inv rf n B U s → (tid < n)%nat → rn_trace s ls s' → Forall (young_label sn tid) ls →
  rename_inv rf n B U s' ∧ same_but tid s s'
  ∧ ∃ hb, historyBuffer s' tid = hb ++ historyBuffer s tid ∧ ∀ e, e ∈ hb → younger sn e.
Proof.
  intros Hinv Ht. induction 1 as [|ls s1 l s2 Htr IH Hst]; intros Hl.
  { split; [done|]. split; [done|]. exists []. split; [done|]. by intros e ?%not_elem_of_nil. }
  apply Forall_app in Hl as [Hl Hl1]. destruct (IH Hl) as (Hinv1 & Hsame1 & hb & Eh & Hy). rewrite Forall_singleton in Hl1.
  destruct Hst as [t p d s3 s4 d' Ht' Hd Hwf Hyg E1 E2 Hd'|t sn' s4 Ht' E|t sn' s4 Ht' E|h sb' ta]; try done.
  - cbn in Hl1. destruct Hl1 as [-> Hsn].
    destruct (rename_inst_ok _ _ _ _ _ _ _ _ _ _ _ _ _ Hinv1 Ht Hd Hwf Hyg E1 E2 Hd') as (Hinv2 & Hsame & _ & es & Eh2 & Hseq & _).
    split; [done|]. split.
    + intros t Hne. destruct (Hsame t Hne) as [-> ->]. by apply Hsame1.
    + exists (reverse es ++ hb). rewrite Eh2, Eh, app_assoc. split; [done|]. intros e [He|He]%elem_of_app; [|by apply Hy].
      unfold younger. rewrite (Hseq e); [done|]. by rewrite elem_of_reverse in He.
  - split; [by eapply rename_inv_ext|]. split; [done|]. by exists hb.
Qed.

Lemma squash_undoes B U s (sn : Z) (tid : nat) ls s1 :
  rename_inv rf n B U s → (tid < n)%nat → (∀ e, e ∈ historyBuffer s tid → instSeqNum e ≤ sn) →
  rn_trace s ls s1 → Forall (young_label sn tid) ls →
  ∃ s2, rn_doSquash rf sn tid s1 = Ok s2
    ∧ (∀ t, (t < n)%nat → renameMap s2 t = renameMap s t ∧ historyBuffer s2 t = historyBuffer s t)
    ∧ all_free (freeList s2) ≡ₚ all_free (freeList s).
Proof.
  intros Hinv Ht Hold Htr Hl. destruct (young_trace B U s sn tid ls s1 Hinv Ht Htr Hl) as (Hinv1 & Hsame1 & hb & Eh & Hy).
  destruct (rn_squash_loop_ok rf n B U sn tid _ s1 Hinv1 Ht eq_refl) as (s2 & E & Hinv2 & Eh2 & _ & _ & Hsame2).
  assert (Hh : historyBuffer s2 tid = historyBuffer s tid).
  { rewrite Eh2, Eh, list.filter_app, filter_none, (filter_all (λ e, ¬ younger sn e)); [done| |].
    - intros e He. specialize (Hold e He). unfold younger. lia.
    - intros e He Hn. by apply Hn, Hy. }
  assert (Hsame : ∀ t, (t < n)%nat → renameMap s2 t = renameMap s t ∧ historyBuffer s2 t = historyBuffer s t).
  { intros t Ht'. destruct (decide (t = tid)) as [->|Hne].
    - split; [|done]. rewrite (history_fold _ _ _ _ (rn_hist _ _ _ _ _ Hinv2 tid Ht)), Hh. symmetry.
      by apply (history_fold rf), (rn_hist _ _ _ _ _ Hinv).
    - destruct (Hsame2 t Hne) as [-> ->]. by apply Hsame1. }
  exists s2. split; [done|]. split; [done|]. pose proof (rn_all _ _ _ _ _ Hinv2) as H2.
  rewrite <- (rn_all _ _ _ _ _ Hinv) in H2. unfold regs_of in H2.
  assert (held s2 <$> seq 0 n = held s <$> seq 0 n) as Heq.
  { apply list_fmap_ext. intros i t Hi. apply lookup_seq in Hi as [-> Hi]. unfold held. by destruct (Hsame (0 + i)%nat Hi) as [-> ->]. }
  rewrite Heq in H2. by apply Permutation_app_inv_r in H2.
Qed.
End traces.

(** ** The guarantees *)
Section props.
Context (nInt nFloat nVec nCC nMisc n : nat) (sb : Scoreboard) (x87_top : nat → Z) (cyc : Z).
Local Notation rf := (PhysRegFile_init nInt nFloat nVec nCC nMisc Full).

(** C26: renaming implements its contract: whatever instructions, squashes and commit
    signals of all threads are interleaved after start-up, the labels the implementation
    shows (which locations each operand of each instruction got) are a run of the
    contract, in which sources read the youngest write in flight or the committed
    location and destinations get locations nobody uses; and the rename maps are then
    the contract's view of every register. *)
Theorem rename_refines_contract (s s' : RegState) (crms : nat → UnifiedRenameMap) (ls : list rn_label) :
  boot rf sb n = Ok (s, crms) → rn_trace rf x87_top cyc n s ls s' →
  ∃ sp', spec_trace n (λ t, pinned_in (renameMap s t)) (spec_initial s) ls sp'
    ∧ ∀ tid a, (tid < n)%nat → entry (renameMap s' tid) a = spec_lookup (sp' tid) a.
Proof.
  intros Hb Htr. destruct (boot_ok nInt nFloat nVec nCC nMisc n sb s crms Hb) as (Hinv & _ & Hh).
  destruct (trace_simulation _ _ _ _ _ _ _ _ _ _ _ Hinv (refines_initial n s Hh) Htr) as (B' & sp' & Hsp & Hinv' & Href').
  exists sp'. split; [done|]. intros tid a Ht. by eapply refines_lookup.
Qed.

(** C29: no physical register is lost and none is in two places: at any time the free
    registers, the registers mapped by the threads and the previous mappings their
    histories still remember are together exactly the registers the machine has, each
    once. *)
Theorem rename_conserves_registers (s s' : RegState) (crms : nat → UnifiedRenameMap) (ls : list rn_label) :
  boot rf sb n = Ok (s, crms) → rn_trace rf x87_top cyc n s ls s' →
  regs_of n s' ≡ₚ all_ids rf ∧ NoDup (regs_of n s').
Proof.
  intros Hb Htr. destruct (boot_ok nInt nFloat nVec nCC nMisc n sb s crms Hb) as (Hinv & _).
  destruct (rename_inv_reachable _ _ _ _ _ _ _ _ _ Hinv Htr) as [B' [Hall Hnd]]. split; [done|by rewrite Hall].
Qed.

(** C28: a squash is an exact undo: from any reachable state, after renaming any number
    of younger instructions of a thread (while the other stages run), squashing back
    succeeds, the rename maps and histories of all threads are what they were, and so
    is the set of free registers. *)
Theorem rename_squash_restores (s0 s s1 : RegState) (crms : nat → UnifiedRenameMap) (ls0 ls : list rn_label)
    (tid : nat) (sn : Z) :
  boot rf sb n = Ok (s0, crms) → rn_trace rf x87_top cyc n s0 ls0 s → (tid < n)%nat →
  (∀ e, e ∈ historyBuffer s tid → instSeqNum e ≤ sn) →
  rn_trace rf x87_top cyc n s ls s1 → Forall (young_label sn tid) ls →
  ∃ s2, rn_doSquash rf sn tid s1 = Ok s2
    ∧ (∀ t, (t < n)%nat → renameMap s2 t = renameMap s t ∧ historyBuffer s2 t = historyBuffer s t)
    ∧ all_free (freeList s2) ≡ₚ all_free (freeList s).
Proof.
  intros Hb Htr0. destruct (boot_ok nInt nFloat nVec nCC nMisc n sb s0 crms Hb) as (Hinv & _).
  destruct (rename_inv_reachable _ _ _ _ _ _ _ _ _ Hinv Htr0) as [B Hinv0]. intros. by eapply squash_undoes.
Qed.
End props.

(** * Where renaming goes wrong

    Three behaviours of the rename maps that contradict what the code means to do: the
    zero register of a second thread, switching back to whole-register mode, and undoing
    the rename of a vector element. *)
Local Open Scope Z_scope.

(** A register file with room for two threads. *)
Definition two_thread_file (mode : VecMode) : PhysRegFile := PhysRegFile_init 100 120 4 20 5 mode.
Definition zero_reg : RegId := MkRegId IntRegClass ZeroReg no_elem.

(** the constructor maps the zero register of each thread to a register of its own,
    but [rename] asserts that it is mapped to the physical register whose index is the
    zero register's: after start-up with two threads, thread 0 can rename the zero
    register (to itself) and in thread 1 the assertion fails. *)
Theorem smt_zero_register_asserts :
  ∃ s crms, boot (two_thread_file Full) (Scoreboard_init 300) 2 = Ok (s, crms)
    ∧ (∃ p, rm_rename (two_thread_file Full) zero_reg (renameMap s 0%nat) (freeList s)
            = Ok (p, p, renameMap s 0%nat, freeList s))
    ∧ rm_rename (two_thread_file Full) zero_reg (renameMap s 1%nat) (freeList s) = Err AssertFailed.
Proof.
  destruct (boot (two_thread_file Full) (Scoreboard_init 300) 2) as [[s crms]|e] eqn:E; [|by vm_compute in E].
  exists s, crms. split; [done|]. vm_compute in E. injection E as <- _. split; [|vm_compute; reflexivity].
  eexists. vm_compute. reflexivity.
Qed.

(** switching from element mode back to whole registers panics: the check for lost
    elements reads the number of free whole registers, which the check before it has
    just found to be zero, so the switch only gets through on a machine that has as
    many elements as floating-point registers. *)
Theorem switch_to_full_panics (rf : PhysRegFile) (m : UnifiedRenameMap) (f : UnifiedFreeList) (t : taint) :
  vecMode m = Elem → u32 (numPhysicalVecElemRegs rf - Z.of_nat NumFloatRegs) ≠ 0 →
  switchMode Full rf m f t = Err Panicked.
Proof.
  intros Hm Hne. unfold switchMode. rewrite Hm. destruct (vecList f) as [|r l] eqn:E; [|done].
  change (hasFreeRegs []) with false. change (numFreeRegs []) with 0. cbn [panic_if mbind res_bind].
  destruct (Z.eqb_spec 0 (u32 (numPhysicalVecElemRegs rf - Z.of_nat NumFloatRegs))) as [H0|H0]; [congruence|done].
Qed.

(** The second element of vector register 0. *)
Definition elem1 : RegId := MkRegId VecElemClass 0 1.

(** in element mode [rename] indexes the table by the vector register and [setEntry]
    by the element: undoing the rename of element 1 leaves element 0 at the register
    the free list has got back. *)
Theorem elem_rename_not_undone :
  ∃ s crms new prev m f m', boot (two_thread_file Elem) (Scoreboard_init 300) 1 = Ok (s, crms)
    ∧ rm_rename (two_thread_file Elem) elem1 (renameMap s 0%nat) (freeList s) = Ok (new, prev, m, f)
    ∧ rm_setEntry (two_thread_file Elem) elem1 prev m = Ok m'
    ∧ entry (renameMap s 0%nat) (MkRegId VecElemClass 0 0) = Some prev
    ∧ entry m' (MkRegId VecElemClass 0 0) = Some new ∧ new ≠ prev.
Proof.
  destruct (boot (two_thread_file Elem) (Scoreboard_init 300) 1) as [[s crms]|e] eqn:E; [|by vm_compute in E].
  exists s, crms. vm_compute in E. injection E as <- _. do 5 eexists.
  split; [reflexivity|]. split; [vm_compute; reflexivity|]. split; [vm_compute; reflexivity|].
  split; [vm_compute; reflexivity|]. split; [vm_compute; reflexivity|]. done.
Qed.
