(* ===== verification/RenameCommit.v ===== *)
(** * Rename's and commit's maps

    Commit keeps a rename map of its own, which it updates with the destinations of
    every instruction it retires ([commitHead] in [commit_impl.hh]); rename learns
    later, by sequence number, what was committed.  Both are run together here: squashing
    rename back to the last committed instruction yields commit's map exactly, and the
    assertions of commit's updates hold. *)

From S2P Require Import Prelude Regs DynInst Scoreboard FreeList RenameMap RenameInv RenameSpec RenameProps.
Local Open Scope Z_scope.

(** The loop of [commitHead] over the destinations. *)
Definition commitDest (rf : PhysRegFile) (d : DynInst) (m : UnifiedRenameMap) (i : nat) : res UnifiedRenameMap :=
  flat ← deref (flatDestRegIdx d !! i);
  renamed ← deref (destRegIdx_ d !! i);
  rm_setEntry rf flat renamed m.
Definition commitRename (rf : PhysRegFile) (d : DynInst) (m : UnifiedRenameMap) : res UnifiedRenameMap :=
  mfold (commitDest rf d) m (seq 0 (Z.to_nat (numDestRegs d))).

(** ** The joint system *)
(** [ps_flight] are the instructions that were renamed and neither squashed nor
    committed, oldest first; [ps_done] the last committed sequence number. *)
Record PState := MkPState {
  ps_regs : RegState;
  ps_commit : nat → UnifiedRenameMap;
  ps_done : nat → Z;
  ps_flight : nat → list InstPtr;
}.

Section system.
Context (rf : PhysRegFile) (x87_top : nat → Z) (cyc : Z) (n : nat).

(** What other stages leave alone in an instruction in flight. *)
Definition keeps_operands (h h' : heap) (p : InstPtr) : Prop :=
  ∀ d, h !! p = Some d → ∃ d', h' !! p = Some d' ∧ seqNum d' = seqNum d ∧ staticInst d' = staticInst d
    ∧ flatDestRegIdx d' = flatDestRegIdx d ∧ destRegIdx_ d' = destRegIdx_ d.

Inductive pstep : PState → PState → Prop :=
| p_rename s c dn fl tid p d s1 s2 d' :
    (tid < n)%nat → rs_heap s !! p = Some d → operands_wf d → (∀ t, p ∉ fl t) → dn tid < seqNum d →
    (∀ q, q ∈ fl tid → seq_of (rs_heap s) q < seqNum d) →
    (∀ e, e ∈ historyBuffer s tid → instSeqNum e < seqNum d) →
    renameSrcRegs rf x87_top cyc p tid s = Ok s1 → renameDestRegs rf x87_top p tid s1 = Ok s2 →
    rs_heap s2 !! p = Some d' →
    pstep (MkPState s c dn fl) (MkPState s2 c dn (<[tid := fl tid ++ [p]]> fl))
| p_squash s c dn fl tid sn s' :
    (tid < n)%nat → dn tid ≤ sn → rn_doSquash rf sn tid s = Ok s' →
    pstep (MkPState s c dn fl) (MkPState s' c dn (<[tid := filter (λ q, seq_of (rs_heap s) q ≤ sn) (fl tid)]> fl))
| p_commit s c dn fl tid p ps d m :
    (tid < n)%nat → fl tid = p :: ps → rs_heap s !! p = Some d → commitRename rf d (c tid) = Ok m →
    pstep (MkPState s c dn fl) (MkPState s (<[tid := m]> c) (<[tid := seqNum d]> dn) (<[tid := ps]> fl))
| p_notify s c dn fl tid sn s' :
    (tid < n)%nat → sn ≤ dn tid → removeFromHistory sn tid s = Ok s' →
    pstep (MkPState s c dn fl) (MkPState s' c dn fl)
| p_other s c dn fl h sb t :
    (∀ tid p, p ∈ fl tid → keeps_operands (rs_heap s) h p) →
    pstep (MkPState s c dn fl) (MkPState (s <| rs_heap := h |> <| scoreboard := sb |> <| rs_taint := t |>) c dn fl).

(** ** The invariant *)
(** The instructions in flight, oldest first, and the history entries they own. *)
Inductive flight_ok (h : heap) : Z → list InstPtr → list RenameHistory → Prop :=
| flight_nil lo : flight_ok h lo [] []
| flight_cons lo p d es ps hs :
    h !! p = Some d → lo < seqNum d →
    archReg <$> es = flatDestRegIdx d → newPhysReg <$> es = destRegIdx_ d →
    length (destRegs (staticInst d)) = length es → (∀ e, e ∈ es → instSeqNum e = seqNum d) →
    flight_ok h (seqNum d) ps hs → flight_ok h lo (p :: ps) (es ++ hs).

Record pinv (B : nat → UnifiedRenameMap) (U : list PhysRegId) (x : PState) : Prop := {
  pi_regs : rename_inv rf n B U (ps_regs x);
  pi_commit : ∀ tid, (tid < n)%nat → ps_commit x tid =
    foldr commit_one (B tid) (filter (λ e, ¬ younger (ps_done x tid) e) (historyBuffer (ps_regs x) tid));
  pi_flight : ∀ tid, (tid < n)%nat → flight_ok (rs_heap (ps_regs x)) (ps_done x tid) (ps_flight x tid)
    (reverse (filter (younger (ps_done x tid)) (historyBuffer (ps_regs x) tid)));
}.

Lemma flight_above (h : heap) (lo : Z) ps hs (e : RenameHistory) :
  flight_ok h lo ps hs → e ∈ hs → lo < instSeqNum e.
Proof.
  intros Hf. revert e. induction Hf as [|lo p d es ps hs Hd Hlo Ha Hn Hl Hs Hf IH]; intros e He; [by apply not_elem_of_nil in He|].
  apply elem_of_app in He as [He|He]; [by rewrite (Hs e He)|]. specialize (IH e He). lia.
Qed.

Lemma flight_lower (h : heap) (lo lo' : Z) ps hs : lo' ≤ lo → flight_ok h lo ps hs → flight_ok h lo' ps hs.
Proof. destruct 2; econstructor; eauto; lia. Qed.

Lemma flight_heap (h h' : heap) (lo : Z) ps hs :
  flight_ok h lo ps hs → (∀ p, p ∈ ps → keeps_operands h h' p) → flight_ok h' lo ps hs.
Proof.
  induction 1 as [|lo p d es ps hs Hd Hlo Ha Hn Hl Hs Hf IH]; intros Hk; [constructor|].
  destruct (Hk p ltac:(left) d Hd) as (d' & Hd' & E1 & E2 & E3 & E4).
  apply (flight_cons _ _ _ d'); rewrite ?E1, ?E2, ?E3, ?E4; try done. apply IH. intros q Hq. apply Hk. by right.
Qed.

Lemma flight_snoc (h : heap) (lo : Z) ps hs (p : InstPtr) (d : DynInst) es :
  flight_ok h lo ps hs → h !! p = Some d → lo < seqNum d → (∀ q, q ∈ ps → seq_of h q < seqNum d) →
  archReg <$> es = flatDestRegIdx d → newPhysReg <$> es = destRegIdx_ d →
  length (destRegs (staticInst d)) = length es → (∀ e, e ∈ es → instSeqNum e = seqNum d) →
  flight_ok h lo (ps ++ [p]) (hs ++ es).
Proof.
  intros Hf Hd Hlo Hy Ha Hn Hl Hs. induction Hf as [lo|lo q d1 es1 ps hs Hd1 Hlo1 Ha1 Hn1 Hl1 Hs1 Hf IH].
  - cbn. rewrite <- (app_nil_r es). econstructor; eauto. constructor.
  - rewrite <- app_assoc. cbn. econstructor; eauto. apply IH.
    + specialize (Hy q ltac:(left)). unfold seq_of in Hy. by rewrite Hd1 in Hy.
    + intros r Hr. apply Hy. by right.
Qed.

Lemma flight_filter (h : heap) (lo sn : Z) ps hs :
  flight_ok h lo ps hs →
  flight_ok h lo (filter (λ q, seq_of h q ≤ sn) ps) (filter (λ e, ¬ younger sn e) hs).
Proof.
  induction 1 as [|lo p d es ps hs Hd Hlo Ha Hn Hl Hs Hf IH]; [constructor|]. rewrite list.filter_app.
  destruct (decide (seqNum d ≤ sn)) as [Hle|Hle].
  - rewrite filter_cons_True by (unfold seq_of; by rewrite Hd). rewrite (filter_all (λ e, ¬ younger sn e) es).
    + econstructor; eauto.
    + intros e He. unfold younger. rewrite (Hs e He). lia.
  - rewrite filter_cons_False by (unfold seq_of; by rewrite Hd). rewrite (filter_none (λ e, ¬ younger sn e) es).
    + eapply flight_lower; [|exact IH]. lia.
    + intros e He. unfold younger. rewrite (Hs e He). lia.
Qed.

(** *** Commit's updates replay the history *)
Lemma mfold_seq {T A} (f : T → nat → res T) (g : T → A → res T) (l : list A) : ∀ (k : nat) s,
  (∀ i x s, l !! i = Some x → f s (k + i)%nat = g s x) → mfold f s (seq k (length l)) = mfold g s l.
Proof.
  induction l as [|x l IH]; intros k s Hfg; [done|]. cbn. pose proof (Hfg 0%nat x s eq_refl) as E.
  rewrite Nat.add_0_r in E. rewrite E. destruct (g s x) as [s'|]; [|done]. cbn. apply IH.
  intros i y s1 Hi. rewrite <- (Hfg (S i) y s1 Hi). f_equal. lia.
Qed.

Lemma history_replay (base m : UnifiedRenameMap) (es : list RenameHistory) :
  vecMode base = Full → history_ok rf base (reverse es) m →
  mfold (λ m e, rm_setEntry rf (archReg e) (newPhysReg e) m) base es = Ok m.
Proof.
  intros Hv. revert m. induction es as [|e es IH] using rev_ind; intros m Hh; [by inversion Hh|].
  rewrite reverse_snoc in Hh. rewrite mfold_app.
  inversion Hh as [|? ? ? Hr Hh' Hp Hset|? ? m0 Hr Hh' Hp He H0 Hc Hn _]; subst; rewrite (IH _ Hh'); cbn; [by rewrite Hset|].
  rewrite (rm_setEntry_total rf _ _ (prevPhysReg e)); try done.
  destruct (regClass (archReg e)); cbn; rewrite ?(history_mode _ _ _ _ Hh'), ?Hv; done.
Qed.

Lemma commitRename_replay (d : DynInst) (es : list RenameHistory) (m : UnifiedRenameMap) :
  archReg <$> es = flatDestRegIdx d → newPhysReg <$> es = destRegIdx_ d →
  length (destRegs (staticInst d)) = length es →
  commitRename rf d m = mfold (λ m e, rm_setEntry rf (archReg e) (newPhysReg e) m) m es.
Proof.
  intros Ha Hn Hl. unfold commitRename, numDestRegs. rewrite Hl, Nat2Z.id. apply mfold_seq.
  intros i e m' Hi. unfold commitDest. cbn [Nat.add]. rewrite <- Ha, <- Hn, !list_lookup_fmap, Hi. done.
Qed.

(** Selecting twice. *)
Lemma older_older (a b : Z) (hb : list RenameHistory) :
  a ≤ b → filter (λ e, ¬ younger a e) (filter (λ e, ¬ younger b e) hb) = filter (λ e, ¬ younger a e) hb.
Proof. intros Hab. apply list_filter_filter_l. intros e He. unfold younger in *. lia. Qed.
Lemma younger_younger (a b : Z) (hb : list RenameHistory) :
  a ≤ b → filter (younger b) (filter (younger a) hb) = filter (younger b) hb.
Proof. intros Hab. apply list_filter_filter_l. intros e He. unfold younger in *. lia. Qed.
Lemma filter_comm {A} (P Q : A → Prop) `{∀ x, Decision (P x)} `{∀ x, Decision (Q x)} (l : list A) :
  filter P (filter Q l) = filter Q (filter P l).
Proof. rewrite !list_filter_filter. apply list_filter_iff. tauto. Qed.

(** *** Preservation *)
Lemma pinv_rename B U s c dn fl (tid : nat) (p : InstPtr) (d d' : DynInst) s1 s2 :
  pinv B U (MkPState s c dn fl) → (tid < n)%nat → rs_heap s !! p = Some d → operands_wf d → (∀ t, p ∉ fl t) →
  dn tid < seqNum d → (∀ q, q ∈ fl tid → seq_of (rs_heap s) q < seqNum d) →
  (∀ e, e ∈ historyBuffer s tid → instSeqNum e < seqNum d) →
  renameSrcRegs rf x87_top cyc p tid s = Ok s1 → renameDestRegs rf x87_top p tid s1 = Ok s2 →
  rs_heap s2 !! p = Some d' →
  pinv B U (MkPState s2 c dn (<[tid := fl tid ++ [p]]> fl)).
Proof.
  intros [Hinv Hc Hf] Ht Hd Hwf Hnew Hdn Hy Hyh E1 E2 Hd'. cbn in *.
  destruct (rename_inst_ok _ _ _ _ _ _ _ _ _ _ _ _ _ Hinv Ht Hd Hwf Hyh E1 E2 Hd')
    as (Hinv2 & Hsame & _ & es & Eh & Hseq & Ha & Hn & Hfl & Hq & Hst & Hh).
  assert (Hkeep : ∀ t q, q ∈ fl t → keeps_operands (rs_heap s) (rs_heap s2) q).
  { intros t q Hin x Hx. exists x. rewrite Hh; [done|]. intros ->. by apply (Hnew t). }
  assert (Hes : ∀ e, e ∈ reverse es → younger (dn tid) e).
  { intros e He. rewrite elem_of_reverse in He. unfold younger. by rewrite (Hseq e He). }
  split; [done|..]; cbn; intros t Ht'; (destruct (decide (t = tid)) as [->|Hne]; [rewrite Eh, ?fn_lookup_insert|
    destruct (Hsame t Hne) as [_ ->]; rewrite ?fn_lookup_insert_ne by done; eauto using flight_heap]).
  - rewrite list.filter_app, (filter_none _ (reverse es)); [by apply Hc|naive_solver].
  - rewrite list.filter_app, (filter_all _ (reverse es)), reverse_app, reverse_involutive by done.
    eapply flight_snoc; [by eapply flight_heap; eauto|done| | |done|done| |].
    + by rewrite Hq.
    + intros q Hin. rewrite Hq. pose proof (Hnew tid) as Hp. unfold seq_of. rewrite Hh; [by apply Hy|]. by intros ->.
    + rewrite Hst, <- (length_fmap archReg es), Ha, length_fmap. done.
    + intros e He. rewrite Hq. by apply Hseq.
Qed.

Lemma pinv_squash B U s c dn fl (tid : nat) (sn : Z) s' :
  pinv B U (MkPState s c dn fl) → (tid < n)%nat → dn tid ≤ sn → rn_doSquash rf sn tid s = Ok s' →
  pinv B U (MkPState s' c dn (<[tid := filter (λ q, seq_of (rs_heap s) q ≤ sn) (fl tid)]> fl)).
Proof.
  intros [Hinv Hc Hf] Ht Hdn E. cbn in *.
  destruct (rn_squash_loop_ok rf n B U sn tid _ s Hinv Ht eq_refl) as (s1 & E1 & Hinv' & Eh & Ehp & _ & Hsame).
  unfold rn_doSquash in E. rewrite E in E1. injection E1 as <-.
  split; [done|..]; cbn; intros t Ht'; rewrite ?Ehp; (destruct (decide (t = tid)) as [->|Hne]; [rewrite Eh, ?fn_lookup_insert|
    destruct (Hsame t Hne) as [_ ->]; rewrite ?fn_lookup_insert_ne by done; eauto]).
  - rewrite older_older by done. by apply Hc.
  - rewrite filter_comm, <- filter_reverse. apply flight_filter. by apply Hf.
Qed.

Lemma pinv_notify B U s c dn fl (tid : nat) (sn : Z) s' :
  pinv B U (MkPState s c dn fl) → (tid < n)%nat → sn ≤ dn tid → removeFromHistory sn tid s = Ok s' →
  ∃ B', pinv B' U (MkPState s' c dn fl).
Proof.
  intros [Hinv Hc Hf] Ht Hdn E. cbn in *.
  destruct (commit_loop_ok rf n U sn tid _ B s Hinv Ht ltac:(by rewrite reverse_involutive)) as (s1 & E1 & Hinv' & Eh & _ & Ehp & _ & Hsame).
  unfold removeFromHistory in E. rewrite E in E1. injection E1 as <-. rewrite reverse_involutive in *.
  eexists. split; [exact Hinv'|..]; cbn; intros t Ht'; rewrite ?Ehp; (destruct (decide (t = tid)) as [->|Hne]; [rewrite Eh, ?fn_lookup_insert|
    destruct (Hsame t Hne) as [_ ->]; rewrite ?fn_lookup_insert_ne by done; eauto]).
  - rewrite <- foldr_app, Hc by done. f_equal. rewrite filter_comm.
    set (hb := historyBuffer s tid). rewrite <- (older_older sn (dn tid) hb) by done. apply hist_sorted_split.
    pose proof (hist_sorted_split (dn tid) hb (rn_sorted _ _ _ _ _ Hinv tid Ht)) as Hs.
    pose proof (rn_sorted _ _ _ _ _ Hinv tid Ht) as Hs'. fold hb in Hs'. rewrite Hs in Hs'. by apply hist_sorted_app in Hs' as [_ ?].
  - rewrite younger_younger by done. by apply Hf.
Qed.

(** Committing the oldest instruction in flight succeeds. *)
Lemma pinv_commit B U s c dn fl (tid : nat) (p : InstPtr) (ps : list InstPtr) :
  pinv B U (MkPState s c dn fl) → (tid < n)%nat → fl tid = p :: ps →
  ∃ d m, rs_heap s !! p = Some d ∧ commitRename rf d (c tid) = Ok m
    ∧ pinv B U (MkPState s (<[tid := m]> c) (<[tid := seqNum d]> dn) (<[tid := ps]> fl)).
Proof.
  intros [Hinv Hc Hf] Ht Hp. cbn in *. pose proof (Hf tid Ht) as Hft. rewrite Hp in Hft.
  remember (reverse (filter (younger (dn tid)) (historyBuffer s tid))) as yl eqn:Hyl.
  inversion Hft as [|? ? d es ? hs Hd Hlo Ha Hn Hl Hs Hrest]; subst.
  assert (Hy : filter (younger (dn tid)) (historyBuffer s tid) = reverse hs ++ reverse es).
  { rewrite <- reverse_app, H2. by rewrite reverse_involutive. }
  pose proof (rn_hist _ _ _ _ _ Hinv tid Ht) as Hh. pose proof (hist_sorted_split (dn tid) _ (rn_sorted _ _ _ _ _ Hinv tid Ht)) as Hsp.
  rewrite Hy, <- app_assoc in Hsp. set (old := filter (λ e, ¬ younger (dn tid) e) (historyBuffer s tid)) in *.
  assert (Hup : ∀ e, e ∈ reverse hs → younger (seqNum d) e).
  { intros e He. rewrite elem_of_reverse in He. by eapply flight_above. }
  assert (Hdown : ∀ e, e ∈ reverse es ++ old → ¬ younger (seqNum d) e).
  { intros e [He|He]%elem_of_app; [rewrite elem_of_reverse in He; unfold younger; rewrite (Hs e He); lia|].
    apply list_elem_of_filter in He as [He _]. unfold younger in *. lia. }
  rewrite Hsp in Hh. apply history_split in Hh as [Hh _]. pose proof Hh as Hm. apply history_split in Hh as [_ Hh].
  eexists d, _. split; [done|]. split.
  { rewrite (commitRename_replay _ es), Hc by done. fold old. apply history_replay; [|exact Hh].
    pose proof (history_split rf _ _ _ _ Hm) as [Ho _]. rewrite (history_mode _ _ _ _ Ho).
    rewrite <- (history_mode _ _ _ _ (rn_hist _ _ _ _ _ Hinv tid Ht)). by apply (rn_mode _ _ _ _ _ Hinv). }
  split; [done|..]; cbn; intros t Ht'; (destruct (decide (t = tid)) as [->|Hne]; [rewrite ?fn_lookup_insert|
    rewrite ?fn_lookup_insert_ne by done; eauto]); rewrite Hsp, list.filter_app.
  - by rewrite (filter_none _ (reverse hs)), filter_all by naive_solver.
  - by rewrite (filter_all _ (reverse hs)), filter_none, app_nil_r, reverse_involutive by done.
Qed.

Lemma pinv_step B U x y : pinv B U x → pstep x y → ∃ B', pinv B' U y.
Proof.
  intros Hi Hst.
  destruct Hst as [s c dn fl tid p d s1 s2 d'|s c dn fl tid sn s'|s c dn fl tid p ps d m Ht Hp Hd Hm|s c dn fl tid sn s'|].
  - exists B. by eapply pinv_rename.
  - exists B. by eapply pinv_squash.
  - destruct (pinv_commit B U s c dn fl tid p ps Hi Ht Hp) as (d1 & m1 & Hd1 & Hm1 & Hi1).
    rewrite Hd in Hd1. injection Hd1 as <-. rewrite Hm in Hm1. injection Hm1 as <-. exists B. exact Hi1.
  - by eapply pinv_notify.
  - exists B. destruct Hi as [Hinv Hc Hf]. split; [by eapply rename_inv_ext|done|]. cbn in *. intros t0 Ht. eapply flight_heap; eauto.
Qed.
End system.

(** ** From start-up *)
Section precise.
Context (nInt nFloat nVec nCC nMisc n : nat) (sb : Scoreboard) (x87_top : nat → Z) (cyc : Z).
Local Notation rf := (PhysRegFile_init nInt nFloat nVec nCC nMisc Full).

(** Nothing in flight, nothing committed. *)
Definition pstart (s : RegState) (crms : nat → UnifiedRenameMap) : PState := MkPState s crms (λ _, 0) (λ _, []).

Lemma pinv_start (s : RegState) (crms : nat → UnifiedRenameMap) :
  boot rf sb n = Ok (s, crms) → pinv rf n (renameMap s) (all_ids rf) (pstart s crms).
Proof.
  intros (Hinv & Hsame & Hh)%boot_ok. split; cbn; [done|..]; intros t Ht; rewrite Hh; [by apply Hsame|constructor].
Qed.

Lemma pinv_reachable (s : RegState) (crms : nat → UnifiedRenameMap) (x : PState) :
  boot rf sb n = Ok (s, crms) → rtc (pstep rf x87_top cyc n) (pstart s crms) x → ∃ B, pinv rf n B (all_ids rf) x.
Proof.
  intros Hb%pinv_start. generalize (pstart s crms) as y, (renameMap s) as B, Hb. clear.
  intros y B Hi Htr. revert B Hi. induction Htr as [x|x y z Hxy _ IH]; intros B Hi; [by exists B|].
  destruct (pinv_step _ _ _ _ _ _ _ _ Hi Hxy) as [B' Hi']. by apply (IH B').
Qed.

(** C27: precise state: whenever rename is squashed back to the last instruction a thread
    committed, the squash succeeds and rename's map is commit's map, whatever was
    renamed, squashed and committed in between and however late rename was told. *)
Theorem precise_rename_map (s : RegState) (crms : nat → UnifiedRenameMap) (x : PState) (tid : nat) :
  boot rf sb n = Ok (s, crms) → rtc (pstep rf x87_top cyc n) (pstart s crms) x → (tid < n)%nat →
  ∃ s', rn_doSquash rf (ps_done x tid) tid (ps_regs x) = Ok s' ∧ renameMap s' tid = ps_commit x tid.
Proof.
  intros Hb Hr Ht. destruct (pinv_reachable s crms x Hb Hr) as [B [Hinv Hc _]].
  destruct (rn_squash_loop_ok rf n B _ (ps_done x tid) tid _ _ Hinv Ht eq_refl) as (s' & E & Hinv' & Eh & _).
  exists s'. split; [done|]. rewrite Hc, <- Eh by done. by apply (history_fold rf), (rn_hist _ _ _ _ _ Hinv').
Qed.

(** commit never fails to update its map: for the oldest instruction in flight, the
    class, mode, range and fixed-mapping assertions of [setEntry] hold for every
    destination. *)
Theorem commit_map_update_ok (s : RegState) (crms : nat → UnifiedRenameMap) (x : PState) (tid : nat) (p : InstPtr)
    (ps : list InstPtr) :
  boot rf sb n = Ok (s, crms) → rtc (pstep rf x87_top cyc n) (pstart s crms) x → (tid < n)%nat →
  ps_flight x tid = p :: ps →
  ∃ d m, rs_heap (ps_regs x) !! p = Some d ∧ commitRename rf d (ps_commit x tid) = Ok m.
Proof.
  intros Hb Hr Ht Hp. destruct (pinv_reachable s crms x Hb Hr) as [B Hi]. destruct x as [r c dn fl].
  eapply pinv_commit in Hi as (d & m & Hd & Hm & _); eauto.
Qed.
End precise.
