(* ===== verification/RenameTotal.v ===== *)
(** * Renaming does not run dry

    [canRename] compares what an instruction needs with the free lists; an instruction
    it admits has all its destinations renamed.  When nothing is in flight, what is free
    is what the machine has beyond the architectural registers. *)

From S2P Require Import Prelude Regs DynInst Scoreboard FreeList RenameMap RenameInv RenameSpec RenameProps.
Local Open Scope Z_scope.

Definition needs (c : RegClass) (l : list RegId) : nat := countb (λ r, bool_decide (regClass r = c)) l.

(** The check of [renameInsts] for an instruction. *)
Definition canRenameInst (d : DynInst) (f : UnifiedFreeList) : bool :=
  canRename (numDestRegsOf IntRegClass d) (numDestRegsOf FloatRegClass d) (numDestRegsOf VecRegClass d)
    (numDestRegsOf VecElemClass d) (numDestRegsOf CCRegClass d) f.

Lemma flattenRegId_class (top : Z) (r : RegId) : regClass (flattenRegId top r) = regClass r.
Proof. unfold flattenRegId. by destruct (regClass r) eqn:E. Qed.

Lemma rm_rename_total rf (a : RegId) (m : UnifiedRenameMap) (f : UnifiedFreeList) (q : PhysRegId) :
  vecMode m = Full → regClass a ≠ VecElemClass → regClass a ≠ MiscRegClass → 0 ≤ regIdx a → entry m a = Some q →
  (pinned_in m a = true → isZeroPhysReg q = true) → (0 < length (list_of (regClass a) f))%nat →
  is_ok (rm_rename rf a m f) = true.
Proof.
  intros Hv Hne Hm H0 (s & Hs & E)%entry_Some Hz Hl. unfold rm_rename. cbn zeta. rewrite Hs.
  assert (mode_ok (regClass a) m = true) as -> by (destruct (regClass a); cbn; rewrite ?Hv; done). cbn [assert mbind res_bind].
  unfold srm_rename, pinned_in in *. rewrite Hs in Hz.
  assert (RegId_flatIndex a = regIdx a) as Hi by (unfold RegId_flatIndex; by destruct (regClass a)).
  unfold slot in E. rewrite Hi in E.
  assert (vget (srm_map s) (regIdx a) = Ok (Some q)) as -> by (by apply vget_ok). cbn [deref mbind res_bind].
  destruct (RegId_eqb a (srm_zeroReg s)); [by rewrite Hz|]. destruct (list_of (regClass a) f) as [|r l]; [cbn in Hl; lia|].
  cbn [simple_getReg mbind res_bind]. apply lookup_lt_Some in E. by rewrite vset_in_range by lia.
Qed.

Section total.
Context (rf : PhysRegFile) (x87_top : nat → Z) (n : nat).
Implicit Types (s : RegState) (B : nat → UnifiedRenameMap) (U : list PhysRegId).

(** A register that can be renamed now: one with a mapping (the zero register's being the
    physical zero register) or a miscellaneous one. *)
Definition resolves s (tid : nat) (a : RegId) : Prop :=
  match regClass a with
  | MiscRegClass => ∃ q, getMiscRegId (RegId_flatIndex a) rf = Ok q ∧ in_range (scoreboard s) q = true
  | VecElemClass => False
  | _ => 0 ≤ regIdx a ∧ elemIdx a = no_elem ∧ ∃ q, entry (renameMap s tid) a = Some q
           ∧ (pinned_in (renameMap s tid) a = true → isZeroPhysReg q = true)
  end.

(** The scoreboard covers every register. *)
Definition sb_covers U s : Prop := ∀ r, r ∈ U → in_range (scoreboard s) r = true.

Lemma unsetReg_total (r : PhysRegId) (sb : Scoreboard) :
  in_range sb r = true → ∃ sb', unsetReg r sb = Ok sb' ∧ numPhysRegs sb' = numPhysRegs sb.
Proof.
  intros Hr. unfold unsetReg. rewrite Hr. cbn. destruct (isFixedMapping r); [by eexists|].
  destruct (isZeroPhysReg r); by eexists.
Qed.

Lemma resolves_scalar s (tid : nat) (a : RegId) :
  resolves s tid a → regClass a ≠ MiscRegClass →
  regClass a ≠ VecElemClass ∧ 0 ≤ regIdx a ∧ elemIdx a = no_elem
  ∧ ∃ q, entry (renameMap s tid) a = Some q ∧ (pinned_in (renameMap s tid) a = true → isZeroPhysReg q = true).
Proof. unfold resolves. destruct (regClass a); naive_solver. Qed.

(** Renaming one register keeps the others resolves. *)
Lemma resolves_update s s' (tid : nat) (a b : RegId) (q new : PhysRegId) :
  resolves s tid b → renameMap s' tid = update a new (renameMap s tid) → numPhysRegs (scoreboard s') = numPhysRegs (scoreboard s) →
  entry (renameMap s tid) a = Some q → 0 ≤ regIdx a → elemIdx a = no_elem → regClass a ≠ VecElemClass →
  pinned_in (renameMap s tid) a = false → resolves s' tid b.
Proof.
  intros Hb Em Esb Ha H0 He Hne Hpin. destruct (decide (regClass b = MiscRegClass)) as [Hm|Hm].
  - unfold resolves in *. rewrite Hm in *. destruct Hb as (r & Hr & Hin). exists r. split; [done|].
    unfold in_range in *. by rewrite Esb.
  - destruct (resolves_scalar s tid b Hb Hm) as (Hne' & H0' & He' & r & Hr & Hz).
    assert (Hok : 0 ≤ regIdx b ∧ elemIdx b = no_elem ∧ ∃ x, entry (renameMap s' tid) b = Some x
              ∧ (pinned_in (renameMap s' tid) b = true → isZeroPhysReg x = true)).
    { split; [done|]. split; [done|]. rewrite Em, (entry_update _ _ _ _ _ Ha), pinned_update. case_decide as Hs; [|by eauto].
      exists new. split; [done|]. intros Hp. destruct Hs as [Hc Hsl]. assert (b = a) as ->; [|congruence].
      destruct a as [ca ia ea], b as [cb ib eb]. cbn in *. unfold slot, RegId_flatIndex in Hsl. cbn in Hsl. subst ca.
      f_equal; [destruct cb; try done; lia|congruence]. }
    unfold resolves. destruct (regClass b); try done.
Qed.

Lemma free_in_U B U s (r : PhysRegId) : rename_inv rf n B U s → r ∈ all_free (freeList s) → r ∈ U.
Proof. intros [Hall _ _ _ _ _ _] Hr. rewrite <- Hall. unfold regs_of. apply elem_of_app. by left. Qed.
Lemma mapped_in_U B U s (tid : nat) (r : PhysRegId) :
  rename_inv rf n B U s → (tid < n)%nat → r ∈ mapped (renameMap s tid) → r ∈ U.
Proof.
  intros [Hall _ _ _ _ _ _] Ht Hr. rewrite <- Hall. unfold regs_of. destruct (held_split n tid Ht) as (rest & _ & _ & ->).
  rewrite !elem_of_app. right. left. unfold held. apply elem_of_app. by left.
Qed.

Lemma renameOneDest_total B U s (p : InstPtr) (tid k : nat) (d : DynInst) (r : RegId) :
  rename_inv rf n B U s → (tid < n)%nat → rs_heap s !! p = Some d → destRegs (staticInst d) !! k = Some r →
  resolves s tid (flattenRegId (x87_top (threadNumber d)) r) → sb_covers U s →
  (regClass r ≠ MiscRegClass → (0 < length (list_of (regClass r) (freeList s)))%nat) →
  ∃ s', renameOneDest rf x87_top p tid s k = Ok s'
    ∧ (∀ b, resolves s tid b → resolves s' tid b) ∧ sb_covers U s'
    ∧ ∀ c, (length (list_of c (freeList s)) ≤ length (list_of c (freeList s')) + needs c [r])%nat.
Proof.
  intros Hinv Ht Hd Hr Hn Hsb Hl. unfold renameOneDest. rewrite Hd. cbn [deref mbind res_bind]. rewrite Hr. cbn [deref mbind res_bind].
  set (a := flattenRegId _ r) in *. assert (Hca : regClass a = regClass r) by apply flattenRegId_class.
  pose proof (rn_mode _ _ _ _ _ Hinv tid Ht) as Hv. unfold needs. cbn [countb].
  destruct (decide (regClass a = MiscRegClass)) as [Hm|Hm].
  - pose proof Hn as Hn'. unfold resolves in Hn'. rewrite Hm in Hn'. destruct Hn' as (q & Hq & Hin).
    assert (rm_rename rf a (renameMap s tid) (freeList s) = Ok (q, q, renameMap s tid, freeList s)) as ->.
    { unfold rm_rename, rm_lookup. cbn zeta. rewrite Hm. cbn. by rewrite Hq. }
    destruct (unsetReg_total q _ Hin) as (sb & Esb & Enum). cbn [mbind res_bind]. rewrite Esb. cbn [mbind res_bind].
    eexists. split; [done|]. cbn. split_and!.
    + intros b Hb. unfold resolves in *. cbn. rewrite fn_lookup_insert. unfold in_range in *. rewrite Enum. done.
    + intros x Hx. unfold in_range in *. cbn. rewrite Enum. by apply Hsb.
    + intros c. lia.
  - destruct (resolves_scalar s tid a Hn Hm) as (Hne & H0 & He & q & Hent & Hz).
    pose proof (rm_rename_total rf a _ (freeList s) q Hv Hne Hm H0 Hent Hz ltac:(rewrite Hca; apply Hl; congruence)) as Hok.
    apply is_ok_spec in Hok as [[[[new prev] m] f] E]. rewrite E. cbn [mbind res_bind].
    pose proof E as Eok. apply rm_rename_ok in Eok; [|done|intros x; by apply (rn_class _ _ _ _ _ Hinv)].
    destruct Eok as [(Hpin & -> & -> & -> & Hset & _)|(Hpin & _ & _ & Hent' & -> & Hg)].
    + assert (Hin : in_range (scoreboard s) prev = true).
      { apply rm_setEntry_entry in Hset; [|done]. apply Hsb. eapply mapped_in_U; [done..|]. by eapply entry_in_mapped. }
      destruct (unsetReg_total prev _ Hin) as (sb & -> & Enum). cbn [mbind res_bind]. eexists. split; [done|]. cbn. split_and!.
      * intros b Hb. unfold resolves in *. cbn. rewrite fn_lookup_insert. unfold in_range in *. rewrite Enum. done.
      * intros x Hx. unfold in_range in *. cbn. rewrite Enum. by apply Hsb.
      * intros c. lia.
    + apply getClassReg_ok in Hg as (_ & Hlist & Hother & Hperm).
      assert (Hin : in_range (scoreboard s) new = true).
      { apply Hsb. eapply free_in_U; [done|]. rewrite Hperm. left. }
      destruct (unsetReg_total new _ Hin) as (sb & -> & Enum). cbn [mbind res_bind]. eexists. split; [done|]. cbn. split_and!.
      * intros b Hb. eapply (resolves_update s _ tid a b q new); try done. cbn. by rewrite fn_lookup_insert.
      * intros x Hx. unfold in_range in *. cbn. rewrite Enum. by apply Hsb.
      * intros c. destruct (decide (regClass r = c)) as [<-|Hc].
        -- rewrite bool_decide_true by done. rewrite <- Hca, Hlist. cbn. lia.
        -- rewrite bool_decide_false by done. rewrite Hother by congruence. lia.
Qed.

Lemma renameDests_total B U (p : InstPtr) (tid : nat) (l : list RegId) : ∀ (k : nat) s (d : DynInst),
  rename_inv rf n B U s → (tid < n)%nat → rs_heap s !! p = Some d →
  (∀ e, e ∈ historyBuffer s tid → instSeqNum e ≤ seqNum d) → drop k (destRegs (staticInst d)) = l →
  (∀ r, r ∈ l → resolves s tid (flattenRegId (x87_top (threadNumber d)) r)) → sb_covers U s →
  (∀ c, c ≠ MiscRegClass → (needs c l ≤ length (list_of c (freeList s)))%nat) →
  ∃ s', mfold (renameOneDest rf x87_top p tid) s (seq k (length l)) = Ok s'.
Proof.
  induction l as [|r l IH]; intros k s d Hinv Ht Hd Hh Hk Hn Hsb Hb; [by exists s|].
  assert (Hr : destRegs (staticInst d) !! k = Some r) by (by rewrite <- (Nat.add_0_r k), <- lookup_drop, Hk).
  destruct (renameOneDest_total B U s p tid k d r) as (s1 & E & Hn1 & Hsb1 & Hl1); try done.
  { apply Hn. left. }
  { intros Hm. specialize (Hb _ Hm). unfold needs in Hb. cbn [countb] in Hb. rewrite bool_decide_true in Hb by done. lia. }
  cbn [length seq mfold]. rewrite E. cbn [mbind res_bind].
  pose proof (rename_one_inv rf x87_top n B U p tid s s1 k d Hinv Ht Hd Hh E) as Hinv1.
  apply renameOneDest_ok in E as (d0 & d1 & e & m & f & sb & Hd0 & Hheap & Hq & Hst & Htn & He & _ & _ & _ & Es). simplify_eq.
  apply (IH (S k) s1 d1); try done.
  - by rewrite Hheap, lookup_insert_eq.
  - rewrite Es, Hq. cbn. rewrite fn_lookup_insert. intros x [->|Hx]%elem_of_cons; [lia|by apply Hh].
  - rewrite Hst, <- Nat.add_1_r, <- drop_drop, Hk. done.
  - intros b Hin. rewrite Htn. apply Hn1, Hn. by right.
  - intros c Hm. specialize (Hb c Hm). specialize (Hl1 c). unfold needs in *. cbn [countb] in *. lia.
Qed.
End total.

Lemma canRenameInst_needs (d : DynInst) (f : UnifiedFreeList) (c : RegClass) :
  canRenameInst d f = true → c ≠ MiscRegClass → (needs c (destRegs (staticInst d)) ≤ length (list_of c f))%nat.
Proof.
  unfold canRenameInst, canRename, numDestRegsOf, numFreeRegs, needs. rewrite !andb_true_iff, !Z.leb_le.
  intros Hc Hm. destruct c; cbn in *; [lia..|done].
Qed.

(** * Registers come back

    When nothing a thread renamed is still in its history, the free lists hold every
    register beyond the architectural ones, so renaming cannot starve: an instruction
    that fits the machine at all can be renamed once the pipeline has drained. *)
Local Open Scope Z_scope.

(** ** Which entries of a table are set *)
Definition set_slots (c : RegClass) (m : UnifiedRenameMap) : list bool :=
  (λ o : option PhysRegId, bool_decide (is_Some o)) <$> table c m.

Lemma set_slots_update (c : RegClass) (m : UnifiedRenameMap) (a : RegId) (p q : PhysRegId) :
  entry m a = Some q → set_slots c (update a p m) = set_slots c m.
Proof.
  intros E. unfold set_slots. rewrite table_update. case_decide as Hc; [|done]. subst c.
  unfold entry in E. rewrite list_fmap_insert. apply list_insert_id. rewrite list_lookup_fmap.
  destruct (table (regClass a) m !! slot a) as [[x|]|]; done.
Qed.

Lemma history_slots (rf : PhysRegFile) (c : RegClass) (base m : UnifiedRenameMap) (hb : list RenameHistory) :
  history_ok rf base hb m → set_slots c m = set_slots c base.
Proof. induction 1 as [|e hb m Hr Hh IH|e hb m Hr Hh IH Hp He]; [done|done|]. by rewrite (set_slots_update _ _ _ _ _ He). Qed.

(** A map with all its entries: every class but the elements, in whole-register mode. *)
Definition arch_count (c : RegClass) : nat :=
  match c with
  | IntRegClass => NumIntRegs
  | FloatRegClass => NumFloatRegs
  | VecRegClass => NumVecRegs
  | CCRegClass => NumCCRegs
  | VecElemClass | MiscRegClass => 0
  end.
Definition full_slots (c : RegClass) : list bool :=
  match c with
  | VecElemClass => replicate (NumVecRegs * Z.to_nat NumVecElemPerVecReg) false
  | _ => replicate (arch_count c) true
  end.
Definition full_map (m : UnifiedRenameMap) : Prop := ∀ c, set_slots c m = full_slots c.

(** ** Start-up fills the maps *)
Definition mark_slot (c : RegClass) (b : list bool) (a : RegId) : list bool :=
  if decide (c = regClass a) then <[slot a := true]> b else b.

Lemma set_slots_mark (c : RegClass) (m : UnifiedRenameMap) (a : RegId) (p : PhysRegId) :
  set_slots c (update a p m) = mark_slot c (set_slots c m) a.
Proof.
  unfold set_slots, mark_slot. rewrite table_update. case_decide as Hc; [|done]. by rewrite list_fmap_insert.
Qed.

Section boot.
Context (rf : PhysRegFile).

Lemma mapAll_slots (c c' : RegClass) (l : list RegId) : ∀ st st',
  mfold (mapOne rf c') st l = Ok st' → set_slots c st'.1.1 = foldl (mark_slot c) (set_slots c st.1.1) l.
Proof.
  induction l as [|a l IH]; intros [[rm crm] f] st' E; cbn in E; [by injection E as <-|].
  apply bind_ok in E as ([[rm1 crm1] f1] & E1 & E). apply bind_ok in E1 as ([p f2] & _ & E1).
  apply bind_ok in E1 as (rm2 & Hs%rm_setEntry_ok & E1). apply bind_ok in E1 as (crm2 & _ & [= <- <- <-]).
  rewrite (IH _ _ E). cbn. by rewrite Hs, set_slots_mark.
Qed.

Lemma initThreadMaps_full (st st' : UnifiedRenameMap * UnifiedRenameMap * UnifiedFreeList) (z1 z2 : Z) :
  st.1.1 = rm_init z1 z2 Full → initThreadMaps rf Full st = Ok st' → full_map st'.1.1.
Proof.
  intros Hst E c. unfold initThreadMaps in E.
  apply bind_ok in E as (s1 & E1 & E). apply bind_ok in E as (s2 & E2 & E). apply bind_ok in E as (s3 & E3 & E4).
  rewrite decide_True in E3 by done.
  rewrite (mapAll_slots c _ _ _ _ E4), (mapAll_slots c _ _ _ _ E3), (mapAll_slots c _ _ _ _ E2), (mapAll_slots c _ _ _ _ E1), Hst.
  destruct c; vm_compute; reflexivity.
Qed.

Lemma initMaps_full (k : nat) : ∀ (f f' : UnifiedFreeList) (rms crms : nat → UnifiedRenameMap) (t : nat),
  initMaps rf Full k f = Ok (rms, crms, f') →
  (t < k)%nat → full_map (rms t).
Proof.
  unfold initMaps. intros f f' rms crms t E.
  assert (H : (∀ t, (t < k)%nat → full_map (rms t)) ∧ ∀ t, (k ≤ t)%nat → rms t = rm_init ZeroReg (Z.of_nat NumFloatRegs + 1) Full).
  2: { apply H. }
  clear t. revert rms crms f' E. induction k as [|k IH]; intros rms crms f' E.
  { injection E as <- <- <-. split; [lia|done]. }
  rewrite seq_S, mfold_app in E. apply bind_ok in E as ([[rms1 crms1] f1] & E1 & E).
  destruct (IH _ _ _ E1) as [Hfull Hfresh]. cbn [Nat.add mfold] in E.
  apply bind_ok in E as ([[rms2 crms2] f2] & E & [= <- <- <-]). unfold initMaps_tid in E.
  apply bind_ok in E as ([[rm crm] f3] & E & [= <- <- <-]).
  apply (initThreadMaps_full _ _ ZeroReg (Z.of_nat NumFloatRegs + 1)) in E; [|cbn; apply Hfresh; lia]. split; intros t Ht.
  - destruct (decide (t = k)) as [->|Hne]; [by rewrite fn_lookup_insert|]. rewrite fn_lookup_insert_ne by done. apply Hfull. lia.
  - rewrite fn_lookup_insert_ne by lia. apply Hfresh. lia.
Qed.
End boot.

(** ** They stay full *)
Section trace.
Context (rf : PhysRegFile) (x87_top : nat → Z) (cyc : Z) (n : nat).

Definition full_maps (s : RegState) : Prop := ∀ t, (t < n)%nat → full_map (renameMap s t).

(** Two states explained by the same committed maps have the same entries set. *)
Lemma full_maps_base B U (s s' : RegState) :
  rename_inv rf n B U s → rename_inv rf n B U s' → full_maps s → full_maps s'.
Proof.
  intros Hi Hi' Hf t Ht c. rewrite (history_slots _ _ _ _ _ (rn_hist _ _ _ _ _ Hi' t Ht)).
  rewrite <- (history_slots _ _ _ _ _ (rn_hist _ _ _ _ _ Hi t Ht)). by apply Hf.
Qed.

Lemma full_maps_step B U (s s' : RegState) (l : rn_label) :
  rename_inv rf n B U s → full_maps s → rn_step rf x87_top cyc n s l s' → full_maps s'.
Proof.
  intros Hi Hf Hst. destruct Hst as [tid p d s1 s2 d' Ht Hd Hw Hy E1 E2 Hd'|tid sn s' Ht E|tid sn s' Ht E|h sb t].
  - destruct (rename_inst_ok _ _ _ _ _ _ _ _ _ _ _ _ _ Hi Ht Hd Hw Hy E1 E2 Hd') as (Hi2 & _). exact (full_maps_base B U s s2 Hi Hi2 Hf).
  - destruct (rn_squash_loop_ok rf n B U sn tid _ s Hi Ht eq_refl) as (s1 & E1 & Hi' & _).
    unfold rn_doSquash in E. rewrite E in E1. injection E1 as <-. exact (full_maps_base B U s s' Hi Hi' Hf).
  - destruct (commit_loop_ok rf n U sn tid _ B s Hi Ht ltac:(by rewrite reverse_involutive)) as (s1 & E1 & _ & _ & Em & _).
    unfold removeFromHistory in E. rewrite E in E1. injection E1 as <-. intros t Ht'. rewrite Em. by apply Hf.
  - exact Hf.
Qed.

Lemma full_maps_trace B U (s s' : RegState) (ls : list rn_label) :
  rename_inv rf n B U s → full_maps s → rn_trace rf x87_top cyc n s ls s' → full_maps s'.
Proof.
  intros Hi Hf. induction 1 as [|ls s1 l s2 Htr IH Hst]; [done|].
  destruct (rename_inv_reachable _ _ _ _ _ _ _ _ _ Hi Htr) as [B1 Hi1]. by eapply full_maps_step.
Qed.
End trace.

(** ** The zero register *)
Section zero.
Implicit Types (m base : UnifiedRenameMap) (a : RegId) (hb : list RenameHistory).

(** The maps as they are made, before the constructor fills them. *)
Definition fresh_map : UnifiedRenameMap := rm_init ZeroReg (Z.of_nat NumFloatRegs + 1) Full.
Definition same_pins m : Prop := ∀ a, pinned_in m a = pinned_in fresh_map a.
Lemma fresh_pinned a : pinned_in fresh_map a = true → regClass a = MiscRegClass ∨ a = zero_reg.
Proof.
  unfold pinned_in. destruct (regClass a) eqn:Ec; cbn; intros E; try (by left); apply RegId_eqb_eq in E; subst a; try done. by right.
Qed.
(** Registers that are no vector elements are named without an element. *)
Definition scalar_name a : Prop := regClass a ≠ VecElemClass → elemIdx a = no_elem.

Lemma history_pins rf base m hb : history_ok rf base hb m → same_pins base ↔ same_pins m.
Proof.
  induction 1 as [|e hb m Hr Hh IH|e hb m Hr Hh IH Hp He]; [done|done|]. rewrite IH. unfold same_pins.
  split; intros Hx a; specialize (Hx a); by rewrite pinned_update in *.
Qed.
(** A history does not touch the zero register. *)
Lemma history_zero rf base m hb :
  history_ok rf base hb m → same_pins base → (∀ e, e ∈ hb → scalar_name (archReg e)) → entry m zero_reg = entry base zero_reg.
Proof.
  induction 1 as [|e hb m Hr Hh IH|e hb m Hr Hh IH Hp He H0 Hne]; intros Hb Hs; [done|apply IH; [done|]; intros; apply Hs; by right|].
  rewrite (entry_update _ _ _ _ _ He). rewrite <- IH by (done || (intros; apply Hs; by right)). case_decide as Hsl; [|done].
  exfalso. destruct Hsl as [Hc Hslot]. pose proof (Hs e ltac:(left) Hne) as Hel.
  apply (history_pins rf base m hb Hh) in Hb. rewrite (Hb (archReg e)) in Hp.
  assert (archReg e = zero_reg) as Ez; [|rewrite Ez in Hp; by vm_compute in Hp].
  destruct (archReg e) as [c i el]. cbn in Hc, Hel. subst c el. unfold slot, RegId_flatIndex in *. cbn [regClass regIdx zero_reg] in *. unfold zero_reg.
  apply Z2Nat.inj in Hslot as <-; [done|vm_compute; done|done].
Qed.

(** What holds of the maps throughout: the zero register of thread 0 keeps its mapping. *)
Record zero_inv (n : nat) (s0 s : RegState) : Prop := {
  zi_pins : ∀ t, (t < n)%nat → same_pins (renameMap s t);
  zi_names : ∀ t e, (t < n)%nat → e ∈ historyBuffer s t → scalar_name (archReg e);
  zi_zero : ∀ t, (t < n)%nat → entry (renameMap s t) zero_reg = entry (renameMap s0 t) zero_reg;
}.
Definition label_scalar (l : rn_label) : Prop :=
  match l with LRename _ _ _ dests => ∀ a q, (a, q) ∈ dests → scalar_name a | _ => True end.

Section steps.
Context (rf : PhysRegFile) (x87_top : nat → Z) (cyc : Z) (n : nat).
(** States explained by the same committed maps agree. *)
Lemma zero_inv_base B U (s0 s s' : RegState) :
  rename_inv rf n B U s → rename_inv rf n B U s' → zero_inv n s0 s →
  (∀ t e, (t < n)%nat → e ∈ historyBuffer s' t → scalar_name (archReg e)) → zero_inv n s0 s'.
Proof.
  intros Hi Hi' [Z1 Z2 Z3] Hn. pose proof (rn_hist _ _ _ _ _ Hi) as Hh. pose proof (rn_hist _ _ _ _ _ Hi') as Hh'.
  assert (HB : ∀ t, (t < n)%nat → same_pins (B t)) by (intros t Ht; apply (history_pins rf _ _ _ (Hh t Ht)); auto).
  split; [intros t Ht; apply (history_pins rf _ _ _ (Hh' t Ht)); auto|done|].
  intros t Ht. rewrite (history_zero rf _ _ _ (Hh' t Ht) (HB t Ht)), <- Z3 by eauto. symmetry. apply (history_zero rf _ _ _ (Hh t Ht)); eauto.
Qed.

Lemma zero_inv_step B U (s0 s s' : RegState) (l : rn_label) :
  rename_inv rf n B U s → zero_inv n s0 s → rn_step rf x87_top cyc n s l s' → label_scalar l → zero_inv n s0 s'.
Proof.
  intros Hi Hz Hst Hl. pose proof Hz as [Z1 Z2 Z3]. destruct Hst as [tid p d s1 s2 d' Ht Hd Hw Hy E1 E2 Hd'|tid sn s' Ht E|tid sn s' Ht E|h sb t].
  - destruct (rename_inst_ok _ _ _ _ _ _ _ _ _ _ _ _ _ Hi Ht Hd Hw Hy E1 E2 Hd') as (Hi2 & Hsame & _ & es & Eh & _ & Ea & En & _).
    apply (zero_inv_base B U s0 s s2 Hi Hi2 Hz). intros t e Ht' He. destruct (decide (t = tid)) as [->|Hne].
    2: { destruct (Hsame t Hne) as [_ Eh']. rewrite Eh' in He. eauto. }
    rewrite Eh in He. apply elem_of_app in He as [He|He]; [|eauto]. rewrite elem_of_reverse in He.
    apply list_elem_of_lookup in He as [i Hi']. apply (Hl (archReg e) (newPhysReg e)). rewrite <- En.
    apply (list_elem_of_lookup_2 _ i), lookup_zip_Some. rewrite <- Ea, !list_lookup_fmap, Hi'. done.
  - destruct (rn_squash_loop_ok rf n B U sn tid _ s Hi Ht eq_refl) as (s1 & E1 & Hi' & Eh & _ & _ & Hsame).
    unfold rn_doSquash in E. rewrite E in E1. injection E1 as <-. apply (zero_inv_base B U s0 s s' Hi Hi' Hz).
    intros t e Ht' He. destruct (decide (t = tid)) as [->|Hne]; [|destruct (Hsame t Hne) as [_ Eh']; rewrite Eh' in He; eauto].
    rewrite Eh in He. apply list_elem_of_filter in He as [_ He]. eauto.
  - destruct (commit_loop_ok rf n U sn tid _ B s Hi Ht ltac:(by rewrite reverse_involutive)) as (s1 & E1 & _ & Eh & Em & _ & _ & Hsame).
    unfold removeFromHistory in E. rewrite E in E1. injection E1 as <-. split; [by rewrite Em| |by rewrite Em].
    intros t e Ht' He. destruct (decide (t = tid)) as [->|Hne]; [|destruct (Hsame t Hne) as [_ Eh']; rewrite Eh' in He; eauto].
    rewrite Eh, reverse_involutive in He. apply list_elem_of_filter in He as [_ He]. eauto.
  - done.
Qed.
Lemma zero_inv_trace B U (s0 s : RegState) (ls : list rn_label) :
  rename_inv rf n B U s0 → zero_inv n s0 s0 → rn_trace rf x87_top cyc n s0 ls s → Forall label_scalar ls → zero_inv n s0 s.
Proof.
  intros Hi Hz. induction 1 as [|ls s1 l s2 Htr IH Hst]; [done|]. intros [Hls Hl]%Forall_app. inversion_clear Hl as [|? ? Hl' _].
  destruct (rename_inv_reachable _ _ _ _ _ _ _ _ _ Hi Htr) as [B1 Hi1]. exact (zero_inv_step B1 U s0 s1 s2 l Hi1 (IH Hls) Hst Hl').
Qed.
End steps.

(** *** At start-up *)
Section boot_zero.
Context (rf : PhysRegFile).
Implicit Types (st : UnifiedRenameMap * UnifiedRenameMap * UnifiedFreeList).

Lemma mapOne_update (c : RegClass) a st st' :
  mapOne rf c st a = Ok st' →
  ∃ r, list_of c st.2 = r :: list_of c st'.2 ∧ st'.1.1 = update a r st.1.1 ∧ (regClass a ≠ MiscRegClass → entry st'.1.1 a = Some r).
Proof.
  destruct st as [[rm crm] f]. intros E. apply bind_ok in E as ([p f'] & Hg & E). apply bind_ok in E as (rm' & Hs & E).
  apply bind_ok in E as (crm' & _ & [= <-]). apply getClassReg_ok in Hg as (_ & Hl & _). exists p. split; [done|]. split; [by eapply rm_setEntry_ok|].
  intros Hm. by eapply rm_setEntry_entry.
Qed.
(** The registers are mapped in order, each once. *)
Lemma mapAll_in_order (c : RegClass) (l : list RegId) : ∀ st st',
  c ≠ MiscRegClass → (∀ a, a ∈ l → regClass a = c) → NoDup (slot <$> l) → mfold (mapOne rf c) st l = Ok st' →
  (∀ i a, l !! i = Some a → entry st'.1.1 a = list_of c st.2 !! i)
  ∧ (∀ b, (∀ a, a ∈ l → ¬ same_slot b a) → entry st'.1.1 b = entry st.1.1 b)
  ∧ ∀ b, pinned_in st'.1.1 b = pinned_in st.1.1 b.
Proof.
  induction l as [|a l IH]; intros st st' Hm Hc Hnd E; cbn in E; [by injection E as <-|].
  apply bind_ok in E as (st1 & E1 & E). apply mapOne_update in E1 as (r & Hl & Em & Ea). specialize (Ea ltac:(rewrite (Hc a) by left; done)).
  apply list.NoDup_cons in Hnd as [Hna Hnd]. destruct (IH _ _ Hm ltac:(intros; apply Hc; by right) Hnd E) as (H1 & H2 & H3). rewrite Hl. split_and!.
  - intros [|i] b Hb; cbn in Hb |- *; [|by apply H1]. injection Hb as <-. rewrite H2, Ea; [done|].
    intros b Hb [_ Hs]. apply Hna. rewrite Hs. by apply list_elem_of_fmap_2.
  - intros b Hb. rewrite H2, Em by (intros; apply Hb; by right). apply entry_update_ne. apply Hb. left.
  - intros b. by rewrite H3, Em, pinned_update.
Qed.
Lemma initThreadMaps_zero st st' :
  st.1.1 = fresh_map → initThreadMaps rf Full st = Ok st' →
  same_pins st'.1.1 ∧ entry st'.1.1 zero_reg = list_of IntRegClass st.2 !! Z.to_nat ZeroReg.
Proof.
  intros Hst E. unfold initThreadMaps in E.
  apply bind_ok in E as (s1 & E1 & E). apply bind_ok in E as (s2 & E2 & E). apply bind_ok in E as (s3 & E3 & E4).
  rewrite decide_True in E3 by done.
  assert (H : ∀ c k s s', c ≠ MiscRegClass → c ≠ VecElemClass → mfold (mapOne rf c) s (archRegs c k) = Ok s' →
    (∀ i a, archRegs c k !! i = Some a → entry s'.1.1 a = list_of c s.2 !! i)
    ∧ (∀ b, regClass b ≠ c → entry s'.1.1 b = entry s.1.1 b) ∧ ∀ b, pinned_in s'.1.1 b = pinned_in s.1.1 b).
  { intros c k s s' Hm Hv E. destruct (mapAll_in_order c (archRegs c k) s s' Hm) as (H1 & H2 & H3); [apply archRegs_class| |done|].
    - by apply archRegs_slots.
    - split_and!; [done| |done]. intros b Hb. apply H2. intros a Ha%archRegs_class [Hc _]. congruence. }
  apply H in E1 as (A1 & _ & P1); [|done..]. apply H in E2 as (_ & A2 & P2); [|done..].
  apply H in E3 as (_ & A3 & P3); [|done..]. apply H in E4 as (_ & A4 & P4); [|done..].
  split; [intros b; by rewrite P4, P3, P2, P1, Hst|]. rewrite A4, A3, A2 by done. apply (A1 (Z.to_nat ZeroReg)). vm_compute. reflexivity.
Qed.

Lemma initMaps_zero (k : nat) : ∀ (f f' : UnifiedFreeList) (rms crms : nat → UnifiedRenameMap),
  initMaps rf Full k f = Ok (rms, crms, f') →
  (∀ t, (t < k)%nat → same_pins (rms t)) ∧ ((0 < k)%nat → entry (rms 0%nat) zero_reg = list_of IntRegClass f !! Z.to_nat ZeroReg).
Proof.
  unfold initMaps. intros f f' rms crms E.
  enough (H : (∀ t, (t < k)%nat → same_pins (rms t)) ∧ ((0 < k)%nat → entry (rms 0%nat) zero_reg = list_of IntRegClass f !! Z.to_nat ZeroReg)
    ∧ ∀ t, (k ≤ t)%nat → rms t = fresh_map) by (by destruct H as (? & ? & _)).
  revert rms crms f' E. induction k as [|k IH]; intros rms crms f' E.
  { injection E as <- <- <-. split_and!; [lia|lia|done]. }
  rewrite seq_S, mfold_app in E. apply bind_ok in E as ([[rms1 crms1] f1] & E1 & E). pose proof E1 as E1'.
  apply IH in E1 as (H1 & H2 & H3). cbn [Nat.add mfold] in E.
  apply bind_ok in E as ([[rms2 crms2] f2] & E & [= <- <- <-]). unfold initMaps_tid in E.
  apply bind_ok in E as ([[rm crm] f3] & E & [= <- <- <-]). apply initThreadMaps_zero in E as [Hp Hz]; [|cbn; apply H3; lia].
  split_and!.
  - intros t Ht. destruct (decide (t = k)) as [->|Hne]; [by rewrite fn_lookup_insert|]. rewrite fn_lookup_insert_ne by done. apply H1. lia.
  - intros _. destruct k as [|k]; [|rewrite fn_lookup_insert_ne by done; apply H2; lia]. rewrite fn_lookup_insert. cbn in Hz, E1'. injection E1' as _ _ <-. done.
  - intros t Ht. rewrite fn_lookup_insert_ne by lia. apply H3. lia.
Qed.
End boot_zero.

Lemma addRegs_list (c c' : RegClass) (regs : list PhysRegId) (f f' : UnifiedFreeList) (t t' : taint) :
  of_class c regs → addRegs regs f t = Ok (f', t') → list_of c' f' = list_of c' f ++ if decide (c' = c) then regs else [].
Proof.
  intros Hc E. unfold addRegs in E. destruct regs as [|r regs]; [injection E as <- <-; case_decide; by rewrite app_nil_r|].
  cbn zeta in E. rewrite (Hc r ltac:(left)) in E. apply bind_ok in E as (? & _ & E).
  apply bind_ok in E as (u & Hm%panic_if_ok%bool_decide_eq_false & E). pose proof (simple_addRegs_1 (r :: regs) (list_of c f) t) as Hs.
  destruct (simple_addRegs _ _) as [l t0]. cbn in Hs. injection E as <- <-. subst l. rewrite list_of_set by done.
  case_decide as Ec; [by subst|by rewrite app_nil_r].
Qed.
Lemma boot_zero_inv (nInt nFloat nVec nCC nMisc n : nat) (sb : Scoreboard) (s : RegState) (crms : nat → UnifiedRenameMap) :
  boot (PhysRegFile_init nInt nFloat nVec nCC nMisc Full) sb n = Ok (s, crms) →
  zero_inv n s s ∧ ∀ q, (0 < n)%nat → entry (renameMap s 0%nat) zero_reg = Some q → isZeroPhysReg q = true.
Proof.
  intros E. destruct (boot_ok _ _ _ _ _ _ _ _ _ E) as (_ & _ & Hh). unfold boot in E. apply bind_ok in E as ([f t] & Hf & E).
  apply bind_ok in E as ([[rms crms'] f'] & Hm & E). injection E as <- <-. apply initMaps_zero in Hm as [Hp Hz]. cbn in *.
  split; [split; [done| |done]|]. { intros t' e _ He. by apply not_elem_of_nil in He. }
  intros q Hn Hq. rewrite Hz in Hq by done. unfold UnifiedFreeList_init, initFreeList in Hf. cbn [PhysRegFile_init intRegIds floatRegIds vecRegIds ccRegIds] in Hf.
  apply bind_ok in Hf as (? & _ & Hf). apply bind_ok in Hf as ([f1 t1] & E1 & Hf). apply bind_ok in Hf as (? & _ & Hf).
  apply bind_ok in Hf as ([f2 t2] & E2 & Hf). apply bind_ok in Hf as (? & _ & Hf). apply bind_ok in Hf as ([f3 t3] & E3 & Hf).
  apply bind_ok in Hf as (? & _ & E4). cbn [rf_vecMode] in E3. rewrite decide_True in E3 by done.
  apply (addRegs_list IntRegClass IntRegClass) in E1; [|apply scalarIds_class]. apply (addRegs_list FloatRegClass IntRegClass) in E2; [|apply scalarIds_class].
  apply (addRegs_list VecRegClass IntRegClass) in E3; [|apply scalarIds_class]. apply (addRegs_list CCRegClass IntRegClass) in E4; [|apply scalarIds_class].
  change (list_of IntRegClass f !! Z.to_nat ZeroReg = Some q) in Hq. rewrite E4, E3, E2, E1 in Hq. cbn [decide] in Hq.
  repeat case_decide; try done. rewrite !app_nil_r in Hq. unfold scalarIds in Hq. change (list_of IntRegClass (MkUnifiedFreeList [] [] [] [] [])) with (@nil PhysRegId) in Hq. cbn [app] in Hq.
  rewrite list_lookup_fmap in Hq. destruct (seq 0 nInt !! Z.to_nat ZeroReg) as [i|] eqn:Ei; [|done]. injection Hq as <-.
  apply lookup_seq in Ei as [-> _]. by vm_compute.
Qed.
End zero.

(** ** Counting by class *)
Definition of_cls (c : RegClass) (p : PhysRegId) : bool := bool_decide (regClass (pr_reg p) = c).

Lemma countb_Permutation {A} (f : A → bool) (l1 l2 : list A) : l1 ≡ₚ l2 → countb f l1 = countb f l2.
Proof. induction 1; cbn; lia. Qed.
Lemma countb_class (c c' : RegClass) (l : list PhysRegId) :
  (∀ p, p ∈ l → regClass (pr_reg p) = c') → countb (of_cls c) l = (if decide (c = c') then length l else 0%nat).
Proof.
  induction l as [|p l IH]; intros Hl; [by destruct (decide _)|]. cbn. rewrite IH by (intros q Hq; apply Hl; by right).
  unfold of_cls. rewrite (Hl p) by left. destruct (decide (c = c')) as [->|Hne]; [by rewrite bool_decide_true|by rewrite bool_decide_false by congruence].
Qed.

Lemma free_count (c : RegClass) (f : UnifiedFreeList) :
  fl_wf f → c ≠ MiscRegClass → countb (of_cls c) (all_free f) = length (list_of c f).
Proof.
  intros Hw Hm. unfold all_free. rewrite !countb_app.
  rewrite (countb_class c IntRegClass (intList f)) by (apply (Hw IntRegClass)).
  rewrite (countb_class c FloatRegClass (floatList f)) by (apply (Hw FloatRegClass)).
  rewrite (countb_class c VecRegClass (vecList f)) by (apply (Hw VecRegClass)).
  rewrite (countb_class c VecElemClass (vecElemList f)) by (apply (Hw VecElemClass)).
  rewrite (countb_class c CCRegClass (ccList f)) by (apply (Hw CCRegClass)).
  destruct c; cbn; try done; lia.
Qed.

(** A table holds as many registers as it has entries set. *)
Lemma entries_length (l : list (option PhysRegId)) :
  length (entries l) = countb id ((λ o : option PhysRegId, bool_decide (is_Some o)) <$> l).
Proof. induction l as [|[p|] l IH]; cbn; [done|by rewrite <- IH|done]. Qed.

Lemma mapped_count (c : RegClass) (m : UnifiedRenameMap) :
  full_map m → (∀ a p, entry m a = Some p → regClass (pr_reg p) = regClass a) →
  countb (of_cls c) (mapped m) = arch_count c.
Proof.
  intros Hf Hc. assert (Ht : ∀ c', c' ≠ MiscRegClass → c' ≠ VecElemClass →
    countb (of_cls c) (entries (table c' m)) = if decide (c = c') then arch_count c else 0%nat).
  { intros c' Hm Hv. rewrite (countb_class c c').
    - destruct (decide (c = c')) as [->|]; [|done]. rewrite entries_length. fold (set_slots c' m). rewrite Hf.
      destruct c'; try done; vm_compute; reflexivity.
    - intros p Hp. unfold entries in Hp. apply list_elem_of_omap in Hp as (o & Ho & Hop). cbn in Hop. subst o.
      apply list_elem_of_lookup in Ho as [i Hi]. apply (Hc (MkRegId c' (Z.of_nat i) no_elem)). unfold entry. cbn.
      assert (slot (MkRegId c' (Z.of_nat i) no_elem) = i) as ->; [|by rewrite Hi].
      unfold slot, RegId_flatIndex. cbn. destruct c'; try done; lia. }
  assert (Hve : entries (table VecElemClass m) = []).
  { apply nil_length_inv. rewrite entries_length. fold (set_slots VecElemClass m). rewrite Hf. done. }
  unfold mapped. rewrite !countb_app. change (srm_map (vecElemMap m)) with (table VecElemClass m). rewrite Hve.
  change (srm_map (intMap m)) with (table IntRegClass m). change (srm_map (floatMap m)) with (table FloatRegClass m).
  change (srm_map (vecMap m)) with (table VecRegClass m). change (srm_map (ccMap m)) with (table CCRegClass m).
  rewrite !Ht by done. destruct c; vm_compute; reflexivity.
Qed.

(** ** Drained *)
Definition phys_count (nInt nFloat nVec nCC : nat) (c : RegClass) : nat :=
  match c with
  | IntRegClass => nInt
  | FloatRegClass => nFloat
  | VecRegClass => nVec
  | CCRegClass => nCC
  | VecElemClass | MiscRegClass => 0
  end.

Lemma join_count (c : RegClass) (g : nat → list PhysRegId) (k n : nat) :
  (∀ t, (t < n)%nat → countb (of_cls c) (g t) = k) → countb (of_cls c) (mjoin (g <$> seq 0 n)) = (n * k)%nat.
Proof.
  induction n as [|n IH]; intros Hg; [done|]. rewrite seq_S, fmap_app, join_app, countb_app, IH by (intros; apply Hg; lia).
  cbn. rewrite app_nil_r, Hg by lia. lia.
Qed.

Section props.
Context (nInt nFloat nVec nCC nMisc n : nat) (sb : Scoreboard) (x87_top : nat → Z) (cyc : Z).
Local Notation rf := (PhysRegFile_init nInt nFloat nVec nCC nMisc Full).

Lemma all_ids_count (c : RegClass) : countb (of_cls c) (all_ids rf) = phys_count nInt nFloat nVec nCC c.
Proof.
  unfold all_ids. cbn [PhysRegFile_init intRegIds floatRegIds vecRegIds ccRegIds]. rewrite !countb_app.
  rewrite (countb_class c IntRegClass), (countb_class c FloatRegClass), (countb_class c VecRegClass), (countb_class c CCRegClass)
    by apply scalarIds_class.
  unfold scalarIds. rewrite !length_fmap, !length_seq. destruct c; repeat (case_decide; try done); cbn; lia.
Qed.

Lemma drained_free (s : RegState) B (c : RegClass) :
  rename_inv rf n B (all_ids rf) s → full_maps n s → (∀ t, (t < n)%nat → historyBuffer s t = []) → c ≠ MiscRegClass →
  (length (list_of c (freeList s)) + n * arch_count c = phys_count nInt nFloat nVec nCC c)%nat.
Proof.
  intros Hi Hf Hh Hm. rewrite <- (all_ids_count c), <- (countb_Permutation _ _ _ (rn_all _ _ _ _ _ Hi)).
  unfold regs_of. rewrite countb_app, (free_count c _ (rn_free _ _ _ _ _ Hi) Hm). f_equal. symmetry. apply join_count.
  intros t Ht. unfold held. rewrite (Hh t Ht), app_nil_r. apply mapped_count; [by apply Hf|].
  intros a p. by apply (rn_class _ _ _ _ _ Hi t).
Qed.

Lemma boot_full (s : RegState) (crms : nat → UnifiedRenameMap) : boot rf sb n = Ok (s, crms) → full_maps n s.
Proof.
  intros Hb. unfold boot in Hb. apply bind_ok in Hb as ([f t] & _ & Hb).
  apply bind_ok in Hb as ([[rms crms'] f'] & Hm & Hb). injection Hb as <- <-. intros t' Ht'. cbn. by eapply initMaps_full.
Qed.

(** C35: renaming cannot starve: in every reachable state in which the histories have
    drained (everything renamed was squashed or its commit reported), an instruction is
    admitted by [canRename] whenever it needs no more registers of each class than the
    machine has beyond the architectural registers of its threads. *)
Theorem drained_can_rename (s0 s : RegState) (crms : nat → UnifiedRenameMap) (ls : list rn_label) (d : DynInst) :
  boot rf sb n = Ok (s0, crms) → rn_trace rf x87_top cyc n s0 ls s →
  (∀ t, (t < n)%nat → historyBuffer s t = []) →
  (∀ c, c ≠ MiscRegClass →
     (needs c (destRegs (staticInst d)) + n * arch_count c ≤ phys_count nInt nFloat nVec nCC c)%nat) →
  canRenameInst d (freeList s) = true.
Proof.
  intros Hb Htr Hh Hn. destruct (boot_ok nInt nFloat nVec nCC nMisc n sb s0 crms Hb) as (Hi & _).
  assert (Hf : full_maps n s) by (eapply full_maps_trace; [exact Hi|by eapply boot_full|exact Htr]).
  destruct (rename_inv_reachable _ _ _ _ _ _ _ _ _ Hi Htr) as [B Hi'].
  assert (Hle : ∀ c, c ≠ MiscRegClass → (needs c (destRegs (staticInst d)) ≤ length (list_of c (freeList s)))%nat).
  { intros c Hm. pose proof (drained_free s B c Hi' Hf Hh Hm). specialize (Hn c Hm). lia. }
  unfold canRenameInst, canRename, numDestRegsOf, numFreeRegs. rewrite !andb_true_iff, !Z.leb_le.
  pose proof (Hle IntRegClass ltac:(done)). pose proof (Hle FloatRegClass ltac:(done)). pose proof (Hle VecRegClass ltac:(done)).
  pose proof (Hle VecElemClass ltac:(done)). pose proof (Hle CCRegClass ltac:(done)). unfold needs in *. cbn in *. lia.
Qed.
End props.

(** ** What [canRename] admits can be renamed *)
Section admitted.
Context (nInt nFloat nVec nCC nMisc n : nat) (sb : Scoreboard) (x87_top : nat → Z) (cyc : Z).
Local Notation rf := (PhysRegFile_init nInt nFloat nVec nCC nMisc Full).

(** The registers an instruction of a thread may write: those of the instruction set.
    Threads other than the first must not write the zero register. *)
Definition nameable (tid : nat) (a : RegId) : Prop :=
  match regClass a with
  | MiscRegClass => 0 ≤ regIdx a < Z.of_nat nMisc
  | VecElemClass => False
  | c => 0 ≤ regIdx a < Z.of_nat (arch_count c) ∧ elemIdx a = no_elem ∧ (tid ≠ 0%nat → isZeroReg a = false)
  end.
(** [totalNumPhysRegs], the size of the scoreboard. *)
Definition totalNumRegs : Z :=
  Z.of_nat nInt + Z.of_nat nFloat + Z.of_nat nVec + Z.of_nat nVec * NumVecElemPerVecReg + Z.of_nat nCC.

Lemma total_covers (s : RegState) : numPhysRegs (scoreboard s) = totalNumRegs → sb_covers (all_ids rf) s.
Proof.
  intros E r Hr. unfold in_range. rewrite E. unfold totalNumRegs, all_ids in *. cbn [PhysRegFile_init intRegIds floatRegIds vecRegIds ccRegIds] in Hr.
  assert (0 ≤ NumVecElemPerVecReg) by (vm_compute; done). rewrite !elem_of_app in Hr. unfold scalarIds in Hr. rewrite !list_elem_of_fmap in Hr.
  destruct Hr as [Hr|[Hr|[Hr|Hr]]]; destruct Hr as (i & -> & Hi%elem_of_seq); cbn; rewrite andb_true_iff, Z.leb_le, Z.ltb_lt; nia.
Qed.

Lemma full_entry (m : UnifiedRenameMap) (a : RegId) :
  full_map m → regClass a ≠ VecElemClass → 0 ≤ regIdx a < Z.of_nat (arch_count (regClass a)) → is_Some (entry m a).
Proof.
  intros Hf Hv Hr. assert (Hs : slot a = Z.to_nat (regIdx a)) by (unfold slot, RegId_flatIndex; destruct (regClass a); done).
  specialize (Hf (regClass a)). assert (E : set_slots (regClass a) m !! slot a = Some true).
  { rewrite Hf, Hs. unfold full_slots. destruct (regClass a); try done; apply lookup_replicate_2; lia. }
  unfold set_slots in E. rewrite list_lookup_fmap in E. unfold entry. destruct (table (regClass a) m !! slot a) as [[q|]|]; [by eexists|done|done].
Qed.

Lemma nameable_resolves (s0 s : RegState) (tid : nat) (a : RegId) :
  full_maps n s → zero_inv n s0 s → (∀ q, (0 < n)%nat → entry (renameMap s0 0%nat) zero_reg = Some q → isZeroPhysReg q = true) →
  (tid < n)%nat → 0 < numPhysRegs (scoreboard s) → nameable tid a → resolves rf s tid a.
Proof.
  intros Hf [Z1 _ Z3] Hz Ht Hpos Hn.
  destruct (decide (regClass a = MiscRegClass)) as [Hm|Hm]; [|destruct (decide (regClass a = VecElemClass)) as [Hv|Hv]].
  - unfold nameable, resolves in *. rewrite Hm in *. unfold getMiscRegId, RegId_flatIndex. rewrite Hm. cbn [PhysRegFile_init miscRegIds].
    eexists. split; [apply vget_ok; split; [lia|]; rewrite list_lookup_fmap, lookup_seq_lt by lia; reflexivity|].
    unfold in_range. cbn. by apply Z.ltb_lt.
  - unfold nameable in Hn. by rewrite Hv in Hn.
  - assert (Hn' : 0 ≤ regIdx a < Z.of_nat (arch_count (regClass a)) ∧ elemIdx a = no_elem ∧ (tid ≠ 0%nat → isZeroReg a = false)).
    { unfold nameable in Hn. by destruct (regClass a). }
    destruct Hn' as (Hr & He & Hzero). destruct (full_entry (renameMap s tid) a (Hf tid Ht) Hv Hr) as [q Hq].
    assert (H : 0 ≤ regIdx a ∧ elemIdx a = no_elem ∧ ∃ q, entry (renameMap s tid) a = Some q
       ∧ (pinned_in (renameMap s tid) a = true → isZeroPhysReg q = true)).
    { split; [lia|]. split; [done|]. exists q. split; [done|]. intros Hp. rewrite (Z1 tid Ht) in Hp. apply fresh_pinned in Hp as [?|Hp]; [done|subst a].
      destruct (decide (tid = 0%nat)) as [->|Hne]; [|by specialize (Hzero Hne)]. apply Hz; [lia|]. by rewrite <- Z3 by done. }
    unfold resolves. destruct (regClass a); done.
Qed.

(** C34: an instruction [canRename] admits gets all its destinations: in every reachable
    state, if the free lists have as many registers of each class as the instruction has
    destinations, no assertion of the free list, the maps or the scoreboard fails.  The
    destinations are registers of the instruction set; an instruction of a thread other
    than the first does not write the zero register, whose mapping there fails the map's
    assertion.  The scoreboard has the size the constructor gives it. *)
Theorem canRename_suffices (s0 s : RegState) (crms : nat → UnifiedRenameMap) (ls : list rn_label) (tid : nat)
    (p : InstPtr) (d : DynInst) :
  boot rf sb n = Ok (s0, crms) → rn_trace rf x87_top cyc n s0 ls s → Forall label_scalar ls → (tid < n)%nat →
  rs_heap s !! p = Some d → (∀ e, e ∈ historyBuffer s tid → instSeqNum e < seqNum d) →
  (∀ r, r ∈ destRegs (staticInst d) → nameable tid (flattenRegId (x87_top (threadNumber d)) r)) →
  numPhysRegs (scoreboard s) = totalNumRegs → canRenameInst d (freeList s) = true →
  ∃ s', renameDestRegs rf x87_top p tid s = Ok s'.
Proof.
  intros Hb Htr Hls Ht Hd Hy Hn Hsb Hc. destruct (boot_ok nInt nFloat nVec nCC nMisc n sb s0 crms Hb) as (Hinv & _).
  destruct (boot_zero_inv _ _ _ _ _ _ _ _ _ Hb) as [Hz0 Hzq]. pose proof (boot_full _ _ _ _ _ _ _ _ _ Hb) as Hf0.
  destruct (rename_inv_reachable _ _ _ _ _ _ _ _ _ Hinv Htr) as [B Hinv'].
  pose proof (full_maps_trace _ _ _ _ _ _ _ _ _ Hinv Hf0 Htr) as Hf. pose proof (zero_inv_trace _ _ _ _ _ _ _ _ _ Hinv Hz0 Htr Hls) as Hz.
  pose proof (total_covers s Hsb) as Hcov.
  assert (Hpos : 0 < numPhysRegs (scoreboard s)).
  { destruct (full_entry (renameMap s tid) (MkRegId IntRegClass 0 no_elem) (Hf tid Ht)) as [q Hq]; [done|vm_compute; done|].
    pose proof (Hcov q ltac:(eapply mapped_in_U; [exact Hinv'|done|by eapply entry_in_mapped])) as Hr. unfold in_range in Hr.
    apply andb_true_iff in Hr as [?%Z.leb_le ?%Z.ltb_lt]. lia. }
  unfold renameDestRegs. rewrite Hd. cbn [deref mbind res_bind]. unfold numDestRegs. rewrite Nat2Z.id. eapply (renameDests_total _ _ _ B); try done.
  - intros e He. specialize (Hy e He). lia.
  - intros r Hr. eapply nameable_resolves; eauto.
  - intros c Hm. by apply canRenameInst_needs.
Qed.
End admitted.
