(* ===== verification/Rename.v ===== *)
(** * The rename stage

    [src/cpu/o3/rename.hh] and [rename_impl.hh]: the per-thread state machine around
    [RenameRegs.v].  Instructions from decode wait in [insts]; when the stage cannot
    take them they move to the skid buffer; a serializing instruction waits alone until
    the ROB is empty; credits ([freeEntries] less what is in progress) keep rename from
    sending more than the ROB, the IQ and the load and store queues can take.

    Wires: [RnIn] is what IEW and commit drove some cycles ago, [fromDecode] the
    instructions decode sends; [renameBlock], [renameUnblock] and [toIEW] are written.
    [toIEWIndex] is the length of [toIEW].  The activity flag [wroteToTimeBuffer] and
    the statistics are left out. *)

From S2P Require Import Prelude Regs DynInst Scoreboard FreeList RenameMap.
Local Open Scope Z_scope.

(** [int] from an [unsigned] result. *)
Definition s32 (z : Z) : Z := (z + 2 ^ 31) mod 2 ^ 32 - 2 ^ 31.

(** ** State *)
Inductive RenameStatus :=
| RnActive
| RnInactive.

Inductive ThreadStatus :=
| RnRunning
| RnIdle
| RnStartSquash
| RnSquashing
| RnBlocked
| RnUnblocking
| RnSerializeStall.

#[export] Instance ThreadStatus_eq_dec : EqDecision ThreadStatus.
Proof. solve_decision. Defined.
#[export] Instance RenameStatus_eq_dec : EqDecision RenameStatus.
Proof. solve_decision. Defined.

Record FreeEntries := MkFreeEntries {
  iqEntries : Z;
  robEntries : Z;
  lqEntries : Z;
  sqEntries : Z;
}.

(** [iewInfo], [iewBlock], [iewUnblock] and [commitInfo] of one thread. *)
Record RnIn := MkRnIn {
  in_freeIQEntries : Z;
  in_freeLQEntries : Z;
  in_freeSQEntries : Z;
  in_dispatchedToLQ : Z;
  in_dispatchedToSQ : Z;
  in_dispatched : Z;
  in_usedIQ : bool;
  in_usedLSQ : bool;
  in_iewBlock : bool;
  in_iewUnblock : bool;
  in_squash : bool;
  in_doneSeqNum : Z;
  in_usedROB : bool;
  in_freeROBEntries : Z;
  in_emptyROB : bool;
}.

Record Rename := MkRename {
  rn_status : RenameStatus;
  renameStatus : nat → ThreadStatus;
  rn_insts : nat → list InstPtr;
  skidBuffer : nat → list InstPtr;
  instsInProgress : nat → Z;
  loadsInProgress : nat → Z;
  storesInProgress : nat → Z;
  rn_freeEntries : nat → FreeEntries;
  rn_emptyROB : nat → bool;
  stalls_iew : nat → bool;
  serializeInst : nat → option InstPtr;
  serializeOnNextInst : nat → bool;
  blockThisCycle : bool;
  resumeSerialize : bool;
  resumeUnblocking : bool;
  toIEW : list InstPtr;
  renameBlock : nat → bool;
  renameUnblock : nat → bool;
  rn_regs : RegState;
}.
#[export] Instance Rename_eta : Updatable Rename := λ r, MkRename (rn_status r) (renameStatus r) (rn_insts r)
  (skidBuffer r) (instsInProgress r) (loadsInProgress r) (storesInProgress r) (rn_freeEntries r) (rn_emptyROB r)
  (stalls_iew r) (serializeInst r) (serializeOnNextInst r) (blockThisCycle r) (resumeSerialize r)
  (resumeUnblocking r) (toIEW r) (renameBlock r) (renameUnblock r) (rn_regs r).

Section stage.
Context (rf : PhysRegFile) (x87_top : nat → Z) (curCycle : Z).
Context (renameWidth skidBufferMax : Z) (numThreads : nat) (activeThreads : list nat).
Context (from : nat → RnIn) (fromDecode : list InstPtr).
Implicit Types (s : Rename).

Definition on_heap (f : heap → heap) s : Rename := s <| rn_regs := rn_regs s <| rs_heap ::= f |> |>.
Definition rn_inst (p : InstPtr) s : res DynInst := deref (rs_heap (rn_regs s) !! p).

(** ** Credits *)
Definition calcFreeROBEntries (tid : nat) s : Z :=
  s32 (robEntries (rn_freeEntries s tid) - (instsInProgress s tid - in_dispatched (from tid))).
Definition calcFreeIQEntries (tid : nat) s : Z :=
  s32 (iqEntries (rn_freeEntries s tid) - (instsInProgress s tid - in_dispatched (from tid))).
Definition calcFreeLQEntries (tid : nat) s : Z :=
  s32 (lqEntries (rn_freeEntries s tid) - (loadsInProgress s tid - in_dispatchedToLQ (from tid))).
Definition calcFreeSQEntries (tid : nat) s : Z :=
  s32 (sqEntries (rn_freeEntries s tid) - (storesInProgress s tid - in_dispatchedToSQ (from tid))).

Definition readFreeEntries (tid : nat) s : Rename :=
  let i := from tid in
  let e := rn_freeEntries s tid in
  let iq := if in_usedIQ i then in_freeIQEntries i else iqEntries e in
  let lq := if in_usedLSQ i then in_freeLQEntries i else lqEntries e in
  let sq := if in_usedLSQ i then in_freeSQEntries i else sqEntries e in
  let rob := if in_usedROB i then in_freeROBEntries i else robEntries e in
  let s := s <| rn_freeEntries ::= <[tid := MkFreeEntries iq rob lq sq]> |> in
  if in_usedROB i then s <| rn_emptyROB ::= <[tid := in_emptyROB i]> |> else s.

Definition readStallSignals (tid : nat) s : res Rename :=
  let s := if in_iewBlock (from tid) then s <| stalls_iew ::= <[tid := true]> |> else s in
  if in_iewUnblock (from tid) then
    _ ← assert (stalls_iew s tid);
    Ok (s <| stalls_iew ::= <[tid := false]> |>)
  else Ok s.

Definition checkStall (tid : nat) s : bool :=
  stalls_iew s tid
  || (calcFreeROBEntries tid s <=? 0)
  || (calcFreeIQEntries tid s <=? 0)
  || ((calcFreeLQEntries tid s <=? 0) && (calcFreeSQEntries tid s <=? 0))
  || (rm_numFreeEntries (renameMap (rn_regs s) tid) (freeList (rn_regs s)) <=? 0)
  || (bool_decide (renameStatus s tid = RnSerializeStall)
      && (negb (rn_emptyROB s tid) || negb (instsInProgress s tid =? 0))).

(** ** Queues *)
Definition validInsts s : res Z :=
  mfold (λ n p, d ← rn_inst p s; Ok (if isSquashed d then n else n + 1)) 0 fromDecode.

Definition sortInst s (p : InstPtr) : res Rename :=
  d ← rn_inst p s;
  Ok (s <| rn_insts ::= <[threadNumber d := rn_insts s (threadNumber d) ++ [p]]> |>).
Definition sortInsts s : res Rename := mfold sortInst s fromDecode.

(** The loop moves everything; the size is checked at the end. *)
Definition skidOne (tid : nat) s (p : InstPtr) : res Rename :=
  d ← rn_inst p s;
  _ ← assert (bool_decide (tid = threadNumber d));
  Ok (s <| rn_insts ::= <[tid := tail (rn_insts s tid)]> |>
        <| skidBuffer ::= <[tid := skidBuffer s tid ++ [p]]> |>).
Definition skidInsert (tid : nat) s : res Rename :=
  s ← mfold (skidOne tid) s (rn_insts s tid);
  _ ← panic_if (skidBufferMax <? Z.of_nat (length (skidBuffer s tid)));
  Ok s.

Definition skidsEmpty s : bool := forallb (λ tid, bool_decide (skidBuffer s tid = [])) activeThreads.

(** ** Blocking *)
Definition block (tid : nat) s : res (bool * Rename) :=
  s ← skidInsert tid s;
  if decide (renameStatus s tid = RnBlocked) then Ok (false, s)
  else
    let s := if resumeUnblocking s || negb (bool_decide (renameStatus s tid = RnUnblocking))
             then s <| renameBlock ::= <[tid := true]> |> <| renameUnblock ::= <[tid := false]> |> else s in
    if decide (renameStatus s tid = RnSerializeStall) then Ok (false, s)
    else Ok (true, s <| renameStatus ::= <[tid := RnBlocked]> |>).

Definition unblock (tid : nat) s : bool * Rename :=
  if bool_decide (skidBuffer s tid = []) && negb (bool_decide (renameStatus s tid = RnSerializeStall))
  then (true, s <| renameUnblock ::= <[tid := true]> |> <| renameStatus ::= <[tid := RnRunning]> |>)
  else (false, s).

Definition updateStatus s : Rename :=
  let any_unblocking := existsb (λ tid, bool_decide (renameStatus s tid = RnUnblocking)) activeThreads in
  if any_unblocking then
    (if decide (rn_status s = RnInactive) then s <| rn_status := RnActive |> else s)
  else (if decide (rn_status s = RnActive) then s <| rn_status := RnInactive |> else s).

(** ** Squash *)
Definition squashFromDecode (squash_seq_num : Z) (tid : nat) s (p : InstPtr) : res Rename :=
  d ← rn_inst p s;
  Ok (if bool_decide (threadNumber d = tid) && (squash_seq_num <? seqNum d)
      then on_heap (<[p := setSquashed d]>) s else s).

Definition rn_squash (squash_seq_num : Z) (tid : nat) s : res Rename :=
  s ← (match renameStatus s tid with
       | RnBlocked | RnUnblocking =>
           Ok (s <| renameUnblock ::= <[tid := true]> |> <| resumeSerialize := false |>
                 <| serializeInst ::= <[tid := None]> |>)
       | RnSerializeStall =>
           p ← deref (serializeInst s tid);
           d ← rn_inst p s;
           Ok (if seqNum d <=? squash_seq_num then s <| resumeSerialize := true |>
               else s <| resumeSerialize := false |> <| renameUnblock ::= <[tid := true]> |>
                      <| serializeInst ::= <[tid := None]> |>)
       | _ => Ok s
       end);
  let s := s <| renameStatus ::= <[tid := RnSquashing]> |> in
  s ← mfold (squashFromDecode squash_seq_num tid) s fromDecode;
  let s := s <| rn_insts ::= <[tid := []]> |> <| skidBuffer ::= <[tid := []]> |> in
  r ← rn_doSquash rf squash_seq_num tid (rn_regs s);
  Ok (s <| rn_regs := r |>).

(** ** Status *)
Definition checkSignalsAndUpdate (tid : nat) s : res (bool * Rename) :=
  let s := readFreeEntries tid s in
  s ← readStallSignals tid s;
  if in_squash (from tid) then
    s ← rn_squash (in_doneSeqNum (from tid)) tid s;
    Ok (true, s)
  else if checkStall tid s then block tid s
  else match renameStatus s tid with
       | RnBlocked => Ok (true, (unblock tid (s <| renameStatus ::= <[tid := RnUnblocking]> |>)).2)
       | RnSquashing =>
           if resumeSerialize s then Ok (true, s <| renameStatus ::= <[tid := RnSerializeStall]> |>)
           else if resumeUnblocking s then Ok (true, s <| renameStatus ::= <[tid := RnUnblocking]> |>)
           else Ok (false, s <| renameStatus ::= <[tid := RnRunning]> |>)
       | RnSerializeStall =>
           let serial_inst := serializeInst s tid in
           let s := (unblock tid (s <| renameStatus ::= <[tid := RnUnblocking]> |>)).2 in
           p ← deref serial_inst;
           d ← rn_inst p s;
           let s := on_heap (<[p := clearSerializeBefore d]>) s in
           let s := if decide (skidBuffer s tid = []) then s <| rn_insts ::= <[tid := p :: rn_insts s tid]> |>
                    else s <| skidBuffer ::= <[tid := p :: skidBuffer s tid]> |> in
           Ok (true, s <| serializeInst ::= <[tid := None]> |>)
       | _ => Ok (false, s)
       end.

(** ** Renaming *)
(** [insts_to_rename]: the skid buffer while unblocking, else the input queue. *)
Definition queue (unblocking : bool) (tid : nat) s : list InstPtr :=
  if unblocking then skidBuffer s tid else rn_insts s tid.
Definition set_queue (unblocking : bool) (tid : nat) (q : list InstPtr) s : Rename :=
  if unblocking then s <| skidBuffer ::= <[tid := q]> |> else s <| rn_insts ::= <[tid := q]> |>.

(** [front()->setSerializeBefore()]. *)
Definition serializeFront (q : list InstPtr) s : res Rename :=
  p ← deref (head q);
  d ← rn_inst p s;
  Ok (on_heap (<[p := setSerializeBefore d]>) s).
Definition serializeAfter (inst_list : list InstPtr) (tid : nat) s : res Rename :=
  match inst_list with
  | [] => Ok (s <| serializeOnNextInst ::= <[tid := true]> |>)
  | _ => serializeFront inst_list s
  end.

(** The end of an iteration: the operands, the counters, the queue to IEW. *)
Definition sendInst (tid : nat) (p : InstPtr) (inst : DynInst) s : res Rename :=
  r ← renameSrcRegs rf x87_top curCycle p (threadNumber inst) (rn_regs s);
  r ← renameDestRegs rf x87_top p (threadNumber inst) r;
  let s := s <| rn_regs := r |> in
  let s := if isLoad inst then s <| loadsInProgress ::= <[tid := loadsInProgress s tid + 1]> |> else s in
  let s := if isStore inst then s <| storesInProgress ::= <[tid := storesInProgress s tid + 1]> |> else s in
  Ok (s <| toIEW := toIEW s ++ [p] |>).

(** What becomes of the instruction at the front. *)
Inductive verdict :=
| NoLSQ  (* no load or store queue entry: break *)
| Skipped  (* squashed: popped *)
| NoRegs  (* canRename failed: put back, break *)
| Serialize  (* popped and kept in serializeInst, break *)
| Send (after : bool).  (* popped and renamed; [after]: it is serializing *)

Definition judge (tid : nat) (inst : DynInst) s : verdict :=
  if isLoad inst && (calcFreeLQEntries tid s <=? 0) then NoLSQ
  else if isStore inst && (calcFreeSQEntries tid s <=? 0) then NoLSQ
  else if isSquashed inst then Skipped
  else if negb (canRename (numDestRegsOf IntRegClass inst) (numDestRegsOf FloatRegClass inst)
                  (numDestRegsOf VecRegClass inst) (numDestRegsOf VecElemClass inst)
                  (numDestRegsOf CCRegClass inst) (freeList (rn_regs s))) then NoRegs
  else if (isIprAccess inst || isSerializeBefore inst) && negb (isSerializeHandled inst) then Serialize
  else Send ((isStoreConditional inst || isSerializeAfter inst) && negb (isSerializeHandled inst)).

(** The loop; it ends with [insts_available] and [renamed_insts]. *)
Fixpoint renameLoop (unblocking : bool) (tid : nat) (insts_available : nat) (renamed_insts : Z) s
    : res (nat * Z * Rename) :=
  match insts_available with
  | O => Ok (O, renamed_insts, s)
  | S avail =>
      if renameWidth <=? Z.of_nat (length (toIEW s)) then Ok (insts_available, renamed_insts, s)
      else match queue unblocking tid s with
           | [] => Err AssertFailed
           | p :: rest =>
               inst ← rn_inst p s;
               match judge tid inst s with
               | NoLSQ => Ok (insts_available, renamed_insts, s)
               | Skipped => renameLoop unblocking tid avail renamed_insts (set_queue unblocking tid rest s)
               | NoRegs => Ok (insts_available, renamed_insts, s <| blockThisCycle := true |>)
               | Serialize =>
                   let s := set_queue unblocking tid rest s in
                   let s := if isTempSerializeBefore inst then s else on_heap (<[p := setSerializeHandled inst]>) s in
                   Ok (insts_available, renamed_insts,
                       s <| renameStatus ::= <[tid := RnSerializeStall]> |>
                         <| serializeInst ::= <[tid := Some p]> |> <| blockThisCycle := true |>)
               | Send after =>
                   let s := set_queue unblocking tid rest s in
                   s ← (if after then serializeAfter rest tid (on_heap (<[p := setSerializeHandled inst]>) s) else Ok s);
                   s ← sendInst tid p inst s;
                   renameLoop unblocking tid avail (renamed_insts + 1) s
               end
           end
  end.

(** [serializeOnNextInst]. *)
Definition serializeNext (unblocking : bool) (tid : nat) s : res Rename :=
  if serializeOnNextInst s tid then
    if rn_emptyROB s tid && (instsInProgress s tid =? 0)
    then Ok (s <| serializeOnNextInst ::= <[tid := false]> |>)
    else match queue unblocking tid s with
         | [] => Ok s
         | q => serializeFront q s
         end
  else Ok s.

Definition renameInsts (tid : nat) s : res Rename :=
  let unblocking := bool_decide (renameStatus s tid = RnUnblocking) in
  let insts_available := Z.of_nat (length (queue unblocking tid s)) in
  if insts_available =? 0 then Ok s
  else
    let min_free_entries := Z.min (calcFreeROBEntries tid s) (calcFreeIQEntries tid s) in
    if min_free_entries <=? 0 then
      '(_, s) ← block tid (s <| blockThisCycle := true |>);
      Ok s
    else
      let s := if min_free_entries <? insts_available then s <| blockThisCycle := true |> else s in
      s ← serializeNext unblocking tid s;
      '(avail, renamed_insts, s) ← renameLoop unblocking tid (Z.to_nat (Z.min min_free_entries insts_available)) 0 s;
      let s := s <| instsInProgress ::= <[tid := instsInProgress s tid + renamed_insts]> |> in
      let s := if bool_decide (avail = O) then s else s <| blockThisCycle := true |> in
      if blockThisCycle s then
        '(_, s) ← block tid s;
        Ok (s <| renameUnblock ::= <[tid := false]> |>)
      else Ok s.

Definition rename (status_change : bool) (tid : nat) s : res (bool * Rename) :=
  s ← (match renameStatus s tid with
       | RnSerializeStall =>
           if resumeSerialize s then
             '(_, s) ← block tid (s <| resumeSerialize := false |>);
             Ok (s <| renameUnblock ::= <[tid := false]> |>)
           else Ok s
       | RnUnblocking =>
           if resumeUnblocking s then
             '(_, s) ← block tid s;
             Ok (s <| resumeUnblocking := false |> <| renameUnblock ::= <[tid := false]> |>)
           else Ok s
       | _ => Ok s
       end);
  match renameStatus s tid with
  | RnRunning | RnIdle => s ← renameInsts tid s; Ok (status_change, s)
  | RnUnblocking =>
      s ← renameInsts tid s;
      valid ← validInsts s;
      s ← (if valid =? 0 then Ok s else skidInsert tid s);
      let '(b, s) := unblock tid s in
      Ok (b || status_change || blockThisCycle s, s)
  | _ => Ok (status_change, s)
  end.

(** ** A cycle *)
Definition tickThread (st : bool * Rename) (tid : nat) : res (bool * Rename) :=
  let '(status_change, s) := st in
  '(b, s) ← checkSignalsAndUpdate tid s;
  rename (b || status_change) tid s.
Definition tickCommitted s (tid : nat) : res Rename :=
  if negb (in_doneSeqNum (from tid) =? 0) && negb (in_squash (from tid))
     && negb (bool_decide (renameStatus s tid = RnSquashing)) then
    r ← removeFromHistory (in_doneSeqNum (from tid)) tid (rn_regs s);
    Ok (s <| rn_regs := r |>)
  else Ok s.
Definition tickProgress s (tid : nat) : res Rename :=
  let i := from tid in
  let s := s <| instsInProgress ::= <[tid := s32 (instsInProgress s tid - in_dispatched i)]> |>
             <| loadsInProgress ::= <[tid := s32 (loadsInProgress s tid - in_dispatchedToLQ i)]> |>
             <| storesInProgress ::= <[tid := s32 (storesInProgress s tid - in_dispatchedToSQ i)]> |> in
  _ ← assert (0 <=? loadsInProgress s tid);
  _ ← assert (0 <=? storesInProgress s tid);
  _ ← assert (0 <=? instsInProgress s tid);
  Ok s.

(** The wires written this cycle start out clear. *)
Definition tick s : res Rename :=
  let s := s <| blockThisCycle := false |> <| toIEW := [] |>
             <| renameBlock := (λ _, false) |> <| renameUnblock := (λ _, false) |> in
  s ← sortInsts s;
  '(status_change, s) ← mfold tickThread (false, s) activeThreads;
  let s := if (status_change : bool) then updateStatus s else s in
  s ← mfold tickCommitted s activeThreads;
  mfold tickProgress s (seq 0 numThreads).

(** ** Start-up and draining *)
Definition resetThread (freeIQ freeLQ freeSQ freeROB : nat → Z) s (tid : nat) : Rename :=
  s <| renameStatus ::= <[tid := RnIdle]> |>
    <| rn_freeEntries ::= <[tid := MkFreeEntries (freeIQ tid) (freeROB tid) (freeLQ tid) (freeSQ tid)]> |>
    <| rn_emptyROB ::= <[tid := true]> |>
    <| stalls_iew ::= <[tid := false]> |>
    <| serializeInst ::= <[tid := None]> |>
    <| instsInProgress ::= <[tid := 0]> |>
    <| loadsInProgress ::= <[tid := 0]> |>
    <| storesInProgress ::= <[tid := 0]> |>
    <| serializeOnNextInst ::= <[tid := false]> |>.
(** [freeIQ] and the others are what the stages report. *)
Definition resetStage (freeIQ freeLQ freeSQ freeROB : nat → Z) s : Rename :=
  foldl (resetThread freeIQ freeLQ freeSQ freeROB)
    (s <| rn_status := RnInactive |> <| resumeSerialize := false |> <| resumeUnblocking := false |>)
    (seq 0 numThreads).

Definition drainedThread s (tid : nat) : bool :=
  (instsInProgress s tid =? 0) && bool_decide (historyBuffer (rn_regs s) tid = [])
  && bool_decide (skidBuffer s tid = []) && bool_decide (rn_insts s tid = [])
  && (bool_decide (renameStatus s tid = RnIdle) || bool_decide (renameStatus s tid = RnRunning)).
Definition rn_isDrained s : bool := forallb (drainedThread s) (seq 0 numThreads).
Definition drainSanityCheck s : res unit :=
  mfold (λ _ tid,
    _ ← assert (bool_decide (historyBuffer (rn_regs s) tid = []));
    _ ← assert (bool_decide (rn_insts s tid = []));
    _ ← assert (bool_decide (skidBuffer s tid = []));
    assert (instsInProgress s tid =? 0)) tt (seq 0 numThreads).
End stage.
