(* ===== verification/RenameStage.v ===== *)
(** * The rename stage keeps its invariant

    How each operation of [Rename.v] moves instructions between the queues and what it
    leaves alone; the order of the instructions; and the invariant of renaming. *)

From S2P Require Import Prelude Regs DynInst CPU Scoreboard FreeList RenameMap RenameInv RenameSpec Rename.
Local Open Scope Z_scope.

(** ** Instructions *)
(** What the stage never changes in an instruction. *)
Definition same_shape (d d' : DynInst) : Prop :=
  seqNum d' = seqNum d ∧ threadNumber d' = threadNumber d ∧ staticInst d' = staticInst d
  ∧ length (srcRegIdx_ d') = length (srcRegIdx_ d) ∧ length (destRegIdx_ d') = length (destRegIdx_ d)
  ∧ length (flatDestRegIdx d') = length (flatDestRegIdx d).
Definition shapes_kept (h h' : heap) : Prop :=
  ∀ p d, h !! p = Some d → ∃ d', h' !! p = Some d' ∧ same_shape d d'.
(** Only a squash changes more. *)
Definition same_id (d d' : DynInst) : Prop :=
  seqNum d' = seqNum d ∧ threadNumber d' = threadNumber d ∧ staticInst d' = staticInst d
  ∧ isSquashed d' = isSquashed d
  ∧ length (srcRegIdx_ d') = length (srcRegIdx_ d) ∧ length (destRegIdx_ d') = length (destRegIdx_ d)
  ∧ length (flatDestRegIdx d') = length (flatDestRegIdx d).
Definition ids_kept (h h' : heap) : Prop :=
  ∀ p d, h !! p = Some d → ∃ d', h' !! p = Some d' ∧ same_id d d'.

#[export] Instance same_id_po : PreOrder same_id.
Proof.
  split; [by intros d|]. intros d1 d2 d3 (?&?&?&?&?&?&?) (?&?&?&?&?&?&?). split_and!; congruence.
Qed.
#[export] Instance ids_kept_po : PreOrder ids_kept.
Proof.
  split.
  - intros h p d Hd. by exists d.
  - intros h1 h2 h3 H12 H23 p d Hd. destruct (H12 p d Hd) as (d' & Hd' & E1). destruct (H23 p d' Hd') as (d'' & Hd'' & E2).
    exists d''. split; [done|by etrans].
Qed.

Lemma ids_shapes (h h' : heap) : ids_kept h h' → shapes_kept h h'.
Proof.
  intros Hk p d Hd. destruct (Hk p d Hd) as (d' & Hd' & ?&?&?&?&?&?&?). exists d'. by split_and!.
Qed.

Lemma ids_kept_insert (h : heap) (p : InstPtr) (d d' : DynInst) :
  h !! p = Some d → same_id d d' → ids_kept h (<[p := d']> h).
Proof.
  intros Hd Hs q x Hx. destruct (decide (q = p)) as [->|Hne].
  - exists d'. rewrite lookup_insert_eq. split; [done|]. congruence.
  - exists x. rewrite lookup_insert_ne by done. done.
Qed.

Lemma operands_wf_shape (d d' : DynInst) : same_shape d d' → operands_wf d → operands_wf d'.
Proof. intros (_ & _ & Es & E1 & E2 & E3). unfold operands_wf. by rewrite Es, E1, E2, E3. Qed.
Lemma operands_wf_same (d d' : DynInst) : same_id d d' → operands_wf d → operands_wf d'.
Proof. intros (?&?&?&_&?&?&?). apply operands_wf_shape. by split_and!. Qed.

(** Setting a status bit other than [Squashed]. *)
Lemma same_id_set (st : Status) (d : DynInst) : st ≠ Squashed → same_id d (st_set st d).
Proof. intros Hs. split_and!; try done. unfold isSquashed. apply get_st_set_ne. done. Qed.
Lemma same_id_reset (st : Status) (d : DynInst) : st ≠ Squashed → same_id d (st_reset st d).
Proof. intros Hs. split_and!; try done. unfold isSquashed. apply get_st_reset_ne. done. Qed.

Section operands.
Context (rf : PhysRegFile) (x87_top : nat → Z) (cyc : Z).

Lemma renameOneSrc_ids (p : InstPtr) (tid i : nat) (s s' : RegState) :
  renameOneSrc rf x87_top cyc p tid s i = Ok s' → ids_kept (rs_heap s) (rs_heap s').
Proof.
  unfold renameOneSrc. intros E. apply bind_ok in E as (d & Hd%deref_ok & E).
  apply bind_ok in E as (a & _ & E). apply bind_ok in E as (q & _ & E). apply bind_ok in E as (u & _ & E).
  cbn zeta in E. apply bind_ok in E as (b & _ & E). apply bind_ok in E as (d' & Hd' & E). injection E as <-.
  apply (ids_kept_insert _ _ d); [done|]. destruct b.
  - unfold markSrcRegReady_idx, markSrcRegReady in Hd'. cbn zeta in Hd'. apply bind_ok in Hd' as (u' & _ & Hd').
    injection Hd' as <-. destruct (_ =? _); [|split_and!; try done; cbn; by rewrite length_insert].
    split_and!; try done; [|cbn; by rewrite length_insert]. unfold isSquashed, setCanIssue. by rewrite get_st_set_ne.
  - injection Hd' as <-. split_and!; try done. cbn. by rewrite length_insert.
Qed.
Lemma renameSrcRegs_ids (p : InstPtr) (tid : nat) (s s' : RegState) :
  renameSrcRegs rf x87_top cyc p tid s = Ok s' → ids_kept (rs_heap s) (rs_heap s').
Proof.
  unfold renameSrcRegs. intros E. apply bind_ok in E as (d & _ & E).
  eapply (mfold_inv (λ s', ids_kept (rs_heap s) (rs_heap s'))); [|done|exact E].
  intros s1 i s2 _ H1 E1. etrans; [exact H1|]. by eapply renameOneSrc_ids.
Qed.

Lemma renameDestRegs_ids (p : InstPtr) (tid : nat) (s s' : RegState) :
  renameDestRegs rf x87_top p tid s = Ok s' → ids_kept (rs_heap s) (rs_heap s').
Proof.
  unfold renameDestRegs. intros E. apply bind_ok in E as (d & _ & E).
  eapply (mfold_inv (λ s', ids_kept (rs_heap s) (rs_heap s'))); [|done|exact E].
  intros s1 i s2 _ H1 E1. etrans; [exact H1|]. unfold renameOneDest in E1.
  apply bind_ok in E1 as (d1 & Hd1%deref_ok & E1). apply bind_ok in E1 as (r & _ & E1). cbn zeta in E1.
  apply bind_ok in E1 as ([[[new prev] m] f] & _ & E1). apply bind_ok in E1 as (sb & _ & E1). injection E1 as <-. cbn.
  apply (ids_kept_insert _ _ d1); [done|]. split_and!; try done; cbn; by rewrite length_insert.
Qed.
End operands.

(** ** Order *)
(** Instructions of a thread in program order, all younger than [lo]. *)
Fixpoint in_order (h : heap) (tid : nat) (lo : Z) (l : list InstPtr) : Prop :=
  match l with
  | [] => True
  | p :: l' => ∃ d, h !! p = Some d ∧ lo < seqNum d ∧ threadNumber d = tid ∧ operands_wf d
                    ∧ in_order h tid (seqNum d) l'
  end.

Lemma in_order_shape (h h' : heap) (tid : nat) (l : list InstPtr) : ∀ lo,
  shapes_kept h h' → in_order h tid lo l → in_order h' tid lo l.
Proof.
  induction l as [|p l IH]; intros lo Hk; [done|]. intros (d & Hd & Hlo & Ht & Hw & Hl).
  destruct (Hk p d Hd) as (d' & Hd' & Hs). pose proof Hs as (Eq & Et & _). exists d'. rewrite Eq, Et.
  split_and!; try done; [by eapply operands_wf_shape|by apply IH].
Qed.
Lemma in_order_kept (h h' : heap) (tid : nat) (l : list InstPtr) (lo : Z) :
  ids_kept h h' → in_order h tid lo l → in_order h' tid lo l.
Proof. intros Hk. by apply in_order_shape, ids_shapes. Qed.
Lemma in_order_lower (h : heap) (tid : nat) (lo lo' : Z) (l : list InstPtr) :
  lo' ≤ lo → in_order h tid lo l → in_order h tid lo' l.
Proof. destruct l as [|p l]; [done|]. intros Hle (d & ? & ? & ?). exists d. split_and!; naive_solver lia. Qed.
Lemma in_order_app (h : heap) (tid : nat) (l1 l2 : list InstPtr) : ∀ lo,
  in_order h tid lo (l1 ++ l2) → in_order h tid lo l1 ∧ ∃ lo', lo ≤ lo' ∧ in_order h tid lo' l2
    ∧ ∀ p, p ∈ l1 → seq_of h p ≤ lo'.
Proof.
  induction l1 as [|p l1 IH]; intros lo Hl; cbn in Hl.
  - split; [done|]. exists lo. split_and!; [lia|done|]. by intros p ?%not_elem_of_nil.
  - destruct Hl as (d & Hd & Hlo & Ht & Hw & Hl). destruct (IH _ Hl) as (H1 & lo' & Hle & H2 & Hb). split; [by exists d|].
    exists lo'. split_and!; [lia|done|]. intros q [->|Hq]%elem_of_cons; [|by apply Hb]. unfold seq_of. by rewrite Hd.
Qed.

Lemma in_order_elem (h : heap) (tid : nat) (lo : Z) (l : list InstPtr) (p : InstPtr) :
  in_order h tid lo l → p ∈ l → ∃ d, h !! p = Some d.
Proof.
  revert lo; induction l as [|x l IH]; intros lo Ho Hp; [by apply not_elem_of_nil in Hp|].
  destruct Ho as (d & Hd & _ & _ & _ & Ho). apply elem_of_cons in Hp as [->|Hp]; [by exists d|by eapply IH].
Qed.

Lemma dead_kept (h h' : heap) (p : InstPtr) (d : DynInst) : ids_kept h h' → h !! p = Some d → dead h' p = dead h p.
Proof.
  intros Hk Hd. destruct (Hk p d Hd) as (d' & Hd' & _ & _ & _ & Es & _). unfold dead. by rewrite Hd, Hd'.
Qed.
Lemma live_kept (h h' : heap) (tid : nat) (l : list InstPtr) : ∀ lo,
  ids_kept h h' → in_order h tid lo l → live h' l = live h l.
Proof.
  induction l as [|p l IH]; intros lo Hk; [done|]. intros (d & Hd & _ & _ & _ & Hl). rewrite !live_cons.
  by rewrite (dead_kept _ _ _ _ Hk Hd), (IH _ Hk Hl).
Qed.

(** ** The parts of the stage *)
Definition no_regs : RegState :=
  MkRegState ∅ (Scoreboard_init 0) (MkUnifiedFreeList [] [] [] [] []) ∅ (λ _, rm_init 0 0 Full) (λ _, []).
(** Everything but the registers, the instructions and their queue to IEW, the queues,
    and the counters renaming maintains. *)
Definition rest_of (s : Rename) : Rename :=
  s <| rn_insts := λ _, [] |> <| skidBuffer := λ _, [] |> <| loadsInProgress := λ _, 0 |>
    <| storesInProgress := λ _, 0 |> <| serializeOnNextInst := λ _, false |> <| toIEW := [] |>
    <| rn_regs := no_regs |>.

Section stage.
Context (rf : PhysRegFile) (x87_top : nat → Z) (cyc : Z) (renameWidth skidBufferMax : Z) (n : nat).
Context (activeThreads : list nat) (from : nat → RnIn) (fromDecode : list InstPtr).
Implicit Types (s : Rename) (B : nat → UnifiedRenameMap) (U : list PhysRegId).

Lemma queue_set (u : bool) (tid : nat) (q : list InstPtr) s : queue u tid (set_queue u tid q s) = q.
Proof. destruct u; cbn; by rewrite fn_lookup_insert. Qed.
Lemma queue_set_other (u : bool) (tid : nat) (q : list InstPtr) s :
  queue (negb u) tid (set_queue u tid q s) = queue (negb u) tid s.
Proof. by destruct u. Qed.
Lemma set_queue_rest (u : bool) (tid : nat) (q : list InstPtr) s : rest_of (set_queue u tid q s) = rest_of s.
Proof. by destruct u. Qed.

(** The queues of two states agree, except for [tid]'s queue [u]. *)
Definition queues_but (u : bool) (tid : nat) s s' : Prop :=
  queue (negb u) tid s' = queue (negb u) tid s ∧ ∀ v t, t ≠ tid → queue v t s' = queue v t s.

#[export] Instance queues_but_po (u : bool) (tid : nat) : PreOrder (queues_but u tid).
Proof.
  split; [done|]. intros s1 s2 s3 [E1 F1] [E2 F2]. split; [congruence|]. intros v t Hne. by rewrite F2, F1.
Qed.
Lemma queues_but_set (u : bool) (tid : nat) (q : list InstPtr) s : queues_but u tid s (set_queue u tid q s).
Proof.
  split; [apply queue_set_other|]. intros v t Hne. destruct u, v; cbn; rewrite ?fn_lookup_insert_ne by done; done.
Qed.

Lemma serializeAfter_ok (q : list InstPtr) (tid : nat) s s' :
  serializeAfter q tid s = Ok s' →
  rest_of s' = rest_of s ∧ (∀ v t, queue v t s' = queue v t s) ∧ toIEW s' = toIEW s
  ∧ loadsInProgress s' = loadsInProgress s ∧ storesInProgress s' = storesInProgress s
  ∧ ids_kept (rs_heap (rn_regs s)) (rs_heap (rn_regs s'))
  ∧ rn_regs s' = rn_regs s <| rs_heap := rs_heap (rn_regs s') |>.
Proof.
  unfold serializeAfter. destruct q as [|p q]; intros E.
  - injection E as <-. split_and!; try done. cbn. by destruct (rn_regs s).
  - unfold serializeFront, rn_inst in E. cbn [head] in E. apply bind_ok in E as (p' & Hp%deref_ok & E). injection Hp as <-.
    apply bind_ok in E as (d & Hd%deref_ok & E). injection E as <-. split_and!; try done. cbn.
    apply (ids_kept_insert _ _ d); [done|]. by apply same_id_set.
Qed.

Lemma sendInst_ok (tid : nat) (p : InstPtr) (inst : DynInst) s s' :
  sendInst rf x87_top cyc tid p inst s = Ok s' →
  rest_of s' = rest_of s ∧ (∀ v t, queue v t s' = queue v t s) ∧ toIEW s' = toIEW s ++ [p]
  ∧ loadsInProgress s' tid = loadsInProgress s tid + Z.b2z (isLoad inst)
  ∧ storesInProgress s' tid = storesInProgress s tid + Z.b2z (isStore inst)
  ∧ ∃ r, renameSrcRegs rf x87_top cyc p (threadNumber inst) (rn_regs s) = Ok r
       ∧ renameDestRegs rf x87_top p (threadNumber inst) r = Ok (rn_regs s').
Proof.
  unfold sendInst. intros E. apply bind_ok in E as (r & Er & E). apply bind_ok in E as (r' & Er' & E).
  cbn zeta in E. injection E as <-. destruct (isLoad inst), (isStore inst); cbn; rewrite ?fn_lookup_insert;
    (split_and!; [done|done|done|lia|lia|by exists r]).
Qed.

Lemma sendInst_inv B U (tid : nat) (p : InstPtr) (inst d : DynInst) (lo : Z) s s' :
  sendInst rf x87_top cyc tid p inst s = Ok s' → rename_inv rf n B U (rn_regs s) → (tid < n)%nat →
  rs_heap (rn_regs s) !! p = Some d → threadNumber inst = tid → operands_wf d → lo < seqNum d →
  (∀ e, e ∈ historyBuffer (rn_regs s) tid → instSeqNum e ≤ lo) →
  rename_inv rf n B U (rn_regs s') ∧ same_but tid (rn_regs s) (rn_regs s')
  ∧ ids_kept (rs_heap (rn_regs s)) (rs_heap (rn_regs s'))
  ∧ ∀ e, e ∈ historyBuffer (rn_regs s') tid → instSeqNum e ≤ seqNum d.
Proof.
  intros E Hinv Ht Hd Htn Hw Hlo Hh. apply sendInst_ok in E as (_ & _ & _ & _ & _ & r & E1 & E2). rewrite Htn in *.
  assert (Hk : ids_kept (rs_heap (rn_regs s)) (rs_heap (rn_regs s'))).
  { etrans; [by eapply renameSrcRegs_ids|by eapply renameDestRegs_ids]. }
  destruct (Hk p d Hd) as (d' & Hd' & _).
  assert (Hyoung : ∀ e, e ∈ historyBuffer (rn_regs s) tid → instSeqNum e < seqNum d).
  { intros e He. specialize (Hh e He). lia. }
  destruct (rename_inst_ok _ _ _ _ _ _ _ _ _ _ _ _ _ Hinv Ht Hd Hw Hyoung E1 E2 Hd') as (Hinv' & Hsame & _ & es & Eh & Hseq & _).
  split_and!; try done. rewrite Eh. intros e [He|He]%elem_of_app; [|specialize (Hh e He); lia].
  rewrite elem_of_reverse in He. rewrite (Hseq e He). lia.
Qed.

(** How the loop can end: it took everything it could, or it met a serializing
    instruction, which is set aside. *)
Definition loop_end (tid : nat) (aside : list InstPtr) s s' : Prop :=
  (aside = [] ∧ rest_of s' = rest_of s <| blockThisCycle := blockThisCycle s' |>
     ∧ (blockThisCycle s = true → blockThisCycle s' = true))
  ∨ (∃ p, aside = [p]
       ∧ rest_of s' = rest_of s <| blockThisCycle := true |> <| renameStatus ::= <[tid := RnSerializeStall]> |>
                              <| serializeInst ::= <[tid := Some p]> |>).

(** [tl] follows in program order. *)
Record loop_ok B U (u : bool) (tid k k' : nat) (r r' lo : Z) (tl : list InstPtr) s s' (taken aside : list InstPtr) : Prop := {
  lp_queue : queue u tid s = taken ++ aside ++ queue u tid s';
  lp_sent : toIEW s' = toIEW s ++ live (rs_heap (rn_regs s)) taken;
  lp_count : r' = r + Z.of_nat (length (live (rs_heap (rn_regs s)) taken));
  lp_width : Z.of_nat (length (toIEW s')) ≤ Z.max renameWidth (Z.of_nat (length (toIEW s)));
  lp_avail : (length taken + k' = k)%nat;
  lp_end : loop_end tid aside s s';
  lp_others : queues_but u tid s s';
  lp_ids : ids_kept (rs_heap (rn_regs s)) (rs_heap (rn_regs s'));
  lp_inv : rename_inv rf n B U (rn_regs s');
  lp_same : same_but tid (rn_regs s) (rn_regs s');
  lp_order : ∃ lo', lo ≤ lo' ∧ (∀ e, e ∈ historyBuffer (rn_regs s') tid → instSeqNum e ≤ lo')
    ∧ in_order (rs_heap (rn_regs s')) tid lo' (aside ++ queue u tid s' ++ tl)
    ∧ (∀ p, p ∈ taken → seq_of (rs_heap (rn_regs s)) p ≤ lo');
}.

(** Stopping at once. *)
Lemma loop_ok_stop B U (u : bool) (tid k : nat) (r lo : Z) (tl : list InstPtr) s s' :
  rename_inv rf n B U (rn_regs s) → (∀ e, e ∈ historyBuffer (rn_regs s) tid → instSeqNum e ≤ lo) →
  in_order (rs_heap (rn_regs s)) tid lo (queue u tid s ++ tl) →
  s' = s <| blockThisCycle := blockThisCycle s' |> → (blockThisCycle s = true → blockThisCycle s' = true) →
  loop_ok B U u tid k k r r lo tl s s' [] [].
Proof.
  intros Hinv Hh Ho Es Hb. assert (Eq : ∀ v t, queue v t s' = queue v t s) by (rewrite Es; done).
  assert (Er : rn_regs s' = rn_regs s) by (by rewrite Es). assert (Et : toIEW s' = toIEW s) by (by rewrite Es).
  split; rewrite ?Er, ?Et, ?Eq; cbn; try done; [by rewrite app_nil_r|lia|lia| |].
  - left. split; [done|]. split; [|done]. by rewrite Es.
  - exists lo. split_and!; try done. by intros p ?%not_elem_of_nil.
Qed.

(** One more instruction at the front. *)
Lemma loop_ok_cons B U (u : bool) (tid k k' : nat) (r r' lo lo1 : Z) (p : InstPtr) (tl : list InstPtr) s s1 s' (taken aside : list InstPtr) :
  queue u tid s = p :: queue u tid s1 → in_order (rs_heap (rn_regs s)) tid lo (queue u tid s ++ tl) →
  toIEW s1 = toIEW s ++ live (rs_heap (rn_regs s)) [p] → Z.of_nat (length (toIEW s)) < renameWidth →
  rest_of s1 = rest_of s → queues_but u tid s s1 → ids_kept (rs_heap (rn_regs s)) (rs_heap (rn_regs s1)) →
  same_but tid (rn_regs s) (rn_regs s1) → lo ≤ lo1 → seq_of (rs_heap (rn_regs s)) p ≤ lo1 →
  loop_ok B U u tid k k' (r + Z.of_nat (length (live (rs_heap (rn_regs s)) [p]))) r' lo1 tl s1 s' taken aside →
  loop_ok B U u tid (S k) k' r r' lo tl s s' (p :: taken) aside.
Proof.
  intros Eq Ho Et Hw Er Hq Hk Hs Hlo Hp [L1 L2 L3 L4 L5 L6 L7 L8 L9 L10 L11].
  assert (Hlive : live (rs_heap (rn_regs s1)) taken = live (rs_heap (rn_regs s)) taken).
  { rewrite Eq, L1, <- app_comm_cons, <- app_assoc in Ho. destruct Ho as (d & _ & _ & _ & _ & Ho).
    apply in_order_app in Ho as [Ho _]. by eapply live_kept. }
  assert (Hcons : ∀ h l, live h (p :: l) = live h [p] ++ live h l).
  { intros h l. rewrite !live_cons. by destruct (dead h p). }
  rewrite Hlive in *. split.
  - by rewrite Eq, L1.
  - by rewrite L2, Et, <- app_assoc, (Hcons _ taken).
  - rewrite (Hcons _ taken), length_app. lia.
  - rewrite Et, length_app in L4. assert (length (live (rs_heap (rn_regs s)) [p]) ≤ 1)%nat; [|lia].
    rewrite live_cons. by destruct (dead _ p); cbn; lia.
  - cbn. lia.
  - assert (Hb : blockThisCycle s1 = blockThisCycle s) by (by apply (f_equal blockThisCycle) in Er).
    unfold loop_end in *. by rewrite <- Er, <- Hb.
  - by etrans.
  - by etrans.
  - done.
  - intros t Hne. destruct (L10 t Hne) as [-> ->]. by apply Hs.
  - destruct L11 as (lo' & Hle & Hh' & Ho' & Hp'). exists lo'. split_and!; try done; [lia|].
    intros q [->|Hin]%elem_of_cons; [lia|]. specialize (Hp' q Hin). rewrite Eq, L1, <- app_comm_cons, <- app_assoc in Ho. destruct Ho as (d & _ & _ & _ & _ & Ho).
    assert (∃ dq, rs_heap (rn_regs s) !! q = Some dq) as [dq Hdq].
    { apply in_order_app in Ho as [Ho _]. by eapply in_order_elem. }
    unfold seq_of in *. rewrite Hdq. destruct (Hk q dq Hdq) as (dq' & Hdq' & Eseq & _). rewrite Hdq' in Hp'. cbn in *. lia.
Qed.

(** Marking a serializing instruction, and the next one if it serializes after. *)
Lemma handled_ok (after : bool) (q : list InstPtr) (tid : nat) (p : InstPtr) (d : DynInst) s s' :
  rs_heap (rn_regs s) !! p = Some d →
  (if after then serializeAfter q tid (on_heap (<[p := setSerializeHandled d]>) s) else Ok s) = Ok s' →
  rest_of s' = rest_of s ∧ (∀ v t, queue v t s' = queue v t s) ∧ toIEW s' = toIEW s
  ∧ loadsInProgress s' = loadsInProgress s ∧ storesInProgress s' = storesInProgress s
  ∧ ids_kept (rs_heap (rn_regs s)) (rs_heap (rn_regs s'))
  ∧ rn_regs s' = rn_regs s <| rs_heap := rs_heap (rn_regs s') |>.
Proof.
  intros Hd E. destruct after; [|injection E as <-; split_and!; try done; by destruct (rn_regs s)].
  apply serializeAfter_ok in E as (E1 & E2 & E3 & E4 & E5 & E6 & E7). split_and!; try done.
  etrans; [|exact E6]. cbn. apply (ids_kept_insert _ _ d); [done|]. by apply same_id_set.
Qed.

(** Setting a serializing instruction aside. *)
Lemma loop_ok_aside B U (u : bool) (tid k : nat) (r lo : Z) (p : InstPtr) (d : DynInst) (rest tl : list InstPtr) s :
  rename_inv rf n B U (rn_regs s) → (∀ e, e ∈ historyBuffer (rn_regs s) tid → instSeqNum e ≤ lo) →
  in_order (rs_heap (rn_regs s)) tid lo (queue u tid s ++ tl) → queue u tid s = p :: rest →
  rs_heap (rn_regs s) !! p = Some d →
  let s0 := set_queue u tid rest s in
  let s1 := if isTempSerializeBefore d then s0 else on_heap (<[p := setSerializeHandled d]>) s0 in
  loop_ok B U u tid k k r r lo tl s
    (s1 <| renameStatus ::= <[tid := RnSerializeStall]> |> <| serializeInst ::= <[tid := Some p]> |>
        <| blockThisCycle := true |>) [] [p].
Proof.
  intros Hinv Hh Ho Eq Hd s0 s1.
  assert (Er : ∃ h, rn_regs s1 = rn_regs s <| rs_heap := h |> ∧ ids_kept (rs_heap (rn_regs s)) h).
  { unfold s1, s0. destruct (isTempSerializeBefore d), u; cbn; try (exists (rs_heap (rn_regs s)); split; [by destruct (rn_regs s)|done]);
      eexists; (split; [done|]); apply (ids_kept_insert _ _ d); try done; by apply same_id_set. }
  destruct Er as (h & Er & Hk).
  assert (Eq1 : queue u tid s1 = rest).
  { unfold s1. destruct (isTempSerializeBefore d); [apply queue_set|]. etrans; [|apply (queue_set u tid rest s)]. by destruct u. }
  assert (Et : toIEW s1 = toIEW s) by (unfold s1, s0; by destruct (isTempSerializeBefore d), u).
  assert (Hq : queues_but u tid s s1).
  { etrans; [apply (queues_but_set u tid rest)|]. unfold s1. destruct (isTempSerializeBefore d); [done|].
    split; [by destruct u|]. intros v t Hne. by destruct v. }
  assert (Hrest : rest_of s1 = rest_of s) by (unfold s1, s0; by destruct (isTempSerializeBefore d), u).
  change (queue u tid s) with (queue u tid s) in *.
  set (s' := s1 <| renameStatus ::= _ |> <| serializeInst ::= _ |> <| blockThisCycle := true |>).
  assert (Eq' : ∀ v t, queue v t s' = queue v t s1) by (by intros [] t).
  assert (Er' : rn_regs s' = rn_regs s <| rs_heap := h |>) by done.
  assert (Hq' : queues_but u tid s s') by (destruct Hq as [Hq1 Hq2]; split; [by rewrite Eq'|intros v t Hne; rewrite Eq'; by apply Hq2]).
  split; rewrite ?Er', ?Eq', ?Eq1; try done.
  - change (toIEW s') with (toIEW s1). by rewrite Et, app_nil_r.
  - cbn. lia.
  - change (toIEW s') with (toIEW s1). rewrite Et. lia.
  - right. exists p. split; [done|]. rewrite <- Hrest. done.
  - by eapply rename_inv_ext.
  - exists lo. split_and!; [done|done| |by intros x ?%not_elem_of_nil]. rewrite Eq in Ho.
    by eapply in_order_kept.
Qed.

Lemma renameLoop_ok B U (u : bool) (tid k : nat) (tl : list InstPtr) : ∀ (r lo : Z) s k' r' s',
  renameLoop rf x87_top cyc renameWidth from u tid k r s = Ok (k', r', s') →
  rename_inv rf n B U (rn_regs s) → (tid < n)%nat →
  (∀ e, e ∈ historyBuffer (rn_regs s) tid → instSeqNum e ≤ lo) →
  in_order (rs_heap (rn_regs s)) tid lo (queue u tid s ++ tl) →
  ∃ taken aside, loop_ok B U u tid k k' r r' lo tl s s' taken aside.
Proof.
  induction k as [|k IH]; intros r lo s k' r' s' E Hinv Ht Hh Ho; cbn [renameLoop] in E.
  { injection E as <- <- <-. exists [], []. apply loop_ok_stop; try done. by destruct s. }
  destruct (Z.leb_spec renameWidth (Z.of_nat (length (toIEW s)))) as [_|Hw].
  { injection E as <- <- <-. exists [], []. apply loop_ok_stop; try done. by destruct s. }
  destruct (queue u tid s) as [|p rest] eqn:Eq; [done|].
  pose proof Ho as Ho'. cbn in Ho'. destruct Ho' as (d & Hd & Hlo & Htn & Hwf & Hrest).
  unfold rn_inst in E. rewrite Hd in E. cbn [deref mbind res_bind] in E.
  set (s0 := set_queue u tid rest s) in *.
  assert (Eq0 : queue u tid s = p :: queue u tid s0) by (unfold s0; by rewrite queue_set, Eq).
  assert (Hdead : dead (rs_heap (rn_regs s)) p = isSquashed d) by (unfold dead; by rewrite Hd).
  destruct (judge from tid d s) eqn:Ej.
  - injection E as <- <- <-. exists [], []. rewrite <- Eq in Ho. apply loop_ok_stop; try done. by destruct s.
  - (* squashed *)
    assert (Hsq : isSquashed d = true).
    { unfold judge in Ej. repeat (case_match; try done). }
    assert (Er0 : rn_regs s0 = rn_regs s) by (by unfold s0, set_queue; destruct u).
    destruct (IH r (seqNum d) s0 k' r' s' E) as (taken & aside & Hl); rewrite ?Er0; try done.
    { intros e He. specialize (Hh e He). lia. }
    { unfold s0. by rewrite queue_set. }
    exists (p :: taken), aside. rewrite <- Eq in Ho. eapply (loop_ok_cons _ _ _ _ _ _ _ _ _ (seqNum d)); try done.
    + unfold s0, set_queue. rewrite live_cons, Hdead, Hsq. destruct u; cbn; by rewrite app_nil_r.
    + apply set_queue_rest.
    + apply queues_but_set.
    + by rewrite Er0.
    + by rewrite Er0.
    + lia.
    + unfold seq_of. rewrite Hd. cbn. lia.
    + rewrite live_cons, Hdead, Hsq. cbn. by rewrite Z.add_0_r.
  - injection E as <- <- <-. exists [], []. rewrite <- Eq in Ho. by apply loop_ok_stop.
  - injection E as <- <- <-. exists [], [p]. rewrite <- Eq in Ho. by apply loop_ok_aside.
  - (* sent *)
    assert (Hsq : isSquashed d = false).
    { unfold judge in Ej. repeat (case_match; try done). }
    assert (Er0 : rn_regs s0 = rn_regs s) by (by unfold s0, set_queue; destruct u).
    apply bind_ok in E as (s1 & E1 & E). apply bind_ok in E as (s2 & E2 & E).
    apply (handled_ok _ _ _ _ d) in E1 as (Er1 & Eq1 & Et1 & _ & _ & Hk1 & Eg1); [|by rewrite Er0].
    rewrite Er0 in Hk1, Eg1. destruct (Hk1 p d Hd) as (d1 & Hd1 & Hs1).
    assert (Hinv1 : rename_inv rf n B U (rn_regs s1)) by (eapply rename_inv_ext; [exact Hinv|by rewrite Eg1..]).
    assert (Eh1 : historyBuffer (rn_regs s1) = historyBuffer (rn_regs s)) by (by rewrite Eg1).
    pose proof (operands_wf_same _ _ Hs1 Hwf) as Hwf1. pose proof Hs1 as (Esq & _).
    destruct (sendInst_inv B U tid p d d1 lo s1 s2 E2) as (Hinv2 & Hsame2 & Hk2 & Hh2); try done; [by rewrite Esq|by rewrite Eh1|].
    apply sendInst_ok in E2 as (Er2 & Eq2 & Et2 & _). rewrite Esq in Hh2.
    assert (Hk : ids_kept (rs_heap (rn_regs s)) (rs_heap (rn_regs s2))) by (by etrans).
    destruct (IH (r + 1) (seqNum d) s2 k' r' s' E) as (taken & aside & Hl); try done.
    { rewrite Eq2, Eq1. unfold s0. rewrite queue_set. by eapply in_order_kept. }
    exists (p :: taken), aside. rewrite <- Eq in Ho. eapply (loop_ok_cons _ _ _ _ _ _ _ _ _ (seqNum d) p tl s s2); try done.
    + by rewrite Eq2, Eq1.
    + rewrite Et2, Et1, live_cons, Hdead, Hsq. unfold s0, set_queue. by destruct u.
    + rewrite Er2, Er1. apply set_queue_rest.
    + etrans; [apply (queues_but_set u tid rest)|]. fold s0. split; [by rewrite Eq2, Eq1|]. intros v t _. by rewrite Eq2, Eq1.
    + intros t Hne. destruct (Hsame2 t Hne) as [-> ->]. by rewrite Eg1.
    + lia.
    + unfold seq_of. rewrite Hd. cbn. lia.
    + rewrite live_cons, Hdead, Hsq. done.
Qed.
End stage.
