(* ===== verification/RenameTick.v ===== *)
(** * A cycle of the rename stage

    The invariant of the stage, kept by every cycle: the instructions of a thread that
    wait in rename are in program order and younger than everything the thread has
    renamed, the skid buffer is empty while the thread runs, a serializing instruction
    is set aside exactly while the thread stalls for it, and the registers satisfy the
    invariant of renaming.  A cycle passes a prefix of what waits to IEW, less what is
    squashed. *)

From S2P Require Import Prelude Regs DynInst CPU Scoreboard FreeList RenameMap RenameInv RenameSpec Rename RenameStage.
Local Open Scope Z_scope.

(** Membership of a status in a list of statuses. *)
Ltac status :=
  repeat match goal with
  | H : context [?x ∈ _ :: _] |- _ => setoid_rewrite elem_of_cons in H
  | H : context [?x ∈ []] |- _ => setoid_rewrite elem_of_nil in H
  end; rewrite ?elem_of_cons, ?elem_of_nil; intuition congruence.

(** Everything that waits in rename, oldest first. *)
Definition pending (s : Rename) (tid : nat) : list InstPtr :=
  option_list (serializeInst s tid) ++ skidBuffer s tid ++ rn_insts s tid.

Record thread_wf (s : Rename) (tid : nat) : Prop := {
  tw_skid : renameStatus s tid ∈ [RnRunning; RnIdle; RnSquashing] → skidBuffer s tid = [];
  tw_serial : is_Some (serializeInst s tid) ↔ renameStatus s tid = RnSerializeStall;
  tw_start : renameStatus s tid ≠ RnStartSquash;
  tw_order : ∃ lo, (∀ e, e ∈ historyBuffer (rn_regs s) tid → instSeqNum e ≤ lo)
    ∧ in_order (rs_heap (rn_regs s)) tid lo (pending s tid);
}.

Section tick.
Context (rf : PhysRegFile) (x87_top : nat → Z) (cyc : Z) (renameWidth skidBufferMax : Z) (n : nat).
Context (activeThreads : list nat) (from : nat → RnIn) (fromDecode : list InstPtr).
Implicit Types (s : Rename) (B : nat → UnifiedRenameMap) (U : list PhysRegId).

Record stage_inv B U s : Prop := {
  si_regs : rename_inv rf n B U (rn_regs s);
  si_threads : ∀ tid, (tid < n)%nat → thread_wf s tid;
  si_resume : resumeSerialize s = false ∧ resumeUnblocking s = false;
}.

(** ** Operations that only shuffle the queues of one thread *)
Record shuffled (tid : nat) s s' : Prop := {
  sh_regs : rn_regs s' = rn_regs s;
  sh_sent : toIEW s' = toIEW s;
  sh_serial : serializeInst s' = serializeInst s;
  sh_resume : resumeSerialize s' = resumeSerialize s ∧ resumeUnblocking s' = resumeUnblocking s;
  sh_others : ∀ t, t ≠ tid → renameStatus s' t = renameStatus s t ∧ skidBuffer s' t = skidBuffer s t
                ∧ rn_insts s' t = rn_insts s t;
  sh_pending : pending s' tid = pending s tid;
  sh_credit : rn_freeEntries s' = rn_freeEntries s ∧ instsInProgress s' = instsInProgress s;
}.
#[export] Instance shuffled_po (tid : nat) : PreOrder (shuffled tid).
Proof.
  split; [by intros s; split|]. intros s1 s2 s3 [R1 T1 S1 [V1 W1] O1 P1 [C1 D1]] [R2 T2 S2 [V2 W2] O2 P2 [C2 D2]].
  split; try congruence; [split; congruence| |split; congruence]. intros t Hne. destruct (O1 t Hne) as (?&?&?), (O2 t Hne) as (?&?&?).
  split_and!; congruence.
Qed.

(** The thread itself needs only its status and skid buffer checked again. *)
Lemma shuffled_inv B U (tid : nat) s s' :
  shuffled tid s s' → stage_inv B U s →
  (renameStatus s' tid ∈ [RnRunning; RnIdle; RnSquashing] → skidBuffer s' tid = []) →
  (is_Some (serializeInst s tid) ↔ renameStatus s' tid = RnSerializeStall) → renameStatus s' tid ≠ RnStartSquash →
  stage_inv B U s'.
Proof.
  intros [R T S [V W] O P _] [Hr Ht [H1 H2]] Hsk Hse Hst. split; [by rewrite R| |split; congruence].
  intros t Htn. destruct (Ht t Htn) as [K1 K2 K3 K4]. destruct (decide (t = tid)) as [->|Hne].
  - split; [done|by rewrite S|done|]. destruct K4 as (lo & Hh & Ho). exists lo. by rewrite R, P.
  - destruct (O t Hne) as (E1 & E2 & E3). split; [by rewrite E1, E2|by rewrite S, E1|by rewrite E1|].
    unfold pending. by rewrite R, S, E2, E3.
Qed.

Lemma skidFold_ok (tid : nat) (l : list InstPtr) : ∀ s s',
  rn_insts s tid = l → mfold (skidOne tid) s l = Ok s' →
  shuffled tid s s' ∧ rn_insts s' tid = [] ∧ renameStatus s' = renameStatus s.
Proof.
  induction l as [|p l IH]; intros s s' Hl E; cbn [mfold] in E; [by injection E as <-|].
  apply bind_ok in E as (s1 & E1 & E). unfold skidOne in E1. apply bind_ok in E1 as (d & _ & E1).
  apply bind_ok in E1 as (u & _ & E1). injection E1 as <-.
  apply IH in E as (Hs & Hi & Hst); [|cbn; by rewrite fn_lookup_insert, Hl]. split; [|done]. etrans; [|exact Hs].
  split; try done.
  - intros t Hne. cbn. by rewrite !fn_lookup_insert_ne.
  - unfold pending. cbn. rewrite !fn_lookup_insert, Hl. cbn. by rewrite <- app_assoc.
Qed.

Lemma skidInsert_ok (tid : nat) s s' :
  skidInsert skidBufferMax tid s = Ok s' →
  shuffled tid s s' ∧ rn_insts s' tid = [] ∧ renameStatus s' = renameStatus s.
Proof.
  unfold skidInsert. intros E. apply bind_ok in E as (s1 & E1 & E). apply bind_ok in E as (u & _ & E). injection E as <-.
  by eapply skidFold_ok.
Qed.

Lemma block_ok (tid : nat) (b : bool) s s' :
  block skidBufferMax tid s = Ok (b, s') →
  shuffled tid s s' ∧ rn_insts s' tid = []
  ∧ renameStatus s' tid = (if decide (renameStatus s tid = RnSerializeStall) then RnSerializeStall else RnBlocked).
Proof.
  unfold block. intros E. apply bind_ok in E as (s1 & (Hsh & Hi & Hst)%skidInsert_ok & E). rewrite <- Hst.
  destruct (decide (renameStatus s1 tid = RnBlocked)) as [Hb|Hb].
  { injection E as <- <-. split_and!; try done. rewrite Hb. done. }
  set (s2 := if resumeUnblocking s1 || _ then _ else s1) in E.
  assert (Hsh2 : shuffled tid s1 s2) by (unfold s2; destruct (_ || _); by split).
  assert (Hst2 : renameStatus s2 = renameStatus s1) by (unfold s2; by destruct (_ || _)).
  assert (Hi2 : rn_insts s2 tid = []) by (unfold s2; by destruct (_ || _)).
  rewrite Hst2 in E. destruct (decide (renameStatus s1 tid = RnSerializeStall)) as [Hs|Hs]; injection E as <- <-.
  - split_and!; [by etrans|done|]. by rewrite Hst2.
  - split_and!; [|done|cbn; by rewrite fn_lookup_insert]. etrans; [exact Hsh|]. etrans; [exact Hsh2|].
    split; try done. intros t Hne. cbn. by rewrite fn_lookup_insert_ne.
Qed.

Lemma unblock_ok (tid : nat) s :
  shuffled tid s (unblock tid s).2
  ∧ renameStatus (unblock tid s).2 tid =
      (if bool_decide (skidBuffer s tid = []) && negb (bool_decide (renameStatus s tid = RnSerializeStall))
       then RnRunning else renameStatus s tid)
  ∧ skidBuffer (unblock tid s).2 = skidBuffer s ∧ rn_insts (unblock tid s).2 = rn_insts s.
Proof.
  unfold unblock. destruct (_ && _); cbn; [|by split]. rewrite fn_lookup_insert. split_and!; try done.
  split; try done. intros t Hne. cbn. by rewrite fn_lookup_insert_ne.
Qed.

(** ** Operations that let instructions pass *)
Record advanced (tid : nat) (taken : list InstPtr) s s' : Prop := {
  ad_pending : pending s tid = taken ++ pending s' tid;
  ad_sent : toIEW s' = toIEW s ++ live (rs_heap (rn_regs s)) taken;
  ad_ids : ids_kept (rs_heap (rn_regs s)) (rs_heap (rn_regs s'));
  ad_same : same_but tid (rn_regs s) (rn_regs s');
  ad_others : ∀ t, t ≠ tid → renameStatus s' t = renameStatus s t ∧ skidBuffer s' t = skidBuffer s t
                ∧ rn_insts s' t = rn_insts s t ∧ serializeInst s' t = serializeInst s t;
  ad_width : Z.of_nat (length (toIEW s')) ≤ Z.max renameWidth (Z.of_nat (length (toIEW s)));
}.

Lemma shuffled_advanced (tid : nat) s s' : shuffled tid s s' → advanced tid [] s s'.
Proof.
  intros [R T S V O P _]. split; rewrite ?R, ?T; try done; [by rewrite app_nil_r| |lia].
  intros t Hne. destruct (O t Hne) as (?&?&?). by rewrite S.
Qed.
Lemma advanced_shuffled (tid : nat) (taken : list InstPtr) s s1 s' :
  advanced tid taken s s1 → shuffled tid s1 s' → advanced tid taken s s'.
Proof.
  intros [A1 A2 A3 A4 A5 A6] [R T S V O P _]. split; rewrite ?R, ?T, ?P; try done.
  intros t Hne. destruct (O t Hne) as (->&->&->). rewrite S. by apply A5.
Qed.
Lemma shuffled_advanced_trans (tid : nat) (taken : list InstPtr) s s1 s' :
  shuffled tid s s1 → advanced tid taken s1 s' → advanced tid taken s s'.
Proof.
  intros [R T S V O P _] [A1 A2 A3 A4 A5 A6]. rewrite R in *. split; rewrite <- ?P, <- ?T; try done.
  intros t Hne. destruct (A5 t Hne) as (->&->&->&->). destruct (O t Hne) as (->&->&->). by rewrite S.
Qed.

(** Other threads keep their part of the invariant. *)
Lemma thread_wf_other (tid t : nat) (taken : list InstPtr) s s' :
  advanced tid taken s s' → t ≠ tid → thread_wf s t → thread_wf s' t.
Proof.
  intros [_ _ A3 A4 A5 _] Hne [K1 K2 K3 (lo & Hh & Ho)]. destruct (A5 t Hne) as (E1 & E2 & E3 & E4).
  split; [by rewrite E1, E2|by rewrite E4, E1|by rewrite E1|]. exists lo. destruct (A4 t Hne) as [_ ->].
  split; [done|]. unfold pending. rewrite E2, E3, E4. by eapply in_order_kept.
Qed.

(** The fields outside [rest_of]'s changes. *)
Lemma rest_of_fields s s' :
  rest_of s' = rest_of s → renameStatus s' = renameStatus s ∧ serializeInst s' = serializeInst s
    ∧ resumeSerialize s' = resumeSerialize s ∧ resumeUnblocking s' = resumeUnblocking s
    ∧ blockThisCycle s' = blockThisCycle s ∧ instsInProgress s' = instsInProgress s
    ∧ rn_freeEntries s' = rn_freeEntries s.
Proof. intros E. by injection E. Qed.

Lemma renameLoop_stage B U (tid k k' : nat) (r r' : Z) s s' :
  let u := bool_decide (renameStatus s tid = RnUnblocking) in
  stage_inv B U s → (tid < n)%nat → renameStatus s tid ∈ [RnRunning; RnIdle; RnUnblocking] →
  renameLoop rf x87_top cyc renameWidth from u tid k r s = Ok (k', r', s') →
  ∃ taken, advanced tid taken s s' ∧ stage_inv B U s' ∧ (length taken + k' = k)%nat
    ∧ r' = r + Z.of_nat (length (live (rs_heap (rn_regs s)) taken))
    ∧ (blockThisCycle s = true → blockThisCycle s' = true)
    ∧ (renameStatus s' tid = renameStatus s tid ∨ blockThisCycle s' = true).
Proof.
  intros u [Hr Ht Hres] Htid Hst E. assert (Heqhu : u = bool_decide (renameStatus s tid = RnUnblocking)) by done.
  destruct (Ht tid Htid) as [K1 K2 K3 (lo & Hh & Ho)].
  assert (Hnone : serializeInst s tid = None).
  { destruct (serializeInst s tid); [|done]. rewrite (proj1 K2) in Hst by done. status. }
  set (tl := if u then rn_insts s tid else []).
  assert (Hpend : pending s tid = queue u tid s ++ tl).
  { unfold pending, queue, tl. rewrite Hnone. cbn. unfold u. case_bool_decide as Hu; [done|].
    rewrite K1 by status. by rewrite app_nil_r. }
  rewrite Hpend in Ho.
  destruct (renameLoop_ok rf x87_top cyc renameWidth n from B U u tid k tl r lo s k' r' s' E Hr Htid Hh Ho) as (taken & aside & L).
  destruct L as [L1 L2 L3 L4 L5 L6 L7 L8 L9 L10 (lo' & _ & Hh' & Ho' & _)]. destruct L7 as [Q1 Q2].
  assert (Hpend' : pending s' tid = aside ++ queue u tid s' ++ tl
    ∧ (is_Some (serializeInst s' tid) ↔ renameStatus s' tid = RnSerializeStall)
    ∧ renameStatus s' tid ∈ [RnRunning; RnIdle; RnUnblocking; RnSerializeStall]
    ∧ (renameStatus s' tid ∈ [RnRunning; RnIdle; RnSquashing] → u = false)
    ∧ (∀ t, t ≠ tid → renameStatus s' t = renameStatus s t ∧ serializeInst s' t = serializeInst s t)
    ∧ (resumeSerialize s' = false ∧ resumeUnblocking s' = false)
    ∧ (blockThisCycle s = true → blockThisCycle s' = true)
    ∧ (renameStatus s' tid = renameStatus s tid ∨ blockThisCycle s' = true)).
  { assert (Hother : queue u tid s' ++ tl = skidBuffer s' tid ++ rn_insts s' tid).
    { unfold tl, queue in *. destruct u; cbn in Q1; [by rewrite Q1|]. rewrite app_nil_r. rewrite Q1, K1; [done|].
      symmetry in Heqhu. apply bool_decide_eq_false in Heqhu. status. }
    destruct L6 as [(-> & Er & Hb)|(p & -> & Er)];
      pose proof (f_equal renameStatus Er) as E1; pose proof (f_equal serializeInst Er) as E2;
      pose proof (f_equal resumeSerialize Er) as E3; pose proof (f_equal resumeUnblocking Er) as E4;
      pose proof (f_equal blockThisCycle Er) as E5; cbn in E1, E2, E3, E4, E5; rewrite E3, E4; unfold pending; rewrite <- Hother, E1, E2.
    - rewrite Hnone in K2 |- *. split; [done|]. split; [done|]. split; [status|]. split; [|split; [done|split; [by destruct Hres|split; [done|by left]]]].
      intros Hs. apply bool_decide_eq_false. intros Hu. rewrite Hu in Hs. status.
    - rewrite !fn_lookup_insert. split; [done|]. split; [done|]. split; [status|]. split; [status|].
      split; [|split; [by destruct Hres|by split; [|right]]].
      intros t Hne. by rewrite !fn_lookup_insert_ne. }
  destruct Hpend' as (Hp & Hse & Hs4 & Hu & Hoth & Hres' & Hb1 & Hb2).
  assert (Hadv : advanced tid taken s s').
  { split; try done.
    - by rewrite Hpend, L1, Hp, <- !app_assoc.
    - intros t Hne. destruct (Hoth t Hne) as [-> ->]. pose proof (Q2 true t Hne) as Hq1. pose proof (Q2 false t Hne) as Hq2.
      cbn in Hq1, Hq2. by rewrite Hq1, Hq2. }
  exists taken. split_and!; try done. split; try done. intros t Htn.
  destruct (decide (t = tid)) as [->|Hne]; [|by eapply thread_wf_other; eauto].
  split; try done.
  - intros Hs. specialize (Hu Hs). rewrite Hu in Q1. cbn in Q1. rewrite Q1. apply K1.
    rewrite Hu in Heqhu. symmetry in Heqhu. apply bool_decide_eq_false in Heqhu. status.
  - status.
  - exists lo'. by rewrite Hp.
Qed.

(** Changes the invariant does not see: marking an instruction, counters, wires. *)
Record touched s s' : Prop := {
  to_fields : renameStatus s' = renameStatus s ∧ serializeInst s' = serializeInst s
    ∧ resumeSerialize s' = resumeSerialize s ∧ resumeUnblocking s' = resumeUnblocking s;
  to_queues : skidBuffer s' = skidBuffer s ∧ rn_insts s' = rn_insts s;
  to_sent : toIEW s' = toIEW s;
  to_ids : ids_kept (rs_heap (rn_regs s)) (rs_heap (rn_regs s'));
  to_regs : rn_regs s' = rn_regs s <| rs_heap := rs_heap (rn_regs s') |>;
}.
#[export] Instance touched_po : PreOrder touched.
Proof.
  split.
  - intros s. split; try done. by destruct (rn_regs s).
  - intros s1 s2 s3 [(?&?&?&?) (?&?) ? ? E1] [(?&?&?&?) (?&?) ? ? E2]. split; [split_and!; congruence|split; congruence|congruence|by etrans|].
    rewrite E2. rewrite E1. done.
Qed.

Lemma touched_regs s s' :
  renameStatus s' = renameStatus s → serializeInst s' = serializeInst s → resumeSerialize s' = resumeSerialize s →
  resumeUnblocking s' = resumeUnblocking s → skidBuffer s' = skidBuffer s → rn_insts s' = rn_insts s →
  toIEW s' = toIEW s → rn_regs s' = rn_regs s → touched s s'.
Proof. intros ? ? ? ? ? ? ? Hr. split; try done; rewrite Hr; [done|by destruct (rn_regs s)]. Qed.

Lemma touched_advanced (tid : nat) s s' : touched s s' → advanced tid [] s s'.
Proof.
  intros [(E1&E2&E3&E4) (Q1&Q2) T I R]. split; rewrite ?T; try done.
  - unfold pending. by rewrite E2, Q1, Q2.
  - by rewrite app_nil_r.
  - intros t Hne. by rewrite R.
  - intros t Hne. by rewrite E1, E2, Q1, Q2.
  - lia.
Qed.
Lemma touched_inv B U s s' : touched s s' → stage_inv B U s → stage_inv B U s'.
Proof.
  intros [(E1&E2&E3&E4) (Q1&Q2) T I R] [Hr Ht [H1 H2]]. split; [|intros t Htn|split; congruence].
  - eapply rename_inv_ext; [exact Hr|by rewrite R..].
  - destruct (Ht t Htn) as [K1 K2 K3 (lo & Hh & Ho)]. split; rewrite ?E1, ?E2, ?Q1; try done.
    exists lo. split; [by rewrite R|]. unfold pending. rewrite E2, Q1, Q2. by eapply in_order_kept.
Qed.

Lemma advanced_trans (tid : nat) (t1 t2 : list InstPtr) (lo : Z) s s1 s2 :
  advanced tid t1 s s1 → advanced tid t2 s1 s2 → in_order (rs_heap (rn_regs s)) tid lo (pending s tid) →
  advanced tid (t1 ++ t2) s s2.
Proof.
  intros [A1 A2 A3 A4 A5 A6] [B1 B2 B3 B4 B5 B6] Ho. split.
  - by rewrite A1, B1, app_assoc.
  - assert (Hl : live (rs_heap (rn_regs s)) (t1 ++ t2) = live (rs_heap (rn_regs s)) t1 ++ live (rs_heap (rn_regs s)) t2)
      by apply list.filter_app.
    rewrite B2, A2, Hl, <- app_assoc. do 2 f_equal. rewrite A1, B1 in Ho.
    apply in_order_app in Ho as (_ & lo' & _ & Ho & _). apply in_order_app in Ho as [Ho _]. by eapply live_kept.
  - by etrans.
  - intros t Hne. destruct (B4 t Hne) as [-> ->]. by apply A4.
  - intros t Hne. destruct (B5 t Hne) as (->&->&->&->). by apply A5.
  - lia.
Qed.

Lemma serializeNext_ok (u : bool) (tid : nat) s s' :
  serializeNext u tid s = Ok s' → touched s s' ∧ blockThisCycle s' = blockThisCycle s.
Proof.
  unfold serializeNext. intros E. destruct (serializeOnNextInst s tid); [|by injection E as <-].
  destruct (_ && _); [injection E as <-; split; [|done]; split; try done; cbn; by destruct (rn_regs s)|].
  destruct (queue u tid s) as [|p q]; [by injection E as <-|].
  unfold serializeFront, rn_inst in E. cbn [head] in E. apply bind_ok in E as (p' & Hp%deref_ok & E). injection Hp as <-.
  apply bind_ok in E as (d & Hd%deref_ok & E). injection E as <-. split; [|done]. split; try done. cbn.
  apply (ids_kept_insert _ _ d); [done|]. by apply same_id_set.
Qed.

(** Blocking keeps the invariant. *)
Lemma block_inv B U (tid : nat) (b : bool) s s' :
  stage_inv B U s → (tid < n)%nat → block skidBufferMax tid s = Ok (b, s') →
  stage_inv B U s' ∧ shuffled tid s s' ∧ renameStatus s' tid ∈ [RnBlocked; RnSerializeStall].
Proof.
  intros Hi Htn E. pose proof (si_threads _ _ _ Hi tid Htn) as [K1 K2 K3 K4]. apply block_ok in E as (Hsh & _ & Hst).
  split; [|split; [done|rewrite Hst; destruct (decide _); status]]. eapply shuffled_inv; try done; rewrite Hst; destruct (decide _) as [Hs|Hs]; try done; [status|status|..]; rewrite K2; naive_solver.
Qed.

(** What [renameInsts] sends is within the credits. *)
Definition within_credit (tid : nat) (sent : list InstPtr) s : Prop :=
  Z.of_nat (length sent) ≤ Z.max 0 (Z.min (calcFreeROBEntries from tid s) (calcFreeIQEntries from tid s)).

Lemma renameInsts_ok B U (tid : nat) s s' :
  stage_inv B U s → (tid < n)%nat → renameStatus s tid ∈ [RnRunning; RnIdle; RnUnblocking] →
  renameInsts rf x87_top cyc renameWidth skidBufferMax from tid s = Ok s' →
  ∃ taken, advanced tid taken s s' ∧ stage_inv B U s' ∧ within_credit tid (live (rs_heap (rn_regs s)) taken) s
    ∧ (renameStatus s' tid = renameStatus s tid ∨ renameStatus s' tid ∈ [RnBlocked; RnSerializeStall]).
Proof.
  intros Hi Htn Hst E. unfold renameInsts in E. cbn zeta in E. set (u := bool_decide _) in E.
  assert (Hnil : within_credit tid (live (rs_heap (rn_regs s)) []) s) by (unfold within_credit; cbn; lia).
  destruct (Z.eqb_spec (Z.of_nat (length (queue u tid s))) 0) as [_|_].
  { injection E as <-. exists []. split; [by apply touched_advanced|]. split_and!; try done. by left. }
  set (m := Z.min (calcFreeROBEntries from tid s) (calcFreeIQEntries from tid s)) in *.
  destruct (Z.leb_spec m 0) as [Hm|Hm].
  { apply bind_ok in E as ([b s1] & Eb & [= <-]).
    assert (Hto : touched s (s <| blockThisCycle := true |>)) by (by apply touched_regs).
    apply (block_inv B U) in Eb as (Hi1 & Hsh & Hs1); [|by eapply touched_inv|done]. exists []. split_and!; try done; [|by right].
    eapply advanced_shuffled; [|exact Hsh]. by apply touched_advanced. }
  set (s0 := if m <? _ then _ else s) in E.
  assert (Hto : touched s s0) by (unfold s0; destruct (_ <? _); [by apply touched_regs|done]).
  apply bind_ok in E as (s1 & (Hto1 & Hb1)%serializeNext_ok & E). apply bind_ok in E as ([[k' r'] s2] & El & E).
  assert (Hto' : touched s s1) by (by etrans). pose proof (touched_inv B U _ _ Hto' Hi) as Hi1.
  assert (Hst1 : renameStatus s1 = renameStatus s) by apply Hto'. assert (Hu : u = bool_decide (renameStatus s1 tid = RnUnblocking)) by (by rewrite Hst1).
  rewrite Hu in El. rewrite <- Hst1 in Hst.
  destruct (renameLoop_stage B U tid _ k' 0 r' s1 s2 Hi1 Htn Hst El) as (taken & Hadv & Hi2 & Hk & _ & _ & Hst2).
  destruct (si_threads _ _ _ Hi tid Htn) as [_ _ _ (lo & _ & Ho)].
  pose proof (advanced_trans tid [] taken lo s s1 s2 (touched_advanced tid _ _ Hto') Hadv Ho) as Hadv'. cbn in Hadv'.
  exists taken. set (s3 := s2 <| instsInProgress ::= _ |>) in E. set (s4 := if bool_decide (k' = 0%nat) then s3 else _) in E.
  assert (Hto4 : touched s2 s4).
  { unfold s4, s3. destruct (bool_decide (k' = 0%nat)); by apply touched_regs. }
  pose proof (touched_inv B U _ _ Hto4 Hi2) as Hi4.
  assert (Hcr : within_credit tid (live (rs_heap (rn_regs s)) taken) s).
  { unfold within_credit. fold m. pose proof (live_length (rs_heap (rn_regs s)) taken). lia. }
  assert (Hadv4 : advanced tid taken s s4).
  { rewrite <- (app_nil_r taken). eapply advanced_trans; [done|by apply touched_advanced|done]. }
  assert (Hst4 : renameStatus s4 = renameStatus s2) by (unfold s4, s3; by destruct (bool_decide (k' = 0%nat))).
  destruct (blockThisCycle s4) eqn:Hb4.
  2: { injection E as <-. split_and!; try done. left. rewrite Hst4, <- Hst1. destruct Hst2 as [|Hb2]; [done|].
       unfold s4, s3 in Hb4. destruct (bool_decide (k' = 0%nat)); cbn in Hb4; congruence. }
  apply bind_ok in E as ([b s5] & Eb & [= <-]). apply (block_inv B U) in Eb as (Hi5 & Hsh & Hs5); [|done|done].
  assert (Hto5 : touched s5 (s5 <| renameUnblock ::= <[tid := false]> |>)) by (by apply touched_regs).
  split_and!; [|by eapply touched_inv|done|by right]. rewrite <- (app_nil_r taken).
  eapply advanced_trans; [by eapply advanced_shuffled|by apply touched_advanced|done].
Qed.

Lemma unblock_inv B U (tid : nat) s :
  stage_inv B U s → (tid < n)%nat → stage_inv B U (unblock tid s).2 ∧ shuffled tid s (unblock tid s).2.
Proof.
  intros Hi Htn. pose proof (si_threads _ _ _ Hi tid Htn) as [K1 K2 K3 K4].
  destruct (unblock_ok tid s) as (Hsh & Hst & Hsk & _). split; [|done]. eapply shuffled_inv; try done; rewrite Hst.
  - rewrite Hsk. destruct (decide (skidBuffer s tid = [])) as [|Hne]; [done|]. by rewrite bool_decide_false.
  - rewrite K2. case_bool_decide; cbn; [|done]. case_bool_decide; cbn; naive_solver.
  - by destruct (_ && _).
Qed.

Lemma skidInsert_inv B U (tid : nat) s s' :
  stage_inv B U s → (tid < n)%nat → renameStatus s tid ∈ [RnBlocked; RnUnblocking; RnSerializeStall] →
  skidInsert skidBufferMax tid s = Ok s' → stage_inv B U s' ∧ shuffled tid s s' ∧ renameStatus s' = renameStatus s.
Proof.
  intros Hi Htn Hs E. pose proof (si_threads _ _ _ Hi tid Htn) as [K1 K2 K3 K4]. apply skidInsert_ok in E as (Hsh & _ & Hst).
  split_and!; [|done|done]. eapply shuffled_inv; try done; rewrite Hst; [status|done|done].
Qed.

Lemma rename_ok B U (tid : nat) (b b' : bool) s s' :
  stage_inv B U s → (tid < n)%nat →
  rename rf x87_top cyc renameWidth skidBufferMax from fromDecode b tid s = Ok (b', s') →
  ∃ taken, advanced tid taken s s' ∧ stage_inv B U s' ∧ within_credit tid (live (rs_heap (rn_regs s)) taken) s
    ∧ (renameStatus s tid ∈ [RnBlocked; RnSquashing; RnSerializeStall] → s' = s).
Proof.
  intros Hi Htn E. unfold rename in E. apply bind_ok in E as (s0 & E0 & E).
  destruct (si_resume _ _ _ Hi) as [Hr1 Hr2]. rewrite Hr1, Hr2 in E0.
  assert (s0 = s) as -> by (destruct (renameStatus s tid); by injection E0).
  assert (Hnil : within_credit tid (live (rs_heap (rn_regs s)) []) s) by (unfold within_credit; cbn; lia).
  pose proof (tw_start _ _ (si_threads _ _ _ Hi tid Htn)) as Hss.
  destruct (renameStatus s tid) eqn:Hst; try done.
  1, 2: apply bind_ok in E as (s1 & E1 & [= <- <-]); eapply renameInsts_ok in E1 as (taken & Ha & Hi' & Hc & _);
        [|done|done|by rewrite Hst; status]; exists taken; split_and!; try done; status.
  1, 2, 4: injection E as <- <-; exists []; split; [by apply touched_advanced|done].
  apply bind_ok in E as (s1 & E1 & E). apply bind_ok in E as (v & _ & E). apply bind_ok in E as (s2 & E2 & E).
  eapply renameInsts_ok in E1 as (taken & Ha & Hi1 & Hc & Hs1); [|done|done|by rewrite Hst; status].
  assert (Hs1' : renameStatus s1 tid ∈ [RnBlocked; RnUnblocking; RnSerializeStall]) by (rewrite Hst in Hs1; status).
  assert (H2 : stage_inv B U s2 ∧ shuffled tid s1 s2).
  { destruct (v =? 0); [by injection E2 as <-|]. eapply skidInsert_inv in E2 as (Hi2 & Hsh & _); done. }
  destruct H2 as [Hi2 Hsh2]. destruct (unblock_inv B U tid s2 Hi2 Htn) as [Hi3 Hsh3].
  destruct (unblock tid s2) as [ub s3]. injection E as <- <-. cbn in *. exists taken. split_and!; try done; [|status].
  eapply advanced_shuffled; [by eapply advanced_shuffled|done].
Qed.

(** ** Signals *)
Lemma readSignals_ok (tid : nat) s s' :
  readStallSignals from tid (readFreeEntries from tid s) = Ok s' → touched s s' ∧ rn_regs s' = rn_regs s.
Proof.
  intros E. unfold readStallSignals, readFreeEntries in E. cbn zeta in E.
  destruct (in_usedROB (from tid)), (in_iewBlock (from tid)), (in_iewUnblock (from tid));
    try (apply bind_ok in E as (? & _ & E)); injection E as <-; (split; [by apply touched_regs|done]).
Qed.

(** Putting the serializing instruction back at the front. *)
Lemma requeue_ok B U (tid : nat) (p : InstPtr) (d : DynInst) s :
  let s1 := (unblock tid (s <| renameStatus ::= <[tid := RnUnblocking]> |>)).2 in
  let s2 := on_heap (<[p := clearSerializeBefore d]>) s1 in
  let s3 := if decide (skidBuffer s2 tid = []) then s2 <| rn_insts ::= <[tid := p :: rn_insts s2 tid]> |>
            else s2 <| skidBuffer ::= <[tid := p :: skidBuffer s2 tid]> |> in
  let s' := s3 <| serializeInst ::= <[tid := None]> |> in
  stage_inv B U s → (tid < n)%nat → serializeInst s tid = Some p → rs_heap (rn_regs s) !! p = Some d →
  advanced tid [] s s' ∧ stage_inv B U s'.
Proof.
  intros s1 s2 s3 s' [Hr Ht [H1 H2]] Htn Hp Hd.
  assert (F : skidBuffer s1 = skidBuffer s ∧ rn_insts s1 = rn_insts s ∧ rn_regs s1 = rn_regs s ∧ toIEW s1 = toIEW s
    ∧ serializeInst s1 = serializeInst s ∧ resumeSerialize s1 = resumeSerialize s ∧ resumeUnblocking s1 = resumeUnblocking s
    ∧ renameStatus s1 tid = (if decide (skidBuffer s tid = []) then RnRunning else RnUnblocking)
    ∧ ∀ t, t ≠ tid → renameStatus s1 t = renameStatus s t).
  { unfold s1, unblock. cbn. rewrite fn_lookup_insert, (bool_decide_false (RnUnblocking = RnSerializeStall)) by done.
    destruct (decide (skidBuffer s tid = [])) as [Hs|Hs].
    - rewrite bool_decide_true by done. cbn. rewrite ?fn_lookup_insert. split_and!; try done. intros t Hne. by rewrite !fn_lookup_insert_ne.
    - rewrite bool_decide_false by done. cbn. rewrite ?fn_lookup_insert. split_and!; try done. intros t Hne. by rewrite fn_lookup_insert_ne. }
  destruct F as (F1 & F2 & F3 & F4 & F5 & F6 & F7 & F8 & F9).
  assert (G : rn_regs s' = rn_regs s <| rs_heap ::= <[p := clearSerializeBefore d]> |> ∧ toIEW s' = toIEW s
    ∧ renameStatus s' = renameStatus s1 ∧ serializeInst s' = <[tid := None]> (serializeInst s)
    ∧ resumeSerialize s' = false ∧ resumeUnblocking s' = false
    ∧ (skidBuffer s tid = [] → skidBuffer s' tid = []) ∧ skidBuffer s' tid ++ rn_insts s' tid = p :: skidBuffer s tid ++ rn_insts s tid
    ∧ ∀ t, t ≠ tid → skidBuffer s' t = skidBuffer s t ∧ rn_insts s' t = rn_insts s t).
  { unfold s', s3, s2. cbn. rewrite F1, F2. destruct (decide (skidBuffer s tid = [])) as [Hs|Hs]; cbn;
      rewrite ?F1, ?F2, ?F3, ?F5, ?F6, ?F7, ?fn_lookup_insert; split_and!; try done; try (by rewrite Hs);
      intros t Hne; by rewrite ?fn_lookup_insert_ne. }
  destruct G as (G1 & G2 & G3 & G4 & G5 & G6 & G7 & G8 & G9).
  assert (Hk : ids_kept (rs_heap (rn_regs s)) (rs_heap (rn_regs s'))).
  { rewrite G1. cbn. apply (ids_kept_insert _ _ d); [done|]. by apply same_id_reset. }
  assert (Hpd : pending s' tid = pending s tid).
  { unfold pending. rewrite G4, fn_lookup_insert, G8, Hp. done. }
  assert (Ha : advanced tid [] s s').
  { split; rewrite ?G2, ?app_nil_r, ?Hpd; try done; [by intros t Hne; rewrite G1| |lia].
    intros t Hne. destruct (G9 t Hne) as [-> ->]. rewrite G3, G4, fn_lookup_insert_ne, F9; done. }
  split; [done|]. split; [by rewrite G1; eapply rename_inv_ext| |done]. intros t Ht'.
  destruct (decide (t = tid)) as [->|Hne]; [|by eapply thread_wf_other; eauto].
  destruct (Ht tid Htn) as [K1 K2 K3 (lo & Hh & Ho)]. split; rewrite ?G3, ?F8, ?G4, ?fn_lookup_insert, ?Hpd.
  - destruct (decide (skidBuffer s tid = [])); [auto|status].
  - destruct (decide (skidBuffer s tid = [])); split; try done; by intros [? ?].
  - by destruct (decide (skidBuffer s tid = [])).
  - exists lo. split; [by rewrite G1|]. by eapply in_order_kept.
Qed.

(** Without a squash, the signals leave what waits where it is. *)
Lemma checkSignals_ok B U (tid : nat) (b : bool) s s' :
  stage_inv B U s → (tid < n)%nat → in_squash (from tid) = false →
  checkSignalsAndUpdate rf skidBufferMax from fromDecode tid s = Ok (b, s') →
  advanced tid [] s s' ∧ stage_inv B U s'.
Proof.
  intros Hi Htn Hsq E. unfold checkSignalsAndUpdate in E. cbn zeta in E. apply bind_ok in E as (s1 & [Hto _]%readSignals_ok & E).
  rewrite Hsq in E. pose proof (touched_inv B U _ _ Hto Hi) as Hi1. destruct (si_threads _ _ _ Hi tid Htn) as [_ _ _ (lo & _ & Ho)].
  assert (Hend : ∀ x, advanced tid [] s1 x → advanced tid [] s x).
  { intros x Hx. apply (advanced_trans tid [] [] lo s s1 x); [by apply touched_advanced|done|done]. }
  destruct (checkStall from tid s1).
  { apply (block_inv B U) in E as (Hi2 & Hsh & _); [|done|done]. split; [|done]. by apply Hend, shuffled_advanced. }
  destruct (si_resume _ _ _ Hi1) as [H1 H2]. pose proof (si_threads _ _ _ Hi1 tid Htn) as [K1 K2 K3 _].
  assert (Hset : ∀ st, st ≠ RnStartSquash → st ≠ RnSerializeStall → renameStatus s1 tid ≠ RnSerializeStall →
    (st ∈ [RnRunning; RnIdle; RnSquashing] → skidBuffer s1 tid = []) →
    shuffled tid s1 (s1 <| renameStatus ::= <[tid := st]> |>) ∧ stage_inv B U (s1 <| renameStatus ::= <[tid := st]> |>)).
  { intros st Hn1 Hn2 Hn3 Hsk. assert (Hsh : shuffled tid s1 (s1 <| renameStatus ::= <[tid := st]> |>)).
    { split; try done. intros t Hne. cbn. by rewrite fn_lookup_insert_ne. }
    split; [done|]. eapply shuffled_inv; try done; cbn; rewrite fn_lookup_insert; try done. rewrite K2. naive_solver. }
  destruct (renameStatus s1 tid) eqn:Hst; try (injection E as <- <-; split; [by apply touched_advanced|done]).
  - rewrite H1, H2 in E. injection E as <- <-. destruct (Hset RnRunning) as [Hsh Hi2]; try done; [intros _; apply K1; status|].
    split; [|done]. by apply Hend, shuffled_advanced.
  - destruct (Hset RnUnblocking) as [Hsh Hi2]; try done; [status|].
    destruct (unblock_inv B U tid _ Hi2 Htn) as [Hi3 Hsh3]. injection E as <- <-. split; [|done].
    apply Hend, shuffled_advanced. by etrans.
  - apply bind_ok in E as (p & Hp%deref_ok & E). apply bind_ok in E as (d & Hd%deref_ok & E). injection E as <- <-.
    destruct (requeue_ok B U tid p d s1 Hi1 Htn Hp) as [Ha Hi2].
    { revert Hd. unfold unblock. by destruct (_ && _). }
    split; [by apply Hend|done].
Qed.

(** The credits the cycle works with are those of the signals. *)
Lemma checkSignals_credit (tid : nat) (b : bool) s s' :
  in_squash (from tid) = false → checkSignalsAndUpdate rf skidBufferMax from fromDecode tid s = Ok (b, s') →
  rn_freeEntries s' = rn_freeEntries (readFreeEntries from tid s) ∧ instsInProgress s' = instsInProgress s.
Proof.
  intros Hsq E. unfold checkSignalsAndUpdate in E. cbn zeta in E. apply bind_ok in E as (s1 & E1 & E). rewrite Hsq in E.
  assert (H1 : rn_freeEntries s1 = rn_freeEntries (readFreeEntries from tid s) ∧ instsInProgress s1 = instsInProgress s).
  { assert (instsInProgress (readFreeEntries from tid s) = instsInProgress s) as <-
      by (unfold readFreeEntries; cbn zeta; by destruct (in_usedROB _)).
    unfold readStallSignals in E1. cbn zeta in E1. destruct (in_iewBlock _), (in_iewUnblock _);
      [apply bind_ok in E1 as (? & _ & [= <-])|injection E1 as <-|apply bind_ok in E1 as (? & _ & [= <-])|injection E1 as <-]; done. }
  destruct H1 as [<- <-]. destruct (checkStall from tid s1).
  { apply block_ok in E as (Hsh & _). apply Hsh. }
  destruct (renameStatus s1 tid); try (by injection E as <- <-).
  - destruct (resumeSerialize s1), (resumeUnblocking s1); by injection E as <- <-.
  - injection E as <- <-. unfold unblock. by destruct (_ && _).
  - apply bind_ok in E as (p & _ & E). apply bind_ok in E as (d & _ & E). injection E as <- <-.
    unfold unblock. destruct (_ && _); cbn; by destruct (decide _).
Qed.
End tick.
