(* ===== verification/RenameCycle.v ===== *)
(** * The rename stage, cycle by cycle

    A squash empties the thread's queues and rolls its registers back; a whole cycle
    keeps the stage's invariant and delivers the threads' instructions in order.  These
    are the theorems about the stage. *)

From S2P Require Import Prelude Regs DynInst CPU Scoreboard FreeList RenameMap RenameInv RenameSpec RenameProps Rename RenameStage RenameTick.
Local Open Scope Z_scope.

Section cycle.
Context (rf : PhysRegFile) (x87_top : nat → Z) (cyc : Z) (renameWidth skidBufferMax : Z) (n : nat).
Context (activeThreads : list nat) (from : nat → RnIn) (fromDecode : list InstPtr).
Implicit Types (s : Rename) (B : nat → UnifiedRenameMap) (U : list PhysRegId).
Notation stage_inv := (stage_inv rf n).
Notation advanced := (advanced renameWidth).

(** ** Squash *)
(** Only instructions of the thread are marked. *)
Definition marks_only (tid : nat) (h h' : heap) : Prop :=
  shapes_kept h h' ∧ ∀ p d, h !! p = Some d → threadNumber d ≠ tid → h' !! p = Some d.

Lemma squashFromDecode_ok (sn : Z) (tid : nat) (l : list InstPtr) : ∀ s s',
  mfold (squashFromDecode sn tid) s l = Ok s' →
  ∃ h, s' = s <| rn_regs := rn_regs s <| rs_heap := h |> |> ∧ marks_only tid (rs_heap (rn_regs s)) h.
Proof.
  induction l as [|p l IH]; intros s s' E; cbn [mfold] in E.
  { injection E as <-. exists (rs_heap (rn_regs s)). split; [by destruct s as [????????? ????????? []]|].
    split; [|done]. intros p d Hd. by exists d. }
  apply bind_ok in E as (s1 & E1 & E). unfold squashFromDecode, rn_inst in E1. apply bind_ok in E1 as (d & Hd%deref_ok & E1).
  injection E1 as <-. destruct (_ && _) eqn:Hc; [|by apply IH].
  apply andb_true_iff in Hc as [Hc%bool_decide_eq_true _].
  apply IH in E as (h & -> & Hk & Ho). exists h. split; [done|]. cbn in Hk, Ho. split.
  - intros q x Hx. destruct (decide (q = p)) as [->|Hne].
    + destruct (Hk p (setSquashed d)) as (x' & Hx' & Hs); [by rewrite lookup_insert_eq|]. exists x'. split; [done|].
      rewrite Hd in Hx. by injection Hx as <-.
    + apply Hk. by rewrite lookup_insert_ne.
  - intros q x Hx Hne. apply Ho; [|done]. rewrite lookup_insert_ne; [done|]. intros ->. congruence.
Qed.

(** What a squash leaves. *)
Record squashed (tid : nat) s s' : Prop := {
  sq_pending : pending s' tid = [];
  sq_status : renameStatus s' tid = RnSquashing;
  sq_sent : toIEW s' = toIEW s;
  sq_marks : marks_only tid (rs_heap (rn_regs s)) (rs_heap (rn_regs s'));
  sq_others : ∀ t, t ≠ tid → renameStatus s' t = renameStatus s t ∧ skidBuffer s' t = skidBuffer s t
                ∧ rn_insts s' t = rn_insts s t ∧ serializeInst s' t = serializeInst s t;
  sq_regs : same_but tid (rn_regs s) (rn_regs s');
}.

(** The first part of [squash]: the serializing instruction is dropped. *)
Lemma squash_status_ok B U (sn : Z) (tid : nat) s s' :
  stage_inv B U s → (tid < n)%nat → (∀ p, p ∈ pending s tid → sn < seq_of (rs_heap (rn_regs s)) p) →
  (match renameStatus s tid with
   | RnBlocked | RnUnblocking =>
       Ok (s <| renameUnblock ::= <[tid := true]> |> <| resumeSerialize := false |>
             <| serializeInst ::= <[tid := None]> |>)
   | RnSerializeStall =>
       p ← deref (serializeInst s tid);
       d ← rn_inst p s;
       Ok (if seqNum d <=? sn then s <| resumeSerialize := true |>
           else s <| resumeSerialize := false |> <| renameUnblock ::= <[tid := true]> |>
                  <| serializeInst ::= <[tid := None]> |>)
   | _ => Ok s
   end) = Ok s' →
  serializeInst s' tid = None ∧ (∀ t, t ≠ tid → serializeInst s' t = serializeInst s t)
  ∧ resumeSerialize s' = false ∧ resumeUnblocking s' = false ∧ rn_regs s' = rn_regs s ∧ toIEW s' = toIEW s
  ∧ renameStatus s' = renameStatus s ∧ skidBuffer s' = skidBuffer s ∧ rn_insts s' = rn_insts s.
Proof.
  intros [_ Ht [H1 H2]] Htn Hsn E. destruct (Ht tid Htn) as [_ K2 K3 _].
  assert (Hn : renameStatus s tid ≠ RnSerializeStall → serializeInst s tid = None).
  { intros Hne. destruct (serializeInst s tid); [|done]. exfalso. apply Hne, K2. done. }
  destruct (renameStatus s tid) eqn:Hst; try (injection E as <-; split_and!; try done; by apply Hn);
    try (injection E as <-; cbn; rewrite fn_lookup_insert; split_and!; try done; intros t Hne; by rewrite fn_lookup_insert_ne).
  apply bind_ok in E as (p & Hp%deref_ok & E). unfold rn_inst in E. apply bind_ok in E as (d & Hd%deref_ok & E). injection E as <-.
  assert (Hlt : sn < seqNum d).
  { specialize (Hsn p). unfold seq_of in Hsn. rewrite Hd in Hsn. apply Hsn. unfold pending. rewrite Hp. left. }
  destruct (Z.leb_spec (seqNum d) sn); [lia|]. cbn. rewrite fn_lookup_insert. split_and!; try done.
  intros t Hne. by rewrite fn_lookup_insert_ne.
Qed.

Lemma squash_ok B U (sn : Z) (tid : nat) s s' :
  stage_inv B U s → (tid < n)%nat → (∀ p, p ∈ pending s tid → sn < seq_of (rs_heap (rn_regs s)) p) →
  rn_squash rf fromDecode sn tid s = Ok s' → squashed tid s s' ∧ stage_inv B U s'.
Proof.
  intros Hi Htn Hsn E. unfold rn_squash in E. apply bind_ok in E as (s1 & E1 & E).
  destruct (squash_status_ok B U sn tid s s1 Hi Htn Hsn E1) as (S1 & S2 & S3 & S4 & S5 & S6 & S7 & S8 & S9).
  cbn zeta in E. apply bind_ok in E as (s2 & E2 & E). apply squashFromDecode_ok in E2 as (h & -> & Hm). cbn in Hm.
  apply bind_ok in E as (r & Er & E). injection E as <-. cbn in Er. rewrite S5 in Er, Hm.
  destruct Hi as [Hr Ht [H1 H2]].
  set (regs1 := rn_regs s <| rs_heap := h |>) in *.
  assert (Hr1 : rename_inv rf n B U regs1) by (by eapply rename_inv_ext).
  destruct (rn_squash_loop_ok rf n B U sn tid _ regs1 Hr1 Htn eq_refl) as (r1 & Er1 & Hr' & Eh & Ehp & _ & Hsame).
  change (rn_doSquash rf sn tid regs1 = Ok r1) in Er1. change (rn_doSquash rf sn tid regs1 = Ok r) in Er. rewrite Er in Er1. injection Er1 as <-. clear Er.
  set (s' := _ <| rn_regs := r |>).
  assert (Hoth : ∀ t, t ≠ tid → renameStatus s' t = renameStatus s t ∧ skidBuffer s' t = skidBuffer s t
                ∧ rn_insts s' t = rn_insts s t ∧ serializeInst s' t = serializeInst s t).
  { intros t Hne. unfold s'. cbn. rewrite !fn_lookup_insert_ne by done. rewrite S7, S8, S9, S2; done. }
  assert (Hpd : pending s' tid = []) by (unfold pending, s'; cbn; by rewrite S1, !fn_lookup_insert).
  split.
  - split; try done; unfold s'; cbn; [by rewrite fn_lookup_insert|by rewrite Ehp].
  - split; [done| |split; unfold s'; cbn; congruence]. intros t Ht'. destruct (Ht t Ht') as [K1 K2 K3 (lo & Hh & Ho)].
    destruct (decide (t = tid)) as [->|Hne].
    + split; [unfold s'; cbn; by rewrite !fn_lookup_insert| | |].
      * unfold s'. cbn. rewrite S1, fn_lookup_insert. split; [by intros []|done].
      * unfold s'. cbn. by rewrite fn_lookup_insert.
      * exists lo. rewrite Hpd. split; [|done]. change (rn_regs s') with r. rewrite Eh. intros e He.
        apply list_elem_of_filter in He as [_ He]. by apply Hh.
    + destruct (Hoth t Hne) as (E1' & E2' & E3' & E4'). split; rewrite ?E1', ?E2', ?E4'; try done.
      exists lo. unfold pending. rewrite E2', E3', E4'. change (rn_regs s') with r. destruct (Hsame t Hne) as [_ ->].
      split; [done|]. rewrite Ehp. eapply in_order_shape; [apply Hm|done].
Qed.

(** ** One thread *)
(** Room for a thread's instructions in the ROB and the IQ, by the signals of the cycle. *)
Definition room (tid : nat) s : Z :=
  Z.max 0 (Z.min (calcFreeROBEntries from tid (readFreeEntries from tid s))
                 (calcFreeIQEntries from tid (readFreeEntries from tid s))).

Definition thread_done (tid : nat) (taken : list InstPtr) s s' : Prop :=
  if in_squash (from tid) then taken = [] ∧ squashed tid s s'
  else advanced tid taken s s' ∧ Z.of_nat (length (live (rs_heap (rn_regs s)) taken)) ≤ room tid s.

Lemma tickThread_ok B U (tid : nat) (b b' : bool) s s' :
  stage_inv B U s → (tid < n)%nat →
  (in_squash (from tid) = true → ∀ p, p ∈ pending s tid → in_doneSeqNum (from tid) < seq_of (rs_heap (rn_regs s)) p) →
  tickThread rf x87_top cyc renameWidth skidBufferMax from fromDecode (b, s) tid = Ok (b', s') →
  stage_inv B U s' ∧ ∃ taken, thread_done tid taken s s'.
Proof.
  intros Hi Htn Hsq E. cbn in E. apply bind_ok in E as ([b1 s1] & E1 & E). unfold thread_done.
  destruct (in_squash (from tid)) eqn:Hq.
  - unfold checkSignalsAndUpdate in E1. cbn zeta in E1. apply bind_ok in E1 as (s0 & [Hto Er0]%readSignals_ok & E1). rewrite Hq in E1.
    apply bind_ok in E1 as (s2 & E2 & [= <- <-]). pose proof (touched_inv _ _ B U _ _ Hto Hi) as Hi0.
    destruct Hto as [(T1&T2&_&_) (T3&T4) T5 _ _].
    assert (Hp0 : pending s0 tid = pending s tid) by (unfold pending; by rewrite T2, T3, T4).
    apply (squash_ok B U) in E2 as [Hs Hi2]; [|done|done|rewrite Hp0, Er0; by apply Hsq].
    destruct (rename_ok rf x87_top cyc renameWidth skidBufferMax n from fromDecode B U tid _ b' s2 s' Hi2 Htn E) as (_ & _ & Hi' & _ & Hsame).
    rewrite Hsame in * by (rewrite (sq_status _ _ _ Hs); status). split; [done|]. exists []. split; [done|].
    destruct Hs as [S1 S2 S3 S4 S5 S6]. rewrite Er0 in S4, S6. split; try done; [congruence|].
    intros t Hne. rewrite <- T1, <- T2, <- T3, <- T4. by apply S5.
  - pose proof (checkSignals_credit rf skidBufferMax from fromDecode tid b1 s s1 Hq E1) as [Hc1 Hc2].
    eapply checkSignals_ok in E1 as [Ha1 Hi1]; [|done..].
    destruct (rename_ok rf x87_top cyc renameWidth skidBufferMax n from fromDecode B U tid _ b' s1 s' Hi1 Htn E) as (taken & Ha & Hi' & Hcr & _).
    destruct (si_threads _ _ _ _ _ Hi tid Htn) as [_ _ _ (lo & _ & Ho)].
    split; [done|]. exists taken. split; [exact (advanced_trans _ tid [] taken lo s s1 s' Ha1 Ha Ho)|].
    assert (live (rs_heap (rn_regs s)) taken = live (rs_heap (rn_regs s1)) taken) as ->.
    { rewrite (ad_pending _ _ _ _ _ Ha1), (ad_pending _ _ _ _ _ Ha) in Ho. apply in_order_app in Ho as (_ & lo1 & _ & Ho & _).
      apply in_order_app in Ho as [Ho _]. symmetry. eapply live_kept; [apply (ad_ids _ _ _ _ _ Ha1)|done]. }
    unfold within_credit in Hcr. unfold room, calcFreeROBEntries, calcFreeIQEntries in *.
    assert (instsInProgress (readFreeEntries from tid s) = instsInProgress s) as Hc3
      by (unfold readFreeEntries; cbn zeta; by destruct (in_usedROB _)).
    by rewrite Hc3, <- Hc1, <- Hc2.
Qed.

(** ** All threads *)
Lemma thread_done_others (tid t : nat) (taken l : list InstPtr) (lo : Z) s s' :
  thread_done tid taken s s' → t ≠ tid → in_order (rs_heap (rn_regs s)) t lo l →
  live (rs_heap (rn_regs s')) l = live (rs_heap (rn_regs s)) l ∧ pending s' t = pending s t
  ∧ ∀ p, p ∈ l → seq_of (rs_heap (rn_regs s')) p = seq_of (rs_heap (rn_regs s)) p.
Proof.
  intros Hd Hne Ho. assert (Hp : pending s' t = pending s t).
  { unfold thread_done, pending in *. destruct (in_squash (from tid)).
    - destruct Hd as [_ [_ _ _ _ O _]]. by destruct (O t Hne) as (_&->&->&->).
    - destruct Hd as [[_ _ _ _ O _] _]. by destruct (O t Hne) as (_&->&->&->). }
  assert (Hk : ∀ p d, rs_heap (rn_regs s) !! p = Some d → threadNumber d ≠ tid →
             ∃ d', rs_heap (rn_regs s') !! p = Some d' ∧ isSquashed d' = isSquashed d ∧ seqNum d' = seqNum d).
  { intros p d Hpd Ht. unfold thread_done in Hd. destruct (in_squash (from tid)).
    - destruct Hd as [_ [_ _ _ [_ M] _ _]]. exists d. split; [by apply M|done].
    - destruct Hd as [[_ _ I _ _ _] _]. destruct (I p d Hpd) as (d' & Hd' & E & _ & _ & Es & _). by exists d'. }
  clear Hd. split; [|split; [done|]].
  - revert lo Ho. induction l as [|p l IH]; intros lo; [done|]. intros (d & Hpd & _ & Ht & _ & Ho). rewrite !live_cons, (IH _ Ho).
    destruct (Hk p d Hpd ltac:(congruence)) as (d' & Hd' & Es & _). unfold dead. by rewrite Hpd, Hd'; cbn; rewrite Es.
  - revert lo Ho. induction l as [|x l IH]; intros lo; [by intros _ p ?%not_elem_of_nil|].
    intros (d & Hpd & _ & Ht & _ & Ho) p [->|Hin]%elem_of_cons; [|by eapply IH].
    destruct (Hk x d Hpd ltac:(congruence)) as (d' & Hd' & _ & Es). unfold seq_of. rewrite Hpd, Hd'. done.
Qed.

(** Commit squashes to an instruction that has left rename. *)
Definition squash_older s (l : list nat) : Prop :=
  ∀ t p, t ∈ l → in_squash (from t) = true → p ∈ pending s t → in_doneSeqNum (from t) < seq_of (rs_heap (rn_regs s)) p.

(** A squashed thread delivers nothing; another one a prefix of what waited. *)
Definition delivered (t : nat) (before taken after : list InstPtr) : Prop :=
  if in_squash (from t) then taken = [] ∧ after = [] else before = taken ++ after.

Lemma tickThreads_ok B U (l : list nat) : ∀ s (b b' : bool) s',
  NoDup l → (∀ t, t ∈ l → (t < n)%nat) → stage_inv B U s → squash_older s l →
  mfold (tickThread rf x87_top cyc renameWidth skidBufferMax from fromDecode) (b, s) l = Ok (b', s') →
  stage_inv B U s' ∧ Z.of_nat (length (toIEW s')) ≤ Z.max renameWidth (Z.of_nat (length (toIEW s)))
  ∧ ∃ taken : nat → list InstPtr,
      toIEW s' = toIEW s ++ mjoin ((λ t, live (rs_heap (rn_regs s)) (taken t)) <$> l)
      ∧ (∀ t, t ∈ l → delivered t (pending s t) (taken t) (pending s' t))
      ∧ (∀ t, (t < n)%nat → t ∉ l → pending s' t = pending s t).
Proof.
  induction l as [|t l IH]; intros s b b' s' Hnd Hl Hi Hsq E; cbn [mfold] in E.
  { injection E as <- <-. split; [done|]. split; [lia|]. exists (λ _, []). cbn. rewrite app_nil_r.
    split_and!; try done. by intros t ?%not_elem_of_nil. }
  apply bind_ok in E as ([b1 s1] & E1 & E). inversion_clear Hnd as [|? ? Hnt Hnd']. pose proof (Hl t ltac:(left)) as Ht.
  destruct (tickThread_ok B U t b b1 s s1 Hi Ht) as [Hi1 [tk Hd]]; [intros Hq p Hp; apply (Hsq t p); [left|done|done]|done|].
  assert (Hoth : ∀ t', (t' < n)%nat → t' ≠ t → ∃ lo, in_order (rs_heap (rn_regs s)) t' lo (pending s t') ∧ pending s1 t' = pending s t').
  { intros t' Ht' Hne. destruct (si_threads _ _ _ _ _ Hi t' Ht') as [_ _ _ (lo & _ & Ho)]. exists lo. split; [done|].
    by apply (thread_done_others t t' tk (pending s t') lo s s1). }
  destruct (IH s1 b1 b' s' Hnd') as (Hi' & Hw & taken & Et & Hdel & Hrest); [intros; apply Hl; by right|done| |done|].
  { intros t' p Ht' Hq Hp. assert (Hne : t' ≠ t) by (intros ->; done).
    destruct (Hoth t' ltac:(apply Hl; by right) Hne) as (lo & Ho & Ep). rewrite Ep in Hp.
    destruct (thread_done_others t t' tk _ lo s s1 Hd Hne Ho) as (_ & _ & Es). rewrite (Es p Hp). apply (Hsq t'); [by right|done|done]. }
  assert (Hfirst : toIEW s1 = toIEW s ++ live (rs_heap (rn_regs s)) tk
    ∧ Z.of_nat (length (toIEW s1)) ≤ Z.max renameWidth (Z.of_nat (length (toIEW s)))
    ∧ delivered t (pending s t) tk (pending s1 t)).
  { unfold thread_done, delivered in *. destruct (in_squash (from t)).
    - destruct Hd as [-> [S1 _ S3 _ _ _]]. rewrite S3. cbn. rewrite app_nil_r. split_and!; try done. lia.
    - destruct Hd as [[A1 A2 _ _ _ A6] _]. by split_and!. }
  destruct Hfirst as (F1 & F2 & F3). split; [done|]. split; [lia|].
  exists (λ x, if decide (x = t) then tk else taken x). split_and!.
  - rewrite Et, F1, <- app_assoc. cbn [fmap list_fmap]. rewrite decide_True by done.
    change (mjoin (live (rs_heap (rn_regs s)) tk :: ?x)) with (live (rs_heap (rn_regs s)) tk ++ mjoin x). do 2 f_equal. f_equal.
    apply list_fmap_ext. intros i x Hx%list_elem_of_lookup_2. assert (Hne : x ≠ t) by (intros ->; done).
    rewrite decide_False by done. destruct (Hoth x ltac:(apply Hl; by right) Hne) as (lo & Ho & Ep).
    specialize (Hdel x Hx). unfold delivered in Hdel. destruct (in_squash (from x)); [by destruct Hdel as [-> _]|].
    rewrite Ep in Hdel. rewrite Hdel in Ho. apply in_order_app in Ho as [Ho _]. by apply (thread_done_others t x tk _ lo s s1).
  - intros x [->|Hx]%elem_of_cons.
    + rewrite decide_True by done. rewrite (Hrest t Ht Hnt). done.
    + assert (Hne : x ≠ t) by (intros ->; done). rewrite decide_False by done. specialize (Hdel x Hx).
      by destruct (Hoth x ltac:(apply Hl; by right) Hne) as (lo & _ & <-).
  - intros x Hxn Hx. apply not_elem_of_cons in Hx as [Hne Hx]. rewrite (Hrest x Hxn Hx). by destruct (Hoth x Hxn Hne) as (_ & _ & ->).
Qed.

(** ** The whole cycle *)
(** What decode sends a thread. *)
Definition arrivals (h : heap) (tid : nat) (l : list InstPtr) : list InstPtr :=
  filter (λ p, threadNumber <$> h !! p = Some tid) l.

Lemma sortInsts_ok (l : list InstPtr) : ∀ s s',
  mfold sortInst s l = Ok s' →
  ∃ q, s' = s <| rn_insts := q |> ∧ ∀ t, q t = rn_insts s t ++ arrivals (rs_heap (rn_regs s)) t l.
Proof.
  induction l as [|p l IH]; intros s s' E; cbn [mfold] in E.
  { injection E as <-. exists (rn_insts s). split; [by destruct s|]. intros t. by rewrite app_nil_r. }
  apply bind_ok in E as (s1 & E1 & E). unfold sortInst, rn_inst in E1. apply bind_ok in E1 as (d & Hd%deref_ok & E1). injection E1 as <-.
  apply IH in E as (q & -> & Hq). exists q. split; [done|]. intros t.
  transitivity (<[threadNumber d := rn_insts s (threadNumber d) ++ [p]]> (rn_insts s) t ++ arrivals (rs_heap (rn_regs s)) t l);
    [apply Hq|]. unfold arrivals.
  destruct (decide (t = threadNumber d)) as [->|Hne].
  - rewrite fn_lookup_insert, filter_cons_True by (by rewrite Hd). by rewrite <- app_assoc.
  - rewrite fn_lookup_insert_ne, filter_cons_False; [done| |done]. rewrite Hd. cbn. congruence.
Qed.

(** Decode sends instructions in program order. *)
Definition decode_ok s : Prop :=
  ∀ tid, (tid < n)%nat → ∃ lo, (∀ e, e ∈ historyBuffer (rn_regs s) tid → instSeqNum e ≤ lo)
    ∧ in_order (rs_heap (rn_regs s)) tid lo (pending s tid ++ arrivals (rs_heap (rn_regs s)) tid fromDecode).

Lemma tickCommitted_ok B U (tid : nat) s s' :
  stage_inv B U s → (tid < n)%nat → tickCommitted from s tid = Ok s' →
  (∃ B', stage_inv B' U s') ∧ toIEW s' = toIEW s ∧ (∀ t, pending s' t = pending s t).
Proof.
  intros Hi Htn E. unfold tickCommitted in E. destruct (_ && _); [|injection E as <-; split_and!; [by exists B|done|done]].
  apply bind_ok in E as (r & Er & [= <-]). destruct Hi as [Hr Ht Hres]. split; [|done].
  destruct (commit_loop_ok rf n U (in_doneSeqNum (from tid)) tid _ B (rn_regs s) Hr Htn ltac:(by rewrite reverse_involutive))
    as (r1 & Er1 & Hr' & Eh & Em & Ehp & _ & Hsame).
  unfold removeFromHistory in Er. rewrite Er in Er1. injection Er1 as <-. eexists. split; [exact Hr'| |done].
  intros t Ht'. destruct (Ht t Ht') as [K1 K2 K3 (lo & Hh & Ho)]. split; try done. exists lo. cbn. rewrite Ehp. split; [|done].
  destruct (decide (t = tid)) as [->|Hne]; [|by destruct (Hsame t Hne) as [_ ->]].
  rewrite Eh, reverse_involutive. intros e He. apply list_elem_of_filter in He as [_ He]. by apply Hh.
Qed.

Lemma tickCommits_ok U (l : list nat) : ∀ B s s',
  stage_inv B U s → (∀ t, t ∈ l → (t < n)%nat) → mfold (tickCommitted from) s l = Ok s' →
  (∃ B', stage_inv B' U s') ∧ toIEW s' = toIEW s ∧ (∀ t, pending s' t = pending s t).
Proof.
  induction l as [|t l IH]; intros B s s' Hi Hl E; cbn [mfold] in E; [injection E as <-; split_and!; [by exists B|done|done]|].
  apply bind_ok in E as (s1 & E1 & E). apply (tickCommitted_ok B U) in E1 as ([B1 Hi1] & Et & Ep); [|done|apply Hl; left].
  apply (IH B1) in E as (Hi' & Et' & Ep'); [|done|intros; apply Hl; by right]. rewrite Et', Et. split_and!; try done.
  intros x. by rewrite Ep', Ep.
Qed.

Lemma tickProgress_touched (l : list nat) (s s' : Rename) :
  mfold (tickProgress from) s l = Ok s' → touched s s'.
Proof.
  intros E. eapply (mfold_inv (λ x, touched s x)); [|done|exact E]. intros s1 t s2 _ H1 E1. etrans; [exact H1|].
  unfold tickProgress in E1. cbn zeta in E1. apply bind_ok in E1 as (? & _ & E1). apply bind_ok in E1 as (? & _ & E1).
  apply bind_ok in E1 as (? & _ & [= <-]). by apply touched_regs.
Qed.

Lemma touched_pending (s s' : Rename) (t : nat) : touched s s' → pending s' t = pending s t ∧ toIEW s' = toIEW s.
Proof. intros [(_&E&_&_) (Q1&Q2) T _ _]. unfold pending. by rewrite E, Q1, Q2. Qed.

Lemma tick_ok B U s s' :
  stage_inv B U s → NoDup activeThreads → (∀ t, t ∈ activeThreads → (t < n)%nat) → decode_ok s →
  (∀ t p, t ∈ activeThreads → in_squash (from t) = true →
     p ∈ pending s t ++ arrivals (rs_heap (rn_regs s)) t fromDecode → in_doneSeqNum (from t) < seq_of (rs_heap (rn_regs s)) p) →
  tick rf x87_top cyc renameWidth skidBufferMax n activeThreads from fromDecode s = Ok s' →
  (∃ B', stage_inv B' U s') ∧ Z.of_nat (length (toIEW s')) ≤ Z.max renameWidth 0
  ∧ ∃ taken : nat → list InstPtr,
      toIEW s' = mjoin ((λ t, live (rs_heap (rn_regs s)) (taken t)) <$> activeThreads)
      ∧ ∀ t, t ∈ activeThreads →
          delivered t (pending s t ++ arrivals (rs_heap (rn_regs s)) t fromDecode) (taken t) (pending s' t).
Proof.
  intros Hi Hnd Hact Hdec Hsq E. unfold tick in E. cbn zeta in E. apply bind_ok in E as (s1 & E1 & E).
  apply sortInsts_ok in E1 as (q & -> & Hq). cbn in Hq. apply bind_ok in E as ([b s2] & E2 & E).
  set (s1 := _ <| rn_insts := q |>) in E2.
  assert (Hp1 : ∀ t, pending s1 t = pending s t ++ arrivals (rs_heap (rn_regs s)) t fromDecode).
  { intros t. unfold pending, s1. cbn. rewrite Hq. by rewrite <- !app_assoc. }
  assert (Hi1 : stage_inv B U s1).
  { destruct Hi as [Hr Ht Hres]. split; try done. intros t Htn. destruct (Ht t Htn) as [K1 K2 K3 _]. split; try done.
    destruct (Hdec t Htn) as (lo & Hh & Ho). exists lo. by rewrite Hp1. }
  destruct (tickThreads_ok B U activeThreads s1 false b s2 Hnd Hact Hi1) as (Hi2 & Hw & taken & Et & Hdel & _); [|done|].
  { intros t p Ht Hs Hp. rewrite Hp1 in Hp. by apply (Hsq t p). }
  set (s3 := if b then _ else s2) in E. assert (Hto3 : touched s2 s3).
  { unfold s3, updateStatus. cbn zeta. destruct b; [|done]. destruct (existsb _ _), (decide _); try done; by apply touched_regs. }
  apply bind_ok in E as (s4 & E4 & E5%tickProgress_touched).
  apply (tickCommits_ok U activeThreads B) in E4 as ([B4 Hi4] & Et4 & Ep4); [|by eapply touched_inv|done].
  destruct (touched_pending s2 s3 0%nat Hto3) as [_ Et3]. destruct (touched_pending s4 s' 0%nat E5) as [_ Et5].
  assert (Het : toIEW s' = toIEW s2) by congruence.
  split; [exists B4; by eapply touched_inv|]. rewrite Het. split; [cbn in Hw; lia|]. exists taken. split; [done|].
  intros t Ht. specialize (Hdel t Ht). rewrite Hp1 in Hdel.
  destruct (touched_pending s2 s3 t Hto3) as [Ep3 _]. destruct (touched_pending s4 s' t E5) as [-> _]. by rewrite Ep4, Ep3.
Qed.
End cycle.

(** ** Runs *)
(** Cycles of the stage, with whatever the wires carry, and the other stages' changes to
    the instructions, the scoreboard and the taint bits in between. *)
Section runs.
Context (rf : PhysRegFile) (renameWidth skidBufferMax : Z) (n : nat) (activeThreads : list nat).

Inductive stage_step (s : Rename) : Rename → Prop :=
| st_tick x87_top cyc from fromDecode s' :
    decode_ok n fromDecode s →
    (∀ t p, t ∈ activeThreads → in_squash (from t) = true →
       p ∈ pending s t ++ arrivals (rs_heap (rn_regs s)) t fromDecode → in_doneSeqNum (from t) < seq_of (rs_heap (rn_regs s)) p) →
    tick rf x87_top cyc renameWidth skidBufferMax n activeThreads from fromDecode s = Ok s' →
    stage_step s s'
| st_others h sb t :
    shapes_kept (rs_heap (rn_regs s)) h →
    stage_step s (s <| rn_regs := rn_regs s <| rs_heap := h |> <| scoreboard := sb |> <| rs_taint := t |> |>).

Lemma stage_step_inv B U (s s' : Rename) :
  NoDup activeThreads → (∀ t, t ∈ activeThreads → (t < n)%nat) →
  stage_inv rf n B U s → stage_step s s' → ∃ B', stage_inv rf n B' U s'.
Proof.
  intros Hnd Hact Hi Hst. destruct Hst as [x87_top cyc from fromDecode s' Hdec Hsq E|h sb t Hk].
  - destruct (tick_ok _ _ _ _ _ _ _ _ _ B U s s' Hi Hnd Hact Hdec Hsq E) as (H & _). exact H.
  - exists B. destruct Hi as [Hr Ht Hres]. split; [by eapply rename_inv_ext| |done]. intros x Hx.
    destruct (Ht x Hx) as [K1 K2 K3 (lo & Hh & Ho)]. split; try done. exists lo. split; [done|]. by eapply in_order_shape.
Qed.

(** The state [startupStage] leaves, on the registers of the CPU's constructor. *)
Definition stage_start (freeIQ freeLQ freeSQ freeROB : nat → Z) (r : RegState) : Rename :=
  resetStage n freeIQ freeLQ freeSQ freeROB
    (MkRename RnInactive (λ _, RnStartSquash) (λ _, []) (λ _, []) (λ _, 0) (λ _, 0) (λ _, 0)
       (λ _, MkFreeEntries 0 0 0 0) (λ _, false) (λ _, false) (λ _, None) (λ _, false) false false false []
       (λ _, false) (λ _, false) r).

Lemma resetThreads_ok (fIQ fLQ fSQ fROB : nat → Z) (k : nat) (s : Rename) :
  let s' := foldl (resetThread fIQ fLQ fSQ fROB) s (seq 0 k) in
  (∀ t, (t < k)%nat → renameStatus s' t = RnIdle ∧ serializeInst s' t = None)
  ∧ rn_insts s' = rn_insts s ∧ skidBuffer s' = skidBuffer s ∧ rn_regs s' = rn_regs s
  ∧ resumeSerialize s' = resumeSerialize s ∧ resumeUnblocking s' = resumeUnblocking s.
Proof.
  induction k as [|k IH]; [split_and!; try done; lia|]. rewrite seq_S, foldl_app. cbn [foldl Nat.add].
  destruct IH as (H1 & H2). split; [|done]. intros t Ht. cbn. destruct (decide (t = k)) as [->|Hne].
  - by rewrite !fn_lookup_insert.
  - rewrite !fn_lookup_insert_ne by done. apply H1. lia.
Qed.

Lemma stage_start_inv B U (fIQ fLQ fSQ fROB : nat → Z) (r : RegState) :
  rename_inv rf n B U r → (∀ t, historyBuffer r t = []) → stage_inv rf n B U (stage_start fIQ fLQ fSQ fROB r).
Proof.
  intros Hr Hh. unfold stage_start, resetStage. set (s0 := _ <| rn_status := _ |> <| resumeSerialize := _ |> <| resumeUnblocking := _ |>).
  destruct (resetThreads_ok fIQ fLQ fSQ fROB n s0) as (H1 & H2 & H3 & H4 & H5 & H6).
  split; [by rewrite H4| |by rewrite H5, H6]. intros t Ht. destruct (H1 t Ht) as [E1 E2]. split.
  - by rewrite H3.
  - rewrite E1, E2. split; [by intros []|done].
  - by rewrite E1.
  - exists 0. rewrite H4. split; [intros e; cbn; rewrite Hh; by intros ?%not_elem_of_nil|].
    unfold pending. rewrite E2, H2, H3. done.
Qed.
End runs.

(** * What the rename stage guarantees

    The theorems about whole cycles: the invariant in every reachable state, in-order
    delivery without loss, credits, serializing instructions, squashes. *)
Local Open Scope Z_scope.

Section reachable.
Context (nInt nFloat nVec nCC nMisc n : nat) (sb : Scoreboard).
Context (renameWidth skidBufferMax : Z) (activeThreads : list nat) (fIQ fLQ fSQ fROB : nat → Z).
Local Notation rf := (PhysRegFile_init nInt nFloat nVec nCC nMisc Full).

(** C32: the rename stage keeps its invariant in every reachable state: whatever the
    wires carry, cycle after cycle, the registers of the machine are conserved and
    explained by the histories, what waits in rename is in program order and younger
    than what was renamed, the skid buffer of a running thread is empty, and an
    instruction is set aside exactly while its thread stalls to serialize. *)
Theorem rename_stage_invariant (r : RegState) (crms : nat → UnifiedRenameMap) (s : Rename) :
  boot rf sb n = Ok (r, crms) → NoDup activeThreads → (∀ t, t ∈ activeThreads → (t < n)%nat) →
  rtc (stage_step rf renameWidth skidBufferMax n activeThreads) (stage_start n fIQ fLQ fSQ fROB r) s →
  ∃ B, stage_inv rf n B (all_ids rf) s.
Proof.
  intros Hb Hnd Hact Hrun. destruct (boot_ok nInt nFloat nVec nCC nMisc n sb r crms Hb) as (Hi & _ & Hh).
  assert (H0 : ∃ B, stage_inv rf n B (all_ids rf) (stage_start n fIQ fLQ fSQ fROB r))
    by (eexists; by apply stage_start_inv).
  revert H0. induction Hrun as [x|x y z Hxy _ IH]; [done|]. intros [B Hx]. apply IH. by eapply stage_step_inv.
Qed.
End reachable.

Section props.
Context (rf : PhysRegFile) (x87_top : nat → Z) (cyc : Z) (renameWidth skidBufferMax : Z) (n : nat).
Context (activeThreads : list nat) (from : nat → RnIn) (fromDecode : list InstPtr).

(** C30: rename delivers in order and loses nothing: in a cycle, what waited in a thread
    and what decode sent it is what the cycle took followed by what still waits; what
    goes to IEW is what the threads took, thread by thread, less the squashed
    instructions, and at most [renameWidth] instructions; a thread that is squashed
    sends nothing and keeps nothing. *)
Theorem rename_delivers_in_order (B : nat → UnifiedRenameMap) (U : list PhysRegId) (s s' : Rename) :
  stage_inv rf n B U s → NoDup activeThreads → (∀ t, t ∈ activeThreads → (t < n)%nat) → 0 ≤ renameWidth →
  decode_ok n fromDecode s →
  (∀ t p, t ∈ activeThreads → in_squash (from t) = true →
     p ∈ pending s t ++ arrivals (rs_heap (rn_regs s)) t fromDecode → in_doneSeqNum (from t) < seq_of (rs_heap (rn_regs s)) p) →
  tick rf x87_top cyc renameWidth skidBufferMax n activeThreads from fromDecode s = Ok s' →
  Z.of_nat (length (toIEW s')) ≤ renameWidth
  ∧ ∃ taken : nat → list InstPtr,
      toIEW s' = mjoin ((λ t, live (rs_heap (rn_regs s)) (taken t)) <$> activeThreads)
      ∧ ∀ t, t ∈ activeThreads →
          if in_squash (from t) then taken t = [] ∧ pending s' t = []
          else pending s t ++ arrivals (rs_heap (rn_regs s)) t fromDecode = taken t ++ pending s' t.
Proof.
  intros Hi Hnd Hact Hw Hdec Hsq E.
  destruct (tick_ok _ _ _ _ _ _ _ _ _ B U s s' Hi Hnd Hact Hdec Hsq E) as (_ & Hlen & taken & Et & Hd).
  split; [lia|]. exists taken. by split.
Qed.

(** C33: rename spends no more than its credits: in a cycle a thread sends at most as many
    instructions as the ROB and the IQ have entries beyond what is already on its way
    (in 32-bit arithmetic, on the counts the wires carried this cycle), and nothing
    when either has none. *)
Theorem rename_within_credit (B : nat → UnifiedRenameMap) (U : list PhysRegId) (tid : nat) (b b' : bool) (s s' : Rename) :
  stage_inv rf n B U s → (tid < n)%nat → in_squash (from tid) = false →
  tickThread rf x87_top cyc renameWidth skidBufferMax from fromDecode (b, s) tid = Ok (b', s') →
  ∃ sent, toIEW s' = toIEW s ++ sent
    ∧ Z.of_nat (length sent) ≤ Z.max 0 (calcFreeROBEntries from tid (readFreeEntries from tid s))
    ∧ Z.of_nat (length sent) ≤ Z.max 0 (calcFreeIQEntries from tid (readFreeEntries from tid s)).
Proof.
  intros Hi Ht Hq E. apply (tickThread_ok rf x87_top cyc renameWidth skidBufferMax n from fromDecode B U) in E as [_ [taken Hd]];
    [|done|done|congruence].
  unfold thread_done in Hd. rewrite Hq in Hd. destruct Hd as [Ha Hr]. exists (live (rs_heap (rn_regs s)) taken).
  split; [apply (ad_sent _ _ _ _ _ Ha)|]. unfold room in Hr. lia.
Qed.

(** a serializing instruction waits for an empty machine: while its thread's ROB is
    not empty or instructions are on their way to it, a cycle sends nothing for the
    thread and the instruction stays set aside. *)
Theorem serialize_stall_holds (B : nat → UnifiedRenameMap) (U : list PhysRegId) (tid : nat) (b b' : bool) (s s' : Rename) :
  stage_inv rf n B U s → (tid < n)%nat → in_squash (from tid) = false → renameStatus s tid = RnSerializeStall →
  rn_emptyROB (readFreeEntries from tid s) tid = false ∨ instsInProgress s tid ≠ 0 →
  tickThread rf x87_top cyc renameWidth skidBufferMax from fromDecode (b, s) tid = Ok (b', s') →
  toIEW s' = toIEW s ∧ renameStatus s' tid = RnSerializeStall ∧ serializeInst s' tid = serializeInst s tid
  ∧ pending s' tid = pending s tid.
Proof.
  intros Hi Ht Hq Hst Hbusy E. cbn in E. apply bind_ok in E as ([b1 s1] & E1 & E).
  unfold checkSignalsAndUpdate in E1. cbn zeta in E1. apply bind_ok in E1 as (s0 & E0 & E1). rewrite Hq in E1.
  pose proof (readSignals_ok from tid s s0 E0) as [Hto _]. pose proof (touched_inv rf n B U _ _ Hto Hi) as Hi0.
  destruct (to_fields _ _ Hto) as (T1 & T2 & _ & _).
  assert (Hstall : checkStall from tid s0 = true).
  { unfold checkStall. rewrite T1, Hst, bool_decide_true by done.
    assert (Hrob : rn_emptyROB s0 tid = false ∨ instsInProgress s0 tid ≠ 0).
    { assert (rn_emptyROB s0 = rn_emptyROB (readFreeEntries from tid s) ∧ instsInProgress s0 = instsInProgress s) as [-> ->]; [|done].
      assert (instsInProgress (readFreeEntries from tid s) = instsInProgress s) as <-
        by (unfold readFreeEntries; cbn zeta; by destruct (in_usedROB _)).
      unfold readStallSignals in E0. cbn zeta in E0. destruct (in_iewBlock _), (in_iewUnblock _);
        try (apply bind_ok in E0 as (? & _ & E0)); injection E0 as <-; done. }
    destruct Hrob as [->|Hp]; [by rewrite !orb_true_r|]. apply Z.eqb_neq in Hp. rewrite Hp. cbn. by rewrite !orb_true_r. }
  rewrite Hstall in E1. pose proof (block_ok skidBufferMax tid b1 s0 s1 E1) as (Hsh & _ & Hs1). rewrite T1, Hst, decide_True in Hs1 by done.
  destruct (block_inv rf x87_top skidBufferMax n from B U tid b1 s0 s1 Hi0 Ht E1) as (Hi1 & _).
  destruct (rename_ok rf x87_top cyc renameWidth skidBufferMax n from fromDecode B U tid _ b' s1 s' Hi1 Ht E) as (_ & _ & _ & _ & Hsame).
  rewrite Hsame by (rewrite Hs1; status). destruct Hsh as [_ S2 S3 _ _ S6 _]. destruct (touched_pending s s0 tid Hto) as [Hp0 Hi2].
  split_and!; congruence.
Qed.
End props.
