(* ===== verification/RenameRun.v ===== *)
(** * A run of the rename stage

    Two instructions on a small machine, an addition and a load: start-up, renaming,
    squash and commit, then the same through cycles of the stage.  The theorems about
    renaming are instantiated here. *)

From S2P Require Import Prelude Regs DynInst CPU Scoreboard FreeList RenameMap RenameInv RenameSpec RenameProps RenameCommit RenameTotal Rename RenameStage RenameTick RenameCycle.
Local Open Scope Z_scope.

Definition ok_or {A} (x : A) (m : res A) : A := match m with Ok a => a | Err _ => x end.
Lemma ok_or_ok {A} (x : A) (m : res A) : is_ok m = true → m = Ok (ok_or x m).
Proof. by destruct m. Qed.

Lemma ok_or_pair {A B} (x : A * B) (m : res (A * B)) : is_ok m = true → m = Ok ((ok_or x m).1, (ok_or x m).2).
Proof. by destruct m as [[]|]. Qed.

(** ** Registers *)
Abbreviation file1 := (PhysRegFile_init 60 60 4 10 5 Full).
Definition board1 : Scoreboard := Scoreboard_init 142.
Definition top0 : nat → Z := λ _, 0.
Definition ireg (k : Z) : RegId := MkRegId IntRegClass k no_elem.
Definition add1 : DynInst := initVars (MkStaticInst (flags_of [IsInteger]) 1 [ireg 2] [ireg 3] 0%N) 1 (pc_set 100) (pc_set 104).
Definition load2 : DynInst := initVars (MkStaticInst (flags_of [IsLoad; IsMemRef]) 2 [ireg 3] [ireg 3] 0%N) 2 (pc_set 104) (pc_set 108).

Definition boot1 : RegState * (nat → UnifiedRenameMap) := ok_or (no_regs, λ _, rm_init 0 0 Full) (boot file1 board1 1).
Lemma boot1_ok : boot file1 board1 1 = Ok (boot1.1, boot1.2).
Proof. unfold boot1. rewrite <- surjective_pairing. apply ok_or_ok. by vm_compute. Qed.

Definition heap1 : heap := <[0%nat := add1]> (<[1%nat := load2]> ∅).
Definition regs1 : RegState := boot1.1 <| rs_heap := heap1 |> <| scoreboard := board1 |> <| rs_taint := ∅ |>.
Definition rename_inst (p : InstPtr) (r : RegState) : res RegState :=
  r ← renameSrcRegs file1 top0 5 p 0 r;
  renameDestRegs file1 top0 p 0 r.
Definition regs2 : RegState := ok_or no_regs (rename_inst 0 regs1).
Definition regs3 : RegState := ok_or no_regs (rename_inst 1 regs2).

Lemma rename_inst_split (p : InstPtr) (r : RegState) :
  is_ok (rename_inst p r) = true →
  ∃ r1, renameSrcRegs file1 top0 5 p 0 r = Ok r1 ∧ renameDestRegs file1 top0 p 0 r1 = Ok (ok_or no_regs (rename_inst p r)).
Proof.
  intros H. apply (ok_or_ok no_regs) in H. pose proof H as E. unfold rename_inst in E. apply bind_ok in E as (r1 & E1 & E2). eauto.
Qed.

Lemma wf_add1 : operands_wf add1.
Proof. done. Qed.
Lemma wf_load2 : operands_wf load2.
Proof. done. Qed.
Lemma hist_regs1 : historyBuffer regs1 0%nat = [].
Proof. by vm_compute. Qed.

(** Renaming both instructions is a run. *)
Lemma trace_heap : rn_trace file1 top0 5 1 boot1.1 [LOther] regs1.
Proof. apply (rn_next _ _ _ _ _ [] boot1.1 LOther); [constructor|constructor]. Qed.
Lemma trace1 : ∃ ls, rn_trace file1 top0 5 1 boot1.1 ls regs1.
Proof. eexists. exact trace_heap. Qed.
Lemma step_inst (p : InstPtr) (d : DynInst) (r : RegState) :
  rs_heap r !! p = Some d → operands_wf d → forallb (λ e, instSeqNum e <? seqNum d) (historyBuffer r 0%nat) = true →
  is_ok (rename_inst p r) = true → is_Some (rs_heap (ok_or no_regs (rename_inst p r)) !! p) →
  ∃ srcs dests, rn_step file1 top0 5 1 r (LRename 0 (seqNum d) srcs dests) (ok_or no_regs (rename_inst p r)).
Proof.
  intros Hd Hw Hh Hok [d' Hd']. destruct (rename_inst_split p r Hok) as (r1 & E1 & E2). do 2 eexists.
  apply (step_rename _ _ _ _ _ 0 p d r1 _ d'); try done; [lia|]. intros e He. rewrite forallb_forall in Hh.
  apply Z.ltb_lt, Hh. by apply list_elem_of_In.
Qed.
Lemma trace2 : ∃ srcs dests, rn_step file1 top0 5 1 regs1 (LRename 0 1 srcs dests) regs2.
Proof. apply (step_inst 0 add1 regs1); [done|done|by vm_compute|by vm_compute|by vm_compute; eauto]. Qed.
Lemma trace3 : ∃ srcs dests, rn_step file1 top0 5 1 regs2 (LRename 0 2 srcs dests) regs3.
Proof. apply (step_inst 1 load2 regs2); [by vm_compute|done|by vm_compute|by vm_compute|by vm_compute; eauto]. Qed.

Lemma run3 : ∃ ls, rn_trace file1 top0 5 1 regs1 ls regs3 ∧ Forall (young_label 0 0) ls.
Proof.
  destruct trace2 as (a & b & H2), trace3 as (c & d & H3). exists [LRename 0 1 a b; LRename 0 2 c d]. split.
  - exact (rn_next _ _ _ _ regs1 [LRename 0 1 a b] regs2 (LRename 0 2 c d) regs3
             (rn_next _ _ _ _ regs1 [] regs1 (LRename 0 1 a b) regs2 (rn_start _ _ _ _ regs1) H2) H3).
  - repeat constructor.
Qed.
Lemma rn_trace_app rf top cyc n (s1 s2 s3 : RegState) (l1 l2 : list rn_label) :
  rn_trace rf top cyc n s1 l1 s2 → rn_trace rf top cyc n s2 l2 s3 → rn_trace rf top cyc n s1 (l1 ++ l2) s3.
Proof.
  intros H1 H2. induction H2 as [|ls s4 l s5 _ IH Hst]; [by rewrite app_nil_r|]. rewrite app_assoc. by apply (rn_next _ _ _ _ _ _ s4).
Qed.
Lemma run03 : ∃ ls, rn_trace file1 top0 5 1 boot1.1 ls regs3.
Proof.
  destruct trace1 as [l1 H1], run3 as (l3 & H3 & _). exists (l1 ++ l3).
  exact (rn_trace_app _ _ _ _ boot1.1 regs1 regs3 l1 l3 H1 H3).
Qed.

Lemma rename_refines_contract_witness :
  ∃ ls, rn_trace file1 top0 5 1 boot1.1 ls regs3
    ∧ ∃ sp', spec_trace 1 (λ t, pinned_in (renameMap boot1.1 t)) (spec_initial boot1.1) ls sp'
        ∧ ∀ tid a, (tid < 1)%nat → entry (renameMap regs3 tid) a = spec_lookup (sp' tid) a.
Proof.
  destruct run03 as [ls H]. exists ls. split; [exact H|].
  exact (rename_refines_contract 60 60 4 10 5 1 board1 top0 5 boot1.1 regs3 boot1.2 ls boot1_ok H).
Defined.

Lemma rename_conserves_registers_witness : regs_of 1 regs3 ≡ₚ all_ids file1 ∧ NoDup (regs_of 1 regs3).
Proof.
  destruct run03 as [ls H].
  exact (rename_conserves_registers 60 60 4 10 5 1 board1 top0 5 boot1.1 regs3 boot1.2 ls boot1_ok H).
Defined.

Lemma rename_squash_restores_witness :
  ∃ s2, rn_doSquash file1 0 0 regs3 = Ok s2
    ∧ (∀ t, (t < 1)%nat → renameMap s2 t = renameMap regs1 t ∧ historyBuffer s2 t = historyBuffer regs1 t)
    ∧ all_free (freeList s2) ≡ₚ all_free (freeList regs1).
Proof.
  destruct trace1 as [l1 H1], run3 as (l3 & H3 & Hy).
  apply (rename_squash_restores 60 60 4 10 5 1 board1 top0 5 boot1.1 regs1 regs3 boot1.2 l1 l3 0 0 boot1_ok H1); [lia| |exact H3|exact Hy].
  intros e He. exfalso. rewrite hist_regs1 in He. by apply not_elem_of_nil in He.
Defined.

Lemma canRename_suffices_witness : ∃ s', renameDestRegs file1 top0 0 0 regs1 = Ok s'.
Proof.
  apply (canRename_suffices 60 60 4 10 5 1 board1 top0 5 boot1.1 regs1 boot1.2 [LOther] 0 0 add1 boot1_ok trace_heap);
    [apply List.Forall_cons; [exact I|apply List.Forall_nil]|lia|done| | |by vm_compute|by vm_compute].
  - intros e He. exfalso. rewrite hist_regs1 in He. by apply not_elem_of_nil in He.
  - intros r Hr. apply list_elem_of_singleton in Hr as ->. vm_compute. done.
Defined.

Lemma drained_can_rename_witness : canRenameInst add1 (freeList regs1) = true.
Proof.
  destruct trace1 as [l1 H1].
  apply (drained_can_rename 60 60 4 10 5 1 board1 top0 5 boot1.1 regs1 boot1.2 l1 add1 boot1_ok H1).
  - intros t Ht. assert (t = 0%nat) as -> by lia. apply hist_regs1.
  - intros c Hm. destruct c; try done; vm_compute; lia.
Defined.

Lemma switch_to_full_panics_witness :
  switchMode Full (two_thread_file Elem) (rm_init 0 0 Elem) (MkUnifiedFreeList [] [] [] [] []) ∅ = Err Panicked.
Proof. apply (switch_to_full_panics (two_thread_file Elem) (rm_init 0 0 Elem)); [done|by vm_compute]. Defined.

(** ** Commit *)
Definition fl0 : nat → list InstPtr := λ _, [].
Definition fl2 : nat → list InstPtr := <[0%nat := fl0 0%nat ++ [0%nat]]> fl0.
Definition fl3 : nat → list InstPtr := <[0%nat := fl2 0%nat ++ [1%nat]]> fl2.
Definition dn0 : nat → Z := λ _, 0.
Definition p1 : PState := MkPState regs1 boot1.2 dn0 fl0.
Definition p2 : PState := MkPState regs2 boot1.2 dn0 fl2.
Definition p3 : PState := MkPState regs3 boot1.2 dn0 fl3.

Lemma split2 : ∃ r, renameSrcRegs file1 top0 5 0 0 regs1 = Ok r ∧ renameDestRegs file1 top0 0 0 r = Ok regs2.
Proof. unfold regs2. apply rename_inst_split. by vm_compute. Qed.
Lemma split3 : ∃ r, renameSrcRegs file1 top0 5 1 0 regs2 = Ok r ∧ renameDestRegs file1 top0 1 0 r = Ok regs3.
Proof. unfold regs3. apply rename_inst_split. by vm_compute. Qed.

Lemma pstep2 : pstep file1 top0 5 1 p1 p2.
Proof.
  destruct split2 as (r & E1 & E2).
  assert (Hd : is_Some (rs_heap regs2 !! 0%nat)) by (vm_compute; eauto). destruct Hd as [d' Hd].
  refine (p_rename _ _ _ _ regs1 boot1.2 dn0 fl0 0 0 add1 r regs2 d' _ _ _ _ _ _ _ E1 E2 Hd); [lia|reflexivity|apply wf_add1|..].
  - intros t Hn. destruct (not_elem_of_nil _ Hn).
  - reflexivity.
  - intros q Hn. destruct (not_elem_of_nil _ Hn).
  - intros e He. rewrite hist_regs1 in He. destruct (not_elem_of_nil _ He).
Qed.
Lemma pstep3 : pstep file1 top0 5 1 p2 p3.
Proof.
  destruct split3 as (r & E1 & E2).
  assert (Hd : is_Some (rs_heap regs3 !! 1%nat)) by (vm_compute; eauto). destruct Hd as [d' Hd].
  refine (p_rename _ _ _ _ regs2 boot1.2 dn0 fl2 0 1 load2 r regs3 d' _ _ _ _ _ _ _ E1 E2 Hd); [lia|vm_compute; reflexivity|apply wf_load2|..].
  - clear. intros [|t] Ht; cbn in Ht; [apply list_elem_of_singleton in Ht; done|by apply not_elem_of_nil in Ht].
  - reflexivity.
  - clear. intros q Hq. cbn in Hq. apply list_elem_of_singleton in Hq as ->. vm_compute. reflexivity.
  - clear. intros e He. assert (Hall : forallb (λ e, instSeqNum e <? 2) (historyBuffer regs2 0%nat) = true) by (vm_compute; reflexivity).
    rewrite forallb_forall in Hall. exact (proj1 (Z.ltb_lt _ _) (Hall e (proj1 (list_elem_of_In _ _) He))).
Qed.
Lemma prun3 : rtc (pstep file1 top0 5 1) (pstart boot1.1 boot1.2) p3.
Proof.
  assert (H1 : pstep file1 top0 5 1 (pstart boot1.1 boot1.2) p1).
  { apply (p_other _ _ _ _ boot1.1 boot1.2 dn0 fl0 heap1 board1 ∅). intros t p Hn. destruct (not_elem_of_nil _ Hn). }
  exact (rtc_l _ _ _ _ H1 (rtc_l _ _ _ _ pstep2 (rtc_once _ _ pstep3))).
Qed.

Lemma precise_rename_map_witness :
  ∃ s', rn_doSquash file1 (ps_done p3 0%nat) 0 (ps_regs p3) = Ok s' ∧ renameMap s' 0%nat = ps_commit p3 0%nat.
Proof.
  exact (precise_rename_map 60 60 4 10 5 1 board1 top0 5 boot1.1 boot1.2 p3 0 boot1_ok prun3 ltac:(lia)).
Defined.

Lemma commit_map_update_ok_witness :
  ∃ d m, rs_heap (ps_regs p3) !! 0%nat = Some d ∧ commitRename file1 d (ps_commit p3 0%nat) = Ok m.
Proof.
  apply (commit_map_update_ok 60 60 4 10 5 1 board1 top0 5 boot1.1 boot1.2 p3 0 0 [1%nat] boot1_ok prun3); [lia|reflexivity].
Defined.

(** ** The stage *)
(** Both instructions arrive from decode; then a serializing one. *)
Definition fence3 : DynInst := initVars (MkStaticInst (flags_of [IsSerializing; IsSerializeBefore]) 1 [] [ireg 4] 0%N) 3 (pc_set 108) (pc_set 112).
Definition heap3 : heap := <[2%nat := fence3]> heap1.
Definition credits : nat → Z := λ _, 16.
Definition start1 : Rename := stage_start 1 credits credits credits credits boot1.1.
Definition stage1 : Rename :=
  start1 <| rn_regs := rn_regs start1 <| rs_heap := heap3 |> <| scoreboard := board1 |> <| rs_taint := ∅ |> |>.
Definition quiet_in : RnIn := MkRnIn 0 0 0 0 0 0 false false false false false 0 false 0 false.
Abbreviation arriving := [0%nat; 1%nat; 2%nat].
Definition stage2 : Rename := ok_or stage1 (tick file1 top0 5 8 16 1 [0%nat] (λ _, quiet_in) arriving stage1).
Lemma cycle1 : tick file1 top0 5 8 16 1 [0%nat] (λ _, quiet_in) arriving stage1 = Ok stage2.
Proof. unfold stage2. apply ok_or_ok. vm_compute. reflexivity. Qed.
Lemma cycle1_sends : toIEW stage2 = [0%nat; 1%nat] ∧ renameStatus stage2 0%nat = RnSerializeStall ∧ serializeInst stage2 0%nat = Some 2%nat.
Proof. vm_compute. done. Qed.

Lemma start1_inv : ∃ B, stage_inv file1 1 B (all_ids file1) start1.
Proof.
  destruct (boot_ok 60 60 4 10 5 1 board1 boot1.1 boot1.2 boot1_ok) as (Hi & _ & Hh). eexists. by apply stage_start_inv.
Qed.
Lemma stage1_step : stage_step file1 8 16 1 [0%nat] start1 stage1.
Proof.
  refine (st_others _ _ _ _ _ start1 heap3 board1 ∅ _). intros p d Hd. exfalso.
  assert (He : rs_heap (rn_regs start1) = ∅) by (vm_compute; reflexivity). rewrite He, lookup_empty in Hd. discriminate Hd.
Qed.
Lemma stage1_inv : ∃ B, stage_inv file1 1 B (all_ids file1) stage1.
Proof.
  destruct start1_inv as [B H].
  refine (stage_step_inv file1 8 16 1 [0%nat] B _ start1 stage1 _ _ H stage1_step); [repeat constructor; set_solver|].
  intros t Ht. apply list_elem_of_singleton in Ht as ->. lia.
Qed.
Lemma pending1 : pending stage1 0%nat ++ arrivals (rs_heap (rn_regs stage1)) 0%nat arriving = arriving.
Proof. vm_compute. reflexivity. Qed.
Lemma heap_stage1 : rs_heap (rn_regs stage1) = heap3.
Proof. reflexivity. Qed.
Lemma order1 : in_order heap3 0 0 arriving.
Proof.
  exists add1. split_and!; try done. exists load2. split_and!; try done. exists fence3. split_and!; done.
Qed.
Lemma decode1_ok : decode_ok 1 arriving stage1.
Proof.
  intros tid Ht. assert (tid = 0%nat) as -> by lia. exists 0. rewrite pending1, heap_stage1. split; [|exact order1].
  assert (Hh : historyBuffer (rn_regs stage1) 0%nat = []) by (vm_compute; reflexivity). rewrite Hh.
  intros e He. destruct (not_elem_of_nil _ He).
Qed.
Lemma no_squash (s : Rename) (decode : list InstPtr) :
  ∀ t p, t ∈ [0%nat] → in_squash quiet_in = true →
    p ∈ pending s t ++ arrivals (rs_heap (rn_regs s)) t decode → in_doneSeqNum quiet_in < seq_of (rs_heap (rn_regs s)) p.
Proof. intros t p _ Hq. discriminate Hq. Qed.
Lemma one_thread : NoDup [0%nat] ∧ ∀ t, t ∈ [0%nat] → (t < 1)%nat.
Proof. split; [repeat constructor; set_solver|]. intros t Ht. apply list_elem_of_singleton in Ht as ->. lia. Qed.
Lemma stage2_step : stage_step file1 8 16 1 [0%nat] stage1 stage2.
Proof. exact (st_tick file1 8 16 1 [0%nat] stage1 top0 5 (λ _, quiet_in) arriving stage2 decode1_ok (no_squash stage1 arriving) cycle1). Qed.

Lemma rename_stage_invariant_witness : ∃ B, stage_inv file1 1 B (all_ids file1) stage2.
Proof.
  apply (rename_stage_invariant 60 60 4 10 5 1 board1 8 16 [0%nat] credits credits credits credits boot1.1 boot1.2 stage2 boot1_ok
           (proj1 one_thread) (proj2 one_thread)).
  exact (rtc_l _ _ _ _ stage1_step (rtc_once _ _ stage2_step)).
Defined.

Lemma rename_delivers_in_order_witness :
  Z.of_nat (length (toIEW stage2)) ≤ 8
  ∧ ∃ taken : nat → list InstPtr,
      toIEW stage2 = mjoin ((λ t, live (rs_heap (rn_regs stage1)) (taken t)) <$> [0%nat])
      ∧ ∀ t, t ∈ [0%nat] →
          if in_squash quiet_in then taken t = [] ∧ pending stage2 t = []
          else pending stage1 t ++ arrivals (rs_heap (rn_regs stage1)) t arriving = taken t ++ pending stage2 t.
Proof.
  destruct stage1_inv as [B H].
  exact (rename_delivers_in_order file1 top0 5 8 16 1 [0%nat] (λ _, quiet_in) arriving B (all_ids file1) stage1 stage2 H
           (proj1 one_thread) (proj2 one_thread) ltac:(lia) decode1_ok (no_squash stage1 arriving) cycle1).
Defined.

(** The second cycle: the fence waits, the ROB being busy. *)
Definition busy_in : RnIn := MkRnIn 0 0 0 0 0 0 false false false false false 0 true 14 false.
Definition stage3 : bool * Rename := ok_or (false, stage2) (tickThread file1 top0 5 8 16 (λ _, busy_in) [] (false, stage2) 0).
Lemma cycle2 : tickThread file1 top0 5 8 16 (λ _, busy_in) [] (false, stage2) 0 = Ok (stage3.1, stage3.2).
Proof. unfold stage3. apply ok_or_pair. vm_compute. reflexivity. Qed.
Lemma stage2_inv : ∃ B, stage_inv file1 1 B (all_ids file1) stage2.
Proof.
  destruct stage1_inv as [B H].
  exact (stage_step_inv file1 8 16 1 [0%nat] B _ stage1 stage2 (proj1 one_thread) (proj2 one_thread) H stage2_step).
Qed.

Lemma serialize_stall_holds_witness :
  toIEW stage3.2 = toIEW stage2 ∧ renameStatus stage3.2 0%nat = RnSerializeStall
  ∧ serializeInst stage3.2 0%nat = serializeInst stage2 0%nat ∧ pending stage3.2 0%nat = pending stage2 0%nat.
Proof.
  destruct stage2_inv as [B H].
  refine (serialize_stall_holds file1 top0 5 8 16 1 (λ _, busy_in) [] B (all_ids file1) 0 false stage3.1 stage2 stage3.2 H _ _ _ _ cycle2);
    [lia|reflexivity|apply cycle1_sends|left; vm_compute; reflexivity].
Defined.

(** The third: dispatch took both instructions, the ROB has drained; in the fourth the
    fence goes. *)
Definition drained_in : RnIn := MkRnIn 0 0 0 1 0 2 false false false false false 0 true 16 true.
Definition stage4 : Rename := ok_or stage2 (tick file1 top0 5 8 16 1 [0%nat] (λ _, drained_in) [] stage2).
Lemma cycle3 : tick file1 top0 5 8 16 1 [0%nat] (λ _, drained_in) [] stage2 = Ok stage4.
Proof. unfold stage4. apply ok_or_ok. vm_compute. reflexivity. Qed.
Lemma stage4_inv : ∃ B, stage_inv file1 1 B (all_ids file1) stage4.
Proof.
  destruct stage2_inv as [B H].
  refine (stage_step_inv file1 8 16 1 [0%nat] B _ stage2 stage4 (proj1 one_thread) (proj2 one_thread) H _).
  refine (st_tick file1 8 16 1 [0%nat] stage2 top0 5 (λ _, drained_in) [] stage4 _ _ cycle3).
  - intros tid Ht. destruct (si_threads _ _ _ _ _ H tid Ht) as [_ _ _ (lo & Hh & Ho)]. exists lo.
    rewrite app_nil_r. split; [exact Hh|exact Ho].
  - intros t p _ Hq. discriminate Hq.
Qed.
Definition stage5 : bool * Rename := ok_or (false, stage4) (tickThread file1 top0 5 8 16 (λ _, quiet_in) [] (false, stage4) 0).
Lemma cycle4 : tickThread file1 top0 5 8 16 (λ _, quiet_in) [] (false, stage4) 0 = Ok (stage5.1, stage5.2).
Proof. unfold stage5. apply ok_or_pair. vm_compute. reflexivity. Qed.
Lemma cycle4_sends : toIEW stage5.2 = [2%nat].
Proof. vm_compute. reflexivity. Qed.

Lemma rename_within_credit_witness :
  ∃ sent, toIEW stage5.2 = toIEW stage4 ++ sent
    ∧ Z.of_nat (length sent) ≤ Z.max 0 (calcFreeROBEntries (λ _, quiet_in) 0 (readFreeEntries (λ _, quiet_in) 0 stage4))
    ∧ Z.of_nat (length sent) ≤ Z.max 0 (calcFreeIQEntries (λ _, quiet_in) 0 (readFreeEntries (λ _, quiet_in) 0 stage4)).
Proof.
  destruct stage4_inv as [B H].
  refine (rename_within_credit file1 top0 5 8 16 1 (λ _, quiet_in) [] B (all_ids file1) 0 false stage5.1 stage4 stage5.2 H _ _ cycle4);
    [lia|reflexivity].
Defined.
