(* ===== verification/Ring.v ===== *)
(** * Circular queues

    The load and store queues are vectors used as rings: a head and a tail index that
    wrap around, one slot always free so that a full ring differs from an empty one.
    [ring q n h t c l] says that the vector [q] of [n] slots with head [h], tail [t] and
    count [c] holds the list [l], oldest first; the lemmas say what moving the indices
    does to the list. *)

From S2P Require Import Prelude.
Local Open Scope Z_scope.

(** [if (++idx >= entries) idx = 0;] *)
Definition incrIdx (entries idx : Z) : Z := if entries <=? idx + 1 then 0 else idx + 1.
(** [if (--idx < 0) idx += entries;] *)
Definition decrIdx (entries idx : Z) : Z := if idx - 1 <? 0 then idx - 1 + entries else idx - 1.

(** The slot of the [k]-th element of a ring of [n] slots with head [h]. *)
Definition pos (n h : Z) (k : nat) : Z := (h + Z.of_nat k) mod n.

Section pos.
Context (n h : Z) (Hh : 0 ≤ h < n).

Lemma pos_range (k : nat) : 0 ≤ pos n h k < n.
Proof. unfold pos. apply Z.mod_pos_bound. lia. Qed.

Lemma pos_0 : pos n h 0 = h.
Proof. unfold pos. rewrite Z.add_0_r. by apply Z.mod_small. Qed.

Lemma incrIdx_mod (i : Z) : 0 ≤ i < n → incrIdx n i = (i + 1) mod n.
Proof.
  intros Hi. unfold incrIdx. destruct (Z.leb_spec n (i + 1)).
  - replace (i + 1) with n by lia. symmetry. apply Z.mod_same. lia.
  - symmetry. apply Z.mod_small. lia.
Qed.

Lemma decrIdx_mod (i : Z) : 0 ≤ i < n → decrIdx n i = (i - 1) mod n.
Proof.
  intros Hi. unfold decrIdx. destruct (Z.ltb_spec (i - 1) 0).
  - replace i with 0 by lia. apply (Z.mod_unique_pos _ _ (-1)); lia.
  - symmetry. apply Z.mod_small. lia.
Qed.

Lemma pos_S (k : nat) : incrIdx n (pos n h k) = pos n h (S k).
Proof.
  rewrite incrIdx_mod by apply pos_range. unfold pos. rewrite Z.add_mod_idemp_l by lia. f_equal. lia.
Qed.

Lemma pos_pred (k : nat) : decrIdx n (pos n h (S k)) = pos n h k.
Proof.
  rewrite decrIdx_mod by apply pos_range. unfold pos. rewrite Zminus_mod_idemp_l. f_equal. lia.
Qed.

(** Moving the head forward renumbers the elements. *)
Lemma pos_shift (k : nat) : pos n (incrIdx n h) k = pos n h (S k).
Proof.
  rewrite incrIdx_mod by done. unfold pos. rewrite Z.add_mod_idemp_l by lia. f_equal. lia.
Qed.

Lemma pos_inj (j k : nat) : Z.of_nat j < n → Z.of_nat k < n → pos n h j = pos n h k → j = k.
Proof.
  intros Hj Hk. unfold pos. intros E.
  assert (Hm : ∀ i, 0 ≤ i < n → (h + i) mod n = if h + i <? n then h + i else h + i - n).
  { intros i Hi. destruct (Z.ltb_spec (h + i) n); [apply Z.mod_small; lia|].
    symmetry. apply (Z.mod_unique_pos _ _ 1); lia. }
  rewrite !Hm in E by lia.
  destruct (Z.ltb_spec (h + Z.of_nat j) n), (Z.ltb_spec (h + Z.of_nat k) n); lia.
Qed.

(** Every slot is the slot of some number. *)
Lemma pos_onto (i : Z) : 0 ≤ i < n → ∃ k, Z.of_nat k < n ∧ i = pos n h k.
Proof.
  intros Hi. exists (Z.to_nat ((i - h) mod n)). pose proof (Z.mod_pos_bound (i - h) n ltac:(lia)).
  rewrite Z2Nat.id by lia. split; [lia|]. unfold pos. rewrite Z2Nat.id by lia.
  rewrite Z.add_mod_idemp_r by lia. replace (h + (i - h)) with i by lia. symmetry. by apply Z.mod_small.
Qed.
End pos.

(** ** Rings *)
Record ring {A} (q : list A) (n h t c : Z) (l : list A) : Prop := {
  ring_slots : Z.of_nat (length q) = n;
  ring_head : 0 ≤ h < n;
  ring_room : Z.of_nat (length l) < n;
  ring_count : c = Z.of_nat (length l);
  ring_tail : t = pos n h (length l);
  ring_at : ∀ k x, l !! k = Some x → vget q (pos n h k) = Ok x;
}.

Section ring.
Context {A : Type} (n : Z).
Implicit Types (q l : list A) (h t c : Z) (x y : A).

Lemma ring_tail_range q h t c l : ring q n h t c l → 0 ≤ t < n.
Proof. intros [? ? ? ? -> ?]. by apply pos_range. Qed.

(** Reading a slot. *)
Lemma ring_get q h t c l k x : ring q n h t c l → l !! k = Some x → vget q (pos n h k) = Ok x.
Proof. intros R. apply (ring_at _ _ _ _ _ _ R). Qed.

(** The tail is reached exactly after the last element. *)
Lemma ring_pos_tail q h t c l k : ring q n h t c l → (k ≤ length l)%nat → pos n h k = t ↔ k = length l.
Proof.
  intros [? Hh Hr ? -> ?] Hk. split; [|by intros ->]. intros E. apply (pos_inj n h Hh) in E; lia.
Qed.

Lemma ring_pos_eqb q h t c l k :
  ring q n h t c l → (k ≤ length l)%nat → (pos n h k =? t) = bool_decide (k = length l).
Proof.
  intros R Hk. pose proof (ring_pos_tail _ _ _ _ _ k R Hk) as E.
  destruct (Z.eqb_spec (pos n h k) t); case_bool_decide; tauto.
Qed.

(** Writing at the tail and moving it forward appends. *)
Lemma ring_push q h t c l x :
  ring q n h t c l → Z.of_nat (length l) + 1 < n →
  vset t x q = Ok (<[Z.to_nat t := x]> q) ∧ ring (<[Z.to_nat t := x]> q) n h (incrIdx n t) (c + 1) (l ++ [x]).
Proof.
  intros R Hr. pose proof (ring_tail_range _ _ _ _ _ R) as Ht. destruct R as [Hq Hh Hroom -> -> Hat].
  split; [apply vset_in_range; lia|]. split.
  - by rewrite length_insert.
  - done.
  - rewrite length_app. cbn. lia.
  - rewrite length_app. cbn. lia.
  - rewrite length_app, pos_S, Nat.add_1_r by done. done.
  - intros k y Hy. pose proof (pos_range n h Hh k) as Hp. rewrite vget_insert by lia.
    apply lookup_app_Some in Hy as [Hy|[Hk [Hk0 <-]%list_lookup_singleton_Some]].
    + pose proof (lookup_lt_Some _ _ _ Hy) as Hlt.
      destruct (Z.eqb_spec (pos n h (length l)) (pos n h k)) as [E|E]; [|by apply Hat].
      apply (pos_inj n h Hh) in E; lia.
    + replace k with (length l) by lia. by rewrite Z.eqb_refl.
Qed.

(** Moving the head forward removes the oldest. *)
Lemma ring_pop q h t c x l : ring q n h t c (x :: l) → ring q n (incrIdx n h) t (c - 1) l.
Proof.
  intros [Hq Hh Hroom -> -> Hat]. cbn [length] in *. split.
  - done.
  - rewrite incrIdx_mod by done. apply Z.mod_pos_bound. lia.
  - lia.
  - lia.
  - by rewrite pos_shift.
  - intros k y Hy. rewrite pos_shift by done. by apply Hat.
Qed.

(** Moving the tail backward removes the youngest. *)
Lemma ring_drop q h t c l x :
  ring q n h t c (l ++ [x]) → vget q (decrIdx n t) = Ok x ∧ ring q n h (decrIdx n t) (c - 1) l.
Proof.
  intros [Hq Hh Hroom -> -> Hat]. rewrite length_app, Nat.add_1_r in *. cbn [length] in *.
  rewrite pos_pred by done. split.
  - apply Hat. rewrite lookup_app_r by lia. by rewrite Nat.sub_diag.
  - split; [done|done|lia|lia|done|]. intros k y Hy. apply Hat. by apply lookup_app_l_Some.
Qed.

(** Writing an element in place. *)
Lemma ring_set q h t c l k y :
  ring q n h t c l → (k < length l)%nat →
  vset (pos n h k) y q = Ok (<[Z.to_nat (pos n h k) := y]> q)
  ∧ ring (<[Z.to_nat (pos n h k) := y]> q) n h t c (<[k := y]> l).
Proof.
  intros [Hq Hh Hroom -> -> Hat] Hk. pose proof (pos_range n h Hh k) as Hp.
  split; [apply vset_in_range; lia|]. split.
  - by rewrite length_insert.
  - done.
  - by rewrite length_insert.
  - by rewrite length_insert.
  - by rewrite length_insert.
  - intros j x Hx. pose proof (lookup_lt_Some _ _ _ Hx) as Hj. rewrite length_insert in Hj.
    pose proof (pos_range n h Hh j) as Hpj. rewrite vget_insert by lia.
    destruct (Z.eqb_spec (pos n h k) (pos n h j)) as [E|E].
    + apply (pos_inj n h Hh) in E; [|lia..]. subst j. rewrite list_lookup_insert_eq in Hx by done. by injection Hx as ->.
    + apply Hat. rewrite list_lookup_insert_ne in Hx; [done|congruence].
Qed.

(** Writing a slot that holds no element. *)
Lemma ring_set_free q h t c l k y :
  ring q n h t c l → (length l ≤ k)%nat → Z.of_nat k < n →
  vset (pos n h k) y q = Ok (<[Z.to_nat (pos n h k) := y]> q) ∧ ring (<[Z.to_nat (pos n h k) := y]> q) n h t c l.
Proof.
  intros [Hq Hh Hroom -> -> Hat] Hk Hn. pose proof (pos_range n h Hh k) as Hp.
  split; [apply vset_in_range; lia|]. split; [by rewrite length_insert|done..|].
  intros j x Hx. pose proof (lookup_lt_Some _ _ _ Hx). pose proof (pos_range n h Hh j).
  rewrite vget_insert by lia. destruct (Z.eqb_spec (pos n h k) (pos n h j)) as [E|E]; [|by apply Hat].
  apply (pos_inj n h Hh) in E; lia.
Qed.
End ring.
