(* ===== verification/LSQ.v ===== *)
(** * The load and store queues of a thread

    [src/cpu/o3/lsq_unit.hh] and [lsq_unit_impl.hh]: [LSQUnit], the circular queues of
    the loads and stores in flight.  A load that executes takes its data from the
    youngest older store that has all of it, waits if a store has a part of it, and goes
    to the cache otherwise; a store that executes looks for younger loads that ran ahead
    of it; committed stores are written to the cache in order.

    The instructions are in the heap; [LSQSenderState] objects, shared by the packets of
    a split access, are in [senders], from which [delete] removes them.  What the unit
    asks of other parts is recorded in order in [calls]: the IEW stage, the event queue,
    and the cache port, whose answer to a packet, [cache_accepts], may depend on
    everything it was sent before.  [initiateAcc], [completeAcc] and the contents of
    memory-mapped registers belong to the instruction set and are parameters.

    The lock monitors of [src/arch/generic/locked_mem.hh] do nothing on X86; the
    bookkeeping of outstanding operations ([outstandingMemOpsQ]) only feeds statistics; wake-ups
    and notes of activity are left out. *)

From S2P Require Import Prelude Regs DynInst Ring.
Local Open Scope Z_scope.

(** ** Requests and packets *)
Record Request := MkRequest {
  getVaddr : Z;
  getPaddr : Z;
  getSize : Z;
  rq_flags : N;
}.
Definition STRICT_ORDER : N := 2048.
Definition MMAPPED_IPR : N := 8192.
Definition CACHE_BLOCK_ZERO : N := 65536.
Definition LLSC : N := 2097152.
Definition INVALIDATE : N := 4294967296.
Definition CLEAN : N := 8589934592.
Definition STORE_NO_DATA : N := N.lor (N.lor CACHE_BLOCK_ZERO CLEAN) INVALIDATE.
(** [_flags.isSet(mask)]: some flag of the mask is set. *)
Definition isSet (mask : N) (req : Request) : bool := negb (N.land (rq_flags req) mask =? 0)%N.
Definition isStrictlyOrdered : Request → bool := isSet STRICT_ORDER.
Definition isMmappedIpr : Request → bool := isSet MMAPPED_IPR.
Definition isLLSC : Request → bool := isSet LLSC.
Definition isCacheMaintenance : Request → bool := isSet (N.lor CLEAN INVALIDATE).

(** [pk_id] stands for the packet's address; [pk_state] refers to [senders]. *)
Record Packet := MkPacket {
  pk_id : nat;
  pk_req : Request;
  pk_write : bool;
  pk_data : list Z;
  pk_state : option nat;
  pk_runahead : bool;
}.

Record LSQSenderState := MkSenderState {
  ss_inst : InstPtr;
  ss_mainPkt : option Packet;
  ss_pendingPacket : option Packet;
  ss_idx : Z;  (* uint8_t *)
  ss_outstanding : Z;  (* uint8_t *)
  ss_isLoad : bool;
  ss_noWB : bool;
  ss_isSplit : bool;
  ss_pktToSend : bool;
  ss_cacheBlocked : bool;
}.
#[export] Instance LSQSenderState_eta : Updatable LSQSenderState := λ r, MkSenderState (ss_inst r)
  (ss_mainPkt r) (ss_pendingPacket r) (ss_idx r) (ss_outstanding r) (ss_isLoad r) (ss_noWB r)
  (ss_isSplit r) (ss_pktToSend r) (ss_cacheBlocked r).
(** The default constructor, with the fields every user sets. *)
Definition new_state (isLoad : bool) (idx : Z) (inst : InstPtr) : LSQSenderState :=
  MkSenderState inst None None (u8 idx) 1 isLoad false false false false.

(** ** Store-queue entries *)
Record SQEntry := MkSQEntry {
  sq_data : list Z;  (* char[16] *)
  sq_inst : option InstPtr;
  sq_req : option Request;
  sq_sreqLow : option Request;
  sq_sreqHigh : option Request;
  sq_size : Z;  (* uint8_t *)
  sq_isSplit : bool;
  canWB : bool;
  sq_committed : bool;
  sq_completed : bool;
  isAllZeros : bool;
}.
#[export] Instance SQEntry_eta : Updatable SQEntry := λ r, MkSQEntry (sq_data r) (sq_inst r) (sq_req r)
  (sq_sreqLow r) (sq_sreqHigh r) (sq_size r) (sq_isSplit r) (canWB r) (sq_committed r) (sq_completed r)
  (isAllZeros r).
Definition SQEntry_new (inst : option InstPtr) : SQEntry :=
  MkSQEntry (replicate 16 0) inst None None None 0 false false false false false.

(** ** Calls to the rest of the CPU *)
Inductive Call :=
| RescheduleMemInst (p : InstPtr)
| ReplayMemInst (p : InstPtr)
| BlockMemInst (p : InstPtr)
| InstToCommit (p : InstPtr)
| CheckMisprediction (p : InstPtr)
| ForwardOldRegs (p : InstPtr)
| ScheduleWriteback (p : InstPtr) (pkt : Packet)
| SendTimingReq (pkt : Packet) (accepted : bool)
| HandleIprWrite (pkt : Packet)
| UpdateLSQNextCycle.

(** ** The unit *)
Record LSQUnit := MkLSQUnit {
  u_heap : heap;
  senders : gmap nat LSQSenderState;
  next_id : nat;
  calls : list Call;
  storeQueue : list SQEntry;
  loadQueue : list (option InstPtr);
  LQEntries : Z;
  SQEntries : Z;
  loads : Z;
  stores : Z;
  storesToWB : Z;
  loadHead : Z;
  loadTail : Z;
  storeHead : Z;
  storeWBIdx : Z;
  storeTail : Z;
  usedStorePorts : Z;
  stalled : bool;
  stallingStoreIsn : Z;
  stallingLoadIdx : Z;
  retryPkt : option Packet;
  isStoreBlocked : bool;
  storeInFlight : bool;
  memDepViolator : option InstPtr;
  hasPendingPkt : bool;
  pendingPkt : option Packet;
}.
#[export] Instance LSQUnit_eta : Updatable LSQUnit := λ r, MkLSQUnit (u_heap r) (senders r) (next_id r)
  (calls r) (storeQueue r) (loadQueue r) (LQEntries r) (SQEntries r) (loads r) (stores r) (storesToWB r)
  (loadHead r) (loadTail r) (storeHead r) (storeWBIdx r) (storeTail r) (usedStorePorts r) (stalled r)
  (stallingStoreIsn r) (stallingLoadIdx r) (retryPkt r) (isStoreBlocked r) (storeInFlight r)
  (memDepViolator r) (hasPendingPkt r) (pendingPkt r).

Section lsq.
Context (depCheckShift : Z) (checkLoads needsTSO : bool) (cacheStorePorts cacheBlockMask curCycle : Z).
Context (cache_accepts : list Call → Packet → bool).
Context (handleIprRead : Request → list Z) (completeAcc : Packet → DynInst → DynInst).
Context (initiateAcc : InstPtr → LSQUnit → res (Fault * LSQUnit)).
Implicit Types (u : LSQUnit) (p : InstPtr) (pkt : Packet).

Definition lsq_inst p u : res DynInst := deref (u_heap u !! p).
(** Change the instruction [p] points at. *)
Definition on_inst p (f : DynInst → DynInst) u : LSQUnit := u <| u_heap ::= alter f p |>.
Definition do_call (c : Call) u : LSQUnit := u <| calls ::= (λ l, l ++ [c]) |>.
Definition store_at (idx : Z) u : res SQEntry := vget (storeQueue u) idx.
Definition on_store (idx : Z) (f : SQEntry → SQEntry) u : res LSQUnit :=
  e ← vget (storeQueue u) idx;
  q ← vset idx (f e) (storeQueue u);
  Ok (u <| storeQueue := q |>).
(** [loadQueue[idx]->...]. *)
Definition load_at (idx : Z) u : res InstPtr := o ← vget (loadQueue u) idx; deref o.
(** [assert(storeQueue[idx].inst)]. *)
Definition assert_inst (e : SQEntry) : res InstPtr :=
  match sq_inst e with Some p => Ok p | None => Err AssertFailed end.

Definition incrStIdx u : Z → Z := incrIdx (SQEntries u).
Definition decrStIdx u : Z → Z := decrIdx (SQEntries u).
Definition incrLdIdx u : Z → Z := incrIdx (LQEntries u).
Definition decrLdIdx u : Z → Z := decrIdx (LQEntries u).

(** *** Start-up *)
Definition resetState u : LSQUnit :=
  u <| loads := 0 |> <| stores := 0 |> <| storesToWB := 0 |> <| loadHead := 0 |> <| loadTail := 0 |>
    <| storeHead := 0 |> <| storeWBIdx := 0 |> <| storeTail := 0 |> <| usedStorePorts := 0 |>
    <| retryPkt := None |> <| memDepViolator := None |> <| stalled := false |>.
(** The constructor followed by [init]; [h] are the instructions of the CPU. *)
Definition lsq_init (h : heap) (maxLQEntries maxSQEntries : Z) : res LSQUnit :=
  let nLQ := maxLQEntries + 1 in
  let nSQ := maxSQEntries + 1 in
  _ ← assert (nLQ <=? 256);
  _ ← assert (nSQ <=? 256);
  Ok (resetState (MkLSQUnit h ∅ 0 [] (replicate (Z.to_nat nSQ) (SQEntry_new None))
        (replicate (Z.to_nat nLQ) None) nLQ nSQ 0 0 0 0 0 0 0 0 0 false 0 0 None false false None false None)).
Definition clearLQ u : LSQUnit := u <| loadQueue := [] |>.
Definition clearSQ u : LSQUnit := u <| storeQueue := [] |>.
Definition lsq_drainSanityCheck u : res unit :=
  _ ← assert (forallb (λ o, bool_decide (o = None)) (loadQueue u));
  _ ← assert (storesToWB u =? 0);
  assert (negb (bool_decide (is_Some (retryPkt u)))).
Definition lsq_takeOverFrom : LSQUnit → LSQUnit := resetState.
Definition resizeLQ (size : Z) u : res LSQUnit :=
  let size_plus_sentinel := size + 1 in
  _ ← assert (LQEntries u <=? size_plus_sentinel);
  let grown := Z.to_nat (size_plus_sentinel - Z.of_nat (length (loadQueue u))) in
  let u := if LQEntries u <? size_plus_sentinel
           then u <| loadQueue ::= (λ q, q ++ replicate grown None) |> <| LQEntries ::= Z.add (Z.of_nat grown) |>
           else u <| LQEntries := size_plus_sentinel |> in
  _ ← assert (LQEntries u <=? 256);
  Ok u.
Definition resizeSQ (size : Z) u : res LSQUnit :=
  let size_plus_sentinel := size + 1 in
  let grown := Z.to_nat (size_plus_sentinel - Z.of_nat (length (storeQueue u))) in
  let u := if SQEntries u <? size_plus_sentinel
           then u <| storeQueue ::= (λ q, q ++ replicate grown (SQEntry_new None)) |>
                  <| SQEntries ::= Z.add (Z.of_nat grown) |>
           else u <| SQEntries := size_plus_sentinel |> in
  _ ← assert (SQEntries u <=? 256);
  Ok u.

(** *** Insertion *)
Definition lsq_insertLoad p u : res LSQUnit :=
  _ ← assert (negb (u32 (loadTail u + 1) mod LQEntries u =? loadHead u));
  _ ← assert (u32 (loads u) <? LQEntries u);
  _ ← lsq_inst p u;
  let sq_idx := if stores u =? 0 then -1 else storeTail u in
  let u := on_inst p (λ d, d <| lqIdx := loadTail u |> <| sqIdx := sq_idx |>
                             <| addedToLSQTimestamp := curCycle |>) u in
  q ← vset (loadTail u) (Some p) (loadQueue u);
  Ok (u <| loadQueue := q |> <| loadTail := incrLdIdx u (loadTail u) |> <| loads := loads u + 1 |>).
Definition lsq_insertStore p u : res LSQUnit :=
  _ ← assert (negb (u32 (storeTail u + 1) mod SQEntries u =? storeHead u));
  _ ← assert (u32 (stores u) <? SQEntries u);
  _ ← lsq_inst p u;
  let u := on_inst p (λ d, d <| sqIdx := storeTail u |> <| lqIdx := loadTail u |>
                             <| addedToLSQTimestamp := curCycle |>) u in
  q ← vset (storeTail u) (SQEntry_new (Some p)) (storeQueue u);
  Ok (u <| storeQueue := q |> <| storeTail := incrStIdx u (storeTail u) |> <| stores := stores u + 1 |>).
Definition lsq_insert p u : res LSQUnit :=
  d ← lsq_inst p u;
  _ ← assert (isMemRef d);
  _ ← assert (isLoad d || isStore d);
  u ← (if isLoad d then lsq_insertLoad p u else lsq_insertStore p u);
  Ok (on_inst p setInLSQ u).

(** *** Occupancy *)
Definition getMemDepViolator u : option InstPtr * LSQUnit := (memDepViolator u, u <| memDepViolator := None |>).
Definition lsq_violation u : bool := bool_decide (is_Some (memDepViolator u)).
Definition numFreeLoadEntries u : Z := u32 (LQEntries u - loads u - 1).
Definition numFreeStoreEntries u : Z := u32 (SQEntries u - stores u - 1).
Definition lqFull u : bool := u32 (LQEntries u - 1) <=? u32 (loads u).
Definition sqFull u : bool := u32 (SQEntries u - 1) <=? u32 (stores u).
Definition lqEmpty u : bool := loads u =? 0.
Definition sqEmpty u : bool := stores u =? 0.
Definition lsq_isFull u : bool := lqFull u || sqFull u.
Definition lsq_isEmpty u : bool := lqEmpty u && sqEmpty u.
Definition getCount u : Z := u32 (loads u + stores u).
Definition hasStoresToWB u : bool := negb (storesToWB u =? 0).
Definition willWB u : res bool :=
  e ← store_at (storeWBIdx u) u;
  Ok (canWB e && negb (sq_completed e) && negb (isStoreBlocked u)).
Definition lsq_tick u : LSQUnit := u <| usedStorePorts := 0 |>.
Definition getLoadHeadSeqNum u : res Z :=
  o ← vget (loadQueue u) (loadHead u);
  match o with Some p => d ← lsq_inst p u; Ok (seqNum d) | None => Ok 0 end.
Definition getStoreHeadSeqNum u : res Z :=
  e ← store_at (storeHead u) u;
  match sq_inst e with Some p => d ← lsq_inst p u; Ok (seqNum d) | None => Ok 0 end.

(** *** Snoops *)
(** One turn of the loop of [checkSnoop]: whether a conflicting load was met
    ([force_squash]), and the unit. *)
Definition snoopLoad (invalidate_addr : Z) (force_squash : bool) p u : res (bool * LSQUnit) :=
  ld_inst ← lsq_inst p u;
  if negb (effAddrValid ld_inst) || strictlyOrdered ld_inst then Ok (force_squash, u)
  else
    let load_addr_low := Z.land (physEffAddrLow ld_inst) cacheBlockMask in
    let load_addr_high := Z.land (physEffAddrHigh ld_inst) cacheBlockMask in
    if (load_addr_low =? invalidate_addr) || (load_addr_high =? invalidate_addr) || force_squash then
      let force_squash := force_squash || needsTSO in
      if possibleLoadViolation ld_inst || force_squash
      then Ok (force_squash, on_inst p (λ d, d <| fault := ReExec |>) u)
      else Ok (force_squash, on_inst p (set_hitExternalSnoop true) u)
    else Ok (force_squash, u).
Fixpoint checkSnoop_loop (fuel : nat) (invalidate_addr load_idx : Z) (force_squash : bool) u : res LSQUnit :=
  match fuel with
  | O => Err OutOfFuel
  | S fuel =>
      if load_idx =? loadTail u then Ok u
      else
        p ← load_at load_idx u;
        '(force_squash, u) ← snoopLoad invalidate_addr force_squash p u;
        checkSnoop_loop fuel invalidate_addr (incrLdIdx u load_idx) force_squash u
  end.
(** An invalidation of the line of [addr]; the load at the head is left alone. *)
Definition checkSnoop (addr : Z) u : res LSQUnit :=
  let invalidate_addr := Z.land addr cacheBlockMask in
  _ ← vget (loadQueue u) (loadHead u);
  if loadHead u =? loadTail u then Ok u
  else checkSnoop_loop (Z.to_nat (LQEntries u)) invalidate_addr (incrLdIdx u (loadHead u)) false u.

(** *** Ordering violations *)
Definition first_unit (d : DynInst) : Z := Z.shiftr (effAddr d) depCheckShift.
Definition last_unit (d : DynInst) : Z := Z.shiftr (u64 (effAddr d + effSize d - 1)) depCheckShift.
Fixpoint checkViolations_loop (fuel : nat) (inst_eff_addr1 inst_eff_addr2 : Z) (load_idx : Z) p u
    : res (Fault * LSQUnit) :=
  match fuel with
  | O => Err OutOfFuel
  | S fuel =>
      let next u := checkViolations_loop fuel inst_eff_addr1 inst_eff_addr2 (incrLdIdx u load_idx) p u in
      if load_idx =? loadTail u then Ok (NoFault, u)
      else
        lp ← load_at load_idx u;
        ld_inst ← lsq_inst lp u;
        if negb (effAddrValid ld_inst) || strictlyOrdered ld_inst then next u
        else if (first_unit ld_inst <=? inst_eff_addr2) && (inst_eff_addr1 <=? last_unit ld_inst) then
          inst ← lsq_inst p u;
          violator ← (match memDepViolator u with
                      | None => Ok None
                      | Some v => d ← lsq_inst v u; Ok (Some (seqNum d))
                      end);
          if isLoad inst then
            if hitExternalSnoop ld_inst
               && match violator with None => true | Some sn => seqNum ld_inst <? sn end
            then Ok (M5PanicFault, u <| memDepViolator := Some lp |>)
            else next (on_inst lp (set_possibleLoadViolation true) u)
          else if match violator with None => false | Some sn => sn <? seqNum ld_inst end then Ok (NoFault, u)
          else Ok (M5PanicFault, u <| memDepViolator := Some lp |>)
        else next u
  end.
Definition checkViolations (load_idx : Z) p u : res (Fault * LSQUnit) :=
  inst ← lsq_inst p u;
  checkViolations_loop (Z.to_nat (LQEntries u)) (first_unit inst) (last_unit inst) load_idx p u.

(** *** Execution *)
Definition executeLoad p u : res (Fault * LSQUnit) :=
  inst ← lsq_inst p u;
  _ ← assert (negb (isSquashed inst));
  '(load_fault, u) ← initiateAcc p u;
  inst ← lsq_inst p u;
  if isTranslationDelayed inst && bool_decide (load_fault = NoFault) then Ok (load_fault, u)
  else if bool_decide (load_fault ≠ NoFault) || negb (readPredicate inst) then
    let u := if negb (readPredicate inst) then do_call (ForwardOldRegs p) u else u in
    let u := if negb (hasRequest inst && strictlyOrdered inst) || isAtCommit inst
             then on_inst p setExecuted u else u in
    Ok (load_fault, do_call (InstToCommit p) u)
  else
    _ ← assert (effAddrValid inst);
    if checkLoads then checkViolations (incrLdIdx u (lqIdx inst)) p u else Ok (load_fault, u).
Definition executeStore p u : res (Fault * LSQUnit) :=
  _ ← assert (negb (stores u =? 0));
  store_inst ← lsq_inst p u;
  let store_idx := sqIdx store_inst in
  _ ← assert (negb (isSquashed store_inst));
  let load_idx := lqIdx store_inst in
  '(store_fault, u) ← initiateAcc p u;
  store_inst ← lsq_inst p u;
  if isTranslationDelayed store_inst && bool_decide (store_fault = NoFault) then Ok (store_fault, u)
  else if negb (readPredicate store_inst) then Ok (store_fault, do_call (ForwardOldRegs p) u)
  else
    e ← store_at store_idx u;
    if sq_size e =? 0 then Ok (store_fault, u)
    else
      _ ← assert (bool_decide (store_fault = NoFault));
      u ← (if isStoreConditional store_inst then
             u ← on_store store_idx (λ e, e <| canWB := true |>) u;
             Ok (u <| storesToWB := storesToWB u + 1 |>)
           else Ok u);
      checkViolations load_idx p u.

(** *** Commit *)
Definition commitLoad u : res LSQUnit :=
  o ← vget (loadQueue u) (loadHead u);
  p ← (match o with Some p => Ok p | None => Err AssertFailed end);
  _ ← lsq_inst p u;
  q ← vset (loadHead u) None (loadQueue u);
  Ok (u <| loadQueue := q |> <| loadHead := incrLdIdx u (loadHead u) |> <| loads := loads u - 1 |>).
Fixpoint commitLoads_loop (fuel : nat) (youngest_inst : Z) u : res LSQUnit :=
  match fuel with
  | O => Err OutOfFuel
  | S fuel =>
      if loads u =? 0 then Ok u
      else
        p ← load_at (loadHead u) u;
        d ← lsq_inst p u;
        if seqNum d <=? youngest_inst then u ← commitLoad u; commitLoads_loop fuel youngest_inst u else Ok u
  end.
Definition commitLoads (youngest_inst : Z) u : res LSQUnit :=
  _ ← (if loads u =? 0 then Ok tt else o ← vget (loadQueue u) (loadHead u); assert (bool_decide (is_Some o)));
  commitLoads_loop (Z.to_nat (LQEntries u)) youngest_inst u.
Fixpoint commitStores_loop (fuel : nat) (youngest_inst store_idx : Z) u : res LSQUnit :=
  match fuel with
  | O => Err OutOfFuel
  | S fuel =>
      if store_idx =? storeTail u then Ok u
      else
        e ← store_at store_idx u;
        p ← assert_inst e;
        if canWB e then commitStores_loop fuel youngest_inst (incrStIdx u store_idx) u
        else
          d ← lsq_inst p u;
          if youngest_inst <? seqNum d then Ok u
          else
            u ← on_store store_idx (λ e, e <| canWB := true |>) u;
            let u := u <| storesToWB := storesToWB u + 1 |> in
            commitStores_loop fuel youngest_inst (incrStIdx u store_idx) u
  end.
Definition commitStores (youngest_inst : Z) u : res LSQUnit :=
  _ ← (if stores u =? 0 then Ok tt else e ← store_at (storeHead u) u; assert (bool_decide (is_Some (sq_inst e))));
  commitStores_loop (Z.to_nat (SQEntries u)) youngest_inst (storeHead u) u.

(** *** Squash *)
Fixpoint squashLoads_loop (fuel : nat) (squashed_num load_idx : Z) u : res LSQUnit :=
  match fuel with
  | O => Err OutOfFuel
  | S fuel =>
      if loads u =? 0 then Ok u
      else
        p ← load_at load_idx u;
        d ← lsq_inst p u;
        if squashed_num <? seqNum d then
          let u := if stalled u && (load_idx =? stallingLoadIdx u)
                   then u <| stalled := false |> <| stallingStoreIsn := 0 |> <| stallingLoadIdx := 0 |> else u in
          let u := on_inst p setSquashed u in
          q ← vset load_idx None (loadQueue u);
          let u := u <| loadQueue := q |> <| loads := loads u - 1 |> <| loadTail := load_idx |> in
          squashLoads_loop fuel squashed_num (decrLdIdx u load_idx) u
        else Ok u
  end.
Fixpoint squashStores_loop (fuel : nat) (squashed_num store_idx : Z) u : res LSQUnit :=
  match fuel with
  | O => Err OutOfFuel
  | S fuel =>
      if stores u =? 0 then Ok u
      else
        e ← store_at store_idx u;
        p ← deref (sq_inst e);
        d ← lsq_inst p u;
        if squashed_num <? seqNum d then
          if canWB e then Ok u
          else
            _ ← panic_if (stalled u && (seqNum d =? stallingStoreIsn u));
            let u := on_inst p setSquashed u in
            u ← on_store store_idx (λ e, e <| sq_inst := None |> <| canWB := false |> <| sq_req := None |>
                   <| sq_sreqLow ::= (λ r, if sq_isSplit e then None else r) |>
                   <| sq_sreqHigh ::= (λ r, if sq_isSplit e then None else r) |>) u;
            let u := u <| stores := stores u - 1 |> <| storeTail := store_idx |> in
            squashStores_loop fuel squashed_num (decrStIdx u store_idx) u
        else Ok u
  end.
Definition clearViolator (squashed_num : Z) u : res LSQUnit :=
  match memDepViolator u with
  | None => Ok u
  | Some v => d ← lsq_inst v u; Ok (if squashed_num <? seqNum d then u <| memDepViolator := None |> else u)
  end.
Definition lsq_squash (squashed_num : Z) u : res LSQUnit :=
  u ← squashLoads_loop (Z.to_nat (LQEntries u)) squashed_num (decrLdIdx u (loadTail u)) u;
  u ← clearViolator squashed_num u;
  squashStores_loop (Z.to_nat (SQEntries u)) squashed_num (decrStIdx u (storeTail u)) u.

(** *** Store completion *)
(** A load that waits for the store just written is replayed. *)
Definition unstall (store_seq : Z) u : res LSQUnit :=
  if stalled u && (store_seq =? stallingStoreIsn u) then
    let u := u <| stalled := false |> <| stallingStoreIsn := 0 |> in
    p ← load_at (stallingLoadIdx u) u;
    Ok (do_call (ReplayMemInst p) u)
  else Ok u.
(** The [do]-[while] that frees the completed stores at the head. *)
Fixpoint freeStores (fuel : nat) u : res LSQUnit :=
  match fuel with
  | O => Err OutOfFuel
  | S fuel =>
      let u := u <| storeHead := incrStIdx u (storeHead u) |> <| stores := stores u - 1 |> in
      e ← store_at (storeHead u) u;
      if sq_completed e && negb (storeHead u =? storeTail u) then freeStores fuel u else Ok u
  end.
Definition completeStore (store_idx : Z) u : res LSQUnit :=
  e ← store_at store_idx u;
  p ← assert_inst e;
  u ← on_store store_idx (λ e, e <| sq_completed := true |>) u;
  let u := u <| storesToWB := storesToWB u - 1 |> in
  u ← (if store_idx =? storeHead u then
         u ← freeStores (Z.to_nat (SQEntries u)) u; Ok (do_call UpdateLSQNextCycle u)
       else Ok u);
  d ← lsq_inst p u;
  u ← unstall (seqNum d) u;
  let u := on_inst p setCompleted u in
  Ok (if needsTSO then u <| storeInFlight := false |> else u).
(** The whole store at [storeWBIdx] has been accepted by the cache. *)
Definition storePostSend u : res LSQUnit :=
  e ← store_at (storeWBIdx u) u;
  p ← deref (sq_inst e);
  d ← lsq_inst p u;
  u ← unstall (seqNum d) u;
  let u := if negb (isStoreConditional d) then on_inst p setCompleted u else u in
  let u := if needsTSO then u <| storeInFlight := true |> else u in
  Ok (u <| storeWBIdx := incrStIdx u (storeWBIdx u) |>).

(** *** The cache port *)
Definition sendTimingReq pkt u : bool * LSQUnit :=
  let accepted := cache_accepts (calls u) pkt in (accepted, do_call (SendTimingReq pkt accepted) u).
Definition sendStore pkt u : res (bool * LSQUnit) :=
  let '(accepted, u) := sendTimingReq pkt u in
  if accepted then Ok (true, u)
  else
    let u := u <| isStoreBlocked := true |> in
    _ ← assert (negb (bool_decide (is_Some (retryPkt u))));
    Ok (false, u <| retryPkt := Some pkt |>).
(** [if (sendStore(pkt)) storePostSend(pkt)]. *)
Definition sendAndPost pkt u : res LSQUnit :=
  '(accepted, u) ← sendStore pkt u;
  if (accepted : bool) then storePostSend u else Ok u.
Definition on_state (sid : nat) (f : LSQSenderState → LSQSenderState) u : LSQUnit := u <| senders ::= alter f sid |>.
Definition delete_state (sid : nat) u : LSQUnit := u <| senders ::= delete sid |>.
Definition state_of pkt u : res (nat * LSQSenderState) :=
  sid ← deref (pk_state pkt);
  st ← deref (senders u !! sid);
  Ok (sid, st).
Definition recvRetry u : res LSQUnit :=
  if isStoreBlocked u then
    pkt ← (match retryPkt u with Some pkt => Ok pkt | None => Err AssertFailed end);
    '(sid, state) ← state_of pkt u;
    let '(accepted, u) := sendTimingReq pkt u in
    if accepted then
      u ← (if negb (ss_pktToSend state) || bool_decide (pk_id <$> ss_pendingPacket state = Some (pk_id pkt))
           then storePostSend (on_state sid (λ st, st <| ss_pktToSend := false |>) u)
           else Ok u);
      let u := u <| retryPkt := None |> <| isStoreBlocked := false |> in
      '(_, state) ← state_of pkt u;
      if ss_pktToSend state then
        pending ← (match ss_pendingPacket state with Some q => Ok q | None => Err AssertFailed end);
        sendAndPost pending u
      else Ok u
    else Ok u
  else Ok u.

(** *** Writing stores back *)
Definition writebackPendingStore u : res LSQUnit :=
  if hasPendingPkt u then
    pkt ← (match pendingPkt u with Some pkt => Ok pkt | None => Err AssertFailed end);
    u ← sendAndPost pkt u;
    Ok (u <| pendingPkt := None |> <| hasPendingPkt := false |>)
  else Ok u.
(** The condition of the loop of [writebackStores]. *)
Definition canWriteback u : res bool :=
  e ← store_at (storeWBIdx u) u;
  Ok ((0 <? storesToWB u) && negb (storeWBIdx u =? storeTail u) && bool_decide (is_Some (sq_inst e)) && canWB e
      && (negb needsTSO || negb (storeInFlight u)) && (usedStorePorts u <? cacheStorePorts)).
(** [TheISA::handleLockedWrite] of X86. *)
Definition handleLockedWrite (req : Request) : bool := true.
(** The two packets of the store in entry [e], whose bytes are [bytes], and their state. *)
Definition makePackets (e : SQEntry) (req : Request) (bytes : list Z) p (d : DynInst) u
    : res (nat * Packet * option Packet * LSQUnit) :=
  let sid := next_id u in
  let state := new_state false (storeWBIdx u) p in
  let pkt id rq data := MkPacket id rq true data (Some sid) (isRunahead d) in
  if sq_isSplit e then
    low ← deref (sq_sreqLow e);
    high ← deref (sq_sreqHigh e);
    let fst_pkt := pkt (S sid) low (take (Z.to_nat (getSize low)) bytes) in
    let snd_pkt := pkt (S (S sid)) high (take (Z.to_nat (getSize high)) (drop (Z.to_nat (getSize low)) bytes)) in
    let state := state <| ss_isSplit := true |> <| ss_outstanding := 2 |> in
    u ← on_store (storeWBIdx u) (λ e, e <| sq_req := Some low |>) u;
    Ok (sid, fst_pkt, Some snd_pkt, u <| senders ::= <[sid := state]> |> <| next_id := (sid + 3)%nat |>)
  else
    let fst_pkt := pkt (S sid) req (take (Z.to_nat (getSize req)) bytes) in
    Ok (sid, fst_pkt, None, u <| senders ::= <[sid := state]> |> <| next_id := (sid + 2)%nat |>).
(** Sending the packets of a store to the cache. *)
Definition sendPackets (sid : nat) (data_pkt : Packet) (snd_data_pkt : option Packet) u : res LSQUnit :=
  '(accepted, u) ← sendStore data_pkt u;
  if negb accepted then
    Ok (match snd_data_pkt with
        | Some q => on_state sid (λ st, st <| ss_pktToSend := true |> <| ss_pendingPacket := Some q |>) u
        | None => u
        end)
  else
    match snd_data_pkt with
    | None => storePostSend u
    | Some q =>
        if usedStorePorts u <? cacheStorePorts then
          sendAndPost q (u <| usedStorePorts := usedStorePorts u + 1 |>)
        else
          _ ← assert (negb (bool_decide (is_Some (pendingPkt u))));
          Ok (u <| pendingPkt := Some q |> <| hasPendingPkt := true |>)
    end.
Definition nextStore u : LSQUnit := u <| storeWBIdx := incrStIdx u (storeWBIdx u) |>.
(** The packets of the store at [storeWBIdx] are made and sent. *)
Definition handOverStore (e : SQEntry) p (inst : DynInst) u : res LSQUnit :=
  req ← (match sq_req e with Some req => Ok req | None => Err AssertFailed end);
  _ ← assert (negb (sq_committed e));
  _ ← assert (negb (sq_isSplit e) || bool_decide (is_Some (sq_sreqLow e)) && bool_decide (is_Some (sq_sreqHigh e)));
  u ← on_store (storeWBIdx u) (λ e, e <| sq_committed := true |>) u;
  _ ← assert (negb (bool_decide (is_Some (memData inst))));
  let bytes := if isAllZeros e then replicate (Z.to_nat (getSize req)) 0
               else take (Z.to_nat (getSize req)) (sq_data e) in
  let u := on_inst p (λ d, d <| memData := Some bytes |>) u in
  '(sid, data_pkt, snd_data_pkt, u) ← makePackets e req bytes p inst u;
  _ ← assert (negb (isStoreConditional inst) || negb (sq_isSplit e));
  let u := if isStoreConditional inst then on_inst p (fl_assign RecordResult true) u
           else on_state sid (λ st, st <| ss_noWB := true |>) u in
  if isStoreConditional inst && negb (handleLockedWrite (pk_req data_pkt)) then
    u ← completeStore (storeWBIdx u) (do_call (ScheduleWriteback p data_pkt) u);
    Ok (nextStore u)
  else if isMmappedIpr (pk_req data_pkt) then
    _ ← assert (negb (isStoreConditional inst));
    let u := do_call (HandleIprWrite data_pkt) u in
    u ← (match snd_data_pkt with
         | Some q => _ ← assert (isMmappedIpr (pk_req q)); Ok (do_call (HandleIprWrite q) u)
         | None => Ok u
         end);
    u ← completeStore (storeWBIdx u) (delete_state sid u);
    Ok (nextStore u)
  else sendPackets sid data_pkt snd_data_pkt u.
(** The body of the loop of [writebackStores], after the test of [isStoreBlocked]. *)
Definition writebackStore u : res LSQUnit :=
  e ← store_at (storeWBIdx u) u;
  p ← deref (sq_inst e);
  inst ← lsq_inst p u;
  if sq_size e =? 0 then u ← completeStore (storeWBIdx u) u; Ok (nextStore u)
  else
    let u := u <| usedStorePorts := usedStorePorts u + 1 |> in
    if isDataPrefetch inst then Ok (nextStore u) else handOverStore e p inst u.
Fixpoint writebackStores_loop (fuel : nat) u : res LSQUnit :=
  match fuel with
  | O => Err OutOfFuel
  | S fuel =>
      go ← canWriteback u;
      if go && negb (isStoreBlocked u) then u ← writebackStore u; writebackStores_loop fuel u else Ok u
  end.
(** Every turn but the last passes a store; see [writebackStores_ok] in [LSQDrain.v]. *)
Definition lsq_writebackStores u : res LSQUnit :=
  u ← writebackPendingStore u;
  u ← writebackStores_loop (S (Z.to_nat (SQEntries u))) u;
  let u := u <| usedStorePorts := 0 |> in
  _ ← assert ((0 <=? stores u) && (0 <=? storesToWB u));
  Ok u.

(** *** Responses *)
Definition lsq_writeback p pkt u : res LSQUnit :=
  inst ← lsq_inst p u;
  if isSquashed inst then _ ← assert (negb (isStore inst)); Ok u
  else
    u ← (if isExecuted inst then Ok u
         else
           let u := on_inst p setExecuted u in
           if decide (fault inst = NoFault) then Ok (on_inst p (completeAcc pkt) u)
           else _ ← assert (bool_decide (fault inst = ReExec)); Ok u);
    Ok (do_call (CheckMisprediction p) (do_call (InstToCommit p) u)).
(** [WritebackEvent::process]. *)
Definition processWriteback p pkt u : res LSQUnit :=
  u ← lsq_writeback p pkt u;
  Ok (match pk_state pkt with Some sid => delete_state sid u | None => u end).
Definition completeDataAccess pkt (satisfiedFromMemory : bool) u : res LSQUnit :=
  '(sid, state) ← state_of pkt u;
  let p := ss_inst state in
  let u := if satisfiedFromMemory then on_inst p setSatisfiedFromMemory u else u in
  if ss_cacheBlocked state then Ok (delete_state sid u)
  else
    let left := u8 (ss_outstanding state - 1) in
    let u := on_state sid (λ st, st <| ss_outstanding := left |>) u in
    if negb (left =? 0) then Ok u
    else
      inst ← lsq_inst p u;
      u ← (if isSquashed inst then Ok u
           else
             u ← (if ss_noWB state then Ok u
                  else
                    _ ← assert (isLoad inst || isStoreConditional inst);
                    if negb (ss_isSplit state) || negb (ss_isLoad state) then lsq_writeback p pkt u
                    else main ← deref (ss_mainPkt state); lsq_writeback p main u);
             if isStore inst then completeStore (ss_idx state) u else Ok u);
      Ok (delete_state sid u).

(** *** Loads *)
Inductive Coverage := Covers | Overlaps | Disjoint.
(** How the bytes a store writes relate to those the request wants. *)
Definition coverage (req : Request) (addr store_size : Z) : Coverage :=
  let load_end := u64 (getVaddr req + getSize req) in
  let store_end := u64 (addr + store_size) in
  let store_has_lower_limit := addr <=? getVaddr req in
  let store_has_upper_limit := load_end <=? store_end in
  let lower_load_has_store_part := getVaddr req <? store_end in
  let upper_load_has_store_part := addr <? load_end in
  if store_has_lower_limit && store_has_upper_limit && negb (isLLSC req) then Covers
  else if (negb (isLLSC req)
           && (store_has_lower_limit && lower_load_has_store_part
               || store_has_upper_limit && upper_load_has_store_part
               || lower_load_has_store_part && upper_load_has_store_part))
       || (isLLSC req
           && ((store_has_lower_limit || upper_load_has_store_part)
               && (store_has_upper_limit || lower_load_has_store_part)))
  then Overlaps
  else Disjoint.
(** Stores that are not considered: not executed yet, or without data to forward. *)
Definition forwardable (e : SQEntry) (d : DynInst) : bool :=
  negb ((sq_size e =? 0) || strictlyOrdered d
        || match sq_req e with Some req => isCacheMaintenance req | None => false end).
(** The loop over the stores older than the load, youngest first. *)
Fixpoint scanStores (fuel : nat) (req : Request) (store_idx : Z) u : res (option (Z * Coverage)) :=
  match fuel with
  | O => Err OutOfFuel
  | S fuel =>
      if (store_idx =? -1) || (store_idx =? storeWBIdx u) then Ok None
      else
        let store_idx := decrStIdx u store_idx in
        e ← store_at store_idx u;
        p ← assert_inst e;
        d ← lsq_inst p u;
        if negb (forwardable e d) then scanStores fuel req store_idx u
        else
          _ ← assert (effAddrValid d);
          match coverage req (effAddr d) (sq_size e) with
          | Disjoint => scanStores fuel req store_idx u
          | c => Ok (Some (store_idx, c))
          end
  end.
(** [memcpy] out of an array; reading outside it has no defined result. *)
Definition copy (data : list Z) (from size : Z) : res (list Z) :=
  if (0 <=? from) && (from + size <=? Z.of_nat (length data)) then Ok (take (Z.to_nat size) (drop (Z.to_nat from) data))
  else Err NullDeref.
(** All the data is in the store at [store_idx]. *)
Definition forwardData (req : Request) p (store_idx : Z) u : res LSQUnit :=
  e ← store_at store_idx u;
  sp ← deref (sq_inst e);
  s ← lsq_inst sp u;
  let shift_amt := getVaddr req - effAddr s in
  bytes ← (if isAllZeros e then Ok (replicate (Z.to_nat (getSize req)) 0) else copy (sq_data e) shift_amt (getSize req));
  let pkt := MkPacket (next_id u) req false bytes None false in
  let u := on_inst p (λ d, d <| memData := Some bytes |>) (u <| next_id := S (next_id u) |>) in
  Ok (do_call (ScheduleWriteback p pkt) u).
(** A part of the data is in the store at [store_idx]: the load must wait for it. *)
Definition stallLoad (load_idx : Z) p (store_idx : Z) u : res LSQUnit :=
  e ← store_at store_idx u;
  sp ← deref (sq_inst e);
  s ← lsq_inst sp u;
  d ← lsq_inst p u;
  _ ← panic_if (sq_completed e);
  oldest ← (if stalled u then
              q ← load_at (stallingLoadIdx u) u; d' ← lsq_inst q u; Ok (seqNum d <? seqNum d')
            else Ok true);
  let u := if oldest : bool
           then u <| stalled := true |> <| stallingStoreIsn := seqNum s |> <| stallingLoadIdx := load_idx |> else u in
  Ok (on_inst p clearIssued (do_call (RescheduleMemInst p) u)).
(** No older store has any of the data. *)
Definition accessMemory (req : Request) (sreqLow sreqHigh : option Request) (load_idx : Z) p u : res LSQUnit :=
  d ← lsq_inst p u;
  let u := if bool_decide (is_Some (memData d)) then u
           else on_inst p (λ d, d <| memData := Some (replicate (Z.to_nat (getSize req)) 0) |>) u in
  let sid := next_id u in
  let state := new_state true load_idx p in
  let pkt id rq ra := MkPacket id rq false [] (Some sid) ra in
  let runahead := isRunahead d in
  let u := u <| next_id := (sid + 4)%nat |> in
  match sreqLow with
  | None =>
      let '(accepted, u) := sendTimingReq (pkt (S sid) req runahead) (u <| senders ::= <[sid := state]> |>) in
      Ok (if accepted : bool then u else do_call (BlockMemInst p) (delete_state sid u))
  | Some low =>
      high ← deref sreqHigh;
      let state := state <| ss_isSplit := true |> <| ss_outstanding := 2 |>
                         <| ss_mainPkt := Some (pkt (S sid) req false) |> in
      let '(accepted, u) := sendTimingReq (pkt (S (S sid)) low runahead) (u <| senders ::= <[sid := state]> |>) in
      if negb accepted then Ok (do_call (BlockMemInst p) (delete_state sid u))
      else
        let '(accepted, u) := sendTimingReq (pkt (S (S (S sid))) high runahead) u in
        Ok (if accepted : bool then u
            else
              let u := on_state sid (λ st, st <| ss_outstanding := u8 (ss_outstanding st - 1) |>
                                              <| ss_cacheBlocked := true |>) u in
              do_call (BlockMemInst p) u)
  end.
(** A memory-mapped register. *)
Definition readIpr (req : Request) (sreqLow sreqHigh : option Request) p u : res LSQUnit :=
  d ← lsq_inst p u;
  _ ← assert (negb (bool_decide (is_Some (memData d))));
  bytes ← (match sreqLow with
           | None => Ok (handleIprRead req)
           | Some low =>
               high ← deref sreqHigh;
               _ ← assert (isMmappedIpr low && isMmappedIpr high);
               Ok (take (Z.to_nat (getSize low)) (handleIprRead low) ++ handleIprRead high)
           end);
  let pkt := MkPacket (next_id u) req false bytes None false in
  let u := on_inst p (λ d, d <| memData := Some (take 64 (bytes ++ replicate 64 0)) |>) (u <| next_id := S (next_id u) |>) in
  Ok (do_call (ScheduleWriteback p pkt) u).
Definition lsq_read (req : Request) (sreqLow sreqHigh : option Request) (load_idx : Z) u : res (Fault * LSQUnit) :=
  o ← vget (loadQueue u) load_idx;
  p ← (match o with Some p => Ok p | None => Err AssertFailed end);
  load_inst ← lsq_inst p u;
  _ ← assert (negb (isExecuted load_inst));
  if isStrictlyOrdered req && (negb (load_idx =? loadHead u) || negb (isAtCommit load_inst)) then
    Ok (M5PanicFault, do_call (RescheduleMemInst p) u)
  else
    _ ← assert (negb (isLLSC req) || negb (bool_decide (is_Some sreqLow)));
    let u := if isLLSC req then on_inst p (fl_assign RecordResult true) u else u in
    u ← (if isMmappedIpr req then readIpr req sreqLow sreqHigh p u
         else
           found ← scanStores (S (Z.to_nat (SQEntries u))) req (sqIdx load_inst) u;
           match found with
           | Some (store_idx, Covers) => forwardData req p store_idx u
           | Some (store_idx, _) => stallLoad load_idx p store_idx u
           | None => accessMemory req sreqLow sreqHigh load_idx p u
           end);
    Ok (NoFault, u).

(** *** Stores *)
Definition lsq_write (req : Request) (sreqLow sreqHigh : option Request) (data : list Z) (store_idx : Z) u
    : res (Fault * LSQUnit) :=
  e ← store_at store_idx u;
  _ ← assert_inst e;
  let size := getSize req in
  let store_no_data := isSet STORE_NO_DATA req in
  _ ← assert ((size <=? 16) || store_no_data);
  let copied := negb (isSet CACHE_BLOCK_ZERO req) && negb (isCacheMaintenance req) in
  u ← on_store store_idx (λ e, e <| sq_req := Some req |> <| sq_sreqLow := sreqLow |> <| sq_sreqHigh := sreqHigh |>
         <| sq_size := u8 size |> <| isAllZeros := store_no_data |>
         <| sq_isSplit ::= (λ b, b || bool_decide (is_Some sreqLow)) |>
         <| sq_data ::= (λ old, if copied then take (Z.to_nat size) data ++ drop (Z.to_nat size) old else old) |>) u;
  Ok (NoFault, u).

(** *** The oldest load a branch waits for *)
Fixpoint eldest_loop (fuel : nat) (load_idx maxAge : Z) u : res Z :=
  match fuel with
  | O => Err OutOfFuel
  | S fuel =>
      if load_idx =? loadTail u then Ok maxAge
      else
        o ← vget (loadQueue u) load_idx;
        match o with
        | None => Ok maxAge
        | Some p =>
            inst ← lsq_inst p u;
            let age := ageInLSQ curCycle inst in
            eldest_loop fuel (incrLdIdx u load_idx)
              (if isBranchPrequisite inst && (maxAge <? age) then age else maxAge) u
        end
  end.
Definition getEldestBranchPrequisiteAge u : res Z := eldest_loop (Z.to_nat (LQEntries u)) (loadHead u) 0 u.
End lsq.
