(* ===== verification/LSQInv.v ===== *)
(** * The invariant of the load and store queues

    The rings of [LSQ.v] hold lists: [L], the loads in flight, and [St], the entries of
    the stores that are not complete, both in program order; [w] of the stores have been
    handed to the cache.  Every instruction remembers where it stands in the other
    queue: the [sqIdx] of a load separates the stores older than it from the younger
    ones, and so does the [lqIdx] of a store that has not committed. *)

From S2P Require Import Prelude Regs DynInst Ring LSQ.
From stdpp Require Import sorting list.
Local Open Scope Z_scope.

(** ** What the queues rely on in an instruction *)
Definition lkey (d : DynInst) : Z * Z * Z * StaticInst * bool :=
  (seqNum d, lqIdx d, sqIdx d, staticInst d, effAddrValid d).
Definition same_keys (h h' : heap) : Prop := ∀ p, lkey <$> h' !! p = lkey <$> h !! p.
Definition lsn (h : heap) (p : InstPtr) : Z := match h !! p with Some d => seqNum d | None => 0 end.
(** The sequence numbers of a list of loads, of a list of stores. *)
Definition lseqs (h : heap) (L : list InstPtr) : list Z := lsn h <$> L.
Definition ssn (h : heap) (e : SQEntry) : Z := match sq_inst e with Some p => lsn h p | None => 0 end.
Definition sseqs (h : heap) (St : list SQEntry) : list Z := ssn h <$> St.
(** How many of a list are older than [s]. *)
Definition older (s : Z) (l : list Z) : nat := countb (λ x, x <? s) l.

#[export] Instance same_keys_equiv : Equivalence same_keys.
Proof.
  split; [by intros h p|by intros h h' E p|]. intros h1 h2 h3 E1 E2 p. by rewrite E2, E1.
Qed.

Lemma same_keys_lookup (h h' : heap) (p : InstPtr) (d : DynInst) :
  same_keys h h' → h !! p = Some d → ∃ d', h' !! p = Some d' ∧ lkey d' = lkey d.
Proof.
  intros E Hp. specialize (E p). rewrite Hp in E. destruct (h' !! p) as [d'|]; [|done].
  injection E as E. exists d'. split; [done|]. unfold lkey. congruence.
Qed.

Lemma same_keys_alter (h : heap) (p : InstPtr) (f : DynInst → DynInst) :
  (∀ d, h !! p = Some d → lkey (f d) = lkey d) → same_keys h (alter f p h).
Proof.
  intros Hf q. destruct (decide (p = q)) as [<-|Hne].
  - rewrite lookup_alter_eq. destruct (h !! p) as [d|]; [|done]. cbn. by rewrite Hf.
  - by rewrite lookup_alter_ne.
Qed.

(** Sequence numbers never change. *)
Definition same_seqs (h h' : heap) : Prop := ∀ p, seqNum <$> h' !! p = seqNum <$> h !! p.
Lemma same_keys_seqs (h h' : heap) : same_keys h h' → same_seqs h h'.
Proof.
  intros E p. specialize (E p). destruct (h !! p), (h' !! p); try done. injection E as E. cbn. congruence.
Qed.
Lemma same_seqs_alter (h : heap) (p : InstPtr) (f : DynInst → DynInst) :
  (∀ d, h !! p = Some d → seqNum (f d) = seqNum d) → same_seqs h (alter f p h).
Proof.
  intros Hf q. destruct (decide (p = q)) as [<-|Hne].
  - rewrite lookup_alter_eq. destruct (h !! p) as [d|]; [|done]. cbn. by rewrite Hf.
  - by rewrite lookup_alter_ne.
Qed.
Lemma lsn_same (h h' : heap) (p : InstPtr) : same_seqs h h' → lsn h' p = lsn h p.
Proof.
  intros E. unfold lsn. specialize (E p). destruct (h !! p), (h' !! p); by simplify_eq/=.
Qed.
Lemma lseqs_same (h h' : heap) (L : list InstPtr) : same_seqs h h' → lseqs h' L = lseqs h L.
Proof. intros E. apply list_fmap_ext. intros i p _. by apply lsn_same. Qed.
Lemma ssn_same (h h' : heap) (e : SQEntry) : same_seqs h h' → ssn h' e = ssn h e.
Proof. intros E. unfold ssn. destruct (sq_inst e); [by apply lsn_same|done]. Qed.
Lemma sseqs_same (h h' : heap) (St : list SQEntry) : same_seqs h h' → sseqs h' St = sseqs h St.
Proof. intros E. apply list_fmap_ext. intros i e _. by apply ssn_same. Qed.

(** ** Counting the older elements of a sorted list *)
Section older.
Implicit Types (l : list Z) (s x : Z).

Lemma older_app s l1 l2 : older s (l1 ++ l2) = (older s l1 + older s l2)%nat.
Proof. apply countb_app. Qed.

Lemma older_all s l : Forall (λ x, x < s) l → older s l = length l.
Proof.
  unfold older. induction 1 as [|x l Hx _ IH]; [done|]. cbn [countb]. apply Z.ltb_lt in Hx. rewrite Hx. cbn. lia.
Qed.

Lemma older_none s l : Forall (λ x, s < x) l → older s l = 0%nat.
Proof.
  unfold older. induction 1 as [|x l Hx _ IH]; [done|]. cbn [countb].
  destruct (Z.ltb_spec x s); [lia|]. exact IH.
Qed.

Lemma older_le s l : (older s l ≤ length l)%nat.
Proof. apply countb_le_length. Qed.

(** In a sorted list the older elements come first. *)
Lemma older_lookup s l k x : StronglySorted Z.lt l → l !! k = Some x → x < s ↔ (k < older s l)%nat.
Proof.
  intros Hs. revert k. induction Hs as [|y l Hs IH Hy]; intros k Hk; [done|]. unfold older. cbn [countb].
  destruct (Z.ltb_spec y s) as [Hys|Hys].
  - destruct k as [|k]; [injection Hk as ->; lia|]. cbn in Hk. rewrite (IH k Hk). unfold older. lia.
  - fold (older s l). rewrite older_none by (eapply Forall_impl; [exact Hy|]; intros z Hz; cbn in *; lia).
    destruct k as [|k]; [injection Hk as ->; lia|]. cbn in Hk.
    rewrite Forall_lookup in Hy. specialize (Hy k x Hk). lia.
Qed.
End older.

Lemma sorted_lookup_lt (l : list Z) (j k : nat) (x y : Z) :
  StronglySorted Z.lt l → l !! j = Some x → l !! k = Some y → (j < k)%nat → x < y.
Proof.
  intros Hs. revert j k. induction Hs as [|z l Hs IH Hz]; intros j k Hj Hk Hlt; [done|]. destruct k as [|k]; [lia|].
  destruct j as [|j]; [|by apply (IH j k); [..|lia]]. injection Hj as <-. rewrite Forall_lookup in Hz. by apply (Hz k).
Qed.

Lemma sorted_snoc (l : list Z) (x : Z) : StronglySorted Z.lt l → Forall (λ y, y < x) l → StronglySorted Z.lt (l ++ [x]).
Proof.
  intros Hs Hx. apply StronglySorted_app_2; [|done|by repeat constructor].
  intros y z Hy ->%list_elem_of_singleton. rewrite Forall_forall in Hx. by apply Hx.
Qed.

(** ** The parts of the invariant *)
(** A load: it stands between the stores older than it and the younger ones. *)
Definition load_ok (h : heap) (nS hS : Z) (St : list SQEntry) (p : InstPtr) : Prop :=
  ∃ d, h !! p = Some d ∧ isLoad d = true
    ∧ (sqIdx d = -1 ∧ older (seqNum d) (sseqs h St) = 0%nat
       ∨ sqIdx d = pos nS hS (older (seqNum d) (sseqs h St))).
(** A store that has executed has an address and its request, or two if it is split; it
    is no store conditional, which X86 does not have. *)
Definition executed_ok (d : DynInst) (e : SQEntry) : Prop :=
  effAddrValid d = true ∧ isStoreConditional d = false ∧ is_Some (sq_req e)
  ∧ (sq_isSplit e = true → ∃ low high, sq_sreqLow e = Some low ∧ sq_sreqHigh e = Some high
       ∧ (isMmappedIpr low = true → isMmappedIpr high = true)).
(** A store: until it commits it stands between the loads older than it and the younger
    ones. *)
Definition store_ok (h : heap) (nL hL : Z) (L : list InstPtr) (e : SQEntry) : Prop :=
  ∃ p d, sq_inst e = Some p ∧ h !! p = Some d ∧ isLoad d = false
    ∧ (canWB e = false → lqIdx d = pos nL hL (older (seqNum d) (lseqs h L)))
    ∧ (sq_size e ≠ 0 → executed_ok d e).

(** The data of an entry: 16 bytes, and no larger store than that unless it is zeros. *)
Definition data_ok (e : SQEntry) : Prop :=
  length (sq_data e) = 16%nat ∧ 0 ≤ sq_size e ∧ (isAllZeros e = false → sq_size e ≤ 16).

Record queues_ok (u : LSQUnit) (L : list InstPtr) (St : list SQEntry) : Prop := {
  qo_lq : ring (loadQueue u) (LQEntries u) (loadHead u) (loadTail u) (loads u) (Some <$> L);
  qo_sq : ring (storeQueue u) (SQEntries u) (storeHead u) (storeTail u) (stores u) St;
  qo_size : LQEntries u ≤ 256 ∧ SQEntries u ≤ 256;
  qo_loads : Forall (load_ok (u_heap u) (SQEntries u) (storeHead u) St) L;
  qo_stores : Forall (store_ok (u_heap u) (LQEntries u) (loadHead u) L) St;
  qo_lorder : StronglySorted Z.lt (lseqs (u_heap u) L);
  qo_sorder : StronglySorted Z.lt (sseqs (u_heap u) St);
  qo_data : Forall data_ok St;
}.

(** Stores waiting for the cache. *)
Definition waiting (e : SQEntry) : bool := canWB e && negb (sq_completed e).
(** The first [w] stores have been handed to the cache. *)
Record wb_ok (u : LSQUnit) (St : list SQEntry) (w : nat) : Prop := {
  wo_idx : storeWBIdx u = pos (SQEntries u) (storeHead u) w;
  wo_le : (w ≤ length St)%nat;
  wo_count : storesToWB u = Z.of_nat (countb waiting St);
  wo_sent : ∀ k e, St !! k = Some e → (k < w)%nat → canWB e = true;
  wo_unsent : ∀ k e, St !! k = Some e → (w ≤ k)%nat → sq_completed e = false;
}.

(** What commits is older than every load still in the queue. *)
Definition commit_ok (h : heap) (L : list InstPtr) (St : list SQEntry) : Prop :=
  ∀ e p, e ∈ St → canWB e = true → p ∈ L → ssn h e < lsn h p.

(** The stalling load is in the queue and younger than the store it waits for. *)
Definition stall_ok (u : LSQUnit) (L : list InstPtr) : Prop :=
  stalled u = true →
  ∃ k p, L !! k = Some p ∧ stallingLoadIdx u = pos (LQEntries u) (loadHead u) k
    ∧ stallingStoreIsn u < lsn (u_heap u) p.

Definition violator_ok (u : LSQUnit) : Prop := ∀ v, memDepViolator u = Some v → is_Some (u_heap u !! v).

(** The store being handed over: partly sent, or refused by the cache. *)
Definition sending (u : LSQUnit) : bool := isStoreBlocked u || hasPendingPkt u.
Record send_ok (u : LSQUnit) (St : list SQEntry) (w : nat) : Prop := {
  so_retry : isStoreBlocked u = bool_decide (is_Some (retryPkt u));
  so_pending : hasPendingPkt u = bool_decide (is_Some (pendingPkt u));
  so_excl : isStoreBlocked u && hasPendingPkt u = false;
  so_current : sending u = true → ∃ e, St !! w = Some e ∧ canWB e = true ∧ sq_size e ≠ 0;
  so_fresh : ∀ k e p, St !! k = Some e → (w ≤ k)%nat → (sending u = false ∨ k ≠ w) → sq_inst e = Some p →
             sq_committed e = false ∧ (memData <$> u_heap u !! p) = Some None;
}.

Record lsq_inv (u : LSQUnit) (L : list InstPtr) (St : list SQEntry) (w : nat) : Prop := {
  li_queues : queues_ok u L St;
  li_wb : wb_ok u St w;
  li_commit : commit_ok (u_heap u) L St;
  li_stall : stall_ok u L;
  li_violator : violator_ok u;
  li_send : send_ok u St w;
}.

(** ** Changes to the instructions *)
(** An instruction keeps its place; it may get an address. *)
Definition grown (d d' : DynInst) : Prop :=
  (seqNum d', lqIdx d', sqIdx d', staticInst d') = (seqNum d, lqIdx d, sqIdx d, staticInst d)
  ∧ (effAddrValid d = true → effAddrValid d' = true).
Definition grows (h h' : heap) : Prop :=
  ∀ p, match h !! p, h' !! p with Some d, Some d' => grown d d' | None, None => True | _, _ => False end.

Lemma same_keys_grows (h h' : heap) : same_keys h h' → grows h h'.
Proof.
  intros E p. specialize (E p). destruct (h !! p), (h' !! p); try done. injection E as ? ? ? ? ?. split; congruence.
Qed.
Lemma grows_seqs (h h' : heap) : grows h h' → same_seqs h h'.
Proof.
  intros E p. specialize (E p). destruct (h !! p), (h' !! p); try done. destruct E as [[= ? ? ? ?] _]. cbn. congruence.
Qed.
Lemma grows_lookup (h h' : heap) (p : InstPtr) (d : DynInst) :
  grows h h' → h !! p = Some d → ∃ d', h' !! p = Some d' ∧ grown d d'.
Proof. intros E Hp. specialize (E p). rewrite Hp in E. destruct (h' !! p) as [d'|]; [by exists d'|done]. Qed.

Section frame.
Context (h h' : heap) (Hk : grows h h').

Lemma load_ok_frame (nS hS : Z) (St : list SQEntry) (p : InstPtr) : load_ok h nS hS St p → load_ok h' nS hS St p.
Proof.
  intros (d & Hp & Hl & Hs). destruct (grows_lookup h h' p d Hk Hp) as (d' & Hp' & [= E1 E2 E3 E4] & _).
  exists d'. unfold isLoad in *. rewrite (sseqs_same h h' St (grows_seqs _ _ Hk)), E1, E3, E4. done.
Qed.

Lemma store_ok_frame (nL hL : Z) (L : list InstPtr) (e : SQEntry) : store_ok h nL hL L e → store_ok h' nL hL L e.
Proof.
  intros (p & d & Hi & Hp & Hl & Hq & Ha). destruct (grows_lookup h h' p d Hk Hp) as (d' & Hp' & [= E1 E2 E3 E4] & E5).
  exists p, d'. unfold isLoad in *. rewrite (lseqs_same h h' L (grows_seqs _ _ Hk)), E1, E2, E4.
  split_and!; try done. intros Hx. destruct (Ha Hx) as (? & ? & ?). split; [by apply E5|]. unfold isStoreConditional in *. by rewrite E4.
Qed.

Lemma commit_ok_frame (L : list InstPtr) (St : list SQEntry) : commit_ok h L St → commit_ok h' L St.
Proof.
  intros Hc e p He Hw Hp. pose proof (grows_seqs _ _ Hk) as Hs. rewrite (ssn_same h h' e Hs), (lsn_same h h' p Hs). by apply Hc.
Qed.
End frame.

(** The change of the instruction [p] points at leaves all others alone. *)
Definition only_at (p : InstPtr) (h h' : heap) : Prop := same_seqs h h' ∧ ∀ q, q ≠ p → h' !! q = h !! q.

Lemma only_at_load (h h' : heap) (p q : InstPtr) (nS hS : Z) (St : list SQEntry) :
  only_at p h h' → q ≠ p → load_ok h nS hS St q → load_ok h' nS hS St q.
Proof.
  intros [Hs Ho] Hq (d & Hd & Hl & Hi). exists d. rewrite (Ho q Hq), (sseqs_same h h' St Hs). done.
Qed.
Lemma only_at_store (h h' : heap) (p : InstPtr) (nL hL : Z) (L : list InstPtr) (e : SQEntry) :
  only_at p h h' → sq_inst e ≠ Some p → store_ok h nL hL L e → store_ok h' nL hL L e.
Proof.
  intros [Hs Ho] Hq (q & d & Hi & Hd & Hr). exists q, d. rewrite (Ho q), (lseqs_same h h' L Hs) by congruence. done.
Qed.
Lemma only_at_commit (h h' : heap) (p : InstPtr) (L : list InstPtr) (St : list SQEntry) :
  only_at p h h' → commit_ok h L St → commit_ok h' L St.
Proof. intros [Hs _] Hc e q He Hw Hq. rewrite (ssn_same h h' e Hs), (lsn_same h h' q Hs). by apply Hc. Qed.

Lemma lseqs_app (h : heap) (L1 L2 : list InstPtr) : lseqs h (L1 ++ L2) = lseqs h L1 ++ lseqs h L2.
Proof. apply fmap_app. Qed.
Lemma sseqs_app (h : heap) (S1 S2 : list SQEntry) : sseqs h (S1 ++ S2) = sseqs h S1 ++ sseqs h S2.
Proof. apply fmap_app. Qed.

(** ** Fields the invariant does not mention *)
Definition lsq_view (u : LSQUnit) :=
  (u_heap u, storeQueue u, loadQueue u, (LQEntries u, SQEntries u, loads u, stores u, storesToWB u),
   (loadHead u, loadTail u, storeHead u, storeWBIdx u, storeTail u),
   (stalled u, stallingStoreIsn u, stallingLoadIdx u), (retryPkt u, isStoreBlocked u),
   memDepViolator u, (hasPendingPkt u, pendingPkt u)).

Lemma lsq_inv_view (u u' : LSQUnit) (L : list InstPtr) (St : list SQEntry) (w : nat) :
  lsq_view u' = lsq_view u → lsq_inv u L St w → lsq_inv u' L St w.
Proof.
  destruct u, u'. unfold lsq_view. cbn. intros E. simplify_eq. intros [[] [] ? ? ? []]. split; by try split.
Qed.

(** A change of the instructions that keeps their places and the data of the stores. *)
Lemma lsq_inv_grows (u : LSQUnit) (h' : heap) (L : list InstPtr) (St : list SQEntry) (w : nat) :
  lsq_inv u L St w → grows (u_heap u) h' →
  (∀ e p, e ∈ St → sq_inst e = Some p → memData <$> h' !! p = memData <$> u_heap u !! p) →
  lsq_inv (u <| u_heap := h' |>) L St w.
Proof.
  intros [[R1 R2 Hsz Hl Hs Ho1 Ho2 Hda] [W1 W2 W3 W4 W5] Hc Hst Hv [S1 S2 S3 S4 S5]] Hk Hm.
  pose proof (grows_seqs _ _ Hk) as Hq. split; [split|by split|by apply (commit_ok_frame (u_heap u))|..|split]; try done.
  - eapply Forall_impl; [exact Hl|]. intros p. by apply load_ok_frame.
  - eapply Forall_impl; [exact Hs|]. intros e. by apply store_ok_frame.
  - change (StronglySorted Z.lt (lseqs h' L)). by rewrite (lseqs_same _ _ L Hq).
  - change (StronglySorted Z.lt (sseqs h' St)). by rewrite (sseqs_same _ _ St Hq).
  - intros Ht. destruct (Hst Ht) as (k & p & Hk' & Hx & Hlt). exists k, p. split; [done|]. split; [done|].
    change (stallingStoreIsn u < lsn h' p). by rewrite (lsn_same _ _ p Hq).
  - intros v Ev. destruct (Hv v Ev) as [d Hd]. destruct (grows_lookup _ _ _ _ Hk Hd) as (d' & Hd' & _). by exists d'.
  - intros k e p He Hkw Hx Hp. destruct (S5 k e p He Hkw Hx Hp) as [? Hmd]. split; [done|]. change (memData <$> h' !! p = Some None).
    rewrite (Hm e p); [done|by apply list_elem_of_lookup_2 with k|done].
Qed.

Lemma lsq_inst_ok (u : LSQUnit) (p : InstPtr) (d : DynInst) : u_heap u !! p = Some d → lsq_inst p u = Ok d.
Proof. intros H. unfold lsq_inst. by rewrite H. Qed.

Lemma on_inst_heap (u : LSQUnit) (p : InstPtr) (f : DynInst → DynInst) : u_heap (on_inst p f u) = alter f p (u_heap u).
Proof. done. Qed.

(** Setting another flag keeps the key. *)
Lemma lkey_assign (f : Flags) (b : bool) (d : DynInst) : f ≠ EffAddrValid → lkey (fl_assign f b d) = lkey d.
Proof.
  intros Hf. unfold lkey, effAddrValid, get_fl. change (seqNum (fl_assign f b d)) with (seqNum d).
  enough (E : bit_get (Flags_idx EffAddrValid) (instFlags (fl_assign f b d)) = bit_get (Flags_idx EffAddrValid) (instFlags d)) by (by rewrite E).
  unfold fl_assign. destruct b; cbn [instFlags]; unfold bit_get, bit_set, bit_reset; cbn.
  - rewrite N.setbit_eqb. by destruct f.
  - rewrite N.clearbit_eqb. by destruct f; rewrite ?andb_true_r.
Qed.

(** A load is no store. *)
Lemma load_not_store (u : LSQUnit) (L : list InstPtr) (St : list SQEntry) (w : nat) (p : InstPtr) (e : SQEntry) :
  lsq_inv u L St w → p ∈ L → e ∈ St → sq_inst e ≠ Some p.
Proof.
  intros [[_ _ _ Hl Hs _ _ _] _ _ _ _ _] Hp He Hi. rewrite Forall_forall in Hl. rewrite Forall_forall in Hs.
  destruct (Hl p Hp) as (d & Hd & Hld & _), (Hs e He) as (q & d' & Hq & Hd' & Hld' & _). congruence.
Qed.

(** A change of a load in the queue. *)
Lemma lsq_inv_load (u : LSQUnit) (f : DynInst → DynInst) (L : list InstPtr) (St : list SQEntry) (w : nat) (p : InstPtr) :
  lsq_inv u L St w → p ∈ L → (∀ d, lkey (f d) = lkey d) → lsq_inv (on_inst p f u) L St w.
Proof.
  intros Hi Hp Hf. apply (lsq_inv_grows u (alter f p (u_heap u))); [done|by apply same_keys_grows, same_keys_alter|].
  intros e q He Hq. rewrite lookup_alter_ne; [done|]. intros <-. by apply (load_not_store u L St w p e Hi).
Qed.

(** * Insertion into the load and store queues

    Insertion appends to the lists of [LSQInv.v], and the parts of the invariant an
    operation does not touch. *)
From stdpp Require Import sorting list.
Local Open Scope Z_scope.

Section ops.
Context (curCycle : Z).
Implicit Types (u : LSQUnit) (L : list InstPtr) (St : list SQEntry) (p : InstPtr).

(** ** Parts that do not change *)
Lemma violator_frame u u' :
  violator_ok u → memDepViolator u' = memDepViolator u → same_seqs (u_heap u) (u_heap u') → violator_ok u'.
Proof.
  intros Hv E Hq v Hvv. rewrite E in Hvv. destruct (Hv v Hvv) as [d Hd]. specialize (Hq v). rewrite Hd in Hq.
  destruct (u_heap u' !! v); [by eexists|done].
Qed.

Lemma send_frame u u' St (w : nat) :
  send_ok u St w → isStoreBlocked u' = isStoreBlocked u → retryPkt u' = retryPkt u →
  hasPendingPkt u' = hasPendingPkt u → pendingPkt u' = pendingPkt u →
  (∀ e p, e ∈ St → sq_inst e = Some p → memData <$> u_heap u' !! p = memData <$> u_heap u !! p) → send_ok u' St w.
Proof.
  intros [S1 S2 S3 S4 S5] E1 E2 E3 E4 Hm. unfold sending in *. split; unfold sending; rewrite ?E1, ?E2, ?E3, ?E4; try done.
  intros k e p Hk Hw Hs Hp. rewrite (Hm e p); [by apply (S5 k)|by apply list_elem_of_lookup_2 with k|done].
Qed.

(** ** Insertion *)
Lemma tail_not_head {A} (q : list A) (n h t c : Z) (l : list A) :
  ring q n h t c l → n ≤ 256 → Z.of_nat (length l) + 1 < n → (u32 (t + 1) mod n =? h) = false.
Proof.
  intros R Hn Hroom. pose proof (ring_tail_range n _ _ _ _ _ R) as Ht. destruct R as [_ Hh _ _ -> _].
  rewrite u32_small by lia. rewrite <- incrIdx_mod, pos_S by done. apply Z.eqb_neq. intros E.
  rewrite <- (pos_0 n h Hh) in E at 2. apply (pos_inj n h Hh) in E; lia.
Qed.

Lemma ring_small {A} (q : list A) (n h t c : Z) (l : list A) : ring q n h t c l → n ≤ 256 → u32 c = c ∧ c < n.
Proof. intros [? ? ? -> ? ?] Hn. rewrite u32_small by lia. lia. Qed.

(** Everything in flight is older than the instruction. *)
Definition youngest (u : LSQUnit) L St (s : Z) : Prop :=
  Forall (λ x, x < s) (lseqs (u_heap u) L) ∧ Forall (λ x, x < s) (sseqs (u_heap u) St).

Section insert.
Context (u : LSQUnit) (L : list InstPtr) (St : list SQEntry) (w : nat) (p : InstPtr) (d : DynInst).
Context (Hi : lsq_inv u L St w) (Hp : u_heap u !! p = Some d) (Hy : youngest u L St (seqNum d)).

Lemma insert_notin : p ∉ L ∧ ∀ e, e ∈ St → sq_inst e ≠ Some p.
Proof.
  destruct Hy as [HL HS]. assert (E : lsn (u_heap u) p = seqNum d) by (unfold lsn; by rewrite Hp). split.
  - intros Hin. rewrite Forall_forall in HL. specialize (HL (lsn (u_heap u) p)).
    rewrite E in HL. enough (seqNum d < seqNum d) by lia. apply HL. apply list_elem_of_fmap. by exists p.
  - intros e He Hs. rewrite Forall_forall in HS. specialize (HS (ssn (u_heap u) e)). unfold ssn in HS at 2.
    rewrite Hs, E in HS. enough (seqNum d < seqNum d) by lia. apply HS. apply list_elem_of_fmap. exists e.
    split; [|done]. unfold ssn. by rewrite Hs, E.
Qed.

(** The instructions after the insertion of [p] with new indices. *)
Definition indexed (lq sq : Z) : DynInst → DynInst := λ d,
  setInLSQ (d <| lqIdx := lq |> <| sqIdx := sq |> <| addedToLSQTimestamp := curCycle |>).

Lemma indexed_only (lq sq : Z) : only_at p (u_heap u) (alter (indexed lq sq) p (u_heap u)).
Proof. split; [by apply same_seqs_alter|]. intros q Hq. by apply lookup_alter_ne. Qed.

Lemma insert_stall u' :
  stall_ok u L → stalled u' = stalled u → stallingLoadIdx u' = stallingLoadIdx u →
  stallingStoreIsn u' = stallingStoreIsn u → LQEntries u' = LQEntries u → loadHead u' = loadHead u →
  same_seqs (u_heap u) (u_heap u') → ∀ L', L `prefix_of` L' → stall_ok u' L'.
Proof.
  intros Hs E1 E2 E3 E4 E5 Hq L' [k ->] Ht. rewrite E1 in Ht. destruct (Hs Ht) as (i & q & Hl & Hx & Hlt).
  exists i, q. rewrite E2, E3, E4, E5, (lsn_same _ _ q Hq). split; [|done]. by apply lookup_app_l_Some.
Qed.
End insert.

Lemma lsq_insertLoad_ok u L St (w : nat) p (d : DynInst) :
  lsq_inv u L St w → u_heap u !! p = Some d → isMemRef d = true → isLoad d = true →
  youngest u L St (seqNum d) → Z.of_nat (length L) + 1 < LQEntries u →
  ∃ u', lsq_insert curCycle p u = Ok u' ∧ lsq_inv u' (L ++ [p]) St w
    ∧ u_heap u' = alter (indexed (loadTail u) (if stores u =? 0 then -1 else storeTail u)) p (u_heap u).
Proof.
  intros Hi Hp Hm Hl Hy Hroom. destruct (insert_notin u L St p d Hp Hy) as [HpL HpS].
  pose proof Hi as [[Hlq Hsq [HnL HnS] Hloads Hstores Hlo Hso Hda] Hwb Hc Hs Hv Hse].
  assert (Hroom' : Z.of_nat (length (Some <$> L)) + 1 < LQEntries u) by (by rewrite length_fmap).
  destruct (ring_push _ _ _ _ _ _ (Some p) Hlq Hroom') as [Eset Hlq'].
  destruct (ring_small _ _ _ _ _ _ Hlq HnL) as [Eu Hlt].
  unfold lsq_insert, lsq_insertLoad, lsq_inst. rewrite Hp. cbn [deref mbind res_bind].
  rewrite Hm, Hl, (tail_not_head _ _ _ _ _ _ Hlq HnL Hroom'), Eu. cbn [assert negb orb mbind res_bind].
  apply Z.ltb_lt in Hlt. rewrite Hlt. cbn [assert mbind res_bind deref]. cbn. rewrite Eset. cbn.
  eexists. split; [reflexivity|]. set (u' := on_inst p setInLSQ _).
  set (f := indexed (loadTail u) (if stores u =? 0 then -1 else storeTail u)).
  assert (Hh : u_heap u' = alter f p (u_heap u)) by (apply alter_alter_eq).
  split; [|exact Hh]. assert (Ho : only_at p (u_heap u) (u_heap u')) by (rewrite Hh; apply indexed_only).
  pose proof Ho as [Hq Hne]. assert (Hp' : u_heap u' !! p = Some (f d)) by (by rewrite Hh, lookup_alter_eq, Hp).
  destruct Hy as [HyL HyS]. split.
  - split; [by rewrite fmap_app|exact Hsq|by split| | | | |done].
    + apply Forall_app. split; [|constructor; [|done]].
      * apply Forall_forall. intros q Hin. apply (only_at_load (u_heap u) _ p); [done|congruence|].
        rewrite Forall_forall in Hloads. by apply Hloads.
      * exists (f d). split; [done|]. split; [done|]. change (seqNum (f d)) with (seqNum d).
        rewrite (sseqs_same _ _ St Hq), (older_all _ _ HyS). unfold sseqs. rewrite length_fmap.
        change (sqIdx (f d)) with (if stores u =? 0 then -1 else storeTail u).
        rewrite (ring_count _ _ _ _ _ _ Hsq), (ring_tail _ _ _ _ _ _ Hsq).
        destruct (Z.eqb_spec (Z.of_nat (length St)) 0) as [E0|E0]; [left; split; [done|lia]|by right].
    + apply Forall_forall. intros e He. apply (only_at_store (u_heap u) _ p); [done|by apply HpS|].
      rewrite Forall_forall in Hstores. destruct (Hstores e He) as (q & dq & Hin & Hdq & Hld & Hix & Ha).
      exists q, dq. split_and!; try done. intros Hw. rewrite (Hix Hw), lseqs_app, older_app.
      rewrite (older_none _ (lseqs _ [p])), Nat.add_0_r; [done|]. constructor; [|done].
      rewrite Forall_forall in HyS. unfold lsn. rewrite Hp. apply HyS. apply list_elem_of_fmap. exists e.
      split; [|done]. unfold ssn, lsn. by rewrite Hin, Hdq.
    + rewrite lseqs_app, (lseqs_same _ _ L Hq), (lseqs_same _ _ [p] Hq). apply sorted_snoc; [done|].
      unfold lsn. by rewrite Hp.
    + by rewrite (sseqs_same _ _ St Hq).
  - by destruct Hwb.
  - intros e q He Hw Hin. rewrite (ssn_same _ _ e Hq), (lsn_same _ _ q Hq).
    apply elem_of_app in Hin as [Hin| ->%list_elem_of_singleton]; [by apply Hc|].
    unfold lsn at 1. rewrite Hp. rewrite Forall_forall in HyS. apply HyS. apply list_elem_of_fmap. by exists e.
  - apply (insert_stall u L u'); try done. by exists [p].
  - by apply (violator_frame u).
  - apply (send_frame u); [done..|]. intros e q He Hin. rewrite Hne; [done|]. intros ->. by apply (HpS e).
Qed.

Lemma lsq_insertStore_ok u L St (w : nat) p (d : DynInst) :
  lsq_inv u L St w → u_heap u !! p = Some d → isMemRef d = true → isLoad d = false → isStore d = true →
  memData d = None → youngest u L St (seqNum d) → Z.of_nat (length St) + 1 < SQEntries u →
  ∃ u', lsq_insert curCycle p u = Ok u' ∧ lsq_inv u' L (St ++ [SQEntry_new (Some p)]) w
    ∧ u_heap u' = alter (indexed (loadTail u) (storeTail u)) p (u_heap u).
Proof.
  intros Hi Hp Hm Hl Hst Hmd Hy Hroom. destruct (insert_notin u L St p d Hp Hy) as [HpL HpS].
  pose proof Hi as [[Hlq Hsq [HnL HnS] Hloads Hstores Hlo Hso Hda] Hwb Hc Hs Hv Hse].
  destruct (ring_push _ _ _ _ _ _ (SQEntry_new (Some p)) Hsq Hroom) as [Eset Hsq'].
  destruct (ring_small _ _ _ _ _ _ Hsq HnS) as [Eu Hlt].
  unfold lsq_insert, lsq_insertStore, lsq_inst. rewrite Hp. cbn [deref mbind res_bind].
  rewrite Hm, Hl, Hst, (tail_not_head _ _ _ _ _ _ Hsq HnS Hroom), Eu. cbn [assert negb orb mbind res_bind].
  apply Z.ltb_lt in Hlt. rewrite Hlt. cbn [assert mbind res_bind deref]. cbn. rewrite Eset. cbn.
  eexists. split; [reflexivity|]. set (u' := on_inst p setInLSQ _). set (f := indexed (loadTail u) (storeTail u)).
  assert (Hh : u_heap u' = alter f p (u_heap u)) by (apply alter_alter_eq).
  split; [|exact Hh]. assert (Ho : only_at p (u_heap u) (u_heap u')) by (rewrite Hh; apply indexed_only).
  pose proof Ho as [Hq Hne]. assert (Hp' : u_heap u' !! p = Some (f d)) by (by rewrite Hh, lookup_alter_eq, Hp).
  assert (Esn : lsn (u_heap u) p = seqNum d) by (unfold lsn; by rewrite Hp). destruct Hy as [HyL HyS]. split.
  - split; [exact Hlq|done|by split| | | | |apply Forall_app; split; [done|by repeat constructor]].
    + apply Forall_forall. intros q Hin. apply (only_at_load (u_heap u) _ p); [done|congruence|].
      rewrite Forall_forall in Hloads. destruct (Hloads q Hin) as (dq & Hdq & Hld & Hix). exists dq.
      split; [done|]. split; [done|]. rewrite sseqs_app, older_app, (older_none _ (sseqs _ [_])), Nat.add_0_r; [done|].
      constructor; [|done]. unfold ssn. cbn. rewrite Esn. rewrite Forall_forall in HyL. apply HyL.
      apply list_elem_of_fmap. exists q. split; [|done]. unfold lsn. by rewrite Hdq.
    + apply Forall_app. split; [|constructor; [|done]].
      * apply Forall_forall. intros e He. apply (only_at_store (u_heap u) _ p); [done|by apply HpS|].
        rewrite Forall_forall in Hstores. by apply Hstores.
      * exists p, (f d). split_and!; [done..| |done]. intros _. change (seqNum (f d)) with (seqNum d).
        rewrite (lseqs_same _ _ L Hq), (older_all _ _ HyL). change (lqIdx (f d)) with (loadTail u).
        rewrite (ring_tail _ _ _ _ _ _ Hlq). unfold lseqs. by rewrite !length_fmap.
    + by rewrite (lseqs_same _ _ L Hq).
    + rewrite sseqs_app, (sseqs_same _ _ St Hq), (sseqs_same _ _ [_] Hq). apply sorted_snoc; [done|].
      unfold ssn. cbn. by rewrite Esn.
  - destruct Hwb as [W1 W2 W3 W4 W5]. split; [done|rewrite length_app; cbn; lia| | |].
    + change (storesToWB u = Z.of_nat (countb waiting (St ++ [SQEntry_new (Some p)]))). rewrite countb_app. cbn.
      by rewrite Nat.add_0_r.
    + intros k e He Hk. apply (W4 k); [|done]. by rewrite lookup_app_l in He by lia.
    + intros k e [He|[_ [_ <-]%list_lookup_singleton_Some]]%lookup_app_Some Hk; [by apply (W5 k)|done].
  - intros e q He Hw Hin. rewrite (ssn_same _ _ e Hq), (lsn_same _ _ q Hq).
    apply elem_of_app in He as [He| ->%list_elem_of_singleton]; [by apply Hc|done].
  - apply (insert_stall u L u'); try done.
  - by apply (violator_frame u).
  - apply (send_frame u u') in Hse as [S1 S2 S3 S4 S5]; [|done..|].
    + split; [done..| |].
      * intros Hx. destruct (S4 Hx) as (e & He & Hr). exists e. split; [by apply lookup_app_l_Some|done].
      * intros k e q [He|[_ [_ <-]%list_lookup_singleton_Some]]%lookup_app_Some Hk Hx Hin; [by apply (S5 k)|].
        injection Hin as <-. rewrite Hp'. split; [done|]. cbn. by rewrite Hmd.
    + intros e q He Hin. rewrite Hne; [done|]. intros ->. by apply (HpS e).
Qed.
End ops.
