(* ===== verification/LSQCommit.v ===== *)
(** * Commit in the load and store queues

    When commit reports the youngest retired instruction, the stores up to it may write
    to memory and the loads up to it leave the queue. *)

From S2P Require Import Prelude Regs DynInst Ring LSQ LSQInv.
From stdpp Require Import sorting list.
Local Open Scope Z_scope.

Implicit Types (u : LSQUnit) (L : list InstPtr) (St : list SQEntry) (p : InstPtr).

(** ** Splitting at a sequence number *)
Lemma split_seq {A} (f : A → Z) (l : list A) (y : Z) :
  StronglySorted Z.lt (f <$> l) →
  l = filter (λ x, f x ≤ y) l ++ filter (λ x, y < f x) l.
Proof.
  induction l as [|x l IH]; [done|]. cbn [fmap list_fmap]. intros [Hx Hs]%StronglySorted_cons. rewrite !filter_cons.
  destruct (decide (f x ≤ y)) as [Hle|Hgt].
  - rewrite (decide_False (P := y < f x)) by lia. cbn. f_equal. by apply IH.
  - rewrite (decide_True (P := y < f x)) by lia.
    assert (Hall : Forall (λ z, y < f z) l).
    { rewrite Forall_fmap in Hx. eapply Forall_impl; [exact Hx|]. intros z Hz. cbn in *. lia. }
    rewrite (filter_void (λ z, f z ≤ y)), (filter_keep (λ z, y < f z)); [done|done|].
    eapply Forall_impl; [exact Hall|]. intros z Hz. cbn in *. lia.
Qed.
Lemma filter_le_Forall {A} (f : A → Z) (l : list A) (y : Z) : Forall (λ x, f x ≤ y) (filter (λ x, f x ≤ y) l).
Proof. apply Forall_forall. intros x [Hx _]%list_elem_of_filter. done. Qed.
Lemma filter_gt_Forall {A} (f : A → Z) (l : list A) (y : Z) : Forall (λ x, y < f x) (filter (λ x, y < f x) l).
Proof. apply Forall_forall. intros x [Hx _]%list_elem_of_filter. done. Qed.

(** ** Commit *)
Definition markWB (h : heap) (y : Z) (e : SQEntry) : SQEntry := if ssn h e <=? y then e <| canWB := true |> else e.
Definition newly (h : heap) (y : Z) (e : SQEntry) : bool := negb (canWB e) && (ssn h e <=? y).

Lemma canWB_same (e : SQEntry) : canWB e = true → e <| canWB := true |> = e.
Proof. intros H. destruct e. cbn in *. by subst. Qed.
Lemma markWB_canWB (h : heap) (y : Z) (e : SQEntry) : canWB e = true → markWB h y e = e.
Proof. intros H. unfold markWB. rewrite (canWB_same e H). by destruct (_ <=? _). Qed.

Lemma commitStores_loop_ok u (y : Z) (A B : list SQEntry) (fuel : nat) :
  ring (storeQueue u) (SQEntries u) (storeHead u) (storeTail u) (stores u) (A ++ B) →
  Forall (λ e, ∃ p d, sq_inst e = Some p ∧ u_heap u !! p = Some d) B →
  StronglySorted Z.lt (sseqs (u_heap u) B) → (length B < fuel)%nat →
  ∃ q, commitStores_loop fuel y (pos (SQEntries u) (storeHead u) (length A)) u
       = Ok (u <| storeQueue := q |> <| storesToWB := storesToWB u + Z.of_nat (countb (newly (u_heap u) y) B) |>)
    ∧ ring q (SQEntries u) (storeHead u) (storeTail u) (stores u) (A ++ (markWB (u_heap u) y <$> B)).
Proof.
  revert A u fuel. induction B as [|e B IH]; intros A u fuel R Hal Hs Hf; (destruct fuel as [|fuel]; [cbn in Hf; lia|]);
    cbn [commitStores_loop]; rewrite (ring_pos_eqb _ _ _ _ _ _ _ R) by (rewrite length_app; lia).
  - rewrite bool_decide_true by (rewrite length_app; cbn; lia). exists (storeQueue u). split; [|done].
    destruct u. cbn. by rewrite Z.add_0_r.
  - rewrite bool_decide_false by (rewrite length_app; cbn; lia).
    assert (Hk : (A ++ e :: B) !! length A = Some e) by (rewrite lookup_app_r, Nat.sub_diag; [done|lia]).
    unfold store_at. rewrite (ring_get _ _ _ _ _ _ _ _ R Hk). cbn [mbind res_bind].
    inversion Hal as [|? ? (p & d & Hp & Hd) Hal']; subst.
    cbn [sseqs fmap list_fmap] in Hs. apply StronglySorted_cons in Hs as [Hlt Hs].
    assert (En : ssn (u_heap u) e = seqNum d) by (unfold ssn, lsn; by rewrite Hp, Hd).
    unfold assert_inst. rewrite Hp. cbn [mbind res_bind]. unfold incrStIdx. cbn [length] in Hf.
    assert (Hsnoc : ∀ e' C, A ++ e' :: C = (A ++ [e']) ++ C) by (intros; by rewrite <- app_assoc).
    assert (Hlen : ∀ e' : SQEntry, S (length A) = length (A ++ [e'])) by (intros; rewrite length_app; cbn; lia).
    destruct (canWB e) eqn:Ew.
    + rewrite pos_S by apply (ring_head _ _ _ _ _ _ R). rewrite (Hlen e). rewrite Hsnoc in R.
      destruct (IH (A ++ [e]) u fuel R Hal' Hs ltac:(lia)) as (q & E & Hq). exists q. split.
      * rewrite E. cbn [countb]. unfold newly at 2. by rewrite Ew.
      * cbn [fmap list_fmap]. by rewrite markWB_canWB, Hsnoc.
    + unfold lsq_inst. rewrite Hd. cbn [deref mbind res_bind]. cbn [fmap list_fmap countb]. unfold newly at 1, markWB at 1.
      rewrite Ew, En. destruct (Z.ltb_spec y (seqNum d)) as [Hy|Hy].
      * exists (storeQueue u). rewrite (proj2 (Z.leb_gt _ _)) by lia. cbn [andb negb Nat.add].
        assert (Hno : Forall (λ e, y < ssn (u_heap u) e) B).
        { unfold sseqs in Hlt. rewrite Forall_fmap in Hlt. eapply Forall_impl; [exact Hlt|]. intros x Hx. cbn in Hx. lia. }
        rewrite (proj2 (countb_zero _ _)).
        2: { intros x Hx. rewrite Forall_forall in Hno. specialize (Hno x Hx). unfold newly.
             rewrite (proj2 (Z.leb_gt _ _)) by lia. apply andb_false_r. }
        split; [destruct u; cbn; by rewrite Z.add_0_r|].
        replace (markWB (u_heap u) y <$> B) with B; [done|]. symmetry. rewrite <- (list_fmap_id B) at 2.
        apply list_fmap_ext. intros i x Hx. rewrite Forall_lookup in Hno. specialize (Hno i x Hx). unfold markWB.
        by rewrite (proj2 (Z.leb_gt _ _)) by lia.
      * rewrite (proj2 (Z.leb_le _ _)) by lia. cbn [andb negb].
        destruct (ring_set _ _ _ _ _ _ (length A) (e <| canWB := true |>) R ltac:(rewrite length_app; cbn; lia)) as [Eset R'].
        rewrite insert_app_r_alt, Nat.sub_diag in R' by lia. cbn [list_insert insert] in R'.
        unfold on_store. rewrite (ring_get _ _ _ _ _ _ _ _ R Hk). cbn [mbind res_bind]. rewrite Eset. cbn [mbind res_bind].
        set (u1 := u <| storeQueue := _ |> <| storesToWB := _ |>).
        change (SQEntries (u <| storeQueue := _ |>)) with (SQEntries u1). change (SQEntries u) with (SQEntries u1) at 1.
        change (storeHead u) with (storeHead u1) at 1. rewrite pos_S by apply (ring_head _ _ _ _ _ _ R).
        rewrite (Hlen (e <| canWB := true |>)). rewrite Hsnoc in R'.
        destruct (IH (A ++ [e <| canWB := true |>]) u1 fuel R' Hal' Hs ltac:(lia)) as (q & E & Hq). exists q. split.
        -- rewrite E, Nat2Z.inj_add, Z.add_assoc. reflexivity.
        -- by rewrite Hsnoc.
Qed.

Lemma pos_add (n h : Z) (a k : nat) : 0 ≤ h < n → pos n (pos n h a) k = pos n h (a + k).
Proof. intros Hh. unfold pos. rewrite Z.add_mod_idemp_l by lia. f_equal. lia. Qed.

Lemma commitLoads_loop_ok u (y : Z) (A B : list InstPtr) (fuel : nat) :
  ring (loadQueue u) (LQEntries u) (loadHead u) (loadTail u) (loads u) (Some <$> (A ++ B)) →
  Forall (λ p, is_Some (u_heap u !! p)) (A ++ B) →
  Forall (λ p, lsn (u_heap u) p ≤ y) A → Forall (λ p, y < lsn (u_heap u) p) B → (length A < fuel)%nat →
  ∃ q, commitLoads_loop fuel y u
       = Ok (u <| loadQueue := q |> <| loadHead := pos (LQEntries u) (loadHead u) (length A) |>
               <| loads := loads u - Z.of_nat (length A) |>)
    ∧ ring q (LQEntries u) (pos (LQEntries u) (loadHead u) (length A)) (loadTail u)
        (loads u - Z.of_nat (length A)) (Some <$> B).
Proof.
  revert u fuel. induction A as [|p A IH]; intros u fuel R Hal HA HB Hf; (destruct fuel as [|fuel]; [cbn in Hf; lia|]);
    cbn [commitLoads_loop].
  - exists (loadQueue u). rewrite pos_0, Z.sub_0_r by apply (ring_head _ _ _ _ _ _ R).
    split; [|done]. cbn [app] in R, Hal. replace (Ok (u <| loadQueue := _ |> <| loadHead := _ |> <| loads := _ |>)) with (Ok u) by (by destruct u).
    pose proof (ring_count _ _ _ _ _ _ R) as Hc. rewrite length_fmap in Hc. destruct B as [|p B]; [by rewrite Hc|].
    cbn [length] in Hc. rewrite (proj2 (Z.eqb_neq _ _)) by lia.
    inversion Hal as [|? ? [d Hd] _]; subst. inversion HB as [|? ? Hy _]; subst.
    unfold load_at. pose proof (ring_get _ _ _ _ _ _ 0%nat (Some p) R eq_refl) as Hg.
    rewrite pos_0 in Hg by apply (ring_head _ _ _ _ _ _ R). rewrite Hg. cbn [mbind res_bind deref].
    unfold lsq_inst. rewrite Hd. cbn [mbind res_bind deref]. unfold lsn in Hy. rewrite Hd in Hy.
    by rewrite (proj2 (Z.leb_gt _ _)) by lia.
  - inversion Hal as [|? ? [d Hd] Hal']; subst. inversion HA as [|? ? Hy HA']; subst.
    pose proof (ring_head _ _ _ _ _ _ R) as Hh.
    pose proof (ring_count _ _ _ _ _ _ R) as Hc. cbn in Hc. rewrite (proj2 (Z.eqb_neq _ _)) by lia.
    pose proof (ring_get _ _ _ _ _ _ 0%nat (Some p) R eq_refl) as Hg. rewrite pos_0 in Hg by done.
    unfold load_at. rewrite Hg. cbn [mbind res_bind deref].
    unfold lsq_inst. rewrite Hd. cbn [mbind res_bind deref]. unfold lsn in Hy. rewrite Hd in Hy.
    rewrite (proj2 (Z.leb_le _ _)) by lia. unfold commitLoad. rewrite Hg. cbn [mbind res_bind].
    unfold lsq_inst. rewrite Hd. cbn [mbind res_bind deref].
    destruct (ring_set _ _ _ _ _ _ 0%nat None R ltac:(cbn; lia)) as [Eset R']. rewrite pos_0 in Eset, R' by done.
    rewrite Eset. cbn [mbind res_bind]. unfold incrLdIdx. cbn [fmap list_fmap app insert list_insert] in R'.
    apply ring_pop in R'. set (u1 := u <| loadQueue := _ |> <| loadHead := _ |> <| loads := _ |>).
    destruct (IH u1 fuel R' Hal' HA' HB ltac:(cbn in Hf; lia)) as (q & E & Hq). exists q.
    change (LQEntries u1) with (LQEntries u) in *. change (loadHead u1) with (incrIdx (LQEntries u) (loadHead u)) in *.
    change (loads u1) with (loads u - 1) in *. change (loadTail u1) with (loadTail u) in *.
    rewrite pos_shift in E, Hq by done. cbn [length].
    replace (loads u - Z.of_nat (S (length A))) with (loads u - 1 - Z.of_nat (length A)) by lia.
    rewrite E. split; [reflexivity|exact Hq].
Qed.

Lemma stores_alive (h : heap) (nL hL : Z) L St :
  Forall (store_ok h nL hL L) St → Forall (λ e, ∃ p d, sq_inst e = Some p ∧ h !! p = Some d) St.
Proof. intros H. eapply Forall_impl; [exact H|]. intros e (p & d & Hp & Hd & _). by exists p, d. Qed.
Lemma loads_alive (h : heap) (nS hS : Z) L St : Forall (load_ok h nS hS St) L → Forall (λ p, is_Some (h !! p)) L.
Proof. intros H. eapply Forall_impl; [exact H|]. intros p (d & Hd & _). by exists d. Qed.

Lemma commitStores_ok u L St (y : Z) :
  queues_ok u L St →
  ∃ q, commitStores y u
       = Ok (u <| storeQueue := q |> <| storesToWB := storesToWB u + Z.of_nat (countb (newly (u_heap u) y) St) |>)
    ∧ ring q (SQEntries u) (storeHead u) (storeTail u) (stores u) (markWB (u_heap u) y <$> St).
Proof.
  intros [_ R _ _ Hst _ Hso _]. pose proof (stores_alive _ _ _ _ _ Hst) as Hal. pose proof (ring_head _ _ _ _ _ _ R) as Hh.
  unfold commitStores.
  assert (E : (if stores u =? 0 then Ok tt
               else e ← store_at (storeHead u) u; assert (bool_decide (is_Some (sq_inst e)))) = Ok tt).
  { pose proof (ring_count _ _ _ _ _ _ R) as Hc. destruct St as [|e St]; [by rewrite Hc|].
    cbn in Hc. rewrite (proj2 (Z.eqb_neq _ _)) by lia.
    pose proof (ring_get _ _ _ _ _ _ 0%nat e R eq_refl) as Hg. rewrite pos_0 in Hg by done.
    unfold store_at. rewrite Hg. cbn [mbind res_bind]. inversion Hal as [|? ? (p & d & Hp & _) _]; subst. by rewrite Hp. }
  rewrite E. cbn [mbind res_bind].
  destruct (commitStores_loop_ok u y [] St (Z.to_nat (SQEntries u)) R Hal Hso) as (q & Eq & Hq).
  { pose proof (ring_room _ _ _ _ _ _ R). lia. }
  cbn [length app] in Eq, Hq. rewrite pos_0 in Eq by done. by exists q.
Qed.

Lemma commitLoads_ok u L (nS hS y : Z) St :
  ring (loadQueue u) (LQEntries u) (loadHead u) (loadTail u) (loads u) (Some <$> L) →
  Forall (load_ok (u_heap u) nS hS St) L → StronglySorted Z.lt (lseqs (u_heap u) L) →
  let gone := length (filter (λ p, lsn (u_heap u) p ≤ y) L) in
  ∃ q, commitLoads y u
       = Ok (u <| loadQueue := q |> <| loadHead := pos (LQEntries u) (loadHead u) gone |>
               <| loads := loads u - Z.of_nat gone |>)
    ∧ ring q (LQEntries u) (pos (LQEntries u) (loadHead u) gone) (loadTail u) (loads u - Z.of_nat gone)
        (Some <$> filter (λ p, y < lsn (u_heap u) p) L).
Proof.
  intros R Hl Hs gone. pose proof (loads_alive _ _ _ _ _ Hl) as Hal. pose proof (ring_head _ _ _ _ _ _ R) as Hh.
  pose proof (split_seq (lsn (u_heap u)) L y Hs) as EL. unfold commitLoads.
  assert (E : (if loads u =? 0 then Ok tt
               else o ← vget (loadQueue u) (loadHead u); assert (bool_decide (is_Some o))) = Ok tt).
  { pose proof (ring_count _ _ _ _ _ _ R) as Hc. destruct L as [|p L]; [by rewrite Hc|].
    cbn in Hc. rewrite (proj2 (Z.eqb_neq _ _)) by lia.
    pose proof (ring_get _ _ _ _ _ _ 0%nat (Some p) R eq_refl) as Hg. rewrite pos_0 in Hg by done. by rewrite Hg. }
  rewrite E. cbn [mbind res_bind]. pose proof (ring_room _ _ _ _ _ _ R) as Hroom. rewrite length_fmap in Hroom.
  pose proof (length_filter (λ p, lsn (u_heap u) p ≤ y) L) as Hlen.
  rewrite EL in R at 1. rewrite EL in Hal at 1.
  apply commitLoads_loop_ok; [done|done|apply filter_le_Forall|apply filter_gt_Forall|]. fold gone in Hlen. lia.
Qed.

(** Commit reports the youngest retired instruction; [iew_impl.hh], [tick]. *)
Definition lsq_commit (y : Z) u : res LSQUnit := u ← commitStores y u; commitLoads y u.

Lemma older_markWB (h h' : heap) (y : Z) St : sseqs h' (markWB h y <$> St) = sseqs h' St.
Proof.
  unfold sseqs. rewrite <- list_fmap_compose. apply list_fmap_ext. intros i e _. cbn. unfold markWB.
  by destruct (_ <=? _).
Qed.
Lemma waiting_markWB (h : heap) (y : Z) St :
  (∀ e, e ∈ St → canWB e = false → sq_completed e = false) →
  countb waiting (markWB h y <$> St) = (countb waiting St + countb (newly h y) St)%nat.
Proof.
  induction St as [|e St IH]; intros Hc; [done|]. cbn [fmap list_fmap countb].
  rewrite IH by (intros; apply Hc; [by right|done]). generalize (countb waiting St), (countb (newly h y) St).
  intros n1 n2. unfold markWB, newly, waiting.
  pose proof (Hc e ltac:(left)) as He. destruct (ssn h e <=? y), (canWB e) eqn:E, (sq_completed e) eqn:E'; cbn;
    rewrite ?E, ?E'; cbn; try lia; discriminate (He eq_refl).
Qed.

(** The load that waits for a store has not executed, so it is not among those retired. *)
Definition stall_not_retired u L (y : Z) : Prop :=
  stalled u = true → ∀ k p, L !! k = Some p → stallingLoadIdx u = pos (LQEntries u) (loadHead u) k → y < lsn (u_heap u) p.

Lemma lsq_commit_ok u L St (w : nat) (y : Z) :
  lsq_inv u L St w → stall_not_retired u L y →
  ∃ u', lsq_commit y u = Ok u' ∧ lsq_inv u' (filter (λ p, y < lsn (u_heap u) p) L) (markWB (u_heap u) y <$> St) w
    ∧ u_heap u' = u_heap u.
Proof.
  intros [Hqs Hwb Hc Hs Hv Hse] Hnr. destruct (commitStores_ok u L St y Hqs) as (q & E & Rs).
  destruct Hqs as [Rl _ Hsz Hld Hst Hlo Hso Hda]. unfold lsq_commit. rewrite E. cbn [mbind res_bind].
  set (u1 := u <| storeQueue := q |> <| storesToWB := _ |>). set (h := u_heap u) in *.
  destruct (commitLoads_ok u1 L _ _ y St Rl Hld Hlo) as (q' & E' & Rl').
  change (u_heap u1) with h in E', Rl'. change (loadHead u1) with (loadHead u) in E', Rl'. change (LQEntries u1) with (LQEntries u) in E', Rl'.
  set (gone := length (filter (λ p, lsn h p ≤ y) L)) in *. set (L' := filter (λ p, y < lsn h p) L) in *.
  pose proof (split_seq (lsn h) L y Hlo) as EL. fold L' in EL. pose proof (ring_head _ _ _ _ _ _ Rl) as HhL.
  assert (HL' : ∀ p, p ∈ L' → p ∈ L) by (intros p [_ ?]%list_elem_of_filter; done).
  eexists. split; [exact E'|]. split; [|done]. split.
  - split; [exact Rl'|exact Rs|exact Hsz| | | | |].
    + apply Forall_forall. intros p Hp. rewrite Forall_forall in Hld. destruct (Hld p (HL' p Hp)) as (d & Hd & Hl & Hi).
      exists d. by rewrite older_markWB.
    + apply Forall_fmap, Forall_forall. intros e He. rewrite Forall_forall in Hst.
      destruct (Hst e He) as (p & d & Hp & Hd & Hl & Hi & Ha).
      assert (Hx : sq_inst (markWB h y e) = sq_inst e ∧ sq_size (markWB h y e) = sq_size e
        ∧ (executed_ok d e → executed_ok d (markWB h y e))) by (unfold markWB; by destruct (_ <=? _)).
      destruct Hx as (X1 & X2 & X3). exists p, d. rewrite X1, X2. split_and!; try done; [|intros Hz; by apply X3, Ha].
      intros Hw. unfold markWB in Hw. destruct (Z.leb_spec (ssn h e) y) as [|Hy]; [done|]. rewrite (Hi Hw).
      change (loadHead (u1 <| loadQueue := q' |> <| loadHead := _ |> <| loads := _ |>)) with (pos (LQEntries u) (loadHead u) gone).
      cbn. rewrite pos_add by done. f_equal. rewrite EL at 1. rewrite lseqs_app, older_app, older_all.
      { unfold lseqs. by rewrite length_fmap. }
      unfold lseqs. rewrite Forall_fmap. eapply Forall_impl; [apply filter_le_Forall|].
      intros z Hz. cbn in Hz |- *. unfold ssn, lsn in Hy. rewrite Hp, Hd in Hy. lia.
    + change (StronglySorted Z.lt (lseqs h L')). rewrite EL, lseqs_app in Hlo. by apply StronglySorted_app in Hlo as (_ & _ & ?).
    + change (StronglySorted Z.lt (sseqs h (markWB h y <$> St))). by rewrite older_markWB.
    + apply Forall_fmap. eapply Forall_impl; [exact Hda|]. intros e He. cbn. unfold markWB. by destruct (_ <=? _).
  - destruct Hwb as [W1 W2 W3 W4 W5]. split; [exact W1|by rewrite length_fmap| | |].
    + change (storesToWB u + Z.of_nat (countb (newly h y) St) = Z.of_nat (countb waiting (markWB h y <$> St))).
      rewrite waiting_markWB; [lia|]. intros e [k Hk]%list_elem_of_lookup Hw.
      destruct (decide (k < w)%nat); [by rewrite (W4 k e) in Hw|apply (W5 k); [done|lia]].
    + intros k e' (e & -> & Hk)%list_lookup_fmap_Some Hkw. pose proof (W4 k e Hk Hkw). unfold markWB. by destruct (_ <=? _).
    + intros k e' (e & -> & Hk)%list_lookup_fmap_Some Hkw. pose proof (W5 k e Hk Hkw). unfold markWB. by destruct (_ <=? _).
  - intros e' p (e & -> & He)%list_elem_of_fmap Hw [Hy Hp]%list_elem_of_filter. change (ssn h (markWB h y e) < lsn h p).
    unfold markWB in Hw |- *. destruct (Z.leb_spec (ssn h e) y) as [Hle|]; [change (ssn h e < lsn h p); lia|by apply Hc].
  - intros Ht. destruct (Hs Ht) as (k & p & Hk & Hx & Hlt). pose proof (Hnr Ht k p Hk Hx) as Hy. change (y < lsn h p) in Hy.
    assert (Hkg : (gone ≤ k)%nat).
    { destruct (decide (k < gone)%nat) as [Hlt'|]; [|lia]. rewrite EL, lookup_app_l in Hk by done.
      apply list_elem_of_lookup_2, list_elem_of_filter in Hk as [Hk _]. lia. }
    exists (k - gone)%nat, p. rewrite EL, lookup_app_r in Hk by done. split; [exact Hk|]. split; [|done].
    change (stallingLoadIdx u = pos (LQEntries u) (pos (LQEntries u) (loadHead u) gone) (k - gone)).
    rewrite pos_add by done. rewrite Hx. f_equal. lia.
  - exact Hv.
  - destruct Hse as [S1 S2 S3 S4 S5]. split; [exact S1|exact S2|exact S3| |].
    + intros Hx. destruct (S4 Hx) as (e & He & Hw & Hz). exists (markWB h y e). rewrite list_lookup_fmap, He.
      split; [done|]. unfold markWB. by destruct (_ <=? _).
    + intros k e' p (e & -> & Hk)%list_lookup_fmap_Some Hkw Hx Hp. change (u_heap _) with h.
      assert (Hp' : sq_inst e = Some p) by (revert Hp; unfold markWB; by destruct (_ <=? _)).
      destruct (S5 k e p Hk Hkw Hx Hp') as [Hcm ?]. split; [|done]. unfold markWB. by destruct (_ <=? _).
Qed.
