(* ===== verification/LSQSquash.v ===== *)
(** * Squash in the load and store queues

    A squash removes exactly the loads and the uncommitted stores younger than the
    squash point from the tails of the rings and marks them squashed; the panic about a
    stall that outlives its load is not reachable. *)

From S2P Require Import Prelude Regs DynInst Ring LSQ LSQInv LSQCommit.
From stdpp Require Import sorting list.
Local Open Scope Z_scope.

Implicit Types (u : LSQUnit) (L : list InstPtr) (St : list SQEntry) (p : InstPtr).

(** ** Marking a list of instructions squashed *)
Definition squash_all (l : list InstPtr) (h : heap) : heap := foldr (λ p, alter setSquashed p) h l.

Lemma setSquashed_twice (d : DynInst) : setSquashed (setSquashed d) = setSquashed d.
Proof.
  set (i := Status_idx Squashed).
  assert (Hb : bit_set i (bit_set i (status d)) = bit_set i (status d)).
  { unfold bit_set. apply N.bits_inj. intros j. rewrite !N.setbit_eqb. by destruct (N.eqb _ _), (N.testbit _ _). }
  change (d <| status := bit_set i (bit_set i (status d)) |> = setSquashed d). by rewrite Hb.
Qed.

Lemma squash_all_lookup (l : list InstPtr) (h : heap) p :
  squash_all l h !! p = (if decide (p ∈ l) then setSquashed else id) <$> h !! p.
Proof.
  induction l as [|q l IH]; cbn [squash_all foldr]; [rewrite decide_False by apply not_elem_of_nil; by destruct (h !! p)|].
  fold (squash_all l h). destruct (decide (q = p)) as [->|Hne].
  - rewrite lookup_alter_eq, IH, (decide_True (P := p ∈ p :: l)) by left. destruct (h !! p) as [d|]; [|done].
    cbn. destruct (decide (p ∈ l)); cbn; by rewrite ?setSquashed_twice.
  - rewrite lookup_alter_ne, IH by done. destruct (decide (p ∈ l)) as [Hin|Hin].
    + by rewrite decide_True by (by right).
    + rewrite decide_False by (intros [->|?]%elem_of_cons; done). done.
Qed.

Lemma squash_all_keys (l : list InstPtr) (h : heap) : same_keys h (squash_all l h).
Proof. intros p. rewrite squash_all_lookup. destruct (h !! p); [|done]. cbn. by destruct (decide _). Qed.

Lemma squash_all_app (l1 l2 : list InstPtr) (h : heap) : squash_all (l1 ++ l2) h = squash_all l1 (squash_all l2 h).
Proof. apply foldr_app. Qed.

(** ** Loads *)
Lemma squashLoads_loop_ok u (sn : Z) (A B : list InstPtr) (fuel : nat) :
  ring (loadQueue u) (LQEntries u) (loadHead u) (loadTail u) (loads u) (Some <$> (A ++ B)) →
  Forall (λ p, is_Some (u_heap u !! p)) (A ++ B) →
  Forall (λ p, lsn (u_heap u) p ≤ sn) A → Forall (λ p, sn < lsn (u_heap u) p) B → (length B < fuel)%nat →
  ∃ q c b x i,
    squashLoads_loop fuel sn (decrLdIdx u (loadTail u)) u
    = Ok (u <| u_heap := squash_all B (u_heap u) |> <| loadQueue := q |> <| loads := c |>
            <| loadTail := pos (LQEntries u) (loadHead u) (length A) |>
            <| stalled := b |> <| stallingStoreIsn := x |> <| stallingLoadIdx := i |>)
    ∧ ring q (LQEntries u) (loadHead u) (pos (LQEntries u) (loadHead u) (length A)) c (Some <$> A)
    ∧ (b = true → stalled u = true ∧ x = stallingStoreIsn u ∧ i = stallingLoadIdx u
         ∧ ∀ k, (k < length B)%nat → i ≠ pos (LQEntries u) (loadHead u) (length A + k)).
Proof.
  revert u fuel. induction B as [|p B IH] using rev_ind; intros u fuel R Hal HA HB Hf;
    (destruct fuel as [|fuel]; [cbn in Hf; lia|]); cbn [squashLoads_loop].
  - rewrite app_nil_r in R, Hal.
    exists (loadQueue u), (loads u), (stalled u), (stallingStoreIsn u), (stallingLoadIdx u).
    pose proof (ring_tail _ _ _ _ _ _ R) as Ht. rewrite length_fmap in Ht. rewrite <- Ht.
    split; [|split; [done|intros ->; split_and!; try done; intros k Hk; cbn in Hk; lia]].
    replace (Ok (u <| u_heap := _ |> <| loadQueue := _ |> <| loads := _ |> <| loadTail := _ |> <| stalled := _ |>
      <| stallingStoreIsn := _ |> <| stallingLoadIdx := _ |>)) with (Ok u) by (by destruct u).
    pose proof (ring_count _ _ _ _ _ _ R) as Hc. rewrite length_fmap in Hc.
    destruct A as [|p A _] using rev_ind; [by rewrite Hc|]. rewrite length_app in Hc. cbn in Hc.
    rewrite (proj2 (Z.eqb_neq _ _)) by lia. rewrite fmap_app in R. apply ring_drop in R as [Hg _].
    unfold load_at, decrLdIdx. rewrite Hg. cbn [mbind res_bind deref].
    apply Forall_app in Hal as [_ Hal]. inversion Hal as [|? ? [d Hd] _]; subst.
    apply Forall_app in HA as [_ HA]. inversion HA as [|? ? Hle _]; subst. unfold lsn in Hle. rewrite Hd in Hle.
    unfold lsq_inst. rewrite Hd. cbn [mbind res_bind deref]. by rewrite (proj2 (Z.ltb_ge _ _)) by lia.
  - rewrite length_app in Hf. cbn in Hf. rewrite app_assoc in R, Hal. rewrite fmap_app in R. cbn [fmap list_fmap] in R.
    pose proof (ring_count _ _ _ _ _ _ R) as Hc. rewrite length_app in Hc. cbn in Hc.
    rewrite (proj2 (Z.eqb_neq _ _)) by lia.
    pose proof (ring_tail _ _ _ _ _ _ R) as Ht. rewrite length_app, length_fmap, Nat.add_1_r in Ht. cbn [length] in Ht.
    pose proof (ring_head _ _ _ _ _ _ R) as Hh.
    apply Forall_app in Hal as [Hal Hp]. inversion Hp as [|? ? [d Hd] _]; subst.
    apply Forall_app in HB as [HB Hp']. inversion Hp' as [|? ? Hgt _]; subst. unfold lsn in Hgt. rewrite Hd in Hgt.
    set (k := length (A ++ B)) in *. assert (Hlen : length (Some <$> (A ++ B)) = k) by apply length_fmap.
    assert (Hk : ((Some <$> (A ++ B)) ++ [Some p]) !! k = Some (Some p)) by (rewrite lookup_app_r, Hlen, Nat.sub_diag; [done|lia]).
    pose proof (ring_get _ _ _ _ _ _ _ _ R Hk) as Hg. unfold decrLdIdx. rewrite Ht, pos_pred by done.
    unfold load_at. rewrite Hg. cbn [mbind res_bind deref]. unfold lsq_inst. rewrite Hd. cbn [mbind res_bind deref].
    rewrite (proj2 (Z.ltb_lt _ _)) by lia.
    destruct (ring_set _ _ _ _ _ _ k None R) as [Eset R']; [rewrite length_app, Hlen; cbn; lia|].
    rewrite insert_app_r_alt in R' by lia. rewrite Hlen, Nat.sub_diag in R'. cbn [insert list_insert] in R'.
    apply ring_drop in R' as [_ R']. rewrite Ht, pos_pred in R' by done.
    set (un := if stalled u && _ then _ else u).
    assert (Hun : ∃ b x i, un = u <| stalled := b |> <| stallingStoreIsn := x |> <| stallingLoadIdx := i |>
      ∧ (b = true → stalled u = true ∧ x = stallingStoreIsn u ∧ i = stallingLoadIdx u ∧ i ≠ pos (LQEntries u) (loadHead u) k)).
    { unfold un. destruct (stalled u && _) eqn:Es.
      - exists false, 0, 0. by split.
      - exists (stalled u), (stallingStoreIsn u), (stallingLoadIdx u). split; [by destruct u|]. intros Hs. rewrite Hs in Es.
        apply Z.eqb_neq in Es. split_and!; [done..|]. congruence. }
    destruct Hun as (b & x & i & -> & Hb). unfold on_inst.
    set (u0 := u <| stalled := b |> <| stallingStoreIsn := x |> <| stallingLoadIdx := i |>).
    change (loadQueue (u0 <| u_heap ::= alter setSquashed p |>)) with (loadQueue u). rewrite Eset. cbn [mbind res_bind].
    set (u1 := u0 <| u_heap ::= _ |> <| loadQueue := _ |> <| loads := _ |> <| loadTail := _ |>).
    assert (Hq : same_seqs (u_heap u) (u_heap u1)) by (by apply same_seqs_alter).
    destruct (IH u1 fuel) as (q & c & b' & x' & i' & E & R'' & Hb'); [exact R'|..|lia|].
    { eapply Forall_impl; [exact Hal|]. intros y [dy Hy]. specialize (Hq y). rewrite Hy in Hq. destruct (u_heap u1 !! y); [by eexists|done]. }
    { eapply Forall_impl; [exact HA|]. intros y Hy. cbv beta. by rewrite (lsn_same _ _ y Hq). }
    { eapply Forall_impl; [exact HB|]. intros y Hy. cbv beta. by rewrite (lsn_same _ _ y Hq). }
    exists q, c, b', x', i'. split; [|split; [exact R''|]].
    + etransitivity; [exact E|]. rewrite squash_all_app. reflexivity.
    + intros Hb1. destruct (Hb' Hb1) as (Hs1 & -> & -> & Hpos). destruct (Hb Hs1) as (Hs2 & E1 & E2 & Hne).
      split_and!; [done|exact E1|exact E2|]. intros j Hj. rewrite length_app in Hj. cbn in Hj.
      destruct (decide (j < length B)%nat) as [Hlt|]; [by apply Hpos|]. replace (length A + j)%nat with k; [exact Hne|].
      unfold k. rewrite length_app. lia.
Qed.

(** ** Stores *)
Definition ptrs St : list InstPtr := omap sq_inst St.

Lemma squashStores_loop_ok u (sn : Z) (A B : list SQEntry) (fuel : nat) :
  ring (storeQueue u) (SQEntries u) (storeHead u) (storeTail u) (stores u) (A ++ B) →
  Forall (λ e, ∃ p d, sq_inst e = Some p ∧ u_heap u !! p = Some d) (A ++ B) →
  Forall (λ e, ssn (u_heap u) e ≤ sn) A → Forall (λ e, sn < ssn (u_heap u) e ∧ canWB e = false) B →
  (stalled u = true → stallingStoreIsn u ≤ sn) → (length B < fuel)%nat →
  ∃ q c, squashStores_loop fuel sn (decrStIdx u (storeTail u)) u
    = Ok (u <| u_heap := squash_all (ptrs B) (u_heap u) |> <| storeQueue := q |> <| stores := c |>
            <| storeTail := pos (SQEntries u) (storeHead u) (length A) |>)
    ∧ ring q (SQEntries u) (storeHead u) (pos (SQEntries u) (storeHead u) (length A)) c A.
Proof.
  revert u fuel. induction B as [|e B IH] using rev_ind; intros u fuel R Hal HA HB Hst Hf;
    (destruct fuel as [|fuel]; [cbn in Hf; lia|]); cbn [squashStores_loop].
  - rewrite app_nil_r in R, Hal. exists (storeQueue u), (stores u).
    pose proof (ring_tail _ _ _ _ _ _ R) as Ht. rewrite <- Ht. split; [|done].
    replace (Ok (u <| u_heap := _ |> <| storeQueue := _ |> <| stores := _ |> <| storeTail := _ |>)) with (Ok u) by (by destruct u).
    pose proof (ring_count _ _ _ _ _ _ R) as Hc.
    destruct A as [|e A _] using rev_ind; [by rewrite Hc|]. rewrite length_app in Hc. cbn in Hc.
    rewrite (proj2 (Z.eqb_neq _ _)) by lia. apply ring_drop in R as [Hg _].
    unfold store_at, decrStIdx. rewrite Hg. cbn [mbind res_bind].
    apply Forall_app in Hal as [_ Hal]. inversion Hal as [|? ? (p & d & Hp & Hd) _]; subst. rewrite Hp. cbn [deref mbind res_bind].
    apply Forall_app in HA as [_ HA]. inversion HA as [|? ? Hle _]; subst. unfold ssn, lsn in Hle. rewrite Hp, Hd in Hle.
    unfold lsq_inst. rewrite Hd. cbn [mbind res_bind deref]. by rewrite (proj2 (Z.ltb_ge _ _)) by lia.
  - rewrite length_app in Hf. cbn in Hf. rewrite app_assoc in R, Hal.
    pose proof (ring_count _ _ _ _ _ _ R) as Hc. rewrite length_app in Hc. cbn in Hc.
    rewrite (proj2 (Z.eqb_neq _ _)) by lia.
    pose proof (ring_tail _ _ _ _ _ _ R) as Ht. rewrite length_app, Nat.add_1_r in Ht.
    pose proof (ring_head _ _ _ _ _ _ R) as Hh. set (k := length (A ++ B)) in *.
    apply Forall_app in Hal as [Hal Hp]. inversion Hp as [|? ? (p & d & Hpe & Hd) _]; subst.
    apply Forall_app in HB as [HB Hp']. inversion Hp' as [|? ? [Hgt Hnw] _]; subst. unfold ssn, lsn in Hgt. rewrite Hpe, Hd in Hgt.
    assert (Hk : ((A ++ B) ++ [e]) !! k = Some e) by (rewrite lookup_app_r, Nat.sub_diag; [done|lia]).
    pose proof (ring_get _ _ _ _ _ _ _ _ R Hk) as Hg. unfold decrStIdx. rewrite Ht, pos_pred by done.
    unfold store_at. rewrite Hg. cbn [mbind res_bind]. rewrite Hpe. cbn [deref mbind res_bind].
    unfold lsq_inst. rewrite Hd. cbn [mbind res_bind deref]. rewrite (proj2 (Z.ltb_lt _ _)), Hnw by lia.
    assert (Hns : stalled u && (seqNum d =? stallingStoreIsn u) = false).
    { destruct (stalled u); [|done]. specialize (Hst eq_refl). apply Z.eqb_neq. lia. }
    rewrite Hns. cbn [panic_if mbind res_bind]. unfold on_store.
    change (storeQueue (on_inst p setSquashed u)) with (storeQueue u). rewrite Hg. cbn [mbind res_bind].
    match goal with |- context [vset _ ?e' _] => set (e1 := e') end.
    destruct (ring_set _ _ _ _ _ _ k e1 R) as [Eset R']; [rewrite length_app; cbn; unfold k; lia|].
    rewrite insert_app_r_alt in R' by (unfold k; lia). replace (k - length (A ++ B))%nat with 0%nat in R' by (unfold k; lia). cbn [insert list_insert] in R'.
    apply ring_drop in R' as [_ R']. rewrite Ht, pos_pred in R' by done. rewrite Eset. cbn [mbind res_bind].
    set (u1 := _ <| stores := _ |> <| storeTail := _ |>).
    assert (Hq : same_seqs (u_heap u) (u_heap u1)) by (by apply same_seqs_alter).
    destruct (IH u1 fuel) as (q & c & E & R''); [exact R'|..|exact Hst|lia|].
    { eapply Forall_impl; [exact Hal|]. intros y (py & dy & Hpy & Hy). specialize (Hq py). rewrite Hy in Hq.
      destruct (u_heap u1 !! py) as [dy'|] eqn:?; [by exists py, dy'|done]. }
    { eapply Forall_impl; [exact HA|]. intros y Hy. cbv beta. by rewrite (ssn_same _ _ y Hq). }
    { eapply Forall_impl; [exact HB|]. intros y Hy. cbv beta. by rewrite (ssn_same _ _ y Hq). }
    exists q, c. split; [|exact R'']. etransitivity; [exact E|]. unfold ptrs. rewrite omap_app. cbn [omap list_omap]. rewrite Hpe.
    rewrite squash_all_app. reflexivity.
Qed.

(** ** The whole squash *)
Definition kept_violator (sn : Z) u : option InstPtr :=
  v ← memDepViolator u; if sn <? lsn (u_heap u) v then None else Some v.

Lemma clearViolator_ok (sn : Z) u : violator_ok u → clearViolator sn u = Ok (u <| memDepViolator := kept_violator sn u |>).
Proof.
  intros Hv. assert (Eta : Ok u = Ok (u <| memDepViolator := memDepViolator u |>)) by (by destruct u).
  unfold clearViolator, kept_violator. destruct (memDepViolator u) as [v|] eqn:E; cbn [mbind option_bind]; [|exact Eta].
  destruct (Hv v E) as [d Hd]. unfold lsq_inst, lsn. rewrite Hd. cbn [deref mbind res_bind].
  by destruct (sn <? seqNum d).
Qed.

Section squash_lists.
Context (h h' : heap) (Hk : same_keys h h') (sn : Z).

(** What is left of the queues is an older part, in which nobody's place has changed. *)
Lemma squash_load_ok (nS hS : Z) St p :
  StronglySorted Z.lt (sseqs h St) → load_ok h nS hS St p → lsn h p ≤ sn →
  load_ok h' nS hS (filter (λ e, ssn h e ≤ sn) St) p.
Proof.
  intros Hs Hl Hle. apply (load_ok_frame h h' (same_keys_grows _ _ Hk)). destruct Hl as (d & Hd & Hl & Hi). exists d.
  split; [done|]. split; [done|]. unfold lsn in Hle. rewrite Hd in Hle.
  rewrite (split_seq (ssn h) St sn Hs), sseqs_app, older_app, (older_none _ (sseqs h (filter (λ e, sn < _) St))), Nat.add_0_r in Hi; [done|].
  unfold sseqs. rewrite Forall_fmap. eapply Forall_impl; [apply filter_gt_Forall|]. intros e He. cbn in *. lia.
Qed.
Lemma squash_store_ok (nL hL : Z) L e :
  StronglySorted Z.lt (lseqs h L) → store_ok h nL hL L e → ssn h e ≤ sn →
  store_ok h' nL hL (filter (λ p, lsn h p ≤ sn) L) e.
Proof.
  intros Hs Hst Hle. apply (store_ok_frame h h' (same_keys_grows _ _ Hk)). destruct Hst as (p & d & Hp & Hd & Hl & Hi & Ha). exists p, d.
  split_and!; try done. intros Hw. specialize (Hi Hw). unfold ssn, lsn in Hle. rewrite Hp, Hd in Hle.
  rewrite (split_seq (lsn h) L sn Hs), lseqs_app, older_app, (older_none _ (lseqs h (filter (λ p, sn < _) L))), Nat.add_0_r in Hi; [done|].
  unfold lseqs. rewrite Forall_fmap. eapply Forall_impl; [apply filter_gt_Forall|]. intros e' He. cbn in *. lia.
Qed.

(** The committed stores survive. *)
Lemma squash_keeps (St : list SQEntry) (k : nat) (e : SQEntry) :
  StronglySorted Z.lt (sseqs h St) → St !! k = Some e → ssn h e ≤ sn → filter (λ e, ssn h e ≤ sn) St !! k = Some e.
Proof.
  intros Hs He Hle. rewrite (split_seq (ssn h) St sn Hs) in He. apply lookup_app_Some in He as [He|[_ He]]; [done|].
  apply list_elem_of_lookup_2, list_elem_of_filter in He as [? _]. lia.
Qed.
Lemma squash_was (St : list SQEntry) (k : nat) (e : SQEntry) :
  StronglySorted Z.lt (sseqs h St) → filter (λ e, ssn h e ≤ sn) St !! k = Some e → St !! k = Some e.
Proof. intros Hs He. rewrite (split_seq (ssn h) St sn Hs). by apply lookup_app_l_Some. Qed.
End squash_lists.

(** The fields a squash leaves alone. *)
Record rest_same u u' : Prop := {
  rs_entries : LQEntries u' = LQEntries u ∧ SQEntries u' = SQEntries u;
  rs_heads : loadHead u' = loadHead u ∧ storeHead u' = storeHead u;
  rs_wb : storeWBIdx u' = storeWBIdx u ∧ storesToWB u' = storesToWB u;
  rs_retry : isStoreBlocked u' = isStoreBlocked u ∧ retryPkt u' = retryPkt u;
  rs_pending : hasPendingPkt u' = hasPendingPkt u ∧ pendingPkt u' = pendingPkt u;
  rs_other : senders u' = senders u ∧ next_id u' = next_id u ∧ calls u' = calls u
             ∧ usedStorePorts u' = usedStorePorts u ∧ storeInFlight u' = storeInFlight u;
}.

Definition squashed_heap (h : heap) L St (sn : Z) : heap :=
  squash_all (ptrs (filter (λ e, sn < ssn h e) St)) (squash_all (filter (λ p, sn < lsn h p) L) h).

Lemma squashed_heap_keys (h : heap) L St (sn : Z) : same_keys h (squashed_heap h L St sn).
Proof. intros p. unfold squashed_heap. by rewrite !squash_all_keys. Qed.

(** The loads go first. *)
Lemma squash_loads_phase u L St (w : nat) (sn : Z) :
  lsq_inv u L St w →
  let h := u_heap u in
  let L' := filter (λ p, lsn h p ≤ sn) L in
  ∃ u1, squashLoads_loop (Z.to_nat (LQEntries u)) sn (decrLdIdx u (loadTail u)) u = Ok u1
    ∧ rest_same u u1 ∧ u_heap u1 = squash_all (filter (λ p, sn < lsn h p) L) h
    ∧ memDepViolator u1 = memDepViolator u ∧ storeQueue u1 = storeQueue u ∧ stores u1 = stores u ∧ storeTail u1 = storeTail u
    ∧ ring (loadQueue u1) (LQEntries u) (loadHead u) (loadTail u1) (loads u1) (Some <$> L')
    ∧ (stalled u1 = true → ∃ k p, L' !! k = Some p ∧ stallingLoadIdx u1 = pos (LQEntries u) (loadHead u) k
         ∧ stallingStoreIsn u1 < lsn h p).
Proof.
  intros [[Rl _ _ Hld _ Hlo _ _] _ _ Hs _ _] h L'. pose proof (split_seq (lsn h) L sn Hlo) as EL. fold L' in EL.
  pose proof (loads_alive _ _ _ _ _ Hld) as Hal. pose proof (ring_room _ _ _ _ _ _ Rl) as HrL. rewrite length_fmap in HrL.
  destruct (squashLoads_loop_ok u sn L' (filter (λ p, sn < lsn h p) L) (Z.to_nat (LQEntries u))) as (q & c & b & x & i & E & Rl' & Hb).
  { by rewrite <- EL. } { by rewrite <- EL. } { apply filter_le_Forall. } { apply filter_gt_Forall. }
  { pose proof (length_filter (λ p, sn < lsn h p) L). lia. }
  eexists. split; [exact E|]. split; [by split|]. do 5 (split; [done|]). split; [exact Rl'|]. intros Hbt. change (b = true) in Hbt.
  destruct (Hb Hbt) as (Hst' & -> & -> & Hno). destruct (Hs Hst') as (k & p & Hk & Hx & Hlt). exists k, p. split; [|by split].
  rewrite EL in Hk. apply lookup_app_Some in Hk as [Hk|[Hge Hk]]; [done|]. destruct (Hno (k - length L')%nat); [by apply lookup_lt_Some in Hk|].
  rewrite Hx. f_equal. lia.
Qed.

Lemma lsq_squash_run u L St (w : nat) (sn : Z) :
  lsq_inv u L St w → (∀ e, e ∈ St → canWB e = true → ssn (u_heap u) e ≤ sn) →
  let h := u_heap u in
  let L' := filter (λ p, lsn h p ≤ sn) L in
  let St' := filter (λ e, ssn h e ≤ sn) St in
  ∃ u', lsq_squash sn u = Ok u' ∧ rest_same u u' ∧ u_heap u' = squashed_heap h L St sn ∧ memDepViolator u' = kept_violator sn u
    ∧ ring (loadQueue u') (LQEntries u) (loadHead u) (loadTail u') (loads u') (Some <$> L')
    ∧ ring (storeQueue u') (SQEntries u) (storeHead u) (storeTail u') (stores u') St'
    ∧ (stalled u' = true → ∃ k p, L' !! k = Some p ∧ stallingLoadIdx u' = pos (LQEntries u) (loadHead u) k
         ∧ stallingStoreIsn u' < lsn h p).
Proof.
  intros Hi Hcm h L' St'. destruct (squash_loads_phase u L St w sn Hi) as (u1 & E & Hr & Hh & Hmv & Hsq & Hss & Hst1 & Rl & Hb).
  fold h L' in Hh, Rl, Hb. destruct Hi as [[_ Rs _ _ Hst _ Hso _] _ _ _ Hv _]. pose proof Hr as [[EL ES] [EhL EhS] _ _ _ _].
  pose proof (split_seq (ssn h) St sn Hso) as EQ. fold St' in EQ. pose proof (stores_alive _ _ _ _ _ Hst) as Has.
  assert (Hk1 : same_seqs h (u_heap u1)) by (rewrite Hh; apply same_keys_seqs, squash_all_keys).
  assert (Hv1 : violator_ok u1) by (by apply (violator_frame u)). pose proof (clearViolator_ok sn u1 Hv1) as Ev.
  assert (Hkv : kept_violator sn u1 = kept_violator sn u).
  { unfold kept_violator. rewrite Hmv. destruct (memDepViolator u); [|done]. cbn [mbind option_bind]. by rewrite (lsn_same _ _ _ Hk1). }
  unfold lsq_squash. rewrite E. cbn [mbind res_bind]. rewrite Ev. cbn [mbind res_bind].
  destruct (squashStores_loop_ok (u1 <| memDepViolator := kept_violator sn u1 |>) sn St' (filter (λ e, sn < ssn h e) St)
    (Z.to_nat (SQEntries u1))) as (q' & c' & E' & Rs').
  { change (ring (storeQueue u1) (SQEntries u1) (storeHead u1) (storeTail u1) (stores u1) (St' ++ filter (λ e, sn < ssn h e) St)).
    rewrite Hsq, ES, EhS, Hst1, Hss. by rewrite <- EQ. }
  { rewrite <- EQ. eapply Forall_impl; [exact Has|]. intros e (p & d & Hp & Hd). specialize (Hk1 p). change (h !! p = Some d) in Hd.
    rewrite Hd in Hk1. change (∃ p0 d0, sq_inst e = Some p0 ∧ u_heap u1 !! p0 = Some d0). destruct (u_heap u1 !! p) as [d'|] eqn:?; [by exists p, d'|done]. }
  { eapply Forall_impl; [apply filter_le_Forall|]. intros e He. change (ssn (u_heap u1) e ≤ sn). by rewrite (ssn_same _ _ e Hk1). }
  { apply Forall_forall. intros e [Hgt He]%list_elem_of_filter. change (sn < ssn (u_heap u1) e ∧ canWB e = false).
    rewrite (ssn_same _ _ e Hk1). split; [done|]. destruct (canWB e) eqn:Ew; [|done]. specialize (Hcm e He Ew). unfold h in Hgt. lia. }
  { intros Hbt. destruct (Hb Hbt) as (k & p & Hk & _ & Hlt). change (stallingStoreIsn u1 ≤ sn).
    apply list_elem_of_lookup_2, list_elem_of_filter in Hk as [Hk _]. lia. }
  { pose proof (length_filter (λ e, sn < ssn h e) St). rewrite ES. pose proof (ring_room _ _ _ _ _ _ Rs). lia. }
  change (ring q' (SQEntries u1) (storeHead u1) (pos (SQEntries u1) (storeHead u1) (length St')) c' St') in Rs'.
  rewrite ES, EhS in Rs'. eexists. split; [exact E'|]. split; [destruct Hr; by split|]. split; [|split; [exact Hkv|split; [exact Rl|split]]].
  - change (squash_all (ptrs (filter (λ e, sn < ssn h e) St)) (u_heap u1) = squashed_heap h L St sn). by rewrite Hh.
  - change (ring q' (SQEntries u) (storeHead u) (pos (SQEntries u1) (storeHead u1) (length St')) c' St'). rewrite ES, EhS. exact Rs'.
  - exact Hb.
Qed.

Lemma lsq_squash_ok u L St (w : nat) (sn : Z) :
  lsq_inv u L St w → (∀ e, e ∈ St → canWB e = true → ssn (u_heap u) e ≤ sn) →
  let h := u_heap u in
  ∃ u', lsq_squash sn u = Ok u'
    ∧ lsq_inv u' (filter (λ p, lsn h p ≤ sn) L) (filter (λ e, ssn h e ≤ sn) St) w
    ∧ u_heap u' = squashed_heap h L St sn
    ∧ memDepViolator u' = kept_violator sn u.
Proof.
  intros Hi Hcm h. destruct (lsq_squash_run u L St w sn Hi Hcm) as (u' & E & Hr & Hh & Hmv & Rl & Rs & Hb).
  fold h in Hh, Rl, Rs, Hb. set (L' := filter (λ p, lsn h p ≤ sn) L) in *. set (St' := filter (λ e, ssn h e ≤ sn) St) in *.
  destruct Hi as [[_ _ Hsz Hld Hst Hlo Hso Hda] [W1 W2 W3 W4 W5] Hc Hs Hv [S1 S2 S3 S4 S5]].
  destruct Hr as [[EL ES] [EhL EhS] [Ew1 Ew2] [Er1 Er2] [Ep1 Ep2] _].
  assert (Hk : same_keys h (u_heap u')) by (rewrite Hh; apply squashed_heap_keys).
  assert (Hq : same_seqs h (u_heap u')) by by apply same_keys_seqs.
  assert (HL : ∀ p, p ∈ L' → lsn h p ≤ sn ∧ p ∈ L) by (intros p Hp; by apply list_elem_of_filter in Hp).
  assert (HS : ∀ e, e ∈ St' → ssn h e ≤ sn ∧ e ∈ St) by (intros e He; by apply list_elem_of_filter in He).
  exists u'. split; [exact E|]. split; [|done]. split.
  - split; [by rewrite EL, EhL|by rewrite ES, EhS|by rewrite EL, ES|..].
    + rewrite ES, EhS. apply Forall_forall. intros p [Hle Hp]%HL. rewrite Forall_forall in Hld. apply (squash_load_ok h _ Hk sn); [exact Hso|by apply Hld|done].
    + rewrite EL, EhL. apply Forall_forall. intros e [Hle He]%HS. rewrite Forall_forall in Hst. apply (squash_store_ok h _ Hk sn); [exact Hlo|by apply Hst|done].
    + rewrite (lseqs_same _ _ L' Hq).
      rewrite (split_seq (lsn h) L sn Hlo), lseqs_app in Hlo. by apply StronglySorted_app in Hlo as (_ & ? & _).
    + rewrite (sseqs_same _ _ St' Hq).
      rewrite (split_seq (ssn h) St sn Hso), sseqs_app in Hso. by apply StronglySorted_app in Hso as (_ & ? & _).
    + apply Forall_forall. intros e [_ He]%HS. rewrite Forall_forall in Hda. by apply Hda.
  - split; [by rewrite Ew1, ES, EhS| | | |].
    + destruct (decide (w ≤ length St')%nat) as [|Hgt]; [done|].
      destruct (lookup_lt_is_Some_2 St (length St') ltac:(lia)) as [e He].
      assert (He' : St' !! length St' = Some e).
      { apply (squash_keeps h sn St); [done..|]. apply Hcm; [by apply list_elem_of_lookup_2 with (length St')|]. apply (W4 (length St')); [done|lia]. }
      apply lookup_lt_Some in He'. lia.
    + rewrite Ew2, W3, (split_seq (ssn h) St sn Hso) at 1. fold St'.
      rewrite countb_app, (proj2 (countb_zero waiting (filter (λ e, sn < ssn h e) St))); [lia|].
      intros e [Hgt He]%list_elem_of_filter. unfold waiting. destruct (canWB e) eqn:Ew; [|done]. specialize (Hcm e He Ew). fold h in Hcm. lia.
    + intros k e He. apply W4. by apply (squash_was h sn).
    + intros k e He. apply W5. by apply (squash_was h sn).
  - intros e p [_ He]%HS Hw [_ Hp]%HL. rewrite (ssn_same _ _ e Hq), (lsn_same _ _ p Hq). by apply Hc.
  - intros Ht. destruct (Hb Ht) as (k & p & Hk' & Hx & Hlt). exists k, p. rewrite EL, EhL, (lsn_same _ _ p Hq). done.
  - intros v. rewrite Hmv. unfold kept_violator. destruct (memDepViolator u) as [v'|] eqn:Ev; [|done]. cbn [mbind option_bind].
    destruct (sn <? _); [done|]. intros [= <-]. destruct (Hv v' Ev) as [d Hd]. destruct (same_keys_lookup _ _ _ _ Hk Hd) as (d' & Hd' & _).
    by exists d'.
  - unfold sending in *. split; unfold sending; rewrite ?Er1, ?Er2, ?Ep1, ?Ep2; [done..| |].
    + intros Hx. destruct (S4 Hx) as (e & He & Hw & Hz). exists e. split; [|done]. apply (squash_keeps h sn); [done..|].
      apply Hcm; [by apply list_elem_of_lookup_2 with w|done].
    + intros k e p He Hkw Hx Hp. apply (squash_was h sn) in He; [|done]. destruct (S5 k e p He Hkw Hx Hp) as [Hcm' Hm]. split; [done|].
      rewrite Hh. unfold squashed_heap. rewrite !squash_all_lookup. fold h in Hm. destruct (h !! p) as [d|]; [|done].
      cbn in Hm |- *. do 2 destruct (decide _); exact Hm.
Qed.
