(* ===== verification/LSQRead.v ===== *)
(** * What a load sees

    The reference works on single bytes: a store has the byte at an address or not
    ([store_byte]).  Of the stores older than the load that have not been handed to the
    cache, the youngest one that has any byte the load wants decides ([load_source]): if
    it has all of them the load takes them from it, otherwise the load waits; without
    such a store it goes to memory.  The scan of [read] compares address ranges; it is
    shown to find this store. *)

From S2P Require Import Prelude Regs DynInst Ring LSQ LSQInv LSQCommit.
From stdpp Require Import sorting list.
Local Open Scope Z_scope.

Implicit Types (u : LSQUnit) (L : list InstPtr) (St : list SQEntry) (p : InstPtr) (req : Request).

(** ** The reference *)
(** The byte a store entry would write at an address. *)
Definition store_byte (h : heap) (e : SQEntry) (a : Z) : option Z :=
  p ← sq_inst e;
  d ← h !! p;
  if forwardable e d && (effAddr d <=? a) && (a <? effAddr d + sq_size e)
  then Some (if isAllZeros e then 0 else default 0 (sq_data e !! Z.to_nat (a - effAddr d)))
  else None.
(** The first store of the list that writes the address. *)
Fixpoint latest_byte (h : heap) (l : list SQEntry) (a : Z) : option Z :=
  match l with
  | [] => None
  | e :: l => match store_byte h e a with Some b => Some b | None => latest_byte h l a end
  end.
(** Where a load gets the [n] bytes from [v] on; a load-locked one never from a store. *)
Inductive LoadSource := FromStore (bytes : list Z) | Waits | FromMemory.
Definition bytes_of (h : heap) (e : SQEntry) (v : Z) (n : nat) : list (option Z) :=
  (λ i, store_byte h e (v + Z.of_nat i)) <$> seq 0 n.
Fixpoint load_source (h : heap) (llsc : bool) (l : list SQEntry) (v : Z) (n : nat) : LoadSource :=
  match l with
  | [] => FromMemory
  | e :: l =>
      let bytes := bytes_of h e v n in
      if forallb (λ b, bool_decide (b = None)) bytes then load_source h llsc l v n
      else match mapM id bytes with Some bytes => if llsc then Waits else FromStore bytes | None => Waits end
  end.
(** The stores older than [s] that have not been handed to the cache, youngest first. *)
Definition older_stores (h : heap) St (w : nat) (s : Z) : list SQEntry :=
  reverse (drop w (take (older s (sseqs h St)) St)).

(** ** Comparing address ranges *)
Definition in_range (a n : Z) : Prop := 0 ≤ a ∧ 0 < n ∧ a + n < 2 ^ 64.

Lemma u64_small (z : Z) : 0 ≤ z < 2 ^ 64 → u64 z = z.
Proof. intros H. unfold u64. by apply Z.mod_small. Qed.

Lemma coverage_spec req (a n : Z) :
  in_range (getVaddr req) (getSize req) → in_range a n →
  match coverage req a n with
  | Covers => isLLSC req = false ∧ a ≤ getVaddr req ∧ getVaddr req + getSize req ≤ a + n
  | Overlaps => a < getVaddr req + getSize req ∧ getVaddr req < a + n
      ∧ (isLLSC req = true ∨ getVaddr req < a ∨ a + n < getVaddr req + getSize req)
  | Disjoint => getVaddr req + getSize req ≤ a ∨ a + n ≤ getVaddr req
  end.
Proof.
  intros (Hv & Hs & Hw) (Ha & Hn & Hw'). unfold coverage. rewrite !u64_small by lia.
  destruct (Z.leb_spec a (getVaddr req)), (Z.leb_spec (getVaddr req + getSize req) (a + n)),
    (Z.ltb_spec (getVaddr req) (a + n)), (Z.ltb_spec a (getVaddr req + getSize req)), (isLLSC req); cbn; lia.
Qed.

(** A store that covers a request has room for it in its data, at whatever address it is. *)
Lemma covers_inside req (a n : Z) :
  in_range (getVaddr req) (getSize req) → 0 ≤ a < 2 ^ 64 → 0 ≤ n < 2 ^ 64 → coverage req a n = Covers →
  a ≤ getVaddr req ∧ getVaddr req + getSize req ≤ a + n.
Proof.
  intros (Hv & Hs & Hw) Ha Hn. unfold coverage. rewrite (u64_small (getVaddr req + getSize req)) by lia.
  destruct (Z.leb_spec a (getVaddr req)); cbn [andb]; [|repeat case_match; done].
  destruct (Z.leb_spec (getVaddr req + getSize req) (u64 (a + n))) as [Hle|]; cbn [andb]; [|repeat case_match; done]. intros _.
  split; [done|]. destruct (decide (a + n < 2 ^ 64)) as [Hsm|Hbig]; [by rewrite u64_small in Hle by lia|].
  unfold u64 in Hle.
  assert (E : (a + n) mod 2 ^ 64 = a + n - 2 ^ 64) by (symmetry; apply Z.mod_unique with 1; lia). rewrite E in Hle. lia.
Qed.

(** ** The scan *)
Section scan.
Context (u : LSQUnit) (L : list InstPtr) (St : list SQEntry) (w : nat) (Hi : lsq_inv u L St w).
Context (req : Request).

(** The scan passes over the store, or stops at it. *)
Definition passed (e : SQEntry) : Prop :=
  ∃ p d, sq_inst e = Some p ∧ u_heap u !! p = Some d
    ∧ (forwardable e d = true → coverage req (effAddr d) (sq_size e) = LSQ.Disjoint).
Definition stops (c : Coverage) (e : SQEntry) : Prop :=
  ∃ p d, sq_inst e = Some p ∧ u_heap u !! p = Some d ∧ forwardable e d = true
    ∧ coverage req (effAddr d) (sq_size e) = c ∧ c ≠ LSQ.Disjoint.

Lemma forwardable_size (e : SQEntry) (d : DynInst) : forwardable e d = true → sq_size e ≠ 0.
Proof. unfold forwardable. intros H%negb_true_iff Hz. rewrite Hz in H. done. Qed.

Lemma pos_not_m1 (n h : Z) (k : nat) : 0 ≤ h < n → pos n h k ≠ -1.
Proof. intros Hh. pose proof (pos_range n h Hh k). lia. Qed.

Lemma scanStores_ok (j fuel : nat) :
  (w ≤ j ≤ length St)%nat → (j - w < fuel)%nat →
  ∃ r, scanStores fuel req (pos (SQEntries u) (storeHead u) j) u = Ok r
    ∧ match r with
      | None => ∀ k e, (w ≤ k < j)%nat → St !! k = Some e → passed e
      | Some (idx, c) =>
          ∃ k e, (w ≤ k < j)%nat ∧ idx = pos (SQEntries u) (storeHead u) k ∧ St !! k = Some e ∧ stops c e
            ∧ ∀ k' e', (k < k' < j)%nat → St !! k' = Some e' → passed e'
      end.
Proof.
  pose proof Hi as [[_ R _ _ Hst _ _ _] [W1 _ _ _ _] _ _ _ _]. pose proof (ring_head _ _ _ _ _ _ R) as Hh.
  pose proof (ring_room _ _ _ _ _ _ R) as Hroom. revert fuel.
  induction j as [|j IH]; intros fuel Hj Hf; (destruct fuel as [|fuel]; [lia|]); cbn [scanStores];
    rewrite (proj2 (Z.eqb_neq _ (-1))) by (by apply pos_not_m1); cbn [orb]; rewrite W1.
  - replace w with 0%nat by lia. rewrite Z.eqb_refl. exists None. split; [done|]. intros. lia.
  - destruct (decide (S j = w)) as [->|Hne].
    { rewrite Z.eqb_refl. exists None. split; [done|]. intros. lia. }
    rewrite (proj2 (Z.eqb_neq _ _)) by (intros E%(pos_inj _ _ Hh); lia).
    unfold decrStIdx. rewrite pos_pred by done. destruct (lookup_lt_is_Some_2 St j ltac:(lia)) as [e He].
    unfold store_at. rewrite (ring_get _ _ _ _ _ _ _ _ R He). cbn [mbind res_bind].
    rewrite Forall_forall in Hst. pose proof (list_elem_of_lookup_2 _ _ _ He) as Hin.
    destruct (Hst e Hin) as (p & d & Hp & Hd & _ & _ & Hx). unfold assert_inst. rewrite Hp. cbn [mbind res_bind].
    unfold lsq_inst. rewrite Hd. cbn [deref mbind res_bind].
    assert (Hrec : passed e →
      ∃ r, scanStores fuel req (pos (SQEntries u) (storeHead u) j) u = Ok r
        ∧ match r with
          | None => ∀ k e, (w ≤ k < S j)%nat → St !! k = Some e → passed e
          | Some (idx, c) =>
              ∃ k e, (w ≤ k < S j)%nat ∧ idx = pos (SQEntries u) (storeHead u) k ∧ St !! k = Some e ∧ stops c e
                ∧ ∀ k' e', (k < k' < S j)%nat → St !! k' = Some e' → passed e'
          end).
    { intros Hno. destruct (IH fuel ltac:(lia) ltac:(lia)) as (r & E & Hr). exists r. split; [exact E|].
      destruct r as [[idx c]|].
      - destruct Hr as (k & e1 & Hk & Hidx & He1 & Hpart & Hothers). exists k, e1. split_and!; try done; try lia.
        intros k' e' Hk' He'. destruct (decide (k' = j)) as [->|]; [by simplify_eq|]. apply (Hothers k'); [lia|done].
      - intros k e1 Hk He1. destruct (decide (k = j)) as [->|]; [by simplify_eq|]. apply (Hr k); [lia|done]. }
    destruct (forwardable e d) eqn:Ef; cbn [negb].
    + destruct (Hx (forwardable_size _ _ Ef)) as [Hv _]. rewrite Hv. cbn [assert mbind res_bind].
      destruct (coverage req (effAddr d) (sq_size e)) eqn:Ec.
      1,2: (eexists; split; [reflexivity|]; exists j, e; split; [lia|]; split; [done|]; split; [done|]; split;
            [by exists p, d|intros; lia]).
      apply Hrec. by exists p, d.
    + apply Hrec. exists p, d. by rewrite Ef.
Qed.
End scan.

(** ** The reference *)
Section source.
Implicit Types (h : heap) (l : list SQEntry) (e : SQEntry) (a v : Z) (n i : nat).

Lemma latest_app h l1 l2 a :
  (∀ e, e ∈ l1 → store_byte h e a = None) → latest_byte h (l1 ++ l2) a = latest_byte h l2 a.
Proof.
  induction l1 as [|e l IH]; intros Hn; [done|]. cbn. rewrite (Hn e) by left. apply IH. intros e' He. apply Hn. by right.
Qed.

Lemma bytes_of_lookup h e v n i : (i < n)%nat → bytes_of h e v n !! i = Some (store_byte h e (v + Z.of_nat i)).
Proof. intros Hi. unfold bytes_of. by rewrite list_lookup_fmap, lookup_seq_lt. Qed.
(** A store has none of the bytes, or at least one. *)
Lemma bytes_none h e v n :
  forallb (λ b, bool_decide (b = None)) (bytes_of h e v n) = true ↔ ∀ i, (i < n)%nat → store_byte h e (v + Z.of_nat i) = None.
Proof.
  rewrite <- Is_true_true, forallb_True, Forall_lookup. split.
  - intros H i Hi. pose proof (H i _ (bytes_of_lookup h e v n i Hi)) as Hb. by apply bool_decide_unpack in Hb.
  - intros H i b Hb. assert (Hi : (i < n)%nat) by (apply lookup_lt_Some in Hb; unfold bytes_of in Hb; by rewrite length_fmap, length_seq in Hb).
    rewrite bytes_of_lookup in Hb by done. injection Hb as <-. apply bool_decide_pack. auto.
Qed.
Lemma bytes_all h e v n bytes :
  mapM id (bytes_of h e v n) = Some bytes ↔ length bytes = n ∧ ∀ i, (i < n)%nat → bytes !! i = store_byte h e (v + Z.of_nat i) ∧ is_Some (bytes !! i).
Proof.
  rewrite mapM_Some, Forall2_lookup. split.
  - intros H. assert (Hn : length bytes = n).
    { apply Forall2_lookup in H. apply Forall2_length in H. unfold bytes_of in H. rewrite length_fmap, length_seq in H. done. }
    split; [done|]. intros i Hi. specialize (H i). rewrite bytes_of_lookup in H by done. inversion H as [x y Hxy E1 E2|]. cbn in Hxy. rewrite Hxy. eauto.
  - intros [Hn H] i. destruct (decide (i < n)%nat) as [Hi|Hi].
    + rewrite bytes_of_lookup by done. destruct (H i Hi) as [E [b Hb]]. rewrite <- E, Hb. by constructor.
    + rewrite !lookup_ge_None_2; [constructor|lia|]. unfold bytes_of. rewrite length_fmap, length_seq. lia.
Qed.

Lemma load_source_skip h (ll : bool) l1 l2 v n :
  (∀ e i, e ∈ l1 → (i < n)%nat → store_byte h e (v + Z.of_nat i) = None) → load_source h ll (l1 ++ l2) v n = load_source h ll l2 v n.
Proof.
  induction l1 as [|e l IH]; intros Hn; [done|]. cbn [load_source app]. rewrite (proj2 (bytes_none h e v n)) by (intros; apply Hn; [left|done]).
  apply IH. intros e' i He. apply Hn. by right.
Qed.
Lemma load_source_here h (ll : bool) e l v n i :
  (i < n)%nat → is_Some (store_byte h e (v + Z.of_nat i)) →
  load_source h ll (e :: l) v n = match mapM id (bytes_of h e v n) with Some b => if ll then Waits else FromStore b | None => Waits end.
Proof.
  intros Hi [b Hb]. cbn [load_source]. destruct (forallb _ _) eqn:E; [|done]. rewrite bytes_none in E. rewrite E in Hb by done. done.
Qed.
(** What the load takes from a store is the latest value of each byte. *)
Lemma load_source_latest h (ll : bool) l v n :
  match load_source h ll l v n with
  | FromStore bytes => length bytes = n ∧ ∀ i, (i < n)%nat → bytes !! i = latest_byte h l (v + Z.of_nat i)
  | Waits => ∃ i, (i < n)%nat ∧ is_Some (latest_byte h l (v + Z.of_nat i))
  | FromMemory => ∀ i, (i < n)%nat → latest_byte h l (v + Z.of_nat i) = None
  end.
Proof.
  induction l as [|e l IH]; [done|]. cbn [load_source latest_byte]. destruct (forallb _ _) eqn:E.
  - rewrite bytes_none in E. destruct (load_source h ll l v n).
    + destruct IH as [Hn IH]. split; [done|]. intros i Hi. rewrite E by done. auto.
    + destruct IH as (i & Hi & Hb). exists i. by rewrite E.
    + intros i Hi. rewrite E by done. auto.
  - assert (Hsome : ∃ i, (i < n)%nat ∧ is_Some (store_byte h e (v + Z.of_nat i))).
    { apply not_true_iff_false in E. rewrite bytes_none in E. destruct (decide (Exists (λ i, is_Some (store_byte h e (v + Z.of_nat i))) (seq 0 n))) as [Hx|Hx].
      - apply Exists_exists in Hx as (i & Hi%elem_of_seq & Hb). exists i. split; [lia|done].
      - destruct E. intros i Hi. apply eq_None_not_Some. intros Hb. apply Hx, Exists_exists. exists i. rewrite elem_of_seq. split; [lia|done]. }
    assert (Hwait : ∃ i, (i < n)%nat ∧ is_Some match store_byte h e (v + Z.of_nat i) with Some b => Some b | None => latest_byte h l (v + Z.of_nat i) end).
    { destruct Hsome as (i & Hi & [b Hb]). exists i. rewrite Hb. by eauto. }
    destruct (mapM id _) as [bytes|] eqn:Eb; [|done]. destruct ll; [done|]. apply bytes_all in Eb as [Hn Hb]. split; [done|].
    intros i Hi. destruct (Hb i Hi) as [E1 [b E2]]. rewrite E2 in E1. by rewrite <- E1.
Qed.
Lemma load_source_ext h h' (ll : bool) l v n :
  (∀ e a, e ∈ l → store_byte h' e a = store_byte h e a) → load_source h' ll l v n = load_source h ll l v n.
Proof.
  intros H. induction l as [|e l IH]; [done|]. cbn [load_source].
  assert (E : bytes_of h' e v n = bytes_of h e v n) by (apply list_fmap_ext; intros; apply H; left).
  rewrite E, IH; [done|]. intros e' a He. apply H. by right.
Qed.
End source.

(** ** The scan finds the store that decides *)
(** The addresses of the stores are 64-bit numbers; their bytes do not wrap around. *)
Definition addrs64 u St : Prop :=
  ∀ e p d, e ∈ St → sq_inst e = Some p → u_heap u !! p = Some d → 0 ≤ effAddr d < 2 ^ 64.
Definition addrs_ok u St : Prop :=
  ∀ e p d, e ∈ St → sq_inst e = Some p → u_heap u !! p = Some d → sq_size e ≠ 0 → in_range (effAddr d) (sq_size e).

Lemma store_byte_at u (e : SQEntry) p (d : DynInst) (a : Z) :
  sq_inst e = Some p → u_heap u !! p = Some d → forwardable e d = true →
  is_Some (store_byte (u_heap u) e a) ↔ effAddr d ≤ a < effAddr d + sq_size e.
Proof.
  intros Hp Hd Hf. unfold store_byte. rewrite Hp. cbn [mbind option_bind]. rewrite Hd. cbn [mbind option_bind]. rewrite Hf. cbn [andb].
  destruct (Z.leb_spec (effAddr d) a), (Z.ltb_spec a (effAddr d + sq_size e)); cbn;
    (split; [intros [? ?]; (lia || done)|intros ?; (by eauto) || lia]).
Qed.

Section meaning.
Context (u : LSQUnit) (St : list SQEntry) (Ha : addrs_ok u St) (req : Request) (Hreq : in_range (getVaddr req) (getSize req)).
Context (e : SQEntry) (He : e ∈ St).
Let byte (i : nat) : option Z := store_byte (u_heap u) e (getVaddr req + Z.of_nat i).
Let size : nat := Z.to_nat (getSize req).

Lemma passed_bytes (i : nat) : passed u req e → (i < size)%nat → byte i = None.
Proof.
  intros (p & d & Hp & Hd & Hc) Hi. destruct (forwardable e d) eqn:Hf.
  - apply eq_None_not_Some. unfold byte. rewrite (store_byte_at u e p d) by done.
    pose proof (coverage_spec req (effAddr d) (sq_size e) Hreq (Ha e p d He Hp Hd (forwardable_size _ _ Hf))) as Hs. rewrite Hc in Hs by done.
    destruct Hreq as (_ & ? & _). unfold size in Hi. lia.
  - unfold byte, store_byte. rewrite Hp. cbn [mbind option_bind]. rewrite Hd. cbn [mbind option_bind]. by rewrite Hf.
Qed.
Lemma covers_bytes :
  stops u req Covers e → isLLSC req = false ∧ (0 < size)%nat ∧ ∀ i, (i < size)%nat → is_Some (byte i).
Proof.
  intros (p & d & Hp & Hd & Hf & Hc & _).
  pose proof (coverage_spec req (effAddr d) (sq_size e) Hreq (Ha e p d He Hp Hd (forwardable_size _ _ Hf))) as Hs. rewrite Hc in Hs.
  destruct Hs as (Hll & Hlo & Hhi). destruct Hreq as (_ & ? & _). split; [done|]. unfold size. split; [lia|]. intros i Hi.
  unfold byte. rewrite (store_byte_at u e p d) by done. lia.
Qed.
Lemma overlaps_bytes :
  stops u req Overlaps e →
  (∃ i, (i < size)%nat ∧ is_Some (byte i)) ∧ (isLLSC req = true ∨ ∃ i, (i < size)%nat ∧ byte i = None).
Proof.
  intros (p & d & Hp & Hd & Hf & Hc & _). pose proof (Ha e p d He Hp Hd (forwardable_size _ _ Hf)) as Hr.
  pose proof (coverage_spec req (effAddr d) (sq_size e) Hreq Hr) as Hs. rewrite Hc in Hs.
  destruct Hs as (Hlo & Hhi & Hpart), Hreq as (_ & Hn & _), Hr as (_ & Hz & _).
  assert (Hb : ∀ z, getVaddr req ≤ z < getVaddr req + getSize req →
            ∃ i, (i < size)%nat ∧ byte i = store_byte (u_heap u) e z).
  { intros z Hz'. exists (Z.to_nat (z - getVaddr req)). unfold size, byte. split; [lia|]. f_equal. lia. }
  split.
  - destruct (Hb (Z.max (effAddr d) (getVaddr req)) ltac:(lia)) as (i & Hi & Ei). exists i. split; [done|]. rewrite Ei, (store_byte_at u e p d) by done. lia.
  - destruct Hpart as [?|Hpart]; [by left|]. right.
    destruct (Hb (if decide (getVaddr req < effAddr d) then getVaddr req else getVaddr req + getSize req - 1)) as (i & Hi & Ei);
      [destruct (decide _); lia|]. exists i. split; [done|]. rewrite Ei. apply eq_None_not_Some. rewrite (store_byte_at u e p d) by done. destruct (decide _); lia.
Qed.
End meaning.

Lemma elem_of_window {A} (l : list A) (w j : nat) (x : A) :
  x ∈ drop w (take j l) → ∃ k, (w ≤ k < j)%nat ∧ l !! k = Some x.
Proof.
  intros [i Hi]%list_elem_of_lookup. rewrite lookup_drop in Hi. exists (w + i)%nat.
  destruct (decide (w + i < j)%nat) as [Hlt|]; [|rewrite lookup_take_ge in Hi; [done|lia]].
  rewrite lookup_take_lt in Hi by done. split; [lia|done].
Qed.
Lemma window_split {A} (l : list A) (w j k : nat) (x : A) :
  (w ≤ k < j)%nat → l !! k = Some x → drop w (take j l) = drop w (take k l) ++ x :: drop (S k) (take j l).
Proof.
  intros Hk Hx. assert (Hx' : take j l !! k = Some x) by (by rewrite lookup_take_lt by lia).
  rewrite <- (take_drop_middle _ _ _ Hx') at 1. rewrite take_take, Nat.min_l by lia. apply drop_app_le.
  rewrite length_take. apply lookup_lt_Some in Hx. lia.
Qed.

Section read.
Context (cache_accepts : list Call → Packet → bool) (handleIprRead : Request → list Z).
Context (u : LSQUnit) (L : list InstPtr) (St : list SQEntry) (w : nat) (Hi : lsq_inv u L St w).
Context (k : nat) (p : InstPtr) (d : DynInst) (Hk : L !! k = Some p) (Hp : u_heap u !! p = Some d).

Lemma read_load : loadQueue u !! Z.to_nat (pos (LQEntries u) (loadHead u) k) = Some (Some p).
Proof.
  destruct Hi as [[R _ _ _ _ _ _ _] _ _ _ _ _].
  assert (Hs : (Some <$> L) !! k = Some (Some p)) by (by rewrite list_lookup_fmap, Hk).
  by apply (ring_get _ _ _ _ _ _ _ _ R), vget_ok in Hs as [_ ?].
Qed.

(** The stores not handed to the cache that are older than the load start at [w]. *)
Lemma older_ge_w : (w ≤ older (seqNum d) (sseqs (u_heap u) St) ≤ length St)%nat.
Proof.
  destruct Hi as [[_ _ _ Hl _ _ Hso _] [_ W2 _ W4 _] Hc _ _ _].
  split; [|unfold sseqs; rewrite <- (length_fmap (ssn (u_heap u)) St); apply older_le].
  destruct (decide (w = 0)%nat) as [->|Hw]; [lia|]. destruct (lookup_lt_is_Some_2 St (w - 1) ltac:(lia)) as [e He].
  assert (Hlt : ssn (u_heap u) e < seqNum d).
  { replace (seqNum d) with (lsn (u_heap u) p) by (unfold lsn; by rewrite Hp).
    apply Hc; [by apply list_elem_of_lookup_2 with (w - 1)%nat|apply (W4 (w - 1)%nat); [done|lia]|by apply list_elem_of_lookup_2 with k]. }
  pose proof (older_lookup (seqNum d) _ (w - 1) (ssn (u_heap u) e) Hso) as Ho. rewrite Ho in Hlt; [lia|].
  unfold sseqs. by rewrite list_lookup_fmap, He.
Qed.

Context (req : Request).
Let olders := older_stores (u_heap u) St w (seqNum d).

(** What the scan of [read] finds. *)
Lemma read_scan :
  ∃ r, scanStores (S (Z.to_nat (SQEntries u))) req (sqIdx d) u = Ok r
    ∧ match r with
      | None => ∀ e, e ∈ olders → e ∈ St ∧ passed u req e
      | Some (idx, c) =>
          ∃ i e l1 l2, (w ≤ i)%nat ∧ idx = pos (SQEntries u) (storeHead u) i ∧ St !! i = Some e
            ∧ ssn (u_heap u) e < seqNum d ∧ stops u req c e
            ∧ olders = l1 ++ e :: l2 ∧ ∀ e', e' ∈ l1 → e' ∈ St ∧ passed u req e'
      end.
Proof.
  pose proof older_ge_w as Hj. pose proof Hi as [[_ R _ Hl _ _ Hso _] _ _ _ _ _]. rewrite Forall_forall in Hl.
  destruct (Hl p (list_elem_of_lookup_2 _ _ _ Hk)) as (d' & Hd' & _ & Hidx). rewrite Hp in Hd'. injection Hd' as <-.
  pose proof (ring_room _ _ _ _ _ _ R) as Hroom. unfold olders, older_stores.
  set (j := older (seqNum d) (sseqs (u_heap u) St)) in *. destruct Hidx as [[Em1 E0]|Ej].
  - exists None. cbn [scanStores]. rewrite Em1. split; [done|]. intros e. rewrite E0, take_0, drop_nil. by intros ?%elem_of_nil.
  - rewrite Ej. destruct (scanStores_ok u L St w Hi req j (S (Z.to_nat (SQEntries u)))) as (r & E & Hr); [lia..|].
    exists r. split; [exact E|]. destruct r as [[idx c]|].
    + destruct Hr as (i & e & Hi' & Hx & He & Hpart & Hno).
      exists i, e, (reverse (drop (S i) (take j St))), (reverse (drop w (take i St))). split_and!; try done; try lia.
      * apply (older_lookup (seqNum d) (sseqs (u_heap u) St) i); [done|unfold sseqs; by rewrite list_lookup_fmap, He|]. fold j. lia.
      * by rewrite (window_split _ _ _ _ _ Hi' He), reverse_app, reverse_cons, <- app_assoc.
      * intros e' He'. rewrite elem_of_reverse in He'. apply elem_of_window in He' as (k' & Hk' & Hlk).
        split; [by eapply list_elem_of_lookup_2|]. apply (Hno k'); [lia|done].
    + intros e He. rewrite elem_of_reverse in He. apply elem_of_window in He as (k' & Hk' & Hlk).
      split; [by eapply list_elem_of_lookup_2|]. by apply (Hr k').
Qed.

(** ** The three outcomes *)
Lemma forwardData_ok (i : nat) (e : SQEntry) :
  addrs64 u St → in_range (getVaddr req) (getSize req) → St !! i = Some e → stops u req Covers e →
  ∃ u' pkt, forwardData req p (pos (SQEntries u) (storeHead u) i) u = Ok u' ∧ lsq_inv u' L St w
    ∧ calls u' = calls u ++ [ScheduleWriteback p pkt] ∧ pk_req pkt = req
    ∧ ((∀ i, (i < Z.to_nat (getSize req))%nat → is_Some (store_byte (u_heap u) e (getVaddr req + Z.of_nat i))) →
       (0 < Z.to_nat (getSize req))%nat →
       mapM id (bytes_of (u_heap u) e (getVaddr req) (Z.to_nat (getSize req))) = Some (pk_data pkt)).
Proof.
  intros H64 Hr He (sp & s & Hsp & Hs & Hf & Hc & _). pose proof Hi as [[_ R _ _ _ _ _ Hda] _ _ _ _ _]. rewrite Forall_forall in Hda.
  destruct (Hda e (list_elem_of_lookup_2 _ _ _ He)) as (Hlen & Hsz & H16).
  unfold forwardData, store_at. rewrite (ring_get _ _ _ _ _ _ _ _ R He). cbn [mbind res_bind]. rewrite Hsp. cbn [deref mbind res_bind].
  unfold lsq_inst. rewrite Hs. cbn [deref mbind res_bind].
  assert (Hcopy : (if isAllZeros e then Ok (replicate (Z.to_nat (getSize req)) 0) else copy (sq_data e) (getVaddr req - effAddr s) (getSize req))
    = Ok (if isAllZeros e then replicate (Z.to_nat (getSize req)) 0
          else take (Z.to_nat (getSize req)) (drop (Z.to_nat (getVaddr req - effAddr s)) (sq_data e)))).
  { destruct (isAllZeros e); [done|]. specialize (H16 eq_refl). unfold copy.
    destruct (covers_inside req (effAddr s) (sq_size e) Hr (H64 e sp s (list_elem_of_lookup_2 _ _ _ He) Hsp Hs) ltac:(lia) Hc).
    by rewrite (proj2 (Z.leb_le _ _)), (proj2 (Z.leb_le _ _)) by lia. }
  rewrite Hcopy. cbn [mbind res_bind]. eexists _, _. split; [reflexivity|].
  split; [|split; [reflexivity|split; [reflexivity|]]].
  - apply (lsq_inv_view (on_inst p (λ d, d <| memData := Some (if isAllZeros e then replicate (Z.to_nat (getSize req)) 0
      else take (Z.to_nat (getSize req)) (drop (Z.to_nat (getVaddr req - effAddr s)) (sq_data e))) |>) u)); [done|].
    apply lsq_inv_load; [done|by apply list_elem_of_lookup_2 with k|done].
  - intros Hall Hn. set (n := Z.to_nat (getSize req)) in *. cbn [pk_data].
    assert (Hin : ∀ i, (i < n)%nat → effAddr s ≤ getVaddr req + Z.of_nat i < effAddr s + sq_size e).
    { intros i' Hi'. by apply (store_byte_at u e sp s), Hall. }
    pose proof (Hin 0%nat Hn). pose proof (Hin (n - 1)%nat ltac:(lia)). apply bytes_all. split.
    { destruct (isAllZeros e); [apply length_replicate|]. specialize (H16 eq_refl). rewrite length_take, length_drop. lia. }
    intros m Hm. unfold store_byte. rewrite Hsp. cbn [mbind option_bind]. rewrite Hs. cbn [mbind option_bind]. specialize (Hin m Hm).
    rewrite Hf, (proj2 (Z.leb_le _ _)), (proj2 (Z.ltb_lt _ _)) by lia. cbn [andb].
    destruct (isAllZeros e); [by rewrite lookup_replicate_2|]. specialize (H16 eq_refl). rewrite lookup_take_lt, lookup_drop by done.
    replace (Z.to_nat (getVaddr req + Z.of_nat m - effAddr s)) with (Z.to_nat (getVaddr req - effAddr s) + m)%nat by lia.
    destruct (lookup_lt_is_Some_2 (sq_data e) (Z.to_nat (getVaddr req - effAddr s) + m)) as [b ->]; [lia|done].
Qed.

Lemma stallLoad_ok (i : nat) (e : SQEntry) :
  (w ≤ i)%nat → St !! i = Some e → ssn (u_heap u) e < seqNum d →
  ∃ u', stallLoad (pos (LQEntries u) (loadHead u) k) p (pos (SQEntries u) (storeHead u) i) u = Ok u'
    ∧ lsq_inv u' L St w ∧ calls u' = calls u ++ [RescheduleMemInst p] ∧ stalled u' = true.
Proof.
  intros Hw He Hlt. pose proof Hi as [Hqs Hwb Hc Hsl Hv Hse]. pose proof Hqs as [Rl R Hsz Hl Hst Ho1 Ho2 Hda].
  pose proof (wo_unsent _ _ _ Hwb i e He Hw) as Hnc. rewrite Forall_forall in Hst.
  destruct (Hst e (list_elem_of_lookup_2 _ _ _ He)) as (sp & s & Hsp & Hs & _).
  unfold ssn, lsn in Hlt. rewrite Hsp, Hs in Hlt.
  unfold stallLoad, store_at. rewrite (ring_get _ _ _ _ _ _ _ _ R He). cbn [mbind res_bind]. rewrite Hsp. cbn [deref mbind res_bind].
  unfold lsq_inst. rewrite Hs. cbn [deref mbind res_bind]. rewrite Hp. cbn [deref mbind res_bind]. rewrite Hnc. cbn [panic_if mbind res_bind].
  assert (Hst' : ∀ b : bool, b = true ∨ stalled u = true →
    let u1 := if b then u <| stalled := true |> <| stallingStoreIsn := seqNum s |>
                         <| stallingLoadIdx := pos (LQEntries u) (loadHead u) k |> else u in
    lsq_inv u1 L St w ∧ stalled u1 = true ∧ calls u1 = calls u).
  { intros [] Hb; [|destruct Hb; [done|]; by split]. split; [|done]. split; [by destruct Hqs|by destruct Hwb|done| |done|by destruct Hse].
    intros _. exists k, p. split; [done|]. split; [done|]. change (seqNum s < lsn (u_heap u) p). unfold lsn. by rewrite Hp. }
  assert (E : ∃ b : bool, (if stalled u then q ← load_at (stallingLoadIdx u) u; d' ← deref (u_heap u !! q); Ok (seqNum d <? seqNum d')
    else Ok true) = Ok b ∧ (b = true ∨ stalled u = true)).
  { destruct (stalled u) eqn:Es; [|exists true; auto]. destruct (Hsl Es) as (k' & q & Hk' & Hx & _). unfold load_at.
    rewrite Hx, (ring_get _ _ _ _ _ _ k' (Some q) Rl) by (by rewrite list_lookup_fmap, Hk'). cbn [mbind res_bind deref].
    pose proof (loads_alive _ _ _ _ _ Hl) as Hal. rewrite Forall_forall in Hal.
    destruct (Hal q (list_elem_of_lookup_2 _ _ _ Hk')) as [dq ->]. cbn. by eauto. }
  destruct E as (b & -> & Hb). cbn [mbind res_bind]. destruct (Hst' b Hb) as (Hi1 & Ht & Ecalls).
  eexists. split; [reflexivity|]. split; [|split; [|exact Ht]].
  - apply lsq_inv_load; [|by apply list_elem_of_lookup_2 with k|done]. by eapply lsq_inv_view; [|exact Hi1].
  - change (calls (if b then u <| stalled := true |> <| stallingStoreIsn := seqNum s |>
      <| stallingLoadIdx := pos (LQEntries u) (loadHead u) k |> else u) ++ [RescheduleMemInst p] = calls u ++ [RescheduleMemInst p]).
    by rewrite Ecalls.
Qed.

Lemma accessMemory_ok (low high : option Request) :
  (is_Some low → is_Some high) →
  ∃ u' pkt ok cs, accessMemory cache_accepts req low high (pos (LQEntries u) (loadHead u) k) p u = Ok u'
    ∧ lsq_inv u' L St w ∧ calls u' = calls u ++ SendTimingReq pkt ok :: cs ∧ pk_req pkt = default req low.
Proof.
  intros Hlh. unfold accessMemory, lsq_inst. rewrite Hp. cbn [deref mbind res_bind].
  set (u1 := if bool_decide _ then u else _).
  assert (Hi1 : lsq_inv u1 L St w ∧ calls u1 = calls u).
  { unfold u1. destruct (bool_decide _); [done|]. split; [|done]. apply lsq_inv_load; [done|by apply list_elem_of_lookup_2 with k|done]. }
  clearbody u1. destruct Hi1 as [Hi1 <-]. unfold sendTimingReq. destruct low as [low|].
  - destruct (Hlh ltac:(by eexists)) as [hi ->]. cbn [deref mbind res_bind].
    destruct (cache_accepts _ _); cbn [negb].
    + destruct (cache_accepts _ _).
      * eexists _, _, _, _. split; [reflexivity|]. split; [by eapply lsq_inv_view; [|exact Hi1]|]. split; [cbn; rewrite <- !app_assoc; reflexivity|reflexivity].
      * eexists _, _, _, _. split; [reflexivity|]. split; [by eapply lsq_inv_view; [|exact Hi1]|]. split; [cbn; rewrite <- !app_assoc; reflexivity|reflexivity].
    + eexists _, _, _, _. split; [reflexivity|]. split; [by eapply lsq_inv_view; [|exact Hi1]|]. split; [cbn; rewrite <- !app_assoc; reflexivity|reflexivity].
  - destruct (cache_accepts _ _).
    + eexists _, _, _, _. split; [reflexivity|]. split; [by eapply lsq_inv_view; [|exact Hi1]|]. split; reflexivity.
    + eexists _, _, _, _. split; [reflexivity|]. split; [by eapply lsq_inv_view; [|exact Hi1]|]. split; [cbn; rewrite <- !app_assoc; reflexivity|reflexivity].
Qed.

(** What [read] does with a request for ordinary memory. *)
Definition outcome (low : option Request) (src : LoadSource) u' : Prop :=
  match src with
  | FromStore bytes => ∃ pkt, calls u' = calls u ++ [ScheduleWriteback p pkt] ∧ pk_req pkt = req ∧ pk_data pkt = bytes
  | Waits => calls u' = calls u ++ [RescheduleMemInst p] ∧ stalled u' = true
  | FromMemory => ∃ pkt ok cs, calls u' = calls u ++ SendTimingReq pkt ok :: cs ∧ pk_req pkt = default req low
  end.
Definition readQueues (low high : option Request) : res LSQUnit :=
  found ← scanStores (S (Z.to_nat (SQEntries u))) req (sqIdx d) u;
  match found with
  | Some (store_idx, Covers) => forwardData req p store_idx u
  | Some (store_idx, _) => stallLoad (pos (LQEntries u) (loadHead u) k) p store_idx u
  | None => accessMemory cache_accepts req low high (pos (LQEntries u) (loadHead u) k) p u
  end.

Lemma readQueues_ok (low high : option Request) :
  addrs64 u St → in_range (getVaddr req) (getSize req) → (is_Some low → is_Some high) →
  ∃ u', readQueues low high = Ok u' ∧ lsq_inv u' L St w
    ∧ (addrs_ok u St →
       outcome low (load_source (u_heap u) (isLLSC req) olders (getVaddr req) (Z.to_nat (getSize req))) u').
Proof.
  intros H64 Hreq Hlh. unfold readQueues. destruct read_scan as (r & -> & Hr). cbn [mbind res_bind].
  assert (Hskip : ∀ l1 l2, addrs_ok u St → (∀ e, e ∈ l1 → e ∈ St ∧ passed u req e) →
    load_source (u_heap u) (isLLSC req) (l1 ++ l2) (getVaddr req) (Z.to_nat (getSize req))
    = load_source (u_heap u) (isLLSC req) l2 (getVaddr req) (Z.to_nat (getSize req))).
  { intros l1 l2 Ha Hl1. apply load_source_skip. intros e i [He Hps]%Hl1 Hi'. by eapply passed_bytes. }
  destruct r as [[idx c]|].
  - destruct Hr as (i & e & l1 & l2 & Hwi & -> & He & Hlt & Hst & -> & Hl1). pose proof (list_elem_of_lookup_2 _ _ _ He) as Hin. destruct c.
    + destruct (forwardData_ok i e H64 Hreq He Hst) as (u' & pkt & -> & Hi' & Hc & Hrq & Hb). exists u'. split; [done|]. split; [done|].
      intros Ha. rewrite Hskip by done. destruct (covers_bytes u St Ha req Hreq e Hin Hst) as (Hll & Hn & Hall).
      rewrite (load_source_here _ _ _ _ _ _ 0%nat Hn (Hall 0%nat Hn)), (Hb Hall Hn), Hll. by exists pkt.
    + destruct (stallLoad_ok i e Hwi He Hlt) as (u' & -> & Hi' & Hc & Hs). exists u'. split; [done|]. split; [done|].
      intros Ha. rewrite Hskip by done. destruct (overlaps_bytes u St Ha req Hreq e Hin Hst) as ((i0 & Hi0 & Hb0) & Hno).
      rewrite (load_source_here _ _ _ _ _ _ i0 Hi0 Hb0). destruct (mapM id _) as [bytes|] eqn:Eb; [|done].
      destruct Hno as [->|(i1 & Hi1 & Hb1)]; [done|]. apply bytes_all in Eb as [_ Eb]. destruct (Eb i1 Hi1) as [E1 E2]. rewrite E1, Hb1 in E2. by destruct E2.
    + by destruct Hst as (? & ? & _ & _ & _ & _ & []).
  - destruct (accessMemory_ok low high Hlh) as (u' & pkt & ok & cs & -> & Hi' & Hc & Hr'). exists u'. split; [done|]. split; [done|].
    intros Ha. rewrite <- (app_nil_r olders), Hskip by done. cbn. by exists pkt, ok, cs.
Qed.

(** A register mapped into memory is read at once; nothing may have been read before. *)
Definition ipr_ok (low high : option Request) : Prop :=
  memData d = None ∧ (is_Some low → isMmappedIpr <$> low = Some true ∧ isMmappedIpr <$> high = Some true).
Lemma readIpr_ok (low high : option Request) :
  ipr_ok low high →
  ∃ u' pkt, readIpr handleIprRead req low high p u = Ok u' ∧ lsq_inv u' L St w ∧ calls u' = calls u ++ [ScheduleWriteback p pkt].
Proof.
  intros [Hm Hlh]. unfold readIpr. rewrite (lsq_inst_ok _ _ _ Hp). cbn [mbind res_bind]. rewrite Hm. cbn [bool_decide negb assert mbind res_bind].
  assert (Hend : ∀ bytes, lsq_inv (on_inst p (λ d, d <| memData := Some (take 64 (bytes ++ replicate 64 0)) |>) u) L St w).
  { intros bytes. apply lsq_inv_load; [done|by apply list_elem_of_lookup_2 with k|done]. }
  destruct low as [low|]; cbn [mbind res_bind].
  - destruct (Hlh ltac:(by eexists)) as [[= E1] E2]. destruct high as [high|]; [|done]. injection E2 as E2. cbn [deref mbind res_bind].
    rewrite E1, E2. cbn [andb assert mbind res_bind]. eexists _, _. split; [reflexivity|]. split; [|reflexivity].
    by eapply lsq_inv_view; [|apply Hend].
  - eexists _, _. split; [reflexivity|]. split; [|reflexivity]. by eapply lsq_inv_view; [|apply Hend].
Qed.
End read.

(** ** The whole of [read] *)
Section lsq_read.
Context (cache_accepts : list Call → Packet → bool) (handleIprRead : Request → list Z).
Context (u : LSQUnit) (L : list InstPtr) (St : list SQEntry) (w : nat) (Hi : lsq_inv u L St w).
Context (k : nat) (p : InstPtr) (d : DynInst) (Hk : L !! k = Some p) (Hp : u_heap u !! p = Some d).
Context (req : Request) (low high : option Request).

(** The order of strictly ordered accesses: only at the head of the load queue, and only
    when the load is at commit. *)
Definition too_early : bool := isStrictlyOrdered req && (negb (bool_decide (k = 0%nat)) || negb (isAtCommit d)).
Record request_ok : Prop := {
  rq_range : isMmappedIpr req = false → in_range (getVaddr req) (getSize req);
  rq_llsc : isLLSC req = true → low = None;
  rq_split : is_Some low → is_Some high;
  rq_ipr : isMmappedIpr req = true → ipr_ok d low high;
}.

Lemma load_at_head : (pos (LQEntries u) (loadHead u) k =? loadHead u) = bool_decide (k = 0%nat).
Proof.
  pose proof (qo_lq _ _ _ (li_queues _ _ _ _ Hi)) as R. pose proof (ring_head _ _ _ _ _ _ R) as Hh.
  pose proof (ring_room _ _ _ _ _ _ R) as Hroom. rewrite length_fmap in Hroom. pose proof (lookup_lt_Some _ _ _ Hk).
  rewrite <- (pos_0 (LQEntries u) (loadHead u) Hh) at 2. destruct (Z.eqb_spec (pos (LQEntries u) (loadHead u) k) (pos (LQEntries u) (loadHead u) 0)) as [E|E].
  - apply pos_inj in E; [|done|lia|lia]. by rewrite bool_decide_true.
  - rewrite bool_decide_false; [done|]. by intros ->.
Qed.

(** A change of the load itself does not change what it sees. *)
Lemma on_load_source (f : DynInst → DynInst) (s : Z) :
  let u1 := on_inst p f u in
  (addrs_ok u St → addrs_ok u1 St) ∧ (addrs64 u St → addrs64 u1 St)
  ∧ ∀ ll v n, load_source (u_heap u1) ll (older_stores (u_heap u1) St w s) v n
              = load_source (u_heap u) ll (older_stores (u_heap u) St w s) v n.
Proof.
  intros u1. assert (Hst : ∀ e q, e ∈ St → sq_inst e = Some q → u_heap u1 !! q = u_heap u !! q).
  { intros e q He Hq. unfold u1. rewrite on_inst_heap, lookup_alter_ne; [done|].
    intros <-. by apply (load_not_store u L St w p e Hi); [by apply list_elem_of_lookup_2 with k|..]. }
  assert (Hss : sseqs (u_heap u1) St = sseqs (u_heap u) St).
  { apply list_fmap_ext. intros i e He. unfold ssn. destruct (sq_inst e) as [q|] eqn:Hq; [|done]. unfold lsn.
    by rewrite (Hst e q (list_elem_of_lookup_2 _ _ _ He) Hq). }
  split; [intros Had e q dq He Hq Hdq Hz; rewrite (Hst e q He Hq) in Hdq; by apply (Had e q dq)|].
  split; [intros Had e q dq He Hq Hdq; rewrite (Hst e q He Hq) in Hdq; by apply (Had e q dq)|].
  intros ll v n. unfold older_stores at 1. rewrite Hss. apply load_source_ext. intros e a He.
  unfold older_stores in He. rewrite elem_of_reverse in He. apply elem_of_window in He as (? & _ & He%list_elem_of_lookup_2).
  unfold store_byte. destruct (sq_inst e) as [q|] eqn:Hq; [|done]. cbn [mbind option_bind]. by rewrite (Hst e q He Hq).
Qed.

Lemma lsq_read_ok :
  isExecuted d = false → addrs64 u St → request_ok →
  ∃ f u', lsq_read cache_accepts handleIprRead req low high (pos (LQEntries u) (loadHead u) k) u = Ok (f, u') ∧ lsq_inv u' L St w
    ∧ (if too_early then f = M5PanicFault ∧ calls u' = calls u ++ [RescheduleMemInst p]
       else f = NoFault
         ∧ (isMmappedIpr req = false → addrs_ok u St →
            outcome u p req low (load_source (u_heap u) (isLLSC req) (older_stores (u_heap u) St w (seqNum d))
                                   (getVaddr req) (Z.to_nat (getSize req))) u')).
Proof.
  intros Hex H64 [Hr Hll Hlh Hipr]. unfold lsq_read. pose proof (qo_lq _ _ _ (li_queues _ _ _ _ Hi)) as R.
  rewrite (ring_get _ _ _ _ _ _ k (Some p) R) by (by rewrite list_lookup_fmap, Hk). cbn [mbind res_bind].
  rewrite (lsq_inst_ok _ _ _ Hp). cbn [mbind res_bind]. rewrite Hex. cbn [negb assert mbind res_bind].
  rewrite load_at_head. change (isStrictlyOrdered req && _) with too_early. destruct too_early.
  { eexists _, _. split; [reflexivity|]. split; [by eapply lsq_inv_view; [|exact Hi]|done]. }
  assert (Ha : negb (isLLSC req) || negb (bool_decide (is_Some low)) = true).
  { destruct (isLLSC req); [|done]. by rewrite (Hll eq_refl). }
  rewrite Ha. cbn [assert mbind res_bind]. set (u1 := if isLLSC req then _ else u).
  set (d1 := if isLLSC req then fl_assign RecordResult true d else d).
  assert (H1 : lsq_inv u1 L St w) by (unfold u1; destruct (isLLSC req); [|done]; apply lsq_inv_load; [done|by apply list_elem_of_lookup_2 with k|]; intros x; by apply lkey_assign).
  assert (Hp1 : u_heap u1 !! p = Some d1) by (unfold u1, d1; destruct (isLLSC req); [rewrite on_inst_heap, lookup_alter_eq, Hp|]; done).
  assert (Ed : sqIdx d1 = sqIdx d ∧ seqNum d1 = seqNum d ∧ memData d1 = memData d) by (unfold d1; by destruct (isLLSC req)).
  destruct Ed as (Ed1 & Ed2 & Ed3).
  assert (Eu : calls u1 = calls u ∧ LQEntries u1 = LQEntries u ∧ loadHead u1 = loadHead u ∧ SQEntries u1 = SQEntries u)
    by (unfold u1; by destruct (isLLSC req)). destruct Eu as (Eu1 & Eu2 & Eu3 & Eu4).
  destruct (isMmappedIpr req).
  { destruct (readIpr_ok handleIprRead u1 L St w H1 k p d1 Hk Hp1 req low high) as (u' & pkt & -> & Hi' & _).
    { unfold ipr_ok. rewrite Ed3. by apply Hipr. } cbn [mbind res_bind]. by eexists _, _. }
  assert (Hsame : (addrs_ok u St → addrs_ok u1 St) ∧ (addrs64 u St → addrs64 u1 St)
    ∧ ∀ ll v n, load_source (u_heap u1) ll (older_stores (u_heap u1) St w (seqNum d)) v n
      = load_source (u_heap u) ll (older_stores (u_heap u) St w (seqNum d)) v n) by (unfold u1; destruct (isLLSC req); [apply on_load_source|done]).
  destruct Hsame as (Ha1 & Hb1 & Hs).
  destruct (readQueues_ok cache_accepts u1 L St w H1 k p d1 Hk Hp1 req low high (Hb1 H64) (Hr eq_refl) Hlh) as (u' & E & Hi' & Hout).
  unfold readQueues in E. rewrite Ed1, Eu2, Eu3 in E. rewrite E. cbn [mbind res_bind]. eexists _, _. split; [reflexivity|]. split; [done|].
  split; [done|]. intros _ Had. specialize (Hout (Ha1 Had)). rewrite Ed2, Hs in Hout. unfold outcome in *. by rewrite Eu1 in Hout.
Qed.
End lsq_read.
