(* ===== verification/LSQViol.v ===== *)
(** * Loads that ran ahead

    When a store executes, the loads younger than it that have an address are compared
    with it: the oldest one that touches the same bytes is reported, unless an older
    violation is already waiting to be handled. *)

From S2P Require Import Prelude Regs DynInst Ring LSQ LSQInv LSQCommit LSQRead.
From stdpp Require Import sorting list.
Local Open Scope Z_scope.

Section violations.
Context (depCheckShift : Z).
Implicit Types (u : LSQUnit) (L : list InstPtr) (St : list SQEntry) (p q : InstPtr).

(** The units of address that [checkViolations] compares. *)
Definition conflicts (ld : DynInst) (addr1 addr2 : Z) : bool :=
  effAddrValid ld && negb (strictlyOrdered ld)
  && (first_unit depCheckShift ld <=? addr2) && (addr1 <=? last_unit depCheckShift ld).
Definition conflicting (h : heap) (addr1 addr2 : Z) (q : InstPtr) : bool :=
  match h !! q with Some ld => conflicts ld addr1 addr2 | None => false end.

(** Two accesses that share a byte conflict. *)
Lemma share_byte_conflicts (d ld : DynInst) (a : Z) :
  0 ≤ depCheckShift → effAddrValid ld = true → strictlyOrdered ld = false →
  in_range (effAddr d) (effSize d) → in_range (effAddr ld) (effSize ld) →
  effAddr d ≤ a < effAddr d + effSize d → effAddr ld ≤ a < effAddr ld + effSize ld →
  conflicts ld (first_unit depCheckShift d) (last_unit depCheckShift d) = true.
Proof.
  intros Hsh Hv Hso (? & ? & ?) (? & ? & ?) Hd Hl. unfold conflicts, first_unit, last_unit. rewrite Hv, Hso, !u64_small by lia.
  cbn [andb negb]. rewrite !Z.shiftr_div_pow2 by done. pose proof (Z.pow_pos_nonneg 2 depCheckShift ltac:(lia) Hsh).
  apply andb_true_intro. split; apply Z.leb_le; apply Z.div_le_mono; lia.
Qed.

(** The seq number of the recorded violator. *)
Definition recorded (u : LSQUnit) : option Z := v ← memDepViolator u; Some (lsn (u_heap u) v).
(** The first conflicting load of a list. *)
Fixpoint first_conflict (h : heap) (addr1 addr2 : Z) (l : list InstPtr) : option InstPtr :=
  match l with
  | [] => None
  | q :: l => if conflicting h addr1 addr2 q then Some q else first_conflict h addr1 addr2 l
  end.

Lemma first_conflict_alive (h : heap) (a1 a2 : Z) (l : list InstPtr) q : first_conflict h a1 a2 l = Some q → is_Some (h !! q).
Proof.
  induction l as [|x l IH]; cbn; [done|]. destruct (conflicting h a1 a2 x) eqn:E; [|exact IH]. intros [= <-].
  unfold conflicting in E. by destruct (h !! x).
Qed.

Lemma recorded_ok u : violator_ok u →
  (match memDepViolator u with
   | None => Ok None
   | Some v => d ← lsq_inst v u; Ok (Some (seqNum d))
   end) = Ok (recorded u).
Proof.
  intros Hv. unfold recorded. destruct (memDepViolator u) as [v|] eqn:E; [|done]. destruct (Hv v E) as [d Hd].
  unfold lsq_inst, lsn. cbn. by rewrite Hd.
Qed.

(** For a store, the loop stops at the first conflicting load. *)
Lemma violations_store_loop u L St (w : nat) (a1 a2 : Z) p (d : DynInst) (A B : list InstPtr) (fuel : nat) :
  lsq_inv u L St w → L = A ++ B → u_heap u !! p = Some d → isLoad d = false → (length B < fuel)%nat →
  checkViolations_loop depCheckShift fuel a1 a2 (pos (LQEntries u) (loadHead u) (length A)) p u
  = match first_conflict (u_heap u) a1 a2 B with
    | None => Ok (NoFault, u)
    | Some q =>
        if match recorded u with None => false | Some sn => sn <? lsn (u_heap u) q end then Ok (NoFault, u)
        else Ok (M5PanicFault, u <| memDepViolator := Some q |>)
    end.
Proof.
  intros Hi EL Hp Hl. pose proof Hi as [[R _ _ Hld _ _ _ _] _ _ _ Hv _]. pose proof (ring_head _ _ _ _ _ _ R) as Hh.
  pose proof (loads_alive _ _ _ _ _ Hld) as Hal. revert A fuel EL.
  induction B as [|q B IH]; intros A fuel EL Hf; (destruct fuel as [|fuel]; [lia|]); cbn [checkViolations_loop first_conflict];
    rewrite (ring_pos_eqb _ _ _ _ _ _ _ R) by (rewrite length_fmap, EL, length_app; lia).
  - rewrite bool_decide_true; [done|]. rewrite length_fmap, EL, app_nil_r. done.
  - rewrite bool_decide_false by (rewrite length_fmap, EL, length_app; cbn; lia).
    assert (Hq : L !! length A = Some q) by (rewrite EL, lookup_app_r, Nat.sub_diag; [done|lia]).
    unfold load_at. rewrite (ring_get _ _ _ _ _ _ (length A) (Some q) R) by (by rewrite list_lookup_fmap, Hq).
    cbn [mbind res_bind deref]. rewrite Forall_forall in Hal. destruct (Hal q (list_elem_of_lookup_2 _ _ _ Hq)) as [ld Hld'].
    rewrite (lsq_inst_ok _ _ _ Hld'). cbn [mbind res_bind]. unfold conflicting, conflicts. rewrite Hld'.
    assert (Hnext : checkViolations_loop depCheckShift fuel a1 a2 (incrLdIdx u (pos (LQEntries u) (loadHead u) (length A))) p u
      = match first_conflict (u_heap u) a1 a2 B with
        | None => Ok (NoFault, u)
        | Some q =>
            if match recorded u with None => false | Some sn => sn <? lsn (u_heap u) q end then Ok (NoFault, u)
            else Ok (M5PanicFault, u <| memDepViolator := Some q |>)
        end).
    { unfold incrLdIdx. rewrite pos_S by done. replace (S (length A)) with (length (A ++ [q])) by (rewrite length_app; cbn; lia).
      apply IH; [by rewrite <- app_assoc|cbn in Hf; lia]. }
    destruct (effAddrValid ld); [|exact Hnext]. destruct (strictlyOrdered ld); [exact Hnext|]. cbn [negb orb andb].
    destruct (_ && _); [|exact Hnext]. rewrite (lsq_inst_ok _ _ _ Hp). cbn [mbind res_bind].
    rewrite (recorded_ok u Hv). cbn [mbind res_bind]. rewrite Hl. unfold lsn. by rewrite Hld'.
Qed.

Lemma first_conflict_spec (h : heap) (a1 a2 : Z) (l : list InstPtr) :
  StronglySorted Z.lt (lseqs h l) →
  match first_conflict h a1 a2 l with
  | None => ∀ q, q ∈ l → conflicting h a1 a2 q = false
  | Some v => v ∈ l ∧ conflicting h a1 a2 v = true ∧ ∀ q, q ∈ l → conflicting h a1 a2 q = true → lsn h v ≤ lsn h q
  end.
Proof.
  induction l as [|x l IH]; cbn [first_conflict]; [by intros _ q ?%elem_of_nil|]. intros [Hx Hs]%StronglySorted_cons.
  destruct (conflicting h a1 a2 x) eqn:E.
  - split; [left|]. split; [done|]. intros q [->|Hq]%elem_of_cons _; [done|]. rewrite Forall_forall in Hx.
    specialize (Hx (lsn h q)). enough (lsn h x < lsn h q) by lia. apply Hx, list_elem_of_fmap. by exists q.
  - specialize (IH Hs). destruct (first_conflict h a1 a2 l) as [v|].
    + destruct IH as (Hv & Hc & Hmin). split; [by right|]. split; [done|]. intros q [->|Hq]%elem_of_cons Hc'; [congruence|by apply Hmin].
    + intros q [->|Hq]%elem_of_cons; [done|by apply IH].
Qed.

(** For a load, the conflicting loads behind it are marked, up to one that saw an
    invalidation. *)
Lemma violations_load_loop u L St (w : nat) (a1 a2 : Z) p (d : DynInst) (A B : list InstPtr) (fuel : nat) :
  lsq_inv u L St w → L = A ++ B → u_heap u !! p = Some d → isLoad d = true → (length B < fuel)%nat →
  ∃ f u', checkViolations_loop depCheckShift fuel a1 a2 (pos (LQEntries u) (loadHead u) (length A)) p u = Ok (f, u')
    ∧ lsq_inv u' L St w
    ∧ (f = NoFault ∧ memDepViolator u' = memDepViolator u
       ∨ ∃ q, f = M5PanicFault ∧ memDepViolator u' = Some q ∧ q ∈ B).
Proof.
  revert u d A fuel. induction B as [|q B IH]; intros u d A fuel Hi EL Hp Hl Hf; (destruct fuel as [|fuel]; [lia|]);
    pose proof Hi as [[R Rs Hsz Hld Hst Ho1 Ho2 Hda] Hwb Hc Hsl Hv Hse]; pose proof (ring_head _ _ _ _ _ _ R) as Hh;
    cbn [checkViolations_loop]; rewrite (ring_pos_eqb _ _ _ _ _ _ _ R) by (rewrite length_fmap, EL, length_app; lia).
  - rewrite bool_decide_true by (rewrite length_fmap, EL, app_nil_r; done). eexists _, _. split; [reflexivity|]. by auto.
  - rewrite bool_decide_false by (rewrite length_fmap, EL, length_app; cbn; lia).
    assert (Hq : L !! length A = Some q) by (rewrite EL, lookup_app_r, Nat.sub_diag; [done|lia]).
    pose proof (list_elem_of_lookup_2 _ _ _ Hq) as HqL.
    unfold load_at. rewrite (ring_get _ _ _ _ _ _ (length A) (Some q) R) by (by rewrite list_lookup_fmap, Hq).
    cbn [mbind res_bind deref]. pose proof (loads_alive _ _ _ _ _ Hld) as Hal. rewrite Forall_forall in Hal. destruct (Hal q HqL) as [ld Hld'].
    rewrite (lsq_inst_ok _ _ _ Hld'). cbn [mbind res_bind].
    assert (Hnext : ∀ u1, lsq_inv u1 L St w → LQEntries u1 = LQEntries u → loadHead u1 = loadHead u →
        memDepViolator u1 = memDepViolator u → (∃ d1, u_heap u1 !! p = Some d1 ∧ isLoad d1 = true) →
      ∃ f u', checkViolations_loop depCheckShift fuel a1 a2 (incrLdIdx u1 (pos (LQEntries u) (loadHead u) (length A))) p u1 = Ok (f, u')
        ∧ lsq_inv u' L St w
        ∧ (f = NoFault ∧ memDepViolator u' = memDepViolator u ∨ ∃ q0, f = M5PanicFault ∧ memDepViolator u' = Some q0 ∧ q0 ∈ q :: B)).
    { intros u1 Hi1 E1 E2 E3 (d1 & Hd1 & Hl1). unfold incrLdIdx. rewrite E1, pos_S by done.
      replace (S (length A)) with (length (A ++ [q])) by (rewrite length_app; cbn; lia). rewrite <- E1, <- E2.
      destruct (IH u1 d1 (A ++ [q]) fuel Hi1 ltac:(by rewrite <- app_assoc) Hd1 Hl1 ltac:(cbn in Hf; lia)) as (f & u' & E & Hi' & Hr).
      exists f, u'. split; [exact E|]. split; [done|]. rewrite <- E3. destruct Hr as [Hr|(q0 & Hr1 & Hr2 & Hr3)]; [by left|right].
      exists q0. split_and!; [done..|by right]. }
    assert (Hsame : ∃ d1, u_heap u !! p = Some d1 ∧ isLoad d1 = true) by (by exists d).
    destruct (negb (effAddrValid ld) || strictlyOrdered ld); [by apply Hnext|]. destruct (_ && _); [|by apply Hnext].
    rewrite (lsq_inst_ok _ _ _ Hp). cbn [mbind res_bind]. rewrite (recorded_ok u Hv). cbn [mbind res_bind]. rewrite Hl.
    destruct (_ && _).
    + eexists _, _. split; [reflexivity|]. split; [|right; exists q; by split_and!; [..|left]].
      split; [by split|by destruct Hwb|done|done| |by destruct Hse]. intros v [= <-]. by exists ld.
    + apply Hnext; [apply lsq_inv_load; [done..|intros; by apply lkey_assign]|done..|]. destruct (decide (q = p)) as [->|Hne].
      * exists (set_possibleLoadViolation true d). split; [by rewrite on_inst_heap, lookup_alter_eq, Hp|done].
      * exists d. split; [by rewrite on_inst_heap, lookup_alter_ne|done].
Qed.
End violations.

(** * Invalidations

    When another agent takes a cache line, the loads that have read it must not be
    ordered after younger loads that read later values.  Under total store order every
    load behind the first one that hit the line is re-executed. *)
From stdpp Require Import sorting list.
Local Open Scope Z_scope.

Section snoop.
Context (needsTSO : bool) (cacheBlockMask : Z).
Implicit Types (u : LSQUnit) (L : list InstPtr) (St : list SQEntry) (p q : InstPtr) (a : Z) (b : bool).

(** The load has an address that other agents can see. *)
Definition snooped (d : DynInst) : bool := effAddrValid d && negb (strictlyOrdered d).
Definition hits_line a (d : DynInst) : bool :=
  (Z.land (physEffAddrLow d) cacheBlockMask =? a) || (Z.land (physEffAddrHigh d) cacheBlockMask =? a).
(** What the loop does to one load: the new value of [force_squash] and the load. *)
Definition snooped_load a b (d : DynInst) : bool * DynInst :=
  if snooped d && (hits_line a d || b) then
    let b := b || needsTSO in
    (b, if possibleLoadViolation d || b then d <| fault := ReExec |> else set_hitExternalSnoop true d)
  else (b, d).
Fixpoint snoop_list a b (l : list InstPtr) (h : heap) : heap :=
  match l with
  | [] => h
  | q :: l => match h !! q with
              | Some d => snoop_list a (snooped_load a b d).1 l (alter (λ _, (snooped_load a b d).2) q h)
              | None => snoop_list a b l h
              end
  end.

Lemma snooped_load_key a b (d : DynInst) : lkey (snooped_load a b d).2 = lkey d.
Proof.
  unfold snooped_load. destruct (_ && _); [|done]. cbn [snd]. destruct (_ || _); [done|]. by apply lkey_assign.
Qed.

Lemma snoopLoad_ok a b p u (d : DynInst) :
  u_heap u !! p = Some d →
  snoopLoad needsTSO cacheBlockMask a b p u = Ok ((snooped_load a b d).1, u <| u_heap ::= alter (λ _, (snooped_load a b d).2) p |>).
Proof.
  intros Hp. unfold snoopLoad, snooped_load, snooped, hits_line. rewrite (lsq_inst_ok _ _ _ Hp). cbn [mbind res_bind].
  assert (Hid : u = u <| u_heap ::= alter (λ _, d) p |>).
  { destruct u. unfold over_field. cbn. f_equal. symmetry. apply alter_id. intros x Hx. cbn in *. congruence. }
  assert (Hf : ∀ f : DynInst → DynInst, on_inst p f u = u <| u_heap ::= alter (λ _, f d) p |>).
  { intros f. unfold on_inst. unfold over_field. destruct u. cbn in *. f_equal. apply alter_ext. intros x Hx. congruence. }
  destruct (effAddrValid d), (strictlyOrdered d); cbn [negb orb andb fst snd]; try (by rewrite <- Hid).
  destruct (_ || b); cbn [fst snd]; [|by rewrite <- Hid]. destruct (possibleLoadViolation d || _); by rewrite Hf.
Qed.

Lemma snoop_loop_ok a b u L St (w : nat) (A B : list InstPtr) (fuel : nat) :
  lsq_inv u L St w → L = A ++ B → (length B < fuel)%nat →
  ∃ u', checkSnoop_loop needsTSO cacheBlockMask fuel a (pos (LQEntries u) (loadHead u) (length A)) b u = Ok u'
    ∧ lsq_inv u' L St w ∧ u_heap u' = snoop_list a b B (u_heap u).
Proof.
  revert u b A fuel. induction B as [|q B IH]; intros u b A fuel Hi EL Hf; (destruct fuel as [|fuel]; [lia|]);
    pose proof Hi as [[R _ _ Hld _ _ _ _] _ _ _ _ _]; pose proof (ring_head _ _ _ _ _ _ R) as Hh;
    cbn [checkSnoop_loop snoop_list]; rewrite (ring_pos_eqb _ _ _ _ _ _ _ R) by (rewrite length_fmap, EL, length_app; lia).
  - rewrite bool_decide_true by (rewrite length_fmap, EL, app_nil_r; done). by exists u.
  - rewrite bool_decide_false by (rewrite length_fmap, EL, length_app; cbn; lia).
    assert (Hq : L !! length A = Some q) by (rewrite EL, lookup_app_r, Nat.sub_diag; [done|lia]).
    unfold load_at. rewrite (ring_get _ _ _ _ _ _ (length A) (Some q) R) by (by rewrite list_lookup_fmap, Hq). cbn [mbind res_bind deref].
    pose proof (list_elem_of_lookup_2 _ _ _ Hq) as HqL.
    pose proof (loads_alive _ _ _ _ _ Hld) as Hal. rewrite Forall_forall in Hal. destruct (Hal q HqL) as [d Hd].
    rewrite (snoopLoad_ok a b q u d Hd), Hd. cbn [mbind res_bind]. set (u1 := u <| u_heap ::= _ |>).
    assert (Hi1 : lsq_inv u1 L St w).
    { apply (lsq_inv_grows u (alter (λ _, (snooped_load a b d).2) q (u_heap u))); [done| |].
      - apply same_keys_grows, same_keys_alter. intros d' Hd'. rewrite Hd in Hd'. injection Hd' as <-. apply snooped_load_key.
      - intros e p He Hp. rewrite lookup_alter_ne; [done|]. intros <-. by apply (load_not_store u L St w q e Hi). }
    unfold incrLdIdx. change (LQEntries u1) with (LQEntries u). rewrite pos_S by done.
    replace (S (length A)) with (length (A ++ [q])) by (rewrite length_app; cbn; lia).
    destruct (IH u1 (snooped_load a b d).1 (A ++ [q]) fuel Hi1 ltac:(by rewrite <- app_assoc) ltac:(cbn in Hf; lia)) as (u' & E & Hi' & Eh).
    change (LQEntries u1) with (LQEntries u) in E. change (loadHead u1) with (loadHead u) in E. exists u'. by rewrite E.
Qed.

Lemma checkSnoop_ok a u L St (w : nat) :
  lsq_inv u L St w →
  ∃ u', checkSnoop needsTSO cacheBlockMask a u = Ok u' ∧ lsq_inv u' L St w
    ∧ u_heap u' = snoop_list (Z.land a cacheBlockMask) false (tail L) (u_heap u).
Proof.
  intros Hi. pose proof Hi as [[R _ _ Hld _ _ _ _] _ _ _ _ _]. pose proof (ring_head _ _ _ _ _ _ R) as Hh. unfold checkSnoop.
  pose proof (ring_slots _ _ _ _ _ _ R) as Hn. pose proof (ring_room _ _ _ _ _ _ R) as Hroom. rewrite length_fmap in Hroom.
  destruct (vget_in_range (loadQueue u) (loadHead u) ltac:(lia)) as [x ->]. cbn [mbind res_bind].
  pose proof (ring_pos_eqb _ _ _ _ _ _ 0 R ltac:(lia)) as E0. rewrite pos_0 in E0 by done. rewrite E0.
  destruct L as [|q L].
  - rewrite bool_decide_true by done. by exists u.
  - rewrite bool_decide_false by done. pose proof (pos_S _ _ Hh 0) as E1. rewrite pos_0 in E1 by done. unfold incrLdIdx. rewrite E1.
    cbn [length] in Hroom. by destruct (snoop_loop_ok (Z.land a cacheBlockMask) false u (q :: L) St w [q] L (Z.to_nat (LQEntries u)) Hi eq_refl ltac:(lia)) as (u' & E & Hi' & Eh); exists u'.
Qed.

(** ** Total store order *)
Definition hit a (h : heap) (q : InstPtr) : bool := match h !! q with Some d => snooped d && hits_line a d | None => false end.

Lemma snoop_list_other a b (l : list InstPtr) (h : heap) p : p ∉ l → snoop_list a b l h !! p = h !! p.
Proof.
  revert b h. induction l as [|q l IH]; intros b h Hp; [done|]. apply not_elem_of_cons in Hp as [Hne Hp]. cbn [snoop_list].
  destruct (h !! q); [|by apply IH]. rewrite IH by done. by rewrite lookup_alter_ne.
Qed.

Lemma existsb_ext_in {A} (f g : A → bool) (l : list A) : (∀ x, x ∈ l → f x = g x) → existsb f l = existsb g l.
Proof.
  induction l as [|x l IH]; intros H; [done|]. cbn. rewrite (H x) by left. f_equal. apply IH. intros y Hy. apply H. by right.
Qed.

Lemma snooped_tso a b (d : DynInst) :
  needsTSO = true →
  snooped_load a b d = (b || snooped d && hits_line a d,
                        if snooped d && (b || hits_line a d) then d <| fault := ReExec |> else d).
Proof.
  intros Ht. unfold snooped_load. rewrite Ht. destruct (snooped d), (hits_line a d), b; cbn [andb orb]; by rewrite ?orb_true_r.
Qed.

(** A load is re-executed exactly if it, or one before it, hit the line. *)
Lemma snoop_list_tso a b (l : list InstPtr) (h : heap) (i : nat) p (d : DynInst) :
  needsTSO = true → NoDup l → (∀ q, q ∈ l → is_Some (h !! q)) → l !! i = Some p → h !! p = Some d →
  snoop_list a b l h !! p = Some (if snooped d && (b || existsb (hit a h) (take (S i) l)) then d <| fault := ReExec |> else d).
Proof.
  intros Ht Hnd. revert b h i. induction Hnd as [|q l Hq Hnd IH]; intros b h i Hal Hi Hd; [done|]. cbn [snoop_list].
  destruct (Hal q) as [dq Hdq]; [left|]. rewrite Hdq, (snooped_tso a b dq Ht). cbn [fst snd]. destruct i as [|i].
  - injection Hi as ->. rewrite Hd in Hdq. injection Hdq as <-. rewrite snoop_list_other by done. rewrite lookup_alter_eq, Hd. cbn.
    unfold hit. rewrite Hd, orb_false_r. by destruct (snooped d), b, (hits_line a d).
  - assert (Hne : q ≠ p) by (intros ->; apply Hq; by apply list_elem_of_lookup_2 with i).
    rewrite (IH _ _ i); [| |done|by rewrite lookup_alter_ne].
    + cbn [take existsb]. unfold hit at 2. rewrite Hdq, <- orb_assoc.
      replace (existsb (hit a (alter _ q h)) (take (S i) l)) with (existsb (hit a h) (take (S i) l)); [done|].
      apply existsb_ext_in. intros x Hx. unfold hit. rewrite lookup_alter_ne; [done|]. intros <-. apply Hq.
      apply elem_of_take in Hx as (j & Hj & _). by apply list_elem_of_lookup_2 with j.
    + intros x Hx. rewrite lookup_alter_ne; [by apply Hal; right|]. intros <-. done.
Qed.
End snoop.
