(* ===== verification/LSQStore.v ===== *)
(** * Completing stores

    A store that memory has acknowledged, or that had nothing to write, is complete; the
    complete stores at the head of the queue are freed.  [core_inv] is the invariant
    without the state of the hand-over to the cache: the stores from number [n] on have
    not been touched by it. *)

From S2P Require Import Prelude Regs DynInst Ring LSQ LSQInv LSQCommit.
From stdpp Require Import sorting list.
Local Open Scope Z_scope.

Implicit Types (u : LSQUnit) (L : list InstPtr) (St : list SQEntry) (p : InstPtr).

(** ** What the cache has taken *)
Definition Write : Type := Request * list Z.
Definition pkt_write (q : Packet) : Write := (pk_req q, pk_data q).
Definition accepted (cs : list Call) : list Write :=
  omap (λ c, match c with
             | SendTimingReq q true => if pk_write q then Some (pkt_write q) else None
             | HandleIprWrite q => Some (pkt_write q)
             | _ => None
             end) cs.

Lemma accepted_app (cs1 cs2 : list Call) : accepted (cs1 ++ cs2) = accepted cs1 ++ accepted cs2.
Proof. apply omap_app. Qed.
Lemma accepted_replays (cs : list Call) : Forall (λ c, ∃ p, c = ReplayMemInst p) cs → accepted cs = [].
Proof. induction 1 as [|c cs [p ->] _ IH]; [done|]. exact IH. Qed.

(** From number [n] on no store has been given to the cache. *)
Definition fresh_from (h : heap) St (n : nat) : Prop :=
  ∀ k e p, St !! k = Some e → (n ≤ k)%nat → sq_inst e = Some p →
  sq_committed e = false ∧ memData <$> h !! p = Some None.

Record base_inv u L St (n : nat) : Prop := {
  bi_queues : queues_ok u L St;
  bi_count : storesToWB u = Z.of_nat (countb waiting St);
  bi_commit : commit_ok (u_heap u) L St;
  bi_stall : stall_ok u L;
  bi_violator : violator_ok u;
  bi_fresh : fresh_from (u_heap u) St n;
}.
Definition core_inv u L St (w n : nat) : Prop := base_inv u L St n ∧ wb_ok u St w.

(** Where the hand-over to the cache stands. *)
Record ports_ok u St (w : nat) : Prop := {
  po_retry : isStoreBlocked u = bool_decide (is_Some (retryPkt u));
  po_pending : hasPendingPkt u = bool_decide (is_Some (pendingPkt u));
  po_excl : isStoreBlocked u && hasPendingPkt u = false;
  po_current : sending u = true → ∃ e, St !! w = Some e ∧ canWB e = true ∧ sq_size e ≠ 0;
}.

Lemma lsq_inv_core u L St (w : nat) :
  lsq_inv u L St w ↔ core_inv u L St w (if sending u then S w else w) ∧ ports_ok u St w.
Proof.
  split.
  - intros [Hq Hw Hc Hs Hv [S1 S2 S3 S4 S5]]. split; [|by split]. split; [|done]. split; try done; [apply (wo_count _ _ _ Hw)|].
    intros k e p He Hk Hp. apply (S5 k e p He); [|..|done].
    + destruct (sending u); lia.
    + destruct (sending u); [right; lia|by left].
  - intros [[[Hq _ Hc Hs Hv Hf] Hw] [P1 P2 P3 P4]]. split; try done. split; try done. intros k e p He Hk Hx Hp. apply (Hf k e p He); [|done].
    destruct Hx as [->|Hne]; [done|]. destruct (sending u); lia.
Qed.

(** The fields [core_inv] is about. *)
Definition core_view u :=
  (u_heap u, storeQueue u, loadQueue u, (LQEntries u, SQEntries u, loads u, stores u, storesToWB u),
   (loadHead u, loadTail u, storeHead u, storeWBIdx u, storeTail u),
   (stalled u, stallingStoreIsn u, stallingLoadIdx u), memDepViolator u).
Lemma core_inv_view u u' L St (w n : nat) : core_view u' = core_view u → core_inv u L St w n → core_inv u' L St w n.
Proof.
  destruct u, u'. unfold core_view. cbn. intros E. simplify_eq. intros [[[] ? ? ? ?] []]. split; split; first [done|by split].
Qed.

(** A change of the instructions, as [lsq_inv_grows]. *)
Lemma base_inv_heap u (h' : heap) L St (n : nat) :
  base_inv u L St n → grows (u_heap u) h' →
  (∀ e p k, St !! k = Some e → (n ≤ k)%nat → sq_inst e = Some p → memData <$> h' !! p = memData <$> u_heap u !! p) →
  base_inv (u <| u_heap := h' |>) L St n.
Proof.
  intros [[R1 R2 Hsz Hl Hs Ho1 Ho2 Hda] Hn Hc Hst Hv Hf] Hk Hm.
  pose proof (grows_seqs _ _ Hk) as Hq. split; [split|done|by apply (commit_ok_frame (u_heap u))|..]; try done.
  - eapply Forall_impl; [exact Hl|]. intros p. by apply load_ok_frame.
  - eapply Forall_impl; [exact Hs|]. intros e. by apply store_ok_frame.
  - change (StronglySorted Z.lt (lseqs h' L)). by rewrite (lseqs_same _ _ L Hq).
  - change (StronglySorted Z.lt (sseqs h' St)). by rewrite (sseqs_same _ _ St Hq).
  - intros Ht. destruct (Hst Ht) as (k & p & Hk' & Hx & Hlt). exists k, p. split; [done|]. split; [done|].
    change (stallingStoreIsn u < lsn h' p). by rewrite (lsn_same _ _ p Hq).
  - by apply (violator_frame u).
  - intros k e p He Hkn Hp. destruct (Hf k e p He Hkn Hp) as [? Hmd]. split; [done|]. change (memData <$> h' !! p = Some None).
    by rewrite (Hm e p k).
Qed.

Lemma base_inv_setCompleted u L St (n : nat) p : base_inv u L St n → base_inv (on_inst p setCompleted u) L St n.
Proof.
  intros Hi. apply (base_inv_heap u (alter setCompleted p (u_heap u))); [done|by apply same_keys_grows, same_keys_alter|].
  intros _ q _ _ _ _. destruct (decide (p = q)) as [<-|Hne]; [|by rewrite lookup_alter_ne].
  rewrite lookup_alter_eq. by destruct (u_heap u !! p).
Qed.

Lemma base_inv_fresh u L St (n n' : nat) : (n ≤ n')%nat → base_inv u L St n → base_inv u L St n'.
Proof. intros Hn []. split; try done. intros k e p He Hk. apply bi_fresh0 with k; [done|lia]. Qed.

(** ** The stalled load *)
Lemma unstall_eta u :
  u = u <| stalled := stalled u |> <| stallingStoreIsn := stallingStoreIsn u |> <| calls ::= (λ l, l ++ []) |>.
Proof. destruct u. unfold over_field. cbn. by rewrite app_nil_r. Qed.

Lemma unstall_ok u L St (n : nat) (sn : Z) :
  base_inv u L St n →
  ∃ b x cs, unstall sn u = Ok (u <| stalled := b |> <| stallingStoreIsn := x |> <| calls ::= (λ l, l ++ cs) |>)
    ∧ base_inv (u <| stalled := b |> <| stallingStoreIsn := x |> <| calls ::= (λ l, l ++ cs) |>) L St n
    ∧ Forall (λ c, ∃ p, c = ReplayMemInst p) cs.
Proof.
  intros Hi. unfold unstall.
  assert (Hsame : ∃ b x cs, Ok u = Ok (u <| stalled := b |> <| stallingStoreIsn := x |> <| calls ::= (λ l, l ++ cs) |>)
    ∧ base_inv (u <| stalled := b |> <| stallingStoreIsn := x |> <| calls ::= (λ l, l ++ cs) |>) L St n
    ∧ Forall (λ c, ∃ p, c = ReplayMemInst p) cs).
  { exists (stalled u), (stallingStoreIsn u), []. by rewrite <- unstall_eta. }
  destruct (stalled u) eqn:Es; cbn [andb]; [|exact Hsame].
  destruct (sn =? stallingStoreIsn u); [|exact Hsame].
  destruct Hi as [Hqs Hn Hc Hs Hv Hf]. destruct (Hs Es) as (k & p & Hk & Hx & _). unfold load_at.
  change (stallingLoadIdx (u <| stalled := false |> <| stallingStoreIsn := 0 |>)) with (stallingLoadIdx u).
  change (loadQueue (u <| stalled := false |> <| stallingStoreIsn := 0 |>)) with (loadQueue u).
  rewrite Hx, (ring_get _ _ _ _ _ _ k (Some p) (qo_lq _ _ _ Hqs)) by (by rewrite list_lookup_fmap, Hk). cbn [mbind res_bind deref].
  exists false, 0, [ReplayMemInst p]. split; [done|]. split; [|constructor; [by exists p|done]].
  split; [by destruct Hqs|done..].
Qed.

(** ** Freeing the head *)
Fixpoint completed_prefix St : nat :=
  match St with e :: St => if sq_completed e then S (completed_prefix St) else O | [] => O end.

Lemma completed_prefix_le St : (completed_prefix St ≤ length St)%nat.
Proof. induction St as [|e St IH]; cbn; [lia|]. destruct (sq_completed e); lia. Qed.
Lemma completed_prefix_at St (k : nat) (e : SQEntry) : St !! k = Some e → (k < completed_prefix St)%nat → sq_completed e = true.
Proof.
  revert k. induction St as [|e' St IH]; intros k He Hk; [done|]. cbn in Hk. destruct (sq_completed e') eqn:E; [|lia].
  destruct k as [|k]; [by injection He as <-|]. apply (IH k He). lia.
Qed.

Lemma freeStores_ok u (e : SQEntry) St (fuel : nat) :
  ring (storeQueue u) (SQEntries u) (storeHead u) (storeTail u) (stores u) (e :: St) → (completed_prefix St < fuel)%nat →
  let m := S (completed_prefix St) in
  freeStores fuel u = Ok (u <| storeHead := pos (SQEntries u) (storeHead u) m |> <| stores := stores u - Z.of_nat m |>)
  ∧ ring (storeQueue u) (SQEntries u) (pos (SQEntries u) (storeHead u) m) (storeTail u) (stores u - Z.of_nat m)
      (drop (completed_prefix St) St).
Proof.
  revert u e fuel. induction St as [|e' St IH]; intros u e fuel R Hf; (destruct fuel as [|fuel]; [lia|]);
    cbn [freeStores completed_prefix] in *; pose proof (ring_head _ _ _ _ _ _ R) as Hh; pose proof (ring_pop _ _ _ _ _ _ _ R) as R';
    set (u1 := u <| storeHead := _ |> <| stores := _ |>);
    assert (E1 : pos (SQEntries u) (storeHead u) 1 = storeHead u1) by (change 1%nat with (S 0); rewrite <- pos_S, pos_0 by done; done).
  - change (ring (storeQueue u1) (SQEntries u1) (storeHead u1) (storeTail u1) (stores u1) []) in R'. unfold store_at. pose proof (ring_slots _ _ _ _ _ _ R') as Hlen. pose proof (ring_head _ _ _ _ _ _ R') as Hh'.
    destruct (vget_in_range (storeQueue u1) (storeHead u1) ltac:(lia)) as [x ->]. cbn [mbind res_bind].
    pose proof (ring_tail _ _ _ _ _ _ R') as Ht. rewrite pos_0 in Ht by done. rewrite Ht, Z.eqb_refl, andb_false_r.
    rewrite E1. split; [reflexivity|exact R'].
  - change (ring (storeQueue u1) (SQEntries u1) (storeHead u1) (storeTail u1) (stores u1) (e' :: St)) in R'.
    pose proof (ring_get _ _ _ _ _ _ 0%nat e' R' eq_refl) as Hg. rewrite pos_0 in Hg by apply (ring_head _ _ _ _ _ _ R').
    unfold store_at. rewrite Hg. cbn [mbind res_bind]. destruct (sq_completed e').
    + rewrite <- (pos_0 (SQEntries u1) (storeHead u1)) at 1 by apply (ring_head _ _ _ _ _ _ R').
      rewrite (ring_pos_eqb _ _ _ _ _ _ _ R') by (cbn; lia). rewrite bool_decide_false by (cbn; lia). cbn [andb negb].
      destruct (IH u1 e' fuel R' ltac:(lia)) as [E R'']. cbn [drop].
      assert (Ep : pos (SQEntries u1) (storeHead u1) (S (completed_prefix St)) = pos (SQEntries u) (storeHead u) (S (S (completed_prefix St)))).
      { apply (pos_shift (SQEntries u) (storeHead u) Hh). }
      rewrite Ep in E, R''. change (stores u1) with (stores u - 1) in E, R''.
      replace (stores u - Z.of_nat (S (S (completed_prefix St)))) with (stores u - 1 - Z.of_nat (S (completed_prefix St))) by lia.
      rewrite E. split; [reflexivity|exact R''].
    + cbn [andb drop]. rewrite E1. split; [reflexivity|exact R'].
Qed.

(** ** Dropping committed stores from the front *)
Lemma drop_load_ok (h : heap) (nS hS : Z) L (D St : list SQEntry) p :
  0 ≤ hS < nS → commit_ok h L (D ++ St) → Forall (λ e, canWB e = true) D → p ∈ L →
  load_ok h nS hS (D ++ St) p → load_ok h nS (pos nS hS (length D)) St p.
Proof.
  intros Hh Hc HD Hp (d & Hd & Hl & Hi). exists d. split; [done|]. split; [done|].
  assert (HoD : older (seqNum d) (sseqs h D) = length D).
  { rewrite older_all; [by unfold sseqs; rewrite length_fmap|]. unfold sseqs. rewrite Forall_fmap. apply Forall_forall. intros e He.
    cbn. replace (seqNum d) with (lsn h p) by (unfold lsn; by rewrite Hd). rewrite Forall_forall in HD.
    apply Hc; [by apply elem_of_app; left|by apply HD|done]. }
  rewrite sseqs_app, older_app, HoD in Hi. rewrite pos_add by done. destruct Hi as [[? ?]|Hi]; [left; split; [done|lia]|by right].
Qed.

Lemma queues_drop u L (D St : list SQEntry) :
  queues_ok u L (D ++ St) → commit_ok (u_heap u) L (D ++ St) → Forall (λ e, canWB e = true) D →
  ∀ u', u_heap u' = u_heap u → loadQueue u' = loadQueue u → LQEntries u' = LQEntries u → SQEntries u' = SQEntries u →
  loadHead u' = loadHead u → loadTail u' = loadTail u → loads u' = loads u →
  storeHead u' = pos (SQEntries u) (storeHead u) (length D) →
  ring (storeQueue u') (SQEntries u') (storeHead u') (storeTail u') (stores u') St → queues_ok u' L St.
Proof.
  intros [R1 R2 Hsz Hl Hs Ho1 Ho2 Hda] Hc HD u' Eh E1 E2 E3 E4 E5 E6 E7 R.
  rewrite sseqs_app in Ho2. apply StronglySorted_app in Ho2 as (_ & _ & Ho2). apply Forall_app in Hs as [_ Hs]. apply Forall_app in Hda as [_ Hda].
  split; rewrite ?Eh, ?E1, ?E2, ?E4, ?E5, ?E6; try done; [by rewrite E3|]. rewrite E3, E7. apply Forall_forall. intros p Hp.
  rewrite Forall_forall in Hl. eapply drop_load_ok; [apply (ring_head _ _ _ _ _ _ R2)|done..|by apply Hl].
Qed.

(** Changing an entry in place. *)
Lemma update_queues u L St (k : nat) (e e' : SQEntry) :
  queues_ok u L St → commit_ok (u_heap u) L St → St !! k = Some e → sq_inst e' = sq_inst e → canWB e' = canWB e → data_ok e' →
  (∀ p d, sq_inst e = Some p → u_heap u !! p = Some d → sq_size e' ≠ 0 → executed_ok d e') →
  vget (storeQueue u) (pos (SQEntries u) (storeHead u) k) = Ok e
  ∧ ∃ q, vset (pos (SQEntries u) (storeHead u) k) e' (storeQueue u) = Ok q
      ∧ queues_ok (u <| storeQueue := q |>) L (<[k := e']> St) ∧ commit_ok (u_heap u) L (<[k := e']> St).
Proof.
  intros [R1 R2 Hsz Hl Hs Ho1 Ho2 Hda] Hc He Ei Ew Hd' Hx. pose proof (lookup_lt_Some _ _ _ He) as Hk.
  split; [by apply (ring_get _ _ _ _ _ _ _ _ R2)|]. destruct (ring_set _ _ _ _ _ _ k e' R2 Hk) as [Eset R2']. eexists. split; [exact Eset|].
  assert (En : ∀ h, ssn h e' = ssn h e) by (intros h; unfold ssn; by rewrite Ei).
  assert (Es : ∀ h, sseqs h (<[k := e']> St) = sseqs h St).
  { intros h. unfold sseqs. rewrite list_fmap_insert, En. apply list_insert_id. by rewrite list_lookup_fmap, He. }
  assert (Hin : ∀ e0, e0 ∈ <[k := e']> St → e0 = e' ∨ e0 ∈ St).
  { intros e0 [i Hi]%list_elem_of_lookup. apply list_lookup_insert_Some in Hi as [(_ & <- & _)|(_ & Hi)]; [by left|right].
    by apply list_elem_of_lookup_2 with i. }
  pose proof (list_elem_of_lookup_2 _ _ _ He) as HeS. rewrite Forall_forall in Hs. rewrite Forall_forall in Hda. split.
  - split; [exact R1|exact R2'|exact Hsz| | |exact Ho1| |].
    + eapply Forall_impl; [exact Hl|]. intros p (d & Hd & Hr). exists d. change (u_heap (u <| storeQueue := _ |>)) with (u_heap u). by rewrite Es.
    + apply Forall_forall. intros e0 [->|He']%Hin; [|by apply Hs]. destruct (Hs e HeS) as (p & d & Hi & Hd & Hld & Hq & _).
      exists p, d. rewrite Ei, Ew. split_and!; try done. by apply (Hx p).
    + change (StronglySorted Z.lt (sseqs (u_heap u) (<[k := e']> St))). by rewrite Es.
    + apply Forall_forall. intros e0 [->|He']%Hin; [done|by apply Hda].
  - intros e0 p [->|He']%Hin Hw Hp; [|by apply Hc]. rewrite En. rewrite Ew in Hw. by apply (Hc e p).
Qed.

Lemma queue_entry u L St (e : SQEntry) :
  queues_ok u L St → e ∈ St → data_ok e ∧ ∀ p d, sq_inst e = Some p → u_heap u !! p = Some d → sq_size e ≠ 0 → executed_ok d e.
Proof.
  intros Hq He. split; [apply (proj1 (Forall_forall _ _) (qo_data _ _ _ Hq) e He)|]. intros p d Hp Hd.
  destruct (proj1 (Forall_forall _ _) (qo_stores _ _ _ Hq) e He) as (p' & d' & Hp' & Hd' & _ & _ & Hx). by simplify_eq.
Qed.

Definition complete (e : SQEntry) : SQEntry := e <| sq_completed := true |>.

Lemma waiting_complete St (k : nat) (e : SQEntry) :
  St !! k = Some e → waiting e = true → (countb waiting (<[k := complete e]> St) + 1 = countb waiting St)%nat.
Proof.
  intros He Hw. rewrite <- (take_drop_middle _ _ _ He) at 2. rewrite insert_take_drop by (by apply lookup_lt_Some in He).
  rewrite !countb_app. cbn [countb]. rewrite Hw. unfold waiting at 2, complete. cbn. rewrite andb_false_r. lia.
Qed.
Lemma waiting_drop St (m : nat) : (∀ k e, St !! k = Some e → (k < m)%nat → sq_completed e = true) → countb waiting (drop m St) = countb waiting St.
Proof.
  intros Hm. rewrite <- (take_drop m St) at 2. rewrite countb_app, (proj2 (countb_zero waiting (take m St))); [done|].
  intros e [k Hk]%list_elem_of_lookup. unfold waiting. apply lookup_take_Some in Hk as [Hk Hlt]. rewrite (Hm k e Hk Hlt). apply andb_false_r.
Qed.

(** ** Completion *)
(** What completing a store leaves alone. *)
Definition completion_frame u u' : Prop :=
  storeWBIdx u' = storeWBIdx u ∧ SQEntries u' = SQEntries u ∧ LQEntries u' = LQEntries u ∧ storeTail u' = storeTail u
  ∧ (retryPkt u', isStoreBlocked u', hasPendingPkt u', pendingPkt u') = (retryPkt u, isStoreBlocked u, hasPendingPkt u, pendingPkt u)
  ∧ usedStorePorts u' = usedStorePorts u ∧ senders u' = senders u ∧ next_id u' = next_id u ∧ memDepViolator u' = memDepViolator u
  ∧ same_keys (u_heap u) (u_heap u') ∧ accepted (calls u') = accepted (calls u).

(** The stores freed when store [k] completes. *)
Definition freed St (k : nat) : nat := if decide (k = 0%nat) then completed_prefix St else 0%nat.

Lemma freed_completed St (k j : nat) (e : SQEntry) : St !! j = Some e → (j < freed St k)%nat → sq_completed e = true.
Proof. unfold freed. destruct (decide (k = 0%nat)); [apply completed_prefix_at|lia]. Qed.

Lemma base_inv_drop u u' L St (n m : nat) :
  base_inv u L St n → (m ≤ length St)%nat → (∀ j e, St !! j = Some e → (j < m)%nat → sq_completed e = true ∧ canWB e = true) →
  u_heap u' = u_heap u → loadQueue u' = loadQueue u → LQEntries u' = LQEntries u → SQEntries u' = SQEntries u →
  loadHead u' = loadHead u → loadTail u' = loadTail u → loads u' = loads u → storesToWB u' = storesToWB u →
  (stalled u', stallingStoreIsn u', stallingLoadIdx u') = (stalled u, stallingStoreIsn u, stallingLoadIdx u) →
  memDepViolator u' = memDepViolator u → storeHead u' = pos (SQEntries u) (storeHead u) m →
  ring (storeQueue u') (SQEntries u') (storeHead u') (storeTail u') (stores u') (drop m St) →
  base_inv u' L (drop m St) (n - m).
Proof.
  intros [Hq Hn Hc Hs Hv Hf] Hle Hm Eh E1 E2 E3 E4 E5 E6 E7 [= E8 E9 E10] E11 E12 R. split.
  - rewrite <- (take_drop m St) in Hq, Hc. eapply (queues_drop u L (take m St)); try done.
    + apply Forall_lookup. intros j e Hj. apply lookup_take_Some in Hj as [Hj Hlt]. by apply (Hm j e Hj).
    + rewrite length_take_le by done. done.
  - rewrite E7, Hn, waiting_drop; [done|]. intros j e Hj Hlt. by apply (Hm j).
  - rewrite Eh. intros e p He. apply Hc. rewrite <- (take_drop m St). apply elem_of_app. by right.
  - unfold stall_ok. by rewrite E8, E9, E10, E2, E4, Eh.
  - unfold violator_ok. by rewrite E11, Eh.
  - intros k e p He Hk. rewrite Eh. rewrite lookup_drop in He. apply (Hf (m + k)%nat e p He). lia.
Qed.

Lemma freeHead_ok u L St (n k : nat) :
  base_inv u L St n → (k < length St)%nat → (k = 0%nat → sq_completed <$> St !! 0%nat = Some true) →
  (∀ j e, St !! j = Some e → sq_completed e = true → canWB e = true) →
  let m := freed St k in
  ∃ u', (if pos (SQEntries u) (storeHead u) k =? storeHead u
         then u ← freeStores (Z.to_nat (SQEntries u)) u; Ok (do_call UpdateLSQNextCycle u) else Ok u) = Ok u'
    ∧ base_inv u' L (drop m St) (n - m) ∧ completion_frame u u' ∧ storeHead u' = pos (SQEntries u) (storeHead u) m
    ∧ u_heap u' = u_heap u.
Proof.
  intros Hi Hk H0 Hsent m. pose proof (qo_sq _ _ _ (bi_queues _ _ _ _ Hi)) as R. pose proof (ring_head _ _ _ _ _ _ R) as Hh.
  pose proof (ring_room _ _ _ _ _ _ R) as Hroom. destruct (decide (k = 0%nat)) as [->|Hk0].
  - rewrite pos_0, Z.eqb_refl by done. destruct St as [|e St]; [cbn in Hk; lia|]. cbn in H0. specialize (H0 eq_refl). injection H0 as H0.
    assert (Em : m = S (completed_prefix St)) by (unfold m, freed; cbn; by rewrite H0).
    pose proof (completed_prefix_le St) as Hle. cbn [length] in Hroom.
    destruct (freeStores_ok u e St (Z.to_nat (SQEntries u)) R ltac:(lia)) as [-> R']. rewrite <- Em in *. cbn [mbind res_bind].
    eexists. split; [reflexivity|]. split.
    2: { split; [|done]. unfold completion_frame. split_and!; try done. cbn. rewrite accepted_app. apply app_nil_r. }
    apply (base_inv_drop u _ _ _ n m Hi); try done; [rewrite Em; cbn; lia| |].
    + intros j e' Hj Hlt. assert (sq_completed e' = true) by (by apply (freed_completed (e :: St) 0 j)). split; [done|by apply (Hsent j)].
    + rewrite Em in R' |- *. exact R'.
  - assert (Em : m = 0%nat) by (unfold m, freed; by rewrite decide_False). rewrite Em.
    destruct (Z.eqb_spec (pos (SQEntries u) (storeHead u) k) (storeHead u)) as [E|_].
    { rewrite <- (pos_0 (SQEntries u) (storeHead u)) in E at 2 by done. apply pos_inj in E; [done|done|lia|lia]. }
    exists u. rewrite drop_0, Nat.sub_0_r, pos_0 by done. split; [done|]. split; [exact Hi|]. by repeat split.
Qed.

Section complete.
Context (needsTSO : bool).

Lemma completeStore_ok u L St (n k : nat) (e : SQEntry) :
  base_inv u L St n → (∀ j e, St !! j = Some e → sq_completed e = true → (j < n)%nat ∧ canWB e = true) →
  St !! k = Some e → waiting e = true → (k < n)%nat →
  let St1 := <[k := complete e]> St in let m := freed St1 k in
  ∃ u', completeStore needsTSO (pos (SQEntries u) (storeHead u) k) u = Ok u' ∧ base_inv u' L (drop m St1) (n - m)
    ∧ completion_frame u u' ∧ storeHead u' = pos (SQEntries u) (storeHead u) m.
Proof.
  intros Hi Hdone He Hw Hkn St1 m. pose proof Hi as [Hq Hn Hc Hs Hv Hf]. pose proof (lookup_lt_Some _ _ _ He) as Hk.
  assert (H1 : ∀ j e', St1 !! j = Some e' → j = k ∧ e' = complete e ∨ St !! j = Some e').
  { intros j e' Hj. apply list_lookup_insert_Some in Hj as [(-> & <- & _)|(_ & Hj)]; [by left|by right]. }
  destruct (queue_entry u L St e Hq (list_elem_of_lookup_2 _ _ _ He)) as [Hda Hex].
  destruct (update_queues u L St k e (complete e) Hq Hc He eq_refl eq_refl Hda Hex) as (Hget & q & Hset & Hq1 & Hc1).
  unfold completeStore, store_at, assert_inst, on_store. rewrite Hget. cbn [mbind res_bind].
  destruct (proj1 (Forall_forall _ _) (qo_stores _ _ _ Hq) e (list_elem_of_lookup_2 _ _ _ He)) as (p & d & Hp & Hd & _).
  rewrite Hp. cbn [mbind res_bind]. change (e <| sq_completed := true |>) with (complete e). rewrite Hset. cbn [mbind res_bind].
  set (u1 := u <| storeQueue := q |> <| storesToWB := _ |>). unfold waiting in Hw. apply andb_prop in Hw as [Hcw Hnc].
  assert (Hi1 : base_inv u1 L St1 n).
  { split; [by destruct Hq1| |exact Hc1|exact Hs|exact Hv|].
    - change (storesToWB u - 1 = Z.of_nat (countb waiting St1)). pose proof (waiting_complete St k e He ltac:(by unfold waiting; rewrite Hcw)).
      fold St1 in H. lia.
    - intros j e' p' [[-> ->]|Hj]%H1 Hlt; [lia|]. by apply (Hf j). }
  destruct (freeHead_ok u1 L St1 n k Hi1) as (u2 & E2 & Hi2 & Hf2 & Hh2 & Hheap).
  { unfold St1. by rewrite length_insert. }
  { intros ->. unfold St1. by rewrite list_lookup_insert_eq. }
  { intros j e' [[-> ->]|Hj]%H1; [by intros _|]. by apply (Hdone j). }
  change (pos (SQEntries u1) (storeHead u1) k) with (pos (SQEntries u) (storeHead u) k) in E2. rewrite E2. cbn [mbind res_bind].
  rewrite (lsq_inst_ok u2 p d) by (by rewrite Hheap). cbn [mbind res_bind].
  destruct (unstall_ok u2 L _ _ (seqNum d) Hi2) as (b & x & cs & -> & Hi3 & Hcs). cbn [mbind res_bind].
  set (u3 := u2 <| stalled := b |> <| stallingStoreIsn := x |> <| calls ::= _ |>) in *. set (u4 := on_inst p setCompleted u3).
  assert (F4 : completion_frame u u4).
  { destruct Hf2 as (F1 & F2 & F3 & F4 & F5 & F6 & F7 & F8 & F9 & F10 & F11). unfold completion_frame. split_and!; try done.
    - transitivity (u_heap u2); [exact F10|]. change (u_heap u4) with (alter setCompleted p (u_heap u2)). by apply same_keys_alter.
    - change (calls u4) with (calls u2 ++ cs). by rewrite accepted_app, (accepted_replays cs Hcs), app_nil_r. }
  apply (base_inv_setCompleted _ _ _ _ p) in Hi3. eexists. split; [reflexivity|]. destruct needsTSO.
  - split; [destruct Hi3 as [[] ? ? ? ? ?]; split; first [done|by split]|]. by split.
  - split; [exact Hi3|]. by split.
Qed.
End complete.
