(* ===== verification/LSQWrite.v ===== *)
(** * Handing stores to the cache

    [accepted] is what the cache has taken so far and [to_come] what the committed stores
    still have to write: first the rest of the store being handed over, kept in [retryPkt],
    [pendingPkt] and its sender state, then the later stores.  Handing over moves writes from the front of
    [to_come] to the end of [accepted]. *)

From S2P Require Import Prelude Regs DynInst Ring LSQ LSQInv LSQCommit LSQStore.
From stdpp Require Import sorting list.
Local Open Scope Z_scope.

Implicit Types (u : LSQUnit) (L : list InstPtr) (St : list SQEntry) (p : InstPtr) (q r : Packet).

(** ** The stream of writes *)
Definition store_bytes (e : SQEntry) (req : Request) : list Z :=
  if isAllZeros e then replicate (Z.to_nat (getSize req)) 0 else take (Z.to_nat (getSize req)) (sq_data e).
(** What a store has to write: nothing if it has no data or is a prefetch, two pieces if
    it is split over two lines. *)
Definition store_writes (h : heap) (e : SQEntry) : list Write :=
  match sq_inst e ≫= (h !!.), sq_req e with
  | Some d, Some req =>
      if (sq_size e =? 0) || isDataPrefetch d then []
      else match sq_isSplit e, sq_sreqLow e, sq_sreqHigh e with
           | true, Some low, Some high =>
               [(low, take (Z.to_nat (getSize low)) (store_bytes e req));
                (high, take (Z.to_nat (getSize high)) (drop (Z.to_nat (getSize low)) (store_bytes e req)))]
           | _, _, _ => [(req, take (Z.to_nat (getSize req)) (store_bytes e req))]
           end
  | _, _ => []
  end.
Definition committed_writes (h : heap) St : list Write := concat (store_writes h <$> filter (λ e, canWB e = true) St).
(** The packet to send after [r], if [r] is the first of two. *)
Definition second_part (ss : gmap nat LSQSenderState) r : list Write :=
  match pk_state r ≫= (ss !!.) with
  | Some st => if ss_pktToSend st && bool_decide (pk_id <$> ss_pendingPacket st ≠ Some (pk_id r))
               then pkt_write <$> option_list (ss_pendingPacket st) else []
  | None => []
  end.
Definition rest_of_store u : list Write :=
  match retryPkt u, pendingPkt u with
  | Some r, _ => pkt_write r :: second_part (senders u) r
  | None, Some q => [pkt_write q]
  | None, None => []
  end.
Definition to_come u St (w : nat) : list Write :=
  rest_of_store u ++ committed_writes (u_heap u) (drop (if sending u then S w else w) St).

(** The packet [r] belongs to the store being handed over, and so does the one after it. *)
Definition packet_ok u r : Prop :=
  pk_write r = true
  ∧ ∃ sid st, pk_state r = Some sid ∧ senders u !! sid = Some st ∧ (sid < next_id u)%nat
      ∧ (ss_idx st, ss_isLoad st) = (storeWBIdx u, false)
      ∧ (ss_pktToSend st = true → ∃ q, ss_pendingPacket st = Some q ∧ pk_state q = Some sid ∧ pk_write q = true).
Record packets_ok u : Prop := {
  pa_retry : ∀ r, retryPkt u = Some r → packet_ok u r;
  pa_pending : ∀ q, pendingPkt u = Some q → packet_ok u q ∧ second_part (senders u) q = [];
}.

(** The writes of a store depend on nothing of its instruction but what it is. *)
Definition same_static (h h' : heap) : Prop := ∀ p, staticInst <$> h' !! p = staticInst <$> h !! p.
Lemma grows_static (h h' : heap) : grows h h' → same_static h h'.
Proof.
  intros E p. specialize (E p). destruct (h !! p), (h' !! p); try done. destruct E as [[= _ _ _ E] _]. cbn. congruence.
Qed.
Lemma store_writes_static (h h' : heap) (e : SQEntry) : same_static h h' → store_writes h' e = store_writes h e.
Proof.
  intros E. unfold store_writes. destruct (sq_inst e) as [p|]; [|done]. cbn. specialize (E p).
  destruct (h !! p) as [d|], (h' !! p) as [d'|]; try done. injection E as E. unfold isDataPrefetch. by rewrite E.
Qed.
Lemma committed_writes_static (h h' : heap) St : same_static h h' → committed_writes h' St = committed_writes h St.
Proof. intros E. unfold committed_writes. f_equal. apply list_fmap_ext. intros i e _. by apply store_writes_static. Qed.
Lemma committed_writes_same (h h' : heap) St : same_keys h h' → committed_writes h' St = committed_writes h St.
Proof. intros E. by apply committed_writes_static, grows_static, same_keys_grows. Qed.
Lemma committed_writes_cons (h : heap) (e : SQEntry) St :
  canWB e = true → committed_writes h (e :: St) = store_writes h e ++ committed_writes h St.
Proof. intros Hw. unfold committed_writes. by rewrite filter_cons_True. Qed.
Lemma committed_writes_drop (h : heap) St (w : nat) (e : SQEntry) :
  St !! w = Some e → canWB e = true → committed_writes h (drop w St) = store_writes h e ++ committed_writes h (drop (S w) St).
Proof. intros He Hw. rewrite (drop_S _ _ _ He). by apply committed_writes_cons. Qed.

(** ** Sending a packet *)
(** What sending leaves alone. *)
Definition sending_frame u u' : Prop :=
  same_keys (u_heap u) (u_heap u') ∧ storeQueue u' = storeQueue u
  ∧ (SQEntries u', storeHead u', storeTail u', stores u', storesToWB u') = (SQEntries u, storeHead u, storeTail u, stores u, storesToWB u)
  ∧ (senders u', next_id u', usedStorePorts u') = (senders u, next_id u, usedStorePorts u)
  ∧ (pendingPkt u', hasPendingPkt u') = (pendingPkt u, hasPendingPkt u) ∧ LQEntries u' = LQEntries u.

Section send.
Context (needsTSO : bool) (cache_accepts : list Call → Packet → bool).
Notation sendAndPost := (sendAndPost needsTSO cache_accepts).

Lemma storePostSend_ok u L St (w : nat) (e : SQEntry) :
  core_inv u L St w (S w) → St !! w = Some e → canWB e = true →
  ∃ u', storePostSend needsTSO u = Ok u' ∧ core_inv u' L St (S w) (S w) ∧ sending_frame u u'
    ∧ (retryPkt u', isStoreBlocked u') = (retryPkt u, isStoreBlocked u) ∧ accepted (calls u') = accepted (calls u).
Proof.
  intros [Hb Hwb] He Hw. pose proof (bi_queues _ _ _ _ Hb) as Hq. pose proof (qo_sq _ _ _ Hq) as R. pose proof (lookup_lt_Some _ _ _ He) as Hlt.
  unfold storePostSend, store_at. rewrite (wo_idx _ _ _ Hwb), (ring_get _ _ _ _ _ _ w e R He). cbn [mbind res_bind].
  destruct (proj1 (Forall_forall _ _) (qo_stores _ _ _ Hq) e (list_elem_of_lookup_2 _ _ _ He)) as (p & d & Hp & Hd & _).
  rewrite Hp. cbn [mbind res_bind deref]. rewrite (lsq_inst_ok u p d Hd). cbn [mbind res_bind].
  destruct (unstall_ok u L St (S w) (seqNum d) Hb) as (b & x & cs & -> & Hb1 & Hcs). cbn [mbind res_bind].
  set (u1 := u <| stalled := b |> <| stallingStoreIsn := x |> <| calls ::= _ |>).
  set (u2 := if negb (isStoreConditional d) then on_inst p setCompleted u1 else u1).
  assert (H2 : base_inv u2 L St (S w)) by (unfold u2; destruct (isStoreConditional d); [done|by apply base_inv_setCompleted]).
  assert (F2 : sending_frame u u2 ∧ (retryPkt u2, isStoreBlocked u2) = (retryPkt u, isStoreBlocked u) ∧ accepted (calls u2) = accepted (calls u)
    ∧ storeWBIdx u2 = storeWBIdx u).
  { assert (Ea : accepted (calls u1) = accepted (calls u)).
    { change (calls u1) with (calls u ++ cs). rewrite accepted_app, (accepted_replays cs Hcs). apply app_nil_r. }
    unfold u2. destruct (isStoreConditional d); (split; [|by split_and!]); (split; [|by repeat split]); [done|]. by apply same_keys_alter. }
  set (u3 := if needsTSO then u2 <| storeInFlight := true |> else u2). destruct F2 as (F2 & F3 & F4 & F5).
  eexists. split; [reflexivity|]. set (u4 := u3 <| storeWBIdx := _ |>).
  assert (E4 : storeWBIdx u4 = pos (SQEntries u) (storeHead u) (S w)).
  { change (storeWBIdx u4) with (incrIdx (SQEntries u3) (storeWBIdx u3)). destruct F2 as (_ & _ & [= Es _ _ _ _] & _).
    replace (SQEntries u3) with (SQEntries u) by (unfold u3; by destruct needsTSO).
    replace (storeWBIdx u3) with (storeWBIdx u) by (unfold u3; by destruct needsTSO). rewrite (wo_idx _ _ _ Hwb).
    apply pos_S, (ring_head _ _ _ _ _ _ R). }
  split; [|split; [|by unfold u4, u3; destruct needsTSO; split]].
  - split; [unfold u4, u3; destruct needsTSO; destruct H2 as [[] ? ? ? ? ?]; split; first [done|by split]|].
    destruct F2 as (_ & _ & [= F21 F22 F23 F24 F25] & _). destruct Hwb as [W1 W2 W3 W4 W5].
    split; [rewrite E4; unfold u4, u3; destruct needsTSO; cbn; congruence|lia| | |].
    + rewrite <- W3, <- F25. unfold u4, u3. by destruct needsTSO.
    + intros k e' He' Hk. destruct (decide (k = w)) as [->|]; [congruence|]. apply (W4 k e' He'). lia.
    + intros k e' He' Hk. apply (W5 k e' He'). lia.
  - unfold u4, u3. destruct needsTSO; exact F2.
Qed.

Lemma sendAndPost_ok u L St (w : nat) (e : SQEntry) q :
  core_inv u L St w (S w) → St !! w = Some e → canWB e = true → retryPkt u = None → isStoreBlocked u = false → pk_write q = true →
  ∃ u', sendAndPost q u = Ok u' ∧ sending_frame u u'
    ∧ (core_inv u' L St (S w) (S w) ∧ retryPkt u' = None ∧ isStoreBlocked u' = false
         ∧ accepted (calls u') = accepted (calls u) ++ [pkt_write q]
       ∨ core_inv u' L St w (S w) ∧ retryPkt u' = Some q ∧ isStoreBlocked u' = true ∧ accepted (calls u') = accepted (calls u)
         ∧ storeWBIdx u' = storeWBIdx u).
Proof.
  intros Hi He Hw Hr Hb Hq. unfold LSQ.sendAndPost, sendStore, sendTimingReq. destruct (cache_accepts (calls u) q) eqn:Ea; cbn [mbind res_bind].
  - destruct (storePostSend_ok (do_call (SendTimingReq q true) u) L St w e) as (u' & -> & Hi' & Hf & [= Hr' Hb'] & Hc'); [|done|done|].
    { by apply (core_inv_view u). }
    exists u'. split; [done|]. split; [exact Hf|]. left. split; [done|]. rewrite Hr', Hb', Hc'. split; [done|]. split; [done|].
    change (accepted (calls u ++ [SendTimingReq q true]) = accepted (calls u) ++ [pkt_write q]). rewrite accepted_app. cbn. by rewrite Hq.
  - cbn. rewrite Hr. cbn [is_Some bool_decide negb assert mbind res_bind]. eexists. split; [reflexivity|]. split; [by repeat split|].
    right. split; [by apply (core_inv_view u)|]. split; [done|]. split; [done|]. split; [|done].
    change (accepted (calls u ++ [SendTimingReq q false]) = accepted (calls u)). rewrite accepted_app. apply app_nil_r.
Qed.

Definition no_pending u : LSQUnit := u <| pendingPkt := None |> <| hasPendingPkt := false |>.

(** The last packet of a store is sent, or refused and kept. *)
Lemma last_packet_ok u L St (w : nat) (e : SQEntry) q :
  core_inv u L St w (S w) → St !! w = Some e → canWB e = true → sq_size e ≠ 0 → retryPkt u = None → isStoreBlocked u = false →
  packet_ok u q → second_part (senders u) q = [] →
  ∃ u' w', sendAndPost q u = Ok u' ∧ lsq_inv (no_pending u') L St w' ∧ packets_ok (no_pending u')
    ∧ accepted (calls u') ++ to_come (no_pending u') St w'
      = accepted (calls u) ++ pkt_write q :: committed_writes (u_heap u) (drop (S w) St)
    ∧ (w' = S w ∨ w' = w ∧ isStoreBlocked u' = true) ∧ sending_frame u u'.
Proof.
  intros Hi He Hw Hsz Hr Hb Hq H2. destruct (sendAndPost_ok u L St w e q Hi He Hw Hr Hb (proj1 Hq)) as (u' & E & Hf & Hcase).
  pose proof Hf as (Hk & _ & _ & [= Fs Fn _] & _). exists u'. destruct Hcase as [(Hi' & Hr' & Hb' & Ha)|(Hi' & Hr' & Hb' & Ha & Hx)].
  - exists (S w). split; [done|]. assert (Es : sending (no_pending u') = false) by (unfold sending; cbn; by rewrite Hb').
    split_and!; [|split; cbn; by rewrite ?Hr'| |by left|done].
    + apply lsq_inv_core. rewrite Es. split; [by apply (core_inv_view u')|]. split; cbn; rewrite ?Hr', ?Hb'; try done. by rewrite Es.
    + unfold to_come. rewrite Es. unfold rest_of_store. cbn. rewrite Hr', Ha, (committed_writes_same _ _ _ Hk).
      by rewrite <- app_assoc.
  - exists w. split; [done|]. assert (Es : sending (no_pending u') = true) by (unfold sending; cbn; by rewrite Hb').
    split_and!; [| | |by right|done].
    + apply lsq_inv_core. rewrite Es. split; [by apply (core_inv_view u')|]. split; cbn; rewrite ?Hr', ?Hb'; try done. by exists e.
    + split; cbn; [|done]. rewrite Hr'. intros r [= <-]. unfold packet_ok in Hq |- *. cbn. by rewrite Fs, Fn, Hx.
    + unfold to_come. rewrite Es. unfold rest_of_store. cbn. by rewrite Hr', Ha, (committed_writes_same _ _ _ Hk), Fs, H2.
Qed.

Lemma no_pending_id u : pendingPkt u = None → hasPendingPkt u = false → no_pending u = u.
Proof. destruct u. unfold no_pending. cbn. by intros -> ->. Qed.

(** The stores that are left, and which of them are committed. *)
Definition store_key (e : SQEntry) : option InstPtr * bool := (sq_inst e, canWB e).
Definition same_stores St St' : Prop := ∃ m, store_key <$> St' = drop m (store_key <$> St).

Lemma same_stores_refl St : same_stores St St.
Proof. by exists 0%nat. Qed.
Lemma same_stores_trans St1 St2 St3 : same_stores St1 St2 → same_stores St2 St3 → same_stores St1 St3.
Proof. intros [m E1] [n E2]. exists (m + n)%nat. by rewrite E2, E1, drop_drop. Qed.
Lemma same_stores_insert St (k : nat) (e e' : SQEntry) :
  St !! k = Some e → store_key e' = store_key e → same_stores St (<[k := e']> St).
Proof. intros He E. exists 0%nat. rewrite list_fmap_insert, E, drop_0. apply list_insert_id. by rewrite list_lookup_fmap, He. Qed.
Lemma same_stores_drop St (m : nat) : same_stores St (drop m St).
Proof. exists m. by rewrite fmap_drop. Qed.

(** A step of the hand-over: the invariant is kept and writes move from what is to come
    to what is accepted. *)
Definition handed u u' L St St' (w w' : nat) : Prop :=
  lsq_inv u' L St' w' ∧ packets_ok u' ∧ same_stores St St'
  ∧ accepted (calls u') ++ to_come u' St' w' = accepted (calls u) ++ to_come u St w.

Lemma sending_store u L St (w : nat) :
  lsq_inv u L St w → sending u = true →
  core_inv u L St w (S w) ∧ ∃ e, St !! w = Some e ∧ canWB e = true ∧ sq_size e ≠ 0.
Proof. intros [Hi [_ _ _ P4]]%lsq_inv_core Hs. rewrite Hs in Hi. by split; [|apply P4]. Qed.

Lemma writebackPendingStore_ok u L St (w : nat) :
  lsq_inv u L St w → packets_ok u →
  ∃ u' w', writebackPendingStore needsTSO cache_accepts u = Ok u' ∧ handed u u' L St St w w' ∧ hasPendingPkt u' = false
    ∧ SQEntries u' = SQEntries u ∧ storeHead u' = storeHead u.
Proof.
  intros Hi Hp. unfold writebackPendingStore. destruct (hasPendingPkt u) eqn:Eh.
  2: { exists u, w. split; [done|]. split; [|done]. split; [done|]. split; [done|]. split; [apply same_stores_refl|done]. }
  pose proof (li_send _ _ _ _ Hi) as [S1 S2 S3 _ _]. rewrite Eh in S2, S3. symmetry in S2. apply bool_decide_eq_true in S2 as [q Hq].
  rewrite andb_true_r in S3. rewrite S3 in S1. symmetry in S1. apply bool_decide_eq_false, eq_None_not_Some in S1.
  assert (Es : sending u = true) by (unfold sending; by rewrite Eh, orb_true_r).
  destruct (sending_store u L St w Hi Es) as (Hc & e & He & Hw & Hsz). rewrite Hq. cbn [mbind res_bind].
  destruct (pa_pending _ Hp q Hq) as [Hqo Hq2].
  destruct (last_packet_ok u L St w e q Hc He Hw Hsz S1 S3 Hqo Hq2) as (u' & w' & -> & Hi' & Hp' & Ha & Hx & _ & _ & [= F1 F2 _ _ _] & _).
  cbn [mbind res_bind]. exists (no_pending u'), w'. split; [done|]. split; [|by split_and!]. split; [done|]. split; [done|]. split; [apply same_stores_refl|].
  change (calls (no_pending u')) with (calls u'). rewrite Ha. unfold to_come at 1, rest_of_store. rewrite Es, S1, Hq. done.
Qed.

Lemma recvRetry_ok u L St (w : nat) :
  lsq_inv u L St w → packets_ok u → ∃ u' w', recvRetry needsTSO cache_accepts u = Ok u' ∧ handed u u' L St St w w'.
Proof.
  intros Hi Hp. unfold recvRetry. destruct (isStoreBlocked u) eqn:Eb.
  2: { exists u, w. split; [done|]. split; [done|]. split; [done|]. split; [apply same_stores_refl|done]. }
  pose proof (li_send _ _ _ _ Hi) as [S1 S2 S3 _ _]. rewrite Eb in S1, S3. symmetry in S1. apply bool_decide_eq_true in S1 as [r Hr].
  cbn in S3. rewrite S3 in S2. symmetry in S2. apply bool_decide_eq_false, eq_None_not_Some in S2.
  assert (Es : sending u = true) by (unfold sending; by rewrite Eb).
  destruct (sending_store u L St w Hi Es) as (Hc & e & He & Hw & Hsz).
  destruct (pa_retry _ Hp r Hr) as (Hrw & sid & st & Hrs & Hst & Hsid & Hidx & Hpk).
  assert (Eso : ∀ v, senders v = senders u → state_of r v = Ok (sid, st)).
  { intros v Ev. unfold state_of. rewrite Hrs. cbn [deref mbind res_bind]. by rewrite Ev, Hst. }
  rewrite Hr. cbn [mbind res_bind]. rewrite Eso by done. cbn [mbind res_bind]. unfold sendTimingReq.
  assert (Ec : to_come u St w = pkt_write r :: (if ss_pktToSend st && bool_decide (pk_id <$> ss_pendingPacket st ≠ Some (pk_id r))
    then pkt_write <$> option_list (ss_pendingPacket st) else []) ++ committed_writes (u_heap u) (drop (S w) St)).
  { unfold to_come, rest_of_store, second_part. rewrite Es, Hr, Hrs. cbn. by rewrite Hst. }
  set (acc := cache_accepts (calls u) r). set (u0 := do_call (SendTimingReq r acc) u).
  assert (Ea : accepted (calls u0) = accepted (calls u) ++ (if acc then [pkt_write r] else [])).
  { change (calls u0) with (calls u ++ [SendTimingReq r acc]). rewrite accepted_app. f_equal. cbn. rewrite Hrw. by destruct acc. }
  destruct acc; cbn [mbind res_bind].
  2: { exists u0, w. split; [done|]. split; [by apply (lsq_inv_view u)|]. split; [by destruct Hp|]. split; [apply same_stores_refl|].
       rewrite Ea, app_nil_r. done. }
  destruct (negb (ss_pktToSend st) || _) eqn:Elast; cbn [mbind res_bind].
  - set (f := λ st : LSQSenderState, st <| ss_pktToSend := false |>). set (u1 := on_state sid f u0).
    destruct (storePostSend_ok u1 L St w e) as (u2 & -> & Hc2 & Hf2 & _ & Ha2); [by apply (core_inv_view u)|done|done|].
    cbn [mbind res_bind]. set (u3 := u2 <| retryPkt := None |> <| isStoreBlocked := false |>).
    destruct Hf2 as (Hk & _ & _ & [= Fs Fn _] & [= Fp Fh] & _).
    assert (E3 : state_of r u3 = Ok (sid, f st)).
    { unfold state_of. rewrite Hrs. cbn [deref mbind res_bind]. change (senders u3) with (senders u2). rewrite Fs.
      change (senders u1) with (alter f sid (senders u)). by rewrite lookup_alter_eq, Hst. }
    rewrite E3. cbn. exists u3, (S w). split; [done|].
    assert (Es3 : sending u3 = false) by (unfold sending; cbn; by rewrite Fh).
    assert (Hp3 : pendingPkt u3 = None) by (change (pendingPkt u2 = None); by rewrite Fp).
    split; [|split; [by split; rewrite ?Hp3|split; [apply same_stores_refl|]]].
    + apply lsq_inv_core. rewrite Es3. split; [by apply (core_inv_view u2)|]. split; [done| |done|by rewrite Es3]. rewrite Hp3. cbn. by rewrite Fh.
    + rewrite Ec. change (calls u3) with (calls u2). rewrite Ha2. change (calls u1) with (calls u0). rewrite Ea, <- app_assoc. f_equal.
      unfold to_come. rewrite Es3. unfold rest_of_store. rewrite Hp3. cbn. f_equal.
      replace (ss_pktToSend st && _) with false; [by apply committed_writes_same|].
      symmetry. rewrite bool_decide_not, <- (negb_involutive (ss_pktToSend st)), <- negb_orb. by rewrite Elast.
  - apply orb_false_elim in Elast as [Et Eid]. apply negb_false_iff in Et. destruct (Hpk Et) as (q & Hq & Hqs & Hqw).
    set (u1 := u0 <| retryPkt := None |> <| isStoreBlocked := false |>). rewrite (Eso u1 eq_refl). cbn [mbind res_bind].
    rewrite Et, Hq. cbn [mbind res_bind].
    assert (Hq2 : second_part (senders u1) q = []).
    { unfold second_part. rewrite Hqs. cbn. rewrite Hst, Hq. cbn. by rewrite bool_decide_false, andb_false_r by (intros H; by apply H). }
    destruct (last_packet_ok u1 L St w e q) as (u' & w' & -> & Hi' & Hp' & Ha' & Hx & _ & _ & _ & _ & [= Fp Fh] & _); try done.
    { by apply (core_inv_view u). }
    { split; [done|]. by exists sid, st. }
    rewrite no_pending_id in Hi', Hp', Ha' by (by rewrite ?Fp, ?Fh). exists u', w'. split; [done|]. split; [done|]. split; [done|]. split; [apply same_stores_refl|].
    rewrite Ha', Ec. change (calls u1) with (calls u0). rewrite Ea, <- app_assoc, Et, Hq. cbn. rewrite Hq in Eid. cbn in Eid.
    rewrite bool_decide_eq_false in Eid. by rewrite bool_decide_true.
Qed.
End send.
