(* ===== verification/LSQDrain.v ===== *)
(** * Writing the committed stores back

    The loop of [writebackStores]: every turn passes a store or leaves one that the cache
    refused or that ran out of ports, which ends the loop.  The stores stay in the
    queue until memory acknowledges them. *)

From S2P Require Import Prelude Regs DynInst Ring LSQ LSQInv LSQCommit LSQStore LSQWrite.
From stdpp Require Import sorting list.
Local Open Scope Z_scope.

Implicit Types (u : LSQUnit) (L : list InstPtr) (St : list SQEntry) (p : InstPtr).

(** The store [w] is passed. *)
Lemma nextStore_ok u L St (w n : nat) (e : SQEntry) :
  core_inv u L St w n → St !! w = Some e → canWB e = true → core_inv (nextStore u) L St (S w) (max n (S w)).
Proof.
  intros [Hb [W1 W2 W3 W4 W5]] He Hw. pose proof (lookup_lt_Some _ _ _ He) as Hlt.
  split; [apply (base_inv_fresh _ _ _ n); [lia|]; destruct Hb as [[] ? ? ? ? ?]; split; first [done|by split]|].
  split; [|lia|done| |].
  - cbn. rewrite W1. apply pos_S, (ring_head _ _ _ _ _ _ (qo_sq _ _ _ (bi_queues _ _ _ _ Hb))).
  - intros k e' He' Hk. destruct (decide (k = w)) as [->|]; [congruence|]. apply (W4 k e' He'). lia.
  - intros k e' He' Hk. apply (W5 k e' He'). lia.
Qed.

Section drain.
Context (needsTSO : bool) (cacheStorePorts : Z) (cache_accepts : list Call → Packet → bool).

(** A store with nothing to send completes at once. *)
Lemma complete_next_ok u L St (w : nat) (e : SQEntry) :
  core_inv u L St w (S w) → St !! w = Some e → canWB e = true →
  ∃ u' St' w', completeStore needsTSO (storeWBIdx u) u = Ok u' ∧ core_inv (nextStore u') L St' w' w'
    ∧ drop w' St' = drop (S w) St ∧ completion_frame u u' ∧ same_stores St St'.
Proof.
  intros [Hb Hwb] He Hw. pose proof Hwb as [W1 W2 W3 W4 W5]. pose proof (lookup_lt_Some _ _ _ He) as Hlt.
  pose proof (ring_head _ _ _ _ _ _ (qo_sq _ _ _ (bi_queues _ _ _ _ Hb))) as Hh.
  destruct (completeStore_ok needsTSO u L St (S w) w e Hb) as (u' & E & Hb' & Hf & Hhead).
  { intros j e' Hj Hc. assert (j < S w)%nat by (destruct (decide (j < w)%nat); [lia|]; rewrite (W5 j e' Hj) in Hc by lia; done).
    split; [done|]. destruct (decide (j = w)) as [->|]; [congruence|]. apply (W4 j e' Hj). lia. }
  { done. }
  { unfold waiting. by rewrite Hw, (W5 w e He). }
  { lia. }
  set (St1 := <[w := complete e]> St) in *. set (m := freed St1 w) in *.
  assert (H1 : ∀ j e', St1 !! j = Some e' → j = w ∧ e' = complete e ∨ j ≠ w ∧ St !! j = Some e').
  { intros j e' Hj. apply list_lookup_insert_Some in Hj as [(-> & <- & _)|(? & Hj)]; [by left|by right]. }
  assert (Hlen : length St1 = length St) by apply length_insert.
  assert (Hm : (m ≤ S w)%nat).
  { destruct (decide (m ≤ S w)%nat) as [|Hgt]; [done|]. assert (m ≤ length St)%nat.
    { rewrite <- Hlen. unfold m, freed. destruct (decide (w = 0%nat)); [apply completed_prefix_le|lia]. }
    destruct (lookup_lt_is_Some_2 St1 (S w)) as [e' He']; [lia|]. pose proof (freed_completed St1 w (S w) e' He' ltac:(lia)) as Hc.
    destruct (H1 _ _ He') as [[? _]|[_ Hs]]; [lia|]. rewrite (W5 (S w) e' Hs) in Hc by lia. done. }
  exists u', (drop m St1), (S w - m)%nat. rewrite <- W1 in E. split; [done|]. split; [|split; [|split; [done|]]].
  3: { eapply same_stores_trans; [by apply (same_stores_insert St w e (complete e))|apply same_stores_drop]. }
  2: { rewrite drop_drop. replace (m + (S w - m))%nat with (S w) by lia. unfold St1. apply drop_insert_lt. lia. }
  pose proof Hf as (F1 & F2 & _). split; [destruct Hb' as [[] ? ? ? ? ?]; split; first [done|by split]|]. split.
  - cbn. unfold incrStIdx. rewrite F1, F2, W1, Hhead, pos_add by done. replace (m + (S w - m))%nat with (S w) by lia. by apply pos_S.
  - rewrite length_drop, Hlen. lia.
  - apply (bi_count _ _ _ _ Hb').
  - intros k e' He' Hk. rewrite lookup_drop in He'. destruct (H1 _ _ He') as [[_ ->]|[Hne Hs]]; [done|]. apply (W4 _ e' Hs). lia.
  - intros k e' He' Hk. rewrite lookup_drop in He'. destruct (H1 _ _ He') as [[? _]|[Hne Hs]]; [lia|]. apply (W5 _ e' Hs). lia.
Qed.

(** ** Changing the entry of the store at hand *)
Lemma core_inv_update u L St (w n k : nat) (e : SQEntry) (f : SQEntry → SQEntry) :
  core_inv u L St w n → St !! k = Some e → (k < n)%nat ∨ sq_committed (f e) = sq_committed e → sq_inst (f e) = sq_inst e → canWB (f e) = canWB e →
  sq_completed (f e) = sq_completed e → data_ok (f e) →
  (∀ p d, sq_inst e = Some p → u_heap u !! p = Some d → sq_size (f e) ≠ 0 → executed_ok d (f e)) →
  ∃ q, on_store (pos (SQEntries u) (storeHead u) k) f u = Ok (u <| storeQueue := q |>)
    ∧ core_inv (u <| storeQueue := q |>) L (<[k := f e]> St) w n.
Proof.
  intros [[Hq Hn Hc Hs Hv Hf] [W1 W2 W3 W4 W5]] He Hk Ei Ew Ec Hd Hx. pose proof (lookup_lt_Some _ _ _ He) as Hlt.
  destruct (update_queues u L St k e (f e) Hq Hc He Ei Ew Hd Hx) as (Hget & q & Hset & Hq' & Hc'). exists q.
  unfold on_store. rewrite Hget. cbn [mbind res_bind]. rewrite Hset. cbn [mbind res_bind]. split; [done|].
  assert (H1 : ∀ j e', <[k := f e]> St !! j = Some e' → j = k ∧ e' = f e ∨ St !! j = Some e').
  { intros j e' Hj. apply list_lookup_insert_Some in Hj as [(-> & <- & _)|(_ & Hj)]; [by left|by right]. }
  assert (Ecount : countb waiting (<[k := f e]> St) = countb waiting St).
  { rewrite insert_take_drop by done. rewrite <- (take_drop_middle _ _ _ He) at 3. rewrite !countb_app. cbn [countb].
    unfold waiting at 2. rewrite Ew, Ec. done. }
  split.
  - split; [done| |done|done|done|]. { change (storesToWB u = Z.of_nat (countb waiting (<[k := f e]> St))). by rewrite Ecount. }
    intros j e' p [[-> ->]|Hj]%H1 Hle Hp; [|by apply (Hf j)]. destruct Hk as [Hk|Hk]; [lia|]. rewrite Hk. apply (Hf k e p He Hle). by rewrite <- Ei.
  - split; [done|by rewrite length_insert|by rewrite Ecount| |].
    + intros j e' [[-> ->]|Hj]%H1 Hj'; [rewrite Ew; by apply (W4 k)|by apply (W4 j)].
    + intros j e' [[-> ->]|Hj]%H1 Hj'; [rewrite Ec; by apply (W5 k)|by apply (W5 j)].
Qed.

(** The store [w] and the later ones have different instructions. *)
Lemma stores_differ u L St (j k : nat) (e e' : SQEntry) p :
  queues_ok u L St → St !! j = Some e → St !! k = Some e' → sq_inst e = Some p → sq_inst e' = Some p → j = k.
Proof.
  intros Hq He He' Hp Hp'. pose proof (qo_sorder _ _ _ Hq) as Hs.
  assert (Hj : sseqs (u_heap u) St !! j = Some (lsn (u_heap u) p)) by (unfold sseqs; rewrite list_lookup_fmap, He; cbn; unfold ssn; by rewrite Hp).
  assert (Hk : sseqs (u_heap u) St !! k = Some (lsn (u_heap u) p)) by (unfold sseqs; rewrite list_lookup_fmap, He'; cbn; unfold ssn; by rewrite Hp').
  destruct (Nat.lt_trichotomy j k) as [Hlt|[->|Hlt]]; [|done|].
  - pose proof (sorted_lookup_lt _ _ _ _ _ Hs Hj Hk Hlt). lia.
  - pose proof (sorted_lookup_lt _ _ _ _ _ Hs Hk Hj Hlt). lia.
Qed.

Lemma core_inv_memData u L St (w : nat) (e : SQEntry) p (bytes : option (list Z)) :
  core_inv u L St w (S w) → St !! w = Some e → sq_inst e = Some p → core_inv (on_inst p (λ d, d <| memData := bytes |>) u) L St w (S w).
Proof.
  intros [Hb Hwb] He Hp. split; [|by destruct Hwb]. apply (base_inv_heap u (alter _ p (u_heap u))); [done|by apply same_keys_grows, same_keys_alter|].
  intros e' p' k He' Hk Hp'. rewrite lookup_alter_ne; [done|]. intros <-.
  pose proof (stores_differ u L St w k e e' p (bi_queues _ _ _ _ Hb) He He' Hp Hp'). lia.
Qed.

(** ** Sending the packets of a store *)
Notation sendPackets := (sendPackets needsTSO cacheStorePorts cache_accepts).

(** How a turn ends: the store is passed, or the cache refused it, or it used all ports. *)
Definition turn_end u u' (St St' : list SQEntry) (w w' : nat) : Prop :=
  (length St' - w' ≤ length St - w)%nat
  ∧ ((length St' - w' < length St - w)%nat ∨ isStoreBlocked u' = true ∨ hasPendingPkt u' = true)
  ∧ (hasPendingPkt u' = true → cacheStorePorts ≤ usedStorePorts u').

(** The state of the packets of a store that are about to be sent. *)
Record ready_packets u (sid : nat) (q1 : Packet) (q2 : option Packet) : Prop := {
  rp_state : ∃ st, senders u !! sid = Some st ∧ ss_pktToSend st = false
    ∧ (ss_idx st, ss_isLoad st) = (storeWBIdx u, false) ∧ (sid < next_id u)%nat;
  rp_first : pk_write q1 = true ∧ pk_state q1 = Some sid;
  rp_second : ∀ q, q2 = Some q → pk_write q = true ∧ pk_state q = Some sid ∧ pk_id q ≠ pk_id q1;
}.

Lemma ready_packet u (sid : nat) (q1 : Packet) (q2 : option Packet) (q : Packet) :
  ready_packets u sid q1 q2 → q = q1 ∨ q2 = Some q → packet_ok u q ∧ second_part (senders u) q = [].
Proof.
  intros [(st & Hst & Hpk & Hix & Hlt) [H1 H1s] H2] Hq.
  assert (pk_write q = true ∧ pk_state q = Some sid) as [Hqw Hqs] by (destruct Hq as [->|Hq]; [done|destruct (H2 q Hq) as (? & ? & _); done]).
  split; [split; [done|]|].
  - exists sid, st. split_and!; try done. by rewrite Hpk.
  - unfold second_part. rewrite Hqs. cbn. by rewrite Hst, Hpk.
Qed.

Lemma sendPackets_ok u L St (w : nat) (e : SQEntry) (sid : nat) (q1 : Packet) (q2 : option Packet) :
  core_inv u L St w (S w) → St !! w = Some e → canWB e = true → sq_size e ≠ 0 →
  retryPkt u = None → isStoreBlocked u = false → pendingPkt u = None → hasPendingPkt u = false → ready_packets u sid q1 q2 →
  ∃ u' w', sendPackets sid q1 q2 u = Ok u' ∧ lsq_inv u' L St w' ∧ packets_ok u'
    ∧ accepted (calls u') ++ to_come u' St w'
      = accepted (calls u) ++ pkt_write q1 :: (pkt_write <$> option_list q2) ++ committed_writes (u_heap u) (drop (S w) St)
    ∧ turn_end u u' St St w w' ∧ SQEntries u' = SQEntries u.
Proof.
  intros Hc He Hw Hsz Hr Hb Hp Hh Hready. pose proof (lookup_lt_Some _ _ _ He) as Hlt. unfold LSQ.sendPackets.
  destruct q2 as [q2|].
  2: { destruct (ready_packet u sid q1 None q1 Hready ltac:(by left)) as [Hq Hq2].
       destruct (last_packet_ok needsTSO cache_accepts u L St w e q1 Hc He Hw Hsz Hr Hb Hq Hq2)
         as (u' & w' & E & Hi' & Hp' & Ha & Hx & _ & _ & [= F1 _ _ _ _] & [= _ _ F2] & [= F3 F4] & _).
       exists u', w'. rewrite no_pending_id in Hi', Hp', Ha by (by rewrite ?F3, ?F4). split.
       { unfold sendAndPost in E. destruct (sendStore cache_accepts q1 u) as [[[] ?]|]; done. }
       split_and!; try done. split; [lia|]. split; [|rewrite F4, Hh; done]. destruct Hx as [->|[-> ?]]; [left; lia|by right; left]. }
  destruct (rp_second _ _ _ _ Hready q2 eq_refl) as (H2w & H2s & H2i). unfold sendStore, sendTimingReq.
  destruct (cache_accepts (calls u) q1); cbn [mbind res_bind negb].
  - assert (Ea : accepted (calls u ++ [SendTimingReq q1 true]) = accepted (calls u) ++ [pkt_write q1]).
    { rewrite accepted_app. cbn. by rewrite (proj1 (rp_first _ _ _ _ Hready)). }
    set (u1 := do_call _ u). change (usedStorePorts u1) with (usedStorePorts u). destruct (Z.ltb_spec (usedStorePorts u) cacheStorePorts).
    + set (u2 := u1 <| usedStorePorts := _ |>). assert (Hready2 : ready_packets u2 sid q1 (Some q2)) by (by destruct Hready).
      destruct (ready_packet u2 sid q1 _ q2 Hready2 ltac:(by right)) as [Hq Hq2].
      destruct (last_packet_ok needsTSO cache_accepts u2 L St w e q2)
        as (u' & w' & E & Hi' & Hp' & Ha & Hx & _ & _ & [= F1 _ _ _ _] & [= _ _ F2] & [= F3 F4] & _); try done; [by apply (core_inv_view u)|].
      exists u', w'. rewrite no_pending_id in Hi', Hp', Ha by (by rewrite ?F3, ?F4). split; [done|].
      split_and!; try done; [|split; [lia|split; [|by rewrite F4; cbn; rewrite Hh]]].
      * rewrite Ha. change (calls u2) with (calls u ++ [SendTimingReq q1 true]). by rewrite Ea, <- app_assoc.
      * destruct Hx as [->|[-> ?]]; [left; lia|by right; left].
    + change (pendingPkt u1) with (pendingPkt u). rewrite Hp. cbn [is_Some bool_decide negb assert mbind res_bind]. eexists _, w.
      split; [reflexivity|]. set (u2 := u1 <| pendingPkt := _ |> <| hasPendingPkt := _ |>).
      destruct (ready_packet u sid q1 _ q2 Hready ltac:(by right)) as [Hq Hq2].
      assert (Es : sending u2 = true) by (unfold sending; apply orb_true_r).
      split_and!; try done.
      * apply lsq_inv_core. rewrite Es. split; [by apply (core_inv_view u)|]. split; cbn; rewrite ?Hr, ?Hb; try done. by exists e.
      * split; cbn; [by rewrite Hr|]. by intros q [= <-].
      * change (calls u2) with (calls u ++ [SendTimingReq q1 true]). rewrite Ea, <- app_assoc. unfold to_come, rest_of_store. rewrite Es.
        change (retryPkt u2) with (retryPkt u). by rewrite Hr.
      * split; [done|]. split; [by right; right|done].
  - cbn. rewrite Hr. cbn [is_Some bool_decide negb assert mbind res_bind]. eexists _, w. split; [reflexivity|].
    set (u1 := on_state sid _ _). assert (Es : sending u1 = true) by done.
    destruct Hready as [(st & Hst & Hpk & Hix & Hsid) [H1w H1s] _].
    assert (Est : senders u1 !! sid = Some (st <| ss_pktToSend := true |> <| ss_pendingPacket := Some q2 |>)).
    { change (senders u1) with (alter (λ st, st <| ss_pktToSend := true |> <| ss_pendingPacket := Some q2 |>) sid (senders u)).
      by rewrite lookup_alter_eq, Hst. }
    split_and!; try done.
    + apply lsq_inv_core. rewrite Es. split; [by apply (core_inv_view u)|]. split; cbn; rewrite ?Hp, ?Hh; try done. by exists e.
    + split; [|cbn; by rewrite Hp]. intros r [= <-]. split; [done|]. eexists sid, _. split_and!; [done|exact Est|done..|]. intros _. by exists q2.
    + unfold to_come, rest_of_store. rewrite Es. change (retryPkt u1) with (Some q1). unfold second_part. rewrite H1s. cbn [mbind option_bind].
      rewrite Est. cbn. rewrite bool_decide_true by congruence. cbn. rewrite accepted_app. cbn. by rewrite app_nil_r.
    + split; [done|]. split; [by right; left|]. change (hasPendingPkt u1) with (hasPendingPkt u). by rewrite Hh.
Qed.

(** ** One turn of the loop *)
Definition same_ports u u' : Prop :=
  (retryPkt u', isStoreBlocked u', pendingPkt u', hasPendingPkt u') = (retryPkt u, isStoreBlocked u, pendingPkt u, hasPendingPkt u)
  ∧ calls u' = calls u ∧ SQEntries u' = SQEntries u ∧ usedStorePorts u' = usedStorePorts u.

(** [e] is the entry before it was marked [committed]. *)
Lemma makePackets_ok u L St (w : nat) (e e1 : SQEntry) (req : Request) p (d : DynInst) :
  core_inv u L St w (S w) → St !! w = Some e1 → e1 = e <| sq_committed := true |> → canWB e = true →
  sq_inst e = Some p → sq_req e = Some req → (∃ d', u_heap u !! p = Some d' ∧ executed_ok d' e) → SQEntries u ≤ 256 →
  ∃ sid q1 q2 u' e', makePackets e req (store_bytes e req) p d u = Ok (sid, q1, q2, u')
    ∧ core_inv u' L (<[w := e']> St) w (S w) ∧ store_key e' = store_key e ∧ sq_size e' = sq_size e
    ∧ ready_packets u' sid q1 q2 ∧ same_ports u u' ∧ u_heap u' = u_heap u
    ∧ (isMmappedIpr (pk_req q1) = true → ∀ q, q2 = Some q → isMmappedIpr (pk_req q) = true)
    ∧ (∀ h d', h !! p = Some d' → sq_size e ≠ 0 → isDataPrefetch d' = false →
        store_writes h e = pkt_write q1 :: (pkt_write <$> option_list q2)).
Proof.
  intros Hc He1 Ee1 Hw Hp Hreq (d0 & Hd0 & _ & _ & _ & Hsplit) Hsz. unfold makePackets.
  pose proof Hc as [Hb [W1 _ _ _ _]]. pose proof (qo_sq _ _ _ (bi_queues _ _ _ _ Hb)) as R.
  pose proof (pos_range _ _ (ring_head _ _ _ _ _ _ R) w) as Hr. rewrite <- W1 in Hr.
  assert (Eidx : u8 (storeWBIdx u) = storeWBIdx u) by (apply Z.mod_small; lia).
  destruct (queue_entry u L St e1 (bi_queues _ _ _ _ Hb) (list_elem_of_lookup_2 _ _ _ He1)) as [Hda Hex]. destruct (sq_isSplit e) eqn:Es.
  - destruct (Hsplit eq_refl) as (low & high & Hlow & Hhigh & Hipr). rewrite Hlow, Hhigh. cbn [deref mbind res_bind].
    set (f := λ e : SQEntry, e <| sq_req := Some low |>).
    destruct (core_inv_update u L St w (S w) w e1 f Hc He1) as (sq' & Eo & Hc'); try done; [lia| |].
    { intros p' d' Hp' Hd' Hz. destruct (Hex p' d' Hp' Hd' Hz) as (? & ? & _ & ?). split_and!; try done. }
    rewrite <- W1 in Eo. cbv zeta. fold f. rewrite Eo. cbn [mbind res_bind]. eexists _, _, _, _, (f e1). split; [reflexivity|].
    split; [by apply (core_inv_view (u <| storeQueue := sq' |>))|]. subst e1. split_and!; try done.
    + split; cbn; [|done|by intros q [= <-]]. eexists. rewrite lookup_insert_eq. split; [done|]. cbn. split_and!; [done|by rewrite Eidx|lia].
    + intros Hi q [= <-]. by apply Hipr.
    + intros h d' Hd' Hz Hdp. unfold store_writes. rewrite Hp, Hreq. cbn. rewrite Hd', Hdp, Es, Hlow, Hhigh. cbn.
      by destruct (Z.eqb_spec (sq_size e) 0).
  - eexists _, _, None, _, e1. split; [reflexivity|]. rewrite list_insert_id by done. split; [by apply (core_inv_view u)|]. subst e1. split_and!; try done.
    + split; cbn; [|done|done]. eexists. rewrite lookup_insert_eq. split; [done|]. cbn. split_and!; [done|by rewrite Eidx|lia].
    + intros h d' Hd' Hz Hdp. unfold store_writes. rewrite Hp, Hreq. cbn. rewrite Hd', Hdp, Es. cbn.
      by destruct (Z.eqb_spec (sq_size e) 0).
Qed.

Definition idle_ports u : Prop := retryPkt u = None ∧ isStoreBlocked u = false ∧ pendingPkt u = None ∧ hasPendingPkt u = false.

Lemma not_sending u L St (w : nat) : lsq_inv u L St w → sending u = false → core_inv u L St w w ∧ idle_ports u.
Proof.
  intros [Hi [P1 P2 _ _]]%lsq_inv_core Hs. rewrite Hs in Hi. split; [done|]. unfold sending in Hs. apply orb_false_elim in Hs as [H1 H2].
  rewrite H1 in P1. rewrite H2 in P2. symmetry in P1, P2. apply bool_decide_eq_false, eq_None_not_Some in P1.
  apply bool_decide_eq_false, eq_None_not_Some in P2. by split_and!.
Qed.

(** A store is passed, with nothing left over. *)
Lemma passed_ok u L St St' (w w' : nat) :
  core_inv u L St' w' w' → idle_ports u → drop w' St' = drop (S w) St → (w < length St)%nat →
  lsq_inv u L St' w' ∧ packets_ok u ∧ to_come u St' w' = committed_writes (u_heap u) (drop (S w) St)
  ∧ (length St' - w' < length St - w)%nat.
Proof.
  intros Hc (I1 & I2 & I3 & I4) Hd Hw. assert (Es : sending u = false) by (unfold sending; by rewrite I2, I4). split_and!.
  - apply lsq_inv_core. rewrite Es. split; [done|]. split; rewrite ?I1, ?I2, ?I3, ?I4; try done. by rewrite Es.
  - split; [by rewrite I1|by rewrite I3].
  - unfold to_come, rest_of_store. by rewrite Es, I1, I3, Hd.
  - apply (f_equal length) in Hd. rewrite !length_drop in Hd. lia.
Qed.

Lemma passed_handed u u' L St St' (w w' : nat) (e : SQEntry) (ws : list Write) :
  core_inv u' L St' w' w' → idle_ports u → idle_ports u' → drop w' St' = drop (S w) St → St !! w = Some e → canWB e = true →
  same_keys (u_heap u) (u_heap u') → same_stores St St' → store_writes (u_heap u) e = ws → accepted (calls u') = accepted (calls u) ++ ws →
  handed u u' L St St' w w' ∧ turn_end u u' St St' w w'.
Proof.
  intros Hc Hid Hid' Hd He Hw Hk Hss Hws Ha. destruct (passed_ok u' L St St' w w' Hc Hid' Hd (lookup_lt_Some _ _ _ He)) as (Hi & Hp & Ht & Hlt).
  pose proof Hid' as (_ & _ & _ & I4). split; [|split; [lia|by split; [left|rewrite I4]]]. split; [done|]. split; [done|]. split; [done|].
  rewrite Ht, Ha, (committed_writes_same _ _ _ Hk), <- app_assoc. f_equal. destruct Hid as (J1 & J2 & J3 & J4).
  unfold to_come, rest_of_store, sending. rewrite J1, J2, J3, J4. cbn [orb app]. by rewrite (committed_writes_drop _ _ _ _ He Hw), Hws.
Qed.

Notation writebackStore := (writebackStore needsTSO cacheStorePorts cache_accepts).

(** The packets are made: they go to memory-mapped registers at once, or to the cache. *)
Definition deliver (sid : nat) (q1 : Packet) (q2 : option Packet) u : res LSQUnit :=
  let u := on_state sid (λ st, st <| ss_noWB := true |>) u in
  if isMmappedIpr (pk_req q1) then
    u ← (match q2 with
         | Some q => _ ← assert (isMmappedIpr (pk_req q)); Ok (do_call (HandleIprWrite q) (do_call (HandleIprWrite q1) u))
         | None => Ok (do_call (HandleIprWrite q1) u)
         end);
    u ← completeStore needsTSO (storeWBIdx u) (delete_state sid u);
    Ok (nextStore u)
  else sendPackets sid q1 q2 u.

Lemma deliver_ok u L St (w : nat) (e : SQEntry) (sid : nat) (q1 : Packet) (q2 : option Packet) :
  core_inv u L St w (S w) → idle_ports u → St !! w = Some e → canWB e = true → sq_size e ≠ 0 → ready_packets u sid q1 q2 →
  (isMmappedIpr (pk_req q1) = true → ∀ q, q2 = Some q → isMmappedIpr (pk_req q) = true) →
  ∃ u' St' w', deliver sid q1 q2 u = Ok u' ∧ lsq_inv u' L St' w' ∧ packets_ok u' ∧ same_stores St St'
    ∧ accepted (calls u') ++ to_come u' St' w'
      = accepted (calls u) ++ (pkt_write q1 :: (pkt_write <$> option_list q2)) ++ committed_writes (u_heap u) (drop (S w) St)
    ∧ turn_end u u' St St' w w'.
Proof.
  intros Hc (I1 & I2 & I3 & I4) He Hw Hz Hrp Hipr. unfold deliver. set (u1 := on_state _ _ u).
  assert (Hrp1 : ready_packets u1 sid q1 q2).
  { destruct Hrp as [(st & Hst & Ht & Hx & Hlt) ? ?]. split; [|done|done]. exists (st <| ss_noWB := true |>).
    split; [|done]. cbn. by rewrite lookup_alter_eq, Hst. }
  destruct (isMmappedIpr (pk_req q1)) eqn:Ei.
  - set (cs := HandleIprWrite q1 :: (HandleIprWrite <$> option_list q2)).
    assert (Em : match q2 with
         | Some q => _ ← assert (isMmappedIpr (pk_req q)); Ok (do_call (HandleIprWrite q) (do_call (HandleIprWrite q1) u1))
         | None => Ok (do_call (HandleIprWrite q1) u1)
         end = Ok (u1 <| calls ::= (λ l, l ++ cs) |>)).
    { destruct q2 as [q2|]; [rewrite (Hipr eq_refl q2 eq_refl)|done]. cbn. unfold do_call, over_field. cbn. by rewrite <- app_assoc. }
    rewrite Em. cbn [mbind res_bind]. set (u2 := delete_state sid (u1 <| calls ::= _ |>)).
    change (storeWBIdx (u1 <| calls ::= _ |>)) with (storeWBIdx u2).
    destruct (complete_next_ok u2 L St w e ltac:(by apply (core_inv_view u)) He Hw) as (u' & St' & w' & -> & Hc' & Hd' & Hf & Hss). cbn [mbind res_bind].
    destruct Hf as (_ & _ & _ & _ & [= G1 G2 G3 G4] & _ & _ & _ & _ & Hk & Ha). exists (nextStore u'), St', w'. split; [done|].
    destruct (passed_ok (nextStore u') L St St' w w' Hc') as (Hi & Hp & Ht & Hlt); [|done|by apply lookup_lt_Some in He|].
    { unfold idle_ports. cbn. by rewrite G1, G2, G3, G4. }
    split; [done|]. split; [done|]. split; [done|]. split; [|split; [lia|by split; [left|cbn; rewrite G3; cbn; rewrite I4]]].
    rewrite Ht. change (calls (nextStore u')) with (calls u'). rewrite Ha. change (u_heap (nextStore u')) with (u_heap u').
    rewrite (committed_writes_same _ _ _ Hk). change (calls u2) with (calls u ++ cs). rewrite accepted_app, <- app_assoc. f_equal. f_equal.
    by destruct q2.
  - destruct (sendPackets_ok u1 L St w e sid q1 q2) as (u' & w' & -> & Hi & Hp & Ha & Ht & _); try done; [by apply (core_inv_view u)|].
    exists u', St, w'. split; [done|]. split; [done|]. split; [done|]. split; [apply same_stores_refl|done].
Qed.

(** The store goes to the cache or to a memory-mapped register. *)
Lemma handOverStore_ok u L St (w : nat) (e : SQEntry) p (d : DynInst) :
  core_inv u L St w w → idle_ports u → St !! w = Some e → canWB e = true → sq_inst e = Some p → u_heap u !! p = Some d →
  sq_size e ≠ 0 → isDataPrefetch d = false → executed_ok d e →
  ∃ u' St' w', handOverStore needsTSO cacheStorePorts cache_accepts e p d u = Ok u' ∧ handed u u' L St St' w w' ∧ turn_end u u' St St' w w'.
Proof.
  intros Hc Hid He Hw Hp Hd Hz Hdp Hex. pose proof Hex as (_ & Hsc & [req Hreq] & Hsplit). pose proof Hc as [Hb Hwb].
  pose proof (bi_queues _ _ _ _ Hb) as Hq. destruct (bi_fresh _ _ _ _ Hb w e p He ltac:(lia) Hp) as [Hnc Hmd]. rewrite Hd in Hmd. injection Hmd as Hmd.
  destruct (queue_entry u L St e Hq (list_elem_of_lookup_2 _ _ _ He)) as [Hda Hex'].
  assert (Hc1 : core_inv u L St w (S w)) by (split; [by apply (base_inv_fresh _ _ _ w); [lia|]|done]).
  unfold handOverStore. rewrite Hreq, Hnc, Hmd, Hsc. cbn [mbind res_bind negb assert orb andb is_Some bool_decide].
  replace (negb (sq_isSplit e) || _) with true.
  2: { destruct (sq_isSplit e); [|done]. destruct (Hsplit eq_refl) as (? & ? & -> & -> & _). done. }
  cbn [mbind res_bind assert]. rewrite (wo_idx _ _ _ Hwb).
  destruct (core_inv_update u L St w (S w) w e (λ e, e <| sq_committed := true |>) Hc1 He) as (sq' & -> & Hc2); try done; [left; lia|].
  cbn [mbind res_bind]. set (e1 := e <| sq_committed := true |>) in *. set (St1 := <[w := e1]> St) in *. set (u1 := u <| storeQueue := sq' |>) in *.
  assert (He1 : St1 !! w = Some e1) by (unfold St1; rewrite list_lookup_insert_eq; [done|]; by apply lookup_lt_Some in He).
  change (if isAllZeros e then _ else _) with (store_bytes e req). 
  pose proof (core_inv_memData u1 L St1 w e1 p (Some (store_bytes e req)) Hc2 He1 Hp) as Hc3. set (u2 := on_inst p _ u1) in *.
  destruct (makePackets_ok u2 L St1 w e e1 req p d Hc3 He1 eq_refl Hw Hp Hreq) as (sid & q1 & q2 & u3 & e3 & -> & Hc4 & Hk3 & Hz3 & Hrp & Hsp & Hh3 & Hipr & Hsw).
  { exists (d <| memData := Some (store_bytes e req) |>). cbn. by rewrite lookup_alter_eq, Hd. }
  { apply (qo_size _ _ _ Hq). }
  cbn [mbind res_bind]. destruct Hsp as ([= P1 P2 P3 P4] & Pc & _).
  destruct (deliver_ok u3 L (<[w := e3]> St1) w e3 sid q1 q2) as (u' & St' & w' & E & Hi' & Hp' & Hss & Ha & Ht); try done.
  { unfold idle_ports. rewrite P1, P2, P3, P4. done. }
  { rewrite list_lookup_insert_eq; [done|]. by apply lookup_lt_Some in He1. }
  { unfold store_key in Hk3. congruence. }
  { by rewrite Hz3. }
  exists u', St', w'. unfold deliver in E. split; [exact E|]. unfold St1 in *. rewrite list_insert_insert_eq in *.
  rewrite drop_insert_lt, Pc, Hh3 in Ha by lia. split; [split; [done|split; [done|split]]|].
  - eapply same_stores_trans; [|exact Hss]. by apply (same_stores_insert St w e e3).
  - rewrite Ha. change (calls u2) with (calls u). f_equal. destruct Hid as (I1 & I2 & I3 & I4). unfold to_come, rest_of_store, sending.
    rewrite I1, I2, I3, I4. cbn [orb app]. rewrite (committed_writes_drop _ _ _ _ He Hw), (Hsw _ d Hd Hz Hdp). cbn [app].
    do 2 f_equal. apply committed_writes_same. by apply same_keys_alter.
  - unfold turn_end in *. by rewrite length_insert in Ht.
Qed.

Lemma writebackStore_ok u L St (w : nat) (e : SQEntry) :
  lsq_inv u L St w → packets_ok u → sending u = false → St !! w = Some e → canWB e = true →
  ∃ u' St' w', writebackStore u = Ok u' ∧ handed u u' L St St' w w' ∧ turn_end u u' St St' w w'.
Proof.
  intros Hi Hpk Hs He Hw. destruct (not_sending u L St w Hi Hs) as [Hc Hid]. pose proof Hid as (I1 & I2 & I3 & I4).
  pose proof Hc as [Hb Hwb]. pose proof (bi_queues _ _ _ _ Hb) as Hq. pose proof (lookup_lt_Some _ _ _ He) as Hlt.
  assert (Hget : vget (storeQueue u) (storeWBIdx u) = Ok e).
  { rewrite (wo_idx _ _ _ Hwb). by apply (ring_get _ _ _ _ _ _ _ _ (qo_sq _ _ _ Hq)). }
  destruct (proj1 (Forall_forall _ _) (qo_stores _ _ _ Hq) e (list_elem_of_lookup_2 _ _ _ He)) as (p & d & Hp & Hd & _ & _ & Hex).
  unfold LSQ.writebackStore, store_at. rewrite Hget. cbn [mbind res_bind]. rewrite Hp. cbn [deref mbind res_bind].
  rewrite (lsq_inst_ok u p d Hd). cbn [mbind res_bind].
  destruct (Z.eqb_spec (sq_size e) 0) as [Hz|Hz].
  { assert (Hc1 : core_inv u L St w (S w)) by (split; [by apply (base_inv_fresh _ _ _ w); [lia|]|done]).
    destruct (complete_next_ok u L St w e Hc1 He Hw) as (u' & St' & w' & -> & Hc' & Hd' & Hf & Hss). cbn [mbind res_bind].
    destruct Hf as (_ & _ & _ & _ & [= G1 G2 G3 G4] & _ & _ & _ & _ & Hk & Ha).
    exists (nextStore u'), St', w'. split; [done|]. apply (passed_handed u _ L St St' w w' e []); try done.
    - unfold idle_ports. cbn. by rewrite G1, G2, G3, G4.
    - unfold store_writes. rewrite Hz. by destruct (sq_inst e ≫= _), (sq_req e).
    - cbn. by rewrite app_nil_r. }
  set (u1 := u <| usedStorePorts := usedStorePorts u + 1 |>). destruct (isDataPrefetch d) eqn:Edp.
  - exists (nextStore u1), St, (S w). split; [done|]. apply (passed_handed u _ L St St w (S w) e []); try done.
    + apply (core_inv_view (nextStore u)); [done|]. replace (S w) with (max w (S w)) at 2 by lia. by apply (nextStore_ok u L St w w e).
    + apply same_stores_refl.
    + unfold store_writes. rewrite Hp. cbn. rewrite Hd, Edp, orb_true_r. by destruct (sq_req e).
    + cbn. by rewrite app_nil_r.
  - apply (handOverStore_ok u1 L St w e p d); try done; [by apply (core_inv_view u)|by apply Hex].
Qed.

(** ** The loop *)
Lemma canWriteback_ok u L St (w : nat) :
  lsq_inv u L St w → ∃ b, canWriteback needsTSO cacheStorePorts u = Ok b
    ∧ (b = true → ∃ e, St !! w = Some e ∧ canWB e = true ∧ usedStorePorts u < cacheStorePorts).
Proof.
  intros [Hq [W1 W2 _ _ _] _ _ _ _]. pose proof (qo_sq _ _ _ Hq) as R. pose proof (ring_head _ _ _ _ _ _ R) as Hh.
  pose proof (ring_slots _ _ _ _ _ _ R) as Hn. pose proof (pos_range _ _ Hh w) as Hr. rewrite <- W1 in Hr.
  unfold canWriteback, store_at. destruct (vget_in_range (storeQueue u) (storeWBIdx u) ltac:(lia)) as [x Hx]. rewrite Hx. cbn [mbind res_bind].
  eexists. split; [reflexivity|]. intros [[[[[_ H2]%andb_prop _]%andb_prop H4]%andb_prop _]%andb_prop H6]%andb_prop.
  rewrite W1, (ring_pos_eqb _ _ _ _ _ _ w R W2) in H2. apply negb_true_iff, bool_decide_eq_false in H2.
  destruct (lookup_lt_is_Some_2 St w) as [e He]; [lia|]. pose proof (ring_get _ _ _ _ _ _ w e R He) as Hg. rewrite <- W1, Hx in Hg.
  injection Hg as ->. exists e. split; [done|]. split; [done|]. by apply Z.ltb_lt.
Qed.

(** The unit will not hand over any more this cycle. *)
Definition stopped u : Prop := isStoreBlocked u = true ∨ hasPendingPkt u = true.

Lemma handed_trans u1 u2 u3 L St1 St2 St3 (w1 w2 w3 : nat) :
  handed u1 u2 L St1 St2 w1 w2 → handed u2 u3 L St2 St3 w2 w3 → handed u1 u3 L St1 St3 w1 w3.
Proof.
  intros (_ & _ & S1 & E1) (H1 & H2 & S2 & E2). split; [done|]. split; [done|]. split; [by apply (same_stores_trans _ St2)|by rewrite E2].
Qed.

Lemma writebackStores_loop_ok (fuel : nat) u L St (w : nat) :
  lsq_inv u L St w → packets_ok u → (hasPendingPkt u = true → cacheStorePorts ≤ usedStorePorts u) →
  (0 < fuel)%nat → (length St - w < fuel)%nat ∨ stopped u →
  ∃ u' St' w', writebackStores_loop needsTSO cacheStorePorts cache_accepts fuel u = Ok u' ∧ handed u u' L St St' w w'.
Proof.
  revert u St w. induction fuel as [|fuel IH]; intros u St w Hi Hp Hports Hf Hlt; [lia|]. cbn [writebackStores_loop].
  destruct (canWriteback_ok u L St w Hi) as (b & -> & Hb). cbn [mbind res_bind].
  destruct (b && negb (isStoreBlocked u)) eqn:Ego.
  2: { exists u, St, w. split; [done|]. split; [done|]. split; [done|]. split; [apply same_stores_refl|done]. }
  apply andb_prop in Ego as [-> Hnb%negb_true_iff].
  destruct (Hb eq_refl) as (e & He & Hw & Hlow). assert (Hnp : hasPendingPkt u = false) by (destruct (hasPendingPkt u); [specialize (Hports eq_refl); lia|done]).
  destruct (writebackStore_ok u L St w e Hi Hp) as (u1 & St1 & w1 & -> & H1 & Hle & Hturn & Hports1); try done; [by unfold sending; rewrite Hnb, Hnp|].
  cbn [mbind res_bind]. apply lookup_lt_Some in He. destruct Hlt as [Hlt|[?|?]]; [|congruence..].
  destruct (IH u1 St1 w1) as (u2 & St2 & w2 & -> & H2); [apply H1|apply H1|done|lia| |].
  { destruct Hturn as [?|?]; [left; lia|by right]. }
  exists u2, St2, w2. split; [done|]. by apply (handed_trans u u1 u2 L St St1 St2 w w1 w2).
Qed.

Lemma writebackStores_ok u L St (w : nat) :
  lsq_inv u L St w → packets_ok u →
  ∃ u' St' w', lsq_writebackStores needsTSO cacheStorePorts cache_accepts u = Ok u' ∧ handed u u' L St St' w w' ∧ usedStorePorts u' = 0.
Proof.
  intros Hi Hp. unfold lsq_writebackStores.
  destruct (writebackPendingStore_ok needsTSO cache_accepts u L St w Hi Hp) as (u1 & w1 & -> & H1 & Hnp & Es & Eh). cbn [mbind res_bind].
  pose proof (ring_room _ _ _ _ _ _ (qo_sq _ _ _ (li_queues _ _ _ _ (proj1 H1)))) as Hroom.
  destruct (writebackStores_loop_ok (S (Z.to_nat (SQEntries u1))) u1 L St w1) as (u2 & St2 & w2 & -> & H2); [apply H1|apply H1|by rewrite Hnp|lia|left; lia|].
  cbn [mbind res_bind]. destruct (handed_trans _ _ _ _ _ _ _ _ _ _ H1 H2) as (Hi2 & Hp2 & Hs2 & Ha2).
  change (stores (u2 <| usedStorePorts := 0 |>)) with (stores u2). change (storesToWB (u2 <| usedStorePorts := 0 |>)) with (storesToWB u2).
  rewrite (ring_count _ _ _ _ _ _ (qo_sq _ _ _ (li_queues _ _ _ _ Hi2))), (wo_count _ _ _ (li_wb _ _ _ _ Hi2)).
  rewrite !(proj2 (Z.leb_le _ _)) by lia. cbn [andb assert mbind res_bind]. eexists _, St2, w2. split; [reflexivity|]. split; [|done].
  split; [by apply (lsq_inv_view u2)|]. split; [by destruct Hp2|]. split; [exact Hs2|exact Ha2].
Qed.
End drain.
