(* ===== verification/LSQSteps.v ===== *)
(** * The stream of writes under the other operations

    Insertion, loads, squashes and responses leave the stream of writes alone
    ([quiet]); a commit appends the writes of the stores it commits. *)

From S2P Require Import Prelude Regs DynInst Ring LSQ LSQInv LSQCommit LSQSquash LSQRead LSQViol LSQStore LSQWrite LSQDrain.
From stdpp Require Import sorting list.
Local Open Scope Z_scope.

Implicit Types (u : LSQUnit) (L : list InstPtr) (St : list SQEntry) (p : InstPtr).

(** ** Operations that do not touch the hand-over *)
(** The fields of a sender state the hand-over of a store relies on. *)
Definition sender_key (st : LSQSenderState) := (ss_pktToSend st, ss_pendingPacket st, ss_idx st, ss_isLoad st).
Definition in_hand u (sid : nat) : Prop := ∃ r, (retryPkt u = Some r ∨ pendingPkt u = Some r) ∧ pk_state r = Some sid.

Record quiet u u' : Prop := {
  qt_ports : (retryPkt u', isStoreBlocked u', pendingPkt u', hasPendingPkt u') = (retryPkt u, isStoreBlocked u, pendingPkt u, hasPendingPkt u);
  qt_idx : storeWBIdx u' = storeWBIdx u;
  qt_accepted : accepted (calls u') = accepted (calls u);
  qt_next : (next_id u ≤ next_id u')%nat;
  qt_senders : ∀ sid, in_hand u sid → (sid < next_id u)%nat → sender_key <$> senders u' !! sid = sender_key <$> senders u !! sid;
}.

Lemma quiet_trans u1 u2 u3 : quiet u1 u2 → quiet u2 u3 → quiet u1 u3.
Proof.
  intros [[= P1 P2 P3 P4] I1 A1 N1 S1] [[= P1' P2' P3' P4'] I2 A2 N2 S2]. split; try congruence; [lia|].
  intros sid Hs Hlt. rewrite <- S1 by done. apply S2; [|lia]. destruct Hs as (r & Hr & Hrs). exists r. by rewrite P1, P3.
Qed.

Lemma second_part_quiet u u' (r : Packet) :
  packets_ok u → quiet u u' → retryPkt u = Some r ∨ pendingPkt u = Some r →
  second_part (senders u') r = second_part (senders u) r ∧ (packet_ok u r → packet_ok u' r).
Proof.
  intros [H1 H2] [_ Ei _ Hn Hs] Hr. assert (Hok : packet_ok u r) by (destruct Hr as [Hr|Hr]; [by apply H1|by apply H2]).
  destruct Hok as (Hw & sid & st & Hsid & Hst & Hlt & Hk & Hpk). specialize (Hs sid ltac:(by exists r) Hlt). rewrite Hst in Hs.
  destruct (senders u' !! sid) as [st'|] eqn:Hst'; [|done]. injection Hs as E1 E2 E3 E4. split.
  - unfold second_part. rewrite Hsid. cbn. by rewrite Hst, Hst', E1, E2.
  - intros _. split; [done|]. exists sid, st'. split_and!; [done..|lia|congruence|]. by rewrite E1, E2.
Qed.

Lemma quiet_stream u u' St St' (w : nat) :
  packets_ok u → quiet u u' → (∀ n, committed_writes (u_heap u') (drop n St') = committed_writes (u_heap u) (drop n St)) →
  packets_ok u' ∧ accepted (calls u') ++ to_come u' St' w = accepted (calls u) ++ to_come u St w.
Proof.
  intros Hp Hq Hc. pose proof Hq as [[= E1 E2 E3 E4] Ei Ea Hn Hs]. split.
  - split; [rewrite E1|rewrite E3]; intros r Hr; destruct (second_part_quiet u u' r Hp Hq ltac:(auto)) as [E Hok].
    + by apply Hok, (pa_retry _ Hp).
    + rewrite E. split; [by apply Hok, (pa_pending _ Hp)|by apply (pa_pending _ Hp)].
  - rewrite Ea. f_equal. unfold to_come, rest_of_store, sending. rewrite E1, E2, E3, E4, Hc. f_equal.
    destruct (retryPkt u) as [r|] eqn:Er; [|done]. f_equal. apply (second_part_quiet u u' r Hp Hq). auto.
Qed.

(** The usual case: the instructions and the log change. *)
Lemma quiet_calls u u' (cs : list Call) :
  (retryPkt u', isStoreBlocked u', pendingPkt u', hasPendingPkt u') = (retryPkt u, isStoreBlocked u, pendingPkt u, hasPendingPkt u) →
  storeWBIdx u' = storeWBIdx u → calls u' = calls u ++ cs → accepted cs = [] → (next_id u ≤ next_id u')%nat → senders u' = senders u → quiet u u'.
Proof. intros E1 E2 E3 E4 E5 E6. split; [done..| |done|by rewrite E6]. by rewrite E3, accepted_app, E4, app_nil_r. Qed.

(** ** Operations that touch nothing of the hand-over *)
Definition hand_view u :=
  (retryPkt u, isStoreBlocked u, pendingPkt u, hasPendingPkt u, storeWBIdx u, (senders u, next_id u, calls u)).

Lemma quiet_view u u' : hand_view u' = hand_view u → quiet u u'.
Proof. unfold hand_view. intros [= E1 E2 E3 E4 E5 E6 E7 E8]. split; [congruence..|lia|]. intros sid _ _. by rewrite E6. Qed.

Section views.
Context (depCheckShift cacheBlockMask curCycle : Z) (needsTSO : bool).
Implicit Types (f : Fault).

Lemma insert_hand p u u' : lsq_insert curCycle p u = Ok u' → hand_view u' = hand_view u.
Proof.
  unfold lsq_insert. intros H. inv_res H. injection H as <-. destruct (isLoad _).
  - unfold lsq_insertLoad in E2. inv_res E2. by injection E2 as <-.
  - unfold lsq_insertStore in E2. inv_res E2. by injection E2 as <-.
Qed.

Lemma commitStores_loop_hand (fuel : nat) (y idx : Z) u u' : commitStores_loop fuel y idx u = Ok u' → hand_view u' = hand_view u.
Proof.
  revert idx u. induction fuel as [|fuel IH]; intros idx u H; [done|]. cbn [commitStores_loop] in H.
  destruct (idx =? storeTail u); [by injection H as <-|]. inv_res H. destruct (canWB a); [by apply IH in H|]. inv_res H.
  destruct (_ <? _); [by injection H as <-|]. inv_res H. unfold on_store in E2. inv_res E2. injection E2 as <-. by apply IH in H.
Qed.
Lemma commitLoads_loop_hand (fuel : nat) (y : Z) u u' : commitLoads_loop fuel y u = Ok u' → hand_view u' = hand_view u.
Proof.
  revert u. induction fuel as [|fuel IH]; intros u H; [done|]. cbn [commitLoads_loop] in H.
  destruct (_ =? _); [by injection H as <-|]. inv_res H. destruct (_ <=? _); [|by injection H as <-]. inv_res H.
  unfold commitLoad in E1. inv_res E1. injection E1 as <-. by apply IH in H.
Qed.
Lemma commit_hand (y : Z) u u' : lsq_commit y u = Ok u' → hand_view u' = hand_view u.
Proof.
  unfold lsq_commit, commitStores, commitLoads. intros H. inv_res H. inv_res E. apply commitLoads_loop_hand in H. apply commitStores_loop_hand in E.
  by rewrite H, E.
Qed.

Lemma static_refl (h : heap) : same_static h h.
Proof. by intros p. Qed.
Lemma static_trans (h1 h2 h3 : heap) : same_static h1 h2 → same_static h2 h3 → same_static h1 h3.
Proof. intros E1 E2 p. by rewrite E2, E1. Qed.
Lemma static_alter (h : heap) (g : DynInst → DynInst) p : (∀ d, staticInst (g d) = staticInst d) → same_static h (alter g p h).
Proof.
  intros Hf q. destruct (decide (p = q)) as [<-|]; [|by rewrite lookup_alter_ne]. rewrite lookup_alter_eq. destruct (h !! p); [|done].
  cbn. by rewrite Hf.
Qed.

Lemma violations_hand (fuel : nat) (a1 a2 idx : Z) p u f u' :
  checkViolations_loop depCheckShift fuel a1 a2 idx p u = Ok (f, u') → hand_view u' = hand_view u ∧ same_static (u_heap u) (u_heap u').
Proof.
  revert idx u. induction fuel as [|fuel IH]; intros idx u H; [done|]. cbn [checkViolations_loop] in H.
  destruct (_ =? _); [by injection H as _ <-|]. inv_res H. destruct (_ || _); [by apply IH in H|]. destruct (_ && _); [|by apply IH in H].
  inv_res H. destruct (isLoad _).
  - destruct (_ && _); [by injection H as _ <-|]. apply IH in H as [Hv Hs]. split; [done|].
    eapply static_trans; [|exact Hs]. by apply static_alter.
  - repeat case_match; by injection H as _ <-.
Qed.

Lemma snoop_hand (fuel : nat) (a idx : Z) (b : bool) u u' :
  checkSnoop_loop needsTSO cacheBlockMask fuel a idx b u = Ok u' → hand_view u' = hand_view u.
Proof.
  revert idx b u. induction fuel as [|fuel IH]; intros idx b u H; [done|]. cbn [checkSnoop_loop] in H.
  destruct (_ =? _); [by injection H as <-|]. inv_res H. destruct a1 as [b' u1]. apply IH in H. rewrite H. unfold snoopLoad in E0. inv_res E0.
  destruct (_ || _); [by injection E0 as _ <-|]. destruct (_ || _); [|by injection E0 as _ <-]. by destruct (_ || _); injection E0 as _ <-.
Qed.
End views.

(** ** Committing *)
(** Stores commit in order. *)
Definition prefix_ok St : Prop := ∀ j k e e', (j < k)%nat → St !! j = Some e → St !! k = Some e' → canWB e' = true → canWB e = true.

Lemma prefix_split St : prefix_ok St → ∃ A B, St = A ++ B ∧ Forall (λ e, canWB e = true) A ∧ Forall (λ e, canWB e = false) B.
Proof.
  induction St as [|e St IH]; intros Hp; [by exists [], []|].
  destruct IH as (A & B & -> & HA & HB); [by intros j k e1 e2 Hjk H1 H2; apply (Hp (S j) (S k)); [lia|..]|].
  destruct (canWB e) eqn:Ew; [exists (e :: A), B; split_and!; [done|by constructor|done]|].
  exists [], (e :: A ++ B). split_and!; [done..|]. constructor; [done|]. apply Forall_lookup. intros k e' Hk.
  destruct (canWB e') eqn:Ew'; [|done]. rewrite (Hp 0%nat (S k) e e') in Ew; [done|lia|done..].
Qed.

Lemma prefix_mark (h : heap) (y : Z) St : StronglySorted Z.lt (sseqs h St) → prefix_ok St → prefix_ok (markWB h y <$> St).
Proof.
  intros Hs Hp j k e e' Hjk Hj Hk. rewrite list_lookup_fmap in Hj, Hk. destruct (St !! j) as [x|] eqn:Ex; [|done].
  destruct (St !! k) as [x'|] eqn:Ex'; [|done]. injection Hj as <-. injection Hk as <-. unfold markWB.
  assert (Hlt : ssn h x < ssn h x').
  { assert (H1 : sseqs h St !! j = Some (ssn h x)) by (unfold sseqs; by rewrite list_lookup_fmap, Ex).
    assert (H2 : sseqs h St !! k = Some (ssn h x')) by (unfold sseqs; by rewrite list_lookup_fmap, Ex').
    by apply (sorted_lookup_lt _ j k _ _ Hs). }
  destruct (Z.leb_spec (ssn h x') y).
  - intros _. by destruct (Z.leb_spec (ssn h x) y); [|lia].
  - intros Hw. assert (canWB x = true) by (by apply (Hp j k x x')). by destruct (_ <=? _).
Qed.

(** The stores a commit up to [y] adds. *)
Definition commits (h : heap) (y : Z) St : list SQEntry := filter (λ e, newly h y e = true) St.

Lemma committed_mark (h : heap) (y : Z) St :
  prefix_ok St → committed_writes h (markWB h y <$> St) = committed_writes h St ++ concat (store_writes h <$> commits h y St).
Proof.
  intros (A & B & -> & HA & HB)%prefix_split. unfold committed_writes, commits. rewrite fmap_app, !filter_app.
  assert (EA : markWB h y <$> A = A).
  { induction HA as [|e A He _ IH]; [done|]. cbn. by rewrite (markWB_canWB h y e He), IH. }
  assert (EA' : filter (λ e, newly h y e = true) A = []).
  { apply filter_void. eapply Forall_impl; [exact HA|]. intros e He. cbn in He. unfold newly. by rewrite He. }
  assert (EB : filter (λ e, canWB e = true) B = []).
  { apply filter_void. eapply Forall_impl; [exact HB|]. intros e He. cbn in He. by rewrite He. }
  rewrite EA, EA', EB, !app_nil_r, fmap_app, concat_app. f_equal. cbn [app]. clear EB.
  induction HB as [|e B He _ IH]; [done|]. rewrite fmap_cons. destruct (ssn h e <=? y) eqn:Ey.
  - rewrite (filter_cons_True (λ e, newly h y e = true)) by (unfold newly; by rewrite He, Ey).
    assert (Em : markWB h y e = e <| canWB := true |>) by (unfold markWB; by rewrite Ey).
    rewrite Em, filter_cons_True by done. rewrite !fmap_cons. cbn [concat]. by rewrite IH.
  - rewrite (filter_cons_False (λ e, newly h y e = true)) by (unfold newly; by rewrite He, Ey).
    assert (Em : markWB h y e = e) by (unfold markWB; by rewrite Ey). rewrite Em, filter_cons_False by (by rewrite He). exact IH.
Qed.

Lemma commits_drop u L St (w n : nat) (y : Z) :
  lsq_inv u L St w → (n ≤ if sending u then S w else w)%nat → commits (u_heap u) y (drop n St) = commits (u_heap u) y St.
Proof.
  intros Hi Hn. unfold commits. rewrite <- (take_drop n St) at 2. rewrite filter_app.
  rewrite (filter_void _ (take n St)); [done|]. apply Forall_lookup. intros k e Hk Hnew. apply lookup_take_Some in Hk as [Hk Hlt].
  unfold newly in Hnew. apply andb_prop in Hnew as [Hnw%negb_true_iff _]. pose proof (wo_sent _ _ _ (li_wb _ _ _ _ Hi) k e Hk) as Hw.
  destruct (decide (k < w)%nat); [rewrite Hw in Hnw by done; done|]. destruct (sending u) eqn:Es; [|lia].
  destruct (so_current _ _ _ (li_send _ _ _ _ Hi) Es) as (e' & He' & Hw' & _). assert (k = w) as -> by lia. congruence.
Qed.

(** * The operations of the unit, one by one

    Every operation, in the circumstances the CPU uses it in, returns and keeps
    [flow_inv]: the queues are in order and the stream of writes is what the committed
    stores have to write. *)
From stdpp Require Import sorting list.
Local Open Scope Z_scope.


(** [W] is everything the committed stores have to write, from the start. *)
Record flow_inv u L St (w : nat) (W : list Write) : Prop := {
  fi_inv : lsq_inv u L St w;
  fi_packets : packets_ok u;
  fi_prefix : prefix_ok St;
  fi_stream : accepted (calls u) ++ to_come u St w = W;
}.

Lemma flow_quiet u u' L L' St St' (w : nat) (W : list Write) :
  flow_inv u L St w W → lsq_inv u' L' St' w → quiet u u' → prefix_ok St' →
  (∀ n, committed_writes (u_heap u') (drop n St') = committed_writes (u_heap u) (drop n St)) → flow_inv u' L' St' w W.
Proof.
  intros [_ Hp _ Hs] Hi' Hq Hpre Hc. destruct (quiet_stream u u' St St' w Hp Hq Hc) as [Hp' E]. split; try done. by rewrite E.
Qed.

(** A change of the instructions that nothing of this unit depends on. *)
Lemma flow_static u u' L L' St (w : nat) (W : list Write) :
  flow_inv u L St w W → lsq_inv u' L' St w → quiet u u' → same_static (u_heap u) (u_heap u') → flow_inv u' L' St w W.
Proof.
  intros Hf Hi' Hq Hs. apply (flow_quiet u u' L L' St St w W Hf Hi' Hq); [apply Hf|]. intros n. by apply committed_writes_static.
Qed.

(** ** Insertion *)
Section steps.
Context (depCheckShift : Z) (needsTSO : bool) (cacheStorePorts cacheBlockMask curCycle : Z).
Context (cache_accepts : list Call → Packet → bool) (handleIprRead : Request → list Z) (completeAcc : Packet → DynInst → DynInst).

Lemma insert_load_step u L St (w : nat) (W : list Write) p (d : DynInst) :
  flow_inv u L St w W → u_heap u !! p = Some d → isMemRef d = true → isLoad d = true →
  youngest u L St (seqNum d) → Z.of_nat (length L) + 1 < LQEntries u →
  ∃ u', lsq_insert curCycle p u = Ok u' ∧ flow_inv u' (L ++ [p]) St w W.
Proof.
  intros Hf Hp Hm Hl Hy Hr. destruct (lsq_insertLoad_ok curCycle u L St w p d (fi_inv _ _ _ _ _ Hf) Hp Hm Hl Hy Hr) as (u' & E & Hi' & Hh).
  exists u'. split; [done|]. apply (flow_static u u' L _ St w W Hf Hi'); [by apply quiet_view, (insert_hand curCycle p)|].
  rewrite Hh. by apply static_alter.
Qed.

Lemma committed_snoc (h : heap) (n : nat) (e : SQEntry) St :
  canWB e = false → committed_writes h (drop n (St ++ [e])) = committed_writes h (drop n St).
Proof.
  intros He. unfold committed_writes. rewrite drop_app, filter_app. rewrite (filter_void _ (drop _ [e])), app_nil_r; [done|].
  apply Forall_drop. constructor; [by rewrite He|done].
Qed.

Lemma insert_store_step u L St (w : nat) (W : list Write) p (d : DynInst) :
  flow_inv u L St w W → u_heap u !! p = Some d → isMemRef d = true → isLoad d = false → isStore d = true →
  memData d = None → youngest u L St (seqNum d) → Z.of_nat (length St) + 1 < SQEntries u →
  ∃ u', lsq_insert curCycle p u = Ok u' ∧ flow_inv u' L (St ++ [SQEntry_new (Some p)]) w W.
Proof.
  intros Hf Hp Hm Hl Hs Hd Hy Hr.
  destruct (lsq_insertStore_ok curCycle u L St w p d (fi_inv _ _ _ _ _ Hf) Hp Hm Hl Hs Hd Hy Hr) as (u' & E & Hi' & Hh).
  exists u'. split; [done|]. apply (flow_quiet u u' L L St _ w W Hf Hi'); [by apply quiet_view, (insert_hand curCycle p)| |].
  - intros j k e e' Hjk Hj Hk Hw. apply lookup_app_Some in Hk as [Hk|[_ [_ <-]%list_lookup_singleton_Some]]; [|done].
    apply (fi_prefix _ _ _ _ _ Hf j k e e'); try done. rewrite lookup_app_l in Hj; [done|]. apply lookup_lt_Some in Hk. lia.
  - intros n. rewrite committed_snoc by done. apply committed_writes_static. rewrite Hh. by apply static_alter.
Qed.

(** ** Execution *)
Definition calm u u' : Prop := quiet u u' ∧ same_static (u_heap u) (u_heap u').

Lemma forwardData_quiet (req : Request) p (idx : Z) u u' : forwardData req p idx u = Ok u' → calm u u'.
Proof.
  unfold forwardData. intros H. inv_res H. injection H as <-. split; [|by apply static_alter].
  eapply (quiet_calls _ _ [ScheduleWriteback p _]); try done. cbn. lia.
Qed.
Lemma stallLoad_quiet (k : Z) p (idx : Z) u u' : stallLoad k p idx u = Ok u' → calm u u'.
Proof.
  unfold stallLoad. intros H. inv_res H. injection H as <-. split; [by apply (quiet_calls _ _ [RescheduleMemInst p]); destruct a4|].
  destruct a4; by apply static_alter.
Qed.

(** The request of a load makes a new sender state and sends reads. *)
Lemma new_sender_quiet u u' (sid : nat) (cs : list Call) :
  (retryPkt u', isStoreBlocked u', pendingPkt u', hasPendingPkt u') = (retryPkt u, isStoreBlocked u, pendingPkt u, hasPendingPkt u) →
  storeWBIdx u' = storeWBIdx u → calls u' = calls u ++ cs → accepted cs = [] → sid = next_id u → (next_id u ≤ next_id u')%nat →
  (∀ i, i ≠ sid → senders u' !! i = senders u !! i) → quiet u u'.
Proof.
  intros E1 E2 E3 E4 -> E6 E7. split; [done..| |done|]; [by rewrite E3, accepted_app, E4, app_nil_r|].
  intros i _ Hlt. rewrite E7; [done|lia].
Qed.

Lemma accessMemory_quiet (req : Request) (low high : option Request) (k : Z) p u u' :
  accessMemory cache_accepts req low high k p u = Ok u' → calm u u'.
Proof.
  unfold accessMemory. intros H. inv_res H. revert H. set (u1 := if bool_decide _ then u else _).
  assert (Hq : calm u u1) by (unfold u1; destruct (bool_decide _); (split; [by apply quiet_view|]); [done|by apply static_alter]).
  intros H. enough (quiet u1 u' ∧ u_heap u' = u_heap u1) as [H1 H2].
  { split; [apply (quiet_trans u u1 u'); [apply Hq|done]|]. rewrite H2. apply Hq. }
  clear Hq E. clearbody u1. unfold sendTimingReq in H. destruct low as [lo|].
  - inv_res H. destruct (cache_accepts _ _); cbn [negb] in H.
    + destruct (cache_accepts _ _); injection H as <-; (split; [|done]);
        (eapply (new_sender_quiet _ _ (next_id u1)); [reflexivity|reflexivity|cbn; rewrite <- !app_assoc; reflexivity|reflexivity|reflexivity|cbn; lia|]);
        intros i Hi; cbn; by rewrite ?lookup_alter_ne, lookup_insert_ne by done.
    + injection H as <-. split; [|done].
      eapply (new_sender_quiet _ _ (next_id u1)); [reflexivity|reflexivity|cbn; rewrite <- !app_assoc; reflexivity|reflexivity|reflexivity|cbn; lia|].
      intros i Hi. cbn. by rewrite lookup_delete_ne, lookup_insert_ne by done.
  - destruct (cache_accepts _ _); injection H as <-; (split; [|done]);
      (eapply (new_sender_quiet _ _ (next_id u1)); [reflexivity|reflexivity|cbn; rewrite <- ?app_assoc; reflexivity|reflexivity|reflexivity|cbn; lia|]);
      intros i Hi; cbn; by rewrite ?lookup_delete_ne, lookup_insert_ne by done.
Qed.

Lemma readIpr_quiet (req : Request) (low high : option Request) p u u' :
  readIpr handleIprRead req low high p u = Ok u' → calm u u'.
Proof.
  unfold readIpr. intros H. inv_res H. injection H as <-. split; [|by apply static_alter].
  eapply (quiet_calls _ _ [ScheduleWriteback p _]); try done. cbn. lia.
Qed.
Lemma read_quiet (req : Request) (low high : option Request) (idx : Z) u (f : Fault) u' :
  lsq_read cache_accepts handleIprRead req low high idx u = Ok (f, u') → calm u u'.
Proof.
  unfold lsq_read. intros H. inv_res H.
  destruct (_ && _); [injection H as _ <-; split; [by apply (quiet_calls _ _ [RescheduleMemInst a0])|done]|].
  inv_res H. injection H as _ <-. revert E4. set (u1 := if isLLSC req then _ else u). intros E4.
  assert (Hc : calm u u1) by (unfold u1; destruct (isLLSC req); (split; [by apply quiet_view|]); [by apply static_alter|done]).
  enough (calm u1 a4) as Hc'.
  { split; [apply (quiet_trans u u1 a4); [apply Hc|apply Hc']|]. eapply static_trans; [apply Hc|apply Hc']. }
  destruct (isMmappedIpr req); [by eapply readIpr_quiet|]. inv_res E4. destruct a5 as [[idx' []]|];
    [by eapply forwardData_quiet|by eapply stallLoad_quiet..|by eapply accessMemory_quiet].
Qed.

Lemma flow_calm u u' L L' St (w : nat) (W : list Write) :
  flow_inv u L St w W → lsq_inv u' L' St w → calm u u' → flow_inv u' L' St w W.
Proof. intros Hf Hi [Hq Hs]. by apply (flow_static u u' L L' St w W). Qed.

Lemma read_step u L St (w : nat) (W : list Write) (k : nat) p (d : DynInst) (req : Request) (low high : option Request) :
  flow_inv u L St w W → L !! k = Some p → u_heap u !! p = Some d → isExecuted d = false → addrs64 u St → request_ok d req low high →
  ∃ f u', lsq_read cache_accepts handleIprRead req low high (pos (LQEntries u) (loadHead u) k) u = Ok (f, u') ∧ flow_inv u' L St w W.
Proof.
  intros Hf Hk Hp Hx H64 Hr.
  destruct (lsq_read_ok cache_accepts handleIprRead u L St w (fi_inv _ _ _ _ _ Hf) k p d Hk Hp req low high Hx H64 Hr) as (f & u' & E & Hi' & _).
  exists f, u'. split; [done|]. apply (flow_calm u u' L L St w W Hf Hi'). by eapply read_quiet.
Qed.

(** The search for loads that ran ahead, from the [k]-th load on. *)
Lemma violations_step u L St (w : nat) (W : list Write) (k : nat) p (d : DynInst) :
  flow_inv u L St w W → (k ≤ length L)%nat → u_heap u !! p = Some d →
  ∃ f u', checkViolations depCheckShift (pos (LQEntries u) (loadHead u) k) p u = Ok (f, u') ∧ flow_inv u' L St w W.
Proof.
  intros Hf Hk Hp. pose proof (fi_inv _ _ _ _ _ Hf) as Hi. unfold checkViolations. rewrite (lsq_inst_ok _ _ _ Hp). cbn [mbind res_bind].
  assert (EL : L = take k L ++ drop k L) by (by rewrite take_drop). assert (Ek : pos (LQEntries u) (loadHead u) k = pos (LQEntries u) (loadHead u) (length (take k L))).
  { by rewrite length_take, Nat.min_l. }
  pose proof (ring_room _ _ _ _ _ _ (qo_lq _ _ _ (li_queues _ _ _ _ Hi))) as Hroom. rewrite length_fmap in Hroom.
  assert (Hfuel : (length (drop k L) < Z.to_nat (LQEntries u))%nat) by (rewrite length_drop; lia).
  assert (∃ f u', checkViolations_loop depCheckShift (Z.to_nat (LQEntries u)) (first_unit depCheckShift d) (last_unit depCheckShift d)
    (pos (LQEntries u) (loadHead u) k) p u = Ok (f, u') ∧ lsq_inv u' L St w) as (f & u' & E & Hi').
  { rewrite Ek. destruct (isLoad d) eqn:Hl.
    - destruct (violations_load_loop depCheckShift u L St w (first_unit depCheckShift d) (last_unit depCheckShift d) p d _ _ _ Hi EL Hp Hl Hfuel)
        as (f & u' & E & Hi' & _). by exists f, u'.
    - rewrite (violations_store_loop depCheckShift u L St w _ _ p d _ _ _ Hi EL Hp Hl Hfuel).
      destruct (first_conflict _ _ _ _ _) as [q|] eqn:Eq; [|by exists NoFault, u]. destruct (match recorded u with None => false | Some sn => sn <? lsn (u_heap u) q end); eexists _, _; (split; [reflexivity|]); [done|].
      pose proof Hi as [Hq Hwb Hc Hs Hv Hse]. split; [by destruct Hq|by destruct Hwb|done|done| |by destruct Hse]. intros v [= <-].
      by apply first_conflict_alive in Eq. }
  exists f, u'. split; [done|]. apply (flow_calm u u' L L St w W Hf Hi'). apply violations_hand in E as [E1 E2]. split; [by apply quiet_view|done].
Qed.

(** The data of a store that has not committed. *)
Lemma committed_insert (h : heap) (n k : nat) (e e' : SQEntry) St :
  St !! k = Some e → canWB e = false → canWB e' = false →
  committed_writes h (drop n (<[k := e']> St)) = committed_writes h (drop n St).
Proof.
  intros He Hw Hw'. pose proof (lookup_lt_Some _ _ _ He) as Hlt. destruct (decide (k < n)%nat) as [Hk|Hk].
  { by rewrite drop_insert_lt. }
  rewrite drop_insert_ge by lia. assert (He' : drop n St !! (k - n)%nat = Some e) by (rewrite lookup_drop; by replace (n + (k - n))%nat with k by lia).
  unfold committed_writes. do 2 f_equal. rewrite insert_take_drop by (by apply lookup_lt_Some in He'). rewrite <- (take_drop_middle _ _ _ He') at 3.
  rewrite !filter_app, !filter_cons_False by congruence. done.
Qed.

Lemma prefix_insert St (k : nat) (e e' : SQEntry) : St !! k = Some e → canWB e' = canWB e → prefix_ok St → prefix_ok (<[k := e']> St).
Proof.
  intros He Ew Hp. assert (Hx : ∀ j x, <[k := e']> St !! j = Some x → ∃ y, St !! j = Some y ∧ canWB x = canWB y).
  { intros j x Hj. apply list_lookup_insert_Some in Hj as [(-> & <- & _)|(_ & Hj)]; [by exists e|by exists x]. }
  intros i j x y Hij Hi Hj. destruct (Hx i x Hi) as (x' & Hi' & ->), (Hx j y Hj) as (y' & Hj' & ->). by apply (Hp i j).
Qed.

Lemma isSet_lor (m1 m2 : N) (req : Request) : isSet (N.lor m1 m2) req = isSet m1 req || isSet m2 req.
Proof.
  unfold isSet. rewrite N.land_lor_distr_r, <- negb_andb. f_equal. apply eq_bool_prop_intro.
  rewrite andb_True, !Is_true_true, !N.eqb_eq, N.lor_eq_0_iff. done.
Qed.
Lemma store_no_data_flags (req : Request) : isSet STORE_NO_DATA req = isSet CACHE_BLOCK_ZERO req || isCacheMaintenance req.
Proof. unfold STORE_NO_DATA, isCacheMaintenance. by rewrite !isSet_lor, orb_assoc. Qed.

Definition split_ok (low high : option Request) : Prop :=
  match low, high with
  | None, None => True
  | Some low, Some high => isMmappedIpr low = true → isMmappedIpr high = true
  | _, _ => False
  end.

Lemma write_step u L St (w : nat) (W : list Write) (k : nat) (e : SQEntry) p (d : DynInst)
    (req : Request) (low high : option Request) (data : list Z) :
  flow_inv u L St w W → St !! k = Some e → canWB e = false → sq_isSplit e = false → sq_inst e = Some p → u_heap u !! p = Some d →
  effAddrValid d = true → isStoreConditional d = false → split_ok low high →
  0 ≤ getSize req ≤ Z.of_nat (length data) → getSize req ≤ 16 ∨ isSet STORE_NO_DATA req = true →
  ∃ u' e', lsq_write req low high data (pos (SQEntries u) (storeHead u) k) u = Ok (NoFault, u') ∧ flow_inv u' L (<[k := e']> St) w W.
Proof.
  intros Hf He Hw Hns Hp Hd Hva Hsc Hsplit Hlen Hsz. pose proof (fi_inv _ _ _ _ _ Hf) as Hi. pose proof (li_queues _ _ _ _ Hi) as Hq.
  destruct (queue_entry u L St e Hq (list_elem_of_lookup_2 _ _ _ He)) as [(Hd16 & _ & _) _].
  unfold lsq_write, store_at. rewrite (ring_get _ _ _ _ _ _ _ _ (qo_sq _ _ _ Hq) He). cbn [mbind res_bind].
  unfold assert_inst. rewrite Hp. cbn [mbind res_bind]. replace ((getSize req <=? 16) || isSet STORE_NO_DATA req) with true.
  2: { destruct Hsz as [?| ->]; [by rewrite (proj2 (Z.leb_le _ _))|by rewrite orb_true_r]. }
  cbn [assert mbind res_bind]. set (f := λ e : SQEntry, _). apply lsq_inv_core in Hi as [Hc Hports].
  destruct (core_inv_update u L St w _ k e f Hc He) as (q & -> & Hc'); try done; [by right| | |].
  - split; [|split; [apply Z.mod_pos_bound; lia|]]; unfold f; cbn.
    + destruct (negb _ && negb _) eqn:Ec; [|done]. rewrite <- negb_orb, <- store_no_data_flags in Ec. apply negb_true_iff in Ec.
      rewrite Ec in Hsz. destruct Hsz as [Hsz|?]; [|done]. rewrite length_app, length_take, length_drop. lia.
    + intros Hnd. rewrite Hnd in Hsz. destruct Hsz as [Hsz|?]; [|done]. unfold u8. rewrite Z.mod_small; lia.
  - intros p' d' Hp' Hd' _. simplify_eq. split_and!; [done|done|by eexists|]. unfold f. cbn. rewrite Hns. cbn. intros Hl.
    destruct low as [lo|]; [|done]. destruct high as [hi|]; [|done]. by exists lo, hi.
  - cbn [mbind res_bind]. set (u' := u <| storeQueue := q |>) in *. exists u', (f e). split; [done|].
    apply (flow_quiet u u' L L St _ w W Hf); [|by apply quiet_view|apply (prefix_insert St k e); [done|done|apply Hf]|intros n; by apply (committed_insert _ n k e)].
    apply lsq_inv_core. split; [done|]. destruct Hports as [P1 P2 P3 P4]. split; try done. intros Hs. destruct (P4 Hs) as (e0 & He0 & Hw0 & Hz0).
    exists e0. split; [|done]. rewrite list_lookup_insert_ne; [done|]. intros ->. congruence.
Qed.

(** ** Commit and squash *)
Lemma commit_step u L St (w : nat) (W : list Write) (y : Z) :
  flow_inv u L St w W → stall_not_retired u L y →
  ∃ u' L' St', lsq_commit y u = Ok u' ∧ flow_inv u' L' St' w (W ++ concat (store_writes (u_heap u) <$> commits (u_heap u) y St)).
Proof.
  intros Hf Hns. pose proof Hf as [Hi Hp Hpre HW]. destruct (lsq_commit_ok u L St w y Hi Hns) as (u' & E & Hi' & Eh).
  pose proof (commit_hand y u u' E) as Hv. pose proof (quiet_view u u' Hv) as Hq. exists u', (filter (λ p, y < lsn (u_heap u) p) L), (markWB (u_heap u) y <$> St).
  split; [done|]. split; [done| | |].
  - apply (quiet_stream u u' St St w Hp Hq). intros n. by rewrite Eh.
  - apply prefix_mark; [apply (qo_sorder _ _ _ (li_queues _ _ _ _ Hi))|done].
  - set (n := if sending u then S w else w). assert (Hn : prefix_ok (drop n St)).
    { intros j k e e' Hjk Hj Hk. rewrite lookup_drop in Hj, Hk. apply (Hpre (n + j)%nat (n + k)%nat); [lia|done..]. }
    destruct (quiet_stream u u' St St w Hp Hq) as [_ Es]; [intros m; by rewrite Eh|]. rewrite <- HW, <- Es, <- app_assoc. f_equal.
    assert (En : (if sending u' then S w else w) = n).
    { unfold n, sending. unfold hand_view in Hv. injection Hv as _ E1 _ E2 _ _ _ _. by rewrite E1, E2. }
    unfold to_come. rewrite En, Eh, <- app_assoc, <- fmap_drop, (committed_mark _ _ _ Hn).
    by rewrite (commits_drop u L St w n y Hi ltac:(unfold n; lia)).
Qed.

Lemma squash_step u L St (w : nat) (W : list Write) (sn : Z) :
  flow_inv u L St w W → (∀ e, e ∈ St → canWB e = true → ssn (u_heap u) e ≤ sn) →
  ∃ u' L' St', lsq_squash sn u = Ok u' ∧ flow_inv u' L' St' w W.
Proof.
  intros Hf Hcm. pose proof Hf as [Hi Hp Hpre HW]. destruct (lsq_squash_ok u L St w sn Hi Hcm) as (u' & E & Hi' & Eh & _).
  destruct (lsq_squash_run u L St w sn Hi Hcm) as (u2 & E2 & Hr & _). rewrite E in E2. injection E2 as <-.
  set (h := u_heap u) in *. pose proof (split_seq (ssn h) St sn (qo_sorder _ _ _ (li_queues _ _ _ _ Hi))) as ES.
  set (A := filter (λ e, ssn h e ≤ sn) St) in *. set (B := filter (λ e, sn < ssn h e) St) in *.
  assert (HB : Forall (λ e, ¬ canWB e = true) B).
  { apply Forall_forall. intros e [Hgt He]%list_elem_of_filter Hw. specialize (Hcm e He Hw). lia. }
  eexists u', _, A. split; [done|]. apply (flow_quiet u u' L _ St A w W Hf Hi').
  - destruct Hr as [_ _ [R1 _] [R3 R4] [R5 R6] (R7 & R8 & R9 & _)]. apply quiet_view. unfold hand_view. congruence.
  - intros j k e e' Hjk Hj Hk. apply (Hpre j k); [done|rewrite ES; by apply lookup_app_l_Some..].
  - intros n. rewrite Eh. rewrite (committed_writes_same h _ _ (squashed_heap_keys h L St sn)), ES. unfold committed_writes.
    rewrite drop_app, filter_app, (filter_void _ (drop _ B)), app_nil_r; [done|]. by apply Forall_drop.
Qed.

(** ** Handing over *)
Lemma handed_step u u' L St St' (w w' : nat) (W : list Write) : flow_inv u L St w W → handed u u' L St St' w w' → flow_inv u' L St' w' W.
Proof.
  intros [_ _ Hpre HW] (Hi & Hp & [m Em] & E). split; try done; [|by rewrite E]. intros j k e e' Hjk Hj Hk.
  assert (Hx : ∀ i x, St' !! i = Some x → ∃ y, St !! (m + i)%nat = Some y ∧ canWB y = canWB x).
  { intros i x Hx. assert (Ex : (store_key <$> St') !! i = Some (store_key x)) by (by rewrite list_lookup_fmap, Hx).
    rewrite Em, lookup_drop, list_lookup_fmap in Ex. destruct (St !! (m + i)%nat) as [y|]; [|done]. injection Ex as Ey. exists y.
    split; [done|]. unfold store_key in Ey. congruence. }
  destruct (Hx j e Hj) as (y & Hy & <-), (Hx k e' Hk) as (y' & Hy' & <-). apply (Hpre (m + j)%nat (m + k)%nat); [lia|done..].
Qed.

Lemma writeback_step u L St (w : nat) (W : list Write) :
  flow_inv u L St w W →
  ∃ u' St' w', lsq_writebackStores needsTSO cacheStorePorts cache_accepts u = Ok u' ∧ flow_inv u' L St' w' W.
Proof.
  intros Hf. destruct (writebackStores_ok needsTSO cacheStorePorts cache_accepts u L St w) as (u' & St' & w' & E & Hh & _); [apply Hf..|].
  exists u', St', w'. split; [done|]. by apply (handed_step u u' L St St' w w').
Qed.

Lemma retry_step u L St (w : nat) (W : list Write) :
  flow_inv u L St w W → ∃ u' w', recvRetry needsTSO cache_accepts u = Ok u' ∧ flow_inv u' L St w' W.
Proof.
  intros Hf. destruct (recvRetry_ok needsTSO cache_accepts u L St w) as (u' & w' & E & Hh); [apply Hf..|].
  exists u', w'. split; [done|]. by apply (handed_step u u' L St St w w').
Qed.

(** ** Invalidations and changes elsewhere *)
Lemma env_step u L St (w : nat) (W : list Write) (h' : heap) :
  flow_inv u L St w W → grows (u_heap u) h' →
  (∀ e p, e ∈ St → sq_inst e = Some p → memData <$> h' !! p = memData <$> u_heap u !! p) → flow_inv (u <| u_heap := h' |>) L St w W.
Proof.
  intros Hf Hg Hm. apply (flow_static u _ L L St w W Hf); [by apply lsq_inv_grows; [apply Hf|..]|by apply quiet_view|by apply grows_static].
Qed.

Lemma snoop_list_keys (a : Z) (b : bool) (l : list InstPtr) (h : heap) : same_keys h (snoop_list needsTSO cacheBlockMask a b l h).
Proof.
  revert b h. induction l as [|q l IH]; intros b h; [done|]. cbn [snoop_list]. destruct (h !! q) as [d|] eqn:Hq; [|apply IH].
  etransitivity; [|apply IH]. apply same_keys_alter. intros d' Hd'. rewrite Hq in Hd'. injection Hd' as <-. apply snooped_load_key.
Qed.

Lemma snoop_step u L St (w : nat) (W : list Write) (a : Z) :
  flow_inv u L St w W → ∃ u', checkSnoop needsTSO cacheBlockMask a u = Ok u' ∧ flow_inv u' L St w W.
Proof.
  intros Hf. destruct (checkSnoop_ok needsTSO cacheBlockMask a u L St w (fi_inv _ _ _ _ _ Hf)) as (u' & E & Hi' & Eh). exists u'. split; [done|].
  apply (flow_static u u' L L St w W Hf Hi').
  - apply quiet_view. unfold checkSnoop in E. inv_res E. destruct (_ =? _); [by injection E as <-|by apply snoop_hand in E].
  - rewrite Eh. apply grows_static, same_keys_grows, snoop_list_keys.
Qed.
End steps.

(** ** Responses from memory

    The response to a load writes its result; the response to the last packet of a store
    completes the store. *)
(** ** Changes to one load and one sender state *)
Definition queue_view u :=
  (storeQueue u, loadQueue u, (LQEntries u, SQEntries u, loads u, stores u, storesToWB u),
   (loadHead u, loadTail u, storeHead u, storeWBIdx u, storeTail u),
   (stalled u, stallingStoreIsn u, stallingLoadIdx u), (retryPkt u, isStoreBlocked u),
   memDepViolator u, (hasPendingPkt u, pendingPkt u)).

Record touched p (sid : nat) u u' : Prop := {
  to_heap : ∃ g, (∀ d, lkey (g d) = lkey d ∧ fault (g d) = fault d) ∧ u_heap u' = alter g p (u_heap u);
  to_view : queue_view u' = queue_view u;
  to_calls : ∃ cs, calls u' = calls u ++ cs ∧ accepted cs = [];
  to_next : next_id u' = next_id u;
  to_senders : ∀ i, i ≠ sid → senders u' !! i = senders u !! i;
}.

Lemma touched_refl p (sid : nat) u : touched p sid u u.
Proof.
  split; try done; [|exists []; by rewrite app_nil_r]. exists (λ d, d). split; [done|]. symmetry. by apply alter_id.
Qed.
Lemma touched_trans p (sid : nat) u1 u2 u3 : touched p sid u1 u2 → touched p sid u2 u3 → touched p sid u1 u3.
Proof.
  intros [(g1 & G1 & H1) V1 (c1 & C1 & A1) N1 S1] [(g2 & G2 & H2) V2 (c2 & C2 & A2) N2 S2]. split; try congruence.
  - exists (g2 ∘ g1). split; [|by rewrite H2, H1, alter_alter_eq]. intros d. destruct (G1 d), (G2 (g1 d)). split; cbn; congruence.
  - exists (c1 ++ c2). by rewrite C2, C1, <- app_assoc, accepted_app, A1, A2.
  - intros i Hi. by rewrite S2, S1.
Qed.
Lemma touched_inst p (sid : nat) u (g : DynInst → DynInst) :
  (∀ d, lkey (g d) = lkey d ∧ fault (g d) = fault d) → touched p sid u (on_inst p g u).
Proof. intros Hg. split; try done; [by exists g|exists []; by rewrite app_nil_r]. Qed.
Lemma touched_call p (sid : nat) u (c : Call) : accepted [c] = [] → touched p sid u (do_call c u).
Proof. intros Hc. split; try done; [apply (touched_refl p sid u)|by exists [c]]. Qed.
Lemma touched_state p (sid : nat) u (g : LSQSenderState → LSQSenderState) : touched p sid u (on_state sid g u).
Proof. destruct (touched_refl p sid u). split; try done. intros i Hi. by apply lookup_alter_ne. Qed.
Lemma touched_delete p (sid : nat) u : touched p sid u (delete_state sid u).
Proof. destruct (touched_refl p sid u). split; try done. intros i Hi. by apply lookup_delete_ne. Qed.

Lemma touched_inst_at p (sid : nat) u u' (d : DynInst) :
  touched p sid u u' → u_heap u !! p = Some d → ∃ d', u_heap u' !! p = Some d' ∧ lkey d' = lkey d ∧ fault d' = fault d.
Proof. intros [(g & Hg & Hh) _ _ _ _] Hd. exists (g d). rewrite Hh, lookup_alter_eq, Hd. split; [done|]. apply Hg. Qed.

(** A load that is not a store, and a state that is not of the store at hand. *)
Lemma touched_flow p (sid : nat) u u' L St (w : nat) (W : list Write) :
  flow_inv u L St w W → touched p sid u u' → (∀ e, e ∈ St → sq_inst e ≠ Some p) → ¬ in_hand u sid → flow_inv u' L St w W.
Proof.
  intros Hf [(g & Hg & Hh) V (cs & C & A) N S] Hp Hsid.
  assert (Hgr : grows (u_heap u) (u_heap u')) by (rewrite Hh; apply same_keys_grows, same_keys_alter; intros; apply Hg).
  apply (flow_static u u' L L St w W Hf); [| |by apply grows_static].
  - apply (lsq_inv_view (u <| u_heap := u_heap u' |>)).
    + unfold queue_view in V. unfold lsq_view. cbn. congruence.
    + apply lsq_inv_grows; [apply Hf|done|]. intros e q He Hq. rewrite Hh, lookup_alter_ne; [done|]. intros <-. by apply (Hp e).
  - unfold queue_view in V. split; [congruence..| |lia|].
    + by rewrite C, accepted_app, A, app_nil_r.
    + intros i Hi _. rewrite S; [done|]. by intros ->.
Qed.

Section resp.
Context (needsTSO : bool) (completeAcc : Packet → DynInst → DynInst).
(** Completing the access changes nothing of the instruction the queues depend on. *)
Context (completeAcc_key : ∀ pkt d, lkey (completeAcc pkt d) = lkey d ∧ fault (completeAcc pkt d) = fault d).

Lemma lsq_writeback_ok p (sid : nat) (pkt : Packet) u (d : DynInst) :
  u_heap u !! p = Some d → isStore d = false → fault d = NoFault ∨ fault d = ReExec →
  ∃ u', lsq_writeback completeAcc p pkt u = Ok u' ∧ touched p sid u u'.
Proof.
  intros Hd Hs Hf. unfold lsq_writeback. rewrite (lsq_inst_ok _ _ _ Hd). cbn [mbind res_bind]. rewrite Hs.
  destruct (isSquashed d); cbn [negb assert mbind res_bind]; [by exists u; split; [|apply touched_refl]|].
  assert (Hend : ∀ u1, touched p sid u u1 → touched p sid u (do_call (CheckMisprediction p) (do_call (InstToCommit p) u1))).
  { intros u1 H1. eapply touched_trans; [exact H1|]. eapply touched_trans; by apply touched_call. }
  destruct (isExecuted d); [eexists; split; [reflexivity|apply Hend, touched_refl]|].
  assert (Ht : touched p sid u (on_inst p setExecuted u)) by (by apply touched_inst).
  destruct (decide (fault d = NoFault)) as [_|Hnf].
  - eexists. split; [reflexivity|]. apply Hend. eapply touched_trans; [exact Ht|]. by apply touched_inst.
  - destruct Hf as [?|Hf]; [done|]. rewrite Hf. eexists. split; [reflexivity|]. by apply Hend.
Qed.

(** The response to a load. *)
Record load_state u (st : LSQSenderState) : Prop := {
  ls_load : ss_isLoad st = true ∧ ss_noWB st = false;
  ls_main : ss_isSplit st = true → is_Some (ss_mainPkt st);
  ls_inst : ∃ d, u_heap u !! ss_inst st = Some d ∧ isLoad d = true ∧ isStore d = false ∧ (fault d = NoFault ∨ fault d = ReExec);
}.

Lemma load_response_ok (pkt : Packet) (b : bool) (sid : nat) (st : LSQSenderState) u :
  pk_state pkt = Some sid → senders u !! sid = Some st → load_state u st →
  ∃ u', completeDataAccess needsTSO completeAcc pkt b u = Ok u' ∧ touched (ss_inst st) sid u u'.
Proof.
  intros Hsid Hst [[Hl Hwb] Hm (d & Hd & Hld & Hns & Hf)]. unfold completeDataAccess, state_of. rewrite Hsid. cbn [deref mbind res_bind].
  rewrite Hst. cbn [deref mbind res_bind]. set (p := ss_inst st) in *. set (u1 := if b then _ else u).
  assert (H1 : touched p sid u u1).
  { unfold u1. destruct b; [|apply touched_refl]. by apply touched_inst. }
  destruct (ss_cacheBlocked st); [eexists; split; [reflexivity|]; eapply touched_trans; [exact H1|apply touched_delete]|].
  set (u2 := on_state sid _ u1). assert (H2 : touched p sid u u2) by (eapply touched_trans; [exact H1|apply touched_state]).
  destruct (negb _); [by exists u2|]. destruct (touched_inst_at p sid u u2 d H2 Hd) as (d2 & Hd2 & Hk2 & Hf2). rewrite (lsq_inst_ok _ _ _ Hd2). cbn [mbind res_bind].
  assert (Hs2 : isLoad d2 = true ∧ isStore d2 = false) by (injection Hk2 as _ _ _ E _; unfold isLoad, isStore in *; by rewrite E).
  destruct Hs2 as [Hl2 Hns2]. rewrite Hwb, Hl2, Hns2. cbn [orb assert mbind res_bind].
  assert (Hend : ∀ u3, touched p sid u u3 → touched p sid u (delete_state sid u3)).
  { intros u3 H3. eapply touched_trans; [exact H3|apply touched_delete]. }
  destruct (isSquashed d2); [eexists; split; [reflexivity|by apply Hend]|]. rewrite <- Hf2 in Hf.
  destruct (negb (ss_isSplit st) || negb (ss_isLoad st)) eqn:Es.
  - destruct (lsq_writeback_ok p sid pkt u2 d2 Hd2 Hns2 Hf) as (u3 & -> & H3). cbn [mbind res_bind].
    eexists. split; [reflexivity|]. apply Hend. by apply (touched_trans p sid u u2 u3).
  - apply orb_false_elim in Es as [Es _]. apply negb_false_iff in Es. destruct (Hm Es) as [main ->]. cbn [deref mbind res_bind].
    destruct (lsq_writeback_ok p sid main u2 d2 Hd2 Hns2 Hf) as (u3 & -> & H3). cbn [mbind res_bind].
    eexists. split; [reflexivity|]. apply Hend. by apply (touched_trans p sid u u2 u3).
Qed.

Lemma load_response_step (pkt : Packet) (b : bool) (sid : nat) (st : LSQSenderState) u L St (w : nat) (W : list Write) :
  flow_inv u L St w W → pk_state pkt = Some sid → senders u !! sid = Some st → load_state u st →
  ∃ u', completeDataAccess needsTSO completeAcc pkt b u = Ok u' ∧ flow_inv u' L St w W.
Proof.
  intros Hf Hsid Hst Hls. destruct (load_response_ok pkt b sid st u Hsid Hst Hls) as (u' & E & Ht). exists u'. split; [done|].
  destruct Hls as [[Hl _] _ (d & Hd & Hld & _)]. apply (touched_flow (ss_inst st) sid u u' L St w W Hf Ht).
  - intros e He Hp. pose proof (qo_stores _ _ _ (li_queues _ _ _ _ (fi_inv _ _ _ _ _ Hf))) as Hs. rewrite Forall_forall in Hs.
    destruct (Hs e He) as (p' & d' & Hp' & Hd' & Hl' & _). congruence.
  - intros (r & Hr & Hrs). assert (packet_ok u r) as (_ & sid' & st' & Hs' & Hst' & _ & Hk & _).
    { destruct Hr as [Hr|Hr]; [by apply (pa_retry _ (fi_packets _ _ _ _ _ Hf))|by apply (pa_pending _ (fi_packets _ _ _ _ _ Hf))]. }
    congruence.
Qed.

(** ** Acknowledged stores *)
Lemma complete_sent_ok u L St (w n k : nat) (e : SQEntry) :
  core_inv u L St w n → (w ≤ n)%nat → St !! k = Some e → (k < w)%nat → waiting e = true →
  ∃ u' m, completeStore needsTSO (pos (SQEntries u) (storeHead u) k) u = Ok u' ∧ (m ≤ w)%nat
    ∧ core_inv u' L (drop m (<[k := complete e]> St)) (w - m) (n - m) ∧ completion_frame u u'.
Proof.
  intros [Hb Hwb] Hwn He Hk Hwait. pose proof Hwb as [W1 W2 W3 W4 W5]. pose proof (ring_head _ _ _ _ _ _ (qo_sq _ _ _ (bi_queues _ _ _ _ Hb))) as Hh.
  destruct (completeStore_ok needsTSO u L St n k e Hb) as (u' & E & Hb' & Hf & Hhead); try done; [|lia|].
  { intros j e' Hj Hc. assert (j < w)%nat by (destruct (decide (j < w)%nat); [done|]; rewrite (W5 j e' Hj) in Hc by lia; done).
    split; [lia|by apply (W4 j)]. }
  set (St1 := <[k := complete e]> St) in *. set (m := freed St1 k) in *.
  assert (H1 : ∀ j e', St1 !! j = Some e' → j = k ∧ e' = complete e ∨ j ≠ k ∧ St !! j = Some e').
  { intros j e' Hj. apply list_lookup_insert_Some in Hj as [(-> & <- & _)|(? & Hj)]; [by left|by right]. }
  assert (Hlen : length St1 = length St) by apply length_insert.
  assert (Hm : (m ≤ w)%nat).
  { destruct (decide (m ≤ w)%nat) as [|Hgt]; [done|]. assert (m ≤ length St1)%nat.
    { unfold m, freed. destruct (decide (k = 0%nat)); [apply completed_prefix_le|lia]. }
    destruct (lookup_lt_is_Some_2 St1 w) as [e' He']; [lia|]. pose proof (freed_completed St1 k w e' He' ltac:(lia)) as Hc.
    destruct (H1 _ _ He') as [[? _]|[_ Hs]]; [lia|]. rewrite (W5 w e' Hs) in Hc by lia. done. }
  exists u', m. split; [done|]. split; [done|]. split; [|done]. pose proof Hf as (F1 & F2 & _). split; [done|]. split.
  - rewrite F1, F2, W1, Hhead, pos_add by done. f_equal. lia.
  - rewrite length_drop, Hlen. lia.
  - apply (bi_count _ _ _ _ Hb').
  - intros j e' He' Hj. rewrite lookup_drop in He'. destruct (H1 _ _ He') as [[_ ->]|[_ Hs]]; [exact (W4 k e He Hk)|]. apply (W4 _ e' Hs). lia.
  - intros j e' He' Hj. rewrite lookup_drop in He'. destruct (H1 _ _ He') as [[? _]|[_ Hs]]; [lia|]. apply (W5 _ e' Hs). lia.
Qed.

Lemma store_done_handed u L St (w k : nat) (e : SQEntry) (W : list Write) :
  flow_inv u L St w W → St !! k = Some e → (k < w)%nat → waiting e = true →
  ∃ u' St' w', completeStore needsTSO (pos (SQEntries u) (storeHead u) k) u = Ok u' ∧ flow_inv u' L St' w' W ∧ completion_frame u u'.
Proof.
  intros Hf He Hk Hwait. pose proof Hf as [Hi Hp Hpre HW]. pose proof (proj1 (lsq_inv_core u L St w) Hi) as [Hc [P1 P2 P3 P4]].
  set (n := if sending u then S w else w) in *. assert (Hwn : (w ≤ n)%nat) by (unfold n; destruct (sending u); lia).
  destruct (complete_sent_ok u L St w n k e Hc Hwn He Hk Hwait) as (u' & m & E & Hm & Hc' & Hfr).
  exists u', (drop m (<[k := complete e]> St)), (w - m)%nat. split; [done|]. split; [|done].
  pose proof Hfr as (F1 & F2 & _ & _ & [= G1 G2 G3 G4] & _ & F7 & F8 & _ & Fk & Fa).
  assert (Es : sending u' = sending u) by (unfold sending; by rewrite G2, G3).
  assert (En : (if sending u' then S (w - m) else (w - m)%nat) = (n - m)%nat) by (rewrite Es; unfold n; destruct (sending u); lia).
  apply (handed_step u u' L St _ w _ W Hf). split; [|split; [|split]].
  - apply lsq_inv_core. rewrite En. split; [done|]. split; rewrite ?G1, ?G2, ?G3, ?G4; try done. rewrite Es. intros Hs.
    destruct (P4 Hs) as (e0 & He0 & Hr). exists e0. split; [|done]. rewrite lookup_drop, list_lookup_insert_ne by lia. by replace (m + (w - m))%nat with w by lia.
  - apply (quiet_stream u u' St St w Hp); [|intros j; by apply committed_writes_same]. split; [congruence|done|done|lia|]. by rewrite F7.
  - eapply same_stores_trans; [by apply (same_stores_insert St k e (complete e))|apply same_stores_drop].
  - rewrite Fa. f_equal. unfold to_come. rewrite En, drop_drop. replace (m + (n - m))%nat with n by lia. rewrite drop_insert_lt by lia. fold n.
    rewrite (committed_writes_same _ _ _ Fk). f_equal. unfold rest_of_store. by rewrite G1, G4, F7.
Qed.

(** The response to a packet of a store: the last one finds the store handed over. *)
Record store_state u St (w : nat) (st : LSQSenderState) : Prop := {
  sr_store : ss_isLoad st = false ∧ ss_noWB st = true ∧ ss_cacheBlocked st = false;
  sr_inst : ∃ d, u_heap u !! ss_inst st = Some d ∧ isStore d = true ∧ isSquashed d = false;
  sr_entry : u8 (ss_outstanding st - 1) = 0 →
             ∃ k e, St !! k = Some e ∧ (k < w)%nat ∧ waiting e = true ∧ ss_idx st = pos (SQEntries u) (storeHead u) k;
}.

Lemma flow_state u L St (w : nat) (W : list Write) (sid : nat) (g : LSQSenderState → LSQSenderState) :
  flow_inv u L St w W → (∀ st, sender_key (g st) = sender_key st) → flow_inv (on_state sid g u) L St w W.
Proof.
  intros Hf Hg. apply (flow_static u _ L L St w W Hf); [by apply (lsq_inv_view u); [|apply Hf]| |done].
  split; try done. intros i _ _. cbn. destruct (decide (sid = i)) as [<-|]; [|by rewrite lookup_alter_ne].
  rewrite lookup_alter_eq. destruct (senders u !! sid) as [st|]; [|done]. cbn. by rewrite Hg.
Qed.
Lemma flow_delete u L St (w : nat) (W : list Write) (sid : nat) :
  flow_inv u L St w W → ¬ in_hand u sid → flow_inv (delete_state sid u) L St w W.
Proof.
  intros Hf Hn. apply (flow_static u _ L L St w W Hf); [by apply (lsq_inv_view u); [|apply Hf]| |done].
  split; try done. intros i Hi _. cbn. rewrite lookup_delete_ne; [done|]. by intros <-.
Qed.

(** The state of a store behind [storeWBIdx] is not that of the store at hand. *)
Lemma sent_not_in_hand u L St (w k : nat) (W : list Write) (sid : nat) (st : LSQSenderState) :
  flow_inv u L St w W → senders u !! sid = Some st → (k < w)%nat → ss_idx st = pos (SQEntries u) (storeHead u) k → ¬ in_hand u sid.
Proof.
  intros Hf Hst Hk Hidx (r & Hr & Hrs). assert (packet_ok u r) as (_ & sid' & st' & Hs' & Hst' & _ & Hkey & _).
  { destruct Hr as [Hr|Hr]; [by apply (pa_retry _ (fi_packets _ _ _ _ _ Hf))|by apply (pa_pending _ (fi_packets _ _ _ _ _ Hf))]. }
  rewrite Hrs in Hs'. injection Hs' as <-. rewrite Hst in Hst'. injection Hst' as <-. pose proof (fi_inv _ _ _ _ _ Hf) as [Hq [W1 W2 _ _ _] _ _ _ _]. pose proof (qo_sq _ _ _ Hq) as R.
  pose proof (ring_room _ _ _ _ _ _ R). rewrite Hidx, W1 in Hkey. injection Hkey as E _. apply pos_inj in E; [lia|apply (ring_head _ _ _ _ _ _ R)|lia|lia].
Qed.

Lemma store_response_step (pkt : Packet) (b : bool) (sid : nat) (st : LSQSenderState) u L St (w : nat) (W : list Write) :
  flow_inv u L St w W → pk_state pkt = Some sid → senders u !! sid = Some st → store_state u St w st →
  ∃ u' St' w', completeDataAccess needsTSO completeAcc pkt b u = Ok u' ∧ flow_inv u' L St' w' W.
Proof.
  intros Hf Hsid Hst [(Hl & Hwb & Hcb) (d & Hd & Hs & Hsq) Hent]. unfold completeDataAccess, state_of. rewrite Hsid. cbn [deref mbind res_bind].
  rewrite Hst. cbn [deref mbind res_bind]. set (p := ss_inst st) in *. set (u1 := if b then _ else u).
  assert (H1 : flow_inv u1 L St w W ∧ (∃ d1, u_heap u1 !! p = Some d1 ∧ isStore d1 = true ∧ isSquashed d1 = false)).
  { unfold u1. destruct b; [|by split; [|exists d]]. split.
    - apply (env_step u L St w W (alter setSatisfiedFromMemory p (u_heap u)) Hf); [by apply same_keys_grows, same_keys_alter|].
      intros e q _ _. destruct (decide (p = q)) as [<-|]; [|by rewrite lookup_alter_ne]. rewrite lookup_alter_eq. by destruct (u_heap u !! p).
    - exists (setSatisfiedFromMemory d). rewrite on_inst_heap, lookup_alter_eq, Hd. split_and!; [done..|].
      unfold isSquashed, setSatisfiedFromMemory. by autorewrite with dyn. }
  destruct H1 as (Hf1 & d1 & Hd1 & Hs1 & Hsq1).
  assert (E1 : senders u1 = senders u ∧ SQEntries u1 = SQEntries u ∧ storeHead u1 = storeHead u) by (unfold u1; by destruct b). clearbody u1.
  destruct E1 as (E1 & E2 & E3). rewrite Hcb. set (left := u8 (ss_outstanding st - 1)) in *. set (u2 := on_state sid _ u1).
  assert (Hf2 : flow_inv u2 L St w W) by (by apply flow_state). destruct (negb (left =? 0)) eqn:Eleft; [by exists u2, St, w|].
  apply negb_false_iff, Z.eqb_eq in Eleft. destruct (Hent Eleft) as (k & e & He & Hk & Hwait & Hidx).
  rewrite (lsq_inst_ok u2 p d1 Hd1). cbn [mbind res_bind]. rewrite Hsq1, Hwb, Hs1. cbn [mbind res_bind]. rewrite Hidx, <- E2, <- E3.
  destruct (store_done_handed u2 L St w k e W Hf2 He Hk Hwait) as (u3 & St' & w' & E & Hf3 & Hfr).
  change (SQEntries u2) with (SQEntries u1) in E. change (storeHead u2) with (storeHead u1) in E. rewrite E. cbn [mbind res_bind].
  exists (delete_state sid u3), St', w'. split; [done|]. apply flow_delete; [done|].
  assert (Hn : ¬ in_hand u1 sid) by (apply (sent_not_in_hand u1 L St w k W sid st Hf1); [by rewrite E1|done|congruence]).
  destruct Hfr as (_ & _ & _ & _ & [= G1 G2 G3 G4] & _). intros (r & Hr & Hrs). apply Hn. exists r. by rewrite G1, G4 in Hr.
Qed.
End resp.
