(* ===== verification/LSQProps.v ===== *)
(** * Properties of the load and store queues

    Runs of the unit from its initial state, under the conditions in which the rest of
    the CPU calls it, and what holds in them. *)

From S2P Require Import Prelude Regs DynInst Ring LSQ LSQInv LSQCommit LSQSquash LSQRead LSQViol LSQStore LSQWrite LSQDrain LSQSteps.
From stdpp Require Import sorting list.
Local Open Scope Z_scope.

Implicit Types (u : LSQUnit) (L : list InstPtr) (St : list SQEntry) (p : InstPtr).

(** ** The contents of the queues *)
Definition ring_items {A} (q : list A) (n h c : Z) : list A := omap (λ k, q !! Z.to_nat (pos n h k)) (seq 0 (Z.to_nat c)).
Definition loads_of u : list InstPtr := omap id (ring_items (loadQueue u) (LQEntries u) (loadHead u) (loads u)).
Definition stores_of u : list SQEntry := ring_items (storeQueue u) (SQEntries u) (storeHead u) (stores u).
(** How many of the stores have been handed to the cache. *)
Definition sent_of u : nat := Z.to_nat ((storeWBIdx u - storeHead u) mod SQEntries u).

Lemma ring_items_ok {A} (q : list A) (n h t c : Z) (l : list A) : ring q n h t c l → ring_items q n h c = l.
Proof.
  intros R. unfold ring_items. rewrite (ring_count _ _ _ _ _ _ R), Nat2Z.id. pose proof (ring_at _ _ _ _ _ _ R) as Hat. clear R.
  enough (H : ∀ i l', l' = drop i l → omap (λ k, q !! Z.to_nat (pos n h k)) (seq i (length l')) = l').
  { by apply (H 0%nat). }
  intros i l'. revert i. induction l' as [|x l' IH]; intros i E; [done|]. cbn.
  assert (Hx : l !! i = Some x) by (rewrite <- (Nat.add_0_r i), <- lookup_drop, <- E; done).
  pose proof (drop_S _ _ _ Hx) as Hd. apply Hat, vget_ok in Hx as [_ ->]. f_equal. apply IH. rewrite Hd in E. by injection E.
Qed.

Lemma views_ok u L St (w : nat) : lsq_inv u L St w → loads_of u = L ∧ stores_of u = St ∧ sent_of u = w.
Proof.
  intros [[Rl Rs _ _ _ _ _ _] [W1 W2 _ _ _] _ _ _ _]. split_and!.
  - unfold loads_of. rewrite (ring_items_ok _ _ _ _ _ _ Rl). clear. induction L as [|p L IH]; [done|]. cbn. by f_equal.
  - apply (ring_items_ok _ _ _ _ _ _ Rs).
  - unfold sent_of. rewrite W1. unfold pos. rewrite Zminus_mod_idemp_l. replace (storeHead u + Z.of_nat w - storeHead u) with (Z.of_nat w) by lia.
    pose proof (ring_room _ _ _ _ _ _ Rs). rewrite Z.mod_small by lia. lia.
Qed.

(** ** Runs *)
(** A load or store of the queue is named by its position. *)
Inductive Op :=
| OInsert (p : InstPtr)
| ORead (k : nat) (req : Request) (low high : option Request)
| OWrite (k : nat) (req : Request) (low high : option Request) (data : list Z)
| OCheck (k : nat) (p : InstPtr)
| OCommit (y : Z)
| OSquash (sn : Z)
| OWriteback
| ORetry
| OResponse (pkt : Packet) (fromMemory : bool)
| OSnoop (addr : Z)
| OTakeViolator
| OEnv (h' : heap).

Section runs.
Context (depCheckShift : Z) (needsTSO : bool) (cacheStorePorts cacheBlockMask curCycle : Z).
Context (cache_accepts : list Call → Packet → bool) (handleIprRead : Request → list Z) (completeAcc : Packet → DynInst → DynInst).
Context (h0 : heap) (maxLQEntries maxSQEntries : Z).

Definition do_op (o : Op) u : res LSQUnit :=
  match o with
  | OInsert p => lsq_insert curCycle p u
  | ORead k req low high =>
      '(_, u) ← lsq_read cache_accepts handleIprRead req low high (pos (LQEntries u) (loadHead u) k) u; Ok u
  | OWrite k req low high data => '(_, u) ← lsq_write req low high data (pos (SQEntries u) (storeHead u) k) u; Ok u
  | OCheck k p => '(_, u) ← checkViolations depCheckShift (pos (LQEntries u) (loadHead u) k) p u; Ok u
  | OCommit y => lsq_commit y u
  | OSquash sn => lsq_squash sn u
  | OWriteback => lsq_writebackStores needsTSO cacheStorePorts cache_accepts u
  | ORetry => recvRetry needsTSO cache_accepts u
  | OResponse pkt b => completeDataAccess needsTSO completeAcc pkt b u
  | OSnoop a => checkSnoop needsTSO cacheBlockMask a u
  | OTakeViolator => Ok (getMemDepViolator u).2
  | OEnv h' => Ok (u <| u_heap := h' |>)
  end.

(** When the CPU calls an operation, and what the cache answers. *)
Definition allowed (o : Op) u : Prop :=
  let h := u_heap u in
  match o with
  | OInsert p =>
      ∃ d, h !! p = Some d ∧ isMemRef d = true ∧ youngest u (loads_of u) (stores_of u) (seqNum d)
        ∧ (isLoad d = true ∧ lqFull u = false
           ∨ isLoad d = false ∧ isStore d = true ∧ memData d = None ∧ sqFull u = false)
  | ORead k req low high =>
      addrs64 u (stores_of u)
      ∧ ∃ p d, loads_of u !! k = Some p ∧ h !! p = Some d ∧ isExecuted d = false ∧ request_ok d req low high
  | OWrite k req low high data =>
      (∃ e p d, stores_of u !! k = Some e ∧ canWB e = false ∧ sq_isSplit e = false ∧ sq_inst e = Some p ∧ h !! p = Some d
         ∧ effAddrValid d = true ∧ isStoreConditional d = false)
      ∧ split_ok low high ∧ 0 ≤ getSize req ≤ Z.of_nat (length data) ∧ (getSize req ≤ 16 ∨ isSet STORE_NO_DATA req = true)
  | OCheck k p => (k ≤ length (loads_of u))%nat ∧ is_Some (h !! p)
  | OCommit y => stall_not_retired u (loads_of u) y
  | OSquash sn => ∀ e, e ∈ stores_of u → canWB e = true → ssn h e ≤ sn
  | OWriteback | ORetry | OSnoop _ | OTakeViolator => True
  | OResponse pkt _ =>
      ∃ sid st, pk_state pkt = Some sid ∧ senders u !! sid = Some st
        ∧ (load_state u st ∨ store_state u (stores_of u) (sent_of u) st)
  | OEnv h' => grows h h' ∧ ∀ e p, e ∈ stores_of u → sq_inst e = Some p → memData <$> h' !! p = memData <$> h !! p
  end.

(** The writes of the stores the operation commits. *)
Definition new_writes (o : Op) u : list Write :=
  match o with
  | OCommit y => concat (store_writes (u_heap u) <$> commits (u_heap u) y (stores_of u))
  | _ => []
  end.

(** [W] is what all stores committed so far have to write, in the order they committed. *)
Inductive lsq_run : LSQUnit → list Write → Prop :=
| run_start u : lsq_init h0 maxLQEntries maxSQEntries = Ok u → lsq_run u []
| run_op u W o u' : lsq_run u W → allowed o u → do_op o u = Ok u' → lsq_run u' (W ++ new_writes o u).

Context (HLQ : 0 ≤ maxLQEntries) (HSQ : 0 ≤ maxSQEntries).
Context (completeAcc_key : ∀ pkt d, lkey (completeAcc pkt d) = lkey d ∧ fault (completeAcc pkt d) = fault d).

Lemma ring_empty {A} (x : A) (n : Z) : 0 < n → ring (replicate (Z.to_nat n) x) n 0 0 0 [].
Proof. intros Hn. split; rewrite ?length_replicate; cbn; try done; try lia. Qed.

Lemma init_ok u : lsq_init h0 maxLQEntries maxSQEntries = Ok u → flow_inv u [] [] 0 [].
Proof.
  unfold lsq_init. intros H. inv_res H. apply assert_ok, Z.leb_le in E, E0. injection H as <-. split; [|by split|done|done].
  split; [split| | | | |]; try done; cbn; try (by constructor); try (by apply ring_empty; lia).
  by intros e p ?%elem_of_nil.
Qed.

Lemma not_full {A} (q : list A) (n h t c : Z) (l : list A) :
  ring q n h t c l → n ≤ 256 → (u32 (n - 1) <=? u32 c) = false → Z.of_nat (length l) + 1 < n.
Proof.
  intros R Hn Hf. destruct (ring_small _ _ _ _ _ _ R Hn) as [Ec Hc]. pose proof (ring_count _ _ _ _ _ _ R) as Ecount. rewrite Ec, u32_small in Hf by lia.
  apply Z.leb_gt in Hf. lia.
Qed.

(** An allowed operation returns, and keeps the invariant. *)
Lemma op_ok (o : Op) u L St (w : nat) (W : list Write) :
  flow_inv u L St w W → allowed o u →
  ∃ u', do_op o u = Ok u' ∧ ∃ L' St' w', flow_inv u' L' St' w' (W ++ new_writes o u).
Proof.
  intros Hf Ha. pose proof (fi_inv _ _ _ _ _ Hf) as Hi. destruct (views_ok u L St w Hi) as (EL & ES & Ew).
  pose proof (li_queues _ _ _ _ Hi) as [Rl Rs [HnL HnS] _ _ _ _ _].
  destruct o; cbn [do_op allowed new_writes] in *; rewrite ?app_nil_r; rewrite ?EL, ?ES, ?Ew in Ha.
  - destruct Ha as (d & Hd & Hm & Hy & [(Hl & Hfull)|(Hl & Hst & Hmd & Hfull)]).
    + pose proof (not_full _ _ _ _ _ _ Rl HnL Hfull) as Hroom. rewrite length_fmap in Hroom.
      destruct (insert_load_step curCycle u L St w W p d Hf Hd Hm Hl Hy Hroom) as (u' & E & Hf'). by eauto 6.
    + pose proof (not_full _ _ _ _ _ _ Rs HnS Hfull) as Hroom.
      destruct (insert_store_step curCycle u L St w W p d Hf Hd Hm Hl Hst Hmd Hy Hroom) as (u' & E & Hf'). by eauto 6.
  - destruct Ha as (H64 & p & d & Hk & Hd & Hx & Hr).
    destruct (read_step cache_accepts handleIprRead u L St w W k p d req low high Hf Hk Hd Hx H64 Hr) as (f & u' & -> & Hf').
    cbn [mbind res_bind]. by eauto 6.
  - destruct Ha as ((e & p & d & Hk & Hw & Hns & Hp & Hd & Hva & Hsc) & Hsplit & Hlen & Hsz).
    destruct (write_step u L St w W k e p d req low high data Hf Hk Hw Hns Hp Hd Hva Hsc Hsplit Hlen Hsz) as (u' & e' & -> & Hf').
    cbn [mbind res_bind]. by eauto 6.
  - destruct Ha as [Hk [d Hd]]. destruct (violations_step depCheckShift u L St w W k p d Hf Hk Hd) as (f & u' & -> & Hf').
    cbn [mbind res_bind]. by eauto 6.
  - rewrite ES. destruct (commit_step u L St w W y Hf Ha) as (u' & L' & St' & E & Hf'). by eauto 6.
  - destruct (squash_step u L St w W sn Hf Ha) as (u' & L' & St' & E & Hf'). by eauto 6.
  - destruct (writeback_step needsTSO cacheStorePorts cache_accepts u L St w W Hf) as (u' & St' & w' & E & Hf'). by eauto 6.
  - destruct (retry_step needsTSO cache_accepts u L St w W Hf) as (u' & w' & E & Hf'). by eauto 6.
  - destruct Ha as (sid & st & Hsid & Hst & [Hls|Hss]).
    + destruct (load_response_step needsTSO completeAcc completeAcc_key pkt fromMemory sid st u L St w W Hf Hsid Hst Hls) as (u' & E & Hf'). by eauto 6.
    + destruct (store_response_step needsTSO completeAcc pkt fromMemory sid st u L St w W Hf Hsid Hst Hss) as (u' & St' & w' & E & Hf'). by eauto 6.
  - destruct (snoop_step needsTSO cacheBlockMask u L St w W addr Hf) as (u' & E & Hf'). by eauto 6.
  - eexists. split; [reflexivity|]. exists L, St, w. apply (flow_static u _ L L St w W Hf); [|by apply quiet_view|done].
    destruct Hi as [Hq Hwb Hc Hs Hv Hse]. split; [by destruct Hq|by destruct Hwb|done|done|done|by destruct Hse].
  - destruct Ha as [Hg Hm]. eexists. split; [reflexivity|]. exists L, St, w. by apply env_step.
Qed.

Lemma run_inv u (W : list Write) : lsq_run u W → ∃ L St w, flow_inv u L St w W.
Proof.
  induction 1 as [u Hu|u W o u' _ (L & St & w & Hf) Ha E]; [exists [], [], 0%nat; by apply init_ok|].
  destruct (op_ok o u L St w W Hf Ha) as (u2 & E2 & L' & St' & w' & Hf'). rewrite E in E2. injection E2 as <-. by eauto.
Qed.

(** The invariant of [LSQInv.v] holds throughout. *)
Lemma run_lsq_inv u (W : list Write) : lsq_run u W → lsq_inv u (loads_of u) (stores_of u) (sent_of u).
Proof. intros (L & St & w & [Hi _ _ _])%run_inv. by destruct (views_ok _ _ _ _ Hi) as (-> & -> & ->). Qed.


(** C15: The cache receives the writes of the committed stores, each exactly once and in
    commit order: what it has accepted, followed by what is still to come, is always the
    list of all writes committed so far.  Split stores, retries after a refusal and
    packets held back for want of a port lose, repeat or reorder nothing. *)
Theorem stores_written_in_order u (W : list Write) :
  lsq_run u W → accepted (calls u) ++ to_come u (stores_of u) (sent_of u) = W.
Proof.
  intros (L & St & w & [Hi _ _ HW])%run_inv. by destruct (views_ok _ _ _ _ Hi) as (_ & -> & ->).
Qed.
End runs.

(** ** Loads *)
(** C17: What a load of memory does when it executes is fixed by the bytes of the stores
    older than it that have executed and have not been handed to the cache.  The youngest
    of these that has any byte the load wants decides: if it has all of them (and the
    load is not load-locked) the load gets exactly these bytes, each the latest value of
    its address; if it has only some of them the load waits.  If no such store has any
    of the bytes the request goes to memory.  A strictly ordered load that is not at the
    head of the queue and at commit is put off.  Stores already handed to the cache are
    not looked at, nor strictly ordered ones and cache maintenance.  No address range
    wraps around the top of memory. *)
Theorem load_sees_latest_store (cache_accepts : list Call → Packet → bool) (handleIprRead : Request → list Z)
    u L St (w k : nat) p (d : DynInst) (req : Request) (low high : option Request) :
  lsq_inv u L St w → L !! k = Some p → u_heap u !! p = Some d → isExecuted d = false →
  addrs_ok u St → addrs64 u St → request_ok d req low high → isMmappedIpr req = false →
  let before := older_stores (u_heap u) St w (seqNum d) in
  let n := Z.to_nat (getSize req) in
  ∃ f u', lsq_read cache_accepts handleIprRead req low high (pos (LQEntries u) (loadHead u) k) u = Ok (f, u')
    ∧ if too_early k d req then f = M5PanicFault ∧ calls u' = calls u ++ [RescheduleMemInst p]
      else f = NoFault
        ∧ match load_source (u_heap u) (isLLSC req) before (getVaddr req) n with
          | FromStore bytes =>
              (∃ pkt, calls u' = calls u ++ [ScheduleWriteback p pkt] ∧ pk_req pkt = req ∧ pk_data pkt = bytes)
              ∧ length bytes = n ∧ ∀ i, (i < n)%nat → bytes !! i = latest_byte (u_heap u) before (getVaddr req + Z.of_nat i)
          | Waits => calls u' = calls u ++ [RescheduleMemInst p] ∧ stalled u' = true
          | FromMemory =>
              (∃ pkt ok cs, calls u' = calls u ++ SendTimingReq pkt ok :: cs ∧ pk_req pkt = default req low)
              ∧ ∀ i, (i < n)%nat → latest_byte (u_heap u) before (getVaddr req + Z.of_nat i) = None
          end.
Proof.
  intros Hi Hk Hp Hx Ha H64 Hr Hipr before n.
  destruct (lsq_read_ok cache_accepts handleIprRead u L St w Hi k p d Hk Hp req low high Hx H64 Hr) as (f & u' & E & _ & Hout).
  exists f, u'. split; [done|]. destruct (too_early k d req); [done|]. destruct Hout as [-> Hout]. specialize (Hout Hipr Ha).
  split; [done|]. pose proof (load_source_latest (u_heap u) (isLLSC req) before (getVaddr req) n) as Hl. unfold before, n in *.
  unfold outcome in Hout. destruct (load_source _ _ _ _ _); [by split|exact Hout|by split].
Qed.

(** ** Stores that execute *)
Lemma drop_older (h : heap) L (s : Z) p :
  StronglySorted Z.lt (lseqs h L) → p ∈ drop (older s (lseqs h L)) L ↔ p ∈ L ∧ s ≤ lsn h p.
Proof.
  intros Hs. assert (Hk : ∀ k q, L !! k = Some q → lsn h q < s ↔ (k < older s (lseqs h L))%nat).
  { intros k q Hq. apply older_lookup; [done|]. unfold lseqs. by rewrite list_lookup_fmap, Hq. }
  split.
  - intros [i Hi]%list_elem_of_lookup. rewrite lookup_drop in Hi. split; [by eapply list_elem_of_lookup_2|]. specialize (Hk _ _ Hi). lia.
  - intros [[k Hq]%list_elem_of_lookup Hle]. specialize (Hk _ _ Hq). apply (list_elem_of_lookup_2 _ (k - older s (lseqs h L))).
    rewrite lookup_drop. by replace (_ + _)%nat with k by lia.
Qed.

Section violations.
Context (depCheckShift : Z) (initiateAcc : InstPtr → LSQUnit → res (Fault * LSQUnit)).

(** The search of [executeStore] runs over the loads behind the store. *)
Lemma executeStore_search u u1 L St (w k : nat) p (d d1 : DynInst) (e : SQEntry) :
  stores u ≠ 0 → u_heap u !! p = Some d → isSquashed d = false → initiateAcc p u = Ok (NoFault, u1) →
  lsq_inv u1 L St w → u_heap u1 !! p = Some d1 → lqIdx d1 = lqIdx d → sqIdx d = pos (SQEntries u1) (storeHead u1) k →
  isTranslationDelayed d1 = false → readPredicate d1 = true → St !! k = Some e → sq_inst e = Some p → canWB e = false → sq_size e ≠ 0 →
  executeStore depCheckShift initiateAcc p u
  = match first_conflict depCheckShift (u_heap u1) (first_unit depCheckShift d1) (last_unit depCheckShift d1)
            (drop (older (seqNum d1) (lseqs (u_heap u1) L)) L) with
    | None => Ok (NoFault, u1)
    | Some q =>
        if match recorded u1 with None => false | Some sn => sn <? lsn (u_heap u1) q end then Ok (NoFault, u1)
        else Ok (M5PanicFault, u1 <| memDepViolator := Some q |>)
    end.
Proof.
  intros Hs Hd Hsq Hacc Hi Hd1 Elq Esq Htd Hrp He Hp Hw Hz. pose proof (li_queues _ _ _ _ Hi) as Hq.
  destruct (proj1 (Forall_forall _ _) (qo_stores _ _ _ Hq) e (list_elem_of_lookup_2 _ _ _ He)) as (p' & d' & Hp' & Hd' & Hl & Hlq & Hex).
  rewrite Hp in Hp'. injection Hp' as <-. rewrite Hd1 in Hd'. injection Hd' as <-. destruct (Hex Hz) as (_ & Hsc & _). specialize (Hlq Hw).
  set (j := older (seqNum d1) (lseqs (u_heap u1) L)) in *.
  assert (Hj : (j ≤ length L)%nat) by (unfold j; rewrite <- (length_fmap (lsn (u_heap u1)) L); apply older_le).
  unfold executeStore. rewrite (proj2 (Z.eqb_neq _ _) Hs). cbn [negb assert mbind res_bind]. rewrite (lsq_inst_ok _ _ _ Hd). cbn [mbind res_bind].
  rewrite Hsq. cbn [negb assert mbind res_bind]. rewrite Hacc. cbn [mbind res_bind]. rewrite (lsq_inst_ok _ _ _ Hd1). cbn [mbind res_bind].
  rewrite Htd, Hrp. cbn [andb negb]. unfold store_at. rewrite Esq, (ring_get _ _ _ _ _ _ _ _ (qo_sq _ _ _ Hq) He). cbn [mbind res_bind].
  rewrite (proj2 (Z.eqb_neq _ _) Hz), Hsc, bool_decide_true by done. cbn [assert mbind res_bind]. unfold checkViolations.
  rewrite (lsq_inst_ok _ _ _ Hd1). cbn [mbind res_bind]. rewrite <- Elq, Hlq.
  replace (pos (LQEntries u1) (loadHead u1) j) with (pos (LQEntries u1) (loadHead u1) (length (take j L))) by (by rewrite length_take, Nat.min_l).
  pose proof (ring_room _ _ _ _ _ _ (qo_lq _ _ _ Hq)) as Hroom. rewrite length_fmap in Hroom.
  apply (violations_store_loop depCheckShift u1 L St w _ _ p d1); [done|by rewrite take_drop|done|done|rewrite length_drop; lia].
Qed.

(** C18: A store that executes finds every younger load that has already read a byte it
    writes: after [executeStore] a violator is recorded that is at most as young as any
    such load.  The fault is raised exactly when a load is newly recorded, and that load
    is behind the store and conflicts with it. *)
Theorem store_finds_violations u u1 L St (w k : nat) p (d d1 : DynInst) (e : SQEntry) :
  0 ≤ depCheckShift → stores u ≠ 0 → u_heap u !! p = Some d → isSquashed d = false → initiateAcc p u = Ok (NoFault, u1) →
  lsq_inv u1 L St w → u_heap u1 !! p = Some d1 → lqIdx d1 = lqIdx d → sqIdx d = pos (SQEntries u1) (storeHead u1) k →
  isTranslationDelayed d1 = false → readPredicate d1 = true → St !! k = Some e → sq_inst e = Some p → canWB e = false → sq_size e ≠ 0 →
  ∃ f u', executeStore depCheckShift initiateAcc p u = Ok (f, u')
    ∧ (∀ q ld a, q ∈ L → u_heap u1 !! q = Some ld → seqNum d1 < seqNum ld → effAddrValid ld = true → strictlyOrdered ld = false →
         in_range (effAddr d1) (effSize d1) → in_range (effAddr ld) (effSize ld) →
         effAddr d1 ≤ a < effAddr d1 + effSize d1 → effAddr ld ≤ a < effAddr ld + effSize ld →
         ∃ v, memDepViolator u' = Some v ∧ lsn (u_heap u1) v ≤ seqNum ld)
    ∧ (f = NoFault ∧ u' = u1
       ∨ ∃ v, f = M5PanicFault ∧ u' = u1 <| memDepViolator := Some v |> ∧ v ∈ L ∧ seqNum d1 ≤ lsn (u_heap u1) v
              ∧ conflicting depCheckShift (u_heap u1) (first_unit depCheckShift d1) (last_unit depCheckShift d1) v = true).
Proof.
  intros Hsh Hs Hd Hsq Hacc Hi Hd1 Elq Esq Htd Hrp He Hp Hw Hz.
  rewrite (executeStore_search u u1 L St w k p d d1 e Hs Hd Hsq Hacc Hi Hd1 Elq Esq Htd Hrp He Hp Hw Hz).
  pose proof (qo_lorder _ _ _ (li_queues _ _ _ _ Hi)) as Ho. set (h := u_heap u1) in *.
  set (a1 := first_unit depCheckShift d1). set (a2 := last_unit depCheckShift d1). set (B := drop (older (seqNum d1) (lseqs h L)) L).
  assert (HB : ∀ q, q ∈ B ↔ q ∈ L ∧ seqNum d1 ≤ lsn h q) by (intros q; by apply drop_older).
  assert (HsB : StronglySorted Z.lt (lseqs h B)).
  { rewrite <- (take_drop (older (seqNum d1) (lseqs h L)) L), lseqs_app in Ho. by apply StronglySorted_app in Ho as (_ & _ & Ho). }
  assert (Hconf : ∀ q ld a, q ∈ L → h !! q = Some ld → seqNum d1 < seqNum ld → effAddrValid ld = true → strictlyOrdered ld = false →
         in_range (effAddr d1) (effSize d1) → in_range (effAddr ld) (effSize ld) →
         effAddr d1 ≤ a < effAddr d1 + effSize d1 → effAddr ld ≤ a < effAddr ld + effSize ld →
         q ∈ B ∧ conflicting depCheckShift h a1 a2 q = true ∧ lsn h q = seqNum ld).
  { intros q ld a Hq Hld Hlt Hv Hso R1 R2 Ha Hb. assert (El : lsn h q = seqNum ld) by (unfold lsn; by rewrite Hld).
    split; [apply HB; split; [done|lia]|]. split; [|done]. unfold conflicting. rewrite Hld. by apply (share_byte_conflicts _ d1 ld a). }
  pose proof (first_conflict_spec depCheckShift h a1 a2 B HsB) as Hspec. destruct (first_conflict _ h a1 a2 B) as [v|].
  - destruct Hspec as (Hv & Hc & Hmin). destruct (recorded u1) as [sn|] eqn:Er; [destruct (Z.ltb_spec sn (lsn h v)) as [Hlt|Hge]|].
    + eexists _, _. split; [reflexivity|]. split; [|by left]. intros q ld a Hq Hld H1 H2 H3 H4 H5 H6 H7.
      destruct (Hconf q ld a Hq Hld H1 H2 H3 H4 H5 H6 H7) as (HqB & Hcq & El). specialize (Hmin q HqB Hcq).
      unfold recorded in Er. destruct (memDepViolator u1) as [v'|]; [|done]. injection Er as Er. exists v'. split; [done|]. fold h in Er. lia.
    + eexists _, _. split; [reflexivity|]. split; [|right; exists v; destruct (proj1 (HB v) Hv); by split_and!]. intros q ld a Hq Hld H1 H2 H3 H4 H5 H6 H7.
      destruct (Hconf q ld a Hq Hld H1 H2 H3 H4 H5 H6 H7) as (HqB & Hcq & <-). exists v. split; [done|by apply Hmin].
    + eexists _, _. split; [reflexivity|]. split; [|right; exists v; destruct (proj1 (HB v) Hv); by split_and!]. intros q ld a Hq Hld H1 H2 H3 H4 H5 H6 H7.
      destruct (Hconf q ld a Hq Hld H1 H2 H3 H4 H5 H6 H7) as (HqB & Hcq & <-). exists v. split; [done|by apply Hmin].
  - eexists _, _. split; [reflexivity|]. split; [|by left]. intros q ld a Hq Hld H1 H2 H3 H4 H5 H6 H7.
    destruct (Hconf q ld a Hq Hld H1 H2 H3 H4 H5 H6 H7) as (HqB & Hcq & _). rewrite (Hspec q HqB) in Hcq. done.
Qed.
End violations.

(** ** Squashes and invalidations *)
Lemma squashed_ptr (h : heap) St (sn : Z) p :
  p ∈ ptrs (filter (λ e, sn < ssn h e) St) ↔ ∃ e, e ∈ St ∧ sq_inst e = Some p ∧ sn < lsn h p.
Proof.
  unfold ptrs. rewrite list_elem_of_omap. split.
  - intros (e & [Hlt He]%list_elem_of_filter & Hp). exists e. unfold ssn in Hlt. rewrite Hp in Hlt. done.
  - intros (e & He & Hp & Hlt). exists e. split; [|done]. apply list_elem_of_filter. unfold ssn. by rewrite Hp.
Qed.

(** C19: A squash removes exactly the loads and stores younger than the squashing
    instruction, in whatever state they are, marks exactly these as squashed, keeps the
    older ones in order, and forgets a recorded violation only if its load is removed. *)
Theorem lsq_squash_exact u L St (w : nat) (sn : Z) :
  lsq_inv u L St w → (∀ e, e ∈ St → canWB e = true → ssn (u_heap u) e ≤ sn) →
  ∃ u', lsq_squash sn u = Ok u'
    ∧ loads_of u' = filter (λ p, lsn (u_heap u) p ≤ sn) L ∧ stores_of u' = filter (λ e, ssn (u_heap u) e ≤ sn) St
    ∧ (∀ p d, u_heap u !! p = Some d → ∃ d', u_heap u' !! p = Some d'
         ∧ (isSquashed d' = true ↔ isSquashed d = true ∨ sn < seqNum d ∧ (p ∈ L ∨ ∃ e, e ∈ St ∧ sq_inst e = Some p)))
    ∧ (∀ v, memDepViolator u' = Some v ↔ memDepViolator u = Some v ∧ lsn (u_heap u) v ≤ sn).
Proof.
  intros Hi Hcm. destruct (lsq_squash_ok u L St w sn Hi Hcm) as (u' & E & Hi' & Hh & Hv). exists u'. split; [done|].
  destruct (views_ok _ _ _ _ Hi') as (-> & -> & _). split; [done|]. split; [done|]. split.
  - intros p d Hd. rewrite Hh. unfold squashed_heap. rewrite !squash_all_lookup, Hd. cbn. eexists. split; [reflexivity|].
    assert (El : lsn (u_heap u) p = seqNum d) by (unfold lsn; by rewrite Hd).
    assert (Esq : ∀ x : DynInst, isSquashed (setSquashed x) = true) by (intros x; unfold isSquashed, setSquashed; by autorewrite with dyn).
    destruct (decide (p ∈ ptrs _)) as [Hin|Hout].
    { rewrite Esq. apply squashed_ptr in Hin as (e & He & Hp & Hlt). rewrite El in Hlt. split; [|done]. intros _. right. split; [done|]. right. by exists e. }
    rewrite squashed_ptr in Hout. destruct (decide (p ∈ filter _ L)) as [Hin|Hout'].
    { cbn. rewrite Esq. apply list_elem_of_filter in Hin as [Hlt Hp]. rewrite El in Hlt. split; [|done]. intros _. right. auto. }
    cbn. split; [by left|]. intros [?|(Hlt & [Hp|(e & He & Hp)])]; [done|exfalso..].
    + apply Hout', list_elem_of_filter. rewrite El. done.
    + apply Hout. exists e. rewrite El. done.
  - intros v. rewrite Hv. unfold kept_violator. destruct (memDepViolator u) as [v'|]; cbn; [|naive_solver].
    destruct (Z.ltb_spec sn (lsn (u_heap u) v')); naive_solver lia.
Qed.

Lemma loads_nodup (h : heap) L : StronglySorted Z.lt (lseqs h L) → NoDup L.
Proof.
  intros Hs. apply NoDup_alt. intros i j p Hi Hj.
  assert (Hx : ∀ k, L !! k = Some p → lseqs h L !! k = Some (lsn h p)) by (intros k Hk; unfold lseqs; by rewrite list_lookup_fmap, Hk).
  destruct (Nat.lt_trichotomy i j) as [Hlt|[->|Hlt]]; [|done|].
  - pose proof (sorted_lookup_lt _ _ _ _ _ Hs (Hx i Hi) (Hx j Hj) Hlt). lia.
  - pose proof (sorted_lookup_lt _ _ _ _ _ Hs (Hx j Hj) (Hx i Hi) Hlt). lia.
Qed.

(** C20: Under total store order an invalidation of a cache line re-executes, of the loads
    behind the head, exactly those that have an address and stand at or behind the first
    one that hit the line; every other load is untouched. *)
Theorem snoop_keeps_tso (cacheBlockMask addr : Z) u L St (w : nat) :
  lsq_inv u L St w →
  ∃ u', checkSnoop true cacheBlockMask addr u = Ok u'
    ∧ ∀ i p d, L !! S i = Some p → u_heap u !! p = Some d →
        u_heap u' !! p = Some (if snooped d && existsb (hit cacheBlockMask (Z.land addr cacheBlockMask) (u_heap u)) (take (S i) (tail L))
                               then d <| fault := ReExec |> else d).
Proof.
  intros Hi. destruct (checkSnoop_ok true cacheBlockMask addr u L St w Hi) as (u' & E & _ & Hh). exists u'. split; [done|].
  intros i p d Hp Hd. rewrite Hh. pose proof (li_queues _ _ _ _ Hi) as [_ _ _ Hl _ Ho _ _]. destruct L as [|q L]; [done|]. cbn [tail] in *.
  apply (loads_nodup (u_heap u)), NoDup_cons in Ho as [_ Hnd].
  apply (snoop_list_tso true cacheBlockMask _ false L (u_heap u) i p d); try done. intros x Hx. rewrite Forall_forall in Hl.
  destruct (Hl x) as (dx & Hdx & _); [by right|]. by exists dx.
Qed.

(** ** The oldest load a branch waits for *)
Definition ages (curCycle : Z) (h : heap) L : list Z :=
  omap (λ p, d ← h !! p; if isBranchPrequisite d then Some (ageInLSQ curCycle d) else None) L.

Lemma eldest_loop_ok (curCycle m : Z) u L St (w : nat) (A B : list InstPtr) (fuel : nat) :
  lsq_inv u L St w → L = A ++ B → (length B < fuel)%nat →
  eldest_loop curCycle fuel (pos (LQEntries u) (loadHead u) (length A)) m u = Ok (foldl Z.max m (ages curCycle (u_heap u) B)).
Proof.
  intros Hi. pose proof Hi as [[R _ _ Hld _ _ _ _] _ _ _ _ _]. pose proof (ring_head _ _ _ _ _ _ R) as Hh. revert m A fuel.
  induction B as [|q B IH]; intros m A fuel EL Hf; (destruct fuel as [|fuel]; [lia|]); cbn [eldest_loop];
    rewrite (ring_pos_eqb _ _ _ _ _ _ _ R) by (rewrite length_fmap, EL, length_app; lia).
  - by rewrite bool_decide_true by (rewrite length_fmap, EL, app_nil_r; done).
  - rewrite bool_decide_false by (rewrite length_fmap, EL, length_app; cbn; lia).
    assert (Hq : L !! length A = Some q) by (rewrite EL, lookup_app_r, Nat.sub_diag; [done|lia]).
    rewrite (ring_get _ _ _ _ _ _ (length A) (Some q) R) by (by rewrite list_lookup_fmap, Hq). cbn [mbind res_bind].
    pose proof (loads_alive _ _ _ _ _ Hld) as Hal. rewrite Forall_forall in Hal. destruct (Hal q (list_elem_of_lookup_2 _ _ _ Hq)) as [d Hd].
    rewrite (lsq_inst_ok _ _ _ Hd). cbn [mbind res_bind]. unfold incrLdIdx. rewrite pos_S by done.
    replace (S (length A)) with (length (A ++ [q])) by (rewrite length_app; cbn; lia). rewrite IH; [|by rewrite <- app_assoc|cbn in Hf; lia].
    unfold ages. cbn [omap list_omap]. rewrite Hd. cbn [mbind option_bind]. destruct (isBranchPrequisite d); cbn [andb foldl]; [|done].
    do 2 f_equal. destruct (Z.ltb_spec m (ageInLSQ curCycle d)); lia.
Qed.

(** [getEldestBranchPrequisiteAge] is the largest age among the loads in the queue
    that a branch waits for, and 0 if there is none. *)
Theorem eldest_prerequisite_is_max (curCycle : Z) u L St (w : nat) :
  lsq_inv u L St w → getEldestBranchPrequisiteAge curCycle u = Ok (foldl Z.max 0 (ages curCycle (u_heap u) L)).
Proof.
  intros Hi. pose proof Hi as [[R _ _ _ _ _ _ _] _ _ _ _ _]. pose proof (ring_room _ _ _ _ _ _ R) as Hroom. rewrite length_fmap in Hroom.
  unfold getEldestBranchPrequisiteAge. rewrite <- (pos_0 (LQEntries u) (loadHead u)) by apply (ring_head _ _ _ _ _ _ R).
  apply (eldest_loop_ok curCycle 0 u L St w [] L); [done|done|lia].
Qed.

(** ** The top of the address space *)
(** The end of an access that reaches the end of the address space wraps to 0, and the
    comparison of [read] goes wrong: a load of the first four bytes of such a store is
    taken to have none of its bytes in the store, although the store has all of them. *)
Theorem coverage_wraps_at_top (req : Request) :
  getVaddr req = 2 ^ 64 - 8 → getSize req = 4 → coverage req (2 ^ 64 - 8) 8 = LSQ.Disjoint.
Proof. intros E1 E2. unfold coverage. rewrite E1, E2. by destruct (isLLSC req). Qed.
