(* ===== verification/LSQRun.v ===== *)
(** * A run of the load and store queues

    A store, a load that reads part of it, a store split over two cache lines and a load
    that ran ahead of it, on a cache that refuses the first packet and with one store
    port.  The states of the run are used to instantiate the properties of
    [LSQProps.v]. *)

From S2P Require Import Prelude Regs DynInst Ring LSQ LSQInv LSQCommit LSQSquash LSQRead LSQViol LSQStore LSQWrite LSQDrain LSQSteps LSQProps.
From stdpp Require Import sorting list.
Local Open Scope Z_scope.

Definition mem_inst (f : StaticInstFlags) (seq a n : Z) : DynInst :=
  fl_assign EffAddrValid true
    (initVars (MkStaticInst (flags_of [f; IsMemRef]) 2 [] [] 0%N) seq (pc_set 0) (pc_set 4) <| effAddr := a |> <| effSize := n |>
       <| physEffAddrLow := a |> <| physEffAddrHigh := a + n - 1 |>).
Definition lsq_heap : heap :=
  <[0%nat := mem_inst IsStore 10 4096 8]> (<[1%nat := mem_inst IsLoad 11 4100 4]>
    (<[2%nat := mem_inst IsStore 12 4156 8]> (<[3%nat := mem_inst IsLoad 13 4160 4]> ∅))).
Definition request (a n : Z) : Request := MkRequest a a n 0%N.
(** The first packet is refused. *)
Definition is_send (c : Call) : bool := match c with SendTimingReq _ _ => true | _ => false end.
Definition refuse_first (cs : list Call) (_ : Packet) : bool := existsb is_send cs.
Definition no_ipr (_ : Request) : list Z := [].
Definition keep_acc (_ : Packet) (d : DynInst) : DynInst := d.
Definition line_mask : Z := 2 ^ 64 - 64.

Notation lrun := (lsq_run 4 true 1 line_mask 100 refuse_first no_ipr keep_acc lsq_heap 8 8).
Notation ldo := (do_op 4 true 1 line_mask 100 refuse_first no_ipr keep_acc).
Definition blank : LSQUnit :=
  MkLSQUnit ∅ ∅ 0 [] [] [] 1 1 0 0 0 0 0 0 0 0 0 false 0 0 None false false None false None.
Definition after (m : res LSQUnit) : LSQUnit := match m with Ok u => u | Err _ => blank end.

(** The four instructions enter the queues. *)
Definition q0 : LSQUnit := Eval vm_compute in after (lsq_init lsq_heap 8 8).
Definition q1 : LSQUnit := Eval vm_compute in after (ldo (OInsert 0) q0).
Definition q2 : LSQUnit := Eval vm_compute in after (ldo (OInsert 1) q1).
Definition q3 : LSQUnit := Eval vm_compute in after (ldo (OInsert 2) q2).
Definition q4 : LSQUnit := Eval vm_compute in after (ldo (OInsert 3) q3).
(** The first store executes, and the split one. *)
Definition data8 : list Z := [1; 2; 3; 4; 5; 6; 7; 8].
Definition op5 : Op := OWrite 0 (request 4096 8) None None data8.
Definition q5 : LSQUnit := Eval vm_compute in after (ldo op5 q4).
Definition op6 : Op := OWrite 1 (request 4156 8) (Some (request 4156 4)) (Some (request 4160 4)) data8.
Definition q6 : LSQUnit := Eval vm_compute in after (ldo op6 q5).
(** Both stores commit and are written back. *)
Definition q7 : LSQUnit := Eval vm_compute in after (ldo (OCommit 12) q6).
Definition q8 : LSQUnit := Eval vm_compute in after (ldo OWriteback q7).
Definition q9 : LSQUnit := Eval vm_compute in after (ldo ORetry q8).

(** Memory acknowledges the first store; under total store order only now the second one
    is sent, its second half a cycle later for want of a port. *)
Definition first_packet : Packet := MkPacket 1 (request 4096 8) true data8 (Some 0%nat) false.
Definition q10 : LSQUnit := Eval vm_compute in after (ldo (OResponse first_packet true) q9).
Definition q11 : LSQUnit := Eval vm_compute in after (ldo OWriteback q10).
Definition q12 : LSQUnit := Eval vm_compute in after (ldo OWriteback q11).

(** One step, computed. *)
Lemma step_run (u : LSQUnit) (W : list Write) (o : Op) (u' : LSQUnit) :
  lrun u W → allowed o u → ldo o u = Ok u' → new_writes o u = [] → lrun u' W.
Proof. intros Hr Ha Hok Hw. rewrite <- (app_nil_r W), <- Hw. by eapply run_op. Qed.

Ltac computed := vm_compute; reflexivity.
Ltac insert_allowed := eexists; split; [computed|]; split; [computed|];
  split; [split; vm_compute; repeat constructor|]; vm_compute; auto 6.
Ltac inserted u p := apply (step_run u [] (OInsert p)); [|insert_allowed|computed|done].

Lemma run4 : lrun q4 [].
Proof. inserted q3 3%nat. inserted q2 2%nat. inserted q1 1%nat. inserted q0 0%nat. apply run_start. computed. Qed.
Lemma run5 : lrun q5 [].
Proof.
  apply (step_run q4 [] op5); [apply run4| |computed|done]. split; [|split; [by vm_compute|split; [cbn; lia|left; cbn; lia]]].
  eexists _, _, _. split; [computed|]. do 4 (split; [computed|]). split; computed.
Qed.
Lemma run6 : lrun q6 [].
Proof.
  apply (step_run q5 [] op6); [apply run5| |computed|done]. split; [|split; [by vm_compute|split; [cbn; lia|left; cbn; lia]]].
  eexists _, _, _. split; [computed|]. do 4 (split; [computed|]). split; computed.
Qed.
Definition all_writes : list Write := Eval vm_compute in new_writes (OCommit 12) q6.
Lemma run7 : lrun q7 all_writes.
Proof.
  assert (E : [] ++ new_writes (OCommit 12) q6 = all_writes) by computed. rewrite <- E. eapply run_op; [apply run6|done|computed].
Qed.
Lemma run9 : lrun q9 all_writes.
Proof. apply (step_run q8 _ ORetry); [apply (step_run q7 _ OWriteback); [apply run7|done|computed|done]|done|computed|done]. Qed.
Lemma run10 : lrun q10 all_writes.
Proof.
  apply (step_run q9 _ (OResponse first_packet true)); [apply run9| |computed|done].
  eexists _, _. split; [computed|]. split; [computed|]. right. split; [done|eexists; split; [computed|done]|]. intros _. eexists 0%nat, _. split; [computed|].
  split; [vm_compute; lia|]. split; computed.
Qed.
Lemma run11 : lrun q11 all_writes.
Proof. apply (step_run q10 _ OWriteback); [apply run10|done|computed|done]. Qed.
Lemma run12 : lrun q12 all_writes.
Proof. apply (step_run q11 _ OWriteback); [apply run11|done|computed|done]. Qed.

Lemma keep_key (pkt : Packet) (d : DynInst) : lkey (keep_acc pkt d) = lkey d ∧ fault (keep_acc pkt d) = fault d.
Proof. done. Qed.
Lemma inv_of (u : LSQUnit) (W : list Write) : lrun u W → lsq_inv u (loads_of u) (stores_of u) (sent_of u).
Proof. intros H. eapply (run_lsq_inv 4 true 1 line_mask 100 refuse_first no_ipr keep_acc lsq_heap 8 8); [lia|lia|apply keep_key|exact H]. Qed.

(** The whole stream has reached the cache. *)
Lemma stores_written_in_order_witness : accepted (calls q12) ++ to_come q12 (stores_of q12) (sent_of q12) = all_writes ∧ accepted (calls q12) = all_writes.
Proof.
  split; [|vm_compute; reflexivity].
  apply (stores_written_in_order 4 true 1 line_mask 100 refuse_first no_ipr keep_acc lsq_heap 8 8); [lia|lia|apply keep_key|apply run12].
Defined.


Definition inst_of (u : LSQUnit) (p : InstPtr) : DynInst := Eval cbv in default (mem_inst IsLoad 0 0 1) (u_heap u !! p).
Definition stores6 : list SQEntry := Eval vm_compute in stores_of q6.
Lemma inv6 : lsq_inv q6 [1%nat; 3%nat] stores6 0.
Proof. assert (E : loads_of q6 = [1%nat; 3%nat] ∧ stores_of q6 = stores6 ∧ sent_of q6 = 0%nat) by (vm_compute; done).
  destruct E as (<- & <- & <-). apply (inv_of q6 []), run6.
Qed.
Lemma in_stores6 (e : SQEntry) (P : SQEntry → Prop) : e ∈ stores6 → Forall P stores6 → P e.
Proof. intros He HP. rewrite Forall_forall in HP. by apply HP. Qed.

Lemma addrs6 : addrs_ok q6 stores6.
Proof.
  intros e p d He. apply (in_stores6 e (λ e, sq_inst e = Some p → u_heap q6 !! p = Some d → sq_size e ≠ 0 → in_range (effAddr d) (sq_size e)) He).
  unfold stores6. apply Forall_cons_2; [|apply Forall_cons_2; [|apply Forall_nil_2]];
    intros Hp; vm_compute in Hp; injection Hp as <-; intros Hd; vm_compute in Hd; injection Hd as <-; intros _; vm_compute; done.
Qed.

Lemma addrs64_6 : addrs64 q6 stores6.
Proof.
  intros e p d He. apply (in_stores6 e (λ e, sq_inst e = Some p → u_heap q6 !! p = Some d → 0 ≤ effAddr d < 2 ^ 64) He).
  unfold stores6. apply Forall_cons_2; [|apply Forall_cons_2; [|apply Forall_nil_2]];
    intros Hp; vm_compute in Hp; injection Hp as <-; intros Hd; vm_compute in Hd; injection Hd as <-; vm_compute; done.
Qed.

(** The load of bytes 4 to 7 of the first store. *)
Lemma load_sees_latest_store_witness :
  ∃ u' pkt, lsq_read refuse_first no_ipr (request 4100 4) None None 0 q6 = Ok (NoFault, u')
    ∧ calls u' = calls q6 ++ [ScheduleWriteback 1%nat pkt] ∧ pk_data pkt = [5; 6; 7; 8].
Proof.
  assert (Hr : request_ok (inst_of q6 1) (request 4100 4) None None) by (split; vm_compute; done).
  destruct (load_sees_latest_store refuse_first no_ipr q6 [1%nat; 3%nat] stores6 0 0 1 (inst_of q6 1) (request 4100 4) None None
    inv6 ltac:(computed) ltac:(computed) ltac:(computed) addrs6 addrs64_6 Hr ltac:(computed)) as (f & u' & E & Hout).
  assert (Es : load_source (u_heap q6) (isLLSC (request 4100 4)) (older_stores (u_heap q6) stores6 0 (seqNum (inst_of q6 1)))
      (getVaddr (request 4100 4)) (Z.to_nat (getSize (request 4100 4))) = FromStore [5; 6; 7; 8]) by computed.
  assert (Et : too_early 0 (inst_of q6 1) (request 4100 4) = false) by computed. rewrite Et, Es in Hout.
  destruct Hout as (-> & (pkt & Hc & _ & Hd) & _). by exists u', pkt.
Defined.

(** The second store writes what the load with number 13 has already read. *)
Definition no_access (p : InstPtr) (u : LSQUnit) : res (Fault * LSQUnit) := Ok (NoFault, u).
Lemma store_finds_violations_witness : ∃ f u', executeStore 4 no_access 2 q6 = Ok (f, u') ∧ memDepViolator u' = Some 3%nat.
Proof.
  destruct (store_finds_violations 4 no_access q6 q6 [1%nat; 3%nat] stores6 0 1 2 (inst_of q6 2) (inst_of q6 2) (default (SQEntry_new None) (stores6 !! 1%nat)))
    as (f & u' & E & _ & Hf); try computed; try lia; try (by vm_compute); [apply inv6|].
  exists f, u'. split; [exact E|]. vm_compute in E. by injection E as _ <-.
Defined.

Lemma lsq_squash_exact_witness : ∃ u', lsq_squash 11 q6 = Ok u' ∧ loads_of u' = [1%nat] ∧ sseqs (u_heap q6) (stores_of u') = [10].
Proof.
  destruct (lsq_squash_exact q6 [1%nat; 3%nat] stores6 0 11 inv6) as (u' & E & HL & HS & _).
  - intros e He. apply (in_stores6 e (λ e, canWB e = true → ssn (u_heap q6) e ≤ 11) He). unfold stores6.
    apply Forall_cons_2; [|apply Forall_cons_2; [|apply Forall_nil_2]]; intros Hw; vm_compute in Hw; done.
  - exists u'. rewrite HL, HS. split; [exact E|]. split; computed.
Defined.

(** The line of the second load is taken by another agent. *)
Lemma snoop_keeps_tso_witness : ∃ u', checkSnoop true line_mask 4160 q6 = Ok u' ∧ fault <$> u_heap u' !! 3%nat = Some ReExec.
Proof.
  destruct (snoop_keeps_tso line_mask 4160 q6 [1%nat; 3%nat] stores6 0 inv6) as (u' & E & H). exists u'. split; [exact E|].
  rewrite (H 0%nat 3%nat (inst_of q6 3)); [computed|computed|computed].
Defined.

Lemma eldest_prerequisite_is_max_witness : getEldestBranchPrequisiteAge 120 q6 = Ok 0.
Proof. rewrite (eldest_prerequisite_is_max 120 q6 [1%nat; 3%nat] stores6 0 inv6). computed. Defined.

Lemma coverage_wraps_at_top_witness : coverage (request (2 ^ 64 - 8) 4) (2 ^ 64 - 8) 8 = LSQ.Disjoint.
Proof. apply coverage_wraps_at_top; computed. Defined.
