(* ===== verification/LSQThreads.v ===== *)
(** * The load/store queues of all threads

    [src/cpu/o3/lsq.hh] and [lsq_impl.hh]: [LSQ] owns a unit ([LSQ.v]) per thread, shares the
    entries among them by a policy, hands each call to the unit of its thread and answers
    for all threads together.

    The units share the instructions: a call gives the unit the heap and takes it back.
    Of a request the unit needs its thread, [contextToThread(contextId())], which is an
    argument here.  The call [iewStage->cacheUnblocked()] of [recvReqRetry] is the IEW's
    ([Dispatch.v]).  Printing and statistics are left out. *)

From S2P Require Import Prelude Regs DynInst LSQ.
Local Open Scope Z_scope.

Inductive LSQPolicy :=
| Dynamic
| Partitioned
| Threshold.
#[export] Instance LSQPolicy_eq_dec : EqDecision LSQPolicy.
Proof. solve_decision. Defined.

Record LSQ := MkLSQ {
  lsqPolicy : LSQPolicy;
  thread : nat → LSQUnit;
  lq_activeThreads : list nat;
  all_LQEntries : Z;  (* LQEntries, unsigned *)
  all_SQEntries : Z;  (* SQEntries, unsigned *)
  maxLQEntries : Z;
  maxSQEntries : Z;
  lq_numThreads : nat;
}.
#[export] Instance LSQ_eta : Updatable LSQ := λ r, MkLSQ (lsqPolicy r) (thread r) (lq_activeThreads r)
  (all_LQEntries r) (all_SQEntries r) (maxLQEntries r) (maxSQEntries r) (lq_numThreads r).

Section queues.
Context (depCheckShift : Z) (checkLoads needsTSO : bool) (cacheStorePorts cacheBlockMask curCycle : Z).
Context (cache_accepts : list Call → Packet → bool).
Context (handleIprRead : Request → list Z) (completeAcc : Packet → DynInst → DynInst).
Context (initiateAcc : InstPtr → LSQUnit → res (Fault * LSQUnit)).
Implicit Types (h : heap) (l : LSQ) (p : InstPtr) (tid : nat).

(** [thread[tid].f(...)], on the shared instructions. *)
Definition on_unit (tid : nat) (f : LSQUnit → res LSQUnit) h l : res (heap * LSQ) :=
  u ← f (thread l tid <| u_heap := h |>);
  Ok (u_heap u, l <| thread ::= <[tid := u]> |>).
(** The same with a result. *)
Definition ask_unit {A} (tid : nat) (f : LSQUnit → res (A * LSQUnit)) h l : res (A * heap * LSQ) :=
  '(x, u) ← f (thread l tid <| u_heap := h |>);
  Ok (x, u_heap u, l <| thread ::= <[tid := u]> |>).
(** A loop over threads. *)
Definition on_units (f : LSQUnit → res LSQUnit) (tids : list nat) h l : res (heap * LSQ) :=
  mfold (λ '(h, l) tid, on_unit tid f h l) (h, l) tids.

(** ** Set-up *)
(** [threshold] is [smtLSQThreshold]. *)
Definition LSQ_new (policy : LSQPolicy) (threshold nLQ nSQ : Z) (nThreads maxThreads : nat) (active : list nat) h
    : res LSQ :=
  _ ← assert (bool_decide (0 < nThreads ≤ maxThreads)%nat);
  '(mLQ, mSQ) ← match policy with
    | Dynamic => Ok (nLQ, nSQ)
    | Partitioned => Ok (nLQ / Z.of_nat nThreads, nSQ / Z.of_nat nThreads)
    | Threshold => _ ← assert (nLQ <? threshold); _ ← assert (nSQ <? threshold); Ok (threshold, threshold)
    end;
  u ← lsq_init h mLQ mSQ;
  Ok (MkLSQ policy (λ _, u) active nLQ nSQ mLQ mSQ nThreads).

Definition takeOverFrom h l : res (heap * LSQ) :=
  on_units (λ u, Ok (lsq_takeOverFrom u)) (seq 0 (lq_numThreads l)) h l.
Definition entryAmount (num_threads : Z) l : Z :=
  if decide (lsqPolicy l = Partitioned) then all_LQEntries l / num_threads else 0.
Definition removeEntries (tid : nat) h l : res (heap * LSQ) := on_unit tid (λ u, Ok (clearSQ (clearLQ u))) h l.
Definition resizeEntries (size : Z) (tid : nat) h l : res (heap * LSQ) :=
  on_unit tid (λ u, u ← resizeLQ size u; resizeSQ size u) h l.
Definition resetEntries h l : res (heap * LSQ) :=
  if bool_decide (lsqPolicy l ≠ Dynamic) || (1 <? Z.of_nat (lq_numThreads l)) then
    let active_threads := Z.of_nat (length (lq_activeThreads l)) in
    maxEntries ← (if decide (lsqPolicy l = Partitioned) then
        if active_threads =? 0 then Err DivByZero else Ok (all_LQEntries l / active_threads)
      else Ok (all_LQEntries l));
    mfold (λ '(h, l) tid, resizeEntries maxEntries tid h l) (h, l) (lq_activeThreads l)
  else Ok (h, l).

(** ** Calls for one thread *)
Definition inst_unit p h : res nat := d ← deref (h !! p); Ok (threadNumber d).
Definition insertLoad p h l : res (heap * LSQ) := tid ← inst_unit p h; on_unit tid (lsq_insertLoad curCycle p) h l.
Definition insertStore p h l : res (heap * LSQ) := tid ← inst_unit p h; on_unit tid (lsq_insertStore curCycle p) h l.
Definition executeLoad p h l : res (Fault * heap * LSQ) :=
  tid ← inst_unit p h; ask_unit tid (LSQ.executeLoad depCheckShift checkLoads initiateAcc p) h l.
Definition executeStore p h l : res (Fault * heap * LSQ) :=
  tid ← inst_unit p h; ask_unit tid (LSQ.executeStore depCheckShift initiateAcc p) h l.
Definition commitLoads (youngest_inst : Z) (tid : nat) h l : res (heap * LSQ) :=
  on_unit tid (LSQ.commitLoads youngest_inst) h l.
Definition commitStores (youngest_inst : Z) (tid : nat) h l : res (heap * LSQ) :=
  on_unit tid (LSQ.commitStores youngest_inst) h l.
Definition squash (squashed_num : Z) (tid : nat) h l : res (heap * LSQ) := on_unit tid (lsq_squash squashed_num) h l.
Definition violation_tid (tid : nat) l : bool := lsq_violation (thread l tid).
Definition getMemDepViolator (tid : nat) h l : res (option InstPtr * heap * LSQ) :=
  ask_unit tid (λ u, Ok (LSQ.getMemDepViolator u)) h l.
Definition getEldestBranchPrequisiteAge (tid : nat) h l : res Z :=
  LSQ.getEldestBranchPrequisiteAge curCycle (thread l tid <| u_heap := h |>).
Definition read (tid : nat) (req : Request) (sreqLow sreqHigh : option Request) (load_idx : Z) h l
    : res (Fault * heap * LSQ) :=
  ask_unit tid (lsq_read cache_accepts handleIprRead req sreqLow sreqHigh load_idx) h l.
Definition write (tid : nat) (req : Request) (sreqLow sreqHigh : option Request) (data : list Z) (store_idx : Z) h l
    : res (Fault * heap * LSQ) :=
  ask_unit tid (lsq_write req sreqLow sreqHigh data store_idx) h l.

(** ** Calls for all threads *)
Definition tick h l : res (heap * LSQ) := on_units (λ u, Ok (lsq_tick u)) (lq_activeThreads l) h l.
Definition writebackStores h l : res (heap * LSQ) :=
  on_units (lsq_writebackStores needsTSO cacheStorePorts cache_accepts) (lq_activeThreads l) h l.
Definition violation l : bool := existsb (λ tid, violation_tid tid l) (lq_activeThreads l).
Definition recvReqRetry h l : res (heap * LSQ) :=
  on_units (recvRetry needsTSO cache_accepts) (lq_activeThreads l) h l.
(** The snoop a response or a request from memory carries when it invalidates [addr]. *)
Definition snoopAll (addr : Z) h l : res (heap * LSQ) :=
  on_units (checkSnoop needsTSO cacheBlockMask addr) (seq 0 (lq_numThreads l)) h l.
(** [invalidates]: [pkt->isInvalidate()], with the address of the packet. *)
Definition recvTimingResp (tid : nat) (pkt : Packet) (satisfiedFromMemory : bool) (invalidates : option Z) h l
    : res (heap * LSQ) :=
  '(h, l) ← on_unit tid (completeDataAccess needsTSO completeAcc pkt satisfiedFromMemory) h l;
  match invalidates with Some addr => snoopAll addr h l | None => Ok (h, l) end.
Definition recvTimingSnoopReq (invalidates : option Z) h l : res (heap * LSQ) :=
  match invalidates with Some addr => snoopAll addr h l | None => Ok (h, l) end.

(** ** Occupancy *)
Definition sum_units (f : LSQUnit → Z) l : Z :=
  foldl (λ total tid, u32 (total + f (thread l tid))) 0 (lq_activeThreads l).
Definition getCount : LSQ → Z := sum_units LSQ.getCount.
Definition numLoads : LSQ → Z := sum_units loads.
Definition numStores : LSQ → Z := sum_units stores.
Definition numFreeLoadEntries : LSQ → Z := sum_units LSQ.numFreeLoadEntries.
Definition numFreeStoreEntries : LSQ → Z := sum_units LSQ.numFreeStoreEntries.
Definition numFreeLoadEntries_tid (tid : nat) l : Z := LSQ.numFreeLoadEntries (thread l tid).
Definition numFreeStoreEntries_tid (tid : nat) l : Z := LSQ.numFreeStoreEntries (thread l tid).
Definition getCount_tid (tid : nat) l : Z := LSQ.getCount (thread l tid).
Definition all_units (f : LSQUnit → bool) l : bool := forallb (λ tid, f (thread l tid)) (lq_activeThreads l).
Definition isFull : LSQ → bool := all_units lsq_isFull.
Definition isFull_tid (tid : nat) l : bool :=
  if decide (lsqPolicy l = Dynamic) then isFull l else lsq_isFull (thread l tid).
Definition lqEmpty : LSQ → bool := all_units LSQ.lqEmpty.
Definition sqEmpty : LSQ → bool := all_units LSQ.sqEmpty.
Definition isEmpty l : bool := lqEmpty l && sqEmpty l.
Definition lqFull : LSQ → bool := all_units LSQ.lqFull.
Definition lqFull_tid (tid : nat) l : bool :=
  if decide (lsqPolicy l = Dynamic) then lqFull l else LSQ.lqFull (thread l tid).

(** [sqFull()] asks [sqFull(tid)] for each thread, which under the dynamic policy asks
    [sqFull()]. *)
Fixpoint sqFull_loop (full : nat → res bool) (tids : list nat) : res bool :=
  match tids with
  | [] => Ok true
  | tid :: tids => b ← full tid; if (b : bool) then sqFull_loop full tids else Ok false
  end.
Fixpoint sqFull_tid (fuel tid : nat) l : res bool :=
  match fuel with
  | O => Err OutOfFuel
  | S fuel =>
      if decide (lsqPolicy l = Dynamic) then sqFull_loop (λ t, sqFull_tid fuel t l) (lq_activeThreads l)
      else Ok (LSQ.sqFull (thread l tid))
  end.
Definition sqFull (fuel : nat) l : res bool := sqFull_loop (λ t, sqFull_tid fuel t l) (lq_activeThreads l).

Definition isStalled : LSQ → bool := all_units stalled.
Definition isStalled_tid (tid : nat) l : bool :=
  if decide (lsqPolicy l = Dynamic) then isStalled l else stalled (thread l tid).
Definition hasStoresToWB_tid (tid : nat) l : bool := LSQ.hasStoresToWB (thread l tid).
Definition hasStoresToWB l : bool := existsb (λ tid, hasStoresToWB_tid tid l) (lq_activeThreads l).
Definition willWB_tid (tid : nat) l : res bool := LSQ.willWB (thread l tid).
Definition willWB l : res bool :=
  mfold (λ b tid, if (b : bool) then Ok true else willWB_tid tid l) false (lq_activeThreads l).

Definition isDrained l : bool := lqEmpty l && sqEmpty l.
Definition drainSanityCheck l : res unit :=
  _ ← assert (isDrained l);
  mfold (λ _ tid, lsq_drainSanityCheck (thread l tid)) tt (seq 0 (lq_numThreads l)).
End queues.

(** ** The shared policies *)
(** One level of calls answers for a queue of one's own. *)
Lemma sqFull_own (fuel tid : nat) (l : LSQ) :
  lsqPolicy l ≠ Dynamic → sqFull_tid (S fuel) tid l = Ok (LSQ.sqFull (thread l tid)).
Proof. intros H. cbn. by rewrite decide_False. Qed.

(** Under the dynamic policy, asking whether the store queue of a thread is full does not
    return: [sqFull(tid)] calls [sqFull()], which calls [sqFull(tid)], whatever the depth of
    calls allowed; so no store can be dispatched. *)
Theorem dynamic_sqFull_diverges (l : LSQ) (fuel tid : nat) :
  lsqPolicy l = Dynamic → lq_activeThreads l ≠ [] → sqFull_tid fuel tid l = Err OutOfFuel.
Proof.
  intros Hp Ha. revert tid. induction fuel as [|fuel IH]; intros tid; [done|]. cbn. rewrite decide_True by done.
  destruct (lq_activeThreads l) as [|t ts]; [done|]. cbn. by rewrite IH.
Qed.
