(* ===== verification/DepGraph.v ===== *)
(** * Dependency graph

    [src/cpu/o3/dep_graph.hh]: one linked list per physical register, whose head
    node holds the register's producer and whose other nodes are the consumers
    waiting for the value.  A node is modelled by the instruction it holds; the
    chain of a register is the list of its consumers, newest first. *)

From S2P Require Import Prelude Regs DynInst.
Local Open Scope Z_scope.

(** [dependGraph[i]]: the producer and the chain behind it. *)
Record DepEntry := MkDepEntry {
  dep_inst : option InstPtr;
  dep_next : list InstPtr;
}.
#[export] Instance DepEntry_eta : Updatable DepEntry := λ r, MkDepEntry (dep_inst r) (dep_next r).

Record DependencyGraph := MkDepGraph {
  dependGraph : list DepEntry;
  memAllocCounter : Z;
}.
#[export] Instance DependencyGraph_eta : Updatable DependencyGraph :=
  λ r, MkDepGraph (dependGraph r) (memAllocCounter r).

Definition resize (num_entries : nat) : DependencyGraph :=
  MkDepGraph (replicate num_entries (MkDepEntry None [])) 0.

(** Array access; an index outside the array is undefined in the code. *)
Definition entry (idx : Z) (g : DependencyGraph) : res DepEntry :=
  if 0 <=? idx then deref (dependGraph g !! Z.to_nat idx) else Err NullDeref.
Definition set_entry (idx : Z) (e : DepEntry) (g : DependencyGraph) : DependencyGraph :=
  g <| dependGraph ::= <[Z.to_nat idx := e]> |>.

(** Drops every chain and every producer. *)
Definition reset (g : DependencyGraph) : DependencyGraph :=
  g <| dependGraph ::= (λ l, replicate (length l) (MkDepEntry None [])) |>
    <| memAllocCounter ::= (λ n, n - Z.of_nat (sum_list ((λ e, length (dep_next e)) <$> dependGraph g))) |>.

Definition insert (idx : Z) (new_inst : InstPtr) (g : DependencyGraph) : res DependencyGraph :=
  e ← entry idx g;
  Ok (set_entry idx (e <| dep_next ::= cons new_inst |>) g <| memAllocCounter ::= Z.succ |>).

Definition setInst (idx : Z) (new_inst : InstPtr) (g : DependencyGraph) : res DependencyGraph :=
  e ← entry idx g; Ok (set_entry idx (e <| dep_inst := Some new_inst |>) g).
Definition clearInst (idx : Z) (g : DependencyGraph) : res DependencyGraph :=
  e ← entry idx g; Ok (set_entry idx (e <| dep_inst := None |>) g).

(** The search of [remove]: unlink the first node holding the instruction; running
    off the end of the chain fails an assertion. *)
Fixpoint unlink (inst_to_remove : InstPtr) (chain : list InstPtr) : res (list InstPtr) :=
  match chain with
  | [] => Err AssertFailed
  | p :: chain' =>
      if decide (p = inst_to_remove) then Ok chain'
      else rest ← unlink inst_to_remove chain'; Ok (p :: rest)
  end.
(** Nothing happens when the chain is empty. *)
Definition remove (idx : Z) (inst_to_remove : InstPtr) (g : DependencyGraph) : res DependencyGraph :=
  e ← entry idx g;
  match dep_next e with
  | [] => Ok g
  | chain =>
      chain' ← unlink inst_to_remove chain;
      Ok (set_entry idx (e <| dep_next := chain' |>) g <| memAllocCounter ::= Z.pred |>)
  end.

(** Unlinks and returns the newest dependent. *)
Definition pop (idx : Z) (g : DependencyGraph) : res (option InstPtr * DependencyGraph) :=
  e ← entry idx g;
  match dep_next e with
  | [] => Ok (None, g)
  | p :: chain =>
      Ok (Some p, set_entry idx (e <| dep_next := chain |>) g <| memAllocCounter ::= Z.pred |>)
  end.

Definition empty_at (idx : Z) (g : DependencyGraph) : res bool :=
  e ← entry idx g; Ok (match dep_next e with [] => true | _ => false end).
Definition empty (g : DependencyGraph) : bool :=
  forallb (λ e, match dep_next e with [] => true | _ => false end) (dependGraph g).

(** ** Facts *)
(** The chain of a register, [[]] outside the graph. *)
Definition chain (idx : Z) (g : DependencyGraph) : list InstPtr :=
  match entry idx g with Ok e => dep_next e | Err _ => [] end.
(** The producer of a register. *)
Definition producer (idx : Z) (g : DependencyGraph) : option InstPtr :=
  match entry idx g with Ok e => dep_inst e | Err _ => None end.

(** [memAllocCounter] counts the nodes of the graph. *)
Definition dg_wf (g : DependencyGraph) : Prop :=
  memAllocCounter g = Z.of_nat (sum_list ((λ e, length (dep_next e)) <$> dependGraph g)).

Lemma entry_ok (idx : Z) (g : DependencyGraph) (e : DepEntry) :
  entry idx g = Ok e ↔ 0 ≤ idx ∧ dependGraph g !! Z.to_nat idx = Some e.
Proof.
  unfold entry. destruct (Z.leb_spec 0 idx); rewrite ?deref_ok; [tauto|].
  split; [done|lia].
Qed.

Lemma entry_set_eq (idx : Z) (e e0 : DepEntry) (g : DependencyGraph) :
  entry idx g = Ok e0 → entry idx (set_entry idx e g) = Ok e.
Proof.
  rewrite !entry_ok. intros [? H]. split; [done|]. cbn.
  apply list_lookup_insert_eq. by eapply lookup_lt_Some.
Qed.

Lemma entry_set_ne (idx j : Z) (e : DepEntry) (g : DependencyGraph) :
  0 ≤ idx → j ≠ idx → entry j (set_entry idx e g) = entry j g.
Proof.
  intros ? Hne. unfold entry. destruct (Z.leb_spec 0 j); [|done].
  unfold set_entry. cbn [dependGraph over_field]. f_equal. apply list_lookup_insert_ne. lia.
Qed.

(** Node count after replacing one entry. *)
Lemma sum_nodes_insert (l : list DepEntry) (i : nat) (e0 e : DepEntry) :
  l !! i = Some e0 →
  (sum_list ((λ e, length (dep_next e)) <$> <[i := e]> l) + length (dep_next e0) =
   sum_list ((λ e, length (dep_next e)) <$> l) + length (dep_next e))%nat.
Proof.
  revert i; induction l as [|x l IH]; intros [|i] H; csimpl in *; simplify_eq; [lia|].
  specialize (IH i H). unfold fmap in *. lia.
Qed.

Lemma unlink_length (p : InstPtr) (c c' : list InstPtr) :
  unlink p c = Ok c' → length c = S (length c').
Proof.
  revert c'; induction c as [|q c IH]; intros c' H; [done|]. cbn in H.
  case_decide; res_simp; [done|]. cbn. f_equal. by apply IH.
Qed.

(** [unlink] removes exactly one occurrence, the first. *)
Lemma unlink_spec (p : InstPtr) (c c' : list InstPtr) :
  unlink p c = Ok c' ↔ ∃ c1 c2, c = c1 ++ p :: c2 ∧ c' = c1 ++ c2 ∧ p ∉ c1.
Proof.
  revert c'; induction c as [|q c IH]; intros c'; cbn.
  - split; [done|]. intros (c1 & c2 & E & _). by destruct c1.
  - case_decide as Hq.
    + subst q. split.
      * intros H; res_simp. exists [], c'. set_solver.
      * intros (c1 & c2 & E & -> & Hin). destruct c1 as [|x c1]; cbn in E; simplify_eq; [done|].
        set_solver.
    + split.
      * intros (c0 & Hu & H)%bind_ok; res_simp. apply IH in Hu as (c1 & c2 & -> & -> & Hin).
        exists (q :: c1), c2. set_solver.
      * intros (c1 & c2 & E & -> & Hin). destruct c1 as [|x c1]; cbn in E; simplify_eq.
        rewrite (proj2 (IH (c1 ++ c2))); [done|]. exists c1, c2. set_solver.
Qed.
