(* ===== verification/ROB.v ===== *)
(** * Reorder buffer

    [src/cpu/o3/rob.hh] and [src/cpu/o3/rob_impl.hh], with the NDA extensions:
    the count of instructions that may still squash others
    ([numInstThatMayCauseSquash]), the [Unsafe] marking of everything inserted
    behind them, the walk that makes instructions safe again
    ([markFollowingInstructionsAsSafe]) and runahead mode.

    A per-thread array is a function of the thread id.  An iterator of a thread's
    instruction list is the instruction it points at, [None] being [end()]
    (the lists hold each instruction once).  The IQ is any [InstQueue]; the
    scoreboard is [Scoreboard.v].  Statistics and [DPRINTF]s are left out. *)

From S2P Require Import Prelude Regs DynInst Scoreboard IQInterface.
Local Open Scope Z_scope.

Inductive RobStatus :=
| Running
| Idle
| ROBSquashing.

Inductive ROBPolicy :=
| Dynamic
| Partitioned
| Threshold.

#[export] Instance ROBPolicy_eq_dec : EqDecision ROBPolicy.
Proof. solve_decision. Defined.

Record ROB := MkROB {
  robStatus : nat → RobStatus;  (* per-thread status *)
  robPolicy : ROBPolicy;  (* SMT sharing policy *)
  numEntries : Z;  (* unsigned *)
  threadEntries : nat → Z;  (* unsigned, per thread *)
  maxEntries : nat → Z;  (* unsigned, per thread *)
  instList : nat → list InstPtr;  (* oldest first *)
  squashWidth : Z;  (* unsigned *)
  tail : option InstPtr;
  head : option InstPtr;
  squashIt : nat → option InstPtr;
  inRunaheadMode : nat → bool;
  runaheadROBThreshold : Z;
  runaheadLoadAgeThreshhold : Z;
  numInstsInROB : Z;  (* int *)
  numInstThatMayCauseSquash : nat → Z;  (* int, per thread *)
  squashedSeqNum : nat → Z;
  doneSquashing : nat → bool;
  numThreads : nat;
  activeThreads : list nat;  (* *activeThreads *)
}.
#[export] Instance ROB_eta : Updatable ROB := λ r, MkROB (robStatus r) (robPolicy r) (numEntries
  r) (threadEntries r) (maxEntries r) (instList r) (squashWidth r) (tail r) (head r) (squashIt
  r) (inRunaheadMode r) (runaheadROBThreshold r) (runaheadLoadAgeThreshhold r) (numInstsInROB r)
  (numInstThatMayCauseSquash r) (squashedSeqNum r) (doneSquashing r) (numThreads r)
  (activeThreads r).

(** ** Construction *)
(** The thread ids [0 .. numThreads). *)
Definition thread_ids (n : nat) : list nat := seq 0 n.
(** [for tid < numThreads: a[tid] = v]. *)
Definition fill {A} (n : nat) (v : nat → A) (a : nat → A) : nat → A :=
  foldr (λ tid b, <[tid := v tid]> b) a (thread_ids n).

Definition resetState (r : ROB) : ROB :=
  let n := numThreads r in
  r <| doneSquashing ::= fill n (λ _, true) |>
    <| threadEntries ::= fill n (λ _, 0) |>
    <| squashIt ::= fill n (λ _, None) |>
    <| squashedSeqNum ::= fill n (λ _, 0) |>
    <| numInstThatMayCauseSquash ::= fill n (λ _, 0) |>
    <| numInstsInROB := 0 |>
    <| head := None |>
    <| tail := None |>.

(** The constructor; the policy string is already decoded.  The arrays of an
    unconstructed object are the argument [r]. *)
Definition ROB_init (policy : ROBPolicy) (numROBEntries sqWidth : Z) (nThreads : nat)
    (smtROBThreshold robThr ageThr : Z) (r : ROB) : ROB :=
  let r := r <| numEntries := numROBEntries |> <| squashWidth := sqWidth |>
             <| numInstsInROB := 0 |> <| numThreads := nThreads |>
             <| numInstThatMayCauseSquash ::= fill nThreads (λ _, 0) |>
             <| inRunaheadMode ::= fill nThreads (λ _, false) |>
             <| robPolicy := policy |> in
  let r := match policy with
           | Dynamic => r <| maxEntries ::= fill nThreads (λ _, numROBEntries) |>
           | Partitioned =>
               r <| maxEntries ::= fill nThreads (λ _, numROBEntries / Z.of_nat nThreads) |>
           | Threshold => r <| maxEntries ::= fill nThreads (λ _, smtROBThreshold) |>
           end in
  resetState (r <| runaheadROBThreshold := robThr |> <| runaheadLoadAgeThreshhold := ageThr |>).

Definition takeOverFrom (r : ROB) : ROB := resetState r.
Definition setActiveThreads (at_ptr : list nat) (r : ROB) : ROB := r <| activeThreads := at_ptr |>.

(** ** Occupancy *)
Definition isFull (r : ROB) : bool := numInstsInROB r =? numEntries r.
Definition isEmpty (r : ROB) : bool := numInstsInROB r =? 0.
Definition isEmpty_tid (tid : nat) (r : ROB) : bool := threadEntries r tid =? 0.
Definition numFreeEntries (r : ROB) : Z := u32 (numEntries r - numInstsInROB r).
Definition numFreeEntries_tid (tid : nat) (r : ROB) : Z := u32 (maxEntries r tid - threadEntries r tid).
Definition getMaxEntries (tid : nat) (r : ROB) : Z := maxEntries r tid.
Definition countInsts_tid (tid : nat) (r : ROB) : Z := Z.of_nat (length (instList r tid)).
Definition countInsts (r : ROB) : Z :=
  foldl (λ total tid, total + countInsts_tid tid r) 0 (thread_ids (numThreads r)).
Definition isDoneSquashing (tid : nat) (r : ROB) : bool := doneSquashing r tid.
Definition isInRunahead (tid : nat) (r : ROB) : bool := inRunaheadMode r tid.

Definition entryAmount (num_threads : nat) (r : ROB) : Z :=
  if decide (robPolicy r = Partitioned) then numEntries r / Z.of_nat num_threads else 0.

(** One iteration of [resetEntries]. *)
Definition resetEntries_tid (active_threads : Z) (r : ROB) (tid : nat) : ROB :=
  match robPolicy r with
  | Partitioned => r <| maxEntries ::= <[tid := numEntries r / active_threads]> |>
  | Threshold => if active_threads =? 1 then r <| maxEntries ::= <[tid := numEntries r]> |> else r
  | Dynamic => r
  end.
Definition resetEntries (r : ROB) : ROB :=
  if bool_decide (robPolicy r ≠ Dynamic) || (1 <? Z.of_nat (numThreads r)) then
    foldl (resetEntries_tid (Z.of_nat (length (activeThreads r)))) r (activeThreads r)
  else r.

Definition drainSanityCheck (r : ROB) : res unit :=
  _ ← assert (forallb (λ tid, bool_decide (instList r tid = [])) (thread_ids (numThreads r)));
  assert (isEmpty r).

Definition leaveRunaheadMode (tid : nat) (r : ROB) : res ROB :=
  _ ← panic_if (negb (inRunaheadMode r tid));
  Ok (r <| inRunaheadMode ::= <[tid := false]> |>).

(** ** Head and tail *)
(** The scan of [updateHead] over the active threads: the oldest head so far and its
    sequence number, [None] while [first_valid]. *)
Definition updateHead_step (h : heap) (lists : nat → list InstPtr)
    (best : option (InstPtr * Z)) (tid : nat) : res (option (InstPtr * Z)) :=
  match lists tid with
  | [] => Ok best
  | p :: _ =>
      d ← deref (h !! p);
      match best with
      | None => Ok (Some (p, seqNum d))
      | Some (_, lowest_num) =>
          if seqNum d <? lowest_num then Ok (Some (p, seqNum d)) else Ok best
      end
  end.
Definition updateHead (h : heap) (r : ROB) : res ROB :=
  best ← mfold (updateHead_step h (instList r)) None (activeThreads r);
  Ok (r <| head := fst <$> best |>).

Definition updateTail_step (h : heap) (lists : nat → list InstPtr)
    (best : option InstPtr) (tid : nat) : res (option InstPtr) :=
  match list.last (lists tid) with
  | None => Ok best
  | Some p =>
      match best with
      | None => Ok (Some p)
      | Some t =>
          dp ← deref (h !! p);
          dt ← deref (h !! t);
          if seqNum dt <? seqNum dp then Ok (Some p) else Ok best
      end
  end.
Definition updateTail (h : heap) (r : ROB) : res ROB :=
  best ← mfold (updateTail_step h (instList r)) None (activeThreads r);
  Ok (r <| tail := best |>).

(** ** Reading *)
(** [None] is [dummyInst]. *)
Definition readHeadInst (tid : nat) (h : heap) (r : ROB) : res (option InstPtr) :=
  if negb (threadEntries r tid =? 0) then
    p ← deref (hd_error (instList r tid));
    d ← deref (h !! p);
    _ ← assert (isInROB d);
    Ok (Some p)
  else Ok None.
Definition readTailInst (tid : nat) (r : ROB) : res InstPtr := deref (list.last (instList r tid)).
Definition isHeadReady (tid : nat) (h : heap) (r : ROB) : res bool :=
  if negb (threadEntries r tid =? 0) then
    p ← deref (hd_error (instList r tid));
    d ← deref (h !! p);
    Ok (readyToCommit d)
  else Ok false.
Fixpoint canCommit_loop (tids : list nat) (h : heap) (r : ROB) : res bool :=
  match tids with
  | [] => Ok false
  | tid :: tids' =>
      b ← isHeadReady tid h r;
      if (b : bool) then Ok true else canCommit_loop tids' h r
  end.
Definition canCommit (h : heap) (r : ROB) : res bool := canCommit_loop (activeThreads r) h r.
Fixpoint findInst_loop (squash_inst : Z) (h : heap) (l : list InstPtr) : res (option InstPtr) :=
  match l with
  | [] => Ok None
  | p :: l' =>
      d ← deref (h !! p);
      if seqNum d =? squash_inst then Ok (Some p) else findInst_loop squash_inst h l'
  end.
Definition findInst (tid : nat) (squash_inst : Z) (h : heap) (r : ROB) : res (option InstPtr) :=
  findInst_loop squash_inst h (instList r tid).

Section with_iq.
Context {Q : Type} `{InstQueue Q} (fl : DebugFlags) (curCycle : Z).
Implicit Types (w : World Q) (r : ROB).

(** Update one instruction of the heap. *)
Definition on_inst (p : InstPtr) (f : DynInst → DynInst) w : World Q := w <| w_heap ::= alter f p |>.

(** ** Waking dependents *)
Definition wakeupSafeInstructionDependants (p : InstPtr) w : res (World Q) :=
  '(_, h, q) ← wakeDependents fl curCycle p (w_heap w) (w_iq w);
  d ← deref (h !! p);
  sb ← mfold (λ sb reg, setReg reg sb) (w_sb w) (renamedDests d);
  Ok (MkWorld h q sb).

(** The body of the walk for one instruction: clears [Unsafe] where allowed, and
    completes the writeback that was withheld. *)
Definition markOneAsSafe (p : InstPtr) (numWoken : Z) w : res (Z * World Q) :=
  d ← deref (w_heap w !! p);
  let instructionIsUnsafeUntilRetirement := CD_MarkUnsafeIf_LoadtInstruction fl && isLoad d in
  if negb (isSquashed d) && isUnsafe d && negb instructionIsUnsafeUntilRetirement then
    let w := on_inst p clearUnsafe w in
    if isWritebackDone d then
      w ← wakeupSafeInstructionDependants p w;
      Ok (numWoken + 1, w)
    else Ok (numWoken, w)
  else Ok (numWoken, w).

(** The walk from [start] to [end], given as the list of instructions between
    them; it stops at the first instruction that may squash others. *)
Fixpoint markFollowing_loop (maxInstructionsToWakeup : Z) (its : list InstPtr) (numWoken : Z) w
    : res (Z * World Q) :=
  match its with
  | [] => Ok (numWoken, w)
  | p :: its' =>
      if numWoken <? maxInstructionsToWakeup then
        '(numWoken, w) ← markOneAsSafe p numWoken w;
        d ← deref (w_heap w !! p);
        if maySquashOthers d then Ok (numWoken, w)
        else markFollowing_loop maxInstructionsToWakeup its' numWoken w
      else Ok (numWoken, w)
  end.
Definition markFollowingInstructionsAsSafe (its : list InstPtr) (maxInstructionsToWakeup : Z) w
    : res (Z * World Q) :=
  markFollowing_loop maxInstructionsToWakeup its 0 w.

Definition reduceNumMaySquashOthers (tid : nat) (numClearedMaySquashOthers : Z)
    (maxInstructionsToWakeup : Z) r w : res (Z * ROB * World Q) :=
  let r := if 0 <? numClearedMaySquashOthers then
             r <| numInstThatMayCauseSquash ::=
                    <[tid := numInstThatMayCauseSquash r tid - numClearedMaySquashOthers]> |>
           else r in
  '(n, w) ← markFollowingInstructionsAsSafe (instList r tid) maxInstructionsToWakeup w;
  Ok (n, r, w).

(** ** Insertion *)
(** [eldestAge] is [lsq.getEldestBranchPrequisiteAge(tid)]. *)
Definition ShouldEnterRunaheadMode (tid : nat) (eldestAge : Z) r : bool :=
  (CD_Runahead_ifMoreThanNBranches fl
   && (runaheadROBThreshold r <? u32 (numInstThatMayCauseSquash r tid)))
  || (CD_Runahead_ifBranchLoadIsStalling fl && (runaheadLoadAgeThreshhold r <? eldestAge)).

(** The [Unsafe] decision of [insertInst]. *)
Definition markIfUnsafe (tid : nat) r (d : DynInst) : DynInst :=
  if 0 <? numInstThatMayCauseSquash r tid then
    if CD_Allow_NonLoads_AfterBranch fl && negb (isLoad d) then d else setUnsafe d
  else if CD_MarkUnsafeIf_LoadtInstruction fl && isLoad d then setUnsafe d
  else d.

Definition markIfRunahead (tid : nat) r (d : DynInst) : DynInst :=
  if inRunaheadMode r tid && isUnsafe d then setRunahead d else d.

(** The bookkeeping of a new instruction that may squash others. *)
Definition noteMaySquash (tid : nat) (eldestAge : Z) (d : DynInst) r : DynInst * ROB :=
  if maySquashOthers d then
    if inRunaheadMode r tid then (clearMaySquashOthers d, r)
    else
      let r := r <| numInstThatMayCauseSquash ::= <[tid := numInstThatMayCauseSquash r tid + 1]> |> in
      if ShouldEnterRunaheadMode tid eldestAge r then
        (setRunahead d, r <| inRunaheadMode ::= <[tid := true]> |>)
      else (d, r)
  else (d, r).

Definition insertInst (p : InstPtr) (eldestAge : Z) r w : res (ROB * World Q) :=
  d ← deref (w_heap w !! p);
  _ ← assert (negb (numInstsInROB r =? numEntries r));
  let tid := threadNumber d in
  let r := r <| instList ::= <[tid := instList r tid ++ [p]]> |> in
  r ← (if numInstsInROB r =? 0 then
         let r := r <| head := hd_error (instList r tid) |> in
         _ ← assert (bool_decide (head r = Some p));
         Ok r
       else Ok r);
  let r := r <| tail := list.last (instList r tid) |> in
  let d := setInROB curCycle d in
  let d := markIfUnsafe tid r d in
  let d := markIfRunahead tid r d in
  let '(d, r) := noteMaySquash tid eldestAge d r in
  let r := r <| numInstsInROB ::= Z.succ |>
             <| threadEntries ::= <[tid := threadEntries r tid + 1]> |> in
  _ ← assert (bool_decide (tail r = Some p));
  Ok (r, w <| w_heap ::= <[p := d]> |>).

(** ** Retirement *)
Definition retireHead (tid : nat) r w : res (ROB * World Q) :=
  _ ← assert (0 <? numInstsInROB r);
  p ← deref (hd_error (instList r tid));
  d ← deref (w_heap w !! p);
  _ ← assert (readyToCommit d);
  let r := r <| numInstsInROB ::= Z.pred |>
             <| threadEntries ::= <[tid := threadEntries r tid - 1]> |> in
  let w := on_inst p (setCommitted ∘ clearInROB) w in
  w ← (if isUnsafe d && negb (isSquashed d) then
         wakeupSafeInstructionDependants p (on_inst p clearUnsafe w)
       else Ok w);
  '(r, w) ← (if maySquashOthers d then
       _ ← panic_if (isSquashed d);
       let r := r <| numInstThatMayCauseSquash ::= <[tid := numInstThatMayCauseSquash r tid - 1]> |> in
       '(_, w) ← markFollowingInstructionsAsSafe [p] 1 (on_inst p clearMaySquashOthers w);
       Ok (r, w)
     else Ok (r, w));
  let r := r <| instList ::= <[tid := List.tl (instList r tid)]> |> in
  r ← updateHead (w_heap w) r;
  Ok (r, w).

(** ** Squash *)
(** Squashing an instruction that may squash others: it no longer counts, and if it
    had initiated runahead mode the mode is left. *)
Definition dropMaySquash (tid : nat) (p : InstPtr) (d : DynInst) (numSquashed : Z) r w
    : res (Z * ROB * World Q) :=
  if maySquashOthers d then
    let w := on_inst p clearMaySquashOthers w in
    if isRunahead d then
      r ← leaveRunaheadMode tid r;
      Ok (numSquashed + 1, r, on_inst p clearRunahead w)
    else Ok (numSquashed + 1, r, w)
  else Ok (numSquashed, r, w).

(** How the squash loop ended: at [begin()], or with [squashIt] at an instruction. *)
Inductive SquashEnd :=
| ReachedBegin
| StoppedAt (p : InstPtr).

(** The loop over the instructions from [squashIt] back to [begin()]: how it ended,
    [robTailUpdate], [numSquashedInstThatMayCauseSquash]. *)
Fixpoint doSquash_loop (tid : nat) (squashInSingleCycle : bool) (its : list InstPtr)
    (numSquashed : Z) (robTailUpdate : bool) (numMay : Z) r w
    : res (SquashEnd * bool * Z * ROB * World Q) :=
  match its with
  | [] => Err NullDeref
  | p :: its' =>
      d ← deref (w_heap w !! p);
      if ((numSquashed <? squashWidth r) || squashInSingleCycle)
         && (squashedSeqNum r tid <? seqNum d)
      then
        let w := on_inst p (setCanCommit ∘ setSquashed) w in
        '(numMay, r, w) ← dropMaySquash tid p d numMay r w;
        match its' with
        | [] => Ok (ReachedBegin, robTailUpdate, numMay, r, w)
        | _ =>
            let robTailUpdate := robTailUpdate || bool_decide (list.last (instList r tid) = Some p) in
            doSquash_loop tid squashInSingleCycle its' (numSquashed + 1) robTailUpdate numMay r w
        end
      else Ok (StoppedAt p, robTailUpdate, numMay, r, w)
  end.

Definition doneAt (tid : nat) r : ROB :=
  r <| squashIt ::= <[tid := None]> |> <| doneSquashing ::= <[tid := true]> |>.

(** "Check if ROB is done squashing": past the loop, with [squashIt] at [p]. *)
Definition checkDone (tid : nat) (p : InstPtr) (numMay : Z) r w : res (Z * ROB * World Q) :=
  d ← deref (w_heap w !! p);
  if seqNum d <=? squashedSeqNum r tid then
    '(numMay, r, w) ← (if (seqNum d =? squashedSeqNum r tid) && maySquashOthers d
                       then dropMaySquash tid p d numMay r w
                       else Ok (numMay, r, w));
    Ok (numMay, doneAt tid r, w)
  else Ok (numMay, r <| squashIt ::= <[tid := Some p]> |>, w).

Definition doSquash (tid : nat) (squashInSingleCycle : bool) r w : res (ROB * World Q) :=
  _ ← assert (bool_decide (is_Some (squashIt r tid)));
  p ← deref (squashIt r tid);
  d ← deref (w_heap w !! p);
  if seqNum d <? squashedSeqNum r tid then Ok (doneAt tid r, w)
  else
    '(e, robTailUpdate, numMay, r, w) ←
      doSquash_loop tid squashInSingleCycle (back_from p (instList r tid)) 0 false 0 r w;
    '(numMay, r, w) ←
      match e with
      | ReachedBegin => Ok (numMay, doneAt tid r, w)
      | StoppedAt p =>
          '(numMay, r, w) ← checkDone tid p numMay r w;
          r ← (if (robTailUpdate : bool) then updateTail (w_heap w) r else Ok r);
          Ok (numMay, r, w)
      end;
    let maxWakeups := if CD_LimitWakeDependandsToWBWidth fl then 0 else getMaxEntries tid r in
    '(_, r, w) ← reduceNumMaySquashOthers tid numMay maxWakeups r w;
    Ok (r, w).

Definition squash (squash_num : Z) (tid : nat) (squashInSingleCycle : bool) r w
    : res (ROB * World Q) :=
  if isEmpty_tid tid r then Ok (r, w)
  else
    let r := r <| robStatus ::= <[tid := ROBSquashing]> |>
               <| doneSquashing ::= <[tid := false]> |>
               <| squashedSeqNum ::= <[tid := squash_num]> |> in
    match list.last (instList r tid) with
    | None => Ok (r, w)
    | Some tail_thread =>
        doSquash tid squashInSingleCycle (r <| squashIt ::= <[tid := Some tail_thread]> |>) w
    end.

End with_iq.
