(* ===== verification/ROBInv.v ===== *)
(** * Visibility of results

    The register half of the reorder-buffer invariant: the destination registers
    of an instruction that must stay hidden are not marked ready in the
    scoreboard ([hidden]).  It is stable because the instructions in flight write
    different registers ([separate]); the lemmas say which changes of the heap
    and which wakeups keep it. *)

From S2P Require Import Prelude Regs DynInst Scoreboard IQInterface ROB.
Local Open Scope Z_scope.

(** An instruction whose result may not be seen yet: unsafe, not squashed, not
    running ahead (whose outputs are zeroed) and not a branch. *)
Definition concealed (d : DynInst) : bool :=
  isUnsafe d && negb (isSquashed d) && negb (isRunahead d) && negb (isControl d).

Section regs.
Context (L : InstPtr → Prop).

Definition hidden (h : heap) (sb : Scoreboard) : Prop :=
  ∀ q d r, L q → h !! q = Some d → concealed d = true → r ∈ renamedDests d → tracked r →
    ready_bit sb r ≠ Some true.

(** Two instructions that are not squashed have no tracked destination in common. *)
Definition separate (h : heap) : Prop :=
  ∀ p q d e r r', L p → L q → p ≠ q → h !! p = Some d → h !! q = Some e →
    isSquashed d = false → isSquashed e = false →
    r ∈ renamedDests d → r' ∈ renamedDests e → isFixedMapping r = false → tracked r' →
    flatIndex r ≠ flatIndex r'.

Definition valid_dests (h : heap) : Prop :=
  ∀ q d r, L q → h !! q = Some d → r ∈ renamedDests d → 0 ≤ flatIndex r.

Record regs_ok (h : heap) (sb : Scoreboard) : Prop := {
  regs_hidden : hidden h sb;
  regs_separate : separate h;
  regs_valid : valid_dests h;
  regs_wf : sb_wf sb;
}.
End regs.

(** Changes that reveal nothing: the squashed stay squashed and nothing becomes
    concealed. *)
Definition calm (_ : InstPtr) (d d' : DynInst) : Prop :=
  core d' = core d ∧ (isSquashed d = true → isSquashed d' = true)
  ∧ (concealed d' = true → concealed d = true).

Lemma core_dests (d d' : DynInst) : core d' = core d → renamedDests d' = renamedDests d.
Proof.
  intros E. unfold renamedDests, numDestRegs.
  by rewrite (f_equal staticInst E : staticInst d' = staticInst d),
    (f_equal destRegIdx_ E : destRegIdx_ d' = destRegIdx_ d).
Qed.

Lemma regs_calm (L : InstPtr → Prop) (h h' : heap) (sb : Scoreboard) :
  hrel calm h h' → regs_ok L h sb → regs_ok L h' sb.
Proof.
  intros Hrel [Hh Hs Hv Hwf]. split; [| | |done].
  - intros q d' r Hq E' Hc Hr Ht.
    destruct (hrel_lookup_r _ _ _ _ _ Hrel E') as (d & E & Hcore & _ & Hcon).
    rewrite (core_dests _ _ Hcore) in Hr. eauto.
  - intros p q d' e' r r' Hp Hq Hne Ed Ee Hsd Hse Hr Hr'.
    destruct (hrel_lookup_r _ _ _ _ _ Hrel Ed) as (d & E & Hcore & Hsq & _).
    destruct (hrel_lookup_r _ _ _ _ _ Hrel Ee) as (e & E2 & Hcore2 & Hsq2 & _).
    rewrite (core_dests _ _ Hcore) in Hr. rewrite (core_dests _ _ Hcore2) in Hr'.
    eapply (Hs p q d e); eauto.
    + destruct (isSquashed d); [rewrite Hsq in Hsd|]; done.
    + destruct (isSquashed e); [rewrite Hsq2 in Hse|]; done.
  - intros q d' r Hq E' Hr.
    destruct (hrel_lookup_r _ _ _ _ _ Hrel E') as (d & E & Hcore & _).
    rewrite (core_dests _ _ Hcore) in Hr. eauto.
Qed.

Lemma regs_sub (L L' : InstPtr → Prop) (h : heap) (sb : Scoreboard) :
  (∀ p, L' p → L p) → regs_ok L h sb → regs_ok L' h sb.
Proof.
  intros HL [Hh Hs Hv Hwf]. split; [| | |done].
  - intros q d r Hq. eauto.
  - intros p q d e r r' Hp Hq. eauto.
  - intros q d r Hq. eauto.
Qed.

(** Publishing the result of an instruction that need not be concealed. *)
Lemma regs_publish (L : InstPtr → Prop) (h : heap) (sb sb' : Scoreboard) (p : InstPtr) (d : DynInst) :
  regs_ok L h sb → L p → h !! p = Some d → isSquashed d = false → concealed d = false →
  setRegs sb (renamedDests d) = Ok sb' → regs_ok L h sb'.
Proof.
  intros [Hh Hs Hv Hwf] Hp Hd Hsq Hc Hset. split; [|done|done|by eapply setRegs_wf].
  intros q e r Hq He Hce Hr Ht.
  destruct (decide (p = q)) as [<-|Hne]; [congruence|].
  rewrite (setRegs_other _ _ _ r Hset); [eauto| |].
  - eapply (Hv q e r); eauto.
  - intros r0 Hr0 Hf. eapply (Hs p q d e r0 r); eauto.
    unfold concealed in Hce. by destruct (isSquashed e), (isUnsafe e).
Qed.

(** A new instruction with registers of its own, none of them ready. *)
Lemma regs_add (L : InstPtr → Prop) (h : heap) (sb : Scoreboard) (p : InstPtr) (d : DynInst) :
  regs_ok L h sb → ¬ L p →
  (∀ x, x ∈ renamedDests d → 0 ≤ flatIndex x ∧ (tracked x → ready_bit sb x ≠ Some true)) →
  (∀ q e x y, L q → h !! q = Some e → isSquashed e = false →
     x ∈ renamedDests d → y ∈ renamedDests e →
     isFixedMapping x = false → isFixedMapping y = false → tracked x ∨ tracked y →
     flatIndex x ≠ flatIndex y) →
  regs_ok (λ q, L q ∨ q = p) (<[p := d]> h) sb.
Proof.
  intros [Hh Hs Hv Hwf] Hp Hd Hsep. split; [| | |done].
  - intros q e r Hq He. rewrite lookup_insert in He. case_decide; simplify_eq; [naive_solver|].
    destruct Hq as [Hq|Hq]; [by apply (Hh q)|congruence].
  - intros p1 q d1 e1 r r' Hp1 Hq Hne E1 E2. rewrite lookup_insert in E1, E2.
    repeat case_decide; simplify_eq; try done; intros Hs1 Hs2 Hr Hr' Hf Ht.
    + destruct Hp1 as [Hp1|Hp1]; [|congruence]. intros E. symmetry in E. revert E.
      apply (Hsep p1 d1 r' r); auto. apply Ht.
    + destruct Hq as [Hq|Hq]; [|congruence]. apply (Hsep q e1 r r'); auto. apply Ht.
    + destruct Hp1 as [Hp1|Hp1]; [|congruence]. destruct Hq as [Hq|Hq]; [|congruence].
      by apply (Hs p1 q d1 e1 r r').
  - intros q e r Hq He. rewrite lookup_insert in He. case_decide; simplify_eq; [naive_solver|].
    destruct Hq as [Hq|Hq]; [by apply (Hv q)|congruence].
Qed.

Lemma changed_calm (ss : list Status) (p : InstPtr) (d d' : DynInst) :
  changed ss d d' → Squashed ∉ ss → Unsafe ∉ ss → Runahead ∉ ss → calm p d d'.
Proof.
  intros Hc H1 H2 H3. unfold calm, concealed, isSquashed, isUnsafe, isRunahead.
  rewrite (changed_isControl _ _ _ Hc).
  rewrite !(changed_get _ _ _ _ Hc) by done. split; [apply Hc|done].
Qed.

Section wake.
Context {Q : Type} `{InstQueueLaws Q} (fl : DebugFlags) (curCycle : Z).
Implicit Types (w : World Q).

Lemma wakeup_spec (p : InstPtr) w w' :
  wakeupSafeInstructionDependants fl curCycle p w = Ok w' →
  w_heap w' ≈ w_heap w ∧
  ∃ d, w_heap w !! p = Some d ∧ isSquashed d = false
       ∧ setRegs (w_sb w) (renamedDests d) = Ok (w_sb w').
Proof.
  unfold wakeupSafeInstructionDependants. intros Hw. res_simp. cbn.
  match goal with E : wakeDependents _ _ _ _ _ = Ok _ |- _ =>
    pose proof (wakeDependents_frame _ _ _ _ _ _ _ _ E) as Hf;
    destruct (wakeDependents_not_squashed _ _ _ _ _ _ E) as (d & Hd & Hsq) end.
  split; [done|]. exists d. split; [done|]. split; [done|].
  destruct (hrel_lookup _ _ _ _ _ (hrel_equiv _ _ Hf) Hd) as (d' & Hd' & Hc).
  simplify_eq. by rewrite <- (core_dests _ _ (proj1 Hc)).
Qed.

Lemma wakeup_calm (p : InstPtr) w w' :
  wakeupSafeInstructionDependants fl curCycle p w = Ok w' →
  hrel (λ _, changed []) (w_heap w) (w_heap w').
Proof. intros [Hw _]%wakeup_spec. by apply hrel_equiv. Qed.

(** Waking the dependents of a visible instruction keeps everything hidden hidden. *)
Lemma wakeup_regs (L : InstPtr → Prop) (p : InstPtr) (d : DynInst) w w' :
  regs_ok L (w_heap w) (w_sb w) → L p → w_heap w !! p = Some d → concealed d = false →
  wakeupSafeInstructionDependants fl curCycle p w = Ok w' →
  regs_ok L (w_heap w') (w_sb w').
Proof.
  intros Hok Hp Hd Hc (Hf & d0 & Hd0 & Hsq & Hset)%wakeup_spec. simplify_eq.
  eapply regs_calm; [|eapply regs_publish; eauto].
  eapply hrel_mono; [|by apply hrel_equiv]. intros q e e' _ He.
  eapply changed_calm; [exact He|set_solver..].
Qed.
End wake.

(** * Reorder-buffer invariant

    What the NDA additions to the reorder buffer maintain, per thread: the
    counter of unresolved branches is exact, every instruction behind an
    unresolved branch is marked unsafe, and a branch that started runahead mode is in
    flight only while the mode is on, and is the only one; and across threads, that nothing
    concealed is visible ([hidden]).  The lemmas of this file give the effect
    of each list walk; [ROBOps.v] puts them together per operation. *)
Local Open Scope Z_scope.

Abbreviation may_at := (st_at MaySquashOthers) (only parsing).

(** Exempt from the unsafe marking. *)
Definition exempt (fl : DebugFlags) (d : DynInst) : bool :=
  CD_Allow_NonLoads_AfterBranch fl && negb (isLoad d).
(** In the secure-memory mode execution clears [Unsafe] of what it finds harmless. *)
Definition protected (fl : DebugFlags) (h : heap) (p : InstPtr) : bool :=
  match h !! p with Some d => isUnsafe d || exempt fl d || SS_DefendMemRegion fl | None => false end.

(** Everything behind an instruction that may squash others is protected. *)
Fixpoint guarded (fl : DebugFlags) (h : heap) (l : list InstPtr) : Prop :=
  match l with
  | [] => True
  | p :: l' => (may_at h p = true → ∀ q, q ∈ l' → protected fl h q = true) ∧ guarded fl h l'
  end.

Fixpoint seq_sorted (h : heap) (l : list InstPtr) : Prop :=
  match l with
  | [] => True
  | p :: l' => (∀ q, q ∈ l' → seq_at h p < seq_at h q) ∧ seq_sorted h l'
  end.

(** The branch that started runahead mode carries both flags. *)
Definition initiator (h : heap) (p : InstPtr) : bool := may_at h p && st_at Runahead h p.

Record thread_ok (fl : DebugFlags) (h : heap) (tid : nat) (l : list InstPtr)
    (nMay pend : Z) (run : bool) : Prop := {
  th_live : ∀ p, p ∈ l → ∃ d, h !! p = Some d ∧ threadNumber d = tid;
  th_sorted : seq_sorted h l;
  th_count : nMay = Z.of_nat (countb (may_at h) l) + pend;
  th_pend : 0 ≤ pend;
  th_guarded : guarded fl h l;
  th_runahead : (countb (initiator h) l ≤ Nat.b2n run)%nat;
  th_control : ∀ p d, p ∈ l → h !! p = Some d → maySquashOthers d = true → isControl d = true;
  th_squashed : ∀ p d, p ∈ l → h !! p = Some d → isSquashed d = true → maySquashOthers d = false;
}.

(** ** Accessors *)
Lemma st_at_lookup (s : Status) (h : heap) (p : InstPtr) (d : DynInst) :
  h !! p = Some d → st_at s h p = get_st s d.
Proof. intros E. unfold st_at. by rewrite E. Qed.
Lemma seq_at_lookup (h : heap) (p : InstPtr) (d : DynInst) : h !! p = Some d → seq_at h p = seqNum d.
Proof. intros E. unfold seq_at. by rewrite E. Qed.

Lemma seq_sorted_NoDup (h : heap) (l : list InstPtr) : seq_sorted h l → NoDup l.
Proof.
  induction l as [|p l IH]; intros Hs; constructor.
  - destruct Hs as [Hs _]. intros Hp. specialize (Hs p Hp). lia.
  - by apply IH, Hs.
Qed.

Lemma seq_sorted_app (h : heap) (l1 l2 : list InstPtr) :
  seq_sorted h (l1 ++ l2) ↔
  seq_sorted h l1 ∧ seq_sorted h l2 ∧ ∀ p q, p ∈ l1 → q ∈ l2 → seq_at h p < seq_at h q.
Proof.
  induction l1 as [|x l1 IH]; cbn; [set_solver|]. rewrite IH. setoid_rewrite elem_of_app.
  setoid_rewrite elem_of_cons. naive_solver.
Qed.

Lemma seq_sorted_ext (h h' : heap) (l : list InstPtr) :
  (∀ p, p ∈ l → seq_at h' p = seq_at h p) → seq_sorted h l → seq_sorted h' l.
Proof.
  induction l as [|p l IH]; cbn; [done|]. intros E [H1 H2]. split.
  - intros q Hq. rewrite !E by set_solver. auto.
  - apply IH; [|done]. set_solver.
Qed.

Lemma guarded_app (fl : DebugFlags) (h : heap) (l1 l2 : list InstPtr) :
  guarded fl h (l1 ++ l2) ↔
  guarded fl h l1 ∧ guarded fl h l2 ∧
  ∀ p q, p ∈ l1 → may_at h p = true → q ∈ l2 → protected fl h q = true.
Proof.
  induction l1 as [|x l1 IH]; cbn; [set_solver|]. rewrite IH. setoid_rewrite elem_of_app.
  setoid_rewrite elem_of_cons. naive_solver.
Qed.

(** [guarded], read off: an older unresolved branch protects everything behind it. *)
Lemma guarded_spec (fl : DebugFlags) (h : heap) (l : list InstPtr) :
  guarded fl h l ↔
  ∀ l1 p l2 q, l = l1 ++ p :: l2 → may_at h p = true → q ∈ l2 → protected fl h q = true.
Proof.
  split.
  - intros Hg l1 p l2 q -> Hm Hq. apply guarded_app in Hg as (_ & [Hg _] & _). auto.
  - induction l as [|x l IH]; intros H; cbn; [done|]. split.
    + intros Hm q Hq. by apply (H [] x l).
    + apply IH. intros l1 p l2 q -> Hm Hq. by apply (H (x :: l1) p l2).
Qed.

(** ** Stability *)
(** Relations under which the invariant of a thread is stable: no flag it reads
    changes. *)
Definition unread : list Status :=
  [IqEntry; RobEntry; Issued; Executing; Executed; WritebackDone; CanCommit; AtCommit;
   Committed; Completed; ResultReady; LsqEntry; SquashedInIQ; BranchPrequisite; SecureSpec;
   SatisfiedFromMemory].
Definition quiet (_ : InstPtr) (d d' : DynInst) : Prop := changed unread d d'.

Lemma changed_nil_quiet (p : InstPtr) (d d' : DynInst) : changed [] d d' → quiet p d d'.
Proof. apply changed_mono. set_solver. Qed.

Lemma thread_ok_changed (fl : DebugFlags) (h h' : heap) (tid : nat) (l : list InstPtr)
    (nMay pend : Z) (run : bool) :
  hrel (λ p d d', p ∈ l → changed (Unsafe :: unread) d d') h h' →
  (∀ p, p ∈ l → protected fl h p = true → protected fl h' p = true) →
  thread_ok fl h tid l nMay pend run → thread_ok fl h' tid l nMay pend run.
Proof.
  intros Hq Hpr [Hl Hso Hc Hp Hg Hr Hct Hsq]. unfold unread in Hq.
  assert (Hst : ∀ s p, s ∈ [MaySquashOthers; Runahead] → p ∈ l → st_at s h' p = st_at s h p).
  { intros s p Hs Hin. eapply st_at_hrel; [exact Hq|]. intros d d' _ Hd.
    eapply changed_get; [by apply Hd|..]; set_unfold in Hs; destruct Hs as [->|[->|[]]]; set_solver. }
  split; auto.
  - intros p Hin. destruct (Hl p Hin) as (d & Hd & Ht).
    destruct (hrel_lookup _ _ _ _ _ Hq Hd) as (d' & Hd' & Hc'). exists d'. split; [done|].
    by rewrite (changed_threadNumber _ _ _ (Hc' Hin)).
  - eapply seq_sorted_ext; [|exact Hso]. intros p Hin. eapply seq_at_hrel; [exact Hq|].
    intros d d' Hd. by eapply changed_seqNum, Hd.
  - rewrite Hc. do 2 f_equal. apply countb_ext. intros p Hin. symmetry. apply Hst; set_solver.
  - revert Hg Hst Hpr. clear. induction l as [|x l IH]; cbn; [done|].
    intros [H1 H2] Hst Hpr. split.
    + intros Hm q Hin. rewrite Hst in Hm by set_solver. apply Hpr; [set_solver|]. auto.
    + apply IH; [done|..]; set_solver.
  - rewrite (countb_ext _ (initiator h)); [done|]. intros p Hin. unfold initiator.
    by rewrite !Hst by set_solver.
  - intros p d' Hin E' Hm. destruct (hrel_lookup_r _ _ _ _ _ Hq E') as (d & E & Hd).
    specialize (Hd Hin). rewrite (changed_isControl _ _ _ Hd). apply (Hct p d Hin E).
    unfold maySquashOthers in *. by rewrite (changed_get _ _ _ _ Hd) in Hm by set_solver.
  - intros p d' Hin E' Hs. destruct (hrel_lookup_r _ _ _ _ _ Hq E') as (d & E & Hd).
    specialize (Hd Hin). unfold maySquashOthers, isSquashed in *.
    rewrite (changed_get Squashed _ _ _ Hd) in Hs by set_solver.
    rewrite (changed_get MaySquashOthers _ _ _ Hd) by set_solver. by apply (Hsq p d Hin E).
Qed.

Lemma thread_ok_ext (fl : DebugFlags) (h h' : heap) (tid : nat) (l : list InstPtr)
    (nMay pend : Z) (run : bool) :
  hrel (λ p d d', p ∈ l → quiet p d d') h h' →
  thread_ok fl h tid l nMay pend run → thread_ok fl h' tid l nMay pend run.
Proof.
  intros Hq. apply thread_ok_changed.
  - eapply hrel_mono; [|exact Hq]. intros p d d' _ Hd Hin. eapply changed_mono; [|by apply Hd]. set_solver.
  - intros p Hin. unfold protected. specialize (Hq p).
    destruct (h !! p) eqn:E; inversion Hq as [? d' Hd E1 E2|]; [|done].
    specialize (Hd Hin). unfold exempt, isUnsafe. rewrite (changed_isLoad _ _ _ Hd).
    by rewrite (changed_get _ _ _ _ Hd) by (unfold unread; set_solver).
Qed.

(** ** The walk that makes instructions safe *)
(** [q] is reached by a walk over [its] that stops at the first unresolved branch. *)
Definition reachable (h : heap) (its : list InstPtr) (q : InstPtr) : Prop :=
  ∃ l1 l2, its = l1 ++ q :: l2 ∧ ∀ p, p ∈ l1 → may_at h p = false.

Definition madeSafe (P : InstPtr → Prop) (q : InstPtr) (d d' : DynInst) : Prop :=
  changed [Unsafe] d d' ∧
  (isUnsafe d' = isUnsafe d ∨
   (isUnsafe d = true ∧ isUnsafe d' = false ∧ isSquashed d = false ∧ P q)).

Lemma madeSafe_refl (P : InstPtr → Prop) (q : InstPtr) (d : DynInst) : madeSafe P q d d.
Proof. split; [done|by left]. Qed.

Lemma madeSafe_mono (P P' : InstPtr → Prop) (q : InstPtr) (d d' : DynInst) :
  (P q → P' q) → madeSafe P q d d' → madeSafe P' q d d'.
Proof. intros HP [Hc [H|H]]; split; [done|auto|done|]. right. naive_solver. Qed.

Lemma madeSafe_trans (P : InstPtr → Prop) (q : InstPtr) (d1 d2 d3 : DynInst) :
  madeSafe P q d1 d2 → madeSafe P q d2 d3 → madeSafe P q d1 d3.
Proof.
  intros [C1 H1] [C2 H2]. split; [by eapply changed_trans|].
  assert (isSquashed d2 = isSquashed d1) as E by (eapply changed_get; [done|set_solver..]).
  rewrite E in H2. naive_solver congruence.
Qed.

Lemma madeSafe_flag (s : Status) (P : InstPtr → Prop) (q : InstPtr) (d d' : DynInst) :
  madeSafe P q d d' → s ≠ Unsafe → s ≠ CanIssue → get_st s d' = get_st s d.
Proof. intros [Hc _] ??. eapply changed_get; [done|set_solver|done]. Qed.

Lemma madeSafe_calm (P : InstPtr → Prop) (q : InstPtr) (d d' : DynInst) : madeSafe P q d d' → calm q d d'.
Proof.
  intros Hm. pose proof (proj1 Hm) as Hc. unfold calm, concealed, isSquashed, isRunahead.
  rewrite (changed_isControl _ _ _ Hc).
  rewrite (madeSafe_flag Squashed _ _ _ _ Hm), (madeSafe_flag Runahead _ _ _ _ Hm) by done.
  split; [apply Hc|]. split; [done|]. destruct Hm as [_ [->|(-> & -> & _)]]; done.
Qed.

(** Off the walk nothing changes. *)
Lemma madeSafe_off (P : InstPtr → Prop) (q : InstPtr) (d d' : DynInst) :
  madeSafe P q d d' → ¬ P q → changed [] d d'.
Proof.
  intros [[E Hs] [Hu|(_ & _ & _ & HP)]] Hn; [|done]. split; [done|]. intros s _ Hci.
  destruct (decide (s = Unsafe)) as [->|Hne]; [done|]. apply Hs; set_solver.
Qed.

Lemma thread_ok_madeSafe (fl : DebugFlags) (h h' : heap) (tid : nat) (l : list InstPtr)
    (nMay pend : Z) (run : bool) :
  hrel (madeSafe (reachable h l)) h h' →
  thread_ok fl h tid l nMay pend run → thread_ok fl h' tid l nMay pend run.
Proof.
  intros Hrel [Hl Hso Hc Hp Hg Hr Hct Hsq].
  assert (Hst : ∀ s p, s ≠ Unsafe → s ≠ CanIssue → st_at s h' p = st_at s h p).
  { intros s p ??. eapply st_at_hrel; [exact Hrel|]. intros d d' _ Hd. by eapply madeSafe_flag. }
  split; auto.
  - intros p Hin. destruct (Hl p Hin) as (d & Hd & Ht).
    destruct (hrel_lookup _ _ _ _ _ Hrel Hd) as (d' & Hd' & Hc' & _). exists d'. split; [done|].
    by rewrite (changed_threadNumber _ _ _ Hc').
  - eapply seq_sorted_ext; [|exact Hso]. intros p Hin. eapply seq_at_hrel; [exact Hrel|].
    intros d d' [Hd _]. by eapply changed_seqNum.
  - rewrite Hc. do 2 f_equal. apply countb_ext. intros p Hin. by rewrite Hst.
  - apply guarded_spec. intros l1 p l2 q E Hm Hq. rewrite Hst in Hm by done.
    pose proof (proj1 (guarded_spec _ _ _) Hg l1 p l2 q E Hm Hq) as Hpr.
    unfold protected in *. specialize (Hrel q). destruct (h !! q) as [d|] eqn:Ed; [|done].
    inversion Hrel as [? d' [Hcd [Hu|(_ & _ & _ & (k1 & k2 & Ek & Hk))]]|]; subst.
    + unfold exempt. by rewrite Hu, (changed_isLoad _ _ _ Hcd).
    + apply list_elem_of_split in Hq as (m1 & m2 & ->).
      apply seq_sorted_NoDup in Hso. rewrite app_comm_cons, app_assoc in Ek, Hso.
      apply NoDup_split in Ek as [<- _]; [|done]. rewrite Hk in Hm by set_solver. done.
  - rewrite (countb_ext _ (initiator h)); [done|]. intros p Hin. unfold initiator. by rewrite !Hst.
  - intros p d' Hin E' Hm. destruct (hrel_lookup_r _ _ _ _ _ Hrel E') as (d & E & Hd).
    rewrite (changed_isControl _ _ _ (proj1 Hd)). apply (Hct p d Hin E).
    unfold maySquashOthers in *. by rewrite (madeSafe_flag _ _ _ _ _ Hd) in Hm.
  - intros p d' Hin E' Hs. destruct (hrel_lookup_r _ _ _ _ _ Hrel E') as (d & E & Hd).
    unfold maySquashOthers, isSquashed in *.
    rewrite (madeSafe_flag Squashed _ _ _ _ Hd) in Hs by done.
    rewrite (madeSafe_flag MaySquashOthers _ _ _ _ Hd) by done. by apply (Hsq p d Hin E).
Qed.

Section walk.
Context {Q : Type} `{InstQueueLaws Q} (fl : DebugFlags) (curCycle : Z).
Implicit Types (w : World Q).

(** One instruction of the walk. *)
Lemma markOne_spec (p : InstPtr) (n n' : Z) w w' :
  markOneAsSafe fl curCycle p n w = Ok (n', w') →
  hrel (madeSafe (λ q, q = p)) (w_heap w) (w_heap w').
Proof.
  unfold markOneAsSafe. intros Hm. res_simp. rename x into d.
  match type of Hm with (if ?b then _ else _) = _ => destruct b eqn:Hb end; res_simp;
    [|apply hrel_refl; intros; apply madeSafe_refl].
  rewrite !andb_true_iff, !negb_true_iff in Hb. destruct Hb as [[Hsq Hu] _].
  assert (Ha : hrel (madeSafe (λ q, q = p)) (w_heap w) (w_heap (on_inst p clearUnsafe w))).
  { apply hrel_alter; [intros; apply madeSafe_refl|]. intros d0 Hd0. simplify_eq.
    split; [apply changed_st_reset|]. right. split_and!; auto. apply get_st_reset_eq. }
  destruct (isWritebackDone d); res_simp; [|done].
  eapply hrel_trans; [|exact Ha|by eapply wakeup_calm].
  intros q d1 d2 d3 _ Hw1 Hw2. eapply madeSafe_trans; [exact Hw1|]. split.
  - eapply changed_mono; [|exact Hw2]. set_solver.
  - left. eapply changed_get; [exact Hw2|set_solver..].
Qed.

Lemma markFollowing_spec (mx : Z) (its : list InstPtr) (n n' : Z) w w' :
  markFollowing_loop fl curCycle mx its n w = Ok (n', w') →
  hrel (madeSafe (reachable (w_heap w) its)) (w_heap w) (w_heap w').
Proof.
  revert n w; induction its as [|p its IH]; intros n w Hm; cbn in Hm.
  { res_simp. apply hrel_refl. intros; apply madeSafe_refl. }
  destruct (n <? mx); res_simp; [|apply hrel_refl; intros; apply madeSafe_refl].
  match goal with E : markOneAsSafe _ _ _ _ _ = _, E' : _ !! p = Some ?x |- _ =>
    apply markOne_spec in E as Hw1; rename E' into Hd; rename x into d end.
  assert (Hw1x : hrel (madeSafe (reachable (w_heap w) (p :: its))) (w_heap w) (w_heap w0)).
  { eapply hrel_mono; [|exact Hw1]. intros q d1 d2 _. apply madeSafe_mono. intros ->.
    exists [], its. set_solver. }
  destruct (maySquashOthers d) eqn:Hmay; res_simp; [done|].
  eapply hrel_trans; [|exact Hw1x|by eapply IH].
  intros q d1 d2 d3 _ Hq1 Hq2. eapply madeSafe_trans; [exact Hq1|].
  eapply madeSafe_mono; [|exact Hq2]. intros (l1 & l2 & -> & Hl).
  exists (p :: l1), l2. split; [done|]. intros x [->|Hx]%elem_of_cons.
  - assert (may_at (w_heap w0) p = false) as <- by (by rewrite (st_at_lookup _ _ _ _ Hd)).
    symmetry. eapply st_at_hrel; [exact Hw1|]. intros ?? _ Hs. by eapply madeSafe_flag.
  - rewrite <- (Hl x Hx). symmetry. eapply st_at_hrel; [exact Hw1|].
    intros ?? _ Hs. by eapply madeSafe_flag.
Qed.

(** The walk reveals only what it made safe. *)
Lemma markOne_regs (L : InstPtr → Prop) (p : InstPtr) (n n' : Z) w w' :
  regs_ok L (w_heap w) (w_sb w) → L p →
  markOneAsSafe fl curCycle p n w = Ok (n', w') → regs_ok L (w_heap w') (w_sb w').
Proof.
  intros Hok Hp. unfold markOneAsSafe. intros Hm. res_simp. rename x into d.
  match type of Hm with (if ?b then _ else _) = _ => destruct b eqn:Hb end; res_simp; [|done].
  rewrite !andb_true_iff, !negb_true_iff in Hb. destruct Hb as [[Hsq Hu] _].
  assert (Ha : regs_ok L (w_heap (on_inst p clearUnsafe w)) (w_sb w)).
  { eapply regs_calm; [|exact Hok]. apply hrel_alter; [intros; apply (madeSafe_calm (λ _, True)), madeSafe_refl|].
    intros d0 Hd0. simplify_eq. apply (madeSafe_calm (λ _, True)).
    split; [apply changed_st_reset|]. right. split_and!; auto. apply get_st_reset_eq. }
  destruct (isWritebackDone d); res_simp; [|done].
  eapply wakeup_regs; [exact Ha|exact Hp| | |done].
  - cbn. rewrite lookup_alter_eq. match goal with E : _ !! p = _ |- _ => rewrite E end. done.
  - unfold concealed, isUnsafe, clearUnsafe. by rewrite get_st_reset_eq.
Qed.

Lemma markFollowing_regs (L : InstPtr → Prop) (mx : Z) (its : list InstPtr) (n n' : Z) w w' :
  regs_ok L (w_heap w) (w_sb w) → (∀ p, p ∈ its → L p) →
  markFollowing_loop fl curCycle mx its n w = Ok (n', w') → regs_ok L (w_heap w') (w_sb w').
Proof.
  revert n w; induction its as [|p its IH]; intros n w Hok HL Hm; cbn in Hm; [by res_simp|].
  destruct (n <? mx); res_simp; [|done].
  match goal with E : markOneAsSafe _ _ _ _ _ = _ |- _ =>
    apply (markOne_regs L) in E; [|done|set_solver] end.
  destruct (maySquashOthers _); res_simp; [done|]. eapply IH; [done|set_solver|done].
Qed.
End walk.

(** ** Updating one instruction *)
Lemma alter_Some (f : DynInst → DynInst) (p : InstPtr) (h : heap) (d : DynInst) :
  h !! p = Some d → alter f p h = <[p := f d]> h.
Proof. intros E. apply map_eq. intros q. rewrite lookup_alter, lookup_insert.
  case_decide; [by subst; rewrite E|done]. Qed.

Lemma st_at_insert (s : Status) (h : heap) (p q : InstPtr) (d : DynInst) :
  st_at s (<[p := d]> h) q = if decide (p = q) then get_st s d else st_at s h q.
Proof. unfold st_at. rewrite lookup_insert. by case_decide. Qed.

(** The flags a resolution or a squash may change. *)
Definition resolving : list Status := [Squashed; CanCommit; MaySquashOthers; Runahead; Executed].
Definition init_inst (d : DynInst) : bool := maySquashOthers d && isRunahead d.

(** A branch stops counting: the counter of the code is now ahead by one more. *)
Lemma thread_ok_update (fl : DebugFlags) (h : heap) (tid : nat) (l : list InstPtr)
    (nMay pend : Z) (run run' : bool) (p : InstPtr) (d d' : DynInst) :
  thread_ok fl h tid l nMay pend run → p ∈ l → h !! p = Some d →
  changed resolving d d' →
  (maySquashOthers d' = true → maySquashOthers d = true) →
  (isSquashed d' = true → maySquashOthers d' = false) →
  (Nat.b2n run' + Nat.b2n (init_inst d) = Nat.b2n run + Nat.b2n (init_inst d'))%nat →
  thread_ok fl (<[p := d']> h) tid l nMay
    (pend + Z.b2z (maySquashOthers d) - Z.b2z (maySquashOthers d')) run'.
Proof.
  intros [Hl Hso Hc Hp Hg Hr Hct Hsq] Hin E Hch Hm Hs Hrun.
  pose proof (seq_sorted_NoDup _ _ Hso) as Hnd.
  assert (Hprot : ∀ q, protected fl h q = true → protected fl (<[p := d']> h) q = true).
  { intros q. unfold protected. rewrite lookup_insert. case_decide as Hpq; [|done].
    subst q. rewrite E. unfold exempt, isUnsafe. rewrite (changed_isLoad _ _ _ Hch).
    rewrite (changed_get _ _ _ _ Hch) by (unfold resolving; set_solver). done. }
  split.
  - intros q Hq. rewrite lookup_insert. case_decide as Hpq; [|by auto]. subst q. exists d'.
    split; [done|]. rewrite (changed_threadNumber _ _ _ Hch).
    destruct (Hl p Hin) as (? & ? & ?). by simplify_eq.
  - eapply seq_sorted_ext; [|exact Hso]. intros q _. unfold seq_at. rewrite lookup_insert.
    case_decide as Hpq; [|done]. subst q. rewrite E. by eapply changed_seqNum.
  - pose proof (countb_update (may_at h) (may_at (<[p := d']> h)) p l Hnd Hin) as Hcnt.
    rewrite st_at_insert, decide_True, (st_at_lookup _ _ _ _ E) in Hcnt by done.
    assert (∀ y, y ∈ l → y ≠ p → may_at (<[p := d']> h) y = may_at h y) as Hne.
    { intros y _ Hy. by rewrite st_at_insert, decide_False by congruence. }
    specialize (Hcnt Hne). unfold maySquashOthers in *. 
    destruct (get_st MaySquashOthers d), (get_st MaySquashOthers d'); cbn [Nat.b2n Z.b2z] in *; lia.
  - destruct (maySquashOthers d) eqn:E1, (maySquashOthers d') eqn:E2; cbn; lia.
  - apply guarded_spec. intros l1 x l2 q El Hx Hq. apply Hprot.
    eapply (proj1 (guarded_spec _ _ _) Hg l1 x); [done| |done].
    rewrite st_at_insert in Hx. case_decide as Hpx; [|done]. subst x.
    rewrite (st_at_lookup _ _ _ _ E). by apply Hm.
  - pose proof (countb_update (initiator h) (initiator (<[p := d']> h)) p l Hnd Hin) as Hcnt.
    assert (initiator h p = init_inst d) as E1.
    { unfold initiator. by rewrite !(st_at_lookup _ _ _ _ E). }
    assert (initiator (<[p := d']> h) p = init_inst d') as E2.
    { unfold initiator. by rewrite !st_at_insert, !decide_True. }
    rewrite E1, E2 in Hcnt. clear E1 E2.
    assert (∀ y, y ∈ l → y ≠ p → initiator (<[p := d']> h) y = initiator h y) as Hne.
    { intros y _ Hy. unfold initiator. by rewrite !st_at_insert, !decide_False by congruence. }
    specialize (Hcnt Hne). destruct (init_inst d), (init_inst d'); cbn [Nat.b2n] in *; lia.
  - intros q e Hq He Hme. rewrite lookup_insert in He. case_decide; simplify_eq; [|eauto].
    rewrite (changed_isControl _ _ _ Hch). eauto.
  - intros q e Hq He Hse. rewrite lookup_insert in He. case_decide; simplify_eq; eauto.
Qed.

(** An initiator in flight means runahead mode. *)
Lemma thread_ok_initiator (fl : DebugFlags) (h : heap) (tid : nat) (l : list InstPtr)
    (nMay pend : Z) (run : bool) (p : InstPtr) (d : DynInst) :
  thread_ok fl h tid l nMay pend run → p ∈ l → h !! p = Some d → init_inst d = true → run = true.
Proof.
  intros Hok Hin E Hi. destruct run; [done|]. pose proof (th_runahead _ _ _ _ _ _ _ Hok) as Hr.
  apply Nat.le_0_r in Hr.
  apply (proj1 (countb_zero _ _)) with (x := p) in Hr; [|done].
  unfold initiator in Hr. rewrite !(st_at_lookup _ _ _ _ E) in Hr.
  unfold init_inst, maySquashOthers, isRunahead in Hi. congruence.
Qed.

(** ** Growing and shrinking a thread's list *)
Lemma thread_ok_snoc (fl : DebugFlags) (h : heap) (tid : nat) (l : list InstPtr)
    (nMay pend : Z) (run run' : bool) (p : InstPtr) (d : DynInst) :
  thread_ok fl h tid l nMay pend run →
  h !! p = Some d → threadNumber d = tid → (∀ q, q ∈ l → seq_at h q < seqNum d) →
  (0 < nMay → isUnsafe d || exempt fl d = true) →
  (maySquashOthers d = true → isControl d = true) → isSquashed d = false →
  Nat.b2n run' = (Nat.b2n run + Nat.b2n (init_inst d))%nat →
  thread_ok fl h tid (l ++ [p]) (nMay + Z.b2z (maySquashOthers d)) pend run'.
Proof.
  intros [Hl Hso Hc Hp Hg Hr Hct Hsq] E Ht Hseq Hpr Hctl Hns Hrun. split; auto.
  - intros q [Hq|Hq]%elem_of_app; [auto|]. apply list_elem_of_singleton in Hq as ->. eauto.
  - apply seq_sorted_app. split; [done|]. split; [set_solver|]. intros q q' Hq Hq'.
    apply list_elem_of_singleton in Hq' as ->. rewrite (seq_at_lookup _ _ _ E). auto.
  - rewrite countb_app. cbn. rewrite (st_at_lookup _ _ _ _ E). unfold maySquashOthers in *.
    destruct (get_st MaySquashOthers d); cbn [Z.b2z]; lia.
  - apply guarded_app. split; [done|]. split; [set_solver|]. intros q q' Hq Hm Hq'.
    apply list_elem_of_singleton in Hq' as ->. unfold protected. rewrite E, Hpr; [done|].
    assert (0 < countb (may_at h) l)%nat; [|lia]. apply countb_pos. eauto.
  - rewrite countb_app. cbn [countb]. rewrite Hrun. unfold init_inst, maySquashOthers, isRunahead.
    unfold initiator at 2. rewrite !(st_at_lookup _ _ _ _ E). destruct (_ && _); cbn [Nat.b2n]; lia.
  - intros q e [Hq|Hq]%elem_of_app He; [eauto|]. apply list_elem_of_singleton in Hq as ->.
    by simplify_eq.
  - intros q e [Hq|Hq]%elem_of_app He; [eauto|]. apply list_elem_of_singleton in Hq as ->.
    simplify_eq. congruence.
Qed.

Lemma thread_ok_tail (fl : DebugFlags) (h : heap) (tid : nat) (p : InstPtr) (l : list InstPtr)
    (nMay pend : Z) (run : bool) (d : DynInst) :
  thread_ok fl h tid (p :: l) nMay pend run → h !! p = Some d →
  thread_ok fl h tid l (nMay - Z.b2z (maySquashOthers d)) pend run.
Proof.
  intros [Hl Hso Hc Hp Hg Hr Hct Hsq] E. split; auto.
  - set_solver.
  - apply Hso.
  - cbn in Hc. rewrite (st_at_lookup _ _ _ _ E) in Hc. unfold maySquashOthers.
    destruct (get_st MaySquashOthers d); cbn [Z.b2z]; lia.
  - apply Hg.
  - cbn in Hr. destruct (initiator h p); lia.
  - intros q e Hq. apply Hct. by right.
  - intros q e Hq. apply Hsq. by right.
Qed.
