(* ===== verification/ROBOps.v ===== *)
(** * The reorder-buffer operations keep the invariant

    [rob_inv fl pend r w]: the invariant of [ROBInv.v] for every thread, the
    visibility invariant of [ROBInv.v] for the whole buffer, and the exactness of
    the occupancy counters.  [pend tid] is the number of branches of a thread
    that stopped counting but are still included in the thread's counter
    (resolved in this cycle, or dropped by the squash in progress). *)

From S2P Require Import Prelude Regs DynInst Scoreboard IQInterface ROB ROBInv.
Local Open Scope Z_scope.

Definition in_rob (r : ROB) (p : InstPtr) : Prop := ∃ tid, p ∈ instList r tid.

Record rob_inv {Q} (fl : DebugFlags) (pend : nat → Z) (r : ROB) (w : World Q) : Prop := {
  ri_thread : ∀ tid, thread_ok fl (w_heap w) tid (instList r tid)
    (numInstThatMayCauseSquash r tid) (pend tid) (inRunaheadMode r tid);
  ri_regs : regs_ok (in_rob r) (w_heap w) (w_sb w);
  ri_entries : ∀ tid, threadEntries r tid = Z.of_nat (length (instList r tid));
  ri_total : numInstsInROB r = countInsts r;
  ri_tids : ∀ tid, (numThreads r ≤ tid)%nat → instList r tid = [];
}.

(** The buffer is the same but for its squash state and runahead mode. *)
Definition same_rob (r r' : ROB) : Prop :=
  instList r' = instList r ∧ threadEntries r' = threadEntries r
  ∧ numInstsInROB r' = numInstsInROB r ∧ numThreads r' = numThreads r
  ∧ numInstThatMayCauseSquash r' = numInstThatMayCauseSquash r.

#[export] Instance same_rob_refl : Reflexive same_rob.
Proof. by intros r. Qed.
#[export] Instance same_rob_trans : Transitive same_rob.
Proof.
  intros r1 r2 r3 (?&?&?&?&?) (?&?&?&?&?). unfold same_rob. split_and!; congruence.
Qed.

Lemma in_rob_same (r r' : ROB) (p : InstPtr) : same_rob r r' → in_rob r' p ↔ in_rob r p.
Proof. intros (E & _). unfold in_rob. by rewrite E. Qed.

(** ** Occupancy *)
Lemma foldl_sum (f : nat → Z) (z : Z) (l : list nat) :
  foldl (λ total tid, total + f tid) z l = z + foldl (λ total tid, total + f tid) 0 l.
Proof.
  revert z; induction l as [|x l IH]; intros z; cbn; [lia|]. rewrite IH, (IH (0 + f x)). lia.
Qed.

Lemma foldl_sum_update (f g : nat → Z) (tid : nat) (delta : Z) (l : list nat) :
  NoDup l → tid ∈ l → g tid = f tid + delta → (∀ t, t ≠ tid → g t = f t) →
  foldl (λ total tid, total + g tid) 0 l = foldl (λ total tid, total + f tid) 0 l + delta.
Proof.
  intros Hnd Hin Htid Hne. induction Hnd as [|x l Hx Hnd IH]; [by apply not_elem_of_nil in Hin|].
  cbn. rewrite foldl_sum, (foldl_sum f (0 + f x)). apply elem_of_cons in Hin as [Hin|Hin].
  - subst x. assert (foldl (λ total t, total + g t) 0 l = foldl (λ total t, total + f t) 0 l) as ->; [|lia].
    assert (∀ t, t ∈ l → t ≠ tid) as Hl by (intros t Ht ->; done). clear IH Hnd Hx.
    generalize 0. induction l as [|y l IH]; intros z; cbn; [done|].
    rewrite Hne by (apply Hl; left). apply IH. intros t Ht. apply Hl. by right.
  - rewrite IH by done. rewrite (Hne x); [lia|]. intros ->. done.
Qed.

Lemma countInsts_update (r r' : ROB) (tid : nat) (delta : Z) :
  numThreads r' = numThreads r → (tid < numThreads r)%nat →
  Z.of_nat (length (instList r' tid)) = Z.of_nat (length (instList r tid)) + delta →
  (∀ t, t ≠ tid → instList r' t = instList r t) →
  countInsts r' = countInsts r + delta.
Proof.
  intros En Ht Hd Hne. unfold countInsts. rewrite En.
  apply (foldl_sum_update _ _ tid); [apply NoDup_seq|apply elem_of_seq; lia|done|].
  intros t Hn. unfold countInsts_tid. by rewrite Hne.
Qed.

(** ** Frame lemmas *)
Lemma thread_disjoint (fl : DebugFlags) (h : heap) (t t' : nat) (l l' : list InstPtr) n n' k k' b b' p :
  thread_ok fl h t l n k b → thread_ok fl h t' l' n' k' b' → p ∈ l → p ∈ l' → t = t'.
Proof.
  intros H1 H2 Hp Hp'.
  destruct (th_live _ _ _ _ _ _ _ H1 p Hp) as (d & E & <-).
  destruct (th_live _ _ _ _ _ _ _ H2 p Hp') as (d' & E' & <-). congruence.
Qed.

(** Pointwise equality of functions updated at [tid]. *)
Ltac fn_cases tid :=
  let t := fresh "t" in let Hne := fresh "Hne" in
  intros t; destruct (decide (t = tid)) as [->|Hne];
  [rewrite !fn_lookup_insert; lia|rewrite !fn_lookup_insert_ne by done; try done].

Section ops.
Context {Q : Type} `{InstQueueLaws Q} (fl : DebugFlags) (curCycle : Z).
Implicit Types (w : World Q) (r : ROB) (pend : nat → Z).

Lemma rob_inv_ext pend pend' r r' w :
  rob_inv fl pend r w → (∀ t, pend' t = pend t) → same_rob r r' →
  (∀ t, inRunaheadMode r' t = inRunaheadMode r t) → rob_inv fl pend' r' w.
Proof.
  intros [Ht Hr He Hn Hi] Hp (E1 & E2 & E3 & E4 & E5) Hrun. split.
  - intros tid. rewrite Hp, E1, E5, Hrun. apply Ht.
  - eapply regs_sub; [|exact Hr]. intros p. unfold in_rob. by rewrite E1.
  - intros tid. by rewrite E1, E2.
  - rewrite E3, Hn. unfold countInsts, countInsts_tid. by rewrite E1, E4.
  - intros tid. rewrite E4, E1. apply Hi.
Qed.

(** Changing the flags of one instruction of the buffer. *)
Lemma rob_update pend r r' w (p : InstPtr) (d d' : DynInst) (tid : nat) (run' : bool) :
  rob_inv fl pend r w → p ∈ instList r tid → w_heap w !! p = Some d →
  changed resolving d d' → calm p d d' →
  (maySquashOthers d' = true → maySquashOthers d = true) →
  (isSquashed d' = true → maySquashOthers d' = false) →
  (Nat.b2n run' + Nat.b2n (init_inst d) =
   Nat.b2n (inRunaheadMode r tid) + Nat.b2n (init_inst d'))%nat →
  same_rob r r' → inRunaheadMode r' tid = run' →
  (∀ t, t ≠ tid → inRunaheadMode r' t = inRunaheadMode r t) →
  rob_inv fl (<[tid := pend tid + Z.b2z (maySquashOthers d) - Z.b2z (maySquashOthers d')]> pend)
    r' (w <| w_heap ::= <[p := d']> |>).
Proof.
  intros [Ht Hr He Hn Hi] Hp Ed Hch Hcalm Hm Hs Hrun Hsame Hrt Hro.
  pose proof Hsame as (E1 & E2 & E3 & E4 & E5). split.
  - intros t. rewrite E1, E5. cbn [w_heap over_field].
    destruct (decide (t = tid)) as [->|Hne].
    + rewrite fn_lookup_insert, Hrt. eapply thread_ok_update; eauto.
    + rewrite fn_lookup_insert_ne by done. rewrite Hro by done.
      eapply thread_ok_ext; [|apply Ht]. intros q. rewrite lookup_insert.
      case_decide as Hq; [|destruct (w_heap w !! q); constructor; intros; by apply changed_nil_quiet].
      subst q. rewrite Ed. constructor. intros Hq. exfalso.
      apply Hne. eapply thread_disjoint; [apply Ht|apply Ht|exact Hq|exact Hp].
  - eapply regs_sub; [intros q; apply (in_rob_same r r' q Hsame)|].
    eapply regs_calm; [|exact Hr]. cbn. intros q. rewrite lookup_insert. case_decide as Hq.
    + subst q. rewrite Ed. by constructor.
    + destruct (w_heap w !! q); constructor. by unfold calm.
  - intros t. by rewrite E1, E2.
  - rewrite E3, Hn. unfold countInsts, countInsts_tid. by rewrite E1, E4.
  - intros t. rewrite E4, E1. apply Hi.
Qed.

(** ** Making instructions safe *)
Lemma rob_mark pend r w w' (tid : nat) (mx n n' : Z) :
  rob_inv fl pend r w →
  markFollowing_loop fl curCycle mx (instList r tid) n w = Ok (n', w') →
  rob_inv fl pend r w'.
Proof.
  intros [Ht Hr He Hn Hi] Hm. pose proof (markFollowing_spec _ _ _ _ _ _ _ _ Hm) as Hrel.
  split; [|eapply (markFollowing_regs fl curCycle); [exact Hr| |exact Hm]; by exists tid|done..].
  intros t. destruct (decide (t = tid)) as [->|Hne].
  - eapply thread_ok_madeSafe; [exact Hrel|apply Ht].
  - eapply thread_ok_ext; [|apply Ht]. eapply hrel_mono; [|exact Hrel].
    intros q d d' _ Hd Hq. apply changed_nil_quiet. eapply madeSafe_off; [exact Hd|].
    intros (l1 & l2 & El & _). apply Hne.
    eapply thread_disjoint; [apply Ht|apply Ht|exact Hq|]. rewrite El. set_solver.
Qed.

Lemma rob_reduce pend r r' w w' (tid : nat) (k mx n : Z) :
  rob_inv fl pend r w → 0 ≤ k ≤ pend tid →
  reduceNumMaySquashOthers fl curCycle tid k mx r w = Ok (n, r', w') →
  rob_inv fl (<[tid := pend tid - k]> pend) r' w'.
Proof.
  intros Hinv Hk. unfold reduceNumMaySquashOthers, markFollowingInstructionsAsSafe. intros Hm.
  res_simp. match goal with E : markFollowing_loop _ _ _ _ _ _ = _ |- _ => rename E into Hw end.
  assert (rob_inv fl (<[tid := pend tid - k]> pend)
    (if 0 <? k then r <| numInstThatMayCauseSquash ::=
       <[tid := numInstThatMayCauseSquash r tid - k]> |> else r) w) as Hinv'.
  { destruct (Z.ltb_spec 0 k) as [Hlt|Hge].
    - destruct Hinv as [Ht Hr He Hn Hi]. split; try done. intros t. specialize (Ht t). cbn.
      destruct (decide (t = tid)) as [->|Hne].
      + rewrite !fn_lookup_insert. destruct Ht as [? ? Hc ?]. split; try done; lia.
      + by rewrite !fn_lookup_insert_ne.
    - eapply rob_inv_ext; [exact Hinv| |done|done]. intros t. replace k with 0 by lia.
      destruct (decide (t = tid)) as [->|Hne].
      + rewrite fn_lookup_insert. lia.
      + by rewrite fn_lookup_insert_ne. }
  eapply rob_mark; [exact Hinv'|exact Hw].
Qed.

(** ** Insertion *)
(** What rename and dispatch promise of an instruction they send to the buffer:
    younger than the thread's others, not squashed, not yet running ahead, with
    destinations just allocated, hence not ready and nobody else's. *)
Record fresh_inst r w (p : InstPtr) (d : DynInst) : Prop := {
  fr_heap : w_heap w !! p = Some d;
  fr_new : ∀ tid, p ∉ instList r tid;
  fr_tid : (threadNumber d < numThreads r)%nat;
  fr_young : ∀ q, q ∈ instList r (threadNumber d) → seq_at (w_heap w) q < seqNum d;
  fr_squashed : isSquashed d = false;
  fr_runahead : isRunahead d = false;
  fr_control : maySquashOthers d = true → isControl d = true;
  fr_dests : ∀ x, x ∈ renamedDests d →
    0 ≤ flatIndex x ∧ (tracked x → ready_bit (w_sb w) x ≠ Some true);
  fr_separate : ∀ q e x y, in_rob r q → w_heap w !! q = Some e → isSquashed e = false →
    x ∈ renamedDests d → y ∈ renamedDests e →
    isFixedMapping x = false → isFixedMapping y = false → tracked x ∨ tracked y →
    flatIndex x ≠ flatIndex y;
}.

(** The unsafe and runahead marks of a new instruction. *)
Lemma mark_new r (d : DynInst) (tid : nat) :
  isRunahead d = false →
  let d1 := markIfRunahead tid r (markIfUnsafe fl tid r (setInROB curCycle d)) in
  changed [RobEntry; Unsafe; Runahead] (d <| addedToROBTimestamp := curCycle |>) d1
  ∧ (0 < numInstThatMayCauseSquash r tid → isUnsafe d1 || exempt fl d1 = true)
  ∧ (isRunahead d1 = true → inRunaheadMode r tid = true ∧ isUnsafe d1 = true).
Proof.
  intros Hrun d1. set (d0 := d <| addedToROBTimestamp := curCycle |>) in *.
  assert (Hu : ∃ d2, markIfUnsafe fl tid r (setInROB curCycle d) = d2
    ∧ changed [RobEntry; Unsafe] d0 d2
    ∧ (0 < numInstThatMayCauseSquash r tid → isUnsafe d2 || exempt fl d2 = true)).
  { eexists. split; [done|]. unfold markIfUnsafe.
    assert (Hs : changed [RobEntry; Unsafe] d0 (setInROB curCycle d)).
    { eapply changed_mono; [|apply (changed_st_set RobEntry d0)]. set_solver. }
    assert (Hs' : changed [RobEntry; Unsafe] d0 (setUnsafe (setInROB curCycle d))).
    { eapply changed_trans; [exact Hs|]. eapply changed_mono; [|apply changed_st_set]. set_solver. }
    assert (Hu' : isUnsafe (setUnsafe (setInROB curCycle d)) = true) by apply get_st_set_eq.
    unfold exempt. destruct (Z.ltb_spec 0 (numInstThatMayCauseSquash r tid)).
    - destruct (CD_Allow_NonLoads_AfterBranch fl && negb (isLoad (setInROB curCycle d))) eqn:Ex;
        (split; [done|]); intros _; [rewrite Ex; apply orb_true_r|by rewrite Hu'].
    - destruct (CD_MarkUnsafeIf_LoadtInstruction fl && _); (split; [done|lia]). }
  destruct Hu as (d2 & E & Hc & Hp). unfold d1. rewrite E.
  assert (isRunahead d2 = false) as Hr2.
  { rewrite <- Hrun. unfold isRunahead. by rewrite (changed_get _ _ _ _ Hc) by set_solver. }
  unfold markIfRunahead. destruct (inRunaheadMode r tid && isUnsafe d2) eqn:Eb.
  - apply andb_true_iff in Eb as [Eb1 Eb2].
    assert (isUnsafe (setRunahead d2) = true) as Hu2.
    { unfold isUnsafe, setRunahead. by rewrite get_st_set_ne. }
    split; [|split; [by rewrite Hu2|by rewrite Hu2]].
    eapply changed_trans; (eapply changed_mono; [|first [exact Hc|apply changed_st_set]]); set_solver.
  - split; [eapply changed_mono; [|exact Hc]; set_solver|]. split; [done|]. congruence.
Qed.

(** The bookkeeping of the branch counter and of runahead mode. *)
Lemma note_new r r' (d1 d' : DynInst) (tid : nat) (age : Z) :
  (isRunahead d1 = true → inRunaheadMode r tid = true) →
  noteMaySquash fl tid age d1 r = (d', r') →
  changed [Runahead; MaySquashOthers] d1 d'
  ∧ (maySquashOthers d' = true → maySquashOthers d1 = true)
  ∧ numInstThatMayCauseSquash r' tid = numInstThatMayCauseSquash r tid + Z.b2z (maySquashOthers d')
  ∧ Nat.b2n (inRunaheadMode r' tid) = (Nat.b2n (inRunaheadMode r tid) + Nat.b2n (init_inst d'))%nat
  ∧ (∀ t, t ≠ tid → numInstThatMayCauseSquash r' t = numInstThatMayCauseSquash r t
                    ∧ inRunaheadMode r' t = inRunaheadMode r t).
Proof.
  intros Hrun E. unfold noteMaySquash in E.
  destruct (maySquashOthers d1) eqn:Hm; [destruct (inRunaheadMode r tid) eqn:Hr|].
  - simplify_eq. assert (maySquashOthers (clearMaySquashOthers d1) = false) as Hf by apply get_st_reset_eq.
    unfold init_inst. rewrite Hf, Hr. cbn. split_and!; try done; [|lia].
    eapply changed_mono; [|apply changed_st_reset]. set_solver.
  - assert (isRunahead d1 = false) as Hr1 by (destruct (isRunahead d1); [by specialize (Hrun eq_refl)|done]).
    case_match; simplify_eq; unfold init_inst; cbn; rewrite ?fn_lookup_insert.
    + assert (maySquashOthers (setRunahead d1) = true) as -> by (by rewrite <- Hm; apply get_st_set_ne).
      assert (isRunahead (setRunahead d1) = true) as -> by apply get_st_set_eq.
      split_and!; try done; [|intros t Ht; by rewrite !fn_lookup_insert_ne].
      eapply changed_mono; [|apply changed_st_set]. set_solver.
    + rewrite Hm, Hr1, ?Hr. split_and!; try done. intros t Ht. by rewrite fn_lookup_insert_ne.
  - simplify_eq. unfold init_inst. rewrite Hm. cbn. split_and!; try done; try lia.
Qed.

Lemma note_tables r r' (d1 d' : DynInst) (tid : nat) (age : Z) :
  noteMaySquash fl tid age d1 r = (d', r') →
  ∃ n b, r' = r <| numInstThatMayCauseSquash := n |> <| inRunaheadMode := b |>.
Proof.
  unfold noteMaySquash. intros E. repeat case_match; simplify_eq;
    first [by eexists _, _
          |by exists (numInstThatMayCauseSquash r'), (inRunaheadMode r'); destruct r'].
Qed.

(** What [insertInst] does, when its assertions hold. *)
Lemma insertInst_inv r r' w w' (p : InstPtr) (age : Z) :
  insertInst fl curCycle p age r w = Ok (r', w') →
  ∃ d d' n b hd tl, w_heap w !! p = Some d
  ∧ (let tid := threadNumber d in
     let r1 := r <| instList ::= <[tid := instList r tid ++ [p]]> |> <| head := hd |> <| tail := tl |> in
     noteMaySquash fl tid age (markIfRunahead tid r1 (markIfUnsafe fl tid r1 (setInROB curCycle d))) r1
       = (d', r1 <| numInstThatMayCauseSquash := n |> <| inRunaheadMode := b |>)
     ∧ r' = r1 <| numInstThatMayCauseSquash := n |> <| inRunaheadMode := b |>
               <| numInstsInROB ::= Z.succ |> <| threadEntries ::= <[tid := threadEntries r tid + 1]> |>)
  ∧ w' = w <| w_heap ::= <[p := d']> |>.
Proof.
  unfold insertInst. intros Hi. res_simp. rename x into d.
  match goal with E : (if _ then _ else _) = Ok ?x |- _ => rename x into r1; rename E into Eh end.
  assert (∃ hd, r1 = r <| instList ::= <[threadNumber d := instList r (threadNumber d) ++ [p]]> |>
                       <| head := hd |>) as [hd ->].
  { destruct (numInstsInROB _ =? 0); res_simp; eexists; [done|].
    instantiate (1 := head r). by destruct r. }
  match type of Hi with context [noteMaySquash ?a ?b ?c ?x ?y] =>
    destruct (noteMaySquash a b c x y) as [d' r2] eqn:En end.
  destruct (note_tables _ _ _ _ _ _ En) as (n & b & ->). res_simp.
  exists d, d', n, b, hd, (list.last (instList r (threadNumber d) ++ [p])).
  split; [done|]. split; [|done]. cbn in *. rewrite fn_lookup_insert in *. split; [exact En|done].
Qed.

Theorem rob_insert pend r r' w w' (p : InstPtr) (d : DynInst) (age : Z) :
  rob_inv fl pend r w → fresh_inst r w p d →
  insertInst fl curCycle p age r w = Ok (r', w') → rob_inv fl pend r' w'.
Proof.
  intros Hinv Hfr Hi. apply insertInst_inv in Hi as (d0 & d' & n & b & hd & tl & E & [Hn ->] & ->).
  rewrite (fr_heap _ _ _ _ Hfr) in E. injection E as <-.
  set (tid := threadNumber d) in *.
  match type of Hn with noteMaySquash _ _ _ _ ?x = _ => set (r1 := x) in * end.
  destruct (mark_new r1 d tid (fr_runahead _ _ _ _ Hfr)) as (Hc1 & Hp1 & Hr1).
  set (d1 := markIfRunahead tid r1 (markIfUnsafe fl tid r1 (setInROB curCycle d))) in *.
  apply note_new in Hn as (Hc2 & Hm & Hcnt & Hrun & Hother); [|naive_solver].
  assert (Hc : changed [RobEntry; Unsafe; Runahead; MaySquashOthers]
            (d <| addedToROBTimestamp := curCycle |>) d').
  { eapply changed_trans; (eapply changed_mono; [|first [exact Hc1|exact Hc2]]); set_solver. }
  assert (Hd' : renamedDests d' = renamedDests d) by (by rewrite (core_dests _ _ (proj1 Hc))).
  assert (Hsq : isSquashed d' = false).
  { rewrite <- (fr_squashed _ _ _ _ Hfr). unfold isSquashed. by rewrite (changed_get _ _ _ _ Hc) by set_solver. }
  assert (Hl : instList r tid = instList r tid) by done.
  destruct Hinv as [Ht Hr He Hn Hi]. cbn in Hcnt, Hrun, Hother, Hp1.
  assert (Hold : ∀ t, thread_ok fl (<[p := d']> (w_heap w)) t (instList r t)
            (numInstThatMayCauseSquash r t) (pend t) (inRunaheadMode r t)).
  { intros t. eapply thread_ok_ext; [|apply Ht]. intros q. rewrite lookup_insert.
    case_decide as Hq; [|destruct (w_heap w !! q); constructor; intros; by apply changed_nil_quiet].
    subst q. rewrite (fr_heap _ _ _ _ Hfr). constructor. intros Hq. by apply (fr_new _ _ _ _ Hfr) in Hq. }
  split.
  - intros t. cbn. destruct (decide (t = tid)) as [->|Hne].
    + rewrite fn_lookup_insert, Hcnt. eapply thread_ok_snoc; [apply Hold|by rewrite lookup_insert_eq|..].
      * by rewrite (changed_threadNumber _ _ _ Hc).
      * intros q Hq. rewrite (changed_seqNum _ _ _ Hc). unfold seq_at. rewrite lookup_insert_ne.
        -- by apply (fr_young _ _ _ _ Hfr).
        -- intros <-. by apply (fr_new _ _ _ _ Hfr) in Hq.
      * intros Hpos. specialize (Hp1 Hpos). unfold exempt, isUnsafe in *.
        rewrite (changed_isLoad _ _ _ Hc2), (changed_get _ _ _ _ Hc2) by set_solver. done.
      * intros Hm'. rewrite (changed_isControl _ _ _ Hc). apply (fr_control _ _ _ _ Hfr).
        apply Hm in Hm'. rewrite <- Hm'. unfold maySquashOthers. symmetry.
        by rewrite (changed_get _ _ _ _ Hc1) by set_solver.
      * done.
      * done.
    + rewrite !fn_lookup_insert_ne by done. destruct (Hother t Hne) as [-> ->]. apply Hold.
  - eapply regs_sub; [|eapply (regs_add (in_rob r)); [exact Hr|..]].
    + intros q [t Hq]. cbn in Hq. destruct (decide (t = tid)) as [->|Hne].
      * rewrite fn_lookup_insert in Hq. apply elem_of_app in Hq as [Hq|Hq]; [left; by exists tid|].
        right. by apply list_elem_of_singleton in Hq.
      * rewrite fn_lookup_insert_ne in Hq by done. left. by exists t.
    + intros [t Hq]. by apply (fr_new _ _ _ _ Hfr) in Hq.
    + rewrite Hd'. apply (fr_dests _ _ _ _ Hfr).
    + rewrite Hd'. apply (fr_separate _ _ _ _ Hfr).
  - intros t. cbn. destruct (decide (t = tid)) as [->|Hne].
    + rewrite !fn_lookup_insert, length_app, He. cbn. lia.
    + by rewrite !fn_lookup_insert_ne.
  - transitivity (countInsts r + 1); [change (Z.succ (numInstsInROB r) = countInsts r + 1); lia|]. symmetry.
    apply (countInsts_update r _ tid 1); [done|apply (fr_tid _ _ _ _ Hfr)| |].
    + cbn. rewrite fn_lookup_insert, length_app. cbn. lia.
    + intros t Hne. cbn. by rewrite fn_lookup_insert_ne.
  - intros t Hge. cbn in *. pose proof (fr_tid _ _ _ _ Hfr). rewrite fn_lookup_insert_ne by lia. by apply Hi.
Qed.

(** ** Retirement *)
Lemma updateHead_ok (h : heap) r r' : updateHead h r = Ok r' → ∃ hd, r' = r <| head := hd |>.
Proof. unfold updateHead. intros E. res_simp. eauto. Qed.

(** Only [p] itself changes, besides issue state. *)
Definition only (p : InstPtr) (q : InstPtr) (d d' : DynInst) : Prop := q ≠ p → changed [] d d'.

Lemma only_alter (p : InstPtr) (f : DynInst → DynInst) w : hrel (only p) (w_heap w) (w_heap (on_inst p f w)).
Proof. apply hrel_alter; [by intros q d _|]. by intros d _ ?. Qed.
Lemma only_trans (p : InstPtr) (h1 h2 h3 : heap) : hrel (only p) h1 h2 → hrel (only p) h2 h3 → hrel (only p) h1 h3.
Proof.
  apply hrel_trans. intros q d1 d2 d3 _ H1 H2 Hq. eapply changed_trans; [by apply H1|by apply H2].
Qed.
Lemma only_wake (p q : InstPtr) w w' :
  wakeupSafeInstructionDependants fl curCycle q w = Ok w' → hrel (only p) (w_heap w) (w_heap w').
Proof. intros E. eapply hrel_mono; [|by eapply wakeup_calm]. by intros ? d d' _ Hd _. Qed.

Lemma on_inst_regs (L : InstPtr → Prop) (p : InstPtr) (f : DynInst → DynInst) w :
  (∀ d, w_heap w !! p = Some d → calm p d (f d)) →
  regs_ok L (w_heap w) (w_sb w) → regs_ok L (w_heap (on_inst p f w)) (w_sb (on_inst p f w)).
Proof.
  intros Hf. apply regs_calm. apply hrel_alter; [|done]. by intros q d.
Qed.

Lemma calm_clearUnsafe (p : InstPtr) (d : DynInst) : calm p d (clearUnsafe d).
Proof.
  unfold calm, concealed, isUnsafe, isSquashed, clearUnsafe. rewrite get_st_reset_eq.
  rewrite get_st_reset_ne by done. done.
Qed.

(** The unsafe head becomes safe and its dependents are woken. *)
Lemma retire_wake (L : InstPtr → Prop) (p : InstPtr) (d : DynInst) w w' :
  L p → w_heap w !! p = Some d →
  (if isUnsafe d && negb (isSquashed d) then
     wakeupSafeInstructionDependants fl curCycle p (on_inst p clearUnsafe w) else Ok w) = Ok w' →
  regs_ok L (w_heap w) (w_sb w) →
  hrel (only p) (w_heap w) (w_heap w') ∧ regs_ok L (w_heap w') (w_sb w').
Proof.
  intros HL Hd Hw Hok. destruct (isUnsafe d && negb (isSquashed d)); res_simp.
  - split; [eapply only_trans; [apply only_alter|by eapply only_wake]|].
    eapply (wakeup_regs fl curCycle L p (clearUnsafe d)); [|done| | |done].
    + apply on_inst_regs; [|done]. intros ? _. apply calm_clearUnsafe.
    + cbn. by rewrite (alter_Some _ _ _ _ Hd), lookup_insert_eq.
    + unfold concealed, isUnsafe, clearUnsafe. by rewrite get_st_reset_eq.
  - split; [|done]. apply hrel_refl. by intros q e _.
Qed.

(** The head branch stops counting. *)
Lemma retire_branch (L : InstPtr → Prop) (tid : nat) (p : InstPtr) (d : DynInst) r r' w w' :
  L p →
  (if maySquashOthers d then
     _ ← panic_if (isSquashed d);
     let r := r <| numInstThatMayCauseSquash ::= <[tid := numInstThatMayCauseSquash r tid - 1]> |> in
     '(_, w) ← markFollowingInstructionsAsSafe fl curCycle [p] 1 (on_inst p clearMaySquashOthers w);
     Ok (r, w)
   else Ok (r, w)) = Ok (r', w') →
  regs_ok L (w_heap w) (w_sb w) →
  hrel (only p) (w_heap w) (w_heap w') ∧ regs_ok L (w_heap w') (w_sb w')
  ∧ r' = r <| numInstThatMayCauseSquash := (if maySquashOthers d then
       <[tid := numInstThatMayCauseSquash r tid - 1]> (numInstThatMayCauseSquash r)
       else numInstThatMayCauseSquash r) |>.
Proof.
  intros HL Hw Hok. destruct (maySquashOthers d); res_simp; [cbn zeta in Hw; res_simp|].
  - match goal with E : markFollowingInstructionsAsSafe _ _ _ _ _ = _ |- _ => rename E into Em end.
    split; [|split; [|done]].
    + eapply only_trans; [apply only_alter|]. eapply hrel_mono; [|by eapply markFollowing_spec].
      intros q e e' _ He Hq. eapply madeSafe_off; [exact He|].
      intros (l1 & l2 & El & _). by destruct l1 as [|x [|y l1]]; simplify_eq/=.
    + eapply (markFollowing_regs fl curCycle); [| |exact Em].
      * apply on_inst_regs; [|done]. intros e _. eapply changed_calm; [apply changed_st_reset|set_solver..].
      * intros q Hq. by apply list_elem_of_singleton in Hq as ->.
  - split; [|split; [done|by destruct r']]. apply hrel_refl. by intros q e _.
Qed.

Lemma retireHead_inv r r' w w' (tid : nat) :
  retireHead fl curCycle tid r w = Ok (r', w') →
  regs_ok (in_rob r) (w_heap w) (w_sb w) →
  ∃ p l d hd, instList r tid = p :: l ∧ w_heap w !! p = Some d ∧ readyToCommit d = true
  ∧ hrel (only p) (w_heap w) (w_heap w') ∧ regs_ok (in_rob r) (w_heap w') (w_sb w')
  ∧ r' = r <| numInstsInROB ::= Z.pred |> <| threadEntries ::= <[tid := threadEntries r tid - 1]> |>
           <| numInstThatMayCauseSquash := (if maySquashOthers d then
                <[tid := numInstThatMayCauseSquash r tid - 1]> (numInstThatMayCauseSquash r)
                else numInstThatMayCauseSquash r) |>
           <| instList ::= <[tid := l]> |> <| head := hd |>.
Proof.
  unfold retireHead. intros Hr Hok.
  apply bind_ok in Hr as (? & _ & Hr).
  apply bind_ok in Hr as (p & Ehd%deref_ok & Hr).
  apply bind_ok in Hr as (d & Ed%deref_ok & Hr).
  apply bind_ok in Hr as (? & Ecan%assert_ok & Hr). cbn zeta in Hr.
  apply bind_ok in Hr as (w2 & Ew & Hr).
  apply bind_ok in Hr as ([r3 w3] & Eb & Hr). cbn zeta in Hr.
  apply bind_ok in Hr as (r4 & [hd ->]%updateHead_ok & Hr). injection Hr as <- <-.
  destruct (instList r tid) as [|p' l] eqn:El; [done|]. cbn in Ehd. injection Ehd as ->.
  assert (Hp : in_rob r p) by (exists tid; rewrite El; left).
  set (w1 := on_inst p (setCommitted ∘ clearInROB) w) in *.
  assert (Ed1 : w_heap w1 !! p = Some (setCommitted (clearInROB d))).
  { cbn. by rewrite (alter_Some _ _ _ _ Ed), lookup_insert_eq. }
  assert (Hc1 : changed [RobEntry; Committed] d (setCommitted (clearInROB d))).
  { apply (changed_trans _ d (clearInROB d)).
    - eapply changed_mono; [|apply (changed_st_reset RobEntry)]. set_solver.
    - eapply changed_mono; [|apply (changed_st_set Committed)]. set_solver. }
  assert (Hok1 : regs_ok (in_rob r) (w_heap w1) (w_sb w1)).
  { apply on_inst_regs; [|done]. intros e He. simplify_eq. eapply changed_calm; [exact Hc1|set_solver..]. }
  assert (isUnsafe d = isUnsafe (setCommitted (clearInROB d))
          ∧ isSquashed d = isSquashed (setCommitted (clearInROB d))) as [Eu Es].
  { unfold isUnsafe, isSquashed. by rewrite !(changed_get _ _ _ _ Hc1) by set_solver. }
  rewrite Eu, Es in Ew.
  destruct (retire_wake (in_rob r) p _ _ _ Hp Ed1 Ew Hok1) as [Hrel2 Hok2].
  destruct (retire_branch (in_rob r) tid p d _ _ _ _ Hp Eb Hok2) as (Hrel3 & Hok3 & ->).
  exists p, l, d, hd. split; [done|]. split; [done|]. split; [done|].
  split; [eapply only_trans; [eapply only_trans; [apply only_alter|exact Hrel2]|exact Hrel3]|].
  split; [done|]. cbn. by rewrite El.
Qed.

Theorem rob_retire pend r r' w w' (tid : nat) :
  rob_inv fl pend r w →
  retireHead fl curCycle tid r w = Ok (r', w') → rob_inv fl pend r' w'.
Proof.
  intros [Ht Hr He Hn Hi] Hret.
  destruct (retireHead_inv _ _ _ _ _ Hret Hr) as (p & l & d & hd & El & Ed & _ & Hrel & Hok & ->).
  clear Hret.
  assert (Hp : ∀ t q, q ∈ (if decide (t = tid) then l else instList r t) → q ≠ p).
  { intros t q Hq ->. case_decide as Htt.
    - pose proof (seq_sorted_NoDup _ _ (th_sorted _ _ _ _ _ _ _ (Ht tid))) as Hnd.
      rewrite El in Hnd. inversion_clear Hnd. done.
    - apply Htt. eapply thread_disjoint; [apply Ht|apply (Ht tid)|exact Hq|]. rewrite El. left. }
  assert (tid < numThreads r)%nat as Hlt.
  { destruct (decide (tid < numThreads r)%nat); [done|]. rewrite Hi in El by lia. done. }
  split.
  - intros t. cbn. specialize (Hp t). destruct (decide (t = tid)) as [->|Hne].
    + rewrite fn_lookup_insert. eapply thread_ok_ext.
      { eapply hrel_mono; [|exact Hrel]. intros q e e' _ Hq Hin. apply changed_nil_quiet, Hq. auto. }
      assert ((if maySquashOthers d then <[tid := numInstThatMayCauseSquash r tid - 1]>
                (numInstThatMayCauseSquash r) else numInstThatMayCauseSquash r) tid
              = numInstThatMayCauseSquash r tid - Z.b2z (maySquashOthers d)) as ->.
      { destruct (maySquashOthers d); cbn [Z.b2z]; [by rewrite fn_lookup_insert|lia]. }
      eapply thread_ok_tail; [|exact Ed]. rewrite <- El. apply Ht.
    + rewrite fn_lookup_insert_ne by done. eapply thread_ok_ext.
      { eapply hrel_mono; [|exact Hrel]. intros q e e' _ Hq Hin. apply changed_nil_quiet, Hq. auto. }
      assert ((if maySquashOthers d then <[tid := numInstThatMayCauseSquash r tid - 1]>
                (numInstThatMayCauseSquash r) else numInstThatMayCauseSquash r) t
              = numInstThatMayCauseSquash r t) as ->.
      { destruct (maySquashOthers d); [by rewrite fn_lookup_insert_ne|done]. }
      apply Ht.
  - eapply regs_sub; [|exact Hok]. intros q [t Hq]. cbn in Hq. destruct (decide (t = tid)) as [->|Hne].
    + rewrite fn_lookup_insert in Hq. exists tid. rewrite El. by right.
    + rewrite fn_lookup_insert_ne in Hq by done. by exists t.
  - intros t. cbn. destruct (decide (t = tid)) as [->|Hne].
    + rewrite !fn_lookup_insert, He, El. cbn [length]. lia.
    + by rewrite !fn_lookup_insert_ne.
  - transitivity (countInsts r - 1); [change (Z.pred (numInstsInROB r) = countInsts r - 1); lia|].
    symmetry. apply (countInsts_update r _ tid (-1)); [done|done| |].
    + cbn. rewrite fn_lookup_insert, El. cbn [length]. lia.
    + intros t Hne. cbn. by rewrite fn_lookup_insert_ne.
  - intros t Hge. cbn in *. rewrite fn_lookup_insert_ne by lia. by apply Hi.
Qed.

(** ** Squash *)
Lemma on_inst_Some (p : InstPtr) (f : DynInst → DynInst) w (d : DynInst) :
  w_heap w !! p = Some d → on_inst p f w = w <| w_heap ::= <[p := f d]> |>.
Proof.
  intros E. destruct w as [h q sb]. cbn [w_heap] in E.
  change (MkWorld (alter f p h) q sb = MkWorld (<[p := f d]> h) q sb).
  by rewrite (alter_Some _ _ _ _ E).
Qed.
Lemma on_inst_twice (p : InstPtr) (f : DynInst → DynInst) w (d : DynInst) :
  on_inst p f (w <| w_heap ::= <[p := d]> |>) = w <| w_heap ::= <[p := f d]> |>.
Proof.
  rewrite (on_inst_Some p f _ d) by apply lookup_insert_eq. destruct w as [h q sb].
  change (MkWorld (<[p := f d]> (<[p := d]> h)) q sb = MkWorld (<[p := f d]> h) q sb).
  by rewrite insert_insert_eq.
Qed.

(** The squash state of [r'] is that of [r]. *)
Definition same_squash r r' : Prop :=
  squashedSeqNum r' = squashedSeqNum r ∧ squashWidth r' = squashWidth r
  ∧ maxEntries r' = maxEntries r ∧ activeThreads r' = activeThreads r.

Lemma same_squash_refl r : same_squash r r.
Proof. done. Qed.
Lemma same_squash_trans r1 r2 r3 : same_squash r1 r2 → same_squash r2 r3 → same_squash r1 r3.
Proof. intros (?&?&?&?) (?&?&?&?). unfold same_squash. split_and!; congruence. Qed.

(** The instruction [dropMaySquash] leaves behind. *)
Definition dropped (e : DynInst) : DynInst :=
  if maySquashOthers e then
    if isRunahead e then clearRunahead (clearMaySquashOthers e) else clearMaySquashOthers e
  else e.

Lemma dropped_spec (e : DynInst) :
  changed [MaySquashOthers; Runahead] e (dropped e)
  ∧ maySquashOthers (dropped e) = false
  ∧ (init_inst e = false → isRunahead (dropped e) = isRunahead e).
Proof.
  unfold dropped, init_inst, clearMaySquashOthers, clearRunahead, maySquashOthers, isRunahead.
  destruct (get_st MaySquashOthers e) eqn:Em; [destruct (get_st Runahead e) eqn:Er|].
  - split; [|split; [by rewrite get_st_reset_ne, get_st_reset_eq|done]].
    apply (changed_trans _ e (st_reset MaySquashOthers e)).
    + eapply changed_mono; [|apply changed_st_reset]. set_solver.
    + eapply changed_mono; [|apply changed_st_reset]. set_solver.
  - split; [|split; [apply get_st_reset_eq|by rewrite get_st_reset_ne]].
    eapply changed_mono; [|apply changed_st_reset]. set_solver.
  - split; [done|]. by split.
Qed.

(** Running [dropMaySquash] on [p], whose flags are already those of [e]: it cannot
    fail, since an initiator in flight implies runahead mode. *)
Lemma drop_ok pend r w (tid : nat) (p : InstPtr) (d e : DynInst) (k : Z) :
  rob_inv fl pend r w → p ∈ instList r tid → w_heap w !! p = Some d →
  changed [Squashed; CanCommit] d e → (isSquashed d = true → isSquashed e = true) →
  ∃ r', dropMaySquash tid p d k r (w <| w_heap ::= <[p := e]> |>)
        = Ok (k + Z.b2z (maySquashOthers d), r', w <| w_heap ::= <[p := dropped e]> |>)
    ∧ same_rob r r' ∧ same_squash r r'
    ∧ inRunaheadMode r' tid = inRunaheadMode r tid && negb (init_inst d)
    ∧ (∀ t, t ≠ tid → inRunaheadMode r' t = inRunaheadMode r t).
Proof.
  intros Hinv Hp Ed Hc Hsq. pose proof (ri_thread _ _ _ _ Hinv tid) as Ht.
  assert (maySquashOthers e = maySquashOthers d) as Em.
  { unfold maySquashOthers. by rewrite (changed_get _ _ _ _ Hc) by set_solver. }
  assert (isRunahead e = isRunahead d) as Er.
  { unfold isRunahead. by rewrite (changed_get _ _ _ _ Hc) by set_solver. }
  pose proof (thread_ok_initiator _ _ _ _ _ _ _ _ _ Ht Hp Ed) as Hini.
  unfold dropMaySquash, dropped, init_inst in *. rewrite Em, Er.
  destruct (maySquashOthers d); cbn [andb Z.b2z] in *;
    [destruct (isRunahead d); cbn [andb] in *|].
  - unfold leaveRunaheadMode. rewrite (Hini eq_refl). cbn. eexists. split.
    + rewrite !on_inst_twice. reflexivity.
    + split; [done|]. split; [done|]. split; [cbn; by rewrite fn_lookup_insert|].
      intros t Hne. cbn. by rewrite fn_lookup_insert_ne.
  - exists r. rewrite on_inst_twice. split; [done|]. split; [done|]. split; [done|].
    by rewrite andb_true_r.
  - exists r. rewrite Z.add_0_r. split; [done|]. split; [done|]. split; [done|].
    by rewrite andb_true_r.
Qed.

Lemma rob_drop pend r r' w w' (tid : nat) (p : InstPtr) (d e : DynInst) (k k' : Z) :
  rob_inv fl pend r w → p ∈ instList r tid → w_heap w !! p = Some d →
  changed [Squashed; CanCommit] d e → (isSquashed d = true → isSquashed e = true) →
  dropMaySquash tid p d k r (w <| w_heap ::= <[p := e]> |>) = Ok (k', r', w') →
  rob_inv fl (<[tid := pend tid + (k' - k)]> pend) r' w' ∧ k ≤ k' ∧ same_rob r r' ∧ same_squash r r'
  ∧ w' = w <| w_heap ::= <[p := dropped e]> |>.
Proof.
  intros Hinv Hp Ed Hc Hsq Hdrop.
  destruct (drop_ok pend r w tid p d e k Hinv Hp Ed Hc Hsq) as (r1 & Hd1 & Hsame & Hss & Hrun & Hother).
  rewrite Hd1 in Hdrop. injection Hdrop as <- <- <-.
  destruct (dropped_spec e) as (Hcd & Hmd & Hrd).
  assert (Hch : changed resolving d (dropped e)).
  { apply (changed_trans _ d e); (eapply changed_mono; [|eassumption]); unfold resolving; set_solver. }
  pose proof (ri_thread _ _ _ _ Hinv tid) as Ht.
  split; [|split; [destruct (maySquashOthers d); cbn; lia|done]].
  eapply (rob_inv_ext (<[tid := pend tid + Z.b2z (maySquashOthers d)
            - Z.b2z (maySquashOthers (dropped e))]> pend)); [|intros t; rewrite Hmd; cbn [Z.b2z];
              destruct (decide (t = tid)) as [->|Hne];
              [rewrite !fn_lookup_insert; lia|by rewrite !fn_lookup_insert_ne]|reflexivity|done].
  eapply rob_update; [exact Hinv|exact Hp|exact Ed|exact Hch| |congruence|done| |done|exact Hrun|done].
  - split; [apply Hch|]. split.
    + intros Hs. unfold isSquashed. rewrite (changed_get _ _ _ _ Hcd) by set_solver. by apply Hsq.
    + unfold concealed. rewrite (changed_isControl _ _ _ Hch).
      destruct (maySquashOthers d) eqn:Em.
      { rewrite (th_control _ _ _ _ _ _ _ Ht p d Hp Ed Em). by rewrite !andb_false_r. }
      assert (init_inst e = false) as Hie.
      { unfold init_inst, maySquashOthers. rewrite (changed_get _ _ _ _ Hc) by set_solver.
        unfold maySquashOthers in Em. by rewrite Em. }
      rewrite (Hrd Hie). unfold isUnsafe, isRunahead.
      rewrite (changed_get _ _ _ _ Hch) by (unfold resolving; set_solver).
      rewrite (changed_get _ _ _ _ Hc) by set_solver.
      assert (isSquashed (dropped e) = isSquashed e) as ->.
      { unfold isSquashed. by rewrite (changed_get _ _ _ _ Hcd) by set_solver. }
      destruct (isSquashed d); [rewrite Hsq by done; by rewrite andb_false_r|].
      destruct (get_st Unsafe d), (isSquashed e); done.
  - assert (init_inst (dropped e) = false) as -> by (unfold init_inst; by rewrite Hmd).
    pose proof (thread_ok_initiator _ _ _ _ _ _ _ _ _ Ht Hp Ed) as Hini.
    destruct (init_inst d); [rewrite Hini by done; done|]. rewrite andb_true_r. cbn. lia.
Qed.

(** The two flags a squash sets, on [d]. *)
Lemma squash_flags (d : DynInst) :
  changed [Squashed; CanCommit] d (setCanCommit (setSquashed d)) ∧ isSquashed (setCanCommit (setSquashed d)) = true.
Proof.
  split; [|unfold isSquashed, setCanCommit, setSquashed; by rewrite get_st_set_ne, get_st_set_eq].
  apply (changed_trans _ d (setSquashed d)).
  - eapply changed_mono; [|apply (changed_st_set Squashed)]. set_solver.
  - eapply changed_mono; [|apply (changed_st_set CanCommit)]. set_solver.
Qed.

Lemma in_list_drop r r' (tid : nat) (its : list InstPtr) :
  same_rob r r' → (∀ p, p ∈ its → p ∈ instList r tid) → ∀ p, p ∈ its → p ∈ instList r' tid.
Proof. intros (-> & _). done. Qed.

Lemma rob_squash_loop (tid : nat) (single : bool) (its : list InstPtr) :
  ∀ pend (ns : Z) (rt : bool) (k : Z) r w e rt' k' r' w',
  rob_inv fl pend r w → (∀ p, p ∈ its → p ∈ instList r tid) →
  doSquash_loop tid single its ns rt k r w = Ok (e, rt', k', r', w') →
  rob_inv fl (<[tid := pend tid + (k' - k)]> pend) r' w' ∧ k ≤ k' ∧ same_rob r r' ∧ same_squash r r'
  ∧ (∀ p, e = StoppedAt p → p ∈ its).
Proof.
  induction its as [|p its IH]; intros pend ns rt k r w e rt' k' r' w' Hinv Hin Hl; [done|].
  cbn [doSquash_loop] in Hl. apply bind_ok in Hl as (d & Ed%deref_ok & Hl).
  assert (Hsame : rob_inv fl (<[tid := pend tid + (k - k)]> pend) r w).
  { eapply rob_inv_ext; [exact Hinv| |reflexivity|done]. fn_cases tid. }
  case_match.
  2: { injection Hl as <- <- <- <- <-. split; [done|]. split; [lia|]. split; [reflexivity|].
       split; [done|]. intros q [= <-]. left. }
  cbn zeta in Hl. apply bind_ok in Hl as ([[k1 r1] w1] & Hd & Hl).
  rewrite (on_inst_Some _ _ _ _ Ed) in Hd. destruct (squash_flags d) as [Hf1 Hf2].
  apply (rob_drop pend) in Hd as (Hinv1 & Hk1 & Hs1 & Hss1 & _);
    [|done|by apply Hin; left|done|done|done].
  destruct its as [|p' its].
  { injection Hl as <- <- <- <- <-. done. }
  apply (IH (<[tid := pend tid + (k1 - k)]> pend)) in Hl as (Hinv2 & Hk2 & Hs2 & Hss2 & He);
    [|done|eapply in_list_drop; [exact Hs1|]; intros q Hq; apply Hin; by right].
  split; [|split; [lia|split; [by etrans|split; [by eapply same_squash_trans|]]]].
  2: { intros q Hq. right. by apply He. }
  eapply rob_inv_ext; [exact Hinv2| |reflexivity|done]. fn_cases tid.
Qed.

Lemma same_rob_doneAt r (tid : nat) : same_rob r (doneAt tid r) ∧ same_squash r (doneAt tid r).
Proof. done. Qed.

Lemma rob_checkDone pend r r' w w' (tid : nat) (p : InstPtr) (k k' : Z) :
  rob_inv fl pend r w → p ∈ instList r tid →
  checkDone tid p k r w = Ok (k', r', w') →
  rob_inv fl (<[tid := pend tid + (k' - k)]> pend) r' w' ∧ k ≤ k' ∧ same_rob r r' ∧ same_squash r r'.
Proof.
  intros Hinv Hp Hc. unfold checkDone in Hc. apply bind_ok in Hc as (d & Ed%deref_ok & Hc).
  assert (Hsame : ∀ r2, same_rob r r2 → same_squash r r2 →
    (∀ t, inRunaheadMode r2 t = inRunaheadMode r t) →
    rob_inv fl (<[tid := pend tid + (k - k)]> pend) r2 w ∧ k ≤ k ∧ same_rob r r2 ∧ same_squash r r2).
  { intros r2 ? ? ?. split; [|split; [lia|done]]. eapply rob_inv_ext; [exact Hinv| |done|done]. fn_cases tid. }
  case_match; [|injection Hc as <- <- <-; by apply Hsame].
  apply bind_ok in Hc as ([[k1 r1] w1] & Hd & Hc). injection Hc as <- <- <-.
  case_match; [|injection Hd as <- <- <-; by apply Hsame].
  assert (w = w <| w_heap ::= <[p := d]> |>) as Ew.
  { destruct w as [h q sb]. cbn [w_heap] in Ed.
    change (MkWorld h q sb = MkWorld (<[p := d]> h) q sb). by rewrite insert_id. }
  rewrite Ew in Hd. apply (rob_drop pend) in Hd as (Hinv1 & Hk1 & Hs1 & Hss1 & _); try done.
  split; [|done]. eapply rob_inv_ext; [exact Hinv1|done|apply same_rob_doneAt|done].
Qed.

Lemma updateTail_ok (h : heap) r r' : updateTail h r = Ok r' → ∃ tl, r' = r <| tail := tl |>.
Proof. unfold updateTail. intros E. res_simp. eauto. Qed.

Theorem rob_doSquash pend r r' w w' (tid : nat) (single : bool) :
  rob_inv fl pend r w → (∀ t, 0 ≤ pend t) →
  (∀ p, squashIt r tid = Some p → p ∈ instList r tid) →
  doSquash fl curCycle tid single r w = Ok (r', w') → rob_inv fl pend r' w'.
Proof.
  intros Hinv Hpos Hit Hs. unfold doSquash in Hs.
  apply bind_ok in Hs as (? & _ & Hs). apply bind_ok in Hs as (p & Ep%deref_ok & Hs).
  apply bind_ok in Hs as (d & Ed%deref_ok & Hs). specialize (Hit p Ep).
  case_match; [injection Hs as <- <-; by eapply rob_inv_ext|].
  apply bind_ok in Hs as ([[[[e rt] k1] r1] w1] & Hl & Hs).
  assert (Hsub : ∀ q, q ∈ back_from p (instList r tid) → q ∈ instList r tid).
  { intros q Hq. unfold back_from in Hq. apply elem_of_reverse in Hq.
    destruct (upto_prefix p (instList r tid)) as [l El]. rewrite El. set_solver. }
  apply (rob_squash_loop tid single _ pend) in Hl as (Hinv1 & Hk1 & Hs1 & Hss1 & He); [|done|done].
  apply bind_ok in Hs as ([[k2 r2] w2] & Hm & Hs).
  assert (rob_inv fl (<[tid := pend tid + k2]> pend) r2 w2 ∧ 0 ≤ k2) as [Hinv2 Hk2].
  { destruct e as [|q]; [injection Hm as <- <- <-|].
    - split; [|lia]. eapply rob_inv_ext; [exact Hinv1| |apply same_rob_doneAt|done]. intros t. by rewrite Z.sub_0_r.
    - apply bind_ok in Hm as ([[k3 r3] w3] & Hc & Hm).
      apply (rob_checkDone (<[tid := pend tid + (k1 - 0)]> pend)) in Hc as (Hinv3 & Hk3 & Hs3 & _);
        [|done|eapply in_list_drop; [exact Hs1|exact Hsub|by apply He]].
      apply bind_ok in Hm as (r4 & Ht & Hm). injection Hm as <- <- <-. split; [|lia].
      assert (same_rob r3 r4 ∧ ∀ t, inRunaheadMode r4 t = inRunaheadMode r3 t) as [? ?].
      { destruct rt; [apply updateTail_ok in Ht as [? ->]|injection Ht as <-]; done. }
      eapply rob_inv_ext; [exact Hinv3| |done|done]. fn_cases tid. }
  cbn zeta in Hs. apply bind_ok in Hs as ([[n r3] w3] & Hr & Hs). injection Hs as <- <-.
  apply (rob_reduce (<[tid := pend tid + k2]> pend)) in Hr;
    [|done|rewrite fn_lookup_insert; specialize (Hpos tid); lia].
  eapply rob_inv_ext; [exact Hr| |reflexivity|done]. fn_cases tid.
Qed.

Theorem rob_squash pend r r' w w' (tid : nat) (squash_num : Z) (single : bool) :
  rob_inv fl pend r w → (∀ t, 0 ≤ pend t) →
  squash fl curCycle squash_num tid single r w = Ok (r', w') → rob_inv fl pend r' w'.
Proof.
  intros Hinv Hpos Hs. unfold squash in Hs. case_match; [by injection Hs as <- <-|]. cbn zeta in Hs.
  case_match eqn:El; [|injection Hs as <- <-; by eapply rob_inv_ext].
  eapply (rob_doSquash pend); [|done| |exact Hs]; [by eapply rob_inv_ext|].
  intros q Hq. cbn in Hq. rewrite fn_lookup_insert in Hq. injection Hq as <-.
  apply last_Some in El as [l El]. cbn in *. rewrite El. set_solver.
Qed.
End ops.
