(* ===== verification/ROBSquash.v ===== *)
(** * What a squash does

    Functional behaviour of [squash] and [doSquash]: which instructions end up
    squashed, that the walk cannot fail, where the squash iterator points
    afterwards, and that a multi-cycle squash finishes. *)

From S2P Require Import Prelude Regs DynInst Scoreboard IQInterface ROB ROBInv ROBOps.
Local Open Scope Z_scope.

Section squash.
Context {Q : Type} `{InstQueueLaws Q} (fl : DebugFlags) (curCycle : Z).
Implicit Types (w : World Q) (r : ROB) (pend : nat → Z).

(** Only runahead mode may change in the walk. *)
Definition run_only r r' : Prop := ∃ b, r' = r <| inRunaheadMode := b |>.

Lemma run_only_refl r : run_only r r.
Proof. exists (inRunaheadMode r). by destruct r. Qed.
Lemma run_only_trans r1 r2 r3 : run_only r1 r2 → run_only r2 r3 → run_only r1 r3.
Proof. intros [b ->] [b' ->]. by exists b'. Qed.

Lemma drop_run_only (tid : nat) (p : InstPtr) (d : DynInst) (k k' : Z) r r' w w' :
  dropMaySquash tid p d k r w = Ok (k', r', w') → run_only r r'.
Proof.
  unfold dropMaySquash, leaveRunaheadMode. intros E.
  destruct (maySquashOthers d); [destruct (isRunahead d)|].
  - cbn zeta in E. apply bind_ok in E as (r1 & E1 & E). apply bind_ok in E1 as (? & _ & E1).
    injection E1 as <-. injection E as _ <- _. by eexists.
  - injection E as _ <- _. apply run_only_refl.
  - injection E as _ <- _. apply run_only_refl.
Qed.

Lemma loop_run_only (tid : nat) (single : bool) (its : list InstPtr) :
  ∀ (ns : Z) (rt : bool) (k : Z) r w e rt' k' r' w',
  doSquash_loop tid single its ns rt k r w = Ok (e, rt', k', r', w') →
  run_only r r' ∧ (∀ p, e = StoppedAt p → p ∈ its).
Proof.
  induction its as [|p its IH]; intros ns rt k r w e rt' k' r' w' Hl; [done|].
  cbn [doSquash_loop] in Hl. apply bind_ok in Hl as (d & _ & Hl). case_match.
  2: { injection Hl as <- <- <- <- <-. split; [apply run_only_refl|]. intros q [= <-]. left. }
  cbn zeta in Hl. apply bind_ok in Hl as ([[k1 r1] w1] & Hd%drop_run_only & Hl).
  destruct its as [|p' its]; [injection Hl as <- <- <- <- <-; done|].
  apply IH in Hl as [Hr He]. split; [by eapply run_only_trans|].
  intros q Hq. right. by apply He.
Qed.

Lemma in_back_from (p q : InstPtr) (l : list InstPtr) : q ∈ back_from p l → q ∈ l.
Proof.
  unfold back_from. rewrite elem_of_reverse. destruct (upto_prefix p l) as [l' El].
  intros Hq. rewrite El. set_solver.
Qed.

Lemma done_same (tid : nat) r (t : nat) :
  is_Some ((<[tid := None]> (squashIt r)) t) → (<[tid := true]> (doneSquashing r)) t = doneSquashing r t.
Proof.
  destruct (decide (t = tid)) as [->|Hne]; [rewrite fn_lookup_insert; by intros []|]. by rewrite !fn_lookup_insert_ne.
Qed.

(** The reorder buffer [doSquash] leaves: the lists are unchanged, and the squash
    iterator is either spent or at an instruction of the thread. *)
Lemma doSquash_iter (tid : nat) (single : bool) r r' w w' :
  doSquash fl curCycle tid single r w = Ok (r', w') →
  instList r' = instList r ∧ (∀ t, t ≠ tid → squashIt r' t = squashIt r t)
  ∧ (∀ p, squashIt r' tid = Some p → p ∈ instList r tid)
  ∧ (squashIt r' tid = None → doneSquashing r' tid = true)
  ∧ (∀ t, is_Some (squashIt r' t) → doneSquashing r' t = doneSquashing r t).
Proof.
  intros Hs. unfold doSquash in Hs.
  apply bind_ok in Hs as (? & _ & Hs). apply bind_ok in Hs as (p & Ep%deref_ok & Hs).
  apply bind_ok in Hs as (d & Ed%deref_ok & Hs).
  case_match.
  { injection Hs as <- <-. cbn. split; [done|]. split; [intros t Ht; by rewrite fn_lookup_insert_ne|].
    split; [by rewrite fn_lookup_insert|]. split; [by rewrite !fn_lookup_insert|]. apply done_same. }
  apply bind_ok in Hs as ([[[[e rt] k1] r1] w1] & Hl & Hs).
  apply loop_run_only in Hl as [[b ->] He].
  apply bind_ok in Hs as ([[k2 r2] w2] & Hm & Hs).
  cbn zeta in Hs. apply bind_ok in Hs as ([[n r3] w3] & Hr & Hs). injection Hs as <- <-.
  unfold reduceNumMaySquashOthers in Hr. cbn zeta in Hr.
  apply bind_ok in Hr as ([n0 w4] & _ & Hr). injection Hr as _ <- _.
  assert (instList r2 = instList r ∧ (∀ t, t ≠ tid → squashIt r2 t = squashIt r t)
          ∧ (∀ p, squashIt r2 tid = Some p → p ∈ instList r tid)
          ∧ (squashIt r2 tid = None → doneSquashing r2 tid = true)
          ∧ (∀ t, is_Some (squashIt r2 t) → doneSquashing r2 t = doneSquashing r t)) as H2.
  2: { by destruct (0 <? k2). }
  destruct e as [|q].
  { injection Hm as _ <- _. cbn. split; [done|]. split; [intros t Ht; by rewrite fn_lookup_insert_ne|].
    split; [by rewrite fn_lookup_insert|]. split; [by rewrite !fn_lookup_insert|]. apply (done_same tid r). }
  apply bind_ok in Hm as ([[k3 r3] w5] & Hc & Hm). apply bind_ok in Hm as (r4 & Ht & Hm).
  injection Hm as _ <- _.
  assert (∃ tl, r4 = r3 <| tail := tl |>) as [tl ->].
  { destruct rt; [by apply updateTail_ok in Ht|]. injection Ht as <-. exists (tail r3). by destruct r3. }
  unfold checkDone in Hc. apply bind_ok in Hc as (dq & _ & Hc).
  destruct (seqNum dq <=? _).
  - apply bind_ok in Hc as ([[k4 r4] w6] & Hd & Hc). injection Hc as _ <- _.
    assert (run_only r (r4)) as [b' ->].
    { eapply run_only_trans; [by eexists|]. destruct (_ && maySquashOthers dq); [by eapply drop_run_only|].
      injection Hd as _ <- _. apply run_only_refl. }
    cbn. split; [done|]. split; [intros t Hne; by rewrite fn_lookup_insert_ne|].
    split; [by rewrite fn_lookup_insert|]. split; [by rewrite !fn_lookup_insert|]. apply (done_same tid r).
  - injection Hc as _ <- _. cbn. split; [done|]. split; [intros t Hne; by rewrite fn_lookup_insert_ne|].
    rewrite fn_lookup_insert. split; [|done]. intros q' [= <-]. by eapply in_back_from, He.
Qed.

(** ** Who is squashed *)
Lemma drop_flags (tid : nat) (p : InstPtr) (d : DynInst) (k k' : Z) r r' w w' :
  dropMaySquash tid p d k r w = Ok (k', r', w') →
  hrel (λ _, changed [MaySquashOthers; Runahead]) (w_heap w) (w_heap w').
Proof.
  unfold dropMaySquash, leaveRunaheadMode. intros E.
  assert (Hm : hrel (λ _, changed [MaySquashOthers; Runahead]) (w_heap w)
    (w_heap (on_inst p clearMaySquashOthers w))).
  { apply hrel_alter; [done|]. intros e _. eapply changed_mono; [|apply changed_st_reset]. set_solver. }
  destruct (maySquashOthers d); [destruct (isRunahead d)|]; cbn zeta in E.
  - apply bind_ok in E as (r1 & _ & E). injection E as _ _ <-.
    eapply (hrel_trans _ _ _ _ _ _ (λ _ d1 d2 d3 _, changed_trans _ d1 d2 d3)); [exact Hm|].
    apply hrel_alter; [done|]. intros e _. eapply changed_mono; [|apply changed_st_reset]. set_solver.
  - by injection E as _ _ <-.
  - injection E as _ _ <-. by apply hrel_refl.
Qed.

(** [h'] is [h] with exactly the instructions of [its] younger than [sq] squashed. *)
Definition squashes (its : list InstPtr) (sq : Z) (h h' : heap) : Prop :=
  ∀ q, seq_at h' q = seq_at h q ∧ (h' !! q = None ↔ h !! q = None) ∧
       (h !! q ≠ None →
        st_at Squashed h' q = st_at Squashed h q || (bool_decide (q ∈ its) && (sq <? seq_at h q))).

Lemma squashes_hrel (its : list InstPtr) (sq : Z) (h1 h2 h3 : heap) (ss : list Status) :
  squashes its sq h1 h2 → hrel (λ _, changed ss) h2 h3 → Squashed ∉ ss → squashes its sq h1 h3.
Proof.
  intros H1 Hrel Hs q. destruct (H1 q) as (E1 & E2 & E3). split; [|split].
  - rewrite <- E1. eapply seq_at_hrel; [exact Hrel|]. intros ?? Hc. exact (changed_seqNum _ _ _ Hc).
  - rewrite <- E2. specialize (Hrel q). by destruct Hrel.
  - intros Hq. rewrite <- E3 by done. eapply st_at_hrel; [exact Hrel|]. intros ?? _ Hc.
    by apply (changed_get _ _ _ _ Hc).
Qed.

(** Squashing one instruction. *)
Lemma squash_one (p : InstPtr) (d : DynInst) (sq : Z) w :
  w_heap w !! p = Some d → sq < seq_at (w_heap w) p →
  squashes [p] sq (w_heap w) (w_heap (w <| w_heap ::= <[p := (setCanCommit ∘ setSquashed) d]> |>)).
Proof.
  intros Ed Hp q. destruct (squash_flags d) as [Hf1 Hf2].
  change (w_heap (w <| w_heap ::= <[p := (setCanCommit ∘ setSquashed) d]> |>))
    with (<[p := setCanCommit (setSquashed d)]> (w_heap w)).
  unfold seq_at, st_at. rewrite lookup_insert. destruct (decide (p = q)) as [<-|Hpq].
  - rewrite Ed. split; [by eapply changed_seqNum|]. split; [done|]. intros _.
    rewrite bool_decide_eq_true_2 by set_solver. cbn [andb]. rewrite (seq_at_lookup _ _ _ Ed) in Hp.
    rewrite (proj2 (Z.ltb_lt _ _) Hp), orb_true_r. apply Hf2.
  - split; [done|]. split; [done|]. intros _. rewrite bool_decide_eq_false_2 by set_solver.
    by rewrite orb_false_r.
Qed.

Lemma squashes_app (l1 l2 : list InstPtr) (sq : Z) (h1 h2 h3 : heap) :
  squashes l1 sq h1 h2 → squashes l2 sq h2 h3 → squashes (l1 ++ l2) sq h1 h3.
Proof.
  intros H1 H2 q. destruct (H1 q) as (A1 & A2 & A3), (H2 q) as (B1 & B2 & B3).
  split; [congruence|]. split; [by rewrite B2|]. intros Hq. rewrite B3, A3, A1 by (try done; by rewrite A2).
  rewrite <- orb_assoc, <- andb_orb_distrib_l. do 2 f_equal.
  rewrite <- bool_decide_or. apply bool_decide_ext. set_solver.
Qed.

Lemma squashes_refl (sq : Z) (h : heap) : squashes [] sq h h.
Proof. intros q. split; [done|]. split; [done|]. intros _. by rewrite orb_false_r. Qed.

(** Only the younger instructions of the list matter. *)
Lemma squashes_young (l l' : list InstPtr) (sq : Z) (h h' : heap) :
  (∀ q, sq < seq_at h q → q ∈ l ↔ q ∈ l') → squashes l sq h h' → squashes l' sq h h'.
Proof.
  intros Hl Hs q. destruct (Hs q) as (E1 & E2 & E3). split; [done|]. split; [done|]. intros Hq.
  rewrite E3 by done. f_equal. destruct (Z.ltb_spec sq (seq_at h q)); [|by rewrite !andb_false_r].
  rewrite !andb_true_r. apply bool_decide_ext. by apply Hl.
Qed.

(** The loop squashes a segment of the walk, from the tail, and says why it stopped. *)
Lemma loop_segment (tid : nat) (single : bool) (its : list InstPtr) :
  ∀ (ns : Z) (rt : bool) (k : Z) r w e rt' k' r' w',
  doSquash_loop tid single its ns rt k r w = Ok (e, rt', k', r', w') →
  ∃ done rest, its = done ++ rest
  ∧ squashes done (squashedSeqNum r tid) (w_heap w) (w_heap w')
  ∧ match e with
    | ReachedBegin => rest = []
    | StoppedAt p => (∃ rest', rest = p :: rest')
        ∧ (seq_at (w_heap w) p ≤ squashedSeqNum r tid
           ∨ (single = false ∧ squashWidth r ≤ ns + Z.of_nat (length done)))
    end.
Proof.
  induction its as [|p its IH]; intros ns rt k r w e rt' k' r' w' Hl; [done|].
  cbn [doSquash_loop] in Hl. apply bind_ok in Hl as (d & Ed%deref_ok & Hl).
  rewrite <- (seq_at_lookup _ _ _ Ed) in Hl.
  destruct (((ns <? squashWidth r) || single) && (squashedSeqNum r tid <? seq_at (w_heap w) p)) eqn:Hb.
  2: { injection Hl as <- <- <- <- <-. exists [], (p :: its). split; [done|]. split; [apply squashes_refl|].
       split; [by eexists|]. apply andb_false_iff in Hb as [Hb|Hb%Z.ltb_ge]; [right|by left].
       apply orb_false_iff in Hb as [Hb%Z.ltb_ge ->]. split; [done|]. cbn. lia. }
  apply andb_true_iff in Hb as [_ Hp%Z.ltb_lt].
  cbn zeta in Hl. apply bind_ok in Hl as ([[k1 r1] w1] & Hd & Hl).
  pose proof (drop_run_only _ _ _ _ _ _ _ _ _ Hd) as [b ->].
  apply drop_flags in Hd. rewrite (on_inst_Some _ _ _ _ Ed) in Hd.
  assert (H1 : squashes [p] (squashedSeqNum r tid) (w_heap w) (w_heap w1)).
  { eapply squashes_hrel; [by apply squash_one|exact Hd|set_solver]. }
  destruct its as [|p' its].
  { injection Hl as <- <- <- <- <-. by exists [p], []. }
  apply IH in Hl as (done & rest & -> & Hs & Hend). exists (p :: done), rest. split; [done|].
  split; [by eapply (squashes_app [p])|]. destruct e as [|q]; [done|]. cbn in Hend.
  rewrite (proj1 (H1 q)) in Hend. cbn [length]. destruct Hend as [? [?|[? ?]]]; [tauto|].
  split; [done|]. right. split; [done|]. cbn in *. lia.
Qed.

(** ** The sweep *)
(** A squash in progress: the iterator stands at [p], everything younger than the
    squash point behind it is squashed already. *)
Definition sweeping (h0 : heap) (tid : nat) (n : nat) r w : Prop :=
  ∃ p l1 l2, instList r tid = l1 ++ p :: l2 ∧ length l1 = n ∧ squashIt r tid = Some p
  ∧ doneSquashing r tid = false ∧ squashes l2 (squashedSeqNum r tid) h0 (w_heap w).
(** A finished squash. *)
Definition swept (h0 : heap) (tid : nat) r w : Prop :=
  squashIt r tid = None ∧ doneSquashing r tid = true
  ∧ squashes (instList r tid) (squashedSeqNum r tid) h0 (w_heap w).

Lemma reduce_squash (tid : nat) (k mx n : Z) r r' w w' :
  reduceNumMaySquashOthers fl curCycle tid k mx r w = Ok (n, r', w') →
  hrel (λ _, changed [Unsafe]) (w_heap w) (w_heap w')
  ∧ instList r' = instList r ∧ squashIt r' = squashIt r ∧ doneSquashing r' = doneSquashing r
  ∧ squashedSeqNum r' = squashedSeqNum r ∧ squashWidth r' = squashWidth r.
Proof.
  unfold reduceNumMaySquashOthers. cbn zeta. intros E. apply bind_ok in E as ([n0 w0] & Hm & E).
  injection E as _ <- <-. apply markFollowing_spec in Hm. split; [|by destruct (0 <? k)].
  eapply hrel_mono; [|exact Hm]. intros p d d' _ [Hc _]. exact Hc.
Qed.

(** Past the loop, at [p]. *)
Lemma checkDone_squash (tid : nat) (p : InstPtr) (k k' : Z) r r' w w' :
  checkDone tid p k r w = Ok (k', r', w') →
  hrel (λ _, changed [MaySquashOthers; Runahead]) (w_heap w) (w_heap w')
  ∧ instList r' = instList r ∧ squashedSeqNum r' = squashedSeqNum r ∧ squashWidth r' = squashWidth r
  ∧ if seq_at (w_heap w) p <=? squashedSeqNum r tid
    then squashIt r' tid = None ∧ doneSquashing r' tid = true
    else squashIt r' tid = Some p ∧ doneSquashing r' tid = doneSquashing r tid.
Proof.
  unfold checkDone. intros E. apply bind_ok in E as (d & Hd%deref_ok & E).
  rewrite (seq_at_lookup _ _ _ Hd). destruct (seqNum d <=? squashedSeqNum r tid).
  - apply bind_ok in E as ([[k1 r1] w1] & Hd1 & E). injection E as _ <- <-.
    assert (run_only r r1 ∧ hrel (λ _, changed [MaySquashOthers; Runahead]) (w_heap w) (w_heap w1)) as [[b ->] Hh].
    { destruct (_ && _).
      - split; [by eapply drop_run_only|by eapply drop_flags].
      - injection Hd1 as _ <- <-. split; [apply run_only_refl|by apply hrel_refl]. }
    split; [done|]. cbn. by rewrite !fn_lookup_insert.
  - injection E as _ <- <-. split; [by apply hrel_refl|]. cbn. by rewrite fn_lookup_insert.
Qed.

Lemma updateTail_squash (rt : bool) (h : heap) r r' :
  (if rt then updateTail h r else Ok r) = Ok r' → ∃ tl, r' = r <| tail := tl |>.
Proof.
  destruct rt; intros E; [by apply updateTail_ok in E|]. injection E as <-. exists (tail r). by destruct r.
Qed.

(** The whole walk of one cycle, as a segment of the list. *)
Lemma doSquash_walk (tid : nat) (single : bool) (p : InstPtr) (l1 l2 : list InstPtr) r r' w w' :
  squashIt r tid = Some p → instList r tid = l1 ++ p :: l2 → p ∉ l1 → doneSquashing r tid = false →
  doSquash fl curCycle tid single r w = Ok (r', w') →
  instList r' = instList r ∧ squashedSeqNum r' = squashedSeqNum r ∧ squashWidth r' = squashWidth r
  ∧ ∃ done rest, p :: reverse l1 = done ++ rest
    ∧ squashes done (squashedSeqNum r tid) (w_heap w) (w_heap w')
    ∧ ((squashIt r' tid = None ∧ doneSquashing r' tid = true
        ∧ (∀ q, hd_error rest = Some q → seq_at (w_heap w) q ≤ squashedSeqNum r tid))
       ∨ (single = false ∧ squashWidth r ≤ Z.of_nat (length done) ∧ doneSquashing r' tid = false
          ∧ ∃ q rest', rest = q :: rest' ∧ squashIt r' tid = Some q)).
Proof.
  intros Hit El Hp Hdn Hs. unfold doSquash in Hs. rewrite Hit in Hs. cbn [deref mbind res_bind] in Hs.
  apply bind_ok in Hs as (? & _ & Hs). apply bind_ok in Hs as (d & Ed%deref_ok & Hs).
  destruct (Z.ltb_spec (seqNum d) (squashedSeqNum r tid)) as [Hlt|_].
  { injection Hs as <- <-. do 3 (split; [done|]). exists [], (p :: reverse l1). split; [done|].
    split; [apply squashes_refl|]. left. cbn. rewrite !fn_lookup_insert. split; [done|]. split; [done|].
    intros q [= <-]. rewrite (seq_at_lookup _ _ _ Ed). lia. }
  apply bind_ok in Hs as ([[[[e rt] k1] r1] w1] & Hl & Hs). rewrite El, back_from_app in Hl by done.
  pose proof (proj1 (loop_run_only _ _ _ _ _ _ _ _ _ _ _ _ _ Hl)) as [b ->].
  apply loop_segment in Hl as (done & rest & Ei & Hsq & Hend).
  apply bind_ok in Hs as ([[k2 r2] w2] & Hm & Hs). cbn zeta in Hs.
  apply bind_ok in Hs as ([[n r3] w3] & Hr & Hs). injection Hs as <- <-.
  apply reduce_squash in Hr as (Hh3 & -> & -> & -> & -> & ->).
  destruct e as [|q].
  { injection Hm as _ <- <-. do 3 (split; [done|]). exists done, rest. split; [done|].
    split; [by eapply squashes_hrel; [|exact Hh3|set_solver]|]. left. cbn. rewrite !fn_lookup_insert.
    subst rest. done. }
  apply bind_ok in Hm as ([[k3 r3'] w4] & Hc & Hm). apply bind_ok in Hm as (r4 & [tl ->]%updateTail_squash & Hm).
  injection Hm as _ <- <-. apply checkDone_squash in Hc as (Hh4 & Ei4 & Es4 & Ew4 & Hc).
  cbn in Ei4, Es4, Ew4 |- *. do 3 (split; [done|]). exists done, rest. split; [done|].
  assert (Hsq' : squashes done (squashedSeqNum r tid) (w_heap w) (w_heap w4)).
  { eapply squashes_hrel; [exact Hsq|exact Hh4|set_solver]. }
  split; [by eapply squashes_hrel; [exact Hsq'|exact Hh3|set_solver]|].
  rewrite (proj1 (Hsq q)) in Hc. cbn in Hc. destruct Hend as [[rest' ->] Hend].
  destruct (Z.leb_spec (seq_at (w_heap w) q) (squashedSeqNum r tid)).
  - left. destruct Hc as [-> ->]. do 2 (split; [done|]). intros q' [= <-]. done.
  - right. destruct Hend as [?|[-> ?]]; [lia|]. destruct Hc as [-> ->]. split; [done|]. split; [lia|].
    split; [done|]. eauto.
Qed.

Lemma sweep_step (h0 : heap) (tid n : nat) (single : bool) r r' w w' :
  seq_sorted h0 (instList r tid) → sweeping h0 tid n r w →
  doSquash fl curCycle tid single r w = Ok (r', w') →
  (instList r' = instList r ∧ squashedSeqNum r' = squashedSeqNum r ∧ squashWidth r' = squashWidth r) ∧
  (swept h0 tid r' w' ∨
   (single = false ∧ ∃ n', Z.of_nat n' + squashWidth r ≤ Z.of_nat n ∧ sweeping h0 tid n' r' w')).
Proof.
  intros Hso (p & l1 & l2 & El & En & Hit & Hdn & Hsq) Hs. pose proof Hso as Hso'. rewrite El in Hso'.
  pose proof (seq_sorted_NoDup _ _ Hso') as Hnd.
  assert (p ∉ l1) as Hp.
  { intros Hp. apply list.NoDup_app in Hnd as (_ & Hnd & _). apply (Hnd p Hp). left. }
  apply (doSquash_walk _ _ _ _ _ _ _ _ _ Hit El Hp Hdn) in Hs as (Ei & Es & Ew & done & rest & Er & Hsd & Hend).
  split; [done|]. pose proof (squashes_app _ _ _ _ _ _ Hsq Hsd) as Hall.
  assert (Hlist : instList r tid = reverse rest ++ reverse done ++ l2).
  { rewrite El, cons_middle, app_assoc, app_assoc. f_equal. rewrite <- reverse_app, <- Er.
    by rewrite reverse_cons, reverse_involutive. }
  destruct Hend as [(Hn & Hd & Hold)|(-> & Hw & Hd & q & rest' & -> & Hq)]; [left|right].
  - split; [done|]. split; [done|]. rewrite Es, Ei. eapply squashes_young; [|exact Hall].
    intros q Hq. rewrite Hlist, !elem_of_app, !elem_of_reverse. split; [tauto|].
    intros [Hin|?]; [exfalso|tauto]. destruct rest as [|x rest]; [by apply not_elem_of_nil in Hin|].
    specialize (Hold x eq_refl). rewrite (proj1 (Hsq x)) in Hold.
    apply elem_of_cons in Hin as [->|Hin]; [lia|]. rewrite Hlist, reverse_cons, <- app_assoc in Hso.
    apply seq_sorted_app in Hso as (_ & _ & Hlt). specialize (Hlt q x). rewrite elem_of_reverse in Hlt.
    specialize (Hlt Hin ltac:(cbn; left)). lia.
  - split; [done|]. exists (length rest'). split.
    + apply (f_equal length) in Er. rewrite length_app in Er. cbn in Er. rewrite length_reverse in Er. lia.
    + exists q, (reverse rest'), (reverse done ++ l2). rewrite Ei, Es, Hlist, reverse_cons, <- app_assoc.
      split; [done|]. rewrite length_reverse. split; [done|]. split; [done|]. split; [done|].
      eapply squashes_young; [|exact Hall]. intros y _. rewrite !elem_of_app, elem_of_reverse. tauto.
Qed.

(** [squash] starts the sweep at the tail. *)
Lemma squash_sweep (tid : nat) (sn : Z) (single : bool) r r' w w' :
  seq_sorted (w_heap w) (instList r tid) → instList r tid ≠ [] → threadEntries r tid ≠ 0 →
  squash fl curCycle sn tid single r w = Ok (r', w') →
  (instList r' = instList r ∧ squashedSeqNum r' = <[tid := sn]> (squashedSeqNum r)
   ∧ squashWidth r' = squashWidth r) ∧
  (swept (w_heap w) tid r' w' ∨
   (single = false ∧ ∃ n, Z.of_nat n + 1 + squashWidth r ≤ Z.of_nat (length (instList r tid))
      ∧ sweeping (w_heap w) tid n r' w')).
Proof.
  intros Hso Hne Ht E. unfold squash, isEmpty_tid in E. rewrite (proj2 (Z.eqb_neq _ _) Ht) in E. cbn zeta in E.
  change (instList _) with (instList r) in E at 1.
  destruct (list.last (instList r tid)) as [p|] eqn:El; [|by apply last_None in El].
  apply last_Some in El as [l El].
  match type of E with doSquash _ _ _ _ ?x _ = _ => set (r1 := x) in E end.
  eapply (sweep_step (w_heap w) tid (length l) single r1) in E as ((-> & -> & ->) & H1).
  - split; [done|]. destruct H1 as [?|(-> & n' & Hn & Hsw)]; [by left|right]. split; [done|].
    exists n'. split; [|done]. cbn in Hn. rewrite El, length_app. cbn. lia.
  - done.
  - exists p, l, []. unfold r1. cbn. rewrite !fn_lookup_insert. split; [done|]. do 3 (split; [done|]).
    apply squashes_refl.
Qed.
End squash.

(** ** Squashes, start to end *)
Section cycles.
Context {Q : Type} `{InstQueue Q} (fl : DebugFlags) (curCycle : Z).
(** The cycles that follow a squash that did not finish at once: commit calls
    [doSquash] again until the thread is done. *)
Fixpoint squashCycles (n : nat) (tid : nat) (r : ROB) (w : World Q) : res (ROB * World Q) :=
  match n with
  | O => Ok (r, w)
  | S n => if isDoneSquashing tid r then Ok (r, w)
           else '(r, w) ← doSquash fl curCycle tid false r w; squashCycles n tid r w
  end.
End cycles.

(** Once the sweep is done, further cycles change nothing. *)
Lemma cycles_done {Q} `{InstQueueLaws Q} (fl : DebugFlags) (cyc : Z) (h0 : heap) (tid n : nat)
    (r r' : ROB) (w w' : World Q) :
  swept h0 tid r w → squashCycles fl cyc n tid r w = Ok (r', w') →
  swept h0 tid r' w' ∧ instList r' = instList r ∧ squashedSeqNum r' = squashedSeqNum r.
Proof.
  intros Hs E. assert (r' = r ∧ w' = w) as [-> ->]; [|done].
  destruct n as [|n]; cbn [squashCycles] in E; [by injection E as <- <-|].
  unfold isDoneSquashing in E. rewrite (proj1 (proj2 Hs)) in E. by injection E as <- <-.
Qed.

Lemma sweep_cycles {Q} `{InstQueueLaws Q} (fl : DebugFlags) (cyc : Z) (h0 : heap) (tid n m : nat)
    (r r' : ROB) (w w' : World Q) :
  seq_sorted h0 (instList r tid) → sweeping h0 tid m r w → Z.of_nat m < Z.of_nat n * squashWidth r →
  squashCycles fl cyc n tid r w = Ok (r', w') →
  swept h0 tid r' w' ∧ instList r' = instList r ∧ squashedSeqNum r' = squashedSeqNum r.
Proof.
  revert m r w; induction n as [|n IH]; intros m r w Hso Hsw Hm E; [lia|]. cbn [squashCycles] in E.
  pose proof Hsw as (_ & _ & _ & _ & _ & _ & Hdn & _). unfold isDoneSquashing in E. rewrite Hdn in E.
  apply bind_ok in E as ([r1 w1] & Hd & E).
  destruct (sweep_step _ _ _ _ _ _ _ _ _ _ Hso Hsw Hd) as ((Ei & Es & Ew) & [Hdone|(_ & m' & Hm' & Hsw')]).
  - rewrite <- Ei, <- Es. by eapply cycles_done.
  - rewrite <- Ei, <- Es. eapply (IH m'); [by rewrite Ei|done| |done]. rewrite Ew. nia.
Qed.

(** C4: a single-cycle squash is exact.  When [squash] in single-cycle mode returns,
    the instructions of the thread with a sequence number above the squash point are
    squashed, no other instruction changed its [Squashed] flag, sequence numbers and
    the list itself are as before, and the thread is done squashing. *)
Theorem squash_single_cycle_exact {Q} `{InstQueueLaws Q} (fl : DebugFlags) (cyc : Z) (pend : nat → Z)
    (r r' : ROB) (w w' : World Q) (tid : nat) (sn : Z) :
  rob_inv fl pend r w → instList r tid ≠ [] →
  squash fl cyc sn tid true r w = Ok (r', w') →
  squashes (instList r tid) sn (w_heap w) (w_heap w')
  ∧ instList r' = instList r ∧ isDoneSquashing tid r' = true.
Proof.
  intros Hinv Hne E. assert (threadEntries r tid ≠ 0) as Ht.
  { rewrite (ri_entries _ _ _ _ Hinv). destruct (instList r tid); [done|]. cbn. lia. }
  apply squash_sweep in E as ((Ei & Es & _) & [(_ & Hd & Hs)|[? _]]); [|done| |done|done].
  - rewrite Es, Ei, fn_lookup_insert in Hs. done.
  - apply (ri_thread _ _ _ _ Hinv tid).
Qed.

(** C5: a multi-cycle squash finishes and is exact.  With a positive squash width, a
    squash of a thread with [k] instructions is done after [n] further cycles as soon
    as [k <= (n + 1) * squashWidth], and by then it has squashed exactly what a
    single-cycle squash would have. *)
Theorem squash_multi_cycle_completes {Q} `{InstQueueLaws Q} (fl : DebugFlags) (cyc : Z) (pend : nat → Z)
    (r r1 r' : ROB) (w w1 w' : World Q) (tid n : nat) (sn : Z) :
  rob_inv fl pend r w → instList r tid ≠ [] → 0 < squashWidth r →
  Z.of_nat (length (instList r tid)) ≤ (Z.of_nat n + 1) * squashWidth r →
  squash fl cyc sn tid false r w = Ok (r1, w1) →
  squashCycles fl cyc n tid r1 w1 = Ok (r', w') →
  isDoneSquashing tid r' = true ∧ instList r' = instList r
  ∧ squashes (instList r tid) sn (w_heap w) (w_heap w').
Proof.
  intros Hinv Hne Hpos Hn E Hc. assert (threadEntries r tid ≠ 0) as Ht.
  { rewrite (ri_entries _ _ _ _ Hinv). destruct (instList r tid); [done|]. cbn. lia. }
  pose proof (th_sorted _ _ _ _ _ _ _ (ri_thread _ _ _ _ Hinv tid)) as Hso.
  apply squash_sweep in E as ((Ei & Es & Ew) & Hend); [|done..].
  assert (swept (w_heap w) tid r' w' ∧ instList r' = instList r1 ∧ squashedSeqNum r' = squashedSeqNum r1)
    as ((_ & Hd & Hs) & Ei' & Es').
  { destruct Hend as [Hdone|(_ & m & Hm & Hsw)].
    - by eapply cycles_done.
    - eapply (sweep_cycles _ _ _ _ n); [by rewrite Ei|exact Hsw|rewrite Ew; nia|exact Hc]. }
  split; [done|]. split; [congruence|]. by rewrite Es', Es, Ei', Ei, fn_lookup_insert in Hs.
Qed.

(** ** Squashes cannot fail *)
Section total.
Context {Q : Type} `{InstQueueLaws Q} (fl : DebugFlags) (cyc : Z).
Implicit Types (r : ROB) (w : World Q).

Definition live (h : heap) (p : InstPtr) : Prop := is_Some (h !! p).

Lemma rob_inv_live pend r w (tid : nat) (p : InstPtr) :
  rob_inv fl pend r w → p ∈ instList r tid → live (w_heap w) p.
Proof.
  intros Hinv Hp. destruct (th_live _ _ _ _ _ _ _ (ri_thread _ _ _ _ Hinv tid) p Hp) as (d & Hd & _).
  by exists d.
Qed.

(** Over instructions of the thread's list, the loop of [doSquash] dereferences only
    live instructions and never reaches the panic of [leaveRunaheadMode]. *)
Lemma walk_total (tid : nat) (single : bool) (its : list InstPtr) : ∀ pend (ns : Z) (rt : bool) (k : Z) r w,
  rob_inv fl pend r w → its ≠ [] → (∀ p, p ∈ its → p ∈ instList r tid) →
  is_ok (doSquash_loop tid single its ns rt k r w) = true.
Proof.
  induction its as [|p its IH]; intros pend ns rt k r w Hinv Hne Hin; [done|]. cbn [doSquash_loop].
  assert (p ∈ instList r tid) as Hp by (apply Hin; left).
  destruct (rob_inv_live _ _ _ _ _ Hinv Hp) as [d Hd].
  rewrite Hd. cbn [deref mbind res_bind]. destruct (_ && _); [|done]. cbn zeta.
  destruct (squash_flags d) as [Hf1 Hf2]. rewrite (on_inst_Some _ _ _ _ Hd).
  destruct (drop_ok fl pend r w tid p d (setCanCommit (setSquashed d)) k Hinv Hp Hd Hf1 ltac:(done))
    as (r1 & E1 & Hs1 & _).
  pose proof E1 as Hinv1. eapply (rob_drop fl pend) in Hinv1 as (Hinv1 & _); [|done|done|done|done|done].
  change ((setCanCommit ∘ setSquashed) d) with (setCanCommit (setSquashed d)). rewrite E1.
  cbn [mbind res_bind]. destruct its as [|p' its]; [done|]. eapply IH; [exact Hinv1|done|].
  eapply in_list_drop; [exact Hs1|]. intros q Hq. apply Hin. by right.
Qed.

Lemma updateTail_total (h : heap) r :
  (∀ t p, p ∈ instList r t → live h p) → is_ok (updateTail h r) = true.
Proof.
  intros Hl. unfold updateTail.
  assert (∀ tids best, (∀ p, best = Some p → live h p) →
            is_ok (mfold (updateTail_step h (instList r)) best tids) = true) as Hm.
  { induction tids as [|t tids IH]; intros best Hb; [done|]. cbn [mfold].
    assert (∃ best', updateTail_step h (instList r) best t = Ok best' ∧ ∀ p, best' = Some p → live h p)
      as (best' & -> & Hb').
    { unfold updateTail_step. destruct (list.last (instList r t)) as [p|] eqn:El; [|by exists best].
      assert (live h p) as Hp by (apply last_Some in El as [l El]; apply (Hl t); rewrite El; set_solver).
      destruct best as [b|]; [|exists (Some p); split; [done|by intros ? [= <-]]].
      destruct Hp as [dp Hp], (Hb b eq_refl) as [db Hdb]. rewrite Hp, Hdb. cbn [deref mbind res_bind].
      destruct (_ <? _); eexists; (split; [done|]); intros ? [= <-]; by eexists. }
    by apply IH. }
  specialize (Hm (activeThreads r) None ltac:(done)). by destruct (mfold _ _ _).
Qed.

Lemma checkDone_total pend r w (tid : nat) (p : InstPtr) (k : Z) :
  rob_inv fl pend r w → p ∈ instList r tid → is_ok (checkDone tid p k r w) = true.
Proof.
  intros Hinv Hp. destruct (rob_inv_live _ _ _ _ _ Hinv Hp) as [d Hd]. unfold checkDone.
  rewrite Hd. cbn [deref mbind res_bind]. destruct (_ <=? _); [|done].
  destruct (_ && _); [|done].
  destruct (drop_ok fl pend r w tid p d d k Hinv Hp Hd ltac:(apply changed_refl) ltac:(done)) as (r1 & E1 & _).
  assert (w = w <| w_heap ::= <[p := d]> |>) as Ew.
  { destruct w as [h q sb]. cbn [w_heap] in Hd.
    change (MkWorld h q sb = MkWorld (<[p := d]> h) q sb). by rewrite insert_id. }
  rewrite <- Ew in E1. by rewrite E1.
Qed.

Lemma reduce_zero_total (tid : nat) (k : Z) r w :
  is_ok (reduceNumMaySquashOthers fl cyc tid k 0 r w) = true.
Proof.
  unfold reduceNumMaySquashOthers, markFollowingInstructionsAsSafe. cbn zeta.
  by destruct (0 <? k); destruct (instList _ tid).
Qed.

(** One cycle of squashing, when squashes leave the wakeups to the IEW stage. *)
Lemma doSquash_total pend r w (tid : nat) (single : bool) (p : InstPtr) :
  CD_LimitWakeDependandsToWBWidth fl = true →
  rob_inv fl pend r w → squashIt r tid = Some p → p ∈ instList r tid →
  is_ok (doSquash fl cyc tid single r w) = true.
Proof.
  intros Hlim Hinv Hit Hp. destruct (rob_inv_live _ _ _ _ _ Hinv Hp) as [d Hd]. unfold doSquash.
  rewrite Hit, bool_decide_true by by eexists. cbn [assert deref mbind res_bind]. rewrite Hd. cbn [deref mbind res_bind].
  destruct (_ <? _); [done|].
  assert (back_from p (instList r tid) ≠ []) as Hne.
  { apply list_elem_of_split_l in Hp as (l1 & l2 & -> & Hp). by rewrite back_from_app. }
  assert (∀ q, q ∈ back_from p (instList r tid) → q ∈ instList r tid) as Hsub by (intros ?; apply in_back_from).
  destruct (is_ok_spec _ (walk_total tid single _ pend 0 false 0 r w Hinv Hne Hsub)) as [[[[[e rt] k1] r1] w1] Hl].
  rewrite Hl. cbn [mbind res_bind].
  apply (rob_squash_loop fl tid single _ pend) in Hl as (Hinv1 & _ & Hs1 & _ & He); [|done|done].
  rewrite Hlim. destruct e as [|q].
  - cbn [mbind res_bind]. destruct (is_ok_spec _ (reduce_zero_total tid k1 (doneAt tid r1) w1)) as [[[n r2] w2] ->]. done.
  - assert (q ∈ instList r1 tid) as Hq by (eapply in_list_drop; [exact Hs1|exact Hsub|by apply He]).
    destruct (is_ok_spec _ (checkDone_total _ r1 w1 tid q k1 Hinv1 Hq)) as [[[k2 r2] w2] Hc]. rewrite Hc.
    cbn [mbind res_bind]. eapply rob_checkDone in Hc as (Hinv2 & _); [|done|done].
    assert (is_ok (if rt then updateTail (w_heap w2) r2 else Ok r2) = true) as [r3 ->]%is_ok_spec.
    { destruct rt; [|done]. apply updateTail_total. intros t x Hx. by eapply rob_inv_live. }
    cbn [mbind res_bind]. destruct (is_ok_spec _ (reduce_zero_total tid k2 r3 w2)) as [[[n r4] w4] ->]. done.
Qed.

Lemma cycles_total pend (tid n : nat) : ∀ r w,
  CD_LimitWakeDependandsToWBWidth fl = true → (∀ t, 0 ≤ pend t) →
  rob_inv fl pend r w → (∀ p, squashIt r tid = Some p → p ∈ instList r tid) →
  (squashIt r tid = None → doneSquashing r tid = true) →
  is_ok (squashCycles fl cyc n tid r w) = true.
Proof.
  induction n as [|n IH]; intros r w Hlim Hpos Hinv Hit Hdone; [done|]. cbn [squashCycles].
  unfold isDoneSquashing. destruct (doneSquashing r tid) eqn:Ed; [done|].
  destruct (squashIt r tid) as [p|] eqn:Ep; [|by specialize (Hdone eq_refl)].
  destruct (is_ok_spec _ (doSquash_total pend r w tid false p Hlim Hinv Ep (Hit p eq_refl))) as [[r1 w1] E].
  rewrite E. cbn [mbind res_bind]. pose proof (doSquash_iter _ _ _ _ _ _ _ _ E) as (El & _ & Hit1 & Hd1 & _).
  eapply IH; [done|done| | |done].
  - eapply rob_doSquash; [done|done| |exact E]. intros ? [= <-]%(eq_trans (eq_sym Ep)). by apply Hit.
  - rewrite El. exact Hit1.
Qed.
End total.

(** C6: squashes cannot fail.  When squashes leave the wakeups to the IEW stage
    ([CD_LimitWakeDependandsToWBWidth]), in a reorder buffer that satisfies the
    invariant [squash] and the cycles after it always return: every dereferenced
    iterator points at a live instruction, and the panic of [leaveRunaheadMode] is
    never reached. *)
Theorem squash_total {Q} `{InstQueueLaws Q} (fl : DebugFlags) (cyc : Z) (pend : nat → Z)
    (r : ROB) (w : World Q) (tid n : nat) (sn : Z) (single : bool) :
  CD_LimitWakeDependandsToWBWidth fl = true → rob_inv fl pend r w → (∀ t, 0 ≤ pend t) →
  instList r tid ≠ [] →
  ∃ r1 w1 r' w', squash fl cyc sn tid single r w = Ok (r1, w1)
                 ∧ squashCycles fl cyc n tid r1 w1 = Ok (r', w').
Proof.
  intros Hlim Hinv Hpos Hne. assert (threadEntries r tid ≠ 0) as Ht.
  { rewrite (ri_entries _ _ _ _ Hinv). destruct (instList r tid); [done|]. cbn. lia. }
  assert (is_ok (squash fl cyc sn tid single r w) = true) as [[r1 w1] E]%is_ok_spec.
  { unfold squash, isEmpty_tid. rewrite (proj2 (Z.eqb_neq _ _) Ht). cbn zeta.
    case_match eqn:El; [|done]. apply last_Some in El as [l El]. cbn in El.
    eapply (doSquash_total fl cyc pend); [done|by eapply rob_inv_ext|by cbn; rewrite fn_lookup_insert|].
    cbn. rewrite El. set_solver. }
  exists r1, w1. assert (is_ok (squashCycles fl cyc n tid r1 w1) = true) as [[r' w'] Ec]%is_ok_spec.
  2: { exists r', w'. by split. }
  pose proof E as Hinv1. apply (rob_squash fl cyc pend) in Hinv1; [|done|done].
  unfold squash, isEmpty_tid in E. rewrite (proj2 (Z.eqb_neq _ _) Ht) in E. cbn zeta in E.
  case_match eqn:El; [|by apply last_None in El].
  apply doSquash_iter in E as (El1 & _ & Hit & Hd & _). cbn in El1, Hit.
  eapply cycles_total; [done|done|exact Hinv1| |exact Hd]. rewrite El1. exact Hit.
Qed.
