(* ===== verification/ROBProps.v ===== *)
(** * Behaviour of the reorder-buffer operations

    What insertion, the walk that makes instructions safe, retirement and the head
    search do, operation by operation. *)

From S2P Require Import Prelude Regs DynInst Scoreboard IQInterface ROB ROBInv ROBOps.
Local Open Scope Z_scope.

Section walk.
Context {Q : Type} `{InstQueueLaws Q} (fl : DebugFlags) (curCycle : Z).
Implicit Types (w : World Q) (r : ROB).

(** ** The walk *)
(** Stays unsafe until it retires. *)
Definition stuck_unsafe (d : DynInst) : bool :=
  isSquashed d || (CD_MarkUnsafeIf_LoadtInstruction fl && isLoad d).

Lemma markOne_exact (p : InstPtr) (n n' : Z) (d : DynInst) w w' :
  w_heap w !! p = Some d → markOneAsSafe fl curCycle p n w = Ok (n', w') →
  (∃ d', w_heap w' !! p = Some d' ∧ changed [Unsafe] d d' ∧ isUnsafe d' = isUnsafe d && stuck_unsafe d)
  ∧ n ≤ n' ≤ n + 1.
Proof.
  intros Hd Hm. pose proof Hm as Hs. apply markOne_spec in Hs.
  destruct (hrel_lookup _ _ _ _ _ Hs Hd) as (d' & Hd' & Hc).
  unfold markOneAsSafe in Hm. rewrite Hd in Hm. cbn [deref mbind res_bind] in Hm. cbn zeta in Hm.
  unfold stuck_unsafe.
  destruct (negb (isSquashed d) && isUnsafe d && negb (CD_MarkUnsafeIf_LoadtInstruction fl && isLoad d)) eqn:Hb.
  - rewrite !andb_true_iff, !negb_true_iff in Hb. destruct Hb as [[Hsq Hu] Hl]. rewrite Hsq, Hu, Hl. cbn.
    assert (Hun : ∀ w1, hrel (λ _, changed []) (w_heap (on_inst p clearUnsafe w)) (w_heap w1) → w_heap w1 = w_heap w' →
      ∃ d', w_heap w' !! p = Some d' ∧ changed [Unsafe] d d' ∧ isUnsafe d' = false).
    { intros w1 Hrel <-. eapply hrel_lookup in Hrel as (d1 & Hd1 & Hc1).
      2: { cbn. rewrite (alter_Some _ _ _ _ Hd). apply lookup_insert_eq. }
      exists d1. split; [done|]. split.
      - apply (changed_trans _ d (clearUnsafe d)); [apply changed_st_reset|].
        eapply changed_mono; [|exact Hc1]. set_solver.
      - unfold isUnsafe. rewrite (changed_get _ _ _ _ Hc1) by set_solver. apply get_st_reset_eq. }
    destruct (isWritebackDone d).
    + apply bind_ok in Hm as (w1 & Hw & Hm). injection Hm as <- <-. split; [|lia].
      eapply Hun; [by eapply wakeup_calm|done].
    + injection Hm as <- <-. split; [|lia]. by eapply (Hun (on_inst p clearUnsafe w)); [apply hrel_refl|].
  - injection Hm as <- <-. split; [|lia]. exists d. split; [done|]. split; [done|].
    destruct (isUnsafe d); [|done]. cbn. rewrite andb_true_r in Hb.
    apply andb_false_iff in Hb as [->%negb_false_iff| ->%negb_false_iff]; [done|]. by rewrite orb_true_r.
Qed.

(** The walk wakes no more instructions than it is allowed to. *)
Lemma walk_budget (mx : Z) (its : list InstPtr) : ∀ (n n' : Z) w w',
  markFollowing_loop fl curCycle mx its n w = Ok (n', w') → n ≤ mx → n ≤ n' ≤ mx.
Proof.
  induction its as [|p its IH]; intros n n' w w' Hm Hn; cbn in Hm; [injection Hm as <- <-; lia|].
  destruct (Z.ltb_spec n mx); [|injection Hm as <- <-; lia].
  apply bind_ok in Hm as ([n1 w1] & Hone & Hm).
  assert (∃ d, w_heap w !! p = Some d) as [d Hd].
  { unfold markOneAsSafe in Hone. apply bind_ok in Hone as (d & Hd%deref_ok & _). eauto. }
  destruct (markOne_exact _ _ _ _ _ _ Hd Hone) as [_ Hn1].
  apply bind_ok in Hm as (d1 & _ & Hm). destruct (maySquashOthers d1).
  - injection Hm as <- <-. lia.
  - apply IH in Hm; lia.
Qed.

(** Given budget, everything up to the first unresolved branch becomes safe. *)
Lemma walk_reaches (mx : Z) (its : list InstPtr) : ∀ (n n' : Z) w w' (q : InstPtr) (d : DynInst),
  NoDup its → n + Z.of_nat (length its) ≤ mx →
  markFollowing_loop fl curCycle mx its n w = Ok (n', w') →
  reachable (w_heap w) its q → w_heap w !! q = Some d →
  ∃ d', w_heap w' !! q = Some d' ∧ isUnsafe d' = isUnsafe d && stuck_unsafe d.
Proof.
  induction its as [|p its IH]; intros n n' w w' q d Hnd Hmx Hm (l1 & l2 & El & Hl1) Hd; [by destruct l1|].
  cbn [markFollowing_loop length] in *. inversion_clear Hnd as [|? ? Hnot Hnd'].
  destruct (Z.ltb_spec n mx); [|lia].
  apply bind_ok in Hm as ([n1 w1] & Hone & Hm). apply bind_ok in Hm as (dp & Hdp%deref_ok & Hm).
  assert (∃ e, w_heap w !! p = Some e) as [e He].
  { unfold markOneAsSafe in Hone. apply bind_ok in Hone as (e & He%deref_ok & _). eauto. }
  destruct (markOne_exact _ _ _ _ _ _ He Hone) as [(e' & He' & Hce & Hue) Hn1]. simplify_eq.
  assert (may_at (w_heap w) p = maySquashOthers dp) as Hmay.
  { rewrite (st_at_lookup _ _ _ _ He). unfold maySquashOthers. symmetry. eapply changed_get; [done|set_solver|done]. }
  pose proof (markOne_spec _ _ _ _ _ _ _ Hone) as Hs1.
  destruct l1 as [|x l1]; cbn in El; simplify_eq.
  - destruct (maySquashOthers dp); [injection Hm as <- <-; eauto|].
    apply markFollowing_spec in Hm. destruct (hrel_lookup _ _ _ _ _ Hm Hdp) as (d2 & Hd2 & Hms).
    exists d2. split; [done|]. rewrite <- Hue. unfold isUnsafe.
    eapply changed_get; [eapply madeSafe_off; [exact Hms|]|set_solver|done].
    intros (k1 & k2 & -> & _). set_solver.
  - rewrite <- Hmay, (Hl1 x) in Hm by set_solver.
    destruct (hrel_lookup _ _ _ _ _ Hs1 Hd) as (d1 & Hd1 & Hms1).
    assert (q ≠ x) as Hqx by set_solver.
    pose proof (madeSafe_off _ _ _ _ Hms1 Hqx) as Hc1.
    eapply (IH n1 n' w1 w' q d1) in Hm as (d2 & Hd2 & Hu2); [|done|lia| |done].
    + exists d2. split; [done|]. rewrite Hu2. unfold stuck_unsafe, isUnsafe, isSquashed.
      rewrite (changed_isLoad _ _ _ Hc1). by rewrite !(changed_get _ _ _ _ Hc1) by set_solver.
    + exists l1, l2. split; [done|]. intros y Hy. rewrite <- (Hl1 y) by set_solver.
      eapply st_at_hrel; [exact Hs1|]. intros ?? _ Hms. by eapply madeSafe_flag.
Qed.
End walk.

(** C7: resolving a branch makes the right instructions safe.  With enough wakeup
    budget, after [reduceNumMaySquashOthers] every instruction with no unresolved
    branch in front of it is safe (unless it is squashed, or a load that stays
    unsafe until retirement); an instruction behind an unresolved branch keeps its
    [Unsafe] flag. *)
Theorem walk_exact {Q} `{InstQueueLaws Q} (fl : DebugFlags) (cyc : Z) (pend : nat → Z) (r r' : ROB)
    (w w' : World Q) (tid : nat) (k mx n : Z) (q : InstPtr) (d : DynInst) :
  rob_inv fl pend r w → q ∈ instList r tid → w_heap w !! q = Some d →
  Z.of_nat (length (instList r tid)) ≤ mx →
  reduceNumMaySquashOthers fl cyc tid k mx r w = Ok (n, r', w') →
  ∃ d', w_heap w' !! q = Some d'
  ∧ (reachable (w_heap w) (instList r tid) q → isUnsafe d' = isUnsafe d && stuck_unsafe fl d)
  ∧ (¬ reachable (w_heap w) (instList r tid) q → isUnsafe d' = isUnsafe d).
Proof.
  intros Hinv Hq Hd Hmx E. unfold reduceNumMaySquashOthers in E. cbn zeta in E.
  apply bind_ok in E as ([n0 w0] & Hm & E). injection E as _ _ <-.
  assert (instList (if 0 <? k then r <| numInstThatMayCauseSquash ::=
    <[tid := numInstThatMayCauseSquash r tid - k]> |> else r) = instList r) as El by (by destruct (0 <? k)).
  rewrite El in Hm. unfold markFollowingInstructionsAsSafe in Hm.
  pose proof (markFollowing_spec _ _ _ _ _ _ _ _ Hm) as Hs.
  destruct (hrel_lookup _ _ _ _ _ Hs Hd) as (d' & Hd' & Hms). exists d'. split; [done|]. split.
  - intros Hr. eapply walk_reaches in Hm as (d2 & Hd2 & Hu); [| |exact Hmx|exact Hr|exact Hd]; [congruence|].
    eapply seq_sorted_NoDup, (ri_thread _ _ _ _ Hinv tid).
  - intros Hn. unfold isUnsafe. eapply changed_get; [by eapply madeSafe_off|set_solver|done].
Qed.

(** ** Insertion *)
Lemma mark_effect (fl : DebugFlags) (cyc : Z) (r : ROB) (d : DynInst) (tid : nat) :
  let d1 := markIfRunahead tid r (markIfUnsafe fl tid r (setInROB cyc d)) in
  isUnsafe d1 = isUnsafe d || (if 0 <? numInstThatMayCauseSquash r tid
                               then negb (exempt fl d)
                               else CD_MarkUnsafeIf_LoadtInstruction fl && isLoad d)
  ∧ maySquashOthers d1 = maySquashOthers d ∧ isInROB d1 = true
  ∧ isRunahead d1 = isRunahead d || (inRunaheadMode r tid && isUnsafe d1).
Proof.
  cbn zeta. set (d2 := markIfUnsafe fl tid r (setInROB cyc d)).
  assert (isUnsafe d2 = isUnsafe d || (if 0 <? numInstThatMayCauseSquash r tid
     then negb (exempt fl d) else CD_MarkUnsafeIf_LoadtInstruction fl && isLoad d)
    ∧ maySquashOthers d2 = maySquashOthers d ∧ isInROB d2 = true ∧ isRunahead d2 = isRunahead d)
    as (Hu & Hm & Hi & Hr).
  { unfold d2, markIfUnsafe, exempt. change (isLoad (setInROB cyc d)) with (isLoad d).
    unfold isUnsafe, maySquashOthers, isInROB, isRunahead, setUnsafe, setInROB.
    set (d0 := d <| addedToROBTimestamp := cyc |>). change (get_st Unsafe d) with (get_st Unsafe d0).
    change (get_st MaySquashOthers d) with (get_st MaySquashOthers d0).
    change (get_st Runahead d) with (get_st Runahead d0).
    destruct (0 <? _); [destruct (CD_Allow_NonLoads_AfterBranch fl && negb (isLoad d))
                       |destruct (CD_MarkUnsafeIf_LoadtInstruction fl && isLoad d)];
      autorewrite with dyn; rewrite ?orb_true_r, ?orb_false_r; done. }
  unfold markIfRunahead. destruct (inRunaheadMode r tid && isUnsafe d2) eqn:Eb.
  - unfold isUnsafe, maySquashOthers, isInROB, isRunahead, setRunahead in *. autorewrite with dyn.
    rewrite Hu, Hm, Hi. do 3 (split; [done|]). rewrite <- Hu, Eb. by rewrite orb_true_r.
  - do 3 (split; [done|]). by rewrite Hr, Eb, orb_false_r.
Qed.

(** what insertion does.  The new instruction goes to the end of its thread's
    list; it is marked unsafe exactly when an unresolved branch is in flight (unless
    non-loads are exempt) or it is a load under the load policy; in runahead mode a
    branch loses its [MaySquashOthers] flag and is not counted; otherwise the branch
    is counted, and it starts runahead mode when the policy says so. *)
Theorem insertInst_effect {Q} `{InstQueue Q} (fl : DebugFlags) (cyc : Z) (r r' : ROB) (w w' : World Q)
    (p : InstPtr) (d : DynInst) (age : Z) :
  w_heap w !! p = Some d → insertInst fl cyc p age r w = Ok (r', w') →
  let tid := threadNumber d in
  let counted := maySquashOthers d && negb (inRunaheadMode r tid) in
  let n' := numInstThatMayCauseSquash r tid + Z.b2z counted in
  ∃ d', w_heap w' !! p = Some d'
  ∧ instList r' tid = instList r tid ++ [p]
  ∧ isUnsafe d' = isUnsafe d || (if 0 <? numInstThatMayCauseSquash r tid then negb (exempt fl d)
                                 else CD_MarkUnsafeIf_LoadtInstruction fl && isLoad d)
  ∧ maySquashOthers d' = counted
  ∧ numInstThatMayCauseSquash r' tid = n'
  ∧ inRunaheadMode r' tid = inRunaheadMode r tid
      || (counted && ShouldEnterRunaheadMode fl tid age
                       (r <| numInstThatMayCauseSquash ::= <[tid := n']> |>)).
Proof.
  intros Hd Hi. apply insertInst_inv in Hi as (d0 & d' & n & b & hd & tl & E & [Hn ->] & ->).
  rewrite Hd in E. injection E as <-. cbn zeta. set (tid := threadNumber d) in *. exists d'.
  split; [apply lookup_insert_eq|].
  match type of Hn with noteMaySquash _ _ _ _ ?x = _ => set (r1 := x) in * end.
  destruct (mark_effect fl cyc r1 d tid) as (Hu & Hm & _ & _).
  set (d1 := markIfRunahead tid r1 (markIfUnsafe fl tid r1 (setInROB cyc d))) in *.
  change (numInstThatMayCauseSquash r1) with (numInstThatMayCauseSquash r) in Hu.
  split; [unfold r1; cbn; by rewrite fn_lookup_insert|]. rewrite <- Hu, <- Hm.
  unfold noteMaySquash in Hn. change (inRunaheadMode r1) with (inRunaheadMode r) in Hn.
  change (numInstThatMayCauseSquash r1) with (numInstThatMayCauseSquash r) in Hn.
  assert (HE : ∀ m, ShouldEnterRunaheadMode fl tid age (r1 <| numInstThatMayCauseSquash ::= <[tid := m]> |>)
    = ShouldEnterRunaheadMode fl tid age (r <| numInstThatMayCauseSquash ::= <[tid := m]> |>)) by done.
  destruct (maySquashOthers d1) eqn:Em; [destruct (inRunaheadMode r tid) eqn:Er|]; cbn [andb negb Z.b2z orb].
  - injection Hn as <- Hrn Hb. cbn. rewrite <- Hrn, <- Hb. rewrite Er. split; [by apply get_st_reset_ne|].
    split; [apply get_st_reset_eq|]. split; [lia|done].
  - rewrite HE in Hn. destruct (ShouldEnterRunaheadMode _ _ _ _).
    + injection Hn as <- Hrn Hb. cbn. rewrite <- Hrn, <- Hb, !fn_lookup_insert.
      split; [by apply get_st_set_ne|]. split; [|done]. rewrite <- Em. by apply get_st_set_ne.
    + injection Hn as <- Hrn Hb. cbn. rewrite <- Hrn, <- Hb, fn_lookup_insert, Er. done.
  - injection Hn as <- Hrn Hb. cbn. rewrite <- Hrn, <- Hb. rewrite orb_false_r, Z.add_0_r. done.
Qed.

(** ** Retirement *)
(** retirement publishes.  When [retireHead] retires an instruction that was
    still unsafe (and not squashed), each of its renamed destinations is ready in the
    scoreboard afterwards, so its result cannot be lost. *)
Theorem retire_publishes {Q} `{InstQueueLaws Q} (fl : DebugFlags) (cyc : Z) (pend : nat → Z) (r r' : ROB)
    (w w' : World Q) (tid : nat) (p : InstPtr) (d : DynInst) (x : PhysRegId) :
  rob_inv fl pend r w → hd_error (instList r tid) = Some p → w_heap w !! p = Some d →
  isUnsafe d = true → isSquashed d = false → x ∈ renamedDests d → isFixedMapping x = false →
  retireHead fl cyc tid r w = Ok (r', w') →
  ready_bit (w_sb w') x = Some true ∧ instList r' tid = List.tl (instList r tid).
Proof.
  intros Hinv Hp Hd Hu Hs Hx Hf E. pose proof E as Hr.
  apply retireHead_inv in Hr as (p' & l & d' & hd & El & _ & _ & _ & _ & ->); [|apply Hinv].
  split; [|cbn; by rewrite fn_lookup_insert, El].
  unfold retireHead in E. apply bind_ok in E as (? & _ & E). rewrite Hp in E. cbn [deref mbind res_bind] in E.
  rewrite Hd in E. cbn [deref mbind res_bind] in E. apply bind_ok in E as (? & _ & E). cbn zeta in E.
  rewrite Hu, Hs in E. cbn [andb negb] in E. apply bind_ok in E as (w1 & Hw & E).
  apply bind_ok in E as ([r2 w2] & Hb & E). cbn zeta in E. apply bind_ok in E as (r3 & _ & E).
  injection E as _ <-.
  assert (Hready : ready_bit (w_sb w1) x = Some true).
  { apply wakeup_spec in Hw as (_ & e & He & _ & Hset). eapply setRegs_ready; [|exact Hset| |done].
    - apply (ri_regs _ _ _ _ Hinv).
    - cbn in He. rewrite !lookup_alter_eq, Hd in He. cbn in He. injection He as <-. exact Hx. }
  destruct (maySquashOthers d); [|by injection Hb as _ <-].
  apply bind_ok in Hb as (? & _ & Hb). cbn zeta in Hb. apply bind_ok in Hb as ([n w3] & Hm & Hb).
  injection Hb as _ <-. unfold markFollowingInstructionsAsSafe in Hm. cbn [markFollowing_loop] in Hm.
  destruct (0 <? 1); [|by injection Hm as _ <-].
  apply bind_ok in Hm as ([n1 w4] & Hone & Hm). apply bind_ok in Hm as (d4 & _ & Hm).
  assert (w3 = w4) as -> by (destruct (maySquashOthers d4); by injection Hm as _ <-).
  unfold markOneAsSafe in Hone. apply bind_ok in Hone as (e & _ & Hone). cbn zeta in Hone.
  destruct (_ && _ && _); [|by injection Hone as _ <-].
  destruct (isWritebackDone e); [|by injection Hone as _ <-].
  apply bind_ok in Hone as (w5 & Hw5 & Hone). injection Hone as _ <-.
  apply wakeup_spec in Hw5 as (_ & e5 & _ & _ & Hset5). by eapply setRegs_keeps_ready.
Qed.

(** ** Head and tail *)
Definition head_of (h : heap) (lists : nat → list InstPtr) (tids : list nat) (best : option (InstPtr * Z)) : Prop :=
  match best with
  | None => ∀ t, t ∈ tids → lists t = []
  | Some (p, n) => n = seq_at h p ∧ (∃ t, t ∈ tids ∧ hd_error (lists t) = Some p)
      ∧ ∀ t q, t ∈ tids → hd_error (lists t) = Some q → n ≤ seq_at h q
  end.

Lemma updateHead_scan (h : heap) (lists : nat → list InstPtr) (tids done : list nat) : ∀ best best',
  head_of h lists done best → mfold (updateHead_step h lists) best tids = Ok best' →
  head_of h lists (done ++ tids) best'.
Proof.
  revert done; induction tids as [|t tids IH]; intros done best best' Hb E; cbn [mfold] in E.
  { injection E as <-. by rewrite app_nil_r. }
  apply bind_ok in E as (b1 & Hs & E). rewrite cons_middle, app_assoc. eapply IH; [|exact E]. clear IH E.
  unfold updateHead_step in Hs. destruct (lists t) as [|p l] eqn:El.
  { injection Hs as <-. destruct best as [[q n]|]; cbn in Hb |- *.
    - destruct Hb as (-> & (t0 & Ht0 & Hq) & Hmin). split; [done|]. split; [exists t0; set_solver|].
      intros t1 q1 [Ht1|Ht1]%elem_of_app Hq1; [eauto|]. apply list_elem_of_singleton in Ht1 as ->.
      by rewrite El in Hq1.
    - intros t1 [Ht1|Ht1]%elem_of_app; [auto|]. by apply list_elem_of_singleton in Ht1 as ->. }
  apply bind_ok in Hs as (d & Hd%deref_ok & Hs). pose proof (seq_at_lookup _ _ _ Hd) as Hsq.
  assert (Hself : hd_error (lists t) = Some p) by (by rewrite El).
  destruct best as [[q n]|]; cbn in Hb.
  - destruct Hb as (-> & (t0 & Ht0 & Hq) & Hmin).
    destruct (Z.ltb_spec (seqNum d) (seq_at h q)); injection Hs as <-; cbn.
    + split; [done|]. split; [exists t; set_solver|].
      intros t1 q1 [Ht1|Ht1]%elem_of_app Hq1; [specialize (Hmin t1 q1 Ht1 Hq1); lia|].
      apply list_elem_of_singleton in Ht1 as ->. rewrite Hself in Hq1. injection Hq1 as <-. lia.
    + split; [done|]. split; [exists t0; set_solver|].
      intros t1 q1 [Ht1|Ht1]%elem_of_app Hq1; [eauto|].
      apply list_elem_of_singleton in Ht1 as ->. rewrite Hself in Hq1. injection Hq1 as <-. lia.
  - injection Hs as <-. cbn. split; [done|]. split; [exists t; set_solver|].
    intros t1 q1 [Ht1|Ht1]%elem_of_app Hq1; [by rewrite (Hb t1 Ht1) in Hq1|].
    apply list_elem_of_singleton in Ht1 as ->. rewrite Hself in Hq1. injection Hq1 as <-. lia.
Qed.

(** [updateHead] finds the oldest instruction: the new head is an instruction of
    an active thread and no instruction of an active thread is older; there is no
    head exactly when the active threads are empty. *)
Theorem head_is_oldest {Q} (fl : DebugFlags) (pend : nat → Z) (r r' : ROB) (w : World Q) :
  rob_inv fl pend r w → updateHead (w_heap w) r = Ok r' →
  match head r' with
  | None => ∀ t, t ∈ activeThreads r → instList r t = []
  | Some p => (∃ t, t ∈ activeThreads r ∧ p ∈ instList r t)
      ∧ ∀ t q, t ∈ activeThreads r → q ∈ instList r t → seq_at (w_heap w) p ≤ seq_at (w_heap w) q
  end.
Proof.
  intros Hinv E. unfold updateHead in E. apply bind_ok in E as (best & Hs & E). injection E as <-.
  apply (updateHead_scan _ _ _ []) in Hs; [|intros t Ht; by apply not_elem_of_nil in Ht].
  cbn in Hs |- *. destruct best as [[p n]|]; cbn in Hs |- *; [|done].
  destruct Hs as (-> & (t0 & Ht0 & Hp) & Hmin). split.
  - exists t0. split; [done|]. destruct (instList r t0); [done|]. injection Hp as ->. left.
  - intros t q Ht Hq. pose proof (th_sorted _ _ _ _ _ _ _ (ri_thread _ _ _ _ Hinv t)) as Hso.
    specialize (Hmin t). destruct (instList r t) as [|x l]; [by apply not_elem_of_nil in Hq|].
    specialize (Hmin x Ht eq_refl). apply elem_of_cons in Hq as [->|Hq]; [done|].
    destruct Hso as [Hso _]. specialize (Hso q Hq). lia.
Qed.
