(* ===== verification/IEW.v ===== *)
(** * Issue, execute and writeback

    The parts of [src/cpu/o3/iew_impl.hh] that decide when results become visible
    and who gets squashed: the squash signal to commit, the resolution of a
    branch after it executed, writeback, the hand-over of resolved branches to
    the reorder buffer, the taint check of the secure-memory mode, and the search
    for a writeback slot.

    [TheISA::advancePC] is a parameter.  The outcome of
    the load/store queue's violation check is an argument of [resolveInst]. *)

From S2P Require Import Prelude Regs DynInst Scoreboard IQInterface ROB.
Local Open Scope Z_scope.

(** ** Data *)
(** The per-thread part of [DefaultIEWDefaultCommit], the message to commit. *)
Record CommitMsg := MkCommitMsg {
  cm_mispredictInst : nat → option InstPtr;
  cm_squashedSeqNum : nat → Z;
  cm_pc : nat → PCState;
  cm_squash : nat → bool;
  cm_branchTaken : nat → bool;
  cm_includeSquashInst : nat → bool;
}.
#[export] Instance CommitMsg_eta : Updatable CommitMsg := λ r, MkCommitMsg (cm_mispredictInst r)
  (cm_squashedSeqNum r) (cm_pc r) (cm_squash r) (cm_branchTaken r) (cm_includeSquashInst r).

Record IEW := MkIEW {
  toCommit : CommitMsg;
  numClearedMaySquashOthers : nat → Z;
  wroteToTimeBuffer : bool;
  fetchRedirect : nat → bool;
  wbNumInst : nat;
  wbCycle : nat;
  wbWidth : Z;
  numWokenInstructions : Z;
  iewActiveThreads : list nat;
}.
#[export] Instance IEW_eta : Updatable IEW := λ r, MkIEW (toCommit r)
  (numClearedMaySquashOthers r) (wroteToTimeBuffer r) (fetchRedirect r) (wbNumInst r) (wbCycle r)
  (wbWidth r) (numWokenInstructions r) (iewActiveThreads r).

(** ** Writeback slots *)
(** [iewQueue[cycle].insts[slot]]: the instructions scheduled for writeback, and
    [iewQueue[cycle].size]. *)
Abbreviation slots := (gmap (nat * nat) InstPtr).
Record IEWQueue := MkIEWQueue {
  iewq_insts : slots;
  iewq_size : nat → Z;
}.
#[export] Instance IEWQueue_eta : Updatable IEWQueue := λ r, MkIEWQueue (iewq_insts r) (iewq_size r).

(** The search of [instToCommit]: the first free slot from the current position. *)
Fixpoint findSlot (fuel : nat) (width : nat) (q : slots) (cycle slot : nat) : res (nat * nat) :=
  match fuel with
  | O => Err OutOfFuel
  | S fuel =>
      match q !! (cycle, slot) with
      | None => Ok (cycle, slot)
      | Some _ =>
          let slot := S slot in
          if decide (slot = width) then findSlot fuel width q (S cycle) 0%nat
          else findSlot fuel width q cycle slot
      end
  end.
(** One more step than there are instructions in the queue is enough. *)
Definition instToCommit (p : InstPtr) (s : IEW) (q : IEWQueue) : res (IEW * IEWQueue) :=
  '(c, n) ← findSlot (S (size (iewq_insts q))) (Z.to_nat (wbWidth s)) (iewq_insts q)
              (wbCycle s) (wbNumInst s);
  Ok (s <| wbCycle := c |> <| wbNumInst := n |>,
      q <| iewq_insts ::= <[(c, n) := p]> |> <| iewq_size ::= <[c := iewq_size q c + 1]> |>).

(** ** Squash signals *)
Section signals.
Context (advancePC : StaticInst → PCState → PCState).

Definition mispredicted (d : DynInst) : bool := negb (pc_eqb (advancePC (staticInst d) (pc d)) (predPC d)).

Definition squashDueToBranch (p : InstPtr) (d : DynInst) (tid : nat) (s : IEW) : IEW :=
  let m := toCommit s in
  if negb (cm_squash m tid) || (seqNum d <? cm_squashedSeqNum m tid) then
    s <| toCommit :=
           m <| cm_squash ::= <[tid := true]> |>
             <| cm_squashedSeqNum ::= <[tid := seqNum d]> |>
             <| cm_branchTaken ::= <[tid := branching (pc d)]> |>
             <| cm_pc ::= <[tid := advancePC (staticInst d) (pc d)]> |>
             <| cm_mispredictInst ::= <[tid := Some p]> |>
             <| cm_includeSquashInst ::= <[tid := false]> |> |>
      <| wroteToTimeBuffer := true |>
  else s.

Definition squashDueToMemOrder (d : DynInst) (tid : nat) (s : IEW) : IEW :=
  let m := toCommit s in
  if negb (cm_squash m tid) || (seqNum d <=? cm_squashedSeqNum m tid) then
    s <| toCommit :=
           m <| cm_squash ::= <[tid := true]> |>
             <| cm_squashedSeqNum ::= <[tid := seqNum d]> |>
             <| cm_pc ::= <[tid := pc d]> |>
             <| cm_mispredictInst ::= <[tid := None]> |>
             <| cm_includeSquashInst ::= <[tid := true]> |> |>
      <| wroteToTimeBuffer := true |>
  else s.

(** ** Resolution after execution *)
(** "Check if branch prediction was correct": what [executeInsts] does with an
    instruction once it executed.  [violator] is the pending memory-order
    violation of the thread, if any; the last component of the result is the
    violator reported to the IQ by [instQueue.violation(inst, violator)]. *)
Definition resolveInst (fl : DebugFlags) (p : InstPtr) (violator : option InstPtr) (s : IEW) (h : heap)
    : res (IEW * heap * option InstPtr) :=
  d ← deref (h !! p);
  let tid := threadNumber d in
  if negb (fetchRedirect s tid) || negb (cm_squash (toCommit s) tid)
     || (seqNum d <? cm_squashedSeqNum (toCommit s) tid)
  then
    let loadNotExecuted := negb (isExecuted d) && isLoad d in
    if mispredicted d && negb loadNotExecuted then
      let s := s <| fetchRedirect ::= <[tid := true]> |> in
      Ok (squashDueToBranch p d tid s, h, None)
    else
      match violator with
      | Some v =>
          _ ← assert (isMemRef d);
          dv ← deref (h !! v);
          let s := s <| fetchRedirect ::= <[tid := true]> |> in
          Ok (squashDueToMemOrder dv tid s, h, Some v)
      | None =>
          if maySquashOthers d then
            if isRunahead d then
              let s := squashDueToBranch p d tid s in
              Ok (s <| fetchRedirect ::= <[tid := true]> |>, h, None)
            else if CD_Clear_MaySquash_AtExec fl then
              Ok (s <| numClearedMaySquashOthers ::=
                         <[tid := numClearedMaySquashOthers s tid + 1]> |>,
                  alter clearMaySquashOthers p h, None)
            else Ok (s, h, None)
          else Ok (s, h, None)
      end
  else
    _ ← assert (implb (bool_decide (is_Some violator)) (isMemRef d));
    Ok (s, h, None).
End signals.

(** ** Taint *)
(** Secure-memory mode: what executing an instruction does to the taint bits and to
    its own flags.  [addrSecure] is [inst->isAddrSecure()]. *)
Definition checkIfOutputIsSpeculativelySecure (addrSecure : bool) (d : DynInst) (t : taint)
    : DynInst * taint :=
  let srcAddressIsSecureMem := isLoad d && addrSecure in
  let srcRegsAreTainted := isSrcRegsSecureSpec d t in
  if srcAddressIsSecureMem || srcRegsAreTainted then
    let d := setSecureSpec d in
    if isLoad d then
      if srcAddressIsSecureMem then (d, markDestRegsAsSecureSpec d t) else (d, t)
    else (d, markDestRegsAsSecureSpec d t)
  else if isUnsafe d then (clearUnsafe d, t)
  else (d, t).

(** ** Writeback *)
Section with_iq.
Context {Q : Type} `{InstQueue Q} (fl : DebugFlags) (curCycle : Z).
Implicit Types (w : World Q).

Definition wakeDependents (p : InstPtr) (numWoken : Z) w : res (Z * World Q) :=
  let numWoken := numWoken + 1 in
  '(_, h, q) ← IQInterface.wakeDependents fl curCycle p (w_heap w) (w_iq w);
  d ← deref (h !! p);
  sb ← mfold (λ sb reg, setReg reg sb) (w_sb w) (renamedDests d);
  Ok (numWoken, MkWorld h q sb).

(** One iteration of [writebackInsts]: the register file, [numWokenInstructions]
    and the world. *)
Definition writebackInst (st : regvals * Z * World Q) (p : InstPtr) : res (regvals * Z * World Q) :=
  let '(v, n, w) := st in
  d ← deref (w_heap w !! p);
  if negb (isSquashed d) && isExecuted d && bool_decide (fault d = NoFault) then
    '(v, n, w) ← (if negb (isUnsafe d) then
        '(n, w) ← wakeDependents p n w; Ok (v, n, w)
      else if isRunahead d then
        let loadAlreadyPropogated := CD_Runahead_QuickOutputPropagation fl && isLoad d in
        if negb loadAlreadyPropogated then
          v ← runaheadZeroOutputRegs d v;
          '(n, w) ← wakeDependents p n w; Ok (v, n, w)
        else Ok (v, n, w)
      else Ok (v, n, w));
    Ok (v, n, on_inst p setWritebackDone w)
  else if CD_Runahead_QuickOutputPropagation fl && negb (isSquashed d) && negb (isExecuted d)
          && isRunahead d && isLoad d then
    _ ← panic_if (isWritebackDone d);
    v ← runaheadZeroOutputRegs d v;
    '(n, w) ← wakeDependents p n w; Ok (v, n, w)
  else Ok (v, n, w).

(** [insts] are [toCommit->insts[0..]] up to the first null. *)
Definition writebackInsts (insts : list InstPtr) (s : IEW) (v : regvals) w
    : res (IEW * regvals * World Q) :=
  '(v, n, w) ← mfold writebackInst (v, numWokenInstructions s, w)
                 (take (Z.to_nat (wbWidth s)) insts);
  Ok (s <| numWokenInstructions := n |>, v, w).

(** ** Telling the reorder buffer *)
Definition updateMaySquash_tid (st : IEW * ROB * World Q) (tid : nat) : res (IEW * ROB * World Q) :=
  let '(s, r, w) := st in
  maxWakeups ← (if CD_LimitWakeDependandsToWBWidth fl then
      _ ← assert (numWokenInstructions s <=? wbWidth s);
      Ok (wbWidth s - numWokenInstructions s)
    else Ok (getMaxEntries tid r));
  '(n, r, w) ← reduceNumMaySquashOthers fl curCycle tid (numClearedMaySquashOthers s tid) maxWakeups r w;
  Ok (s <| numWokenInstructions ::= Z.add n |>, r, w).
Definition updateMaySquashStatusInROB (s : IEW) (r : ROB) w : res (IEW * ROB * World Q) :=
  mfold updateMaySquash_tid (s, r, w) (iewActiveThreads s).
End with_iq.

(** What [executeInsts] clears before it runs. *)
Definition executeReset (s : IEW) : IEW :=
  s <| wbNumInst := 0%nat |> <| wbCycle := 0%nat |>
    <| fetchRedirect ::= (λ f, foldr (λ tid f, <[tid := false]> f) f (iewActiveThreads s)) |>.
(** The message of a new cycle, a cleared slot of the time buffer. *)
Definition no_msg : CommitMsg :=
  MkCommitMsg (λ _, None) (λ _, 0) (λ _, MkPCState 0 0 0 0 0) (λ _, false) (λ _, false) (λ _, false).

(** The counters [tick] clears before the stage runs. *)
Definition tickReset (s : IEW) : IEW :=
  s <| wbNumInst := 0%nat |> <| wbCycle := 0%nat |> <| wroteToTimeBuffer := false |>
    <| numWokenInstructions := 0 |>
    <| numClearedMaySquashOthers ::= (λ f, foldr (λ tid f, <[tid := 0]> f) f (iewActiveThreads s)) |>.
