(* ===== verification/Commit.v ===== *)
(** * Commit

    The part of [src/cpu/o3/commit_impl.hh] that drives the reorder buffer: the
    squashes (from a trap, from a thread context, after an instruction, and from
    the IEW stage, including the exit from runahead mode), the insertion of
    renamed instructions, and the marking of completed ones.  Interrupts, traps, the
    commit of instructions and the cycle of the stage are in [CommitArch.v]. *)

From S2P Require Import Prelude Regs DynInst Scoreboard IQInterface ROB IEW.
Local Open Scope Z_scope.

Inductive ThreadStatus :=
| CRunning
| CIdle
| CROBSquashing
| TrapPending
| FetchTrapPending
| SquashAfterPending.
#[export] Instance ThreadStatus_eq_dec : EqDecision ThreadStatus.
Proof. solve_decision. Defined.

(** A thread in these states may commit ([getCommittingThread] and the thread choices it
    calls). *)
Definition may_commit (s : ThreadStatus) : bool :=
  match s with CRunning | CIdle | FetchTrapPending => true | _ => false end.

(** [commitComm], as far as squashes write it. *)
Record CommitInfo := MkCommitInfo {
  ci_pc : PCState;
  ci_mispredictInst : option InstPtr;
  ci_squashInst : option InstPtr;
  ci_doneSeqNum : Z;
  ci_squash : bool;
  ci_robSquashing : bool;
  ci_branchTaken : bool;
}.
#[export] Instance CommitInfo_eta : Updatable CommitInfo := λ r, MkCommitInfo (ci_pc r)
  (ci_mispredictInst r) (ci_squashInst r) (ci_doneSeqNum r) (ci_squash r) (ci_robSquashing r)
  (ci_branchTaken r).

Record Commit := MkCommit {
  commitStatus : nat → ThreadStatus;
  commitInfo : nat → CommitInfo;  (* toIEW->commitInfo *)
  c_pc : nat → PCState;
  youngestSeqNum : nat → Z;
  lastCommitedSeqNum : nat → Z;
  changedROBNumEntries : nat → bool;
  trapSquash : nat → bool;
  tcSquash : nat → bool;
  squashAfterInst : nat → option InstPtr;
  trapPending : nat → bool;  (* thread[tid]->trapPending *)
  noSquashFromTC : nat → bool;  (* thread[tid]->noSquashFromTC *)
  trapInFlight : nat → bool;
  renameWidth : Z;
}.
#[export] Instance Commit_eta : Updatable Commit := λ r, MkCommit (commitStatus r) (commitInfo r)
  (c_pc r) (youngestSeqNum r) (lastCommitedSeqNum r) (changedROBNumEntries r) (trapSquash r)
  (tcSquash r) (squashAfterInst r) (trapPending r) (noSquashFromTC r) (trapInFlight r)
  (renameWidth r).

(** [toIEW->commitInfo[tid]] updated by [f]. *)
Definition on_info (tid : nat) (f : CommitInfo → CommitInfo) (c : Commit) : Commit :=
  c <| commitInfo ::= <[tid := f (commitInfo c tid)]> |>.

Section with_iq.
Context {Q : Type} `{InstQueue Q} (fl : DebugFlags) (curCycle : Z).
Implicit Types (w : World Q) (r : ROB) (c : Commit).

(** Squash everything of the thread. *)
Definition squashAll (tid : nat) c r w : res (Commit * ROB * World Q) :=
  squashed_inst ← (if isEmpty_tid tid r then Ok (lastCommitedSeqNum c tid)
                   else o ← readHeadInst tid (w_heap w) r;
                        p ← deref o;
                        d ← deref (w_heap w !! p);
                        Ok (u64 (seqNum d - 1)));
  let c := c <| youngestSeqNum ::= <[tid := lastCommitedSeqNum c tid]> |> in
  '(r, w) ← squash fl curCycle squashed_inst tid false r w;
  let c := c <| changedROBNumEntries ::= <[tid := true]> |> in
  let c := on_info tid (λ i, i <| ci_doneSeqNum := squashed_inst |> <| ci_squash := true |>
                               <| ci_robSquashing := true |> <| ci_mispredictInst := None |>
                               <| ci_squashInst := None |> <| ci_pc := c_pc c tid |>) c in
  Ok (c, r, w).

Definition squashFromTrap (tid : nat) c r w : res (Commit * ROB * World Q) :=
  '(c, r, w) ← squashAll tid c r w;
  Ok (c <| trapPending ::= <[tid := false]> |> <| noSquashFromTC ::= <[tid := false]> |>
        <| trapInFlight ::= <[tid := false]> |> <| trapSquash ::= <[tid := false]> |>
        <| commitStatus ::= <[tid := CROBSquashing]> |>, r, w).

Definition squashFromTC (tid : nat) c r w : res (Commit * ROB * World Q) :=
  '(c, r, w) ← squashAll tid c r w;
  let c := c <| noSquashFromTC ::= <[tid := false]> |> in
  _ ← assert (negb (trapPending c tid));
  Ok (c <| commitStatus ::= <[tid := CROBSquashing]> |> <| tcSquash ::= <[tid := false]> |>, r, w).

Definition squashFromSquashAfter (tid : nat) c r w : res (Commit * ROB * World Q) :=
  '(c, r, w) ← squashAll tid c r w;
  let c := on_info tid (λ i, i <| ci_squashInst := squashAfterInst c tid |>) c in
  Ok (c <| squashAfterInst ::= <[tid := None]> |> <| commitStatus ::= <[tid := CROBSquashing]> |>, r, w).

Definition squashAfter (tid : nat) (head_inst : InstPtr) c : res Commit :=
  _ ← assert (match squashAfterInst c tid with
              | None => true
              | Some p => bool_decide (p = head_inst)
              end);
  Ok (c <| commitStatus ::= <[tid := SquashAfterPending]> |>
        <| squashAfterInst ::= <[tid := Some head_inst]> |>).

(** Leaving runahead mode, or the branch flavour of the squash: returns
    [squashInSingleCycle]. *)
Definition exitRunahead (tid : nat) (mispredictInst : option InstPtr) r w : res (bool * ROB * World Q) :=
  match mispredictInst with
  | None => Ok (false, r, w)
  | Some p =>
      d ← deref (w_heap w !! p);
      if isRunahead d && maySquashOthers d then
        r ← leaveRunaheadMode tid r;
        Ok (CD_Runahead_SquashInSingleCycle fl, r, on_inst p clearRunahead w)
      else Ok (CD_SquashInSingleCycle fl, r, w)
  end.

(** [fromIEW->squash[tid]]: a squash requested by the IEW stage.  A request
    younger than the youngest valid instruction is ignored.  [isUncondCtrl] is the
    static instruction's flag. *)
Definition squashFromIEW (m : CommitMsg) (tid : nat) c r w : res (Commit * ROB * World Q) :=
  if cm_squash m tid && bool_decide (commitStatus c tid ≠ TrapPending)
     && (cm_squashedSeqNum m tid <=? youngestSeqNum c tid)
  then
    '(squashInSingleCycle, r, w) ← exitRunahead tid (cm_mispredictInst m tid) r w;
    let c := c <| commitStatus ::= <[tid := CROBSquashing]> |> in
    let squashed_inst := if cm_includeSquashInst m tid then u64 (cm_squashedSeqNum m tid - 1)
                         else cm_squashedSeqNum m tid in
    let c := c <| youngestSeqNum ::= <[tid := squashed_inst]> |> in
    '(r, w) ← squash fl curCycle squashed_inst tid squashInSingleCycle r w;
    let c := c <| changedROBNumEntries ::= <[tid := true]> |> in
    squashInst ← findInst tid squashed_inst (w_heap w) r;
    taken ← (match cm_mispredictInst m tid with
             | Some p => d ← deref (w_heap w !! p);
                         Ok (si_flag IsUncondControl (staticInst d) || cm_branchTaken m tid)
             | None => Ok (cm_branchTaken m tid)
             end);
    let c := on_info tid (λ i, i <| ci_doneSeqNum := squashed_inst |> <| ci_squash := true |>
                                 <| ci_robSquashing := true |>
                                 <| ci_mispredictInst := cm_mispredictInst m tid |>
                                 <| ci_branchTaken := taken |>
                                 <| ci_squashInst := squashInst |>
                                 <| ci_pc := cm_pc m tid |>) c in
    Ok (c, r, w)
  else Ok (c, r, w).

(** The squashes [commit()] owes a thread itself: after a trap, a write through the thread
    context, or an instruction that asked for a squash behind it. *)
Definition squashPending (tid : nat) c r w : res (Commit * ROB * World Q) :=
  if trapSquash c tid then _ ← assert (negb (tcSquash c tid)); squashFromTrap tid c r w
  else if tcSquash c tid then
    _ ← assert (bool_decide (commitStatus c tid ≠ TrapPending)); squashFromTC tid c r w
  else if bool_decide (commitStatus c tid = SquashAfterPending) then squashFromSquashAfter tid c r w
  else Ok (c, r, w).

(** [tick()]: a thread still squashing continues, or is done. *)
Definition continueSquash (tid : nat) c r w : res (Commit * ROB * World Q) :=
  if bool_decide (commitStatus c tid = CROBSquashing) then
    if isDoneSquashing tid r then Ok (c <| commitStatus ::= <[tid := CRunning]> |>, r, w)
    else
      '(r, w) ← doSquash fl curCycle tid false r w;
      Ok (on_info tid (λ i, i <| ci_robSquashing := true |>) c, r, w)
  else Ok (c, r, w).

(** ** New and completed instructions *)
(** One iteration of [getInsts]; [eldestAge tid] is the LSQ's
    [getEldestBranchPrequisiteAge]. *)
Definition getInst (eldestAge : nat → Z) (st : Commit * ROB * World Q) (p : InstPtr)
    : res (Commit * ROB * World Q) :=
  let '(c, r, w) := st in
  d ← deref (w_heap w !! p);
  let tid := threadNumber d in
  if negb (isSquashed d) && bool_decide (commitStatus c tid ≠ CROBSquashing)
     && bool_decide (commitStatus c tid ≠ TrapPending)
  then
    let c := c <| changedROBNumEntries ::= <[tid := true]> |> in
    '(r, w) ← insertInst fl curCycle p (eldestAge tid) r w;
    _ ← assert (threadEntries r tid <=? getMaxEntries tid r);
    Ok (c <| youngestSeqNum ::= <[tid := seqNum d]> |>, r, w)
  else Ok (c, r, w).
Definition getInsts (eldestAge : nat → Z) (fromRename : list InstPtr) c r w
    : res (Commit * ROB * World Q) :=
  mfold (getInst eldestAge) (c, r, w) (take (Z.to_nat (renameWidth c)) fromRename).

Definition markCompletedInst (w : World Q) (p : InstPtr) : res (World Q) :=
  d ← deref (w_heap w !! p);
  if CD_Runahead_QuickOutputPropagation fl && isRunahead d && negb (isExecuted d) then Ok w
  else if negb (isSquashed d) then Ok (on_inst p setCanCommit w)
  else Ok w.
Definition markCompletedInsts (insts : list InstPtr) w : res (World Q) :=
  mfold markCompletedInst w insts.
End with_iq.
