(* ===== verification/NDAOps.v ===== *)
(** * The pipeline stages keep the reorder-buffer invariant

    Writeback, branch resolution, the hand-over of resolved branches, and commit's
    squashes, each shown to preserve [rob_inv]. *)

From S2P Require Import Prelude Regs DynInst Scoreboard IQInterface ROB ROBInv ROBOps ROBSquash IEW Commit.
Local Open Scope Z_scope.

Section ops.
Context {Q : Type} `{InstQueueLaws Q} (fl : DebugFlags) (curCycle : Z).
Implicit Types (w : World Q) (r : ROB) (pend : nat → Z).

(** ** Changes that do not matter *)
Lemma quiet_calm (p : InstPtr) (d d' : DynInst) : quiet p d d' → calm p d d'.
Proof. intros Hq. eapply changed_calm; [exact Hq|unfold unread; set_solver..]. Qed.

Lemma rob_quiet pend r w w' :
  rob_inv fl pend r w → hrel quiet (w_heap w) (w_heap w') → w_sb w' = w_sb w → rob_inv fl pend r w'.
Proof.
  intros [Ht Hr He Hn Hi] Hq Es. split; try done.
  - intros t. eapply thread_ok_ext; [|apply Ht]. eapply hrel_mono; [|exact Hq]. by intros.
  - rewrite Es. eapply regs_calm; [|exact Hr]. eapply hrel_mono; [|exact Hq]. intros p d d' _. apply quiet_calm.
Qed.

(** Waking the dependents of a visible instruction of the buffer. *)
Lemma rob_wake pend r w w' (p : InstPtr) (d : DynInst) :
  rob_inv fl pend r w → in_rob r p → w_heap w !! p = Some d → concealed d = false →
  wakeupSafeInstructionDependants fl curCycle p w = Ok w' → rob_inv fl pend r w'.
Proof.
  intros [Ht Hr He Hn Hi] Hp Hd Hc Hw. split; try done.
  - intros t. eapply thread_ok_ext; [|apply Ht].
    eapply hrel_mono; [|by eapply wakeup_calm]. intros q e e' _ Hq _. by apply changed_nil_quiet.
  - by eapply wakeup_regs.
Qed.

(** ** Writeback *)
Lemma iew_wake_rob (p : InstPtr) (n n' : Z) w w' :
  IEW.wakeDependents fl curCycle p n w = Ok (n', w') →
  wakeupSafeInstructionDependants fl curCycle p w = Ok w' ∧ n' = n + 1.
Proof.
  unfold IEW.wakeDependents, wakeupSafeInstructionDependants. cbn zeta. intros E.
  apply bind_ok in E as ([[k h] q] & -> & E). cbn [mbind res_bind].
  apply bind_ok in E as (d & -> & E). cbn [mbind res_bind].
  apply bind_ok in E as (sb & -> & E). by injection E as <- <-.
Qed.

Lemma unsafe_runahead_visible (d : DynInst) : isRunahead d = true → concealed d = false.
Proof. intros E. unfold concealed. rewrite E. by rewrite andb_false_r. Qed.
Lemma safe_visible (d : DynInst) : isUnsafe d = false → concealed d = false.
Proof. intros E. unfold concealed. by rewrite E. Qed.

Lemma rob_writebackDone pend r w (p : InstPtr) :
  rob_inv fl pend r w → rob_inv fl pend r (on_inst p setWritebackDone w).
Proof.
  intros Hinv. eapply rob_quiet; [exact Hinv| |done]. apply hrel_alter; [done|].
  intros d _. eapply changed_mono; [|apply changed_st_set]. set_solver.
Qed.

Lemma rob_writeback pend r (v v' : regvals) (n n' : Z) w w' (p : InstPtr) :
  rob_inv fl pend r w → in_rob r p →
  writebackInst fl curCycle (v, n, w) p = Ok (v', n', w') → rob_inv fl pend r w'.
Proof.
  intros Hinv Hp E. unfold writebackInst in E. apply bind_ok in E as (d & Hd%deref_ok & E).
  assert (Hwake : ∀ n1 w1, concealed d = false → IEW.wakeDependents fl curCycle p n w = Ok (n1, w1) →
    rob_inv fl pend r w1).
  { intros n1 w1 Hc [Hw _]%iew_wake_rob. by eapply rob_wake. }
  destruct (negb (isSquashed d) && isExecuted d && _).
  - apply bind_ok in E as ([[v1 n1] w1] & E1 & E). injection E as <- <- <-. apply rob_writebackDone.
    destruct (isUnsafe d) eqn:Hu; cbn [negb] in E1.
    + destruct (isRunahead d) eqn:Hr; [|by injection E1 as <- <- <-]. cbn zeta in E1.
      case_match; [|by injection E1 as <- <- <-].
      apply bind_ok in E1 as (v2 & _ & E1). apply bind_ok in E1 as ([n2 w2] & Hw & E1).
      injection E1 as <- <- <-. eapply Hwake; [by apply unsafe_runahead_visible|exact Hw].
    + apply bind_ok in E1 as ([n2 w2] & Hw & E1). injection E1 as <- <- <-.
      eapply Hwake; [by apply safe_visible|exact Hw].
  - case_match eqn:Eq; [|by injection E as <- <- <-].
    apply bind_ok in E as (? & _ & E). apply bind_ok in E as (v2 & _ & E).
    apply bind_ok in E as ([n2 w2] & Hw & E). injection E as <- <- <-.
    eapply Hwake; [|exact Hw]. apply unsafe_runahead_visible.
    rewrite !andb_true_iff in Eq. tauto.
Qed.

(** ** Branch resolution *)
(** What a squash signal leaves alone. *)
Definition same_work (s s' : IEW) : Prop :=
  numClearedMaySquashOthers s' = numClearedMaySquashOthers s
  ∧ iewActiveThreads s' = iewActiveThreads s ∧ wbWidth s' = wbWidth s
  ∧ numWokenInstructions s' = numWokenInstructions s.
Lemma squashDueToBranch_same (adv : StaticInst → PCState → PCState) (p : InstPtr) (d : DynInst)
    (tid : nat) (s : IEW) : same_work s (squashDueToBranch adv p d tid s).
Proof. unfold squashDueToBranch. cbn zeta. by case_match. Qed.
Lemma squashDueToMemOrder_same (d : DynInst) (tid : nat) (s : IEW) :
  same_work s (squashDueToMemOrder d tid s).
Proof. unfold squashDueToMemOrder. cbn zeta. by case_match. Qed.

Lemma rob_resolve pend r w w' (adv : StaticInst → PCState → PCState) (p : InstPtr) (d : DynInst)
    (viol vo : option InstPtr) (s s' : IEW) (h' : heap) :
  rob_inv fl pend r w → w_heap w !! p = Some d → p ∈ instList r (threadNumber d) →
  resolveInst adv fl p viol s (w_heap w) = Ok (s', h', vo) →
  w_heap w' = h' → w_sb w' = w_sb w →
  rob_inv fl (<[threadNumber d := pend (threadNumber d)
    + (numClearedMaySquashOthers s' (threadNumber d) - numClearedMaySquashOthers s (threadNumber d))]> pend) r w'
  ∧ (∀ t, t ≠ threadNumber d → numClearedMaySquashOthers s' t = numClearedMaySquashOthers s t)
  ∧ iewActiveThreads s' = iewActiveThreads s ∧ wbWidth s' = wbWidth s
  ∧ numWokenInstructions s' = numWokenInstructions s.
Proof.
  intros Hinv Hd Hp E Eh Esb. unfold resolveInst in E. rewrite Hd in E. cbn [deref mbind res_bind] in E.
  set (tid := threadNumber d) in *.
  assert (Hsame : ∀ s1, numClearedMaySquashOthers s1 = numClearedMaySquashOthers s → w_heap w' = w_heap w →
    rob_inv fl (<[tid := pend tid + (numClearedMaySquashOthers s1 tid - numClearedMaySquashOthers s tid)]> pend) r w').
  { intros s1 E1 E2. assert (w' = w <| w_iq := w_iq w' |>) as -> by (destruct w, w'; cbn in *; by subst).
    eapply (rob_inv_ext fl pend); [|rewrite E1; fn_cases tid|reflexivity|done].
    eapply rob_quiet; [exact Hinv| |done]. by apply hrel_refl. }
  pose proof (squashDueToBranch_same adv p d tid) as Hbr.
  pose proof (λ dv, squashDueToMemOrder_same dv tid) as Hmo.
  assert (Hdone : ∀ s1, numClearedMaySquashOthers s1 = numClearedMaySquashOthers s →
    iewActiveThreads s1 = iewActiveThreads s → wbWidth s1 = wbWidth s →
    numWokenInstructions s1 = numWokenInstructions s → s1 = s' → h' = w_heap w →
    rob_inv fl (<[tid := pend tid + (numClearedMaySquashOthers s' tid - numClearedMaySquashOthers s tid)]> pend) r w'
    ∧ (∀ t, t ≠ tid → numClearedMaySquashOthers s' t = numClearedMaySquashOthers s t)
    ∧ iewActiveThreads s' = iewActiveThreads s ∧ wbWidth s' = wbWidth s
    ∧ numWokenInstructions s' = numWokenInstructions s).
  { intros s1 E1 E2 E3 E4 <- ->. split; [by apply Hsame|]. split; [by rewrite E1|done]. }
  case_match.
  2: { apply bind_ok in E as (? & _ & E). injection E as E1 E2 _. refine (Hdone _ _ _ _ _ E1 (eq_sym E2)); done. }
  case_match.
  { injection E as E1 E2 _. destruct (Hbr (s <| fetchRedirect ::= <[tid := true]> |>)) as (?&?&?&?).
    refine (Hdone _ _ _ _ _ E1 (eq_sym E2)); done. }
  destruct viol as [v|].
  { apply bind_ok in E as (? & _ & E). apply bind_ok in E as (dv & _ & E). injection E as E1 E2 _.
    destruct (Hmo dv (s <| fetchRedirect ::= <[tid := true]> |>)) as (?&?&?&?). refine (Hdone _ _ _ _ _ E1 (eq_sym E2)); done. }
  destruct (maySquashOthers d) eqn:Hm; [|injection E as E1 E2 _; refine (Hdone _ _ _ _ _ E1 (eq_sym E2)); done].
  destruct (isRunahead d) eqn:Hr.
  { injection E as E1 E2 _. destruct (Hbr s) as (?&?&?&?). refine (Hdone _ _ _ _ _ E1 (eq_sym E2)); done. }
  destruct (CD_Clear_MaySquash_AtExec fl); [|injection E as E1 E2 _; refine (Hdone _ _ _ _ _ E1 (eq_sym E2)); done].
  injection E as <- E2 _. cbn. rewrite fn_lookup_insert. split; [|split; [intros t Ht; by rewrite fn_lookup_insert_ne|done]].
  assert (Hc : changed resolving d (clearMaySquashOthers d)).
  { eapply changed_mono; [|apply changed_st_reset]. unfold resolving. set_solver. }
  assert (Hm' : maySquashOthers (clearMaySquashOthers d) = false) by apply get_st_reset_eq.
  assert (w' = (w <| w_heap ::= <[p := clearMaySquashOthers d]> |>) <| w_iq := w_iq w' |>) as ->.
  { destruct w as [h0 q0 sb0], w' as [h1 q1 sb1]. cbn [w_heap w_sb] in *. subst h1 sb1. rewrite <- E2.
    by rewrite (alter_Some _ _ _ _ Hd). }
  eapply (rob_quiet _ _ (w <| w_heap ::= <[p := clearMaySquashOthers d]> |>)); [|by apply hrel_refl|done].
  eapply (rob_inv_ext fl (<[tid := pend tid + Z.b2z (maySquashOthers d)
            - Z.b2z (maySquashOthers (clearMaySquashOthers d))]> pend)); [|rewrite Hm, Hm'; cbn [Z.b2z]; fn_cases tid|reflexivity|done].
  eapply rob_update; [exact Hinv|exact Hp|exact Hd|exact Hc| |congruence|done| |reflexivity|done|done].
  - eapply changed_calm; [apply changed_st_reset|set_solver..].
  - unfold init_inst. rewrite Hm, Hm', Hr. cbn. lia.
Qed.

(** Resolving a branch that started runahead mode asks for a squash at it or before it. *)
Lemma resolve_initiator (adv : StaticInst → PCState → PCState) (p : InstPtr) (d : DynInst) (s s' : IEW) (h h' : heap)
    (vo : option InstPtr) :
  h !! p = Some d → init_inst d = true → resolveInst adv fl p None s h = Ok (s', h', vo) →
  cm_squash (toCommit s') (threadNumber d) = true ∧ cm_squashedSeqNum (toCommit s') (threadNumber d) ≤ seqNum d.
Proof.
  intros Hd [Hm Hra]%andb_true_iff E. unfold resolveInst in E. rewrite Hd in E. cbn [deref mbind res_bind] in E.
  set (tid := threadNumber d) in *.
  assert (Hsq : ∀ s1, toCommit s1 = toCommit s →
    cm_squash (toCommit (squashDueToBranch adv p d tid s1)) tid = true
    ∧ cm_squashedSeqNum (toCommit (squashDueToBranch adv p d tid s1)) tid ≤ seqNum d).
  { intros s1 E1. unfold squashDueToBranch. rewrite E1. destruct (cm_squash (toCommit s) tid) eqn:Hs; cbn [negb orb].
    - destruct (Z.ltb_spec (seqNum d) (cm_squashedSeqNum (toCommit s) tid)); cbn; [rewrite !fn_lookup_insert; split; [done|lia]|].
      rewrite E1. by rewrite Hs.
    - cbn. rewrite !fn_lookup_insert. split; [done|lia]. }
  destruct (_ || _) eqn:Hg.
  - rewrite Hm, Hra in E. destruct (_ && _); injection E as <- _ _; [by apply Hsq|]. by apply (Hsq s).
  - apply orb_false_iff in Hg as [[_ Hg%negb_false_iff]%orb_false_iff Hlt%Z.ltb_ge].
    apply bind_ok in E as (? & _ & E). injection E as <- _ _. done.
Qed.

(** ** The taint check *)
(** The check marks the instruction or, in the secure-memory mode, makes it safe. *)
Lemma taint_check_changed (secure : bool) (d : DynInst) (t : taint) :
  let d' := (checkIfOutputIsSpeculativelySecure secure d t).1 in
  changed [Unsafe; SecureSpec] d d' ∧ (isUnsafe d' = true → isUnsafe d = true).
Proof.
  assert (Hs : changed [Unsafe; SecureSpec] d (setSecureSpec d)) by (eapply changed_mono; [|apply changed_st_set]; set_solver).
  assert (Hu : isUnsafe (setSecureSpec d) = isUnsafe d) by (by apply get_st_set_ne).
  unfold checkIfOutputIsSpeculativelySecure. cbn zeta. destruct (_ || _).
  - destruct (isLoad _); [destruct (_ && _)|]; cbn [fst]; (split; [done|by rewrite Hu]).
  - destruct (isUnsafe d) eqn:E; cbn [fst]; [|by split; [|by rewrite E]]. split; [|done].
    eapply changed_mono; [|apply changed_st_reset]. set_solver.
Qed.
Lemma rob_taint pend r w (p : InstPtr) (d d' : DynInst) :
  SS_DefendMemRegion fl = true → rob_inv fl pend r w → w_heap w !! p = Some d →
  changed [Unsafe; SecureSpec] d d' → (isUnsafe d' = true → isUnsafe d = true) →
  rob_inv fl pend r (w <| w_heap ::= <[p := d']> |>).
Proof.
  intros Hss [Ht Hr He Hn Hi] Hd Hc Hu.
  assert (Hrel : hrel (λ _ e e', changed [Unsafe; SecureSpec] e e' ∧ (isUnsafe e' = true → isUnsafe e = true))
    (w_heap w) (<[p := d']> (w_heap w))).
  { rewrite <- (alter_Some (λ _, d') _ _ _ Hd). apply hrel_alter; [by split|]. intros e He'. by simplify_eq. }
  split; try done.
  - intros t. eapply thread_ok_changed; [| |apply Ht].
    + eapply hrel_mono; [|exact Hrel]. intros q e e' _ [Hq _] _. eapply changed_mono; [|exact Hq]. unfold unread. set_solver.
    + intros q _. unfold protected. cbn. rewrite lookup_insert. case_decide; [subst q; rewrite Hd, Hss, !orb_true_r; done|done].
  - eapply regs_calm; [|exact Hr]. eapply hrel_mono; [|exact Hrel]. intros q e e' _ [Hq Hqu]. split; [apply Hq|].
    unfold concealed, isSquashed, isRunahead. rewrite (changed_isControl _ _ _ Hq), !(changed_get _ _ _ _ Hq) by set_solver.
    split; [done|]. intros [[[H1%Hqu H2]%andb_true_iff H3]%andb_true_iff H4]%andb_true_iff. by rewrite H1, H2, H3, H4.
Qed.

(** ** Telling the reorder buffer *)
(** Branches of the threads in [l] resolved this cycle and not yet handed over. *)
Definition cleared (l : list nat) (s : IEW) (t : nat) : Z :=
  if decide (t ∈ l) then numClearedMaySquashOthers s t else 0.

(** The squash iterators point into the buffer, and are there only while a thread squashes. *)
Definition iters_ok r : Prop := ∀ t p, squashIt r t = Some p → p ∈ instList r t ∧ doneSquashing r t = false.

Lemma reduce_iters r r' w w' (tid : nat) (k mx n : Z) :
  reduceNumMaySquashOthers fl curCycle tid k mx r w = Ok (n, r', w') →
  squashIt r' = squashIt r ∧ instList r' = instList r ∧ doneSquashing r' = doneSquashing r.
Proof.
  unfold reduceNumMaySquashOthers. cbn zeta. intros E. apply bind_ok in E as ([n0 w0] & _ & E).
  injection E as _ <- _. by case_match.
Qed.

Lemma rob_updateMaySquash (l : list nat) : ∀ (s s' : IEW) r r' w w',
  NoDup l → rob_inv fl (cleared l s) r w → iters_ok r →
  mfold (updateMaySquash_tid fl curCycle) (s, r, w) l = Ok (s', r', w') →
  rob_inv fl (λ _, 0) r' w' ∧ iters_ok r' ∧ squashIt r' = squashIt r
  ∧ numClearedMaySquashOthers s' = numClearedMaySquashOthers s ∧ iewActiveThreads s' = iewActiveThreads s.
Proof.
  induction l as [|tid l IH]; intros s s' r r' w w' Hnd Hinv Hit E; cbn [mfold] in E.
  { injection E as <- <- <-. split; [|done]. by eapply rob_inv_ext. }
  inversion_clear Hnd as [|? ? Hnot Hnd'].
  apply bind_ok in E as ([[s1 r1] w1] & E1 & E). unfold updateMaySquash_tid in E1.
  apply bind_ok in E1 as (mx & _ & E1). apply bind_ok in E1 as ([[n r2] w2] & Hr & E1).
  injection E1 as <- <- <-. pose proof (reduce_iters _ _ _ _ _ _ _ _ Hr) as (Ei & El & Ed).
  assert (cleared (tid :: l) s tid = numClearedMaySquashOthers s tid) as Ec.
  { unfold cleared. rewrite decide_True by left. done. }
  pose proof (th_pend _ _ _ _ _ _ _ (ri_thread _ _ _ _ Hinv tid)) as Hpos. rewrite Ec in Hpos.
  apply (rob_reduce fl curCycle (cleared (tid :: l) s)) in Hr; [|done|rewrite Ec; lia].
  eapply IH in E; [rewrite Ei in E; exact E|done| |unfold iters_ok; by rewrite Ei, El, Ed].
  eapply rob_inv_ext; [exact Hr| |reflexivity|done].
  intros t. rewrite Ec, Z.sub_diag. unfold cleared. cbn. destruct (decide (t = tid)) as [->|Hne].
  - rewrite fn_lookup_insert. by rewrite decide_False.
  - rewrite fn_lookup_insert_ne by done. destruct (decide (t ∈ l)) as [Hin|Hin].
    + by rewrite decide_True by (by right).
    + rewrite decide_False; [done|]. by intros [?|?]%elem_of_cons.
Qed.

(** ** Commit *)
Abbreviation none := (λ _ : nat, 0) (only parsing).

Lemma squash_iters r r' w w' (tid : nat) (sn : Z) (single : bool) :
  squash fl curCycle sn tid single r w = Ok (r', w') → iters_ok r →
  iters_ok r' ∧ instList r' = instList r ∧ ∀ t, t ≠ tid → squashIt r' t = squashIt r t.
Proof.
  unfold squash. intros E Hit. case_match; [by injection E as <- <-|]. cbn zeta in E.
  case_match eqn:El0.
  2: { injection E as <- <-. cbn in El0. apply last_None in El0. split_and!; [|done|done]. intros t q Hq. cbn in Hq |- *.
       destruct (decide (t = tid)) as [->|Hne]; [by rewrite fn_lookup_insert; apply Hit in Hq as [? _]|].
       rewrite fn_lookup_insert_ne by done. by apply Hit. }
  apply doSquash_iter in E as (El & Hother & Htid & _ & Hdone). cbn in El, Hother, Htid, Hdone.
  split_and!; [|done|intros t Hne; by rewrite Hother, fn_lookup_insert_ne by done].
  intros t q Hq. rewrite El, Hdone by (by rewrite Hq). destruct (decide (t = tid)) as [->|Hne].
  - rewrite fn_lookup_insert. split; [by apply Htid|done].
  - rewrite Hother, fn_lookup_insert_ne in Hq by done. rewrite fn_lookup_insert_ne by done. by apply Hit.
Qed.

Lemma rob_exitRunahead r r' w w' (tid : nat) (mi : option InstPtr) (b : bool) :
  rob_inv fl none r w → iters_ok r →
  (∀ p d, mi = Some p → w_heap w !! p = Some d → init_inst d = true → p ∈ instList r tid) →
  exitRunahead fl tid mi r w = Ok (b, r', w') →
  rob_inv fl none r' w' ∧ iters_ok r' ∧ instList r' = instList r ∧ squashIt r' = squashIt r.
Proof.
  intros Hinv Hit Hmi E. unfold exitRunahead in E. destruct mi as [p|]; [|by injection E as <- <- <-].
  apply bind_ok in E as (d & Hd%deref_ok & E).
  destruct (isRunahead d && maySquashOthers d) eqn:Eb; [|by injection E as <- <- <-].
  apply bind_ok in E as (r1 & Hr1 & E). injection E as _ <- <-.
  assert (init_inst d = true) as Hi by (unfold init_inst; by rewrite andb_comm).
  specialize (Hmi p d eq_refl Hd Hi). apply andb_true_iff in Eb as [Er Em].
  unfold leaveRunaheadMode in Hr1. apply bind_ok in Hr1 as (? & Hrun%panic_if_ok & Hr1).
  injection Hr1 as <-. apply negb_false_iff in Hrun. split; [|done].
  assert (Hc : changed resolving d (clearRunahead d)).
  { eapply changed_mono; [|apply changed_st_reset]. unfold resolving. set_solver. }
  assert (maySquashOthers (clearRunahead d) = true) as Em'.
  { rewrite <- Em. apply get_st_reset_ne. done. }
  assert (isRunahead (clearRunahead d) = false) as Er' by apply get_st_reset_eq.
  rewrite (on_inst_Some _ _ _ _ Hd).
  eapply (rob_inv_ext fl (<[tid := 0 + Z.b2z (maySquashOthers d) - Z.b2z (maySquashOthers (clearRunahead d))]> none));
    [|rewrite Em, Em'; cbn [Z.b2z]; fn_cases tid|reflexivity|done].
  pose proof (ri_thread _ _ _ _ Hinv tid) as Ht.
  eapply (rob_update fl none); [exact Hinv|exact Hmi|exact Hd|exact Hc| |done| | |done|cbn; by rewrite fn_lookup_insert|].
  - split; [apply Hc|]. unfold concealed. rewrite (changed_isControl _ _ _ Hc).
    rewrite (th_control _ _ _ _ _ _ _ Ht p d Hmi Hd Em), !andb_false_r. split; [|done].
    unfold isSquashed, clearRunahead. by rewrite get_st_reset_ne.
  - unfold isSquashed, clearRunahead. rewrite get_st_reset_ne by done. intros Hs.
    pose proof (th_squashed _ _ _ _ _ _ _ Ht p d Hmi Hd Hs). congruence.
  - unfold init_inst. by rewrite Em, Er, Er', Em', Hrun.
  - intros t Ht'. cbn. by rewrite fn_lookup_insert_ne.
Qed.

Lemma rob_squashFromIEW (m : CommitMsg) (tid : nat) (c c' : Commit) r r' w w' :
  rob_inv fl none r w → iters_ok r →
  (∀ p d, cm_mispredictInst m tid = Some p → w_heap w !! p = Some d → init_inst d = true →
          p ∈ instList r tid) →
  squashFromIEW fl curCycle m tid c r w = Ok (c', r', w') →
  rob_inv fl none r' w' ∧ iters_ok r' ∧ (c' = c ∧ r' = r
    ∨ commitStatus c' = <[tid := CROBSquashing]> (commitStatus c) ∧ ∀ t, t ≠ tid → squashIt r' t = squashIt r t).
Proof.
  intros Hinv Hit Hmi E. unfold squashFromIEW in E. case_match; [|injection E as <- <- <-; by auto].
  apply bind_ok in E as ([[b r1] w1] & He & E). cbn zeta in E.
  apply (rob_exitRunahead _ _ _ _ _ _ _ Hinv Hit Hmi) in He as (Hinv1 & Hit1 & El1 & Ei1).
  apply bind_ok in E as ([r2 w2] & Hs & E). apply bind_ok in E as (si & _ & E).
  apply bind_ok in E as (tk & _ & E). injection E as <- <- <-.
  pose proof (squash_iters _ _ _ _ _ _ _ Hs Hit1) as (Hit2 & El2 & Ei2).
  split_and!; [|done|right; split; [done|by rewrite <- Ei1]]. eapply (rob_squash fl curCycle none); [exact Hinv1|done|exact Hs].
Qed.

Lemma rob_squashAll (tid : nat) (c c' : Commit) r r' w w' :
  rob_inv fl none r w → iters_ok r → squashAll fl curCycle tid c r w = Ok (c', r', w') →
  rob_inv fl none r' w' ∧ iters_ok r' ∧ commitStatus c' = commitStatus c ∧ ∀ t, t ≠ tid → squashIt r' t = squashIt r t.
Proof.
  intros Hinv Hit E. unfold squashAll in E. apply bind_ok in E as (sn & _ & E). cbn zeta in E.
  apply bind_ok in E as ([r2 w2] & Hs & E). injection E as <- <- <-.
  pose proof (squash_iters _ _ _ _ _ _ _ Hs Hit) as (Hit2 & El2 & Ei2).
  split; [|done]. eapply (rob_squash fl curCycle none); [exact Hinv|done|exact Hs].
Qed.

(** The squashes commit owes a thread. *)
Lemma rob_squashPending (tid : nat) (c c' : Commit) r r' w w' :
  rob_inv fl none r w → iters_ok r → squashPending fl curCycle tid c r w = Ok (c', r', w') →
  rob_inv fl none r' w' ∧ iters_ok r' ∧ (c' = c ∧ r' = r
    ∨ commitStatus c' = <[tid := CROBSquashing]> (commitStatus c) ∧ ∀ t, t ≠ tid → squashIt r' t = squashIt r t).
Proof.
  intros Hinv Hit E.
  assert (Hall : ∀ c1, squashAll fl curCycle tid c r w = Ok (c1, r', w') → commitStatus c' = <[tid := CROBSquashing]> (commitStatus c1) →
    rob_inv fl none r' w' ∧ iters_ok r' ∧ (c' = c ∧ r' = r
    ∨ commitStatus c' = <[tid := CROBSquashing]> (commitStatus c) ∧ ∀ t, t ≠ tid → squashIt r' t = squashIt r t)).
  { intros c1 Es Ec. apply rob_squashAll in Es as (? & ? & Es & ?); [|done..]. split_and!; [done..|right]. by rewrite <- Es. }
  unfold squashPending in E. destruct (trapSquash c tid); [|destruct (tcSquash c tid); [|case_bool_decide]].
  - apply bind_ok in E as (? & _ & E). unfold squashFromTrap in E. apply bind_ok in E as ([[c1 r1] w1] & Es & E).
    injection E as <- <- <-. by eapply Hall.
  - apply bind_ok in E as (? & _ & E). unfold squashFromTC in E. apply bind_ok in E as ([[c1 r1] w1] & Es & E).
    apply bind_ok in E as (? & _ & E). injection E as <- <- <-. by eapply Hall.
  - unfold squashFromSquashAfter in E. apply bind_ok in E as ([[c1 r1] w1] & Es & E). injection E as <- <- <-. by eapply Hall.
  - injection E as <- <- <-. by auto.
Qed.
End ops.
