(* ===== verification/IEWProps.v ===== *)
(** * Behaviour of the issue/execute/writeback stage

    The writeback-slot search, the arbitration of squash requests, the taint check,
    the wakeup budget and the effect of writeback. *)

From S2P Require Import Prelude Regs DynInst Scoreboard IQInterface ROB ROBInv ROBOps ROBSquash ROBProps IEW Commit NDAOps.
Local Open Scope Z_scope.

(** ** Writeback slots *)
Section slots.
Context (width : nat) (q : slots).

(** The order in which slots are tried. *)
Definition slot_pos (c n : nat) : nat := (c * width + n)%nat.

Lemma slot_pos_inj (c n c' n' : nat) :
  (n < width)%nat → (n' < width)%nat → slot_pos c n = slot_pos c' n' → c = c' ∧ n = n'.
Proof.
  unfold slot_pos. intros Hn Hn' E.
  assert (c = c') as ->.
  { apply (f_equal (λ x, x / width)%nat) in E. rewrite !Nat.div_add_l, !Nat.div_small in E by lia. lia. }
  split; [done|lia].
Qed.

(** The search finds the first free slot, or has seen [fuel] different taken ones. *)
Lemma findSlot_spec (fuel : nat) : ∀ c n, (n < width)%nat →
  match findSlot fuel width q c n with
  | Ok (c', n') => q !! (c', n') = None ∧ (n' < width)%nat ∧ (slot_pos c n ≤ slot_pos c' n')%nat
      ∧ ∀ c1 n1, (n1 < width)%nat → (slot_pos c n ≤ slot_pos c1 n1 < slot_pos c' n')%nat →
                 is_Some (q !! (c1, n1))
  | Err e => e = OutOfFuel ∧ ∃ ks : list (nat * nat), NoDup ks ∧ length ks = fuel
      ∧ ∀ k, k ∈ ks → k ∈ dom q ∧ (k.2 < width)%nat ∧ (slot_pos c n ≤ slot_pos k.1 k.2)%nat
  end.
Proof.
  induction fuel as [|fuel IH]; intros c n Hn; cbn [findSlot].
  { split; [done|]. exists []. split; [constructor|]. split; [done|]. intros k Hk. by apply not_elem_of_nil in Hk. }
  destruct (q !! (c, n)) as [p|] eqn:Eq; [|split; [done|]; split; [done|]; split; [done|]; intros ? ? _ [? ?]; exfalso; lia].
  set (c1 := if decide (S n = width) then S c else c). set (n1 := if decide (S n = width) then O else S n).
  assert (Hn1 : (n1 < width)%nat) by (unfold n1; case_decide; lia).
  assert (Hpos : slot_pos c1 n1 = S (slot_pos c n)).
  { unfold c1, n1, slot_pos. case_decide; cbn; lia. }
  assert (Estep : (if decide (S n = width) then findSlot fuel width q (S c) 0 else findSlot fuel width q c (S n))
                  = findSlot fuel width q c1 n1) by (unfold c1, n1; by case_decide).
  rewrite Estep. specialize (IH c1 n1 Hn1). destruct (findSlot fuel width q c1 n1) as [[c' n']|e].
  - destruct IH as (Hfree & Hn' & Hle & Hall). split; [done|]. split; [done|]. split; [lia|].
    intros c2 n2 Hn2 Hrange. destruct (decide (slot_pos c2 n2 = slot_pos c n)) as [E|Hne].
    + apply slot_pos_inj in E as [-> ->]; [by eexists|done|done].
    + apply Hall; [done|lia].
  - destruct IH as (-> & ks & Hnd & Hlen & Hks). split; [done|]. exists ((c, n) :: ks). split; [|split].
    + constructor; [|done]. intros Hin. apply Hks in Hin as (_ & _ & Hge). cbn [fst snd] in Hge. lia.
    + cbn. lia.
    + intros k [->|Hk]%elem_of_cons.
      * split; [by apply elem_of_dom|]. done.
      * destruct (Hks k Hk) as (? & ? & ?). split; [done|]. split; [done|lia].
Qed.

Lemma findSlot_enough (c n : nat) : (n < width)%nat →
  ∃ c' n', findSlot (S (size q)) width q c n = Ok (c', n').
Proof.
  intros Hn. pose proof (findSlot_spec (S (size q)) c n Hn) as Hs.
  destruct (findSlot _ _ _ _ _) as [[c' n']|e]; [by eauto|exfalso].
  destruct Hs as (_ & ks & Hnd & Hlen & Hks).
  assert (list_to_set ks ⊆ dom q) as Hsub by (intros k Hk; apply Hks; by apply elem_of_list_to_set in Hk).
  apply subseteq_size in Hsub. rewrite size_list_to_set, size_dom in Hsub by done. lia.
Qed.
End slots.

(** [instToCommit] always finds a writeback slot and never overwrites one: for a
    positive writeback width it returns, the slot it takes was free, it is the first
    free one from the current position, and all other slots are as before. *)
Theorem instToCommit_free_slot (p : InstPtr) (s : IEW) (q : IEWQueue) :
  (wbNumInst s < Z.to_nat (wbWidth s))%nat →
  ∃ c n s' q', instToCommit p s q = Ok (s', q')
  ∧ iewq_insts q !! (c, n) = None ∧ (n < Z.to_nat (wbWidth s))%nat
  ∧ iewq_insts q' = <[(c, n) := p]> (iewq_insts q) ∧ iewq_size q' c = iewq_size q c + 1
  ∧ ∀ c1 n1, (n1 < Z.to_nat (wbWidth s))%nat →
      (slot_pos (Z.to_nat (wbWidth s)) (wbCycle s) (wbNumInst s)
         ≤ slot_pos (Z.to_nat (wbWidth s)) c1 n1 < slot_pos (Z.to_nat (wbWidth s)) c n)%nat →
      is_Some (iewq_insts q !! (c1, n1)).
Proof.
  intros Hn. destruct (findSlot_enough _ (iewq_insts q) (wbCycle s) _ Hn) as (c & n & E).
  pose proof (findSlot_spec _ (iewq_insts q) (S (size (iewq_insts q))) (wbCycle s) _ Hn) as Hs. rewrite E in Hs.
  destruct Hs as (Hfree & Hn' & _ & Hall). exists c, n. unfold instToCommit. rewrite E. cbn [mbind res_bind].
  eexists _, _. split; [done|]. split; [done|]. split; [done|]. split; [done|].
  split; [cbn; by rewrite fn_lookup_insert|done].
Qed.

(** ** Squash requests *)
(** A request raised while instructions execute: a branch resolved against its
    prediction, or a load that read too early. *)
Inductive signal :=
| SigBranch (p : InstPtr) (d : DynInst)
| SigMemOrder (d : DynInst).
Definition sig_seq (x : signal) : Z :=
  match x with SigBranch _ d => seqNum d | SigMemOrder d => seqNum d end.

Section signals.
Context (adv : StaticInst → PCState → PCState) (tid : nat).
Definition raise (s : IEW) (x : signal) : IEW :=
  match x with
  | SigBranch p d => squashDueToBranch adv p d tid s
  | SigMemOrder d => squashDueToMemOrder d tid s
  end.
(** The message to commit is the one of request [x]. *)
Definition carries (m : CommitMsg) (x : signal) : Prop :=
  cm_squash m tid = true ∧ cm_squashedSeqNum m tid = sig_seq x
  ∧ match x with
    | SigBranch p d => cm_mispredictInst m tid = Some p ∧ cm_includeSquashInst m tid = false
        ∧ cm_pc m tid = adv (staticInst d) (pc d) ∧ cm_branchTaken m tid = branching (pc d)
    | SigMemOrder d => cm_mispredictInst m tid = None ∧ cm_includeSquashInst m tid = true
        ∧ cm_pc m tid = pc d
    end.

Lemma raise_spec (s : IEW) (x : signal) :
  (carries (toCommit (raise s x)) x
   ∧ (cm_squash (toCommit s) tid = true → sig_seq x ≤ cm_squashedSeqNum (toCommit s) tid))
  ∨ (toCommit (raise s x) = toCommit s ∧ cm_squash (toCommit s) tid = true
     ∧ cm_squashedSeqNum (toCommit s) tid ≤ sig_seq x).
Proof.
  destruct x as [p d|d]; cbn [raise sig_seq].
  - unfold squashDueToBranch. cbn zeta. destruct (cm_squash (toCommit s) tid) eqn:Es; cbn [negb orb].
    + destruct (Z.ltb_spec (seqNum d) (cm_squashedSeqNum (toCommit s) tid)); [left|right; split; [done|]; split; [done|lia]].
      split; [|lia]. unfold carries; cbn. by rewrite !fn_lookup_insert.
    + left. split; [|done]. unfold carries; cbn. by rewrite !fn_lookup_insert.
  - unfold squashDueToMemOrder. cbn zeta. destruct (cm_squash (toCommit s) tid) eqn:Es; cbn [negb orb].
    + destruct (Z.leb_spec (seqNum d) (cm_squashedSeqNum (toCommit s) tid)); [left|right; split; [done|]; split; [done|lia]].
      split; [|lia]. unfold carries; cbn. by rewrite !fn_lookup_insert.
    + left. split; [|done]. unfold carries; cbn. by rewrite !fn_lookup_insert.
Qed.

Lemma raises_oldest (l done : list signal) : ∀ s,
  (∃ x, x ∈ done ∧ carries (toCommit s) x ∧ ∀ y, y ∈ done → sig_seq x ≤ sig_seq y) →
  ∃ x, x ∈ done ++ l ∧ carries (toCommit (foldl raise s l)) x ∧ ∀ y, y ∈ done ++ l → sig_seq x ≤ sig_seq y.
Proof.
  revert done; induction l as [|z l IH]; intros done s (x & Hx & Hc & Hmin); cbn [foldl].
  { rewrite app_nil_r. eauto. }
  rewrite cons_middle, app_assoc. apply IH.
  destruct (raise_spec s z) as [[Hz Hle]|(E & _ & Hle)].
  - exists z. split; [set_solver|]. split; [done|]. specialize (Hle (proj1 Hc)).
    rewrite (proj1 (proj2 Hc)) in Hle.
    intros y [Hy|Hy]%elem_of_app; [specialize (Hmin y Hy); lia|]. apply list_elem_of_singleton in Hy as ->. lia.
  - exists x. split; [set_solver|]. rewrite E. split; [done|]. rewrite (proj1 (proj2 Hc)) in Hle.
    intros y [Hy|Hy]%elem_of_app; [by apply Hmin|]. apply list_elem_of_singleton in Hy as ->. lia.
Qed.
End signals.

(** arbitration of squash requests.  However many branch mispredictions and
    memory-order violations of a thread are found in a cycle, and in whatever order,
    the message to commit is that of one of the oldest of them, with the fields of
    its own kind. *)
Theorem squash_request_oldest (adv : StaticInst → PCState → PCState) (tid : nat) (s : IEW)
    (x0 : signal) (l : list signal) :
  cm_squash (toCommit s) tid = false →
  ∃ x, x ∈ x0 :: l ∧ carries adv tid (toCommit (foldl (raise adv tid) s (x0 :: l))) x
       ∧ ∀ y, y ∈ x0 :: l → sig_seq x ≤ sig_seq y.
Proof.
  intros Hs. cbn [foldl]. apply (raises_oldest adv tid l [x0]).
  exists x0. split; [left|]. destruct (raise_spec adv tid s x0) as [[Hc _]|(_ & E & _)]; [|congruence].
  split; [done|]. intros y Hy. apply list_elem_of_singleton in Hy as ->. lia.
Qed.

(** ** Taint *)
Lemma elem_of_markDest (l : list PhysRegId) (t : taint) (x : PhysRegId) :
  x ∈ foldl (λ t r, setSecureSpecPhysReg r t) t l ↔ x ∈ t ∨ (x ∈ l ∧ isZeroPhysReg x = false).
Proof.
  revert t; induction l as [|r l IH]; intros t; cbn; [set_solver|].
  rewrite IH, elem_of_set_taint, elem_of_cons. naive_solver.
Qed.

(** the taint check.  An instruction is marked [SecureSpec] exactly when it loads
    from secure memory or reads a tainted register that counts; its destinations
    become tainted (the zero register excepted) exactly when it loads from secure
    memory, or reads taint and is not a load; and otherwise it stops being unsafe.
    No taint is ever removed. *)
Theorem taint_check_effect (addrSecure : bool) (d : DynInst) (t : taint) :
  let secret := isLoad d && addrSecure in
  let tainted := secret || isSrcRegsSecureSpec d t in
  let '(d', t') := checkIfOutputIsSpeculativelySecure addrSecure d t in
  isSecureSpec d' = isSecureSpec d || tainted
  ∧ isUnsafe d' = isUnsafe d && tainted
  ∧ ∀ x, x ∈ t' ↔ x ∈ t ∨ ((secret = true ∨ (isLoad d = false ∧ isSrcRegsSecureSpec d t = true))
                           ∧ x ∈ renamedDests d ∧ isZeroPhysReg x = false).
Proof.
  cbn zeta. unfold checkIfOutputIsSpeculativelySecure, markDestRegsAsSecureSpec.
  change (isLoad (setSecureSpec d)) with (isLoad d).
  change (renamedDests (setSecureSpec d)) with (renamedDests d).
  unfold isSecureSpec, isUnsafe, setSecureSpec, clearUnsafe.
  destruct (isLoad d), addrSecure, (isSrcRegsSecureSpec d t); cbn [andb orb];
    try destruct (get_st Unsafe d) eqn:Eu; autorewrite with dyn; rewrite ?Eu, ?orb_true_r, ?orb_false_r;
    (split; [done|]; split; [done|]; intros x; rewrite ?elem_of_markDest; naive_solver).
Qed.

(** ** Wakeups *)
Section wake.
Context {Q : Type} `{InstQueueLaws Q} (fl : DebugFlags) (cyc : Z).
Implicit Types (w : World Q).

Lemma writebackInst_count (v v' : regvals) (n n' : Z) w w' (p : InstPtr) :
  writebackInst fl cyc (v, n, w) p = Ok (v', n', w') → n ≤ n' ≤ n + 1.
Proof.
  assert (Hwake : ∀ n1 w1, IEW.wakeDependents fl cyc p n w = Ok (n1, w1) → n1 = n + 1)
    by (intros n1 w1 [_ ->]%iew_wake_rob; done).
  unfold writebackInst. intros E. apply bind_ok in E as (d & _ & E).
  destruct (negb (isSquashed d) && isExecuted d && _).
  - apply bind_ok in E as ([[v1 n1] w1] & E1 & E). injection E as _ <- _.
    destruct (negb (isUnsafe d)).
    { apply bind_ok in E1 as ([n2 w2] & Hw%Hwake & E1). injection E1 as _ <- _. lia. }
    destruct (isRunahead d); [|injection E1 as _ <- _; lia]. cbn zeta in E1.
    destruct (negb _); [|injection E1 as _ <- _; lia].
    apply bind_ok in E1 as (v2 & _ & E1). apply bind_ok in E1 as ([n2 w2] & Hw%Hwake & E1).
    injection E1 as _ <- _. lia.
  - destruct (_ && isLoad d); [|injection E as _ <- _; lia].
    apply bind_ok in E as (? & _ & E). apply bind_ok in E as (v2 & _ & E).
    apply bind_ok in E as ([n2 w2] & Hw%Hwake & E). injection E as _ <- _. lia.
Qed.

Lemma writebacks_count (l : list InstPtr) : ∀ (v v' : regvals) (n n' : Z) w w',
  mfold (writebackInst fl cyc) (v, n, w) l = Ok (v', n', w') → n ≤ n' ≤ n + Z.of_nat (length l).
Proof.
  induction l as [|p l IH]; intros v v' n n' w w' E; cbn [mfold] in E; [injection E as _ <- _; cbn; lia|].
  apply bind_ok in E as ([[v1 n1] w1] & Hw%writebackInst_count & E). apply IH in E. cbn [length]. lia.
Qed.

Lemma updateMaySquash_count (l : list nat) : ∀ (s s' : IEW) (r r' : ROB) w w',
  CD_LimitWakeDependandsToWBWidth fl = true → 0 ≤ numWokenInstructions s ≤ wbWidth s →
  mfold (updateMaySquash_tid fl cyc) (s, r, w) l = Ok (s', r', w') →
  0 ≤ numWokenInstructions s' ≤ wbWidth s' ∧ wbWidth s' = wbWidth s.
Proof.
  induction l as [|tid l IH]; intros s s' r r' w w' Hl Hn E; cbn [mfold] in E; [by injection E as <- _ _|].
  apply bind_ok in E as ([[s1 r1] w1] & E1 & E). unfold updateMaySquash_tid in E1. rewrite Hl in E1.
  apply bind_ok in E1 as (mx & Hmx & E1). apply bind_ok in Hmx as (? & _ & Hmx). injection Hmx as <-.
  apply bind_ok in E1 as ([[n r2] w2] & Hr & E1). injection E1 as <- _ _.
  unfold reduceNumMaySquashOthers in Hr. cbn zeta in Hr. apply bind_ok in Hr as ([n0 w0] & Hm & Hr).
  injection Hr as <- _ _. apply walk_budget in Hm; [|lia].
  apply IH in E; [|done|cbn in *; lia]. cbn in E. lia.
Qed.
End wake.

(** the wakeup budget of a cycle.  When wakeups are limited to the writeback
    width, writeback and the reorder-buffer walks of all threads together wake at
    most [wbWidth] instructions, whatever threads have been processed, so the
    assertion [numWokenInstructions <= wbWidth] of [updateMaySquashStatusInROB] holds
    each time the next thread is. *)
Theorem wakeups_within_width {Q} `{InstQueueLaws Q} (fl : DebugFlags) (cyc : Z) (s0 s1 s2 : IEW) (r r' : ROB)
    (v v' : regvals) (w w1 w2 : World Q) (toWB : list InstPtr) (threads : list nat) :
  CD_LimitWakeDependandsToWBWidth fl = true → 0 ≤ wbWidth s0 →
  writebackInsts fl cyc toWB (tickReset s0) v w = Ok (s1, v', w1) →
  mfold (updateMaySquash_tid fl cyc) (s1, r, w1) threads = Ok (s2, r', w2) →
  0 ≤ numWokenInstructions s2 ≤ wbWidth s2 ∧ wbWidth s2 = wbWidth s0.
Proof.
  intros Hl Hw Hwb E. unfold writebackInsts in Hwb.
  apply bind_ok in Hwb as ([[v1 n] w3] & Hm & Hwb). injection Hwb as <- _ <-.
  apply writebacks_count in Hm. cbn in Hm. rewrite length_take in Hm.
  apply updateMaySquash_count in E; [|done|cbn; lia]. cbn in E. lia.
Qed.

(** writeback withholds unsafe results.  Writing back an executed instruction
    marks it [WritebackDone]; if it is unsafe and not running ahead, neither the
    scoreboard nor the instruction queue nor the register file changes; if it is
    safe, its destinations are ready afterwards. *)
Theorem writeback_effect {Q} `{InstQueueLaws Q} (fl : DebugFlags) (cyc : Z) (v v' : regvals) (n n' : Z)
    (w w' : World Q) (p : InstPtr) (d : DynInst) :
  sb_wf (w_sb w) → w_heap w !! p = Some d →
  isSquashed d = false → isExecuted d = true → fault d = NoFault →
  writebackInst fl cyc (v, n, w) p = Ok (v', n', w') →
  st_at WritebackDone (w_heap w') p = true
  ∧ (isUnsafe d = true → isRunahead d = false →
       w_sb w' = w_sb w ∧ w_iq w' = w_iq w ∧ v' = v ∧ n' = n)
  ∧ (isUnsafe d = false → ∀ x, x ∈ renamedDests d → isFixedMapping x = false →
       ready_bit (w_sb w') x = Some true).
Proof.
  intros Hwf Hd Hs Hx Hf E. unfold writebackInst in E. rewrite Hd in E. cbn [deref mbind res_bind] in E.
  rewrite Hs, Hx, Hf, bool_decide_eq_true_2 in E by done. cbn [negb andb] in E.
  apply bind_ok in E as ([[v1 n1] w1] & E1 & E). injection E as <- <- <-.
  assert (Hdone : ∀ e, w_heap w1 !! p = Some e → st_at WritebackDone (w_heap (on_inst p setWritebackDone w1)) p = true).
  { intros e He. unfold st_at. cbn. rewrite (alter_Some _ _ _ _ He), lookup_insert_eq. apply get_st_set_eq. }
  assert (Hwake : ∀ n2 w2, IEW.wakeDependents fl cyc p n w = Ok (n2, w2) →
    (∃ e, w_heap w2 !! p = Some e) ∧ ∀ x, x ∈ renamedDests d → isFixedMapping x = false →
       ready_bit (w_sb w2) x = Some true).
  { intros n2 w2 [Hw _]%iew_wake_rob. apply wakeup_spec in Hw as (Hh & d0 & Hd0 & _ & Hset). simplify_eq. split.
    - destruct (hrel_lookup _ _ _ _ _ (hrel_equiv _ _ Hh) Hd) as (e & He & _). eauto.
    - intros x Hx' Hfx. by eapply setRegs_ready. }
  destruct (isUnsafe d) eqn:Hu; cbn [negb] in E1.
  - split; [|split; [|done]].
    + destruct (isRunahead d); [|injection E1 as <- <- <-; by eapply Hdone]. cbn zeta in E1.
      destruct (negb _); [|injection E1 as <- <- <-; by eapply Hdone].
      apply bind_ok in E1 as (v2 & _ & E1). apply bind_ok in E1 as ([n2 w2] & Hw & E1).
      injection E1 as <- <- <-. destruct (Hwake _ _ Hw) as [[e He] _]. by eapply Hdone.
    + intros _ Hr. rewrite Hr in E1. injection E1 as <- <- <-. done.
  - apply bind_ok in E1 as ([n2 w2] & Hw & E1). injection E1 as <- <- <-.
    destruct (Hwake _ _ Hw) as [[e He] Hready]. split; [by eapply Hdone|]. split; [done|]. intros _. exact Hready.
Qed.

(** * Behaviour of commit's squashes

    What a squash request of the IEW stage, and a squash of the whole thread, do to
    the instructions in flight and to the message sent to the other stages. *)
Lemma hrel_squashes (its : list InstPtr) (sq : Z) (h1 h2 h3 : heap) (ss : list Status) :
  hrel (λ _, changed ss) h1 h2 → Squashed ∉ ss → squashes its sq h2 h3 → squashes its sq h1 h3.
Proof.
  intros Hrel Hs Hsq q. destruct (Hsq q) as (E1 & E2 & E3).
  assert (Eseq : seq_at h2 q = seq_at h1 q).
  { eapply seq_at_hrel; [exact Hrel|]. intros ?? Hc. exact (changed_seqNum _ _ _ Hc). }
  assert (Hn : h2 !! q = None ↔ h1 !! q = None) by (specialize (Hrel q); by destruct Hrel).
  split; [congruence|]. split; [by rewrite E2|]. intros Hq. rewrite E3, Eseq by (by rewrite Hn). f_equal.
  eapply st_at_hrel; [exact Hrel|]. intros ?? _ Hc. by apply (changed_get _ _ _ _ Hc).
Qed.

Section commit.
Context {Q : Type} `{InstQueueLaws Q} (fl : DebugFlags) (cyc : Z).
Implicit Types (w : World Q) (r : ROB) (c : Commit).

Lemma exitRunahead_flags (tid : nat) (mi : option InstPtr) (b : bool) r r' w w' :
  exitRunahead fl tid mi r w = Ok (b, r', w') →
  hrel (λ _, changed [Runahead]) (w_heap w) (w_heap w').
Proof.
  unfold exitRunahead. intros E. destruct mi as [p|]; [|injection E as _ _ <-; by apply hrel_refl].
  apply bind_ok in E as (d & _ & E). destruct (_ && _); [|injection E as _ _ <-; by apply hrel_refl].
  apply bind_ok in E as (r1 & _ & E). injection E as _ _ <-.
  apply hrel_alter; [done|]. intros e _. apply changed_st_reset.
Qed.

Lemma exitRunahead_width (tid : nat) (mi : option InstPtr) (b : bool) r r' w w' :
  exitRunahead fl tid mi r w = Ok (b, r', w') → squashWidth r' = squashWidth r.
Proof. unfold exitRunahead, leaveRunaheadMode. intros E. destruct mi; [|by injection E as _ <- _]. res_simp. by destruct (_ && _); res_simp. Qed.

(** The request names a branch, and squashes for branches take a single cycle. *)
Definition one_cycle_squash (m : CommitMsg) (tid : nat) : Prop :=
  is_Some (cm_mispredictInst m tid) ∧ CD_SquashInSingleCycle fl = true ∧ CD_Runahead_SquashInSingleCycle fl = true.

(** The sequence number down to which the request keeps instructions. *)
Definition keep_upto (m : CommitMsg) (tid : nat) : Z :=
  if cm_includeSquashInst m tid then u64 (cm_squashedSeqNum m tid - 1) else cm_squashedSeqNum m tid.
End commit.

(** C31: what commit does with a squash request of the IEW stage, for a misprediction, the end
    of runahead mode or a memory-order violation.  A request that is younger than the youngest
    valid instruction, or that meets a pending trap, changes nothing.  Any other puts the
    thread in [ROBSquashing], moves the youngest valid instruction to the squash point (the
    branch, or the instruction before the violating load), reports it to the other stages,
    and starts a squash that is done after [n] further cycles, once [(n + 1) * squashWidth]
    covers the thread's list, and at once when a branch is squashed in a single cycle; then
    exactly the instructions of the thread above the squash point have been squashed. *)
Theorem squashFromIEW_effect {Q} `{InstQueueLaws Q} (fl : DebugFlags) (cyc : Z) (m : CommitMsg) (tid : nat)
    (c c' : Commit) (r r1 : ROB) (w w1 : World Q) :
  rob_inv fl (λ _, 0) r w → iters_ok r →
  (∀ p d, cm_mispredictInst m tid = Some p → w_heap w !! p = Some d → init_inst d = true →
          p ∈ instList r tid) →
  squashFromIEW fl cyc m tid c r w = Ok (c', r1, w1) →
  if cm_squash m tid && bool_decide (commitStatus c tid ≠ TrapPending)
     && (cm_squashedSeqNum m tid <=? youngestSeqNum c tid)
  then commitStatus c' tid = CROBSquashing ∧ youngestSeqNum c' tid = keep_upto m tid
       ∧ ci_doneSeqNum (commitInfo c' tid) = keep_upto m tid ∧ ci_squash (commitInfo c' tid) = true
       ∧ ∀ (n : nat) (r' : ROB) (w' : World Q), instList r tid ≠ [] → 0 < squashWidth r →
           Z.of_nat (length (instList r tid)) ≤ (Z.of_nat n + 1) * squashWidth r ∨ one_cycle_squash fl m tid →
           squashCycles fl cyc n tid r1 w1 = Ok (r', w') →
           isDoneSquashing tid r' = true
           ∧ squashes (instList r tid) (keep_upto m tid) (w_heap w) (w_heap w')
  else c' = c ∧ r1 = r ∧ w1 = w.
Proof.
  intros Hinv Hit Hmi E. unfold squashFromIEW in E.
  destruct (cm_squash m tid && _ && _); [|by injection E as <- <- <-].
  apply bind_ok in E as ([[b r0] w0] & He & E). cbn zeta in E. fold (keep_upto m tid) in E.
  assert (Hb : one_cycle_squash fl m tid → b = true).
  { intros ([pm Hpm] & Hf1 & Hf2). unfold exitRunahead in He. rewrite Hpm in He. apply bind_ok in He as (d & _ & He).
    destruct (_ && _); [|by injection He as <- _ _]. apply bind_ok in He as (r2 & _ & He). by injection He as <- _ _. }
  pose proof (exitRunahead_flags _ _ _ _ _ _ _ _ He) as Hrel. pose proof (exitRunahead_width _ _ _ _ _ _ _ _ He) as Ew0.
  apply (rob_exitRunahead _ _ _ _ _ _ _ _ Hinv Hit Hmi) in He as (Hinv1 & Hit1 & El1 & _).
  apply bind_ok in E as ([r2 w2] & Hs & E). apply bind_ok in E as (si & _ & E).
  apply bind_ok in E as (tk & _ & E). injection E as <- <- <-.
  cbn. rewrite !fn_lookup_insert. do 4 (split; [done|]). intros n r' w' Hne Hpos Hn Hc. rewrite <- El1 in Hne.
  pose proof (th_sorted _ _ _ _ _ _ _ (ri_thread _ _ _ _ Hinv1 tid)) as Hso.
  assert (threadEntries r0 tid ≠ 0) as Ht.
  { rewrite (ri_entries _ _ _ _ Hinv1). destruct (instList r0 tid); [done|]. cbn. lia. }
  apply squash_sweep in Hs as ((Ei & Es & Ew) & Hend); [|done..].
  assert (swept (w_heap w0) tid r' w' ∧ instList r' = instList r2 ∧ squashedSeqNum r' = squashedSeqNum r2)
    as ((_ & Hd & Hsw) & Ei' & Es').
  { destruct Hend as [Hdone|(Hb0 & k & Hk & Hsw)]; [by eapply cycles_done|].
    destruct Hn as [Hn|Hn%Hb]; [|congruence]. rewrite Ew0, El1 in Hk.
    eapply (sweep_cycles _ _ _ _ n); [by rewrite Ei|exact Hsw|rewrite Ew, Ew0; nia|exact Hc]. }
  split; [done|]. rewrite Es', Es, Ei', Ei, El1, fn_lookup_insert in Hsw. eapply hrel_squashes; [exact Hrel|set_solver|exact Hsw].
Qed.

(** [squashAll] empties the thread.  Once the squash it starts is done, every
    instruction of the thread's list is squashed and no other instruction's
    [Squashed] flag has changed. *)
Theorem squashAll_squashes_thread {Q} `{InstQueueLaws Q} (fl : DebugFlags) (cyc : Z) (pend : nat → Z) (tid n : nat)
    (c c' : Commit) (r r1 r' : ROB) (w w1 w' : World Q) (q : InstPtr) :
  rob_inv fl pend r w → instList r tid ≠ [] → 0 < squashWidth r →
  (∀ p, p ∈ instList r tid → 0 < seq_at (w_heap w) p < 2 ^ 64) →
  Z.of_nat (length (instList r tid)) ≤ (Z.of_nat n + 1) * squashWidth r →
  squashAll fl cyc tid c r w = Ok (c', r1, w1) →
  squashCycles fl cyc n tid r1 w1 = Ok (r', w') →
  w_heap w !! q ≠ None →
  isDoneSquashing tid r' = true
  ∧ st_at Squashed (w_heap w') q = st_at Squashed (w_heap w) q || bool_decide (q ∈ instList r tid).
Proof.
  intros Hinv Hne Hpos Hseq Hn E Hc Hq. unfold squashAll in E. apply bind_ok in E as (sn & Hsn & E). cbn zeta in E.
  apply bind_ok in E as ([r2 w2] & Hs & E). injection E as _ <- <-.
  assert (threadEntries r tid ≠ 0) as Ht.
  { rewrite (ri_entries _ _ _ _ Hinv). destruct (instList r tid); [done|]. cbn. lia. }
  unfold isEmpty_tid, readHeadInst in Hsn. rewrite (proj2 (Z.eqb_neq _ _) Ht) in Hsn. cbn [negb] in Hsn.
  pose proof (th_sorted _ _ _ _ _ _ _ (ri_thread _ _ _ _ Hinv tid)) as Hso.
  assert (∀ p, p ∈ instList r tid → sn < seq_at (w_heap w) p) as Hall.
  { destruct (instList r tid) as [|p l] eqn:El; [done|]. cbn [hd_error deref mbind res_bind] in Hsn.
    apply bind_ok in Hsn as (o & Ho & Hsn). apply bind_ok in Ho as (d & Hd%deref_ok & Ho).
    apply bind_ok in Ho as ([] & _ & Ho). injection Ho as <-. cbn [deref mbind res_bind] in Hsn.
    apply bind_ok in Hsn as (d' & Hd'%deref_ok & Hsn). simplify_eq.
    pose proof (Hseq p ltac:(left)) as Hp. rewrite (seq_at_lookup _ _ _ Hd) in Hp.
    unfold u64. rewrite Z.mod_small by lia. intros x [->|Hx]%elem_of_cons.
    - rewrite (seq_at_lookup _ _ _ Hd). lia.
    - destruct Hso as [Hso _]. specialize (Hso x Hx). rewrite (seq_at_lookup _ _ _ Hd) in Hso. lia. }
  apply squash_sweep in Hs as ((Ei & Es & Ew) & Hend); [|done..].
  assert (swept (w_heap w) tid r' w' ∧ instList r' = instList r2 ∧ squashedSeqNum r' = squashedSeqNum r2)
    as ((_ & Hd & Hsw) & Ei' & Es').
  { destruct Hend as [Hdone|(_ & k & Hk & Hsw)].
    - by eapply cycles_done.
    - eapply (sweep_cycles _ _ _ _ n); [by rewrite Ei|exact Hsw|rewrite Ew; nia|exact Hc]. }
  split; [done|]. rewrite Es', Es, Ei', Ei, fn_lookup_insert in Hsw.
  rewrite (proj2 (proj2 (Hsw q)) Hq). f_equal. case_bool_decide as Hin; cbn; [|done].
  apply Z.ltb_lt. by apply Hall.
Qed.
