(* ===== verification/StoreSet.v ===== *)
(** * Store-set predictor

    [src/cpu/o3/store_set.hh] and [store_set.cc]: which older store a load should
    wait for, learned from memory-order violations.  The [std::map] [storeList],
    ordered youngest first by [ltseqnum], is the list of its entries in that
    order. *)

From S2P Require Import Prelude.
Local Open Scope Z_scope.

Record StoreSet := MkStoreSet {
  SSIT : list Z;
  validSSIT : list bool;
  LFST : list Z;
  validLFST : list bool;
  storeList : list (Z * Z);  (* sequence number, SSID; youngest first *)
  clearPeriod : Z;
  SSITSize : Z;
  LFSTSize : Z;
  memOpsPred : Z;
}.
#[export] Instance StoreSet_eta : Updatable StoreSet := λ r, MkStoreSet (SSIT r) (validSSIT r)
  (LFST r) (validLFST r) (storeList r) (clearPeriod r) (SSITSize r) (LFSTSize r) (memOpsPred r).

(** [indexMask] and [offsetBits]. *)
Definition indexMask (s : StoreSet) : Z := SSITSize s - 1.
Definition offsetBits : Z := 2.

Definition calcIndex (PC : Z) (s : StoreSet) : Z := Z.land (Z.shiftr PC offsetBits) (indexMask s).
Definition calcSSID (PC : Z) (s : StoreSet) : Z := (Z.lxor PC (Z.shiftr PC 10)) mod LFSTSize s.

(** The tables after [init]; [resize] fills new slots with zeros. *)
Definition StoreSet_init (clear_period : Z) (SSIT_size LFST_size : nat) : StoreSet :=
  {| SSIT := replicate SSIT_size 0; validSSIT := replicate SSIT_size false;
     LFST := replicate LFST_size 0; validLFST := replicate LFST_size false;
     storeList := []; clearPeriod := clear_period;
     SSITSize := Z.of_nat SSIT_size; LFSTSize := Z.of_nat LFST_size; memOpsPred := 0 |}.

Definition clear (s : StoreSet) : StoreSet :=
  s <| validSSIT := replicate (length (validSSIT s)) false |>
    <| validLFST := replicate (length (validLFST s)) false |>
    <| storeList := [] |>.

Definition checkClear (s : StoreSet) : StoreSet :=
  let s := s <| memOpsPred ::= Z.succ |> in
  if clearPeriod s <? memOpsPred s then clear (s <| memOpsPred := 0 |>) else s.

(** [validSSIT[i] = true; SSIT[i] = v]. *)
Definition setSSIT (i v : Z) (s : StoreSet) : res StoreSet :=
  valid ← vset i true (validSSIT s);
  t ← vset i v (SSIT s);
  Ok (s <| validSSIT := valid |> <| SSIT := t |>).

Definition violation (store_PC load_PC : Z) (s : StoreSet) : res StoreSet :=
  let load_index := calcIndex load_PC s in
  let store_index := calcIndex store_PC s in
  _ ← assert ((load_index <? SSITSize s) && (store_index <? SSITSize s));
  valid_load_SSID ← vget (validSSIT s) load_index;
  valid_store_SSID ← vget (validSSIT s) store_index;
  match valid_load_SSID, valid_store_SSID with
  | false, false =>
      let new_set := calcSSID load_PC s in
      s ← setSSIT load_index new_set s;
      s ← setSSIT store_index new_set s;
      _ ← assert (new_set <? LFSTSize s);
      Ok s
  | true, false =>
      load_SSID ← vget (SSIT s) load_index;
      s ← setSSIT store_index load_SSID s;
      _ ← assert (load_SSID <? LFSTSize s);
      Ok s
  | false, true =>
      store_SSID ← vget (SSIT s) store_index;
      setSSIT load_index store_SSID s
  | true, true =>
      load_SSID ← vget (SSIT s) load_index;
      store_SSID ← vget (SSIT s) store_index;
      _ ← assert ((load_SSID <? LFSTSize s) && (store_SSID <? LFSTSize s));
      if load_SSID <? store_SSID then
        t ← vset store_index load_SSID (SSIT s); Ok (s <| SSIT := t |>)
      else
        t ← vset load_index store_SSID (SSIT s); Ok (s <| SSIT := t |>)
  end.

Definition insertLoad (load_PC load_seq_num : Z) (s : StoreSet) : StoreSet := checkClear s.

(** [storeList[k] = v]. *)
Fixpoint storeList_set (k v : Z) (l : list (Z * Z)) : list (Z * Z) :=
  match l with
  | [] => [(k, v)]
  | (k', v') :: l' =>
      if k' <? k then (k, v) :: l
      else if k' =? k then (k, v) :: l'
      else (k', v') :: storeList_set k v l'
  end.

Definition insertStore (store_PC store_seq_num : Z) (s : StoreSet) : res StoreSet :=
  let index := calcIndex store_PC s in
  let s := checkClear s in
  _ ← assert (index <? SSITSize s);
  valid ← vget (validSSIT s) index;
  if negb valid then Ok s
  else
    store_SSID ← vget (SSIT s) index;
    _ ← assert (store_SSID <? LFSTSize s);
    lf ← vset store_SSID store_seq_num (LFST s);
    vl ← vset store_SSID true (validLFST s);
    Ok (s <| LFST := lf |> <| validLFST := vl |>
          <| storeList ::= storeList_set store_seq_num store_SSID |>).

(** The store an instruction depends on, 0 for none. *)
Definition checkInst (PC : Z) (s : StoreSet) : res Z :=
  let index := calcIndex PC s in
  _ ← assert (index <? SSITSize s);
  valid ← vget (validSSIT s) index;
  if negb valid then Ok 0
  else
    inst_SSID ← vget (SSIT s) index;
    _ ← assert (inst_SSID <? LFSTSize s);
    vl ← vget (validLFST s) inst_SSID;
    if negb vl then Ok 0 else vget (LFST s) inst_SSID.

Definition issued (issued_PC issued_seq_num : Z) (is_store : bool) (s : StoreSet) : res StoreSet :=
  if negb is_store then Ok s
  else
    let index := calcIndex issued_PC s in
    _ ← assert (index <? SSITSize s);
    let s := s <| storeList ::= filter (λ e, e.1 ≠ issued_seq_num) |> in
    valid ← vget (validSSIT s) index;
    if negb valid then Ok s
    else
      store_SSID ← vget (SSIT s) index;
      _ ← assert (store_SSID <? LFSTSize s);
      vl ← vget (validLFST s) store_SSID;
      lf ← vget (LFST s) store_SSID;
      if vl && (lf =? issued_seq_num) then
        vl' ← vset store_SSID false (validLFST s); Ok (s <| validLFST := vl' |>)
      else Ok s.

(** The loop of [squash], always at the head of [storeList]: an entry whose set's
    last store is not younger is neither erased nor skipped, so the loop spins. *)
Fixpoint squash_loop (fuel : nat) (squashed_num : Z) (s : StoreSet) : res StoreSet :=
  match fuel with
  | O => Err OutOfFuel
  | S fuel =>
      match storeList s with
      | [] => Ok s
      | (sn, idx) :: rest =>
          if sn <=? squashed_num then Ok s
          else
            lf ← vget (LFST s) idx;
            vl ← vget (validLFST s) idx;
            let younger := squashed_num <? lf in
            if vl && younger then
              vl' ← vset idx false (validLFST s);
              squash_loop fuel squashed_num (s <| validLFST := vl' |> <| storeList := rest |>)
            else if negb vl && younger then
              squash_loop fuel squashed_num (s <| storeList := rest |>)
            else squash_loop fuel squashed_num s
      end
  end.
Definition squash (squashed_num : Z) (s : StoreSet) : res StoreSet :=
  squash_loop (S (length (storeList s))) squashed_num s.

(** ** Well-formed predictors *)
Fixpoint desc (l : list (Z * Z)) : Prop :=
  match l with
  | [] => True
  | e :: l' => (∀ e', e' ∈ l' → e'.1 < e.1) ∧ desc l'
  end.

(** The tables have their sizes, every set id indexes the LFST, and no store of
    [storeList] is younger than the last store of its set. *)
Record ss_wf (s : StoreSet) : Prop := {
  ss_SSIT : Z.of_nat (length (SSIT s)) = SSITSize s;
  ss_validSSIT : Z.of_nat (length (validSSIT s)) = SSITSize s;
  ss_LFST : Z.of_nat (length (LFST s)) = LFSTSize s;
  ss_validLFST : Z.of_nat (length (validLFST s)) = LFSTSize s;
  ss_sizes : 0 < SSITSize s ∧ 0 < LFSTSize s;
  ss_ids : ∀ i v, vget (SSIT s) i = Ok v → 0 ≤ v < LFSTSize s;
  ss_list : ∀ sn idx, (sn, idx) ∈ storeList s →
    0 ≤ idx < LFSTSize s ∧ ∃ lf, vget (LFST s) idx = Ok lf ∧ sn ≤ lf;
  ss_desc : desc (storeList s);
}.

Lemma land_mask_range (a b : Z) : 0 < b → 0 ≤ Z.land a (b - 1) < b.
Proof.
  intros Hb. assert (0 ≤ Z.land a (b - 1)) by (apply Z.land_nonneg; lia).
  pose proof (Z.add_lor_land (Z.land a (b - 1)) (Z.ldiff (b - 1) a)) as E.
  assert (Z.lor (Z.land a (b - 1)) (Z.ldiff (b - 1) a) = b - 1) as E1.
  { apply Z.bits_inj'. intros n Hn'. rewrite Z.lor_spec, Z.land_spec, Z.ldiff_spec.
    by destruct (Z.testbit a n), (Z.testbit (b - 1) n). }
  assert (Z.land (Z.land a (b - 1)) (Z.ldiff (b - 1) a) = 0) as E2.
  { apply Z.bits_inj'. intros n Hn'. rewrite !Z.land_spec, Z.ldiff_spec, Z.bits_0.
    by destruct (Z.testbit a n), (Z.testbit (b - 1) n). }
  assert (0 ≤ Z.ldiff (b - 1) a) by (apply Z.ldiff_nonneg; lia). lia.
Qed.

Lemma calcIndex_range (PC : Z) (s : StoreSet) : ss_wf s → 0 ≤ calcIndex PC s < SSITSize s.
Proof. intros Hwf. apply land_mask_range, Hwf. Qed.
Lemma calcSSID_range (PC : Z) (s : StoreSet) : ss_wf s → 0 ≤ calcSSID PC s < LFSTSize s.
Proof. intros Hwf. apply Z.mod_pos_bound, Hwf. Qed.

(** Lookup in a table of a well-formed predictor. *)
Ltac ss_get l x Hx :=
  match goal with
  | |- context [vget l ?i] =>
      destruct (vget_in_range l i ltac:(lia)) as [x Hx]; rewrite Hx; cbn [mbind res_bind]
  end.

(** Assigning a valid set id to an in-range index keeps the predictor well formed,
    and is what the next lookup sees. *)
Lemma setSSIT_ok (i v : Z) (s : StoreSet) :
  ss_wf s → 0 ≤ i < SSITSize s → 0 ≤ v < LFSTSize s →
  ∃ s', setSSIT i v s = Ok s' ∧ ss_wf s'
    ∧ s' = s <| validSSIT ::= <[Z.to_nat i := true]> |> <| SSIT ::= <[Z.to_nat i := v]> |>.
Proof.
  intros [? ? ? ? ? Hid ? ?] Hi Hv. unfold setSSIT.
  rewrite (vset_in_range (validSSIT s)) by lia. cbn [mbind res_bind].
  rewrite (vset_in_range (SSIT s)) by lia. cbn [mbind res_bind].
  eexists. split; [done|]. split; [|done].
  split; cbn; rewrite ?length_insert; try done.
  intros j w Hj. pose proof Hj as [Hj0 _]%vget_ok.
  rewrite vget_insert in Hj by lia. destruct (i =? j); [by simplify_eq|]. by eapply Hid.
Qed.

Lemma vget_set_table {A} (l : list A) (i : Z) (v : A) :
  0 ≤ i < Z.of_nat (length l) → vget (<[Z.to_nat i := v]> l) i = Ok v.
Proof. intros Hi. rewrite vget_insert by lia. by rewrite Z.eqb_refl. Qed.

(** Two instructions are in the same store set. *)
Definition same_set (pc1 pc2 : Z) (s : StoreSet) : Prop :=
  vget (validSSIT s) (calcIndex pc1 s) = Ok true ∧ vget (validSSIT s) (calcIndex pc2 s) = Ok true
  ∧ ∃ id, vget (SSIT s) (calcIndex pc1 s) = Ok id ∧ vget (SSIT s) (calcIndex pc2 s) = Ok id.

Lemma overwrite_SSIT (i v : Z) (s : StoreSet) :
  ss_wf s → 0 ≤ i < SSITSize s → vget (validSSIT s) i = Ok true →
  (t ← vset i v (SSIT s); Ok (s <| SSIT := t |>)) = setSSIT i v s.
Proof.
  intros Hwf Hi [_ Hv]%vget_ok. unfold setSSIT. destruct Hwf as [E1 E2 ? ? ? ? ? ?].
  rewrite (vset_in_range (SSIT s)), (vset_in_range (validSSIT s)) by lia. cbn [mbind res_bind].
  rewrite (list_insert_id (validSSIT s)) by done. by destruct s.
Qed.

(** What [violation] leaves alone. *)
Definition same_stores (s s' : StoreSet) : Prop :=
  LFST s' = LFST s ∧ validLFST s' = validLFST s ∧ storeList s' = storeList s
  ∧ clearPeriod s' = clearPeriod s ∧ memOpsPred s' = memOpsPred s ∧ SSITSize s' = SSITSize s.

(** Giving one instruction the set of the other joins them. *)
Lemma join_one (i j id : Z) (s : StoreSet) :
  ss_wf s → 0 ≤ i < SSITSize s → 0 ≤ j → 0 ≤ id < LFSTSize s →
  vget (validSSIT s) j = Ok true → vget (SSIT s) j = Ok id →
  ∃ s', setSSIT i id s = Ok s' ∧ ss_wf s' ∧ same_stores s s' ∧ LFSTSize s' = LFSTSize s
    ∧ vget (validSSIT s') i = Ok true ∧ vget (validSSIT s') j = Ok true
    ∧ vget (SSIT s') i = Ok id ∧ vget (SSIT s') j = Ok id.
Proof.
  intros Hwf Hi Hj Hid Hv Hs. destruct (setSSIT_ok i id s Hwf Hi Hid) as (s' & Es & Hwf' & ->).
  pose proof (ss_SSIT _ Hwf). pose proof (ss_validSSIT _ Hwf).
  eexists. split; [exact Es|]. split; [exact Hwf'|]. split; [done|]. split; [done|]. cbn.
  rewrite !vget_set_table by lia. rewrite !vget_insert by lia. by destruct (i =? j).
Qed.

(** [violation] never fails on a well-formed predictor, and puts the two
    instructions in one set. *)
Lemma violation_ok (store_PC load_PC : Z) (s : StoreSet) :
  ss_wf s → ∃ s', violation store_PC load_PC s = Ok s' ∧ ss_wf s' ∧ same_set store_PC load_PC s'
    ∧ same_stores s s'.
Proof.
  intros Hwf. unfold violation.
  pose proof (calcIndex_range store_PC s Hwf) as Hst. pose proof (calcIndex_range load_PC s Hwf) as Hld.
  pose proof (calcSSID_range load_PC s Hwf) as Hnew. pose proof (ss_ids _ Hwf) as Hid.
  pose proof (ss_SSIT _ Hwf). pose proof (ss_validSSIT _ Hwf).
  rewrite (proj2 (Z.ltb_lt _ _) (proj2 Hld)), (proj2 (Z.ltb_lt _ _) (proj2 Hst)). cbn [andb assert mbind res_bind].
  assert (Hss : ∀ s', same_stores s s' → calcIndex store_PC s' = calcIndex store_PC s
                      ∧ calcIndex load_PC s' = calcIndex load_PC s).
  { intros s' (_ & _ & _ & _ & _ & E). unfold calcIndex, indexMask. by rewrite E. }
  set (li := calcIndex load_PC s) in *. set (si := calcIndex store_PC s) in *.
  destruct (vget_in_range (validSSIT s) li ltac:(lia)) as [vl Hvl].
  destruct (vget_in_range (validSSIT s) si ltac:(lia)) as [vs Hvs].
  destruct (vget_in_range (SSIT s) li ltac:(lia)) as [il Hil].
  destruct (vget_in_range (SSIT s) si ltac:(lia)) as [is' His].
  pose proof (Hid _ _ Hil) as Hl. pose proof (Hid _ _ His) as Hs.
  rewrite Hvl, Hvs. cbn [mbind res_bind].
  assert (Hfin : ∀ s' id, same_stores s s' → ss_wf s' →
     vget (validSSIT s') li = Ok true → vget (validSSIT s') si = Ok true →
     vget (SSIT s') li = Ok id → vget (SSIT s') si = Ok id →
     ∃ s'', Ok s' = Ok s'' ∧ ss_wf s'' ∧ same_set store_PC load_PC s'' ∧ same_stores s s'').
  { intros s' id Hsame Hwf' V1 V2 S1 S2. destruct (Hss s' Hsame) as [E1 E2].
    exists s'. split; [done|]. split; [done|]. split; [|done]. unfold same_set.
    rewrite E1, E2. eauto. }
  destruct vl, vs; rewrite ?Hil, ?His; cbn [mbind res_bind].
  - rewrite (proj2 (Z.ltb_lt il (LFSTSize s))), (proj2 (Z.ltb_lt is' (LFSTSize s))) by lia.
    cbn [andb assert mbind res_bind]. destruct (il <? is').
    + rewrite overwrite_SSIT by done.
      destruct (join_one si li il s) as (s' & -> & ? & ? & _ & ? & ? & ? & ?); [done|lia|lia|done..|]. eauto.
    + rewrite overwrite_SSIT by done.
      destruct (join_one li si is' s) as (s' & -> & ? & ? & _ & ? & ? & ? & ?); [done|lia|lia|done..|]. eauto.
  - destruct (join_one si li il s) as (s' & -> & ? & ? & E & ? & ? & ? & ?); [done|lia|lia|done..|].
    cbn [mbind res_bind]. rewrite E, (proj2 (Z.ltb_lt il (LFSTSize s))) by lia. cbn. eauto.
  - destruct (join_one li si is' s) as (s' & -> & ? & ? & _ & ? & ? & ? & ?); [done|lia|lia|done..|]. eauto.
  - destruct (setSSIT_ok li (calcSSID load_PC s) s Hwf Hld Hnew) as (s1 & -> & Hwf1 & E1). cbn [mbind res_bind].
    assert (vget (validSSIT s1) li = Ok true ∧ vget (SSIT s1) li = Ok (calcSSID load_PC s)) as [V1 S1].
    { subst s1. cbn. by rewrite !vget_set_table by lia. }
    assert (same_stores s s1 ∧ LFSTSize s1 = LFSTSize s) as [Hs1 HL1] by (by subst s1).
    destruct (join_one si li (calcSSID load_PC s) s1) as (s2 & -> & ? & Hs2 & E & ? & ? & ? & ?);
      [done|by rewrite (proj2 (proj2 (proj2 (proj2 (proj2 Hs1)))))|lia|by rewrite HL1|done|done|].
    cbn [mbind res_bind]. rewrite E, HL1, (proj2 (Z.ltb_lt _ _) (proj2 Hnew)). cbn.
    eapply Hfin; eauto. destruct Hs1 as (?&?&?&?&?&?), Hs2 as (?&?&?&?&?&?).
    unfold same_stores. split_and!; congruence.
Qed.

(** ** Stores in flight *)
Lemma clear_wf (s : StoreSet) : ss_wf s → ss_wf (clear s).
Proof.
  intros [? ? ? ? ? ? ? ?]. split; cbn; rewrite ?length_replicate; try done.
  intros sn idx Hin. by apply not_elem_of_nil in Hin.
Qed.

Lemma checkClear_ok (s : StoreSet) :
  ss_wf s → ss_wf (checkClear s) ∧ SSITSize (checkClear s) = SSITSize s
  ∧ LFSTSize (checkClear s) = LFSTSize s ∧ storeList (checkClear s) ⊆ storeList s.
Proof.
  intros Hwf. unfold checkClear. cbn zeta. case_match.
  - split; [|split; [done|split; [done|]]].
    + apply clear_wf. destruct Hwf. by split.
    + intros e He. by apply not_elem_of_nil in He.
  - split; [|done]. destruct Hwf. by split.
Qed.

Lemma elem_of_storeList_set (k v : Z) (l : list (Z * Z)) (e : Z * Z) :
  e ∈ storeList_set k v l → e = (k, v) ∨ e ∈ l.
Proof.
  induction l as [|[k' v'] l IH]; cbn; [set_solver|]. repeat case_match; set_solver.
Qed.

Lemma storeList_set_desc (k v : Z) (l : list (Z * Z)) : desc l → desc (storeList_set k v l).
Proof.
  induction l as [|[k' v'] l IH]; cbn [storeList_set desc]; [intros _; split; [set_solver|done]|].
  intros [H1 H2]. destruct (Z.ltb_spec k' k); [|destruct (Z.eqb_spec k' k)].
  - cbn [desc]. split; [|done]. intros e [->|He]%elem_of_cons; [done|]. specialize (H1 e He). cbn in *. lia.
  - subst. cbn [desc]. done.
  - cbn [desc]. split; [|by apply IH]. intros e [->|He]%elem_of_storeList_set; [cbn; lia|auto].
Qed.

(** A store younger than all the stores in flight is recorded. *)
Lemma insertStore_ok (store_PC sn : Z) (s : StoreSet) :
  ss_wf s → (∀ e, e ∈ storeList s → e.1 ≤ sn) →
  ∃ s', insertStore store_PC sn s = Ok s' ∧ ss_wf s' ∧ SSITSize s' = SSITSize s.
Proof.
  intros Hwf Hyoung. unfold insertStore. cbn zeta.
  destruct (checkClear_ok s Hwf) as (Hwf1 & E1 & E2 & Hsub).
  assert (Hi : 0 ≤ calcIndex store_PC s < SSITSize (checkClear s)).
  { rewrite E1. by apply calcIndex_range. }
  assert (Hy1 : ∀ e, e ∈ storeList (checkClear s) → e.1 ≤ sn) by auto.
  set (i := calcIndex store_PC s) in *. rewrite <- E1. set (s1 := checkClear s) in *.
  clearbody s1 i. clear Hwf Hyoung Hsub E1 E2 s.
  rewrite (proj2 (Z.ltb_lt _ _) (proj2 Hi)). cbn [assert mbind res_bind].
  pose proof Hwf1 as [Ha Hb Hc Hd He Hid Hl Hdesc].
  ss_get (validSSIT s1) v Hv. destruct v; cbn [negb]; [|by exists s1].
  ss_get (SSIT s1) sid Hs. pose proof (Hid _ _ Hs) as Hr.
  rewrite (proj2 (Z.ltb_lt _ _) (proj2 Hr)). cbn [assert mbind res_bind].
  rewrite (vset_in_range (LFST s1)) by lia. cbn [mbind res_bind].
  rewrite (vset_in_range (validLFST s1)) by lia. cbn [mbind res_bind].
  eexists. split; [done|]. split; [|done]. split; cbn; rewrite ?length_insert; try done.
  - intros k idx [Hk|Hk]%elem_of_storeList_set.
    + injection Hk as -> ->. split; [done|]. exists sn. split; [|lia]. rewrite vget_set_table by lia. done.
    + destruct (Hl k idx Hk) as (Hidx & lf & Hlf & Hle). split; [done|].
      rewrite vget_insert by lia. destruct (sid =? idx); [|eauto].
      exists sn. split; [done|]. apply (Hy1 _ Hk).
  - by apply storeList_set_desc.
Qed.

(** Looking up an instruction never fails. *)
Lemma checkInst_ok (PC : Z) (s : StoreSet) : ss_wf s → ∃ sn, checkInst PC s = Ok sn.
Proof.
  intros Hwf. pose proof Hwf as [Ha Hb Hc Hd He Hid Hl Hdesc]. unfold checkInst. cbn zeta.
  pose proof (calcIndex_range PC s Hwf) as Hi.
  rewrite (proj2 (Z.ltb_lt _ _) (proj2 Hi)). cbn [assert mbind res_bind].
  ss_get (validSSIT s) v Hv. destruct v; cbn [negb]; [|by eauto]. ss_get (SSIT s) sid Hs. pose proof (Hid _ _ Hs) as Hr.
  rewrite (proj2 (Z.ltb_lt _ _) (proj2 Hr)). cbn [assert mbind res_bind].
  ss_get (validLFST s) vl Hvl. destruct vl; cbn [negb]; [|by eauto]. apply vget_in_range. lia.
Qed.

Lemma desc_filter (P : Z * Z → Prop) `{∀ x, Decision (P x)} (l : list (Z * Z)) : desc l → desc (filter P l).
Proof.
  induction l as [|e l IH]; cbn; [done|]. intros [H1 H2]. unfold filter in *. cbn.
  destruct (decide (P e)); cbn; [|by apply IH]. split; [|by apply IH].
  intros e' He'. apply H1. by apply list_elem_of_filter in He' as [_ ?].
Qed.

Lemma issued_ok (PC sn : Z) (b : bool) (s : StoreSet) :
  ss_wf s → ∃ s', issued PC sn b s = Ok s' ∧ ss_wf s'.
Proof.
  intros Hwf. unfold issued. destruct b; cbn [negb]; [|by eauto]. cbn zeta.
  pose proof (calcIndex_range PC s Hwf) as Hi.
  pose proof Hwf as [Ha Hb Hc Hd He Hid Hl Hdesc].
  rewrite (proj2 (Z.ltb_lt _ _) (proj2 Hi)). cbn [assert mbind res_bind].
  set (s1 := s <| storeList ::= filter (λ e, e.1 ≠ sn) |>).
  assert (Hwf1 : ss_wf s1).
  { split; try done; cbn.
    - intros k idx [_ Hk]%list_elem_of_filter. auto.
    - by apply desc_filter. }
  change (validSSIT s1) with (validSSIT s). change (SSIT s1) with (SSIT s).
  change (LFSTSize s1) with (LFSTSize s). change (validLFST s1) with (validLFST s).
  change (LFST s1) with (LFST s).
  ss_get (validSSIT s) v Hv. destruct v; cbn [negb]; [|by eauto]. ss_get (SSIT s) sid Hs. pose proof (Hid _ _ Hs) as Hr.
  rewrite (proj2 (Z.ltb_lt _ _) (proj2 Hr)). cbn [assert mbind res_bind].
  ss_get (validLFST s) vl Hvl. ss_get (LFST s) lf Hlf. destruct (vl && (lf =? sn)); [|by eauto].
  rewrite (vset_in_range (validLFST s)) by lia. cbn [mbind res_bind]. eexists. split; [done|].
  destruct Hwf1 as [? ? ? ? ? ? ? ?]. split; cbn in *; rewrite ?length_insert; done.
Qed.

(** One entry of the squash loop. *)
Lemma squash_loop_ok (fuel : nat) (n : Z) (s : StoreSet) :
  ss_wf s → (length (storeList s) < fuel)%nat →
  ∃ s', squash_loop fuel n s = Ok s' ∧ ss_wf s' ∧ (∀ e, e ∈ storeList s' → e.1 ≤ n)
    ∧ storeList s' = filter (λ e, e.1 ≤ n) (storeList s)
    ∧ (∀ e, e ∈ storeList s → n < e.1 → vget (validLFST s') e.2 = Ok false)
    ∧ (∀ i, vget (validLFST s) i = Ok false → vget (validLFST s') i = Ok false).
Proof.
  revert s; induction fuel as [|fuel IH]; intros s Hwf Hlen; [lia|]. cbn [squash_loop].
  pose proof Hwf as [Ha Hb Hc Hd He Hid Hl Hdesc].
  destruct (storeList s) as [|[sn idx] rest] eqn:Es.
  { exists s. rewrite Es. split; [done|]. split; [done|]. split; [set_solver|]. split; [done|]. split; [set_solver|done]. }
  destruct (Hl sn idx ltac:(left)) as (Hidx & lf & Hlf & Hle). cbn in Hdesc. destruct Hdesc as [Hd1 Hd2].
  assert (Hkeep : ∀ l : list (Z * Z), (∀ e, e ∈ l → e.1 ≤ n) → filter (λ e : Z * Z, e.1 ≤ n) l = l).
  { clear. induction l as [|e l IH]; intros Hl; [done|]. unfold filter; cbn.
    rewrite decide_True by (apply Hl; left). f_equal. apply IH. intros e' He'. apply Hl. by right. }
  destruct (Z.leb_spec sn n) as [Hn|Hn].
  { assert (∀ e, e ∈ storeList s → e.1 ≤ n) as Hall.
    { rewrite Es. intros e [->|Hin]%elem_of_cons; [done|]. specialize (Hd1 e Hin). cbn in *. lia. }
    exists s. split; [done|]. split; [done|]. split; [done|]. rewrite <- Es.
    split; [by rewrite Hkeep|]. split; [|done]. intros e Hin Hlt. specialize (Hall e Hin). lia. }
  rewrite Hlf. cbn [mbind res_bind]. destruct (vget_in_range (validLFST s) idx ltac:(lia)) as [vl Hvl].
  rewrite Hvl. cbn [mbind res_bind]. rewrite (proj2 (Z.ltb_lt n lf)) by lia. rewrite !andb_true_r.
  assert (Hfilt : filter (λ e : Z * Z, e.1 ≤ n) ((sn, idx) :: rest) = filter (λ e : Z * Z, e.1 ≤ n) rest).
  { unfold filter; cbn. rewrite decide_False by (cbn; lia). done. }
  assert (Hstep : ∀ s1, storeList s1 = rest → ss_wf s1 → vget (validLFST s1) idx = Ok false →
    (∀ i, vget (validLFST s) i = Ok false → vget (validLFST s1) i = Ok false) →
    ∃ s', squash_loop fuel n s1 = Ok s' ∧ ss_wf s' ∧ (∀ e, e ∈ storeList s' → e.1 ≤ n)
    ∧ storeList s' = filter (λ e : Z * Z, e.1 ≤ n) ((sn, idx) :: rest)
    ∧ (∀ e, e ∈ (sn, idx) :: rest → n < e.1 → vget (validLFST s') e.2 = Ok false)
    ∧ (∀ i, vget (validLFST s) i = Ok false → vget (validLFST s') i = Ok false)).
  { intros s1 E1 Hwf1 Hv1 Hmono. cbn in Hlen.
    destruct (IH s1 Hwf1) as (s' & -> & Hwf' & A1 & A2 & A3 & A4); [rewrite E1; lia|].
    exists s'. split; [done|]. split; [done|]. split; [done|]. rewrite Hfilt, A2, E1. split; [done|].
    split; [|by auto]. intros e [->|Hin]%elem_of_cons Hlt; [by apply A4|]. apply A3; [by rewrite E1|done]. }
  destruct vl; cbn [negb].
  - rewrite (vset_in_range (validLFST s)) by lia. cbn [mbind res_bind]. apply Hstep; [done| |..].
    + split; cbn; rewrite ?length_insert; try done. intros k i Hk. apply Hl. by right.
    + cbn. by rewrite vget_set_table by lia.
    + intros i Hi. cbn. pose proof Hi as [Hi0 _]%vget_ok. rewrite vget_insert by lia. by destruct (idx =? i).
  - apply Hstep; [done| |done|done]. split; cbn; try done. intros k i Hk. apply Hl. by right.
Qed.

(** ** Properties *)
(** learning works.  After a memory-order violation between a store and a
    load, the next dynamic instance of that store that is inserted is exactly the
    instruction the predictor makes the load wait for (unless the periodic wipe
    falls in between). *)
Theorem violation_then_predicted (store_PC load_PC sn : Z) (s : StoreSet) :
  ss_wf s → (∀ e, e ∈ storeList s → e.1 ≤ sn) → memOpsPred s < clearPeriod s →
  ∃ s1 s2, violation store_PC load_PC s = Ok s1 ∧ insertStore store_PC sn s1 = Ok s2
    ∧ checkInst load_PC s2 = Ok sn.
Proof.
  intros Hwf Hyoung Hclr.
  destruct (violation_ok store_PC load_PC s Hwf) as (s1 & E1 & Hwf1 & Hset & Hsame).
  destruct Hsame as (_ & _ & El & Ep & Em & _). rewrite <- El in Hyoung.
  destruct (insertStore_ok store_PC sn s1 Hwf1 Hyoung) as (s2 & E2 & Hwf2 & Esz).
  exists s1, s2. split; [done|]. split; [done|].
  destruct Hset as (Vs & Vl & id & Is & Il).
  pose proof Hwf1 as [_ _ Hc Hd _ Hid _ _]. pose proof (Hid _ _ Is) as Hr.
  assert (calcIndex load_PC s2 = calcIndex load_PC s1) as Ei by (unfold calcIndex, indexMask; by rewrite Esz).
  unfold insertStore, checkClear in E2. cbn zeta in E2. cbn [memOpsPred clearPeriod over_field] in E2.
  rewrite Ep, Em, (proj2 (Z.ltb_ge (clearPeriod s) (Z.succ (memOpsPred s)))) in E2 by lia.
  apply bind_ok in E2 as (? & _ & E2). cbn [validSSIT SSIT LFST validLFST over_field] in E2.
  rewrite Vs in E2. cbn [mbind res_bind negb] in E2. rewrite Is in E2. cbn [mbind res_bind] in E2.
  apply bind_ok in E2 as (? & _ & E2).
  rewrite (vset_in_range (LFST s1)), (vset_in_range (validLFST s1)) in E2 by lia.
  cbn [mbind res_bind] in E2. injection E2 as <-.
  unfold checkInst. rewrite Ei. cbn zeta.
  rewrite <- Ei, (proj2 (Z.ltb_lt _ _) (proj2 (calcIndex_range load_PC _ Hwf2))), Ei.
  cbn [assert mbind res_bind validSSIT SSIT LFST validLFST LFSTSize over_field].
  rewrite Vl. cbn [mbind res_bind negb]. rewrite Il. cbn [mbind res_bind].
  rewrite (proj2 (Z.ltb_lt id (LFSTSize s1))) by lia. cbn [assert mbind res_bind].
  rewrite vget_set_table by lia. cbn [mbind res_bind negb]. by rewrite vget_set_table by lia.
Qed.

(** the squash loop of the predictor terminates on every well-formed predictor,
    keeps exactly the stores that are not younger than the squash point, and
    leaves no squashed store as the last store of its set. *)
Theorem squash_exact (n : Z) (s : StoreSet) :
  ss_wf s →
  ∃ s', squash n s = Ok s' ∧ ss_wf s' ∧ storeList s' = filter (λ e, e.1 ≤ n) (storeList s)
    ∧ (∀ e, e ∈ storeList s → n < e.1 → vget (validLFST s') e.2 = Ok false).
Proof.
  intros Hwf. destruct (squash_loop_ok (S (length (storeList s))) n s Hwf) as (s' & E & ? & _ & ? & ? & _); [lia|].
  eauto.
Qed.

(** the loop depends on that invariant: on a predictor whose youngest store in
    flight is younger than the last store recorded for its set, with the recorded
    one not past the squash point, it never terminates, whatever the fuel. *)
Theorem squash_spins (n sn idx lf : Z) (rest : list (Z * Z)) (b : bool) (s : StoreSet) (fuel : nat) :
  storeList s = (sn, idx) :: rest → n < sn →
  vget (LFST s) idx = Ok lf → vget (validLFST s) idx = Ok b → lf ≤ n →
  squash_loop fuel n s = Err OutOfFuel.
Proof.
  intros Es Hn Hlf Hv Hle. induction fuel as [|fuel IH]; [done|]. cbn [squash_loop].
  rewrite Es, (proj2 (Z.leb_gt sn n)) by lia. rewrite Hlf. cbn [mbind res_bind]. rewrite Hv.
  cbn [mbind res_bind]. rewrite (proj2 (Z.ltb_ge n lf)) by lia. rewrite !andb_false_r. exact IH.
Qed.
