(* ===== verification/FUPool.v ===== *)
(** * Functional units

    [src/cpu/o3/fu_pool.hh] and [fu_pool.cc]: which unit executes an operation.
    For each operation class a circular queue lists the units that support it;
    [getUnit] takes the next free one. *)

From S2P Require Import Prelude.
Local Open Scope Z_scope.

(** [FUIdxQueue]; its [size] is the length of the vector. *)
Record FUIdxQueue := MkFUIdxQueue {
  fq_idx : nat;
  funcUnitsIdx : list Z;
}.
#[export] Instance FUIdxQueue_eta : Updatable FUIdxQueue := λ r, MkFUIdxQueue (fq_idx r) (funcUnitsIdx r).

Record FUPool := MkFUPool {
  maxOpLatencies : nat → Z;
  pipelined : nat → bool;
  capabilityList : nat → bool;
  unitBusy : list bool;
  unitsToBeFreed : list Z;
  fuPerCapList : nat → FUIdxQueue;
  numFU : Z;
}.
#[export] Instance FUPool_eta : Updatable FUPool := λ r, MkFUPool (maxOpLatencies r) (pipelined r)
  (capabilityList r) (unitBusy r) (unitsToBeFreed r) (fuPerCapList r) (numFU r).

(** ** Construction *)
Record OpDesc := MkOpDesc { od_opClass : nat; od_opLat : Z; od_pipelined : bool }.
Record FUDesc := MkFUDesc { fd_opDescList : list OpDesc; fd_number : nat }.

Definition addFU (fu_idx : Z) (q : FUIdxQueue) : FUIdxQueue := q <| funcUnitsIdx ::= (λ l, l ++ [fu_idx]) |>.

(** One operation of a unit description. *)
Definition addOp (number : nat) (p : FUPool) (j : OpDesc) : FUPool :=
  let c := od_opClass j in
  let p := p <| capabilityList ::= <[c := true]> |>
             <| fuPerCapList ::=
                  <[c := foldl (λ q k, addFU (numFU p + Z.of_nat k) q) (fuPerCapList p c) (seq 0 number)]> |> in
  let p := if maxOpLatencies p c <? od_opLat j then p <| maxOpLatencies ::= <[c := od_opLat j]> |> else p in
  if negb (od_pipelined j) then p <| pipelined ::= <[c := false]> |> else p.

Definition addFUDesc (p : FUPool) (i : FUDesc) : FUPool :=
  if (0 <? fd_number i)%nat then
    foldl (addOp (fd_number i)) p (fd_opDescList i) <| numFU ::= Z.add (Z.of_nat (fd_number i)) |>
  else p.

Definition FUPool_init (FUList : list FUDesc) : FUPool :=
  let p := foldl addFUDesc
    {| maxOpLatencies := λ _, 0; pipelined := λ _, true; capabilityList := λ _, false;
       unitBusy := []; unitsToBeFreed := []; fuPerCapList := λ _, MkFUIdxQueue 0 []; numFU := 0 |}
    FUList in
  p <| unitBusy := replicate (Z.to_nat (numFU p)) false |>.

Definition getOpLatency (capability : nat) (p : FUPool) : Z := maxOpLatencies p capability.
Definition isPipelined (capability : nat) (p : FUPool) : bool := pipelined p capability.

(** ** Allocation *)
Definition NoCapableFU : Z := -2.
Definition NoFreeFU : Z := -1.

Definition getFU (q : FUIdxQueue) : res (Z * FUIdxQueue) :=
  retval ← deref (funcUnitsIdx q !! fq_idx q);
  let idx := S (fq_idx q) in
  Ok (retval, q <| fq_idx := (if decide (idx = length (funcUnitsIdx q)) then 0%nat else idx) |>).

(** The loop of [getUnit], at unit [fu_idx]: the unit found, [None] when the
    queue came back to [start_idx]. *)
Fixpoint getUnit_loop (fuel : nat) (busy : list bool) (start_idx fu_idx : Z) (q : FUIdxQueue)
    : res (option Z * FUIdxQueue) :=
  match fuel with
  | O => Err OutOfFuel
  | S fuel =>
      b ← vget busy fu_idx;
      if (b : bool) then
        '(fu_idx, q) ← getFU q;
        if fu_idx =? start_idx then Ok (None, q)
        else getUnit_loop fuel busy start_idx fu_idx q
      else Ok (Some fu_idx, q)
  end.

Definition getUnit (capability : nat) (p : FUPool) : res (Z * FUPool) :=
  if negb (capabilityList p capability) then Ok (NoCapableFU, p)
  else
    let q := fuPerCapList p capability in
    '(fu_idx, q) ← getFU q;
    '(o, q) ← getUnit_loop (length (funcUnitsIdx q)) (unitBusy p) fu_idx fu_idx q;
    let p := p <| fuPerCapList ::= <[capability := q]> |> in
    match o with
    | None => Ok (NoFreeFU, p)
    | Some fu_idx =>
        _ ← assert (fu_idx <? numFU p);
        busy ← vset fu_idx true (unitBusy p);
        Ok (fu_idx, p <| unitBusy := busy |>)
    end.

Definition freeUnitNextCycle (fu_idx : Z) (p : FUPool) : res FUPool :=
  b ← vget (unitBusy p) fu_idx;
  _ ← assert b;
  Ok (p <| unitsToBeFreed ::= (λ l, l ++ [fu_idx]) |>).

(** Frees the units, from the back of the list. *)
Definition freeOne (busy : list bool) (fu_idx : Z) : res (list bool) :=
  b ← vget busy fu_idx;
  _ ← assert b;
  vset fu_idx false busy.
Definition processFreeUnits (p : FUPool) : res FUPool :=
  busy ← mfold freeOne (unitBusy p) (reverse (unitsToBeFreed p));
  Ok (p <| unitBusy := busy |> <| unitsToBeFreed := [] |>).

Definition isDrained (p : FUPool) : bool :=
  forallb negb (take (Z.to_nat (numFU p)) (unitBusy p)).

(** ** Facts *)
(** The queue of a class: its units exist and differ, and the cursor is inside. *)
Definition queue_ok (n : Z) (q : FUIdxQueue) : Prop :=
  (fq_idx q < length (funcUnitsIdx q))%nat ∧ NoDup (funcUnitsIdx q)
  ∧ ∀ u, u ∈ funcUnitsIdx q → 0 ≤ u < n.

Record fu_wf (p : FUPool) : Prop := {
  fw_busy : Z.of_nat (length (unitBusy p)) = numFU p;
  fw_queue : ∀ c, capabilityList p c = true → queue_ok (numFU p) (fuPerCapList p c);
}.

(** The [k]-th unit met from cursor [i]. *)
Definition nth_unit (l : list Z) (i k : nat) : option Z := l !! ((i + k) mod length l)%nat.

Lemma getFU_ok (n : Z) (q : FUIdxQueue) (l : list Z) (i k : nat) :
  queue_ok n q → funcUnitsIdx q = l → fq_idx q = ((i + k) mod length l)%nat →
  ∃ u q', getFU q = Ok (u, q') ∧ nth_unit l i k = Some u ∧ queue_ok n q' ∧ funcUnitsIdx q' = l
    ∧ fq_idx q' = ((i + S k) mod length l)%nat.
Proof.
  intros (Hi & Hnd & Hr) <- Hk. set (l := funcUnitsIdx q) in *.
  destruct (lookup_lt_is_Some_2 l (fq_idx q) Hi) as [u Hu].
  unfold getFU. fold l. rewrite Hu. cbn [deref mbind res_bind].
  assert ((i + S k) mod length l = if decide (S (fq_idx q) = length l) then 0 else S (fq_idx q))%nat as E.
  { replace (i + S k)%nat with (S (i + k)) by lia. rewrite Hk.
    pose proof (Nat.div_mod (i + k) (length l) ltac:(lia)) as Hdm.
    case_decide as Hd.
    - symmetry. apply (Nat.mod_unique _ _ (S ((i + k) / length l))); lia.
    - symmetry. apply (Nat.mod_unique _ _ ((i + k) / length l)); lia. }
  eexists u, _. split; [done|]. unfold nth_unit. rewrite <- Hk. split; [done|].
  split; [|split; [done|by rewrite E]]. split; [|done]. cbn. fold l. case_decide; lia.
Qed.

(** Every unit of the queue is met within one turn. *)
Lemma nth_unit_all (l : list Z) (i : nat) (u : Z) :
  u ∈ l → ∃ k, (k < length l)%nat ∧ nth_unit l i k = Some u.
Proof.
  intros [j Hj]%list_elem_of_lookup. pose proof (lookup_lt_Some _ _ _ Hj) as Hlt.
  assert (i mod length l < length l)%nat as Hm by (apply Nat.mod_upper_bound; lia).
  pose proof (Nat.div_mod i (length l) ltac:(lia)) as Hdm. unfold nth_unit.
  destruct (decide (i mod length l ≤ j)%nat).
  - exists (j - i mod length l)%nat. split; [lia|]. rewrite <- Hj. f_equal. symmetry.
    apply (Nat.mod_unique _ _ (i / length l)); lia.
  - exists (length l + j - i mod length l)%nat. split; [lia|]. rewrite <- Hj. f_equal. symmetry.
    apply (Nat.mod_unique _ _ (S (i / length l))); lia.
Qed.

Lemma nth_unit_start (l : list Z) (i k : nat) (u : Z) :
  NoDup l → (i < length l)%nat → (0 < k ≤ length l)%nat →
  nth_unit l i 0 = Some u → nth_unit l i k = Some u → k = length l.
Proof.
  intros Hnd Hi Hk H0 H1. unfold nth_unit in *. rewrite Nat.add_0_r in H0.
  pose proof (NoDup_lookup _ _ _ _ Hnd H0 H1) as E.
  rewrite (Nat.mod_small i) in E by lia.
  pose proof (Nat.div_mod (i + k) (length l) ltac:(lia)) as Hdm.
  assert ((i + k) / length l ≤ 1)%nat by (apply Nat.lt_succ_r, Nat.Div0.div_lt_upper_bound; lia).
  rewrite <- E in Hdm. destruct ((i + k) / length l)%nat as [|[|?]]; lia.
Qed.

Lemma getUnit_loop_ok (n : Z) (busy : list bool) (l : list Z) (i : nat) (start : Z) :
  Z.of_nat (length busy) = n → NoDup l → (i < length l)%nat → nth_unit l i 0 = Some start →
  ∀ fuel k u q, queue_ok n q → funcUnitsIdx q = l → fq_idx q = ((i + S k) mod length l)%nat →
  nth_unit l i k = Some u → (fuel + k = length l)%nat → (0 < fuel)%nat →
  (∀ j v, (j < k)%nat → nth_unit l i j = Some v → vget busy v = Ok true) →
  ∃ o q', getUnit_loop fuel busy start u q = Ok (o, q') ∧ queue_ok n q' ∧ funcUnitsIdx q' = l
    ∧ match o with
      | Some v => v ∈ l ∧ vget busy v = Ok false
      | None => ∀ v, v ∈ l → vget busy v = Ok true
      end.
Proof.
  intros Hb Hnd Hi H0. induction fuel as [|fuel IH]; intros k u q Hq Hl Hc Hu Hf Hpos Hall; [lia|].
  cbn [getUnit_loop]. pose proof Hq as (_ & _ & Hr).
  assert (u ∈ l) as Hin by (by eapply list_elem_of_lookup_2).
  destruct (vget_in_range busy u) as [b Hbu]; [rewrite Hb; apply Hr; by rewrite Hl|].
  rewrite Hbu. cbn [mbind res_bind]. destruct b; [|by eauto 10].
  destruct (getFU_ok n q l i (S k) Hq Hl Hc) as (u' & q' & -> & Hu' & Hq' & Hl' & Hc').
  cbn [mbind res_bind].
  assert (Hall' : ∀ j v, (j < S k)%nat → nth_unit l i j = Some v → vget busy v = Ok true).
  { intros j v Hj Hv. destruct (decide (j = k)) as [->|Hne]; [by simplify_eq|]. apply (Hall j); [lia|done]. }
  destruct (Z.eqb_spec u' start) as [->|Hne].
  - exists None, q'. split; [done|]. split; [done|]. split; [done|]. intros v Hv.
    assert (S k = length l) as Ek by (eapply (nth_unit_start l i (S k) start); eauto; lia).
    destruct (nth_unit_all l i v Hv) as (j & Hj & Hjv). eapply Hall'; [|exact Hjv]. lia.
  - apply (IH (S k)); try done; [lia|]. destruct fuel; [|lia]. exfalso. apply Hne.
    unfold nth_unit in Hu', H0. replace (i + S k)%nat with (i + 1 * length l)%nat in Hu' by lia.
    rewrite Nat.Div0.mod_add, Nat.add_0_r in *. congruence.
Qed.

(** ** The constructor *)
(** A pool under construction: the units known so far are below [bound c]. *)
Definition building (bound : nat → Z) (p : FUPool) : Prop :=
  ∀ c, fq_idx (fuPerCapList p c) = 0%nat ∧ NoDup (funcUnitsIdx (fuPerCapList p c))
    ∧ (∀ u, u ∈ funcUnitsIdx (fuPerCapList p c) → 0 ≤ u < bound c)
    ∧ (capabilityList p c = true → funcUnitsIdx (fuPerCapList p c) ≠ []).

Lemma addFU_seq (n : Z) (number : nat) (q : FUIdxQueue) :
  foldl (λ q k, addFU (n + Z.of_nat k) q) q (seq 0 number)
  = q <| funcUnitsIdx ::= (λ l, l ++ ((λ k, n + Z.of_nat k) <$> seq 0 number)) |>.
Proof.
  induction number as [|m IH]; [|].
  { destruct q as [i l]. change (MkFUIdxQueue i l = MkFUIdxQueue i (l ++ [])). by rewrite app_nil_r. }
  rewrite seq_S, foldl_app, IH, fmap_app. destruct q as [i l].
  change (MkFUIdxQueue i ((l ++ ((λ k, n + Z.of_nat k) <$> seq 0 m)) ++ [n + Z.of_nat m])
    = MkFUIdxQueue i (l ++ ((λ k, n + Z.of_nat k) <$> seq 0 m) ++ [n + Z.of_nat m])).
  by rewrite app_assoc.
Qed.

Lemma addOp_building (bound : nat → Z) (number : nat) (p : FUPool) (j : OpDesc) :
  building bound p → (0 < number)%nat → 0 ≤ numFU p → bound (od_opClass j) ≤ numFU p →
  building (<[od_opClass j := numFU p + Z.of_nat number]> bound) (addOp number p j)
  ∧ numFU (addOp number p j) = numFU p.
Proof.
  intros Hb Hn Hpos Hle. unfold addOp. cbn zeta. rewrite addFU_seq.
  set (q' := (fuPerCapList p (od_opClass j)) <| funcUnitsIdx ::= _ |>).
  set (p1 := p <| capabilityList ::= _ |> <| fuPerCapList ::= _ |>).
  assert (building (<[od_opClass j := numFU p + Z.of_nat number]> bound) p1 ∧ numFU p1 = numFU p) as H1.
  { split; [|done]. intros c. cbn. destruct (decide (c = od_opClass j)) as [->|Hne].
    - rewrite !fn_lookup_insert. destruct (Hb (od_opClass j)) as (Hi & Hnd & Hr & _).
      split; [done|]. split; [|split].
      + cbn. apply list.NoDup_app. split; [done|]. split.
        * intros u Hu [k [-> Hk]]%list_elem_of_fmap. specialize (Hr _ Hu). lia.
        * apply NoDup_fmap_2; [intros ???; lia|apply NoDup_seq].
      + cbn. intros u [Hu|[k [-> Hk%elem_of_seq]]%list_elem_of_fmap]%elem_of_app; [|lia].
        specialize (Hr u Hu). lia.
      + intros _. cbn. destruct number; [lia|]. intros E%app_eq_nil. destruct E as [_ E]. done.
    - rewrite !fn_lookup_insert_ne by done. apply Hb. }
  clearbody p1. clear -H1. destruct (_ <? _), (negb _); exact H1.
Qed.

Lemma addOps_building (number : nat) (l : list OpDesc) (bound : nat → Z) (p : FUPool) (n : Z) :
  (0 < number)%nat → 0 ≤ n → numFU p = n → building bound p → NoDup (od_opClass <$> l) →
  (∀ j, j ∈ l → bound (od_opClass j) ≤ n) → (∀ c, bound c ≤ n + Z.of_nat number) →
  building (λ _, n + Z.of_nat number) (foldl (addOp number) p l) ∧ numFU (foldl (addOp number) p l) = n.
Proof.
  intros Hn Hpos. revert bound p; induction l as [|j l IH]; intros bound p En Hb Hnd Hj Hc.
  { cbn. split; [|done]. intros c. destruct (Hb c) as (?&?&Hr&?). split_and!; try done.
    intros u Hu. specialize (Hr u Hu). specialize (Hc c). lia. }
  csimpl in Hnd. inversion_clear Hnd as [|? ? Hnot Hnd'].
  destruct (addOp_building bound number p j Hb Hn) as [Hb1 En1]; [lia|rewrite En; apply Hj; left|].
  cbn [foldl]. rewrite En in *. eapply IH; [done|exact Hb1|done| |].
  - intros j' Hj'. rewrite fn_lookup_insert_ne; [apply Hj; by right|].
    intros E. apply Hnot. rewrite E. by apply list_elem_of_fmap_2.
  - intros c. destruct (decide (c = od_opClass j)) as [->|Hne].
    + rewrite fn_lookup_insert. lia.
    + rewrite fn_lookup_insert_ne by done. apply Hc.
Qed.

Lemma addFUDesc_building (p : FUPool) (i : FUDesc) :
  0 ≤ numFU p → building (λ _, numFU p) p → NoDup (od_opClass <$> fd_opDescList i) →
  building (λ _, numFU (addFUDesc p i)) (addFUDesc p i) ∧ 0 ≤ numFU (addFUDesc p i).
Proof.
  intros Hpos Hb Hnd. unfold addFUDesc. destruct (Nat.ltb_spec 0 (fd_number i)); [|done].
  destruct (addOps_building (fd_number i) (fd_opDescList i) (λ _, numFU p) p (numFU p)) as [H1 E1];
    try done; [intros; lia|].
  set (p1 := foldl _ _ _) in *. split; [|cbn; lia].
  intros c. destruct (H1 c) as (?&?&Hr&?). cbn [numFU over_field fuPerCapList capabilityList].
  split_and!; try done. intros u Hu. specialize (Hr u Hu). rewrite E1. lia.
Qed.

Lemma FUPool_init_wf (FUList : list FUDesc) :
  (∀ i, i ∈ FUList → NoDup (od_opClass <$> fd_opDescList i)) → fu_wf (FUPool_init FUList).
Proof.
  intros Hl. unfold FUPool_init. cbn zeta.
  match goal with |- context [foldl addFUDesc ?x _] => set (p0 := x) end.
  assert (building (λ _, numFU p0) p0 ∧ 0 ≤ numFU p0) as Hp0.
  { split; [|done]. intros c. cbn. split; [done|]. split; [constructor|]. split; [set_solver|done]. }
  clearbody p0. revert p0 Hp0; induction FUList as [|i l IH]; intros p0 [Hb Hpos]; cbn [foldl].
  - split; cbn; [rewrite length_replicate; lia|]. intros c Hc. destruct (Hb c) as (E & ? & ? & Hne).
    split; [|done]. rewrite E. specialize (Hne Hc). destruct (funcUnitsIdx _); [done|cbn; lia].
  - apply IH; [intros; apply Hl; by right|]. apply addFUDesc_building; [done|done|apply Hl; left].
Qed.

(** Allocation, case by case. *)
Lemma getUnit_ok (c : nat) (p : FUPool) :
  fu_wf p →
  ∃ u p', getUnit c p = Ok (u, p') ∧ fu_wf p' ∧
  ((capabilityList p c = false ∧ u = NoCapableFU ∧ p' = p)
   ∨ (capabilityList p c = true ∧ u = NoFreeFU ∧ unitBusy p' = unitBusy p
      ∧ ∀ v, v ∈ funcUnitsIdx (fuPerCapList p c) → vget (unitBusy p) v = Ok true)
   ∨ (capabilityList p c = true ∧ u ∈ funcUnitsIdx (fuPerCapList p c)
      ∧ vget (unitBusy p) u = Ok false ∧ unitBusy p' = <[Z.to_nat u := true]> (unitBusy p))).
Proof.
  intros [Hb Hq]. unfold getUnit. destruct (capabilityList p c) eqn:Hc; cbn [negb].
  2: { exists NoCapableFU, p. split; [done|]. split; [by split|]. by left. }
  specialize (Hq c Hc) as Hqc. set (q := fuPerCapList p c) in *.
  pose proof Hqc as (Hi & Hnd & Hr).
  destruct (getFU_ok (numFU p) q (funcUnitsIdx q) (fq_idx q) 0 Hqc eq_refl) as (u & q1 & -> & Hu & Hq1 & Hl1 & Hc1).
  { rewrite Nat.add_0_r. symmetry. by apply Nat.mod_small. }
  cbn [mbind res_bind].
  destruct (getUnit_loop_ok (numFU p) (unitBusy p) (funcUnitsIdx q) (fq_idx q) u Hb Hnd Hi Hu
    (length (funcUnitsIdx q1)) 0 u q1) as (o & q2 & -> & Hq2 & Hl2 & Ho); try done; [rewrite Hl1; lia..|intros; lia|].
  cbn [mbind res_bind].
  assert (Hwf2 : ∀ busy, length busy = length (unitBusy p) →
            fu_wf (p <| fuPerCapList ::= <[c := q2]> |> <| unitBusy := busy |>)).
  { intros busy Hlen. split; cbn; [by rewrite Hlen|]. intros c' Hc'.
    destruct (decide (c' = c)) as [->|Hne]; [by rewrite fn_lookup_insert|].
    rewrite fn_lookup_insert_ne by done. by apply Hq. }
  destruct o as [v|].
  - destruct Ho as [Hv Hfree]. pose proof (Hr v Hv) as Hvr. cbn [numFU unitBusy over_field].
    rewrite (proj2 (Z.ltb_lt v (numFU p))) by lia. cbn [assert mbind res_bind].
    rewrite (vset_in_range (unitBusy p)) by lia. cbn [mbind res_bind].
    eexists v, _. split; [done|]. split; [apply Hwf2; apply length_insert|]. by do 2 right.
  - eexists NoFreeFU, _. split; [done|]. split; [apply (Hwf2 (unitBusy p) eq_refl)|]. right. by left.
Qed.

(** ** Properties *)
(** unit allocation always returns and is complete and exclusive.  Without a
    capable unit it answers [NoCapableFU]; otherwise it answers [NoFreeFU] exactly
    when every capable unit is busy, and else a capable unit that was free, which
    is busy afterwards while all the other units keep their state. *)
Theorem getUnit_correct (c : nat) (p : FUPool) :
  fu_wf p →
  ∃ u p', getUnit c p = Ok (u, p') ∧ fu_wf p' ∧
  ((capabilityList p c = false ∧ u = NoCapableFU ∧ p' = p)
   ∨ (capabilityList p c = true ∧ u = NoFreeFU ∧ unitBusy p' = unitBusy p
      ∧ ∀ v, v ∈ funcUnitsIdx (fuPerCapList p c) → vget (unitBusy p) v = Ok true)
   ∨ (capabilityList p c = true ∧ u ∈ funcUnitsIdx (fuPerCapList p c)
      ∧ vget (unitBusy p) u = Ok false ∧ unitBusy p' = <[Z.to_nat u := true]> (unitBusy p))).
Proof. apply getUnit_ok. Qed.
