(* ===== verification/ReadyList.v ===== *)
(** * Ready lists

    The part of the instruction queue ([src/cpu/o3/inst_queue.hh],
    [inst_queue_impl.hh]) that holds instructions ready to issue: a priority
    queue per operation class and the age-ordered list of the classes that have
    ready instructions.  The memory dependence unit shares it with the queue
    through [addReadyMemInst].

    A [std::priority_queue] is its elements in the order [top()] and [pop()]
    deliver them (the flags [pqCompare] reads do not change while an instruction
    is queued).  The iterator [readyIt[c]] is denoted by its class [c], which the
    list holds at most once outside [scheduleReadyInsts]. *)

From S2P Require Import Prelude Regs DynInst IQInterface.
Local Open Scope Z_scope.

(** [ListOrderEntry]: the class and the age of its oldest instruction. *)
Record ListOrderEntry := MkListOrderEntry {
  queueType : nat;
  oldestInst : Z;
}.

Record ReadyList := MkReadyList {
  readyInsts : nat → list InstPtr;
  listOrder : list ListOrderEntry;
  queueOnList : nat → bool;
}.
#[export] Instance ReadyList_eta : Updatable ReadyList :=
  λ r, MkReadyList (readyInsts r) (listOrder r) (queueOnList r).

Definition ReadyList_init : ReadyList := MkReadyList (λ _, []) [] (λ _, false).

(** [pqCompare]: does [lhs] come after [rhs]? *)
Definition pqCompare (fl : DebugFlags) (lhs rhs : DynInst) : bool :=
  let lhs_preq := isBranchPrequisite lhs && isLoad lhs in
  let rhs_preq := isBranchPrequisite rhs && isLoad rhs in
  if CD_Prioritize_Branch_Execution fl && negb (eqb lhs_preq rhs_preq) then negb lhs_preq && rhs_preq
  else seqNum rhs <? seqNum lhs.

(** [push]. *)
Fixpoint pq_push (fl : DebugFlags) (h : heap) (p : InstPtr) (d : DynInst) (l : list InstPtr)
    : res (list InstPtr) :=
  match l with
  | [] => Ok [p]
  | q :: l' =>
      e ← deref (h !! q);
      if pqCompare fl e d then Ok (p :: l)
      else l'' ← pq_push fl h p d l'; Ok (q :: l'')
  end.

(** The search of [addToOrderList]: in front of the first class whose oldest
    instruction is younger. *)
Fixpoint order_insert (e : ListOrderEntry) (l : list ListOrderEntry) : list ListOrderEntry :=
  match l with
  | [] => [e]
  | x :: l' => if oldestInst e <? oldestInst x then e :: l else x :: order_insert e l'
  end.

(** [readyInsts[op_class].top()->seqNum]. *)
Definition top_seq (h : heap) (op_class : nat) (r : ReadyList) : res Z :=
  p ← deref (hd_error (readyInsts r op_class));
  d ← deref (h !! p);
  Ok (seqNum d).

Definition addToOrderList (h : heap) (op_class : nat) (r : ReadyList) : res ReadyList :=
  _ ← assert (bool_decide (readyInsts r op_class ≠ []));
  n ← top_seq h op_class r;
  Ok (r <| listOrder ::= order_insert (MkListOrderEntry op_class n) |>
        <| queueOnList ::= <[op_class := true]> |>).

(** [*readyIt[op_class]] and [listOrder.erase(readyIt[op_class])]. *)
Definition order_entry (op_class : nat) (l : list ListOrderEntry) : option ListOrderEntry :=
  List.find (λ e, queueType e =? op_class)%nat l.
Definition order_erase (op_class : nat) (l : list ListOrderEntry) : list ListOrderEntry :=
  List.filter (λ e, negb (queueType e =? op_class))%nat l.

(** [addReadyMemInst], and the tail of [addIfReady]. *)
Definition addReadyInst (fl : DebugFlags) (h : heap) (p : InstPtr) (r : ReadyList) : res ReadyList :=
  d ← deref (h !! p);
  let op_class := opClass d in
  l ← pq_push fl h p d (readyInsts r op_class);
  let r := r <| readyInsts ::= <[op_class := l]> |> in
  if negb (queueOnList r op_class) then addToOrderList h op_class r
  else
    n ← top_seq h op_class r;
    e ← deref (order_entry op_class (listOrder r));
    if n <? oldestInst e then
      addToOrderList h op_class (r <| listOrder ::= order_erase op_class |>)
    else Ok r.

(** [moveToYoungerInst], applied to the part of the list behind the entry of
    [op_class]. *)
Fixpoint order_move (e : ListOrderEntry) (l : list ListOrderEntry) : list ListOrderEntry :=
  match l with
  | [] => [e]
  | x :: l' => if oldestInst x <? oldestInst e then x :: order_move e l' else e :: l
  end.

Definition hasReadyInsts (numOpClasses : nat) (r : ReadyList) : bool :=
  bool_decide (listOrder r ≠ []) || existsb (λ c, bool_decide (readyInsts r c ≠ [])) (seq 0 numOpClasses).

(** ** Well-formed ready lists *)
Fixpoint age_sorted (l : list ListOrderEntry) : Prop :=
  match l with
  | [] => True
  | x :: l' => (∀ y, y ∈ l' → oldestInst x ≤ oldestInst y) ∧ age_sorted l'
  end.

Fixpoint pq_sorted (h : heap) (l : list InstPtr) : Prop :=
  match l with
  | [] => True
  | p :: l' => (∀ q dq dp, q ∈ l' → h !! p = Some dp → h !! q = Some dq → seqNum dp ≤ seqNum dq)
               ∧ pq_sorted h l'
  end.

(** Without branch priorities: every queue is sorted by age, and a class with ready
    instructions is on the order list once, with the age of its oldest one. *)
Record rl_wf (h : heap) (r : ReadyList) : Prop := {
  rl_live : ∀ c p, p ∈ readyInsts r c → ∃ d, h !! p = Some d ∧ opClass d = c;
  rl_pq : ∀ c, pq_sorted h (readyInsts r c);
  rl_on : ∀ c, queueOnList r c = true ↔ readyInsts r c ≠ [];
  rl_listed : ∀ c, queueOnList r c = true ↔ ∃ e, e ∈ listOrder r ∧ queueType e = c;
  rl_once : NoDup (queueType <$> listOrder r);
  rl_age : ∀ e, e ∈ listOrder r → top_seq h (queueType e) r = Ok (oldestInst e);
  rl_sorted : age_sorted (listOrder r);
}.

Lemma ReadyList_init_wf (h : heap) : rl_wf h ReadyList_init.
Proof.
  split; cbn; [set_solver|done|done| |constructor|set_solver|done].
  intros c. split; [done|]. intros (e & He & _). by apply not_elem_of_nil in He.
Qed.

(** *** Priority queue *)
Lemma pq_push_elem (fl : DebugFlags) (h : heap) (p : InstPtr) (d : DynInst) (l l' : list InstPtr) (x : InstPtr) :
  pq_push fl h p d l = Ok l' → x ∈ l' ↔ x = p ∨ x ∈ l.
Proof.
  revert l'; induction l as [|q l IH]; intros l' E; cbn in E.
  - injection E as <-. set_solver.
  - apply bind_ok in E as (e & _ & E). destruct (pqCompare fl e d).
    + injection E as <-. set_solver.
    + apply bind_ok in E as (l'' & E1 & E). injection E as <-. specialize (IH _ E1). set_solver.
Qed.

(** [push] never fails on live instructions, keeps the queue sorted, and its top is
    the older of the old top and the new instruction. *)
Lemma pq_push_ok (fl : DebugFlags) (h : heap) (p : InstPtr) (d : DynInst) (l : list InstPtr) :
  CD_Prioritize_Branch_Execution fl = false → h !! p = Some d →
  (∀ q, q ∈ l → ∃ e, h !! q = Some e) → pq_sorted h l →
  ∃ l', pq_push fl h p d l = Ok l' ∧ pq_sorted h l'.
Proof.
  intros Hfl Hd. induction l as [|q l IH]; intros Hlive Hs; cbn.
  { eexists. split; [done|]. cbn. set_solver. }
  destruct (Hlive q ltac:(left)) as [e He]. rewrite He. cbn [deref mbind res_bind].
  unfold pqCompare. rewrite Hfl. cbn [andb]. cbn in Hs. destruct Hs as [H1 H2].
  destruct (Z.ltb_spec (seqNum d) (seqNum e)).
  - eexists. split; [done|]. cbn. split; [|done]. intros x dx dp Hx Hp Hxd. simplify_eq.
    apply elem_of_cons in Hx as [->|Hx]; [simplify_eq; lia|]. specialize (H1 x dx e Hx He Hxd). lia.
  - destruct (IH ltac:(intros; apply Hlive; by right) H2) as (l' & E & Hs'). rewrite E.
    eexists. split; [done|]. cbn. split; [|done]. intros x dx dq Hx Hq Hxd. simplify_eq.
    apply (pq_push_elem _ _ _ _ _ _ _ E) in Hx as [->|Hx]; [simplify_eq; lia|]. eauto.
Qed.

(** *** Order list *)
Lemma order_insert_elem (e x : ListOrderEntry) (l : list ListOrderEntry) :
  x ∈ order_insert e l ↔ x = e ∨ x ∈ l.
Proof. induction l as [|y l IH]; cbn; [set_solver|]. case_match; set_solver. Qed.
Lemma order_insert_sorted (e : ListOrderEntry) (l : list ListOrderEntry) :
  age_sorted l → age_sorted (order_insert e l).
Proof.
  induction l as [|y l IH]; cbn; [intros _; split; [set_solver|done]|]. intros [H1 H2].
  destruct (Z.ltb_spec (oldestInst e) (oldestInst y)); cbn.
  - split; [|done]. intros x [->|Hx]%elem_of_cons; [lia|]. specialize (H1 x Hx). lia.
  - split; [|by apply IH]. intros x [->|Hx]%order_insert_elem; [done|auto].
Qed.
Lemma order_insert_NoDup (e : ListOrderEntry) (l : list ListOrderEntry) :
  queueType e ∉ queueType <$> l → NoDup (queueType <$> l) → NoDup (queueType <$> order_insert e l).
Proof.
  induction l as [|y l IH]; csimpl; intros Hn Hnd; [by constructor|].
  case_match; csimpl; [by constructor|]. inversion_clear Hnd as [|? ? Hy Hnd'].
  constructor; [|apply IH; [set_solver|done]].
  intros (x & E & [->|Hx]%order_insert_elem)%list_elem_of_fmap; [set_solver|].
  apply Hy. rewrite E. by apply list_elem_of_fmap_2.
Qed.

Lemma order_erase_elem (c : nat) (x : ListOrderEntry) (l : list ListOrderEntry) :
  x ∈ order_erase c l ↔ x ∈ l ∧ queueType x ≠ c.
Proof.
  unfold order_erase. rewrite !list_elem_of_In, filter_In, negb_true_iff, Nat.eqb_neq. done.
Qed.
Lemma order_erase_sorted (c : nat) (l : list ListOrderEntry) : age_sorted l → age_sorted (order_erase c l).
Proof.
  induction l as [|y l IH]; cbn; [done|]. intros [H1 H2]. case_match; cbn; [|by apply IH].
  split; [|by apply IH]. intros x [Hx _]%order_erase_elem. auto.
Qed.
Lemma order_erase_NoDup (c : nat) (l : list ListOrderEntry) :
  NoDup (queueType <$> l) → NoDup (queueType <$> order_erase c l).
Proof.
  induction l as [|y l IH]; csimpl; [done|]. intros Hnd. inversion_clear Hnd as [|? ? Hy Hnd'].
  unfold order_erase in *. cbn. case_match; csimpl; [|by apply IH]. constructor; [|by apply IH].
  intros (x & E & [Hx _]%order_erase_elem)%list_elem_of_fmap. apply Hy. rewrite E. by apply list_elem_of_fmap_2.
Qed.
Lemma order_entry_Some (c : nat) (l : list ListOrderEntry) (e : ListOrderEntry) :
  order_entry c l = Some e → e ∈ l ∧ queueType e = c.
Proof.
  unfold order_entry. intros [Hin Hq]%find_some. rewrite list_elem_of_In. by apply Nat.eqb_eq in Hq.
Qed.
Lemma order_entry_found (c : nat) (l : list ListOrderEntry) :
  (∃ e, e ∈ l ∧ queueType e = c) → ∃ e, order_entry c l = Some e.
Proof.
  intros (e & He & Hq). destruct (order_entry c l) eqn:E; [by eauto|].
  unfold order_entry in E. apply find_none with (x := e) in E; [|by apply list_elem_of_In].
  by apply Nat.eqb_neq in E.
Qed.

Lemma NoDup_key_inj (l : list ListOrderEntry) (x y : ListOrderEntry) :
  NoDup (queueType <$> l) → x ∈ l → y ∈ l → queueType x = queueType y → x = y.
Proof.
  induction l as [|z l IH]; csimpl; intros Hnd Hx Hy E; [by apply not_elem_of_nil in Hx|].
  inversion_clear Hnd as [|? ? Hz Hnd'].
  apply elem_of_cons in Hx as [->|Hx], Hy as [->|Hy]; [done| | |by apply IH].
  - exfalso. apply Hz. rewrite E. by apply list_elem_of_fmap_2.
  - exfalso. apply Hz. rewrite <- E. by apply list_elem_of_fmap_2.
Qed.

Lemma top_seq_ne (h : heap) (c c' : nat) (l : list InstPtr) (r : ReadyList) :
  c' ≠ c → top_seq h c' (r <| readyInsts ::= <[c := l]> |>) = top_seq h c' r.
Proof. intros Hne. unfold top_seq. cbn. by rewrite fn_lookup_insert_ne. Qed.

Lemma top_seq_ok (h : heap) (c : nat) (r : ReadyList) :
  readyInsts r c ≠ [] → (∀ p, p ∈ readyInsts r c → ∃ d, h !! p = Some d) → pq_sorted h (readyInsts r c) →
  ∃ n, top_seq h c r = Ok n ∧ ∀ p d, p ∈ readyInsts r c → h !! p = Some d → n ≤ seqNum d.
Proof.
  unfold top_seq. destruct (readyInsts r c) as [|t l]; [done|]. intros _ Hl [Hs _].
  destruct (Hl t ltac:(left)) as [dt Ht]. cbn. rewrite Ht. cbn. eexists. split; [done|].
  intros p d [->|Hp]%elem_of_cons Hd; [by simplify_eq|]. eauto.
Qed.

(** The list once class [c], with ready instructions, is (re)inserted. *)
Lemma addToOrderList_wf (h : heap) (c : nat) (r r1 : ReadyList) :
  rl_wf h r → readyInsts r1 c ≠ [] →
  (∀ p, p ∈ readyInsts r1 c → ∃ d, h !! p = Some d ∧ opClass d = c) → pq_sorted h (readyInsts r1 c) →
  (∀ c', c' ≠ c → readyInsts r1 c' = readyInsts r c' ∧ queueOnList r1 c' = queueOnList r c') →
  (∀ e, e ∈ listOrder r1 ↔ e ∈ listOrder r ∧ queueType e ≠ c) →
  NoDup (queueType <$> listOrder r1) → age_sorted (listOrder r1) →
  ∃ r', addToOrderList h c r1 = Ok r' ∧ rl_wf h r' ∧ readyInsts r' = readyInsts r1.
Proof.
  intros [Hlive Hpq Hon Hlist Honce Hage Hsort] Hne Hl Hs Hother Helem Hnd Hso.
  destruct (top_seq_ok h c r1 Hne) as (n & Hn & _); [naive_solver|done|].
  unfold addToOrderList. rewrite bool_decide_eq_true_2 by done. cbn [assert mbind res_bind].
  rewrite Hn. cbn [mbind res_bind]. eexists. split; [done|]. split; [|done].
  split; cbn.
  - intros c'. destruct (decide (c' = c)) as [->|Hc]; [done|]. rewrite (proj1 (Hother c' Hc)). apply Hlive.
  - intros c'. destruct (decide (c' = c)) as [->|Hc]; [done|]. rewrite (proj1 (Hother c' Hc)). apply Hpq.
  - intros c'. destruct (decide (c' = c)) as [->|Hc]; [by rewrite fn_lookup_insert|].
    rewrite fn_lookup_insert_ne by done. destruct (Hother c' Hc) as [-> ->]. apply Hon.
  - intros c'. setoid_rewrite order_insert_elem. destruct (decide (c' = c)) as [->|Hc].
    + rewrite fn_lookup_insert. split; [|done]. intros _. eexists. by split; [left|].
    + rewrite fn_lookup_insert_ne by done. rewrite (proj2 (Hother c' Hc)), Hlist.
      setoid_rewrite Helem. naive_solver.
  - apply order_insert_NoDup; [|done]. cbn. intros (e & E & He)%list_elem_of_fmap.
    apply Helem in He as [_ He]. congruence.
  - intros e [->|He]%order_insert_elem; [done|]. apply Helem in He as [He Hq].
    rewrite <- (Hage e He). unfold top_seq. cbn. by rewrite (proj1 (Hother _ Hq)).
  - by apply order_insert_sorted.
Qed.

(** Adding a ready instruction always succeeds, keeps the lists well formed, and
    queues exactly that instruction. *)
Lemma addReadyInst_ok (fl : DebugFlags) (h : heap) (p : InstPtr) (d : DynInst) (r : ReadyList) :
  CD_Prioritize_Branch_Execution fl = false → rl_wf h r → h !! p = Some d →
  ∃ r', addReadyInst fl h p r = Ok r' ∧ rl_wf h r'
    ∧ ∀ c x, x ∈ readyInsts r' c ↔ x ∈ readyInsts r c ∨ (x = p ∧ c = opClass d).
Proof.
  intros Hfl Hwf Hd. pose proof Hwf as [Hlive Hpq Hon Hlist Honce Hage Hsort].
  unfold addReadyInst. rewrite Hd. cbn [deref mbind res_bind]. cbn zeta. set (c := opClass d).
  destruct (pq_push_ok fl h p d (readyInsts r c) Hfl Hd) as (l & El & Hsl); [naive_solver|done|].
  rewrite El. cbn [mbind res_bind]. set (r1 := r <| readyInsts ::= <[c := l]> |>).
  assert (Hx : ∀ x, x ∈ l ↔ x = p ∨ x ∈ readyInsts r c) by (intros; by eapply pq_push_elem).
  assert (E1 : readyInsts r1 c = l) by (cbn; by rewrite fn_lookup_insert).
  assert (Hother : ∀ c', c' ≠ c → readyInsts r1 c' = readyInsts r c' ∧ queueOnList r1 c' = queueOnList r c').
  { intros c' Hc. cbn. by rewrite fn_lookup_insert_ne. }
  assert (Hl1 : ∀ q, q ∈ l → ∃ e, h !! q = Some e ∧ opClass e = c).
  { intros q [->|Hq]%Hx; [by exists d|by apply Hlive]. }
  assert (Hne : l ≠ []) by (intros ->; specialize (Hx p); set_solver).
  assert (Hmem : ∀ r', readyInsts r' = readyInsts r1 →
    ∀ c' x, x ∈ readyInsts r' c' ↔ x ∈ readyInsts r c' ∨ (x = p ∧ c' = c)).
  { intros r' -> c' x. destruct (decide (c' = c)) as [->|Hc]; [rewrite E1, Hx; naive_solver|].
    rewrite (proj1 (Hother c' Hc)). naive_solver. }
  change (queueOnList r1 c) with (queueOnList r c). destruct (queueOnList r c) eqn:Eon; cbn [negb].
  - destruct (top_seq_ok h c r1) as (n & Hn & Hmin); [by rewrite E1|rewrite E1; naive_solver|by rewrite E1|].
    rewrite Hn. cbn [mbind res_bind]. change (listOrder r1) with (listOrder r).
    destruct (order_entry_found c (listOrder r) (proj1 (Hlist c) Eon)) as [e He].
    rewrite He. cbn [deref mbind res_bind]. apply order_entry_Some in He as [He Hqe].
    destruct (Z.ltb_spec n (oldestInst e)) as [Hlt|Hge].
    + destruct (addToOrderList_wf h c r (r1 <| listOrder ::= order_erase c |>)) as (r' & -> & Hwf' & E');
        try done; cbn; rewrite ?fn_lookup_insert; try done.
      * intros e'. apply order_erase_elem.
      * by apply order_erase_NoDup.
      * by apply order_erase_sorted.
      * exists r'. split; [done|]. split; [done|]. by apply Hmem.
    + assert (n = oldestInst e) as ->.
      { specialize (Hage e He). rewrite Hqe in Hage. unfold top_seq in Hage.
        destruct (readyInsts r c) as [|t lr] eqn:Elr; [done|]. cbn in Hage.
        destruct (h !! t) as [dt|] eqn:Et; [|done]. cbn in Hage. injection Hage as Hage.
        specialize (Hmin t dt ltac:(rewrite E1; apply Hx; right; left) Et). lia. }
      exists r1. split; [done|]. split; [|by apply Hmem]. split; try done.
      * intros c'. destruct (decide (c' = c)) as [->|Hc]; [by rewrite E1|].
        rewrite (proj1 (Hother c' Hc)). apply Hlive.
      * intros c'. destruct (decide (c' = c)) as [->|Hc]; [by rewrite E1|].
        rewrite (proj1 (Hother c' Hc)). apply Hpq.
      * intros c'. destruct (decide (c' = c)) as [->|Hc]; [by rewrite E1|].
        rewrite (proj1 (Hother c' Hc)). apply Hon.
      * intros e' He'. destruct (decide (queueType e' = c)) as [Hc|Hc].
        -- assert (e' = e) as -> by (eapply NoDup_key_inj; [exact Honce|done|done|congruence]).
           by rewrite Hqe.
        -- unfold r1. rewrite top_seq_ne by done. by apply Hage.
  - destruct (addToOrderList_wf h c r r1) as (r' & -> & Hwf' & E'); try done; rewrite ?E1; try done.
    + intros e. split; [|by intros [? _]]. intros He. split; [done|]. intros Hq.
      assert (queueOnList r c = true) by (apply Hlist; eauto). congruence.
    + exists r'. split; [done|]. split; [done|]. by apply Hmem.
Qed.

(** ** Properties *)
(** queueing a ready instruction.  Under the age order, adding a live instruction
    to well-formed ready lists always succeeds, adds it to the queue of its class and
    to no other, and the lists stay well formed: queues sorted by age, each class
    with ready instructions on the order list exactly once with the age of its
    oldest one, the order list sorted. *)
Theorem ready_lists_maintained (fl : DebugFlags) (h : heap) (p : InstPtr) (d : DynInst) (r : ReadyList) :
  CD_Prioritize_Branch_Execution fl = false → rl_wf h r → h !! p = Some d →
  ∃ r', addReadyInst fl h p r = Ok r' ∧ rl_wf h r'
    ∧ ∀ c x, x ∈ readyInsts r' c ↔ x ∈ readyInsts r c ∨ (x = p ∧ c = opClass d).
Proof. apply addReadyInst_ok. Qed.

(** the scheduler looks at the oldest first: the first class of the order list
    holds the oldest of all ready instructions, at the top of its queue. *)
Theorem oldest_ready_first (h : heap) (r : ReadyList) (e : ListOrderEntry) (l : list ListOrderEntry)
    (c : nat) (p : InstPtr) (d : DynInst) :
  rl_wf h r → listOrder r = e :: l → p ∈ readyInsts r c → h !! p = Some d →
  top_seq h (queueType e) r = Ok (oldestInst e) ∧ oldestInst e ≤ seqNum d.
Proof.
  intros [Hlive Hpq Hon Hlist Honce Hage Hsort] El Hp Hd. split; [apply Hage; rewrite El; left|].
  assert (queueOnList r c = true) as Hq by (apply Hon; intros E; rewrite E in Hp; by apply not_elem_of_nil in Hp).
  apply Hlist in Hq as (e' & He' & Hc).
  assert (oldestInst e ≤ oldestInst e') as Hle.
  { rewrite El in He', Hsort. apply elem_of_cons in He' as [->|He']; [lia|]. by apply Hsort. }
  destruct (top_seq_ok h c r) as (n & Hn & Hmin).
  - intros E. rewrite E in Hp. by apply not_elem_of_nil in Hp.
  - intros q Hq. destruct (Hlive c q Hq) as (dq & ? & _). eauto.
  - apply Hpq.
  - pose proof (Hage e' He') as Ha. rewrite Hc, Hn in Ha. injection Ha as ->. specialize (Hmin p d Hp Hd). lia.
Qed.
