(* ===== verification/MemDep.v ===== *)
(** * Memory dependence unit

    [src/cpu/o3/mem_dep_unit.hh] and [mem_dep_unit_impl.hh]: which memory
    instructions must wait for an older store or barrier.  The shared
    [MemDepEntry] objects live in a store of their own ([me_store]), named by the
    order of their creation, because the hash table and the dependence lists of
    other entries point at the same object.  [listIt] is the entry's own
    instruction.  The unit hands ready instructions to the IQ's ready lists. *)

From S2P Require Import Prelude Regs DynInst IQInterface StoreSet ReadyList.
Local Open Scope Z_scope.

Record MemDepEntry := MkMemDepEntry {
  me_inst : InstPtr;
  dependInsts : list nat;
  me_regsReady : bool;
  memDepReady : bool;
  me_squashed : bool;
}.
#[export] Instance MemDepEntry_eta : Updatable MemDepEntry := λ r, MkMemDepEntry (me_inst r)
  (dependInsts r) (me_regsReady r) (memDepReady r) (me_squashed r).

Record MemDepUnit := MkMemDepUnit {
  memDepHash : gmap Z nat;
  me_store : gmap nat MemDepEntry;
  me_next : nat;
  md_instList : nat → list InstPtr;
  instsToReplay : list InstPtr;
  depPred : StoreSet;
  loadBarrier : bool;
  loadBarrierSN : Z;
  storeBarrier : bool;
  storeBarrierSN : Z;
}.
#[export] Instance MemDepUnit_eta : Updatable MemDepUnit := λ r, MkMemDepUnit (memDepHash r)
  (me_store r) (me_next r) (md_instList r) (instsToReplay r) (depPred r) (loadBarrier r)
  (loadBarrierSN r) (storeBarrier r) (storeBarrierSN r).

Definition MemDepUnit_init (clear_period : Z) (SSIT_size LFST_size : nat) : MemDepUnit :=
  MkMemDepUnit ∅ ∅ 0 (λ _, []) [] (StoreSet_init clear_period SSIT_size LFST_size) false 0 false 0.

Definition md_isDrained (maxThreads : nat) (m : MemDepUnit) : bool :=
  bool_decide (instsToReplay m = []) && bool_decide (memDepHash m = ∅)
  && forallb (λ i, bool_decide (md_instList m i = [])) (seq 0 maxThreads).

Definition md_takeOverFrom (m : MemDepUnit) : MemDepUnit :=
  m <| loadBarrier := false |> <| storeBarrier := false |> <| loadBarrierSN := 0 |>
    <| storeBarrierSN := 0 |> <| depPred ::= clear |>.

(** [std::make_shared<MemDepEntry>(inst)], its insertion in the hash (which keeps an
    existing entry) and in the instruction list; returns the entry. *)
Definition newEntry (p : InstPtr) (d : DynInst) (m : MemDepUnit) : nat * MemDepUnit :=
  let id := me_next m in
  (id,
   m <| me_store ::= <[id := MkMemDepEntry p [] false false false]> |>
     <| me_next ::= S |>
     <| memDepHash ::= (λ t, match t !! seqNum d with Some _ => t | None => <[seqNum d := id]> t end) |>
     <| md_instList ::= <[threadNumber d := md_instList m (threadNumber d) ++ [p]]> |>).

(** Update the object an entry pointer points at. *)
Definition on_entry (id : nat) (f : MemDepEntry → MemDepEntry) (m : MemDepUnit) : MemDepUnit :=
  m <| me_store ::= alter f id |>.

Definition findInHash (d : DynInst) (m : MemDepUnit) : res nat :=
  match memDepHash m !! seqNum d with
  | Some id => Ok id
  | None => Err AssertFailed
  end.

Section unit.
Context (fl : DebugFlags) (h : heap).
Implicit Types (m : MemDepUnit) (r : ReadyList).

Definition moveToReady (id : nat) m r : res ReadyList :=
  e ← deref (me_store m !! id);
  _ ← assert (negb (me_squashed e));
  addReadyInst fl h (me_inst e) r.

(** The store or barrier the instruction has to wait for, 0 for none. *)
Definition producingStore (d : DynInst) m : res Z :=
  if isLoad d && loadBarrier m then Ok (loadBarrierSN m)
  else if isStore d && storeBarrier m then Ok (storeBarrierSN m)
  else checkInst (instAddr (pc d)) (depPred m).

(** The predictor learns about a new store. *)
Definition insertInPred (d : DynInst) m : res MemDepUnit :=
  if isStore d then dp ← insertStore (instAddr (pc d)) (seqNum d) (depPred m); Ok (m <| depPred := dp |>)
  else if isLoad d then Ok m
  else Err Panicked.

(** The new heap differs in the [CanIssue] flag of the instruction only. *)
Definition md_insert (p : InstPtr) m r : res (heap * MemDepUnit * ReadyList) :=
  d ← deref (h !! p);
  let '(inst_entry, m) := newEntry p d m in
  producing_store ← producingStore d m;
  let store_entry := if negb (producing_store =? 0) then memDepHash m !! producing_store else None in
  '(h', m, r) ←
    match store_entry with
    | None =>
        let m := on_entry inst_entry (λ e, e <| memDepReady := true |>) m in
        if readyToIssue d then
          let m := on_entry inst_entry (λ e, e <| me_regsReady := true |>) m in
          r ← moveToReady inst_entry m r; Ok (h, m, r)
        else Ok (h, m, r)
    | Some se =>
        let m := if readyToIssue d then on_entry inst_entry (λ e, e <| me_regsReady := true |>) m else m in
        let h' := alter clearCanIssue p h in
        let m := on_entry se (λ e, e <| dependInsts ::= (λ l, l ++ [inst_entry]) |>) m in
        Ok (h', m, r)
    end;
  m ← insertInPred d m;
  Ok (h', m, r).

Definition md_insertNonSpec (p : InstPtr) m : res MemDepUnit :=
  d ← deref (h !! p);
  let '(_, m) := newEntry p d m in
  insertInPred d m.

Definition md_insertBarrier (p : InstPtr) m : res MemDepUnit :=
  d ← deref (h !! p);
  let m := if isMemBarrier d then
             m <| loadBarrier := true |> <| loadBarrierSN := seqNum d |>
               <| storeBarrier := true |> <| storeBarrierSN := seqNum d |>
           else if isWriteBarrier d then
             m <| storeBarrier := true |> <| storeBarrierSN := seqNum d |>
           else m in
  Ok (newEntry p d m).2.

Definition md_regsReady (p : InstPtr) m r : res (MemDepUnit * ReadyList) :=
  d ← deref (h !! p);
  id ← findInHash d m;
  let m := on_entry id (λ e, e <| me_regsReady := true |>) m in
  e ← deref (me_store m !! id);
  if memDepReady e then r ← moveToReady id m r; Ok (m, r) else Ok (m, r).

Definition md_nonSpecInstReady (p : InstPtr) m r : res ReadyList :=
  d ← deref (h !! p);
  id ← findInHash d m;
  moveToReady id m r.

Definition md_reschedule (p : InstPtr) m : MemDepUnit := m <| instsToReplay ::= (λ l, l ++ [p]) |>.

(** One iteration of [replay]. *)
Definition replayOne m (r : ReadyList) (p : InstPtr) : res ReadyList :=
  d ← deref (h !! p);
  id ← findInHash d m;
  moveToReady id m r.
Definition md_replay m r : res (MemDepUnit * ReadyList) :=
  r ← mfold (replayOne m) r (instsToReplay m);
  Ok (m <| instsToReplay := [] |>, r).

(** [instList[tid].erase(listIt)]: the one node of the instruction. *)
Fixpoint erase1 (p : InstPtr) (l : list InstPtr) : list InstPtr :=
  match l with
  | [] => []
  | q :: l' => if decide (q = p) then l' else q :: erase1 p l'
  end.

Definition md_completed (p : InstPtr) m : res MemDepUnit :=
  d ← deref (h !! p);
  let tid := threadNumber d in
  match memDepHash m !! seqNum d with
  | None => Err AssertFailed
  | Some id =>
      e ← deref (me_store m !! id);
      Ok (m <| md_instList ::= <[tid := erase1 (me_inst e) (md_instList m tid)]> |>
            <| memDepHash ::= delete (seqNum d) |>)
  end.

(** One dependent of a completed store or barrier. *)
Definition wakeOne (st : MemDepUnit * ReadyList) (id : nat) : res (MemDepUnit * ReadyList) :=
  let '(m, r) := st in
  e ← deref (me_store m !! id);
  if me_regsReady e && negb (me_squashed e) then r ← moveToReady id m r; Ok (m, r)
  else Ok (on_entry id (λ e, e <| memDepReady := true |>) m, r).
Definition md_wakeDependents (p : InstPtr) m r : res (MemDepUnit * ReadyList) :=
  d ← deref (h !! p);
  if negb (isStore d) && negb (isMemBarrier d) && negb (isWriteBarrier d) then Ok (m, r)
  else
    id ← findInHash d m;
    e ← deref (me_store m !! id);
    '(m, r) ← mfold wakeOne (m, r) (dependInsts e);
    Ok (on_entry id (λ e, e <| dependInsts := [] |>) m, r).

Definition md_completeBarrier (p : InstPtr) m r : res (MemDepUnit * ReadyList) :=
  '(m, r) ← md_wakeDependents p m r;
  m ← md_completed p m;
  d ← deref (h !! p);
  let barr_sn := seqNum d in
  if isMemBarrier d then
    let m := if loadBarrierSN m =? barr_sn then m <| loadBarrier := false |> else m in
    let m := if storeBarrierSN m =? barr_sn then m <| storeBarrier := false |> else m in
    Ok (m, r)
  else if isWriteBarrier d then
    Ok (if storeBarrierSN m =? barr_sn then m <| storeBarrier := false |> else m, r)
  else Ok (m, r).

(** The loop of [squash], from the back of the instruction list. *)
Fixpoint md_squash_loop (squashed_num : Z) (back : list InstPtr) m : res (list InstPtr * MemDepUnit) :=
  match back with
  | [] => Ok ([], m)
  | p :: back' =>
      d ← deref (h !! p);
      if squashed_num <? seqNum d then
        let m := if seqNum d =? loadBarrierSN m then m <| loadBarrier := false |> else m in
        let m := if seqNum d =? storeBarrierSN m then m <| storeBarrier := false |> else m in
        match memDepHash m !! seqNum d with
        | None => Err AssertFailed
        | Some id =>
            let m := on_entry id (λ e, e <| me_squashed := true |>) m <| memDepHash ::= delete (seqNum d) |> in
            md_squash_loop squashed_num back' m
        end
      else Ok (back, m)
  end.

(** Replays of squashed instructions are dropped. *)
Fixpoint dropReplays (squashed_num : Z) (tid : nat) (l : list InstPtr) : res (list InstPtr) :=
  match l with
  | [] => Ok []
  | p :: l' =>
      d ← deref (h !! p);
      rest ← dropReplays squashed_num tid l';
      Ok (if bool_decide (threadNumber d = tid) && (squashed_num <? seqNum d) then rest else p :: rest)
  end.

Definition md_squash (squashed_num : Z) (tid : nat) m : res MemDepUnit :=
  rep ← dropReplays squashed_num tid (instsToReplay m);
  let m := m <| instsToReplay := rep |> in
  '(back, m) ← md_squash_loop squashed_num (reverse (md_instList m tid)) m;
  let m := m <| md_instList ::= <[tid := reverse back]> |> in
  dp ← StoreSet.squash squashed_num (depPred m);
  Ok (m <| depPred := dp |>).

Definition md_violation (store_inst violating_load : InstPtr) m : res MemDepUnit :=
  ds ← deref (h !! store_inst);
  dl ← deref (h !! violating_load);
  dp ← StoreSet.violation (instAddr (pc ds)) (instAddr (pc dl)) (depPred m);
  Ok (m <| depPred := dp |>).

Definition md_issue (p : InstPtr) m : res MemDepUnit :=
  d ← deref (h !! p);
  dp ← StoreSet.issued (instAddr (pc d)) (seqNum d) (isStore d) (depPred m);
  Ok (m <| depPred := dp |>).
End unit.

(** ** The memory dependence unit holds and releases instructions

    A load that meets a pending barrier is held back; completing a store or barrier
    releases its dependents; a squash forgets the squashed instructions. *)
(** a barrier holds loads back.  A load inserted while a load barrier is pending
    (its entry still in the hash table) is not passed to the ready lists, loses its
    [CanIssue] flag even if its registers are ready, is remembered in the table, not
    marked [memDepReady], and put on the barrier's list of dependents. *)
Theorem barrier_blocks_load (fl : DebugFlags) (h h' : heap) (p : InstPtr) (d : DynInst) (m m' : MemDepUnit)
    (r r' : ReadyList) (se : nat) (e : MemDepEntry) :
  h !! p = Some d → isLoad d = true → isStore d = false → loadBarrier m = true → loadBarrierSN m ≠ 0 →
  memDepHash m !! loadBarrierSN m = Some se → me_store m !! se = Some e → se ≠ me_next m →
  memDepHash m !! seqNum d = None →
  md_insert fl h p m r = Ok (h', m', r') →
  r' = r ∧ readyToIssue <$> (h' !! p) = Some false
  ∧ ∃ id e' b, memDepHash m' !! seqNum d = Some id
      ∧ me_store m' !! id = Some (MkMemDepEntry p [] b false false)
      ∧ me_store m' !! se = Some e' ∧ dependInsts e' = dependInsts e ++ [id].
Proof.
  intros Hd Hl Hs Hb Hsn Hse He Hne Hnew E. unfold md_insert in E. rewrite Hd in E.
  cbn [deref mbind res_bind] in E. unfold newEntry in E.
  set (m1 := m <| me_store ::= <[me_next m := MkMemDepEntry p [] false false false]> |> <| me_next ::= S |>
     <| memDepHash ::= (λ t, match t !! seqNum d with Some _ => t | None => <[seqNum d := me_next m]> t end) |>
     <| md_instList ::= <[threadNumber d := md_instList m (threadNumber d) ++ [p]]> |>) in E.
  assert (Hh1 : memDepHash m1 = <[seqNum d := me_next m]> (memDepHash m)) by (unfold m1; cbn; by rewrite Hnew).
  assert (loadBarrierSN m ≠ seqNum d) as Hdiff by congruence.
  unfold producingStore in E. change (loadBarrier m1) with (loadBarrier m) in E.
  change (loadBarrierSN m1) with (loadBarrierSN m) in E. rewrite Hl, Hb in E. cbn [andb mbind res_bind] in E.
  cbn zeta in E. rewrite (proj2 (Z.eqb_neq _ _) Hsn) in E. cbn [negb] in E.
  rewrite Hh1, lookup_insert_ne, Hse in E by congruence. cbn [mbind res_bind] in E.
  unfold insertInPred in E. rewrite Hs, Hl in E. cbn [mbind res_bind] in E. injection E as <- <- <-.
  split; [done|]. split.
  { rewrite lookup_alter_eq, Hd. cbn. f_equal. apply get_st_reset_eq. }
  exists (me_next m).
  destruct (readyToIssue d); eexists _, _; (split; [cbn; by rewrite Hnew, lookup_insert_eq|]); cbn; split.
  - rewrite lookup_alter_ne, lookup_alter_eq, lookup_insert_eq by done. reflexivity.
  - rewrite lookup_alter_eq, lookup_alter_ne, lookup_insert_ne, He by done. by split.
  - rewrite lookup_alter_ne, lookup_insert_eq by done. reflexivity.
  - rewrite lookup_alter_eq, lookup_insert_ne, He by done. by split.
Qed.

Section wake.
Context (fl : DebugFlags) (h : heap).
Implicit Types (m : MemDepUnit) (r : ReadyList).

(** The parts of an entry that a wakeup of others leaves alone, and [memDepReady]
    which only grows. *)
Definition kept (e e' : MemDepEntry) : Prop :=
  me_inst e' = me_inst e ∧ me_regsReady e' = me_regsReady e ∧ me_squashed e' = me_squashed e
  ∧ dependInsts e' = dependInsts e ∧ (memDepReady e = true → memDepReady e' = true).

Definition is_ready r (p : InstPtr) : Prop := ∃ c, p ∈ readyInsts r c.

(** Released: handed over when its registers are ready, else free to go once they are. *)
Definition released (e e' : MemDepEntry) r : Prop :=
  if me_regsReady e && negb (me_squashed e) then is_ready r (me_inst e) else memDepReady e' = true.

Lemma wakeOne_spec m m' r r' (id : nat) (e : MemDepEntry) (d : DynInst) :
  CD_Prioritize_Branch_Execution fl = false → rl_wf h r →
  me_store m !! id = Some e → h !! me_inst e = Some d →
  wakeOne fl h (m, r) id = Ok (m', r') →
  rl_wf h r' ∧ (∀ p, is_ready r p → is_ready r' p)
  ∧ (∀ j x, me_store m !! j = Some x → ∃ x', me_store m' !! j = Some x' ∧ kept x x')
  ∧ ∃ e', me_store m' !! id = Some e' ∧ released e e' r'.
Proof.
  intros Hfl Hwf He Hd E. unfold wakeOne in E. rewrite He in E. cbn [deref mbind res_bind] in E. unfold released.
  destruct (me_regsReady e && negb (me_squashed e)) eqn:Hb.
  - apply bind_ok in E as (r1 & Hm & E). injection E as <- <-. unfold moveToReady in Hm.
    rewrite He in Hm. cbn [deref mbind res_bind] in Hm. apply bind_ok in Hm as ([] & _ & Hm).
    destruct (addReadyInst_ok fl h _ d r Hfl Hwf Hd) as (r2 & E2 & Hwf2 & Hmem). rewrite E2 in Hm. injection Hm as <-.
    split; [done|]. split; [intros p [c Hp]; exists c; apply Hmem; by left|].
    split; [intros j x Hx; exists x; split; [done|]; by split_and!|].
    exists e. split; [done|]. exists (opClass d). apply Hmem. by right.
  - injection E as <- <-. split; [done|]. split; [done|]. split.
    + intros j x Hx. cbn. destruct (decide (j = id)) as [->|Hne].
      * rewrite lookup_alter_eq, Hx. eexists. split; [done|]. by split_and!.
      * rewrite lookup_alter_ne, Hx by done. exists x. split; [done|]. by split_and!.
    + cbn. rewrite lookup_alter_eq, He. eexists. by split.
Qed.

Lemma wakeAll_spec (ids : list nat) : ∀ m m' r r',
  CD_Prioritize_Branch_Execution fl = false → rl_wf h r →
  (∀ id, id ∈ ids → ∃ e d, me_store m !! id = Some e ∧ h !! me_inst e = Some d) →
  mfold (wakeOne fl h) (m, r) ids = Ok (m', r') →
  rl_wf h r' ∧ (∀ p, is_ready r p → is_ready r' p)
  ∧ (∀ j x, me_store m !! j = Some x → ∃ x', me_store m' !! j = Some x' ∧ kept x x')
  ∧ ∀ id e, id ∈ ids → me_store m !! id = Some e → ∃ e', me_store m' !! id = Some e' ∧ released e e' r'.
Proof.
  induction ids as [|id ids IH]; intros m m' r r' Hfl Hwf Hids E; cbn [mfold] in E.
  { injection E as <- <-. split; [done|]. split; [done|]. split; [|intros id e Hid; by apply not_elem_of_nil in Hid].
    intros j x Hx. exists x. split; [done|]. by split_and!. }
  apply bind_ok in E as ([m1 r1] & Hone & E). destruct (Hids id ltac:(left)) as (e & d & He & Hd).
  destruct (wakeOne_spec _ _ _ _ _ _ _ Hfl Hwf He Hd Hone) as (Hwf1 & Hmono1 & Hkeep1 & e1 & He1 & Hrel1).
  eapply IH in E as (Hwf2 & Hmono2 & Hkeep2 & Hrel2); [|done|done|].
  2: { intros j Hj. destruct (Hids j ltac:(by right)) as (x & dx & Hx & Hdx).
       destruct (Hkeep1 j x Hx) as (x' & Hx' & Hk & _). exists x', dx. split; [done|]. by rewrite Hk. }
  split; [done|]. split; [auto|]. split.
  - intros j x Hx. destruct (Hkeep1 j x Hx) as (x1 & Hx1 & K1). destruct (Hkeep2 j x1 Hx1) as (x2 & Hx2 & K2).
    exists x2. split; [done|]. destruct K1 as (?&?&?&?&?), K2 as (?&?&?&?&?). split_and!; try congruence. auto.
  - intros j x [->|Hj]%elem_of_cons Hx.
    + simplify_eq. destruct (Hkeep2 _ _ He1) as (e2 & He2 & K2). exists e2. split; [done|].
      unfold released in *. destruct (_ && _); [auto|]. by apply K2.
    + destruct (Hkeep1 j x Hx) as (x1 & Hx1 & K1). destruct (Hrel2 j x1 Hj Hx1) as (x2 & Hx2 & Hr).
      exists x2. split; [done|]. unfold released in *. destruct K1 as (K1 & K2 & K3 & _). by rewrite K1, K2, K3 in Hr.
Qed.
End wake.

(** completing a store or barrier releases its dependents.  After
    [wakeDependents] each instruction that waited for it is in the ready lists if its
    registers are ready and it is not squashed, and is marked [memDepReady]
    otherwise; the list of dependents is empty, the ready lists stay well formed and
    lose nothing. *)
Theorem mem_wake_releases (fl : DebugFlags) (h : heap) (p : InstPtr) (d : DynInst) (m m' : MemDepUnit)
    (r r' : ReadyList) (id : nat) (e : MemDepEntry) :
  CD_Prioritize_Branch_Execution fl = false → rl_wf h r →
  h !! p = Some d → isStore d || isMemBarrier d || isWriteBarrier d = true →
  memDepHash m !! seqNum d = Some id → me_store m !! id = Some e →
  (∀ j, j ∈ dependInsts e → ∃ x dx, me_store m !! j = Some x ∧ h !! me_inst x = Some dx) →
  md_wakeDependents fl h p m r = Ok (m', r') →
  rl_wf h r' ∧ (∀ q, is_ready r q → is_ready r' q)
  ∧ dependInsts <$> (me_store m' !! id) = Some []
  ∧ ∀ j x, j ∈ dependInsts e → me_store m !! j = Some x →
      ∃ x', me_store m' !! j = Some x' ∧ released x x' r'.
Proof.
  intros Hfl Hwf Hd Hk Hh He Hdep E. unfold md_wakeDependents in E. rewrite Hd in E. cbn [deref mbind res_bind] in E.
  assert (negb (isStore d) && negb (isMemBarrier d) && negb (isWriteBarrier d) = false) as Hkind
    by (by destruct (isStore d), (isMemBarrier d), (isWriteBarrier d)).
  rewrite Hkind in E.
  unfold findInHash in E. rewrite Hh in E. cbn [mbind res_bind] in E. rewrite He in E. cbn [deref mbind res_bind] in E.
  apply bind_ok in E as ([m1 r1] & Hm & E). injection E as <- <-.
  eapply wakeAll_spec in Hm as (Hwf1 & Hmono & Hkeep & Hrel); [|done|done|done].
  split; [done|]. split; [done|]. destruct (Hkeep id e He) as (e1 & He1 & _). split.
  { cbn. by rewrite lookup_alter_eq, He1. }
  intros j x Hj Hx. destruct (Hrel j x Hj Hx) as (x1 & Hx1 & Hr). cbn.
  destruct (decide (j = id)) as [->|Hne].
  - rewrite lookup_alter_eq, Hx1. eexists. split; [done|]. exact Hr.
  - rewrite lookup_alter_ne by done. eauto.
Qed.

(** ** Squash *)
Lemma md_squash_loop_spec (h : heap) (n : Z) (back : list InstPtr) : ∀ m m' keep,
  md_squash_loop h n back m = Ok (keep, m') →
  ∃ gone, back = gone ++ keep
  ∧ (∀ p, p ∈ gone → ∃ d, h !! p = Some d ∧ n < seqNum d ∧ memDepHash m' !! seqNum d = None
       ∧ (seqNum d = loadBarrierSN m → loadBarrier m' = false)
       ∧ (seqNum d = storeBarrierSN m → storeBarrier m' = false))
  ∧ (∀ p, hd_error keep = Some p → ∃ d, h !! p = Some d ∧ seqNum d ≤ n)
  ∧ memDepHash m' ⊆ memDepHash m ∧ md_instList m' = md_instList m
  ∧ loadBarrierSN m' = loadBarrierSN m ∧ storeBarrierSN m' = storeBarrierSN m
  ∧ (loadBarrier m = false → loadBarrier m' = false) ∧ (storeBarrier m = false → storeBarrier m' = false).
Proof.
  induction back as [|p back IH]; intros m m' keep E; cbn [md_squash_loop] in E.
  { injection E as <- <-. exists []. split_and!; try done. intros p Hp. by apply not_elem_of_nil in Hp. }
  apply bind_ok in E as (d & Hd%deref_ok & E). destruct (Z.ltb_spec n (seqNum d)) as [Hlt|Hge].
  2: { injection E as <- <-. exists []. split_and!; try done; [intros q Hq; by apply not_elem_of_nil in Hq|].
       intros q [= <-]. eauto. }
  cbn zeta in E.
  set (ma := if seqNum d =? loadBarrierSN m then m <| loadBarrier := false |> else m) in E.
  set (mb := if seqNum d =? storeBarrierSN ma then ma <| storeBarrier := false |> else ma) in E.
  assert (Hb : memDepHash mb = memDepHash m ∧ md_instList mb = md_instList m
    ∧ loadBarrierSN mb = loadBarrierSN m ∧ storeBarrierSN mb = storeBarrierSN m
    ∧ (loadBarrier m = false ∨ seqNum d = loadBarrierSN m → loadBarrier mb = false)
    ∧ (storeBarrier m = false ∨ seqNum d = storeBarrierSN m → storeBarrier mb = false)).
  { unfold mb, ma. destruct (Z.eqb_spec (seqNum d) (loadBarrierSN m)); cbn;
      destruct (Z.eqb_spec (seqNum d) (storeBarrierSN m)); cbn; split_and!; try done; tauto. }
  destruct Hb as (Eh & El & Els & Ess & Hlb & Hsb). rewrite Eh in E.
  destruct (memDepHash m !! seqNum d) as [id|] eqn:Eid; [|done].
  apply IH in E as (gone & -> & Hgone & Hkeep & Hsub & Hl' & Hls' & Hss' & Hlb' & Hsb').
  cbn in Hgone, Hsub, Hl', Hls', Hss', Hlb', Hsb'. rewrite Eh in Hsub. rewrite Els, Ess in Hgone.
  exists (p :: gone). split; [done|]. split.
  - intros q [->|Hq]%elem_of_cons; [|by apply Hgone]. exists d. split; [done|]. split; [done|]. split.
    + apply (lookup_weaken_None _ _ _ (lookup_delete_eq (memDepHash m) (seqNum d)) Hsub).
    + split; intros Eq; [apply Hlb', Hlb|apply Hsb', Hsb]; by right.
  - split; [done|]. split; [etrans; [exact Hsub|apply delete_subseteq]|].
    split_and!; try congruence; intros Eb; [apply Hlb', Hlb|apply Hsb', Hsb]; by left.
Qed.

(** a squash makes the unit forget.  After [squash], the thread's list is an
    initial part of what it was, ending at an instruction that is not squashed; every
    instruction cut off is younger than the squash point and gone from the hash
    table, and a squashed barrier no longer blocks anything. *)
Theorem md_squash_forgets (h : heap) (n : Z) (tid : nat) (m m' : MemDepUnit) :
  md_squash h n tid m = Ok m' →
  ∃ gone, md_instList m tid = md_instList m' tid ++ gone
  ∧ (∀ p, p ∈ gone → ∃ d, h !! p = Some d ∧ n < seqNum d ∧ memDepHash m' !! seqNum d = None
       ∧ (seqNum d = loadBarrierSN m → loadBarrier m' = false)
       ∧ (seqNum d = storeBarrierSN m → storeBarrier m' = false))
  ∧ (∀ p, list.last (md_instList m' tid) = Some p → ∃ d, h !! p = Some d ∧ seqNum d ≤ n)
  ∧ ∀ t, t ≠ tid → md_instList m' t = md_instList m t.
Proof.
  intros E. unfold md_squash in E. apply bind_ok in E as (rep & _ & E). cbn zeta in E.
  apply bind_ok in E as ([back m1] & Hl & E). cbn zeta in E. apply bind_ok in E as (dp & _ & E). injection E as <-.
  apply md_squash_loop_spec in Hl as (gone & Eb & Hgone & Hkeep & _ & Hl & _).
  cbn in Hgone, Hl. change (md_instList (m <| instsToReplay := rep |>)) with (md_instList m) in Eb.
  exists (reverse gone). cbn [md_instList over_field]. rewrite fn_lookup_insert. split.
  - apply (f_equal reverse) in Eb. by rewrite reverse_involutive, reverse_app in Eb.
  - split; [intros p Hp; apply Hgone; by apply elem_of_reverse|]. split.
    + intros p Hp. apply Hkeep. rewrite last_reverse in Hp. by destruct back.
    + intros t Ht. by rewrite fn_lookup_insert_ne, Hl.
Qed.
