(* ===== verification/IQ.v ===== *)
(** * Instruction queue

    [src/cpu/o3/inst_queue.hh] and [inst_queue_impl.hh]: instructions wait here for
    their operands.  The queue owns the dependency graph ([DepGraph.v]), the ready
    lists ([ReadyList.v]), a memory dependence unit per thread ([MemDep.v]) and the
    functional units ([FUPool.v]).  Operations take and return the heap of dynamic
    instructions.  An [FUCompletion] event scheduled with the CPU is an element of
    [completions]; statistics are left out. *)

From S2P Require Import Prelude Regs DynInst DepGraph IQInterface StoreSet FUPool ReadyList MemDep.
Local Open Scope Z_scope.

Inductive IQPolicy :=
| IQDynamic
| IQPartitioned
| IQThreshold.
#[export] Instance IQPolicy_eq_dec : EqDecision IQPolicy.
Proof. solve_decision. Defined.

(** A scheduled completion: the instruction, the unit, the latency and whether the
    unit is freed on completion. *)
Record FUCompletion := MkFUCompletion {
  fc_inst : InstPtr;
  fc_fuIdx : Z;
  fc_latency : Z;
  fc_freeFU : bool;
}.

Record IQ := MkIQ {
  iq_instList : nat → list InstPtr;
  instsToExecute : list InstPtr;
  deferredMemInsts : list InstPtr;
  blockedMemInsts : list InstPtr;
  retryMemInsts : list InstPtr;
  iq_ready : ReadyList;
  nonSpecInsts : gmap Z InstPtr;
  dependGraph : DependencyGraph;
  memDepUnit : nat → MemDepUnit;
  fuPool : FUPool;
  completions : list FUCompletion;
  iqPolicy : IQPolicy;
  iq_numThreads : nat;
  iq_activeThreads : list nat;
  count : nat → Z;  (* unsigned *)
  iq_maxEntries : nat → Z;  (* unsigned *)
  freeEntries : Z;  (* unsigned *)
  iq_numEntries : Z;  (* unsigned *)
  totalWidth : Z;
  wbOutstanding : Z;
  iq_squashedSeqNum : nat → Z;
  regScoreboard : list bool;
  i2e_size : Z;  (* issueToExecuteQueue->access(0)->size *)
  i2e_prev_size : Z;  (* issueToExecuteQueue->access(-1)->size *)
}.
#[export] Instance IQ_eta : Updatable IQ := λ r, MkIQ (iq_instList r) (instsToExecute r)
  (deferredMemInsts r) (blockedMemInsts r) (retryMemInsts r) (iq_ready r) (nonSpecInsts r)
  (dependGraph r) (memDepUnit r) (fuPool r) (completions r) (iqPolicy r) (iq_numThreads r)
  (iq_activeThreads r) (count r) (iq_maxEntries r) (freeEntries r) (iq_numEntries r) (totalWidth r)
  (wbOutstanding r) (iq_squashedSeqNum r) (regScoreboard r) (i2e_size r) (i2e_prev_size r).

(** ** Occupancy *)
Definition iq_entryAmount (num_threads : nat) (q : IQ) : Z :=
  if decide (iqPolicy q = IQPartitioned) then iq_numEntries q / Z.of_nat num_threads else 0.
Definition iq_resetEntries_tid (active_threads : Z) (q : IQ) (tid : nat) : IQ :=
  match iqPolicy q with
  | IQPartitioned => q <| iq_maxEntries ::= <[tid := iq_numEntries q / active_threads]> |>
  | IQThreshold =>
      if active_threads =? 1 then q <| iq_maxEntries ::= <[tid := iq_numEntries q]> |> else q
  | IQDynamic => q
  end.
Definition iq_resetEntries (q : IQ) : IQ :=
  if bool_decide (iqPolicy q ≠ IQDynamic) || (1 <? Z.of_nat (iq_numThreads q)) then
    foldl (iq_resetEntries_tid (Z.of_nat (length (iq_activeThreads q)))) q (iq_activeThreads q)
  else q.
Definition iq_numFreeEntries (q : IQ) : Z := freeEntries q.
Definition iq_numFreeEntries_tid (tid : nat) (q : IQ) : Z := u32 (iq_maxEntries q tid - count q tid).
Definition iq_isFull (q : IQ) : bool := freeEntries q =? 0.
Definition iq_isFull_tid (tid : nat) (q : IQ) : bool := iq_numFreeEntries_tid tid q =? 0.
Definition iq_countInsts (q : IQ) : Z := iq_numEntries q - freeEntries q.

Definition iq_resetState (q : IQ) : IQ :=
  let clear_tids {A} (v : A) (f : nat → A) := foldr (λ tid g, <[tid := v]> g) f (seq 0 (iq_numThreads q)) in
  q <| count ::= clear_tids 0 |>
    <| iq_instList ::= clear_tids [] |>
    <| freeEntries := iq_numEntries q |>
    <| regScoreboard := replicate (length (regScoreboard q)) false |>
    <| iq_squashedSeqNum ::= clear_tids 0 |>
    <| iq_ready := ReadyList_init |>
    <| nonSpecInsts := ∅ |>
    <| deferredMemInsts := [] |>
    <| blockedMemInsts := [] |>
    <| retryMemInsts := [] |>
    <| wbOutstanding := 0 |>.

Definition iq_isDrained (maxThreads : nat) (q : IQ) : bool :=
  DepGraph.empty (dependGraph q) && bool_decide (instsToExecute q = []) && (wbOutstanding q =? 0)
  && forallb (λ tid, md_isDrained maxThreads (memDepUnit q tid)) (seq 0 (iq_numThreads q)).

(** Update the memory dependence unit of a thread. *)
Definition set_md (tid : nat) (m : MemDepUnit) (q : IQ) : IQ := q <| memDepUnit ::= <[tid := m]> |>.

Section queue.
Context (fl : DebugFlags) (curCycle : Z).
Implicit Types (q : IQ) (h : heap).

(** ** Readiness *)
Definition addReadyMemInst (p : InstPtr) h q : res IQ :=
  r ← addReadyInst fl h p (iq_ready q); Ok (q <| iq_ready := r |>).

Definition addIfReady (p : InstPtr) h q : res IQ :=
  d ← deref (h !! p);
  if readyToIssue d then
    if isMemRef d then
      let tid := threadNumber d in
      '(m, r) ← md_regsReady fl h p (memDepUnit q tid) (iq_ready q);
      Ok (set_md tid m q <| iq_ready := r |>)
    else
      r ← addReadyInst fl h p (iq_ready q); Ok (q <| iq_ready := r |>)
  else Ok q.

(** One source operand of [addToDependents]. *)
Definition addDependent (p : InstPtr) (st : heap * IQ) (i : nat) : res (heap * IQ) :=
  let '(h, q) := st in
  d ← deref (h !! p);
  if negb (isReadySrcRegIdx i d) then
    src_reg ← deref (srcRegIdx_ d !! i);
    if isFixedMapping src_reg then Ok (h, q)
    else
      ready ← vget (regScoreboard q) (flatIndex src_reg);
      if negb ready then
        g ← DepGraph.insert (flatIndex src_reg) p (dependGraph q);
        Ok (h, q <| dependGraph := g |>)
      else
        d ← markSrcRegReady_idx curCycle i d;
        Ok (<[p := d]> h, q)
  else Ok (h, q).
Definition addToDependents (p : InstPtr) h q : res (heap * IQ) :=
  d ← deref (h !! p);
  mfold (addDependent p) (h, q) (seq 0 (Z.to_nat (numSrcRegs d))).

(** One destination of [addToProducers]. *)
Definition addProducer (p : InstPtr) (q : IQ) (dest_reg : PhysRegId) : res IQ :=
  if isFixedMapping dest_reg then Ok q
  else
    e ← empty_at (flatIndex dest_reg) (dependGraph q);
    _ ← panic_if (negb e);
    g ← setInst (flatIndex dest_reg) p (dependGraph q);
    sb ← vset (flatIndex dest_reg) false (regScoreboard q);
    Ok (q <| dependGraph := g |> <| regScoreboard := sb |>).
Definition addToProducers (p : InstPtr) h q : res IQ :=
  d ← deref (h !! p);
  mfold (addProducer p) q (renamedDests d).

(** ** Insertion *)
Definition iq_insert (p : InstPtr) h q : res (heap * IQ) :=
  d ← deref (h !! p);
  let tid := threadNumber d in
  _ ← assert (negb (freeEntries q =? 0));
  let q := q <| iq_instList ::= <[tid := iq_instList q tid ++ [p]]> |>
             <| freeEntries ::= Z.pred |> in
  let h := <[p := setInIQ d]> h in
  '(h, q) ← addToDependents p h q;
  q ← addToProducers p h q;
  '(h, q) ← (if isMemRef d then
       '(h, m, r) ← md_insert fl h p (memDepUnit q tid) (iq_ready q);
       Ok (h, set_md tid m q <| iq_ready := r |>)
     else q ← addIfReady p h q; Ok (h, q));
  let q := q <| count ::= <[tid := u32 (count q tid + 1)]> |> in
  _ ← assert (freeEntries q =? iq_numEntries q - iq_countInsts q);
  Ok (h, q).

Definition insertNonSpec (p : InstPtr) h q : res (heap * IQ) :=
  d ← deref (h !! p);
  let tid := threadNumber d in
  let q := q <| nonSpecInsts ::= <[seqNum d := p]> |> in
  _ ← assert (negb (freeEntries q =? 0));
  let q := q <| iq_instList ::= <[tid := iq_instList q tid ++ [p]]> |>
             <| freeEntries ::= Z.pred |> in
  let h := <[p := setInIQ d]> h in
  q ← addToProducers p h q;
  q ← (if isMemRef d then
         m ← md_insertNonSpec h p (memDepUnit q tid); Ok (set_md tid m q)
       else Ok q);
  let q := q <| count ::= <[tid := u32 (count q tid + 1)]> |> in
  _ ← assert (freeEntries q =? iq_numEntries q - iq_countInsts q);
  Ok (h, q).

Definition insertBarrier (p : InstPtr) h q : res (heap * IQ) :=
  d ← deref (h !! p);
  m ← md_insertBarrier h p (memDepUnit q (threadNumber d));
  insertNonSpec p h (set_md (threadNumber d) m q).

Definition getInstToExecute q : res (InstPtr * IQ) :=
  match instsToExecute q with
  | [] => Err AssertFailed
  | p :: l => Ok (p, q <| instsToExecute := l |>)
  end.

(** ** Wakeup *)
(** Wakes the chain of one destination register; [fuel] bounds its length. *)
Fixpoint wakeChain (fuel : nat) (idx : Z) (dependents : Z) h q : res (Z * heap * IQ) :=
  match fuel with
  | O => Err OutOfFuel
  | S fuel =>
      '(dep_inst, g) ← pop idx (dependGraph q);
      let q := q <| dependGraph := g |> in
      match dep_inst with
      | None => Ok (dependents, h, q)
      | Some p =>
          d ← deref (h !! p);
          d ← markSrcRegReady curCycle d;
          let h := <[p := d]> h in
          q ← addIfReady p h q;
          wakeChain fuel idx (dependents + 1) h q
      end
  end.

Definition wakeReg (st : Z * heap * IQ) (dest_reg : PhysRegId) : res (Z * heap * IQ) :=
  let '(dependents, h, q) := st in
  if isFixedMapping dest_reg then Ok (dependents, h, q)
  else
    let idx := flatIndex dest_reg in
    '(dependents, h, q) ← wakeChain (S (length (chain idx (dependGraph q)))) idx dependents h q;
    e ← empty_at idx (dependGraph q);
    _ ← assert e;
    g ← clearInst idx (dependGraph q);
    sb ← vset idx true (regScoreboard q);
    Ok (dependents, h, q <| dependGraph := g |> <| regScoreboard := sb |>).
Definition wakeDependentInstructions (p : InstPtr) h q : res (Z * heap * IQ) :=
  d ← deref (h !! p);
  mfold wakeReg (0, h, q) (renamedDests d).

Definition completeMemInst (p : InstPtr) h q : res (heap * IQ) :=
  d ← deref (h !! p);
  let tid := threadNumber d in
  let q := q <| freeEntries ::= Z.succ |> in
  let h := <[p := fl_assign MemOpDone true d]> h in
  m ← md_completed h p (memDepUnit q tid);
  Ok (h, set_md tid m q <| count ::= <[tid := u32 (count q tid - 1)]> |>).

Definition iq_wakeDependents (p : InstPtr) h q : res (Z * heap * IQ) :=
  d ← deref (h !! p);
  _ ← assert (negb (isSquashed d));
  let tid := threadNumber d in
  if CD_Runahead_QuickOutputPropagation fl && isRunahead d then wakeDependentInstructions p h q
  else
    '(h, q) ← (if isMemRef d then
        '(m, r) ← md_wakeDependents fl h p (memDepUnit q tid) (iq_ready q);
        completeMemInst p h (set_md tid m q <| iq_ready := r |>)
      else if isMemBarrier d || isWriteBarrier d then
        '(m, r) ← md_completeBarrier fl h p (memDepUnit q tid) (iq_ready q);
        Ok (h, set_md tid m q <| iq_ready := r |>)
      else Ok (h, q));
    wakeDependentInstructions p h q.

(** ** Memory instructions *)
Definition rescheduleMemInst (p : InstPtr) h q : res (heap * IQ) :=
  d ← deref (h !! p);
  let d := clearCanIssue (fl_assign TranslationCompleted false (fl_assign TranslationStarted false d)) in
  let tid := threadNumber d in
  Ok (<[p := d]> h, set_md tid (md_reschedule p (memDepUnit q tid)) q).
Definition replayMemInst (p : InstPtr) h q : res IQ :=
  d ← deref (h !! p);
  let tid := threadNumber d in
  '(m, r) ← md_replay fl h (memDepUnit q tid) (iq_ready q);
  Ok (set_md tid m q <| iq_ready := r |>).
Definition deferMemInst (p : InstPtr) q : IQ := q <| deferredMemInsts ::= (λ l, l ++ [p]) |>.
Definition blockMemInst (p : InstPtr) h q : res (heap * IQ) :=
  d ← deref (h !! p);
  let d := clearCanIssue (clearIssued
             (fl_assign TranslationCompleted false (fl_assign TranslationStarted false d))) in
  Ok (<[p := d]> h, q <| blockedMemInsts ::= (λ l, l ++ [p]) |>).
Definition cacheUnblocked q : IQ :=
  q <| retryMemInsts ::= (λ l, l ++ blockedMemInsts q) |> <| blockedMemInsts := [] |>.

(** The first deferred instruction that may execute. *)
Fixpoint takeDeferred h (l : list InstPtr) : res (option InstPtr * list InstPtr) :=
  match l with
  | [] => Ok (None, [])
  | p :: l' =>
      d ← deref (h !! p);
      if translationCompleted d || isSquashed d then Ok (Some p, l')
      else '(o, l'') ← takeDeferred h l'; Ok (o, p :: l'')
  end.
Definition getDeferredMemInstToExecute h q : res (option InstPtr * IQ) :=
  '(o, l) ← takeDeferred h (deferredMemInsts q); Ok (o, q <| deferredMemInsts := l |>).
Definition getBlockedMemInstToExecute q : option InstPtr * IQ :=
  match retryMemInsts q with
  | [] => (None, q)
  | p :: l => (Some p, q <| retryMemInsts := l |>)
  end.

Definition iq_violation (store faulting_load : InstPtr) h q : res IQ :=
  d ← deref (h !! store);
  let tid := threadNumber d in
  m ← md_violation h store faulting_load (memDepUnit q tid);
  Ok (set_md tid m q).
End queue.
