(* ===== verification/IQSched.v ===== *)
(** * Scheduling, commit and squash of the instruction queue

    The rest of [src/cpu/o3/inst_queue_impl.hh]: the selection of instructions to
    issue, non-speculative instructions, completion of functional units, and the
    removal of committed and squashed instructions. *)

From S2P Require Import Prelude Regs DynInst DepGraph IQInterface StoreSet FUPool ReadyList MemDep IQ.
Local Open Scope Z_scope.

Definition No_OpClass : nat := 0.

(** [processFUCompletion]; [fu_idx] is -1 when the unit was freed already. *)
Definition processFUCompletion (p : InstPtr) (fu_idx : Z) (q : IQ) : res IQ :=
  let q := q <| wbOutstanding ::= Z.pred |> in
  q ← (if -1 <? fu_idx then
         fu ← freeUnitNextCycle fu_idx (fuPool q); Ok (q <| fuPool := fu |>)
       else Ok q);
  Ok (q <| i2e_prev_size ::= Z.succ |> <| instsToExecute ::= (λ l, l ++ [p]) |>).

Section sched.
Context (fl : DebugFlags) (curCycle : Z).
Implicit Types (q : IQ) (h : heap).

(** Pop the top of class [c]; [rest] is the order list behind its entry, in which the
    class is placed again when it still has ready instructions. *)
Definition popReady (c : nat) (rest : list ListOrderEntry) h (r : ReadyList)
    : res (list ListOrderEntry * ReadyList) :=
  let r := r <| readyInsts ::= <[c := List.tl (readyInsts r c)]> |> in
  match readyInsts r c with
  | [] => Ok (rest, r <| queueOnList ::= <[c := false]> |>)
  | _ => n ← top_seq h c r; Ok (order_move (MkListOrderEntry c n) rest, r)
  end.

(** Start executing [p] on unit [idx] ([NoCapableFU] for none). *)
Definition startExecuting (p : InstPtr) (c : nat) (idx op_latency : Z) q : res IQ :=
  if op_latency =? 1 then
    let q := q <| i2e_size ::= Z.succ |> <| instsToExecute ::= (λ l, l ++ [p]) |> in
    if 0 <=? idx then fu ← freeUnitNextCycle idx (fuPool q); Ok (q <| fuPool := fu |>) else Ok q
  else
    let pipe := isPipelined c (fuPool q) in
    let q := q <| wbOutstanding ::= Z.succ |>
               <| completions ::= (λ l, l ++ [MkFUCompletion p idx op_latency (negb pipe)]) |> in
    if negb pipe then Ok q else fu ← freeUnitNextCycle idx (fuPool q); Ok (q <| fuPool := fu |>).

(** The loop of [scheduleReadyInsts]: [passed] are the entries before [order_it],
    [rest] the ones from it on. *)
Fixpoint scheduleLoop (fuel : nat) (total_issued : Z) (passed rest : list ListOrderEntry) h q
    : res (Z * heap * IQ) :=
  match fuel with
  | O => Err OutOfFuel
  | S fuel =>
      let stop := Ok (total_issued, h, q <| iq_ready ::= (λ r, r <| listOrder := passed ++ rest |>) |>) in
      match rest with
      | [] => stop
      | e :: rest' =>
          if total_issued <? totalWidth q then
            let c := queueType e in
            p ← match readyInsts (iq_ready q) c with [] => Err AssertFailed | p :: _ => Ok p end;
            d ← deref (h !! p);
            if isSquashed d then
              '(rest', r) ← popReady c rest' h (iq_ready q);
              scheduleLoop fuel total_issued passed rest' h (q <| iq_ready := r |>)
            else
              '(idx, fu) ← (if decide (c = No_OpClass) then Ok (NoCapableFU, fuPool q)
                            else getUnit c (fuPool q));
              let q := q <| fuPool := fu |> in
              let op_latency := if NoFreeFU <? idx then getOpLatency c fu else 1 in
              if negb (idx =? NoFreeFU) then
                let h := <[p := setExecuting d]> h in
                q ← startExecuting p c idx op_latency q;
                '(rest', r) ← popReady c rest' h (iq_ready q);
                let q := q <| iq_ready := r |> in
                let tid := threadNumber d in
                let d := setIssued (setExecuting d) in
                '(h, q) ← (if negb (isMemRef d) then
                    Ok (<[p := clearInIQ d]> h,
                        q <| freeEntries ::= Z.succ |> <| count ::= <[tid := u32 (count q tid - 1)]> |>)
                  else
                    let h := <[p := d]> h in
                    m ← md_issue h p (memDepUnit q tid); Ok (h, set_md tid m q));
                scheduleLoop fuel (total_issued + 1) passed rest' h q
              else scheduleLoop fuel total_issued (passed ++ [e]) rest' h q
          else stop
      end
  end.

(** Every deferred, then every retried memory instruction that may execute. *)
Fixpoint drainDeferred (fuel : nat) h q : res IQ :=
  match fuel with
  | O => Err OutOfFuel
  | S fuel =>
      '(o, q) ← getDeferredMemInstToExecute h q;
      match o with
      | None => Ok q
      | Some p => q ← addReadyMemInst fl p h q; drainDeferred fuel h q
      end
  end.
Fixpoint drainBlocked (fuel : nat) h q : res IQ :=
  match fuel with
  | O => Err OutOfFuel
  | S fuel =>
      let '(o, q) := getBlockedMemInstToExecute q in
      match o with
      | None => Ok q
      | Some p => q ← addReadyMemInst fl p h q; drainBlocked fuel h q
      end
  end.

(** One step per entry and per ready instruction, and one to stop. *)
Definition schedule_fuel (r : ReadyList) (l : list ListOrderEntry) : nat :=
  S (sum_list ((λ e, S (length (readyInsts r (queueType e)))) <$> l)).

Definition scheduleReadyInsts h q : res (Z * heap * IQ) :=
  q ← drainDeferred (S (length (deferredMemInsts q))) h q;
  q ← drainBlocked (S (length (retryMemInsts q))) h q;
  scheduleLoop (schedule_fuel (iq_ready q) (listOrder (iq_ready q))) 0 [] (listOrder (iq_ready q)) h q.

Definition scheduleNonSpec (inst : Z) h q : res (heap * IQ) :=
  match nonSpecInsts q !! inst with
  | None => Err AssertFailed
  | Some p =>
      d ← deref (h !! p);
      let tid := threadNumber d in
      let h := <[p := setCanIssue curCycle (setAtCommit d)]> h in
      q ← (if negb (isMemRef d) then addIfReady fl p h q
           else r ← md_nonSpecInstReady fl h p (memDepUnit q tid) (iq_ready q);
                Ok (q <| iq_ready := r |>));
      Ok (h, q <| nonSpecInsts ::= delete inst |>)
  end.

(** ** Commit *)
Fixpoint dropCommitted (inst : Z) h (l : list InstPtr) : res (list InstPtr) :=
  match l with
  | [] => Ok []
  | p :: l' => d ← deref (h !! p); if seqNum d <=? inst then dropCommitted inst h l' else Ok l
  end.
Definition iq_commit (inst : Z) (tid : nat) h q : res IQ :=
  l ← dropCommitted inst h (iq_instList q tid);
  let q := q <| iq_instList ::= <[tid := l]> |> in
  _ ← assert (freeEntries q =? iq_numEntries q - iq_countInsts q);
  Ok q.

(** ** Squash *)
(** One operand of a squashed instruction leaves the dependency graph. *)
Definition removeSrc (p : InstPtr) (d : DynInst) (g : DependencyGraph) (i : nat) : res DependencyGraph :=
  src_reg ← deref (srcRegIdx_ d !! i);
  if negb (isReadySrcRegIdx i d) && negb (isFixedMapping src_reg)
  then DepGraph.remove (flatIndex src_reg) p g else Ok g.
(** A destination's producer entry is cleared. *)
Definition clearDest (g : DependencyGraph) (dest_reg : PhysRegId) : res DependencyGraph :=
  if isFixedMapping dest_reg then Ok g
  else e ← empty_at (flatIndex dest_reg) g;
       _ ← assert e;
       clearInst (flatIndex dest_reg) g.

Definition removeSquashed (p : InstPtr) (d : DynInst) q : res IQ :=
  let is_acq_rel := isMemBarrier d && (isLoad d || (isStore d && negb (isStoreConditional d))) in
  if is_acq_rel || (negb (isNonSpeculative d) && negb (isStoreConditional d)
                    && negb (isMemBarrier d) && negb (isWriteBarrier d)) then
    g ← mfold (removeSrc p d) (dependGraph q) (seq 0 (Z.to_nat (numSrcRegs d)));
    Ok (q <| dependGraph := g |>)
  else if negb (isStoreConditional d) || negb (isCompleted d) then
    match nonSpecInsts q !! seqNum d with
    | None => _ ← assert (bool_decide (fault d ≠ NoFault) || isMemRef d); Ok q
    | Some _ => Ok (q <| nonSpecInsts ::= delete (seqNum d) |>)
    end
  else Ok q.

(** The instruction stays in the list when it belongs to another thread or was
    squashed in the queue already. *)
Definition squashInst (tid : nat) (p : InstPtr) h q : res (bool * heap * IQ) :=
  d ← deref (h !! p);
  if bool_decide (threadNumber d ≠ tid) || isSquashedInIQ d then Ok (true, h, q)
  else
    '(h, q) ← (if negb (isIssued d) || (isMemRef d && negb (memOpDone d)) then
        q ← removeSquashed p d q;
        let d' := clearInIQ (setCanCommit (setIssued (setSquashedInIQ d))) in
        Ok (<[p := d']> h,
            q <| count ::= <[threadNumber d := u32 (count q (threadNumber d) - 1)]> |>
              <| freeEntries ::= Z.succ |>)
      else Ok (h, q));
    g ← mfold clearDest (dependGraph q) (renamedDests d);
    Ok (false, h, q <| dependGraph := g |>).

(** From the back of the list; returns what remains, youngest first. *)
Fixpoint iq_squash_loop (tid : nat) (squashed_num : Z) (back : list InstPtr) h q
    : res (list InstPtr * heap * IQ) :=
  match back with
  | [] => Ok ([], h, q)
  | p :: back' =>
      d ← deref (h !! p);
      if squashed_num <? seqNum d then
        '(keep, h, q) ← squashInst tid p h q;
        '(l, h, q) ← iq_squash_loop tid squashed_num back' h q;
        Ok (if (keep : bool) then p :: l else l, h, q)
      else Ok (back, h, q)
  end.
Definition iq_doSquash (tid : nat) h q : res (heap * IQ) :=
  '(l, h, q) ← iq_squash_loop tid (iq_squashedSeqNum q tid) (reverse (iq_instList q tid)) h q;
  Ok (h, q <| iq_instList ::= <[tid := reverse l]> |>).

(** [doneSeqNum] is [fromCommit->commitInfo[tid].doneSeqNum]. *)
Definition iq_squash (tid : nat) (doneSeqNum : Z) h q : res (heap * IQ) :=
  let q := q <| iq_squashedSeqNum ::= <[tid := doneSeqNum]> |> in
  '(h, q) ← iq_doSquash tid h q;
  m ← md_squash h (iq_squashedSeqNum q tid) tid (memDepUnit q tid);
  Ok (h, set_md tid m q).
End sched.
