(* ===== verification/IQLaws.v ===== *)
(** * The instruction queue keeps its promises

    Waking dependents changes nothing but issue state, which makes the queue an
    instance of the interface the reorder buffer and the IEW stage are verified
    against ([IQInterface.v]); the walk over a dependency chain terminates, wakes
    every instruction of the chain and empties it. *)

From S2P Require Import Prelude Regs DynInst DepGraph IQInterface StoreSet FUPool ReadyList MemDep IQ.
Local Open Scope Z_scope.

(** ** Marking a source ready *)
Lemma reset_after_set (i b : N) : bit_reset i (bit_set i b) = bit_reset i b.
Proof.
  apply N.bits_inj. intros j. unfold bit_reset, bit_set.
  rewrite !N.clearbit_eqb, N.setbit_eqb. destruct (N.eqb i j), (N.testbit b j); done.
Qed.

Lemma erase_issue_eq (d : DynInst) :
  erase_issue d =
  MkDynInst (seqNum d) (addedToLSQTimestamp d) (addedToROBTimestamp d) 0 (staticInst d) (macroop d) (fault d)
    (pc d) (predPC d) 0%N (bit_reset (Status_idx CanIssue) (status d)) 0%N (threadNumber d) 0
    (effAddr d) (physEffAddrLow d) (physEffAddrHigh d) (effSize d) (memData d) (lqIdx d) (sqIdx d) (flatDestRegIdx d) (destRegIdx_ d) (srcRegIdx_ d)
    (prevDestRegIdx_ d).
Proof. reflexivity. Qed.

Lemma erase_setCanIssue (cyc : Z) (d : DynInst) : erase_issue (setCanIssue cyc d) = erase_issue d.
Proof.
  rewrite !erase_issue_eq.
  change (status (setCanIssue cyc d)) with (bit_set (Status_idx CanIssue) (status d)).
  by rewrite reset_after_set.
Qed.

Lemma markSrcRegReady_erase (cyc : Z) (d d' : DynInst) :
  markSrcRegReady cyc d = Ok d' → erase_issue d' = erase_issue d.
Proof.
  unfold markSrcRegReady. cbn zeta. intros E. apply bind_ok in E as (? & _ & E). injection E as <-.
  case_match; [|done]. by rewrite erase_setCanIssue.
Qed.

Section laws.
Context (fl : DebugFlags) (curCycle : Z).
Implicit Types (q : IQ) (h : heap).

(** [addIfReady] leaves the dependency graph and the scoreboard alone. *)
Lemma addIfReady_graph (p : InstPtr) h q q' :
  addIfReady fl p h q = Ok q' → dependGraph q' = dependGraph q ∧ regScoreboard q' = regScoreboard q.
Proof.
  unfold addIfReady. intros E. apply bind_ok in E as (d & _ & E).
  destruct (readyToIssue d); [|by injection E as <-]. destruct (isMemRef d).
  - cbn zeta in E. apply bind_ok in E as ([m r] & _ & E). by injection E as <-.
  - apply bind_ok in E as (r & _ & E). by injection E as <-.
Qed.

(** [pop] takes the head of the chain and leaves the other chains alone. *)
Lemma pop_ok (idx : Z) (g g' : DependencyGraph) (o : option InstPtr) :
  pop idx g = Ok (o, g') →
  (o = None ∧ chain idx g = [] ∧ g' = g) ∨
  (∃ p, o = Some p ∧ chain idx g = p :: chain idx g'
        ∧ producer idx g' = producer idx g
        ∧ ∀ j, j ≠ idx → chain j g' = chain j g ∧ producer j g' = producer j g).
Proof.
  unfold pop. intros E. apply bind_ok in E as (e & He & E).
  destruct (dep_next e) as [|p c] eqn:Ec; injection E as <- <-.
  - left. unfold chain. by rewrite He.
  - right. exists p. pose proof He as [Hpos _]%entry_ok. split; [done|].
    assert (Hset : ∀ j, entry j (set_entry idx (e <| dep_next := c |>) g <| memAllocCounter ::= Z.pred |>)
              = entry j (set_entry idx (e <| dep_next := c |>) g)) by done.
    unfold chain, producer. rewrite !Hset, (entry_set_eq _ _ _ _ He), He, Ec. split; [done|].
    split; [done|]. intros j Hj. rewrite Hset, entry_set_ne by done. done.
Qed.

(** ** One chain *)
Lemma wakeChain_spec (fuel : nat) (idx n n' : Z) h h' q q' :
  wakeChain fl curCycle fuel idx n h q = Ok (n', h', q') →
  h' ≈ h ∧ n' = n + Z.of_nat (length (chain idx (dependGraph q)))
  ∧ chain idx (dependGraph q') = []
  ∧ (∀ j, j ≠ idx → chain j (dependGraph q') = chain j (dependGraph q))
  ∧ regScoreboard q' = regScoreboard q.
Proof.
  revert n h q; induction fuel as [|fuel IH]; intros n h q E; [done|]. cbn [wakeChain] in E.
  apply bind_ok in E as ([o g] & Hp & E). cbn zeta in E.
  apply pop_ok in Hp as [(-> & Hc & ->)|(p & -> & Hc & _ & Hother)].
  - injection E as <- <- <-. cbn. rewrite Hc. split; [done|]. split; [cbn; lia|done].
  - apply bind_ok in E as (d & Hd%deref_ok & E). apply bind_ok in E as (d' & Hm & E).
    apply bind_ok in E as (q1 & [Hg Hs]%addIfReady_graph & E). cbn in Hg, Hs.
    apply IH in E as (Hh & -> & He & Ho & Hs'). rewrite Hg in *. rewrite Hc.
    split; [|split; [cbn [length]; lia|split; [done|split; [|congruence]]]].
    + etrans; [exact Hh|]. eapply heap_equiv_insert; [exact Hd|]. by eapply markSrcRegReady_erase.
    + intros j Hj. rewrite Ho by done. by apply Hother.
Qed.

(** The fuel is enough: the walk never stops for lack of it. *)
Lemma addReadyInst_not_fuel (p : InstPtr) h r : addReadyInst fl h p r ≠ Err OutOfFuel.
Proof.
  unfold addReadyInst. intros E. destruct (h !! p) as [d|]; cbn in E; [|done].
  assert (Hpush : ∀ l, pq_push fl h p d l ≠ Err OutOfFuel).
  { clear. induction l as [|x l IH]; cbn; [done|]. destruct (h !! x); cbn; [|done].
    case_match; [done|]. destruct (pq_push fl h p d l); cbn; [done|congruence]. }
  assert (Htop : ∀ c r0, top_seq h c r0 ≠ Err OutOfFuel).
  { clear. intros c r0. unfold top_seq. destruct (hd_error _); cbn; [|done]. destruct (h !! _); done. }
  assert (Hadd : ∀ c r0, addToOrderList h c r0 ≠ Err OutOfFuel).
  { intros c r0. unfold addToOrderList. case_bool_decide; cbn; [|done].
    specialize (Htop c r0). destruct (top_seq h c r0); cbn; [done|congruence]. }
  specialize (Hpush (readyInsts r (opClass d))).
  destruct (pq_push _ _ _ _ _) as [l|]; cbn in E; [|congruence].
  destruct (queueOnList r (opClass d)); cbn in E; [|by apply Hadd in E].
  match type of E with context [top_seq h ?c ?x] => pose proof (Htop c x) end.
  destruct (top_seq _ _ _); cbn in E; [|congruence].
  destruct (find _ _); cbn in E; [|done]. case_match; [by apply Hadd in E|done].
Qed.

Lemma addIfReady_not_fuel (p : InstPtr) h q : addIfReady fl p h q ≠ Err OutOfFuel.
Proof.
  unfold addIfReady, md_regsReady, moveToReady, findInHash. intros E.
  destruct (h !! p) as [d|]; cbn in E; [|done]. destruct (readyToIssue d); [|done].
  destruct (isMemRef d).
  - destruct (memDepHash _ !! _) as [id|]; cbn in E; [|done].
    destruct (alter _ id _ !! id) as [e|]; cbn in E; [|done]. destruct (memDepReady e); cbn in E; [|done].
    destruct (negb (me_squashed e)); cbn in E; [|done].
    pose proof (addReadyInst_not_fuel (me_inst e) h (iq_ready q)) as Hr.
    destruct (addReadyInst _ _ _ _); cbn in E; [done|congruence].
  - pose proof (addReadyInst_not_fuel p h (iq_ready q)) as Hr.
    destruct (addReadyInst _ _ _ _); cbn in E; [done|congruence].
Qed.

Lemma wakeChain_fuel (fuel : nat) (idx n : Z) h q :
  (length (chain idx (dependGraph q)) < fuel)%nat →
  wakeChain fl curCycle fuel idx n h q ≠ Err OutOfFuel.
Proof.
  revert n h q; induction fuel as [|fuel IH]; intros n h q Hlen E; [lia|]. cbn [wakeChain] in E.
  destruct (pop idx (dependGraph q)) as [[o g]|e] eqn:Hp; cbn in E.
  2: { unfold pop, entry in Hp. destruct (0 <=? idx); [|cbn in Hp; congruence].
       destruct (DepGraph.dependGraph _ !! _) as [x|]; cbn in Hp; [|congruence].
       by destruct (dep_next x). }
  apply pop_ok in Hp as [(-> & Hc & ->)|(p & -> & Hc & _ & Hother)]; [done|].
  destruct (h !! p) as [d|]; cbn in E; [|done].
  destruct (markSrcRegReady curCycle d) as [d'|e] eqn:Hm; cbn in E.
  2: { unfold markSrcRegReady in Hm. cbn zeta in Hm. unfold panic_if in Hm.
       destruct (numSrcRegs _ <? _); cbn in Hm; congruence. }
  match type of E with context [addIfReady fl p ?h1 ?q1] =>
    pose proof (addIfReady_not_fuel p h1 q1) as Hn; destruct (addIfReady fl p h1 q1) as [q2|] eqn:Ha end;
    cbn in E; [|congruence].
  apply addIfReady_graph in Ha as [Hg _]. cbn in Hg.
  eapply (IH (n + 1) _ q2); [|exact E]. rewrite Hg. rewrite Hc in Hlen. cbn in Hlen. lia.
Qed.

(** ** All destinations *)
Lemma empty_at_chain (idx : Z) (g : DependencyGraph) (b : bool) :
  empty_at idx g = Ok b → b = true ↔ chain idx g = [].
Proof.
  unfold empty_at, chain. intros E. apply bind_ok in E as (e & -> & E). injection E as <-.
  by destruct (dep_next e).
Qed.

Lemma clearInst_chain (idx : Z) (g g' : DependencyGraph) :
  clearInst idx g = Ok g' → (∀ j, chain j g' = chain j g) ∧ producer idx g' = None.
Proof.
  unfold clearInst. intros E. apply bind_ok in E as (e & He & E). injection E as <-.
  pose proof He as [Hpos _]%entry_ok. unfold chain, producer. split.
  - intros j. destruct (decide (j = idx)) as [->|Hj].
    + by rewrite (entry_set_eq _ _ _ _ He), He.
    + by rewrite entry_set_ne.
  - by rewrite (entry_set_eq _ _ _ _ He).
Qed.

Lemma wakeReg_spec (r : PhysRegId) (n n' : Z) h h' q q' :
  wakeReg fl curCycle (n, h, q) r = Ok (n', h', q') →
  h' ≈ h ∧ (isFixedMapping r = true → q' = q ∧ n' = n) ∧
  (isFixedMapping r = false →
     n' = n + Z.of_nat (length (chain (flatIndex r) (dependGraph q)))
     ∧ chain (flatIndex r) (dependGraph q') = []
     ∧ vget (regScoreboard q') (flatIndex r) = Ok true).
Proof.
  unfold wakeReg. destruct (isFixedMapping r); intros E; [by injection E as <- <- <-|]. cbn zeta in E.
  apply bind_ok in E as ([[n1 h1] q1] & Hw & E).
  apply wakeChain_spec in Hw as (Hh & Hn & Hc & _ & Hs).
  apply bind_ok in E as (b & _ & E). apply bind_ok in E as (? & _ & E).
  apply bind_ok in E as (g & [Hg _]%clearInst_chain & E).
  apply bind_ok in E as (sb & Hsb & E). injection E as <- <- <-.
  split; [done|]. split; [done|]. intros _. split; [done|]. cbn. split; [by rewrite Hg|].
  unfold vset in Hsb. case_match eqn:Hr; [|done]. injection Hsb as <-.
  apply andb_true_iff in Hr as [H1%Z.leb_le H2%Z.ltb_lt]. rewrite vget_insert by lia. by rewrite Z.eqb_refl.
Qed.

Lemma wakeRegs_frame (l : list PhysRegId) (n n' : Z) h h' q q' :
  mfold (wakeReg fl curCycle) (n, h, q) l = Ok (n', h', q') → h' ≈ h.
Proof.
  revert n h q; induction l as [|r l IH]; intros n h q E; cbn [mfold] in E; [by injection E as <- <- <-|].
  apply bind_ok in E as ([[n1 h1] q1] & [Hh _]%wakeReg_spec & E). etrans; [by eapply IH|done].
Qed.

Lemma iq_wake_frame (p : InstPtr) (n : Z) h h' q q' :
  iq_wakeDependents fl curCycle p h q = Ok (n, h', q') → h' ≈ h.
Proof.
  unfold iq_wakeDependents, wakeDependentInstructions. intros E.
  apply bind_ok in E as (d & Hd%deref_ok & E). apply bind_ok in E as (? & _ & E). cbn zeta in E.
  case_match.
  { apply bind_ok in E as (d1 & _ & E). by eapply wakeRegs_frame. }
  apply bind_ok in E as ([h1 q1] & Hm & E). apply bind_ok in E as (d1 & _ & E).
  etrans; [by eapply wakeRegs_frame|]. destruct (isMemRef d); [|destruct (_ || _)].
  - apply bind_ok in Hm as ([m r] & _ & Hm). unfold completeMemInst in Hm.
    apply bind_ok in Hm as (d2 & Hd2%deref_ok & Hm). cbn zeta in Hm.
    apply bind_ok in Hm as (m' & _ & Hm). injection Hm as <- _.
    by eapply heap_equiv_insert.
  - apply bind_ok in Hm as ([m r] & _ & Hm). by injection Hm as <- _.
  - by injection Hm as <- _.
Qed.
End laws.

(** ** The interface *)
#[export] Instance IQ_InstQueue : InstQueue IQ := iq_wakeDependents.
#[export] Instance IQ_InstQueueLaws : InstQueueLaws IQ.
Proof.
  split.
  - intros fl cyc p h h' q q' n. apply iq_wake_frame.
  - intros fl cyc p h q r E. unfold wakeDependents, IQ_InstQueue, iq_wakeDependents in E.
    apply bind_ok in E as (d & Hd%deref_ok & E). apply bind_ok in E as (? & Hs%assert_ok & _).
    exists d. split; [done|]. by apply negb_true_iff in Hs.
Qed.

(** ** Properties *)
(** a wakeup is complete.  Waking the dependents of one destination register
    wakes as many instructions as its chain holds, leaves the chain empty and the
    register marked ready in the queue's scoreboard, and changes no instruction
    beyond its issue state. *)
Theorem wakeReg_complete (fl : DebugFlags) (cyc : Z) (r : PhysRegId) (n n' : Z) (h h' : heap) (q q' : IQ) :
  isFixedMapping r = false → wakeReg fl cyc (n, h, q) r = Ok (n', h', q') →
  h' ≈ h ∧ n' = n + Z.of_nat (length (chain (flatIndex r) (dependGraph q)))
  ∧ chain (flatIndex r) (dependGraph q') = []
  ∧ vget (regScoreboard q') (flatIndex r) = Ok true.
Proof. intros Hf (Hh & _ & Hr)%wakeReg_spec. split; [done|]. by apply Hr. Qed.

(** the loop over a dependency chain terminates: the fuel the model gives it,
    one more than the chain is long, is never exhausted. *)
Theorem wakeChain_terminates (fl : DebugFlags) (cyc idx n : Z) (h : heap) (q : IQ) :
  wakeChain fl cyc (S (length (chain idx (dependGraph q)))) idx n h q ≠ Err OutOfFuel.
Proof. apply wakeChain_fuel. lia. Qed.

(** Waking the dependents of an instruction always ends. *)
Lemma iq_wake_fuelled (fl : DebugFlags) (cyc : Z) (p : InstPtr) (h : heap) (q : IQ) : fuelled (iq_wakeDependents fl cyc p h q).
Proof.
  assert (Hr : ∀ p r, fuelled (addReadyInst fl h p r)) by (intros; apply addReadyInst_not_fuel).
  assert (Hreg : ∀ st x, fuelled (wakeReg fl cyc st x)).
  { intros [[n h1] q1] x. unfold wakeReg, empty_at, clearInst, entry.
    assert (Hc : fuelled (wakeChain fl cyc (S (length (chain (flatIndex x) (dependGraph q1)))) (flatIndex x) n h1 q1))
      by (apply wakeChain_fuel; lia).
    no_fuel. }
  assert (Hw : ∀ p h q, fuelled (wakeDependentInstructions fl cyc p h q)).
  { intros p0 h0 q0. unfold wakeDependentInstructions. no_fuel. by apply fuelled_mfold. }
  assert (Hone : ∀ st x, fuelled (wakeOne fl h st x)) by (intros [] x; unfold wakeOne, moveToReady; no_fuel).
  assert (Hwk : ∀ m r, fuelled (md_wakeDependents fl h p m r)).
  { intros m r. unfold md_wakeDependents, findInHash. no_fuel; by apply fuelled_mfold. }
  unfold iq_wakeDependents, md_completeBarrier, completeMemInst, md_completed, findInHash. no_fuel.
Qed.
