(* ===== verification/IQSchedProps.v ===== *)
(** * Scheduling terminates and respects the issue width

    [scheduleReadyInsts] never exhausts the fuel of the model: the deferred and
    retried instructions are drained, and each turn of the main loop either issues
    or drops a ready instruction or leaves an operation class behind. *)

From S2P Require Import Prelude Regs DynInst DepGraph IQInterface StoreSet FUPool ReadyList MemDep IQ IQSched IQLaws.
Local Open Scope Z_scope.

(** ** Operations without fuel *)
Lemma freeUnit_fuelled (u : Z) (p : FUPool) : fuelled (freeUnitNextCycle u p).
Proof. unfold freeUnitNextCycle. no_fuel. Qed.
Lemma issued_fuelled (PC sn : Z) (b : bool) (s : StoreSet) : fuelled (issued PC sn b s).
Proof. unfold issued. no_fuel. Qed.
#[export] Hint Resolve freeUnit_fuelled issued_fuelled : fuel.
Lemma md_issue_fuelled (h : heap) (p : InstPtr) (m : MemDepUnit) : fuelled (md_issue h p m).
Proof. unfold md_issue. no_fuel. Qed.
Lemma top_seq_fuelled (h : heap) (c : nat) (r : ReadyList) : fuelled (top_seq h c r).
Proof. unfold top_seq. no_fuel. Qed.
Lemma addReadyInst_fuelled (fl : DebugFlags) (h : heap) (p : InstPtr) (r : ReadyList) : fuelled (addReadyInst fl h p r).
Proof. apply addReadyInst_not_fuel. Qed.
Lemma startExecuting_fuelled (p : InstPtr) (c : nat) (idx lat : Z) (q : IQ) : fuelled (startExecuting p c idx lat q).
Proof. unfold startExecuting. no_fuel. Qed.
#[export] Hint Resolve md_issue_fuelled top_seq_fuelled addReadyInst_fuelled startExecuting_fuelled : fuel.
Lemma popReady_fuelled (c : nat) (rest : list ListOrderEntry) (h : heap) (r : ReadyList) : fuelled (popReady c rest h r).
Proof. unfold popReady. no_fuel. Qed.
Lemma takeDeferred_fuelled (h : heap) (l : list InstPtr) : fuelled (takeDeferred h l).
Proof. induction l as [|p l IH]; cbn [takeDeferred]; no_fuel. Qed.
#[export] Hint Resolve popReady_fuelled takeDeferred_fuelled : fuel.

(** ** Draining *)
Lemma takeDeferred_length (h : heap) (l l' : list InstPtr) (p : InstPtr) :
  takeDeferred h l = Ok (Some p, l') → length l = S (length l').
Proof.
  revert l'; induction l as [|x l IH]; intros l' E; cbn in E; [done|].
  apply bind_ok in E as (d & _ & E). destruct (_ || _); [by injection E as <- <-|].
  apply bind_ok in E as ([o l2] & E1 & E). injection E as -> <-. cbn. f_equal. by apply IH.
Qed.

Lemma drainDeferred_fuelled (fl : DebugFlags) (h : heap) (fuel : nat) : ∀ q,
  (length (deferredMemInsts q) < fuel)%nat → fuelled (drainDeferred fl fuel h q).
Proof.
  induction fuel as [|fuel IH]; intros q Hl; [lia|]. cbn [drainDeferred].
  unfold getDeferredMemInstToExecute, addReadyMemInst. apply fuelled_bind; [no_fuel|].
  intros [o q1] E. apply bind_ok in E as ([o1 l1] & Ht & E). injection E as -> <-.
  destruct o as [p|]; [|apply fuelled_ok]. apply fuelled_bind; [no_fuel|].
  intros q2 E2. apply bind_ok in E2 as (r & _ & E2). injection E2 as <-.
  apply IH. apply takeDeferred_length in Ht. cbn. lia.
Qed.

Lemma drainBlocked_fuelled (fl : DebugFlags) (h : heap) (fuel : nat) : ∀ q,
  (length (retryMemInsts q) < fuel)%nat → fuelled (drainBlocked fl fuel h q).
Proof.
  induction fuel as [|fuel IH]; intros q Hl; [lia|]. cbn [drainBlocked].
  unfold getBlockedMemInstToExecute, addReadyMemInst. destruct (retryMemInsts q) as [|p l] eqn:El; [apply fuelled_ok|].
  apply fuelled_bind; [no_fuel|]. intros q2 E2. apply bind_ok in E2 as (r & _ & E2). injection E2 as <-.
  apply IH. cbn in *. lia.
Qed.

(** What draining keeps. *)
Lemma drainDeferred_keeps (fl : DebugFlags) (h : heap) (fuel : nat) : ∀ q q',
  drainDeferred fl fuel h q = Ok q' → fuPool q' = fuPool q ∧ totalWidth q' = totalWidth q.
Proof.
  induction fuel as [|fuel IH]; intros q q' E; [done|]. cbn [drainDeferred] in E.
  apply bind_ok in E as ([o q1] & Hg & E). unfold getDeferredMemInstToExecute in Hg.
  apply bind_ok in Hg as ([o1 l1] & _ & Hg). injection Hg as -> <-.
  destruct o as [p|]; [|by injection E as <-]. apply bind_ok in E as (q2 & Ha & E).
  apply bind_ok in Ha as (r & _ & Ha). injection Ha as <-. by apply IH in E.
Qed.
Lemma drainDeferred_sent (fl : DebugFlags) (h : heap) (fuel : nat) : ∀ q q',
  drainDeferred fl fuel h q = Ok q' → instsToExecute q' = instsToExecute q ∧ completions q' = completions q.
Proof.
  induction fuel as [|fuel IH]; intros q q' E; [done|]. cbn [drainDeferred] in E.
  apply bind_ok in E as ([o q1] & Hg & E). unfold getDeferredMemInstToExecute in Hg.
  apply bind_ok in Hg as ([o1 l1] & _ & Hg). injection Hg as -> <-.
  destruct o as [p|]; [|by injection E as <-]. apply bind_ok in E as (q2 & Ha & E).
  apply bind_ok in Ha as (r & _ & Ha). injection Ha as <-. by apply IH in E.
Qed.
Lemma drainBlocked_keeps (fl : DebugFlags) (h : heap) (fuel : nat) : ∀ q q',
  drainBlocked fl fuel h q = Ok q' → fuPool q' = fuPool q ∧ totalWidth q' = totalWidth q.
Proof.
  induction fuel as [|fuel IH]; intros q q' E; [done|]. cbn [drainBlocked] in E.
  unfold getBlockedMemInstToExecute in E. destruct (retryMemInsts q) as [|p l]; [by injection E as <-|].
  apply bind_ok in E as (q2 & Ha & E). apply bind_ok in Ha as (r & _ & Ha). injection Ha as <-.
  by apply IH in E.
Qed.
Lemma drainBlocked_sent (fl : DebugFlags) (h : heap) (fuel : nat) : ∀ q q',
  drainBlocked fl fuel h q = Ok q' → instsToExecute q' = instsToExecute q ∧ completions q' = completions q.
Proof.
  induction fuel as [|fuel IH]; intros q q' E; [done|]. cbn [drainBlocked] in E.
  unfold getBlockedMemInstToExecute in E. destruct (retryMemInsts q) as [|p l]; [by injection E as <-|].
  apply bind_ok in E as (q2 & Ha & E). apply bind_ok in Ha as (r & _ & Ha). injection Ha as <-.
  by apply IH in E.
Qed.

(** ** The main loop *)
Definition sched_need (r : ReadyList) (l : list ListOrderEntry) : nat :=
  sum_list ((λ e, S (length (readyInsts r (queueType e)))) <$> l).

Lemma sched_need_cons (r : ReadyList) (e : ListOrderEntry) (l : list ListOrderEntry) :
  sched_need r (e :: l) = (S (length (readyInsts r (queueType e))) + sched_need r l)%nat.
Proof. done. Qed.

Lemma sched_need_move (r : ReadyList) (e : ListOrderEntry) (l : list ListOrderEntry) :
  sched_need r (order_move e l) = (S (length (readyInsts r (queueType e))) + sched_need r l)%nat.
Proof.
  induction l as [|x l IH]; cbn [order_move]; [done|]. destruct (_ <? _); [|done].
  rewrite !sched_need_cons, IH. lia.
Qed.

Lemma popReady_need (c : nat) (e : ListOrderEntry) (p : InstPtr) (l : list InstPtr) (h : heap)
    (rest rest' : list ListOrderEntry) (r r' : ReadyList) :
  queueType e = c → readyInsts r c = p :: l → popReady c rest h r = Ok (rest', r') →
  (sched_need r' rest' < sched_need r (e :: rest))%nat.
Proof.
  intros He Hl. unfold popReady. rewrite Hl. cbn [List.tl].
  set (r1 := r <| readyInsts ::= <[c := l]> |>). intros E.
  assert (Hlen : ∀ c', (length (readyInsts r1 c') ≤ length (readyInsts r c'))%nat).
  { intros c'. unfold r1. cbn. destruct (decide (c' = c)) as [->|Hne].
    - rewrite fn_lookup_insert, Hl. cbn. lia.
    - by rewrite fn_lookup_insert_ne. }
  assert (Hmono : ∀ l0, (sched_need r1 l0 ≤ sched_need r l0)%nat).
  { induction l0 as [|x l0 IH]; [done|]. rewrite !sched_need_cons. specialize (Hlen (queueType x)). lia. }
  specialize (Hmono rest). assert (readyInsts r1 c = l) as Hr1 by (unfold r1; cbn; by rewrite fn_lookup_insert).
  cbn zeta in E. rewrite Hr1 in E. destruct l as [|p' l].
  - injection E as <- <-. change (sched_need (r1 <| queueOnList ::= <[c := false]> |>) rest) with (sched_need r1 rest).
    rewrite sched_need_cons. lia.
  - apply bind_ok in E as (n & _ & E). injection E as <- <-. rewrite sched_need_move. cbn [queueType].
    rewrite sched_need_cons, He, Hl, Hr1. cbn [length]. lia.
Qed.

Lemma startExecuting_keeps (p : InstPtr) (c : nat) (idx lat : Z) (q q' : IQ) :
  startExecuting p c idx lat q = Ok q' →
  iq_ready q' = iq_ready q ∧ totalWidth q' = totalWidth q ∧ (fu_wf (fuPool q) → fu_wf (fuPool q')).
Proof.
  assert (Hfree : ∀ u p0 p1, freeUnitNextCycle u p0 = Ok p1 → fu_wf p0 → fu_wf p1).
  { intros u p0 p1 E [Hb Hq]. unfold freeUnitNextCycle in E. apply bind_ok in E as (? & _ & E).
    apply bind_ok in E as (? & _ & E). injection E as <-. by split. }
  unfold startExecuting. cbn zeta. intros E. destruct (lat =? 1).
  - destruct (0 <=? idx); [|by injection E as <-]. apply bind_ok in E as (fu & Hf & E). injection E as <-.
    split; [done|]. split; [done|]. by eapply Hfree.
  - destruct (negb _); [by injection E as <-|]. apply bind_ok in E as (fu & Hf & E). injection E as <-.
    split; [done|]. split; [done|]. by eapply Hfree.
Qed.

(** One issued instruction: its entry in the queue is released, or the memory
    dependence unit is told. *)
Lemma issue_tail_keeps (b : bool) (d d1 : DynInst) (p : InstPtr) (tid : nat) (h h' : heap) (q q' : IQ) :
  (if b then
     Ok (<[p := d1]> h, q <| freeEntries ::= Z.succ |> <| count ::= <[tid := u32 (count q tid - 1)]> |>)
   else m ← md_issue (<[p := d]> h) p (memDepUnit q tid); Ok (<[p := d]> h, set_md tid m q)) = Ok (h', q') →
  iq_ready q' = iq_ready q ∧ totalWidth q' = totalWidth q ∧ fuPool q' = fuPool q.
Proof.
  destruct b; intros E; [by injection E as _ <-|]. apply bind_ok in E as (m & _ & E). by injection E as _ <-.
Qed.

Lemma scheduleLoop_fuelled (fuel : nat) : ∀ (n : Z) (passed rest : list ListOrderEntry) (h : heap) (q : IQ),
  fu_wf (fuPool q) → (sched_need (iq_ready q) rest < fuel)%nat →
  fuelled (scheduleLoop fuel n passed rest h q).
Proof.
  induction fuel as [|fuel IH]; intros n passed rest h q Hfu Hlt; [lia|]. cbn [scheduleLoop]. cbn zeta.
  destruct rest as [|e rest]; [apply fuelled_ok|]. destruct (n <? totalWidth q); [|apply fuelled_ok].
  destruct (readyInsts (iq_ready q) (queueType e)) as [|p l] eqn:El; cbn [mbind res_bind]; [done|].
  apply fuelled_bind; [no_fuel|]. intros d _. destruct (isSquashed d).
  { apply fuelled_bind; [no_fuel|]. intros [rest' r] Hp. apply IH; [done|].
    eapply popReady_need in Hp; [|done|exact El]. cbn. lia. }
  assert (Hunit : ∃ idx fu, (if decide (queueType e = No_OpClass) then Ok (NoCapableFU, fuPool q)
            else getUnit (queueType e) (fuPool q)) = Ok (idx, fu) ∧ fu_wf fu).
  { case_decide; [eauto|]. destruct (getUnit_ok (queueType e) _ Hfu) as (u & p' & -> & Hwf & _). eauto. }
  destruct Hunit as (idx & fu & -> & Hfu1). cbn [mbind res_bind]. cbn zeta.
  destruct (negb (idx =? NoFreeFU)).
  2: { apply IH; [done|]. rewrite sched_need_cons in Hlt. cbn. lia. }
  apply fuelled_bind; [no_fuel|]. intros q1 (Er1 & _ & Hwf1)%startExecuting_keeps. cbn in Er1, Hwf1.
  apply fuelled_bind; [no_fuel|]. intros [rest' r] Hp. rewrite Er1 in Hp.
  eapply popReady_need in Hp; [|done|exact El].
  apply fuelled_bind; [no_fuel|]. intros [h2 q2] E2.
  apply (issue_tail_keeps (negb (isMemRef (setIssued (setExecuting d))))) in E2 as (Er2 & _ & Ef2).
  apply IH; [rewrite Ef2; by apply Hwf1|]. rewrite Er2. cbn. lia.
Qed.

Lemma scheduleLoop_width (fuel : nat) : ∀ (n n' : Z) (passed rest : list ListOrderEntry) (h h' : heap) (q q' : IQ),
  scheduleLoop fuel n passed rest h q = Ok (n', h', q') → n ≤ n' ≤ Z.max n (totalWidth q).
Proof.
  induction fuel as [|fuel IH]; intros n n' passed rest h h' q q' E; [done|]. cbn [scheduleLoop] in E. cbn zeta in E.
  destruct rest as [|e rest]; [injection E as <- _ _; lia|].
  destruct (Z.ltb_spec n (totalWidth q)); [|injection E as <- _ _; lia].
  apply bind_ok in E as (p & _ & E). apply bind_ok in E as (d & _ & E). destruct (isSquashed d).
  { apply bind_ok in E as ([rest' r] & _ & E). by apply IH in E. }
  apply bind_ok in E as ([idx fu] & _ & E). cbn zeta in E. destruct (negb (idx =? NoFreeFU)); [|by apply IH in E].
  apply bind_ok in E as (q1 & (_ & Et & _)%startExecuting_keeps & E).
  apply bind_ok in E as ([rest' r] & _ & E). apply bind_ok in E as ([h2 q2] & E2 & E).
  apply (issue_tail_keeps (negb (isMemRef (setIssued (setExecuting d))))) in E2 as (_ & Et2 & _).
  apply IH in E. rewrite Et2 in E. cbn in E, Et. rewrite Et in E. lia.
Qed.

(** ** What is issued *)
(** Instructions sent to execution, at once or when their unit completes. *)
Definition sent (q : IQ) (p : InstPtr) : Prop := p ∈ instsToExecute q ∨ p ∈ fc_inst <$> completions q.
Abbreviation issue_flags := [Executing; Issued; IqEntry] (only parsing).

Lemma startExecuting_sent (p x : InstPtr) (c : nat) (idx lat : Z) (q q' : IQ) :
  startExecuting p c idx lat q = Ok q' → sent q' x → sent q x ∨ x = p.
Proof.
  assert (H1 : ∀ q1 : IQ, instsToExecute q1 = instsToExecute q ++ [p] → completions q1 = completions q →
    sent q1 x → sent q x ∨ x = p).
  { intros q1 E1 E2. unfold sent. rewrite E1, E2, elem_of_app, list_elem_of_singleton. tauto. }
  assert (H2 : ∀ q1 : IQ, instsToExecute q1 = instsToExecute q →
    completions q1 = completions q ++ [MkFUCompletion p idx lat (negb (isPipelined c (fuPool q)))] →
    sent q1 x → sent q x ∨ x = p).
  { intros q1 E1 E2. unfold sent. rewrite E1, E2, fmap_app, elem_of_app. csimpl. rewrite list_elem_of_singleton. tauto. }
  unfold startExecuting. cbn zeta. intros E. destruct (lat =? 1).
  - destruct (0 <=? idx); [|injection E as <-; by apply H1]. apply bind_ok in E as (fu & _ & E).
    injection E as <-. by apply H1.
  - destruct (negb (isPipelined c (fuPool q))) eqn:Ep; [injection E as <-; apply H2; [done|by rewrite ?Ep]|].
    apply bind_ok in E as (fu & _ & E). injection E as <-. apply H2; [done|by rewrite ?Ep].
Qed.

Lemma issue_heap (p : InstPtr) (d d' : DynInst) (h : heap) :
  h !! p = Some d → changed issue_flags d d' → hrel (λ _, changed issue_flags) h (<[p := d']> h).
Proof.
  intros Hd Hc q. rewrite lookup_insert. case_decide as Hq; [subst; rewrite Hd; by constructor|].
  destruct (h !! q); by constructor.
Qed.

Lemma issued_changed (d : DynInst) (b : bool) :
  changed issue_flags d (if b then clearInIQ (setIssued (setExecuting d)) else setIssued (setExecuting d)).
Proof.
  assert (Hi : changed issue_flags d (setIssued (setExecuting d))).
  { apply (changed_trans _ d (setExecuting d)); (eapply changed_mono; [|apply changed_st_set]); set_solver. }
  destruct b; [|done]. eapply changed_trans; [exact Hi|]. eapply changed_mono; [|apply changed_st_reset]. set_solver.
Qed.

Lemma issue_tail_sent (b : bool) (d d1 : DynInst) (p : InstPtr) (tid : nat) (h h' : heap) (q q' : IQ) :
  (if b then
     Ok (<[p := d1]> h, q <| freeEntries ::= Z.succ |> <| count ::= <[tid := u32 (count q tid - 1)]> |>)
   else m ← md_issue (<[p := d]> h) p (memDepUnit q tid); Ok (<[p := d]> h, set_md tid m q)) = Ok (h', q') →
  (∀ x, sent q' x → sent q x) ∧ h' = <[p := if b then d1 else d]> h.
Proof.
  destruct b; intros E; [by injection E as <- <-|]. apply bind_ok in E as (m & _ & E). by injection E as <- <-.
Qed.

Lemma scheduleLoop_live (fuel : nat) : ∀ (n n' : Z) (passed rest : list ListOrderEntry) (h h' : heap) (q q' : IQ),
  scheduleLoop fuel n passed rest h q = Ok (n', h', q') →
  hrel (λ _, changed issue_flags) h h' ∧ ∀ x, sent q' x → sent q x ∨ st_at Squashed h x = false.
Proof.
  induction fuel as [|fuel IH]; intros n n' passed rest h h' q q' E; [done|]. cbn [scheduleLoop] in E. cbn zeta in E.
  assert (Hstop : ∀ l, Ok (n, h, q <| iq_ready ::= (λ r, r <| listOrder := l |>) |>) = Ok (n', h', q') →
    hrel (λ _, changed issue_flags) h h' ∧ ∀ x, sent q' x → sent q x ∨ st_at Squashed h x = false).
  { intros l El. injection El as _ <- <-. split; [by apply hrel_refl|]. intros x Hx. by left. }
  destruct rest as [|e rest]; [by eapply Hstop|]. destruct (n <? totalWidth q); [|by eapply Hstop]. clear Hstop.
  apply bind_ok in E as (p & _ & E). apply bind_ok in E as (d & Hd%deref_ok & E). destruct (isSquashed d) eqn:Hsq.
  { apply bind_ok in E as ([rest' r] & _ & E). by apply IH in E. }
  apply bind_ok in E as ([idx fu] & _ & E). cbn zeta in E. destruct (negb (idx =? NoFreeFU)); [|by apply IH in E].
  apply bind_ok in E as (q1 & H1 & E). apply bind_ok in E as ([rest' r] & _ & E).
  apply bind_ok in E as ([h2 q2] & E2 & E).
  apply (issue_tail_sent (negb (isMemRef (setIssued (setExecuting d))))) in E2 as [Hs2 ->].
  apply IH in E as [Hrel Hs]. rewrite insert_insert_eq in Hrel, Hs.
  assert (Hh : hrel (λ _, changed issue_flags) h (<[p := if negb (isMemRef (setIssued (setExecuting d)))
    then clearInIQ (setIssued (setExecuting d)) else setIssued (setExecuting d)]> h)).
  { eapply issue_heap; [exact Hd|apply issued_changed]. }
  split; [eapply (hrel_trans _ _ _ _ _ _ (λ _ d1 d2 d3 _, changed_trans _ d1 d2 d3)); [exact Hh|exact Hrel]|].
  intros x Hx. apply Hs in Hx as [Hx|Hx].
  - apply Hs2 in Hx. change (sent (q1 <| iq_ready := r |>) x) with (sent q1 x) in Hx.
    apply (startExecuting_sent _ x) in H1 as [?| ->]; [by left|right|done].
    unfold st_at. by rewrite Hd.
  - right. rewrite <- Hx. symmetry. eapply st_at_hrel; [exact Hh|]. intros ?? _ Hc. eapply changed_get; [exact Hc|set_solver|done].
Qed.

(** ** Properties *)
(** scheduling terminates.  With well-formed functional-unit queues, the loops of
    [scheduleReadyInsts] (deferred, retried and ready instructions) all end: the fuel
    of the model is never exhausted. *)
Theorem scheduleReadyInsts_terminates (fl : DebugFlags) (h : heap) (q : IQ) :
  fu_wf (fuPool q) → fuelled (scheduleReadyInsts fl h q).
Proof.
  intros Hfu. unfold scheduleReadyInsts. apply fuelled_bind; [apply drainDeferred_fuelled; lia|].
  intros q1 [E1 _]%drainDeferred_keeps. apply fuelled_bind; [apply drainBlocked_fuelled; lia|].
  intros q2 [E2 _]%drainBlocked_keeps. apply scheduleLoop_fuelled; [by rewrite E2, E1|].
  unfold schedule_fuel, sched_need. lia.
Qed.

(** the issue width is respected: [scheduleReadyInsts] never issues more than
    [totalWidth] instructions in a cycle. *)
Theorem schedule_within_width (fl : DebugFlags) (h h' : heap) (q q' : IQ) (n : Z) :
  0 ≤ totalWidth q → scheduleReadyInsts fl h q = Ok (n, h', q') → 0 ≤ n ≤ totalWidth q.
Proof.
  intros Hw E. unfold scheduleReadyInsts in E. apply bind_ok in E as (q1 & [_ E1]%drainDeferred_keeps & E).
  apply bind_ok in E as (q2 & [_ E2]%drainBlocked_keeps & E). apply scheduleLoop_width in E. lia.
Qed.

Lemma schedule_live (fl : DebugFlags) (h h' : heap) (q q' : IQ) (n : Z) :
  scheduleReadyInsts fl h q = Ok (n, h', q') →
  hrel (λ _, changed issue_flags) h h' ∧ ∀ x, sent q' x → sent q x ∨ st_at Squashed h x = false.
Proof.
  intros E. unfold scheduleReadyInsts in E. apply bind_ok in E as (q1 & E1%drainDeferred_sent & E).
  apply bind_ok in E as (q2 & E2%drainBlocked_sent & E). apply scheduleLoop_live in E as [Hh Hs].
  split; [done|]. unfold sent in *. destruct E1 as [E1 E1'], E2 as [E2 E2']. rewrite E2, E2', E1, E1' in Hs. apply Hs.
Qed.

(** squashed instructions are not issued.  Whatever [scheduleReadyInsts] sends to
    execution, immediately or through a functional-unit completion, was sent before
    or is not squashed; and scheduling changes only the [Executing], [Issued] and
    [IqEntry] flags of instructions. *)
Theorem schedule_issues_live (fl : DebugFlags) (h h' : heap) (q q' : IQ) (n : Z) (x : InstPtr) :
  scheduleReadyInsts fl h q = Ok (n, h', q') →
  hrel (λ _, changed issue_flags) h h' ∧ (sent q' x → sent q x ∨ st_at Squashed h x = false).
Proof. intros [Hh Hs]%schedule_live. split; [exact Hh|apply Hs]. Qed.
