(* ===== verification/Dispatch.v ===== *)
(** * Dispatch

    The first and the last part of a cycle of [src/cpu/o3/iew_impl.hh]: instructions from
    rename go to the instruction queue and to the load and store queues, through a skid
    buffer when these are full or the stage is not wide enough, and rename is told to stop
    and to resume; then the signals from commit are handed to the queues and the free
    entries are reported.  What is between, execution and writeback, is in [IEW.v] and [NDA.v].

    Wires: [FromCommit] is what commit drove some cycles ago, [fromRename] the instructions
    that arrive; [iewBlock], [iewUnblock] and [iewInfo] are written.  [ds_iew] holds
    [fetchRedirect] and [wroteToTimeBuffer].  Statistics and probes are left out. *)

From S2P Require Import Prelude Regs DynInst IQInterface FUPool ReadyList MemDep IQ IQSched LSQ LSQThreads IEW.
Local Open Scope Z_scope.

(** ** State *)
Inductive Status :=
| Active
| Inactive.
Inductive StageStatus :=
| Running
| Blocked
| Idle
| StartSquash
| Squashing
| Unblocking.
#[export] Instance Status_eq_dec : EqDecision Status.
Proof. solve_decision. Defined.
#[export] Instance StageStatus_eq_dec : EqDecision StageStatus.
Proof. solve_decision. Defined.

(** [iewComm]. *)
Record IewComm := MkIewComm {
  freeIQEntries : Z;
  freeLQEntries : Z;
  freeSQEntries : Z;
  dispatchedToLQ : Z;
  dispatchedToSQ : Z;
  iqCount : Z;
  ldstqCount : Z;
  dispatched : Z;
  usedIQ : bool;
  usedLSQ : bool;
}.
#[export] Instance IewComm_eta : Updatable IewComm := λ r, MkIewComm (freeIQEntries r) (freeLQEntries r)
  (freeSQEntries r) (dispatchedToLQ r) (dispatchedToSQ r) (iqCount r) (ldstqCount r) (dispatched r)
  (usedIQ r) (usedLSQ r).
(** A cleared slot of the time buffer. *)
Definition no_info : IewComm := MkIewComm 0 0 0 0 0 0 0 0 false false.

(** What the stage reads of [commitInfo] of one thread. *)
Record FromCommit := MkFromCommit {
  fc_squash : bool;
  fc_robSquashing : bool;
  fc_doneSeqNum : Z;
  fc_nonSpecSeqNum : Z;
  fc_strictlyOrdered : bool;
  fc_strictlyOrderedLoad : option InstPtr;
}.

Record Dispatch := MkDispatch {
  iew_status : Status;  (* _status *)
  dispatchStatus : nat → StageStatus;
  exeStatus : StageStatus;
  ds_insts : nat → list InstPtr;
  ds_skid : nat → list InstPtr;
  iewBlock : nat → bool;
  iewUnblock : nat → bool;
  iewInfo : nat → IewComm;
  updatedQueues : bool;
  updateLSQNextCycle : bool;
  ds_iew : IEW;
  ds_heap : heap;
  ds_iq : IQ;
  ds_lsq : LSQ;
}.
#[export] Instance Dispatch_eta : Updatable Dispatch := λ r, MkDispatch (iew_status r) (dispatchStatus r)
  (exeStatus r) (ds_insts r) (ds_skid r) (iewBlock r) (iewUnblock r) (iewInfo r) (updatedQueues r)
  (updateLSQNextCycle r) (ds_iew r) (ds_heap r) (ds_iq r) (ds_lsq r).

(** [sqFull(tid)] answers without a further call unless the policy is dynamic. *)
Definition callDepth : nat := 1.

Section stage.
Context (fl : DebugFlags) (curCycle : Z) (maxThreads numOpClasses : nat).
Context (dispatchWidth skidBufferMax : Z) (numThreads : nat).
Context (from : nat → FromCommit) (fromRename : list InstPtr).
Implicit Types (s : Dispatch) (tid : nat) (p : InstPtr).

Definition ds_inst p s : res DynInst := deref (ds_heap s !! p).
Definition set_wrote s : Dispatch := s <| ds_iew ::= (λ i, i <| wroteToTimeBuffer := true |>) |>.
Definition on_info tid (f : IewComm → IewComm) s : Dispatch := s <| iewInfo ::= <[tid := f (iewInfo s tid)]> |>.
Definition set_status tid (x : StageStatus) s : Dispatch := s <| dispatchStatus ::= <[tid := x]> |>.
(** Run an operation of the instruction queue, of the load/store queues. *)
Definition on_iq (f : heap → IQ → res (heap * IQ)) s : res Dispatch :=
  '(h, q) ← f (ds_heap s) (ds_iq s); Ok (s <| ds_heap := h |> <| ds_iq := q |>).
Definition on_lsq (f : heap → LSQ → res (heap * LSQ)) s : res Dispatch :=
  '(h, l) ← f (ds_heap s) (ds_lsq s); Ok (s <| ds_heap := h |> <| ds_lsq := l |>).
Definition mark p (f : DynInst → DynInst) s : Dispatch := s <| ds_heap ::= alter f p |>.

(** ** Queues *)
Definition sortInst s p : res Dispatch :=
  d ← ds_inst p s;
  Ok (s <| ds_insts ::= <[threadNumber d := ds_insts s (threadNumber d) ++ [p]]> |>).
Definition sortInsts s : res Dispatch := mfold sortInst s fromRename.

Definition validInstsFromRename s : res Z :=
  mfold (λ n p, d ← ds_inst p s; Ok (if isSquashed d then n else n + 1)) 0 fromRename.

Definition skidInsert tid s : res Dispatch :=
  let s := s <| ds_skid ::= <[tid := ds_skid s tid ++ ds_insts s tid]> |> <| ds_insts ::= <[tid := []]> |> in
  _ ← assert (Z.of_nat (length (ds_skid s tid)) <=? skidBufferMax);
  Ok s.
Definition skidCount s : Z :=
  foldl (λ m tid, Z.max m (Z.of_nat (length (ds_skid s tid)))) 0 (iewActiveThreads (ds_iew s)).
Definition skidsEmpty s : bool := forallb (λ tid, bool_decide (ds_skid s tid = [])) (iewActiveThreads (ds_iew s)).

(** Rename is told that an instruction has left. *)
Definition countDispatched tid (d : DynInst) s : Dispatch :=
  on_info tid (λ i, i <| dispatchedToLQ ::= (λ n, if isLoad d then n + 1 else n) |>
                      <| dispatchedToSQ ::= (λ n, if isStore d then n + 1 else n) |>
                      <| dispatched ::= Z.succ |>) s.
Definition emptyRenameInsts tid s : res Dispatch :=
  s ← mfold (λ s p, d ← ds_inst p s; Ok (countDispatched tid d s)) s (ds_insts s tid);
  Ok (s <| ds_insts ::= <[tid := []]> |>).

(** ** Squash *)
Definition squash tid s : res Dispatch :=
  s ← on_iq (iq_squash tid (fc_doneSeqNum (from tid))) s;
  s ← on_lsq (LSQThreads.squash (fc_doneSeqNum (from tid)) tid) s;
  let s := s <| updatedQueues := true |> in
  s ← mfold (λ s p, d ← ds_inst p s; Ok (countDispatched tid d s)) s (ds_skid s tid);
  emptyRenameInsts tid (s <| ds_skid ::= <[tid := []]> |>).

(** ** Blocking *)
Definition block tid s : res Dispatch :=
  let s := match dispatchStatus s tid with
           | Blocked | Unblocking => s
           | _ => set_wrote (s <| iewBlock ::= <[tid := true]> |>)
           end in
  s ← skidInsert tid s;
  Ok (set_status tid Blocked s).
Definition unblock tid s : Dispatch :=
  if decide (ds_skid s tid = []) then set_status tid Running (set_wrote (s <| iewUnblock ::= <[tid := true]> |>))
  else s.

Definition checkStall tid s : bool := fc_robSquashing (from tid) || iq_isFull_tid tid (ds_iq s).

Definition checkSignalsAndUpdate tid s : res Dispatch :=
  if fc_squash (from tid) then
    s ← squash tid s;
    let s := match dispatchStatus s tid with
             | Blocked | Unblocking => set_wrote (s <| iewUnblock ::= <[tid := true]> |>)
             | _ => s
             end in
    Ok (set_status tid Squashing s <| ds_iew ::= (λ i, i <| fetchRedirect ::= <[tid := false]> |>) |>)
  else
    s ← (if fc_robSquashing (from tid)
         then s ← emptyRenameInsts tid (set_status tid Squashing s); Ok (set_wrote s) else Ok s);
    if checkStall tid s then s ← block tid s; Ok (set_status tid Blocked s)
    else match dispatchStatus s tid with
         | Blocked => Ok (unblock tid (set_status tid Unblocking s))
         | Squashing => Ok (set_status tid Running s)
         | _ => Ok s
         end.

(** ** Dispatching *)
Definition queue (unblocking : bool) tid s : list InstPtr := if unblocking then ds_skid s tid else ds_insts s tid.
Definition set_queue (unblocking : bool) tid (q : list InstPtr) s : Dispatch :=
  if unblocking then s <| ds_skid ::= <[tid := q]> |> else s <| ds_insts ::= <[tid := q]> |>.

Definition lsqFull tid (d : DynInst) s : res bool :=
  if isLoad d && lqFull_tid tid (ds_lsq s) then Ok true
  else if isStore d then sqFull_tid callDepth tid (ds_lsq s) else Ok false.

(** The queues an instruction goes to. *)
Definition toNonSpec p s : res Dispatch := on_iq (insertNonSpec p) (mark p setCanCommit s).
Definition dispatchInst tid p (d : DynInst) s : res Dispatch :=
  '(add_to_iq, s) ←
    (if isLoad d then
       s ← on_lsq (insertLoad curCycle p) s;
       Ok (true, on_info tid (λ i, i <| dispatchedToLQ ::= Z.succ |>) s)
     else if isStore d then
       s ← on_lsq (insertStore curCycle p) s;
       '(add, s) ← (if isStoreConditional d then s ← toNonSpec p s; Ok (false, s) else Ok (true, s));
       Ok (add, on_info tid (λ i, i <| dispatchedToSQ ::= Z.succ |>) s)
     else if isMemBarrier d || isWriteBarrier d then
       s ← on_iq (insertBarrier p) (mark p setCanCommit s);
       Ok (false, s)
     else if isNop d then
       let s := mark p (λ d, setCanCommit (setExecuted (setIssued d))) s in
       s ← on_iq (λ h q, q ← addToProducers p h q; Ok (h, q)) s;
       Ok (false, s)
     else
       _ ← assert (negb (isExecuted d));
       Ok (true, s));
  if add_to_iq && isNonSpeculative d then toNonSpec p s
  else if add_to_iq then on_iq (iq_insert fl curCycle p) s
  else Ok s.

(** The full queues stop the loop: the rest waits in the skid buffer. *)
Definition stopFull tid s : res Dispatch :=
  s ← block tid s;
  Ok (s <| iewUnblock ::= <[tid := false]> |>).

(** [n] iterations are left; the result is [dis_num_inst]. *)
Fixpoint dispatchLoop (unblocking : bool) tid (n : nat) (dis_num_inst : Z) s : res (Z * Dispatch) :=
  match n with
  | O => Ok (dis_num_inst, s)
  | S n =>
      match queue unblocking tid s with
      | [] => Err NullDeref
      | p :: rest =>
          d ← ds_inst p s;
          if isSquashed d then
            dispatchLoop unblocking tid n (dis_num_inst + 1)
              (countDispatched tid d (set_queue unblocking tid rest s))
          else if iq_isFull_tid tid (ds_iq s) then
            s ← stopFull tid s; Ok (dis_num_inst, s)
          else
            full ← lsqFull tid d s;
            if (full : bool) then s ← stopFull tid s; Ok (dis_num_inst, s)
            else
              s ← dispatchInst tid p d s;
              dispatchLoop unblocking tid n (dis_num_inst + 1)
                (on_info tid (λ i, i <| dispatched ::= Z.succ |>) (set_queue unblocking tid rest s))
      end
  end.

Definition dispatchInsts tid s : res Dispatch :=
  let unblocking := bool_decide (dispatchStatus s tid = Unblocking) in
  let insts_to_add := Z.of_nat (length (queue unblocking tid s)) in
  '(dis_num_inst, s) ← dispatchLoop unblocking tid (Z.to_nat (Z.min insts_to_add dispatchWidth)) 0 s;
  s ← (if decide (queue unblocking tid s = []) then Ok s else stopFull tid s);
  Ok (if bool_decide (dispatchStatus s tid = Idle) && negb (dis_num_inst =? 0)
      then set_status tid Running s <| updatedQueues := true |> else s).

Definition dispatch tid s : res Dispatch :=
  match dispatchStatus s tid with
  | Running | Idle => dispatchInsts tid s
  | Unblocking =>
      _ ← assert (negb (skidsEmpty s));
      s ← dispatchInsts tid s;
      valid ← validInstsFromRename s;
      s ← (if valid =? 0 then Ok s else skidInsert tid s);
      Ok (unblock tid s)
  | _ => Ok s
  end.

(** ** The first part of a cycle *)
Definition tickThread s tid : res Dispatch := s ← checkSignalsAndUpdate tid s; dispatch tid s.
(** The wires written this cycle start out clear. *)
Definition clear_wires s : Dispatch :=
  s <| iewBlock := (λ _, false) |> <| iewUnblock := (λ _, false) |> <| iewInfo := (λ _, no_info) |>.
Definition dispatchTick s : res Dispatch :=
  s ← sortInsts (clear_wires s <| ds_iew ::= tickReset |> <| updatedQueues := false |>);
  fu ← processFreeUnits (fuPool (ds_iq s));
  mfold tickThread (s <| ds_iq ::= (λ q, q <| fuPool := fu |>) |>) (iewActiveThreads (ds_iew s)).

(** ** The last part of a cycle *)
Definition broadcast s : bool * Dispatch :=
  if updatedQueues s || bool_decide (exeStatus s = Running) || updateLSQNextCycle s
  then (true, s <| exeStatus := Idle |> <| updateLSQNextCycle := false |>) else (false, s).

(** The queues learn what was committed. *)
Definition tellCommitted tid s : res Dispatch :=
  let c := from tid in
  if negb (fc_doneSeqNum c =? 0) && negb (fc_squash c) && negb (fc_robSquashing c) then
    s ← on_lsq (LSQThreads.commitStores (fc_doneSeqNum c) tid) s;
    s ← on_lsq (LSQThreads.commitLoads (fc_doneSeqNum c) tid) s;
    on_iq (λ h q, q ← iq_commit (fc_doneSeqNum c) tid h q; Ok (h, q)) (s <| updateLSQNextCycle := true |>)
  else Ok s.
(** An instruction at the head of the reorder buffer may execute now. *)
Definition tellNonSpec tid s : res Dispatch :=
  let c := from tid in
  if fc_nonSpecSeqNum c =? 0 then Ok s
  else if fc_strictlyOrdered c then
    p ← deref (fc_strictlyOrderedLoad c);
    s ← on_iq (λ h q, q ← replayMemInst fl p h q; Ok (h, q)) s;
    Ok (mark p setAtCommit s)
  else on_iq (scheduleNonSpec fl curCycle (fc_nonSpecSeqNum c)) s.
Definition freeEntriesInfo tid s : IewComm → IewComm := λ i,
  i <| iqCount := count (ds_iq s) tid |> <| ldstqCount := getCount_tid tid (ds_lsq s) |>
    <| usedIQ := true |> <| freeIQEntries := iq_numFreeEntries_tid tid (ds_iq s) |>
    <| usedLSQ := true |> <| freeLQEntries := numFreeLoadEntries_tid tid (ds_lsq s) |>
    <| freeSQEntries := numFreeStoreEntries_tid tid (ds_lsq s) |>.
Definition commitThread (broadcast_free_entries : bool) s tid : res Dispatch :=
  s ← tellCommitted tid s;
  s ← tellNonSpec tid s;
  Ok (if broadcast_free_entries then set_wrote (on_info tid (freeEntriesInfo tid s) s) else s).

Definition updateStatus s : res Dispatch :=
  let any_unblocking := existsb (λ tid, bool_decide (dispatchStatus s tid = Unblocking)) (iewActiveThreads (ds_iew s)) in
  wb ← willWB (ds_lsq s);
  let busy := hasReadyInsts numOpClasses (iq_ready (ds_iq s)) || wb || any_unblocking in
  Ok (match iew_status s with
      | Active => if busy then s else s <| iew_status := Inactive |>
      | Inactive => if busy then s <| iew_status := Active |> else s
      end).

(** From [writebackStores] on; [needsTSO], [cacheStorePorts] and [cache_accepts] are those of
    the load/store queue unit. *)
Definition commitTick (needsTSO : bool) (cacheStorePorts : Z) (cache_accepts : list Call → Packet → bool) s
    : res Dispatch :=
  let '(broadcast_free_entries, s) := broadcast s in
  s ← on_lsq (LSQThreads.writebackStores needsTSO cacheStorePorts cache_accepts) s;
  s ← mfold (commitThread broadcast_free_entries) s (iewActiveThreads (ds_iew s));
  updateStatus s.

(** ** Start-up and draining *)
Definition startupStage s : Dispatch :=
  foldl (λ s tid, on_info tid (λ i, i <| usedIQ := true |> <| freeIQEntries := iq_numFreeEntries_tid tid (ds_iq s) |>
      <| usedLSQ := true |> <| freeLQEntries := numFreeLoadEntries_tid tid (ds_lsq s) |>
      <| freeSQEntries := numFreeStoreEntries_tid tid (ds_lsq s) |>) s) s (seq 0 numThreads).
(** The part of the constructor and of [takeOverFrom] that sets the stage's own fields. *)
Definition resetStage s : Dispatch :=
  let s := s <| iew_status := Active |> <| exeStatus := Running |> <| updateLSQNextCycle := false |> in
  foldl (λ s tid, set_status tid Running s <| ds_iew ::= (λ i, i <| fetchRedirect ::= <[tid := false]> |>) |>)
    s (seq 0 numThreads).
Definition takeOverFrom s : res Dispatch :=
  s ← on_lsq LSQThreads.takeOverFrom (s <| ds_iq ::= iq_resetState |>);
  Ok (resetStage (startupStage s)).
Definition resetEntries s : res Dispatch := on_lsq LSQThreads.resetEntries (s <| ds_iq ::= iq_resetEntries |>).
Definition isDrained s : bool :=
  LSQThreads.isDrained (ds_lsq s) && iq_isDrained maxThreads (ds_iq s)
  && forallb (λ tid, bool_decide (ds_insts s tid = []) && bool_decide (ds_skid s tid = [])
                     && bool_decide (dispatchStatus s tid = Running)) (seq 0 numThreads)
  && FUPool.isDrained (fuPool (ds_iq s)).
End stage.

(** ** Order
    Nothing is lost or reordered on the way through the skid buffer. *)
Definition waiting (tid : nat) (s : Dispatch) : list InstPtr := ds_skid s tid ++ ds_insts s tid.
(** Two states that hold the same instructions for a thread, in the same places. *)
Definition same_waiting (tid : nat) (s s' : Dispatch) : Prop :=
  ds_skid s' tid = ds_skid s tid ∧ ds_insts s' tid = ds_insts s tid ∧ dispatchStatus s' tid = dispatchStatus s tid.

#[export] Instance same_waiting_preorder (tid : nat) : PreOrder (same_waiting tid).
Proof.
  split; [done|]. intros s1 s2 s3 (A1 & A2 & A3) (B1 & B2 & B3). split_and!; congruence.
Qed.

Section order.
Context (fl : DebugFlags) (curCycle skidBufferMax dispatchWidth : Z).
Implicit Types (s : Dispatch) (tid : nat) (p : InstPtr).

Lemma on_iq_waiting f tid s s' : on_iq f s = Ok s' → same_waiting tid s s'.
Proof. unfold on_iq. intros H. res_simp. done. Qed.
Lemma on_lsq_waiting f tid s s' : on_lsq f s = Ok s' → same_waiting tid s s'.
Proof. unfold on_lsq. intros H. res_simp. done. Qed.
Lemma toNonSpec_waiting p tid s s' : toNonSpec p s = Ok s' → same_waiting tid s s'.
Proof. exact (on_iq_waiting _ tid (mark p setCanCommit s) s'). Qed.

(** The queues take an instruction, the stage's own buffers are not touched. *)
Lemma dispatchInst_waiting tid p d s s' :
  dispatchInst fl curCycle tid p d s = Ok s' → same_waiting tid s s'.
Proof.
  unfold dispatchInst. intros H. apply bind_ok in H as ([add s1] & E & H).
  assert (same_waiting tid s s1) as ->.
  { repeat case_match; res_simp;
      try match goal with E : (if ?b then _ else _) = Ok _ |- _ => destruct b; res_simp end;
      repeat match goal with
        | E : on_iq _ _ = Ok _ |- _ => apply (on_iq_waiting _ tid) in E
        | E : on_lsq _ _ = Ok _ |- _ => apply (on_lsq_waiting _ tid) in E
        | E : toNonSpec _ _ = Ok _ |- _ => apply (toNonSpec_waiting _ tid) in E
        end; try done; by etrans. }
  repeat case_match; res_simp; try done; eauto using on_iq_waiting, toNonSpec_waiting.
Qed.

(** Blocking moves what is left behind what waits already. *)
Lemma stopFull_waiting tid s s' :
  stopFull skidBufferMax tid s = Ok s' →
  waiting tid s' = waiting tid s ∧ ds_insts s' tid = [] ∧ dispatchStatus s' tid = Blocked.
Proof.
  unfold stopFull, block, skidInsert, set_status, waiting. intros H. res_simp.
  destruct (dispatchStatus s tid); cbn; rewrite !fn_lookup_insert, app_nil_r; done.
Qed.

Lemma set_queue_waiting unblocking tid p rest s s' :
  queue unblocking tid s = p :: rest → same_waiting tid s s' → unblocking = true ∨ ds_skid s tid = [] →
  waiting tid s = p :: waiting tid (set_queue unblocking tid rest s')
  ∧ (unblocking = true ∨ ds_skid (set_queue unblocking tid rest s') tid = []).
Proof.
  unfold queue, set_queue, waiting. intros Hq (A & B & _) Hu.
  destruct unblocking; cbn; rewrite fn_lookup_insert.
  - rewrite Hq, B. auto.
  - destruct Hu as [|Hs]; [done|]. rewrite A, Hs, Hq. auto.
Qed.

Lemma dispatchLoop_waiting unblocking tid n : ∀ k s k' s',
  dispatchLoop fl curCycle skidBufferMax unblocking tid n k s = Ok (k', s') →
  unblocking = true ∨ ds_skid s tid = [] →
  ∃ gone, waiting tid s = gone ++ waiting tid s' ∧ (length gone ≤ n)%nat.
Proof.
  induction n as [|n IH]; intros k s k' s' H Hu; cbn in H; [res_simp; by exists []|].
  destruct (queue unblocking tid s) as [|p rest] eqn:Hq; [done|]. apply bind_ok in H as (d & _ & H).
  assert (∀ s1 s2, same_waiting tid s s1 → s2 = set_queue unblocking tid rest s1 →
    ∀ g k, dispatchLoop fl curCycle skidBufferMax unblocking tid n k (on_info tid g s2) = Ok (k', s') →
    ∃ gone, waiting tid s = gone ++ waiting tid s' ∧ (length gone ≤ S n)%nat) as Hgo.
  { intros s1 s2 Hs -> g k1 H'. destruct (set_queue_waiting unblocking tid p rest s s1 Hq Hs Hu) as [E Hu'].
    apply IH in H' as (gone & E' & Hl); [|done]. exists (p :: gone). cbn. split; [|lia].
    rewrite E. f_equal. exact E'. }
  case_match; [by eapply Hgo; [|done|exact H]|].
  case_match; [apply bind_ok in H as (s1 & E & H); res_simp; apply stopFull_waiting in E as [-> _]; exists []; by split; [|cbn; lia]|].
  apply bind_ok in H as (full & _ & H). destruct full; apply bind_ok in H as (s1 & E & H).
  - res_simp. apply stopFull_waiting in E as [-> _]. exists []. by split; [|cbn; lia].
  - apply dispatchInst_waiting in E. by eapply Hgo; [exact E|done|exact H].
Qed.

(** Dispatch takes the front of what waits, at most [dispatchWidth] instructions, and keeps
    the rest in order. *)
Lemma dispatchInsts_in_order tid s s' :
  dispatchInsts fl curCycle dispatchWidth skidBufferMax tid s = Ok s' → 0 ≤ dispatchWidth →
  dispatchStatus s tid = Unblocking ∨ ds_skid s tid = [] →
  ∃ gone, waiting tid s = gone ++ waiting tid s' ∧ Z.of_nat (length gone) ≤ dispatchWidth.
Proof.
  unfold dispatchInsts. intros H Hw Hu. apply bind_ok in H as ([k s1] & E & H). cbn beta iota in H.
  apply dispatchLoop_waiting in E as (gone & E & Hl); [|destruct Hu as [Hu|Hu]; [left; by apply bool_decide_eq_true|by right]].
  apply bind_ok in H as (s2 & E2 & H).
  assert (waiting tid s2 = waiting tid s1) as Hs.
  { destruct (decide _); [by injection E2 as ->|]. by apply stopFull_waiting in E2 as [-> _]. }
  exists gone. split; [|lia]. rewrite E, <- Hs. f_equal. injection H as <-. by destruct (_ && _).
Qed.
End order.
