(* ===== verification/OperandProps.v ===== *)
(** * Operands: registers, scoreboard, dependency graph, source counting

    Round trips and bookkeeping of the structures that say when an operand is
    available, and what [runaheadZeroOutputRegs] really zeroes. *)

From S2P Require Import Prelude Regs DynInst Scoreboard DepGraph.
Local Open Scope Z_scope.

(** ** Register order *)
Lemma RegId_ltb_spec (r r' : RegId) :
  RegId_ltb r r' = true ↔
  (RegClass_num (regClass r) < RegClass_num (regClass r'))%nat
  ∨ (regClass r = regClass r' ∧ (regIdx r < regIdx r' ∨ (regIdx r = regIdx r' ∧ elemIdx r < elemIdx r'))).
Proof.
  unfold RegId_ltb.
  by rewrite orb_true_iff, andb_true_iff, orb_true_iff, andb_true_iff, Nat.ltb_lt, !Z.ltb_lt, Z.eqb_eq,
    bool_decide_eq_true.
Qed.

(** [RegId::operator<] is a strict total order, as the [std::map]s keyed by
    register identifiers need: irreflexive, transitive and total. *)
Theorem RegId_order (r1 r2 r3 : RegId) :
  RegId_ltb r1 r1 = false
  ∧ (RegId_ltb r1 r2 && RegId_ltb r2 r3 = true → RegId_ltb r1 r3 = true)
  ∧ (RegId_ltb r1 r2 || RegId_eqb r1 r2 || RegId_ltb r2 r1 = true).
Proof.
  split; [apply RegId_ltb_irrefl|]. split.
  - rewrite andb_true_iff, !RegId_ltb_spec. intros [H1 H2].
    destruct H1 as [H1|[E1 H1]], H2 as [H2|[E2 H2]]; rewrite ?E1, ?E2 in *; [left; lia|tauto|tauto|].
    right. split; [done|]. destruct H1 as [H1|[-> H1]], H2 as [H2|[E H2]]; [left|left|left|right]; lia.
  - rewrite !orb_true_iff, RegId_eqb_eq. destruct (RegId_ltb_trichotomy r1 r2) as [?|[?|?]]; tauto.
Qed.

(** ** Scoreboard *)
Lemma in_range_bounds (sb : Scoreboard) (r : PhysRegId) :
  in_range sb r = true ↔ 0 ≤ flatIndex r < numPhysRegs sb.
Proof. unfold in_range. rewrite andb_true_iff, Z.leb_le, Z.ltb_lt. lia. Qed.

(** reading back the scoreboard.  In a well-formed scoreboard, setting a register
    in range succeeds and makes it read as ready; clearing one (other than the zero
    register) makes it read as not ready, miscellaneous registers always reading as
    ready; and both leave every register with another index as it was. *)
Theorem scoreboard_roundtrip (sb : Scoreboard) (r q : PhysRegId) :
  sb_wf sb → in_range sb r = true → isZeroPhysReg r = false →
  ∃ sb1 sb2, setReg r sb = Ok sb1 ∧ unsetReg r sb = Ok sb2 ∧ sb_wf sb1 ∧ sb_wf sb2
  ∧ getReg r sb1 = Ok true ∧ getReg r sb2 = Ok (isFixedMapping r)
  ∧ (in_range sb q = true → flatIndex q ≠ flatIndex r → getReg q sb1 = getReg q sb ∧ getReg q sb2 = getReg q sb).
Proof.
  intros Hwf Hr Hz. pose proof Hr as Hb%in_range_bounds. unfold sb_wf in Hwf.
  assert (Hset : ∀ b, in_range (sb <| regScoreBoard ::= <[Z.to_nat (flatIndex r) := b]> |>) r = true) by done.
  assert (Hother : ∀ b, in_range sb q = true → flatIndex q ≠ flatIndex r →
    getReg q (sb <| regScoreBoard ::= <[Z.to_nat (flatIndex r) := b]> |>) = getReg q sb).
  { intros b Hq Hne. pose proof Hq as Hqb%in_range_bounds. unfold getReg, bit_at. cbn.
    change (in_range (sb <| regScoreBoard ::= <[Z.to_nat (flatIndex r) := b]> |>) q) with (in_range sb q).
    rewrite list_lookup_insert_ne by lia. done. }
  assert (Hself : ∀ b, isFixedMapping r = false →
    getReg r (sb <| regScoreBoard ::= <[Z.to_nat (flatIndex r) := b]> |>) = Ok b).
  { intros b Hf. unfold getReg, bit_at. rewrite Hset, Hf. cbn. rewrite list_lookup_insert_eq by lia. cbn. by rewrite Hz. }
  unfold setReg, unsetReg. rewrite Hr, Hz. cbn [assert mbind res_bind].
  destruct (isFixedMapping r) eqn:Hf.
  - exists sb, sb. do 4 (split; [done|]). unfold getReg. rewrite Hr, Hf. done.
  - eexists _, _. split; [done|]. split; [done|]. unfold sb_wf; cbn. rewrite !length_insert.
    split; [done|]. split; [done|]. split; [by apply Hself|]. split; [by apply Hself|].
    intros Hq Hne. split; by apply Hother.
Qed.

(** ** Dependency graph *)
Lemma set_entry_wf (idx : Z) (e e0 : DepEntry) (g : DependencyGraph) (k : Z) :
  entry idx g = Ok e0 → dg_wf g → Z.of_nat (length (dep_next e)) = Z.of_nat (length (dep_next e0)) + k →
  dg_wf (set_entry idx e g <| memAllocCounter ::= Z.add k |>).
Proof.
  intros [Hi He]%entry_ok Hwf Hk. unfold dg_wf in *. cbn.
  pose proof (sum_nodes_insert _ _ _ e He). lia.
Qed.

Lemma chain_set (idx j : Z) (e e0 : DepEntry) (g : DependencyGraph) (f : Z → Z) :
  entry idx g = Ok e0 →
  chain j (set_entry idx e g <| memAllocCounter ::= f |>) = if j =? idx then dep_next e else chain j g.
Proof.
  intros He. pose proof He as [Hi _]%entry_ok. unfold chain.
  change (entry j (set_entry idx e g <| memAllocCounter ::= f |>)) with (entry j (set_entry idx e g)).
  destruct (Z.eqb_spec j idx) as [->|Hne]; [by rewrite (entry_set_eq _ _ _ _ He)|by rewrite entry_set_ne].
Qed.

(** insertion and popping are inverse: for a register of the graph, inserting a
    dependent succeeds and counts one more node, and popping then returns it and
    gives back the chains and the node count of the original graph. *)
Theorem depgraph_insert_pop (idx : Z) (p : InstPtr) (g : DependencyGraph) :
  is_ok (entry idx g) = true → dg_wf g →
  ∃ g1 g2, DepGraph.insert idx p g = Ok g1 ∧ pop idx g1 = Ok (Some p, g2)
  ∧ dg_wf g1 ∧ dg_wf g2 ∧ chain idx g1 = p :: chain idx g
  ∧ (∀ j, chain j g2 = chain j g) ∧ memAllocCounter g2 = memAllocCounter g.
Proof.
  intros Hok Hwf. destruct (entry idx g) as [e|] eqn:He; [|done]. unfold DepGraph.insert. rewrite He.
  cbn [mbind res_bind]. set (g1 := set_entry idx (e <| dep_next ::= cons p |>) g <| memAllocCounter ::= Z.succ |>).
  assert (He1 : entry idx g1 = Ok (e <| dep_next ::= cons p |>)) by (by apply (entry_set_eq _ _ e)).
  exists g1. unfold pop. rewrite He1. cbn [mbind res_bind]. cbn [dep_next over_field].
  eexists. split; [done|]. split; [done|].
  assert (Hwf1 : dg_wf g1).
  { eapply (set_entry_wf idx (e <| dep_next ::= cons p |>) e g 1) in Hwf; [|done|cbn; lia].
    unfold dg_wf in *. cbn in *. lia. }
  assert (Ec : chain idx g = dep_next e) by (unfold chain; by rewrite He).
  split; [done|]. split.
  { eapply (set_entry_wf idx _ _ g1 (-1)) in Hwf1; [|done|cbn; instantiate (1 := e <| dep_next ::= cons p |> <| dep_next := dep_next e |>); cbn; lia].
    unfold dg_wf in *. cbn in *. lia. }
  split; [unfold g1; rewrite (chain_set _ _ _ e _ _ He), Z.eqb_refl, Ec; done|]. split; [|cbn; lia].
  intros j. rewrite (chain_set _ _ _ _ _ _ He1). destruct (Z.eqb_spec j idx) as [->|Hne]; [by rewrite Ec|].
  unfold g1. rewrite (chain_set _ _ _ e _ _ He). by rewrite (proj2 (Z.eqb_neq _ _) Hne).
Qed.

(** removal is exact.  Removing an instruction from a non-empty chain that holds
    it succeeds, takes out its most recent occurrence only, keeps the order of the
    others and every other chain, and keeps the node count right. *)
Theorem depgraph_remove_exact (idx : Z) (p : InstPtr) (g : DependencyGraph) (c1 c2 : list InstPtr) :
  dg_wf g → chain idx g = c1 ++ p :: c2 → p ∉ c1 →
  ∃ g', remove idx p g = Ok g' ∧ dg_wf g' ∧ chain idx g' = c1 ++ c2
  ∧ ∀ j, j ≠ idx → chain j g' = chain j g.
Proof.
  intros Hwf Hc Hp. assert (∃ e, entry idx g = Ok e ∧ dep_next e = c1 ++ p :: c2) as (e & He & Hn).
  { unfold chain in Hc. destruct (entry idx g) as [e|]; [eauto|by destruct c1]. }
  assert (Hu : unlink p (dep_next e) = Ok (c1 ++ c2)) by (rewrite Hn; apply unlink_spec; eauto).
  unfold remove. rewrite He. cbn [mbind res_bind].
  destruct (dep_next e) as [|x l] eqn:En; [by destruct c1|]. rewrite Hu. cbn [mbind res_bind].
  eexists. split; [done|]. split; [|split].
  - eapply (set_entry_wf idx (e <| dep_next := c1 ++ c2 |>) e g (-1)) in Hwf; [|done|].
    + unfold dg_wf in *. cbn in *. lia.
    + rewrite En, Hn. cbn. rewrite !length_app. cbn. lia.
  - by rewrite (chain_set _ _ _ e _ _ He), Z.eqb_refl.
  - intros j Hj. rewrite (chain_set _ _ _ e _ _ He). by rewrite (proj2 (Z.eqb_neq _ _) Hj).
Qed.

(** ** Source operands *)
(** counting ready sources.  While fewer sources are marked than the instruction
    has (at most 255, the range of the 8-bit counter), one more call succeeds, and
    the instruction becomes ready to issue exactly at the last source; a call beyond
    the last one is the panic of the code. *)
Theorem markSrcRegReady_counts (cyc : Z) (d : DynInst) :
  0 ≤ readyRegs d ≤ numSrcRegs d → numSrcRegs d < 2 ^ 8 - 1 →
  if readyRegs d =? numSrcRegs d then markSrcRegReady cyc d = Err Panicked
  else ∃ d', markSrcRegReady cyc d = Ok d' ∧ readyRegs d' = readyRegs d + 1
       ∧ readyToIssue d' = readyToIssue d || (readyRegs d + 1 =? numSrcRegs d).
Proof.
  intros Hr Hn. unfold markSrcRegReady. cbn zeta.
  set (d1 := d <| readyRegs ::= (λ n, u8 (n + 1)) |>).
  assert (E1 : readyRegs d1 = readyRegs d + 1) by (unfold d1; cbn; apply u8_small; lia).
  change (numSrcRegs d1) with (numSrcRegs d). rewrite E1.
  assert (Hset : readyRegs (setCanIssue cyc d1) = readyRegs d + 1 ∧ numSrcRegs (setCanIssue cyc d1) = numSrcRegs d
    ∧ readyToIssue (setCanIssue cyc d1) = true).
  { split; [done|]. split; [done|]. apply get_st_set_eq. }
  destruct (Z.eqb_spec (readyRegs d) (numSrcRegs d)) as [E|Hne].
  - rewrite (proj2 (Z.eqb_neq (readyRegs d + 1) (numSrcRegs d))) by lia.
    change (numSrcRegs d1) with (numSrcRegs d). rewrite E1. by rewrite (proj2 (Z.ltb_lt _ _)) by lia.
  - destruct (Z.eqb_spec (readyRegs d + 1) (numSrcRegs d)) as [E|Hne'].
    + destruct Hset as (Es1 & Es2 & Es3). rewrite Es1, Es2, (proj2 (Z.ltb_ge _ _)) by lia. cbn [panic_if mbind res_bind].
      eexists. split; [done|]. rewrite Es3, orb_true_r. done.
    + change (numSrcRegs d1) with (numSrcRegs d). rewrite E1, (proj2 (Z.ltb_ge _ _)) by lia. cbn [panic_if mbind res_bind].
      eexists. split; [done|]. rewrite orb_false_r. done.
Qed.

(** ** Runahead outputs *)
Lemma zeroOutputs_spec (l : list PhysRegId) : ∀ (v v' : regvals) (x : PhysRegId),
  mfold zeroOutputReg v l = Ok v' → v' !! x = if decide (x ∈ l) then Some 0 else v !! x.
Proof.
  induction l as [|r l IH]; intros v v' x E; cbn [mfold] in E; [by injection E as <-|].
  apply bind_ok in E as (v1 & H1 & E). rewrite (IH _ _ x E).
  assert (v1 = <[r := 0]> v) as -> by (unfold zeroOutputReg in H1; destruct (regClass _); congruence).
  destruct (decide (x ∈ l)) as [Hin|Hin]; [by rewrite decide_True by set_solver|].
  destruct (decide (x = r)) as [->|Hne].
  - by rewrite lookup_insert_eq, decide_True by left.
  - rewrite lookup_insert_ne by done. by rewrite decide_False by set_solver.
Qed.

(** what [runaheadZeroOutputRegs] zeroes.  Its loop starts at destination 1: all
    destinations but the first are zeroed, and the first keeps the value it had. *)
Theorem runahead_zero_skips_first (d : DynInst) (v v' : regvals) (x : PhysRegId) (rest : list PhysRegId) :
  renamedDests d = x :: rest → x ∉ rest → runaheadZeroOutputRegs d v = Ok v' →
  v' !! x = v !! x ∧ ∀ y, y ∈ rest → v' !! y = Some 0.
Proof.
  intros Er Hx E. unfold runaheadZeroOutputRegs in E. rewrite Er in E. cbn [drop] in E.
  split; [|intros y Hy]; rewrite (zeroOutputs_spec _ _ _ _ E); [by rewrite decide_False|by rewrite decide_True].
Qed.
