(* ===== verification/NDA.v ===== *)
(** * The protection scheme, end to end

    The reorder buffer, the instruction queue, the scoreboard, the IEW stage and
    commit put together as a transition system whose steps are the stages' own
    operations, and the guarantees the NDA scheme gives in every reachable state,
    by rule induction: results of instructions behind an unresolved branch stay
    invisible, the branch counter is exact, and a branch that initiated runahead mode
    is in flight only in that mode, alone, and asks for the squash that ends it. *)

From S2P Require Import Prelude Regs DynInst Scoreboard IQInterface ROB ROBInv ROBOps ROBSquash IEW Commit NDAOps StoreSet FUPool ReadyList MemDep IQ IQSched IQLaws IQSchedProps.
Local Open Scope Z_scope.

Record Sys := MkSys {
  s_iew : IEW;
  s_commit : Commit;
  s_rob : ROB;
  s_world : World IQ;
  s_regs : regvals;
  s_taint : taint;
}.
#[export] Instance Sys_eta : Updatable Sys :=
  λ r, MkSys (s_iew r) (s_commit r) (s_rob r) (s_world r) (s_regs r) (s_taint r).

Section nda.
Context (fl : DebugFlags) (advancePC : StaticInst → PCState → PCState).
Implicit Types (s : Sys).

(** An instruction that executed this cycle: the pending memory-order violation of its
    thread, and whether its address is secure ([isAddrSecure()]). *)
Record ExecutedInst := MkExecuted {
  ex_inst : InstPtr;
  ex_violator : option InstPtr;
  ex_addrSecure : bool;
}.
(** In the secure-memory mode the taint check comes first; then the resolution, with a
    memory-order violation reported to the instruction queue. *)
Definition execInst (st : IEW * World IQ * taint) (x : ExecutedInst) : res (IEW * World IQ * taint) :=
  let '(i, w, t) := st in
  let p := ex_inst x in
  '(w, t) ← (if SS_DefendMemRegion fl then
      d ← deref (w_heap w !! p);
      let '(d, t) := checkIfOutputIsSpeculativelySecure (ex_addrSecure x) d t in
      Ok (w <| w_heap ::= <[p := d]> |>, t)
    else Ok (w, t));
  '(i, h, vo) ← resolveInst advancePC fl p (ex_violator x) i (w_heap w);
  let w := w <| w_heap := h |> in
  match vo with
  | None => Ok (i, w, t)
  | Some v => q ← iq_violation p v (w_heap w) (w_iq w); Ok (i, w <| w_iq := q |>, t)
  end.

(** One [tick()] of the IEW stage, dispatch apart: functional units are freed, the
    instructions executed this cycle resolve, [toWB] write back, the reorder buffer is
    told, and the next instructions are scheduled.  [exeStatus], which would skip all
    this when [Squashing], is only ever [Running] or [Idle]. *)
Definition iewTick (curCycle : Z) (executed : list ExecutedInst) (toWB : list InstPtr) s
    : res Sys :=
  fu ← processFreeUnits (fuPool (w_iq (s_world s)));
  let w := s_world s <| w_iq ::= (λ q, q <| fuPool := fu |>) |> in
  '(i, w, t) ← mfold execInst (executeReset (tickReset (s_iew s)), w, s_taint s) executed;
  '(i, v, w) ← writebackInsts fl curCycle toWB i (s_regs s) w;
  '(i, r, w) ← updateMaySquashStatusInROB fl curCycle i (s_rob s) w;
  '(_, h, q) ← scheduleReadyInsts fl (w_heap w) (w_iq w);
  Ok (s <| s_iew := i |> <| s_rob := r |> <| s_world := MkWorld h q (w_sb w) |> <| s_regs := v |> <| s_taint := t |>).

(** The thread squashes, or waits for the trap that will squash it. *)
Definition squashing (x : ThreadStatus) : bool := match x with CROBSquashing | TrapPending => true | _ => false end.
Definition keeps_squashing (c c' : Commit) : Prop :=
  ∀ t, squashing (commitStatus c t) = true → squashing (commitStatus c' t) = true.

(** ** Steps *)
Inductive step : Sys → Sys → Prop :=
| step_iew cyc executed toWB s s' :
    (** instructions that execute or write back are in the buffer, and belong to
        active threads *)
    (∀ x, x ∈ executed → ∃ d, w_heap (s_world s) !! ex_inst x = Some d
       ∧ ex_inst x ∈ instList (s_rob s) (threadNumber d) ∧ threadNumber d ∈ iewActiveThreads (s_iew s)) →
    (∀ p, p ∈ toWB → in_rob (s_rob s) p) →
    iewTick cyc executed toWB s = Ok s' → step s s'
| step_advance s :
    (** the time buffers advance: the message to commit moves on *)
    step s (s <| s_iew ::= (λ i, i <| toCommit := no_msg |>) |>)
| step_squash cyc m tid s c r w :
    (** an initiating branch named by the IEW stage is still in the buffer *)
    (∀ p d, cm_mispredictInst m tid = Some p → w_heap (s_world s) !! p = Some d →
            init_inst d = true → p ∈ instList (s_rob s) tid) →
    squashFromIEW fl cyc m tid (s_commit s) (s_rob s) (s_world s) = Ok (c, r, w) →
    step s (s <| s_commit := c |> <| s_rob := r |> <| s_world := w |>)
| step_pending cyc tid s c r w :
    squashPending fl cyc tid (s_commit s) (s_rob s) (s_world s) = Ok (c, r, w) →
    step s (s <| s_commit := c |> <| s_rob := r |> <| s_world := w |>)
| step_continue cyc tid s c r w :
    continueSquash fl cyc tid (s_commit s) (s_rob s) (s_world s) = Ok (c, r, w) →
    step s (s <| s_commit := c |> <| s_rob := r |> <| s_world := w |>)
| step_get cyc age p d s c r w :
    fresh_inst (s_rob s) (s_world s) p d →
    getInst fl cyc age (s_commit s, s_rob s, s_world s) p = Ok (c, r, w) →
    step s (s <| s_commit := c |> <| s_rob := r |> <| s_world := w |>)
| step_retire cyc tid s r w :
    (** commit retires from a thread whose status lets it commit *)
    may_commit (commitStatus (s_commit s) tid) = true →
    retireHead fl cyc tid (s_rob s) (s_world s) = Ok (r, w) →
    step s (s <| s_rob := r |> <| s_world := w |>)
| step_rename sb x s :
    (** rename allocates a register *)
    unsetReg x (w_sb (s_world s)) = Ok sb →
    step s (s <| s_world ::= (λ w, w <| w_sb := sb |>) |>)
| step_other w t s :
    (** what the other stages do: flags the scheme does not read, instructions
        not yet in the buffer, and taint *)
    hrel (λ p d d', in_rob (s_rob s) p → quiet p d d') (w_heap (s_world s)) (w_heap w) →
    w_sb w = w_sb (s_world s) →
    step s (s <| s_world := w |> <| s_taint := t |>)
| step_fetch p d s :
    w_heap (s_world s) !! p = None →
    step s (s <| s_world ::= (λ w, w <| w_heap ::= <[p := d]> |>) |>)
| step_commit c s :
    (** commit's own bookkeeping (traps, interrupts, the sequence numbers it reports), in
        which a squashing thread goes on squashing or waits for a trap *)
    keeps_squashing (s_commit s) c →
    step s (s <| s_commit := c |>).

(** The empty pipeline. *)
Record initial s : Prop := {
  init_lists : ∀ tid, instList (s_rob s) tid = [] ∧ squashIt (s_rob s) tid = None
    ∧ numInstThatMayCauseSquash (s_rob s) tid = 0 ∧ threadEntries (s_rob s) tid = 0
    ∧ inRunaheadMode (s_rob s) tid = false;
  init_count : numInstsInROB (s_rob s) = 0;
  init_sb : sb_wf (w_sb (s_world s));
  init_threads : NoDup (iewActiveThreads (s_iew s));
}.

Inductive reachable : Sys → Prop :=
| reach_init s : initial s → reachable s
| reach_step s s' : reachable s → step s s' → reachable s'.

(** ** Invariant *)
Record sys_inv s : Prop := {
  si_rob : rob_inv fl (λ _, 0) (s_rob s) (s_world s);
  si_iters : iters_ok (s_rob s);
  si_threads : NoDup (iewActiveThreads (s_iew s));
  si_status : ∀ t, is_Some (squashIt (s_rob s) t) → squashing (commitStatus (s_commit s) t) = true;
}.

Lemma initial_inv s : initial s → sys_inv s.
Proof.
  intros [Hl Hc Hsb Hnd].
  split; [|intros t p Hp; by rewrite (proj1 (proj2 (Hl t))) in Hp|done|intros t [p Hp]; by rewrite (proj1 (proj2 (Hl t))) in Hp].
  assert (Hin : ∀ p, ¬ in_rob (s_rob s) p).
  { intros p [t Hp]. rewrite (proj1 (Hl t)) in Hp. by apply not_elem_of_nil in Hp. }
  split.
  - intros t. destruct (Hl t) as (-> & _ & -> & _ & ->). split; try done; cbn; set_solver || lia.
  - split; [| | |done].
    + intros q d r Hq. by apply Hin in Hq.
    + intros p q d e r r' Hq. by apply Hin in Hq.
    + intros q d r Hq. by apply Hin in Hq.
  - intros t. destruct (Hl t) as (-> & _ & _ & -> & _). done.
  - rewrite Hc. unfold countInsts. symmetry. generalize (thread_ids (numThreads (s_rob s))). intros l.
    induction l as [|t l IH]; cbn; [done|]. rewrite foldl_sum, IH. unfold countInsts_tid.
    by rewrite (proj1 (Hl t)).
  - intros t _. apply Hl.
Qed.

(** *** One IEW cycle *)
Lemma tickReset_cleared (l : list nat) (i : IEW) (t : nat) :
  iewActiveThreads i = l → cleared l (executeReset (tickReset i)) t = 0.
Proof.
  intros <-. unfold cleared. case_decide as Ht; [|done]. unfold tickReset. cbn. clear -Ht.
  generalize (numClearedMaySquashOthers i). induction (iewActiveThreads i) as [|x l IH]; intros f; cbn.
  - by apply not_elem_of_nil in Ht.
  - destruct (decide (t = x)) as [->|Hne]; [by rewrite fn_lookup_insert|].
    rewrite fn_lookup_insert_ne by done. apply IH. by apply elem_of_cons in Ht as [?|?].
Qed.

Lemma exec_inv (l : list nat) (r : ROB) (xs : list ExecutedInst) :
  ∀ (i i' : IEW) (w w' : World IQ) (t t' : taint),
  (∀ x, x ∈ xs → ∃ tid, ex_inst x ∈ instList r tid ∧ tid ∈ l) →
  rob_inv fl (cleared l i) r w → iewActiveThreads i = l →
  mfold execInst (i, w, t) xs = Ok (i', w', t') →
  rob_inv fl (cleared l i') r w' ∧ iewActiveThreads i' = l.
Proof.
  induction xs as [|x xs IH]; intros i i' w w' t t' Hxs Hinv Hact E; cbn [mfold] in E.
  { by injection E as <- <- _. }
  apply bind_ok in E as ([[i1 w1] t1] & E1 & E). unfold execInst in E1. set (p := ex_inst x) in E1.
  destruct (Hxs x ltac:(left)) as (tid & Hp & Htid). change (ex_inst x) with p in Hp.
  destruct (th_live _ _ _ _ _ _ _ (ri_thread _ _ _ _ Hinv tid) p Hp) as (d0 & Hd0 & Ht).
  apply bind_ok in E1 as ([w0 t0] & E0 & E1).
  assert (∃ d, rob_inv fl (cleared l i) r w0 ∧ w_heap w0 !! p = Some d ∧ threadNumber d = tid) as (d & Hinv0 & Hd & Ht0).
  { destruct (SS_DefendMemRegion fl) eqn:Hss; [|injection E0 as <- _; by exists d0].
    rewrite Hd0 in E0. cbn [deref mbind res_bind] in E0. pose proof (taint_check_changed (ex_addrSecure x) d0 t) as [Hc Hu].
    destruct (checkIfOutputIsSpeculativelySecure _ _ _) as [d1 t2]. cbn [fst] in Hc, Hu. injection E0 as <- _. exists d1.
    split; [by eapply rob_taint|]. cbn. rewrite lookup_insert_eq. split; [done|]. by rewrite (changed_threadNumber _ _ _ Hc). }
  subst tid. apply bind_ok in E1 as ([[i2 h2] vo] & Hr & E1). cbn zeta in E1. rewrite <- Ht0 in Hp, Htid.
  assert (i1 = i2 ∧ w_heap w1 = h2 ∧ w_sb w1 = w_sb w0) as (-> & Eh & Es).
  { destruct vo; [|by injection E1 as <- <- _]. apply bind_ok in E1 as (q & _ & E1). by injection E1 as <- <- _. }
  destruct (rob_resolve fl (cleared l i) r w0 w1 advancePC p d (ex_violator x) vo i i2 h2)
    as (Hinv1 & Hother & Ea & _); try done.
  eapply (IH i2); [intros q Hq; apply (Hxs q); by right| |congruence|exact E].
  eapply rob_inv_ext; [exact Hinv1| |reflexivity|done]. intros t3. unfold cleared.
  destruct (decide (t3 = threadNumber d)) as [->|Hne].
  - rewrite fn_lookup_insert, !decide_True by done. lia.
  - rewrite fn_lookup_insert_ne by done. by rewrite Hother.
Qed.

Lemma writebacks_inv (cyc : Z) (r : ROB) (pend : nat → Z) (l : list InstPtr) :
  ∀ (v v' : regvals) (n n' : Z) (w w' : World IQ),
  (∀ p, p ∈ l → in_rob r p) → rob_inv fl pend r w →
  mfold (writebackInst fl cyc) (v, n, w) l = Ok (v', n', w') → rob_inv fl pend r w'.
Proof.
  induction l as [|p l IH]; intros v v' n n' w w' Hl Hinv E; cbn [mfold] in E; [by injection E as <- <- <-|].
  apply bind_ok in E as ([[v1 n1] w1] & Hw & E).
  apply (rob_writeback fl cyc pend r) in Hw; [|done|by apply Hl; left].
  eapply IH; [intros q Hq; apply Hl; by right|exact Hw|exact E].
Qed.

Lemma iewTick_inv (cyc : Z) executed toWB s s' :
  sys_inv s →
  (∀ x, x ∈ executed → ∃ d, w_heap (s_world s) !! ex_inst x = Some d
     ∧ ex_inst x ∈ instList (s_rob s) (threadNumber d) ∧ threadNumber d ∈ iewActiveThreads (s_iew s)) →
  (∀ p, p ∈ toWB → in_rob (s_rob s) p) →
  iewTick cyc executed toWB s = Ok s' → sys_inv s'.
Proof.
  intros [Hinv Hit Hnd Hst] Hex Hwb E. unfold iewTick in E.
  apply bind_ok in E as (fu & _ & E). cbn zeta in E.
  apply bind_ok in E as ([[i1 w1] t1] & E1 & E). apply bind_ok in E as ([[i2 v2] w2] & E2 & E).
  apply bind_ok in E as ([[i3 r3] w3] & E3 & E). apply bind_ok in E as ([[n h] q] & E4 & E). injection E as <-.
  set (l := iewActiveThreads (s_iew s)) in *.
  apply (exec_inv l (s_rob s)) in E1 as [Hinv1 Ha1].
  2: { intros x Hx. destruct (Hex x Hx) as (d & _ & ? & ?). eauto. }
  2: { apply (rob_quiet fl _ _ (s_world s)); [|by apply hrel_refl|done].
       eapply rob_inv_ext; [exact Hinv| |reflexivity|done]. intros t. by apply tickReset_cleared. }
  2: { done. }
  unfold writebackInsts in E2. apply bind_ok in E2 as ([[v3 n3] w4] & Hw & E2).
  injection E2 as <- <- <-.
  apply (writebacks_inv cyc (s_rob s) (cleared l i1)) in Hw; [|intros p Hp; apply Hwb|done].
  2: { pose proof (subseteq_take (Z.to_nat (wbWidth i1)) toWB) as Hsub. by apply Hsub. }
  unfold updateMaySquashStatusInROB in E3. cbn [iewActiveThreads over_field] in E3. rewrite Ha1 in E3.
  apply (rob_updateMaySquash fl cyc l) in E3 as (Hinv3 & Hit3 & Hsq3 & _ & Ha3); [|done|exact Hw|done].
  split; cbn; [|done|cbn in Ha3; by rewrite Ha3, Ha1|by rewrite Hsq3].
  eapply rob_quiet; [exact Hinv3| |done]. apply schedule_live in E4 as [Hh _].
  eapply hrel_mono; [|exact Hh]. intros p d d' _. apply changed_mono. unfold unread. set_solver.
Qed.

(** *** Every step *)
Lemma unset_inv (x : PhysRegId) (sb : Scoreboard) (r : ROB) (w : World IQ) :
  unsetReg x (w_sb w) = Ok sb → rob_inv fl (λ _, 0) r w → rob_inv fl (λ _, 0) r (w <| w_sb := sb |>).
Proof.
  intros E [Ht [Hh Hs Hv Hwf] He Hn Hi]. split; try done. split; [|done|done|].
  - intros q d y Hq Hd Hc Hy Htr. specialize (Hh q d y Hq Hd Hc Hy Htr). cbn. revert Hh.
    unfold unsetReg in E. apply bind_ok in E as (? & _ & E).
    destruct (isFixedMapping x); [by injection E as <-|]. destruct (isZeroPhysReg x); [by injection E as <-|].
    injection E as <-. unfold ready_bit. cbn. destruct (decide (Z.to_nat (flatIndex x) = Z.to_nat (flatIndex y))) as [->|Hne].
    + destruct (decide (Z.to_nat (flatIndex y) < length (regScoreBoard (w_sb w)))%nat).
      * by rewrite list_lookup_insert_eq.
      * intros _. rewrite lookup_ge_None_2; [done|]. rewrite length_insert. lia.
    + by rewrite list_lookup_insert_ne.
  - cbn. unfold unsetReg in E. apply bind_ok in E as (? & _ & E). unfold sb_wf in *.
    destruct (isFixedMapping x); [by injection E as <-|]. destruct (isZeroPhysReg x); [by injection E as <-|].
    injection E as <-. cbn. by rewrite length_insert.
Qed.

Lemma other_inv (r : ROB) (w w' : World IQ) :
  hrel (λ p d d', in_rob r p → quiet p d d') (w_heap w) (w_heap w') → w_sb w' = w_sb w →
  rob_inv fl (λ _, 0) r w → rob_inv fl (λ _, 0) r w'.
Proof.
  intros Hrel Es [Ht Hr He Hn Hi]. split; try done.
  - intros t. eapply thread_ok_ext; [|apply Ht]. eapply hrel_mono; [|exact Hrel].
    intros p d d' _ Hq Hp. apply Hq. by exists t.
  - rewrite Es. destruct Hr as [Hh Hs Hv Hwf].
    assert (Hback : ∀ p d', in_rob r p → w_heap w' !! p = Some d' →
      ∃ d, w_heap w !! p = Some d ∧ calm p d d' ∧ isSquashed d' = isSquashed d).
    { intros p d' Hp Hd'. destruct (hrel_lookup_r _ _ _ _ _ Hrel Hd') as (d & Hd & Hq).
      exists d. split; [done|]. split; [by apply quiet_calm, Hq|].
      eapply changed_get; [by apply Hq|set_solver|done]. }
    split; [| | |done].
    + intros q d' x Hq Hd' Hc Hx Htr. destruct (Hback q d' Hq Hd') as (d & Hd & (Hcore & _ & Hcon) & _).
      rewrite (core_dests _ _ Hcore) in Hx. eauto.
    + intros p q d' e' x y Hp Hq Hne Hd' He' Hsd Hse Hx Hy.
      destruct (Hback p d' Hp Hd') as (d & Hd & (Hcore & _) & Esd).
      destruct (Hback q e' Hq He') as (e & He0 & (Hcore2 & _) & Ese).
      rewrite (core_dests _ _ Hcore) in Hx. rewrite (core_dests _ _ Hcore2) in Hy.
      rewrite Esd in Hsd. rewrite Ese in Hse. eauto.
    + intros q d' x Hq Hd' Hx. destruct (Hback q d' Hq Hd') as (d & Hd & (Hcore & _) & _).
      rewrite (core_dests _ _ Hcore) in Hx. eauto.
Qed.

Lemma thread_ok_heap (h h' : heap) (tid : nat) (l : list InstPtr) (n k : Z) (b : bool) :
  (∀ q, q ∈ l → h' !! q = h !! q) → thread_ok fl h tid l n k b → thread_ok fl h' tid l n k b.
Proof.
  intros E [Hl Hso Hc Hp Hg Hr Hct Hsq].
  assert (Hst : ∀ st q, q ∈ l → st_at st h' q = st_at st h q) by (intros st q Hq; unfold st_at; by rewrite E).
  split; [| | |done| | | |].
  - intros q Hq. rewrite E by done. by apply Hl.
  - eapply seq_sorted_ext; [|exact Hso]. intros q Hq. unfold seq_at. by rewrite E.
  - rewrite Hc. do 2 f_equal. apply countb_ext. intros q Hq. symmetry. by apply Hst.
  - apply guarded_spec. intros l1 p l2 q El Hm Hq. rewrite Hst in Hm by (rewrite El; set_solver).
    unfold protected. rewrite E by (rewrite El; set_solver). by apply (proj1 (guarded_spec _ _ _) Hg l1 p l2).
  - rewrite (countb_ext _ (initiator h)); [done|]. intros q Hq. unfold initiator. by rewrite !Hst.
  - intros p d Hin. rewrite E by done. by apply Hct.
  - intros p d Hin. rewrite E by done. by apply Hsq.
Qed.

Lemma fetch_inv (r : ROB) (w : World IQ) (p : InstPtr) (d : DynInst) :
  w_heap w !! p = None → rob_inv fl (λ _, 0) r w → rob_inv fl (λ _, 0) r (w <| w_heap ::= <[p := d]> |>).
Proof.
  intros Hp Hinv. assert (Hnot : ∀ q, in_rob r q → q ≠ p).
  { intros q [t Hq] ->. destruct (th_live _ _ _ _ _ _ _ (ri_thread _ _ _ _ Hinv t) p Hq) as (e & He & _).
    congruence. }
  assert (Hlk : ∀ q, in_rob r q → <[p := d]> (w_heap w) !! q = w_heap w !! q).
  { intros q Hq. apply lookup_insert_ne. apply not_eq_sym. by apply Hnot. }
  destruct Hinv as [Ht Hr He Hn Hi]. split; try done.
  - intros t. apply (thread_ok_heap (w_heap w)); [|apply Ht]. intros q Hq. apply Hlk. by exists t.
  - destruct Hr as [Hh Hs Hv Hwf]. cbn. split; [| | |done].
    + intros q e x Hq He'. rewrite Hlk in He' by done. by apply (Hh q).
    + intros q1 q2 e1 e2 x y Hq1 Hq2 Hne E1 E2. rewrite Hlk in E1, E2 by done. by apply (Hs q1 q2).
    + intros q e x Hq He'. rewrite Hlk in He' by done. by apply (Hv q).
Qed.

Lemma get_inv (cyc : Z) (age : nat → Z) (p : InstPtr) (d : DynInst) (c c' : Commit) (r r' : ROB) (w w' : World IQ) :
  rob_inv fl (λ _, 0) r w → iters_ok r → fresh_inst r w p d →
  getInst fl cyc age (c, r, w) p = Ok (c', r', w') →
  rob_inv fl (λ _, 0) r' w' ∧ iters_ok r' ∧ squashIt r' = squashIt r ∧ commitStatus c' = commitStatus c.
Proof.
  intros Hinv Hit Hfr E. unfold getInst in E. apply bind_ok in E as (d0 & Hd & E).
  cbn zeta in E. destruct (_ && _); [|by injection E as <- <- <-].
  apply bind_ok in E as ([r1 w1] & Hi & E). apply bind_ok in E as (? & _ & E). injection E as <- <- <-.
  split; [by eapply rob_insert|].
  apply insertInst_inv in Hi as (d1 & d' & n & b & hd & tl & _ & [_ ->] & _). split; [|done].
  intros t q Hq. cbn in Hq |- *. apply Hit in Hq as [Hq Hdn]. split; [|done]. destruct (decide (t = threadNumber d1)) as [->|Hne].
  - rewrite fn_lookup_insert. set_solver.
  - by rewrite fn_lookup_insert_ne.
Qed.

Lemma retire_inv (cyc : Z) (tid : nat) (r r' : ROB) (w w' : World IQ) :
  rob_inv fl (λ _, 0) r w → iters_ok r → squashIt r tid = None →
  retireHead fl cyc tid r w = Ok (r', w') →
  rob_inv fl (λ _, 0) r' w' ∧ iters_ok r' ∧ squashIt r' = squashIt r.
Proof.
  intros Hinv Hit Hsq E. split; [by eapply rob_retire|].
  destruct (retireHead_inv _ _ _ _ _ _ _ E (ri_regs _ _ _ _ Hinv)) as (p & l & d & hd & El & _ & _ & _ & _ & ->).
  split; [|done]. intros t q Hq. cbn in Hq |- *. destruct (decide (t = tid)) as [->|Hne]; [congruence|].
  rewrite fn_lookup_insert_ne by done. by apply Hit.
Qed.

Lemma continue_inv (cyc : Z) (tid : nat) (c c' : Commit) (r r' : ROB) (w w' : World IQ) :
  rob_inv fl (λ _, 0) r w → iters_ok r → continueSquash fl cyc tid c r w = Ok (c', r', w') →
  rob_inv fl (λ _, 0) r' w' ∧ iters_ok r'
  ∧ (commitStatus c' = commitStatus c ∧ (∀ t, is_Some (squashIt r' t) → is_Some (squashIt r t))
     ∨ r' = r ∧ squashIt r tid = None ∧ ∀ t, t ≠ tid → commitStatus c' t = commitStatus c t).
Proof.
  intros Hinv Hit E. unfold continueSquash in E. destruct (bool_decide _); [|injection E as <- <- <-; by auto].
  destruct (isDoneSquashing tid r) eqn:Hdone.
  { injection E as <- <- <-. split_and!; [done..|right]. split_and!; [done| |intros t Ht; cbn; by rewrite fn_lookup_insert_ne].
    destruct (squashIt r tid) eqn:Es; [|done]. apply Hit in Es as [_ Es]. unfold isDoneSquashing in Hdone. congruence. }
  apply bind_ok in E as ([r1 w1] & Hs & E). injection E as <- <- <-.
  split; [by eapply rob_doSquash; [| |intros p Hp; apply Hit, Hp|]|].
  pose proof Hs as (? & Hsome%assert_ok & _)%bind_ok. apply bool_decide_eq_true in Hsome.
  apply doSquash_iter in Hs as (El & Hother & Htid & _ & Hdn). split.
  - intros t q Hq. rewrite El, Hdn by (by rewrite Hq). destruct (decide (t = tid)) as [->|Hne]; [split; [by apply Htid|done]|].
    rewrite Hother in Hq by done. by apply Hit.
  - left. split; [done|]. intros t Ht. destruct (decide (t = tid)) as [->|Hne]; [done|]. by rewrite Hother in Ht.
Qed.

Lemma squash_status (tid : nat) (c c' : Commit) (r r' : ROB) :
  (∀ t, is_Some (squashIt r t) → squashing (commitStatus c t) = true) →
  c' = c ∧ r' = r ∨ commitStatus c' = <[tid := CROBSquashing]> (commitStatus c) ∧ (∀ t, t ≠ tid → squashIt r' t = squashIt r t) →
  ∀ t, is_Some (squashIt r' t) → squashing (commitStatus c' t) = true.
Proof.
  intros Hst [[-> ->]|[-> Hr]] t Ht; [by apply Hst|]. destruct (decide (t = tid)) as [->|Hne]; [by rewrite fn_lookup_insert|].
  rewrite Hr in Ht by done. rewrite fn_lookup_insert_ne by done. by apply Hst.
Qed.

(** A thread whose status lets it commit has no squash under way. *)
Lemma may_commit_settled s (tid : nat) :
  sys_inv s → may_commit (commitStatus (s_commit s) tid) = true → squashIt (s_rob s) tid = None.
Proof.
  intros [_ _ _ Hst] Hm. destruct (squashIt (s_rob s) tid) eqn:E; [|done]. specialize (Hst tid ltac:(by rewrite E)).
  by destruct (commitStatus (s_commit s) tid).
Qed.

Lemma step_inv s s' : step s s' → sys_inv s → sys_inv s'.
Proof.
  intros Hstep Hsys. pose proof Hsys as [Hinv Hit Hnd Hst].
  destruct Hstep as [cyc executed toWB s s' Hex Hwb E|s|cyc m tid s c r w Hm E
    |cyc tid s c r w E|cyc tid s c r w E|cyc age p d s c r w Hfr E|cyc tid s r w Hmay E
    |sb x s E|w t s Hrel Es|p d s Hp|c s Hk].
  - by eapply iewTick_inv.
  - by split.
  - apply rob_squashFromIEW in E as (? & ? & ?); try done. split; [done..|]. by eapply squash_status.
  - apply rob_squashPending in E as (? & ? & ?); try done. split; [done..|]. by eapply squash_status.
  - apply continue_inv in E as (? & ? & [[Ec Hs]|(Er & Hs & Ec)]); try done; (split; [done..|]); cbn; intros t Ht.
    + rewrite Ec. by apply Hst, Hs.
    + rewrite Er in Ht. rewrite Ec; [by apply Hst|]. intros ->. rewrite Hs in Ht. by destruct Ht.
  - eapply get_inv in E as (? & ? & Es & Ec); try done. split; [done..|]. cbn. by rewrite Es, Ec.
  - apply retire_inv in E as (? & ? & Es); try done; [|by apply may_commit_settled]. split; [done..|]. cbn. by rewrite Es.
  - split; cbn; [by eapply unset_inv|done..].
  - split; cbn; [by eapply other_inv|done..].
  - split; cbn; [by apply fetch_inv|done..].
  - split; [done..|]. cbn. intros t Ht. by apply Hk, Hst.
Qed.

Lemma reachable_inv s : reachable s → sys_inv s.
Proof. induction 1; [by apply initial_inv|by eapply step_inv]. Qed.
End nda.

(** ** Guarantees *)
Section guarantees.
Context (fl : DebugFlags) (advancePC : StaticInst → PCState → PCState).
Abbreviation reach := (reachable fl advancePC).
Implicit Types (s : Sys).

Lemma behind_branch_protected s (tid : nat) (older younger : list InstPtr) (b q : InstPtr) (db : DynInst) :
  reach s → instList (s_rob s) tid = older ++ b :: younger →
  w_heap (s_world s) !! b = Some db → maySquashOthers db = true → q ∈ younger →
  protected fl (w_heap (s_world s)) q = true.
Proof.
  intros Hr El Hb Hm Hq. destruct (si_rob _ _ (reachable_inv _ _ s Hr)) as [Hth _ _ _ _].
  eapply (proj1 (guarded_spec _ _ _) (th_guarded _ _ _ _ _ _ _ (Hth tid))); [exact El| |exact Hq].
  by rewrite (st_at_lookup _ _ _ _ Hb).
Qed.

(** C1: the NDA guarantee.  In every reachable state of the pipeline, a load (or any
    instruction, unless non-loads are exempt) that sits in the reorder buffer behind
    a branch that may still squash it, and that is neither squashed nor running
    ahead, has not been made visible: none of its destination registers is marked
    ready in the scoreboard, so no younger instruction can read its result.  In the
    secure-memory mode, where execution makes safe what touches no secret, this holds of
    the instructions that are still unsafe. *)
Theorem speculative_result_hidden s (tid : nat) (older younger : list InstPtr) (b q : InstPtr)
    (db d : DynInst) (x : PhysRegId) :
  reach s →
  instList (s_rob s) tid = older ++ b :: younger →
  w_heap (s_world s) !! b = Some db → maySquashOthers db = true →
  q ∈ younger → w_heap (s_world s) !! q = Some d →
  (if SS_DefendMemRegion fl then isUnsafe d = true
   else isLoad d = true ∨ CD_Allow_NonLoads_AfterBranch fl = false) →
  isControl d = false → isSquashed d = false → isRunahead d = false →
  x ∈ renamedDests d → tracked x →
  ready_bit (w_sb (s_world s)) x ≠ Some true.
Proof.
  intros Hr El Hb Hm Hq Hd Hl Hc Hs Hra Hx Ht.
  destruct (si_rob _ _ (reachable_inv _ _ s Hr)) as [Hth [Hh _ _ _] _ _ _].
  pose proof (behind_branch_protected s tid older younger b q db Hr El Hb Hm Hq) as Hp.
  apply (Hh q d x); [exists tid; rewrite El; set_solver|done| |done|done].
  unfold protected in Hp. rewrite Hd in Hp. unfold concealed. rewrite Hs, Hra, Hc, !andb_true_r.
  destruct (SS_DefendMemRegion fl); [done|]. rewrite orb_false_r in Hp.
  apply orb_true_iff in Hp as [Hu|He]; [done|]. unfold exempt in He.
  apply andb_true_iff in He as [He1 He2]. destruct Hl as [Hl|Hl]; [by rewrite Hl in He2|congruence].
Qed.

(** unsafe marking.  In every reachable state each instruction behind a branch
    that may still squash it carries the [Unsafe] flag, or is a non-load under the
    option that exempts non-loads, or the secure-memory mode is on. *)
Theorem behind_branch_unsafe s (tid : nat) (older younger : list InstPtr) (b q : InstPtr) (db d : DynInst) :
  reach s →
  instList (s_rob s) tid = older ++ b :: younger →
  w_heap (s_world s) !! b = Some db → maySquashOthers db = true →
  q ∈ younger → w_heap (s_world s) !! q = Some d →
  isUnsafe d = true ∨ (CD_Allow_NonLoads_AfterBranch fl = true ∧ isLoad d = false) ∨ SS_DefendMemRegion fl = true.
Proof.
  intros Hr El Hb Hm Hq Hd. pose proof (behind_branch_protected s tid older younger b q db Hr El Hb Hm Hq) as Hp.
  unfold protected, exempt in Hp. rewrite Hd in Hp.
  apply orb_true_iff in Hp as [[Hu|[He1 He2%negb_true_iff]%andb_true_iff]%orb_true_iff|Hp]; auto.
Qed.

(** C2: the branch counter is exact.  Between cycles [numInstThatMayCauseSquash[tid]]
    is the number of instructions of the thread's list that carry the
    [MaySquashOthers] flag; in particular it is never negative, and it is zero
    exactly when no unresolved branch is in flight. *)
Theorem branch_counter_exact s (tid : nat) :
  reach s →
  numInstThatMayCauseSquash (s_rob s) tid
  = Z.of_nat (countb (st_at MaySquashOthers (w_heap (s_world s))) (instList (s_rob s) tid)).
Proof.
  intros Hr. destruct (si_rob _ _ (reachable_inv _ _ s Hr)) as [Hth _ _ _ _].
  rewrite (th_count _ _ _ _ _ _ _ (Hth tid)). lia.
Qed.


(** the panic in [leaveRunaheadMode] is unreachable from the places that call
    it: whenever an instruction of the thread's list is an initiator, leaving the
    mode succeeds and turns it off. *)
Theorem leave_runahead_ok s (tid : nat) (p : InstPtr) (d : DynInst) :
  reach s →
  p ∈ instList (s_rob s) tid → w_heap (s_world s) !! p = Some d →
  isRunahead d = true → maySquashOthers d = true →
  ∃ r', leaveRunaheadMode tid (s_rob s) = Ok r' ∧ isInRunahead tid r' = false.
Proof.
  intros Hr Hp Hd Hra Hm. destruct (si_rob _ _ (reachable_inv _ _ s Hr)) as [Hth _ _ _ _].
  pose proof (thread_ok_initiator _ _ _ _ _ _ _ _ _ (Hth tid) Hp Hd) as Hc. unfold leaveRunaheadMode.
  unfold init_inst in Hc. rewrite Hm, Hra in Hc. rewrite Hc by done.
  eexists. split; [done|]. cbn. by rewrite fn_lookup_insert.
Qed.

(** occupancy.  [threadEntries] and [numInstsInROB] are the lengths of the
    instruction lists, and the lists are sorted by age without repetition. *)
Theorem rob_occupancy_exact s (tid : nat) :
  reach s →
  threadEntries (s_rob s) tid = Z.of_nat (length (instList (s_rob s) tid))
  ∧ numInstsInROB (s_rob s) = countInsts (s_rob s)
  ∧ seq_sorted (w_heap (s_world s)) (instList (s_rob s) tid) ∧ NoDup (instList (s_rob s) tid).
Proof.
  intros Hr. destruct (si_rob _ _ (reachable_inv _ _ s Hr)) as [Hth _ He Ht _].
  pose proof (th_sorted _ _ _ _ _ _ _ (Hth tid)) as Hs.
  split; [apply He|]. split; [done|]. split; [done|]. by eapply seq_sorted_NoDup.
Qed.
End guarantees.
