(* ===== verification/CommitArch.v ===== *)
(** * Commit: instructions, traps, interrupts and the cycle

    The rest of [src/cpu/o3/commit_impl.hh]: [commitHead] and [commitInsts], which retire
    instructions from the head of the reorder buffer, take faults and talk to the IQ about
    non-speculative instructions; interrupts; draining; the choice of a thread; and
    [commit] and [tick], which put these and the squashes of [Commit.v] together.

    [Commit] of [Commit.v] is the part of the object that squashes write; [CArch] adds the
    rest.  Of [toIEW->commitInfo[tid]], [CommitInfo] holds what squashes write and
    [ArchInfo] the rest.  The checker CPU is not configured; probes, traces and statistics
    are left out, except the counts of committed instructions.  The values of registers
    ([updateMiscRegs], the body of a trap) are not part of this model. *)

From S2P Require Import Prelude Regs DynInst Scoreboard IQInterface FreeList RenameMap RenameCommit ROB IEW Commit.
Local Open Scope Z_scope.

Inductive CommitHeadError :=
| CommitSuccess
| SquashingBranchMispredict
| SquashingMemoryViolation
| SquashingRunahead
| RetiringSquashes
| GeneralStall
| LoadStall
| StoreStall
| LoadOrder
| StoreOrder
| ROBEmpty
| MemBarrier
| WriteBarrier
| InstructionFault
| NoThreadReady.
#[export] Instance CommitHeadError_eq_dec : EqDecision CommitHeadError.
Proof. solve_decision. Defined.

Inductive CommitStatus :=
| Active
| Inactive.
#[export] Instance CommitStatus_eq_dec : EqDecision CommitStatus.
Proof. solve_decision. Defined.

Inductive CommitPolicy :=
| Aggressive
| RoundRobin
| OldestReady.

(** [commitComm], less the fields of [CommitInfo]. *)
Record ArchInfo := MkArchInfo {
  strictlyOrderedLoad : option InstPtr;
  nonSpecSeqNum : Z;
  freeROBEntries : Z;
  usedROB : bool;
  emptyROB : bool;
  interruptPending : bool;
  clearInterrupt : bool;
  ai_strictlyOrdered : bool;
}.
#[export] Instance ArchInfo_eta : Updatable ArchInfo := λ r, MkArchInfo (strictlyOrderedLoad r)
  (nonSpecSeqNum r) (freeROBEntries r) (usedROB r) (emptyROB r) (interruptPending r)
  (clearInterrupt r) (ai_strictlyOrdered r).

Record CArch := MkCArch {
  a_commit : Commit;
  a_info : nat → ArchInfo;
  commitWidth : Z;
  commitPolicy : CommitPolicy;
  priority_list : list nat;
  c_status : CommitStatus;  (* _status *)
  c_nextStatus : CommitStatus;  (* _nextStatus *)
  latestSquashReason : CommitHeadError;
  interrupt : Fault;
  canHandleInterrupts : bool;
  avoidQuiesceLiveLock : bool;
  drainPending : bool;
  drainImminent : bool;
  wroteToTimeBuffer : bool;
  committedStores : nat → bool;
  checkEmptyROB : nat → bool;
  commitMap : nat → UnifiedRenameMap;  (* *renameMap[tid] *)
  funcExeInst : nat → Z;  (* thread[tid]->funcExeInst *)
  instsCommitted : nat → Z;
  opsCommitted : nat → Z;
  trapEvents : list (nat * Z);  (* the trap events scheduled, with their latency *)
  drainStalls : list nat;  (* the threads fetch was told to stall, by commitDrained *)
}.
#[export] Instance CArch_eta : Updatable CArch := λ r, MkCArch (a_commit r) (a_info r) (commitWidth r)
  (commitPolicy r) (priority_list r) (c_status r) (c_nextStatus r) (latestSquashReason r) (interrupt r)
  (canHandleInterrupts r) (avoidQuiesceLiveLock r) (drainPending r) (drainImminent r)
  (wroteToTimeBuffer r) (committedStores r) (checkEmptyROB r) (commitMap r) (funcExeInst r)
  (instsCommitted r) (opsCommitted r) (trapEvents r) (drainStalls r).

(** What commit asks of the rest of the system in one cycle.  The interrupt controller is read
    several times in a cycle; the argument is the number of instructions committed so far. *)
Record CommitEnv := MkCommitEnv {
  FullSystem : bool;
  checkInterrupts : Z → bool;  (* cpu->checkInterrupts(cpu->tcBase(0)) *)
  getInterrupts : Z → Fault;  (* cpu->getInterrupts() *)
  invoke : Fault → nat → option StaticInst → PCState → PCState;  (* the pc a trap leaves *)
  isSyscallRetryFault : Fault → bool;
  syscallRetryLatency : Z;
  trapLatency : Z;
  pcEvent : nat → PCState → option PCState;  (* the pc the handlers of pcEventQueue write *)
  pcFuel : nat;  (* bound on the pc events in a row *)
  advancePC : StaticInst → PCState → PCState;  (* TheISA::advancePC *)
  hasStoresToWB : nat → bool;  (* iewStage->hasStoresToWB *)
  instListEmpty : bool;  (* cpu->instList.empty() *)
  regFile : PhysRegFile;
}.

(** ** Small operations *)
Definition on_commit (f : Commit → Commit) (a : CArch) : CArch := a <| a_commit ::= f |>.
Definition on_arch (tid : nat) (f : ArchInfo → ArchInfo) (a : CArch) : CArch :=
  a <| a_info ::= <[tid := f (a_info a tid)]> |>.

(** The constructor, with the policy string decoded; [maxWidth] is [Impl::MaxWidth], and [a]
    the unconstructed object. *)
Definition DefaultCommit_new (maxWidth : Z) (policy : CommitPolicy) (rWidth cWidth : Z) (n : nat) (a : CArch) : res CArch :=
  _ ← panic_if (maxWidth <? cWidth);
  let a := a <| commitWidth := cWidth |> <| drainPending := false |> <| drainImminent := false |>
             <| canHandleInterrupts := true |> <| avoidQuiesceLiveLock := false |>
             <| c_status := Active |> <| c_nextStatus := Inactive |> <| commitPolicy := policy |>
             <| priority_list := match policy with RoundRobin => thread_ids n | _ => [] end |>
             <| checkEmptyROB ::= fill n (λ _, false) |> <| committedStores ::= fill n (λ _, false) |>
             <| interrupt := NoFault |> <| latestSquashReason := CommitSuccess |> in
  Ok (on_commit (λ c, c <| renameWidth := rWidth |> <| commitStatus ::= fill n (λ _, CIdle) |>
        <| changedROBNumEntries ::= fill n (λ _, false) |> <| trapInFlight ::= fill n (λ _, false) |>
        <| trapSquash ::= fill n (λ _, false) |> <| tcSquash ::= fill n (λ _, false) |>
        <| c_pc ::= fill n (λ _, pc_set 0) |> <| lastCommitedSeqNum ::= fill n (λ _, 0) |>
        <| squashAfterInst ::= fill n (λ _, None) |>) a).
Definition changedROBEntries (a : CArch) (r : ROB) : bool :=
  existsb (changedROBNumEntries (a_commit a)) (activeThreads r).
Definition numROBFreeEntries (tid : nat) (r : ROB) : Z := numFreeEntries_tid tid r.

Definition drain (a : CArch) : CArch := a <| drainPending := true |>.
Definition drainResume (a : CArch) : CArch := a <| drainPending := false |> <| drainImminent := false |>.
Definition isDrained (a : CArch) (r : ROB) : bool :=
  forallb (λ tid, upc_ (c_pc (a_commit a) tid) =? 0) (thread_ids (numThreads r))
  && isEmpty r && bool_decide (interrupt a = NoFault).
Definition commit_drainSanityCheck (a : CArch) (r : ROB) : res unit :=
  _ ← assert (isDrained a r); drainSanityCheck r.
Definition commit_takeOverFrom (a : CArch) (r : ROB) : CArch * ROB :=
  let n := numThreads r in
  (on_commit (λ c, c <| commitStatus ::= fill n (λ _, CIdle) |> <| changedROBNumEntries ::= fill n (λ _, false) |>
                     <| trapSquash ::= fill n (λ _, false) |> <| tcSquash ::= fill n (λ _, false) |>
                     <| squashAfterInst ::= fill n (λ _, None) |>)
     (a <| c_status := Active |> <| c_nextStatus := Inactive |>), takeOverFrom r).
(** Erases the first occurrence. *)
Fixpoint remove_first (tid : nat) (l : list nat) : list nat :=
  match l with
  | [] => []
  | t :: l' => if decide (t = tid) then l' else t :: remove_first tid l'
  end.
Definition deactivateThread (tid : nat) (a : CArch) : CArch := a <| priority_list ::= remove_first tid |>.
Definition startupStage (a : CArch) (r : ROB) : CArch * ROB :=
  let r := resetEntries r in
  (foldl (λ a tid, on_arch tid (λ i, i <| usedROB := true |> <| freeROBEntries := numFreeEntries_tid tid r |>
                                       <| emptyROB := true |>) a) a (thread_ids (numThreads r)), r).

Definition processTrapEvent (tid : nat) : CArch → CArch :=
  on_commit (λ c, c <| trapSquash ::= <[tid := true]> |>).
Definition generateTCEvent (tid : nat) (c : Commit) : res Commit :=
  _ ← assert (negb (trapInFlight c tid));
  Ok (c <| tcSquash ::= <[tid := true]> |>).
(** [FullO3CPU::squashFromTC]. *)
Definition cpu_squashFromTC (tid : nat) (c : Commit) : res Commit :=
  generateTCEvent tid (c <| noSquashFromTC ::= <[tid := true]> |>).
(** [O3ThreadContext::pcState(val)], with its [conditionalSquash]. *)
Definition tc_pcState (tid : nat) (val : PCState) (c : Commit) : res Commit :=
  let c := c <| c_pc ::= <[tid := val]> |> in
  if negb (trapPending c tid) && negb (noSquashFromTC c tid) then cpu_squashFromTC tid c else Ok c.

(** ** Choosing a thread *)
(** Erases the [i]-th element and appends it. *)
Fixpoint roundRobin_loop (h : heap) (a : CArch) (r : ROB) (seen l : list nat) : res (option nat * list nat) :=
  match l with
  | [] => Ok (None, seen)
  | tid :: l' =>
      ready ← (if may_commit (commitStatus (a_commit a) tid) then isHeadReady tid h r else Ok false);
      if (ready : bool) then Ok (Some tid, seen ++ l' ++ [tid])
      else roundRobin_loop h a r (seen ++ [tid]) l'
  end.
Definition roundRobin (h : heap) (a : CArch) (r : ROB) : res (option nat * CArch) :=
  '(o, l) ← roundRobin_loop h a r [] (priority_list a);
  Ok (o, a <| priority_list := l |>).

(** [oldest] is a thread id ([None] while [first]); it is compared with a sequence number. *)
Definition oldestReady_step (h : heap) (a : CArch) (r : ROB) (oldest : option nat) (tid : nat) : res (option nat) :=
  if negb (isEmpty_tid tid r) && may_commit (commitStatus (a_commit a) tid) then
    ready ← isHeadReady tid h r;
    if (ready : bool) then
      o ← readHeadInst tid h r;
      p ← deref o;
      d ← deref (h !! p);
      match oldest with
      | None => Ok (Some tid)
      | Some t => if seqNum d <? Z.of_nat t then Ok (Some tid) else Ok (Some t)
      end
    else Ok oldest
  else Ok oldest.
Definition oldestReady (h : heap) (a : CArch) (r : ROB) : res (option nat) :=
  mfold (oldestReady_step h a r) None (activeThreads r).

(** [None] is [InvalidThreadID]. *)
Definition getCommittingThread (h : heap) (a : CArch) (r : ROB) : res (option nat * CArch) :=
  if (1 <? numThreads r)%nat then
    match commitPolicy a with
    | Aggressive | OldestReady => o ← oldestReady h a r; Ok (o, a)
    | RoundRobin => roundRobin h a r
    end
  else
    _ ← assert (bool_decide (activeThreads r ≠ []));
    tid ← deref (hd_error (activeThreads r));
    Ok (if may_commit (commitStatus (a_commit a) tid) then Some tid else None, a).

Section with_env.
Context {Q : Type} `{InstQueue Q} (fl : DebugFlags) (curCycle : Z) (e : CommitEnv).
Implicit Types (w : World Q) (r : ROB) (a : CArch) (c : Commit).

(** ** Traps and interrupts *)
Definition generateTrapEvent (tid : nat) (inst_fault : Fault) a : CArch :=
  let latency := if isSyscallRetryFault e inst_fault then syscallRetryLatency e else trapLatency e in
  on_commit (λ c, c <| trapInFlight ::= <[tid := true]> |> <| trapPending ::= <[tid := true]> |>)
    (a <| trapEvents ::= λ l, l ++ [(tid, latency)] |>).

(** [cpu->trap], run with [noSquashFromTC] set so that its writes do not squash. *)
Definition execTrap (flt : Fault) (tid : nat) (si : option StaticInst) a : CArch :=
  on_commit (λ c, c <| c_pc ::= <[tid := invoke e flt tid si (c_pc c tid)]> |>
                    <| noSquashFromTC ::= <[tid := false]> |>
                    <| commitStatus ::= <[tid := TrapPending]> |>) a.

(** [n] instructions were committed so far in this cycle. *)
Definition handleInterrupt (n : Z) a : res CArch :=
  if negb (checkInterrupts e n) then
    Ok (on_arch 0 (λ i, i <| clearInterrupt := true |>)
          (a <| interrupt := NoFault |> <| avoidQuiesceLiveLock := true |>))
  else if canHandleInterrupts a && instListEmpty e then
    let a := on_arch 0 (λ i, i <| clearInterrupt := true |>) a in
    _ ← assert (negb (noSquashFromTC (a_commit a) 0));
    _ ← assert (bool_decide (getInterrupts e n ≠ NoFault));
    let a := execTrap (getInterrupts e n) 0 None a in
    let a := a <| interrupt := NoFault |> in
    Ok (generateTrapEvent 0 (interrupt a) a <| avoidQuiesceLiveLock := false |>)
  else Ok a.

Definition propagateInterrupt a : CArch :=
  let c := a_commit a in
  if bool_decide (commitStatus c 0 = TrapPending) || bool_decide (interrupt a ≠ NoFault) || trapSquash c 0
     || tcSquash c 0 || drainImminent a
  then a
  else
    let a := a <| interrupt := getInterrupts e 0 |> in
    if bool_decide (interrupt a ≠ NoFault) then on_arch 0 (λ i, i <| interruptPending := true |>) a else a.

(** ** Committing one instruction *)
Definition updateComInstStats (tid : nat) (d : DynInst) a : CArch :=
  let a := if negb (isMicroop d) || isLastMicroop d
           then a <| instsCommitted ::= <[tid := instsCommitted a tid + 1]> |> else a in
  a <| opsCommitted ::= <[tid := opsCommitted a tid + 1]> |>.

(** The head is not executed yet: tell the IQ that it may be, once the older stores are
    written back. *)
Definition commitUnexecuted (p : InstPtr) (d : DynInst) (inst_num : Z) a w : res (CommitHeadError * CArch * World Q) :=
  let tid := threadNumber d in
  let a := a <| funcExeInst ::= <[tid := funcExeInst a tid - 1]> |> in
  _ ← assert (isNonSpeculative d || isStoreConditional d || isMemBarrier d || isWriteBarrier d
              || (isLoad d && strictlyOrdered d));
  if (0 <? inst_num) || hasStoresToWB e tid then Ok (StoreOrder, a, w)
  else
    let a := on_arch tid (λ i, i <| nonSpecSeqNum := seqNum d |>) a in
    let w := on_inst p clearCanCommit w in
    let '(commitResult, a) :=
      if isLoad d && strictlyOrdered d then
        (LoadOrder, on_arch tid (λ i, i <| ai_strictlyOrdered := true |> <| strictlyOrderedLoad := Some p |>) a)
      else (if isLoad d then LoadStall else if isStore d then StoreStall else GeneralStall, a) in
    _ ← assert (bool_decide (commitResult ≠ CommitSuccess));
    Ok (commitResult, a, w).

(** The head has a fault: trap, once the older stores are written back. *)
Definition commitFault (p : InstPtr) (d : DynInst) (inst_num : Z) a w : res (CommitHeadError * CArch * World Q) :=
  let tid := threadNumber d in
  if hasStoresToWB e tid || (0 <? inst_num) then Ok (StoreOrder, a, w)
  else
    let w := on_inst p setCompleted w in
    _ ← assert (negb (noSquashFromTC (a_commit a) tid));
    let a := execTrap (fault d) tid (if notAnInst d then None else Some (staticInst d)) a in
    Ok (InstructionFault, generateTrapEvent tid (fault d) a, w).

Definition commitHead (p : InstPtr) (inst_num : Z) a r w : res (CommitHeadError * CArch * ROB * World Q) :=
  d ← deref (w_heap w !! p);
  let tid := threadNumber d in
  if negb (isExecuted d) then
    '(s, a, w) ← commitUnexecuted p d inst_num a w; Ok (s, a, r, w)
  else
    _ ← panic_if (isThreadSync d);
    let w := if negb (isStore d) && bool_decide (fault d = NoFault) then on_inst p setCompleted w else w in
    if bool_decide (fault d ≠ NoFault) then
      '(s, a, w) ← commitFault p d inst_num a w; Ok (s, a, r, w)
    else
      let a := updateComInstStats tid d a in
      m ← commitRename (regFile e) d (commitMap a tid);
      let a := a <| commitMap ::= <[tid := m]> |> in
      '(r, w) ← retireHead fl curCycle tid r w;
      let a := if isStore d then a <| committedStores ::= <[tid := true]> |> else a in
      Ok (CommitSuccess, a, r, w).

(** ** After a successful commit *)
(** The loop over the pc events: the number of times the queue was serviced. *)
Fixpoint servicePC (fuel : nat) (tid : nat) (count : Z) c : res (Z * Commit) :=
  match fuel with
  | O => Err OutOfFuel
  | S fuel =>
      let oldpc := instAddr (c_pc c tid) in
      c ← (match pcEvent e tid (c_pc c tid) with
           | Some pc => tc_pcState tid pc c
           | None => Ok c
           end);
      if oldpc =? instAddr (c_pc c tid) then Ok (count + 1, c) else servicePC fuel tid (count + 1) c
  end.

Definition onInstBoundary (d : DynInst) : bool := negb (isMicroop d) || isLastMicroop d || negb (isDelayedCommit d).

Definition commitDrain (tid : nat) (p : InstPtr) a : res CArch :=
  let c := a_commit a in
  if drainPending a && (upc_ (c_pc c tid) =? 0) && bool_decide (interrupt a = NoFault)
     && negb (trapPending c tid)
  then
    c ← squashAfter tid p c;
    Ok (a <| a_commit := c |> <| drainStalls ::= λ l, l ++ [tid] |> <| drainImminent := true |>)
  else Ok a.

(** The rest of the iteration of [commitInsts]; [n] counts this instruction.  Returns whether
    the loop stops here. *)
Definition afterCommit (tid : nat) (p : InstPtr) (d : DynInst) (n : Z) a : res (bool * CArch) :=
  let a := on_commit (λ c, on_info tid (λ i, i <| ci_doneSeqNum := seqNum d |>)
                             (c <| changedROBNumEntries ::= <[tid := true]> |>)) a in
  let a := if (tid =? 0)%nat then a <| canHandleInterrupts := negb (isDelayedCommit d) |> else a in
  _ ← assert (negb (isStoreConditional d) || isCompleted d || negb (readPredicate d));
  let a := on_commit (λ c, c <| c_pc ::= <[tid := advancePC e (staticInst d) (c_pc c tid)]> |>
                             <| lastCommitedSeqNum ::= <[tid := seqNum d]> |>) a in
  c ← (if isSquashAfter d then squashAfter tid p (a_commit a) else Ok (a_commit a));
  a ← commitDrain tid p (a <| a_commit := c |>);
  '(stop, a) ← (if onInstBoundary d then
                  _ ← assert (negb (noSquashFromTC (a_commit a) tid) && negb (trapPending (a_commit a) tid));
                  '(count, c) ← servicePC (pcFuel e) tid 0 (a_commit a);
                  Ok (1 <? count, a <| a_commit := c |>)
                else Ok (false, a));
  if (stop : bool) then Ok (true, a)
  else
    c ← (if bool_decide (interrupt a = NoFault) && avoidQuiesceLiveLock a && onInstBoundary d && checkInterrupts e n
         then squashAfter tid p (a_commit a) else Ok (a_commit a));
    Ok (false, a <| a_commit := c |>).

(** ** Committing a cycle's instructions *)
(** Why a head that is not ready stalls. *)
Definition stallReason (d : DynInst) : CommitHeadError :=
  if isLoad d then LoadStall
  else if isStore d then StoreStall
  else if isMemBarrier d then MemBarrier
  else if isWriteBarrier d then WriteBarrier
  else GeneralStall.

(** What one iteration decides: leave the loop, or go on. *)
Inductive Iter :=
| Leave
| Again.

(** One iteration of [commitInsts], with [num_committed] and [commit_status]. *)
Definition commitOne (n : Z) a r w : res (Iter * Z * CommitHeadError * CArch * ROB * World Q) :=
  a ← (if bool_decide (interrupt a ≠ NoFault) then handleInterrupt n a else Ok a);
  '(o, a) ← getCommittingThread (w_heap w) a r;
  match o with
  | None => Ok (Leave, n, NoThreadReady, a, r, w)
  | Some commit_thread =>
      if threadEntries r commit_thread =? 0 then Ok (Leave, n, ROBEmpty, a, r, w)
      else
        head_inst ← readHeadInst commit_thread (w_heap w) r;
        p ← deref head_inst;
        d ← deref (w_heap w !! p);
        if negb (readyToCommit d) then Ok (Leave, n, stallReason d, a, r, w)
        else
          let tid := threadNumber d in
          _ ← assert (bool_decide (tid = commit_thread));
          if isSquashed d then
            '(r, w) ← retireHead fl curCycle commit_thread r w;
            Ok (Again, n, RetiringSquashes,
                on_commit (λ c, c <| changedROBNumEntries ::= <[tid := true]> |>) a, r, w)
          else
            let a := on_commit (λ c, c <| c_pc ::= <[tid := pc d]> |>)
                       (a <| funcExeInst ::= <[tid := funcExeInst a tid + 1]> |>) in
            '(s, a, r, w) ← commitHead p n a r w;
            if bool_decide (s = CommitSuccess) then
              d ← deref (w_heap w !! p);
              '(stop, a) ← afterCommit tid p d (n + 1) a;
              Ok (if (stop : bool) then Leave else Again, n + 1, s, a, r, w)
            else Ok (Leave, n, s, a, r, w)
  end.

Fixpoint commitLoop (fuel : nat) (n : Z) (s : CommitHeadError) a r w : res (Z * CommitHeadError * CArch * ROB * World Q) :=
  if n <? commitWidth a then
    match fuel with
    | O => Err OutOfFuel
    | S fuel =>
        '(k, n, s, a, r, w) ← commitOne n a r w;
        match k with
        | Leave => Ok (n, s, a, r, w)
        | Again => commitLoop fuel n s a r w
        end
    end
  else Ok (n, s, a, r, w).

(** Every iteration that goes on retires an instruction. *)
Definition commitInsts a r w : res (Z * CommitHeadError * CArch * ROB * World Q) :=
  '(n, s, a, r, w) ← commitLoop (S (Z.to_nat (numInstsInROB r))) 0 CommitSuccess a r w;
  _ ← assert ((0 <? n) || bool_decide (s ≠ CommitSuccess));
  Ok (n, s, a, r, w).

(** ** The cycle *)
(** The reason of a squash requested by IEW, before the squash is carried out. *)
Definition squashReason (m : CommitMsg) (tid : nat) (h : heap) a : res CommitHeadError :=
  let c := a_commit a in
  if cm_squash m tid && bool_decide (commitStatus c tid ≠ TrapPending)
     && (cm_squashedSeqNum m tid <=? youngestSeqNum c tid)
  then
    match cm_mispredictInst m tid with
    | Some p =>
        d ← deref (h !! p);
        Ok (if isRunahead d && maySquashOthers d then SquashingRunahead else SquashingBranchMispredict)
    | None => Ok SquashingMemoryViolation
    end
  else Ok (latestSquashReason a).

(** The squashes of one thread, and whether it is squashing. *)
Definition commitThread (m : CommitMsg) (st : Z * CArch * ROB * World Q) (tid : nat) : res (Z * CArch * ROB * World Q) :=
  let '(k, a, r, w) := st in
  '(c, r, w) ← squashPending fl curCycle tid (a_commit a) r w;
  let a := a <| a_commit := c |> in
  reason ← squashReason m tid (w_heap w) a;
  '(c, r, w) ← squashFromIEW fl curCycle m tid c r w;
  let a := a <| a_commit := c |> <| latestSquashReason := reason |> in
  Ok (if bool_decide (commitStatus c tid = CROBSquashing) then k + 1 else k, a, r, w).

(** "Check for any activity": the signals to rename about the reorder buffer. *)
Definition broadcastROB r a (tid : nat) : CArch :=
  let free := λ i, i <| usedROB := true |> <| freeROBEntries := numFreeEntries_tid tid r |> in
  let a := if changedROBNumEntries (a_commit a) tid then
             let a := on_arch tid free a in
             let a := on_commit (λ c, c <| changedROBNumEntries ::= <[tid := false]> |>)
                        (a <| wroteToTimeBuffer := true |>) in
             if isEmpty_tid tid r then a <| checkEmptyROB ::= <[tid := true]> |> else a
           else a in
  if checkEmptyROB a tid && isEmpty_tid tid r && negb (hasStoresToWB e tid) && negb (committedStores a tid)
  then on_arch tid (λ i, free i <| emptyROB := true |>)
         (a <| checkEmptyROB ::= <[tid := false]> |> <| wroteToTimeBuffer := true |>)
  else a.

Definition commit (m : CommitMsg) (eldestAge : nat → Z) (fromRename : list InstPtr) a r w : res (CArch * ROB * World Q) :=
  let a := if FullSystem e && checkInterrupts e 0 then propagateInterrupt a else a in
  '(k, a, r, w) ← mfold (commitThread m) (0, a, r, w) (activeThreads r);
  let a := if 0 <? k then a <| c_nextStatus := Active |> else a in
  '(a, r, w) ← (if negb (k =? Z.of_nat (numThreads r)) then
                  '(c, r, w) ← getInsts fl curCycle eldestAge fromRename (a_commit a) r w;
                  '(_, _, a, r, w) ← commitInsts (a <| a_commit := c |>) r w;
                  Ok (a, r, w)
                else Ok (a, r, w));
  Ok (foldl (broadcastROB r) a (activeThreads r), r, w).

(** The first loop of [tick]. *)
Definition tickSquash (st : CArch * ROB * World Q) (tid : nat) : res (CArch * ROB * World Q) :=
  let '(a, r, w) := st in
  let a := a <| committedStores ::= <[tid := false]> |> in
  let squashing := bool_decide (commitStatus (a_commit a) tid = CROBSquashing) in
  let a := if squashing then
             if isDoneSquashing tid r then a <| latestSquashReason := CommitSuccess |>
             else a <| wroteToTimeBuffer := true |>
           else a in
  '(c, r, w) ← continueSquash fl curCycle tid (a_commit a) r w;
  Ok (a <| a_commit := c |>, r, w).

(** Commit stays active while a head is ready. *)
Definition tickReady (h : heap) r a (tid : nat) : res CArch :=
  if negb (isEmpty_tid tid r) then
    o ← readHeadInst tid h r;
    p ← deref o;
    d ← deref (h !! p);
    Ok (if readyToCommit d then a <| c_nextStatus := Active |> else a)
  else Ok a.

(** [cpu->activateStage] and [deactivateStage] follow from the change of status. *)
Definition updateStatus r a : CArch :=
  let trapping := λ tid, bool_decide (commitStatus (a_commit a) tid = TrapPending)
                         || bool_decide (commitStatus (a_commit a) tid = FetchTrapPending) in
  let a := foldl (λ a tid, on_commit (λ c, c <| changedROBNumEntries ::= <[tid := false]> |>) a) a (activeThreads r) in
  let a := if existsb trapping (activeThreads r) then a <| c_nextStatus := Active |> else a in
  a <| c_status := c_nextStatus a |>.

Definition tick (m : CommitMsg) (eldestAge : nat → Z) (fromRename fromIEW : list InstPtr) a r w
    : res (CArch * ROB * World Q) :=
  let a := a <| wroteToTimeBuffer := false |> <| c_nextStatus := Inactive |> in
  if bool_decide (activeThreads r = []) then Ok (a, r, w)
  else
    '(a, r, w) ← mfold tickSquash (a, r, w) (activeThreads r);
    '(a, r, w) ← commit m eldestAge fromRename a r w;
    w ← markCompletedInsts fl fromIEW w;
    a ← mfold (tickReady (w_heap w) r) a (activeThreads r);
    Ok (updateStatus r a, r, w).
End with_env.
