(* ===== verification/CommitArchProps.v ===== *)
(** * What the commit stage guarantees

    A cycle of [commitInsts] retires a prefix of each thread's reorder buffer in program
    order, at most [commitWidth] instructions that were not squashed, each of them executed
    and without a fault; commit's rename map and the sequence numbers it reports are those
    of the instructions retired.  Faults and non-speculative instructions wait for the older
    stores and are taken alone.  The loop ends; it is a run of the system of [NDA.v]; what
    the stage tells rename about the reorder buffer is true; the stage does not deactivate
    while it has work.  The SMT policy "oldest ready" is shown to choose by position. *)

From S2P Require Import Prelude Regs DynInst Scoreboard IQInterface FreeList RenameMap RenameCommit ROB ROBInv ROBOps ROBSquash IEW Commit NDAOps StoreSet FUPool ReadyList MemDep IQ IQSched IQLaws IQSchedProps CommitArch NDA.
Local Open Scope Z_scope.

(** ** What most steps leave alone *)
Definition arch_same (a a' : CArch) : Prop :=
  commitWidth a' = commitWidth a ∧ commitMap a' = commitMap a
  ∧ lastCommitedSeqNum (a_commit a') = lastCommitedSeqNum (a_commit a)
  ∧ ∀ t, ci_doneSeqNum (commitInfo (a_commit a') t) = ci_doneSeqNum (commitInfo (a_commit a) t).

#[export] Instance arch_same_refl : Reflexive arch_same.
Proof. by intros a. Qed.
#[export] Instance arch_same_trans : Transitive arch_same.
Proof. intros a1 a2 a3 (?&?&?&E1) (?&?&?&E2). split_and!; [congruence..|]. intros t. by rewrite E2. Qed.

(** An operation on the [Commit] part that leaves the committed state alone. *)
Definition commit_same (c c' : Commit) : Prop :=
  lastCommitedSeqNum c' = lastCommitedSeqNum c ∧ commitInfo c' = commitInfo c.
#[export] Instance commit_same_refl : Reflexive commit_same.
Proof. by intros c. Qed.
#[export] Instance commit_same_trans : Transitive commit_same.
Proof. intros c1 c2 c3 [] []. split; congruence. Qed.

Lemma arch_commit (a : CArch) (c : Commit) : commit_same (a_commit a) c → arch_same a (a <| a_commit := c |>).
Proof. intros [H1 H2]. split_and!; cbn; [done..|]. intros t. by rewrite H2. Qed.

Lemma squashAfter_same (tid : nat) (p : InstPtr) (c c' : Commit) :
  squashAfter tid p c = Ok c' → commit_same c c'.
Proof. unfold squashAfter. intros E. by res_simp. Qed.

Lemma tc_pcState_same (tid : nat) (v : PCState) (c c' : Commit) : tc_pcState tid v c = Ok c' → commit_same c c'.
Proof.
  unfold tc_pcState, cpu_squashFromTC, generateTCEvent. cbn zeta. intros E.
  destruct (_ && _); by res_simp.
Qed.

Lemma servicePC_same (e : CommitEnv) (fuel tid : nat) : ∀ (k k' : Z) (c c' : Commit),
  servicePC e fuel tid k c = Ok (k', c') → commit_same c c'.
Proof.
  induction fuel as [|fuel IH]; intros k k' c c' E; [done|]. cbn in E.
  apply bind_ok in E as (c1 & E1 & E). assert (commit_same c c1) as H1.
  { destruct (pcEvent _ _ _); [by eapply tc_pcState_same|by injection E1 as <-]. }
  destruct (_ =? _); [by injection E as <- <-|]. etrans; [exact H1|by eapply IH].
Qed.

Lemma roundRobin_perm (h : heap) (a : CArch) (r : ROB) (l : list nat) : ∀ seen o l',
  roundRobin_loop h a r seen l = Ok (o, l') → l' ≡ₚ seen ++ l.
Proof.
  induction l as [|t l IH]; intros seen o l' E; cbn in E; [injection E as <- <-; by rewrite app_nil_r|].
  apply bind_ok in E as (b & _ & E). destruct b.
  - injection E as <- <-. by rewrite (Permutation_app_comm l [t]).
  - apply IH in E. by rewrite E, <- app_assoc.
Qed.

Lemma committing_same (h : heap) (a a' : CArch) (r : ROB) o :
  getCommittingThread h a r = Ok (o, a') → ∃ l, a' = a <| priority_list := l |> ∧ l ≡ₚ priority_list a.
Proof.
  unfold getCommittingThread, roundRobin. intros E.
  assert (a = a <| priority_list := priority_list a |>) as Ha by by destruct a.
  destruct (_ <? _)%nat; [destruct (commitPolicy a)|]; res_simp; eauto.
  eexists. split; [done|]. match goal with H : roundRobin_loop _ _ _ _ _ = _ |- _ => by apply roundRobin_perm in H end.
Qed.

Section props.
Context {Q : Type} `{InstQueueLaws Q} (fl : DebugFlags) (cyc : Z) (e : CommitEnv).
Implicit Types (w : World Q) (r : ROB) (a : CArch) (c : Commit) (h : heap).

Lemma handleInterrupt_same (n : Z) a a' : handleInterrupt e n a = Ok a' → arch_same a a'.
Proof.
  unfold handleInterrupt. intros E. destruct (negb _); [by injection E as <-|].
  destruct (_ && _); [|by injection E as <-]. cbn zeta in E. by res_simp.
Qed.

Lemma commitDrain_same (tid : nat) (p : InstPtr) a a' : commitDrain tid p a = Ok a' → arch_same a a'.
Proof.
  unfold commitDrain. intros E. cbn zeta in E. destruct (_ && _); [|by injection E as <-].
  apply bind_ok in E as (c & Ec & E). injection E as <-.
  apply squashAfter_same in Ec. by apply (arch_commit a) in Ec.
Qed.

(** ** A successful commit *)
(** The thread's committed state, with the rename map [m] and the instruction [sn] done. *)
Definition committed_as (tid : nat) (m : UnifiedRenameMap) (sn : Z) a a' : Prop :=
  commitWidth a' = commitWidth a ∧ (∀ t, commitMap a' t = if decide (t = tid) then m else commitMap a t)
  ∧ (∀ t, lastCommitedSeqNum (a_commit a') t = if decide (t = tid) then sn else lastCommitedSeqNum (a_commit a) t)
  ∧ ∀ t, ci_doneSeqNum (commitInfo (a_commit a') t)
         = if decide (t = tid) then sn else ci_doneSeqNum (commitInfo (a_commit a) t).

Lemma afterCommit_ok (tid : nat) (p : InstPtr) (d : DynInst) (n : Z) a a' (stop : bool) :
  afterCommit e tid p d n a = Ok (stop, a') → committed_as tid (commitMap a tid) (seqNum d) a a'.
Proof.
  unfold afterCommit. set (a1 := on_commit _ a). set (a2 := if (tid =? 0)%nat then _ else a1).
  set (a3 := on_commit _ a2). cbn zeta. intros E. apply bind_ok in E as (u & _ & E).
  assert (Ha : committed_as tid (commitMap a tid) (seqNum d) a a3).
  { subst a3 a2 a1. destruct (tid =? 0)%nat; cbn; (split_and!; [done| | |]);
      intros t; cbn; case_decide as Ht; subst; rewrite ?fn_lookup_insert, ?fn_lookup_insert_ne by done; done. }
  clearbody a3. clear a1 a2.
  apply bind_ok in E as (c & Ec & E).
  assert (H1 : arch_same a3 (a3 <| a_commit := c |>)).
  { apply arch_commit. destruct (isSquashAfter d); [by eapply squashAfter_same|by injection Ec as <-]. }
  apply bind_ok in E as (a4 & E4%commitDrain_same & E).
  apply bind_ok in E as ([b a5] & E5 & E).
  assert (H5 : arch_same a4 a5).
  { destruct (onInstBoundary d); [|by injection E5 as <- <-]. apply bind_ok in E5 as (? & _ & E5).
    apply bind_ok in E5 as ([k c1] & Es%servicePC_same & E5). injection E5 as <- <-. by apply arch_commit. }
  assert (H6 : arch_same a5 a').
  { destruct b; [by injection E as <- <-|]. apply bind_ok in E as (c1 & Ec1 & E). injection E as <- <-.
    apply arch_commit. destruct (_ && checkInterrupts e n); [by eapply squashAfter_same|by injection Ec1 as <-]. }
  assert (arch_same a3 a') as (S1 & S2 & S3 & S4) by (etrans; [exact H1|]; etrans; [exact E4|]; by etrans).
  destruct Ha as (A1 & A2 & A3 & A4). split_and!; [congruence|intros t..]; by rewrite ?S2, ?S3, ?S4.
Qed.

(** ** Retiring the head *)
(** Everything but flags and issue state is kept. *)
Abbreviation sameCore := (λ (_ : InstPtr) (d d' : DynInst), core d' = core d) (only parsing).
Lemma sameCore_trans h1 h2 h3 : hrel sameCore h1 h2 → hrel sameCore h2 h3 → hrel sameCore h1 h3.
Proof. apply hrel_trans. congruence. Qed.
Lemma on_inst_core (p : InstPtr) (f : DynInst → DynInst) w :
  (∀ d, core (f d) = core d) → hrel sameCore (w_heap w) (w_heap (on_inst p f w)).
Proof. intros Hf. apply hrel_alter; [done|]. intros d _. apply Hf. Qed.

Lemma retireHead_core (tid : nat) r r' w w' :
  retireHead fl cyc tid r w = Ok (r', w') → hrel sameCore (w_heap w) (w_heap w').
Proof.
  unfold retireHead. intros E. apply bind_ok in E as (? & _ & E). apply bind_ok in E as (p & _ & E).
  apply bind_ok in E as (d & _ & E). apply bind_ok in E as (? & _ & E). cbn zeta in E.
  apply bind_ok in E as (w1 & E1 & E). apply bind_ok in E as ([r2 w2] & E2 & E).
  apply bind_ok in E as (r3 & _ & E). injection E as <- <-.
  eapply sameCore_trans; [by apply (on_inst_core p (setCommitted ∘ clearInROB))|]. eapply (sameCore_trans _ (w_heap w1)).
  - destruct (_ && _); [|injection E1 as <-; by apply hrel_refl].
    eapply sameCore_trans; [by apply (on_inst_core p clearUnsafe)|].
    eapply hrel_mono; [|by eapply wakeup_calm]. by intros q d1 d2 _ [].
  - destruct (maySquashOthers d); [|injection E2 as <- <-; by apply hrel_refl].
    apply bind_ok in E2 as (? & _ & E2). apply bind_ok in E2 as ([k w3] & Em & E2). injection E2 as <- <-.
    eapply sameCore_trans; [by apply (on_inst_core p clearMaySquashOthers)|].
    eapply hrel_mono; [|by eapply markFollowing_spec]. by intros q d1 d2 _ [[] _].
Qed.

(** The head [p] of thread [tid] left the buffer; the other instructions are the same. *)
Record retired (tid : nat) (p : InstPtr) r w r' w' : Prop := {
  rt_list : instList r tid = p :: instList r' tid;
  rt_others : ∀ t, t ≠ tid → instList r' t = instList r t;
  rt_rel : hrel (only p) (w_heap w) (w_heap w');
  rt_regs : regs_ok (in_rob r') (w_heap w') (w_sb w');
  rt_iters : squashIt r' = squashIt r;
  rt_core : hrel sameCore (w_heap w) (w_heap w');
  rt_num : 0 < numInstsInROB r ∧ numInstsInROB r' = Z.pred (numInstsInROB r);
}.

Lemma retireHead_retired (tid : nat) (p : InstPtr) r r' w w' :
  hd_error (instList r tid) = Some p → regs_ok (in_rob r) (w_heap w) (w_sb w) →
  retireHead fl cyc tid r w = Ok (r', w') → retired tid p r w r' w'.
Proof.
  intros Hp Hr E. assert (Hpos : 0 < numInstsInROB r).
  { pose proof E as E'. unfold retireHead in E'. apply bind_ok in E' as (? & Ha%assert_ok & _). by apply Z.ltb_lt. }
  destruct (retireHead_inv _ _ _ _ _ _ _ E Hr) as (q & l & d & hd & El & _ & _ & Hrel & Hok & ->).
  rewrite El in Hp. injection Hp as ->. split; cbn.
  - by rewrite fn_lookup_insert.
  - intros t Ht. by rewrite fn_lookup_insert_ne.
  - done.
  - eapply regs_sub; [|exact Hok]. intros q [t Hq]. cbn in Hq. destruct (decide (t = tid)) as [->|Ht].
    + rewrite fn_lookup_insert in Hq. exists tid. rewrite El. by right.
    + rewrite fn_lookup_insert_ne in Hq by done. by exists t.
  - done.
  - by eapply retireHead_core.
  - done.
Qed.

(** The head is marked before it is retired. *)
Lemma retired_mark (tid : nat) (p : InstPtr) (f : DynInst → DynInst) r r' w w' :
  (∀ d, core (f d) = core d) → retired tid p r (on_inst p f w) r' w' → retired tid p r w r' w'.
Proof.
  intros Hf [R1 R2 R3 R4 R5 R6 R7]. split; try done; [eapply only_trans; [apply only_alter|exact R3]|].
  eapply sameCore_trans; [by apply on_inst_core|exact R6].
Qed.

Lemma readHeadInst_ok (tid : nat) h r (p : InstPtr) :
  readHeadInst tid h r = Ok (Some p) → hd_error (instList r tid) = Some p.
Proof. unfold readHeadInst. intros E. destruct (negb _); by res_simp. Qed.

(** Marks on the head that are not a commit. *)
Abbreviation marked := (λ _ : InstPtr, changed [Completed; CanCommit]) (only parsing).
Lemma marked_refl h : hrel marked h h.
Proof. by apply hrel_refl. Qed.
Lemma on_inst_marked (s : Status) (f : DynInst → DynInst) (p : InstPtr) w :
  s ∈ [Completed; CanCommit] → (∀ d, changed [s] d (f d)) → hrel marked (w_heap w) (w_heap (on_inst p f w)).
Proof.
  intros Hs Hf. apply hrel_alter; [by intros|]. intros d _. eapply changed_mono; [|apply Hf]. set_solver.
Qed.

(** The head was not committed. *)
Definition stalled a a' w w' : Prop := arch_same a a' ∧ hrel marked (w_heap w) (w_heap w').

Lemma commitUnexecuted_ok (p : InstPtr) (d : DynInst) (n : Z) s a a' w w' :
  commitUnexecuted e p d n a w = Ok (s, a', w') → s ≠ CommitSuccess ∧ s ≠ InstructionFault ∧ stalled a a' w w'.
Proof.
  unfold commitUnexecuted. intros E. cbn zeta in E. apply bind_ok in E as (? & _ & E).
  destruct (_ || _); [injection E as <- <- <-; split_and!; [done..|split; [done|apply marked_refl]]|].
  assert (Hm : hrel marked (w_heap w) (w_heap (on_inst p clearCanCommit w))).
  { apply (on_inst_marked CanCommit); [set_solver|]. intros. apply changed_st_reset. }
  destruct (_ && _); apply bind_ok in E as (? & Hs%assert_ok & E); injection E as <- <- <-;
    apply bool_decide_eq_true in Hs; (split_and!; [done| |done..]); [done|].
  by destruct (isLoad d), (isStore d).
Qed.

Lemma commitFault_ok (p : InstPtr) (d : DynInst) (n : Z) s a a' w w' :
  commitFault e p d n a w = Ok (s, a', w') → s ≠ CommitSuccess ∧ stalled a a' w w'.
Proof.
  unfold commitFault. intros E. cbn zeta in E.
  destruct (_ || _); [injection E as <- <- <-; split_and!; [done..|split; [done|apply marked_refl]]|].
  apply bind_ok in E as (? & _ & E). injection E as <- <- <-. split; [done|]. split; [done|].
  apply (on_inst_marked Completed); [set_solver|]. intros. apply changed_st_set.
Qed.

Lemma commitHead_ok (p : InstPtr) (d : DynInst) (n : Z) s a a' r r' w w' :
  w_heap w !! p = Some d → hd_error (instList r (threadNumber d)) = Some p →
  regs_ok (in_rob r) (w_heap w) (w_sb w) →
  commitHead fl cyc e p n a r w = Ok (s, a', r', w') →
  (s ≠ CommitSuccess ∧ r' = r ∧ stalled a a' w w')
  ∨ (s = CommitSuccess ∧ isExecuted d = true ∧ fault d = NoFault ∧ retired (threadNumber d) p r w r' w'
     ∧ a_commit a' = a_commit a ∧ commitWidth a' = commitWidth a
     ∧ ∃ m, commitRename (regFile e) d (commitMap a (threadNumber d)) = Ok m
            ∧ commitMap a' = <[threadNumber d := m]> (commitMap a)).
Proof.
  intros Hd Hp Hr E. unfold commitHead in E. rewrite Hd in E. cbn [deref mbind res_bind] in E. cbn zeta in E.
  destruct (isExecuted d) eqn:Hx; cbn [negb] in E.
  2: { apply bind_ok in E as ([[s1 a1] w1] & Eu & E). injection E as <- <- <- <-.
       apply commitUnexecuted_ok in Eu as (? & _ & ?). by left. }
  apply bind_ok in E as (? & _ & E). destruct (decide (fault d = NoFault)) as [Hf|Hf].
  2: { left. rewrite (bool_decide_false (fault d = NoFault)), andb_false_r, bool_decide_true in E by done.
       apply bind_ok in E as ([[s1 a1] w1] & Eu & E). injection E as <- <- <- <-.
       by apply commitFault_ok in Eu as (? & ?). }
  rewrite (bool_decide_true (fault d = NoFault)), andb_true_r, bool_decide_false in E by naive_solver.
  set (w1 := if negb (isStore d) then _ else w) in E. right.
  apply bind_ok in E as (m & Em & E). apply bind_ok in E as ([r1 w2] & Er & E). injection E as <- <- <- <-.
  assert (Hret : retired (threadNumber d) p r w r1 w2).
  { subst w1. destruct (negb (isStore d)); [|by eapply retireHead_retired]. apply (retired_mark _ _ setCompleted); [done|].
    eapply retireHead_retired; [done| |exact Er]. apply on_inst_regs; [|done]. intros d0 _.
    eapply changed_calm; [apply (changed_st_set Completed)|set_solver..]. }
  unfold updateComInstStats in *. split_and!; try done; destruct (negb (isMicroop d) || isLastMicroop d), (isStore d); try done;
    by exists m.
Qed.

(** ** One iteration *)
Inductive iteration (n : Z) a r w : Iter → Z → CommitHeadError → CArch → ROB → World Q → Prop :=
| it_stall s a' w' :
    s ≠ CommitSuccess → stalled a a' w w' → iteration n a r w Leave n s a' r w'
| it_squashed p d a' r' w' :
    w_heap w !! p = Some d → readyToCommit d = true → isSquashed d = true → arch_same a a' →
    retired (threadNumber d) p r w r' w' → iteration n a r w Again n RetiringSquashes a' r' w'
| it_commit k p d m a' r' w' :
    w_heap w !! p = Some d → readyToCommit d = true → isSquashed d = false → isExecuted d = true →
    fault d = NoFault → commitRename (regFile e) d (commitMap a (threadNumber d)) = Ok m →
    committed_as (threadNumber d) m (seqNum d) a a' → retired (threadNumber d) p r w r' w' →
    iteration n a r w k (n + 1) CommitSuccess a' r' w'.

Lemma committed_after (tid : nat) (m : UnifiedRenameMap) (sn : Z) a0 a a1 a' :
  arch_same a0 a → a_commit a1 = a_commit a → commitWidth a1 = commitWidth a →
  commitMap a1 = <[tid := m]> (commitMap a) → committed_as tid (commitMap a1 tid) sn a1 a' → committed_as tid m sn a0 a'.
Proof.
  intros (A1 & A2 & A3 & A4) Ec Ew Em (C1 & C2 & C3 & C4). rewrite Em, fn_lookup_insert in C2. split_and!; [congruence|..].
  - intros t. rewrite C2. case_decide; [done|]. by rewrite fn_lookup_insert_ne, A2 by done.
  - intros t. by rewrite C3, Ec, A3.
  - intros t. by rewrite C4, Ec, A4.
Qed.

Lemma commitOne_ok (n n' : Z) k s a a' r r' w w' :
  regs_ok (in_rob r) (w_heap w) (w_sb w) →
  commitOne fl cyc e n a r w = Ok (k, n', s, a', r', w') → iteration n a r w k n' s a' r' w'.
Proof.
  intros Hr E. unfold commitOne in E. apply bind_ok in E as (a1 & E1 & E).
  assert (H1 : arch_same a a1).
  { destruct (bool_decide _); [by eapply handleInterrupt_same|by injection E1 as <-]. }
  apply bind_ok in E as ([o a2] & E2 & E). apply committing_same in E2 as (l & -> & _).
  set (a2 := a1 <| priority_list := l |>) in *. assert (H2 : arch_same a a2) by done. clearbody a2. clear E1 H1 a1 l.
  destruct o as [t|]; [|injection E as <- <- <- <- <- <-; by constructor; [|split; [|apply marked_refl]]].
  destruct (_ =? 0); [injection E as <- <- <- <- <- <-; by constructor; [|split; [|apply marked_refl]]|].
  apply bind_ok in E as (o & Ep & E). apply bind_ok in E as (p & ->%deref_ok & E). apply readHeadInst_ok in Ep.
  apply bind_ok in E as (d & Hd%deref_ok & E). destruct (readyToCommit d) eqn:Hc; cbn [negb] in E.
  2: { injection E as <- <- <- <- <- <-. constructor; [|split; [done|apply marked_refl]].
       unfold stallReason. by destruct (isLoad d), (isStore d), (isMemBarrier d), (isWriteBarrier d). }
  cbn zeta in E. apply bind_ok in E as (? & Ht%assert_ok & E). apply bool_decide_eq_true in Ht. subst t.
  destruct (isSquashed d) eqn:Hs.
  - apply bind_ok in E as ([r1 w1] & Er & E). injection E as <- <- <- <- <- <-.
    eapply it_squashed; try done. by eapply retireHead_retired.
  - set (a3 := on_commit _ _) in E. assert (H3 : arch_same a a3) by done. clearbody a3. clear H2 a2.
    apply bind_ok in E as ([[[s1 a4] r1] w1] & Eh & E).
    destruct (commitHead_ok _ d _ _ _ _ _ _ _ _ Hd Ep Hr Eh) as [(Hne & -> & H4 & H5)|(-> & Hx & Hf & Hret & Ec & Ew & m & Em & EM)].
    + rewrite bool_decide_false in E by done. injection E as <- <- <- <- <- <-.
      constructor; [done|]. split; [by etrans|done].
    + rewrite bool_decide_true in E by done. apply bind_ok in E as (d' & Hd'%deref_ok & E).
      apply bind_ok in E as ([stop a5] & Ea%afterCommit_ok & E). injection E as <- <- <- <- <- <-.
      destruct (hrel_lookup_r _ _ _ _ _ (rt_core _ _ _ _ _ _ Hret) Hd') as (d0 & Hd0 & Hcore).
      rewrite Hd in Hd0. injection Hd0 as <-.
      rewrite (f_equal seqNum Hcore : seqNum d' = seqNum d) in Ea.
      eapply it_commit; try done; [|by eapply committed_after].
      destruct H3 as (_ & <- & _). exact Em.
Qed.

(** ** A cycle of commits *)
(** Each thread's instructions are its own and appear once. *)
Definition lists_ok h r : Prop :=
  ∀ t, NoDup (instList r t) ∧ ∀ p, p ∈ instList r t → ∃ d, h !! p = Some d ∧ threadNumber d = t.

(** The instructions of [l] of one thread; those that were not squashed. *)
Definition of_thread h (t : nat) (l : list InstPtr) : list InstPtr :=
  filter (λ p, threadNumber <$> h !! p = Some t) l.
Definition unsquashed h (l : list InstPtr) : list InstPtr := filter (λ p, st_at Squashed h p = false) l.
(** The sequence number of the last instruction of [l]. *)
Definition last_seq h (l : list InstPtr) (z : Z) : Z := foldl (λ _ p, seq_at h p) z l.
Definition commitAt h (m : UnifiedRenameMap) (p : InstPtr) : res UnifiedRenameMap :=
  d ← deref (h !! p); commitRename (regFile e) d m.

(** What the loop did since heap [h]: [out] left the reorder buffer, in this order. *)
Record retirement h (n : Z) a r (out : list InstPtr) (n' : Z) a' r' h' : Prop := {
  rm_lists : ∀ t, instList r t = of_thread h t out ++ instList r' t;
  rm_out : ∀ p, p ∈ out → ∃ d, h !! p = Some d ∧ readyToCommit d = true
    ∧ (isSquashed d = false → isExecuted d = true ∧ fault d = NoFault);
  rm_count : n' = n + Z.of_nat (length (unsquashed h out));
  rm_last : ∀ t, lastCommitedSeqNum (a_commit a') t
    = last_seq h (unsquashed h (of_thread h t out)) (lastCommitedSeqNum (a_commit a) t);
  rm_done : ∀ t, ci_doneSeqNum (commitInfo (a_commit a') t)
    = last_seq h (unsquashed h (of_thread h t out)) (ci_doneSeqNum (commitInfo (a_commit a) t));
  rm_map : ∀ t, mfold (commitAt h) (commitMap a t) (unsquashed h (of_thread h t out)) = Ok (commitMap a' t);
  rm_rest : ∀ t p d, p ∈ instList r' t → h !! p = Some d → ∃ d', h' !! p = Some d' ∧ changed [Completed; CanCommit] d d';
}.

Lemma retirement_stop (n : Z) a a' r w w' :
  stalled a a' w w' → retirement (w_heap w) n a r [] n a' r (w_heap w').
Proof.
  intros [(A1 & A2 & A3 & A4) Hm]. split; cbn; [done|by intros p ?%not_elem_of_nil|lia|..].
  - intros t. by rewrite A3.
  - intros t. by rewrite A4.
  - intros t. by rewrite A2.
  - intros t p d _ Hd. by apply (hrel_lookup _ _ _ _ _ Hm).
Qed.

(** The instructions left in the buffer are as before. *)
Lemma retired_rest (tid t : nat) (p q : InstPtr) (d : DynInst) r r' w w' :
  lists_ok (w_heap w) r → w_heap w !! p = Some d → threadNumber d = tid → retired tid p r w r' w' →
  q ∈ instList r' t → q ≠ p ∧ q ∈ instList r t.
Proof.
  intros Hl Hd <- [R1 R2 _ _ _ _ _] Hq. destruct (decide (t = threadNumber d)) as [->|Ht].
  - destruct (Hl (threadNumber d)) as [Hnd _]. rewrite R1 in *. inversion_clear Hnd as [|? ? Hn _].
    split; [by intros ->|by right].
  - rewrite R2 in Hq by done. split; [|done]. intros ->. destruct (Hl t) as [_ Hx].
    destruct (Hx p Hq) as (d' & Hd' & <-). congruence.
Qed.

Lemma retired_lists (tid : nat) (p : InstPtr) (d : DynInst) r r' w w' :
  lists_ok (w_heap w) r → w_heap w !! p = Some d → threadNumber d = tid → retired tid p r w r' w' →
  lists_ok (w_heap w') r'.
Proof.
  intros Hl Hd Ht Hret t. split.
  - destruct (Hl t) as [Hnd _]. destruct Hret as [R1 R2 _ _ _ _ _]. destruct (decide (t = tid)) as [->|Hne].
    + rewrite R1 in Hnd. by inversion_clear Hnd.
    + by rewrite R2.
  - intros q Hq. destruct (retired_rest _ _ _ _ _ _ _ _ _ Hl Hd Ht Hret Hq) as [Hne Hq'].
    destruct (Hl t) as [_ Hx]. destruct (Hx q Hq') as (dq & Eq & <-).
    destruct (hrel_lookup _ _ _ _ _ (rt_rel _ _ _ _ _ _ Hret) Eq) as (dq' & Eq' & Hc).
    exists dq'. split; [done|]. by apply (changed_threadNumber _ _ _ (Hc Hne)).
Qed.

(** What was retired reads the same in two heaps that agree on it. *)
Definition agree h h' (l : list InstPtr) : Prop :=
  ∀ q, q ∈ l → ∃ d d', h !! q = Some d ∧ h' !! q = Some d' ∧ changed [] d d'.

Lemma of_thread_agree h h' (t : nat) (l : list InstPtr) : agree h h' l → of_thread h' t l = of_thread h t l.
Proof.
  intros Ha. apply filter_same. intros x Hx. destruct (Ha x Hx) as (d & d' & -> & -> & Hc). cbn.
  by rewrite (changed_threadNumber _ _ _ Hc).
Qed.
Lemma unsquashed_agree h h' (l : list InstPtr) : agree h h' l → unsquashed h' l = unsquashed h l.
Proof.
  intros Ha. apply filter_same. intros x Hx. destruct (Ha x Hx) as (d & d' & E & E' & Hc).
  by rewrite (st_at_lookup _ _ _ _ E), (st_at_lookup _ _ _ _ E'), (changed_get _ _ _ _ Hc) by set_solver.
Qed.
Lemma last_seq_agree h h' (l : list InstPtr) : ∀ z, agree h h' l → last_seq h' l z = last_seq h l z.
Proof.
  unfold last_seq. induction l as [|x l IH]; intros z Ha; [done|]. cbn. rewrite IH by (intros q Hq; apply Ha; by right).
  destruct (Ha x ltac:(left)) as (d & d' & E & E' & Hc).
  by rewrite (seq_at_lookup _ _ _ E), (seq_at_lookup _ _ _ E'), (changed_seqNum _ _ _ Hc).
Qed.
Lemma commitRename_core (rf : PhysRegFile) (d d' : DynInst) (m : UnifiedRenameMap) :
  core d' = core d → commitRename rf d' m = commitRename rf d m.
Proof.
  intros E. unfold commitRename, commitDest, numDestRegs.
  by rewrite (f_equal staticInst E : staticInst d' = staticInst d), (f_equal flatDestRegIdx E : flatDestRegIdx d' = flatDestRegIdx d),
    (f_equal destRegIdx_ E : destRegIdx_ d' = destRegIdx_ d).
Qed.
Lemma commitAt_ok h (p : InstPtr) (d : DynInst) (m m' : UnifiedRenameMap) :
  h !! p = Some d → commitRename (regFile e) d m = Ok m' → commitAt h m p = Ok m'.
Proof. intros E Em. unfold commitAt. by rewrite E. Qed.
Lemma commits_agree h h' (l : list InstPtr) : ∀ m, agree h h' l → mfold (commitAt h') m l = mfold (commitAt h) m l.
Proof.
  induction l as [|x l IH]; intros m Ha; [done|]. cbn [mfold].
  destruct (Ha x ltac:(left)) as (d & d' & E & E' & Hc). 
  assert (commitAt h' m x = commitAt h m x) as ->.
  { unfold commitAt. rewrite E, E'. cbn. apply commitRename_core, Hc. }
  destruct (commitAt h m x); [|done]. cbn. apply IH. intros q Hq. apply Ha. by right.
Qed.
Lemma agree_sub h h' (l l' : list InstPtr) : l' ⊆ l → agree h h' l → agree h h' l'.
Proof. intros Hs Ha q Hq. by apply Ha, Hs. Qed.
Lemma of_thread_sub h (t : nat) (l : list InstPtr) : of_thread h t l ⊆ l.
Proof. intros q Hq. by apply list_elem_of_filter in Hq as [_ ?]. Qed.
Lemma unsquashed_sub h (l : list InstPtr) : unsquashed h l ⊆ l.
Proof. intros q Hq. by apply list_elem_of_filter in Hq as [_ ?]. Qed.

Lemma of_thread_cons h (t : nat) (p : InstPtr) (d : DynInst) (l : list InstPtr) :
  h !! p = Some d → of_thread h t (p :: l) = if decide (threadNumber d = t) then p :: of_thread h t l else of_thread h t l.
Proof. intros E. unfold of_thread. rewrite filter_cons, E. cbn. by repeat case_decide; simplify_eq. Qed.
Lemma unsquashed_cons h (p : InstPtr) (d : DynInst) (l : list InstPtr) :
  h !! p = Some d → unsquashed h (p :: l) = if isSquashed d then unsquashed h l else p :: unsquashed h l.
Proof.
  intros E. unfold unsquashed. rewrite filter_cons, (st_at_lookup _ _ _ _ E). unfold isSquashed.
  by destruct (get_st Squashed d); case_decide.
Qed.

Lemma retired_agree (tid : nat) (p : InstPtr) (d : DynInst) r r' w w' :
  lists_ok (w_heap w) r → w_heap w !! p = Some d → threadNumber d = tid → retired tid p r w r' w' →
  ∀ t, agree (w_heap w) (w_heap w') (instList r' t).
Proof.
  intros Hl Hd Ht Hret t q Hq. destruct (retired_rest _ _ _ _ _ _ _ _ _ Hl Hd Ht Hret Hq) as [Hne Hq'].
  destruct (Hl t) as [_ Hx]. destruct (Hx q Hq') as (dq & Eq & _).
  destruct (hrel_lookup _ _ _ _ _ (rt_rel _ _ _ _ _ _ Hret) Eq) as (dq' & Eq' & Hc).
  exists dq, dq'. split_and!; auto.
Qed.

Lemma retirement_cons (n n1 n' : Z) (p : InstPtr) (d : DynInst) (out : list InstPtr) a a1 a' r r1 r' w w1 h' :
  lists_ok (w_heap w) r → w_heap w !! p = Some d → readyToCommit d = true →
  retired (threadNumber d) p r w r1 w1 →
  (isSquashed d = true ∧ n1 = n ∧ arch_same a a1
   ∨ isSquashed d = false ∧ n1 = n + 1 ∧ isExecuted d = true ∧ fault d = NoFault
     ∧ ∃ m, commitRename (regFile e) d (commitMap a (threadNumber d)) = Ok m
            ∧ committed_as (threadNumber d) m (seqNum d) a a1) →
  retirement (w_heap w1) n1 a1 r1 out n' a' r' h' → retirement (w_heap w) n a r (p :: out) n' a' r' h'.
Proof.
  intros Hl Hd Hrdy Hret Hcase [M1 M2 M3 M4 M5 M6 M7]. set (tid := threadNumber d) in *.
  pose proof (retired_agree _ _ _ _ _ _ _ Hl Hd eq_refl Hret) as Hin.
  assert (Hag : agree (w_heap w) (w_heap w1) out).
  { intros q Hq. destruct (M2 q Hq) as (dq & Eq & _). apply (Hin (threadNumber dq)). rewrite M1. apply elem_of_app. left.
    apply list_elem_of_filter. rewrite Eq. by split. }
  assert (Hof : ∀ t, of_thread (w_heap w1) t out = of_thread (w_heap w) t out) by (intros; by apply of_thread_agree).
  assert (Hagt : ∀ t, agree (w_heap w) (w_heap w1) (of_thread (w_heap w) t out)) by (intros; eapply agree_sub; [apply of_thread_sub|done]).
  assert (Hun : ∀ t, unsquashed (w_heap w1) (of_thread (w_heap w1) t out) = unsquashed (w_heap w) (of_thread (w_heap w) t out)).
  { intros t. rewrite Hof. by apply unsquashed_agree. }
  assert (Hagu : ∀ t, agree (w_heap w) (w_heap w1) (unsquashed (w_heap w) (of_thread (w_heap w) t out))).
  { intros t. eapply agree_sub; [apply unsquashed_sub|done]. }
  split.
  - intros t. rewrite (of_thread_cons _ _ _ _ _ Hd). fold tid. rewrite <- Hof. case_decide as Ht.
    + subst t. rewrite (rt_list _ _ _ _ _ _ Hret), M1. done.
    + rewrite <- M1. symmetry. by apply (rt_others _ _ _ _ _ _ Hret).
  - intros q [->|Hq]%elem_of_cons; [|].
    { exists d. split; [done|]. split; [done|]. intros Hs. destruct Hcase as [(? & _)|(_ & _ & ? & ? & _)]; [congruence|done]. }
    destruct (M2 q Hq) as (dq & Eq & Hrq & Hx).
    destruct (Hag q Hq) as (dq0 & dq' & E0 & E1 & Hc). rewrite E1 in Eq. injection Eq as <-. exists dq0. split; [done|].
    assert (Hst : ∀ s, s ≠ CanIssue → get_st s dq0 = get_st s dq').
    { intros s Hs. symmetry. by apply (changed_get _ [] _ _ Hc); [apply not_elem_of_nil|]. }
    unfold readyToCommit, isSquashed, isExecuted in *. rewrite !Hst by done.
    by rewrite <- (f_equal fault (proj1 Hc) : fault dq' = fault dq0).
  - rewrite M3, (unsquashed_agree _ _ _ Hag), (unsquashed_cons _ _ _ _ Hd).
    destruct Hcase as [(-> & -> & _)|(-> & -> & _)]; cbn [length]; lia.
  - intros t. rewrite M4, Hun, (last_seq_agree (w_heap w)), (of_thread_cons _ _ _ _ _ Hd) by done. fold tid.
    destruct Hcase as [(Hs & _ & (_ & _ & A3 & _))|(Hs & _ & _ & _ & m & _ & (_ & _ & A3 & _))]; rewrite A3; repeat case_decide; subst;
      rewrite ?(unsquashed_cons _ _ _ _ Hd), ?Hs; try done. unfold last_seq. cbn. by rewrite (seq_at_lookup _ _ _ Hd).
  - intros t. rewrite M5, Hun, (last_seq_agree (w_heap w)), (of_thread_cons _ _ _ _ _ Hd) by done. fold tid.
    destruct Hcase as [(Hs & _ & (_ & _ & _ & A4))|(Hs & _ & _ & _ & m & _ & (_ & _ & _ & A4))]; rewrite A4; repeat case_decide; subst;
      rewrite ?(unsquashed_cons _ _ _ _ Hd), ?Hs; try done. unfold last_seq. cbn. by rewrite (seq_at_lookup _ _ _ Hd).
  - intros t. specialize (M6 t). rewrite Hun, (commits_agree (w_heap w)) in M6 by done. rewrite (of_thread_cons _ _ _ _ _ Hd). fold tid.
    destruct Hcase as [(Hs & _ & (_ & A2 & _ & _))|(Hs & _ & _ & _ & m & Em & (_ & A2 & _ & _))]; rewrite A2 in M6; repeat case_decide; subst;
      rewrite ?(unsquashed_cons _ _ _ _ Hd), ?Hs; try done. cbn [mfold]. by rewrite (commitAt_ok _ _ _ _ _ Hd Em).
  - intros t q dq Hq Eq. assert (Hq1 : q ∈ instList r1 t) by (rewrite M1; set_solver).
    destruct (Hin t q Hq1) as (dq0 & dq' & E0 & E1 & Hc). rewrite E0 in Eq. injection Eq as ->.
    destruct (M7 t q dq' Hq E1) as (d2 & E2 & Hc2). exists d2. split; [done|].
    eapply changed_trans; [|exact Hc2]. eapply changed_mono; [|exact Hc]. set_solver.
Qed.

(** ** The loop *)
(** The status the loop ends with when nothing was committed. *)
Lemma commitLoop_ok (fuel : nat) : ∀ (n n' : Z) s s' a a' r r' w w',
  regs_ok (in_rob r) (w_heap w) (w_sb w) → lists_ok (w_heap w) r →
  commitLoop fl cyc e fuel n s a r w = Ok (n', s', a', r', w') →
  (∃ out, retirement (w_heap w) n a r out n' a' r' (w_heap w'))
  ∧ n' ≤ Z.max n (commitWidth a) ∧ (n < commitWidth a → s' ≠ CommitSuccess ∨ n < n').
Proof.
  induction fuel as [|fuel IH]; intros n n' s s' a a' r r' w w' Hr Hl E; cbn in E;
    (destruct (Z.ltb_spec n (commitWidth a)) as [Hn|Hn];
     [|injection E as <- <- <- <- <-; split_and!; [exists []|lia..]; apply retirement_stop; split; [done|apply marked_refl]]); [done|].
  apply bind_ok in E as ([[[[[k n1] s1] a1] r1] w1] & E1%commitOne_ok & E); [|done].
  destruct E1 as [s1 a1 w1 Hs Hst|p d a1 r1 w1 Hd Hc Hs Ha Hret|k p d m a1 r1 w1 Hd Hc Hs Hx Hf Em Ha Hret].
  - injection E as <- <- <- <- <-. split_and!; [|lia|by left]. exists []. by apply retirement_stop.
  - apply IH in E as ((out & Ho) & Hle & Hor); [|apply Hret|by eapply retired_lists].
    assert (Ew : commitWidth a1 = commitWidth a) by apply Ha. rewrite Ew in Hle, Hor.
    split_and!; [|lia|exact Hor]. exists (p :: out). eapply (retirement_cons _ _ _ _ d); [done..|by left|exact Ho].
  - assert (Ew : commitWidth a1 = commitWidth a) by apply Ha. destruct k.
    + injection E as <- <- <- <- <-. split_and!; [|lia|right; lia]. exists [p].
      eapply (retirement_cons _ _ _ _ d); [done..|right; split_and!; [done..|by exists m]|].
      apply (retirement_stop _ a1 a1 r1 w1 w1). split; [done|apply marked_refl].
    + apply IH in E as ((out & Ho) & Hle & Hor); [|apply Hret|by eapply retired_lists]. rewrite Ew in Hle, Hor.
      split_and!; [|lia|]. { exists (p :: out). eapply (retirement_cons _ _ _ _ d); [done..|right; split_and!; [done..|by exists m]|exact Ho]. }
      intros _. destruct (decide (n + 1 < commitWidth a)) as [Hlt|Hlt]; [destruct (Hor Hlt); [by left|right; lia]|].
      right. destruct Ho as [_ _ Ho _ _ _ _]. lia.
Qed.

(** ** Faults *)
(** The head [p] of thread [t] trapped: it was executed, has a fault, and no older store of
    the thread waits to be written back. *)
Record trapped (t : nat) (p : InstPtr) a' r' w' : Prop := {
  tr_head : hd_error (instList r' t) = Some p;
  tr_inst : ∃ d, w_heap w' !! p = Some d ∧ threadNumber d = t ∧ isExecuted d = true ∧ isSquashed d = false
    ∧ fault d ≠ NoFault
    ∧ c_pc (a_commit a') t = invoke e (fault d) t (if notAnInst d then None else Some (staticInst d)) (pc d);
  tr_stores : hasStoresToWB e t = false;
  tr_status : commitStatus (a_commit a') t = TrapPending ∧ trapPending (a_commit a') t = true
    ∧ trapInFlight (a_commit a') t = true ∧ noSquashFromTC (a_commit a') t = false;
}.

Lemma commitFault_taken (p : InstPtr) (d : DynInst) (n : Z) a a' r w w' :
  hd_error (instList r (threadNumber d)) = Some p → w_heap w !! p = Some d → isExecuted d = true →
  isSquashed d = false → fault d ≠ NoFault → c_pc (a_commit a) (threadNumber d) = pc d →
  commitFault e p d n a w = Ok (InstructionFault, a', w') → n ≤ 0 ∧ trapped (threadNumber d) p a' r w'.
Proof.
  intros Hp Hd Hx Hs Hf Hpc E. unfold commitFault in E. cbn zeta in E.
  destruct (_ || _) eqn:Hor; [done|]. apply orb_false_iff in Hor as [Hst Hn%Z.ltb_ge].
  apply bind_ok in E as (? & _ & E). injection E as <- <-. split; [done|].
  split; [done| |done|cbn; by rewrite !fn_lookup_insert].
  exists (setCompleted d). cbn. rewrite (alter_Some _ _ _ _ Hd), lookup_insert_eq.
  rewrite !fn_lookup_insert, Hpc. split_and!; try done; unfold isExecuted, isSquashed, setCompleted; by rewrite get_st_set_ne.
Qed.

Lemma commitHead_fault (p : InstPtr) (d : DynInst) (n : Z) a a' r r' w w' :
  w_heap w !! p = Some d → hd_error (instList r (threadNumber d)) = Some p → isSquashed d = false →
  c_pc (a_commit a) (threadNumber d) = pc d →
  commitHead fl cyc e p n a r w = Ok (InstructionFault, a', r', w') →
  n ≤ 0 ∧ r' = r ∧ trapped (threadNumber d) p a' r w'.
Proof.
  intros Hd Hp Hs Hpc E. unfold commitHead in E. rewrite Hd in E. cbn [deref mbind res_bind] in E. cbn zeta in E.
  destruct (isExecuted d) eqn:Hx; cbn [negb] in E.
  2: { apply bind_ok in E as ([[s1 a1] w1] & Eu & E). injection E as -> <- <- <-.
       by apply commitUnexecuted_ok in Eu as (_ & ? & _). }
  apply bind_ok in E as (? & _ & E). destruct (decide (fault d = NoFault)) as [Hf|Hf].
  - rewrite (bool_decide_false (fault d ≠ NoFault)) in E by naive_solver.
    apply bind_ok in E as (? & _ & E). by apply bind_ok in E as ([] & _ & E).
  - rewrite (bool_decide_false (fault d = NoFault)), andb_false_r, bool_decide_true in E by done.
    apply bind_ok in E as ([[s1 a1] w1] & Eu & E). injection E as -> <- <- <-.
    eapply commitFault_taken in Eu as (? & ?); done.
Qed.

Lemma commitOne_fault (n n' : Z) k a a' r r' w w' :
  commitOne fl cyc e n a r w = Ok (k, n', InstructionFault, a', r', w') →
  k = Leave ∧ n' = n ∧ n ≤ 0 ∧ r' = r ∧ ∃ t p, trapped t p a' r w'.
Proof.
  intros E. unfold commitOne in E. apply bind_ok in E as (a1 & _ & E).
  apply bind_ok in E as ([o a2] & _ & E). destruct o as [t|]; [|done]. destruct (_ =? 0); [done|].
  apply bind_ok in E as (o & Ep & E). apply bind_ok in E as (p & ->%deref_ok & E). apply readHeadInst_ok in Ep.
  apply bind_ok in E as (d & Hd%deref_ok & E). destruct (readyToCommit d) eqn:Hc; cbn [negb] in E.
  2: { injection E as _ _ Hs _ _ _. unfold stallReason in Hs. repeat case_match; done. }
  cbn zeta in E. apply bind_ok in E as (? & Ht%assert_ok & E). apply bool_decide_eq_true in Ht. subst t.
  destruct (isSquashed d) eqn:Hs; [by apply bind_ok in E as ([] & _ & E)|].
  apply bind_ok in E as ([[[s1 a4] r1] w1] & Eh & E). case_bool_decide as Hs1.
  - apply bind_ok in E as (? & _ & E). apply bind_ok in E as ([] & _ & E). injection E as _ _ -> _ _ _. done.
  - injection E as <- <- -> <- <- <-. eapply commitHead_fault in Eh as (? & -> & ?); [|done..|cbn; by rewrite fn_lookup_insert].
    eauto 10.
Qed.

Lemma commitLoop_grows (fuel : nat) : ∀ (n n' : Z) s s' a a' r r' w w',
  regs_ok (in_rob r) (w_heap w) (w_sb w) → commitLoop fl cyc e fuel n s a r w = Ok (n', s', a', r', w') → n ≤ n'.
Proof.
  induction fuel as [|fuel IH]; intros n n' s s' a a' r r' w w' Hr E; cbn in E;
    (destruct (_ <? _); [|injection E as <- _ _ _ _; lia]); [done|].
  apply bind_ok in E as ([[[[[k n1] s1] a1] r1] w1] & E1%commitOne_ok & E); [|done].
  assert (n ≤ n1) by (inversion E1; lia). destruct k; [by injection E as <- _ _ _ _|].
  assert (regs_ok (in_rob r1) (w_heap w1) (w_sb w1)) as Hr1.
  { inversion E1; match goal with R : retired _ _ _ _ _ _ |- _ => apply R end. }
  apply IH in E; [lia|done].
Qed.

Lemma commitLoop_fault (fuel : nat) : ∀ (n n' : Z) s a a' r r' w w',
  regs_ok (in_rob r) (w_heap w) (w_sb w) → 0 ≤ n → s ≠ InstructionFault →
  commitLoop fl cyc e fuel n s a r w = Ok (n', InstructionFault, a', r', w') →
  n' = 0 ∧ ∃ t p, trapped t p a' r' w'.
Proof.
  induction fuel as [|fuel IH]; intros n n' s a a' r r' w w' Hr Hn Hs E; cbn in E; (destruct (_ <? _); [|by injection E]); [done|].
  apply bind_ok in E as ([[[[[k n1] s1] a1] r1] w1] & E1 & E). destruct k.
  - injection E as <- -> <- <- <-. apply commitOne_fault in E1 as (_ & -> & Hle & -> & Ht). split; [lia|done].
  - assert (Hnf : s1 ≠ InstructionFault) by (intros ->; by apply commitOne_fault in E1 as (? & _)).
    apply commitOne_ok in E1; [|done]. eapply IH in E; [done| |inversion E1; lia|done].
    inversion E1; match goal with R : retired _ _ _ _ _ _ |- _ => apply R end.
Qed.

(** ** The fate of the head *)
(** What the stage does with the instruction at the head of the only thread. *)
Definition head_outcome (t : nat) (p : InstPtr) (d : DynInst) (n : Z) (s : CommitHeadError) a' r r' w w' : Prop :=
  match isExecuted d, bool_decide (fault d = NoFault), hasStoresToWB e t with
  | true, true, _ => 0 < n
  | true, false, false => n = 0 ∧ s = InstructionFault ∧ r' = r ∧ trapped t p a' r' w'
  | false, _, false => n = 0 ∧ nonSpecSeqNum (a_info a' t) = seqNum d ∧ r' = r ∧ w' = on_inst p clearCanCommit w
  | _, _, true => n = 0 ∧ s = StoreOrder ∧ r' = r ∧ w' = w
  end.

Lemma commitUnexecuted_taken (p : InstPtr) (d : DynInst) s a a' w w' :
  commitUnexecuted e p d 0 a w = Ok (s, a', w') →
  if hasStoresToWB e (threadNumber d) then s = StoreOrder ∧ w' = w
  else nonSpecSeqNum (a_info a' (threadNumber d)) = seqNum d ∧ w' = on_inst p clearCanCommit w.
Proof.
  unfold commitUnexecuted. intros E. cbn zeta in E. apply bind_ok in E as (? & _ & E). cbn [Z.ltb Z.compare orb] in E.
  destruct (hasStoresToWB _ _); [by injection E as <- <- <-|].
  destruct (_ && _); apply bind_ok in E as (? & _ & E); injection E as <- <- <-; (split; [|done]);
    cbn; rewrite ?fn_lookup_insert; done.
Qed.

Lemma commitHead_first (p : InstPtr) (d : DynInst) s a a' r r' w w' :
  w_heap w !! p = Some d → hd_error (instList r (threadNumber d)) = Some p → isSquashed d = false →
  c_pc (a_commit a) (threadNumber d) = pc d → commitHead fl cyc e p 0 a r w = Ok (s, a', r', w') →
  if decide (s = CommitSuccess) then isExecuted d = true ∧ fault d = NoFault
  else head_outcome (threadNumber d) p d 0 s a' r r' w w'.
Proof.
  intros Hd Hp Hs Hpc E. pose proof E as E0. unfold head_outcome. unfold commitHead in E. rewrite Hd in E.
  cbn [deref mbind res_bind] in E. cbn zeta in E. destruct (isExecuted d) eqn:Hx; cbn [negb] in E.
  2: { apply bind_ok in E as ([[s1 a1] w1] & Eu & E). injection E as -> <- <- <-.
       pose proof Eu as (Hne & _)%commitUnexecuted_ok. rewrite decide_False by done.
       apply commitUnexecuted_taken in Eu. destruct (hasStoresToWB _ _), (bool_decide (fault d = NoFault)); naive_solver. }
  apply bind_ok in E as (? & _ & E). destruct (decide (fault d = NoFault)) as [Hf|Hf].
  - rewrite (bool_decide_false (fault d ≠ NoFault)) in E by naive_solver. apply bind_ok in E as (? & _ & E).
    apply bind_ok in E as ([] & _ & E). injection E as <- _ _ _. by rewrite decide_True.
  - rewrite (bool_decide_false (fault d = NoFault)) in * by done. rewrite andb_false_r, bool_decide_true in E by done.
    apply bind_ok in E as ([[s1 a1] w1] & Eu & E). injection E as -> <- <- <-. pose proof Eu as (Hne & _)%commitFault_ok.
    rewrite decide_False by done. unfold commitFault in Eu. cbn zeta in Eu. rewrite orb_false_r in Eu.
    destruct (hasStoresToWB _ _); [by injection Eu as <- <- <-|]. apply bind_ok in Eu as (? & _ & Eu). injection Eu as <- <- <-.
    by eapply commitHead_fault in E0 as (_ & _ & ?).
Qed.

(** The iteration of the only thread, when its head is ready and not squashed. *)
Lemma commitOne_head (p : InstPtr) (d : DynInst) (n n' : Z) k s a a' r r' w w' :
  numThreads r = 1%nat → activeThreads r = [threadNumber d] → may_commit (commitStatus (a_commit a) (threadNumber d)) = true →
  interrupt a = NoFault → threadEntries r (threadNumber d) ≠ 0 → hd_error (instList r (threadNumber d)) = Some p →
  w_heap w !! p = Some d → readyToCommit d = true → isSquashed d = false →
  commitOne fl cyc e n a r w = Ok (k, n', s, a', r', w') →
  ∃ a0 a1, c_pc (a_commit a0) (threadNumber d) = pc d ∧ commitHead fl cyc e p n a0 r w = Ok (s, a1, r', w')
  ∧ if decide (s = CommitSuccess) then n' = n + 1 else k = Leave ∧ n' = n ∧ a' = a1.
Proof.
  intros Hn Ha Hm Hi Hne Hp Hd Hc Hs E. unfold commitOne in E.
  rewrite bool_decide_false in E by (rewrite Hi; naive_solver). unfold getCommittingThread in E.
  rewrite Hn, Ha in E. cbn [Nat.ltb Nat.leb mbind res_bind] in E. rewrite bool_decide_true in E by done.
  cbn [assert deref hd_error mbind res_bind] in E. rewrite Hm, (proj2 (Z.eqb_neq _ 0) Hne) in E.
  apply bind_ok in E as (o & Eo & E). apply bind_ok in E as (p1 & ->%deref_ok & E). apply readHeadInst_ok in Eo.
  rewrite Hp in Eo. injection Eo as <-. rewrite Hd in E. cbn [deref mbind res_bind] in E. rewrite Hc, Hs in E.
  cbn [negb] in E. cbn zeta in E. rewrite bool_decide_true in E by done. cbn [assert mbind res_bind] in E.
  apply bind_ok in E as ([[[s3 a3] r3] w3] & Eh & E). destruct (decide (s3 = CommitSuccess)) as [->|Hs3].
  - rewrite bool_decide_true in E by done. apply bind_ok in E as (? & _ & E). apply bind_ok in E as ([stop a4] & _ & E).
    injection E as _ <- <- _ <- <-. eexists _, _. split; [|by split; [exact Eh|]]. cbn. by rewrite fn_lookup_insert.
  - rewrite bool_decide_false in E by done. injection E as <- <- <- <- <- <-. eexists _, _.
    split; [|split; [exact Eh|by rewrite decide_False]]. cbn. by rewrite fn_lookup_insert.
Qed.

(** ** Termination *)
(** The handlers of the pc events stop redirecting within [n] rounds. *)
Fixpoint settles (n : nat) (t : nat) (p : PCState) : bool :=
  match n with
  | O => false
  | S n => match pcEvent e t p with
           | None => true
           | Some p' => (instAddr p =? instAddr p') || settles n t p'
           end
  end.

Lemma tc_pcState_pc (tid : nat) (v : PCState) c c' : tc_pcState tid v c = Ok c' → c_pc c' tid = v.
Proof.
  unfold tc_pcState, cpu_squashFromTC, generateTCEvent. cbn zeta. intros E.
  destruct (_ && _); res_simp; cbn; by rewrite fn_lookup_insert.
Qed.
Lemma servicePC_fuelled (n tid : nat) : ∀ (k : Z) c, settles n tid (c_pc c tid) = true → fuelled (servicePC e n tid k c).
Proof.
  induction n as [|n IH]; intros k c Hs; [done|]. cbn in Hs |- *. destruct (pcEvent e tid (c_pc c tid)) as [p|].
  - apply fuelled_bind; [unfold tc_pcState, cpu_squashFromTC, generateTCEvent; no_fuel|]. intros c1 E1.
    apply tc_pcState_pc in E1. rewrite <- E1 in Hs. destruct (_ =? _); [done|]. by apply IH.
  - cbn. by rewrite Z.eqb_refl.
Qed.

Context (Hwake : ∀ p h q, fuelled (IQInterface.wakeDependents fl cyc p h (q : Q))) (Hpc : ∀ t p, settles (pcFuel e) t p = true).

Lemma wakeup_fuelled (p : InstPtr) w : fuelled (wakeupSafeInstructionDependants fl cyc p w).
Proof.
  unfold wakeupSafeInstructionDependants. apply fuelled_bind; [apply Hwake|]. intros [[? h1] q1] _. no_fuel.
  apply fuelled_mfold. intros sb x _. unfold setReg. no_fuel.
Qed.
Lemma retireHead_fuelled (tid : nat) r w : fuelled (retireHead fl cyc tid r w).
Proof.
  unfold retireHead, markFollowingInstructionsAsSafe, markFollowing_loop, markOneAsSafe.
  assert (∀ h r0, fuelled (updateHead h r0)).
  { intros h r0. unfold updateHead. apply fuelled_bind; [|no_fuel]. apply fuelled_mfold. intros b t _.
    unfold updateHead_step. no_fuel. }
  pose proof wakeup_fuelled. no_fuel.
Qed.

Lemma commitRename_fuelled (d : DynInst) (m : UnifiedRenameMap) : fuelled (commitRename (regFile e) d m).
Proof.
  unfold commitRename. apply fuelled_mfold. intros m1 i _. unfold commitDest, rm_setEntry, srm_setEntry. no_fuel.
Qed.
Lemma committing_fuelled h a r : fuelled (getCommittingThread h a r).
Proof.
  unfold getCommittingThread, roundRobin, oldestReady.
  assert (Hrr : ∀ l seen, fuelled (roundRobin_loop h a r seen l)).
  { induction l as [|t l IH]; intros seen; cbn; [done|]. unfold isHeadReady. no_fuel. }
  assert (Hor : fuelled (mfold (oldestReady_step h a r) None (activeThreads r))).
  { apply fuelled_mfold. intros o t _. unfold oldestReady_step, isHeadReady, readHeadInst. no_fuel. }
  no_fuel.
Qed.
Lemma afterCommit_fuelled (tid : nat) (p : InstPtr) (d : DynInst) (n : Z) a : fuelled (afterCommit e tid p d n a).
Proof.
  unfold afterCommit, commitDrain, squashAfter. pose proof (λ t k c, servicePC_fuelled (pcFuel e) t k c (Hpc t _)). no_fuel.
Qed.
Lemma commitHead_fuelled (p : InstPtr) (n : Z) a r w : fuelled (commitHead fl cyc e p n a r w).
Proof.
  pose proof commitRename_fuelled. pose proof retireHead_fuelled. unfold commitHead, commitUnexecuted, commitFault. no_fuel.
Qed.
Lemma commitOne_fuelled (n : Z) a r w : fuelled (commitOne fl cyc e n a r w).
Proof.
  pose proof committing_fuelled. pose proof afterCommit_fuelled. pose proof commitHead_fuelled. pose proof retireHead_fuelled.
  unfold commitOne, handleInterrupt, readHeadInst. no_fuel.
Qed.

Lemma commitLoop_fuelled (fuel : nat) : ∀ (n : Z) s a r w,
  regs_ok (in_rob r) (w_heap w) (w_sb w) → (Z.to_nat (numInstsInROB r) < fuel)%nat →
  fuelled (commitLoop fl cyc e fuel n s a r w).
Proof.
  induction fuel as [|fuel IH]; intros n s a r w Hr Hf; [lia|]. cbn. destruct (_ <? _); [|done].
  apply fuelled_bind; [apply commitOne_fuelled|]. intros [[[[[k n1] s1] a1] r1] w1] E. destruct k; [done|].
  apply commitOne_ok in E; [|done].
  assert (Hret : ∃ t p, retired t p r w r1 w1) by (inversion E; eauto). destruct Hret as (t & p & [_ _ _ Hr1 _ _ [Hpos Hnum]]).
  apply IH; [done|]. lia.
Qed.
End props.

(** The invariant of the buffer gives what the lemmas above need. *)
Lemma rob_inv_lists {Q} (fl : DebugFlags) (pend : nat → Z) (r : ROB) (w : World Q) :
  rob_inv fl pend r w → lists_ok (w_heap w) r.
Proof.
  intros Hinv t. split; [eapply seq_sorted_NoDup, (th_sorted _ _ _ _ _ _ _ (ri_thread _ _ _ _ Hinv t))|].
  intros p Hp. apply (th_live _ _ _ _ _ _ _ (ri_thread _ _ _ _ Hinv t) p Hp).
Qed.

(** C8: a cycle of [commitInsts] removes a prefix of every thread's list of the reorder
    buffer, in program order.  Each instruction removed was ready; those not squashed were
    executed and have no fault, there are [n] of them, at most [commitWidth]; commit's
    rename map is updated with exactly their destinations in that order, and
    [lastCommitedSeqNum] and the [doneSeqNum] sent back are the number of the last one of
    the thread (unchanged if there is none).  The instructions that stay keep everything but
    the flags [Completed] and [CanCommit]. *)
Theorem commit_in_order {Q} `{InstQueueLaws Q} (fl : DebugFlags) (cyc : Z) (e : CommitEnv) (pend : nat → Z)
    (n : Z) (s : CommitHeadError) (a a' : CArch) (r r' : ROB) (w w' : World Q) :
  rob_inv fl pend r w → 0 ≤ commitWidth a → commitInsts fl cyc e a r w = Ok (n, s, a', r', w') →
  n ≤ commitWidth a ∧ ∃ out, retirement e (w_heap w) 0 a r out n a' r' (w_heap w').
Proof.
  intros Hinv Hw E. unfold commitInsts in E. apply bind_ok in E as ([[[[n1 s1] a1] r1] w1] & E & E').
  apply bind_ok in E' as (? & _ & E'). injection E' as <- <- <- <- <-.
  apply commitLoop_ok in E as (Hout & Hle & _); [|apply Hinv|by eapply rob_inv_lists]. split; [lia|done].
Qed.

(** C11: [commitInsts] ends, with the status of its last attempt: the loop needs at most one
    iteration per instruction in the reorder buffer and one more, and the assertion at the
    end, that a cycle in which nothing was committed has a reason, never fails.  The handlers
    of pc events must settle. *)
Theorem commit_terminates (fl : DebugFlags) (cyc : Z) (e : CommitEnv) (pend : nat → Z)
    (a : CArch) (r : ROB) (w : World IQ) :
  (∀ t p, settles e (pcFuel e) t p = true) →
  rob_inv fl pend r w → 0 < commitWidth a →
  fuelled (commitInsts fl cyc e a r w)
  ∧ commitInsts fl cyc e a r w = commitLoop fl cyc e (S (Z.to_nat (numInstsInROB r))) 0 CommitSuccess a r w.
Proof.
  intros Hpc Hinv Hw. pose proof (ri_regs _ _ _ _ Hinv) as Hr. pose proof (rob_inv_lists _ _ _ _ Hinv) as Hl.
  assert (Hf : fuelled (commitLoop fl cyc e (S (Z.to_nat (numInstsInROB r))) 0 CommitSuccess a r w)).
  { apply commitLoop_fuelled; [|done..|lia]. intros p h q. apply iq_wake_fuelled. }
  unfold commitInsts. destruct (commitLoop _ _ _ _ _ _ _ _ _) as [[[[[n s] a1] r1] w1]|f] eqn:E; [|done]. cbn.
  apply commitLoop_ok in E as (_ & _ & Hor); [|done..].
  assert ((0 <? n) || bool_decide (s ≠ CommitSuccess) = true) as ->; [|done].
  destruct (Hor Hw); [by rewrite (bool_decide_true (s ≠ _)), orb_true_r|]. by rewrite (proj2 (Z.ltb_lt 0 n)).
Qed.

(** C9: a fault is precise.  When [commitInsts] ends with a fault, nothing was committed in the
    cycle; the faulting instruction is the head of its thread, was executed, is not squashed,
    and no store of the thread waits to be written back; the thread waits for its trap, its
    pc is the one the trap leaves, starting from the pc of the instruction; commit's rename
    map and the committed sequence numbers are those of before. *)
Theorem commit_faults_precise {Q} `{InstQueueLaws Q} (fl : DebugFlags) (cyc : Z) (e : CommitEnv) (pend : nat → Z)
    (n : Z) (a a' : CArch) (r r' : ROB) (w w' : World Q) :
  rob_inv fl pend r w → commitInsts fl cyc e a r w = Ok (n, InstructionFault, a', r', w') →
  n = 0 ∧ (∃ t p, trapped e t p a' r' w')
  ∧ ∀ t, commitMap a' t = commitMap a t ∧ lastCommitedSeqNum (a_commit a') t = lastCommitedSeqNum (a_commit a) t.
Proof.
  intros Hinv E. unfold commitInsts in E. apply bind_ok in E as ([[[[n1 s1] a1] r1] w1] & E & E').
  apply bind_ok in E' as (? & _ & E'). injection E' as <- -> <- <- <-.
  pose proof E as E2. apply commitLoop_fault in E2 as (-> & Ht); [|apply Hinv|done..]. split; [done|]. split; [done|].
  apply commitLoop_ok in E as ((out & [_ _ Hc Hl _ Hm _]) & _); [|apply Hinv|by eapply rob_inv_lists].
  assert (Hnil : ∀ t, unsquashed (w_heap w) (of_thread (w_heap w) t out) = []).
  { intros t. assert (unsquashed (w_heap w) out = []) as Ho by (apply length_zero_iff_nil; lia).
    apply elem_of_nil_inv. intros q Hq. apply list_elem_of_filter in Hq as [Hq Hin%of_thread_sub].
    apply (not_elem_of_nil q). rewrite <- Ho. by apply list_elem_of_filter. }
  intros t. specialize (Hm t). specialize (Hl t). rewrite Hnil in Hm, Hl. by injection Hm as <-.
Qed.

(** C10: the head instruction decides the cycle of a single running thread.  When the head is
    ready and not squashed: if it is executed and has no fault, it is committed; if it has a
    fault, it traps, unless stores of the thread wait to be written back, in which case
    nothing happens; if it is not executed, the IQ is told that it may be, under the same
    condition on stores, and it waits until it is marked ready again. *)
Theorem commit_head_decides {Q} `{InstQueueLaws Q} (fl : DebugFlags) (cyc : Z) (e : CommitEnv) (pend : nat → Z)
    (t : nat) (p : InstPtr) (d : DynInst) (n : Z) (s : CommitHeadError) (a a' : CArch) (r r' : ROB) (w w' : World Q) :
  rob_inv fl pend r w → numThreads r = 1%nat → activeThreads r = [t] → may_commit (commitStatus (a_commit a) t) = true →
  interrupt a = NoFault → 0 < commitWidth a →
  hd_error (instList r t) = Some p → w_heap w !! p = Some d → readyToCommit d = true → isSquashed d = false →
  commitInsts fl cyc e a r w = Ok (n, s, a', r', w') → head_outcome e t p d n s a' r r' w w'.
Proof.
  intros Hinv Hn Ha Hm Hi Hw Hp Hd Hc Hs E. unfold commitInsts in E. apply bind_ok in E as ([[[[n1 s1] a1] r1] w1] & E & E').
  apply bind_ok in E' as (? & _ & E'). injection E' as <- <- <- <- <-.
  assert (Ht : threadNumber d = t).
  { destruct (rob_inv_lists _ _ _ _ Hinv t) as [_ Hl]. destruct (Hl p) as (d1 & E1 & <-); [|congruence].
    destruct (instList r t); [done|]. injection Hp as ->. left. }
  assert (Hne : threadEntries r t ≠ 0).
  { rewrite (ri_entries _ _ _ _ Hinv). destruct (instList r t); [done|]. cbn [length]. lia. }
  subst t. cbn [commitLoop] in E. rewrite (proj2 (Z.ltb_lt 0 _) Hw) in E.
  apply bind_ok in E as ([[[[[k n2] s2] a2] r2] w2] & E1 & E).
  eapply commitOne_head in E1 as (a3 & a4 & Hpc & Eh & E1); [|done..].
  pose proof Eh as Hout. eapply commitHead_first in Hout; [|done..]. case_decide as Hs2.
  - subst s2 n2. unfold head_outcome. destruct Hout as [-> Hf]. rewrite (bool_decide_true _ Hf).
    apply (commitHead_ok _ _ _ _ d) in Eh as [(? & _)|(_ & _ & _ & Hret & _)]; [done| |done..|apply Hinv].
    destruct k; [injection E as <- _ _ _ _; lia|]. apply commitLoop_grows in E; [lia|apply Hret].
  - destruct E1 as (-> & -> & ->). by injection E as <- <- <- <- <-.
Qed.

(** ** Commit as steps of the protection scheme *)
(** A thread keeps its status or stops committing; a recorded change stays recorded. *)
Definition status_moves (c c' : Commit) : Prop :=
  (∀ t, commitStatus c' t = commitStatus c t ∨ commitStatus c' t = TrapPending
        ∨ commitStatus c' t = SquashAfterPending ∧ squashing (commitStatus c t) = false)
  ∧ ∀ t, changedROBNumEntries c t = true → changedROBNumEntries c' t = true.
#[export] Instance status_moves_refl : Reflexive status_moves.
Proof. intros c. split; [by left|done]. Qed.
#[export] Instance status_moves_trans : Transitive status_moves.
Proof.
  intros c1 c2 c3 [S1 C1] [S2 C2]. split; [|by auto]. intros t. destruct (S2 t) as [->|[?|[E Hn]]]; [done|by auto|].
  destruct (S1 t) as [E1|[E1|[_ E1]]]; rewrite ?E1 in Hn; auto. done.
Qed.
Lemma status_moves_may (c c' : Commit) (t : nat) :
  status_moves c c' → may_commit (commitStatus c' t) = true → may_commit (commitStatus c t) = true.
Proof. intros [Hs _]. by destruct (Hs t) as [->|[->|[-> _]]]. Qed.
Lemma status_moves_keeps (c c' : Commit) : status_moves c c' → keeps_squashing c c'.
Proof. intros [Hs _] t Ht. destruct (Hs t) as [->|[->|[_ Hn]]]; [done|done|congruence]. Qed.

Lemma status_set (t : nat) (x : ThreadStatus) (c c' : Commit) :
  x = TrapPending ∨ x = SquashAfterPending ∧ squashing (commitStatus c t) = false → commitStatus c' = <[t := x]> (commitStatus c) →
  changedROBNumEntries c' = changedROBNumEntries c → status_moves c c'.
Proof.
  intros Hx E Ec. split; [|intros t'; by rewrite Ec]. intros t'. rewrite E. destruct (decide (t' = t)) as [->|Hne]; [rewrite fn_lookup_insert; naive_solver|].
  rewrite fn_lookup_insert_ne by done. by left.
Qed.
Lemma squashAfter_status (t : nat) (p : InstPtr) (c c' : Commit) :
  squashing (commitStatus c t) = false → squashAfter t p c = Ok c' →
  status_moves c c' ∧ squashing (commitStatus c' t) = false.
Proof.
  unfold squashAfter. intros Hn E. res_simp. split; [apply (status_set t SquashAfterPending); auto|].
  cbn. by rewrite fn_lookup_insert.
Qed.
Lemma servicePC_status (e : CommitEnv) (fuel tid : nat) : ∀ (k k' : Z) (c c' : Commit),
  servicePC e fuel tid k c = Ok (k', c') → status_moves c c' ∧ commitStatus c' = commitStatus c.
Proof.
  induction fuel as [|fuel IH]; intros k k' c c' E; [done|]. cbn in E.
  apply bind_ok in E as (c1 & E1 & E). assert (status_moves c c1 ∧ commitStatus c1 = commitStatus c) as [H1 Es1].
  { destruct (pcEvent _ _ _); [|by injection E1 as <-]. unfold tc_pcState, cpu_squashFromTC, generateTCEvent in E1.
    cbn zeta in E1. destruct (_ && _); res_simp; (split; [by split; [left|]|done]). }
  destruct (_ =? _); [by injection E as <- <-|]. apply IH in E as [? ->]. split; [by etrans|done].
Qed.

(** What the stage tells rename about the reorder buffer. *)
Definition rob_sig (i : ArchInfo) : bool * Z * bool := (usedROB i, freeROBEntries i, emptyROB i).
(** The commit loop sends none of it and does not decide whether the stage stays active. *)
Definition loop_moves (a a' : CArch) : Prop :=
  status_moves (a_commit a) (a_commit a') ∧ c_nextStatus a' = c_nextStatus a
  ∧ checkEmptyROB a' = checkEmptyROB a ∧ ∀ t, rob_sig (a_info a' t) = rob_sig (a_info a t).
#[export] Instance loop_moves_refl : Reflexive loop_moves.
Proof. by intros a. Qed.
#[export] Instance loop_moves_trans : Transitive loop_moves.
Proof.
  intros a1 a2 a3 (?&?&?&S1) (?&?&?&S2). split_and!; [by etrans|congruence..|]. intros t. by rewrite S2.
Qed.
Lemma loop_moves_commit (a : CArch) (c : Commit) : status_moves (a_commit a) c → loop_moves a (a <| a_commit := c |>).
Proof. by intros Hs. Qed.
Lemma loop_moves_info (t : nat) (f : ArchInfo → ArchInfo) (a : CArch) :
  (∀ i, rob_sig (f i) = rob_sig i) → loop_moves a (on_arch t f a).
Proof.
  intros Hf. split; [done|]. split; [done|]. split; [done|]. intros t'. cbn.
  destruct (decide (t' = t)) as [->|Hne]; [by rewrite fn_lookup_insert|by rewrite fn_lookup_insert_ne].
Qed.

(** The update touches none of it. *)
Ltac keep_moves := split_and!; [split; [by left|cbn; auto]|done..].

Lemma loop_moves_changed (t : nat) (a : CArch) :
  loop_moves a (on_commit (λ c, c <| changedROBNumEntries ::= <[t := true]> |>) a).
Proof.
  split_and!; [split; [by left|]|done..]. intros t' Ht. cbn.
  destruct (decide (t' = t)) as [->|Hne]; [by rewrite fn_lookup_insert|by rewrite fn_lookup_insert_ne].
Qed.

Lemma trap_moves (e : CommitEnv) (flt flt' : Fault) (t : nat) si (a : CArch) :
  loop_moves a (generateTrapEvent e t flt' (execTrap e flt t si a)).
Proof. split_and!; [|done..]. apply (status_set t TrapPending); auto. Qed.

Lemma handleInterrupt_moves (e : CommitEnv) (n : Z) (a a' : CArch) : handleInterrupt e n a = Ok a' → loop_moves a a'.
Proof.
  unfold handleInterrupt. intros E. destruct (negb _); [injection E as <-; etrans; [|by apply (loop_moves_info 0)]; keep_moves|].
  destruct (_ && _); [|by injection E as <-]. cbn zeta in E. res_simp.
  etrans; [by apply (loop_moves_info 0 (λ i, i <| clearInterrupt := true |>))|].
  split_and!; [apply (status_set 0 TrapPending); auto|done..].
Qed.

Lemma afterCommit_moves (e : CommitEnv) (tid : nat) (p : InstPtr) (d : DynInst) (n : Z) (a a' : CArch) (stop : bool) :
  squashing (commitStatus (a_commit a) tid) = false → afterCommit e tid p d n a = Ok (stop, a') → loop_moves a a' ∧ changedROBNumEntries (a_commit a') tid = true.
Proof.
  unfold afterCommit. set (a1 := on_commit _ a). set (a2 := if (tid =? 0)%nat then _ else a1).
  set (a3 := on_commit _ a2). cbn zeta. intros Hn E. apply bind_ok in E as (u & _ & E).
  assert (H3 : loop_moves a a3 ∧ changedROBNumEntries (a_commit a3) tid = true).
  { subst a3 a2 a1. destruct (tid =? 0)%nat; (split; [|cbn; by rewrite fn_lookup_insert]);
      (split_and!; [split; [by left|]|done..]); intros t Ht; cbn; (destruct (decide (t = tid)) as [->|Hne];
      [by rewrite fn_lookup_insert|by rewrite fn_lookup_insert_ne]). }
  assert (Hn3 : squashing (commitStatus (a_commit a3) tid) = false) by (subst a3 a2 a1; by destruct (tid =? 0)%nat).
  clearbody a3. clear a1 a2. destruct H3 as [H3 Hch].
  apply bind_ok in E as (c & Ec & E).
  assert (status_moves (a_commit a3) c ∧ squashing (commitStatus c tid) = false) as [H1%loop_moves_commit Hn1].
  { destruct (isSquashAfter d); [by eapply squashAfter_status|by injection Ec as <-]. }
  apply bind_ok in E as (a4 & E4 & E).
  assert (loop_moves (a3 <| a_commit := c |>) a4 ∧ squashing (commitStatus (a_commit a4) tid) = false) as [H4 Hn4].
  { unfold commitDrain in E4. cbn zeta in E4. destruct (_ && _); [|by injection E4 as <-].
    apply bind_ok in E4 as (c1 & [? ?]%squashAfter_status & E4); [|done]. by injection E4 as <-. }
  apply bind_ok in E as ([b a5] & E5 & E).
  assert (loop_moves a4 a5 ∧ squashing (commitStatus (a_commit a5) tid) = false) as [H5 Hn5].
  { destruct (onInstBoundary d); [|by injection E5 as <- <-]. apply bind_ok in E5 as (? & _ & E5).
    apply bind_ok in E5 as ([k c1] & [Es Ec1]%servicePC_status & E5). injection E5 as <- <-.
    split; [by apply loop_moves_commit|]. cbn. by rewrite Ec1. }
  assert (H6 : loop_moves a5 a').
  { destruct b; [by injection E as <- <-|]. apply bind_ok in E as (c1 & Ec1 & E). injection E as <- <-. apply loop_moves_commit.
    destruct (_ && checkInterrupts e n); [by eapply squashAfter_status|by injection Ec1 as <-]. }
  assert (H7 : loop_moves a3 a') by (etrans; [exact H1|]; etrans; [exact H4|]; by etrans).
  split; [by etrans|]. by apply H7.
Qed.

Lemma commitHead_moves {Q} `{InstQueue Q} (fl : DebugFlags) (cyc : Z) (e : CommitEnv) (p : InstPtr) (n : Z) st
    (a a' : CArch) (r r' : ROB) (w w' : World Q) :
  commitHead fl cyc e p n a r w = Ok (st, a', r', w') → loop_moves a a'.
Proof.
  unfold commitHead. intros E. apply bind_ok in E as (d & _ & E). cbn zeta in E. destruct (negb (isExecuted d)).
  { apply bind_ok in E as ([[s1 a1] w1] & Eu & E). injection E as _ <- _ _. unfold commitUnexecuted in Eu. cbn zeta in Eu.
    apply bind_ok in Eu as (? & _ & Eu). destruct (_ || _); [injection Eu as _ <- _; keep_moves|].
    set (a2 := on_arch _ (λ i, i <| nonSpecSeqNum := seqNum d |>) _) in Eu. assert (H2 : loop_moves a a2) by (etrans; [|by apply (loop_moves_info (threadNumber d))]; keep_moves).
    destruct (_ && _); apply bind_ok in Eu as (? & _ & Eu); injection Eu as _ <- _; [|done].
    etrans; [exact H2|]. by apply loop_moves_info. }
  apply bind_ok in E as (? & _ & E). destruct (bool_decide (fault d ≠ NoFault)).
  - apply bind_ok in E as ([[s1 a1] w1] & Eu & E). injection E as _ <- _ _. unfold commitFault in Eu. cbn zeta in Eu.
    destruct (_ || _); [by injection Eu as _ <- _|]. apply bind_ok in Eu as (? & _ & Eu). injection Eu as _ <- _.
    apply trap_moves.
  - apply bind_ok in E as (m & _ & E). apply bind_ok in E as ([r1 w2] & _ & E). injection E as _ <- _ _.
    unfold updateComInstStats. destruct (isStore d), (negb (isMicroop d) || isLastMicroop d); keep_moves.
Qed.

Lemma commitHead_status {Q} `{InstQueue Q} (fl : DebugFlags) (cyc : Z) (e : CommitEnv) (p : InstPtr) (n : Z)
    (a a' : CArch) (r r' : ROB) (w w' : World Q) :
  commitHead fl cyc e p n a r w = Ok (CommitSuccess, a', r', w') → commitStatus (a_commit a') = commitStatus (a_commit a).
Proof.
  unfold commitHead. intros E. apply bind_ok in E as (d & _ & E). cbn zeta in E. destruct (negb (isExecuted d)).
  { apply bind_ok in E as ([[s1 a1] w1] & Eu & E). injection E as -> <- _ _. unfold commitUnexecuted in Eu. cbn zeta in Eu.
    apply bind_ok in Eu as (? & _ & Eu). destruct (_ || _); [by injection Eu as _ <- _|].
    destruct (_ && _); apply bind_ok in Eu as (? & _ & Eu); by injection Eu as _ <- _. }
  apply bind_ok in E as (? & _ & E). destruct (bool_decide (fault d ≠ NoFault)).
  - apply bind_ok in E as ([[s1 a1] w1] & Eu & E). injection E as -> <- _ _. unfold commitFault in Eu. cbn zeta in Eu.
    destruct (_ || _); [done|]. by apply bind_ok in Eu as (? & _ & Eu).
  - apply bind_ok in E as (m & _ & E). apply bind_ok in E as ([r1 w2] & _ & E). injection E as <- _ _.
    unfold updateComInstStats. by destruct (isStore d), (negb (isMicroop d) || isLastMicroop d).
Qed.
Lemma may_commit_calm (s : ThreadStatus) : may_commit s = true → squashing s = false.
Proof. by destruct s. Qed.

(** Retiring an instruction changes the count of its own thread only. *)
Lemma retireHead_entries {Q} `{InstQueue Q} (fl : DebugFlags) (cyc : Z) (tid : nat) (r r' : ROB) (w w' : World Q) :
  retireHead fl cyc tid r w = Ok (r', w') → ∀ t, t ≠ tid → threadEntries r' t = threadEntries r t.
Proof.
  unfold retireHead. intros E t Ht. apply bind_ok in E as (? & _ & E). apply bind_ok in E as (p & _ & E).
  apply bind_ok in E as (d & _ & E). apply bind_ok in E as (? & _ & E). cbn zeta in E.
  apply bind_ok in E as (w1 & _ & E). apply bind_ok in E as ([r2 w2] & E2 & E).
  apply bind_ok in E as (r3 & [hd ->]%updateHead_ok & E). injection E as <- <-. cbn.
  destruct (maySquashOthers d); res_simp; cbn; by rewrite fn_lookup_insert_ne.
Qed.
Lemma commitHead_entries {Q} `{InstQueue Q} (fl : DebugFlags) (cyc : Z) (e : CommitEnv) (p : InstPtr) (d : DynInst) (n : Z) st
    (a a' : CArch) (r r' : ROB) (w w' : World Q) :
  w_heap w !! p = Some d → commitHead fl cyc e p n a r w = Ok (st, a', r', w') →
  r' = r ∨ st = CommitSuccess ∧ ∀ t, t ≠ threadNumber d → threadEntries r' t = threadEntries r t.
Proof.
  unfold commitHead. intros Hd E. rewrite Hd in E. cbn [deref mbind res_bind] in E. cbn zeta in E. destruct (negb (isExecuted d)).
  { apply bind_ok in E as ([[s1 a1] w1] & _ & E). injection E as _ _ <- _. by left. }
  apply bind_ok in E as (? & _ & E). destruct (bool_decide (fault d ≠ NoFault)).
  - apply bind_ok in E as ([[s1 a1] w1] & _ & E). injection E as _ _ <- _. by left.
  - apply bind_ok in E as (m & _ & E). apply bind_ok in E as ([r1 w2] & Er & E). injection E as <- _ <- _. right. split; [done|].
    by eapply retireHead_entries.
Qed.

(** Only a thread that may commit is chosen. *)
Lemma roundRobin_may (h : heap) (a : CArch) (r : ROB) (t : nat) (l : list nat) : ∀ seen l',
  roundRobin_loop h a r seen l = Ok (Some t, l') → may_commit (commitStatus (a_commit a) t) = true.
Proof.
  induction l as [|x l IH]; intros seen l' E; cbn in E; [done|]. apply bind_ok in E as (b & Eb & E).
  destruct b; [|by eapply IH]. injection E as <- _. by destruct (may_commit _).
Qed.
Lemma oldestReady_may (h : heap) (a : CArch) (r : ROB) (t : nat) :
  oldestReady h a r = Ok (Some t) → may_commit (commitStatus (a_commit a) t) = true.
Proof.
  intros E. cut (∀ o, oldestReady h a r = Ok o → ∀ t, o = Some t → may_commit (commitStatus (a_commit a) t) = true).
  { intros Hc. by eapply Hc. }
  clear t E. intros o. unfold oldestReady.
  apply (mfold_inv (λ o, ∀ t, o = Some t → may_commit (commitStatus (a_commit a) t) = true)); [|done].
  intros o1 x o2 _ Hi E t ->. unfold oldestReady_step in E. destruct (_ && _) eqn:Hb; [|injection E as ->; by apply Hi].
  apply andb_true_iff in Hb as [_ Hb]. apply bind_ok in E as (b & _ & E). destruct b; [|injection E as ->; by apply Hi].
  res_simp. destruct o1; [destruct (_ <? _)|]; simplify_eq; auto.
Qed.
Lemma committing_may (h : heap) (a a' : CArch) (r : ROB) (t : nat) :
  getCommittingThread h a r = Ok (Some t, a') → may_commit (commitStatus (a_commit a) t) = true.
Proof.
  unfold getCommittingThread, roundRobin. intros E.
  destruct (_ <? _)%nat; [destruct (commitPolicy a)|]; res_simp; try by eapply oldestReady_may.
  - by eapply roundRobin_may.
  - destruct (may_commit _) eqn:Hm; congruence.
Qed.

(** One iteration; the thread whose instruction leaves is recorded. *)
Lemma commitOne_moves {Q} `{InstQueue Q} (fl : DebugFlags) (cyc : Z) (e : CommitEnv) (n n' : Z) k s
    (a a' : CArch) (r r' : ROB) (w w' : World Q) :
  commitOne fl cyc e n a r w = Ok (k, n', s, a', r', w') →
  loop_moves a a'
  ∧ (r' = r ∨ ∃ t, changedROBNumEntries (a_commit a') t = true ∧ ∀ x, x ≠ t → threadEntries r' x = threadEntries r x).
Proof.
  intros E. unfold commitOne in E. apply bind_ok in E as (a1 & E1 & E).
  assert (H1 : loop_moves a a1).
  { destruct (bool_decide _); [by eapply handleInterrupt_moves|by injection E1 as <-]. }
  apply bind_ok in E as ([o a2] & E2 & E). pose proof E2 as (l & Ea & _)%committing_same.
  assert (H2 : loop_moves a a2) by (by subst a2).
  destruct o as [t|]; [|injection E as _ _ _ <- <- _; auto]. destruct (_ =? 0); [injection E as _ _ _ <- <- _; auto|].
  apply bind_ok in E as (o & _ & E). apply bind_ok in E as (p & _ & E).
  apply bind_ok in E as (d & Hd%deref_ok & E). destruct (negb (readyToCommit d)); [injection E as _ _ _ <- <- _; auto|].
  cbn zeta in E. apply bind_ok in E as (? & Ht%assert_ok & E). apply bool_decide_eq_true in Ht. subst t.
  destruct (isSquashed d).
  - apply bind_ok in E as ([r1 w1] & Er & E). injection E as _ _ _ <- <- _. split; [etrans; [exact H2|apply loop_moves_changed]|].
    right. exists (threadNumber d). split; [cbn; by rewrite fn_lookup_insert|by eapply retireHead_entries].
  - apply bind_ok in E as ([[[s1 a4] r1] w1] & Eh & E). pose proof (commitHead_moves _ _ _ _ _ _ _ _ _ _ _ _ Eh) as Hst.
    pose proof Eh as Eh0. apply (commitHead_entries _ _ _ _ d) in Eh; [|done]. case_bool_decide as Hs1.
    + apply bind_ok in E as (d' & _ & E). rewrite Hs1 in Eh0. apply commitHead_status in Eh0. apply committing_may, may_commit_calm in E2.
      apply bind_ok in E as ([stop a5] & [H5 Hch]%afterCommit_moves & E); [|rewrite Eh0; cbn; by rewrite Ea].
      injection E as _ _ _ <- <- _. split; [etrans; [exact H2|]; etrans; [exact Hst|exact H5]|].
      destruct Eh as [->|[_ Hx]]; [by left|]. right. by exists (threadNumber d).
    + injection E as _ _ _ <- <- _. split; [by etrans; [exact H2|]|]. destruct Eh as [->|[? _]]; [by left|done].
Qed.

Section steps.
Context (fl : DebugFlags) (adv : StaticInst → PCState → PCState) (cyc : Z) (e : CommitEnv).
Implicit Types (w : World IQ) (r : ROB) (a : CArch).

Definition view (s : Sys) a r w : Sys := s <| s_commit := a_commit a |> <| s_rob := r |> <| s_world := w |>.
Abbreviation steps := (rtc (step fl adv)).

Lemma steps_commit s a a' r w : loop_moves a a' → steps (view s a r w) (view s a' r w).
Proof. intros [Hm _]. apply rtc_once. apply (step_commit fl adv (a_commit a') (view s a r w)). by apply status_moves_keeps. Qed.

Lemma steps_mark s a r w (p : InstPtr) (f : DynInst → DynInst) :
  (∀ d, quiet p d (f d)) → steps (view s a r w) (view s a r (on_inst p f w)).
Proof.
  intros Hf. apply rtc_once. apply (step_other fl adv (on_inst p f w) (s_taint s) (view s a r w)); [|done].
  cbn. apply hrel_alter; [|by intros d _ _]. intros q d _. by apply changed_nil_quiet.
Qed.

Lemma steps_retire s a r r' w w' (t : nat) :
  may_commit (commitStatus (a_commit a) t) = true →
  retireHead fl cyc t r w = Ok (r', w') → steps (view s a r w) (view s a r' w').
Proof. intros Hs E. apply rtc_once. by eapply (step_retire fl adv cyc t (view s a r w)). Qed.

Lemma quiet_flag (s : Status) (p : InstPtr) (d d' : DynInst) :
  s ∈ [CanCommit; Completed] → changed [s] d d' → quiet p d d'.
Proof. intros Hs. apply changed_mono. unfold unread. set_solver. Qed.

Lemma commitHead_steps s (p : InstPtr) (d : DynInst) (n : Z) st a a' r r' w w' :
  w_heap w !! p = Some d → may_commit (commitStatus (a_commit a) (threadNumber d)) = true →
  commitHead fl cyc e p n a r w = Ok (st, a', r', w') → steps (view s a r w) (view s a' r' w').
Proof.
  intros Hd Hs E. pose proof E as Hmv%commitHead_moves. unfold commitHead in E. rewrite Hd in E. cbn [deref mbind res_bind] in E. cbn zeta in E.
  assert (Hc : ∀ a, steps (view s a r w) (view s a r (on_inst p setCompleted w))).
  { intros a0. apply steps_mark. intros d0. apply (quiet_flag Completed); [set_solver|apply changed_st_set]. }
  destruct (negb (isExecuted d)).
  { apply bind_ok in E as ([[s1 a1] w1] & Eu & E). injection E as _ <- <- <-. etrans; [|by apply (steps_commit _ a)].
    unfold commitUnexecuted in Eu. cbn zeta in Eu. apply bind_ok in Eu as (? & _ & Eu).
    destruct (_ || _); [by injection Eu as _ _ <-|].
    assert (steps (view s a r w) (view s a r (on_inst p clearCanCommit w))).
    { apply steps_mark. intros d0. apply (quiet_flag CanCommit); [set_solver|apply changed_st_reset]. }
    destruct (_ && _); apply bind_ok in Eu as (? & _ & Eu); by injection Eu as _ _ <-. }
  apply bind_ok in E as (? & _ & E). destruct (bool_decide (fault d ≠ NoFault)) eqn:Hf.
  - apply bool_decide_eq_true in Hf. rewrite (bool_decide_false (fault d = NoFault)), andb_false_r in E by done.
    apply bind_ok in E as ([[s1 a1] w1] & Eu & E). injection E as _ <- <- <-. etrans; [|by apply (steps_commit _ a)].
    unfold commitFault in Eu. cbn zeta in Eu. destruct (_ || _); [by injection Eu as _ _ <-|].
    apply bind_ok in Eu as (? & _ & Eu). by injection Eu as _ _ <-.
  - apply bind_ok in E as (m & _ & E). apply bind_ok in E as ([r1 w2] & Er & E). injection E as _ <- <- <-.
    etrans; [|by apply (steps_commit _ a)]. destruct (negb (isStore d) && _); [|by eapply steps_retire].
    etrans; [apply Hc|]. by eapply (steps_retire _ _ _ _ _ _ (threadNumber d)).
Qed.

Lemma commitOne_steps s (n n' : Z) k st a a' r r' w w' :
  commitOne fl cyc e n a r w = Ok (k, n', st, a', r', w') → steps (view s a r w) (view s a' r' w').
Proof.
  intros E. unfold commitOne in E. apply bind_ok in E as (a1 & E1 & E).
  assert (H1 : loop_moves a a1).
  { destruct (bool_decide _); [by eapply handleInterrupt_moves|by injection E1 as <-]. }
  apply bind_ok in E as ([o a2] & E2 & E). pose proof E2 as (l & Ea & _)%committing_same.
  assert (H2 : loop_moves a a2) by (by subst a2).
  destruct o as [t|]; [|injection E as _ _ _ <- <- <-; by apply steps_commit].
  apply committing_may in E2.
  destruct (_ =? 0); [injection E as _ _ _ <- <- <-; by apply steps_commit|].
  apply bind_ok in E as (o & Ep & E). apply bind_ok in E as (p & ->%deref_ok & E).
  apply bind_ok in E as (d & Hd%deref_ok & E). destruct (readyToCommit d) eqn:Hc; cbn [negb] in E.
  2: { injection E as _ _ _ <- <- <-. by apply steps_commit. }
  cbn zeta in E. apply bind_ok in E as (? & Ht%assert_ok & E). apply bool_decide_eq_true in Ht. subst t.
  assert (Hmay : may_commit (commitStatus (a_commit a2) (threadNumber d)) = true) by (by subst a2).
  destruct (isSquashed d).
  - apply bind_ok in E as ([r1 w1] & Er & E). injection E as _ _ _ <- <- <-.
    etrans; [by apply (steps_commit s a a2)|]. etrans; [by eapply steps_retire|]. apply steps_commit, loop_moves_changed.
  - apply bind_ok in E as ([[[s1 a4] r1] w1] & Eh & E). set (a3 := on_commit _ _) in Eh.
    assert (H3 : loop_moves a a3) by (etrans; [exact H2|]; subst a3; keep_moves).
    pose proof Eh as Eh0. eapply (commitHead_steps s) in Eh; [|done..]. case_bool_decide as Hs1.
    + apply bind_ok in E as (d' & _ & E). apply bind_ok in E as ([stop a5] & E5 & E). rewrite Hs1 in Eh0. apply commitHead_status in Eh0.
      apply afterCommit_moves in E5 as [H5 _]; [|rewrite Eh0; by apply may_commit_calm].
      injection E as _ _ _ <- <- <-. etrans; [by apply (steps_commit _ a a3)|]. etrans; [exact Eh|]. by apply steps_commit.
    + injection E as _ _ _ <- <- <-. etrans; [by apply (steps_commit _ a a3)|exact Eh].
Qed.

Lemma commitLoop_steps s (fuel : nat) : ∀ (n n' : Z) st st' a a' r r' w w',
  commitLoop fl cyc e fuel n st a r w = Ok (n', st', a', r', w') → steps (view s a r w) (view s a' r' w').
Proof.
  induction fuel as [|fuel IH]; intros n n' st st' a a' r r' w w' E; cbn in E;
    (destruct (_ <? _); [|by injection E as _ _ <- <- <-]); [done|].
  apply bind_ok in E as ([[[[[k n1] s1] a1] r1] w1] & E1%(commitOne_steps s) & E).
  destruct k; [by injection E as _ _ <- <- <-|]. etrans; [exact E1|by eapply IH].
Qed.
End steps.

(** C12: committing is a run of the protection scheme.  From any reachable state of the system
    of [NDA.v], with commit's part of it in [a], a cycle of [commitInsts] is a sequence of its
    steps (retirements from threads that may commit, flags of no interest to the scheme,
    commit's own bookkeeping), so every guarantee of that system holds between and after
    commits. *)
Theorem commit_refines_scheme (fl : DebugFlags) (adv : StaticInst → PCState → PCState) (cyc : Z) (e : CommitEnv)
    (s : Sys) (n : Z) (st : CommitHeadError) (a a' : CArch) (r' : ROB) (w' : World IQ) :
  NDA.reachable fl adv s → a_commit a = s_commit s →
  commitInsts fl cyc e a (s_rob s) (s_world s) = Ok (n, st, a', r', w') →
  rtc (step fl adv) s (view s a' r' w') ∧ NDA.reachable fl adv (view s a' r' w').
Proof.
  intros Hreach Ec E.
  assert (Es : view s a (s_rob s) (s_world s) = s) by (unfold view; rewrite Ec; by destruct s).
  unfold commitInsts in E. apply bind_ok in E as ([[[[n1 s1] a1] r1] w1] & E & E').
  apply bind_ok in E' as (? & _ & E'). injection E' as <- <- <- <- <-.
  apply (commitLoop_steps fl adv cyc e s) in E. rewrite Es in E.
  split; [done|]. clear - Hreach E. induction E as [|x y z Hxy _ IH]; [done|]. apply IH. by eapply reach_step.
Qed.

(** ** The choice of a thread *)
(** The thread may commit and its head is ready. *)
Definition choosable (h : heap) (a : CArch) (r : ROB) (t : nat) : bool :=
  negb (isEmpty_tid t r) && may_commit (commitStatus (a_commit a) t)
  && match isHeadReady t h r with Ok b => b | Err _ => false end.

Lemma oldestReady_step_ok (h : heap) (a : CArch) (r : ROB) (o o' : option nat) (t : nat) :
  oldestReady_step h a r o t = Ok o' →
  (choosable h a r t = false ∧ o' = o)
  ∨ choosable h a r t = true ∧ ∃ p d, hd_error (instList r t) = Some p ∧ h !! p = Some d
    ∧ o' = Some (match o with Some x => if seqNum d <? Z.of_nat x then t else x | None => t end).
Proof.
  unfold oldestReady_step, choosable. intros E. destruct (_ && _); [|left; by injection E as <-]. cbn [andb].
  destruct (isHeadReady t h r) as [[]|]; [|left; by injection E as <-|done]. cbn [mbind res_bind] in E. right. split; [done|].
  apply bind_ok in E as (x & Ex & E). apply bind_ok in E as (p & ->%deref_ok & E). apply readHeadInst_ok in Ex.
  apply bind_ok in E as (d & Ed%deref_ok & E). exists p, d. split; [done|]. split; [done|].
  destruct o; [destruct (_ <? _)|]; by injection E as <-.
Qed.

(** C14: the policies "oldest ready" and "aggressive" choose by position, not by age.
    [oldestReady] compares the sequence number of a head with the id of the thread found so
    far instead of its sequence number; since sequence numbers exceed thread ids, it returns
    the first active thread that can commit, however young its head is. *)
Theorem oldest_ready_is_first (h : heap) (a : CArch) (r : ROB) (t : nat) :
  (∀ x y p d, x ∈ activeThreads r → y ∈ activeThreads r → hd_error (instList r x) = Some p → h !! p = Some d →
              Z.of_nat y ≤ seqNum d) →
  oldestReady h a r = Ok (Some t) →
  ∃ l1 l2, activeThreads r = l1 ++ t :: l2 ∧ choosable h a r t = true ∧ ∀ x, x ∈ l1 → choosable h a r x = false.
Proof.
  intros Hage. unfold oldestReady. revert Hage. generalize (activeThreads r). intros l Hage.
  assert (Hkeep : ∀ l' x o, l' ⊆ l → x ∈ l → mfold (oldestReady_step h a r) (Some x) l' = Ok o → o = Some x).
  { induction l' as [|y l' IH]; intros x o Hsub Hx E; cbn in E; [by injection E as <-|].
    apply bind_ok in E as (o1 & E1 & E). apply oldestReady_step_ok in E1 as [[_ ->]|(_ & p & d & Hp & Hd & ->)];
      [by eapply IH; [set_solver|..]|].
    assert (Z.of_nat x ≤ seqNum d) by (apply (Hage y x p d); set_solver).
    destruct (Z.ltb_spec (seqNum d) (Z.of_nat x)); [lia|]. by eapply IH; [set_solver|..]. }
  intros E. assert (Hgo : ∀ l', l' ⊆ l → mfold (oldestReady_step h a r) None l' = Ok (Some t) →
    ∃ l1 l2, l' = l1 ++ t :: l2 ∧ choosable h a r t = true ∧ ∀ x, x ∈ l1 → choosable h a r x = false).
  { clear E. induction l' as [|y l' IH]; intros Hsub E; cbn in E; [done|]. apply bind_ok in E as (o1 & E1 & E).
    apply oldestReady_step_ok in E1 as [[Hc ->]|(Hc & p & d & Hp & Hd & ->)].
    - destruct (IH ltac:(set_solver) E) as (l1 & l2 & -> & Ht & Hl). exists (y :: l1), l2. split; [done|]. split; [done|].
      intros x [->|Hx]%elem_of_cons; auto.
    - apply Hkeep in E; [|set_solver..]. injection E as <-. exists [], l'. split; [done|]. split; [done|]. by intros x ?%not_elem_of_nil. }
  by apply Hgo.
Qed.

(** ** What rename is told about the reorder buffer *)
(** A squash moves no instruction. *)
Lemma doSquash_entries {Q} `{InstQueueLaws Q} (fl : DebugFlags) (cyc : Z) (tid : nat) (single : bool) (r r' : ROB) (w w' : World Q) :
  doSquash fl cyc tid single r w = Ok (r', w') → threadEntries r' = threadEntries r.
Proof.
  intros Hs. unfold doSquash in Hs. apply bind_ok in Hs as (? & _ & Hs). apply bind_ok in Hs as (p & _ & Hs).
  apply bind_ok in Hs as (d & _ & Hs). case_match; [by injection Hs as <- <-|].
  apply bind_ok in Hs as ([[[[q rt] k1] r1] w1] & Hl & Hs). apply loop_run_only in Hl as [[b ->] _].
  apply bind_ok in Hs as ([[k2 r2] w2] & Hm & Hs).
  assert (H2 : threadEntries r2 = threadEntries r).
  { destruct q as [|q]; [by injection Hm as _ <- _|]. apply bind_ok in Hm as ([[k3 r3] w3] & Hc & Hm).
    apply bind_ok in Hm as (r4 & Ht & Hm). injection Hm as _ <- _.
    transitivity (threadEntries r3); [destruct rt; [by apply updateTail_ok in Ht as [tl ->]|by injection Ht as <-]|].
    unfold checkDone in Hc. apply bind_ok in Hc as (dq & _ & Hc). destruct (seqNum dq <=? _); [|by injection Hc as _ <- _].
    apply bind_ok in Hc as ([[k4 r5] w6] & Hd & Hc). injection Hc as _ <- _.
    destruct (_ && maySquashOthers dq); [by apply drop_run_only in Hd as [b' ->]|by injection Hd as _ <- _]. }
  cbn zeta in Hs. apply bind_ok in Hs as ([[n r3] w3] & Hr & Hs). injection Hs as <- <-.
  unfold reduceNumMaySquashOthers in Hr. cbn zeta in Hr. apply bind_ok in Hr as ([n0 w4] & _ & Hr). injection Hr as _ <- _.
  by destruct (0 <? k2).
Qed.
Lemma squash_entries {Q} `{InstQueueLaws Q} (fl : DebugFlags) (cyc sn : Z) (tid : nat) (single : bool) (r r' : ROB) (w w' : World Q) :
  ROB.squash fl cyc sn tid single r w = Ok (r', w') → threadEntries r' = threadEntries r.
Proof.
  unfold ROB.squash. intros E. case_match; [by injection E as <- <-|]. cbn zeta in E. case_match; [|by injection E as <- <-].
  by apply doSquash_entries in E.
Qed.

(** Whenever a thread's number of entries differs from [r0]'s, the change is recorded. *)
Definition tracked_since (r0 : ROB) (c : Commit) (r : ROB) : Prop :=
  ∀ t, threadEntries r t = threadEntries r0 t ∨ changedROBNumEntries c t = true.

Section report.
Context {Q : Type} `{InstQueueLaws Q} (fl : DebugFlags) (cyc : Z) (e : CommitEnv) (r0 : ROB).
Implicit Types (w : World Q) (r : ROB) (a : CArch) (c : Commit).

Lemma tracked_mono c c' r r' :
  tracked_since r0 c r → threadEntries r' = threadEntries r →
  (∀ t, changedROBNumEntries c t = true → changedROBNumEntries c' t = true) → tracked_since r0 c' r'.
Proof. intros Ht Ee Hm t. rewrite Ee. destruct (Ht t); auto. Qed.
(** One thread changes, and is recorded. *)
Lemma tracked_set (tid : nat) c c' r r' :
  tracked_since r0 c r → (∀ t, t ≠ tid → threadEntries r' t = threadEntries r t) →
  changedROBNumEntries c' = <[tid := true]> (changedROBNumEntries c) → tracked_since r0 c' r'.
Proof.
  intros Ht Ee Hc t. rewrite Hc. destruct (decide (t = tid)) as [->|Hne]; [right; by rewrite fn_lookup_insert|].
  rewrite fn_lookup_insert_ne, Ee by done. apply Ht.
Qed.

Lemma squashAll_tracked (tid : nat) c c' r r' w w' :
  tracked_since r0 c r → squashAll fl cyc tid c r w = Ok (c', r', w') → tracked_since r0 c' r'.
Proof.
  intros Ht E. unfold squashAll in E. apply bind_ok in E as (sn & _ & E). cbn zeta in E.
  apply bind_ok in E as ([r2 w2] & Hs%squash_entries & E). injection E as <- <- _.
  eapply (tracked_set tid); [exact Ht|by rewrite Hs|done].
Qed.
Lemma squashPending_tracked (tid : nat) c c' r r' w w' :
  tracked_since r0 c r → squashPending fl cyc tid c r w = Ok (c', r', w') → tracked_since r0 c' r'.
Proof.
  intros Ht E. unfold squashPending, squashFromTrap, squashFromTC, squashFromSquashAfter in E.
  repeat case_match; res_simp; try done;
    match goal with Hs : squashAll _ _ _ _ _ _ = _ |- _ => by apply (squashAll_tracked _ _ _ _ _ _ _ Ht) in Hs end.
Qed.
Lemma squashFromIEW_tracked (m : CommitMsg) (tid : nat) c c' r r' w w' :
  tracked_since r0 c r → squashFromIEW fl cyc m tid c r w = Ok (c', r', w') → tracked_since r0 c' r'.
Proof.
  intros Ht E. unfold squashFromIEW in E. case_match; [|by injection E as <- <- <-].
  apply bind_ok in E as ([[b r1] w1] & He & E). cbn zeta in E. apply bind_ok in E as ([r2 w2] & Hs%squash_entries & E).
  apply bind_ok in E as (si & _ & E). apply bind_ok in E as (tk & _ & E). injection E as <- <- _.
  assert (E1 : threadEntries r1 = threadEntries r).
  { unfold exitRunahead, leaveRunaheadMode in He. destruct (cm_mispredictInst m tid); [|by injection He as _ <- _].
    apply bind_ok in He as (d & _ & He).
    destruct (isRunahead d && maySquashOthers d); [|by injection He as _ <- _]. by res_simp. }
  eapply (tracked_set tid); [exact Ht|by rewrite Hs, E1|done].
Qed.
Lemma getInst_tracked (age : nat → Z) (p : InstPtr) c c' r r' w w' :
  tracked_since r0 c r → getInst fl cyc age (c, r, w) p = Ok (c', r', w') → tracked_since r0 c' r'.
Proof.
  intros Ht E. unfold getInst in E. apply bind_ok in E as (d & Hd%deref_ok & E). cbn zeta in E.
  destruct (_ && _); [|by injection E as <- <- <-].
  apply bind_ok in E as ([r1 w1] & Hi & E). apply bind_ok in E as (? & _ & E). injection E as <- <- _.
  apply insertInst_inv in Hi as (d1 & d' & k & b & hd & tl & Hd1 & [_ ->] & _).
  eapply (tracked_set (threadNumber d)); [exact Ht| |done]. cbn. intros t Hne.
  rewrite fn_lookup_insert_ne; [done|]. congruence.
Qed.
Lemma commitOne_tracked (n n' : Z) k s a a' r r' w w' :
  tracked_since r0 (a_commit a) r → commitOne fl cyc e n a r w = Ok (k, n', s, a', r', w') →
  tracked_since r0 (a_commit a') r' ∧ loop_moves a a'.
Proof.
  intros Ht E. apply commitOne_moves in E as [Hm Hr]. split; [|done]. destruct Hm as ([_ Hch] & _).
  destruct Hr as [->|(t & Hset & Hoth)]; [by eapply tracked_mono|]. intros x.
  destruct (decide (x = t)) as [->|Hne]; [by right|]. rewrite Hoth by done. destruct (Ht x); auto.
Qed.
Lemma commitLoop_tracked (fuel : nat) : ∀ (n n' : Z) s s' a a' r r' w w',
  tracked_since r0 (a_commit a) r → commitLoop fl cyc e fuel n s a r w = Ok (n', s', a', r', w') →
  tracked_since r0 (a_commit a') r' ∧ loop_moves a a'.
Proof.
  induction fuel as [|fuel IH]; intros n n' s s' a a' r r' w w' Ht E; cbn in E;
    (destruct (_ <? _); [|by injection E as _ _ <- <- _]); [done|].
  apply bind_ok in E as ([[[[[k n1] s1] a1] r1] w1] & [Ht1 Hm1]%commitOne_tracked & E); [|done].
  destruct k; [by injection E as _ _ <- <- _|]. apply IH in E as [Ht2 Hm2]; [|done]. split; [done|by etrans].
Qed.

(** *** The squashes and the new instructions of the cycle *)
(** The signals about the reorder buffer are as in [a]. *)
Definition unsent (a a' : CArch) : Prop :=
  checkEmptyROB a' = checkEmptyROB a ∧ ∀ t, rob_sig (a_info a' t) = rob_sig (a_info a t).

Lemma commitThread_tracked (m : CommitMsg) (tid : nat) a0 (k k' : Z) a a' r r' w w' :
  tracked_since r0 (a_commit a) r ∧ unsent a0 a → commitThread fl cyc m (k, a, r, w) tid = Ok (k', a', r', w') →
  tracked_since r0 (a_commit a') r' ∧ unsent a0 a'.
Proof.
  intros [Ht Hu] E. unfold commitThread in E. apply bind_ok in E as ([[c1 r1] w1] & E1 & E). cbn zeta in E.
  apply bind_ok in E as (reason & _ & E). apply bind_ok in E as ([[c2 r2] w2] & E2 & E). injection E as _ <- <- _.
  split; [|done]. eapply squashFromIEW_tracked; [|exact E2]. by eapply squashPending_tracked.
Qed.
Lemma getInsts_tracked (age : nat → Z) (l : list InstPtr) c c' r r' w w' :
  tracked_since r0 c r → getInsts fl cyc age l c r w = Ok (c', r', w') → tracked_since r0 c' r'.
Proof.
  intros Ht E. unfold getInsts in E.
  refine (mfold_inv (λ st : Commit * ROB * World Q, tracked_since r0 st.1.1 st.1.2) _ (c, r, w) (c', r', w') _ _ Ht E).
  intros [[c1 r1] w1] p [[c2 r2] w2] _ H1 E1. by eapply getInst_tracked.
Qed.

Lemma commit_tracked (m : CommitMsg) (age : nat → Z) (l : list InstPtr) a a' r r' w w' :
  tracked_since r0 (a_commit a) r → commit fl cyc e m age l a r w = Ok (a', r', w') →
  ∃ a1, tracked_since r0 (a_commit a1) r' ∧ unsent a a1 ∧ a' = foldl (broadcastROB e r') a1 (activeThreads r').
Proof.
  intros Ht E. unfold commit in E. cbn zeta in E. set (a0 := if FullSystem e && _ then _ else a) in E.
  assert (Hp : tracked_since r0 (a_commit a0) r ∧ unsent a a0).
  { subst a0. destruct (_ && _); [|done]. unfold propagateInterrupt. cbn zeta. destruct (_ || _); [done|].
    destruct (bool_decide _); [|done]. split; [done|]. split; [done|]. intros t. cbn.
    destruct (decide (t = 0%nat)) as [->|Hne]; [by rewrite fn_lookup_insert|by rewrite fn_lookup_insert_ne]. }
  clearbody a0. apply bind_ok in E as ([[[k a1] r1] w1] & E1 & E).
  assert (H1 : tracked_since r0 (a_commit a1) r1 ∧ unsent a a1).
  { refine (mfold_inv (λ st : Z * CArch * ROB * World Q, tracked_since r0 (a_commit st.1.1.2) st.1.2 ∧ unsent a st.1.1.2)
      _ (0, a0, r, w) (k, a1, r1, w1) _ _ Hp E1). intros [[[k2 a2] r2] w2] t [[[k3 a3] r3] w3] _ H2 E2. by eapply commitThread_tracked. }
  set (a2 := if 0 <? k then _ else a1) in E.
  assert (H2 : tracked_since r0 (a_commit a2) r1 ∧ unsent a a2) by (subst a2; by destruct (0 <? k)). clearbody a2.
  apply bind_ok in E as ([[a3 r3] w3] & E3 & E). injection E as <- <- _. exists a3.
  cut (tracked_since r0 (a_commit a3) r3 ∧ unsent a a3); [by intros []|].
  destruct (negb _); [|by injection E3 as <- <- _]. destruct H2 as [Ht2 Hu2].
  apply bind_ok in E3 as ([[c r4] w4] & Eg & E3). apply bind_ok in E3 as ([[[[n s] a4] r5] w5] & Ec & E3). injection E3 as <- <- _.
  unfold commitInsts in Ec. apply bind_ok in Ec as ([[[[n1 s1] a5] r6] w6] & El & Ec).
  apply bind_ok in Ec as (? & _ & Ec). injection Ec as _ _ <- <- _.
  apply commitLoop_tracked in El as [Ht5 (_ & _ & He & Hs)]; [|by eapply getInsts_tracked].
  split; [done|]. destruct Hu2 as [Hu1 Hu2]. split; [by rewrite He|]. intros t. by rewrite Hs, <- Hu2.
Qed.
End report.

(** *** The signals sent *)
(** What is sent about the reorder buffer [r] is true of it. *)
Definition sent_right (e : CommitEnv) (r : ROB) (a : CArch) : Prop :=
  ∀ t, (usedROB (a_info a t) = true → freeROBEntries (a_info a t) = numFreeEntries_tid t r)
  ∧ (emptyROB (a_info a t) = true →
     isEmpty_tid t r = true ∧ hasStoresToWB e t = false ∧ committedStores a t = false).

(** The two messages of [broadcastROB]: the free entries, and possibly that there are none in use. *)
Definition tell (r : ROB) (t : nat) (none : bool) (i : ArchInfo) : ArchInfo :=
  let i := i <| usedROB := true |> <| freeROBEntries := numFreeEntries_tid t r |> in
  if none then i <| emptyROB := true |> else i.

Lemma tell_right (e : CommitEnv) (r : ROB) (a : CArch) (t : nat) (none : bool) :
  sent_right e r a →
  (none = true → isEmpty_tid t r = true ∧ hasStoresToWB e t = false ∧ committedStores a t = false) →
  sent_right e r (on_arch t (tell r t none) a)
  ∧ (∀ x, usedROB (a_info a x) = true → usedROB (a_info (on_arch t (tell r t none) a) x) = true)
  ∧ usedROB (a_info (on_arch t (tell r t none) a) t) = true.
Proof.
  intros Hs Hn. split_and!.
  - intros x. cbn. destruct (decide (x = t)) as [->|Hne]; [rewrite fn_lookup_insert|rewrite fn_lookup_insert_ne by done; apply Hs].
    unfold tell. destruct none; cbn; (split; [done|]); [by intros _; apply Hn|apply Hs].
  - intros x Hx. cbn. destruct (decide (x = t)) as [->|Hne]; [rewrite fn_lookup_insert|by rewrite fn_lookup_insert_ne].
    by destruct none.
  - cbn. rewrite fn_lookup_insert. by destruct none.
Qed.

Lemma broadcast_right (e : CommitEnv) (r : ROB) (a : CArch) (t : nat) :
  sent_right e r a →
  sent_right e r (broadcastROB e r a t)
  ∧ (∀ x, usedROB (a_info a x) = true → usedROB (a_info (broadcastROB e r a t) x) = true)
  ∧ (changedROBNumEntries (a_commit a) t = true → usedROB (a_info (broadcastROB e r a t) t) = true)
  ∧ (∀ x, x ≠ t → changedROBNumEntries (a_commit (broadcastROB e r a t)) x = changedROBNumEntries (a_commit a) x).
Proof.
  intros Hs. unfold broadcastROB. cbn zeta. set (a1 := if changedROBNumEntries (a_commit a) t then _ else a).
  assert (H1 : sent_right e r a1 ∧ (∀ x, usedROB (a_info a x) = true → usedROB (a_info a1 x) = true)
    ∧ (changedROBNumEntries (a_commit a) t = true → usedROB (a_info a1 t) = true)
    ∧ (∀ x, x ≠ t → changedROBNumEntries (a_commit a1) x = changedROBNumEntries (a_commit a) x)).
  { subst a1. destruct (changedROBNumEntries (a_commit a) t); [|by split_and!].
    destruct (tell_right e r a t false Hs ltac:(done)) as (T1 & T2 & T3).
    destruct (isEmpty_tid t r); (split_and!; [exact T1|exact T2|by intros _; exact T3|]);
      intros x Hx; cbn; by rewrite fn_lookup_insert_ne. }
  clearbody a1. destruct H1 as (S1 & S2 & S3 & S4). destruct (_ && _) eqn:Hb; [|by split_and!].
  rewrite !andb_true_iff, !negb_true_iff in Hb. destruct Hb as [[[_ He] Hw] Hc].
  destruct (tell_right e r a1 t true S1 ltac:(done)) as (T1 & T2 & T3).
  split_and!; [exact T1|intros x Hx; apply T2, S2, Hx|by intros _; exact T3|exact S4].
Qed.

Lemma broadcasts_right (e : CommitEnv) (r : ROB) (l : list nat) : ∀ a,
  sent_right e r a →
  sent_right e r (foldl (broadcastROB e r) a l)
  ∧ (∀ x, usedROB (a_info a x) = true → usedROB (a_info (foldl (broadcastROB e r) a l) x) = true)
  ∧ ∀ t, t ∈ l → changedROBNumEntries (a_commit a) t = true → usedROB (a_info (foldl (broadcastROB e r) a l) t) = true.
Proof.
  induction l as [|y l IH]; intros a Hs; cbn; [split_and!; [done..|by intros t ?%not_elem_of_nil]|].
  destruct (broadcast_right e r a y Hs) as (B1 & B2 & B3 & B4). destruct (IH _ B1) as (I1 & I2 & I3).
  split_and!; [done|auto|]. intros t Ht Hc. destruct (decide (t = y)) as [->|Hne]; [auto|].
  apply I3; [set_solver|]. by rewrite B4.
Qed.

(** C13: rename is told the truth about the reorder buffer.  After [commit], when the number of
    entries of an active thread changed in the cycle (by the instructions inserted, committed
    or retired), the number of its free entries is sent; whatever number is sent is the one
    of the buffer at the end of the cycle; and the buffer is reported empty only if it is, no
    store of the thread waits to be written back, and none was committed in this cycle. *)
Theorem commit_reports_rob {Q} `{InstQueueLaws Q} (fl : DebugFlags) (cyc : Z) (e : CommitEnv) (m : CommitMsg) (age : nat → Z)
    (l : list InstPtr) (a a' : CArch) (r r' : ROB) (w w' : World Q) (t : nat) :
  (∀ x, rob_sig (a_info a x) = (false, 0, false)) → commit fl cyc e m age l a r w = Ok (a', r', w') →
  t ∈ activeThreads r' →
  (threadEntries r' t ≠ threadEntries r t → usedROB (a_info a' t) = true)
  ∧ (usedROB (a_info a' t) = true → freeROBEntries (a_info a' t) = numFreeEntries_tid t r')
  ∧ (emptyROB (a_info a' t) = true →
     isEmpty_tid t r' = true ∧ hasStoresToWB e t = false ∧ committedStores a' t = false).
Proof.
  intros Hz E Ht. apply (commit_tracked fl cyc e r) in E as (a1 & Htr & [_ Hu] & ->); [|by left].
  assert (Hs : sent_right e r' a1).
  { intros x. specialize (Hu x). rewrite Hz in Hu. injection Hu as -> _ ->. done. }
  destruct (broadcasts_right e r' (activeThreads r') a1 Hs) as (B1 & _ & B3). split; [|apply B1].
  intros Hne. apply B3; [done|]. by destruct (Htr t).
Qed.

(** ** The activity of the stage *)
Lemma clear_changed (l : list nat) : ∀ a,
  commitStatus (a_commit (foldl (λ a tid, on_commit (λ c, c <| changedROBNumEntries ::= <[tid := false]> |>) a) a l)) = commitStatus (a_commit a)
  ∧ c_nextStatus (foldl (λ a tid, on_commit (λ c, c <| changedROBNumEntries ::= <[tid := false]> |>) a) a l) = c_nextStatus a.
Proof. induction l as [|t l IH]; intros a; cbn; [done|]. destruct (IH (on_commit (λ c, c <| changedROBNumEntries ::= <[t := false]> |>) a)) as [-> ->]. done. Qed.

Lemma tickReady_active (h : heap) (r : ROB) (l : list nat) : ∀ a a',
  mfold (tickReady h r) a l = Ok a' →
  commitStatus (a_commit a') = commitStatus (a_commit a) ∧ (c_nextStatus a = Active → c_nextStatus a' = Active)
  ∧ ∀ t p d, t ∈ l → threadEntries r t ≠ 0 → hd_error (instList r t) = Some p → h !! p = Some d → readyToCommit d = true →
    c_nextStatus a' = Active.
Proof.
  induction l as [|y l IH]; intros a a' E; cbn in E; [injection E as <-; split_and!; [done..|by intros t ? ? ?%not_elem_of_nil]|].
  apply bind_ok in E as (a1 & E1 & E). apply IH in E as (I1 & I2 & I3). unfold tickReady, isEmpty_tid in E1.
  destruct (Z.eqb_spec (threadEntries r y) 0) as [Hz|Hz]; cbn [negb] in E1.
  - injection E1 as <-. split_and!; [done..|]. intros t p d [->|Ht]%elem_of_cons; [done|by eapply I3].
  - apply bind_ok in E1 as (o & Eo & E1). apply bind_ok in E1 as (p & ->%deref_ok & E1). apply readHeadInst_ok in Eo.
    apply bind_ok in E1 as (d & Ed%deref_ok & E1). injection E1 as <-. destruct (readyToCommit d) eqn:Hr; cbn in I1, I2;
      (split_and!; [done|by auto|]); intros t p1 d1 [->|Ht]%elem_of_cons Hne Hp Hd Hrd; try (by eapply I3).
    + by apply I2.
    + congruence.
Qed.

(** the stage does not go to sleep over work.  At the end of [tick], if an active thread
    waits for a trap, or its head is ready to commit, commit is active in the next cycle. *)
Theorem commit_stays_active {Q} `{InstQueue Q} (fl : DebugFlags) (cyc : Z) (e : CommitEnv) (m : CommitMsg) (age : nat → Z)
    (fromRename fromIEW : list InstPtr) (a a' : CArch) (r r' : ROB) (w w' : World Q) (t : nat) :
  activeThreads r ≠ [] → tick fl cyc e m age fromRename fromIEW a r w = Ok (a', r', w') → t ∈ activeThreads r' →
  (commitStatus (a_commit a') t = TrapPending ∨ commitStatus (a_commit a') t = FetchTrapPending
   ∨ threadEntries r' t ≠ 0 ∧ ∃ p d, hd_error (instList r' t) = Some p ∧ w_heap w' !! p = Some d ∧ readyToCommit d = true) →
  c_status a' = Active.
Proof.
  intros Hact E Ht Hwork. unfold tick in E. cbn zeta in E. rewrite bool_decide_false in E by done.
  apply bind_ok in E as ([[a1 r1] w1] & _ & E). apply bind_ok in E as ([[a2 r2] w2] & _ & E).
  apply bind_ok in E as (w3 & _ & E). apply bind_ok in E as (a3 & E3 & E). injection E as <- <- <-.
  apply tickReady_active in E3 as (_ & _ & Hready). unfold updateStatus in *. cbn zeta in *.
  set (a4 := foldl _ a3 _) in *. destruct (clear_changed (activeThreads r2) a3) as [Hs Hn]. fold a4 in Hs, Hn.
  destruct (existsb _ _) eqn:Hb; [done|]. cbn in Hwork |- *. rewrite Hn. rewrite Hs in Hwork.
  assert (Hno : ∀ s, s = TrapPending ∨ s = FetchTrapPending → commitStatus (a_commit a3) t ≠ s).
  { intros s Hss Heq. rewrite <- not_true_iff_false in Hb. apply Hb, existsb_exists. exists t. split; [by apply list_elem_of_In|].
    rewrite Heq. by destruct Hss as [-> | ->]. }
  destruct Hwork as [Hw|[Hw|(Hne & p & d & Hp & Hd & Hr)]]; [by eapply Hno in Hw; [|left]|by eapply Hno in Hw; [|right]|].
  by eapply Hready.
Qed.
