(* ===== verification/NDARun.v ===== *)
(** * Sample instructions and structures

    Concrete values the witnesses of the other files evaluate: a conditional
    branch, a load and an addition, one thread, a 16-entry reorder buffer and an
    empty instruction queue. *)

From S2P Require Import Prelude Regs DynInst Scoreboard DepGraph IQInterface ROB ROBInv ROBOps ROBSquash IEW Commit NDAOps StoreSet FUPool ReadyList MemDep IQ IQLaws NDA.
Local Open Scope Z_scope.

(** The integer physical register with flat index [k]. *)
Definition preg (k : Z) : PhysRegId := MkPhysRegId (MkRegId IntRegClass k (2 ^ 16 - 1)) k.
Definition areg (k : Z) : RegId := MkRegId IntRegClass k (2 ^ 16 - 1).

Definition branch_si : StaticInst := MkStaticInst (flags_of [IsControl; IsCondControl]) 1 [] [] 0%N.
Definition load_si : StaticInst := MkStaticInst (flags_of [IsLoad; IsMemRef]) 2 [areg 1] [areg 2] 0%N.
Definition add_si : StaticInst := MkStaticInst (flags_of [IsInteger]) 1 [areg 2] [areg 3] 0%N.

(** A four-byte instruction. *)
Definition pc_at (a : Z) : PCState := MkPCState a (a + 4) 0 1 4.
Definition branch_at (seq pc0 : Z) : DynInst := setMaySquashOthers (initVars branch_si seq (pc_at pc0) (uEnd (pc_at pc0))).
(** A load from the address in [preg s] to [preg t]. *)
Definition load_at (seq pc0 s t : Z) : DynInst :=
  renameDestReg 0 (preg t) (preg 0) (renameSrcReg 0 (preg s) (initVars load_si seq (pc_at pc0) (uEnd (pc_at pc0)))).
Definition add_at (seq pc0 s t : Z) : DynInst :=
  renameDestReg 0 (preg t) (preg 0) (renameSrcReg 0 (preg s) (initVars add_si seq (pc_at pc0) (uEnd (pc_at pc0)))).

Definition rob0 : ROB :=
  ROB_init Dynamic 16 4 1 0 2 100
    (MkROB (λ _, Running) Dynamic 0 (λ _, 0) (λ _, 0) (λ _, []) 0 None None (λ _, None) (λ _, false)
       0 0 0 (λ _, 0) (λ _, 0) (λ _, true) 1 [0%nat]).

Definition fu0 : FUPool := FUPool_init [].
Definition iq0 : IQ :=
  MkIQ (λ _, []) [] [] [] [] ReadyList_init ∅ (DepGraph.resize 16) (λ _, MemDepUnit_init 1000 8 8) fu0 []
    IQDynamic 1 [0%nat] (λ _, 0) (λ _, 16) 16 16 8 0 (λ _, 0) (replicate 16 true) 0 0.
Definition world0 : World IQ := MkWorld ∅ iq0 (Scoreboard_init 16).

Definition msg0 : CommitMsg :=
  MkCommitMsg (λ _, None) (λ _, 0) (λ _, pc_at 0) (λ _, false) (λ _, false) (λ _, false).
Definition iew0 : IEW := MkIEW msg0 (λ _, 0) false (λ _, false) 0 0 8 0 [0%nat].
Definition info0 : CommitInfo := MkCommitInfo (pc_at 0) None None 0 false false false.
Definition commit0 : Commit :=
  MkCommit (λ _, CRunning) (λ _, info0) (λ _, pc_at 0) (λ _, 0) (λ _, 0) (λ _, false) (λ _, false) (λ _, false)
    (λ _, None) (λ _, false) (λ _, false) (λ _, false) 8.

(** * A run of the pipeline

    A branch and a load enter the reorder buffer, the load executes and writes
    back while the branch is unresolved: the states of this run instantiate the
    guarantees of [NDA.v].  A second run enters runahead mode. *)
Local Open Scope Z_scope.

Section run.
Context (fl : DebugFlags) (adv : StaticInst → PCState → PCState).
Implicit Types (s : Sys).

(** Executable forms of the steps; a step that fails stays where it is. *)
Definition do_get (p : InstPtr) s : Sys :=
  match getInst fl 10 (λ _, 0) (s_commit s, s_rob s, s_world s) p with
  | Ok (c, r, w) => s <| s_commit := c |> <| s_rob := r |> <| s_world := w |>
  | Err _ => s
  end.
Definition do_iew (executed : list ExecutedInst) (toWB : list InstPtr) s : Sys :=
  match iewTick fl adv 11 executed toWB s with Ok s' => s' | Err _ => s end.
Definition do_fetch (p : InstPtr) (d : DynInst) s : Sys :=
  s <| s_world ::= (λ w, w <| w_heap ::= <[p := d]> |>) |>.
Definition do_rename (x : PhysRegId) s : Sys :=
  match unsetReg x (w_sb (s_world s)) with
  | Ok sb => s <| s_world ::= (λ w, w <| w_sb := sb |>) |>
  | Err _ => s
  end.
Definition do_mark (p : InstPtr) (f : DynInst → DynInst) s : Sys :=
  s <| s_world ::= on_inst p f |>.

Lemma run_get (p : InstPtr) (d : DynInst) s :
  reachable fl adv s → fresh_inst (s_rob s) (s_world s) p d → reachable fl adv (do_get p s).
Proof.
  intros Hr Hf. unfold do_get. destruct (getInst _ _ _ _ _) as [[[c r] w]|] eqn:E; [|done].
  eapply reach_step; [exact Hr|]. by eapply step_get.
Qed.
Lemma run_fetch (p : InstPtr) (d : DynInst) s :
  reachable fl adv s → w_heap (s_world s) !! p = None → reachable fl adv (do_fetch p d s).
Proof. intros Hr Hp. eapply reach_step; [exact Hr|]. by apply step_fetch. Qed.
Lemma run_rename (x : PhysRegId) s : reachable fl adv s → reachable fl adv (do_rename x s).
Proof.
  intros Hr. unfold do_rename. destruct (unsetReg _ _) as [sb|] eqn:E; [|done].
  eapply reach_step; [exact Hr|]. by eapply step_rename.
Qed.
Lemma run_mark (p : InstPtr) (f : DynInst → DynInst) s :
  (∀ d, quiet p d (f d)) → reachable fl adv s → reachable fl adv (do_mark p f s).
Proof.
  intros Hf Hr. eapply reach_step; [exact Hr|]. apply (step_other _ _ (on_inst p f (s_world s)) (s_taint s) s); [|done].
  apply hrel_alter; [|by intros]. intros q d _. apply changed_nil_quiet. done.
Qed.
Lemma run_iew executed (toWB : list InstPtr) s :
  reachable fl adv s →
  (∀ x, x ∈ executed → ∃ d, w_heap (s_world s) !! ex_inst x = Some d
     ∧ ex_inst x ∈ instList (s_rob s) (threadNumber d) ∧ threadNumber d ∈ iewActiveThreads (s_iew s)) →
  (∀ p, p ∈ toWB → in_rob (s_rob s) p) →
  reachable fl adv (do_iew executed toWB s).
Proof.
  intros Hr He Hw. unfold do_iew. destruct (iewTick _ _ _ _ _ _) as [s'|] eqn:E; [|done].
  eapply reach_step; [exact Hr|]. by eapply step_iew.
Qed.
End run.

(** ** A load behind a branch *)
Definition strict_flags : DebugFlags :=
  no_flags <| CD_MarkUnsafeIf_AfterBranch := true |> <| CD_Clear_MaySquash_AtExec := true |>
           <| CD_LimitWakeDependandsToWBWidth := true |>.
(** Every instruction is the last micro-operation of its own. *)
Definition next4 (_ : StaticInst) (p : PCState) : PCState := uEnd p.
Abbreviation reach1 := (reachable strict_flags next4).

Definition sys0 : Sys := MkSys iew0 commit0 rob0 world0 ∅ ∅.
Definition sys1 : Sys :=
  do_fetch 1 (load_at 2 68 4 5) (do_rename (preg 5) (do_fetch 0 (branch_at 1 64) sys0)).
Definition sys2 : Sys := do_get strict_flags 0 sys1.
Definition sys3 : Sys := do_get strict_flags 1 sys2.
(** The load executed and wrote back. *)
Definition sys4 : Sys := do_iew strict_flags next4 [] [1%nat] (do_mark 1 setExecuted sys3).

Lemma sys0_initial : initial sys0.
Proof.
  split; [|done|done|apply NoDup_singleton]. intros [|tid]; vm_compute; done.
Qed.

Lemma sys1_reach : reach1 sys1.
Proof.
  apply run_fetch; [|by vm_compute]. apply run_rename. apply run_fetch; [|by vm_compute].
  apply reach_init, sys0_initial.
Qed.

Lemma sys1_fresh : fresh_inst (s_rob sys1) (s_world sys1) 0 (branch_at 1 64).
Proof.
  split; try (vm_compute; done).
  - intros [|tid]; vm_compute; inversion 1.
  - intros q. vm_compute. inversion 1.
  - intros x. vm_compute. inversion 1.
  - intros q e x y _ _ _ Hx. vm_compute in Hx. inversion Hx.
Qed.

Lemma sys2_fresh : fresh_inst (s_rob sys2) (s_world sys2) 1 (load_at 2 68 4 5).
Proof.
  assert (Hrob : ∀ tid q, q ∈ instList (s_rob sys2) tid → q = 0%nat).
  { intros [|tid] q; vm_compute; inversion 1; [done|by match goal with H : _ ∈ [] |- _ => inversion H end]. }
  split; try (vm_compute; done).
  - intros tid Hp. by apply Hrob in Hp.
  - intros q ->%Hrob. by vm_compute.
  - intros x Hx. vm_compute in Hx. inversion_clear Hx as [|? ? ? Hx']; [|inversion Hx'].
    split; [done|]. by vm_compute.
  - intros q e x y [tid ->%Hrob] He _ _ Hy. vm_compute in He. injection He as <-. vm_compute in Hy. inversion Hy.
Qed.

Lemma sys3_reach : reach1 sys3.
Proof. eapply run_get; [|exact sys2_fresh]. eapply run_get; [|exact sys1_fresh]. apply sys1_reach. Qed.

Lemma sys4_reach : reach1 sys4.
Proof.
  apply run_iew; [apply run_mark; [|apply sys3_reach]| |].
  - intros d. eapply changed_mono; [|apply changed_st_set]. set_solver.
  - intros x Hx. inversion Hx.
  - intros p Hp. exists 0%nat. apply list_elem_of_singleton in Hp as ->. vm_compute. right. left.
Qed.

(** The load behind the branch has written back, and [preg 5] is still not ready. *)
Lemma speculative_result_hidden_witness :
  st_at WritebackDone (w_heap (s_world sys4)) 1 = true
  ∧ ready_bit (w_sb (s_world sys4)) (preg 5) ≠ Some true.
Proof.
  split; [by vm_compute|].
  eapply (speculative_result_hidden strict_flags next4 sys4 0 [] [1%nat] 0 1);
    [exact sys4_reach|by vm_compute|by vm_compute|by vm_compute|left|by vm_compute|left; by vm_compute
    |by vm_compute|by vm_compute|by vm_compute|vm_compute; left|by split].
Defined.

Lemma behind_branch_unsafe_witness :
  ∃ d, w_heap (s_world sys4) !! 1%nat = Some d ∧ (isUnsafe d = true ∨ (false = true ∧ isLoad d = false) ∨ false = true).
Proof.
  eexists. split; [by vm_compute|].
  eapply (behind_branch_unsafe strict_flags next4 sys4 0 [] [1%nat] 0 1);
    [exact sys4_reach|by vm_compute|by vm_compute|by vm_compute|left|by vm_compute].
Defined.

Lemma branch_counter_exact_witness :
  numInstThatMayCauseSquash (s_rob sys4) 0 = 1
  ∧ numInstThatMayCauseSquash (s_rob sys4) 0
    = Z.of_nat (countb (st_at MaySquashOthers (w_heap (s_world sys4))) (instList (s_rob sys4) 0)).
Proof. split; [by vm_compute|]. exact (branch_counter_exact strict_flags next4 sys4 0 sys4_reach). Defined.

Lemma rob_occupancy_exact_witness :
  threadEntries (s_rob sys4) 0 = 2
  ∧ (threadEntries (s_rob sys4) 0 = Z.of_nat (length (instList (s_rob sys4) 0))
     ∧ numInstsInROB (s_rob sys4) = countInsts (s_rob sys4)
     ∧ seq_sorted (w_heap (s_world sys4)) (instList (s_rob sys4) 0) ∧ NoDup (instList (s_rob sys4) 0)).
Proof. split; [by vm_compute|]. exact (rob_occupancy_exact strict_flags next4 sys4 0 sys4_reach). Defined.

(** ** Runahead *)
(** More than zero unresolved branches start runahead mode. *)
Definition run_flags : DebugFlags := strict_flags <| CD_Runahead_ifMoreThanNBranches := true |>.
Definition run0 : Sys := sys0 <| s_rob ::= (λ r, r <| runaheadROBThreshold := 0 |>) |>.
Definition run1 : Sys := do_fetch 0 (branch_at 1 64) run0.
Definition run2 : Sys := do_get run_flags 0 run1.

Lemma run2_reach : reachable run_flags next4 run2.
Proof.
  eapply run_get.
  - apply run_fetch; [apply reach_init|by vm_compute].
    split; [|done|done|apply NoDup_singleton]. intros [|tid]; vm_compute; done.
  - split; try (vm_compute; done).
    + intros [|tid]; vm_compute; inversion 1.
    + intros q. vm_compute. inversion 1.
    + intros x. vm_compute. inversion 1.
    + intros q e x y _ _ _ Hx. vm_compute in Hx. inversion Hx.
Qed.


Lemma leave_runahead_ok_witness :
  ∃ r', leaveRunaheadMode 0 (s_rob run2) = Ok r' ∧ isInRunahead 0 r' = false.
Proof.
  eapply (leave_runahead_ok run_flags next4 run2 0 0);
    [exact run2_reach|vm_compute; left|by vm_compute|by vm_compute|by vm_compute].
Defined.
