(* ===== verification/Witnesses.v ===== *)
(** * The operations on concrete inputs

    Instances of the operation-level theorems: the run of [NDARun.v] supplies a
    reorder buffer with a branch and a load behind it; the other structures are
    small concrete ones. *)

From S2P Require Import Prelude Regs DynInst Scoreboard DepGraph IQInterface FreeList RenameMap RenameCommit ROB ROBInv ROBOps ROBSquash ROBProps IEW Commit NDAOps IEWProps StoreSet FUPool ReadyList MemDep IQ IQSched IQLaws IQSchedProps OperandProps NDA CommitArch CommitArchProps NDARun.
Local Open Scope Z_scope.

(** ** Reorder buffer *)
Abbreviation rob3 := (s_rob sys3).
Abbreviation world3 := (s_world sys3).
Lemma inv3 : rob_inv strict_flags (λ _, 0) rob3 world3.
Proof. apply (si_rob _ _ (reachable_inv _ _ sys3 sys3_reach)). Qed.
Lemma list3 : instList rob3 0 = [0%nat; 1%nat].
Proof. by vm_compute. Qed.

Lemma squash_single_cycle_exact_witness :
  ∃ r' w', ROB.squash strict_flags 12 1 0 true rob3 world3 = Ok (r', w')
  ∧ (squashes (instList rob3 0) 1 (w_heap world3) (w_heap w')
     ∧ instList r' = instList rob3 ∧ isDoneSquashing 0 r' = true).
Proof.
  destruct (is_ok_spec (ROB.squash strict_flags 12 1 0 true rob3 world3)) as [[r' w'] E]; [by vm_compute|].
  exists r', w'. split; [exact E|].
  exact (squash_single_cycle_exact strict_flags 12 (λ _, 0) rob3 r' world3 w' 0 1 inv3 ltac:(by rewrite list3) E).
Defined.

(** A squash width of one: the second instruction takes a second cycle. *)
Definition narrow3 : ROB := rob3 <| squashWidth := 1 |>.
Lemma narrow_inv {Q} (fl : DebugFlags) (pend : nat → Z) (r : ROB) (w : World Q) :
  rob_inv fl pend r w → rob_inv fl pend (r <| squashWidth := 1 |>) w.
Proof. by intros []. Qed.
Lemma narrow_inv3 : rob_inv strict_flags (λ _, 0) narrow3 world3.
Proof. apply narrow_inv, inv3. Qed.

Lemma squash_multi_cycle_completes_witness :
  ∃ r1 w1 r' w', ROB.squash strict_flags 12 0 0 false narrow3 world3 = Ok (r1, w1)
  ∧ isDoneSquashing 0 r1 = false
  ∧ squashCycles strict_flags 12 1 0 r1 w1 = Ok (r', w')
  ∧ (isDoneSquashing 0 r' = true ∧ instList r' = instList narrow3
     ∧ squashes (instList narrow3 0) 0 (w_heap world3) (w_heap w')).
Proof.
  destruct (is_ok_spec (ROB.squash strict_flags 12 0 0 false narrow3 world3)) as [[r1 w1] E1]; [by vm_compute|].
  destruct (is_ok_spec (squashCycles strict_flags 12 1 0 r1 w1)) as [[r' w'] E2].
  { vm_compute in E1. injection E1 as <- <-. by vm_compute. }
  exists r1, w1, r', w'. split; [exact E1|]. split; [vm_compute in E1; injection E1 as <- <-; by vm_compute|].
  split; [exact E2|].
  apply (squash_multi_cycle_completes strict_flags 12 (λ _, 0) narrow3 r1 r' world3 w1 w' 0 1 0 narrow_inv3);
    [by vm_compute|by vm_compute|by vm_compute|exact E1|exact E2].
Defined.

Lemma squash_total_witness :
  ∃ r1 w1 r' w', ROB.squash strict_flags 12 1 0 false rob3 world3 = Ok (r1, w1)
                 ∧ squashCycles strict_flags 12 1 0 r1 w1 = Ok (r', w').
Proof.
  apply (squash_total strict_flags 12 (λ _, 0) rob3 world3 0 1 1 false); [by vm_compute|apply inv3|done|].
  by rewrite list3.
Defined.

(** The branch resolves ([clearMaySquashOthers]), and the walk makes the load safe. *)
Lemma walk_exact_witness :
  ∃ n r' w', reduceNumMaySquashOthers strict_flags 12 0 0 16 rob3 world3 = Ok (n, r', w')
  ∧ ∃ d d', w_heap world3 !! 1%nat = Some d ∧ w_heap w' !! 1%nat = Some d'
  ∧ (ROBInv.reachable (w_heap world3) (instList rob3 0) 1 → isUnsafe d' = isUnsafe d && stuck_unsafe strict_flags d)
  ∧ (¬ ROBInv.reachable (w_heap world3) (instList rob3 0) 1 → isUnsafe d' = isUnsafe d).
Proof.
  destruct (is_ok_spec (reduceNumMaySquashOthers strict_flags 12 0 0 16 rob3 world3)) as [[[n r'] w'] E]; [by vm_compute|].
  exists n, r', w'. split; [exact E|]. eexists. 
  destruct (walk_exact strict_flags 12 (λ _, 0) rob3 r' world3 w' 0 0 16 n 1 _ inv3
    ltac:(rewrite list3; set_solver) ltac:(vm_compute; reflexivity) ltac:(by vm_compute) E) as (d' & H1 & H2 & H3).
  exists d'. split; [vm_compute; reflexivity|]. split; [exact H1|]. split; [exact H2|exact H3].
Defined.

Lemma insertInst_effect_witness :
  ∃ r' w' d', insertInst strict_flags 10 1 0 (s_rob sys2) (s_world sys2) = Ok (r', w')
  ∧ w_heap w' !! 1%nat = Some d' ∧ isUnsafe d' = true.
Proof.
  destruct (is_ok_spec (insertInst strict_flags 10 1 0 (s_rob sys2) (s_world sys2))) as [[r' w'] E]; [by vm_compute|].
  destruct (insertInst_effect strict_flags 10 (s_rob sys2) r' (s_world sys2) w' 1 (load_at 2 68 4 5) 0
    ltac:(by vm_compute) E) as (d' & Hd & _ & Hu & _).
  exists r', w', d'. split; [exact E|]. split; [exact Hd|]. rewrite Hu. by vm_compute.
Defined.

(** The load alone in the buffer, executed, unsafe until it retires. *)
Definition load_flags : DebugFlags := no_flags <| CD_MarkUnsafeIf_LoadtInstruction := true |>.
Definition lone1 : Sys := do_fetch 0 (load_at 1 64 4 5) (do_rename (preg 5) sys0).
(** The instruction queue once the load is dispatched to it. *)
Definition dispatched (p : InstPtr) (s : Sys) : Sys :=
  match iq_insert load_flags 10 p (w_heap (s_world s)) (w_iq (s_world s)) with
  | Ok (_, q) => s <| s_world ::= (λ w, w <| w_iq := q |>) |>
  | Err _ => s
  end.
Lemma run_dispatched (fl : DebugFlags) (adv : StaticInst → PCState → PCState) (p : InstPtr) (s : Sys) :
  NDA.reachable fl adv s → NDA.reachable fl adv (dispatched p s).
Proof.
  intros Hr. unfold dispatched. destruct (iq_insert _ _ _ _ _) as [[h q]|]; [|done].
  eapply reach_step; [exact Hr|]. apply (step_other _ _ (s_world s <| w_iq := q |>) (s_taint s) s); [|done].
  apply hrel_refl. intros x d _. by apply changed_nil_quiet.
Qed.
Definition lone2 : Sys := do_mark 0 (setCanCommit ∘ setExecuted) (dispatched 0 (do_get load_flags 0 lone1)).
Lemma lone2_reach : NDA.reachable load_flags next4 lone2.
Proof.
  apply run_mark.
  - intros d. eapply changed_trans; (eapply changed_mono; [|apply changed_st_set]); set_solver.
  - apply run_dispatched. eapply (run_get _ _ 0 (load_at 1 64 4 5)).
    + apply run_fetch; [|by vm_compute]. apply run_rename, reach_init, sys0_initial.
    + split; try (vm_compute; done).
      * intros [|tid]; vm_compute; inversion 1.
      * intros q. vm_compute. inversion 1.
      * intros x Hx. vm_compute in Hx. inversion_clear Hx as [|? ? ? Hx']; [|inversion Hx']. split; [done|]. by vm_compute.
      * intros q e x y [[|tid] Hq]; vm_compute in Hq; inversion Hq.
Qed.

Lemma retire_publishes_witness :
  ∃ r' w', retireHead load_flags 12 0 (s_rob lone2) (s_world lone2) = Ok (r', w')
  ∧ ready_bit (w_sb (s_world lone2)) (preg 5) = Some false
  ∧ (ready_bit (w_sb w') (preg 5) = Some true ∧ instList r' 0 = List.tl (instList (s_rob lone2) 0)).
Proof.
  destruct (is_ok_spec (retireHead load_flags 12 0 (s_rob lone2) (s_world lone2))) as [[r' w'] E]; [by vm_compute|].
  exists r', w'. split; [exact E|]. split; [by vm_compute|].
  eapply (retire_publishes load_flags 12 (λ _, 0) (s_rob lone2) r' (s_world lone2) w' 0 0);
    [apply (si_rob _ _ (reachable_inv _ _ lone2 lone2_reach))|by vm_compute|vm_compute; reflexivity
    |by vm_compute|by vm_compute|vm_compute; left|by vm_compute|exact E].
Defined.

Lemma head_is_oldest_witness :
  ∃ r', updateHead (w_heap world3) rob3 = Ok r'
  ∧ match head r' with
    | None => ∀ t, t ∈ activeThreads rob3 → instList rob3 t = []
    | Some p => (∃ t, t ∈ activeThreads rob3 ∧ p ∈ instList rob3 t)
        ∧ ∀ t q, t ∈ activeThreads rob3 → q ∈ instList rob3 t → seq_at (w_heap world3) p ≤ seq_at (w_heap world3) q
    end.
Proof.
  destruct (is_ok_spec (updateHead (w_heap world3) rob3)) as [r' E]; [by vm_compute|].
  exists r'. split; [exact E|]. exact (head_is_oldest strict_flags (λ _, 0) rob3 r' world3 inv3 E).
Defined.

(** ** Issue, execute, writeback *)
Lemma instToCommit_free_slot_witness :
  ∃ c n s' q', instToCommit 7 iew0 (MkIEWQueue {[ (0, 0)%nat := 3%nat ]} (λ _, 0)) = Ok (s', q')
  ∧ iewq_insts (MkIEWQueue {[ (0, 0)%nat := 3%nat ]} (λ _, 0)) !! (c, n) = None ∧ (n < 8)%nat.
Proof.
  destruct (instToCommit_free_slot 7 iew0 (MkIEWQueue {[ (0, 0)%nat := 3%nat ]} (λ _, 0)))
    as (c & n & s' & q' & H1 & H2 & H3 & _); [vm_compute; lia|].
  exists c, n, s', q'. split; [exact H1|]. split; [exact H2|exact H3].
Defined.

(** A misprediction at 5 and an order violation at 3. *)
Lemma squash_request_oldest_witness :
  ∃ x, x ∈ [SigBranch 5 (branch_at 5 64); SigMemOrder (load_at 3 60 4 5)]
  ∧ sig_seq x ≤ 3.
Proof.
  destruct (squash_request_oldest next4 0 iew0 (SigBranch 5 (branch_at 5 64)) [SigMemOrder (load_at 3 60 4 5)]
    ltac:(reflexivity)) as (x & Hx & _ & Hmin).
  exists x. split; [exact Hx|]. apply (Hmin (SigMemOrder (load_at 3 60 4 5))). right. left.
Defined.

Abbreviation done3 := (s_world (do_mark 1 setExecuted sys3)).
Lemma wakeups_within_width_witness :
  ∃ s1 v' w1 s2 r' w2, writebackInsts strict_flags 12 [1%nat] (tickReset iew0) ∅ done3 = Ok (s1, v', w1)
  ∧ mfold (updateMaySquash_tid strict_flags 12) (s1, rob3, w1) [0%nat] = Ok (s2, r', w2)
  ∧ (0 ≤ numWokenInstructions s2 ≤ wbWidth s2 ∧ wbWidth s2 = wbWidth iew0).
Proof.
  destruct (is_ok_spec (writebackInsts strict_flags 12 [1%nat] (tickReset iew0) ∅ done3)) as [[[s1 v'] w1] E1];
    [by vm_compute|].
  destruct (is_ok_spec (mfold (updateMaySquash_tid strict_flags 12) (s1, rob3, w1) [0%nat])) as [[[s2 r'] w2] E2].
  { vm_compute in E1. injection E1 as <- <- <-. by vm_compute. }
  exists s1, v', w1, s2, r', w2. split; [exact E1|]. split; [exact E2|].
  exact (wakeups_within_width strict_flags 12 iew0 s1 s2 rob3 r' ∅ v' done3 w1 w2 [1%nat] [0%nat]
    ltac:(reflexivity) ltac:(by vm_compute) E1 E2).
Defined.

Lemma writeback_effect_witness :
  ∃ v' n' w', writebackInst strict_flags 12 (∅, 0, done3) 1 = Ok (v', n', w')
  ∧ st_at WritebackDone (w_heap w') 1 = true ∧ w_sb w' = w_sb done3.
Proof.
  destruct (is_ok_spec (writebackInst strict_flags 12 (∅, 0, done3) 1)) as [[[v' n'] w'] E]; [by vm_compute|].
  exists v', n', w'. split; [exact E|].
  assert (Hd : ∃ d, w_heap done3 !! 1%nat = Some d ∧ isSquashed d = false ∧ isExecuted d = true ∧ fault d = NoFault
    ∧ isUnsafe d = true ∧ isRunahead d = false) by (eexists; split; [vm_compute; reflexivity|]; by vm_compute).
  destruct Hd as (d & Hd & Hs & Hx & Hf & Hu & Hr).
  destruct (writeback_effect strict_flags 12 ∅ v' 0 n' done3 w' 1 d ltac:(by vm_compute) Hd Hs Hx Hf E) as (Hw & Hun & _).
  split; [exact Hw|]. apply (Hun Hu Hr).
Defined.

(** ** Commit *)
(** The branch at sequence number 1 was mispredicted. *)
Definition msg1 : CommitMsg := toCommit (squashDueToBranch next4 0 (branch_at 1 64) 0 iew0).
Definition commit1 : Commit := commit0 <| youngestSeqNum ::= <[0%nat := 2]> |>.
Lemma squashFromIEW_effect_witness :
  ∃ c' r1 w1, squashFromIEW strict_flags 12 msg1 0 commit1 rob3 world3 = Ok (c', r1, w1)
  ∧ commitStatus c' 0 = CROBSquashing ∧ isDoneSquashing 0 r1 = true
  ∧ squashes (instList rob3 0) 1 (w_heap world3) (w_heap w1).
Proof.
  destruct (is_ok_spec (squashFromIEW strict_flags 12 msg1 0 commit1 rob3 world3)) as [[[c' r1] w1] E]; [by vm_compute|].
  exists c', r1, w1. split; [exact E|].
  assert (Hmi : ∀ p d, cm_mispredictInst msg1 0 = Some p → w_heap world3 !! p = Some d → init_inst d = true →
    p ∈ instList rob3 0).
  { intros p d Hp _ _. vm_compute in Hp. injection Hp as <-. rewrite list3. left. }
  pose proof (squashFromIEW_effect strict_flags 12 msg1 0 commit1 c' rob3 r1 world3 w1 inv3
    (si_iters _ _ (reachable_inv _ _ sys3 sys3_reach)) Hmi E) as Heff.
  assert (Hc : cm_squash msg1 0 && bool_decide (commitStatus commit1 0 ≠ TrapPending)
    && (cm_squashedSeqNum msg1 0 <=? youngestSeqNum commit1 0) = true) by (by vm_compute).
  rewrite Hc in Heff. destruct Heff as (H1 & _ & _ & _ & H2). split; [exact H1|].
  apply (H2 0%nat r1 w1); [by rewrite list3|by vm_compute|left; rewrite list3; by vm_compute|reflexivity].
Defined.

Lemma squashAll_squashes_thread_witness :
  ∃ c' r1 w1 r' w', squashAll strict_flags 12 0 commit1 rob3 world3 = Ok (c', r1, w1)
  ∧ squashCycles strict_flags 12 1 0 r1 w1 = Ok (r', w')
  ∧ (isDoneSquashing 0 r' = true
     ∧ st_at Squashed (w_heap w') 1 = st_at Squashed (w_heap world3) 1 || bool_decide (1%nat ∈ instList rob3 0)).
Proof.
  destruct (is_ok_spec (squashAll strict_flags 12 0 commit1 rob3 world3)) as [[[c' r1] w1] E1]; [by vm_compute|].
  destruct (is_ok_spec (squashCycles strict_flags 12 1 0 r1 w1)) as [[r' w'] E2].
  { vm_compute in E1. injection E1 as <- <- <-. by vm_compute. }
  exists c', r1, w1, r', w'. split; [exact E1|]. split; [exact E2|].
  apply (squashAll_squashes_thread strict_flags 12 (λ _, 0) 0 1 commit1 c' rob3 r1 r' world3 w1 w' 1 inv3);
    [by rewrite list3|by vm_compute| |by vm_compute|exact E1|exact E2|by vm_compute].
  intros p Hp. rewrite list3 in Hp. apply elem_of_cons in Hp as [->|Hp]; [by vm_compute|].
  apply list_elem_of_singleton in Hp as ->. by vm_compute.
Defined.

(** ** Memory dependence prediction *)
Definition ss0 : StoreSet := StoreSet_init 1000 8 8.
Lemma ss_init_wf (period : Z) (n k : nat) : (0 < n)%nat → (0 < k)%nat → ss_wf (StoreSet_init period n k).
Proof.
  intros Hn Hk. split; cbn; rewrite ?length_replicate; try done; try lia.
  - intros i v [_ Hv]%vget_ok. apply lookup_replicate in Hv as [-> _]. lia.
  - intros sn idx Hin. by apply not_elem_of_nil in Hin.
Qed.
Lemma violation_then_predicted_witness :
  ∃ s1 s2, violation 64 100 ss0 = Ok s1 ∧ insertStore 64 9 s1 = Ok s2 ∧ checkInst 100 s2 = Ok 9.
Proof.
  apply (violation_then_predicted 64 100 9 ss0); [apply ss_init_wf; lia| |by vm_compute].
  intros e He. by apply not_elem_of_nil in He.
Defined.

(** Two stores of one set in flight; the younger one is squashed. *)
Definition ss2 : StoreSet :=
  ss0 <| LFST := [9; 0; 0; 0; 0; 0; 0; 0] |> <| validLFST := [true; false; false; false; false; false; false; false] |>
      <| storeList := [(9, 0); (4, 0)] |>.
Lemma ss2_wf : ss_wf ss2.
Proof.
  split; cbn; try done.
  - intros i v [_ Hv]%vget_ok. apply list_elem_of_lookup_2 in Hv. set_unfold in Hv. lia.
  - intros sn idx Hin. set_unfold in Hin. destruct Hin as [[= -> ->]|[[= -> ->]|[]]]; (split; [lia|]); exists 9; (split; [done|lia]).
  - split; [|by split; [set_solver|]]. intros e' ->%list_elem_of_singleton. cbn. lia.
Qed.
Lemma squash_exact_witness :
  ∃ s', StoreSet.squash 5 ss2 = Ok s' ∧ ss_wf s' ∧ storeList s' = filter (λ e, e.1 ≤ 5) [(9, 0); (4, 0)]
  ∧ (∀ e, e ∈ storeList ss2 → 5 < e.1 → vget (validLFST s') e.2 = Ok false).
Proof. exact (squash_exact 5 ss2 ss2_wf). Defined.
Lemma squash_spins_witness :
  squash_loop 100 5 (ss2 <| LFST := [4; 0; 0; 0; 0; 0; 0; 0] |>) = Err OutOfFuel.
Proof.
  apply (squash_spins 5 9 0 4 [(4, 0)] true (ss2 <| LFST := [4; 0; 0; 0; 0; 0; 0; 0] |>) 100);
    [reflexivity|lia|reflexivity|reflexivity|lia].
Defined.

(** A load inserted behind a pending barrier with sequence number 3. *)
Definition md1 : MemDepUnit :=
  MemDepUnit_init 1000 8 8 <| memDepHash := {[ 3 := 0%nat ]} |>
    <| me_store := {[ 0%nat := MkMemDepEntry 9 [] false false false ]} |> <| me_next := 1%nat |>
    <| loadBarrier := true |> <| loadBarrierSN := 3 |>.
Definition heap_load : heap := {[ 1%nat := load_at 4 68 4 5 ]}.
Lemma barrier_blocks_load_witness :
  ∃ h' m' r', md_insert strict_flags heap_load 1 md1 ReadyList_init = Ok (h', m', r')
  ∧ r' = ReadyList_init ∧ readyToIssue <$> (h' !! 1%nat) = Some false.
Proof.
  destruct (is_ok_spec (md_insert strict_flags heap_load 1 md1 ReadyList_init)) as [[[h' m'] r'] E]; [by vm_compute|].
  exists h', m', r'. split; [exact E|].
  destruct (barrier_blocks_load strict_flags heap_load h' 1 (load_at 4 68 4 5) md1 m' ReadyList_init r' 0
    (MkMemDepEntry 9 [] false false false) ltac:(reflexivity) ltac:(reflexivity) ltac:(reflexivity) ltac:(reflexivity)
    ltac:(done) ltac:(reflexivity) ltac:(reflexivity) ltac:(done) ltac:(reflexivity) E) as (H1 & H2 & _).
  split; [exact H1|exact H2].
Defined.

(** A store at 3 with the load at 4 waiting for it. *)
Definition store_si : StaticInst := MkStaticInst (flags_of [IsStore; IsMemRef]) 3 [] [] 0%N.
Definition heap_store : heap := <[0%nat := initVars store_si 3 (pc_at 64) (uEnd (pc_at 64))]> heap_load.
Definition md2 : MemDepUnit :=
  MemDepUnit_init 1000 8 8 <| memDepHash := {[ 3 := 0%nat; 4 := 1%nat ]} |>
    <| me_store := {[ 0%nat := MkMemDepEntry 0 [1%nat] true true false; 1%nat := MkMemDepEntry 1 [] true false false ]} |>
    <| me_next := 2%nat |> <| md_instList := (λ _, [0%nat; 1%nat]) |>.
Lemma mem_wake_releases_witness :
  ∃ m' r', md_wakeDependents strict_flags heap_store 0 md2 ReadyList_init = Ok (m', r')
  ∧ is_ready r' 1.
Proof.
  destruct (is_ok_spec (md_wakeDependents strict_flags heap_store 0 md2 ReadyList_init)) as [[m' r'] E]; [by vm_compute|].
  exists m', r'. split; [exact E|].
  assert (Hdep : ∀ j, j ∈ [1%nat] → ∃ x dx, me_store md2 !! j = Some x ∧ heap_store !! me_inst x = Some dx).
  { intros j ->%list_elem_of_singleton. eexists _, _. by split. }
  destruct (mem_wake_releases strict_flags heap_store 0 (initVars store_si 3 (pc_at 64) (uEnd (pc_at 64))) md2 m' ReadyList_init r' 0
    (MkMemDepEntry 0 [1%nat] true true false) ltac:(reflexivity) (ReadyList_init_wf _) ltac:(reflexivity)
    ltac:(reflexivity) ltac:(reflexivity) ltac:(reflexivity) Hdep E) as (_ & _ & _ & H1).
  destruct (H1 1%nat (MkMemDepEntry 1 [] true false false)) as (x' & _ & Hr); [left|reflexivity|exact Hr].
Defined.

Lemma md_squash_forgets_witness :
  ∃ m', md_squash heap_store 3 0 md2 = Ok m' ∧ ∃ gone, md_instList md2 0 = md_instList m' 0 ++ gone.
Proof.
  destruct (is_ok_spec (md_squash heap_store 3 0 md2)) as [m' E]; [by vm_compute|]. exists m'. split; [exact E|].
  destruct (md_squash_forgets heap_store 3 0 md2 m' E) as (gone & H1 & _). exists gone. exact H1.
Defined.

(** ** Functional units and ready lists *)
(** Two units for class 1, not pipelined. *)
Definition fu2 : FUPool := FUPool_init [MkFUDesc [MkOpDesc 1 3 false] 2].
Lemma fu2_wf : fu_wf fu2.
Proof. apply FUPool_init_wf. intros i ->%list_elem_of_singleton. apply NoDup_singleton. Qed.
Lemma getUnit_correct_witness : ∃ u p', getUnit 1 fu2 = Ok (u, p') ∧ fu_wf p'.
Proof. destruct (getUnit_correct 1 fu2 fu2_wf) as (u & p' & H1 & H2 & _). exists u, p'. split; [exact H1|exact H2]. Defined.

Definition heap2 : heap := {[ 0%nat := add_at 1 64 4 5; 1%nat := add_at 2 68 4 6 ]}.
Lemma ready_lists_maintained_witness :
  ∃ r', addReadyInst strict_flags heap2 1 ReadyList_init = Ok r' ∧ rl_wf heap2 r' ∧ 1%nat ∈ readyInsts r' 1.
Proof.
  destruct (ready_lists_maintained strict_flags heap2 1 (add_at 2 68 4 6) ReadyList_init
    ltac:(reflexivity) (ReadyList_init_wf _) ltac:(reflexivity)) as (r' & H1 & H2 & H3).
  exists r'. split; [exact H1|]. split; [exact H2|]. apply H3. by right.
Defined.

(** Both additions ready, the younger one queued first. *)
Definition both_ready : ReadyList :=
  match addReadyInst strict_flags heap2 1 ReadyList_init ≫= addReadyInst strict_flags heap2 0 with
  | Ok r => r | Err _ => ReadyList_init end.
Lemma both_ready_wf : rl_wf heap2 both_ready.
Proof.
  unfold both_ready.
  destruct (addReadyInst_ok strict_flags heap2 1 (add_at 2 68 4 6) ReadyList_init eq_refl (ReadyList_init_wf _) eq_refl)
    as (r1 & -> & Hwf1 & _). cbn [mbind res_bind].
  destruct (addReadyInst_ok strict_flags heap2 0 (add_at 1 64 4 5) r1 eq_refl Hwf1 eq_refl) as (r2 & -> & Hwf2 & _). done.
Qed.
Lemma oldest_ready_first_witness :
  listOrder both_ready = [MkListOrderEntry 1 1]
  ∧ (top_seq heap2 1 both_ready = Ok 1 ∧ 1 ≤ seqNum (add_at 2 68 4 6)).
Proof.
  split; [by vm_compute|].
  apply (oldest_ready_first heap2 both_ready (MkListOrderEntry 1 1) [] 1 1 (add_at 2 68 4 6) both_ready_wf);
    [by vm_compute|vm_compute; right; left|reflexivity].
Defined.

(** ** Instruction queue *)
(** The addition at 1 waits for [preg 4]. *)
Definition iq_waiting : IQ :=
  match DepGraph.insert 4 1 (dependGraph iq0) with Ok g => iq0 <| dependGraph := g |> | Err _ => iq0 end.
Lemma wakeReg_complete_witness :
  ∃ n' h' q', wakeReg strict_flags 10 (0, heap2, iq_waiting) (preg 4) = Ok (n', h', q')
  ∧ n' = 1 ∧ chain 4 (dependGraph q') = [].
Proof.
  destruct (is_ok_spec (wakeReg strict_flags 10 (0, heap2, iq_waiting) (preg 4))) as [[[n' h'] q'] E]; [by vm_compute|].
  exists n', h', q'. split; [exact E|].
  destruct (wakeReg_complete strict_flags 10 (preg 4) 0 n' heap2 h' iq_waiting q' ltac:(reflexivity) E) as (_ & H1 & H2 & _).
  split; [exact H1|exact H2].
Defined.

Definition iq_ready2 : IQ := iq0 <| fuPool := fu2 |> <| iq_ready := both_ready |>.
Lemma scheduleReadyInsts_terminates_witness : fuelled (scheduleReadyInsts strict_flags heap2 iq_ready2).
Proof. exact (scheduleReadyInsts_terminates strict_flags heap2 iq_ready2 fu2_wf). Defined.
Lemma schedule_within_width_witness :
  ∃ n h' q', scheduleReadyInsts strict_flags heap2 iq_ready2 = Ok (n, h', q') ∧ n = 2 ∧ 0 ≤ n ≤ totalWidth iq_ready2.
Proof.
  destruct (is_ok_spec (scheduleReadyInsts strict_flags heap2 iq_ready2)) as [[[n h'] q'] E]; [by vm_compute|].
  exists n, h', q'. split; [exact E|]. split; [vm_compute in E; by injection E as <- _ _|].
  exact (schedule_within_width strict_flags heap2 h' iq_ready2 q' n ltac:(by vm_compute) E).
Defined.
Lemma schedule_issues_live_witness :
  ∃ n h' q', scheduleReadyInsts strict_flags heap2 iq_ready2 = Ok (n, h', q')
  ∧ (sent q' 0 → sent iq_ready2 0 ∨ st_at Squashed heap2 0 = false).
Proof.
  destruct (is_ok_spec (scheduleReadyInsts strict_flags heap2 iq_ready2)) as [[[n h'] q'] E]; [by vm_compute|].
  exists n, h', q'. split; [exact E|]. exact (proj2 (schedule_issues_live strict_flags heap2 h' iq_ready2 q' n 0 E)).
Defined.

(** ** Operands *)
Lemma scoreboard_roundtrip_witness :
  ∃ sb1 sb2, setReg (preg 3) (Scoreboard_init 8) = Ok sb1 ∧ unsetReg (preg 3) (Scoreboard_init 8) = Ok sb2
  ∧ getReg (preg 3) sb1 = Ok true ∧ getReg (preg 3) sb2 = Ok false.
Proof.
  destruct (scoreboard_roundtrip (Scoreboard_init 8) (preg 3) (preg 4) (Scoreboard_init_wf 8) ltac:(reflexivity)
    ltac:(reflexivity)) as (sb1 & sb2 & H1 & H2 & _ & _ & H3 & H4 & _).
  exists sb1, sb2. split; [exact H1|]. split; [exact H2|]. split; [exact H3|exact H4].
Defined.
Lemma depgraph_insert_pop_witness :
  ∃ g1 g2, DepGraph.insert 2 7 (DepGraph.resize 4) = Ok g1 ∧ pop 2 g1 = Ok (Some 7%nat, g2).
Proof.
  destruct (depgraph_insert_pop 2 7 (DepGraph.resize 4) ltac:(reflexivity) ltac:(reflexivity)) as (g1 & g2 & H1 & H2 & _).
  exists g1, g2. split; [exact H1|exact H2].
Defined.
Lemma depgraph_remove_exact_witness :
  ∃ g', remove 1 7 (MkDepGraph [MkDepEntry None []; MkDepEntry None [5; 7; 6]%nat] 3) = Ok g'
  ∧ dg_wf g' ∧ chain 1 g' = [5; 6]%nat.
Proof.
  destruct (depgraph_remove_exact 1 7 (MkDepGraph [MkDepEntry None []; MkDepEntry None [5; 7; 6]%nat] 3) [5%nat] [6%nat]
    ltac:(reflexivity) ltac:(reflexivity) ltac:(by intros ?%list_elem_of_singleton)) as (g' & H1 & H2 & H3 & _).
  exists g'. split; [exact H1|]. split; [exact H2|exact H3].
Defined.
Lemma markSrcRegReady_counts_witness :
  ∃ d', markSrcRegReady 10 (add_at 1 64 4 5) = Ok d' ∧ readyRegs d' = 1 ∧ readyToIssue d' = true.
Proof.
  destruct (markSrcRegReady_counts 10 (add_at 1 64 4 5) ltac:(by vm_compute) ltac:(by vm_compute)) as (d' & H1 & H2 & H3).
  exists d'. split; [exact H1|]. split; [exact H2|]. rewrite H3. by vm_compute.
Defined.
(** The one destination of the load keeps its value 42. *)
Lemma runahead_zero_skips_first_witness :
  ∃ v', runaheadZeroOutputRegs (load_at 2 68 4 5) {[ preg 5 := 42 ]} = Ok v' ∧ v' !! preg 5 = Some 42.
Proof.
  destruct (is_ok_spec (runaheadZeroOutputRegs (load_at 2 68 4 5) {[ preg 5 := 42 ]})) as [v' E]; [by vm_compute|].
  exists v'. split; [exact E|].
  destruct (runahead_zero_skips_first (load_at 2 68 4 5) {[ preg 5 := 42 ]} v' (preg 5) [] ltac:(reflexivity)
    ltac:(apply not_elem_of_nil) E) as [H1 _]. rewrite H1. by vm_compute.
Defined.

(** ** Commit *)
Definition file0 : PhysRegFile := MkPhysRegFile [] [] [] [] [] [] [] 0 0 Full.
Definition srm0 : SimpleRenameMap := MkSimpleRenameMap (Some ∘ preg <$> [0; 1; 2; 3]) (areg 0).
Definition map0 : UnifiedRenameMap := MkUnifiedRenameMap srm0 srm0 srm0 srm0 srm0 Full.
(** No interrupts, no pc events, no stores; a trap goes to [0x1000]. *)
Definition env0 : CommitEnv :=
  MkCommitEnv false (λ _, false) (λ _, NoFault) (λ _ _ _ _, pc_at 4096) (λ _, false) 10 13 (λ _ _, None) 1 next4
    (λ _, false) false file0.
Definition ai0 : ArchInfo := MkArchInfo None 0 0 false false false false false.
Definition arch0 (c : Commit) : CArch :=
  MkCArch c (λ _, ai0) 8 Aggressive [] Active Inactive CommitSuccess NoFault true false false false false
    (λ _, false) (λ _, false) (λ _, map0) (λ _, 0) (λ _, 0) (λ _, 0) [] [].

(** A branch and an addition behind it, resolved, written back and ready to commit. *)
Definition com1 : Sys :=
  do_fetch 1 (add_at 2 68 4 5) (do_rename (preg 5) (do_fetch 0 (branch_at 1 64) sys0)).
Definition com2 : Sys := do_get strict_flags 0 com1.
Definition com3 : Sys := do_get strict_flags 1 com2.
Definition com4 : Sys :=
  do_iew strict_flags next4 [MkExecuted 0 None false] [0%nat; 1%nat] (do_mark 1 setExecuted (do_mark 0 setExecuted com3)).
Definition com5 : Sys := do_mark 1 setCanCommit (do_mark 0 setCanCommit com4).

Lemma com2_fresh : fresh_inst (s_rob com2) (s_world com2) 1 (add_at 2 68 4 5).
Proof.
  assert (Hrob : ∀ tid q, q ∈ instList (s_rob com2) tid → q = 0%nat).
  { intros [|tid] q; vm_compute; inversion 1; [done|by match goal with H : _ ∈ [] |- _ => inversion H end]. }
  split; try (vm_compute; done).
  - intros tid Hp. by apply Hrob in Hp.
  - intros q ->%Hrob. by vm_compute.
  - intros x Hx. vm_compute in Hx. inversion_clear Hx as [|? ? ? Hx']; [|inversion Hx'].
    split; [done|]. by vm_compute.
  - intros q e x y [tid ->%Hrob] He _ _ Hy. vm_compute in He. injection He as <-. vm_compute in Hy. inversion Hy.
Qed.

Lemma mark_quiet (s : Status) (p : InstPtr) (d : DynInst) : s ∈ [CanCommit; Executed] → quiet p d (st_set s d).
Proof. intros Hs. eapply changed_mono; [|apply changed_st_set]. set_solver. Qed.

Lemma com5_reach : reach1 com5.
Proof.
  do 2 (apply run_mark; [intros d; apply mark_quiet; set_solver|]).
  apply run_iew.
  - do 2 (apply run_mark; [intros d; apply mark_quiet; set_solver|]).
    eapply run_get; [|exact com2_fresh]. eapply run_get.
    + apply run_fetch; [|by vm_compute]. apply run_rename. apply run_fetch; [|by vm_compute]. apply reach_init, sys0_initial.
    + split; try (vm_compute; done).
      * intros [|tid]; vm_compute; inversion 1.
      * intros q. vm_compute. inversion 1.
      * intros x. vm_compute. inversion 1.
      * intros q e x y _ _ _ Hx. vm_compute in Hx. inversion Hx.
  - intros x Hx. apply list_elem_of_singleton in Hx as ->. eexists. split; [by vm_compute|]. split; vm_compute; left.
  - intros p Hp. exists 0%nat. vm_compute. vm_compute in Hp. done.
Qed.

(** The result of a cycle of commits that succeeds. *)
Definition commits (e : CommitEnv) (s : Sys) : Z * CommitHeadError * CArch * ROB * World IQ :=
  match commitInsts strict_flags 12 e (arch0 (s_commit s)) (s_rob s) (s_world s) with
  | Ok x => x
  | Err _ => (0, CommitSuccess, arch0 (s_commit s), s_rob s, s_world s)
  end.
Lemma commits_ok (e : CommitEnv) (s : Sys) :
  is_ok (commitInsts strict_flags 12 e (arch0 (s_commit s)) (s_rob s) (s_world s)) = true →
  commitInsts strict_flags 12 e (arch0 (s_commit s)) (s_rob s) (s_world s)
  = Ok ((commits e s).1.1.1.1, (commits e s).1.1.1.2, (commits e s).1.1.2, (commits e s).1.2, (commits e s).2).
Proof. unfold commits. by destruct (commitInsts _ _ _ _ _ _) as [[[[[]]]]|]. Qed.

Lemma com5_inv : rob_inv strict_flags (λ _, 0) (s_rob com5) (s_world com5).
Proof. apply (NDA.reachable_inv _ _ _ com5_reach). Qed.

(** The branch and the addition are committed; commit's map sends register 3 to [preg 5]. *)
Lemma commit_in_order_witness :
  (commits env0 com5).1.1.1.1 = 2
  ∧ srm_map (intMap (commitMap (commits env0 com5).1.1.2 0)) !! 3%nat = Some (Some (preg 5))
  ∧ (commits env0 com5).1.1.1.1 ≤ commitWidth (arch0 (s_commit com5))
  ∧ ∃ out, retirement env0 (w_heap (s_world com5)) 0 (arch0 (s_commit com5)) (s_rob com5) out (commits env0 com5).1.1.1.1
      (commits env0 com5).1.1.2 (commits env0 com5).1.2 (w_heap (commits env0 com5).2).
Proof.
  split; [by vm_compute|]. split; [by vm_compute|].
  eapply (commit_in_order strict_flags 12 env0 (λ _, 0)); [exact com5_inv|done|apply commits_ok; by vm_compute].
Defined.

Lemma commit_terminates_witness :
  fuelled (commitInsts strict_flags 12 env0 (arch0 (s_commit com5)) (s_rob com5) (s_world com5)) ∧ numInstsInROB (s_rob com5) = 2.
Proof.
  split; [|by vm_compute].
  apply (commit_terminates strict_flags 12 env0 (λ _, 0) (arch0 (s_commit com5))); [done|exact com5_inv|done].
Defined.

Lemma commit_refines_scheme_witness :
  NDA.reachable strict_flags next4
    (view com5 (commits env0 com5).1.1.2 (commits env0 com5).1.2 (commits env0 com5).2).
Proof.
  refine (proj2 (commit_refines_scheme strict_flags next4 12 env0 com5 _ _ (arch0 (s_commit com5)) _ _ _
    com5_reach eq_refl (commits_ok env0 com5 _))). by vm_compute.
Defined.

(** ** A fault *)
Definition flt_inst : DynInst := add_at 1 64 4 5 <| fault := OtherFault 7 |>.
Definition flt1 : Sys := do_fetch 0 flt_inst (do_rename (preg 5) sys0).
Definition flt2 : Sys := do_mark 0 setCanCommit (do_mark 0 setExecuted (do_get strict_flags 0 flt1)).
Lemma flt2_inv : rob_inv strict_flags (λ _, 0) (s_rob flt2) (s_world flt2).
Proof.
  apply (NDA.reachable_inv strict_flags next4). do 2 (apply run_mark; [intros d; apply mark_quiet; set_solver|]).
  eapply (run_get _ _ 0 flt_inst).
  - apply run_fetch; [|by vm_compute]. apply run_rename, reach_init, sys0_initial.
  - split; try (vm_compute; done).
    + intros [|tid]; vm_compute; inversion 1.
    + intros q. vm_compute. inversion 1.
    + intros x Hx. vm_compute in Hx. inversion_clear Hx as [|? ? ? Hx']; [|inversion Hx']. split; [done|]. by vm_compute.
    + intros q e x y [[|tid] Hq]; vm_compute in Hq; inversion Hq.
Qed.

Lemma commit_faults_precise_witness :
  (commits env0 flt2).1.1.1.2 = InstructionFault
  ∧ ((commits env0 flt2).1.1.1.1 = 0
     ∧ (∃ t p, trapped env0 t p (commits env0 flt2).1.1.2 (commits env0 flt2).1.2 (commits env0 flt2).2)
     ∧ ∀ t, commitMap (commits env0 flt2).1.1.2 t = map0 ∧ lastCommitedSeqNum (a_commit (commits env0 flt2).1.1.2) t = 0).
Proof.
  assert (E : (commits env0 flt2).1.1.1.2 = InstructionFault) by by vm_compute. split; [done|].
  eapply (commit_faults_precise strict_flags 12 env0 (λ _, 0) _ (arch0 (s_commit flt2))); [exact flt2_inv|].
  rewrite <- E. apply commits_ok. by vm_compute.
Defined.

(** With stores outstanding the fault waits. *)
Definition env_st : CommitEnv :=
  MkCommitEnv false (λ _, false) (λ _, NoFault) (λ _ _ _ _, pc_at 4096) (λ _, false) 10 13 (λ _ _, None) 1 next4
    (λ _, true) false file0.
Lemma commit_head_decides_witness :
  (commits env_st flt2).1.1.1.1 = 0 ∧ (commits env_st flt2).1.1.1.2 = StoreOrder
  ∧ (commits env_st flt2).1.2 = s_rob flt2 ∧ (commits env_st flt2).2 = s_world flt2.
Proof.
  pose (d := setCanCommit (setExecuted (setInROB 10 flt_inst))).
  eapply (commit_head_decides strict_flags 12 env_st (λ _, 0) 0 0 d _ _ (arch0 (s_commit flt2)));
    [exact flt2_inv|done|done|done|done|done|by vm_compute|by vm_compute|by vm_compute|by vm_compute|].
  apply commits_ok. by vm_compute.
Defined.

(** ** Two threads *)
(** Thread 0's head is number 7, thread 1's is number 3. *)
Definition smt_heap : heap :=
  <[0%nat := setCanCommit (setInROB 1 (add_at 7 64 4 5))]> {[1%nat := setCanCommit (setInROB 1 (add_at 3 64 4 6))]}.
Definition smt_rob : ROB :=
  MkROB (λ _, Running) Dynamic 16 (λ t, if (t <? 2)%nat then 1 else 0) (λ _, 16) (λ t, if (t <? 2)%nat then [t] else []) 4
    None None (λ _, None) (λ _, false) 0 0 2 (λ _, 0) (λ _, 0) (λ _, true) 2 [0%nat; 1%nat].
Lemma oldest_ready_is_first_witness :
  seq_at smt_heap 1 < seq_at smt_heap 0 ∧ oldestReady smt_heap (arch0 commit0) smt_rob = Ok (Some 0%nat)
  ∧ ∃ l1 l2, [0%nat; 1%nat] = l1 ++ 0%nat :: l2 ∧ choosable smt_heap (arch0 commit0) smt_rob 0 = true
             ∧ ∀ x, x ∈ l1 → choosable smt_heap (arch0 commit0) smt_rob x = false.
Proof.
  split; [by vm_compute|]. split; [by vm_compute|].
  apply (oldest_ready_is_first smt_heap (arch0 commit0) smt_rob 0); [|by vm_compute].
  intros x y p d Hx Hy Hp Hd. cbn in Hx, Hy.
  assert (seqNum d = 7 ∨ seqNum d = 3).
  { apply elem_of_cons in Hx as [Hx|Hx%list_elem_of_singleton]; subst x; vm_compute in Hp; injection Hp as <-;
      vm_compute in Hd; injection Hd as <-; vm_compute; auto. }
  apply elem_of_cons in Hy as [Hy|Hy%list_elem_of_singleton]; lia.
Defined.

(** ** A whole cycle *)
Definition cycle5 : CArch * ROB * World IQ :=
  match commit strict_flags 12 env0 msg0 (λ _, 0) [] (arch0 (s_commit com5)) (s_rob com5) (s_world com5) with
  | Ok x => x
  | Err _ => (arch0 (s_commit com5), s_rob com5, s_world com5)
  end.
(** Both instructions left: the buffer is reported empty, with 16 free entries. *)
Lemma commit_reports_rob_witness :
  usedROB (a_info cycle5.1.1 0) = true ∧ emptyROB (a_info cycle5.1.1 0) = true
  ∧ freeROBEntries (a_info cycle5.1.1 0) = 16 ∧ freeROBEntries (a_info cycle5.1.1 0) = numFreeEntries_tid 0 cycle5.1.2.
Proof.
  assert (E : commit strict_flags 12 env0 msg0 (λ _, 0) [] (arch0 (s_commit com5)) (s_rob com5) (s_world com5)
    = Ok (cycle5.1.1, cycle5.1.2, cycle5.2)) by by vm_compute.
  destruct (commit_reports_rob strict_flags 12 env0 msg0 (λ _, 0) [] (arch0 (s_commit com5)) _ _ _ _ _ 0 ltac:(done) E
    ltac:(vm_compute; left)) as (H1 & H2 & _).
  split; [apply H1; by vm_compute|]. split; [by vm_compute|]. split; [by vm_compute|]. apply H2. by vm_compute.
Defined.

Definition tick2 : CArch * ROB * World IQ :=
  match tick strict_flags 12 env_st msg0 (λ _, 0) [] [] (arch0 (s_commit flt2)) (s_rob flt2) (s_world flt2) with
  | Ok x => x
  | Err _ => (arch0 (s_commit flt2), s_rob flt2, s_world flt2)
  end.
(** The fault waits for the stores, and commit stays active. *)
Lemma commit_stays_active_witness : c_status tick2.1.1 = Active.
Proof.
  assert (E : tick strict_flags 12 env_st msg0 (λ _, 0) [] [] (arch0 (s_commit flt2)) (s_rob flt2) (s_world flt2)
    = Ok (tick2.1.1, tick2.1.2, tick2.2)) by by vm_compute.
  apply (commit_stays_active strict_flags 12 env_st msg0 (λ _, 0) [] [] (arch0 (s_commit flt2)) tick2.1.1
    (s_rob flt2) tick2.1.2 (s_world flt2) tick2.2 0 ltac:(done) E).
  - vm_compute. left.
  - right. right. split; [by vm_compute|]. eexists _, _. split_and!; by vm_compute.
Defined.
