(* ===== verification/IntMath.v ===== *)
(** * Integer helpers of the simulator

    [src/base/intmath.hh] and [mask] of [src/base/bitfield.hh], with the facts about
    powers of two, masks and shifts that tables indexed by address bits rely on. *)

From S2P Require Import Prelude.
Local Open Scope Z_scope.

Definition leastSigBit (n : Z) : Z := Z.land n (Z.lnot (n - 1)).
Definition isPowerOf2 (n : Z) : bool := negb (n =? 0) && (leastSigBit n =? n).

(** One line of the search: [if (x & m) { y += k; x >>= k; }]. *)
Definition log_step (m k : Z) (yx : Z * Z) : Z * Z :=
  let '(y, x) := yx in if Z.land x m =? 0 then (y, x) else (y + k, Z.shiftr x k).

(** [floorLog2(unsigned)]. *)
Definition floorLog2 (x : Z) : res Z :=
  _ ← assert (0 <? x);
  let yx := (0, x) in
  let yx := log_step 0xffff0000 16 yx in
  let yx := log_step 0x0000ff00 8 yx in
  let yx := log_step 0x000000f0 4 yx in
  let yx := log_step 0x0000000c 2 yx in
  let '(y, x) := yx in
  Ok (if Z.land x 0x00000002 =? 0 then y else y + 1).

Definition ceilLog2 (n : Z) : res Z :=
  if n =? 1 then Ok 0 else y ← floorLog2 (n - 1); Ok (y + 1).

Definition mask (nbits : Z) : Z := if nbits =? 64 then u64 (-1) else Z.shiftl 1 nbits - 1.

(** ** Powers of two *)
Lemma isPowerOf2_spec (n : Z) : 0 ≤ n → isPowerOf2 n = true ↔ ∃ k, 0 ≤ k ∧ n = 2 ^ k.
Proof.
  intros Hn. unfold isPowerOf2, leastSigBit. rewrite andb_true_iff, negb_true_iff, Z.eqb_neq, Z.eqb_eq. split.
  - intros [H0 H]. exists (Z.log2 n). split; [apply Z.log2_nonneg|].
    destruct (Z.log2_spec n ltac:(lia)) as [Hlo Hhi]. destruct (Z.eq_dec n (2 ^ Z.log2 n)) as [?|Hne]; [done|exfalso].
    assert (Hb : Z.testbit (n - 1) (Z.log2 n) = true).
    { replace (Z.log2 n) with (Z.log2 (n - 1)); [apply Z.bit_log2; pose proof (Z.pow_pos_nonneg 2 (Z.log2 n) ltac:(lia) (Z.log2_nonneg n)); lia|].
      apply Z.log2_unique; [apply Z.log2_nonneg|lia]. }
    assert (Hl : Z.testbit (Z.land n (Z.lnot (n - 1))) (Z.log2 n) = true) by (rewrite H; apply Z.bit_log2; lia).
    rewrite Z.land_spec, Z.lnot_spec, Hb, andb_false_r in Hl; [done|apply Z.log2_nonneg].
  - intros (k & Hk & ->). pose proof (Z.pow_pos_nonneg 2 k ltac:(lia) Hk). split; [lia|].
    apply Z.bits_inj'. intros i Hi. rewrite Z.land_spec, Z.lnot_spec, Z.pow2_bits_eqb by lia.
    replace (2 ^ k - 1) with (Z.ones k) by (rewrite Z.ones_equiv; lia).
    destruct (Z.eqb_spec k i) as [->|]; [|done]. by rewrite Z.ones_spec_high by lia.
Qed.

(** Masking with a power of two minus one is a remainder. *)
Lemma land_mask (x k : Z) : 0 ≤ k → Z.land x (2 ^ k - 1) = x mod 2 ^ k.
Proof. intros Hk. rewrite <- Z.land_ones by done. f_equal. rewrite Z.ones_equiv. lia. Qed.

Lemma land_pow2_range (x n : Z) : 0 ≤ n → isPowerOf2 n = true → 0 ≤ Z.land x (n - 1) < n.
Proof.
  intros Hn (k & Hk & ->)%isPowerOf2_spec; [|done]. rewrite land_mask by done. apply Z.mod_pos_bound. by apply Z.pow_pos_nonneg.
Qed.

Lemma mask_ones (k : Z) : 0 ≤ k → mask k = Z.ones k.
Proof.
  intros Hk. unfold mask. destruct (Z.eqb_spec k 64) as [->|]; [done|]. by rewrite Z.ones_equiv, Z.shiftl_mul_pow2, Z.mul_1_l by done.
Qed.

(** ** Logarithms *)
Lemma testbit_small (x k i : Z) : 0 ≤ x < 2 ^ k → k ≤ i → Z.testbit x i = false.
Proof.
  intros Hx Hi. destruct (Z.le_gt_cases 0 k) as [Hk|Hk]; [|rewrite Z.pow_neg_r in Hx by lia; lia].
  rewrite <- (Z.mod_small x (2 ^ k)) by done. apply Z.mod_pow2_bits_high. lia.
Qed.

Lemma land_high (x k : Z) : 0 ≤ k → 0 ≤ x < 2 ^ (2 * k) → Z.land x (Z.shiftl (Z.ones k) k) = Z.shiftl (Z.shiftr x k) k.
Proof.
  intros Hk Hx. apply Z.bits_inj'. intros i Hi. rewrite Z.land_spec, !Z.shiftl_spec by lia.
  destruct (Z.lt_ge_cases i k); [by rewrite !(Z.testbit_neg_r _ (i - k)), andb_false_r by lia|].
  rewrite Z.shiftr_spec by lia. replace (i - k + k) with i by lia.
  destruct (Z.lt_ge_cases i (2 * k)); [by rewrite Z.ones_spec_low, andb_true_r by lia|]. by rewrite (testbit_small x (2 * k)).
Qed.

(** A step halves the width of what is left and keeps the sum with its logarithm. *)
Lemma log_step_ok (m k y x : Z) :
  m = Z.shiftl (Z.ones k) k → 0 < k → 0 < x < 2 ^ (2 * k) →
  ∃ y' x', log_step m k (y, x) = (y', x') ∧ 0 < x' < 2 ^ k ∧ y' + Z.log2 x' = y + Z.log2 x.
Proof.
  intros -> Hk Hx. unfold log_step. rewrite land_high by lia. pose proof (Z.pow_pos_nonneg 2 k ltac:(lia) ltac:(lia)) as Hp.
  rewrite Z.shiftl_mul_pow2, Z.shiftr_div_pow2 by lia. destruct (Z.eqb_spec (x / 2 ^ k * 2 ^ k) 0) as [E|E].
  - exists y, x. split; [done|]. split; [|lia]. assert (H0 : x / 2 ^ k = 0) by nia. apply Z.div_small_iff in H0; lia.
  - eexists _, _. split; [reflexivity|]. assert (Hq : 0 < x / 2 ^ k) by (assert (0 ≤ x / 2 ^ k) by (apply Z.div_pos; lia); nia).
    split; [split; [done|]|].
    + apply Z.div_lt_upper_bound; [done|]. rewrite <- Z.pow_add_r by lia. replace (k + k) with (2 * k) by lia. lia.
    + assert (Hkl : k ≤ Z.log2 x).
      { apply Z.log2_le_pow2; [lia|]. destruct (Z.le_gt_cases (2 ^ k) x); [done|]. rewrite Z.div_small in Hq by lia. lia. }
      rewrite <- Z.shiftr_div_pow2, Z.log2_shiftr by lia. lia.
Qed.

Lemma floorLog2_ok (x : Z) : 0 < x < 2 ^ 32 → floorLog2 x = Ok (Z.log2 x).
Proof.
  intros Hx. unfold floorLog2. rewrite (proj2 (Z.ltb_lt _ _)) by lia. cbn [assert mbind res_bind].
  destruct (log_step_ok 0xffff0000 16 0 x) as (y1 & x1 & -> & H1 & E1); [reflexivity|lia|lia|].
  destruct (log_step_ok 0x0000ff00 8 y1 x1) as (y2 & x2 & -> & H2 & E2); [reflexivity|lia|lia|].
  destruct (log_step_ok 0x000000f0 4 y2 x2) as (y3 & x3 & -> & H3 & E3); [reflexivity|lia|lia|].
  destruct (log_step_ok 0x0000000c 2 y3 x3) as (y4 & x4 & -> & H4 & E4); [reflexivity|lia|lia|].
  f_equal. change (2 ^ 2) with 4 in H4. assert (x4 = 1 ∨ x4 = 2 ∨ x4 = 3) as [->|[->| ->]] by lia;
    [change (Z.log2 1) with 0 in E4|change (Z.log2 2) with 1 in E4|change (Z.log2 3) with 1 in E4]; simpl; lia.
Qed.

Lemma ceilLog2_pow (k : Z) : 0 ≤ k < 32 → ceilLog2 (2 ^ k) = Ok k.
Proof.
  intros Hk. unfold ceilLog2. destruct (Z.eqb_spec (2 ^ k) 1) as [E|E].
  - f_equal. destruct (Z.eq_dec k 0); [done|]. pose proof (Z.pow_gt_1 2 k ltac:(lia)) as [H _]. lia.
  - pose proof (Z.pow_pos_nonneg 2 k ltac:(lia) ltac:(lia)). pose proof (Z.pow_lt_mono_r 2 k 32 ltac:(lia) ltac:(lia)).
    rewrite floorLog2_ok by lia. cbn [mbind res_bind]. f_equal.
    replace (2 ^ k - 1) with (Z.pred (2 ^ k)) by lia. destruct (Z.eq_dec k 0) as [->|]; [done|]. rewrite Z.log2_pred_pow2 by lia. lia.
Qed.

(** * Saturating counters

    [src/cpu/pred/sat_counter.hh], and tables of such counters, which every direction
    predictor keeps. *)
Local Open Scope Z_scope.

(** The fields are [uint8_t]. *)
Record SatCounter := MkSatCounter {
  initialVal : Z;
  maxVal : Z;
  counter : Z;
}.
#[export] Instance SatCounter_eta : Updatable SatCounter := λ r, MkSatCounter (initialVal r) (maxVal r) (counter r).

(** [SatCounter()]; [maxVal] is indeterminate until [setBits] is called. *)
Definition SatCounter_new : SatCounter := MkSatCounter 0 0 0.
Definition SatCounter_bits (bits : Z) : SatCounter := MkSatCounter 0 (u8 (Z.shiftl 1 bits - 1)) 0.
Definition SatCounter_init (bits initial_val : Z) : res SatCounter :=
  let maxVal := u8 (Z.shiftl 1 bits - 1) in
  _ ← panic_if (maxVal <? initial_val);
  Ok (MkSatCounter initial_val maxVal initial_val).
Definition setBits (bits : Z) (c : SatCounter) : SatCounter := c <| maxVal := u8 (Z.shiftl 1 bits - 1) |>.
Definition sat_reset (c : SatCounter) : SatCounter := c <| counter := initialVal c |>.
Definition increment (c : SatCounter) : SatCounter :=
  if counter c <? maxVal c then c <| counter := u8 (counter c + 1) |> else c.
Definition decrement (c : SatCounter) : SatCounter :=
  if 0 <? counter c then c <| counter := u8 (counter c - 1) |> else c.
Definition sat_read (c : SatCounter) : Z := counter c.

(** ** Thresholds and history registers *)
(** A counter predicts taken above [(ULL(1) << (bits - 1)) - 1], kept in an [unsigned]. *)
Definition threshold (bits : Z) : Z := u32 (Z.shiftl 1 (bits - 1) - 1).
(** A history register shifted by an outcome, in an [unsigned]. *)
Definition shift_in (taken : bool) (h : Z) : Z := Z.lor (u32 (Z.shiftl h 1)) (Z.b2z taken).

(** ** Counters of a given width *)
Definition ctr_ok (bits : Z) (c : SatCounter) : Prop :=
  0 ≤ initialVal c ≤ maxVal c ∧ maxVal c = 2 ^ bits - 1 ∧ 0 ≤ counter c ≤ maxVal c.

(** A counter with [bits] bits moved towards an outcome. *)
Definition sat_toward (taken : bool) (c : SatCounter) : SatCounter := if taken then increment c else decrement c.

Section width.
Context (bits : Z) (Hbits : 1 ≤ bits ≤ 8).

Lemma width_small : 2 ≤ 2 ^ bits ≤ 256.
Proof. split; [change 2 with (2 ^ 1) at 1|change 256 with (2 ^ 8)]; apply Z.pow_le_mono_r; lia. Qed.

Lemma setBits_new_ok : ctr_ok bits (setBits bits SatCounter_new).
Proof.
  pose proof width_small. unfold ctr_ok, setBits. cbn. rewrite Z.shiftl_mul_pow2, Z.mul_1_l by lia. rewrite u8_small by lia. lia.
Qed.

Lemma increment_ok c : ctr_ok bits c → ctr_ok bits (increment c) ∧ counter (increment c) = Z.min (2 ^ bits - 1) (counter c + 1).
Proof.
  pose proof width_small. unfold ctr_ok, increment. intros (Hi & Hm & Hc). destruct (Z.ltb_spec (counter c) (maxVal c)); cbn; rewrite ?u8_small by lia; lia.
Qed.

Lemma decrement_ok c : ctr_ok bits c → ctr_ok bits (decrement c) ∧ counter (decrement c) = Z.max 0 (counter c - 1).
Proof.
  pose proof width_small. unfold ctr_ok, decrement. intros (Hi & Hm & Hc). destruct (Z.ltb_spec 0 (counter c)); cbn; rewrite ?u8_small by lia; lia.
Qed.

Lemma toward_ok (taken : bool) c : ctr_ok bits c → ctr_ok bits (sat_toward taken c).
Proof. intros Hc. destruct taken; [by apply increment_ok|by apply decrement_ok]. Qed.

Lemma reset_ok c : ctr_ok bits c → ctr_ok bits (sat_reset c).
Proof. unfold ctr_ok, sat_reset. cbn. lia. Qed.

(** After as many steps towards an outcome as half the range, the top bit says it. *)
Lemma toward_iter (taken : bool) (n : nat) c :
  ctr_ok bits c → ctr_ok bits (Nat.iter n (sat_toward taken) c)
    ∧ counter (Nat.iter n (sat_toward taken) c)
      = if taken then Z.min (2 ^ bits - 1) (counter c + Z.of_nat n) else Z.max 0 (counter c - Z.of_nat n).
Proof.
  intros Hc. induction n as [|n [IH1 IH2]]; [destruct Hc as (? & ? & ?); cbn; split; [done|destruct taken; lia]|].
  change (Nat.iter (S n) (sat_toward taken) c) with (sat_toward taken (Nat.iter n (sat_toward taken) c)). split; [by apply toward_ok|]. revert IH1 IH2. generalize (Nat.iter n (sat_toward taken) c). intros c' IH1 IH2.
  destruct taken; cbn [sat_toward]; [rewrite (proj2 (increment_ok _ IH1))|rewrite (proj2 (decrement_ok _ IH1))]; lia.
Qed.
End width.

(** ** Tables *)
(** One counter of a table is changed. *)
Definition on_ctr (i : Z) (f : SatCounter → SatCounter) (t : list SatCounter) : res (list SatCounter) :=
  c ← vget t i; vset i (f c) t.

Definition table_ok (bits size : Z) (t : list SatCounter) : Prop := Z.of_nat (length t) = size ∧ Forall (ctr_ok bits) t.

Lemma table_new (bits size : Z) :
  1 ≤ bits ≤ 8 → 0 ≤ size → table_ok bits size (setBits bits <$> replicate (Z.to_nat size) SatCounter_new).
Proof.
  intros Hb Hs. split; [rewrite length_fmap, length_replicate; lia|]. apply Forall_fmap, Forall_replicate. by apply setBits_new_ok.
Qed.

Lemma table_get (bits size i : Z) t : table_ok bits size t → 0 ≤ i < size → ∃ c, vget t i = Ok c ∧ ctr_ok bits c.
Proof.
  intros [Hl Hf] Hi. destruct (vget_in_range t i) as [c Hc]; [lia|]. exists c. split; [done|].
  apply vget_ok in Hc as [_ Hc]. by apply (Forall_lookup_1 _ _ _ _ Hf Hc).
Qed.

Lemma on_ctr_ok (bits size i : Z) f t :
  (∀ c, ctr_ok bits c → ctr_ok bits (f c)) → table_ok bits size t → 0 ≤ i < size →
  ∃ c t', vget t i = Ok c ∧ on_ctr i f t = Ok t' ∧ table_ok bits size t' ∧ t' = <[Z.to_nat i := f c]> t.
Proof.
  intros Hf Ht Hi. destruct (table_get _ _ i _ Ht Hi) as (c & Hc & Hok). destruct Ht as [Hl Ha].
  exists c, (<[Z.to_nat i := f c]> t). split; [done|]. unfold on_ctr. rewrite Hc. cbn [mbind res_bind]. rewrite vset_in_range by lia.
  split; [done|]. split; [|done]. split; [by rewrite length_insert|]. apply Forall_insert; auto.
Qed.
