(* ===== verification/Targets.v ===== *)
(** * Targets of branches

    The three tables that predict where a branch goes: the return address stack, the
    branch target buffer and the indirect predictor. *)

From S2P Require Import Prelude Regs DynInst IntMath.
Local Open Scope Z_scope.

(** * Return address stack

    [src/cpu/pred/ras.hh] and [ras.cc]: a circular stack of return addresses that keeps
    the youngest calls when it overflows. *)
Local Open Scope Z_scope.

Record ReturnAddrStack := MkRAS {
  addrStack : list PCState;
  ras_numEntries : Z;
  usedEntries : Z;
  tos : Z;
}.
#[export] Instance ReturnAddrStack_eta : Updatable ReturnAddrStack := λ r, MkRAS (addrStack r) (ras_numEntries r) (usedEntries r) (tos r).

Definition ras_reset (r : ReturnAddrStack) : ReturnAddrStack :=
  r <| usedEntries := 0 |> <| tos := 0 |> <| addrStack ::= fmap (λ _, pc_set 0) |>.
(** [init]; the slots [resize] creates are overwritten by [reset]. *)
Definition ras_init (n : Z) : ReturnAddrStack := ras_reset (MkRAS (replicate (Z.to_nat n) (pc_set 0)) n 0 0).
Definition ras_top (r : ReturnAddrStack) : res PCState := vget (addrStack r) (tos r).
Definition topIdx (r : ReturnAddrStack) : Z := tos r.
Definition ras_empty (r : ReturnAddrStack) : bool := usedEntries r =? 0.
Definition ras_full (r : ReturnAddrStack) : bool := usedEntries r =? ras_numEntries r.
Definition incrTos (r : ReturnAddrStack) : ReturnAddrStack :=
  let t := u32 (tos r + 1) in r <| tos := if t =? ras_numEntries r then 0 else t |>.
Definition decrTos (r : ReturnAddrStack) : ReturnAddrStack :=
  r <| tos := if tos r =? 0 then u32 (ras_numEntries r - 1) else tos r - 1 |>.
Definition ras_push (return_addr : PCState) (r : ReturnAddrStack) : res ReturnAddrStack :=
  let r := incrTos r in
  s ← vset (tos r) return_addr (addrStack r);
  let r := r <| addrStack := s |> in
  Ok (if usedEntries r =? ras_numEntries r then r else r <| usedEntries := u32 (usedEntries r + 1) |>).
Definition ras_pop (r : ReturnAddrStack) : ReturnAddrStack :=
  let r := if 0 <? usedEntries r then r <| usedEntries := usedEntries r - 1 |> else r in
  decrTos r.
Definition ras_restore (top_entry_idx : Z) (restored : PCState) (r : ReturnAddrStack) : res ReturnAddrStack :=
  let r := r <| tos := top_entry_idx |> in
  s ← vset (tos r) restored (addrStack r);
  Ok (r <| addrStack := s |>).

(** ** Well-formed stacks *)
Record ras_ok (n : Z) (r : ReturnAddrStack) : Prop := {
  ro_size : ras_numEntries r = n;
  ro_len : Z.of_nat (length (addrStack r)) = n;
  ro_range : 0 < n < 2 ^ 32;
  ro_tos : 0 ≤ tos r < n;
  ro_used : 0 ≤ usedEntries r ≤ n;
}.

Lemma ras_init_ok (n : Z) : 0 < n < 2 ^ 32 → ras_ok n (ras_init n).
Proof. intros Hn. split; cbn; rewrite ?length_fmap, ?length_replicate; lia. Qed.

Lemma ras_top_ok (n : Z) r : ras_ok n r → ∃ x, ras_top r = Ok x.
Proof. intros [_ Hl _ Ht _]. apply vget_in_range. lia. Qed.

Lemma incrTos_ok (n : Z) r : ras_ok n r → ras_ok n (incrTos r) ∧ tos (incrTos r) = (tos r + 1) mod n.
Proof.
  intros [H1 H2 H3 H4 H5]. assert (E : tos (incrTos r) = (tos r + 1) mod n).
  { unfold incrTos. cbn. rewrite u32_small, H1 by lia. destruct (Z.eqb_spec (tos r + 1) n) as [E|]; [by rewrite E, Z.mod_same by lia|].
    rewrite Z.mod_small; lia. }
  split; [|done]. split; try done. rewrite E. apply Z.mod_pos_bound. lia.
Qed.

Lemma ras_push_ok (n : Z) x r :
  ras_ok n r → ∃ r', ras_push x r = Ok r' ∧ ras_ok n r' ∧ tos r' = (tos r + 1) mod n ∧ addrStack r' = <[Z.to_nat (tos r') := x]> (addrStack r).
Proof.
  intros H. destruct (incrTos_ok n r H) as [[H1 H2 H3 H4 H5] E]. unfold ras_push. rewrite vset_in_range by lia. cbn [mbind res_bind].
  eexists. split; [reflexivity|]. set (r' := if _ =? _ then _ else _).
  assert (E1 : tos r' = tos (incrTos r)) by (unfold r'; by destruct (_ =? _)).
  assert (E2 : addrStack r' = <[Z.to_nat (tos r') := x]> (addrStack r)) by (rewrite E1; unfold r'; by destruct (_ =? _)).
  split; [|by split; [rewrite E1|]]. split; rewrite ?E1, ?E2, ?length_insert; try done.
  - unfold r'. by destruct (_ =? _).
  - unfold r'. cbn in *. destruct (Z.eqb_spec (usedEntries r) (ras_numEntries r)) as [?|Hne]; cbn; [done|]. rewrite u32_small by lia. lia.
Qed.

Lemma ras_pop_ok (n : Z) r :
  ras_ok n r → ras_ok n (ras_pop r) ∧ tos (ras_pop r) = (tos r - 1) mod n ∧ addrStack (ras_pop r) = addrStack r.
Proof.
  intros [H1 H2 H3 H4 H5]. assert (E : tos (ras_pop r) = (tos r - 1) mod n).
  { unfold ras_pop, decrTos. destruct (0 <? usedEntries r); cbn; rewrite H1; (destruct (Z.eqb_spec (tos r) 0) as [->|]; [rewrite u32_small by lia|]);
      try (rewrite Z.mod_small by lia; done); apply Z.mod_unique with (-1); lia. }
  assert (E2 : addrStack (ras_pop r) = addrStack r) by (unfold ras_pop, decrTos; by destruct (0 <? usedEntries r)).
  split; [|done]. split; rewrite ?E, ?E2; try done.
  - unfold ras_pop, decrTos. by destruct (0 <? usedEntries r).
  - apply Z.mod_pos_bound. lia.
  - unfold ras_pop, decrTos. destruct (Z.ltb_spec 0 (usedEntries r)); cbn; lia.
Qed.

Lemma ras_restore_ok (n i : Z) x r :
  ras_ok n r → 0 ≤ i < n → ∃ r', ras_restore i x r = Ok r' ∧ ras_ok n r' ∧ tos r' = i ∧ addrStack r' = <[Z.to_nat i := x]> (addrStack r).
Proof.
  intros [H1 H2 H3 H4 H5] Hi. unfold ras_restore. cbn. rewrite vset_in_range by lia. cbn [mbind res_bind].
  eexists. split; [reflexivity|]. split; [|done]. split; cbn; rewrite ?length_insert; done.
Qed.

(** ** Undoing speculative calls and returns

    A predicted call pushes, and is undone by a pop; a predicted return pops, after its
    top and index are recorded, and is undone by restoring them. *)
Inductive RasAct := ACall (return_addr : PCState) | AReturn.
Inductive RasUndo := UPop | URestore (idx : Z) (top : PCState).

Definition ras_act (a : RasAct) (r : ReturnAddrStack) : res (RasUndo * ReturnAddrStack) :=
  match a with
  | ACall x => r' ← ras_push x r; Ok (UPop, r')
  | AReturn => x ← ras_top r; Ok (URestore (topIdx r) x, ras_pop r)
  end.
Definition ras_undo (u : RasUndo) (r : ReturnAddrStack) : res ReturnAddrStack :=
  match u with UPop => Ok (ras_pop r) | URestore i x => ras_restore i x r end.

(** The path is followed, then undone, youngest first. *)
Fixpoint ras_excursion (l : list RasAct) (r : ReturnAddrStack) : res ReturnAddrStack :=
  match l with
  | [] => Ok r
  | a :: l => '(u, r1) ← ras_act a r; r2 ← ras_excursion l r1; ras_undo u r2
  end.

(** How far the stack grows above its start on the path. *)
Fixpoint growth (l : list RasAct) : Z :=
  match l with
  | [] => 0
  | ACall _ :: l => growth l + 1
  | AReturn :: l => Z.max 0 (growth l - 1)
  end.

(** The [k]-th entry from the top. *)
Definition ras_slot (r : ReturnAddrStack) (k : Z) : option PCState := addrStack r !! Z.to_nat ((tos r - k) mod ras_numEntries r).

Lemma growth_nonneg l : 0 ≤ growth l.
Proof. induction l as [|[x|] l IH]; cbn; lia. Qed.

Lemma slot_shift (n t k : Z) : 0 < n → ((t + 1) mod n - (k + 1)) mod n = (t - k) mod n ∧ ((t - 1) mod n - (k - 1)) mod n = (t - k) mod n.
Proof. intros Hn. rewrite !Zminus_mod_idemp_l. split; f_equal; lia. Qed.

Lemma mod_ne (n a b : Z) : 0 < n → 0 < b - a < n → a mod n ≠ b mod n.
Proof. intros Hn Hab E. assert (Hd : (b - a) mod n = 0) by (rewrite Zminus_mod, E, Z.sub_diag, Z.mod_0_l; lia). rewrite Z.mod_small in Hd; lia. Qed.

(** Everything within the capacity left by the excursion is as it was. *)
Lemma ras_excursion_ok (n : Z) l r :
  ras_ok n r → ∃ r', ras_excursion l r = Ok r' ∧ ras_ok n r' ∧ tos r' = tos r
    ∧ ∀ k, 0 ≤ k < n - growth l → ras_slot r' k = ras_slot r k.
Proof.
  revert r. induction l as [|a l IH]; intros r Hr; cbn [ras_excursion].
  { exists r. auto. }
  pose proof (ro_range _ _ Hr) as Hn. pose proof (growth_nonneg l) as Hg. destruct a as [x|]; cbn [ras_act].
  - destruct (ras_push_ok n x r Hr) as (r1 & -> & Hr1 & Et1 & Es1). cbn [mbind res_bind].
    destruct (IH r1 Hr1) as (r2 & -> & Hr2 & Et2 & Hs2). cbn [mbind res_bind ras_undo]. destruct (ras_pop_ok n r2 Hr2) as (Hr3 & Et3 & Es3).
    assert (Et : tos (ras_pop r2) = tos r).
    { rewrite Et3, Et2, Et1, Zminus_mod_idemp_l, Z.mod_small; [lia|]. pose proof (ro_tos _ _ Hr). lia. }
    exists (ras_pop r2). split; [done|]. split; [done|]. split; [done|]. intros k Hk. cbn [growth] in Hk.
    specialize (Hs2 (k + 1) ltac:(lia)). unfold ras_slot in *.
    rewrite Es3, Et, (ro_size _ _ Hr3), (ro_size _ _ Hr). rewrite Et2, (ro_size _ _ Hr2), (ro_size _ _ Hr1), Et1 in Hs2.
    rewrite (proj1 (slot_shift n (tos r) k ltac:(lia))), Es1 in Hs2. rewrite Hs2. apply list_lookup_insert_ne.
    intros E. apply Z2Nat.inj in E; [|apply (ro_tos _ _ Hr1)|apply Z.mod_pos_bound; lia]. rewrite Et1 in E. symmetry in E. revert E. apply mod_ne; lia.
  - destruct (ras_top_ok n r Hr) as [x Hx]. rewrite Hx. cbn [mbind res_bind]. destruct (ras_pop_ok n r Hr) as (Hr1 & Et1 & Es1).
    destruct (IH _ Hr1) as (r2 & -> & Hr2 & Et2 & Hs2). cbn [mbind res_bind ras_undo].
    destruct (ras_restore_ok n (topIdx r) x r2 Hr2 (ro_tos _ _ Hr)) as (r3 & -> & Hr3 & Et3 & Es3).
    exists r3. split; [done|]. split; [done|]. split; [done|]. intros k Hk. cbn [growth] in Hk. unfold ras_slot in *.
    rewrite Es3, Et3, (ro_size _ _ Hr3), (ro_size _ _ Hr). unfold topIdx.
    pose proof (ro_tos _ _ Hr) as Htos. pose proof (ro_len _ _ Hr2) as Hl2. destruct (Z.eq_dec k 0) as [->|Hk0].
    + rewrite Z.sub_0_r, Z.mod_small by lia. rewrite list_lookup_insert_eq by lia. unfold ras_top in Hx. apply vget_ok in Hx as [_ Hx]. done.
    + rewrite list_lookup_insert_ne; [|intros E; apply Z2Nat.inj in E; [|lia|apply Z.mod_pos_bound; lia];
        rewrite <- (Z.mod_small (tos r) n) in E at 1 by lia; symmetry in E; revert E; apply mod_ne; lia].
      specialize (Hs2 (k - 1) ltac:(lia)). rewrite Et2, (ro_size _ _ Hr2), (ro_size _ _ Hr1), Et1, Es1 in Hs2.
      rewrite (proj2 (slot_shift n (tos r) k ltac:(lia))) in Hs2. done.
Qed.

(** * Branch target buffer

    [src/cpu/pred/btb.hh] and [btb.cc]: a direct-mapped table of branch targets, indexed
    by address bits mixed with the thread. *)
Local Open Scope Z_scope.

Record BTBEntry := MkBTBEntry { btb_tag : Z; btb_target : PCState; btb_tid : nat; btb_valid_ : bool }.
#[export] Instance BTBEntry_eta : Updatable BTBEntry := λ r, MkBTBEntry (btb_tag r) (btb_target r) (btb_tid r) (btb_valid_ r).

Record DefaultBTB := MkBTB {
  btb : list BTBEntry;
  btb_numEntries : Z;
  btb_idxMask : Z;
  btb_tagBits : Z;
  btb_tagMask : Z;
  btb_instShiftAmt : Z;
  btb_tagShiftAmt : Z;
  log2NumThreads : Z;
}.
#[export] Instance DefaultBTB_eta : Updatable DefaultBTB := λ r,
  MkBTB (btb r) (btb_numEntries r) (btb_idxMask r) (btb_tagBits r) (btb_tagMask r) (btb_instShiftAmt r) (btb_tagShiftAmt r) (log2NumThreads r).

(** An entry as the vector creates it; its thread is unset. *)
Definition BTBEntry_new : BTBEntry := MkBTBEntry 0 (pc_set 0) 0 false.
Definition DefaultBTB_new (numEntries tagBits instShiftAmt num_threads : Z) : res DefaultBTB :=
  log2NumThreads ← floorLog2 num_threads;
  _ ← panic_if (negb (isPowerOf2 numEntries));
  l ← floorLog2 numEntries;
  Ok (MkBTB ((λ e, e <| btb_valid_ := false |>) <$> replicate (Z.to_nat numEntries) BTBEntry_new)
            numEntries (numEntries - 1) tagBits (u32 (Z.shiftl 1 tagBits - 1)) instShiftAmt (instShiftAmt + l) log2NumThreads).

Definition btb_reset (b : DefaultBTB) : DefaultBTB := b <| btb ::= fmap (λ e, e <| btb_valid_ := false |>) |>.
Definition btb_getIndex (instPC : Z) (tid : nat) (b : DefaultBTB) : Z :=
  u32 (Z.land (Z.lxor (Z.shiftr instPC (btb_instShiftAmt b))
                      (Z.shiftl (Z.of_nat tid) (u32 (btb_tagShiftAmt b - btb_instShiftAmt b - log2NumThreads b))))
              (btb_idxMask b)).
Definition btb_getTag (instPC : Z) (b : DefaultBTB) : Z := Z.land (Z.shiftr instPC (btb_tagShiftAmt b)) (btb_tagMask b).

(** The test of [valid] and [lookup]. *)
Definition btb_hits (instPC : Z) (t : nat) (b : DefaultBTB) (e : BTBEntry) : bool :=
  btb_valid_ e && (btb_getTag instPC b =? btb_tag e) && (btb_tid e =? t)%nat.
Definition btb_valid (instPC : Z) (tid : nat) (b : DefaultBTB) : res bool :=
  let btb_idx := btb_getIndex instPC tid b in
  _ ← assert (btb_idx <? btb_numEntries b);
  e ← vget (btb b) btb_idx;
  Ok (btb_hits instPC tid b e).
Definition btb_lookup (instPC : Z) (tid : nat) (b : DefaultBTB) : res PCState :=
  let btb_idx := btb_getIndex instPC tid b in
  _ ← assert (btb_idx <? btb_numEntries b);
  e ← vget (btb b) btb_idx;
  Ok (if btb_hits instPC tid b e then btb_target e else pc_set 0).
Definition btb_update (instPC : Z) (targetPC : PCState) (t : nat) (b : DefaultBTB) : res DefaultBTB :=
  let btb_idx := btb_getIndex instPC t b in
  _ ← assert (btb_idx <? btb_numEntries b);
  e ← vget (btb b) btb_idx;
  l ← vset btb_idx (e <| btb_tid := t |> <| btb_valid_ := true |> <| btb_target := targetPC |> <| btb_tag := btb_getTag instPC b |>) (btb b);
  Ok (b <| btb := l |>).

(** ** Well-formed buffers *)
Record btb_ok (b : DefaultBTB) : Prop := {
  bo_pow : isPowerOf2 (btb_numEntries b) = true;
  bo_range : 0 < btb_numEntries b < 2 ^ 32;
  bo_len : Z.of_nat (length (btb b)) = btb_numEntries b;
  bo_mask : btb_idxMask b = btb_numEntries b - 1;
}.

Lemma btb_index_range (a : Z) (t : nat) b : btb_ok b → 0 ≤ btb_getIndex a t b < btb_numEntries b.
Proof.
  intros [Hp Hr _ Hm]. unfold btb_getIndex. rewrite Hm. set (x := Z.lxor _ _).
  pose proof (land_pow2_range x (btb_numEntries b) ltac:(lia) Hp). rewrite u32_small; lia.
Qed.

Lemma btb_new_ok (entries tagBits shift threads : Z) :
  0 < entries < 2 ^ 32 → 0 < threads < 2 ^ 32 → isPowerOf2 entries = true →
  ∃ b, DefaultBTB_new entries tagBits shift threads = Ok b ∧ btb_ok b.
Proof.
  intros He Ht Hp. unfold DefaultBTB_new. rewrite !floorLog2_ok, Hp by done. cbn [mbind res_bind panic_if negb].
  eexists. split; [reflexivity|]. split; cbn; try done. rewrite length_fmap, length_replicate. lia.
Qed.

(** Any access to a well-formed buffer succeeds. *)
Lemma btb_access (a : Z) (t : nat) b :
  btb_ok b → ∃ e, btb b !! Z.to_nat (btb_getIndex a t b) = Some e
    ∧ btb_valid a t b = Ok (btb_hits a t b e) ∧ btb_lookup a t b = Ok (if btb_hits a t b e then btb_target e else pc_set 0).
Proof.
  intros H. pose proof (btb_index_range a t b H) as Hi. pose proof (bo_len _ H) as Hl.
  destruct (vget_in_range (btb b) (btb_getIndex a t b)) as [e He]; [lia|]. exists e. split; [by apply vget_ok in He as [_ ?]|].
  unfold btb_valid, btb_lookup. rewrite (proj2 (Z.ltb_lt _ _)) by lia. cbn [assert mbind res_bind]. by rewrite He.
Qed.

Lemma btb_update_ok (a : Z) (x : PCState) (t : nat) b :
  btb_ok b → ∃ b', btb_update a x t b = Ok b' ∧ btb_ok b'
    ∧ b' = b <| btb := <[Z.to_nat (btb_getIndex a t b) := MkBTBEntry (btb_getTag a b) x t true]> (btb b) |>.
Proof.
  intros H. pose proof (btb_index_range a t b H) as Hi. pose proof (bo_len _ H) as Hl.
  destruct (vget_in_range (btb b) (btb_getIndex a t b)) as [e He]; [lia|].
  unfold btb_update. rewrite (proj2 (Z.ltb_lt _ _)) by lia. cbn [assert mbind res_bind]. rewrite He. cbn [mbind res_bind].
  rewrite vset_in_range by lia. cbn [mbind res_bind]. eexists. split; [reflexivity|]. split; [|done].
  destruct H as [H1 H2 H3 H4]. split; cbn; rewrite ?length_insert; done.
Qed.

(** Whether two branches share a slot of the buffer, and whether they are told apart. *)
Definition same_slot b (a1 : Z) (t1 : nat) (a2 : Z) (t2 : nat) : bool := btb_getIndex a1 t1 b =? btb_getIndex a2 t2 b.
Definition same_key b (a1 : Z) (t1 : nat) (a2 : Z) (t2 : nat) : bool := (btb_getTag a1 b =? btb_getTag a2 b) && (t1 =? t2)%nat.

Lemma btb_update_lookup_all (a : Z) (x : PCState) (t : nat) b :
  btb_ok b → ∃ b', btb_update a x t b = Ok b' ∧ btb_ok b'
    ∧ ∀ a' t', if same_slot b a t a' t' then
                 btb_valid a' t' b' = Ok (same_key b a t a' t')
                 ∧ (same_key b a t a' t' = true → btb_lookup a' t' b' = Ok x)
               else btb_valid a' t' b' = btb_valid a' t' b ∧ btb_lookup a' t' b' = btb_lookup a' t' b.
Proof.
  intros H. destruct (btb_update_ok a x t b H) as (b' & E & H' & Eb). exists b'. split; [done|]. split; [done|]. intros a' t'.
  assert (Ei : ∀ c s, btb_getIndex c s b' = btb_getIndex c s b) by (by rewrite Eb).
  assert (Et : ∀ c, btb_getTag c b' = btb_getTag c b) by (by rewrite Eb).
  destruct (btb_access a' t' b' H') as (e' & He' & -> & ->). destruct (btb_access a' t' b H) as (e & He & -> & ->).
  rewrite Ei, Eb in He'. cbn in He'. unfold same_slot, btb_hits. rewrite Et. pose proof (btb_index_range a t b H). pose proof (bo_len _ H).
  pose proof (btb_index_range a' t' b H). destruct (Z.eqb_spec (btb_getIndex a t b) (btb_getIndex a' t' b)) as [E2|Hne].
  - rewrite E2, list_lookup_insert_eq in He' by lia. injection He' as <-. cbn. unfold same_key.
    rewrite (Z.eqb_sym (btb_getTag a' b)). split; [done|]. by intros ->.
  - rewrite list_lookup_insert_ne in He' by lia. rewrite He in He'. by injection He' as <-.
Qed.

(** * Indirect targets

    [src/cpu/pred/indirect.hh] and [indirect.cc]: a set-associative cache of the targets
    of indirect branches, indexed by a hash of the branch, the direction history and the
    last targets. *)
Local Open Scope Z_scope.

Record IPredEntry := MkIPredEntry { ip_tag : Z; ip_target : PCState }.
#[export] Instance IPredEntry_eta : Updatable IPredEntry := λ r, MkIPredEntry (ip_tag r) (ip_target r).
Record HistoryEntry := MkHistoryEntry { pcAddr : Z; targetAddr : Z; ip_seqNum : Z }.
#[export] Instance HistoryEntry_eta : Updatable HistoryEntry := λ r, MkHistoryEntry (pcAddr r) (targetAddr r) (ip_seqNum r).
(** [pathHist] is a deque, oldest first. *)
Record ThreadInfo := MkThreadInfo { pathHist : list HistoryEntry; headHistEntry : Z }.
#[export] Instance ThreadInfo_eta : Updatable ThreadInfo := λ r, MkThreadInfo (pathHist r) (headHistEntry r).

(** [draws]: how many numbers [rand] has delivered. *)
Record IndirectPredictor := MkIndirect {
  hashGHR : bool;
  hashTargets : bool;
  numSets : Z;
  numWays : Z;
  ip_tagBits : Z;
  pathLength : Z;
  instShift : Z;
  targetCache : list (list IPredEntry);
  threadInfo : nat → ThreadInfo;
  ip_draws : nat;
}.
#[export] Instance IndirectPredictor_eta : Updatable IndirectPredictor := λ r,
  MkIndirect (hashGHR r) (hashTargets r) (numSets r) (numWays r) (ip_tagBits r) (pathLength r) (instShift r)
    (targetCache r) (threadInfo r) (ip_draws r).

Definition IPredEntry_new : IPredEntry := MkIPredEntry 0 (pc_set 0).
Definition IndirectPredictor_new (hash_ghr hash_targets : bool) (num_sets num_ways tag_bits path_len inst_shift : Z)
    : res IndirectPredictor :=
  _ ← panic_if (negb (isPowerOf2 num_sets));
  Ok (MkIndirect hash_ghr hash_targets num_sets num_ways tag_bits path_len inst_shift
        (replicate (Z.to_nat num_sets) (replicate (Z.to_nat num_ways) IPredEntry_new)) (λ _, MkThreadInfo [] 0) 0).

(** The loop over the path history, youngest first. *)
Fixpoint hash_path (shift hash_shift : Z) (fuel : nat) (p : Z) (recent : list HistoryEntry) (hash : Z) : Z :=
  match fuel, recent with
  | S fuel, e :: recent => hash_path shift hash_shift fuel (p + 1) recent (Z.lxor hash (Z.shiftr (targetAddr e) (shift + p * hash_shift)))
  | _, _ => hash
  end.

Definition getSetIndex (br_addr ghr : Z) (tid : nat) (i : IndirectPredictor) : res Z :=
  let hash := Z.shiftr br_addr (instShift i) in
  let hash := if hashGHR i then Z.lxor hash ghr else hash in
  hash ← (if hashTargets i then
            l ← floorLog2 (numSets i);
            if pathLength i =? 0 then Err DivByZero
            else Ok (hash_path (instShift i) (l / pathLength i) (Z.to_nat (pathLength i)) 0 (reverse (pathHist (threadInfo i tid))) hash)
          else Ok hash);
  Ok (Z.land hash (numSets i - 1)).
Definition ip_getTag (br_addr : Z) (i : IndirectPredictor) : Z := Z.land (Z.shiftr br_addr (instShift i)) (Z.shiftl 1 (ip_tagBits i) - 1).

(** The first way of a set with the tag. *)
Definition find_way (t : Z) (iset : list IPredEntry) : option (nat * IPredEntry) := list_find (λ w, ip_tag w = t) iset.

Definition ip_lookup (br_addr ghr : Z) (tid : nat) (i : IndirectPredictor) : res (option PCState) :=
  set_index ← getSetIndex br_addr ghr tid i;
  let t := ip_getTag br_addr i in
  _ ← assert (set_index <? numSets i);
  iset ← vget (targetCache i) set_index;
  Ok (ip_target ∘ snd <$> find_way t iset).

Definition recordIndirect (br_addr tgt_addr seq_num : Z) (tid : nat) (i : IndirectPredictor) : IndirectPredictor :=
  i <| threadInfo ::= <[tid := threadInfo i tid <| pathHist ::= (λ l, l ++ [MkHistoryEntry br_addr tgt_addr seq_num]) |>]> |>.

Definition ip_commit (seq_num : Z) (tid : nat) (i : IndirectPredictor) : IndirectPredictor :=
  let t_info := threadInfo i tid in
  let head := headHistEntry t_info in
  match pathHist t_info !! Z.to_nat head with
  | Some e =>
      if ip_seqNum e <=? seq_num then
        i <| threadInfo ::= <[tid := if pathLength i <=? head then t_info <| pathHist ::= tail |>
                                     else t_info <| headHistEntry := u32 (head + 1) |>]> |>
      else i
  | None => i
  end.

(** Everything from the first entry younger than [seq_num] on is erased. *)
Fixpoint squash_path (seq_num : Z) (l : list HistoryEntry) : list HistoryEntry :=
  match l with
  | [] => []
  | e :: l => if seq_num <? ip_seqNum e then [] else e :: squash_path seq_num l
  end.
Definition ip_squash (seq_num : Z) (tid : nat) (i : IndirectPredictor) : IndirectPredictor :=
  i <| threadInfo ::= <[tid := threadInfo i tid <| pathHist ::= squash_path seq_num |>]> |>.

Section random.
(** The [n]-th number [rand()] delivers. *)
Context (rand : nat → Z).

Definition recordTarget (seq_num ghr : Z) (new_target : PCState) (tid : nat) (i : IndirectPredictor) : res IndirectPredictor :=
  let t_info := threadInfo i tid in
  hist_entry ← deref (list.last (pathHist t_info));
  let popped := removelast (pathHist t_info) in
  set_index ← getSetIndex (pcAddr hist_entry) ghr tid (i <| threadInfo ::= <[tid := t_info <| pathHist := popped |>]> |>);
  let t := ip_getTag (pcAddr hist_entry) i in
  let hist_entry := hist_entry <| targetAddr := instAddr new_target |> in
  let i := i <| threadInfo ::= <[tid := t_info <| pathHist := popped ++ [hist_entry] |>]> |> in
  _ ← assert (set_index <? numSets i);
  iset ← vget (targetCache i) set_index;
  '(iset, i) ← (match find_way t iset with
                | Some (w, _) => Ok (alter (λ e, e <| ip_target := new_target |>) w iset, i)
                | None =>
                    if numWays i =? 0 then Err DivByZero
                    else
                      let k := rand (ip_draws i) mod numWays i in
                      iset ← vset k (MkIPredEntry t new_target) iset;
                      Ok (iset, i <| ip_draws ::= S |>)
                end);
  c ← vset set_index iset (targetCache i);
  Ok (i <| targetCache := c |>).
End random.

(** ** Well-formed predictors *)
Record ip_ok (i : IndirectPredictor) : Prop := {
  io_pow : isPowerOf2 (numSets i) = true;
  io_range : 0 < numSets i < 2 ^ 32;
  io_path : 0 < pathLength i < 2 ^ 32;
  io_ways : 0 < numWays i;
  io_sets : Z.of_nat (length (targetCache i)) = numSets i;
  io_set : Forall (λ s : list IPredEntry, Z.of_nat (length s) = numWays i) (targetCache i);
  io_head : ∀ t, 0 ≤ headHistEntry (threadInfo i t) ≤ pathLength i;
}.

Lemma ip_new_ok (g t : bool) (sets ways bits path shift : Z) :
  0 < sets < 2 ^ 32 → 0 < ways → 0 < path < 2 ^ 32 → isPowerOf2 sets = true →
  ∃ i, IndirectPredictor_new g t sets ways bits path shift = Ok i ∧ ip_ok i ∧ ∀ tid, pathHist (threadInfo i tid) = [].
Proof.
  intros Hs Hw Hp Hpow. unfold IndirectPredictor_new. rewrite Hpow. cbn [negb panic_if mbind res_bind].
  eexists. split; [reflexivity|]. split; [|done]. split; cbn; try done; rewrite ?length_replicate; try lia.
  apply Forall_replicate. rewrite length_replicate. lia.
Qed.

Lemma ip_index_ok (a ghr : Z) (t : nat) i : ip_ok i → ∃ s, getSetIndex a ghr t i = Ok s ∧ 0 ≤ s < numSets i.
Proof.
  intros [Hp Hr Hpl _ _ _ _]. unfold getSetIndex. rewrite floorLog2_ok by done. cbn [mbind res_bind].
  rewrite (proj2 (Z.eqb_neq _ _)) by lia. destruct (hashTargets i); cbn [mbind res_bind]; eexists; (split; [reflexivity|]);
    apply land_pow2_range; (lia || done).
Qed.

Lemma ip_set_ok (s : Z) i : ip_ok i → 0 ≤ s < numSets i → ∃ iset, vget (targetCache i) s = Ok iset ∧ Z.of_nat (length iset) = numWays i.
Proof.
  intros H Hs. destruct (vget_in_range (targetCache i) s) as [iset E]; [rewrite (io_sets _ H); lia|]. exists iset. split; [done|].
  apply vget_ok in E as [_ E]. by apply (Forall_lookup_1 _ _ _ _ (io_set _ H) E).
Qed.

Lemma ip_lookup_ok (a ghr : Z) (t : nat) i : ip_ok i → ∃ o, ip_lookup a ghr t i = Ok o.
Proof.
  intros H. destruct (ip_index_ok a ghr t i H) as (s & Es & Hs). destruct (ip_set_ok s i H Hs) as (iset & Ei & _).
  unfold ip_lookup. rewrite Es. cbn [mbind res_bind]. rewrite (proj2 (Z.ltb_lt _ _)) by lia. cbn [assert mbind res_bind]. rewrite Ei. by eexists.
Qed.

(** Only the path history and the head of a thread change. *)
Lemma ip_ok_thread (t : nat) (ti : ThreadInfo) i :
  ip_ok i → 0 ≤ headHistEntry ti ≤ pathLength i → ip_ok (i <| threadInfo ::= <[t := ti]> |>).
Proof.
  intros [H1 H2 H3 H4 H5 H6 H7] Hh. split; cbn; try done. intros t'. unfold insert, fn_insert. case_decide; [done|apply H7].
Qed.

Lemma recordIndirect_ok (a x n : Z) (t : nat) i : ip_ok i → ip_ok (recordIndirect a x n t i).
Proof. intros H. apply ip_ok_thread; [done|]. cbn. apply (io_head _ H). Qed.
Lemma ip_squash_ok (n : Z) (t : nat) i : ip_ok i → ip_ok (ip_squash n t i).
Proof. intros H. apply ip_ok_thread; [done|]. cbn. apply (io_head _ H). Qed.
Lemma ip_commit_ok (n : Z) (t : nat) i : ip_ok i → ip_ok (ip_commit n t i).
Proof.
  intros H. unfold ip_commit. destruct (_ !! _) as [e|]; [|done]. destruct (ip_seqNum e <=? n); [|done].
  pose proof (io_head _ H t). pose proof (io_path _ H). apply ip_ok_thread; [done|].
  destruct (Z.leb_spec (pathLength i) (headHistEntry (threadInfo i t))); cbn; [done|]. rewrite u32_small by lia. lia.
Qed.

(** The way [recordTarget] fills. *)
Lemma recordTarget_ok (rand : nat → Z) (n ghr : Z) (x : PCState) (t : nat) i e l :
  ip_ok i → pathHist (threadInfo i t) = l ++ [e] →
  ∃ i', recordTarget rand n ghr x t i = Ok i' ∧ ip_ok i'
    ∧ pathHist (threadInfo i' t) = l ++ [e <| targetAddr := instAddr x |>]
    ∧ (∀ t', t' ≠ t → threadInfo i' t' = threadInfo i t')
    ∧ ip_lookup (pcAddr e) ghr t (i' <| threadInfo ::= <[t := threadInfo i' t <| pathHist := l |>]> |>) = Ok (Some x).
Proof.
  intros H El. unfold recordTarget. rewrite El, last_snoc. cbn [deref mbind res_bind]. rewrite removelast_last.
  set (ti := threadInfo i t). set (i0 := i <| threadInfo ::= <[t := ti <| pathHist := l |>]> |>).
  assert (H0 : ip_ok i0) by (apply ip_ok_thread; [done|apply (io_head _ H)]).
  destruct (ip_index_ok (pcAddr e) ghr t i0 H0) as (s & Es & Hs). rewrite Es. cbn [mbind res_bind].
  set (i1 := i <| threadInfo ::= <[t := ti <| pathHist := _ |>]> |>).
  assert (H1 : ip_ok i1) by (apply ip_ok_thread; [done|apply (io_head _ H)]).
  change (numSets i0) with (numSets i) in *. change (numSets i1) with (numSets i). rewrite (proj2 (Z.ltb_lt _ _)) by lia. cbn [assert mbind res_bind].
  change (targetCache i1) with (targetCache i). destruct (ip_set_ok s i H Hs) as (iset & Ei & Hl). rewrite Ei. cbn [mbind res_bind].
  set (tg := ip_getTag (pcAddr e) i).
  match goal with |- ∃ i', (?m ≫= ?k) = _ ∧ _ => assert (Hw : ∃ iset' dr, m = Ok (iset', i1 <| ip_draws := dr |>) ∧ length iset' = length iset
      ∧ ip_target ∘ snd <$> find_way tg iset' = Some x) end.
  { unfold find_way. destruct (list_find _ iset) as [[w en]|] eqn:Ef.
    - eexists _, (ip_draws i1). split; [reflexivity|]. split; [by rewrite length_alter|].
      apply list_find_Some in Ef as (Hw & Ht & Hbefore).
      rewrite (proj2 (list_find_Some (λ w0, ip_tag w0 = tg) (alter _ w iset) w (en <| ip_target := x |>))); [done|].
      rewrite list_lookup_alter_eq, Hw. split; [done|]. split; [done|]. intros j y Hj Hlt. rewrite list_lookup_alter_ne in Hj by lia. by apply (Hbefore j y).
    - change (numWays i1) with (numWays i). pose proof (io_ways _ H). rewrite (proj2 (Z.eqb_neq _ _)) by lia.
      pose proof (Z.mod_pos_bound (rand (ip_draws i1)) (numWays i) ltac:(lia)). rewrite vset_in_range by lia. cbn [mbind res_bind].
      eexists _, (S (ip_draws i1)). split; [reflexivity|]. split; [by rewrite length_insert|]. apply list_find_None in Ef.
      rewrite (proj2 (list_find_Some (λ w0, ip_tag w0 = tg) (<[_ := _]> iset) (Z.to_nat (rand (ip_draws i1) mod numWays i)) (MkIPredEntry tg x))); [done|].
      rewrite list_lookup_insert_eq by lia. split; [done|]. split; [done|]. intros j y Hj Hlt. rewrite list_lookup_insert_ne in Hj by lia.
      rewrite Forall_lookup in Ef. by apply (Ef j y). }
  destruct Hw as (iset' & dr & -> & Hl' & Hf). cbn [mbind res_bind]. set (i2 := i1 <| ip_draws := dr |>). change (targetCache i2) with (targetCache i).
  pose proof (io_sets _ H). rewrite vset_in_range by lia. cbn [mbind res_bind]. eexists. split; [reflexivity|]. split; [|split; [|split]].
  - destruct H1 as [K1 K2 K3 K4 K5 K6 K7]. split; cbn; try done; rewrite ?length_insert; try done. apply Forall_insert; [done|]. lia.
  - cbn. unfold insert, fn_insert. by rewrite decide_True.
  - intros t' Ht. cbn. unfold insert, fn_insert. by rewrite decide_False.
  - unfold ip_lookup. set (i3 := _ <| threadInfo ::= _ |>).
    assert (E3 : getSetIndex (pcAddr e) ghr t i3 = getSetIndex (pcAddr e) ghr t i0).
    { unfold getSetIndex. cbn. unfold insert, fn_insert. by rewrite !decide_True. }
    rewrite E3, Es. cbn [mbind res_bind]. change (numSets i3) with (numSets i). rewrite (proj2 (Z.ltb_lt _ _)) by lia. cbn [assert mbind res_bind].
    change (targetCache i3) with (<[Z.to_nat s := iset']> (targetCache i)).
    rewrite vget_insert, Z.eqb_refl by lia. cbn [mbind res_bind]. change (ip_getTag (pcAddr e) i3) with tg. by rewrite Hf.
Qed.
