(* ===== verification/BPred.v ===== *)
(** * The branch prediction unit

    [src/cpu/pred/bpred_unit.hh] and [bpred_unit.cc]: the unit fetch calls.  It asks a
    direction predictor (a subclass, here an instance of [Predictor]) whether a branch is
    taken, finds the target in the return address stack, the branch target buffer or the
    indirect predictor, and keeps a history of the branches in flight, to train on commit
    and to undo on a squash.  [TheISA::advancePC] is a parameter. *)

From S2P Require Import Prelude Regs DynInst IntMath Targets.
Local Open Scope Z_scope.

(** [src/cpu/static_inst.hh]. *)
Definition si_isCall (s : StaticInst) : bool := si_flag IsCall s.
Definition si_isReturn (s : StaticInst) : bool := si_flag IsReturn s.
Definition si_isDirectCtrl (s : StaticInst) : bool := si_flag IsDirectControl s.
Definition si_isUncondCtrl (s : StaticInst) : bool := si_flag IsUncondControl s.

(** ** Direction predictors

    The virtual methods.  [H] is the type of the history object behind a [void *]; the
    object is owned by the history entry that holds the pointer, so it is a value here,
    [None] for [NULL].  In [dp_update] the last flag is [squashed]. *)
Class Predictor (P H : Type) := {
  dp_lookup : nat → Z → P → res (bool * option H * P);
  dp_uncondBranch : nat → Z → P → res (option H * P);
  dp_btbUpdate : nat → Z → option H → P → res P;
  dp_update : nat → Z → bool → option H → bool → P → res P;
  dp_squash : nat → option H → P → res P;
  dp_getGHR : nat → option H → P → res Z;
}.

Record PredictorHistory (H : Type) := MkPredictorHistory {
  ph_seqNum : Z;
  ph_pc : Z;
  bpHistory : option H;
  RASTarget : PCState;
  RASIndex : Z;
  ph_tid : nat;
  predTaken : bool;
  usedRAS : bool;
  pushedRAS : bool;
  wasCall : bool;
  wasReturn : bool;
  wasIndirect : bool;
}.
Arguments MkPredictorHistory {H}.
Arguments ph_seqNum {H}. Arguments ph_pc {H}. Arguments bpHistory {H}. Arguments RASTarget {H}. Arguments RASIndex {H}. Arguments ph_tid {H}.
Arguments predTaken {H}. Arguments usedRAS {H}. Arguments pushedRAS {H}. Arguments wasCall {H}. Arguments wasReturn {H}. Arguments wasIndirect {H}.
#[export] Instance PredictorHistory_eta {H} : Updatable (PredictorHistory H) := λ r,
  MkPredictorHistory (ph_seqNum r) (ph_pc r) (bpHistory r) (RASTarget r) (RASIndex r) (ph_tid r) (predTaken r) (usedRAS r) (pushedRAS r)
    (wasCall r) (wasReturn r) (wasIndirect r).

(** [predHist] of a thread is a deque, its front (the youngest branch) first. *)
Record BPredUnit (P H : Type) := MkBPredUnit {
  predHist : nat → list (PredictorHistory H);
  bp_BTB : DefaultBTB;
  bp_RAS : nat → ReturnAddrStack;
  useIndirect : bool;
  iPred : IndirectPredictor;
  dirPred : P;
}.
Arguments MkBPredUnit {P H}.
Arguments predHist {P H}. Arguments bp_BTB {P H}. Arguments bp_RAS {P H}. Arguments useIndirect {P H}. Arguments iPred {P H}. Arguments dirPred {P H}.
#[export] Instance BPredUnit_eta {P H} : Updatable (BPredUnit P H) := λ r,
  MkBPredUnit (predHist r) (bp_BTB r) (bp_RAS r) (useIndirect r) (iPred r) (dirPred r).

(** [BranchPredictorParams] ([BranchPredictor.py]). *)
Record BPParams := MkBPParams {
  par_numThreads : Z;
  par_BTBEntries : Z;
  par_BTBTagSize : Z;
  par_RASSize : Z;
  par_instShiftAmt : Z;
  par_useIndirect : bool;
  par_indirectHashGHR : bool;
  par_indirectHashTargets : bool;
  par_indirectSets : Z;
  par_indirectWays : Z;
  par_indirectTagSize : Z;
  par_indirectPathLength : Z;
}.

Section unit.
Context {P H : Type} `{Predictor P H}.
Implicit Types (u : BPredUnit P H) (e : PredictorHistory H).

Definition BPredUnit_new (par : BPParams) (p : P) : res (BPredUnit P H) :=
  b ← DefaultBTB_new (par_BTBEntries par) (par_BTBTagSize par) (par_instShiftAmt par) (par_numThreads par);
  i ← IndirectPredictor_new (par_indirectHashGHR par) (par_indirectHashTargets par) (par_indirectSets par) (par_indirectWays par)
        (par_indirectTagSize par) (par_indirectPathLength par) (par_instShiftAmt par);
  Ok (MkBPredUnit (λ _, []) b (λ _, ras_init (par_RASSize par)) (par_useIndirect par) i p).

(** The constructor of [PredictorHistory]. *)
Definition PredictorHistory_new (seq_num instPC : Z) (pred_taken : bool) (bp_history : option H) (tid : nat) : PredictorHistory H :=
  MkPredictorHistory seq_num instPC bp_history (pc_set 0) 0 tid pred_taken false false false false false.

Definition on_ras (tid : nat) (r : ReturnAddrStack) u : BPredUnit P H := u <| bp_RAS ::= <[tid := r]> |>.

(** [drainSanityCheck], for the threads of a machine. *)
Definition bp_drainSanityCheck (numThreads : nat) u : res unit :=
  mfold (λ _ tid, assert (match predHist u tid with [] => true | _ => false end)) tt (seq 0 numThreads).

Context (advancePC : StaticInst → PCState → PCState) (rand : nat → Z).

(** What [predict] decides so far: direction, target, history entry and unit. *)
Definition decision : Type := bool * PCState * PredictorHistory H * BPredUnit P H.

(** A call that misses is not followed: what it pushed is dropped, if it is conditional. *)
Definition dropCall (inst : StaticInst) (tid : nat) e u : PredictorHistory H * BPredUnit P H :=
  if si_isCall inst && negb (si_isUncondCtrl inst) then (e <| pushedRAS := false |>, on_ras tid (ras_pop (bp_RAS u tid)) u) else (e, u).

Definition predictReturn (pc : PCState) (tid : nat) e u : res decision :=
  rasTop ← ras_top (bp_RAS u tid);
  let e := e <| wasReturn := true |> <| usedRAS := true |> <| RASIndex := topIdx (bp_RAS u tid) |> <| RASTarget := rasTop |> in
  Ok (true, buildRetPC pc rasTop, e, on_ras tid (ras_pop (bp_RAS u tid)) u).

(** The target of a direct branch, from the buffer. *)
Definition predictDirect (inst : StaticInst) (pc : PCState) (tid : nat) e u : res decision :=
  hit ← btb_valid (instAddr pc) tid (bp_BTB u);
  if hit : bool then
    target ← btb_lookup (instAddr pc) tid (bp_BTB u);
    Ok (true, target, e, u)
  else
    '(e, u) ← (if negb (si_isCall inst) && negb (si_isReturn inst) then
                 p ← dp_btbUpdate tid (instAddr pc) (bpHistory e) (dirPred u);
                 Ok (e, u <| dirPred := p |>)
               else Ok (dropCall inst tid e u));
    Ok (false, advancePC inst pc, e, u).

Definition predictIndirect (inst : StaticInst) (pc : PCState) (tid : nat) e u : res decision :=
  let e := e <| wasIndirect := true |> in
  ghr ← dp_getGHR tid (bpHistory e) (dirPred u);
  o ← ip_lookup (instAddr pc) ghr tid (iPred u);
  let '(taken, target, e, u) :=
    match o with
    | Some target => (true, target, e, u)
    | None => let '(e, u) := if negb (si_isCall inst) && negb (si_isReturn inst) then (e, u) else dropCall inst tid e u in
              (false, advancePC inst pc, e, u)
    end in
  Ok (taken, target, e, u <| iPred ::= recordIndirect (instAddr pc) (instAddr target) (ph_seqNum e) tid |>).

(** The target of a branch predicted taken that is not a return. *)
Definition predictTaken (inst : StaticInst) (pc : PCState) (tid : nat) e u : res decision :=
  '(e, u) ← (if si_isCall inst then
               r ← ras_push pc (bp_RAS u tid);
               Ok (e <| pushedRAS := true |> <| wasCall := true |>, on_ras tid r u)
             else Ok (e, u));
  if si_isDirectCtrl inst || negb (useIndirect u) then predictDirect inst pc tid e u else predictIndirect inst pc tid e u.

(** [predict]; the predicted PC, passed back by reference in the code, is returned. *)
Definition bp_predict (inst : StaticInst) (seqNum : Z) (pc : PCState) (tid : nat) u : res (bool * PCState * BPredUnit P H) :=
  '(pred_taken, bp_history, u) ←
     (if si_isUncondCtrl inst then
        '(h, p) ← dp_uncondBranch tid (instAddr pc) (dirPred u);
        Ok (true, h, u <| dirPred := p |>)
      else
        '(t, h, p) ← dp_lookup tid (instAddr pc) (dirPred u);
        Ok (t, h, u <| dirPred := p |>));
  let predict_record := PredictorHistory_new seqNum (instAddr pc) pred_taken bp_history tid in
  '(pred_taken, target, predict_record, u) ←
     (if pred_taken : bool then
        if si_isReturn inst then predictReturn pc tid predict_record u else predictTaken inst pc tid predict_record u
      else
        let e := if si_isReturn inst then predict_record <| wasReturn := true |> else predict_record in
        Ok (false, advancePC inst pc, e, u));
  Ok (pred_taken, target, u <| predHist ::= <[tid := predict_record :: predHist u tid]> |>).

(** [update(done_sn, tid)]: the loop over the back of the deque, here oldest first. *)
Fixpoint commit_loop (done_sn : Z) (tid : nat) (oldest : list (PredictorHistory H)) (p : P) : res (list (PredictorHistory H) * P) :=
  match oldest with
  | [] => Ok ([], p)
  | e :: rest =>
      if ph_seqNum e <=? done_sn then
        p ← dp_update tid (ph_pc e) (predTaken e) (bpHistory e) false p;
        commit_loop done_sn tid rest p
      else Ok (oldest, p)
  end.
Definition bp_commit (done_sn : Z) (tid : nat) u : res (BPredUnit P H) :=
  let u := u <| iPred ::= ip_commit done_sn tid |> in
  '(rest, p) ← commit_loop done_sn tid (reverse (predHist u tid)) (dirPred u);
  Ok (u <| dirPred := p |> <| predHist ::= <[tid := reverse rest]> |>).

(** One entry undone. *)
Definition squashEntry (tid : nat) e u : res (BPredUnit P H) :=
  u ← (if usedRAS e then
         r ← ras_restore (RASIndex e) (RASTarget e) (bp_RAS u tid);
         Ok (on_ras tid r u)
       else if wasCall e && pushedRAS e then Ok (on_ras tid (ras_pop (bp_RAS u tid)) u)
       else Ok u);
  p ← dp_squash tid (bpHistory e) (dirPred u);
  Ok (u <| dirPred := p |>).
Fixpoint squash_loop (squashed_sn : Z) (tid : nat) (hist : list (PredictorHistory H)) u : res (BPredUnit P H) :=
  match hist with
  | e :: hist' =>
      if squashed_sn <? ph_seqNum e then
        u ← squashEntry tid e u;
        squash_loop squashed_sn tid hist' (u <| predHist ::= <[tid := hist']> |>)
      else Ok u
  | [] => Ok u
  end.
(** [squash(squashed_sn, tid)]. *)
Definition bp_squash (squashed_sn : Z) (tid : nat) u : res (BPredUnit P H) :=
  let u := u <| iPred ::= ip_squash squashed_sn tid |> in
  squash_loop squashed_sn tid (predHist u tid) u.

(** The corrected branch was taken: the stack and the target tables learn. *)
Definition correctTaken (ghr : Z) (corrTarget : PCState) (tid : nat) e u : res (PredictorHistory H * BPredUnit P H) :=
  let '(e, u) := if wasReturn e && negb (usedRAS e) then (e <| usedRAS := true |>, on_ras tid (ras_pop (bp_RAS u tid)) u) else (e, u) in
  if wasIndirect e then
    i ← recordTarget rand (ph_seqNum e) ghr corrTarget tid (iPred u);
    Ok (e, u <| iPred := i |>)
  else
    b ← btb_update (ph_pc e) corrTarget tid (bp_BTB u);
    Ok (e, u <| bp_BTB := b |>).
(** It was not taken: its call or return is undone. *)
Definition correctNotTaken (tid : nat) e u : res (PredictorHistory H * BPredUnit P H) :=
  if usedRAS e then
    r ← ras_restore (RASIndex e) (RASTarget e) (bp_RAS u tid);
    Ok (e <| usedRAS := false |>, on_ras tid r u)
  else if wasCall e && pushedRAS e then Ok (e <| pushedRAS := false |>, on_ras tid (ras_pop (bp_RAS u tid)) u)
  else Ok (e, u).

(** [squash(squashed_sn, corrTarget, actually_taken, tid)]. *)
Definition bp_correct (squashed_sn : Z) (corrTarget : PCState) (actually_taken : bool) (tid : nat) u : res (BPredUnit P H) :=
  u ← bp_squash squashed_sn tid u;
  match predHist u tid with
  | [] => Ok u
  | e :: rest =>
      _ ← assert (ph_seqNum e =? squashed_sn);
      ghr ← dp_getGHR tid (bpHistory e) (dirPred u);
      let e := e <| predTaken := actually_taken |> in
      p ← dp_update tid (ph_pc e) actually_taken (bpHistory e) true (dirPred u);
      let u := u <| dirPred := p |> in
      '(e, u) ← (if actually_taken then correctTaken ghr corrTarget tid e u else correctNotTaken tid e u);
      Ok (u <| predHist ::= <[tid := e :: rest]> |>)
  end.
End unit.

(** * What the prediction unit relies on

    The contract of a direction predictor towards [BPred.v], as two classes: every
    operation returns and keeps the predictor well formed ([PredictorOk]), and the
    speculative histories can be undone and repaired ([PredictorHist]).  The predictors
    are instances. *)
Local Open Scope Z_scope.

(** [po_geom] is the geometry a history object depends on: sizes and masks, which no
    operation changes. *)
Class PredictorOk (P H : Type) `{!Predictor P H} := {
  po_wf : P → Prop;
  po_geom : P → list Z;
  po_hist : list Z → option H → Prop;
  po_returns (p : P) (m : res P) : Prop := ∃ p', m = Ok p' ∧ po_wf p' ∧ po_geom p' = po_geom p;
  po_lookup t a p : po_wf p →
    ∃ b h p', dp_lookup t a p = Ok (b, h, p') ∧ po_wf p' ∧ po_geom p' = po_geom p ∧ po_hist (po_geom p) h;
  po_uncondBranch t a p : po_wf p →
    ∃ h p', dp_uncondBranch t a p = Ok (h, p') ∧ po_wf p' ∧ po_geom p' = po_geom p ∧ po_hist (po_geom p) h;
  po_btbUpdate t a h p : po_wf p → po_hist (po_geom p) h → po_returns p (dp_btbUpdate t a h p);
  po_update t a b h s p : po_wf p → po_hist (po_geom p) h → po_returns p (dp_update t a b h s p);
  po_squash t h p : po_wf p → po_hist (po_geom p) h → po_returns p (dp_squash t h p);
  po_getGHR t h p : po_wf p → po_hist (po_geom p) h → ∃ g, dp_getGHR t h p = Ok g;
}.

(** The histories of a thread, up to what no prediction can see, as a value of type [V].
    [hv_shift c a b] is the effect of a branch at [a] with direction [b], conditional if
    [c]; [hv_made c a h v] says that object [h] was made for such a branch in a state
    with histories [v].  [hv_jump]: whether a miss in the target buffer on an
    unconditional branch is undone, too. *)
Class PredictorHist (P H V : Type) `{!Predictor P H} `{!PredictorOk P H} := {
  hv_view : nat → P → V;
  hv_shift : list Z → bool → Z → bool → V → V;
  hv_made : list Z → bool → Z → option H → V → Prop;
  hv_jump : bool;
  hv_lookup t a p b h p' : po_wf p → dp_lookup t a p = Ok (b, h, p') →
    hv_view t p' = hv_shift (po_geom p) true a b (hv_view t p) ∧ hv_made (po_geom p) true a h (hv_view t p);
  hv_uncondBranch t a p h p' : po_wf p → dp_uncondBranch t a p = Ok (h, p') →
    hv_view t p' = hv_shift (po_geom p) false a true (hv_view t p) ∧ hv_made (po_geom p) false a h (hv_view t p);
  hv_squash t c a b h v p p' : po_wf p → hv_made (po_geom p) c a h v → hv_view t p = hv_shift (po_geom p) c a b v →
    dp_squash t h p = Ok p' → hv_view t p' = v;
  hv_correct t c a b b' h v p p' : po_wf p → hv_made (po_geom p) c a h v → hv_view t p = hv_shift (po_geom p) c a b v →
    dp_update t a b' h true p = Ok p' → hv_view t p' = hv_shift (po_geom p) c a b' v;
  hv_btbUpdate t c a h v p p' : po_wf p → hv_made (po_geom p) c a h v → hv_view t p = hv_shift (po_geom p) c a true v →
    c || hv_jump = true → dp_btbUpdate t a h p = Ok p' → hv_view t p' = hv_shift (po_geom p) c a false v;
  hv_commit t a b h p p' : po_wf p → po_hist (po_geom p) h → dp_update t a b h false p = Ok p' → hv_view t p' = hv_view t p;
}.

(** Any predictor, seen without its histories. *)
Definition stack_only (P H : Type) `{!Predictor P H} `{!PredictorOk P H} : PredictorHist P H unit.
Proof.
  refine {| hv_view := λ _ _, tt; hv_shift := λ _ _ _ _ _, tt; hv_made := λ _ _ _ _ _, True; hv_jump := true |}; done || (intros; by destruct v).
Defined.

(** ** Shift registers *)
(** The low [k] bits of a register. *)
Abbreviation low k x := (Z.land x (Z.ones k)).

Lemma low_testbit (k x i : Z) : 0 ≤ k → 0 ≤ i → Z.testbit (low k x) i = Z.testbit x i && (i <? k).
Proof. intros Hk Hi. rewrite Z.land_spec, Z.testbit_ones_nonneg by lia. done. Qed.

Lemma shift_in_bits (taken : bool) (h i : Z) :
  0 ≤ i < 32 → Z.testbit (shift_in taken h) i = if i =? 0 then taken else Z.testbit h (i - 1).
Proof.
  intros Hi. unfold shift_in, u32. rewrite Z.lor_spec, Z.mod_pow2_bits_low, Z.shiftl_spec by lia.
  destruct (Z.eqb_spec i 0) as [->|]; [by destruct taken|].
  replace (Z.testbit (Z.b2z taken) i) with false; [by rewrite orb_false_r|].
  symmetry. apply (testbit_small _ 1); [destruct taken; cbn; lia|lia].
Qed.

(** The low bits of a shifted register depend only on the low bits. *)
Lemma low_shift_in (k : Z) (taken : bool) (h : Z) : 0 ≤ k ≤ 32 → low k (shift_in taken (low k h)) = low k (shift_in taken h).
Proof.
  intros Hk. apply Z.bits_inj'. intros i Hi. rewrite !low_testbit by lia. destruct (Z.ltb_spec i k); [|by rewrite !andb_false_r].
  rewrite !shift_in_bits by lia. destruct (Z.eqb_spec i 0); [done|]. rewrite low_testbit by lia. by rewrite (proj2 (Z.ltb_lt (i - 1) k)), andb_true_r by lia.
Qed.

Lemma low_idem (k x : Z) : low k (low k x) = low k x.
Proof. by rewrite <- Z.land_assoc, Z.land_diag. Qed.

(** A cleared low bit turns a shift by "taken" into one by "not taken". *)
Lemma low_clear (k x : Z) : 0 ≤ k ≤ 32 → low k (Z.land (shift_in true x) (Z.land (Z.ones k) (u64 (Z.lnot 1)))) = low k (shift_in false x).
Proof.
  intros Hk. apply Z.bits_inj'. intros i Hi. rewrite !low_testbit, !Z.land_spec by lia. destruct (Z.ltb_spec i k); [|by rewrite !andb_false_r].
  rewrite !shift_in_bits, Z.ones_spec_low by lia. unfold u64. rewrite Z.mod_pow2_bits_low, Z.lnot_spec by lia.
  destruct (Z.eqb_spec i 0) as [->|]; [done|]. replace (Z.testbit 1 i) with false; [by rewrite !andb_true_r|].
  symmetry. apply (testbit_small _ 1); lia.
Qed.

Lemma low_clear_of (k x v : Z) :
  0 ≤ k ≤ 32 → low k x = low k (shift_in true v) → low k (Z.land x (Z.land (Z.ones k) (u64 (Z.lnot 1)))) = low k (shift_in false v).
Proof.
  intros Hk E. rewrite <- low_clear by done. rewrite !(Z.land_assoc _ (Z.ones k)). by rewrite E.
Qed.
