(* ===== verification/LocalBP.v ===== *)
(** * Local predictor

    [src/cpu/pred/2bit_local.hh] and [2bit_local.cc]: a table of counters indexed by
    address bits.  It keeps no speculative state. *)

From S2P Require Import Prelude Regs DynInst IntMath Targets BPred.
Local Open Scope Z_scope.

Record LocalBP := MkLocalBP {
  localCtrs : list SatCounter;
  localPredictorSize : Z;
  localPredictorSets : Z;
  localCtrBits : Z;
  indexMask : Z;
  lb_instShiftAmt : Z;
}.
#[export] Instance LocalBP_eta : Updatable LocalBP := λ r,
  MkLocalBP (localCtrs r) (localPredictorSize r) (localPredictorSets r) (localCtrBits r) (indexMask r) (lb_instShiftAmt r).

Definition LocalBP_new (size ctrBits instShiftAmt : Z) : res LocalBP :=
  _ ← panic_if (negb (isPowerOf2 size));
  if ctrBits =? 0 then Err DivByZero
  else
    let sets := size / ctrBits in
    _ ← panic_if (negb (isPowerOf2 sets));
    Ok (MkLocalBP (setBits ctrBits <$> replicate (Z.to_nat sets) SatCounter_new) size sets ctrBits (sets - 1) instShiftAmt).

Definition lb_reset (p : LocalBP) : LocalBP := p <| localCtrs ::= fmap sat_reset |>.
(** The top bit of the counter, as a condition. *)
Definition lb_getPrediction (count : Z) (p : LocalBP) : bool := negb (Z.shiftr count (localCtrBits p - 1) =? 0).
Definition getLocalIndex (branch_addr : Z) (p : LocalBP) : Z := u32 (Z.land (Z.shiftr branch_addr (lb_instShiftAmt p)) (indexMask p)).
Definition lb_lookup (tid : nat) (branch_addr : Z) (p : LocalBP) : res (bool * option unit * LocalBP) :=
  c ← vget (localCtrs p) (getLocalIndex branch_addr p);
  Ok (lb_getPrediction (sat_read c) p, None, p).
Definition lb_update (tid : nat) (branch_addr : Z) (taken : bool) (bp_history : option unit) (squashed : bool) (p : LocalBP) : res LocalBP :=
  _ ← assert (match bp_history with None => true | Some _ => false end);
  if squashed then Ok p
  else
    t ← on_ctr (getLocalIndex branch_addr p) (sat_toward taken) (localCtrs p);
    Ok (p <| localCtrs := t |>).
Definition lb_squash (tid : nat) (bp_history : option unit) (p : LocalBP) : res LocalBP :=
  _ ← assert (match bp_history with None => true | Some _ => false end);
  Ok p.

(** [uncondBranch] and [btbUpdate] do nothing; [getGHR] is that of the base class. *)
#[export] Instance LocalBP_pred : Predictor LocalBP unit := {|
  dp_lookup := lb_lookup;
  dp_uncondBranch tid pc p := Ok (None, p);
  dp_btbUpdate tid branch_addr bp_history p := Ok p;
  dp_update := lb_update;
  dp_squash := lb_squash;
  dp_getGHR tid bp_history p := Ok 0;
|}.

(** ** The contract *)
Record lb_wf (p : LocalBP) : Prop := {
  lw_bits : 1 ≤ localCtrBits p ≤ 8;
  lw_pow : isPowerOf2 (localPredictorSets p) = true;
  lw_range : 0 < localPredictorSets p < 2 ^ 32;
  lw_mask : indexMask p = localPredictorSets p - 1;
  lw_ctrs : table_ok (localCtrBits p) (localPredictorSets p) (localCtrs p);
}.

Lemma lb_index_range (a : Z) p : lb_wf p → 0 ≤ getLocalIndex a p < localPredictorSets p.
Proof.
  intros [_ Hp Hr Hm _]. unfold getLocalIndex. rewrite Hm. pose proof (land_pow2_range (Z.shiftr a (lb_instShiftAmt p)) (localPredictorSets p) ltac:(lia) Hp).
  rewrite u32_small; lia.
Qed.

Lemma LocalBP_new_ok (size bits shift : Z) :
  1 ≤ bits ≤ 8 → 0 < size < 2 ^ 32 → isPowerOf2 size = true → isPowerOf2 (size / bits) = true →
  ∃ p, LocalBP_new size bits shift = Ok p ∧ lb_wf p.
Proof.
  intros Hb Hs Hp Hq. unfold LocalBP_new. rewrite Hp, Hq, (proj2 (Z.eqb_neq bits 0)) by lia. cbn [negb panic_if mbind res_bind].
  assert (Hr : 0 < size / bits < 2 ^ 32).
  { assert (0 ≤ size / bits) by (apply Z.div_pos; lia). assert (size / bits ≠ 0) by (intros E; by rewrite E in Hq).
    split; [lia|]. apply Z.div_lt_upper_bound; nia. }
  eexists. split; [reflexivity|]. split; cbn; try done. apply table_new; lia.
Qed.

Lemma lb_update_ok (t : nat) (a : Z) (b s : bool) p :
  lb_wf p → ∃ p', lb_update t a b None s p = Ok p' ∧ lb_wf p' ∧ (s = true → p' = p)
    ∧ (s = false → ∃ c, vget (localCtrs p) (getLocalIndex a p) = Ok c ∧ p' = p <| localCtrs := <[Z.to_nat (getLocalIndex a p) := sat_toward b c]> (localCtrs p) |>).
Proof.
  intros H. unfold lb_update. cbn [assert mbind res_bind]. destruct s; [by exists p|].
  destruct (on_ctr_ok _ _ (getLocalIndex a p) (sat_toward b) _ (λ c, toward_ok _ (lw_bits p H) b c) (lw_ctrs p H) (lb_index_range a p H)) as (c & t' & Hc & -> & Ht & ->).
  cbn [mbind res_bind]. eexists. split; [reflexivity|]. split; [by destruct H; split|]. split; [done|]. intros _. by exists c.
Qed.

#[export] Program Instance LocalBP_ok : PredictorOk LocalBP unit := {| po_wf := lb_wf; po_geom := λ _, []; po_hist := λ _ h, h = None |}.
Next Obligation.
  intros t a p H. cbn. unfold lb_lookup. destruct (table_get _ _ _ _ (lw_ctrs p H) (lb_index_range a p H)) as (c & -> & _). cbn. by eauto 10.
Qed.
Next Obligation. intros t a p H. cbn. by eauto 10. Qed.
Next Obligation. intros t a h p H ->. by exists p. Qed.
Next Obligation. intros t a b h s p H ->. cbn. destruct (lb_update_ok t a b s p H) as (p' & E & H' & _). by exists p'. Qed.
Next Obligation. intros t h p H ->. by exists p. Qed.
Next Obligation. intros t h p H ->. by eexists. Qed.

(** There is no history to undo. *)
#[export] Program Instance LocalBP_hist : PredictorHist LocalBP unit () := {|
  hv_view := λ _ _, tt; hv_shift := λ _ _ _ _ _, tt; hv_made := λ _ _ _ _ _, True; hv_jump := true |}.
Solve Obligations with by repeat intros ?; repeat match goal with v : () |- _ => destruct v end.

(** ** Learning *)
Lemma lb_prediction (p : LocalBP) (c : SatCounter) :
  lb_wf p → ctr_ok (localCtrBits p) c → lb_getPrediction (counter c) p = (2 ^ (localCtrBits p - 1) <=? counter c).
Proof.
  intros H (Hi & Hm & Hc). pose proof (lw_bits p H) as Hb. unfold lb_getPrediction. rewrite Z.shiftr_div_pow2 by lia.
  pose proof (Z.pow_pos_nonneg 2 (localCtrBits p - 1) ltac:(lia) ltac:(lia)) as Hp.
  destruct (Z.leb_spec (2 ^ (localCtrBits p - 1)) (counter c)) as [Hle|Hlt].
  - rewrite (proj2 (Z.eqb_neq _ _)); [done|]. intros E. apply Z.div_small_iff in E; lia.
  - rewrite Z.div_small by lia. done.
Qed.

(** The predictor trained [n] times with one outcome of a branch. *)
Fixpoint lb_train (n : nat) (t : nat) (a : Z) (b : bool) (p : LocalBP) : res LocalBP :=
  match n with O => Ok p | S n => p ← lb_update t a b None false p; lb_train n t a b p end.

Lemma lb_train_ok (n t : nat) (a : Z) (b : bool) p c :
  lb_wf p → vget (localCtrs p) (getLocalIndex a p) = Ok c →
  ∃ p', lb_train n t a b p = Ok p' ∧ lb_wf p' ∧ getLocalIndex a p' = getLocalIndex a p ∧ localCtrBits p' = localCtrBits p
    ∧ vget (localCtrs p') (getLocalIndex a p') = Ok (Nat.iter n (sat_toward b) c).
Proof.
  revert p c. induction n as [|n IH]; intros p c H Hc; cbn [lb_train]; [by exists p|].
  destruct (lb_update_ok t a b false p H) as (p1 & -> & H1 & _ & He). cbn [mbind res_bind].
  destruct (He eq_refl) as (c' & Hc' & E1). rewrite Hc in Hc'. injection Hc' as <-.
  assert (Ei : getLocalIndex a p1 = getLocalIndex a p) by (by rewrite E1). pose proof (lb_index_range a p H) as Hi. destruct (lw_ctrs p H) as [Hl _].
  destruct (IH p1 (sat_toward b c) H1) as (p' & Et & H' & Ei' & Eb & Hv).
  - rewrite Ei, E1. cbn. rewrite vget_insert, Z.eqb_refl by lia. done.
  - exists p'. split; [done|]. split; [done|]. split; [by rewrite Ei'|]. split; [by rewrite Eb, E1|]. rewrite Hv. f_equal. symmetry. apply Nat.iter_succ_r.
Qed.
