(* ===== verification/BiModeBP.v ===== *)
(** * Bi-mode predictor

    [src/cpu/pred/bi_mode.hh] and [bi_mode.cc]: two tables of counters indexed by a hash
    of address and global history, one for branches that are mostly taken and one for the
    others, and a choice table indexed by the address. *)

From S2P Require Import Prelude Regs DynInst IntMath Targets BPred.
Local Open Scope Z_scope.

(** [BPHistory]. *)
Record BiModeHistory := MkBiModeHistory {
  bh_globalHistoryReg : Z;
  takenUsed : bool;
  takenPred : bool;
  notTakenPred : bool;
  finalPred : bool;
}.

Record BiModeBP := MkBiModeBP {
  choiceCounters : list SatCounter;
  takenCounters : list SatCounter;
  notTakenCounters : list SatCounter;
  globalHistoryReg : nat → Z;
  bm_globalHistoryBits : Z;
  bm_historyRegisterMask : Z;
  bm_choicePredictorSize : Z;
  bm_choiceCtrBits : Z;
  bm_choiceHistoryMask : Z;
  bm_globalPredictorSize : Z;
  bm_globalCtrBits : Z;
  bm_globalHistoryMask : Z;
  bm_choiceThreshold : Z;
  takenThreshold : Z;
  notTakenThreshold : Z;
  bm_instShiftAmt : Z;
}.
#[export] Instance BiModeBP_eta : Updatable BiModeBP := λ r,
  MkBiModeBP (choiceCounters r) (takenCounters r) (notTakenCounters r) (globalHistoryReg r) (bm_globalHistoryBits r)
    (bm_historyRegisterMask r) (bm_choicePredictorSize r) (bm_choiceCtrBits r) (bm_choiceHistoryMask r) (bm_globalPredictorSize r)
    (bm_globalCtrBits r) (bm_globalHistoryMask r) (bm_choiceThreshold r) (takenThreshold r) (notTakenThreshold r) (bm_instShiftAmt r).

Definition BiModeBP_new (globalPredictorSize globalCtrBits choicePredictorSize choiceCtrBits instShiftAmt : Z) : res BiModeBP :=
  bits ← ceilLog2 globalPredictorSize;
  _ ← panic_if (negb (isPowerOf2 choicePredictorSize));
  _ ← panic_if (negb (isPowerOf2 globalPredictorSize));
  Ok (MkBiModeBP
        (setBits choiceCtrBits <$> replicate (Z.to_nat choicePredictorSize) SatCounter_new)
        (setBits globalCtrBits <$> replicate (Z.to_nat globalPredictorSize) SatCounter_new)
        (setBits globalCtrBits <$> replicate (Z.to_nat globalPredictorSize) SatCounter_new)
        (λ _, 0) bits (u32 (mask bits)) choicePredictorSize choiceCtrBits (choicePredictorSize - 1)
        globalPredictorSize globalCtrBits (globalPredictorSize - 1)
        (threshold choiceCtrBits) (threshold globalCtrBits) (threshold globalCtrBits) instShiftAmt).

Definition updateGlobalHistReg (tid : nat) (taken : bool) (p : BiModeBP) : BiModeBP :=
  p <| globalHistoryReg ::= <[tid := Z.land (shift_in taken (globalHistoryReg p tid)) (bm_historyRegisterMask p)]> |>.

Definition bm_uncondBranch (tid : nat) (pc : Z) (p : BiModeBP) : res (option BiModeHistory * BiModeBP) :=
  let history := MkBiModeHistory (globalHistoryReg p tid) true true true true in
  Ok (Some history, updateGlobalHistReg tid true p).

Definition bm_squash (tid : nat) (bpHistory : option BiModeHistory) (p : BiModeBP) : res BiModeBP :=
  history ← deref bpHistory;
  Ok (p <| globalHistoryReg ::= <[tid := bh_globalHistoryReg history]> |>).

Definition choiceIdx (branchAddr : Z) (p : BiModeBP) : Z := u32 (Z.land (Z.shiftr branchAddr (bm_instShiftAmt p)) (bm_choiceHistoryMask p)).
Definition globalIdx (branchAddr g : Z) (p : BiModeBP) : Z :=
  u32 (Z.land (Z.lxor (Z.shiftr branchAddr (bm_instShiftAmt p)) g) (bm_globalHistoryMask p)).

Definition bm_lookup (tid : nat) (branchAddr : Z) (p : BiModeBP) : res (bool * option BiModeHistory * BiModeBP) :=
  let choiceHistoryIdx := choiceIdx branchAddr p in
  let globalHistoryIdx := globalIdx branchAddr (globalHistoryReg p tid) p in
  _ ← assert (choiceHistoryIdx <? bm_choicePredictorSize p);
  _ ← assert (globalHistoryIdx <? bm_globalPredictorSize p);
  choice ← vget (choiceCounters p) choiceHistoryIdx;
  taken ← vget (takenCounters p) globalHistoryIdx;
  notTaken ← vget (notTakenCounters p) globalHistoryIdx;
  let choicePrediction := bm_choiceThreshold p <? sat_read choice in
  let takenGHBPrediction := takenThreshold p <? sat_read taken in
  let notTakenGHBPrediction := notTakenThreshold p <? sat_read notTaken in
  let finalPrediction := if choicePrediction then takenGHBPrediction else notTakenGHBPrediction in
  let history := MkBiModeHistory (globalHistoryReg p tid) choicePrediction takenGHBPrediction notTakenGHBPrediction finalPrediction in
  Ok (finalPrediction, Some history, updateGlobalHistReg tid finalPrediction p).

(** [historyRegisterMask & ~ULL(1)] is a 64-bit value. *)
Definition bm_btbUpdate (tid : nat) (branchAddr : Z) (bpHistory : option BiModeHistory) (p : BiModeBP) : res BiModeBP :=
  Ok (p <| globalHistoryReg ::= <[tid := Z.land (globalHistoryReg p tid) (Z.land (bm_historyRegisterMask p) (u64 (Z.lnot 1)))]> |>).

Definition bm_update (tid : nat) (branchAddr : Z) (taken : bool) (bpHistory : option BiModeHistory) (squashed : bool) (p : BiModeBP)
    : res BiModeBP :=
  history ← (match bpHistory with Some h => Ok h | None => Err AssertFailed end);
  if squashed then
    Ok (p <| globalHistoryReg ::= <[tid := shift_in taken (bh_globalHistoryReg history)]> |>)
  else
    let choiceHistoryIdx := choiceIdx branchAddr p in
    let globalHistoryIdx := globalIdx branchAddr (bh_globalHistoryReg history) p in
    _ ← assert (choiceHistoryIdx <? bm_choicePredictorSize p);
    _ ← assert (globalHistoryIdx <? bm_globalPredictorSize p);
    p ← (if takenUsed history then
           t ← on_ctr globalHistoryIdx (sat_toward taken) (takenCounters p);
           Ok (p <| takenCounters := t |>)
         else
           t ← on_ctr globalHistoryIdx (sat_toward taken) (notTakenCounters p);
           Ok (p <| notTakenCounters := t |>));
    if Bool.eqb (finalPred history) taken && negb (Bool.eqb (finalPred history) (takenUsed history)) then Ok p
    else
      t ← on_ctr choiceHistoryIdx (sat_toward taken) (choiceCounters p);
      Ok (p <| choiceCounters := t |>).

Definition bm_getGHR (tid : nat) (bp_history : option BiModeHistory) (p : BiModeBP) : res Z :=
  history ← deref bp_history; Ok (bh_globalHistoryReg history).

#[export] Instance BiModeBP_pred : Predictor BiModeBP BiModeHistory := {|
  dp_lookup := bm_lookup;
  dp_uncondBranch := bm_uncondBranch;
  dp_btbUpdate := bm_btbUpdate;
  dp_update := bm_update;
  dp_squash := bm_squash;
  dp_getGHR := bm_getGHR;
|}.

(** ** The contract *)
Record bm_wf (p : BiModeBP) : Prop := {
  mw_gbits : 1 ≤ bm_globalCtrBits p ≤ 8;
  mw_cbits : 1 ≤ bm_choiceCtrBits p ≤ 8;
  mw_hist : 0 ≤ bm_globalHistoryBits p < 32;
  mw_reg : bm_historyRegisterMask p = Z.ones (bm_globalHistoryBits p);
  mw_gpow : isPowerOf2 (bm_globalPredictorSize p) = true;
  mw_cpow : isPowerOf2 (bm_choicePredictorSize p) = true;
  mw_grange : 0 < bm_globalPredictorSize p < 2 ^ 32;
  mw_crange : 0 < bm_choicePredictorSize p < 2 ^ 32;
  mw_gmask : bm_globalHistoryMask p = bm_globalPredictorSize p - 1;
  mw_cmask : bm_choiceHistoryMask p = bm_choicePredictorSize p - 1;
  mw_choice : table_ok (bm_choiceCtrBits p) (bm_choicePredictorSize p) (choiceCounters p);
  mw_taken : table_ok (bm_globalCtrBits p) (bm_globalPredictorSize p) (takenCounters p);
  mw_notTaken : table_ok (bm_globalCtrBits p) (bm_globalPredictorSize p) (notTakenCounters p);
}.

Lemma BiModeBP_new_ok (g c : Z) (gb cb shift : Z) :
  0 ≤ g < 32 → 0 ≤ c < 32 → 1 ≤ gb ≤ 8 → 1 ≤ cb ≤ 8 → ∃ p, BiModeBP_new (2 ^ g) gb (2 ^ c) cb shift = Ok p ∧ bm_wf p.
Proof.
  intros Hg Hc Hgb Hcb. unfold BiModeBP_new. rewrite ceilLog2_pow by lia. cbn [mbind res_bind].
  assert (Hpow : ∀ k, 0 ≤ k < 32 → isPowerOf2 (2 ^ k) = true ∧ 0 < 2 ^ k < 2 ^ 32).
  { intros k Hk. pose proof (Z.pow_pos_nonneg 2 k ltac:(lia) ltac:(lia)). pose proof (Z.pow_lt_mono_r 2 k 32 ltac:(lia) ltac:(lia)).
    split; [|lia]. apply isPowerOf2_spec; [lia|]. exists k. split; [lia|done]. }
  destruct (Hpow g Hg) as [P1 R1]. destruct (Hpow c Hc) as [P2 R2]. rewrite P1, P2. cbn [negb panic_if mbind res_bind].
  eexists. split; [reflexivity|]. split; cbn; try done; try (apply table_new; lia).
  rewrite mask_ones by lia. apply u32_small. rewrite Z.ones_equiv. lia.
Qed.

Lemma bm_choice_range (a : Z) p : bm_wf p → 0 ≤ choiceIdx a p < bm_choicePredictorSize p.
Proof.
  intros H. unfold choiceIdx. rewrite (mw_cmask p H). pose proof (mw_crange p H).
  pose proof (land_pow2_range (Z.shiftr a (bm_instShiftAmt p)) (bm_choicePredictorSize p) ltac:(lia) (mw_cpow p H)). rewrite u32_small; lia.
Qed.
Lemma bm_global_range (a g : Z) p : bm_wf p → 0 ≤ globalIdx a g p < bm_globalPredictorSize p.
Proof.
  intros H. unfold globalIdx. rewrite (mw_gmask p H). pose proof (mw_grange p H). set (x := Z.lxor _ _).
  pose proof (land_pow2_range x (bm_globalPredictorSize p) ltac:(lia) (mw_gpow p H)). rewrite u32_small; lia.
Qed.

(** Only a history register changes. *)
Lemma bm_wf_reg p f : bm_wf p → bm_wf (p <| globalHistoryReg ::= f |>).
Proof. intros []. by split. Qed.

Lemma bm_lookup_ok (t : nat) (a : Z) p :
  bm_wf p → ∃ b h, bm_lookup t a p = Ok (b, Some h, updateGlobalHistReg t b p) ∧ bh_globalHistoryReg h = globalHistoryReg p t.
Proof.
  intros H. pose proof (bm_choice_range a p H) as Hc. pose proof (bm_global_range a (globalHistoryReg p t) p H) as Hg.
  unfold bm_lookup. rewrite !(proj2 (Z.ltb_lt _ _)) by lia. cbn [assert mbind res_bind].
  destruct (table_get _ _ _ _ (mw_choice p H) Hc) as (c1 & -> & _). destruct (table_get _ _ _ _ (mw_taken p H) Hg) as (c2 & -> & _).
  destruct (table_get _ _ _ _ (mw_notTaken p H) Hg) as (c3 & -> & _). cbn [mbind res_bind]. by eexists _, _.
Qed.

Lemma bm_commit_ok (t : nat) (a : Z) (b : bool) h p :
  bm_wf p → ∃ p', bm_update t a b (Some h) false p = Ok p' ∧ bm_wf p' ∧ bm_globalHistoryBits p' = bm_globalHistoryBits p
    ∧ globalHistoryReg p' = globalHistoryReg p.
Proof.
  intros H. pose proof (bm_choice_range a p H) as Hc. pose proof (bm_global_range a (bh_globalHistoryReg h) p H) as Hg.
  unfold bm_update. cbn [mbind res_bind]. rewrite !(proj2 (Z.ltb_lt _ _)) by lia. cbn [assert mbind res_bind].
  set (m := if takenUsed h then _ else _).
  assert (Hm : ∃ p1, m = Ok p1 ∧ bm_wf p1 ∧ bm_globalHistoryBits p1 = bm_globalHistoryBits p ∧ globalHistoryReg p1 = globalHistoryReg p
                     ∧ choiceCounters p1 = choiceCounters p ∧ bm_choicePredictorSize p1 = bm_choicePredictorSize p).
  { unfold m. destruct (takenUsed h).
    - destruct (on_ctr_ok _ _ _ (sat_toward b) _ (λ c, toward_ok _ (mw_gbits p H) b c) (mw_taken p H) Hg) as (c & t' & _ & -> & Ht & _).
      cbn [mbind res_bind]. eexists. split; [reflexivity|]. split; [by destruct H; split|done].
    - destruct (on_ctr_ok _ _ _ (sat_toward b) _ (λ c, toward_ok _ (mw_gbits p H) b c) (mw_notTaken p H) Hg) as (c & t' & _ & -> & Ht & _).
      cbn [mbind res_bind]. eexists. split; [reflexivity|]. split; [by destruct H; split|done]. }
  destruct Hm as (p1 & -> & H1 & E1 & E2 & E3 & E4). cbn [mbind res_bind]. destruct (_ && _); [by exists p1|].
  rewrite <- E4 in Hc.
  destruct (on_ctr_ok _ _ _ (sat_toward b) _ (λ c, toward_ok _ (mw_cbits p1 H1) b c) (mw_choice p1 H1) Hc) as (c & t' & _ & -> & Ht & _).
  cbn [mbind res_bind]. eexists. split; [reflexivity|]. split; [by destruct H1; split|]. by rewrite <- E1, <- E2.
Qed.

#[export] Program Instance BiModeBP_ok : PredictorOk BiModeBP BiModeHistory := {|
  po_wf := bm_wf; po_geom := λ p, [bm_globalHistoryBits p]; po_hist := λ _ h, is_Some h |}.
Next Obligation.
  intros t a p H. destruct (bm_lookup_ok t a p H) as (b & h & E & _). cbn. rewrite E. eexists _, _, _. split; [done|].
  split; [by apply bm_wf_reg|]. by eauto.
Qed.
Next Obligation. intros t a p H. cbn. eexists _, _. split; [reflexivity|]. split; [by apply bm_wf_reg|]. by eauto. Qed.
Next Obligation. intros t a h p H _. cbn. eexists. split; [reflexivity|]. split; [by apply bm_wf_reg|done]. Qed.
Next Obligation.
  intros t a b h s p H [x ->]. destruct s; [cbn; eexists; split; [reflexivity|]; split; [by apply bm_wf_reg|done]|].
  destruct (bm_commit_ok t a b x p H) as (p' & E & H' & Eb & _). exists p'. cbn. by rewrite Eb.
Qed.
Next Obligation. intros t h p H [x ->]. cbn. eexists. split; [reflexivity|]. split; [by apply bm_wf_reg|done]. Qed.
Next Obligation. intros t h p H [x ->]. by eexists. Qed.

(** The histories: the register, up to the bits that index the tables. *)
#[export] Program Instance BiModeBP_hist : PredictorHist BiModeBP BiModeHistory Z := {|
  hv_view t p := low (bm_globalHistoryBits p) (globalHistoryReg p t);
  hv_shift G c a b v := low (default 0 (head G)) (shift_in b v);
  hv_made G c a h v := ∃ x, h = Some x ∧ low (default 0 (head G)) (bh_globalHistoryReg x) = v;
  hv_jump := true |}.
Next Obligation.
  intros t a p b h p' H E. cbn in *. pose proof (mw_hist p H). destruct (bm_lookup_ok t a p H) as (b' & x & E' & Ex). rewrite E in E'.
  injection E' as -> -> ->. cbn. rewrite fn_lookup_insert, (mw_reg p H), low_idem, low_shift_in by lia. split; [done|]. exists x. by rewrite Ex.
Qed.
Next Obligation.
  intros t a p h p' H E. cbn in *. pose proof (mw_hist p H). injection E as <- <-. cbn.
  rewrite fn_lookup_insert, (mw_reg p H), low_idem, low_shift_in by lia. split; [done|]. by eexists.
Qed.
Next Obligation. intros t c a b h v p p' H (x & -> & Ex) _ E. cbn in *. injection E as <-. cbn. by rewrite fn_lookup_insert. Qed.
Next Obligation.
  intros t c a b b' h v p p' H (x & -> & Ex) _ E. cbn in *. pose proof (mw_hist p H). injection E as <-. cbn.
  rewrite fn_lookup_insert, <- Ex, low_shift_in by lia. done.
Qed.
Next Obligation.
  intros t c a h v p p' H _ Ev _ E. cbn in *. pose proof (mw_hist p H). injection E as <-. cbn. rewrite fn_lookup_insert, (mw_reg p H).
  apply low_clear_of; [lia|done].
Qed.
Next Obligation.
  intros t a b h p p' H [x ->] E. destruct (bm_commit_ok t a b x p H) as (p2 & E2 & _ & E3 & E4). change (bm_update t a b (Some x) false p = Ok p') in E.
  rewrite E in E2. injection E2 as <-. cbn. by rewrite E3, E4.
Qed.
