(* ===== verification/TournamentBP.v ===== *)
(** * Tournament predictor

    [src/cpu/pred/tournament.hh] and [tournament.cc]: a local predictor (a table of
    histories by address that index counters) and a global one (counters indexed by the
    global history) compete; a choice table selects one.  Both histories are updated
    speculatively. *)

From S2P Require Import Prelude Regs DynInst IntMath Targets BPred.
Local Open Scope Z_scope.

(** [BPHistory]. *)
Record TournamentHistory := MkTournamentHistory {
  th_globalHistory : Z;
  localHistoryIdx : Z;
  localHistory : Z;
  localPredTaken : bool;
  globalPredTaken : bool;
  globalUsed : bool;
}.

Record TournamentBP := MkTournamentBP {
  tb_localCtrs : list SatCounter;
  tb_localPredictorSize : Z;
  localPredictorMask : Z;
  tb_localCtrBits : Z;
  localHistoryTable : list Z;
  localHistoryTableSize : Z;
  localHistoryBits : Z;
  globalCtrs : list SatCounter;
  globalPredictorSize : Z;
  globalCtrBits : Z;
  globalHistory : nat → Z;
  globalHistoryBits : Z;
  globalHistoryMask : Z;
  choiceHistoryMask : Z;
  historyRegisterMask : Z;
  choiceCtrs : list SatCounter;
  choicePredictorSize : Z;
  choiceCtrBits : Z;
  localThreshold : Z;
  globalThreshold : Z;
  choiceThreshold : Z;
  tb_instShiftAmt : Z;
}.
#[export] Instance TournamentBP_eta : Updatable TournamentBP := λ r,
  MkTournamentBP (tb_localCtrs r) (tb_localPredictorSize r) (localPredictorMask r) (tb_localCtrBits r) (localHistoryTable r)
    (localHistoryTableSize r) (localHistoryBits r) (globalCtrs r) (globalPredictorSize r) (globalCtrBits r) (globalHistory r)
    (globalHistoryBits r) (globalHistoryMask r) (choiceHistoryMask r) (historyRegisterMask r) (choiceCtrs r) (choicePredictorSize r)
    (choiceCtrBits r) (localThreshold r) (globalThreshold r) (choiceThreshold r) (tb_instShiftAmt r).

(** [invalidPredictorIndex], -1 stored in an [unsigned]. *)
Definition invalidPredictorIndex : Z := u32 (-1).

Definition TournamentBP_new (localSize localBits localTable globalSize globalBits choiceSize choiceBits instShiftAmt : Z) : res TournamentBP :=
  localHistBits ← ceilLog2 localSize;
  gbits ← ceilLog2 globalSize;
  cbits ← ceilLog2 choiceSize;
  let histBits := if cbits <? gbits then gbits else cbits in
  _ ← panic_if (negb (isPowerOf2 localSize));
  _ ← panic_if (negb (isPowerOf2 globalSize));
  _ ← panic_if (negb (isPowerOf2 localTable));
  _ ← panic_if (negb (isPowerOf2 choiceSize));
  let regMask := u32 (mask histBits) in
  _ ← panic_if (regMask <? globalSize - 1);
  _ ← panic_if (regMask <? choiceSize - 1);
  Ok (MkTournamentBP (setBits localBits <$> replicate (Z.to_nat localSize) SatCounter_new) localSize (u32 (mask localHistBits)) localBits
        (replicate (Z.to_nat localTable) 0) localTable localHistBits
        (setBits globalBits <$> replicate (Z.to_nat globalSize) SatCounter_new) globalSize globalBits (λ _, 0) histBits
        (globalSize - 1) (choiceSize - 1) regMask
        (setBits choiceBits <$> replicate (Z.to_nat choiceSize) SatCounter_new) choiceSize choiceBits
        (threshold localBits) (threshold globalBits) (threshold choiceBits) instShiftAmt).

Definition calcLocHistIdx (branch_addr : Z) (p : TournamentBP) : Z :=
  u32 (Z.land (Z.shiftr branch_addr (tb_instShiftAmt p)) (localHistoryTableSize p - 1)).

(** [updateGlobalHistTaken] and [updateGlobalHistNotTaken]. *)
Definition updateGlobalHist (tid : nat) (taken : bool) (p : TournamentBP) : TournamentBP :=
  p <| globalHistory ::= <[tid := Z.land (shift_in taken (globalHistory p tid)) (historyRegisterMask p)]> |>.
(** [updateLocalHistTaken] and [updateLocalHistNotTaken]. *)
Definition updateLocalHist (local_history_idx : Z) (taken : bool) (p : TournamentBP) : res TournamentBP :=
  h ← vget (localHistoryTable p) local_history_idx;
  t ← vset local_history_idx (shift_in taken h) (localHistoryTable p);
  Ok (p <| localHistoryTable := t |>).

Definition tb_btbUpdate (tid : nat) (branch_addr : Z) (bp_history : option TournamentHistory) (p : TournamentBP) : res TournamentBP :=
  let local_history_idx := calcLocHistIdx branch_addr p in
  let p := p <| globalHistory ::= <[tid := Z.land (globalHistory p tid) (Z.land (historyRegisterMask p) (u64 (Z.lnot 1)))]> |> in
  h ← vget (localHistoryTable p) local_history_idx;
  t ← vset local_history_idx (Z.land h (Z.land (localPredictorMask p) (u64 (Z.lnot 1)))) (localHistoryTable p);
  Ok (p <| localHistoryTable := t |>).

Definition tb_lookup (tid : nat) (branch_addr : Z) (p : TournamentBP) : res (bool * option TournamentHistory * TournamentBP) :=
  let local_history_idx := calcLocHistIdx branch_addr p in
  lh ← vget (localHistoryTable p) local_history_idx;
  let local_predictor_idx := Z.land lh (localPredictorMask p) in
  lc ← vget (tb_localCtrs p) local_predictor_idx;
  let local_prediction := localThreshold p <? sat_read lc in
  gc ← vget (globalCtrs p) (Z.land (globalHistory p tid) (globalHistoryMask p));
  let global_prediction := globalThreshold p <? sat_read gc in
  cc ← vget (choiceCtrs p) (Z.land (globalHistory p tid) (choiceHistoryMask p));
  let choice_prediction := choiceThreshold p <? sat_read cc in
  let history := MkTournamentHistory (globalHistory p tid) local_history_idx local_predictor_idx local_prediction global_prediction
                   choice_prediction in
  _ ← assert (local_history_idx <? localHistoryTableSize p);
  let taken := if choice_prediction then global_prediction else local_prediction in
  p ← updateLocalHist local_history_idx taken (updateGlobalHist tid taken p);
  Ok (taken, Some history, p).

Definition tb_uncondBranch (tid : nat) (pc : Z) (p : TournamentBP) : res (option TournamentHistory * TournamentBP) :=
  let history := MkTournamentHistory (globalHistory p tid) invalidPredictorIndex invalidPredictorIndex true true true in
  Ok (Some history, updateGlobalHist tid true p).

(** The choice counter learns which prediction was right, if they differed. *)
Definition tb_updateChoice (taken : bool) (history : TournamentHistory) (old_local_pred_valid : bool) (p : TournamentBP) : res TournamentBP :=
  if negb (Bool.eqb (localPredTaken history) (globalPredTaken history)) && old_local_pred_valid then
    let choice_predictor_idx := Z.land (th_globalHistory history) (choiceHistoryMask p) in
    t ← (if Bool.eqb (localPredTaken history) taken then on_ctr choice_predictor_idx decrement (choiceCtrs p)
         else if Bool.eqb (globalPredTaken history) taken then on_ctr choice_predictor_idx increment (choiceCtrs p)
         else Ok (choiceCtrs p));
    Ok (p <| choiceCtrs := t |>)
  else Ok p.

Definition tb_update (tid : nat) (branch_addr : Z) (taken : bool) (bp_history : option TournamentHistory) (squashed : bool) (p : TournamentBP)
    : res TournamentBP :=
  history ← (match bp_history with Some h => Ok h | None => Err AssertFailed end);
  let local_history_idx := calcLocHistIdx branch_addr p in
  _ ← assert (local_history_idx <? localHistoryTableSize p);
  let old_local_pred_valid := negb (localHistory history =? invalidPredictorIndex) in
  if squashed then
    let p := p <| globalHistory ::= <[tid := Z.land (shift_in taken (th_globalHistory history)) (historyRegisterMask p)]> |> in
    if old_local_pred_valid then
      t ← vset local_history_idx (shift_in taken (localHistory history)) (localHistoryTable p);
      Ok (p <| localHistoryTable := t |>)
    else Ok p
  else
    let old_local_pred_index := Z.land (localHistory history) (localPredictorMask p) in
    _ ← assert (old_local_pred_index <? tb_localPredictorSize p);
    p ← tb_updateChoice taken history old_local_pred_valid p;
    g ← on_ctr (Z.land (th_globalHistory history) (globalHistoryMask p)) (sat_toward taken) (globalCtrs p);
    let p := p <| globalCtrs := g |> in
    if old_local_pred_valid then
      l ← on_ctr old_local_pred_index (sat_toward taken) (tb_localCtrs p);
      Ok (p <| tb_localCtrs := l |>)
    else Ok p.

Definition tb_squash (tid : nat) (bp_history : option TournamentHistory) (p : TournamentBP) : res TournamentBP :=
  history ← deref bp_history;
  let p := p <| globalHistory ::= <[tid := th_globalHistory history]> |> in
  if negb (localHistoryIdx history =? invalidPredictorIndex) then
    t ← vset (localHistoryIdx history) (localHistory history) (localHistoryTable p);
    Ok (p <| localHistoryTable := t |>)
  else Ok p.

Definition tb_getGHR (tid : nat) (bp_history : option TournamentHistory) (p : TournamentBP) : res Z :=
  history ← deref bp_history; Ok (th_globalHistory history).

#[export] Instance TournamentBP_pred : Predictor TournamentBP TournamentHistory := {|
  dp_lookup := tb_lookup;
  dp_uncondBranch := tb_uncondBranch;
  dp_btbUpdate := tb_btbUpdate;
  dp_update := tb_update;
  dp_squash := tb_squash;
  dp_getGHR := tb_getGHR;
|}.

(** ** The contract *)
Record tb_wf (p : TournamentBP) : Prop := {
  tw_lbits : 1 ≤ tb_localCtrBits p ≤ 8;
  tw_gbits : 1 ≤ globalCtrBits p ≤ 8;
  tw_cbits : 1 ≤ choiceCtrBits p ≤ 8;
  tw_lhist : 0 ≤ localHistoryBits p < 32;
  tw_ghist : 0 ≤ globalHistoryBits p < 32;
  tw_lmask : localPredictorMask p = Z.ones (localHistoryBits p);
  tw_lsize : tb_localPredictorSize p = 2 ^ localHistoryBits p;
  tw_reg : historyRegisterMask p = Z.ones (globalHistoryBits p);
  tw_gpow : isPowerOf2 (globalPredictorSize p) = true;
  tw_cpow : isPowerOf2 (choicePredictorSize p) = true;
  tw_tpow : isPowerOf2 (localHistoryTableSize p) = true;
  tw_gpos : 0 < globalPredictorSize p;
  tw_cpos : 0 < choicePredictorSize p;
  tw_trange : 0 < localHistoryTableSize p < 2 ^ 32;
  tw_gmask : globalHistoryMask p = globalPredictorSize p - 1;
  tw_cmask : choiceHistoryMask p = choicePredictorSize p - 1;
  tw_table : Z.of_nat (length (localHistoryTable p)) = localHistoryTableSize p;
  tw_local : table_ok (tb_localCtrBits p) (tb_localPredictorSize p) (tb_localCtrs p);
  tw_global : table_ok (globalCtrBits p) (globalPredictorSize p) (globalCtrs p);
  tw_choice : table_ok (choiceCtrBits p) (choicePredictorSize p) (choiceCtrs p);
}.

(** Index of the local history of a branch, from the geometry. *)
Definition loc_idx (shift size a : Z) : Z := u32 (Z.land (Z.shiftr a shift) (size - 1)).

Section ranges.
Context (p : TournamentBP) (H : tb_wf p).

Lemma tb_loc_range (a : Z) : 0 ≤ calcLocHistIdx a p < localHistoryTableSize p.
Proof using H.
  unfold calcLocHistIdx. pose proof (tw_trange p H).
  pose proof (land_pow2_range (Z.shiftr a (tb_instShiftAmt p)) (localHistoryTableSize p) ltac:(lia) (tw_tpow p H)). rewrite u32_small; lia.
Qed.
Lemma tb_loc_valid (a : Z) : calcLocHistIdx a p ≠ invalidPredictorIndex.
Proof using H.
  pose proof (tb_loc_range a) as Hr. pose proof (tw_trange p H) as Ht. change invalidPredictorIndex with (2 ^ 32 - 1). intros E. rewrite E in Hr.
  lia.
Qed.
Lemma tb_local_range (x : Z) : 0 ≤ Z.land x (localPredictorMask p) < tb_localPredictorSize p.
Proof using H.
  rewrite (tw_lmask p H), (tw_lsize p H). pose proof (tw_lhist p H). rewrite Z.land_ones by lia. apply Z.mod_pos_bound, Z.pow_pos_nonneg; lia.
Qed.
Lemma tb_global_range (x : Z) : 0 ≤ Z.land x (globalHistoryMask p) < globalPredictorSize p.
Proof using H. rewrite (tw_gmask p H). pose proof (tw_gpos p H). apply land_pow2_range; [lia|apply (tw_gpow p H)]. Qed.
Lemma tb_choice_range (x : Z) : 0 ≤ Z.land x (choiceHistoryMask p) < choicePredictorSize p.
Proof using H. rewrite (tw_cmask p H). pose proof (tw_cpos p H). apply land_pow2_range; [lia|apply (tw_cpow p H)]. Qed.
Lemma tb_hist_at (a : Z) : ∃ h, vget (localHistoryTable p) (calcLocHistIdx a p) = Ok h.
Proof using H. apply vget_in_range. rewrite (tw_table p H). apply tb_loc_range. Qed.
Lemma tb_hist_set (i x : Z) : 0 ≤ i < localHistoryTableSize p → vset i x (localHistoryTable p) = Ok (<[Z.to_nat i := x]> (localHistoryTable p)).
Proof using H. intros Hi. apply vset_in_range. rewrite (tw_table p H). done. Qed.

(** Only histories change. *)
Lemma tb_wf_hist f (t : list Z) :
  length t = length (localHistoryTable p) → tb_wf (p <| globalHistory ::= f |> <| localHistoryTable := t |>).
Proof using H. intros Hl. destruct H. split; try done. cbn. by rewrite Hl. Qed.
Lemma tb_wf_global f : tb_wf (p <| globalHistory ::= f |>).
Proof using H. destruct H. by split. Qed.
End ranges.

Lemma TournamentBP_new_ok (l tbl g c lb gb cb shift : Z) :
  0 ≤ l < 32 → 0 ≤ tbl < 32 → 0 ≤ g < 32 → 0 ≤ c < 32 → 1 ≤ lb ≤ 8 → 1 ≤ gb ≤ 8 → 1 ≤ cb ≤ 8 →
  ∃ p, TournamentBP_new (2 ^ l) lb (2 ^ tbl) (2 ^ g) gb (2 ^ c) cb shift = Ok p ∧ tb_wf p.
Proof.
  intros Hl Ht Hg Hc Hlb Hgb Hcb. unfold TournamentBP_new. rewrite !ceilLog2_pow by lia. cbn [mbind res_bind].
  assert (Hpow : ∀ k, 0 ≤ k < 32 → isPowerOf2 (2 ^ k) = true ∧ 0 < 2 ^ k < 2 ^ 32 ∧ u32 (mask k) = Z.ones k).
  { intros k Hk. pose proof (Z.pow_pos_nonneg 2 k ltac:(lia) ltac:(lia)). pose proof (Z.pow_lt_mono_r 2 k 32 ltac:(lia) ltac:(lia)).
    split; [|split; [lia|]]; [apply isPowerOf2_spec; [lia|]; exists k; split; [lia|done]|].
    rewrite mask_ones by lia. apply u32_small. rewrite Z.ones_equiv. lia. }
  destruct (Hpow l Hl) as (P1 & R1 & E1). destruct (Hpow tbl Ht) as (P2 & R2 & _). destruct (Hpow g Hg) as (P3 & R3 & _).
  destruct (Hpow c Hc) as (P4 & R4 & _). rewrite P1, P2, P3, P4, E1. cbn [negb panic_if mbind res_bind].
  set (k := if c <? g then g else c). assert (Hk : 0 ≤ k < 32 ∧ g ≤ k ∧ c ≤ k) by (unfold k; destruct (Z.ltb_spec c g); lia).
  destruct (Hpow k ltac:(lia)) as (_ & R5 & E5). rewrite E5. pose proof (Z.pow_le_mono_r 2 g k ltac:(lia) ltac:(lia)). pose proof (Z.pow_le_mono_r 2 c k ltac:(lia) ltac:(lia)).
  rewrite !(proj2 (Z.ltb_ge _ _)) by (rewrite Z.ones_equiv; lia). cbn [panic_if mbind res_bind].
  eexists. split; [reflexivity|]. split; cbn; try done; try lia; try (apply table_new; lia). rewrite length_replicate. lia.
Qed.

(** The geometry of history objects. *)
Definition tb_geom (p : TournamentBP) : list Z := [globalHistoryBits p; localHistoryBits p; tb_instShiftAmt p; localHistoryTableSize p].
Definition geo (G : list Z) (i : nat) : Z := default 0 (G !! i).

Definition tb_hist (G : list Z) (h : option TournamentHistory) : Prop :=
  ∃ x, h = Some x ∧ (localHistoryIdx x = invalidPredictorIndex ∨ 0 ≤ localHistoryIdx x < geo G 3).

Lemma tb_lookup_ok (t : nat) (a : Z) p :
  tb_wf p → ∃ b x lh, vget (localHistoryTable p) (calcLocHistIdx a p) = Ok lh
    ∧ tb_lookup t a p = Ok (b, Some x, updateGlobalHist t b p <| localHistoryTable := <[Z.to_nat (calcLocHistIdx a p) := shift_in b lh]> (localHistoryTable p) |>)
    ∧ th_globalHistory x = globalHistory p t ∧ localHistoryIdx x = calcLocHistIdx a p ∧ localHistory x = Z.land lh (localPredictorMask p).
Proof.
  intros H. pose proof (tb_loc_range p H a) as Hr. destruct (tb_hist_at p H a) as [lh Hlh]. unfold tb_lookup. rewrite Hlh. cbn [mbind res_bind].
  destruct (table_get _ _ _ _ (tw_local p H) (tb_local_range p H lh)) as (c1 & -> & _).
  destruct (table_get _ _ _ _ (tw_global p H) (tb_global_range p H (globalHistory p t))) as (c2 & -> & _).
  destruct (table_get _ _ _ _ (tw_choice p H) (tb_choice_range p H (globalHistory p t))) as (c3 & -> & _). cbn [mbind res_bind].
  rewrite (proj2 (Z.ltb_lt (calcLocHistIdx a p) _)) by lia. cbn [assert mbind res_bind]. unfold updateLocalHist. change (localHistoryTable (updateGlobalHist _ _ p)) with (localHistoryTable p).
  rewrite Hlh. cbn [mbind res_bind]. rewrite (tb_hist_set p H) by done. cbn [mbind res_bind]. eexists _, _, lh. by split_and!.
Qed.

Lemma tb_commit_ok (t : nat) (a : Z) (b : bool) x p :
  tb_wf p → ∃ p', tb_update t a b (Some x) false p = Ok p' ∧ tb_wf p' ∧ tb_geom p' = tb_geom p
    ∧ globalHistory p' = globalHistory p ∧ localHistoryTable p' = localHistoryTable p.
Proof.
  intros H. pose proof (tb_loc_range p H a) as Hr. pose proof (tb_local_range p H (localHistory x)) as Hl.
  unfold tb_update. cbn [mbind res_bind]. rewrite !(proj2 (Z.ltb_lt _ _)) by lia. cbn [assert mbind res_bind].
  set (v := negb _). assert (Hm : ∃ p1 t1, tb_updateChoice b x v p = Ok p1 ∧ p1 = p <| choiceCtrs := t1 |> ∧ tb_wf p1).
  { unfold tb_updateChoice. assert (Hf : ∀ f, (∀ c, ctr_ok (choiceCtrBits p) c → ctr_ok (choiceCtrBits p) (f c)) →
      ∃ t1, on_ctr (Z.land (th_globalHistory x) (choiceHistoryMask p)) f (choiceCtrs p) = Ok t1 ∧ table_ok (choiceCtrBits p) (choicePredictorSize p) t1).
    { intros f Hf. destruct (on_ctr_ok _ _ _ f _ Hf (tw_choice p H) (tb_choice_range p H (th_globalHistory x))) as (c & t1 & _ & -> & Ht & _). by exists t1. }
    destruct (_ && v); [|exists p, (choiceCtrs p); split; [done|]; split; [by destruct p|done]].
    set (m := if Bool.eqb (localPredTaken x) b then _ else _).
    assert (Hm : ∃ t1, m = Ok t1 ∧ table_ok (choiceCtrBits p) (choicePredictorSize p) t1).
    { unfold m. destruct (Bool.eqb (localPredTaken x) b); [apply Hf; intros c; apply decrement_ok, (tw_cbits p H)|].
      destruct (Bool.eqb (globalPredTaken x) b); [apply Hf; intros c; apply increment_ok, (tw_cbits p H)|]. exists (choiceCtrs p). split; [done|apply (tw_choice p H)]. }
    destruct Hm as (t1 & -> & Ht). cbn [mbind res_bind]. eexists _, t1. split; [reflexivity|]. split; [done|]. destruct H. by split. }
  destruct Hm as (p1 & t1 & -> & E1 & H1). cbn [mbind res_bind].
  destruct (on_ctr_ok _ _ _ (sat_toward b) _ (λ c, toward_ok _ (tw_gbits p1 H1) b c) (tw_global p1 H1) (tb_global_range p1 H1 (th_globalHistory x))) as (c & t2 & _ & -> & Ht2 & _).
  cbn [mbind res_bind]. set (p2 := p1 <| globalCtrs := t2 |>). assert (H2 : tb_wf p2) by (destruct H1; by split).
  assert (E : tb_geom p1 = tb_geom p ∧ globalHistory p1 = globalHistory p ∧ localHistoryTable p1 = localHistoryTable p) by (by rewrite E1).
  destruct v; [|by exists p2].
  assert (Hl2 : 0 ≤ Z.land (localHistory x) (localPredictorMask p) < tb_localPredictorSize p2) by (unfold p2; rewrite E1; exact Hl).
  destruct (on_ctr_ok _ _ _ (sat_toward b) _ (λ c, toward_ok _ (tw_lbits p2 H2) b c) (tw_local p2 H2) Hl2) as (c' & t3 & _ & -> & Ht3 & _).
  cbn [mbind res_bind]. eexists. split; [reflexivity|]. split; [by destruct H2; split|done].
Qed.

#[export] Program Instance TournamentBP_ok : PredictorOk TournamentBP TournamentHistory := {| po_wf := tb_wf; po_geom := tb_geom; po_hist := tb_hist |}.
Next Obligation.
  intros t a p H. destruct (tb_lookup_ok t a p H) as (b & x & lh & _ & E & _ & Ei & _). eexists _, _, _. split; [exact E|].
  split; [apply (tb_wf_hist p H); by rewrite length_insert|]. split; [done|]. exists x. split; [done|]. right. rewrite Ei. apply (tb_loc_range p H).
Qed.
Next Obligation.
  intros t a p H. cbn. eexists _, _. split; [reflexivity|]. split; [by apply tb_wf_global|]. split; [done|]. eexists. split; [reflexivity|]. by left.
Qed.
Next Obligation.
  intros t a h p H _. cbn. unfold tb_btbUpdate. set (p1 := p <| globalHistory ::= _ |>). change (localHistoryTable p1) with (localHistoryTable p).
  destruct (tb_hist_at p H a) as [lh ->]. cbn [mbind res_bind]. rewrite (tb_hist_set p H) by apply (tb_loc_range p H). cbn [mbind res_bind].
  eexists. split; [reflexivity|]. split; [|done]. apply (tb_wf_hist p H). by rewrite length_insert.
Qed.
Next Obligation.
  intros t a b h s p H (x & -> & _). destruct s.
  - cbn. pose proof (tb_loc_range p H a) as Hr. rewrite (proj2 (Z.ltb_lt _ _)) by lia. cbn [assert mbind res_bind].
    destruct (negb _); [|eexists; split; [reflexivity|]; split; [by apply tb_wf_global|done]].
    set (p1 := p <| globalHistory ::= _ |>). change (localHistoryTable p1) with (localHistoryTable p). rewrite (tb_hist_set p H) by done. cbn [mbind res_bind].
    eexists. split; [reflexivity|]. split; [|done]. apply (tb_wf_hist p H). by rewrite length_insert.
  - destruct (tb_commit_ok t a b x p H) as (p' & E & H' & Eg & _). by exists p'.
Qed.
Next Obligation.
  intros t h p H (x & -> & Hi). cbn in *. set (p1 := p <| globalHistory ::= _ |>). destruct (Z.eqb_spec (localHistoryIdx x) invalidPredictorIndex) as [E|E]; cbn [negb].
  - eexists. split; [reflexivity|]. split; [by apply tb_wf_global|done].
  - destruct Hi as [?|Hi]; [done|]. change (localHistoryTable p1) with (localHistoryTable p). rewrite (tb_hist_set p H) by done. cbn [mbind res_bind].
    eexists. split; [reflexivity|]. split; [|done]. apply (tb_wf_hist p H). by rewrite length_insert.
Qed.
Next Obligation. intros t h p H (x & -> & _). by eexists. Qed.

(** ** Histories

    The global register of the thread and the table of local histories, up to the bits
    that index the counters. *)
Definition tb_view (t : nat) (p : TournamentBP) : Z * list Z :=
  (low (globalHistoryBits p) (globalHistory p t), (λ x, low (localHistoryBits p) x) <$> localHistoryTable p).
Definition tb_idx (G : list Z) (a : Z) : nat := Z.to_nat (loc_idx (geo G 2) (geo G 3) a).
Definition tb_shift (G : list Z) (c : bool) (a : Z) (b : bool) (v : Z * list Z) : Z * list Z :=
  (low (geo G 0) (shift_in b v.1), if c then alter (λ x, low (geo G 1) (shift_in b x)) (tb_idx G a) v.2 else v.2).
Definition tb_made (G : list Z) (c : bool) (a : Z) (h : option TournamentHistory) (v : Z * list Z) : Prop :=
  ∃ x, h = Some x ∧ low (geo G 0) (th_globalHistory x) = v.1
    ∧ if c then localHistoryIdx x = loc_idx (geo G 2) (geo G 3) a ∧ v.2 !! tb_idx G a = Some (localHistory x)
                ∧ low (geo G 1) (localHistory x) = localHistory x ∧ localHistoryIdx x ≠ invalidPredictorIndex ∧ localHistory x ≠ invalidPredictorIndex
      else localHistoryIdx x = invalidPredictorIndex ∧ localHistory x = invalidPredictorIndex.

Lemma low_range (k x : Z) : 0 ≤ k < 32 → 0 ≤ low k x < invalidPredictorIndex.
Proof.
  intros Hk. rewrite Z.land_ones by lia. pose proof (Z.mod_pos_bound x (2 ^ k) ltac:(apply Z.pow_pos_nonneg; lia)).
  pose proof (Z.pow_le_mono_r 2 k 31 ltac:(lia) ltac:(lia)). change invalidPredictorIndex with (2 ^ 32 - 1). lia.
Qed.

Lemma alter_insert (f : Z → Z) (i : nat) (x : Z) (l : list Z) : l !! i = Some x → alter f i l = <[i := f x]> l.
Proof.
  intros Hx. apply list_eq. intros j. destruct (decide (i = j)) as [<-|Hne].
  - rewrite list_lookup_alter_eq, Hx, list_lookup_insert_eq; [done|]. by eapply lookup_lt_Some.
  - by rewrite list_lookup_alter_ne, list_lookup_insert_ne.
Qed.

(** A write to the local history of a branch, on the view of a shifted state. *)
Lemma view_insert (G : list Z) (b : bool) (i : nat) (x y : Z) (l tbl : list Z) :
  l !! i = Some x → (λ z, low (geo G 1) z) <$> tbl = alter (λ z, low (geo G 1) (shift_in b z)) i l →
  (λ z, low (geo G 1) z) <$> <[i := y]> tbl = <[i := low (geo G 1) y]> l.
Proof. intros Hx E. by rewrite list_fmap_insert, E, (alter_insert _ _ _ _ Hx), list_insert_insert_eq. Qed.

#[export] Program Instance TournamentBP_hist : PredictorHist TournamentBP TournamentHistory (Z * list Z) := {|
  hv_view := tb_view; hv_shift := tb_shift; hv_made := tb_made; hv_jump := false |}.
Next Obligation.
  intros t a p b h p' H E. change (tb_lookup t a p = Ok (b, h, p')) in E. pose proof (tw_ghist p H) as Hg. pose proof (tw_lhist p H) as Hl.
  destruct (tb_lookup_ok t a p H) as (b' & x & lh & Hlh & E' & E1 & E2 & E3). rewrite E in E'. injection E' as -> -> ->.
  apply vget_ok in Hlh as [_ Hlh]. rewrite (tw_lmask p H) in E3. split.
  - unfold tb_view, tb_shift, updateGlobalHist. cbn. rewrite fn_lookup_insert, (tw_reg p H), low_idem, low_shift_in by lia. f_equal.
    rewrite list_fmap_insert. rewrite (alter_insert _ _ (low (localHistoryBits p) lh)); [|by rewrite list_lookup_fmap; change (tb_idx _ a) with (Z.to_nat (calcLocHistIdx a p)); rewrite Hlh].
    by rewrite low_shift_in by lia.
  - exists x. split; [done|]. cbn. rewrite E1. split; [done|]. rewrite E2, E3. split; [done|]. split; [|split; [apply low_idem|split; [by apply tb_loc_valid|]]].
    + rewrite list_lookup_fmap. change (tb_idx _ a) with (Z.to_nat (calcLocHistIdx a p)). by rewrite Hlh.
    + pose proof (low_range (localHistoryBits p) lh ltac:(lia)). lia.
Qed.
Next Obligation.
  intros t a p h p' H E. cbn in E. injection E as <- <-. pose proof (tw_ghist p H) as Hg. split; [|by eexists].
  unfold tb_view, tb_shift, updateGlobalHist. cbn. by rewrite fn_lookup_insert, (tw_reg p H), low_idem, low_shift_in by lia.
Qed.
Next Obligation.
  intros t c a b h [g l] p p' H (x & -> & Eg & Hc) Ev E. cbn in *. injection Ev as Ev1 Ev2. destruct c.
  - destruct Hc as (Ei & Hl & Elow & Hi1 & Hi2). rewrite (proj2 (Z.eqb_neq _ _) Hi1) in E. cbn [negb] in E. inv_res E. injection E as <-.
    unfold vset in E0. destruct (_ && _) in E0; [|done]. injection E0 as <-. unfold tb_view. cbn in *. rewrite fn_lookup_insert, Eg. f_equal.
    rewrite Ei. rewrite (view_insert (tb_geom p) b _ (localHistory x) _ l _ Hl Ev2). cbn. rewrite Elow. by apply list_insert_id.
  - destruct Hc as [Hc _]. rewrite Hc in E. cbn in E. injection E as <-. unfold tb_view. cbn. rewrite fn_lookup_insert, Eg. by f_equal.
Qed.
Next Obligation.
  intros t c a b b' h [g l] p p' H (x & -> & Eg & Hc) Ev E. cbn in *. injection Ev as Ev1 Ev2. inv_res E. clear E0. pose proof (tw_ghist p H) as Hg. pose proof (tw_lhist p H) as Hlr. destruct c.
  - destruct Hc as (Ei & Hl & Elow & Hi1 & Hi2). rewrite (proj2 (Z.eqb_neq _ _) Hi2) in E. cbn [negb] in E. inv_res E. injection E as <-.
    unfold vset in E0. destruct (_ && _) in E0; [|done]. injection E0 as <-. unfold tb_view, tb_shift. cbn in *.
    rewrite fn_lookup_insert, (tw_reg p H), low_idem, <- Eg, low_shift_in by lia. f_equal.
    rewrite (view_insert (tb_geom p) b _ (localHistory x) _ l _ Hl Ev2). cbn. by rewrite (alter_insert _ _ _ _ Hl).
  - destruct Hc as [_ Hc]. rewrite Hc in E. cbn in E. injection E as <-. unfold tb_view, tb_shift. cbn.
    rewrite fn_lookup_insert, (tw_reg p H), low_idem, <- Eg, low_shift_in by lia. by f_equal.
Qed.
Next Obligation.
  intros t c a h [g l] p p' H (x & -> & Eg & Hc) Ev Hjump E. destruct c; [|done]. destruct Hc as (Ei & Hl & Elow & Hi1 & Hi2). cbn in *. injection Ev as Ev1 Ev2.
  inv_res E. injection E as <-. apply vget_ok in E0 as [_ E0]. unfold vset in E1. destruct (_ && _) in E1; [|done]. injection E1 as <-.
  pose proof (tw_ghist p H) as Hg. pose proof (tw_lhist p H) as Hlr. unfold tb_view, tb_shift. cbn in *. rewrite fn_lookup_insert, (tw_reg p H), (tw_lmask p H). f_equal.
  - apply low_clear_of; [lia|done].
  - rewrite (view_insert (tb_geom p) true _ (localHistory x) _ l _ Hl Ev2), (alter_insert _ _ _ _ Hl). f_equal. cbn. apply low_clear_of; [lia|].
    pose proof (list_lookup_fmap (λ z, low (localHistoryBits p) z) (localHistoryTable p) (Z.to_nat (calcLocHistIdx a p))) as Hx. rewrite E0 in Hx.
    rewrite Ev2 in Hx. rewrite (alter_insert _ _ _ _ Hl) in Hx. rewrite list_lookup_insert_eq in Hx; [by injection Hx|by eapply lookup_lt_Some].
Qed.
Next Obligation.
  intros t a b h p p' H (x & -> & _) E. change (tb_update t a b (Some x) false p = Ok p') in E. destruct (tb_commit_ok t a b x p H) as (p2 & E2 & _ & E3 & E4 & E5).
  rewrite E in E2. injection E2 as <-. unfold tb_geom in E3. injection E3 as E31 E32 _ _. cbn. unfold tb_view. by rewrite E31, E32, E4, E5.
Qed.
