(* ===== verification/BPredInv.v ===== *)
(** * The invariant of the prediction unit

    What every operation of [BPred.v] does, proved against the contract of [BPred.v]:
    it returns, keeps the tables and histories well formed, and treats the return stack
    and the direction histories entry by entry. *)

From S2P Require Import Prelude Regs DynInst IntMath Targets BPred.
From stdpp Require Import sorting.
Local Open Scope Z_scope.

Section inv.
Context {P H : Type} `{!Predictor P H} `{!PredictorOk P H}.
Context (advancePC : StaticInst → PCState → PCState) (rand : nat → Z) (n : Z).
Implicit Types (u : BPredUnit P H) (e : PredictorHistory H).

Definition path_of u (t : nat) : list HistoryEntry := pathHist (threadInfo (iPred u) t).
(** Only returns use the return stack, and they do not push. *)
Definition kind_ok e : Prop := (usedRAS e = true → wasReturn e = true) ∧ (wasReturn e = true → wasCall e = false).
Definition entry_ok (G : list Z) e : Prop := po_hist G (bpHistory e) ∧ 0 ≤ RASIndex e < n ∧ kind_ok e.

(** The tables. *)
Record tables_ok u : Prop := {
  to_dir : po_wf (dirPred u);
  to_btb : btb_ok (bp_BTB u);
  to_ip : ip_ok (iPred u);
  to_ras : ∀ t, ras_ok n (bp_RAS u t);
}.

(** The branches in flight are in order, and those that are indirect have their entry in
    the path history. *)
Record bp_inv u : Prop := {
  bi_tables : tables_ok u;
  bi_hist : ∀ t, Forall (entry_ok (po_geom (dirPred u))) (predHist u t);
  bi_order : ∀ t, StronglySorted Z.gt (ph_seqNum <$> predHist u t);
  bi_path : ∀ t, StronglySorted Z.lt (ip_seqNum <$> path_of u t);
  bi_indirect : ∀ t e, e ∈ predHist u t → wasIndirect e = true →
    ∃ x, x ∈ path_of u t ∧ ip_seqNum x = ph_seqNum e ∧ pcAddr x = ph_pc e;
}.

(** What an entry did to the top of the return stack. *)
Definition ras_eff e : Z := if usedRAS e then -1 else if wasCall e && pushedRAS e then 1 else 0.

(** ** Prediction *)
(** The direction predictor of [u'] is that of [u] after the branch, of direction [d], and
    possibly after the report of a miss. *)
Definition dir_step (inst : StaticInst) (t : nat) (a : Z) e (b : bool) u u' : Prop :=
  ∃ p1, (if si_isUncondCtrl inst then dp_uncondBranch t a (dirPred u) = Ok (bpHistory e, p1) ∧ predTaken e = true
         else dp_lookup t a (dirPred u) = Ok (predTaken e, bpHistory e, p1))
    ∧ if predTaken e && negb b && negb (si_isCall inst) && (si_isDirectCtrl inst || negb (useIndirect u))
      then dp_btbUpdate t a (bpHistory e) p1 = Ok (dirPred u') else dirPred u' = p1.

Record predicted (inst : StaticInst) (sn : Z) (pc : PCState) (t : nat) u (b : bool) e u' : Prop := {
  pr_hist : predHist u' = <[t := e :: predHist u t]> (predHist u);
  pr_sn : ph_seqNum e = sn;
  pr_pc : ph_pc e = instAddr pc;
  pr_entry : entry_ok (po_geom (dirPred u)) e;
  pr_geom : po_geom (dirPred u') = po_geom (dirPred u);
  pr_tables : tables_ok u';
  pr_dir : dir_step inst t (instAddr pc) e b u u';
  pr_other : ∀ t', t' ≠ t → bp_RAS u' t' = bp_RAS u t';
  pr_tos : tos (bp_RAS u' t) = (tos (bp_RAS u t) + ras_eff e) mod n;
  pr_index : usedRAS e = true → RASIndex e = tos (bp_RAS u t);
  pr_path : ∃ x, path_of u' t = path_of u t ++ (if wasIndirect e then [MkHistoryEntry (instAddr pc) x sn] else []);
  pr_paths : ∀ t', t' ≠ t → path_of u' t' = path_of u t';
  pr_btb : bp_BTB u' = bp_BTB u;
  pr_use : useIndirect u' = useIndirect u;
  pr_return : wasReturn e = si_isReturn inst;
  pr_taken : b = true → predTaken e = true;
  pr_unused : b = false → usedRAS e = false ∧ RASIndex e = 0;
}.

Lemma tables_ras (t : nat) r u : tables_ok u → ras_ok n r → tables_ok (on_ras t r u).
Proof.
  intros [H1 H2 H3 H4] Hr. split; try done. intros t'. cbn. destruct (decide (t = t')) as [<-|]; [by rewrite fn_lookup_insert|by rewrite fn_lookup_insert_ne].
Qed.
Lemma tables_dir (p : P) u : tables_ok u → po_wf p → tables_ok (u <| dirPred := p |>).
Proof. intros [H1 H2 H3 H4] Hp. by split. Qed.
Lemma tables_ip f u : tables_ok u → ip_ok (f (iPred u)) → tables_ok (u <| iPred ::= f |>).
Proof. intros [H1 H2 H3 H4] Hp. by split. Qed.
Lemma tables_hist f u : tables_ok u → tables_ok (u <| predHist ::= f |>).
Proof. intros [H1 H2 H3 H4]. by split. Qed.

(** The search for a target leaves the branches in flight alone and fills in the entry. *)
Record targeted (inst : StaticInst) (t : nat) e0 u (b : bool) e u' : Prop := {
  tg_sn : ph_seqNum e = ph_seqNum e0;
  tg_pc : ph_pc e = ph_pc e0;
  tg_object : bpHistory e = bpHistory e0;
  tg_taken : predTaken e = predTaken e0;
  tg_hist : predHist u' = predHist u;
  tg_btb : bp_BTB u' = bp_BTB u;
  tg_use : useIndirect u' = useIndirect u;
  tg_tables : tables_ok u';
  tg_geom : po_geom (dirPred u') = po_geom (dirPred u);
  tg_dir : if negb b && negb (si_isCall inst) && (si_isDirectCtrl inst || negb (useIndirect u))
           then dp_btbUpdate t (ph_pc e0) (bpHistory e0) (dirPred u) = Ok (dirPred u') else dirPred u' = dirPred u;
  tg_other : ∀ t', t' ≠ t → bp_RAS u' t' = bp_RAS u t';
  tg_tos : tos (bp_RAS u' t) = (tos (bp_RAS u t) + ras_eff e) mod n;
  tg_index : usedRAS e = true → RASIndex e = tos (bp_RAS u t);
  tg_range : 0 ≤ RASIndex e < n;
  tg_path : ∃ x, path_of u' t = path_of u t ++ (if wasIndirect e then [MkHistoryEntry (ph_pc e0) x (ph_seqNum e0)] else []);
  tg_paths : ∀ t', t' ≠ t → path_of u' t' = path_of u t';
  tg_return : wasReturn e = si_isReturn inst;
  tg_kind : kind_ok e;
  tg_unused : b = false → usedRAS e = false ∧ RASIndex e = 0;
}.

(** An entry as [predict] makes it. *)
Definition fresh_entry (G : list Z) e : Prop :=
  po_hist G (bpHistory e) ∧ RASIndex e = 0 ∧ usedRAS e = false ∧ pushedRAS e = false ∧ wasCall e = false ∧ wasReturn e = false ∧ wasIndirect e = false.

Lemma tos_id (t : nat) u : tables_ok u → tos (bp_RAS u t) = (tos (bp_RAS u t) + 0) mod n.
Proof. intros Hu. pose proof (ro_tos _ _ (to_ras u Hu t)). rewrite Z.add_0_r, Z.mod_small; lia. Qed.

Lemma predictReturn_ok (inst : StaticInst) (pc : PCState) (t : nat) e0 u :
  tables_ok u → fresh_entry (po_geom (dirPred u)) e0 → si_isReturn inst = true →
  ∃ tgt e u', predictReturn pc t e0 u = Ok (true, tgt, e, u') ∧ targeted inst t e0 u true e u'.
Proof.
  intros Hu (Hh & Hi & _ & _ & Hc & _ & Hw) Hr. pose proof (to_ras u Hu t) as Hras. unfold predictReturn. destruct (ras_top_ok _ _ Hras) as [x ->]. cbn [mbind res_bind].
  destruct (ras_pop_ok _ _ Hras) as (Hr' & Ht & _). eexists _, _, _. split; [reflexivity|]. split; cbn; try done.
  - by apply tables_ras.
  - intros t' Ht'. by rewrite fn_lookup_insert_ne.
  - by rewrite fn_lookup_insert.
  - apply (ro_tos _ _ Hras).
  - exists 0. by rewrite Hw, app_nil_r.
Qed.

(** Before the tables are consulted only the return stack may have changed. *)
Record stacked (t : nat) e0 u e u' : Prop := {
  sk_sn : ph_seqNum e = ph_seqNum e0;
  sk_pc : ph_pc e = ph_pc e0;
  sk_object : bpHistory e = bpHistory e0;
  sk_taken : predTaken e = predTaken e0;
  sk_fresh : RASIndex e = 0 ∧ usedRAS e = false ∧ wasReturn e = false ∧ wasIndirect e = false;
  sk_hist : predHist u' = predHist u;
  sk_btb : bp_BTB u' = bp_BTB u;
  sk_use : useIndirect u' = useIndirect u;
  sk_dir : dirPred u' = dirPred u;
  sk_ip : iPred u' = iPred u;
  sk_tables : tables_ok u';
  sk_other : ∀ t', t' ≠ t → bp_RAS u' t' = bp_RAS u t';
  sk_tos : tos (bp_RAS u' t) = (tos (bp_RAS u t) + ras_eff e) mod n;
}.

Lemma pushCall_ok (inst : StaticInst) (pc : PCState) (t : nat) e0 u :
  tables_ok u → fresh_entry (po_geom (dirPred u)) e0 →
  ∃ e u', (if si_isCall inst then
             r ← ras_push pc (bp_RAS u t);
             Ok (e0 <| pushedRAS := true |> <| wasCall := true |>, on_ras t r u)
           else Ok (e0, u)) = Ok (e, u')
    ∧ stacked t e0 u e u' ∧ (si_isCall inst = true → wasCall e = true ∧ pushedRAS e = true).
Proof.
  intros Hu (Hh & Hi & Hur & Hp & Hc & Hw & Hwi). destruct (si_isCall inst).
  - destruct (ras_push_ok n pc _ (to_ras u Hu t)) as (r & -> & Hr & Ht & _). cbn [mbind res_bind]. eexists _, _. split; [reflexivity|]. split; [|done].
    split; cbn; try done; [by apply tables_ras|intros t' Ht'; by rewrite fn_lookup_insert_ne|rewrite fn_lookup_insert, Ht; unfold ras_eff; cbn; by rewrite Hur].
  - exists e0, u. split; [done|]. split; [|done]. split; try done. unfold ras_eff. rewrite Hur, Hc. by apply tos_id.
Qed.

(** A miss on a call that was pushed. *)
Lemma dropCall_ok (inst : StaticInst) (t : nat) e0 u e1 u1 :
  stacked t e0 u e1 u1 → tables_ok u → si_isCall inst = true → wasCall e1 = true → pushedRAS e1 = true →
  ∃ e2 u2, dropCall inst t e1 u1 = (e2, u2) ∧ stacked t e0 u e2 u2.
Proof.
  intros Hs Hu Hc Hw Hp. unfold dropCall. rewrite Hc. cbn [andb]. destruct (si_isUncondCtrl inst); cbn [negb]; [by exists e1, u1|].
  eexists _, _. split; [reflexivity|]. destruct Hs as [S1 S2 S3 S4 S5 S6 S7 S8 S9 S10 S11 S12 S13].
  destruct (ras_pop_ok _ _ (to_ras u1 S11 t)) as (Hr & Ht & _). split; cbn; try done; [by apply tables_ras|intros t' Ht'; rewrite fn_lookup_insert_ne; auto|].
  destruct S5 as (_ & Hur & _ & _). rewrite fn_lookup_insert, Ht, S13. unfold ras_eff. cbn. rewrite Hur, Hw, Hp. cbn [andb].
  rewrite Zminus_mod_idemp_l. f_equal. lia.
Qed.

(** From there to the target. *)
Lemma stacked_targeted (inst : StaticInst) (t : nat) e0 u (b : bool) e u1 u' w x :
  stacked t e0 u e u1 → si_isReturn inst = false → tables_ok u → tables_ok u' → predHist u' = predHist u1 → bp_BTB u' = bp_BTB u1 → useIndirect u' = useIndirect u1 →
  bp_RAS u' = bp_RAS u1 → po_geom (dirPred u') = po_geom (dirPred u) →
  (if negb b && negb (si_isCall inst) && (si_isDirectCtrl inst || negb (useIndirect u))
   then dp_btbUpdate t (ph_pc e0) (bpHistory e0) (dirPred u) = Ok (dirPred u') else dirPred u' = dirPred u) →
  path_of u' t = path_of u t ++ (if w : bool then [MkHistoryEntry (ph_pc e0) x (ph_seqNum e0)] else []) → (∀ t', t' ≠ t → path_of u' t' = path_of u t') →
  targeted inst t e0 u b (e <| wasIndirect := w |>) u'.
Proof.
  intros [S1 S2 S3 S4 (S5 & S5' & S5'' & _) S6 S7 S8 S9 S10 S11 S12 S13] Hret Hu0 Hu' E1 E2 E3 E4 Eg Hd Hpath Hpaths. split; cbn; try congruence; try done.
  - by rewrite E4.
  - rewrite E4, S13. done.
  - rewrite S5. pose proof (ro_range _ _ (to_ras u Hu0 t)). lia.
  - by exists x.
  - split; cbn; congruence.
Qed.

Lemma predictTaken_ok (inst : StaticInst) (pc : PCState) (t : nat) e0 u :
  tables_ok u → fresh_entry (po_geom (dirPred u)) e0 → si_isReturn inst = false → ph_pc e0 = instAddr pc →
  ∃ b tgt e u', predictTaken advancePC inst pc t e0 u = Ok (b, tgt, e, u') ∧ targeted inst t e0 u b e u'.
Proof.
  intros Hu Hf Hret Epc. unfold predictTaken. destruct (pushCall_ok inst pc t e0 u Hu Hf) as (e1 & u1 & -> & Hs & Hcall). cbn [mbind res_bind].
  pose proof Hs as [S1 S2 S3 S4 S5 S6 S7 S8 S9 S10 S11 S12 S13]. destruct Hf as (Hh & _). rewrite S8.
  assert (Hp : ∀ v, iPred v = iPred u → path_of v t = path_of u t ++ [] ∧ ∀ t', t' ≠ t → path_of v t' = path_of u t').
  { intros v E. unfold path_of. rewrite E, app_nil_r. done. }
  assert (Hw : ∀ e, wasIndirect e = false → e = e <| wasIndirect := false |>) by (intros []; cbn; by intros ->).
  destruct (si_isDirectCtrl inst || negb (useIndirect u)) eqn:Edir.
  - unfold predictDirect. destruct (btb_access (instAddr pc) t (bp_BTB u1) (to_btb u1 S11)) as (en & _ & -> & ->). cbn [mbind res_bind].
    destruct (btb_hits _ _ _ en).
    + eexists _, _, _, _. split; [reflexivity|]. rewrite (Hw e1) by apply S5. apply (stacked_targeted _ _ _ _ _ _ u1 _ false 0); try done; try (by apply Hp). by rewrite S9.
    + rewrite Hret. destruct (si_isCall inst) eqn:Ecall; cbn [negb andb].
      * destruct (Hcall eq_refl) as [Hc1 Hc2]. destruct (dropCall_ok inst t e0 u e1 u1 Hs Hu Ecall Hc1 Hc2) as (e2 & u2 & -> & Hs2). cbn [mbind res_bind].
        eexists _, _, _, _. split; [reflexivity|]. pose proof Hs2 as [T1 T2 T3 T4 T5 T6 T7 T8 T9 T10 T11 T12 T13]. rewrite (Hw e2) by apply T5.
        apply (stacked_targeted _ _ _ _ _ _ u2 _ false 0); try done; try (by apply Hp); [by rewrite T9|by rewrite Ecall].
      * rewrite S3, S9, <- Epc. destruct (po_btbUpdate t (ph_pc e0) (bpHistory e0) (dirPred u) (to_dir u Hu) Hh) as (p & E & Hwf & Hg). rewrite E. cbn [mbind res_bind].
        eexists _, _, _, _. split; [reflexivity|]. rewrite (Hw e1) by apply S5.
        apply (stacked_targeted _ _ _ _ _ _ u1 _ false 0); try done; try (by apply Hp); [by apply tables_dir|by rewrite Ecall, Edir].
  - unfold predictIndirect. cbn [over_field]. destruct (po_getGHR t (bpHistory (e1 <| wasIndirect := true |>)) (dirPred u1) (to_dir u1 S11)) as [g Eg]; [cbn; by rewrite S3, S9|].
    rewrite Eg. cbn [mbind res_bind]. destruct (ip_lookup_ok (instAddr pc) g t (iPred u1) (to_ip u1 S11)) as [o ->]. cbn [mbind res_bind].
    set (m := match o with Some target => _ | None => _ end).
    assert (Hm : ∃ b tgt e2 u2, m = (b, tgt, e2 <| wasIndirect := true |>, u2) ∧ stacked t e0 u e2 u2).
    { unfold m. destruct o as [x|]; [by eexists true, x, e1, u1|]. rewrite Hret. destruct (si_isCall inst) eqn:Ecall; cbn [negb andb].
      - destruct (Hcall eq_refl) as [Hc1 Hc2]. destruct (dropCall_ok inst t e0 u e1 u1 Hs Hu Ecall Hc1 Hc2) as (e2 & u2 & E2 & Hs2).
        exists false, (advancePC inst pc), e2, u2. split; [|done]. unfold dropCall in *. rewrite Ecall in *. cbn [andb] in *. destruct (si_isUncondCtrl inst); cbn [negb] in *; by injection E2 as <- <-.
      - by exists false, (advancePC inst pc), e1, u1. }
    destruct Hm as (b & tgt & e2 & u2 & -> & Hs2). pose proof Hs2 as [T1 T2 T3 T4 T5 T6 T7 T8 T9 T10 T11 T12 T13]. eexists _, _, _, _. split; [reflexivity|].
    apply (stacked_targeted _ _ _ _ _ _ u2 _ true (instAddr tgt)); try done.
    + apply tables_ip; [done|]. apply recordIndirect_ok, (to_ip _ T11).
    + cbn. by rewrite T9.
    + rewrite Edir, andb_false_r. done.
    + unfold path_of. cbn. rewrite fn_lookup_insert. cbn. by rewrite T10, T1, Epc.
    + intros t' Ht'. unfold path_of. cbn. rewrite fn_lookup_insert_ne by done. by rewrite T10.
Qed.

(** [predict] returns, and does this. *)
Lemma predict_ok (inst : StaticInst) (sn : Z) (pc : PCState) (t : nat) u :
  tables_ok u → ∃ b tgt e u', bp_predict advancePC inst sn pc t u = Ok (b, tgt, u') ∧ predicted inst sn pc t u b e u'.
Proof.
  intros Hu. unfold bp_predict. set (m := if si_isUncondCtrl inst then _ else _).
  assert (Hm : ∃ d h p, m = Ok (d, h, u <| dirPred := p |>) ∧ po_wf p ∧ po_geom p = po_geom (dirPred u) ∧ po_hist (po_geom (dirPred u)) h
     ∧ if si_isUncondCtrl inst then dp_uncondBranch t (instAddr pc) (dirPred u) = Ok (h, p) ∧ d = true
       else dp_lookup t (instAddr pc) (dirPred u) = Ok (d, h, p)).
  { unfold m. destruct (si_isUncondCtrl inst).
    - destruct (po_uncondBranch t (instAddr pc) (dirPred u) (to_dir u Hu)) as (h & p & E & Hw & Hg & Hh). rewrite E. cbn [mbind res_bind]. by exists true, h, p.
    - destruct (po_lookup t (instAddr pc) (dirPred u) (to_dir u Hu)) as (d & h & p & E & Hw & Hg & Hh). rewrite E. cbn [mbind res_bind]. by exists d, h, p. }
  destruct Hm as (d & h & p & -> & Hw & Hg & Hh & Hdir). cbn [mbind res_bind]. set (e0 := PredictorHistory_new _ _ _ _ _). set (u1 := u <| dirPred := p |>).
  assert (Hu1 : tables_ok u1) by (by apply tables_dir). assert (Hf : fresh_entry (po_geom (dirPred u1)) e0) by (by split_and!; cbn; rewrite ?Hg).
  set (m2 := if d then _ else _).
  assert (Hm2 : ∃ b tgt e u2, m2 = Ok (b, tgt, e, u2) ∧ (b = true → d = true)
    ∧ (d = true → targeted inst t e0 u1 b e u2) ∧ (d = false → b = false ∧ u2 = u1 ∧ e = e0 <| wasReturn := si_isReturn inst |>)).
  { unfold m2. destruct d.
    - destruct (si_isReturn inst) eqn:Er.
      + destruct (predictReturn_ok inst pc t e0 u1 Hu1 Hf Er) as (tgt & e & u2 & E & Ht). by exists true, tgt, e, u2.
      + destruct (predictTaken_ok inst pc t e0 u1 Hu1 Hf Er eq_refl) as (b & tgt & e & u2 & E & Ht). by exists b, tgt, e, u2.
    - eexists false, _, _, u1. split; [reflexivity|]. split; [done|]. split; [done|]. intros _. split_and!; try done. by destruct (si_isReturn inst). }
  destruct Hm2 as (b & tgt & e & u2 & -> & Hb & Htrue & Hfalse). cbn [mbind res_bind]. exists b, tgt, e. eexists. split; [reflexivity|]. destruct d.
  - destruct (Htrue eq_refl) as [T1 T2 T3 T4 T5 T6 T7 T8 T9 T10 T11 T12 T13 T14 T15 T16 T17 T18 T19]. split; cbn; try done.
    + by rewrite T5.
    + split; [by rewrite T3|]. done.
    + by rewrite T9, <- Hg.
    + by apply tables_hist.
    + exists p. rewrite T3, T4. split; [by destruct (si_isUncondCtrl inst)|]. cbn. exact T10.
  - destruct (Hfalse eq_refl) as (-> & -> & ->). split; cbn; try done.
    + split; [done|]. split; [cbn; pose proof (ro_range _ _ (to_ras u Hu t)); lia|done].
    + by apply tables_hist.
    + exists p. cbn. split; [|done]. destruct (si_isUncondCtrl inst); [by destruct Hdir|done].
    + apply (tos_id t u Hu).
    + exists 0. by rewrite app_nil_r.
Qed.

(** ** Squash *)
(** What undoing an entry makes of the top of the return stack. *)
Definition undo_tos e (z : Z) : Z := if usedRAS e then RASIndex e else if wasCall e && pushedRAS e then (z - 1) mod n else z.

(** The direction predictor and the top of the stack, entry by entry. *)
Fixpoint undone (t : nat) (es : list (PredictorHistory H)) (p : P) (z : Z) (p' : P) (z' : Z) : Prop :=
  match es with
  | [] => p' = p ∧ z' = z
  | e :: es => ∃ p1, dp_squash t (bpHistory e) p = Ok p1 ∧ undone t es p1 (undo_tos e z) p' z'
  end.

(** What a squash of a thread leaves alone. *)
Record kept (t : nat) u u' : Prop := {
  kp_btb : bp_BTB u' = bp_BTB u;
  kp_use : useIndirect u' = useIndirect u;
  kp_geom : po_geom (dirPred u') = po_geom (dirPred u);
  kp_other : ∀ t', t' ≠ t → bp_RAS u' t' = bp_RAS u t';
  kp_hist : ∀ t', t' ≠ t → predHist u' t' = predHist u t';
}.

Lemma squashEntry_ok (t : nat) e u :
  tables_ok u → entry_ok (po_geom (dirPred u)) e →
  ∃ u', squashEntry t e u = Ok u' ∧ tables_ok u' ∧ kept t u u' ∧ predHist u' = predHist u ∧ iPred u' = iPred u
    ∧ tos (bp_RAS u' t) = undo_tos e (tos (bp_RAS u t)) ∧ dp_squash t (bpHistory e) (dirPred u) = Ok (dirPred u').
Proof.
  intros Hu (Hh & Hi & _). pose proof (to_ras u Hu t) as Hr. unfold squashEntry. set (m := if usedRAS e then _ else _).
  assert (Hm : ∃ u1, m = Ok u1 ∧ tables_ok u1 ∧ kept t u u1 ∧ predHist u1 = predHist u ∧ iPred u1 = iPred u ∧ dirPred u1 = dirPred u
                     ∧ tos (bp_RAS u1 t) = undo_tos e (tos (bp_RAS u t))).
  { assert (Hon : ∀ r, ras_ok n r → tables_ok (on_ras t r u) ∧ kept t u (on_ras t r u) ∧ tos (bp_RAS (on_ras t r u) t) = tos r).
    { intros r Hr'. split; [by apply tables_ras|]. cbn. rewrite fn_lookup_insert. split; [|done]. split; cbn; try done. intros t' Ht. by rewrite fn_lookup_insert_ne. }
    unfold m, undo_tos. destruct (usedRAS e).
    - destruct (ras_restore_ok n (RASIndex e) (RASTarget e) _ Hr Hi) as (r & -> & Hr' & Ht & _). cbn [mbind res_bind]. destruct (Hon r Hr') as (H1 & H2 & H3).
      eexists. split; [reflexivity|]. by rewrite H3.
    - destruct (wasCall e && pushedRAS e).
      + destruct (ras_pop_ok n _ Hr) as (Hr' & Ht & _). destruct (Hon _ Hr') as (H1 & H2 & H3). eexists. split; [reflexivity|]. by rewrite H3.
      + exists u. split; [done|]. split; [done|]. by split. }
  destruct Hm as (u1 & -> & Hu1 & Hk & E1 & E2 & E3 & Et). cbn [mbind res_bind]. rewrite E3.
  destruct (po_squash t (bpHistory e) (dirPred u) (to_dir u Hu) Hh) as (p & -> & Hw & Hg). cbn [mbind res_bind]. eexists. split; [reflexivity|].
  split; [by apply tables_dir|]. split; [by destruct Hk|done].
Qed.

Lemma bp_squash_loop_ok (sn : Z) (t : nat) (young old : list (PredictorHistory H)) u :
  tables_ok u → Forall (entry_ok (po_geom (dirPred u))) young → Forall (λ e, sn < ph_seqNum e) young → Forall (λ e, ph_seqNum e ≤ sn) old →
  predHist u t = young ++ old →
  ∃ u', squash_loop sn t (young ++ old) u = Ok u' ∧ tables_ok u' ∧ kept t u u' ∧ predHist u' t = old ∧ iPred u' = iPred u
    ∧ undone t young (dirPred u) (tos (bp_RAS u t)) (dirPred u') (tos (bp_RAS u' t)).
Proof.
  revert u. induction young as [|e young IH]; intros u Hu Hok Hy Ho Hh; cbn [app squash_loop].
  - exists u. split; [|by split_and!]. destruct old as [|e old]; [done|]. apply Forall_cons in Ho as [Hle _]. cbn. by rewrite (proj2 (Z.ltb_ge _ _)) by lia.
  - apply Forall_cons in Hok as [Hoke Hok]. apply Forall_cons in Hy as [Hlt Hy]. rewrite (proj2 (Z.ltb_lt _ _)) by lia.
    destruct (squashEntry_ok t e u Hu Hoke) as (u1 & -> & Hu1 & Hk & Eh & Ei & Et & Ed). cbn [mbind res_bind]. set (u2 := u1 <| predHist ::= _ |>).
    destruct (IH u2) as (u' & -> & Hu' & Hk' & Eh' & Ei' & Hund); [by apply tables_hist| |done|done|cbn; by rewrite fn_lookup_insert|].
    { change (po_geom (dirPred u2)) with (po_geom (dirPred u1)). by rewrite (kp_geom _ _ _ Hk). }
    exists u'. split; [done|]. split; [done|]. destruct Hk as [K1 K2 K3 K4 K5], Hk' as [L1 L2 L3 L4 L5]. split; [|split_and!; [done|by rewrite Ei'|]].
    + split; [by rewrite L1|by rewrite L2|by rewrite L3|intros t' Ht; by rewrite L4, <- K4|intros t' Ht; rewrite L5 by done; cbn; rewrite fn_lookup_insert_ne; auto].
    + cbn. exists (dirPred u1). split; [done|]. by rewrite <- Et.
Qed.

(** A list in descending order is split at a bound. *)
Lemma split_desc (sn : Z) (l : list (PredictorHistory H)) :
  StronglySorted Z.gt (ph_seqNum <$> l) → l = filter (λ e, sn < ph_seqNum e) l ++ filter (λ e, ph_seqNum e ≤ sn) l.
Proof.
  induction l as [|e l IH]; [done|]. rewrite fmap_cons. intros [Hs Hf]%StronglySorted_inv. specialize (IH Hs). rewrite !filter_cons.
  destruct (decide (sn < ph_seqNum e)); [rewrite decide_False by lia; cbn; by f_equal|]. rewrite decide_True by lia.
  assert (E : filter (λ e, sn < ph_seqNum e) l = []).
  { apply filter_void. rewrite Forall_fmap in Hf. eapply Forall_impl; [exact Hf|]. cbn. intros x Hx. lia. }
  rewrite E in *. cbn in *. by f_equal.
Qed.

Lemma squash_path_sorted (sn : Z) (l : list HistoryEntry) :
  StronglySorted Z.lt (ip_seqNum <$> l) → squash_path sn l = filter (λ x, ip_seqNum x ≤ sn) l.
Proof.
  induction l as [|x l IH]; [done|]. rewrite fmap_cons. intros [Hs Hf]%StronglySorted_inv. cbn [squash_path]. rewrite filter_cons.
  destruct (Z.ltb_spec sn (ip_seqNum x)); [rewrite decide_False by lia|rewrite decide_True by lia; by rewrite IH].
  symmetry. apply filter_void. rewrite Forall_fmap in Hf. eapply Forall_impl; [exact Hf|]. cbn. intros y Hy. lia.
Qed.

Lemma sorted_filter {A} (R : Z → Z → Prop) (f : A → Z) (Q : A → Prop) `{!∀ x, Decision (Q x)} (l : list A) :
  StronglySorted R (f <$> l) → StronglySorted R (f <$> filter Q l).
Proof.
  induction l as [|x l IH]; [done|]. rewrite fmap_cons. intros [Hs Hf]%StronglySorted_inv. rewrite filter_cons.
  destruct (decide (Q x)); [|auto]. cbn. constructor; [auto|]. rewrite Forall_fmap in *. rewrite Forall_forall in *. intros y [_ Hy]%list_elem_of_filter. by apply Hf.
Qed.
End inv.
