(* ===== verification/BPredSteps.v ===== *)
(** * The operations keep the invariant

    Each operation of the prediction unit on a state with the invariant of [BPredInv.v]:
    it returns, the invariant holds again, and what it did is described. *)

From S2P Require Import Prelude Regs DynInst IntMath Targets BPred BPredInv.
From stdpp Require Import sorting.
Local Open Scope Z_scope.

Section steps.
Context {P H : Type} `{!Predictor P H} `{!PredictorOk P H}.
Context (advancePC : StaticInst → PCState → PCState) (rand : nat → Z) (n : Z).
Implicit Types (u : BPredUnit P H) (e : PredictorHistory H).
Abbreviation bp_inv := (bp_inv n).
Abbreviation tables_ok := (tables_ok n).

(** ** Prediction *)
Definition youngest_branch (sn : Z) (t : nat) u : Prop :=
  Forall (λ e, ph_seqNum e < sn) (predHist u t) ∧ Forall (λ x, ip_seqNum x < sn) (path_of u t).

Lemma sorted_snoc_lt (l : list Z) (x : Z) : StronglySorted Z.lt l → Forall (λ y, y < x) l → StronglySorted Z.lt (l ++ [x]).
Proof.
  intros Hs Hx. apply StronglySorted_app_2; [|done|by repeat constructor]. rewrite Forall_forall in Hx. intros a b Ha ->%list_elem_of_singleton. by apply Hx.
Qed.

Lemma predict_inv (inst : StaticInst) (sn : Z) (pc : PCState) (t : nat) u :
  bp_inv u → youngest_branch sn t u → ∃ b tgt e u', bp_predict advancePC inst sn pc t u = Ok (b, tgt, u') ∧ bp_inv u' ∧ predicted n inst sn pc t u b e u'.
Proof.
  intros [Ht Hh Ho Hp Hi] [Hf1 Hf2]. destruct (predict_ok advancePC n inst sn pc t u Ht) as (b & tgt & e & u' & E & Hpr). exists b, tgt, e, u'. split; [done|]. split; [|done].
  destruct Hpr as [P1 P2 P3 P4 P5 P6 P7 P8 P9 P10 [x P11] P12 P13 P14 P15 P16 P17].
  assert (Hpath : path_of u t ⊆ path_of u' t) by (rewrite P11; intros y Hy; apply elem_of_app; by left).
  split; [done|..]; intros t'; destruct (decide (t' = t)) as [->|Hne]; rewrite ?P5, ?P1, ?fn_lookup_insert, ?fn_lookup_insert_ne by done; rewrite ?(P12 t' Hne); auto.
  - rewrite fmap_cons. constructor; [done|]. rewrite Forall_fmap. eapply Forall_impl; [exact Hf1|]. cbn. intros y Hy. lia.
  - rewrite P11, fmap_app. destruct (wasIndirect e); [|by rewrite app_nil_r]. apply sorted_snoc_lt; [done|]. by rewrite Forall_fmap.
  - intros y [->|Hy]%elem_of_cons Hw.
    + rewrite P11, Hw. eexists. split; [apply elem_of_app; right; by apply list_elem_of_singleton|]. by rewrite P2, P3.
    + destruct (Hi t y Hy Hw) as (z & Hz & ?). exists z. split; [|done]. by apply Hpath.
Qed.

(** ** Squash *)
Abbreviation young sn l := (filter (λ e, sn < ph_seqNum e) l).
Abbreviation old sn l := (filter (λ e, ph_seqNum e ≤ sn) l).

Record squashed (sn : Z) (t : nat) u u' : Prop := {
  sd_kept : kept t u u';
  sd_hist : predHist u' t = old sn (predHist u t);
  sd_path : path_of u' t = filter (λ x, ip_seqNum x ≤ sn) (path_of u t);
  sd_undone : undone n t (young sn (predHist u t)) (dirPred u) (tos (bp_RAS u t)) (dirPred u') (tos (bp_RAS u' t));
}.

Lemma squash_inv (sn : Z) (t : nat) u : bp_inv u → ∃ u', bp_squash sn t u = Ok u' ∧ bp_inv u' ∧ squashed sn t u u'.
Proof.
  intros [Ht Hh Ho Hp Hi]. unfold bp_squash. set (u1 := u <| iPred ::= _ |>). pose proof (split_desc sn _ (Ho t)) as Hsplit.
  assert (Hf : ∀ (Q : PredictorHistory H → Prop) `{!∀ x, Decision (Q x)}, Forall Q (filter Q (predHist u t))).
  { intros Q ?. apply Forall_forall. by intros y [? _]%list_elem_of_filter. }
  destruct (bp_squash_loop_ok n sn t (young sn (predHist u t)) (old sn (predHist u t)) u1) as (u' & E & Ht' & Hk & Eh & Ei & Hund).
  { apply tables_ip; [done|]. apply ip_squash_ok, (to_ip _ _ Ht). }
  { apply Forall_forall. intros y [_ Hy]%list_elem_of_filter. specialize (Hh t). rewrite Forall_forall in Hh. by apply Hh. }
  { apply Hf. } { apply Hf. } { exact Hsplit. }
  rewrite <- Hsplit in E. change (predHist u1 t) with (predHist u t). exists u'. split; [exact E|].
  assert (Epath : path_of u' t = filter (λ x, ip_seqNum x ≤ sn) (path_of u t)).
  { unfold path_of. rewrite Ei. cbn. rewrite fn_lookup_insert. cbn. apply squash_path_sorted, Hp. }
  assert (Epaths : ∀ t', t' ≠ t → path_of u' t' = path_of u t') by (intros t' Hne; unfold path_of; rewrite Ei; cbn; by rewrite fn_lookup_insert_ne).
  assert (Hk' : kept t u u') by (by destruct Hk; split). split; [|by split]. destruct Hk' as [K1 K2 K3 K4 K5].
  split; [done|..]; intros t'; rewrite ?K3; destruct (decide (t' = t)) as [->|Hne]; rewrite ?(K5 t' Hne), ?(Epaths t' Hne), ?Eh, ?Epath; auto.
  - apply Forall_forall. intros y [_ Hy]%list_elem_of_filter. specialize (Hh t). rewrite Forall_forall in Hh. by apply Hh.
  - by apply sorted_filter.
  - by apply sorted_filter.
  - intros y [Hle Hy]%list_elem_of_filter Hw. destruct (Hi t y Hy Hw) as (x & Hx & Es & Ep). exists x. split; [|done]. apply list_elem_of_filter. split; [lia|done].
Qed.

(** ** Commit *)
(** The direction predictor trained with the branches that leave, oldest first. *)
Fixpoint trained (t : nat) (es : list (PredictorHistory H)) (p p' : P) : Prop :=
  match es with
  | [] => p' = p
  | e :: es => ∃ p1, dp_update t (ph_pc e) (predTaken e) (bpHistory e) false p = Ok p1 ∧ trained t es p1 p'
  end.

Lemma bp_commit_loop_ok (sn : Z) (t : nat) (l1 l2 : list (PredictorHistory H)) (p : P) :
  po_wf p → Forall (λ e, po_hist (po_geom p) (bpHistory e)) l1 → Forall (λ e, ph_seqNum e ≤ sn) l1 → Forall (λ e, sn < ph_seqNum e) l2 →
  ∃ p', commit_loop sn t (l1 ++ l2) p = Ok (l2, p') ∧ po_wf p' ∧ po_geom p' = po_geom p ∧ trained t l1 p p'.
Proof.
  revert p. induction l1 as [|e l1 IH]; intros p Hw Hok H1 H2; cbn [app commit_loop].
  - exists p. split; [|done]. destruct l2 as [|e l2]; [done|]. apply Forall_cons in H2 as [H2 _]. cbn. by rewrite (proj2 (Z.leb_gt _ _)) by lia.
  - apply Forall_cons in Hok as [Hoke Hok]. apply Forall_cons in H1 as [Hle H1]. rewrite (proj2 (Z.leb_le _ _)) by lia.
    destruct (po_update t (ph_pc e) (predTaken e) (bpHistory e) false p Hw Hoke) as (p1 & E & Hw1 & Hg). rewrite E. cbn [mbind res_bind].
    destruct (IH p1 Hw1) as (p' & -> & Hw' & Hg' & Htr); [by rewrite Hg|done|done|]. exists p'. split; [done|]. split; [done|]. split; [by rewrite Hg'|].
    cbn. by exists p1.
Qed.

Record committed (sn : Z) (t : nat) u u' : Prop := {
  cm_btb : bp_BTB u' = bp_BTB u;
  cm_ras : bp_RAS u' = bp_RAS u;
  cm_use : useIndirect u' = useIndirect u;
  cm_geom : po_geom (dirPred u') = po_geom (dirPred u);
  cm_hist : predHist u' = <[t := young sn (predHist u t)]> (predHist u);
  cm_trained : trained t (reverse (old sn (predHist u t))) (dirPred u) (dirPred u');
}.

(** The path history loses at most its first entry, a committed one. *)
Lemma commit_path (sn : Z) (t : nat) (i : IndirectPredictor) :
  StronglySorted Z.lt (ip_seqNum <$> pathHist (threadInfo i t)) → 0 ≤ headHistEntry (threadInfo i t) →
  pathHist (threadInfo (ip_commit sn t i) t) = pathHist (threadInfo i t)
  ∨ ∃ x l, pathHist (threadInfo i t) = x :: l ∧ pathHist (threadInfo (ip_commit sn t i) t) = l ∧ ip_seqNum x ≤ sn.
Proof.
  intros Hs Hh. unfold ip_commit. destruct (_ !! _) as [y|] eqn:Ey; [|by left]. destruct (Z.leb_spec (ip_seqNum y) sn) as [Hle|]; [|by left]. cbn. rewrite fn_lookup_insert.
  destruct (pathLength i <=? headHistEntry (threadInfo i t)); [|by left]. right. cbn. destruct (pathHist (threadInfo i t)) as [|x l]; [done|]. exists x, l. split; [done|]. split; [done|].
  rewrite fmap_cons in Hs. apply StronglySorted_inv in Hs as [_ Hf]. rewrite Forall_fmap, Forall_forall in Hf.
  apply list_elem_of_lookup_2, elem_of_cons in Ey as [->|Hy]; [done|]. specialize (Hf y Hy). cbn in Hf. lia.
Qed.

Lemma commit_inv (sn : Z) (t : nat) u : bp_inv u → ∃ u', bp_commit sn t u = Ok u' ∧ bp_inv u' ∧ committed sn t u u'.
Proof.
  intros [Ht Hh Ho Hp Hi]. unfold bp_commit. set (u1 := u <| iPred ::= _ |>). change (predHist u1) with (predHist u). change (dirPred u1) with (dirPred u).
  pose proof (split_desc sn _ (Ho t)) as Hsplit. apply (f_equal reverse) in Hsplit. rewrite reverse_app in Hsplit. rewrite Hsplit.
  assert (Hin : ∀ (Q : PredictorHistory H → Prop) `{!∀ x, Decision (Q x)} y, y ∈ filter Q (predHist u t) → Q y ∧ entry_ok n (po_geom (dirPred u)) y).
  { intros Q ? y [Hq Hy]%list_elem_of_filter. split; [done|]. specialize (Hh t). rewrite Forall_forall in Hh. by apply Hh. }
  destruct (bp_commit_loop_ok sn t (reverse (old sn (predHist u t))) (reverse (young sn (predHist u t))) (dirPred u) (to_dir _ _ Ht)) as (p' & E & Hw & Hg & Htr).
  1-3: apply Forall_reverse, Forall_forall; intros y Hy; by apply Hin in Hy as [? [? _]].
  rewrite E. cbn [mbind res_bind]. rewrite reverse_involutive. eexists. split; [reflexivity|]. split; [|by split].
  set (u' := _ <| predHist ::= _ |>). assert (Hpath : path_of u' t = path_of u t ∨ ∃ x l, path_of u t = x :: l ∧ path_of u' t = l ∧ ip_seqNum x ≤ sn).
  { apply commit_path; [apply Hp|]. apply (io_head _ (to_ip _ _ Ht)). }
  assert (Epaths : ∀ t', t' ≠ t → path_of u' t' = path_of u t').
  { intros t' Hne. unfold path_of. cbn. unfold ip_commit. destruct (_ !! _); [|done]. destruct (_ <=? _); [|done]. cbn. by rewrite fn_lookup_insert_ne. }
  split.
  - destruct Ht as [T1 T2 T3 T4]. split; try done. by apply ip_commit_ok.
  - intros t'. cbn. rewrite Hg. destruct (decide (t' = t)) as [->|]; [rewrite fn_lookup_insert|by rewrite fn_lookup_insert_ne].
    apply Forall_forall. intros y Hy. by apply Hin in Hy as [_ ?].
  - intros t'. cbn. destruct (decide (t' = t)) as [->|]; [rewrite fn_lookup_insert; by apply sorted_filter|by rewrite fn_lookup_insert_ne].
  - intros t'. destruct (decide (t' = t)) as [->|]; [|by rewrite Epaths]. destruct Hpath as [->|(x & l & El & -> & _)]; [done|]. specialize (Hp t). rewrite El, fmap_cons in Hp.
    by apply StronglySorted_inv in Hp as [? _].
  - intros t' y. cbn. destruct (decide (t' = t)) as [->|]; [rewrite fn_lookup_insert|rewrite fn_lookup_insert_ne, Epaths by done; apply Hi].
    intros [Hlt Hy]%list_elem_of_filter Hwi. destruct (Hi t y Hy Hwi) as (z & Hz & Es & Ep). exists z. split; [|done].
    destruct Hpath as [->|(x & l & El & -> & Hx)]; [done|]. rewrite El in Hz. apply elem_of_cons in Hz as [->|Hz]; [lia|done].
Qed.

(** ** Correction *)
(** The squashed branch is in flight, or none that is not younger is. *)
Definition correctable (sn : Z) (t : nat) u : Prop :=
  match old sn (predHist u t) with [] => True | e :: _ => ph_seqNum e = sn end.

(** What the correction of entry [e] does to the entry and to the return stack. *)
Definition retop (taken : bool) e : Z → Z :=
  if taken then (if wasReturn e && negb (usedRAS e) then λ z, (z - 1) mod n else λ z, z) else undo_tos n e.
Definition reused (taken : bool) e : bool := if taken then usedRAS e || wasReturn e else false.
Definition repushed (taken : bool) e : bool := if taken then pushedRAS e else if usedRAS e then pushedRAS e else negb (wasCall e) && pushedRAS e.

Record corrected (taken : bool) (t : nat) e (rest : list (PredictorHistory H)) u e' u' : Prop := {
  co_hist : predHist u' = <[t := e' :: rest]> (predHist u);
  co_sn : ph_seqNum e' = ph_seqNum e;
  co_pc : ph_pc e' = ph_pc e;
  co_object : bpHistory e' = bpHistory e;
  co_taken : predTaken e' = taken;
  co_index : RASIndex e' = RASIndex e;
  co_kind : wasReturn e' = wasReturn e ∧ wasCall e' = wasCall e ∧ wasIndirect e' = wasIndirect e;
  co_used : usedRAS e' = reused taken e;
  co_pushed : pushedRAS e' = repushed taken e;
  co_geom : po_geom (dirPred u') = po_geom (dirPred u);
  co_dir : dp_update t (ph_pc e) taken (bpHistory e) true (dirPred u) = Ok (dirPred u');
  co_tos : tos (bp_RAS u' t) = retop taken e (tos (bp_RAS u t));
  co_use : useIndirect u' = useIndirect u;
}.

(** The last entry of the path history is that of the branch. *)
Lemma last_entry (l : list HistoryEntry) (x : HistoryEntry) :
  StronglySorted Z.lt (ip_seqNum <$> l) → x ∈ l → Forall (λ y, ip_seqNum y ≤ ip_seqNum x) l → ∃ l', l = l' ++ [x].
Proof.
  intros Hs [l1 [l2 ->]]%list_elem_of_split Hle. destruct l2 as [|y l2]; [by exists l1|exfalso].
  rewrite fmap_app, !fmap_cons in Hs. apply StronglySorted_app in Hs as (_ & _ & Hs). apply StronglySorted_inv in Hs as [_ Hf]. apply Forall_cons in Hf as [Hlt _].
  rewrite Forall_forall in Hle. specialize (Hle y). cbn in *. assert (ip_seqNum y ≤ ip_seqNum x) by (apply Hle, elem_of_app; right; right; left). lia.
Qed.

(** Tables and paths after the tables have learned. *)
Definition learned (sn : Z) (t : nat) u u' : Prop :=
  tables_ok u' ∧ predHist u' = predHist u ∧ dirPred u' = dirPred u ∧ useIndirect u' = useIndirect u
  ∧ (∀ t', t' ≠ t → path_of u' t' = path_of u t')
  ∧ (path_of u' t = path_of u t ∨ ∃ l x z, path_of u t = l ++ [x] ∧ path_of u' t = l ++ [x <| targetAddr := z |>]).

Lemma correctTaken_ok (g : Z) (tgt : PCState) (t : nat) e u :
  tables_ok u → kind_ok e → (wasIndirect e = true → ∃ l x, path_of u t = l ++ [x]) →
  ∃ e' u', correctTaken rand g tgt t e u = Ok (e', u') ∧ learned (ph_seqNum e) t u u'
    ∧ e' = e <| usedRAS := reused true e |> ∧ tos (bp_RAS u' t) = retop true e (tos (bp_RAS u t)).
Proof.
  intros Hu [Hk1 _] Hl. unfold correctTaken, reused, retop. pose proof (to_ras _ _ Hu t) as Hr. destruct (ras_pop_ok _ _ Hr) as (Hr' & Ht & _).
  set (m := if wasReturn e && negb (usedRAS e) then _ else _).
  assert (Hm : ∃ u1, m = (e <| usedRAS := usedRAS e || wasReturn e |>, u1) ∧ tables_ok u1 ∧ predHist u1 = predHist u ∧ dirPred u1 = dirPred u ∧ useIndirect u1 = useIndirect u
     ∧ iPred u1 = iPred u ∧ tos (bp_RAS u1 t) = (if wasReturn e && negb (usedRAS e) then λ z, (z - 1) mod n else λ z, z) (tos (bp_RAS u t))).
  { unfold m. destruct (wasReturn e && negb (usedRAS e)) eqn:E.
    - apply andb_true_iff in E as [-> _]. rewrite orb_true_r. eexists. split; [reflexivity|]. split; [by apply tables_ras|]. cbn. by rewrite fn_lookup_insert.
    - exists u. split; [|done]. f_equal. destruct e as [? ? ? ? ? ? ? us ? ? wr ?]. cbn in *. f_equal. destruct us; [done|]. by destruct wr. }
  destruct Hm as (u1 & -> & Hu1 & E1 & E2 & E3 & E4 & Et). cbn. destruct (wasIndirect e).
  - destruct (Hl eq_refl) as (l & x & El). unfold path_of in El. rewrite <- E4 in El.
    destruct (recordTarget_ok rand (ph_seqNum e) g tgt t (iPred u1) x l (to_ip _ _ Hu1) El) as (i & -> & Hi & Ep & Eo & _). cbn [mbind res_bind].
    eexists _, _. split; [reflexivity|]. split; [|done]. split_and!; try done.
    + by destruct Hu1; split.
    + intros t' Hne. unfold path_of. cbn. by rewrite Eo, E4.
    + right. unfold path_of. cbn. rewrite Ep. rewrite E4 in El. by eauto.
  - destruct (btb_update_ok (ph_pc e) tgt t (bp_BTB u1) (to_btb _ _ Hu1)) as (b & -> & Hb & _). cbn [mbind res_bind]. eexists _, _. split; [reflexivity|].
    split; [|done]. unfold learned, path_of. cbn. rewrite E4. split_and!; try done; [by destruct Hu1; split|by left].
Qed.

Lemma correctNotTaken_ok (t : nat) e u :
  tables_ok u → kind_ok e → 0 ≤ RASIndex e < n →
  ∃ e' u', correctNotTaken t e u = Ok (e', u') ∧ learned (ph_seqNum e) t u u'
    ∧ e' = e <| usedRAS := reused false e |> <| pushedRAS := repushed false e |> ∧ tos (bp_RAS u' t) = retop false e (tos (bp_RAS u t)).
Proof.
  intros Hu _ Hi. pose proof (to_ras _ _ Hu t) as Hr. unfold correctNotTaken, reused, repushed, retop, undo_tos.
  assert (Hl : ∀ r, ras_ok n r → learned (ph_seqNum e) t u (on_ras t r u) ∧ tos (bp_RAS (on_ras t r u) t) = tos r).
  { intros r Hr'. split; [|cbn; by rewrite fn_lookup_insert]. split; [by apply tables_ras|]. split_and!; try done. by left. }
  destruct (usedRAS e) eqn:Eu.
  - destruct (ras_restore_ok n (RASIndex e) (RASTarget e) _ Hr Hi) as (r & -> & Hr' & Ht & _). cbn [mbind res_bind]. destruct (Hl r Hr') as [H1 H2].
    eexists _, _. split; [reflexivity|]. split; [done|]. split; [|by rewrite H2]. by destruct e.
  - destruct (wasCall e && pushedRAS e) eqn:Ec.
    + destruct (ras_pop_ok n _ Hr) as (Hr' & Ht & _). destruct (Hl _ Hr') as [H1 H2]. eexists _, _. split; [reflexivity|]. split; [done|]. split; [|by rewrite H2].
      apply andb_true_iff in Ec as [-> ->]. cbn. destruct e. cbn in *. by subst.
    + exists e, u. split; [done|]. split; [split; [done|]; split_and!; try done; by left|]. split; [|done]. destruct e as [? ? ? ? ? ? ? us pu wc wr ?]. cbn in *. subst us.
      f_equal. by destruct wc, pu.
Qed.

Lemma correct_inv (sn : Z) (tgt : PCState) (taken : bool) (t : nat) u :
  bp_inv u → correctable sn t u →
  ∃ u1 u', squashed sn t u u1 ∧ bp_inv u1 ∧ bp_correct rand sn tgt taken t u = Ok u' ∧ bp_inv u'
    ∧ (predHist u1 t = [] ∧ u' = u1 ∨ ∃ e e' rest, predHist u1 t = e :: rest ∧ corrected taken t e rest u1 e' u').
Proof.
  intros Hinv Hcor. unfold bp_correct. destruct (squash_inv sn t u Hinv) as (u1 & -> & Hinv1 & Hsq). cbn [mbind res_bind]. exists u1.
  unfold correctable in Hcor. rewrite <- (sd_hist _ _ _ _ Hsq) in Hcor. destruct (predHist u1 t) as [|e rest] eqn:Eh; [exists u1; by auto 10|].
  rewrite Hcor, Z.eqb_refl. cbn [assert mbind res_bind]. pose proof Hinv1 as [Ht Hh Ho Hp Hi].
  pose proof (Hh t) as Hht. rewrite Eh in Hht. apply Forall_cons in Hht as [(Hobj & Hidx & Hkind) Hrest].
  destruct (po_getGHR t (bpHistory e) (dirPred u1) (to_dir _ _ Ht) Hobj) as [g ->]. cbn [mbind res_bind].
  destruct (po_update t (ph_pc e) taken (bpHistory e) true (dirPred u1) (to_dir _ _ Ht) Hobj) as (p & E & Hw & Hg).
  change (bpHistory (e <| predTaken := taken |>)) with (bpHistory e). change (ph_pc (e <| predTaken := taken |>)) with (ph_pc e). rewrite E. cbn [mbind res_bind].
  set (u2 := u1 <| dirPred := p |>). set (e1 := e <| predTaken := taken |>). assert (Ht2 : tables_ok u2) by (by apply tables_dir).
  set (m := if taken then _ else _).
  assert (Hm : ∃ e' u3, m = Ok (e', u3) ∧ learned sn t u2 u3 ∧ e' = e1 <| usedRAS := reused taken e |> <| pushedRAS := repushed taken e |>
                        ∧ tos (bp_RAS u3 t) = retop taken e (tos (bp_RAS u1 t))).
  { unfold m. destruct taken.
    - destruct (correctTaken_ok g tgt t e1 u2 Ht2 Hkind) as (e' & u3 & -> & Hl & -> & Et).
      + intros Hwi. destruct (Hi t e) as (x & Hx & Es & _); [rewrite Eh; by left|done|]. destruct (last_entry (path_of u1 t) x (Hp t) Hx) as [l El]; [|by exists l, x].
        apply Forall_forall. intros y Hy. rewrite (sd_path _ _ _ _ Hsq) in Hy. apply list_elem_of_filter in Hy as [Hy _]. rewrite Es, Hcor. exact Hy.
      + eexists _, _. split; [reflexivity|]. cbn in *. rewrite Hcor in Hl. split; [done|]. split; [by destruct e|done].
    - destruct (correctNotTaken_ok t e1 u2 Ht2 Hkind Hidx) as (e' & u3 & -> & Hl & -> & Et). eexists _, _. split; [reflexivity|]. cbn in *. rewrite Hcor in Hl. done. }
  destruct Hm as (e' & u3 & -> & (Ht3 & L1 & L2 & L3 & L4 & L5) & Ee & Et). cbn [mbind res_bind]. eexists. split; [done|]. split; [done|]. split; [reflexivity|].
  assert (Hco : corrected taken t e rest u1 e' (u3 <| predHist ::= <[t := e' :: rest]> |>)).
  { subst e'. split; cbn; try done; [by rewrite L1|by rewrite L2|by rewrite L2]. }
  split; [|right; by exists e, e', rest]. destruct Hco as [C1 C2 C3 C4 C5 C6 (C7 & C7' & C7'') C8 C9 C10 C11 C12 C13]. set (u' := u3 <| predHist ::= _ |>) in *.
  assert (Hpath : path_of u' t = path_of u1 t ∨ ∃ l x z, path_of u1 t = l ++ [x] ∧ path_of u' t = l ++ [x <| targetAddr := z |>]) by exact L5.
  assert (Hpaths : ∀ t', t' ≠ t → path_of u' t' = path_of u1 t') by exact L4.
  assert (Hmem : ∀ x, x ∈ path_of u1 t → ∃ x', x' ∈ path_of u' t ∧ ip_seqNum x' = ip_seqNum x ∧ pcAddr x' = pcAddr x).
  { intros x Hx. destruct Hpath as [->|(l & y & z & El & ->)]; [by exists x|]. rewrite El in Hx. apply elem_of_app in Hx as [Hx|Hx].
    - exists x. split; [|done]. apply elem_of_app. by left.
    - apply list_elem_of_singleton in Hx as ->. exists (y <| targetAddr := z |>). split; [|done]. apply elem_of_app. right. by left. }
  split.
  - by apply tables_hist.
  - intros t'. rewrite C10, C1. destruct (decide (t' = t)) as [->|]; [rewrite fn_lookup_insert|by rewrite fn_lookup_insert_ne]. constructor; [|done].
    split; [by rewrite C4|]. split; [by rewrite C6|]. destruct Hkind as [Hk1 Hk2]. unfold kind_ok. rewrite C7, C7', C8. split; [|done]. unfold reused. destruct taken; [|done].
    destruct (usedRAS e); [auto|done].
  - intros t'. rewrite C1. destruct (decide (t' = t)) as [->|]; [rewrite fn_lookup_insert|by rewrite fn_lookup_insert_ne]. specialize (Ho t). rewrite Eh in Ho.
    rewrite fmap_cons in *. by rewrite C2.
  - intros t'. destruct (decide (t' = t)) as [->|]; [|by rewrite Hpaths]. destruct Hpath as [->|(l & y & z & El & ->)]; [done|]. specialize (Hp t). by rewrite El, fmap_app in Hp; rewrite fmap_app.
  - intros t' y. rewrite C1. destruct (decide (t' = t)) as [->|]; [rewrite fn_lookup_insert|rewrite fn_lookup_insert_ne, Hpaths by done; apply Hi].
    intros [->|Hy]%elem_of_cons Hwi.
    + rewrite C2, C3. rewrite C7'' in Hwi. destruct (Hi t e) as (x & Hx & Es & Epc); [rewrite Eh; by left|done|]. destruct (Hmem x Hx) as (x' & ? & E1 & E2). exists x'. by rewrite E1, E2.
    + destruct (Hi t y) as (x & Hx & Es & Epc); [rewrite Eh; by right|done|]. destruct (Hmem x Hx) as (x' & ? & E1 & E2). exists x'. by rewrite E1, E2.
Qed.
End steps.

(** * Prediction follows the path

    The speculative state of the prediction unit (direction histories, top of the return
    stack) as a function of the branches on the path fetch is on: whatever was predicted,
    squashed and corrected in between, it is the state that these branches alone produce. *)
From stdpp Require Import sorting.
Local Open Scope Z_scope.

(** A branch on the path, youngest first: [br_dir] is the direction the histories have for
    it, [br_eff] what it did to the top of the return stack. *)
Record Branch := MkBranch { br_sn : Z; br_cond : bool; br_pc : Z; br_dir : bool; br_eff : Z }.
#[export] Instance Branch_eta : Updatable Branch := λ r, MkBranch (br_sn r) (br_cond r) (br_pc r) (br_dir r) (br_eff r).

(** What is known of the speculative state: two events leave a part of it in a state no
    path explains (see [BPredProps.v]), the direction histories or the top of the stack. *)
Record Known := MkKnown { kn_dirs : bool; kn_stack : bool }.
Definition all_known : Known := MkKnown true true.

Section path.
Context {P H V : Type} `{!Predictor P H} `{!PredictorOk P H} `{!PredictorHist P H V}.
Context (advancePC : StaticInst → PCState → PCState) (rand : nat → Z) (n : Z) (t : nat).
Implicit Types (u : BPredUnit P H) (e : PredictorHistory H) (path : list Branch).
Abbreviation bp_inv := (bp_inv n).
Abbreviation young sn l := (filter (λ e, sn < ph_seqNum e) l).
Abbreviation old sn l := (filter (λ e, ph_seqNum e ≤ sn) l).

(** ** The state a path produces *)
Definition path_view (G : list Z) (v : V) path : V := foldr (λ b v, hv_shift G (br_cond b) (br_pc b) (br_dir b) v) v path.
Definition path_tos path : Z := foldr (λ b z, (z + br_eff b) mod n) 0 path.

(** A miss in the target buffer on an unconditional branch that is not a call. *)
Definition missed (inst : StaticInst) (b : bool) u : bool := negb b && negb (si_isCall inst) && (si_isDirectCtrl inst || negb (useIndirect u)).

(** The branch of a prediction.  A miss turns the direction into "not taken", except for
    calls and indirect branches. *)
Definition branch_of (inst : StaticInst) (sn : Z) (pc : PCState) (b : bool) u e : Branch :=
  MkBranch sn (negb (si_isUncondCtrl inst)) (instAddr pc) (predTaken e && negb (missed inst b u)) (ras_eff e).

Definition redirect (taken : bool) (e' : PredictorHistory H) path : list Branch :=
  match path with b :: path => b <| br_dir := taken |> <| br_eff := ras_eff e' |> :: path | [] => [] end.

(** Target buffer misses of unconditional branches count unless the predictor undoes them
    ([hv_jump]); so do returns corrected to "taken" that the stack did not predict. *)
Definition after_predict (inst : StaticInst) (b : bool) u (k : Known) : Known :=
  MkKnown (kn_dirs k && (hv_jump || negb (si_isUncondCtrl inst && missed inst b u))) (kn_stack k).
Definition returns_known (sn : Z) (taken : bool) u : bool :=
  negb taken || forallb (λ e, negb (bool_decide (ph_seqNum e = sn) && wasReturn e) || usedRAS e) (predHist u t).
Definition after_correct (sn : Z) (taken : bool) u (k : Known) : Known :=
  MkKnown (kn_dirs k) (kn_stack k && returns_known sn taken u).

Context (G : list Z) (v0 : V).
Abbreviation view := (path_view G v0).

(** Entries in flight correspond to the youngest branches of the path. *)
Fixpoint linked (k : Known) (es : list (PredictorHistory H)) path : Prop :=
  match es, path with
  | [], _ => True
  | e :: es, b :: path =>
      br_pc b = ph_pc e ∧ br_eff b = ras_eff e ∧ (kn_stack k = true → usedRAS e = true → RASIndex e = path_tos path)
      ∧ (kn_dirs k = true → hv_made G (br_cond b) (ph_pc e) (bpHistory e) (view path)) ∧ linked k es path
  | _ :: _, [] => False
  end.

Record on_path (k : Known) u path : Prop := {
  op_inv : bp_inv u;
  op_geom : po_geom (dirPred u) = G;
  op_linked : linked k (predHist u t) path;
  op_view : kn_dirs k = true → hv_view t (dirPred u) = view path;
  op_tos : kn_stack k = true → tos (bp_RAS u t) = path_tos path;
}.

Lemma linked_app (k : Known) (l1 l2 : list (PredictorHistory H)) path : linked k (l1 ++ l2) path → linked k l1 path ∧ linked k l2 (drop (length l1) path).
Proof.
  revert path. induction l1 as [|e l1 IH]; intros path Hl; [split; [by destruct path|]; cbn; by rewrite drop_0|]. destruct path as [|b path]; [done|].
  cbn in *. destruct Hl as (? & ? & ? & ? & Hl). by destruct (IH path Hl).
Qed.
(** Less may be known. *)
Lemma linked_less (k k' : Known) (l : list (PredictorHistory H)) path :
  (kn_dirs k' = true → kn_dirs k = true) → (kn_stack k' = true → kn_stack k = true) → linked k l path → linked k' l path.
Proof.
  intros Hd Hs. revert path. induction l as [|e l IH]; intros path; [done|]. destruct path as [|b path]; [done|]. cbn. intros (? & ? & ? & ? & ?).
  split_and!; auto.
Qed.

Lemma path_tos_range path : 0 < n → 0 ≤ path_tos path < n.
Proof. intros Hn. destruct path as [|b path]; cbn; [lia|]. by apply Z.mod_pos_bound. Qed.

(** Undoing the youngest entries leads back along the path. *)
Lemma undo_linked (k : Known) (ys : list (PredictorHistory H)) (p p' : P) (z z' : Z) path :
  0 < n → po_wf p → po_geom p = G → Forall (λ e, po_hist G (bpHistory e)) ys → linked k ys path →
  (kn_dirs k = true → hv_view t p = view path) → (kn_stack k = true → z = path_tos path) → undone n t ys p z p' z' →
  (kn_dirs k = true → hv_view t p' = view (drop (length ys) path)) ∧ (kn_stack k = true → z' = path_tos (drop (length ys) path)).
Proof.
  intros Hn. revert p z path. induction ys as [|e ys IH]; intros p z path Hw Hg Hok Hl Hv Hz Hu; cbn in Hu.
  { destruct Hu as [-> ->]. by rewrite drop_0. }
  destruct path as [|b path]; [done|]. destruct Hl as (Ep & Eeff & Hidx & Hmade & Hl). destruct Hu as (p1 & E & Hu). apply Forall_cons in Hok as [Hoke Hok].
  destruct (po_squash t (bpHistory e) p Hw) as (p1' & E' & Hw1 & Hg1); [by rewrite Hg|]. rewrite E in E'. injection E' as <-.
  cbn [length drop]. apply (IH p1 (undo_tos n e z) path); try done; [by rewrite Hg1| |].
  - intros Hk. eapply (hv_squash t (br_cond b) (br_pc b) (br_dir b) (bpHistory e) (view path) p p1); [done|rewrite Hg, Ep; auto|rewrite Hg; by apply Hv|done].
  - intros Hk. specialize (Hz Hk). specialize (Hidx Hk). unfold undo_tos. change (path_tos (b :: path)) with ((path_tos path + br_eff b) mod n) in Hz.
    rewrite Hz, Eeff. unfold ras_eff. pose proof (path_tos_range path Hn). destruct (usedRAS e); [by apply Hidx|].
    destruct (wasCall e && pushedRAS e); [rewrite Zminus_mod_idemp_l|]; rewrite Z.mod_small; lia.
Qed.

(** ** Steps *)
Lemma path_predict (k : Known) (inst : StaticInst) (sn : Z) (pc : PCState) (b : bool) (tgt : PCState) u u' path :
  on_path k u path → youngest_branch sn t u → bp_predict advancePC inst sn pc t u = Ok (b, tgt, u') →
  ∃ e, predHist u' t = e :: predHist u t ∧ ph_seqNum e = sn ∧ on_path (after_predict inst b u k) u' (branch_of inst sn pc b u e :: path).
Proof.
  intros [Hi Hg Hl Hv Hz] Hf E. destruct (predict_inv advancePC n inst sn pc t u Hi Hf) as (b1 & tgt1 & e & u1 & E1 & Hi' & Hpr). rewrite E in E1. injection E1 as <- <- <-.
  destruct Hpr as [P1 P2 P3 P4 P5 P6 (p1 & Hdir & Hbtb) P8 P9 P10 P11 P12 P13 P14 P15 P16 P17]. exists e. rewrite P1, fn_lookup_insert. split; [done|]. split; [done|].
  pose proof (to_dir _ _ (bi_tables _ _ Hi)) as Hw. destruct P4 as (Hobj & _).
  assert (H1 : po_wf p1 ∧ po_geom p1 = G ∧ (kn_dirs k = true → hv_view t p1 = hv_shift G (negb (si_isUncondCtrl inst)) (instAddr pc) (predTaken e) (view path)
               ∧ hv_made G (negb (si_isUncondCtrl inst)) (instAddr pc) (bpHistory e) (view path))).
  { rewrite <- Hg. destruct (si_isUncondCtrl inst).
    - destruct Hdir as [Hdir ->]. destruct (po_uncondBranch t (instAddr pc) (dirPred u) Hw) as (h2 & p2 & E2 & Hw2 & Hg2 & _). rewrite Hdir in E2. injection E2 as <- <-.
      split; [done|]. split; [done|]. intros Hk. rewrite Hg, <- (Hv Hk), <- Hg. by apply hv_uncondBranch.
    - destruct (po_lookup t (instAddr pc) (dirPred u) Hw) as (b2 & h2 & p2 & E2 & Hw2 & Hg2 & _). rewrite Hdir in E2. injection E2 as <- <- <-.
      split; [done|]. split; [done|]. intros Hk. rewrite Hg, <- (Hv Hk), <- Hg. by apply hv_lookup. }
  destruct H1 as (Hw1 & Hg1 & H1). split; [done|by rewrite P5| | |].
  - rewrite P1, fn_lookup_insert. cbn. rewrite P3. split; [done|]. split; [done|]. split; [intros Hk; by rewrite <- Hz|].
    split; [intros [Hk _]%andb_true_iff; by apply H1|]. apply (linked_less k); cbn; [by intros [? _]%andb_true_iff|done|done].
  - cbn. intros [Hk Hj]%andb_true_iff. destruct (H1 Hk) as [Hv1 Hm1]. unfold missed in *. rewrite <- !andb_assoc in Hbtb, Hj |- *.
    destruct (predTaken e) eqn:Et; cbn [andb] in *; [|by rewrite Hbtb]. destruct (negb b && _) eqn:Em; cbn [negb] in *; [|by rewrite Hbtb].
    pose proof (hv_btbUpdate t (negb (si_isUncondCtrl inst)) (instAddr pc) (bpHistory e) (view path) p1 (dirPred u') Hw1) as Hb. rewrite Hg1 in Hb.
    apply Hb; try done. destruct (si_isUncondCtrl inst); [|done]. cbn in *. by rewrite orb_false_r in Hj.
  - cbn. intros Hk. by rewrite P9, Hz.
Qed.

Lemma squashed_on_path (k : Known) (sn : Z) u u' path :
  on_path k u path → bp_inv u' → squashed n sn t u u' → on_path k u' (drop (length (young sn (predHist u t))) path).
Proof.
  intros [Hi Hg Hl Hv Hz] Hi' [Hk Eh _ Hund]. pose proof (bi_tables _ _ Hi) as Ht. pose proof (ro_range _ _ (to_ras _ _ Ht t)) as Hn.
  rewrite (split_desc sn _ (bi_order _ _ Hi t)) in Hl. apply linked_app in Hl as [Hl1 Hl2].
  assert (Hok : Forall (λ e, po_hist G (bpHistory e)) (young sn (predHist u t))).
  { apply Forall_forall. intros e [_ He]%list_elem_of_filter. pose proof (bi_hist _ _ Hi t) as Hh. rewrite Forall_forall in Hh. rewrite <- Hg. by apply Hh. }
  destruct (undo_linked k _ _ _ _ _ path ltac:(lia) (to_dir _ _ Ht) Hg Hok Hl1 Hv Hz Hund) as [Hv' Hz'].
  split; try done; [by rewrite (kp_geom _ _ _ Hk)|by rewrite Eh].
Qed.

Lemma path_squash (k : Known) (sn : Z) u u' path : on_path k u path → bp_squash sn t u = Ok u' → on_path k u' (drop (length (young sn (predHist u t))) path).
Proof.
  intros Hop E. destruct (squash_inv n sn t u (op_inv _ _ _ Hop)) as (u1 & E1 & Hi' & Hsq). rewrite E in E1. injection E1 as <-. by apply squashed_on_path.
Qed.

Lemma trained_view (l : list (PredictorHistory H)) (p p' : P) :
  po_wf p → Forall (λ e, po_hist (po_geom p) (bpHistory e)) l → trained t l p p' → hv_view t p' = hv_view t p.
Proof.
  revert p. induction l as [|e l IH]; intros p Hw Hok Htr; cbn in Htr; [by subst|]. destruct Htr as (p1 & E & Htr). apply Forall_cons in Hok as [Hoke Hok].
  destruct (po_update t (ph_pc e) (predTaken e) (bpHistory e) false p Hw Hoke) as (p2 & E2 & Hw2 & Hg2). rewrite E in E2. injection E2 as <-.
  rewrite (IH p1 Hw2); [|by rewrite Hg2|done]. by eapply hv_commit.
Qed.

Lemma path_commit (k : Known) (sn : Z) u u' path :
  on_path k u path → bp_commit sn t u = Ok u' → on_path k u' path ∧ predHist u' t = young sn (predHist u t).
Proof.
  intros [Hi Hg Hl Hv Hz] E. destruct (commit_inv n sn t u Hi) as (u1 & E1 & Hi' & [C1 C2 C3 C4 C5 C6]). rewrite E in E1. injection E1 as <-.
  rewrite C5, fn_lookup_insert. split; [|done]. split; try done.
  - by rewrite C4.
  - rewrite C5, fn_lookup_insert. rewrite (split_desc sn _ (bi_order _ _ Hi t)) in Hl. by apply linked_app in Hl as [? _].
  - intros Hk. rewrite <- (Hv Hk). eapply trained_view; [apply (to_dir _ _ (bi_tables _ _ Hi))| |exact C6]. apply Forall_reverse, Forall_forall. intros e [_ He]%list_elem_of_filter.
    pose proof (bi_hist _ _ Hi t) as Hh. rewrite Forall_forall in Hh. by apply Hh.
  - by rewrite C2.
Qed.

(** The path after a correction: the corrected branch is the youngest one, if any is left. *)
Definition corrected_path (taken : bool) u' path : list Branch := match predHist u' t with e' :: _ => redirect taken e' path | [] => path end.

Lemma path_correct (k : Known) (sn : Z) (tgt : PCState) (taken : bool) u u' path :
  on_path k u path → correctable sn t u → bp_correct rand sn tgt taken t u = Ok u' →
  on_path (after_correct sn taken u k) u' (corrected_path taken u' (drop (length (young sn (predHist u t))) path))
  ∧ ((old sn (predHist u t) = [] ∧ predHist u' t = [])
     ∨ ∃ e e' es, old sn (predHist u t) = e :: es ∧ predHist u' t = e' :: es ∧ ph_seqNum e = sn ∧ ph_seqNum e' = sn).
Proof.
  intros Hop Hcor E. set (rest := drop _ path). pose proof (op_inv _ _ _ Hop) as Hi. destruct (correct_inv rand n sn tgt taken t u Hi Hcor) as (u1 & u2 & Hsq & Hi1 & E2 & Hi2 & Hcase).
  rewrite E in E2. injection E2 as <-.
  assert (Hop1 : on_path k u1 rest) by (by apply squashed_on_path). unfold corrected_path.
  rewrite <- (sd_hist _ _ _ _ _ Hsq). destruct Hcase as [[Eh ->]|(e & e' & es & Eh & Hco)].
  { rewrite Eh. split; [|by left]. destruct Hop1 as [? ? Hl ? Hz]. split; try done; [rewrite Eh; by destruct rest|]. cbn. intros [? _]%andb_true_iff. auto. }
  destruct Hop1 as [_ Hg Hl Hv Hz]. rewrite Eh in Hl. clearbody rest. destruct rest as [|b rest']; [done|]. destruct Hl as (Ep & Eeff & Hidx & Hmade & Hl).
  destruct Hco as [C1 C2 C3 C4 C5 C6 (C7 & C7' & C7'') C8 C9 C10 C11 C12 C13]. rewrite C1, fn_lookup_insert.
  assert (He : e ∈ predHist u t ∧ ph_seqNum e = sn).
  { unfold correctable in Hcor. rewrite <- (sd_hist _ _ _ _ _ Hsq), Eh in Hcor. split; [|done]. assert (He : e ∈ predHist u1 t) by (rewrite Eh; by left).
    rewrite (sd_hist _ _ _ _ _ Hsq) in He. by apply list_elem_of_filter in He as [_ ?]. }
  split; [|right; exists e, e', es; split_and!; [done|done|apply He|rewrite C2; apply He]].
  pose proof (ro_range _ _ (to_ras _ _ (bi_tables _ _ Hi) t)) as Hn. pose proof (path_tos_range rest' ltac:(lia)) as Htos.
  pose proof (bi_hist _ _ Hi1 t) as Hok. rewrite Eh in Hok. apply Forall_cons in Hok as [(_ & _ & Hk1 & Hk2) _].
  change (path_tos (b :: rest')) with ((path_tos rest' + br_eff b) mod n) in Hz.
  assert (Hret : returns_known sn taken u = true → taken = true → wasReturn e = true → usedRAS e = true).
  { unfold returns_known. intros Hr -> Hwr. cbn in Hr. rewrite forallb_forall in Hr. specialize (Hr e ltac:(apply list_elem_of_In, He)).
    rewrite bool_decide_true, Hwr in Hr by apply He. done. }
  split; [done|by rewrite C10|rewrite C1, fn_lookup_insert| |].
  - cbn. rewrite C3, C4. split; [done|]. split; [done|]. split; [|split; [done|]].
    + intros [Hk Hr]%andb_true_iff Hu. rewrite C6. apply (Hidx Hk). rewrite C8 in Hu. unfold reused in Hu.
      destruct taken; [|done]. apply orb_true_iff in Hu as [?|Hwr]; [done|]. by apply Hret.
    + apply (linked_less k); cbn; [done|by intros [? _]%andb_true_iff|done].
  - cbn. intros Hk. pose proof (hv_correct t (br_cond b) (br_pc b) (br_dir b) taken (bpHistory e) (view rest') (dirPred u1) (dirPred u') (to_dir _ _ (bi_tables _ _ Hi1))) as Hc.
    rewrite Hg, Ep in Hc. rewrite Ep. apply Hc; try done; [by apply Hmade|]. specialize (Hv Hk). cbn in Hv. by rewrite Hv, Ep.
  - cbn. intros [Hk Hr]%andb_true_iff. specialize (Hret Hr). specialize (Hidx Hk). rewrite C12, (Hz Hk), Eeff. unfold retop, ras_eff. rewrite C8, C9, C7'. unfold reused, repushed, undo_tos. destruct taken.
    + destruct (wasReturn e) eqn:Er; [|by rewrite orb_false_r]. by rewrite (Hret eq_refl eq_refl).
    + destruct (usedRAS e) eqn:Eu.
      * rewrite (Hk2 (Hk1 eq_refl)). cbn. rewrite Hidx, Z.add_0_r, Z.mod_small; done.
      * destruct (wasCall e), (pushedRAS e); cbn [andb negb]; try done. rewrite Zminus_mod_idemp_l. f_equal. unfold path_tos. lia.
Qed.
End path.
