(* ===== verification/BPredProps.v ===== *)
(** * Properties of branch prediction

    Runs of the prediction unit with any direction predictor that keeps the contract of
    [BPred.v], and the behaviour of its tables. *)

From S2P Require Import Prelude Regs DynInst IntMath Targets BPred LocalBP TournamentBP BPredInv BPredSteps.
From stdpp Require Import sorting.
Local Open Scope Z_scope.

(** Parameters of a machine that can be built. *)
Record par_ok (par : BPParams) : Prop := {
  pa_threads : 0 < par_numThreads par < 2 ^ 32;
  pa_btb : 0 < par_BTBEntries par < 2 ^ 32;
  pa_btb_pow : isPowerOf2 (par_BTBEntries par) = true;
  pa_ras : 0 < par_RASSize par < 2 ^ 32;
  pa_sets : 0 < par_indirectSets par < 2 ^ 32;
  pa_sets_pow : isPowerOf2 (par_indirectSets par) = true;
  pa_ways : 0 < par_indirectWays par;
  pa_path : 0 < par_indirectPathLength par < 2 ^ 32;
}.

(** ** Every operation returns *)
Inductive BOp :=
| BPredict (inst : StaticInst) (sn : Z) (pc : PCState) (t : nat)
| BCommit (sn : Z) (t : nat)
| BSquash (sn : Z) (t : nat)
| BCorrect (sn : Z) (target : PCState) (taken : bool) (t : nat).

Section runs.
Context {P H : Type} `{!Predictor P H} `{!PredictorOk P H}.
Context (advancePC : StaticInst → PCState → PCState) (rand : nat → Z) (par : BPParams) (p0 : P).
Implicit Types (u : BPredUnit P H) (path : list Branch).
Abbreviation n := (par_RASSize par).

Definition do_bop (o : BOp) u : res (BPredUnit P H) :=
  match o with
  | BPredict inst sn pc t => '(_, _, u) ← bp_predict advancePC inst sn pc t u; Ok u
  | BCommit sn t => bp_commit sn t u
  | BSquash sn t => bp_squash sn t u
  | BCorrect sn target taken t => bp_correct rand sn target taken t u
  end.

(** Sequence numbers grow; a corrected branch is in flight, if any branch up to it is. *)
Definition ballowed (o : BOp) u : Prop :=
  match o with
  | BPredict inst sn pc t => youngest_branch sn t u
  | BCommit sn t | BSquash sn t => True
  | BCorrect sn target taken t => correctable sn t u
  end.

Inductive bp_reach : BPredUnit P H → Prop :=
| reach_new u : BPredUnit_new par p0 = Ok u → bp_reach u
| reach_op o u u' : bp_reach u → ballowed o u → do_bop o u = Ok u' → bp_reach u'.

Lemma new_inv : par_ok par → po_wf p0 →
  ∃ u, BPredUnit_new par p0 = Ok u ∧ bp_inv n u ∧ dirPred u = p0 ∧ ∀ t, predHist u t = [] ∧ tos (bp_RAS u t) = 0.
Proof.
  intros [H1 H2 H3 H4 H5 H6 H7 H8] Hp. unfold BPredUnit_new.
  destruct (btb_new_ok _ (par_BTBTagSize par) (par_instShiftAmt par) _ H2 H1 H3) as (b & -> & Hb). cbn [mbind res_bind].
  destruct (ip_new_ok (par_indirectHashGHR par) (par_indirectHashTargets par) _ _ (par_indirectTagSize par) _ (par_instShiftAmt par) H5 H7 H8 H6) as (i & -> & Hi & Hpath).
  cbn [mbind res_bind]. eexists. split; [reflexivity|]. split; [|done]. split; cbn; try done; try (intros; constructor).
  - done.
  - done.
  - done.
  - intros t. by apply ras_init_ok.
  - intros t. unfold path_of. cbn. rewrite Hpath. constructor.
  - intros t e He. by apply elem_of_nil in He.
Qed.

Lemma bop_inv (o : BOp) u : bp_inv n u → ballowed o u → ∃ u', do_bop o u = Ok u' ∧ bp_inv n u'.
Proof.
  intros Hi Ha. destruct o as [inst sn pc t|sn t|sn t|sn target taken t]; cbn [do_bop ballowed] in *.
  - destruct (predict_inv advancePC n inst sn pc t u Hi Ha) as (b & tgt & e & u' & -> & Hi' & _). by exists u'.
  - destruct (commit_inv n sn t u Hi) as (u' & -> & Hi' & _). by exists u'.
  - destruct (squash_inv n sn t u Hi) as (u' & -> & Hi' & _). by exists u'.
  - destruct (correct_inv rand n sn target taken t u Hi Ha) as (u1 & u' & _ & _ & -> & Hi' & _). by exists u'.
Qed.

Lemma reach_inv u : par_ok par → po_wf p0 → bp_reach u → bp_inv n u.
Proof.
  intros Hpar Hp. induction 1 as [u E|o u u' _ IH Ha E].
  - destruct (new_inv Hpar Hp) as (u' & E' & Hi & _). rewrite E in E'. by injection E' as ->.
  - destruct (bop_inv o u IH Ha) as (u2 & E2 & Hi). rewrite E in E2. by injection E2 as ->.
Qed.

(** C36: In every reachable state of the prediction unit, with any direction predictor that
    keeps its contract and any interleaving of the threads, every operation returns (no
    assertion fails, no table is indexed out of range, nothing is divided by zero) and the
    state stays well typed: tables have their sizes and counters their ranges, the stack
    index is below its size, branches in flight are in order, and each indirect one has
    its entry in the path history. *)
Theorem bpred_operations_total u (o : BOp) :
  par_ok par → po_wf p0 → bp_reach u → ballowed o u → ∃ u', do_bop o u = Ok u' ∧ bp_inv n u'.
Proof. intros Hpar Hp Hu Ha. apply bop_inv; [|done]. by apply reach_inv. Qed.

(** ** The path of a thread *)
Section thread.
Context {V : Type} `{!PredictorHist P H V} (t : nat).

(** Runs of one thread, with the branches on its path and what is known of the state: every
    operation may happen; the two events that leave the histories or the stack in a state
    of no path are recorded ([after_predict], [after_correct]). *)
Inductive bp_run : Known → BPredUnit P H → list Branch → Prop :=
| run_new u : BPredUnit_new par p0 = Ok u → bp_run all_known u []
| run_predict k u path inst sn pc b target u' e es :
    bp_run k u path → youngest_branch sn t u → bp_predict advancePC inst sn pc t u = Ok (b, target, u') → predHist u' t = e :: es →
    bp_run (after_predict inst b u k) u' (branch_of inst sn pc b u e :: path)
| run_commit k u path sn u' : bp_run k u path → bp_commit sn t u = Ok u' → bp_run k u' path
| run_squash k u path sn u' :
    bp_run k u path → bp_squash sn t u = Ok u' →
    bp_run k u' (drop (length (filter (λ e, sn < ph_seqNum e) (predHist u t))) path)
| run_correct k u path sn target taken u' :
    bp_run k u path → correctable sn t u → bp_correct rand sn target taken t u = Ok u' →
    bp_run (after_correct t sn taken u k) u'
      (corrected_path t taken u' (drop (length (filter (λ e, sn < ph_seqNum e) (predHist u t))) path)).

Abbreviation following := (on_path n t (po_geom p0) (hv_view t p0)).

Lemma run_on_path k u path : par_ok par → po_wf p0 → bp_run k u path → following k u path.
Proof.
  intros Hpar Hp. induction 1 as [u E|k u path inst sn pc b target u' e es _ IH Hy E Eh|k u path sn u' _ IH E|k u path sn u' _ IH E|k u path sn target taken u' _ IH Hc E].
  - destruct (new_inv Hpar Hp) as (u' & E' & Hi & Ed & Hz). rewrite E in E'. injection E' as ->. destruct (Hz t) as [Hh Ht]. split; cbn; try done; [by rewrite Ed|by rewrite Hh|by rewrite Ed].
  - destruct (path_predict advancePC n t _ _ k inst sn pc b target u u' path IH Hy E) as (e' & Eh' & _ & Hop). rewrite Eh in Eh'. by injection Eh' as -> _.
  - by apply (path_commit n t _ _ k sn u u' path).
  - by apply (path_squash n t _ _ k sn u u' path).
  - by apply (path_correct rand n t _ _ k sn target taken u u' path).
Qed.

(** C37: The speculative state is that of the path.  In every run of a thread, whatever was
    predicted, squashed and corrected: the direction histories are what the branches on the
    current path produce from the initial ones, each with its last known direction, unless
    an unconditional jump missed in the target buffer under a predictor that does not undo
    this (the tournament predictor); and the top of the return stack is moved by exactly
    the calls and returns on that path, unless a return was corrected to "taken" that the
    stack had not predicted.  The direction histories are those of a predictor that
    restores them on a squash ([PredictorHist]: local, bi-mode, tournament; not L-TAGE);
    with the trivial view [stack_only] the statement about the stack is for any predictor. *)
Theorem prediction_follows_path k u path :
  par_ok par → po_wf p0 → bp_run k u path →
  (kn_dirs k = true → hv_view t (dirPred u) = path_view (po_geom p0) (hv_view t p0) path)
  ∧ (kn_stack k = true → tos (bp_RAS u t) = path_tos n path).
Proof. intros Hpar Hp Hrun. destruct (run_on_path k u path Hpar Hp Hrun) as [_ _ _ Hv Hz]. done. Qed.

(** An excursion on a wrong path: operations on branches younger than [sn], and commits up
    to it.  [k] is what is known at its start and end. *)
Inductive excursion (sn : Z) (k0 : Known) (u0 : BPredUnit P H) : Known → BPredUnit P H → Prop :=
| ex_start : excursion sn k0 u0 k0 u0
| ex_predict k u inst sn' pc b target u' :
    excursion sn k0 u0 k u → sn < sn' → youngest_branch sn' t u → bp_predict advancePC inst sn' pc t u = Ok (b, target, u') →
    excursion sn k0 u0 (after_predict inst b u k) u'
| ex_commit k u sn' u' : excursion sn k0 u0 k u → sn' ≤ sn → bp_commit sn' t u = Ok u' → excursion sn k0 u0 k u'
| ex_squash k u sn' u' : excursion sn k0 u0 k u → sn ≤ sn' → bp_squash sn' t u = Ok u' → excursion sn k0 u0 k u'
| ex_correct k u sn' target taken u' :
    excursion sn k0 u0 k u → sn < sn' → correctable sn' t u → bp_correct rand sn' target taken t u = Ok u' →
    excursion sn k0 u0 (after_correct t sn' taken u k) u'.

Abbreviation young sn l := (filter (λ e, sn < ph_seqNum e) l).
Abbreviation old sn l := (filter (λ e, ph_seqNum e ≤ sn) l).

Lemma young_old_length (sn : Z) (l : list (PredictorHistory H)) : (length (young sn l) + length (old sn l))%nat = length l.
Proof.
  induction l as [|e l IH]; [done|]. rewrite !filter_cons. destruct (decide (sn < ph_seqNum e)); [rewrite decide_False by lia|rewrite decide_True by lia]; cbn; lia.
Qed.

(** During an excursion the old branches stay behind, and the path grows on top. *)
Record away (sn : Z) (k : Known) u path0 (ys os : list (PredictorHistory H)) (yb : list Branch) : Prop := {
  aw_hist : predHist u t = ys ++ os;
  aw_len : length ys = length yb;
  aw_young : Forall (λ e, sn < ph_seqNum e) ys;
  aw_old : Forall (λ e, ph_seqNum e ≤ sn) os;
  aw_path : following k u (yb ++ path0);
}.

Lemma away_split (sn sn' : Z) (k : Known) u path0 ys os yb :
  away sn k u path0 ys os yb → sn ≤ sn' →
  young sn' (predHist u t) = young sn' ys ∧ old sn' (predHist u t) = old sn' ys ++ os
  ∧ drop (length (young sn' (predHist u t))) (yb ++ path0) = drop (length (young sn' ys)) yb ++ path0
  ∧ length (old sn' ys) = length (drop (length (young sn' ys)) yb).
Proof.
  intros [Hh Hl Hy Ho _] Hle. assert (E1 : young sn' (predHist u t) = young sn' ys).
  { rewrite Hh, filter_app, (filter_void _ os), app_nil_r; [done|]. eapply Forall_impl; [exact Ho|]. cbn. lia. }
  pose proof (young_old_length sn' ys) as Hlen. split_and!.
  - done.
  - rewrite Hh, filter_app, (filter_keep _ os); [done|]. eapply Forall_impl; [exact Ho|]. cbn. lia.
  - rewrite E1. apply drop_app_le. lia.
  - rewrite length_drop. lia.
Qed.

Lemma excursion_away (sn : Z) (k0 k : Known) u0 u path0 :
  following k0 u0 path0 → Forall (λ e, ph_seqNum e ≤ sn) (predHist u0 t) → excursion sn k0 u0 k u → ∃ ys os yb, away sn k u path0 ys os yb.
Proof.
  intros H0 Hold. induction 1 as [|k u inst sn' pc b target u' Hex IH Hlt Hy E|k u sn' u' Hex IH Hle E|k u sn' u' Hex IH Hle E|k u sn' target taken u' Hex IH Hlt Hc E].
  - exists [], (predHist u0 t), []. by split.
  - destruct IH as (ys & os & yb & [A1 A2 A3 A4 A5]). destruct (path_predict advancePC n t _ _ k inst sn' pc b target u u' _ A5 Hy E) as (e & Eh & Es & Hop).
    exists (e :: ys), os, (branch_of inst sn' pc b u e :: yb). split; [by rewrite Eh, A1|cbn; lia|constructor; [lia|done]|done|done].
  - destruct IH as (ys & os & yb & [A1 A2 A3 A4 A5]). destruct (path_commit n t _ _ k sn' u u' _ A5 E) as [Hop Eh]. exists ys, (young sn' os), yb.
    split; try done.
    + rewrite Eh, A1, filter_app, (filter_keep _ ys); [done|]. eapply Forall_impl; [exact A3|]. cbn. lia.
    + apply Forall_forall. intros y [_ Hy]%list_elem_of_filter. rewrite Forall_forall in A4. by apply A4.
  - destruct IH as (ys & os & yb & Haw). pose proof (path_squash n t _ _ k sn' u u' _ (aw_path _ _ _ _ _ _ _ Haw) E) as Hop.
    destruct (away_split sn sn' k u path0 ys os yb Haw Hle) as (E1 & E2 & E3 & E4). rewrite E3 in Hop. exists (old sn' ys), os, (drop (length (young sn' ys)) yb). destruct Haw as [A1 A2 A3 A4 A5].
    split; try done.
    + destruct (squash_inv n sn' t u (op_inv _ _ _ _ _ _ _ A5)) as (u1 & Eq & _ & Hsq). rewrite E in Eq. injection Eq as <-. by rewrite (sd_hist _ _ _ _ _ Hsq), E2.
    + apply Forall_forall. intros y [_ Hy]%list_elem_of_filter. rewrite Forall_forall in A3. by apply A3.
  - destruct IH as (ys & os & yb & Haw). destruct (away_split sn sn' k u path0 ys os yb Haw ltac:(lia)) as (E1 & E2 & E3 & E4).
    destruct (path_correct rand n t _ _ k sn' target taken u u' _ (aw_path _ _ _ _ _ _ _ Haw) Hc E) as (Hop & Hcase). rewrite E3 in Hop. rewrite E2 in Hcase.
    destruct Haw as [A1 A2 A3 A4 A5]. unfold corrected_path in Hop. destruct Hcase as [(Hnil & Eu)|(e & e' & es & Eo & Eh & Es & Es')].
    { apply app_eq_nil in Hnil as [Hys ->]. rewrite Eu in Hop. exists [], [], (drop (length (young sn' ys)) yb). rewrite Hys in E4. by split. }
    rewrite Eh in Hop. destruct (old sn' ys) as [|e1 rest] eqn:Eold.
    { exfalso. cbn in Eo. rewrite Eo in A4. apply Forall_cons in A4 as [A4 _]. cbn in A4. lia. }
    injection Eo as -> <-. destruct (drop _ yb) as [|b0 yb']; [done|]. cbn [app redirect] in Hop.
    exists (e' :: rest), os, (b0 <| br_dir := taken |> <| br_eff := ras_eff e' |> :: yb'). split; [by rewrite Eh|by injection E4 as E4; cbn; f_equal| |done|exact Hop]. constructor; [lia|].
    apply Forall_forall. intros y Hy. assert (Hin : y ∈ old sn' ys) by (rewrite Eold; by right). apply list_elem_of_filter in Hin as [_ Hin]. rewrite Forall_forall in A3. by apply A3.
Qed.

Lemma less_known_predict (inst : StaticInst) (b : bool) u (k : Known) :
  (kn_dirs (after_predict inst b u k) = true → kn_dirs k = true) ∧ (kn_stack (after_predict inst b u k) = true → kn_stack k = true).
Proof. split; cbn; [by intros [? _]%andb_true_iff|done]. Qed.
Lemma less_known_correct (sn : Z) (taken : bool) u (k : Known) :
  (kn_dirs (after_correct t sn taken u k) = true → kn_dirs k = true) ∧ (kn_stack (after_correct t sn taken u k) = true → kn_stack k = true).
Proof. split; cbn; [done|by intros [? _]%andb_true_iff]. Qed.
(** What is known at the end was known at the start. *)
Lemma excursion_known (sn : Z) (k0 k : Known) u0 u :
  excursion sn k0 u0 k u → (kn_dirs k = true → kn_dirs k0 = true) ∧ (kn_stack k = true → kn_stack k0 = true).
Proof.
  induction 1 as [|k u inst sn' pc b target u' _ [IH1 IH2]|k u sn' u' _ [IH1 IH2]|k u sn' u' _ [IH1 IH2]|k u sn' target taken u' _ [IH1 IH2]]; [done| |done|done|].
  - destruct (less_known_predict inst b u k). auto.
  - destruct (less_known_correct sn' taken u k). auto.
Qed.

(** C38: A squash restores what the wrong path changed: after any predictions, squashes and
    corrections of branches younger than [sn], with commits of older ones in between,
    squashing back to [sn] returns, and the direction histories and the top of the return
    stack are what they were before.  For the histories this takes that since the start no
    unconditional jump missed in the target buffer under a predictor that does not undo it,
    for the stack that no return was corrected to "taken" that the stack had not predicted
    ([k]).  The predictors are those of [PredictorHist], as for C37. *)
Theorem squash_restores_prediction k0 u0 path0 (sn : Z) k u :
  par_ok par → po_wf p0 → bp_run k0 u0 path0 → Forall (λ e, ph_seqNum e ≤ sn) (predHist u0 t) → excursion sn k0 u0 k u →
  ∃ u', bp_squash sn t u = Ok u'
    ∧ (kn_dirs k = true → hv_view t (dirPred u') = hv_view t (dirPred u0))
    ∧ (kn_stack k = true → tos (bp_RAS u' t) = tos (bp_RAS u0 t)).
Proof.
  intros Hpar Hp Hrun Hold Hex. pose proof (run_on_path k0 u0 path0 Hpar Hp Hrun) as H0. destruct (excursion_away sn k0 k u0 u path0 H0 Hold Hex) as (ys & os & yb & Haw).
  destruct (away_split sn sn k u path0 ys os yb Haw ltac:(lia)) as (E1 & E2 & E3 & E4). destruct (squash_inv n sn t u (op_inv _ _ _ _ _ _ _ (aw_path _ _ _ _ _ _ _ Haw))) as (u' & E & _ & _).
  exists u'. split; [done|]. pose proof (path_squash n t _ _ k sn u u' _ (aw_path _ _ _ _ _ _ _ Haw) E) as Hop. rewrite E3 in Hop.
  rewrite (filter_keep _ ys (aw_young _ _ _ _ _ _ _ Haw)), (aw_len _ _ _ _ _ _ _ Haw), drop_all in Hop. destruct Hop as [_ _ _ Hv Hz], H0 as [_ _ _ Hv0 Hz0].
  destruct (excursion_known sn k0 k u0 u Hex) as [Kd Ks]. cbn [app] in Hv, Hz. split; intros Hk; [rewrite (Hv Hk), (Hv0 (Kd Hk))|rewrite (Hz Hk), (Hz0 (Ks Hk))]; done.
Qed.
End thread.
End runs.

(** ** The tables *)
(** Undoing speculative calls and returns, youngest first, as a squash does, restores
    the return address stack: the index always, and of the entries all but those that a
    growth beyond the capacity has overwritten. *)
Theorem ras_squash_restores (n : Z) (l : list RasAct) (r : ReturnAddrStack) :
  ras_ok n r → ∃ r', ras_excursion l r = Ok r' ∧ tos r' = tos r ∧ ∀ k, 0 ≤ k < n - growth l → ras_slot r' k = ras_slot r k.
Proof. intros Hr. destruct (ras_excursion_ok n l r Hr) as (r' & E & _ & Ht & Hs). by exists r'. Qed.

(** After an update the branch target buffer has the new target for the branch, and for
    every branch that shares slot and tag with it on the same thread; another branch in the
    slot misses; all other branches find what they found before. *)
Theorem btb_update_lookup (a : Z) (target : PCState) (t : nat) (b : DefaultBTB) :
  btb_ok b → ∃ b', btb_update a target t b = Ok b'
    ∧ ∀ a' t', if same_slot b a t a' t' then
                 btb_valid a' t' b' = Ok (same_key b a t a' t') ∧ (same_key b a t a' t' = true → btb_lookup a' t' b' = Ok target)
               else btb_valid a' t' b' = btb_valid a' t' b ∧ btb_lookup a' t' b' = btb_lookup a' t' b.
Proof. intros Hb. destruct (btb_update_lookup_all a target t b Hb) as (b' & E & _ & Hall). by exists b'. Qed.

(** The indirect predictor learns a target: when the same branch is looked up with the
    same direction history, on a thread with the same path before it, it finds the target
    that the correction recorded. *)
Theorem indirect_target_learned (rand : nat → Z) (sn ghr : Z) (target : PCState) (t : nat) (i : IndirectPredictor) (l : list HistoryEntry) (e : HistoryEntry) :
  ip_ok i → pathHist (threadInfo i t) = l ++ [e] →
  ∃ i', recordTarget rand sn ghr target t i = Ok i'
    ∧ pathHist (threadInfo i' t) = l ++ [e <| targetAddr := instAddr target |>]
    ∧ ip_lookup (pcAddr e) ghr t (i' <| threadInfo ::= <[t := threadInfo i' t <| pathHist := l |>]> |>) = Ok (Some target).
Proof. intros Hi El. destruct (recordTarget_ok rand sn ghr target t i e l Hi El) as (i' & E & _ & Ep & _ & Hl). by exists i'. Qed.

(** The local predictor learns: once a branch has committed with one outcome as many
    times as half the range of a counter, whatever the counter was before, this outcome is
    predicted. *)
Theorem local_predictor_learns (t : nat) (a : Z) (b : bool) (p : LocalBP) (k : nat) :
  lb_wf p → 2 ^ (localCtrBits p - 1) ≤ Z.of_nat k → ∃ p', lb_train k t a b p = Ok p' ∧ lb_lookup t a p' = Ok (b, None, p').
Proof.
  intros H Hk. destruct (table_get _ _ _ _ (lw_ctrs p H) (lb_index_range a p H)) as (c & Hc & Hok).
  destruct (lb_train_ok k t a b p c H Hc) as (p' & -> & H' & Ei & Eb & Hv). exists p'. split; [done|]. unfold lb_lookup. rewrite Hv. cbn [mbind res_bind].
  destruct (toward_iter _ (lw_bits p H) b k c Hok) as [Hok' Ec]. unfold sat_read. rewrite (lb_prediction p' _ H'); [|by rewrite Eb]. rewrite Ec, Eb.
  pose proof (lw_bits p H) as Hb. destruct Hok as (_ & Em & Hr). rewrite Em in Hr.
  assert (Hhalf : 2 ^ localCtrBits p = 2 * 2 ^ (localCtrBits p - 1)) by (rewrite <- Z.pow_succ_r by lia; f_equal; lia).
  pose proof (Z.pow_pos_nonneg 2 (localCtrBits p - 1) ltac:(lia) ltac:(lia)) as Hpos.
  destruct b; [rewrite (proj2 (Z.leb_le _ _)) by lia|rewrite (proj2 (Z.leb_gt _ _)) by lia]; done.
Qed.

(** ** Where prediction goes wrong *)
Section flaws.
Context {P H : Type} `{!Predictor P H} `{!PredictorOk P H}.
Context (advancePC : StaticInst → PCState → PCState) (rand : nat → Z) (n : Z) (t : nat).
Implicit Types (u : BPredUnit P H).

(** A return that was predicted not taken and is then corrected to "taken" pops the
    return stack without having recorded its top; if an older branch is squashed later, the
    stack is "restored" to index 0, wherever its top was. *)
Theorem corrected_return_loses_stack u u1 (inst : StaticInst) (sn sn0 : Z) (pc target1 target2 : PCState) :
  bp_inv n u → youngest_branch sn t u → Forall (λ e, ph_seqNum e ≤ sn0) (predHist u t) → sn0 < sn → si_isReturn inst = true →
  bp_predict advancePC inst sn pc t u = Ok (false, target1, u1) →
  ∃ u2 u3, bp_correct rand sn target2 true t u1 = Ok u2 ∧ bp_squash sn0 t u2 = Ok u3 ∧ tos (bp_RAS u3 t) = 0.
Proof.
  intros Hi Hy Hold Hlt Hret E. destruct (predict_inv advancePC n inst sn pc t u Hi Hy) as (b & tgt & e & u' & E' & Hi1 & Hpr). rewrite E in E'. injection E' as <- <- <-.
  destruct Hpr as [P1 P2 P3 _ _ _ _ _ _ _ _ _ _ _ P15 _ P17]. destruct (P17 eq_refl) as [Hun Hidx].
  assert (Eh : predHist u1 t = e :: predHist u t) by (by rewrite P1, fn_lookup_insert).
  assert (Hc : correctable sn t u1) by (unfold correctable; rewrite Eh, filter_cons_True by lia; done).
  destruct (correct_inv rand n sn target2 true t u1 Hi1 Hc) as (v & u2 & Hsq & _ & E2 & Hi2 & Hcase). exists u2. rewrite E2.
  destruct (squash_inv n sn0 t u2 Hi2) as (u3 & E3 & _ & Hsq3). exists u3. split; [done|]. split; [done|]. destruct Hcase as [[Hnil _]|(e1 & e' & rest & Ev & Hco)].
  { rewrite (sd_hist _ _ _ _ _ Hsq), Eh, filter_cons_True in Hnil by lia. done. }
  rewrite (sd_hist _ _ _ _ _ Hsq), Eh, filter_cons_True in Ev by lia. injection Ev as <- Erest. destruct Hco as [C1 C2 C3 C4 C5 C6 _ C8 _ _ _ _ _].
  pose proof (sd_undone _ _ _ _ _ Hsq3) as Hund. rewrite C1, fn_lookup_insert, filter_cons_True in Hund by lia.
  rewrite (filter_void _ rest) in Hund.
  - destruct Hund as (p & _ & _ & ->). unfold undo_tos. rewrite C8, C6. unfold reused. rewrite P15, Hret, orb_true_r. done.
  - rewrite <- Erest. apply Forall_forall. intros y [_ Hy']%list_elem_of_filter. rewrite Forall_forall in Hold. specialize (Hold y Hy'). cbn in Hold. lia.
Qed.

(** A conditional branch that its counter predicts taken but that misses in the target
    buffer is predicted not taken; if that is right, so that nothing corrects it, it is
    nevertheless trained as taken when it commits. *)
Theorem missed_branch_trained_taken u u1 (inst : StaticInst) (sn : Z) (pc target : PCState) h p :
  bp_inv n u → youngest_branch sn t u → predHist u t = [] → si_isUncondCtrl inst = false → dp_lookup t (instAddr pc) (dirPred u) = Ok (true, h, p) →
  bp_predict advancePC inst sn pc t u = Ok (false, target, u1) →
  ∃ u2, bp_commit sn t u1 = Ok u2 ∧ dp_update t (instAddr pc) true h false (dirPred u1) = Ok (dirPred u2).
Proof.
  intros Hi Hy Hnil Hcond Hlook E. destruct (predict_inv advancePC n inst sn pc t u Hi Hy) as (b & tgt & e & u' & E' & Hi1 & Hpr). rewrite E in E'. injection E' as <- <- <-.
  destruct Hpr as [P1 P2 P3 _ _ _ (p1 & Hdir & _) _ _ _ _ _ _ _ _ _ _]. rewrite Hcond, Hlook in Hdir. injection Hdir as Et Eh _.
  destruct (commit_inv n sn t u1 Hi1) as (u2 & E2 & _ & Hcm). exists u2. split; [done|]. pose proof (cm_trained _ _ _ _ Hcm) as Htr.
  rewrite P1, fn_lookup_insert, Hnil, filter_cons_True, filter_nil in Htr by lia. destruct Htr as (p2 & Hup & ->). by rewrite Et, Eh, <- P3.
Qed.
End flaws.

(** When an unconditional jump misses in the target buffer, the tournament predictor
    clears the low bit of the local history that its address selects, which the jump never
    shifted, and a squash of the jump does not bring it back. *)
Theorem jump_miss_not_undone (t : nat) (a x : Z) (h : option TournamentHistory) (p p1 p2 p3 : TournamentBP) :
  tb_wf p → 0 < localHistoryBits p → vget (localHistoryTable p) (calcLocHistIdx a p) = Ok x → Z.odd x = true →
  tb_uncondBranch t a p = Ok (h, p1) → tb_btbUpdate t a h p1 = Ok p2 → tb_squash t h p2 = Ok p3 → hv_view t p3 ≠ hv_view t p.
Proof.
  intros H Hb Hx Hodd E1 E2 E3. injection E1 as <- <-. unfold tb_btbUpdate in E2. set (q := updateGlobalHist t true p <| globalHistory ::= _ |>) in E2.
  change (localHistoryTable q) with (localHistoryTable p) in E2. change (calcLocHistIdx a (updateGlobalHist t true p)) with (calcLocHistIdx a p) in E2.
  rewrite Hx in E2. cbn [mbind res_bind] in E2. rewrite (tb_hist_set p H) in E2 by apply (tb_loc_range p H). cbn [mbind res_bind] in E2. injection E2 as <-.
  cbn in E3. injection E3 as <-. cbn. unfold tb_view. cbn. intros E. injection E as _ E. apply (f_equal (.!! Z.to_nat (calcLocHistIdx a p))) in E.
  apply vget_ok in Hx as [_ Hx]. rewrite !list_lookup_fmap, Hx, list_lookup_insert_eq in E by (by eapply lookup_lt_Some). cbn in E. injection E as E.
  apply (f_equal (λ z, Z.testbit z 0)) in E. pose proof (tw_lhist p H). rewrite !low_testbit, !Z.land_spec in E by lia. rewrite (tw_lmask p H), Z.ones_spec_low in E by lia.
  unfold u64 in E. rewrite Z.mod_pow2_bits_low, Z.lnot_spec in E by lia. rewrite Z.bit0_odd, Hodd, (proj2 (Z.ltb_lt _ _)) in E by lia. done.
Qed.
