(* ===== verification/LTAGE.v ===== *)
(** * L-TAGE predictor

    [src/cpu/pred/ltage.hh] and [ltage.cc]: tagged tables of counters indexed by hashes of
    histories of increasing length, backed by a bimodal table, and a predictor of loops.
    The hashes use histories folded to the width of the table ([FoldedHistory]), which are
    maintained bit by bit.

    [tableIndices] and [tableTags] of the class are scratch memory of [predict] and hold
    what the [BranchInfo] gets; [gHist] is a pointer into [globalHistory], here an index.
    Parameters: the [k]-th random number, the result of a shift by an amount out of range,
    and the lengths of the middle histories, which the code computes in floating point
    ([pow]). *)

From S2P Require Import Prelude Regs DynInst IntMath Targets BPred.
Local Open Scope Z_scope.

(** ** Data *)
Definition s32 (z : Z) : Z := (z + 2 ^ 31) mod 2 ^ 32 - 2 ^ 31.
Definition u16 (z : Z) : Z := z mod 2 ^ 16.

Record LoopEntry := MkLoopEntry { numIter : Z; le_currentIter : Z; currentIterSpec : Z; confidence : Z; le_tag : Z; age : Z; dir : bool }.
#[export] Instance LoopEntry_eta : Updatable LoopEntry := λ r,
  MkLoopEntry (numIter r) (le_currentIter r) (currentIterSpec r) (confidence r) (le_tag r) (age r) (dir r).
Definition LoopEntry_new : LoopEntry := MkLoopEntry 0 0 0 0 0 0 false.

Record BimodalEntry := MkBimodalEntry { bim_pred : Z; hyst : Z }.
Definition BimodalEntry_new : BimodalEntry := MkBimodalEntry 0 1.

Record TageEntry := MkTageEntry { te_ctr : Z; te_tag : Z; te_u : Z }.
#[export] Instance TageEntry_eta : Updatable TageEntry := λ r, MkTageEntry (te_ctr r) (te_tag r) (te_u r).
Definition TageEntry_new : TageEntry := MkTageEntry 0 0 0.

Record FoldedHistory := MkFoldedHistory { comp : Z; compLength : Z; origLength : Z; outpoint : Z }.
#[export] Instance FoldedHistory_eta : Updatable FoldedHistory := λ r, MkFoldedHistory (comp r) (compLength r) (origLength r) (outpoint r).
Definition FoldedHistory_init (original_length compressed_length : Z) : res FoldedHistory :=
  if compressed_length =? 0 then Err DivByZero
  else Ok (MkFoldedHistory 0 compressed_length original_length (Z.rem original_length compressed_length)).

(** The history buffer [l] as seen from index [h]. *)
Definition folded_update (l : list Z) (h : Z) (f : FoldedHistory) : res FoldedHistory :=
  h0 ← vget l h;
  hn ← vget l (h + origLength f);
  let c := Z.lor (u32 (Z.shiftl (comp f) 1)) h0 in
  let c := Z.lxor c (Z.shiftl hn (outpoint f)) in
  let c := Z.lxor c (Z.shiftr c (compLength f)) in
  Ok (f <| comp := Z.land c (Z.shiftl 1 (compLength f) - 1) |>).

Record BranchInfo := MkBranchInfo {
  bi_pathHist : Z;
  bi_ptGhist : Z;
  hitBank : Z;
  hitBankIndex : Z;
  altBank : Z;
  altBankIndex : Z;
  bimodalIndex : Z;
  loopTag : Z;
  bi_currentIter : Z;
  tagePred : bool;
  altTaken : bool;
  loopPred : bool;
  loopPredValid : bool;
  loopIndex : Z;
  loopHit : Z;
  condBranch : bool;
  longestMatchPred : bool;
  pseudoNewAlloc : bool;
  branchPC : Z;
  bi_tableIndices : list Z;
  bi_tableTags : list Z;
  ci : list Z;
  ct0 : list Z;
  ct1 : list Z;
}.
#[export] Instance BranchInfo_eta : Updatable BranchInfo := λ r,
  MkBranchInfo (bi_pathHist r) (bi_ptGhist r) (hitBank r) (hitBankIndex r) (altBank r) (altBankIndex r) (bimodalIndex r) (loopTag r)
    (bi_currentIter r) (tagePred r) (altTaken r) (loopPred r) (loopPredValid r) (loopIndex r) (loopHit r) (condBranch r)
    (longestMatchPred r) (pseudoNewAlloc r) (branchPC r) (bi_tableIndices r) (bi_tableTags r) (ci r) (ct0 r) (ct1 r).
(** The constructor; the storage it allocates is not initialised. *)
Definition BranchInfo_new (sz : Z) : BranchInfo :=
  let z := replicate (Z.to_nat sz) 0 in
  MkBranchInfo 0 0 0 0 0 0 0 0 0 false false false false 0 0 false false false 0 z z z z z.

(** [computeTags[0]] and [computeTags[1]] as two fields; element 0 of each is not used. *)
Record ThreadHistory := MkThreadHistory {
  th_pathHist : Z;
  globalHistory : list Z;
  gHist : Z;
  ptGhist : Z;
  computeIndices : list FoldedHistory;
  computeTags0 : list FoldedHistory;
  computeTags1 : list FoldedHistory;
}.
#[export] Instance ThreadHistory_eta : Updatable ThreadHistory := λ r,
  MkThreadHistory (th_pathHist r) (globalHistory r) (gHist r) (ptGhist r) (computeIndices r) (computeTags0 r) (computeTags1 r).

(** Element 0 of [gtable], [histLengths], [tagWidths] and [tagTableSizes] is not used. *)
Record LTAGE := MkLTAGE {
  logSizeBiMP : Z;
  logSizeLoopPred : Z;
  nHistoryTables : Z;
  tagTableCounterBits : Z;
  histBufferSize : Z;
  maxHist : Z;
  btable : list BimodalEntry;
  gtable : list (list TageEntry);
  ltable : list LoopEntry;
  threadHistory : nat → ThreadHistory;
  tagWidths : list Z;
  tagTableSizes : list Z;
  histLengths : list Z;
  loopUseCounter : Z;
  useAltPredForNewlyAllocated : Z;
  tCounter : Z;
  logTick : Z;
  lt_draws : nat;
}.
#[export] Instance LTAGE_eta : Updatable LTAGE := λ r,
  MkLTAGE (logSizeBiMP r) (logSizeLoopPred r) (nHistoryTables r) (tagTableCounterBits r) (histBufferSize r) (maxHist r) (btable r) (gtable r)
    (ltable r) (threadHistory r) (tagWidths r) (tagTableSizes r) (histLengths r) (loopUseCounter r) (useAltPredForNewlyAllocated r)
    (tCounter r) (logTick r) (lt_draws r).

(** ** Construction *)
Definition tag_widths (minTagWidth : Z) : list Z := 0 :: ((λ k, minTagWidth + k) <$> [0; 0; 1; 1; 2; 3; 4; 5; 5; 6; 7; 8]).
Definition table_sizes (logSizeTagTables : Z) : list Z := 0 :: ((λ k, logSizeTagTables - k) <$> [1; 1; 0; 0; 0; 0; 1; 1; 1; 1; 2; 2]).
(** [histLengths]: [middle i] is the rounded geometric length of table [i]. *)
Definition hist_lengths (minHist maxHist : Z) (middle : Z → Z) (n : Z) : list Z :=
  0 :: (if n =? 1 then maxHist else minHist) :: ((λ k, middle (Z.of_nat k)) <$> seq 2 (Z.to_nat (n - 1))).

(** The folded histories of a thread; element 0 is not initialised. *)
Definition folded_new (lengths widths : list Z) (n : nat) : res (list FoldedHistory) :=
  mfold (λ l i, f ← FoldedHistory_init (nth i lengths 0) (nth i widths 0); Ok (l ++ [f])) [MkFoldedHistory 0 0 0 0] (seq 1 n).

(** [LTAGEParams] ([BranchPredictor.py]). *)
Record LTAGEParams := MkLTAGEParams {
  par_logSizeBiMP : Z;
  par_logSizeTagTables : Z;
  par_logSizeLoopPred : Z;
  par_nHistoryTables : Z;
  par_tagTableCounterBits : Z;
  par_histBufferSize : Z;
  par_minHist : Z;
  par_maxHist : Z;
  par_minTagWidth : Z;
}.

Definition LTAGE_new (middle : Z → Z) (a : LTAGEParams) : res LTAGE :=
  _ ← assert (par_maxHist a * 2 <? par_histBufferSize a);
  let lengths := hist_lengths (par_minHist a) (par_maxHist a) middle (par_nHistoryTables a) in
  let sizes := table_sizes (par_logSizeTagTables a) in
  let widths := tag_widths (par_minTagWidth a) in
  let n := Z.to_nat (par_nHistoryTables a) in
  x ← folded_new lengths sizes n;
  y ← folded_new lengths widths n;
  z ← folded_new lengths (Z.pred <$> widths) n;
  let history := MkThreadHistory 0 (replicate (Z.to_nat (par_histBufferSize a)) 0) 0 0 x y z in
  Ok (MkLTAGE (par_logSizeBiMP a) (par_logSizeLoopPred a) (par_nHistoryTables a) (par_tagTableCounterBits a) (par_histBufferSize a) (par_maxHist a)
        (replicate (Z.to_nat (2 ^ par_logSizeBiMP a)) BimodalEntry_new)
        ([] :: ((λ i : nat, replicate (Z.to_nat (2 ^ nth i sizes 0)) TageEntry_new) <$> seq 1 n))
        (replicate (Z.to_nat (2 ^ par_logSizeLoopPred a)) LoopEntry_new) (λ _, history) widths sizes lengths 0 0 (Z.shiftl 1 18) 19 0).

(** ** Hashes *)
Definition bindex (pc_in : Z) (p : LTAGE) : Z := Z.land pc_in (Z.shiftl 1 (logSizeBiMP p) - 1).
Definition lindex (pc_in : Z) (p : LTAGE) : Z := Z.shiftl (Z.land pc_in (Z.shiftl 1 (logSizeLoopPred p - 2) - 1)) 2.

(** What the language or the library leaves open: the result of [a >> k] on an [int] when
    [k] is negative or at least 32, and the numbers of [random_mt]. *)
Class LTAGEEnv := { shift_undefined : Z → Z → Z; lt_random : nat → Z }.

Section env.
Context `{!LTAGEEnv}.

(** [a >> k]; in [F], [k] can be negative ([tagTableSizes[bank] - bank]). *)
Definition sar (a k : Z) : Z := if (0 <=? k) && (k <? 32) then Z.shiftr a k else s32 (shift_undefined a k).

(** [F]; [size] is the number of bits of path history used, [tts] is [tagTableSizes[bank]]. *)
Definition lt_F (A size bank tts : Z) : Z :=
  let m := Z.shiftl 1 tts - 1 in
  let A := Z.land A (Z.shiftl 1 size - 1) in
  let A1 := Z.land A m in
  let A2 := sar A tts in
  let A2 := Z.land (Z.shiftl A2 bank) m + sar A2 (tts - bank) in
  let A := Z.lxor A1 A2 in
  Z.land (Z.shiftl A bank) m + sar A (tts - bank).

Definition gindex (tid : nat) (pc bank : Z) (p : LTAGE) : res Z :=
  hl ← vget (histLengths p) bank;
  tts ← vget (tagTableSizes p) bank;
  f ← vget (computeIndices (threadHistory p tid)) bank;
  let hlen := if 16 <? hl then 16 else hl in
  let index := s32 (Z.lxor (Z.lxor (Z.lxor pc (Z.shiftr pc (Z.abs (tts - bank) + 1))) (comp f)) (lt_F (th_pathHist (threadHistory p tid)) hlen bank tts)) in
  Ok (Z.land index (Z.shiftl 1 tts - 1)).

Definition gtag (tid : nat) (pc bank : Z) (p : LTAGE) : res Z :=
  w ← vget (tagWidths p) bank;
  f0 ← vget (computeTags0 (threadHistory p tid)) bank;
  f1 ← vget (computeTags1 (threadHistory p tid)) bank;
  let tag := s32 (Z.lxor (Z.lxor pc (comp f0)) (u32 (Z.shiftl (comp f1) 1))) in
  Ok (u16 (Z.land tag (Z.shiftl 1 w - 1))).

Definition ctrUpdate (ctr : Z) (taken : bool) (nbits : Z) : res Z :=
  _ ← assert (nbits <=? 8);
  Ok (if taken then (if ctr <? Z.shiftl 1 (nbits - 1) - 1 then ctr + 1 else ctr)
      else (if - Z.shiftl 1 (nbits - 1) <? ctr then ctr - 1 else ctr)).

(** ** Bimodal table *)
Definition getBimodePred (bi : BranchInfo) (p : LTAGE) : res bool :=
  b ← vget (btable p) (bimodalIndex bi); Ok (0 <? bim_pred b).
Definition baseUpdate (taken : bool) (bi : BranchInfo) (p : LTAGE) : res LTAGE :=
  b ← vget (btable p) (bimodalIndex bi);
  let inter := Z.shiftl (bim_pred b) 1 + hyst b in
  let inter := if taken then (if inter <? 3 then inter + 1 else inter) else if 0 <? inter then inter - 1 else inter in
  t ← vset (bimodalIndex bi) (MkBimodalEntry (Z.shiftr inter 1) (Z.land inter 1)) (btable p);
  Ok (p <| btable := t |>).

(** ** Loop predictor *)
(** The search of [getLoop] through the ways [i..3]. *)
Fixpoint getLoop_loop (fuel : nat) (i : Z) (bi : BranchInfo) (p : LTAGE) : res (bool * BranchInfo) :=
  match fuel with
  | O => Ok (false, bi)
  | S fuel =>
      e ← vget (ltable p) (loopIndex bi + i);
      if le_tag e =? loopTag bi then
        let bi := bi <| loopHit := i |> <| loopPredValid := 3 <=? confidence e |> <| bi_currentIter := currentIterSpec e |> in
        Ok (if currentIterSpec e + 1 =? numIter e then negb (dir e) else dir e, bi)
      else getLoop_loop fuel (i + 1) bi p
  end.
Definition getLoop (pc : Z) (bi : BranchInfo) (p : LTAGE) : res (bool * BranchInfo) :=
  let bi := bi <| loopHit := -1 |> <| loopPredValid := false |> <| loopIndex := lindex pc p |>
               <| loopTag := s32 (Z.shiftr pc (logSizeLoopPred p - 2)) |> in
  getLoop_loop 4 0 bi p.

Definition specLoopUpdate (pc : Z) (taken : bool) (bi : BranchInfo) (p : LTAGE) : res LTAGE :=
  if 0 <=? loopHit bi then
    let index := lindex pc p in
    e ← vget (ltable p) index;
    let e := if Bool.eqb taken (dir e) then e <| currentIterSpec := u16 (currentIterSpec e + 1) |> else e <| currentIterSpec := 0 |> in
    t ← vset index e (ltable p);
    Ok (p <| ltable := t |>)
  else Ok p.

Definition freeLoop (e : LoopEntry) : LoopEntry := e <| numIter := 0 |> <| age := 0 |> <| confidence := 0 |>.
(** Another iteration of the loop. *)
Definition loopIterate (bi : BranchInfo) (e : LoopEntry) : LoopEntry :=
  let e := if loopPredValid bi && negb (Bool.eqb (loopPred bi) (tagePred bi)) && (age e <? 7) then e <| age := age e + 1 |> else e in
  let e := e <| le_currentIter := u16 (le_currentIter e + 1) |> in
  if numIter e <? le_currentIter e then
    let e := e <| confidence := 0 |> in if numIter e =? 0 then e else freeLoop e
  else e.
(** The end of the loop, if the branch went the other way. *)
Definition loopEnd (taken : bool) (e : LoopEntry) : LoopEntry :=
  if Bool.eqb taken (dir e) then e
  else
    let e := if le_currentIter e =? numIter e then
               let e := if confidence e <? 7 then e <| confidence := confidence e + 1 |> else e in
               if numIter e <? 3 then freeLoop (e <| dir := taken |>) else e
             else if numIter e =? 0 then e <| confidence := 0 |> <| numIter := le_currentIter e |>
             else freeLoop e in
    e <| le_currentIter := 0 |>.
(** What [loopUpdate] does to the entry that hit. *)
Definition loopTrain (taken : bool) (bi : BranchInfo) (e : LoopEntry) : LoopEntry :=
  if loopPredValid bi && negb (Bool.eqb taken (loopPred bi)) then freeLoop e <| le_currentIter := 0 |>
  else loopEnd taken (loopIterate bi e).

(** The search for a free way, from a random one on. *)
Fixpoint allocLoop (fuel : nat) (nrand i : Z) (taken : bool) (bi : BranchInfo) (t : list LoopEntry) : res (list LoopEntry) :=
  match fuel with
  | O => Ok t
  | S fuel =>
      let idx := loopIndex bi + Z.land (nrand + i) 3 in
      e ← vget t idx;
      if age e =? 0 then
        vset idx (e <| dir := negb taken |> <| le_tag := u16 (loopTag bi) |> <| numIter := 0 |> <| age := 7 |> <| confidence := 0 |>
                    <| le_currentIter := 1 |>) t
      else
        t ← vset idx (e <| age := age e - 1 |>) t;
        allocLoop fuel nrand (i + 1) taken bi t
  end.

Definition loopUpdate (taken : bool) (bi : BranchInfo) (p : LTAGE) : res LTAGE :=
  let idx := loopIndex bi + loopHit bi in
  if 0 <=? loopHit bi then
    e ← vget (ltable p) idx;
    t ← vset idx (loopTrain taken bi e) (ltable p);
    Ok (p <| ltable := t |>)
  else if taken then
    t ← allocLoop 4 (s32 (lt_random (lt_draws p))) 0 taken bi (ltable p);
    Ok (p <| ltable := t |> <| lt_draws ::= S |>)
  else Ok p.

(** ** Global history *)
(** The copy of the beginning of the buffer to its end. *)
Fixpoint copy_history (fuel : nat) (i base : Z) (l : list Z) : res (list Z) :=
  match fuel with
  | O => Ok l
  | S fuel => x ← vget l i; l ← vset (base + i) x l; copy_history fuel (i + 1) base l
  end.
Definition updateGHist (dir : bool) (p : LTAGE) (h : ThreadHistory) : res ThreadHistory :=
  h ← (if ptGhist h =? 0 then
         l ← copy_history (Z.to_nat (maxHist p)) 0 (histBufferSize p - maxHist p) (globalHistory h);
         let pt := histBufferSize p - maxHist p in
         Ok (h <| globalHistory := l |> <| ptGhist := pt |> <| gHist := pt |>)
       else Ok h);
  let h := h <| ptGhist := ptGhist h - 1 |> <| gHist := gHist h - 1 |> in
  l ← vset (gHist h) (Z.b2z dir) (globalHistory h);
  Ok (h <| globalHistory := l |>).

Fixpoint ghr_loop (fuel : nat) (i pt size : Z) (l : list Z) (val : Z) : res Z :=
  match fuel with
  | O => Ok val
  | S fuel =>
      _ ← assert (pt + i <? size);
      x ← vget l (pt + i);
      ghr_loop fuel (i + 1) pt size l (Z.lor val (Z.shiftl (Z.land x 1) i))
  end.
Definition lt_getGHR (tid : nat) (bp_history : option BranchInfo) (p : LTAGE) : res Z :=
  bi ← deref bp_history;
  ghr_loop 32 0 (bi_ptGhist bi) (histBufferSize p) (globalHistory (threadHistory p tid)) 0.

(** ** Prediction *)
Definition tage_at (bank index : Z) (p : LTAGE) : res TageEntry := row ← vget (gtable p) bank; vget row index.
Definition on_tage (bank index : Z) (f : TageEntry → res TageEntry) (p : LTAGE) : res LTAGE :=
  row ← vget (gtable p) bank;
  e ← vget row index;
  e ← f e;
  row ← vset index e row;
  t ← vset bank row (gtable p);
  Ok (p <| gtable := t |>).

(** Indices and tags of all tables. *)
Fixpoint hash_tables (fuel : nat) (i : Z) (tid : nat) (pc : Z) (p : LTAGE) (bi : BranchInfo) : res BranchInfo :=
  match fuel with
  | O => Ok bi
  | S fuel =>
      x ← gindex tid pc i p;
      idxs ← vset i x (bi_tableIndices bi);
      y ← gtag tid pc i p;
      tags ← vset i y (bi_tableTags bi);
      hash_tables fuel (i + 1) tid pc p (bi <| bi_tableIndices := idxs |> <| bi_tableTags := tags |>)
  end.

(** The longest table up to [i] whose entry has the tag; 0 if there is none. *)
Fixpoint find_bank (i : nat) (bi : BranchInfo) (p : LTAGE) : res Z :=
  match i with
  | O => Ok 0
  | S i' =>
      x ← vget (bi_tableIndices bi) (Z.of_nat i);
      y ← vget (bi_tableTags bi) (Z.of_nat i);
      e ← tage_at (Z.of_nat i) x p;
      if te_tag e =? y then Ok (Z.of_nat i) else find_bank i' bi p
  end.

Definition weak (c : Z) : bool := Z.abs (2 * c + 1) <=? 1.

(** The prediction of the tagged tables. *)
Definition tage_predict (bi : BranchInfo) (p : LTAGE) : res BranchInfo :=
  hit ← find_bank (Z.to_nat (nHistoryTables p)) bi p;
  bi ← (if 0 <? hit then x ← vget (bi_tableIndices bi) hit; Ok (bi <| hitBank := hit |> <| hitBankIndex := x |>) else Ok (bi <| hitBank := 0 |>));
  alt ← find_bank (Z.to_nat (hit - 1)) bi p;
  bi ← (if 0 <? alt then x ← vget (bi_tableIndices bi) alt; Ok (bi <| altBank := alt |> <| altBankIndex := x |>) else Ok (bi <| altBank := 0 |>));
  if 0 <? hit then
    altTaken' ← (if 0 <? alt then e ← tage_at alt (altBankIndex bi) p; Ok (0 <=? te_ctr e) else getBimodePred bi p);
    e ← tage_at hit (hitBankIndex bi) p;
    let longest := 0 <=? te_ctr e in
    let bi := bi <| altTaken := altTaken' |> <| longestMatchPred := longest |> <| pseudoNewAlloc := weak (te_ctr e) |> in
    Ok (bi <| tagePred := if (useAltPredForNewlyAllocated p <? 0) || negb (weak (te_ctr e)) then longest else altTaken' |>)
  else
    altTaken' ← getBimodePred bi p;
    Ok (bi <| altTaken := altTaken' |> <| tagePred := altTaken' |> <| longestMatchPred := altTaken' |>).

(** [LTAGE::predict]. *)
Definition lt_predict (tid : nat) (branch_pc : Z) (cond_branch : bool) (p : LTAGE) : res (bool * BranchInfo * LTAGE) :=
  let bi := BranchInfo_new (nHistoryTables p + 1) <| loopHit := -1 |> in
  '(pred_taken, bi) ←
     (if cond_branch then
        bi ← hash_tables (Z.to_nat (nHistoryTables p)) 1 tid branch_pc p bi;
        let bi := bi <| bimodalIndex := bindex branch_pc p |> in
        bi ← tage_predict bi p;
        '(loop, bi) ← getLoop branch_pc bi p;
        let bi := bi <| loopPred := loop |> in
        Ok (if (0 <=? loopUseCounter p) && loopPredValid bi then loopPred bi else tagePred bi, bi)
      else Ok (true, bi));
  let bi := bi <| branchPC := branch_pc |> <| condBranch := cond_branch |> in
  p ← specLoopUpdate branch_pc pred_taken bi p;
  Ok (pred_taken, bi, p).

(** The folded histories take in the newest outcome. *)
Fixpoint update_folds (l : list Z) (h : Z) (fs : list FoldedHistory) : res (list FoldedHistory) :=
  match fs with
  | [] => Ok []
  | f :: fs => f ← folded_update l h f; fs ← update_folds l h fs; Ok (f :: fs)
  end.
Definition refold_one (l : list Z) (h : Z) (fs : list FoldedHistory) : res (list FoldedHistory) :=
  match fs with [] => Ok [] | f0 :: fs => fs ← update_folds l h fs; Ok (f0 :: fs) end.
Definition refold (h : ThreadHistory) : res ThreadHistory :=
  x ← refold_one (globalHistory h) (gHist h) (computeIndices h);
  y ← refold_one (globalHistory h) (gHist h) (computeTags0 h);
  z ← refold_one (globalHistory h) (gHist h) (computeTags1 h);
  Ok (h <| computeIndices := x |> <| computeTags0 := y |> <| computeTags1 := z |>).
(** Their values are put back to those a [BranchInfo] has. *)
Definition put_comps (l : list FoldedHistory) (cs : list Z) : list FoldedHistory :=
  match l with [] => [] | f :: l => f :: zip_with (λ (f : FoldedHistory) c, f <| comp := c |>) l (drop 1 cs) end.
Definition restore_comps (bi : BranchInfo) (h : ThreadHistory) : ThreadHistory :=
  h <| computeIndices ::= λ l, put_comps l (ci bi) |> <| computeTags0 ::= λ l, put_comps l (ct0 bi) |> <| computeTags1 ::= λ l, put_comps l (ct1 bi) |>.

Definition on_thread (tid : nat) (h : ThreadHistory) (p : LTAGE) : LTAGE := p <| threadHistory ::= <[tid := h]> |>.

Definition updateHistories (tid : nat) (branch_pc : Z) (taken : bool) (bi : BranchInfo) (p : LTAGE) : res (BranchInfo * LTAGE) :=
  h ← updateGHist taken p (threadHistory p tid);
  let h := h <| th_pathHist := Z.land (Z.shiftl (th_pathHist h) 1 + Z.land branch_pc 1) (Z.shiftl 1 16 - 1) |> in
  let bi := bi <| bi_ptGhist := ptGhist h |> <| bi_pathHist := th_pathHist h |> <| ci := comp <$> computeIndices h |>
               <| ct0 := comp <$> computeTags0 h |> <| ct1 := comp <$> computeTags1 h |> in
  h ← refold h;
  Ok (bi, on_thread tid h p).

Definition lt_lookup (tid : nat) (branch_pc : Z) (p : LTAGE) : res (bool * option BranchInfo * LTAGE) :=
  '(retval, bi, p) ← lt_predict tid branch_pc true p;
  '(bi, p) ← updateHistories tid branch_pc retval bi p;
  _ ← assert (gHist (threadHistory p tid) =? ptGhist (threadHistory p tid));
  Ok (retval, Some bi, p).
Definition lt_uncondBranch (tid : nat) (br_pc : Z) (p : LTAGE) : res (option BranchInfo * LTAGE) :=
  '(_, bi, p) ← lt_predict tid br_pc false p;
  '(bi, p) ← updateHistories tid br_pc true bi p;
  _ ← assert (gHist (threadHistory p tid) =? ptGhist (threadHistory p tid));
  Ok (Some bi, p).

(** ** Repair *)
(** The speculative iteration count of the loop is put back. *)
Definition restoreLoop (bi : BranchInfo) (p : LTAGE) : res LTAGE :=
  if condBranch bi && (0 <=? loopHit bi) then
    let idx := loopIndex bi + loopHit bi in
    e ← vget (ltable p) idx;
    t ← vset idx (e <| currentIterSpec := bi_currentIter bi |>) (ltable p);
    Ok (p <| ltable := t |>)
  else Ok p.

(** The newest outcome is rewritten and the folded histories are computed again. *)
Definition replayOutcome (taken : bool) (bi : BranchInfo) (h : ThreadHistory) : res ThreadHistory :=
  l ← vset (gHist h) (Z.b2z taken) (globalHistory h);
  refold (restore_comps bi (h <| globalHistory := l |>)).
(** [squash(tid, taken, bp_history)]. *)
Definition lt_repair (tid : nat) (taken : bool) (bi : BranchInfo) (p : LTAGE) : res LTAGE :=
  let h := threadHistory p tid in
  let h := h <| th_pathHist := bi_pathHist bi |> <| ptGhist := bi_ptGhist bi |> <| gHist := bi_ptGhist bi |> in
  h ← replayOutcome taken bi h;
  restoreLoop bi (on_thread tid h p).
(** [squash(tid, bp_history)]. *)
Definition lt_squash (tid : nat) (bp_history : option BranchInfo) (p : LTAGE) : res LTAGE :=
  bi ← deref bp_history; restoreLoop bi p.

Definition lt_btbUpdate (tid : nat) (branch_pc : Z) (bp_history : option BranchInfo) (p : LTAGE) : res LTAGE :=
  let h := threadHistory p tid in
  _ ← assert (gHist h =? ptGhist h);
  bi ← deref bp_history;
  h ← replayOutcome false bi h;
  Ok (on_thread tid h p).

(** ** Training *)
(** The usefulness of the least useful entry above the provider, at most 1. *)
Fixpoint min_useful (i : nat) (bi : BranchInfo) (p : LTAGE) (min : Z) : res Z :=
  match i with
  | O => Ok min
  | S i' =>
      if hitBank bi <? Z.of_nat i then
        x ← vget (bi_tableIndices bi) (Z.of_nat i);
        e ← tage_at (Z.of_nat i) x p;
        min_useful i' bi p (if te_u e <? min then te_u e else min)
      else Ok min
  end.
(** The table to start from, among the three above the provider. *)
Definition start_bank (nrand hit n : Z) : Z :=
  let Y := Z.land nrand (Z.shiftl 1 (n - hit - 1) - 1) in
  let X := hit + 1 in
  if Z.odd Y then (if negb (Z.land Y 2 =? 0) then X + 2 else X + 1) else X.
(** The loop over the tables from there on. *)
Fixpoint alloc_loop (fuel : nat) (i : Z) (taken : bool) (bi : BranchInfo) (p : LTAGE) : res LTAGE :=
  match fuel with
  | O => Ok p
  | S fuel =>
      x ← vget (bi_tableIndices bi) i;
      tag ← vget (bi_tableTags bi) i;
      p ← on_tage i x (λ e, Ok (if te_u e =? 0 then MkTageEntry (if taken then 0 else -1) (u16 tag) 0 else e)) p;
      alloc_loop fuel (i + 1) taken bi p
  end.
Definition allocTage (nrand : Z) (taken : bool) (bi : BranchInfo) (p : LTAGE) : res LTAGE :=
  min ← min_useful (Z.to_nat (nHistoryTables p)) bi p 1;
  let X := start_bank nrand (hitBank bi) (nHistoryTables p) in
  p ← (if 0 <? min then x ← vget (bi_tableIndices bi) X; on_tage X x (λ e, Ok (e <| te_u := 0 |>)) p else Ok p);
  alloc_loop (Z.to_nat (nHistoryTables p - X + 1)) X taken bi p.

(** Whether to allocate, and the counter that decides between provider and alternate. *)
Definition chooseAlt (taken : bool) (bi : BranchInfo) (p : LTAGE) : res (bool * LTAGE) :=
  let alloc := negb (Bool.eqb (tagePred bi) taken) && (hitBank bi <? nHistoryTables p) in
  if (0 <? hitBank bi) && pseudoNewAlloc bi then
    let alloc := if Bool.eqb (longestMatchPred bi) taken then false else alloc in
    if negb (Bool.eqb (longestMatchPred bi) (altTaken bi)) then
      c ← ctrUpdate (useAltPredForNewlyAllocated p) (Bool.eqb (altTaken bi) taken) 4;
      Ok (alloc, p <| useAltPredForNewlyAllocated := c |>)
    else Ok (alloc, p)
  else Ok (alloc, p).

(** The periodic reset of the usefulness, bit by bit. *)
Definition ageTage (p : LTAGE) : LTAGE :=
  let p := p <| tCounter ::= λ c, s32 (c + 1) |> in
  if Z.land (tCounter p) (Z.shiftl 1 (logTick p) - 1) =? 0 then p <| gtable ::= map (map (λ e, e <| te_u := Z.shiftr (te_u e) 1 |>)) |>
  else p.

Definition trainCtr (taken : bool) (p : LTAGE) (e : TageEntry) : res TageEntry :=
  c ← ctrUpdate (te_ctr e) taken (tagTableCounterBits p); Ok (e <| te_ctr := c |>).
(** The provider, its alternate and the usefulness of the provider learn the outcome. *)
Definition trainTage (taken : bool) (bi : BranchInfo) (p : LTAGE) : res LTAGE :=
  if 0 <? hitBank bi then
    p ← on_tage (hitBank bi) (hitBankIndex bi) (trainCtr taken p) p;
    e ← tage_at (hitBank bi) (hitBankIndex bi) p;
    p ← (if te_u e =? 0 then
           if 0 <? altBank bi then on_tage (altBank bi) (altBankIndex bi) (trainCtr taken p) p
           else if altBank bi =? 0 then baseUpdate taken bi p else Ok p
         else Ok p);
    if negb (Bool.eqb (longestMatchPred bi) (altTaken bi)) && Bool.eqb (longestMatchPred bi) taken then
      on_tage (hitBank bi) (hitBankIndex bi) (λ e, Ok (if te_u e <? 1 then e <| te_u := te_u e + 1 |> else e)) p
    else Ok p
  else baseUpdate taken bi p.

Definition lt_update (tid : nat) (branch_pc : Z) (taken : bool) (bp_history : option BranchInfo) (squashed : bool) (p : LTAGE) : res LTAGE :=
  bi ← deref bp_history;
  if squashed then lt_repair tid taken bi p
  else
    let nrand := lt_random (lt_draws p) mod 4 in
    let p := p <| lt_draws ::= S |> in
    if condBranch bi then
      p ← loopUpdate taken bi p;
      p ← (if loopPredValid bi && negb (Bool.eqb (tagePred bi) (loopPred bi)) then
             c ← ctrUpdate (loopUseCounter p) (Bool.eqb (loopPred bi) taken) 7; Ok (p <| loopUseCounter := c |>)
           else Ok p);
      '(alloc, p) ← chooseAlt taken bi p;
      p ← (if alloc : bool then allocTage nrand taken bi p else Ok p);
      trainTage taken bi (ageTage p)
    else Ok p.

#[export] Instance LTAGE_pred : Predictor LTAGE BranchInfo := {|
  dp_lookup := lt_lookup;
  dp_uncondBranch := lt_uncondBranch;
  dp_btbUpdate := lt_btbUpdate;
  dp_update := lt_update;
  dp_squash := lt_squash;
  dp_getGHR := lt_getGHR;
|}.
End env.
