(* ===== verification/LTAGEHist.v ===== *)
(** * Folded histories

    A table of the L-TAGE predictor is indexed by a hash of the last [origLength] outcomes,
    folded to [compLength] bits.  The code keeps the hash up to date bit by bit; here it is
    equated with its definition, the exclusive or of the outcomes, each at its age modulo
    the width. *)

From S2P Require Import Prelude IntMath BPred LTAGE.
Local Open Scope Z_scope.

(** ** The reference *)
(** The outcomes [l] from age [i] on, folded to [cl] bits; [true] is "taken". *)
Fixpoint fold_from (cl i : Z) (l : list bool) : Z :=
  match l with [] => 0 | b :: l => Z.lxor (Z.shiftl (Z.b2z b) (i mod cl)) (fold_from cl (i + 1) l) end.
(** The [ol] newest outcomes of a path, newest first; before its start nothing was taken. *)
Definition fold_history (cl ol : Z) (path : list bool) : Z := fold_from cl 0 (take (Z.to_nat ol) path).

(** A rotation to the left of [cl] bits. *)
Definition rotl (cl x : Z) : Z := Z.land (Z.lxor (Z.shiftl x 1) (Z.shiftr (Z.shiftl x 1) cl)) (Z.ones cl).

Lemma lxor_range (n a b : Z) : 0 ≤ n → 0 ≤ a < 2 ^ n → 0 ≤ b < 2 ^ n → 0 ≤ Z.lxor a b < 2 ^ n.
Proof.
  intros Hn Ha Hb. rewrite <- (Z.mod_small a (2 ^ n)), <- (Z.mod_small b (2 ^ n)) by done.
  assert (E : Z.lxor (a mod 2 ^ n) (b mod 2 ^ n) = Z.lxor a b mod 2 ^ n).
  { apply Z.bits_inj'. intros i Hi. rewrite Z.lxor_spec. destruct (Z.lt_ge_cases i n).
    - rewrite !Z.mod_pow2_bits_low by lia. by rewrite Z.lxor_spec.
    - by rewrite !Z.mod_pow2_bits_high by lia. }
  rewrite E. apply Z.mod_pos_bound. lia.
Qed.

Lemma bit_shift_range (n k : Z) (b : bool) : 0 ≤ k < n → 0 ≤ Z.shiftl (Z.b2z b) k < 2 ^ n.
Proof.
  intros Hk. destruct b; cbn [Z.b2z]; [|rewrite Z.shiftl_0_l; lia]. rewrite Z.shiftl_1_l. split; [lia|]. apply Z.pow_lt_mono_r; lia.
Qed.

Lemma bit_shift_testbit (k i : Z) (b : bool) : 0 ≤ k → 0 ≤ i → Z.testbit (Z.shiftl (Z.b2z b) k) i = b && (i =? k).
Proof.
  intros Hk Hi. rewrite Z.shiftl_spec by done. destruct b; cbn [Z.b2z andb]; [|by rewrite Z.testbit_0_l].
  destruct (Z.eqb_spec i k) as [->|]; [by rewrite Z.sub_diag|]. destruct (Z.lt_ge_cases i k); [by rewrite Z.testbit_neg_r by lia|].
  apply (testbit_small _ 1); lia.
Qed.

Lemma b2z_testbit (b : bool) (i : Z) : 0 ≤ i → Z.testbit (Z.b2z b) i = b && (i =? 0).
Proof. intros Hi. rewrite <- (Z.shiftl_0_r (Z.b2z b)). by apply bit_shift_testbit. Qed.

Section width.
Context (cl : Z) (Hcl : 1 ≤ cl).

Lemma fold_from_range (l : list bool) (i : Z) : 0 ≤ fold_from cl i l < 2 ^ cl.
Proof.
  revert i. induction l as [|b l IH]; intros i; cbn [fold_from]; [lia|]. apply lxor_range; [lia| |apply IH].
  apply bit_shift_range. apply Z.mod_pos_bound. lia.
Qed.

Lemma fold_from_app (l1 l2 : list bool) (i : Z) :
  fold_from cl i (l1 ++ l2) = Z.lxor (fold_from cl i l1) (fold_from cl (i + Z.of_nat (length l1)) l2).
Proof.
  revert i. induction l1 as [|b l IH]; intros i; cbn [fold_from app length]; [by rewrite Z.lxor_0_l, Z.add_0_r|].
  rewrite IH, Z.lxor_assoc. do 3 f_equal. lia.
Qed.

Lemma fold_from_false (n : nat) (i : Z) : fold_from cl i (replicate n false) = 0.
Proof. revert i. induction n as [|n IH]; intros i; cbn; [done|]. by rewrite IH, Z.shiftl_0_l. Qed.

Lemma rotl_lxor (a b : Z) : rotl cl (Z.lxor a b) = Z.lxor (rotl cl a) (rotl cl b).
Proof.
  unfold rotl. rewrite !Z.shiftl_lxor, !Z.shiftr_lxor. apply Z.bits_inj'. intros i Hi. rewrite !Z.land_spec, !Z.lxor_spec, !Z.land_spec, !Z.lxor_spec.
  generalize (Z.testbit (Z.shiftl a 1) i), (Z.testbit (Z.shiftl b 1) i), (Z.testbit (Z.shiftr (Z.shiftl a 1) cl) i), (Z.testbit (Z.shiftr (Z.shiftl b 1) cl) i), (Z.testbit (Z.ones cl) i).
  by intros [] [] [] [] [].
Qed.

(** Rotating moves an outcome from one age to the next. *)
Lemma rotl_bit (b : bool) (i : Z) : rotl cl (Z.shiftl (Z.b2z b) (i mod cl)) = Z.shiftl (Z.b2z b) ((i + 1) mod cl).
Proof.
  pose proof (Z.mod_pos_bound i cl ltac:(lia)) as Hm. pose proof (Z.mod_pos_bound (i + 1) cl ltac:(lia)) as Hm1.
  assert (E : (i + 1) mod cl = if i mod cl =? cl - 1 then 0 else i mod cl + 1).
  { rewrite <- Zplus_mod_idemp_l. destruct (Z.eqb_spec (i mod cl) (cl - 1)) as [->|]; [rewrite Z.sub_add; apply Z.mod_same; lia|]. apply Z.mod_small. lia. }
  unfold rotl. rewrite Z.shiftl_shiftl by lia. apply Z.bits_inj'. intros k Hk.
  rewrite Z.land_spec, Z.lxor_spec, Z.shiftr_spec, !bit_shift_testbit, Z.testbit_ones_nonneg, E by lia. destruct b; [|done]. cbn [andb].
  destruct (Z.eqb_spec (i mod cl) (cl - 1)); destruct (Z.ltb_spec k cl), (Z.eqb_spec k (i mod cl + 1)), (Z.eqb_spec (k + cl) (i mod cl + 1)), (Z.eqb_spec k 0), (Z.eqb_spec k (i mod cl + 1)); try done; lia.
Qed.

Lemma rotl_fold (l : list bool) (i : Z) : rotl cl (fold_from cl i l) = fold_from cl (i + 1) l.
Proof.
  revert i. induction l as [|b l IH]; intros i; cbn [fold_from].
  - unfold rotl. by rewrite Z.shiftl_0_l, Z.shiftr_0_l.
  - by rewrite rotl_lxor, rotl_bit, IH.
Qed.

(** A new outcome enters at age 0, the others age by one, and the oldest leaves. *)
Lemma fold_history_cons (ol : Z) (b : bool) (path : list bool) :
  1 ≤ ol →
  fold_history cl ol (b :: path) =
    Z.lxor (Z.lxor (rotl cl (fold_history cl ol path)) (Z.b2z b)) (Z.shiftl (Z.b2z (nth (Z.to_nat (ol - 1)) path false)) (ol mod cl)).
Proof.
  intros Hol. unfold fold_history. destruct (Z.to_nat ol) as [|n] eqn:En; [lia|]. replace (Z.to_nat (ol - 1)) with n by lia. cbn [take fold_from].
  rewrite Z.mod_0_l, Z.shiftl_0_r by lia. rewrite rotl_fold. cbn [Z.add]. assert (E : fold_from cl 1 (take (S n) path) = Z.lxor (fold_from cl 1 (take n path)) (Z.shiftl (Z.b2z (nth n path false)) (ol mod cl))).
  { destruct (Nat.lt_ge_cases n (length path)) as [Hn|Hn].
    - destruct (lookup_lt_is_Some_2 path n Hn) as [x Hx]. rewrite (take_S_r _ _ _ Hx), fold_from_app. cbn [fold_from]. rewrite Z.lxor_0_r, length_take_le by lia.
      rewrite nth_lookup, Hx. cbn [default]. do 2 f_equal. replace (1 + Z.of_nat n) with ol by lia. done.
    - rewrite !take_ge by lia. rewrite nth_overflow by lia. cbn [Z.b2z]. by rewrite Z.shiftl_0_l, Z.lxor_0_r. }
  rewrite Z.add_0_l, E. generalize (fold_from cl 1 (take n path)), (Z.shiftl (Z.b2z (nth n path false)) (ol mod cl)). intros x y.
  rewrite (Z.lxor_comm (Z.b2z b)), !Z.lxor_assoc, (Z.lxor_comm (Z.b2z b) y), <- (Z.lxor_assoc y y), Z.lxor_nilpotent, Z.lxor_0_l. done.
Qed.
End width.

(** ** The incremental update *)
Record fold_geom (M : Z) (f : FoldedHistory) : Prop := {
  fg_width : 1 ≤ compLength f ≤ 31;
  fg_length : 1 ≤ origLength f ≤ M;
  fg_out : outpoint f = origLength f mod compLength f;
}.
Definition folds (path : list bool) (f : FoldedHistory) : Prop := comp f = fold_history (compLength f) (origLength f) path.
(** The outcome [i] branches ago. *)
Definition outcome (path : list bool) (i : nat) : Z := Z.b2z (nth i path false).

Lemma folded_update_ok (M : Z) (l : list Z) (h : Z) (f : FoldedHistory) (b : bool) (path : list bool) :
  fold_geom M f → folds path f → vget l h = Ok (Z.b2z b) → vget l (h + origLength f) = Ok (outcome path (Z.to_nat (origLength f - 1))) →
  folded_update l h f = Ok (f <| comp := fold_history (compLength f) (origLength f) (b :: path) |>).
Proof.
  intros [Hw Hl Ho] Hf Hb Ht. unfold folded_update, outcome in *. rewrite Hb, Ht. cbn [mbind res_bind]. do 2 f_equal. match goal with |- (λ _, ?a) = (λ _, ?b) => cut (a = b); [by intros ->|] end.
  set (cl := compLength f) in *.
  rewrite fold_history_cons by lia. rewrite Hf. fold cl. pose proof (fold_from_range cl ltac:(lia) (take (Z.to_nat (origLength f)) path) 0) as Hr.
  fold (fold_history cl (origLength f) path) in Hr. set (c := fold_history cl (origLength f) path) in *. set (x := nth (Z.to_nat (origLength f - 1)) path false).
  assert (Hc : 0 ≤ Z.shiftl c 1 < 2 ^ (cl + 1)) by (rewrite Z.shiftl_mul_pow2, Z.pow_add_r by lia; lia).
  assert (Hp : 2 ^ (cl + 1) ≤ 2 ^ 32) by (apply Z.pow_le_mono_r; lia). rewrite u32_small, Ho by lia. fold cl.
  pose proof (Z.mod_pos_bound (origLength f) cl ltac:(lia)) as Hm. unfold rotl.
  replace (Z.shiftl 1 cl - 1) with (Z.ones cl) by (rewrite Z.ones_equiv, Z.shiftl_1_l; lia). set (d := Z.shiftl c 1) in *.
  assert (Hd : Z.testbit d 0 = false) by (unfold d; rewrite Z.shiftl_spec by lia; by rewrite Z.testbit_neg_r by lia).
  apply Z.bits_inj'. intros i Hi. destruct (Z.lt_ge_cases i cl) as [Hlt|Hge].
  - rewrite !Z.land_spec, !Z.lxor_spec, !Z.land_spec, !Z.lxor_spec, !Z.shiftr_spec, !Z.lxor_spec, !Z.lor_spec, Z.testbit_ones_nonneg by lia.
    rewrite (proj2 (Z.ltb_lt i cl)), !bit_shift_testbit by lia. rewrite (proj2 (Z.eqb_neq (i + cl) (origLength f mod cl))) by lia.
    rewrite !(b2z_testbit b) by lia. rewrite (proj2 (Z.eqb_neq (i + cl) 0)) by lia. rewrite !andb_false_r, !orb_false_r, !xorb_false_r, !andb_true_r.
    destruct (Z.eqb_spec i 0) as [->|]; [rewrite Hd; cbn [orb]|rewrite andb_false_r, orb_false_r, xorb_false_r].
    + rewrite andb_true_r, xorb_false_l. by rewrite xorb_assoc, (xorb_comm (x && _)), <- xorb_assoc, (xorb_comm b).
    + by rewrite !xorb_assoc, (xorb_comm (x && _)).
  - rewrite Z.land_spec, Z.testbit_ones_nonneg, (proj2 (Z.ltb_ge i cl)), andb_false_r by lia. symmetry.
    apply (testbit_small _ cl); [|lia]. apply lxor_range; [lia| |by apply bit_shift_range].
    apply lxor_range; [lia| |pose proof (bit_shift_range cl 0 b ltac:(lia)) as Hbr; by rewrite Z.shiftl_0_r in Hbr].
    rewrite Z.land_ones by lia. apply Z.mod_pos_bound. lia.
Qed.

(** ** All folded histories of a thread *)
Definition shape (f : FoldedHistory) : Z * Z * Z := (compLength f, origLength f, outpoint f).
(** The folded histories [fs] with the values they have after [path]; element 0 is unused. *)
Definition at_path (path : list bool) (fs : list FoldedHistory) : list FoldedHistory :=
  match fs with [] => [] | f0 :: fs => f0 :: ((λ f, f <| comp := fold_history (compLength f) (origLength f) path |>) <$> fs) end.
Definition folds_geom (M : Z) (fs : list FoldedHistory) : Prop := Forall (fold_geom M) (drop 1 fs).

Lemma at_path_length (path : list bool) (fs : list FoldedHistory) : length (at_path path fs) = length fs.
Proof. destruct fs; cbn; [done|]. by rewrite length_fmap. Qed.

Lemma at_path_idem (path path' : list bool) (fs : list FoldedHistory) : at_path path (at_path path' fs) = at_path path fs.
Proof. destruct fs as [|f0 fs]; [done|]. cbn. f_equal. rewrite <- list_fmap_compose. by apply list_fmap_ext. Qed.

Lemma at_path_geom (M : Z) (path : list bool) (fs : list FoldedHistory) : folds_geom M (at_path path fs) ↔ folds_geom M fs.
Proof.
  unfold folds_geom. destruct fs as [|f0 fs]; [done|]. cbn. rewrite !drop_0, Forall_fmap. apply Forall_iff. intros f. cbn. split; intros [? ? ?]; by split.
Qed.

(** Writing the folded values of a path back. *)
Lemma put_comps_at (path path' : list bool) (fs : list FoldedHistory) :
  put_comps (at_path path' fs) (comp <$> at_path path fs) = at_path path fs.
Proof.
  destruct fs as [|f0 fs]; [done|]. cbn. f_equal. rewrite drop_0. induction fs as [|f fs IH]; [done|]. cbn. by f_equal.
Qed.

Section refold.
Context (M : Z) (l : list Z) (h : Z).

(** The buffer, from index [h], has outcome [b] and behind it the path. *)
Definition in_buffer (path : list bool) : Prop := ∀ i : Z, 0 ≤ i ≤ M → vget l (h + i) = Ok (outcome path (Z.to_nat i)).

Lemma refold_one_ok (b : bool) (path : list bool) (fs : list FoldedHistory) :
  folds_geom M fs → in_buffer (b :: path) → refold_one l h (at_path path fs) = Ok (at_path (b :: path) fs).
Proof.
  intros Hg Hb. destruct fs as [|f0 fs]; [done|]. unfold folds_geom in Hg. cbn in *. rewrite drop_0 in Hg.
  enough (update_folds l h ((λ f, f <| comp := fold_history (compLength f) (origLength f) path |>) <$> fs)
          = Ok ((λ f, f <| comp := fold_history (compLength f) (origLength f) (b :: path) |>) <$> fs)) as E by (by rewrite E).
  induction Hg as [|f fs Hf _ IH]; [done|]. cbn [fmap list_fmap update_folds].
  rewrite (folded_update_ok M l h _ b path); cbn [mbind res_bind].
  - change (list_fmap _ _ ?g fs) with (g <$> fs). rewrite IH. done.
  - destruct Hf as [? ? ?]. by split.
  - done.
  - replace h with (h + 0) by lia. rewrite Hb; [done|]. destruct Hf. lia.
  - cbn. rewrite Hb by (destruct Hf; lia). unfold outcome. do 2 f_equal. destruct Hf as [_ Hl _]. destruct (Z.to_nat (origLength f)) as [|k] eqn:E; [lia|]. by replace (Z.to_nat (origLength f - 1)) with k by lia.
Qed.

Lemma refold_one_total (fs : list FoldedHistory) :
  folds_geom M fs → 0 ≤ h → h + M < Z.of_nat (length l) → ∃ fs', refold_one l h fs = Ok fs' ∧ shape <$> fs' = shape <$> fs ∧ folds_geom M fs'.
Proof.
  intros Hg Hh Hl. destruct fs as [|f0 fs]; [by exists []|]. unfold folds_geom in *. cbn in *. rewrite drop_0 in Hg.
  enough (∃ fs', update_folds l h fs = Ok fs' ∧ shape <$> fs' = shape <$> fs ∧ Forall (fold_geom M) fs') as (fs' & -> & E & Hg').
  { exists (f0 :: fs'). split; [done|]. split; [cbn; by f_equal|]. cbn. by rewrite drop_0. }
  induction Hg as [|f fs Hf _ IH]; [by exists []|]. destruct IH as (fs' & E & Es & Hg). destruct Hf as [Hw Ho Hp]. cbn [update_folds]. unfold folded_update.
  destruct (vget_in_range l h) as [x Hx]; [lia|]. destruct (vget_in_range l (h + origLength f)) as [y Hy]; [lia|]. rewrite Hx, Hy. cbn [mbind res_bind]. rewrite E. cbn [mbind res_bind].
  eexists. split; [done|]. split; [cbn; by f_equal|]. constructor; [by split|done].
Qed.
End refold.

(** * The history buffer of the L-TAGE predictor

    Outcomes are written downwards into a buffer; when its start is reached, the last
    [maxHist] outcomes are copied to its end.  A branch in flight remembers where its
    outcome was written, and the folded histories before it; as long as fewer branches are
    in flight than the buffer has room for, what it remembers is enough to return to the
    path before it. *)Local Open Scope Z_scope.

(** ** Roll-over *)
Lemma copy_history_ok (fuel : nat) (i base : Z) (l : list Z) :
  0 ≤ i → i + Z.of_nat fuel ≤ base → base + i + Z.of_nat fuel ≤ Z.of_nat (length l) →
  ∃ l', copy_history fuel i base l = Ok l' ∧ length l' = length l
    ∧ ∀ j, 0 ≤ j → vget l' j = if (base + i <=? j) && (j <? base + i + Z.of_nat fuel) then vget l (j - base) else vget l j.
Proof.
  revert i l. induction fuel as [|fuel IH]; intros i l Hi Hb Hl; cbn [copy_history].
  - exists l. split; [done|]. split; [done|]. intros j Hj. destruct (Z.leb_spec (base + i) j), (Z.ltb_spec j (base + i + Z.of_nat 0)); cbn; done || lia.
  - destruct (vget_in_range l i) as [x Hx]; [lia|]. rewrite Hx. cbn [mbind res_bind]. rewrite vset_in_range by lia. cbn [mbind res_bind].
    destruct (IH (i + 1) (<[Z.to_nat (base + i) := x]> l)) as (l' & E & Hl' & Hg); [lia|lia|rewrite length_insert; lia|].
    exists l'. rewrite length_insert in Hl'. split; [done|]. split; [done|]. intros j Hj. rewrite Hg by done.
    destruct (Z.eq_dec j (base + i)) as [->|Hne].
    + rewrite (proj2 (Z.leb_gt (base + (i + 1)) _)), (proj2 (Z.leb_le (base + i) _)), (proj2 (Z.ltb_lt _ (base + i + Z.of_nat (S fuel)))) by lia. cbn [andb].
      rewrite vget_insert, Z.eqb_refl by lia. replace (base + i - base) with i by lia. by rewrite Hx.
    + replace ((base + (i + 1) <=? j) && (j <? base + (i + 1) + Z.of_nat fuel)) with ((base + i <=? j) && (j <? base + i + Z.of_nat (S fuel)))
        by (apply eq_true_iff_eq; rewrite !andb_true_iff, !Z.leb_le, !Z.ltb_lt; lia).
      destruct (Z.leb_spec (base + i) j), (Z.ltb_spec j (base + i + Z.of_nat (S fuel))); cbn [andb]; rewrite vget_insert, (proj2 (Z.eqb_neq _ _)) by lia; done.
Qed.

(** ** What a thread's history holds *)
Section buffer.
Context (size M : Z) (HM : 0 ≤ M) (Hsize : 2 * M < size).
Abbreviation L := (size - M).

Record th_ok (n : nat) (h : ThreadHistory) : Prop := {
  th_len : Z.of_nat (length (globalHistory h)) = size;
  th_ptr : gHist h = ptGhist h;
  th_pt : 0 ≤ ptGhist h < L;
  th_ci : length (computeIndices h) = S n;
  th_ct0 : length (computeTags0 h) = S n;
  th_ct1 : length (computeTags1 h) = S n;
  th_gi : folds_geom M (computeIndices h);
  th_g0 : folds_geom M (computeTags0 h);
  th_g1 : folds_geom M (computeTags1 h);
}.

Lemma refold_total (n : nat) (h : ThreadHistory) :
  th_ok n h → ∃ h', refold h = Ok h' ∧ th_ok n h' ∧ ptGhist h' = ptGhist h ∧ th_pathHist h' = th_pathHist h.
Proof.
  intros [H1 H2 H3 H4 H5 H6 H7 H8 H9]. unfold refold. rewrite H2.
  destruct (refold_one_total M (globalHistory h) (ptGhist h) (computeIndices h)) as (x & -> & Ex & Hx); [done|lia|lia|].
  destruct (refold_one_total M (globalHistory h) (ptGhist h) (computeTags0 h)) as (y & -> & Ey & Hy); [done|lia|lia|].
  destruct (refold_one_total M (globalHistory h) (ptGhist h) (computeTags1 h)) as (z & -> & Ez & Hz); [done|lia|lia|]. cbn [mbind res_bind].
  apply (f_equal length) in Ex, Ey, Ez. rewrite !length_fmap in *. eexists. split; [done|]. split; [|done]. split; cbn; congruence || done || lia.
Qed.

(** A write into the buffer. *)
Lemma th_ok_write (n : nat) (q : Z) (x : Z) (h : ThreadHistory) :
  th_ok n h → 0 ≤ q < L → th_ok n (h <| ptGhist := q |> <| gHist := q |> <| globalHistory := <[Z.to_nat q := x]> (globalHistory h) |>).
Proof using HM. intros [? ? ? ? ? ? ? ? ?] Hq. split; cbn; rewrite ?length_insert; done || lia. Qed.

Lemma put_comps_length (fs : list FoldedHistory) (cs : list Z) : length cs = length fs → length (put_comps fs cs) = length fs.
Proof. destruct fs as [|f fs]; [done|]. intros E. cbn. rewrite length_zip_with, length_drop, E. cbn. lia. Qed.
Lemma put_comps_geom (fs : list FoldedHistory) (cs : list Z) : folds_geom M fs → folds_geom M (put_comps fs cs).
Proof.
  unfold folds_geom. destruct fs as [|f fs]; [done|]. cbn. rewrite !drop_0. intros Hg. revert cs. generalize 1%nat. induction Hg as [|g fs [? ? ?] _ IH]; intros k cs; [constructor|].
  destruct (drop k cs) as [|c cs'] eqn:E; [constructor|]. cbn. constructor; [by split|]. specialize (IH 0%nat cs'). by rewrite drop_0 in IH.
Qed.
Lemma th_ok_restore (n : nat) (bi : BranchInfo) (h : ThreadHistory) :
  th_ok n h → length (ci bi) = S n → length (ct0 bi) = S n → length (ct1 bi) = S n → th_ok n (restore_comps bi h).
Proof.
  intros [? ? ? H4 H5 H6 ? ? ?] E1 E2 E3. split; cbn; rewrite ?put_comps_length by congruence; try done; by apply put_comps_geom.
Qed.

(** [updateGHist]: the buffer before the write, and the write. *)
Definition next_slot (q : Z) : Z := if q =? 0 then L - 1 else q - 1.

Lemma updateGHist_ok (n : nat) (dir : bool) (p : LTAGE) (h : ThreadHistory) :
  th_ok n h → histBufferSize p = size → maxHist p = M →
  ∃ l h', updateGHist dir p h = Ok h' ∧ th_ok n h' ∧ ptGhist h' = next_slot (ptGhist h)
    ∧ globalHistory h' = <[Z.to_nat (next_slot (ptGhist h)) := Z.b2z dir]> l ∧ Z.of_nat (length l) = size
    ∧ (∀ j, 0 ≤ j < size → vget l j = if (ptGhist h =? 0) && (L <=? j) then vget (globalHistory h) (j - L) else vget (globalHistory h) j)
    ∧ th_pathHist h' = th_pathHist h ∧ computeIndices h' = computeIndices h ∧ computeTags0 h' = computeTags0 h ∧ computeTags1 h' = computeTags1 h.
Proof using HM Hsize.
  intros Hh E1 E2. pose proof Hh as [H1 H2 H3 H4 H5 H6 H7 H8 H9]. unfold updateGHist, next_slot. rewrite E1, E2. destruct (Z.eqb_spec (ptGhist h) 0) as [E0|Hne].
  - destruct (copy_history_ok (Z.to_nat M) 0 L (globalHistory h)) as (l & E & Hl & Hg); [lia..|]. rewrite E. cbn [mbind res_bind]. cbn [gHist ptGhist globalHistory].
    exists l. rewrite vset_in_range by (cbn; lia). cbn [mbind res_bind]. eexists. split; [done|]. split; [|split_and!; try done; [lia|]].
    + split; cbn; rewrite ?length_insert; done || lia.
    + intros j Hj. rewrite Hg by lia. cbn [andb]. rewrite Z.add_0_r, Z2Nat.id by lia. rewrite (proj2 (Z.ltb_lt j (L + M))), andb_true_r by lia. done.
  - cbn [mbind res_bind]. cbn [gHist ptGhist globalHistory]. exists (globalHistory h). rewrite H2, vset_in_range by (cbn; lia). cbn [mbind res_bind].
    eexists. split; [done|]. split; [|split_and!; done].
    split; cbn; rewrite ?length_insert; done || lia.
Qed.

(** ** Branches in flight *)
(** The path, youngest branch first: address and direction. *)
Abbreviation dirs path := ((snd : Z * bool → bool) <$> path).
Fixpoint path_history (path : list (Z * bool)) : Z :=
  match path with [] => 0 | (pc, _) :: path => Z.land (Z.shiftl (path_history path) 1 + Z.land pc 1) (Z.shiftl 1 16 - 1) end.

(** What [bi], made for the youngest branch of [path], remembers. *)
Record remembers (h : ThreadHistory) (path : list (Z * bool)) (bi : BranchInfo) : Prop := {
  re_buf : in_buffer M (globalHistory h) (bi_ptGhist bi) (dirs path);
  re_ci : ci bi = comp <$> at_path (dirs (tail path)) (computeIndices h);
  re_ct0 : ct0 bi = comp <$> at_path (dirs (tail path)) (computeTags0 h);
  re_ct1 : ct1 bi = comp <$> at_path (dirs (tail path)) (computeTags1 h);
  re_ph : bi_pathHist bi = path_history path;
}.
(** The histories are those of [path], whose youngest branches [fl] are in flight. *)
Record follows (h : ThreadHistory) (path : list (Z * bool)) (fl : list BranchInfo) : Prop := {
  fo_buf : in_buffer M (globalHistory h) (ptGhist h) (dirs path);
  fo_ci : at_path (dirs path) (computeIndices h) = computeIndices h;
  fo_ct0 : at_path (dirs path) (computeTags0 h) = computeTags0 h;
  fo_ct1 : at_path (dirs path) (computeTags1 h) = computeTags1 h;
  fo_ph : th_pathHist h = path_history path;
  fo_fl : (length fl ≤ length path)%nat ∧ Z.of_nat (length fl) ≤ L - M;
  fo_marks (j : nat) (bi : BranchInfo) : fl !! j = Some bi → bi_ptGhist bi = (ptGhist h + Z.of_nat j) mod L ∧ remembers h (drop j path) bi;
}.

Lemma slot_cases (q j : Z) : 0 ≤ q < L → 0 ≤ j < L → (q + j) mod L = if q + j <? L then q + j else q + j - L.
Proof.
  intros Hq Hj. destruct (Z.ltb_spec (q + j) L); [by apply Z.mod_small; lia|].
  transitivity ((q + j - L) mod L); [rewrite <- (Z.mod_add (q + j - L) 1 L) by lia; f_equal; lia|apply Z.mod_small; lia].
Qed.

Lemma window_write (l : list Z) (q w : Z) (x : Z) (path : list bool) :
  in_buffer M l q path → 0 ≤ q → 0 ≤ w < Z.of_nat (length l) → w < q ∨ q + M < w → in_buffer M (<[Z.to_nat w := x]> l) q path.
Proof using. intros Hb Hq Hw Ho i Hi. rewrite vget_insert, (proj2 (Z.eqb_neq w (q + i))) by lia. by apply Hb. Qed.

(** The window of the newest outcome. *)
Lemma window_new (l : list Z) (w : Z) (b : bool) (path : list bool) :
  0 ≤ w < Z.of_nat (length l) → (∀ i, 1 ≤ i ≤ M → vget l (w + i) = Ok (outcome path (Z.to_nat (i - 1)))) →
  in_buffer M (<[Z.to_nat w := Z.b2z b]> l) w (b :: path).
Proof using.
  intros Hw Hb i Hi. rewrite vget_insert by lia. destruct (Z.eqb_spec w (w + i)) as [E|].
  - by replace i with 0 by lia.
  - rewrite Hb by lia. unfold outcome. destruct (Z.to_nat i) as [|k] eqn:E; [lia|]. by replace (Z.to_nat (i - 1)) with k by lia.
Qed.

(** The folded histories brought to a path. *)
Definition fold_all (path : list bool) (h : ThreadHistory) : ThreadHistory :=
  h <| computeIndices ::= at_path path |> <| computeTags0 ::= at_path path |> <| computeTags1 ::= at_path path |>.

Lemma refold_at (n : nat) (b : bool) (path : list bool) (h : ThreadHistory) :
  th_ok n h → in_buffer M (globalHistory h) (ptGhist h) (b :: path) → refold (fold_all path h) = Ok (fold_all (b :: path) h).
Proof using.
  intros Hh Hb. unfold refold, fold_all. cbn. rewrite (th_ptr n h Hh). rewrite !(refold_one_ok M _ _ b path) by (done || apply Hh). done.
Qed.

Lemma fold_all_id (path : list bool) (h : ThreadHistory) :
  at_path path (computeIndices h) = computeIndices h → at_path path (computeTags0 h) = computeTags0 h →
  at_path path (computeTags1 h) = computeTags1 h → fold_all path h = h.
Proof using. intros E1 E2 E3. destruct h. cbn -[at_path] in *. cbv -[at_path]. by rewrite E1, E2, E3. Qed.

Lemma th_ok_fold (n : nat) (path : list bool) (h : ThreadHistory) : th_ok n h → th_ok n (fold_all path h).
Proof using. intros [? ? ? ? ? ? ? ? ?]. split; cbn; rewrite ?at_path_length, ?at_path_geom; done. Qed.

(** What is remembered survives when the buffer keeps the window. *)
Lemma remembers_keep (h h' : ThreadHistory) (path : list (Z * bool)) (path' : list bool) (bi : BranchInfo) :
  remembers h path bi → in_buffer M (globalHistory h') (bi_ptGhist bi) (dirs path) →
  computeIndices h' = at_path path' (computeIndices h) → computeTags0 h' = at_path path' (computeTags0 h) →
  computeTags1 h' = at_path path' (computeTags1 h) → remembers h' path bi.
Proof using. intros [H1 H2 H3 H4 H5] Hb E1 E2 E3. split; [done|..]; rewrite ?E1, ?E2, ?E3, ?at_path_idem; done. Qed.

(** A new branch. *)
Lemma follows_push (n : nat) (t : nat) (pc : Z) (taken : bool) (bi : BranchInfo) (p : LTAGE) (path : list (Z * bool)) (fl : list BranchInfo) :
  let h := threadHistory p t in
  th_ok n h → histBufferSize p = size → maxHist p = M → follows h path fl → Z.of_nat (length fl) < L - M →
  ∃ bi' h', updateHistories t pc taken bi p = Ok (bi', on_thread t h' p) ∧ th_ok n h' ∧ follows h' ((pc, taken) :: path) (bi' :: fl).
Proof using HM Hsize.
  intros h Hh E1 E2 [F1 F2 F3 F4 F5 [F6 F6'] F7] Hfl. destruct (updateGHist_ok n taken p h Hh E1 E2) as (l & h1 & E & Hh1 & Ept & Eg & Hl & Hroll & Eph & Eci & Ec0 & Ec1).
  unfold updateHistories. fold h. rewrite E. cbn [mbind res_bind]. set (ph := Z.land _ _). set (bi' := bi <| bi_ptGhist := _ |> <| bi_pathHist := _ |> <| ci := _ |> <| ct0 := _ |> <| ct1 := _ |>).
  pose proof (th_pt n h Hh) as Hpt. pose proof (th_len n h Hh) as Hlen. set (w := next_slot (ptGhist h)) in *.
  assert (Hw : 0 ≤ w < L) by (unfold w, next_slot; destruct (Z.eqb_spec (ptGhist h) 0); lia).
  (* the new window *)
  assert (Hnew : in_buffer M (globalHistory h1) w (dirs ((pc, taken) :: path))).
  { rewrite Eg. cbn [fmap list_fmap snd]. apply window_new; [lia|]. intros i Hi. rewrite Hroll by lia. unfold w, next_slot.
    destruct (Z.eqb_spec (ptGhist h) 0) as [E0|]; cbn [andb].
    - rewrite (proj2 (Z.leb_le _ _)) by lia. rewrite <- (F1 (i - 1)) by lia. f_equal. lia.
    - rewrite <- (F1 (i - 1)) by lia. f_equal. lia. }
  set (h2 := h1 <| th_pathHist := ph |>). assert (Hh2 : th_ok n h2) by (destruct Hh1; by split).
  assert (E2' : refold h2 = Ok (fold_all (dirs ((pc, taken) :: path)) h2)).
  { rewrite <- (fold_all_id (dirs path) h2) at 1; [|cbn; rewrite ?Eci, ?Ec0, ?Ec1; done..]. apply (refold_at n); [done|]. cbn. by rewrite Ept. }
  rewrite E2'. cbn [mbind res_bind]. exists bi', (fold_all (dirs ((pc, taken) :: path)) h2). split; [done|]. split; [by apply th_ok_fold|].
  split; cbn; rewrite ?Ept, ?at_path_idem; try done.
  - unfold ph. by rewrite Eph, F5.
  - lia.
  - intros j b Hj. destruct j as [|j]; cbn in Hj.
    + injection Hj as <-. cbn. rewrite Ept, Z.add_0_r, Z.mod_small by lia. split; [done|]. split; cbn; rewrite ?Ept, ?Eci, ?Ec0, ?Ec1, ?at_path_idem, ?F2, ?F3, ?F4; try done.
      unfold ph. by rewrite Eph, F5.
    + destruct (F7 j b Hj) as [Eb Hr]. pose proof (lookup_lt_Some _ _ _ Hj) as Hjl. cbn [drop].
      assert (Hbq : (0 ≤ bi_ptGhist b ∧ bi_ptGhist b = (w + Z.of_nat (S j)) mod L ∧ (w < bi_ptGhist b ∨ bi_ptGhist b + M < w) ∧ (ptGhist h = 0 → bi_ptGhist b + M < L))%Z).
      { rewrite Eb, !slot_cases by lia. unfold w, next_slot.
        destruct (Z.eqb_spec (ptGhist h) 0); repeat match goal with |- context [?a <? ?b] => destruct (Z.ltb_spec a b) end; lia. }
      destruct Hbq as (Hb0 & Hbw & Hbo & Hbr). split; [done|]. eapply (remembers_keep h); [done| |cbn; by rewrite ?Eci, ?Ec0, ?Ec1..].
      cbn. rewrite Eg. apply window_write; [|lia..]. intros i Hi. assert (Hbs : bi_ptGhist b < L) by (rewrite Eb; apply Z.mod_pos_bound; lia). rewrite Hroll by lia.
      destruct (Z.eqb_spec (ptGhist h) 0) as [E0|]; cbn [andb]; [rewrite (proj2 (Z.leb_gt _ _)) by (specialize (Hbr E0); lia)|]; by apply (re_buf _ _ _ Hr).
Qed.

(** Rewriting the outcome of the youngest branch. *)
Lemma restore_at (h : ThreadHistory) (path path' : list (Z * bool)) (bi : BranchInfo) (l : list Z) (q ph : Z) :
  remembers h path bi → at_path (dirs path') (computeIndices h) = computeIndices h → at_path (dirs path') (computeTags0 h) = computeTags0 h →
  at_path (dirs path') (computeTags1 h) = computeTags1 h →
  restore_comps bi (h <| th_pathHist := ph |> <| ptGhist := q |> <| gHist := q |> <| globalHistory := l |>)
  = fold_all (dirs (tail path)) (h <| th_pathHist := ph |> <| ptGhist := q |> <| gHist := q |> <| globalHistory := l |>).
Proof using.
  intros [_ R1 R2 R3 _] E1 E2 E3. unfold restore_comps. rewrite R1, R2, R3. destruct h. cbv -[at_path put_comps fmap list_fmap comp] in *.
  rewrite <- E1 at 1. rewrite <- E2 at 1. rewrite <- E3 at 1. by rewrite !put_comps_at.
Qed.

(** A return to branch [k] of those in flight, now with direction [taken]. *)
Lemma follows_replay (n : nat) (taken : bool) (h : ThreadHistory) (path : list (Z * bool)) (fl : list BranchInfo) (k : nat) (bi : BranchInfo) (pc : Z) (b : bool) :
  th_ok n h → follows h path fl → fl !! k = Some bi → path !! k = Some (pc, b) →
  ∃ h', replayOutcome taken bi (h <| th_pathHist := bi_pathHist bi |> <| ptGhist := bi_ptGhist bi |> <| gHist := bi_ptGhist bi |>) = Ok h'
    ∧ th_ok n h' ∧ follows h' ((pc, taken) :: drop (S k) path) (drop k fl).
Proof using HM Hsize.
  intros Hh [F1 F2 F3 F4 F5 [F6 F6'] F7] Hk Hp. destruct (F7 k bi Hk) as [Eq Hr]. pose proof (lookup_lt_Some _ _ _ Hk) as Hkl.
  pose proof (th_pt n h Hh) as Hpt. pose proof (th_len n h Hh) as Hlen. assert (Hq : 0 ≤ bi_ptGhist bi < L) by (rewrite Eq; apply Z.mod_pos_bound; lia).
  pose proof (drop_S _ _ _ Hp) as Ed. unfold replayOutcome. cbn [gHist globalHistory]. rewrite vset_in_range by (cbn; lia). cbn [mbind res_bind].
  set (l := <[_ := _]> _). rewrite (restore_at h (drop k path) path bi l) by done. rewrite Ed. cbn [tail].
  set (h1 := h <| th_pathHist := _ |> <| ptGhist := _ |> <| gHist := _ |> <| globalHistory := l |>).
  assert (Hh1 : th_ok n h1) by (destruct Hh; split; cbn; unfold l; rewrite ?length_insert; done || lia).
  assert (Hnew : in_buffer M l (bi_ptGhist bi) (taken :: dirs (drop (S k) path))).
  { unfold l. cbn [globalHistory]. apply window_new; [cbn; lia|]. intros i Hi. rewrite (re_buf _ _ _ Hr) by lia. rewrite Ed. unfold outcome. cbn [fmap list_fmap snd].
    destruct (Z.to_nat i) as [|k'] eqn:E; [lia|]. by replace (Z.to_nat (i - 1)) with k' by lia. }
  rewrite (refold_at n taken _ h1 Hh1 Hnew). exists (fold_all (dirs ((pc, taken) :: drop (S k) path)) h1). split; [done|]. split; [by apply th_ok_fold|].
  split; cbn [fold_all]; try (cbn -[at_path]; rewrite ?at_path_idem; done).
  - cbn. rewrite (re_ph _ _ _ Hr), Ed. done.
  - cbn. rewrite !length_drop. lia.
  - intros j b' Hj. rewrite lookup_drop in Hj. destruct (F7 _ _ Hj) as [Eb Hb]. pose proof (lookup_lt_Some _ _ _ Hj) as Hjl. cbn [ptGhist].
    assert (Hs : bi_ptGhist b' = (bi_ptGhist bi + Z.of_nat j) mod L ∧ 0 ≤ bi_ptGhist b' < L ∧ (j ≠ 0%nat → bi_ptGhist bi < bi_ptGhist b' ∨ bi_ptGhist b' + M < bi_ptGhist bi)).
    { rewrite Eb, Eq. rewrite Zplus_mod_idemp_l. split; [f_equal; lia|]. rewrite !slot_cases by lia.
      repeat match goal with |- context [?a <? ?b] => destruct (Z.ltb_spec a b) end; lia. }
    destruct Hs as (Hs1 & Hs2 & Hs3). split; [done|]. destruct j as [|j].
    + rewrite Nat.add_0_r in Hj. rewrite Hk in Hj. injection Hj as <-. destruct Hr as [_ R2 R3 R4 R5]. rewrite Ed in *. split; cbn -[at_path]; rewrite ?at_path_idem; done.
    + cbn [drop]. rewrite drop_drop. replace (S k + j)%nat with (k + S j)%nat by lia. eapply (remembers_keep h); [done| |done..].
      cbn. apply window_write; [apply (re_buf _ _ _ Hb)|lia|cbn; lia|by apply Hs3].
Qed.

(** The oldest branches in flight commit. *)
Lemma follows_prefix (h : ThreadHistory) (path : list (Z * bool)) (fl old : list BranchInfo) : follows h path (fl ++ old) → follows h path fl.
Proof using.
  intros [F1 F2 F3 F4 F5 F6 F7]. rewrite length_app in F6. split; try done; [lia|]. intros j bi Hj. apply F7. by apply lookup_app_l_Some.
Qed.
End buffer.
