(* ===== verification/LTAGEInv.v ===== *)
(** * The L-TAGE predictor keeps its tables

    Well-formed predictors and what each step of prediction and training does to them:
    every index is within its table, counters stay within their width, and the contract of
    a direction predictor ([PredictorOk]) holds. *)

From S2P Require Import Prelude IntMath BPred LTAGE LTAGEHist.
Local Open Scope Z_scope.

(** ** Well-formed predictors *)
Definition entry_ok (bits : Z) (e : TageEntry) : Prop :=
  - 2 ^ (bits - 1) ≤ te_ctr e < 2 ^ (bits - 1) ∧ 0 ≤ te_tag e < 2 ^ 16 ∧ 0 ≤ te_u e ≤ 1.
Definition bim_ok (e : BimodalEntry) : Prop := 0 ≤ bim_pred e ≤ 1 ∧ 0 ≤ hyst e ≤ 1.
Definition loop_ok (e : LoopEntry) : Prop :=
  0 ≤ numIter e < 2 ^ 16 ∧ 0 ≤ le_currentIter e < 2 ^ 16 ∧ 0 ≤ currentIterSpec e < 2 ^ 16 ∧ 0 ≤ confidence e ≤ 7 ∧ 0 ≤ le_tag e < 2 ^ 16 ∧ 0 ≤ age e ≤ 7.

Abbreviation banks p := (Z.to_nat (nHistoryTables p)).
Record ltage_wf (p : LTAGE) : Prop := {
  gw_n : 1 ≤ nHistoryTables p ≤ 12;
  gw_bits : 1 ≤ tagTableCounterBits p ≤ 8;
  gw_logs : 0 ≤ logSizeBiMP p ∧ 2 ≤ logSizeLoopPred p;
  gw_hist : 31 ≤ maxHist p ∧ 2 * maxHist p < histBufferSize p;
  gw_arrays : (banks p < length (tagTableSizes p) ∧ banks p < length (tagWidths p) ∧ banks p < length (histLengths p))%nat;
  gw_sizes : Forall (λ s, 0 ≤ s) (tagTableSizes p);
  gw_btable : Z.of_nat (length (btable p)) = 2 ^ logSizeBiMP p ∧ Forall bim_ok (btable p);
  gw_ltable : Z.of_nat (length (ltable p)) = 2 ^ logSizeLoopPred p ∧ Forall loop_ok (ltable p);
  gw_rows : length (gtable p) = S (banks p);
  gw_gtable (i s : Z) row : 1 ≤ i → vget (gtable p) i = Ok row → vget (tagTableSizes p) i = Ok s →
    Z.of_nat (length row) = 2 ^ s ∧ Forall (entry_ok (tagTableCounterBits p)) row;
  gw_ctrs : -64 ≤ loopUseCounter p < 64 ∧ -8 ≤ useAltPredForNewlyAllocated p < 8;
  gw_hists (t : nat) : th_ok (histBufferSize p) (maxHist p) (banks p) (threadHistory p t);
}.
(** The sizes, which no operation changes. *)
Definition lt_geom (p : LTAGE) : list Z :=
  logSizeBiMP p :: logSizeLoopPred p :: nHistoryTables p :: histBufferSize p :: maxHist p :: tagTableSizes p.
(** Tables change, sizes and histories do not. *)
Definition trained (p p' : LTAGE) : Prop := ltage_wf p' ∧ lt_geom p' = lt_geom p ∧ threadHistory p' = threadHistory p.

Lemma trained_refl p : ltage_wf p → trained p p.
Proof. by split. Qed.
Lemma trained_trans p p' p'' : trained p p' → trained p' p'' → trained p p''.
Proof. intros (_ & E & F) (H & E' & F'). split; [done|]. split; congruence. Qed.

(** Entry [x] of table [bank] exists. *)
Definition in_table (p : LTAGE) (bank x : Z) : Prop := 1 ≤ bank ≤ nHistoryTables p ∧ ∃ s, vget (tagTableSizes p) bank = Ok s ∧ 0 ≤ x < 2 ^ s.

Section wf.
Context (p : LTAGE) (H : ltage_wf p).

Lemma size_at (i : Z) : 1 ≤ i ≤ nHistoryTables p → ∃ s, vget (tagTableSizes p) i = Ok s ∧ 0 ≤ s.
Proof.
  intros Hi. destruct (gw_arrays p H) as [Ha _]. destruct (vget_in_range (tagTableSizes p) i) as [s Hs]; [lia|]. exists s. split; [done|].
  apply vget_ok in Hs as [_ Hs]. by apply (Forall_lookup_1 _ _ _ _ (gw_sizes p H) Hs).
Qed.

Lemma row_at (i x : Z) : in_table p i x →
  ∃ row e, vget (gtable p) i = Ok row ∧ vget row x = Ok e ∧ 0 ≤ x < Z.of_nat (length row) ∧ Forall (entry_ok (tagTableCounterBits p)) row ∧ entry_ok (tagTableCounterBits p) e.
Proof.
  intros [Hi (s & Hs & Hx)]. pose proof (gw_rows p H). destruct (vget_in_range (gtable p) i) as [row Hr]; [lia|]. destruct (gw_gtable p H i s row) as [El Ho]; [lia|done..|].
  destruct (vget_in_range row x) as [e He]; [lia|]. exists row, e. split_and!; try done; [lia|lia|]. apply vget_ok in He as [_ He]. by apply (Forall_lookup_1 _ _ _ _ Ho He).
Qed.

Lemma tage_at_ok (i x : Z) : in_table p i x → ∃ e, tage_at i x p = Ok e ∧ entry_ok (tagTableCounterBits p) e.
Proof. intros Hi. destruct (row_at i x Hi) as (row & e & Hr & He & _ & _ & Ho). exists e. unfold tage_at. by rewrite Hr. Qed.

Lemma on_tage_ok (i x : Z) (f : TageEntry → res TageEntry) :
  in_table p i x → (∀ e, entry_ok (tagTableCounterBits p) e → ∃ e', f e = Ok e' ∧ entry_ok (tagTableCounterBits p) e') →
  ∃ e e' p', tage_at i x p = Ok e ∧ f e = Ok e' ∧ on_tage i x f p = Ok p' ∧ trained p p' ∧ tage_at i x p' = Ok e'
    ∧ tagTableCounterBits p' = tagTableCounterBits p ∧ (∀ j y, j ≠ i → tage_at j y p' = tage_at j y p).
Proof.
  intros Hi Hf. destruct (row_at i x Hi) as (row & e & Hr & He & Hx & Hrow & Ho). destruct (Hf e Ho) as (e' & E & Ho'). exists e, e'.
  unfold on_tage, tage_at. rewrite Hr. cbn [mbind res_bind]. rewrite He. cbn [mbind res_bind]. rewrite E. cbn [mbind res_bind]. rewrite vset_in_range by done. cbn [mbind res_bind].
  destruct Hi as [Hi (s & Hs & _)]. pose proof (gw_rows p H) as Hrows. rewrite vset_in_range by lia. cbn [mbind res_bind]. eexists. split; [done|]. split; [done|]. split; [done|].
  split; [|cbn; split_and!].
  - split; [|done]. destruct H as [? ? ? ? ? ? ? ? _ G ? ?]. split; cbn; rewrite ?length_insert; try done. intros j s' row' Hj Hrow' Hs'.
    rewrite vget_insert in Hrow' by lia. destruct (Z.eqb_spec i j) as [<-|]; [|by apply (G j)]. injection Hrow' as <-. rewrite length_insert. destruct (G i s' row ltac:(lia) Hr Hs') as [? ?].
    split; [done|]. by apply Forall_insert.
  - rewrite vget_insert, Z.eqb_refl by lia. cbn [mbind res_bind]. by rewrite vget_insert, Z.eqb_refl by lia.
  - done.
  - intros j y Hj. destruct (Z.lt_ge_cases j 0); [unfold vget; by rewrite (proj2 (Z.leb_gt 0 j)) by lia|]. by rewrite vget_insert, (proj2 (Z.eqb_neq i j)) by lia.
Qed.
End wf.

(** ** Tables of a predictor *)
Lemma land_shift_range (x k : Z) : 0 ≤ k → 0 ≤ Z.land x (Z.shiftl 1 k - 1) < 2 ^ k.
Proof. intros Hk. rewrite Z.shiftl_1_l, land_mask by done. apply Z.mod_pos_bound. lia. Qed.

Section lookups.
Context {env : LTAGEEnv} (p : LTAGE) (H : ltage_wf p).

Lemma bindex_range (pc : Z) : 0 ≤ bindex pc p < 2 ^ logSizeBiMP p.
Proof using H. apply land_shift_range, (gw_logs p H). Qed.
Lemma lindex_range (pc : Z) : 0 ≤ lindex pc p ∧ lindex pc p + 3 < 2 ^ logSizeLoopPred p.
Proof using H.
  destruct (gw_logs p H) as [_ Hl]. pose proof (land_shift_range pc (logSizeLoopPred p - 2) ltac:(lia)) as Hr. unfold lindex.
  rewrite Z.shiftl_mul_pow2 by lia. replace (2 ^ logSizeLoopPred p) with (2 ^ (logSizeLoopPred p - 2) * 2 ^ 2) by (rewrite <- Z.pow_add_r by lia; f_equal; lia). lia.
Qed.

Lemma fold_at (fs : list FoldedHistory) (i : Z) : length fs = S (banks p) → 1 ≤ i ≤ nHistoryTables p → ∃ f, vget fs i = Ok f.
Proof using. intros E Hi. apply vget_in_range. lia. Qed.

Lemma gindex_ok (t : nat) (pc i : Z) : 1 ≤ i ≤ nHistoryTables p → ∃ x, gindex t pc i p = Ok x ∧ in_table p i x.
Proof using H.
  intros Hi. destruct (gw_arrays p H) as (_ & _ & Hh). pose proof (gw_hists p H t) as Ht. destruct (size_at p H i Hi) as (s & Hs & Hp).
  destruct (vget_in_range (histLengths p) i) as [hl Hhl]; [lia|]. destruct (fold_at _ i (th_ci _ _ _ _ Ht) Hi) as [f Hf].
  unfold gindex. rewrite Hhl, Hs, Hf. cbn [mbind res_bind]. eexists. split; [done|]. split; [done|]. exists s. split; [done|]. by apply land_shift_range.
Qed.
Lemma gtag_ok (t : nat) (pc i : Z) : 1 ≤ i ≤ nHistoryTables p → ∃ y, gtag t pc i p = Ok y ∧ 0 ≤ y < 2 ^ 16.
Proof using H.
  intros Hi. destruct (gw_arrays p H) as (_ & Hw & _). pose proof (gw_hists p H t) as Ht. destruct (vget_in_range (tagWidths p) i) as [w Hww]; [lia|].
  destruct (fold_at _ i (th_ct0 _ _ _ _ Ht) Hi) as [f0 Hf0]. destruct (fold_at _ i (th_ct1 _ _ _ _ Ht) Hi) as [f1 Hf1].
  unfold gtag. rewrite Hww, Hf0, Hf1. cbn [mbind res_bind]. eexists. split; [done|]. unfold u16. apply Z.mod_pos_bound. lia.
Qed.

(** The indices and tags of a branch. *)
Record hashed (t : nat) (pc : Z) (bi : BranchInfo) : Prop := {
  ha_index (i : Z) : 1 ≤ i ≤ nHistoryTables p → ∃ x, gindex t pc i p = Ok x ∧ vget (bi_tableIndices bi) i = Ok x ∧ in_table p i x;
  ha_tag (i : Z) : 1 ≤ i ≤ nHistoryTables p → ∃ y, gtag t pc i p = Ok y ∧ vget (bi_tableTags bi) i = Ok y ∧ 0 ≤ y < 2 ^ 16;
}.

Lemma hash_tables_ok (t : nat) (pc : Z) (fuel : nat) (i : Z) (bi : BranchInfo) :
  1 ≤ i → i + Z.of_nat fuel = nHistoryTables p + 1 → length (bi_tableIndices bi) = S (banks p) → length (bi_tableTags bi) = S (banks p) →
  (∀ j, 1 ≤ j < i → ∃ x, gindex t pc j p = Ok x ∧ vget (bi_tableIndices bi) j = Ok x) → (∀ j, 1 ≤ j < i → ∃ y, gtag t pc j p = Ok y ∧ vget (bi_tableTags bi) j = Ok y) →
  ∃ idxs tags, hash_tables fuel i t pc p bi = Ok (bi <| bi_tableIndices := idxs |> <| bi_tableTags := tags |>)
    ∧ hashed t pc (bi <| bi_tableIndices := idxs |> <| bi_tableTags := tags |>).
Proof using H.
  revert i bi. induction fuel as [|fuel IH]; intros i bi Hi Hf L1 L2 I1 I2; cbn [hash_tables].
  - exists (bi_tableIndices bi), (bi_tableTags bi). replace (bi <| bi_tableIndices := _ |> <| bi_tableTags := _ |>) with bi by (by destruct bi). split; [done|].
    split; intros j Hj; [destruct (I1 j) as (x & Ex & Hx); [lia|]; destruct (gindex_ok t pc j Hj) as (x' & Ex' & Hin)|destruct (I2 j) as (x & Ex & Hx); [lia|]; destruct (gtag_ok t pc j Hj) as (x' & Ex' & Hin)];
      rewrite Ex in Ex'; injection Ex' as <-; by exists x.
  - destruct (gindex_ok t pc i) as (x & Ex & _); [lia|]. destruct (gtag_ok t pc i) as (y & Ey & _); [lia|]. rewrite Ex. cbn [mbind res_bind]. rewrite vset_in_range by lia. cbn [mbind res_bind].
    rewrite Ey. cbn [mbind res_bind]. rewrite vset_in_range by lia. cbn [mbind res_bind].
    set (bi' := bi <| bi_tableIndices := _ |> <| bi_tableTags := _ |>).
    destruct (IH (i + 1) bi') as (idxs & tags & E & Hh); [lia|lia|cbn; by rewrite length_insert..| | |].
    + intros j Hj. cbn. rewrite vget_insert by lia. destruct (Z.eqb_spec i j) as [<-|]; [by exists x|]. apply I1. lia.
    + intros j Hj. cbn. rewrite vget_insert by lia. destruct (Z.eqb_spec i j) as [<-|]; [by exists y|]. apply I2. lia.
    + exists idxs, tags. replace (bi <| bi_tableIndices := idxs |> <| bi_tableTags := tags |>) with (bi' <| bi_tableIndices := idxs |> <| bi_tableTags := tags |>) by done. done.
Qed.

(** ** The longest match *)
(** The entry of table [i] has the tag of the branch. *)
Definition hit_at (bi : BranchInfo) (i : Z) : Prop :=
  ∃ x y e, vget (bi_tableIndices bi) i = Ok x ∧ vget (bi_tableTags bi) i = Ok y ∧ tage_at i x p = Ok e ∧ te_tag e = y.
(** Table [b] is the longest one up to [k] that matches; 0: there is none. *)
Definition longest (bi : BranchInfo) (k b : Z) : Prop := 0 ≤ b ≤ k ∧ (0 < b → hit_at bi b) ∧ ∀ i, b < i ≤ k → ¬ hit_at bi i.

Lemma find_bank_ok (t : nat) (pc : Z) (bi : BranchInfo) (k : nat) :
  hashed t pc bi → Z.of_nat k ≤ nHistoryTables p → ∃ b, find_bank k bi p = Ok b ∧ longest bi (Z.of_nat k) b.
Proof using H.
  intros Hh. induction k as [|k IH]; intros Hk; cbn [find_bank].
  - exists 0. split; [done|]. split; [lia|]. split; [lia|]. intros i Hi. lia.
  - destruct (ha_index _ _ _ Hh (Z.of_nat (S k))) as (x & _ & Hx & Hin); [lia|]. destruct (ha_tag _ _ _ Hh (Z.of_nat (S k))) as (y & _ & Hy & _); [lia|].
    destruct (tage_at_ok p H _ _ Hin) as (e & He & _). rewrite Hx, Hy. cbn [mbind res_bind]. rewrite He. cbn [mbind res_bind]. destruct (Z.eqb_spec (te_tag e) y) as [Ht|Hne].
    + exists (Z.of_nat (S k)). split; [done|]. split; [lia|]. split; [intros _; by exists x, y, e|]. intros i Hi. lia.
    + destruct IH as (b & E & Hb & Hhit & Hno); [lia|]. exists b. split; [done|]. split; [lia|]. split; [done|]. intros i Hi.
      destruct (Z.eq_dec i (Z.of_nat (S k))) as [->|]; [|apply Hno; lia]. intros (x' & y' & e' & Ex & Ey & Ee & Et). congruence.
Qed.

Lemma bimode_ok (bi : BranchInfo) : 0 ≤ bimodalIndex bi < 2 ^ logSizeBiMP p → ∃ b, getBimodePred bi p = Ok b.
Proof using H.
  intros Hi. destruct (gw_btable p H) as [El _]. destruct (vget_in_range (btable p) (bimodalIndex bi)) as [e He]; [lia|]. unfold getBimodePred. rewrite He. by eexists.
Qed.

(** What the tagged tables predict: the longest match, or its alternate (the next longest,
    or the bimodal table) while the longest match is fresh and alternates do better. *)
Record tage_predicted (bi bi' : BranchInfo) : Prop := {
  tp_idx : bi_tableIndices bi' = bi_tableIndices bi;
  tp_tags : bi_tableTags bi' = bi_tableTags bi;
  tp_bim : bimodalIndex bi' = bimodalIndex bi;
  tp_iter : bi_currentIter bi' = bi_currentIter bi;
  tp_hit : longest bi (nHistoryTables p) (hitBank bi');
  tp_hitIndex : 0 < hitBank bi' → vget (bi_tableIndices bi) (hitBank bi') = Ok (hitBankIndex bi') ∧ in_table p (hitBank bi') (hitBankIndex bi');
  tp_alt : 0 < hitBank bi' → longest bi (hitBank bi' - 1) (altBank bi');
  tp_noalt : hitBank bi' = 0 → altBank bi' = 0;
  tp_altIndex : 0 < altBank bi' → vget (bi_tableIndices bi) (altBank bi') = Ok (altBankIndex bi') ∧ in_table p (altBank bi') (altBankIndex bi');
  tp_altTaken : if 0 <? altBank bi' then ∃ e, tage_at (altBank bi') (altBankIndex bi') p = Ok e ∧ altTaken bi' = (0 <=? te_ctr e)
                else getBimodePred bi p = Ok (altTaken bi');
  tp_pred : if 0 <? hitBank bi' then
              ∃ e, tage_at (hitBank bi') (hitBankIndex bi') p = Ok e ∧ longestMatchPred bi' = (0 <=? te_ctr e) ∧ pseudoNewAlloc bi' = weak (te_ctr e)
                ∧ tagePred bi' = (if (useAltPredForNewlyAllocated p <? 0) || negb (weak (te_ctr e)) then longestMatchPred bi' else altTaken bi')
            else longestMatchPred bi' = altTaken bi' ∧ tagePred bi' = altTaken bi';
}.

Lemma tage_predict_ok (t : nat) (pc : Z) (bi : BranchInfo) :
  hashed t pc bi → 0 ≤ bimodalIndex bi < 2 ^ logSizeBiMP p → ∃ bi', tage_predict bi p = Ok bi' ∧ tage_predicted bi bi'.
Proof using H.
  intros Hh Hb. pose proof (gw_n p H) as Hn. unfold tage_predict. destruct (find_bank_ok t pc bi (banks p) Hh ltac:(lia)) as (hit & Eh & Hl). rewrite Z2Nat.id in Hl by lia. rewrite Eh. cbn [mbind res_bind].
  destruct (bimode_ok bi Hb) as [bm Ebm].
  assert (Ebm' : ∀ b : BranchInfo, bimodalIndex b = bimodalIndex bi → getBimodePred b p = Ok bm) by (intros b Eb; unfold getBimodePred in *; by rewrite Eb). destruct (Z.ltb_spec 0 hit) as [Hpos|Hz].
  - destruct (ha_index t pc bi Hh hit) as (x & _ & Hx & Hin); [destruct Hl; lia|]. rewrite Hx. cbn [mbind res_bind].
    destruct (find_bank_ok t pc bi (Z.to_nat (hit - 1)) Hh) as (alt & Ea & Hla); [destruct Hl; lia|]. rewrite Z2Nat.id in Hla by lia.
    assert (Ea' : find_bank (Z.to_nat (hit - 1)) (bi <| hitBank := hit |> <| hitBankIndex := x |>) p = Ok alt) by (rewrite <- Ea; clear; induction (Z.to_nat (hit - 1)) as [|k IH]; cbn; [done|by rewrite IH]).
    rewrite Ea'. cbn [mbind res_bind]. destruct (tage_at_ok p H _ _ Hin) as (e & He & _). destruct (Z.ltb_spec 0 alt) as [Hap|Haz].
    + destruct (ha_index t pc bi Hh alt) as (y & _ & Hy & Hiy); [destruct Hl, Hla; lia|]. destruct (tage_at_ok p H _ _ Hiy) as (ea & Hea & _). cbn. rewrite Hy. cbn. rewrite Hea. cbn. rewrite He. cbn.
      eexists. split; [done|]. split; cbn; rewrite ?(proj2 (Z.ltb_lt 0 alt)), ?(proj2 (Z.ltb_lt 0 hit)) by lia; first [done|lia|by exists ea|by exists e].
    + assert (alt = 0) as -> by (destruct Hla; lia). cbn -[getBimodePred tage_at]. rewrite Ebm' by done. cbn -[getBimodePred tage_at]. rewrite He. cbn.
      eexists. split; [done|]. split; cbn; rewrite ?(proj2 (Z.ltb_lt 0 hit)) by lia; first [done|lia|by exists e].
  - assert (hit = 0) as -> by (destruct Hl; lia). cbn -[getBimodePred tage_at]. change (Z.to_nat (0 - 1)) with 0%nat. cbn -[getBimodePred tage_at]. rewrite Ebm' by done. cbn -[getBimodePred tage_at]. eexists. split; [done|]. by split.
Qed.

(** ** The loop predictor *)
Definition loop_at (p : LTAGE) (bi : BranchInfo) : Prop := 0 ≤ loopIndex bi ∧ loopIndex bi + 3 < 2 ^ logSizeLoopPred p.

Lemma ltable_at (i : Z) : 0 ≤ i < 2 ^ logSizeLoopPred p → ∃ e, vget (ltable p) i = Ok e ∧ loop_ok e.
Proof using H.
  intros Hi. destruct (gw_ltable p H) as [El Ho]. destruct (vget_in_range (ltable p) i) as [e He]; [lia|]. exists e. split; [done|]. apply vget_ok in He as [_ He]. by apply (Forall_lookup_1 _ _ _ _ Ho He).
Qed.

Lemma getLoop_loop_ok (bi : BranchInfo) (fuel : nat) (i : Z) :
  loop_at p bi → loopHit bi = -1 → 0 ≤ bi_currentIter bi < 2 ^ 16 → 0 ≤ i → i + Z.of_nat fuel ≤ 4 →
  ∃ b hit valid iter, getLoop_loop fuel i bi p = Ok (b, bi <| loopHit := hit |> <| loopPredValid := valid |> <| bi_currentIter := iter |>) ∧ -1 ≤ hit ≤ 3 ∧ 0 ≤ iter < 2 ^ 16
    ∧ if 0 <=? hit then
        ∃ e, vget (ltable p) (loopIndex bi + hit) = Ok e ∧ le_tag e = loopTag bi ∧ valid = (3 <=? confidence e)
          ∧ b = (if currentIterSpec e + 1 =? numIter e then negb (dir e) else dir e)
      else valid = loopPredValid bi.
Proof using H.
  intros Ha Hm Hc. revert i. induction fuel as [|fuel IH]; intros i Hi Hf; cbn [getLoop_loop].
  - exists false, (-1), (loopPredValid bi), (bi_currentIter bi). split; [|by split; [lia|]]. do 2 f_equal. rewrite <- Hm. by destruct bi.
  - destruct Ha as [Ha1 Ha2]. destruct (ltable_at (loopIndex bi + i)) as (e & He & Ho); [lia|]. rewrite He. cbn [mbind res_bind]. destruct (Z.eqb_spec (le_tag e) (loopTag bi)).
    + do 4 eexists. split; [done|]. split; [lia|]. split; [apply Ho|]. rewrite (proj2 (Z.leb_le 0 i)) by lia. by exists e.
    + apply IH; lia.
Qed.

Lemma ltable_set (i : Z) (e : LoopEntry) : 0 ≤ i < 2 ^ logSizeLoopPred p → loop_ok e → ∃ t, vset i e (ltable p) = Ok t ∧ trained p (p <| ltable := t |>).
Proof using H.
  intros Hi He. destruct (gw_ltable p H) as [El Ho]. rewrite vset_in_range by lia. eexists. split; [done|]. split; [|done]. destruct H as [? ? ? ? ? ? ? _ ? ? ? ?]. split; cbn; try done.
  rewrite length_insert. split; [done|]. by apply Forall_insert.
Qed.

Lemma specLoopUpdate_ok (pc : Z) (taken : bool) (bi : BranchInfo) : ∃ p', specLoopUpdate pc taken bi p = Ok p' ∧ trained p p'.
Proof using H.
  unfold specLoopUpdate. destruct (0 <=? loopHit bi); [|exists p; split; [done|by apply trained_refl]]. destruct (lindex_range pc). destruct (ltable_at (lindex pc p)) as (e & He & Ho); [lia|].
  rewrite He. cbn [mbind res_bind]. match goal with |- context [vset _ ?e' _] => destruct (ltable_set (lindex pc p) e') as (t & Et & Ht) end; [lia| |rewrite Et; by eexists].
  destruct Ho as (? & ? & ? & ? & ? & ?). destruct (Bool.eqb taken (dir e)); split_and!; cbn; try lia; unfold u16; apply Z.mod_pos_bound; lia.
Qed.

Lemma restoreLoop_ok (bi : BranchInfo) :
  (condBranch bi = true → loop_at p bi ∧ -1 ≤ loopHit bi ≤ 3 ∧ 0 ≤ bi_currentIter bi < 2 ^ 16) → ∃ p', restoreLoop bi p = Ok p' ∧ trained p p'.
Proof using H.
  intros Hb. unfold restoreLoop. destruct (condBranch bi); [|exists p; split; [done|by apply trained_refl]]. destruct Hb as ([Ha1 Ha2] & Hh & Hc); [done|]. cbn [andb].
  destruct (Z.leb_spec 0 (loopHit bi)); [|exists p; split; [done|by apply trained_refl]]. destruct (ltable_at (loopIndex bi + loopHit bi)) as (e & He & Ho); [lia|]. rewrite He. cbn [mbind res_bind].
  match goal with |- context [vset _ ?e' _] => destruct (ltable_set (loopIndex bi + loopHit bi) e') as (t & Et & Ht) end; [lia| |rewrite Et; by eexists].
  destruct Ho as (? & ? & ? & ? & ? & ?). split_and!; cbn; lia.
Qed.

(** What is in a history object for a conditional branch. *)
Record cond_ok (bi : BranchInfo) : Prop := {
  co_idx (i : Z) : 1 ≤ i ≤ nHistoryTables p → ∃ x, vget (bi_tableIndices bi) i = Ok x ∧ in_table p i x;
  co_tag (i : Z) : 1 ≤ i ≤ nHistoryTables p → ∃ y, vget (bi_tableTags bi) i = Ok y;
  co_bim : 0 ≤ bimodalIndex bi < 2 ^ logSizeBiMP p;
  co_hit : 0 ≤ hitBank bi ≤ nHistoryTables p;
  co_hitIndex : 0 < hitBank bi → in_table p (hitBank bi) (hitBankIndex bi);
  co_alt : 0 ≤ altBank bi ≤ nHistoryTables p;
  co_altIndex : 0 < altBank bi → in_table p (altBank bi) (altBankIndex bi);
  co_loop : loop_at p bi;
  co_loopHit : -1 ≤ loopHit bi ≤ 3;
  co_iter : 0 ≤ bi_currentIter bi < 2 ^ 16;
}.

(** The prediction [b] for a conditional branch, with the object [bi] that records it. *)
Record predicted (t : nat) (pc : Z) (b : bool) (bi : BranchInfo) : Prop := {
  pd_hashed : hashed t pc bi;
  pd_tage : tage_predicted bi bi;
  pd_loop : if 0 <=? loopHit bi then
              ∃ e, vget (ltable p) (lindex pc p + loopHit bi) = Ok e ∧ le_tag e = s32 (Z.shiftr pc (logSizeLoopPred p - 2)) ∧ loopPredValid bi = (3 <=? confidence e)
                ∧ loopPred bi = (if currentIterSpec e + 1 =? numIter e then negb (dir e) else dir e)
            else loopPredValid bi = false;
  pd_final : b = (if (0 <=? loopUseCounter p) && loopPredValid bi then loopPred bi else tagePred bi);
}.

Lemma lt_predict_ok (t : nat) (pc : Z) (cond : bool) :
  ∃ b bi p', lt_predict t pc cond p = Ok (b, bi, p') ∧ trained p p' ∧ condBranch bi = cond ∧ if cond then cond_ok bi ∧ predicted t pc b bi else b = true.
Proof using H.
  pose proof (gw_n p H) as Hn. unfold lt_predict. set (bi0 := BranchInfo_new _ <| loopHit := -1 |>). destruct cond.
  2: { cbn [mbind res_bind]. set (bi1 := bi0 <| branchPC := pc |> <| condBranch := false |>). destruct (specLoopUpdate_ok pc true bi1) as (p' & E & Ht). rewrite E. cbn [mbind res_bind]. by exists true, bi1, p'. }
  destruct (hash_tables_ok t pc (banks p) 1 bi0) as (idxs & tags & E1 & Hh); [lia|lia|cbn; rewrite length_replicate; lia|cbn; rewrite length_replicate; lia|intros j Hj; lia|intros j Hj; lia|].
  rewrite E1. cbn [mbind res_bind]. set (bi1 := bi0 <| bi_tableIndices := idxs |> <| bi_tableTags := tags |> <| bimodalIndex := bindex pc p |>).
  pose proof (bindex_range pc) as Hbi. destruct (tage_predict_ok t pc bi1) as (bi2 & E2 & Hp); [destruct Hh; by split|done|]. rewrite E2. cbn [mbind res_bind]. unfold getLoop.
  set (bi3 := bi2 <| loopHit := -1 |> <| loopPredValid := false |> <| loopIndex := _ |> <| loopTag := _ |>).
  destruct Hp as [P1 P2 P3 P4 P5 P6 P7 P8 P9 P10 P11].
  destruct (getLoop_loop_ok bi3 4 0) as (lp & hit & valid & iter & E3 & Hhit & Hiter & Hl); [apply lindex_range|done|cbn; rewrite P4; cbn; lia|lia|lia|].
  rewrite E3. cbn [mbind res_bind]. match goal with |- context [specLoopUpdate pc ?b ?bi p] => destruct (specLoopUpdate_ok pc b bi) as (p' & E4 & Ht); rewrite E4; exists b, bi, p'; set (bi4 := bi) end.
  cbn [mbind res_bind]. split; [done|]. split; [done|]. split; [done|].
  assert (Hh4 : hashed t pc bi4) by (destruct Hh as [A1 A2]; split; cbn; rewrite ?P1, ?P2; done).
  assert (Hl4 : ∀ k b, longest bi1 k b → longest bi4 k b).
  { intros k b (Hk & Hb & Hno). unfold longest, hit_at in *. cbn. by rewrite P1, P2. }
  assert (Hb4 : getBimodePred bi4 p = getBimodePred bi1 p) by (unfold getBimodePred; cbn; by rewrite P3). split.
  - split; cbn; rewrite ?P3; try done.
    + intros i Hi. destruct (ha_index _ _ _ Hh4 i Hi) as (x & _ & Hx & Hin). by exists x.
    + intros i Hi. destruct (ha_tag _ _ _ Hh4 i Hi) as (y & _ & Hy & _). by exists y.
    + apply P5.
    + intros Hhb. by apply P6.
    + destruct (Z.lt_ge_cases 0 (hitBank bi2)) as [Hp0|Hp0]; [destruct (P7 Hp0) as [? _]; destruct P5 as [? _]; lia|]. rewrite P8 by (destruct P5; lia). lia.
    + intros Hab. by apply P9.
    + apply lindex_range.
  - split; [done| |done|done]. split; try done; cbn; rewrite ?P1, ?P2, ?P3; try done.
    + by apply Hl4.
    + intros Hhb. by apply Hl4, P7.
    + destruct (0 <? altBank bi2); [done|]. by rewrite Hb4.
Qed.
End lookups.
