(* ===== verification/LTAGEOps.v ===== *)
(** * The operations of the L-TAGE predictor

    Training and repair keep the predictor well formed; prediction and repair move the
    histories as [LTAGEHist.v] says.  The predictor keeps the contract of a direction
    predictor. *)

From S2P Require Import Prelude IntMath Targets BPred LTAGE LTAGEHist LTAGEInv.
From stdpp Require Import list.
Local Open Scope Z_scope.

(** ** History objects *)
Record bi_ok (p : LTAGE) (bi : BranchInfo) : Prop := {
  bo_pt : 0 ≤ bi_ptGhist bi < histBufferSize p - maxHist p;
  bo_ci : length (ci bi) = S (banks p);
  bo_ct0 : length (ct0 bi) = S (banks p);
  bo_ct1 : length (ct1 bi) = S (banks p);
  bo_cond : condBranch bi = true → cond_ok p bi;
}.

Lemma cond_ok_geom p p' bi : lt_geom p = lt_geom p' → cond_ok p bi → cond_ok p' bi.
Proof.
  intros E [C1 C2 C3 C4 C5 C6 C7 C8 C9 C10]. injection E as E1 E2 E3 E4 E5 E6. unfold in_table, loop_at in *. split; unfold in_table, loop_at; rewrite <- ?E1, <- ?E2, <- ?E3, <- ?E6; done.
Qed.
Lemma bi_ok_geom p p' bi : lt_geom p = lt_geom p' → bi_ok p bi → bi_ok p' bi.
Proof.
  intros E [B1 B2 B3 B4 B5]. pose proof E as E'. injection E' as _ _ E3 E4 E5 _. split; rewrite <- ?E3, <- ?E4, <- ?E5; try done. intros Hc. by apply (cond_ok_geom p), B5.
Qed.

(** ** Counters *)
Lemma ctrUpdate_ok (c : Z) (taken : bool) (bits : Z) :
  1 ≤ bits ≤ 8 → - 2 ^ (bits - 1) ≤ c < 2 ^ (bits - 1) → ∃ c', ctrUpdate c taken bits = Ok c' ∧ - 2 ^ (bits - 1) ≤ c' < 2 ^ (bits - 1).
Proof.
  intros Hb Hc. unfold ctrUpdate. rewrite (proj2 (Z.leb_le bits 8)) by lia. cbn [mbind res_bind assert]. eexists. split; [done|]. rewrite Z.shiftl_1_l.
  destruct taken; [destruct (Z.ltb_spec c (2 ^ (bits - 1) - 1))|destruct (Z.ltb_spec (- 2 ^ (bits - 1)) c)]; lia.
Qed.

Lemma loopIterate_ok (bi : BranchInfo) (e : LoopEntry) : loop_ok e → loop_ok (loopIterate bi e).
Proof.
  intros (H1 & H2 & H3 & H4 & H5 & H6). unfold loopIterate, freeLoop, u16. pose proof (Z.mod_pos_bound (le_currentIter e + 1) (2 ^ 16) ltac:(lia)) as Hm.
  set (c := loopPredValid bi && negb _). destruct (Z.ltb_spec (age e) 7); [destruct c|rewrite andb_false_r]; cbn [andb];
    set (k := (le_currentIter _ + 1) mod 2 ^ 16); destruct (numIter _ <? _); try (destruct (numIter _ =? 0)); split_and!; cbn in *; lia.
Qed.
Lemma loopEnd_ok (taken : bool) (e : LoopEntry) : loop_ok e → loop_ok (loopEnd taken e).
Proof.
  intros Ho. pose proof Ho as (H1 & H2 & H3 & H4 & H5 & H6). unfold loopEnd, freeLoop. destruct (Bool.eqb taken (dir e)); [done|].
  destruct (le_currentIter e =? numIter e); [destruct (Z.ltb_spec (confidence e) 7); destruct (numIter _ <? 3)|destruct (numIter e =? 0)]; split_and!; cbn in *; lia.
Qed.
Lemma loopTrain_ok (taken : bool) (bi : BranchInfo) (e : LoopEntry) : loop_ok e → loop_ok (loopTrain taken bi e).
Proof.
  intros Ho. unfold loopTrain. destruct (_ && _); [|by apply loopEnd_ok, loopIterate_ok]. destruct Ho as (? & ? & ? & ? & ? & ?). split_and!; cbn; lia.
Qed.

(** ** Training *)
Section ops.
Context {env : LTAGEEnv}.

(** Counters outside the tables. *)
Lemma trained_loopUse p c : ltage_wf p → -64 ≤ c < 64 → trained p (p <| loopUseCounter := c |>).
Proof using. intros [? ? ? ? ? ? ? ? ? ? [? ?] ?] Hc. split; [|done]. by split. Qed.
Lemma trained_useAlt p c : ltage_wf p → -8 ≤ c < 8 → trained p (p <| useAltPredForNewlyAllocated := c |>).
Proof using. intros [? ? ? ? ? ? ? ? ? ? [? ?] ?] Hc. split; [|done]. by split. Qed.
Lemma trained_draws p : ltage_wf p → trained p (p <| lt_draws ::= S |>).
Proof using. intros [? ? ? ? ? ? ? ? ? ? ? ?]. split; [|done]. by split. Qed.
Lemma trained_ltable p t : ltage_wf p → Z.of_nat (length t) = 2 ^ logSizeLoopPred p → Forall loop_ok t → trained p (p <| ltable := t |>).
Proof using. intros [? ? ? ? ? ? ? _ ? ? ? ?] Hl Ho. split; [|done]. by split. Qed.

Lemma allocLoop_ok (fuel : nat) (nrand i : Z) (taken : bool) (bi : BranchInfo) (t : list LoopEntry) :
  0 ≤ loopIndex bi → loopIndex bi + 3 < Z.of_nat (length t) → Forall loop_ok t →
  ∃ t', allocLoop fuel nrand i taken bi t = Ok t' ∧ length t' = length t ∧ Forall loop_ok t'.
Proof using.
  revert i t. induction fuel as [|fuel IH]; intros i t Hi Hl Ho; cbn [allocLoop]; [by exists t|].
  pose proof (Z.land_ones (nrand + i) 2 ltac:(lia)) as Hlo. change (Z.ones 2) with 3 in Hlo. pose proof (Z.mod_pos_bound (nrand + i) (2 ^ 2) ltac:(lia)) as Hm. set (idx := loopIndex bi + Z.land (nrand + i) 3).
  assert (Hidx : 0 ≤ idx < Z.of_nat (length t)) by (unfold idx; lia). destruct (vget_in_range t idx Hidx) as [e He]. rewrite He. cbn [mbind res_bind]. apply vget_ok in He as [_ He].
  destruct (Forall_lookup_1 _ _ _ _ Ho He) as (? & ? & ? & ? & ? & ?). destruct (Z.eqb_spec (age e) 0).
  - rewrite vset_in_range by done. eexists. split; [done|]. rewrite length_insert. split; [done|]. apply Forall_insert; [done|].
    pose proof (Z.mod_pos_bound (loopTag bi) (2 ^ 16) ltac:(lia)). unfold u16. split_and!; cbn; lia.
  - rewrite vset_in_range by done. cbn [mbind res_bind]. destruct (IH (i + 1) (<[Z.to_nat idx := e <| age := age e - 1 |>]> t)) as (t' & E & Hl' & Ho').
    + done.
    + by rewrite length_insert.
    + apply Forall_insert; [done|]. split_and!; cbn; lia.
    + exists t'. rewrite length_insert in Hl'. done.
Qed.

Lemma loopUpdate_ok p (taken : bool) (bi : BranchInfo) : ltage_wf p → cond_ok p bi → ∃ p', loopUpdate taken bi p = Ok p' ∧ trained p p'.
Proof using.
  intros H Hb. destruct (co_loop _ _ Hb) as [Ha1 Ha2]. pose proof (co_loopHit _ _ Hb). unfold loopUpdate. destruct (Z.leb_spec 0 (loopHit bi)).
  - destruct (ltable_at p H (loopIndex bi + loopHit bi)) as (e & He & Ho); [lia|]. rewrite He. cbn [mbind res_bind].
    destruct (ltable_set p H (loopIndex bi + loopHit bi) (loopTrain taken bi e)) as (t & Et & Ht); [lia|by apply loopTrain_ok|]. rewrite Et. by eexists.
  - destruct taken; [|exists p; split; [done|by apply trained_refl]]. destruct (gw_ltable p H) as [El Ho].
    destruct (allocLoop_ok 4 (s32 (lt_random (lt_draws p))) 0 true bi (ltable p)) as (t & Et & Hl & Ht); [lia|lia|done|]. rewrite Et. cbn [mbind res_bind]. eexists. split; [done|].
    apply (trained_trans _ (p <| ltable := t |>)); [apply trained_ltable; [done|lia|done]|]. apply trained_draws. apply trained_ltable; [done|lia|done].
Qed.

(** ** The tagged tables *)
Lemma in_table_geom p p' (i x : Z) : lt_geom p = lt_geom p' → in_table p i x → in_table p' i x.
Proof using. intros E. injection E as _ _ E3 _ _ E6. unfold in_table. by rewrite E3, E6. Qed.

Lemma start_bank_range (nrand hit n : Z) : 0 ≤ hit < n → hit + 1 ≤ start_bank nrand hit n ≤ n.
Proof using.
  intros Hh. unfold start_bank. set (Y := Z.land _ _). pose proof (land_shift_range nrand (n - hit - 1) ltac:(lia)) as HY. fold Y in HY.
  destruct (Z.odd Y) eqn:Eo; [|lia]. assert (HY1 : 1 ≤ Y) by (destruct (Z.eq_dec Y 0) as [E|]; [rewrite E in Eo; done|lia]).
  assert (H1 : 0 < n - hit - 1) by (destruct (Z.eq_dec (n - hit - 1) 0) as [E|]; [rewrite E in HY; cbn in HY; lia|lia]).
  destruct (Z.eqb_spec (Z.land Y 2) 0) as [E2|N2]; cbn [negb]; [lia|].
  enough (1 < n - hit - 1) by lia. destruct (Z.eq_dec (n - hit - 1) 1) as [E|]; [|lia]. rewrite E in HY. assert (Y = 1) as HYe by lia. rewrite HYe in N2. done.
Qed.

Lemma min_useful_ok p (bi : BranchInfo) (i : nat) (m : Z) :
  ltage_wf p → cond_ok p bi → Z.of_nat i ≤ nHistoryTables p → ∃ m', min_useful i bi p m = Ok m'.
Proof using.
  intros H Hb. revert m. induction i as [|i IH]; intros m Hi; cbn [min_useful]; [by eexists|]. destruct (hitBank bi <? Z.of_nat (S i)); [|by eexists].
  destruct (co_idx _ _ Hb (Z.of_nat (S i))) as (x & Hx & Hin); [lia|]. rewrite Hx. cbn [mbind res_bind]. destruct (tage_at_ok p H _ _ Hin) as (e & He & _). rewrite He. cbn [mbind res_bind]. apply IH. lia.
Qed.

Lemma alloc_loop_ok (bi : BranchInfo) (taken : bool) (fuel : nat) (i : Z) p :
  ltage_wf p → cond_ok p bi → 1 ≤ i → i + Z.of_nat fuel ≤ nHistoryTables p + 1 →
  ∃ p', alloc_loop fuel i taken bi p = Ok p' ∧ trained p p'.
Proof using.
  revert i p. induction fuel as [|fuel IH]; intros i p H Hb Hi Hf; cbn [alloc_loop]; [exists p; split; [done|by apply trained_refl]|].
  destruct (co_idx _ _ Hb i) as (x & Hx & Hin); [lia|]. destruct (co_tag _ _ Hb i) as (y & Hy); [lia|]. rewrite Hx, Hy. cbn [mbind res_bind].
  edestruct (on_tage_ok p H i x) as (e & e' & p1 & _ & _ & E & Ht & _); [done| |rewrite E; cbn [mbind res_bind]].
  - intros e He. eexists. split; [done|]. pose proof (gw_bits p H) as Hbits. pose proof (Z.pow_pos_nonneg 2 (tagTableCounterBits p - 1) ltac:(lia) ltac:(lia)).
    destruct (te_u e =? 0); [|done]. pose proof (Z.mod_pos_bound y (2 ^ 16) ltac:(lia)). unfold u16. split_and!; cbn; try destruct taken; lia.
  - pose proof Ht as (H1 & Hg & _). pose proof Hg as Hg'. injection Hg' as _ _ En _ _ _. destruct (IH (i + 1) p1) as (p' & E' & Ht'); [done|by apply (cond_ok_geom p)|lia|lia|].
    exists p'. split; [done|]. by eapply trained_trans.
Qed.

Lemma allocTage_ok p (nrand : Z) (taken : bool) (bi : BranchInfo) :
  ltage_wf p → cond_ok p bi → hitBank bi < nHistoryTables p → ∃ p', allocTage nrand taken bi p = Ok p' ∧ trained p p'.
Proof using.
  intros H Hb Hh. pose proof (gw_n p H) as Hn. pose proof (co_hit _ _ Hb) as Hch. unfold allocTage. destruct (min_useful_ok p bi (banks p) 1 H Hb) as [m ->]; [lia|]. cbn [mbind res_bind].
  pose proof (start_bank_range nrand (hitBank bi) (nHistoryTables p) ltac:(lia)) as HX. set (X := start_bank _ _ _) in *. destruct (co_idx _ _ Hb X) as (x & Hx & Hin); [lia|].
  assert (∃ p1, (if 0 <? m then x ← vget (bi_tableIndices bi) X; on_tage X x (λ e, Ok (e <| te_u := 0 |>)) p else Ok p) = Ok p1 ∧ trained p p1) as (p1 & -> & Ht).
  { destruct (0 <? m); [|exists p; split; [done|by apply trained_refl]]. rewrite Hx. cbn [mbind res_bind]. edestruct (on_tage_ok p H X x) as (e & e' & p1 & _ & _ & E & Ht & _); [done| |rewrite E; by exists p1].
    intros e (? & ? & ?). eexists. split; [done|]. split_and!; cbn; lia. }
  cbn [mbind res_bind]. pose proof Ht as (H1 & Hg & _). pose proof Hg as Hg'. injection Hg' as _ _ En _ _ _.
  destruct (alloc_loop_ok bi taken (Z.to_nat (nHistoryTables p - X + 1)) X p1) as (p' & E' & Ht'); [done|by apply (cond_ok_geom p)|lia|lia|].
  exists p'. rewrite En. split; [done|]. by eapply trained_trans.
Qed.

Lemma chooseAlt_ok p (taken : bool) (bi : BranchInfo) : ltage_wf p → ∃ alloc p', chooseAlt taken bi p = Ok (alloc, p') ∧ trained p p' ∧ (alloc = true → hitBank bi < nHistoryTables p).
Proof using.
  intros H. unfold chooseAlt. set (alloc := negb _ && _). assert (Ha : alloc = true → hitBank bi < nHistoryTables p) by (unfold alloc; rewrite andb_true_iff, Z.ltb_lt; by intros [_ ?]).
  destruct (_ && pseudoNewAlloc bi); [|exists alloc, p; split; [done|split; [by apply trained_refl|done]]]. set (alloc' := if Bool.eqb _ taken then false else alloc).
  assert (Ha' : alloc' = true → hitBank bi < nHistoryTables p) by (unfold alloc'; by destruct (Bool.eqb (longestMatchPred bi) taken)).
  destruct (negb (Bool.eqb (longestMatchPred bi) (altTaken bi))); [|exists alloc', p; split; [done|split; [by apply trained_refl|done]]]. destruct (gw_ctrs p H) as [_ Hu].
  destruct (ctrUpdate_ok (useAltPredForNewlyAllocated p) (Bool.eqb (altTaken bi) taken) 4) as (c & -> & Hc); [lia|cbn; lia|]. cbn [mbind res_bind].
  do 2 eexists. split; [done|]. split; [|done]. by apply trained_useAlt.
Qed.

Lemma ageTage_ok p : ltage_wf p → trained p (ageTage p).
Proof using.
  intros [? ? ? ? ? ? ? ? Hr G ? ?]. unfold ageTage. cbn. destruct (_ =? 0); (split; [|done]); split; cbn; try done.
  - by rewrite length_map.
  - intros i s row Hi Hrow Hs. apply vget_ok in Hrow as [Hi0 Hrow]. rewrite list_lookup_fmap in Hrow. destruct (gtable p !! Z.to_nat i) as [row0|] eqn:E0; [|done]. injection Hrow as <-.
    destruct (G i s row0 Hi) as [El Ho]; [by apply vget_ok|done|]. rewrite length_map. split; [done|]. apply Forall_fmap. eapply Forall_impl; [exact Ho|]. intros e (He1 & He2 & He3). cbn. split_and!; cbn; try lia.
    + apply Z.shiftr_nonneg. lia.
    + rewrite Z.shiftr_div_pow2 by lia. change (2 ^ 1) with 2. assert (te_u e / 2 ≤ 1 / 2) by (apply Z.div_le_mono; lia). change (1 / 2) with 0 in *. lia.
Qed.

Lemma baseUpdate_ok p (taken : bool) (bi : BranchInfo) : ltage_wf p → cond_ok p bi → ∃ p', baseUpdate taken bi p = Ok p' ∧ trained p p'.
Proof using.
  intros H Hb. pose proof (co_bim _ _ Hb) as Hi. destruct (gw_btable p H) as [El Ho]. unfold baseUpdate. destruct (vget_in_range (btable p) (bimodalIndex bi)) as [b He]; [lia|]. rewrite He. cbn [mbind res_bind].
  rewrite vset_in_range by lia. cbn [mbind res_bind]. eexists. split; [done|]. split; [|done]. destruct H as [? ? ? ? ? ? _ ? ? ? ? ?]. split; cbn; try done. rewrite length_insert. split; [done|].
  apply Forall_insert; [done|]. apply vget_ok in He as [_ He]. destruct (Forall_lookup_1 _ _ _ _ Ho He) as [Hb1 Hb2]. set (v := Z.shiftl (bim_pred b) 1 + hyst b).
  assert (Hv : 0 ≤ v ≤ 3) by (unfold v; rewrite Z.shiftl_mul_pow2 by lia; change (2 ^ 1) with 2; lia). set (x := if taken then _ else _).
  assert (Hx : 0 ≤ x ≤ 3) by (unfold x; destruct taken; [destruct (Z.ltb_spec v 3)|destruct (Z.ltb_spec 0 v)]; lia).
  clearbody x. assert (Hc : x = 0 ∨ x = 1 ∨ x = 2 ∨ x = 3) by lia. destruct Hc as [-> | [-> | [-> | ->]]]; split; split; by vm_compute.
Qed.

Lemma trainTage_ok p (taken : bool) (bi : BranchInfo) : ltage_wf p → cond_ok p bi → ∃ p', trainTage taken bi p = Ok p' ∧ trained p p'.
Proof using.
  intros H Hb. unfold trainTage. destruct (Z.ltb_spec 0 (hitBank bi)) as [Hh|]; [|by apply baseUpdate_ok]. pose proof (co_hitIndex _ _ Hb Hh) as Hin. pose proof (gw_bits p H) as Hbits.
  assert (Htr : ∀ q e, tagTableCounterBits q = tagTableCounterBits p → entry_ok (tagTableCounterBits p) e → ∃ e', trainCtr taken q e = Ok e' ∧ entry_ok (tagTableCounterBits p) e').
  { intros q e Eq (He1 & He2 & He3). unfold trainCtr. rewrite Eq. destruct (ctrUpdate_ok (te_ctr e) taken (tagTableCounterBits p)) as (c & -> & Hc); [done..|]. cbn [mbind res_bind]. eexists. split; [done|]. split_and!; cbn; lia. }
  destruct (on_tage_ok p H (hitBank bi) (hitBankIndex bi) (trainCtr taken p) Hin) as (e0 & e1 & p1 & _ & _ & -> & Ht1 & He1 & Eb1 & _); [intros e; by apply Htr|]. cbn [mbind res_bind]. rewrite He1. cbn [mbind res_bind].
  pose proof Ht1 as (H1 & Hg1 & _). assert (Hb1 : cond_ok p1 bi) by (by apply (cond_ok_geom p)).
  assert (∃ p2, (if te_u e1 =? 0 then if 0 <? altBank bi then on_tage (altBank bi) (altBankIndex bi) (trainCtr taken p1) p1 else if altBank bi =? 0 then baseUpdate taken bi p1 else Ok p1 else Ok p1) = Ok p2 ∧ trained p1 p2) as (p2 & -> & Ht2).
  { destruct (te_u e1 =? 0); [|exists p1; split; [done|by apply trained_refl]]. destruct (Z.ltb_spec 0 (altBank bi)) as [Ha|].
    - destruct (on_tage_ok p1 H1 (altBank bi) (altBankIndex bi) (trainCtr taken p1)) as (e2 & e3 & p2 & _ & _ & E2 & Ht2 & _); [by apply (co_altIndex _ _ Hb1)|rewrite Eb1; intros e; by apply Htr|]. by exists p2.
    - destruct (altBank bi =? 0); [by apply baseUpdate_ok|exists p1; split; [done|by apply trained_refl]]. }
  cbn [mbind res_bind]. pose proof Ht2 as (H2 & Hg2 & _). destruct (_ && _); [|exists p2; split; [done|by eapply trained_trans]].
  destruct (on_tage_ok p2 H2 (hitBank bi) (hitBankIndex bi) (λ e, Ok (if te_u e <? 1 then e <| te_u := te_u e + 1 |> else e))) as (e4 & e5 & p3 & _ & _ & E3 & Ht3 & _).
  - apply (in_table_geom p); [congruence|done].
  - intros e (? & ? & ?). eexists. split; [done|]. destruct (Z.ltb_spec (te_u e) 1); split_and!; cbn; lia.
  - exists p3. split; [done|]. eapply trained_trans; [done|]. by eapply trained_trans.
Qed.

(** A commit changes tables only. *)
Lemma lt_commit_ok p (t : nat) (pc : Z) (taken : bool) (bi : BranchInfo) :
  ltage_wf p → bi_ok p bi → ∃ p', lt_update t pc taken (Some bi) false p = Ok p' ∧ trained p p'.
Proof using.
  intros H Hb. unfold lt_update. cbn [deref mbind res_bind]. set (nrand := _ mod 4). pose proof (trained_draws p H) as Ht0. set (p0 := p <| lt_draws ::= S |>) in *.
  pose proof Ht0 as (H0 & Hg0 & _). destruct (condBranch bi) eqn:Ec; [|by exists p0]. pose proof (bo_cond _ _ Hb Ec) as Hc.
  destruct (loopUpdate_ok p0 taken bi H0) as (p1 & -> & Ht1); [by apply (cond_ok_geom p)|]. cbn [mbind res_bind]. pose proof Ht1 as (H1 & Hg1 & _).
  assert (∃ p2, (if loopPredValid bi && negb (Bool.eqb (tagePred bi) (loopPred bi)) then c ← ctrUpdate (loopUseCounter p1) (Bool.eqb (loopPred bi) taken) 7; Ok (p1 <| loopUseCounter := c |>) else Ok p1) = Ok p2 ∧ trained p1 p2) as (p2 & -> & Ht2).
  { destruct (_ && _); [|exists p1; split; [done|by apply trained_refl]]. destruct (gw_ctrs p1 H1) as [Hl _]. destruct (ctrUpdate_ok (loopUseCounter p1) (Bool.eqb (loopPred bi) taken) 7) as (c & -> & Hcr); [lia|cbn; lia|].
    cbn [mbind res_bind]. eexists. split; [done|]. by apply trained_loopUse. }
  cbn [mbind res_bind]. pose proof Ht2 as (H2 & Hg2 & _). destruct (chooseAlt_ok p2 taken bi H2) as (alloc & p3 & -> & Ht3 & Hal). cbn [mbind res_bind]. pose proof Ht3 as (H3 & Hg3 & _).
  assert (Hc3 : cond_ok p3 bi) by (apply (cond_ok_geom p); [congruence|done]). pose proof Hg3 as Hg3'. injection Hg3' as _ _ En _ _ _.
  assert (∃ p4, (if alloc : bool then allocTage nrand taken bi p3 else Ok p3) = Ok p4 ∧ trained p3 p4) as (p4 & -> & Ht4).
  { destruct alloc; [apply allocTage_ok; [done|done|rewrite En; by apply Hal]|exists p3; split; [done|by apply trained_refl]]. }
  cbn [mbind res_bind]. pose proof Ht4 as (H4 & Hg4 & _). pose proof (ageTage_ok p4 H4) as Ht5. pose proof Ht5 as (H5 & Hg5 & _).
  destruct (trainTage_ok (ageTage p4) taken bi H5) as (p6 & E6 & Ht6); [apply (cond_ok_geom p); [congruence|done]|]. exists p6. split; [done|].
  apply (trained_trans _ p0 _ Ht0), (trained_trans _ p1 _ Ht1), (trained_trans _ p2 _ Ht2), (trained_trans _ p3 _ Ht3), (trained_trans _ p4 _ Ht4), (trained_trans _ (ageTage p4) _ Ht5), Ht6.
Qed.
End ops.

(** ** Histories *)
Section histories.
Context {env : LTAGEEnv}.

(** The histories of one thread change, the rest does not. *)
Definition moved (t : nat) (p p' : LTAGE) : Prop := ltage_wf p' ∧ lt_geom p' = lt_geom p ∧ ∀ t', t' ≠ t → threadHistory p' t' = threadHistory p t'.

Lemma on_thread_ok p (t : nat) (h : ThreadHistory) : ltage_wf p → th_ok (histBufferSize p) (maxHist p) (banks p) h → moved t p (on_thread t h p).
Proof using.
  intros [? ? ? ? ? ? ? ? ? ? ? G] Hh. split; [|split; [done|intros t' Ht; cbn; by rewrite fn_lookup_insert_ne]]. split; cbn; try done.
  intros t'. destruct (decide (t = t')) as [<-|]; [by rewrite fn_lookup_insert|by rewrite fn_lookup_insert_ne].
Qed.
Lemma moved_trained (t : nat) p p' p'' : moved t p p' → trained p' p'' → moved t p p''.
Proof using. intros (_ & E & F) (H & E' & F'). split; [done|]. split; [congruence|]. intros t' Ht. rewrite F'. by apply F. Qed.
Lemma trained_moved (t : nat) p p' p'' : trained p p' → moved t p' p'' → moved t p p''.
Proof using. intros (_ & E & F) (H & E' & F'). split; [done|]. split; [congruence|]. intros t' Ht. rewrite F' by done. by rewrite F. Qed.

Lemma updateHistories_ok p (t : nat) (pc : Z) (taken : bool) (bi : BranchInfo) :
  ltage_wf p → (condBranch bi = true → cond_ok p bi) →
  ∃ bi' h', updateHistories t pc taken bi p = Ok (bi', on_thread t h' p) ∧ moved t p (on_thread t h' p) ∧ bi_ok p bi' ∧ gHist h' = ptGhist h'
    ∧ ∃ q ph c c0 c1, bi' = bi <| bi_ptGhist := q |> <| bi_pathHist := ph |> <| ci := c |> <| ct0 := c0 |> <| ct1 := c1 |>.
Proof using.
  intros H Hb. pose proof (gw_hists p H t) as Ht. pose proof (gw_hist p H) as Hg. pose proof (gw_n p H) as Hn. unfold updateHistories.
  destruct (updateGHist_ok (histBufferSize p) (maxHist p) ltac:(lia) ltac:(lia) (banks p) taken p (threadHistory p t) Ht eq_refl eq_refl) as (l & h1 & -> & Hh1 & Ept & _). cbn [mbind res_bind].
  match goal with |- context [refold ?h] => set (h2 := h) end. assert (Hh2 : th_ok (histBufferSize p) (maxHist p) (banks p) h2) by (destruct Hh1; by split).
  destruct (refold_total (histBufferSize p) (maxHist p) (banks p) h2 Hh2) as (h3 & -> & Hh3 & _ & _). cbn [mbind res_bind]. do 2 eexists. split; [done|]. split; [by apply on_thread_ok|].
  split; [|split; [apply (th_ptr _ _ _ _ Hh3)|by do 5 eexists]]. destruct Hh1. split; cbn; rewrite ?length_fmap; try done. intros Hc. destruct (Hb Hc). by split.
Qed.

Lemma replayOutcome_ok p (taken : bool) (bi : BranchInfo) (h : ThreadHistory) :
  ltage_wf p → bi_ok p bi → th_ok (histBufferSize p) (maxHist p) (banks p) h →
  ∃ h', replayOutcome taken bi h = Ok h' ∧ th_ok (histBufferSize p) (maxHist p) (banks p) h'.
Proof using.
  intros H [B1 B2 B3 B4 _] Hh. pose proof (gw_hist p H) as Hg. pose proof Hh as [T1 T2 T3 T4 T5 T6 T7 T8 T9]. unfold replayOutcome. rewrite vset_in_range by lia. cbn [mbind res_bind].
  match goal with |- context [refold ?x] => destruct (refold_total (histBufferSize p) (maxHist p) (banks p) x) as (h' & E & Hh' & _); [|by exists h'] end.
  apply th_ok_restore; [|done..]. split; cbn; rewrite ?length_insert; done.
Qed.

Lemma ghr_loop_ok (l : list Z) (fuel : nat) (i pt v : Z) :
  0 ≤ pt + i → pt + i + Z.of_nat fuel ≤ Z.of_nat (length l) → ∃ v', ghr_loop fuel i pt (Z.of_nat (length l)) l v = Ok v'.
Proof using.
  revert i v. induction fuel as [|fuel IH]; intros i v Hi Hl; cbn [ghr_loop]; [by eexists|]. rewrite (proj2 (Z.ltb_lt _ _)) by lia. cbn [mbind res_bind assert].
  destruct (vget_in_range l (pt + i)) as [x ->]; [lia|]. cbn [mbind res_bind]. apply IH; lia.
Qed.

(** ** The contract *)
Definition lt_hist (G : list Z) (h : option BranchInfo) : Prop := match h with Some bi => ∀ p, lt_geom p = G → bi_ok p bi | None => False end.

Lemma lt_hist_ok p h : lt_hist (lt_geom p) h → ∃ bi, h = Some bi ∧ bi_ok p bi.
Proof using. destruct h as [bi|]; [|done]. intros Hh. exists bi. split; [done|]. by apply Hh. Qed.

Lemma push_ok p (t : nat) (pc : Z) (cond : bool) (taken : bool → bool) :
  ltage_wf p → ∃ b bi0 p0 bi h',
    lt_predict t pc cond p = Ok (b, bi0, p0) ∧ trained p p0 ∧ (if cond then predicted p t pc b bi else b = true)
    ∧ updateHistories t pc (taken b) bi0 p0 = Ok (bi, on_thread t h' p0) ∧ moved t p (on_thread t h' p0) ∧ lt_hist (lt_geom p) (Some bi) ∧ gHist h' = ptGhist h'.
Proof using.
  intros H. destruct (lt_predict_ok p H t pc cond) as (b & bi0 & p0 & E & Ht & Ec & Hp). pose proof Ht as (H0 & Hg0 & _).
  destruct (updateHistories_ok p0 t pc (taken b) bi0 H0) as (bi & h' & E' & Hm & Hbi & Hgh & q & ph & c & c0 & c1 & Ebi).
  { intros Hc. rewrite Hc in Ec. subst cond. apply (cond_ok_geom p); [done|]. apply Hp. }
  exists b, bi0, p0, bi, h'. split_and!; try done.
  - destruct cond; [|done]. destruct Hp as [_ [P1 P2 P3 P4]]. subst bi. destruct P1, P2. by split; [split|split|..].
  - by eapply trained_moved.
  - intros p1 Hq. apply (bi_ok_geom p0); [congruence|done].
Qed.

Lemma lt_lookup_ok p (t : nat) (pc : Z) : ltage_wf p →
  ∃ b bi p', lt_lookup t pc p = Ok (b, Some bi, p') ∧ moved t p p' ∧ lt_hist (lt_geom p) (Some bi) ∧ predicted p t pc b bi.
Proof using.
  intros H. destruct (push_ok p t pc true id H) as (b & bi0 & p0 & bi & h' & E & _ & Hp & E' & Hm & Hb & Hgh). unfold lt_lookup. rewrite E. cbn [mbind res_bind]. cbn [id] in E'. rewrite E'. cbn [mbind res_bind].
  cbn. rewrite fn_lookup_insert, Hgh, Z.eqb_refl. cbn. by do 3 eexists.
Qed.
Lemma lt_uncond_ok p (t : nat) (pc : Z) : ltage_wf p → ∃ bi p', lt_uncondBranch t pc p = Ok (Some bi, p') ∧ moved t p p' ∧ lt_hist (lt_geom p) (Some bi).
Proof using.
  intros H. destruct (push_ok p t pc false (λ _, true) H) as (b & bi0 & p0 & bi & h' & E & _ & _ & E' & Hm & Hb & Hgh). unfold lt_uncondBranch. rewrite E. cbn [mbind res_bind]. rewrite E'. cbn [mbind res_bind].
  cbn. rewrite fn_lookup_insert, Hgh, Z.eqb_refl. cbn. by do 2 eexists.
Qed.

Lemma lt_btbUpdate_ok p (t : nat) (pc : Z) (bi : BranchInfo) : ltage_wf p → bi_ok p bi →
  ∃ h', lt_btbUpdate t pc (Some bi) p = Ok (on_thread t h' p) ∧ replayOutcome false bi (threadHistory p t) = Ok h' ∧ moved t p (on_thread t h' p).
Proof using.
  intros H Hb. pose proof (gw_hists p H t) as Ht. destruct (replayOutcome_ok p false bi _ H Hb Ht) as (h' & E & Hh'). exists h'. unfold lt_btbUpdate. rewrite (th_ptr _ _ _ _ Ht), Z.eqb_refl. cbn [assert mbind res_bind deref].
  rewrite E. split; [done|]. split; [done|]. by apply on_thread_ok.
Qed.

Abbreviation rewound bi h := (h <| th_pathHist := bi_pathHist bi |> <| ptGhist := bi_ptGhist bi |> <| gHist := bi_ptGhist bi |>).
Lemma lt_repair_ok p (t : nat) (taken : bool) (bi : BranchInfo) : ltage_wf p → bi_ok p bi →
  ∃ h' p', lt_repair t taken bi p = Ok p' ∧ replayOutcome taken bi (rewound bi (threadHistory p t)) = Ok h' ∧ moved t p (on_thread t h' p) ∧ trained (on_thread t h' p) p' ∧ moved t p p'.
Proof using.
  intros H Hb. pose proof (gw_hists p H t) as Ht. destruct (replayOutcome_ok p taken bi (rewound bi (threadHistory p t)) H Hb) as (h' & E & Hh').
  { destruct Ht, (bo_pt _ _ Hb). by split. }
  unfold lt_repair. rewrite E. cbn [mbind res_bind]. pose proof (on_thread_ok p t h' H Hh') as Hm. pose proof Hm as (H1 & Hg1 & _).
  destruct (restoreLoop_ok _ H1 bi) as (p' & E' & Ht'). { intros Hc. destruct (bo_cond _ _ Hb Hc) as [_ _ _ _ _ _ _ C8 C9 C10]. done. }
  exists h', p'. split_and!; try done. by eapply moved_trained.
Qed.
Lemma lt_squash_ok p (t : nat) (bi : BranchInfo) : ltage_wf p → bi_ok p bi → ∃ p', lt_squash t (Some bi) p = Ok p' ∧ trained p p'.
Proof using. intros H Hb. apply restoreLoop_ok; [done|]. intros Hc. by destruct (bo_cond _ _ Hb Hc) as [_ _ _ _ _ _ _ C8 C9 C10]. Qed.

Lemma lt_getGHR_ok p (t : nat) (bi : BranchInfo) : ltage_wf p → bi_ok p bi → ∃ g, lt_getGHR t (Some bi) p = Ok g.
Proof using.
  intros H Hb. pose proof (bo_pt _ _ Hb). pose proof (gw_hist p H). unfold lt_getGHR. cbn [deref mbind res_bind]. rewrite <- (th_len _ _ _ _ (gw_hists p H t)).
  apply ghr_loop_ok; [lia|]. rewrite (th_len _ _ _ _ (gw_hists p H t)). lia.
Qed.

#[export, refine] Instance LTAGE_ok : PredictorOk LTAGE BranchInfo := {| po_wf := ltage_wf; po_geom := lt_geom; po_hist := lt_hist |}.
Proof.
  - intros t a p H. destruct (lt_lookup_ok p t a H) as (b & bi & p' & E & (Hw & Hg & _) & Hb & _). by exists b, (Some bi), p'.
  - intros t a p H. destruct (lt_uncond_ok p t a H) as (bi & p' & E & (Hw & Hg & _) & Hb). by exists (Some bi), p'.
  - intros t a h p H Hh. destruct (lt_hist_ok p h Hh) as (bi & -> & Hb). destruct (lt_btbUpdate_ok p t a bi H Hb) as (h' & E & _ & Hw & Hg & _). by exists (on_thread t h' p).
  - intros t a b h s p H Hh. destruct (lt_hist_ok p h Hh) as (bi & -> & Hb). destruct s.
    + destruct (lt_repair_ok p t b bi H Hb) as (h' & p' & E & _ & _ & _ & Hw & Hg & _). by exists p'.
    + destruct (lt_commit_ok p t a b bi H Hb) as (p' & E & Hw & Hg & _). by exists p'.
  - intros t h p H Hh. destruct (lt_hist_ok p h Hh) as (bi & -> & Hb). destruct (lt_squash_ok p t bi H Hb) as (p' & E & Hw & Hg & _). by exists p'.
  - intros t h p H Hh. destruct (lt_hist_ok p h Hh) as (bi & -> & Hb). by apply lt_getGHR_ok.
Defined.
End histories.
