(* ===== verification/LTAGEProps.v ===== *)
(** * What the L-TAGE predictor guarantees

    Its histories, kept incrementally, are those of the path; it predicts with the longest
    match; and three places where it does not do what it says. *)

From S2P Require Import Prelude IntMath Targets BPred LTAGE LTAGEHist LTAGEInv LTAGEOps.
From stdpp Require Import list.
Local Open Scope Z_scope.

(** ** Construction *)
Record lt_par_ok (middle : Z → Z) (a : LTAGEParams) : Prop := {
  lp_logs : 0 ≤ par_logSizeBiMP a ∧ 2 ≤ par_logSizeLoopPred a;
  lp_tables : 3 ≤ par_logSizeTagTables a ≤ 31;
  lp_n : 1 ≤ par_nHistoryTables a ≤ 12;
  lp_bits : 1 ≤ par_tagTableCounterBits a ≤ 8;
  lp_buffer : 2 * par_maxHist a < par_histBufferSize a;
  lp_hist : 1 ≤ par_minHist a ≤ par_maxHist a ∧ 31 ≤ par_maxHist a;
  lp_middle (i : Z) : 2 ≤ i ≤ par_nHistoryTables a → 1 ≤ middle i ≤ par_maxHist a;
  lp_tag : 2 ≤ par_minTagWidth a ≤ 23;
}.

Lemma folded_new_ok (M : Z) (lengths widths : list Z) (n : nat) :
  (∀ i, (1 ≤ i ≤ n)%nat → 1 ≤ nth i lengths 0 ≤ M ∧ 1 ≤ nth i widths 0 ≤ 31) →
  ∃ fs, folded_new lengths widths n = Ok fs ∧ length fs = S n ∧ folds_geom M fs ∧ at_path [] fs = fs.
Proof.
  unfold folded_new. induction n as [|n IH]; intros Hw.
  - exists [MkFoldedHistory 0 0 0 0]. split; [done|]. split; [done|]. split; [constructor|done].
  - destruct IH as (fs & E & Hl & Hg & Hp); [intros i Hi; apply Hw; lia|]. replace (S n) with (n + 1)%nat by lia. rewrite seq_app, mfold_app, E. cbn [mbind res_bind mfold seq]. replace (1 + n)%nat with (S n) by lia.
    destruct (Hw (S n) ltac:(lia)) as [H1 H2]. unfold FoldedHistory_init. rewrite (proj2 (Z.eqb_neq _ _)) by lia. cbn [mbind res_bind]. eexists. split; [done|]. split; [rewrite length_app; cbn; lia|].
    destruct fs as [|f0 fs]; [done|]. unfold folds_geom in *. cbn in *. rewrite drop_0 in *. split.
    + apply Forall_app. split; [done|]. constructor; [|constructor]. split; cbn; [done|done|]. rewrite Z.rem_mod_nonneg by lia. done.
    + f_equal. injection Hp as Hp. rewrite fmap_app, Hp. cbn. unfold fold_history. by rewrite take_nil.
Qed.

Lemma nth_table (f : Z → Z) (k : nat) (l : list Z) (i : nat) : (1 ≤ i ≤ k)%nat → (k ≤ length l)%nat → ∃ z, nth i (0 :: (f <$> l)) 0 = f z ∧ z ∈ l.
Proof.
  intros Hi Hk. destruct i as [|i]; [lia|]. cbn [nth]. destruct (lookup_lt_is_Some_2 l i) as [z Hz]; [lia|]. exists z. split; [|by eapply list_elem_of_lookup_2].
  rewrite nth_lookup, list_lookup_fmap, Hz. done.
Qed.

Lemma LTAGE_new_ok (middle : Z → Z) (a : LTAGEParams) :
  lt_par_ok middle a → ∃ p, LTAGE_new middle a = Ok p ∧ ltage_wf p ∧ histBufferSize p = par_histBufferSize a ∧ maxHist p = par_maxHist a ∧ ∀ t, follows (par_histBufferSize a) (par_maxHist a) (threadHistory p t) [] [].
Proof.
  intros [[L1 L2] T N B Hb [Hh1 Hh2] Hm Ht]. unfold LTAGE_new. rewrite (proj2 (Z.ltb_lt _ _)) by lia. cbn [assert mbind res_bind]. set (n := Z.to_nat (par_nHistoryTables a)).
  assert (Hlen : ∀ i, (1 ≤ i ≤ n)%nat → 1 ≤ nth i (hist_lengths (par_minHist a) (par_maxHist a) middle (par_nHistoryTables a)) 0 ≤ par_maxHist a).
  { intros [|[|i]] Hi; [lia|unfold hist_lengths; cbn [nth]; destruct (_ =? 1); lia|]. unfold hist_lengths. cbn [nth]. rewrite nth_lookup, list_lookup_fmap, lookup_seq_lt by lia. cbn. apply Hm. lia. }
  assert (Hsz : ∀ i, (1 ≤ i ≤ n)%nat → 1 ≤ nth i (table_sizes (par_logSizeTagTables a)) 0 ≤ 31).
  { intros i Hi. unfold table_sizes. destruct (nth_table (λ k, par_logSizeTagTables a - k) 12 [1; 1; 0; 0; 0; 0; 1; 1; 1; 1; 2; 2] i) as (z & -> & Hz); [lia|done|].
    assert (0 ≤ z ≤ 2) by (revert z Hz; by apply Forall_forall; repeat constructor; lia). lia. }
  assert (Hwd : ∀ i, (1 ≤ i ≤ n)%nat → 2 ≤ nth i (tag_widths (par_minTagWidth a)) 0 ≤ 31).
  { intros i Hi. unfold tag_widths. destruct (nth_table (λ k, par_minTagWidth a + k) 12 [0; 0; 1; 1; 2; 3; 4; 5; 5; 6; 7; 8] i) as (z & -> & Hz); [lia|done|].
    assert (0 ≤ z ≤ 8) by (revert z Hz; by apply Forall_forall; repeat constructor; lia). lia. }
  destruct (folded_new_ok (par_maxHist a) (hist_lengths (par_minHist a) (par_maxHist a) middle (par_nHistoryTables a)) (table_sizes (par_logSizeTagTables a)) n) as (x & -> & Lx & Gx & Px); [intros i Hi; split; [by apply Hlen|by apply Hsz]|].
  destruct (folded_new_ok (par_maxHist a) (hist_lengths (par_minHist a) (par_maxHist a) middle (par_nHistoryTables a)) (tag_widths (par_minTagWidth a)) n) as (y & -> & Ly & Gy & Py); [intros i Hi; split; [by apply Hlen|specialize (Hwd i Hi); lia]|].
  destruct (folded_new_ok (par_maxHist a) (hist_lengths (par_minHist a) (par_maxHist a) middle (par_nHistoryTables a)) (Z.pred <$> tag_widths (par_minTagWidth a)) n) as (z & -> & Lz & Gz & Pz).
  { intros i Hi. split; [by apply Hlen|]. specialize (Hwd i Hi). rewrite nth_lookup, list_lookup_fmap. rewrite nth_lookup in Hwd. destruct (tag_widths (par_minTagWidth a) !! i); cbn in *; lia. }
  cbn [mbind res_bind]. eexists. split; [done|]. assert (Hz0 : ∀ i, 0 ≤ i < par_histBufferSize a → vget (replicate (Z.to_nat (par_histBufferSize a)) 0) i = Ok 0) by (intros i Hi; apply vget_ok; split; [lia|]; apply lookup_replicate; lia).
  split; [|split; [done|split; [done|]]].
  - split; cbn -[table_sizes nth]; rewrite ?length_replicate; try done; try lia.
    + split; [cbn; lia|]. split; [lia|]. rewrite length_fmap, length_seq. lia.
    + repeat constructor; lia.
    + split; [lia|]. by apply Forall_replicate.
    + split; [lia|]. by apply Forall_replicate.
    + rewrite length_fmap, length_seq. done.
    + intros i s row Hi Hrow Hs. apply vget_ok in Hrow as [_ Hrow], Hs as [_ Hs]. destruct (Z.to_nat i) as [|k] eqn:Ek; [lia|]. rewrite lookup_cons in Hrow. rewrite list_lookup_fmap in Hrow.
      destruct (seq 1 n !! k) as [j|] eqn:Ej; [|done]. apply lookup_seq in Ej as [-> Hk]. cbn [fmap option_fmap option_map] in Hrow.
      assert (Er : replicate (Z.to_nat (2 ^ nth (1 + k) (table_sizes (par_logSizeTagTables a)) 0)) TageEntry_new = row) by congruence. assert (Es : nth (1 + k) (table_sizes (par_logSizeTagTables a)) 0 = s) by (rewrite nth_lookup; by change (1 + k)%nat with (S k); rewrite Hs).
      rewrite <- Er, Es, length_replicate. split; [specialize (Hsz (1 + k)%nat ltac:(lia)); lia|]. apply Forall_replicate. pose proof (Z.pow_pos_nonneg 2 (par_tagTableCounterBits a - 1) ltac:(lia) ltac:(lia)). split_and!; cbn; lia.
    + intros t. split; cbn; rewrite ?length_replicate; try done; lia.
  - intros t. split; cbn; try done.
    + intros i Hi. rewrite Z.add_0_l, Hz0 by lia. unfold outcome. by destruct (Z.to_nat i).
    + lia.
Qed.

(** ** Runs of a thread *)
Section runs.
Context {env : LTAGEEnv} (middle : Z → Z) (a : LTAGEParams) (t : nat).
Abbreviation size := (par_histBufferSize a).
Abbreviation M := (par_maxHist a).

(** A branch in flight: its history object, and whether it is still in the unit's list.
    One that was squashed keeps its place in the buffer until a correction overwrites it. *)
Definition Flight : Type := BranchInfo * bool.
Definition objects (fl : list Flight) : list BranchInfo := fl.*1.
Definition live (fl : list Flight) : list BranchInfo := (filter (λ x, x.2 = true) fl).*1.
Definition squashed (fl : list Flight) : list Flight := (λ x, (x.1, false)) <$> fl.

(** The path, youngest branch first, and the branches in flight.  The unit squashes the
    branches younger than an instruction, youngest first ([squash]); for a mispredicted
    branch it then corrects this branch ([update] with [squashed]), for a trap or a memory
    order violation it does no more.  Only the correction winds the history back: the
    outcomes of branches squashed without one stay in the history, and so in [path]. *)
Inductive lt_run : LTAGE → list (Z * bool) → list Flight → Prop :=
| lr_new p : LTAGE_new middle a = Ok p → lt_run p [] []
| lr_lookup p path fl pc b bi p' :
    lt_run p path fl → Z.of_nat (length fl) < size - 2 * M → dp_lookup t pc p = Ok (b, Some bi, p') → lt_run p' ((pc, b) :: path) ((bi, true) :: fl)
| lr_uncond p path fl pc bi p' :
    lt_run p path fl → Z.of_nat (length fl) < size - 2 * M → dp_uncondBranch t pc p = Ok (Some bi, p') → lt_run p' ((pc, true) :: path) ((bi, true) :: fl)
| lr_miss p path fl pc b bi p' :
    lt_run p ((pc, b) :: path) ((bi, true) :: fl) → dp_btbUpdate t pc (Some bi) p = Ok p' → lt_run p' ((pc, false) :: path) ((bi, true) :: fl)
| lr_commit p path fl bi pc b p' : lt_run p path (fl ++ [(bi, true)]) → dp_update t pc b (Some bi) false p = Ok p' → lt_run p' path fl
| lr_squash p path young old p' :
    lt_run p path (young ++ old) → mfold (λ p bi, dp_squash t (Some bi) p) p (live young) = Ok p' → lt_run p' path (squashed young ++ old)
| lr_forget p path fl bi : lt_run p path (fl ++ [(bi, false)]) → lt_run p path fl
| lr_correct p path young bi old pc b taken p1 p' :
    lt_run p path (young ++ (bi, true) :: old) → path !! length young = Some (pc, b) →
    mfold (λ p bi, dp_squash t (Some bi) p) p (live young) = Ok p1 → dp_update t pc taken (Some bi) true p1 = Ok p' →
    lt_run p' ((pc, taken) :: drop (S (length young)) path) ((bi, true) :: old).

Record lt_inv (p : LTAGE) (path : list (Z * bool)) (fl : list BranchInfo) : Prop := {
  li_wf : ltage_wf p;
  li_size : histBufferSize p = size;
  li_max : maxHist p = M;
  li_fl : Forall (bi_ok p) fl;
  li_follows : follows size M (threadHistory p t) path fl;
}.

Lemma inv_bounds p path fl : lt_inv p path fl → 0 ≤ M ∧ 2 * M < size.
Proof using. intros [H E1 E2 _ _]. destruct (gw_hist p H). rewrite <- E1, <- E2. lia. Qed.
Lemma inv_thread p path fl : lt_inv p path fl → th_ok size M (banks p) (threadHistory p t).
Proof using. intros [H E1 E2 _ _]. pose proof (gw_hists p H t) as Ht. by rewrite E1, E2 in Ht. Qed.

Lemma inv_trained p p' path fl : lt_inv p path fl → trained p p' → lt_inv p' path fl.
Proof using.
  intros [H E1 E2 Hb Hf] (H' & Hg & Hh). pose proof Hg as Hg'. injection Hg' as _ _ _ G1 G2 _. split; [done|congruence..| |by rewrite Hh]. eapply Forall_impl; [exact Hb|]. intros bi. by apply bi_ok_geom.
Qed.

Lemma inv_push p path fl (pc : Z) (b : bool) (bi0 bi : BranchInfo) (h' : ThreadHistory) :
  lt_inv p path fl → Z.of_nat (length fl) < size - 2 * M → updateHistories t pc b bi0 p = Ok (bi, on_thread t h' p) →
  moved t p (on_thread t h' p) → lt_hist (lt_geom p) (Some bi) → lt_inv (on_thread t h' p) ((pc, b) :: path) (bi :: fl).
Proof using.
  intros Hi Hfl E (H' & Hg & _) Hb. pose proof (inv_bounds _ _ _ Hi) as [Hm Hs]. pose proof (inv_thread _ _ _ Hi) as Ht. destruct Hi as [H E1 E2 Hbs Hf].
  destruct (follows_push size M Hm Hs (banks p) t pc b bi0 p path fl Ht E1 E2 Hf ltac:(lia)) as (bi1 & h1 & Eu & _ & Hf1). rewrite E in Eu. injection Eu as <- Eh.
  apply (f_equal (λ f, f t)) in Eh. rewrite !fn_lookup_insert in Eh. subst h1.
  split; [done|done|done| |cbn; by rewrite fn_lookup_insert]. constructor; [by apply Hb|]. eapply Forall_impl; [exact Hbs|]. intros b'. by apply bi_ok_geom.
Qed.

Lemma inv_squashes p path fl young p1 :
  lt_inv p path fl → Forall (bi_ok p) young → mfold (λ p bi, dp_squash t (Some bi) p) p young = Ok p1 → lt_inv p1 path fl.
Proof using.
  intros Hi Hy. revert p Hi Hy. induction young as [|bi young IH]; intros p Hi Hy E; cbn [mfold] in E; [by injection E as <-|]. apply Forall_cons in Hy as [Hb Hy].
  destruct (lt_squash_ok p t bi (li_wf _ _ _ Hi) Hb) as (p2 & E2 & Ht). cbn [dp_squash LTAGE_pred] in E. rewrite E2 in E. cbn [mbind res_bind] in E. apply (IH p2); [by eapply inv_trained| |done].
  destruct Ht as (_ & Hg & _). eapply Forall_impl; [exact Hy|]. intros b. by apply bi_ok_geom.
Qed.

Lemma inv_replay p path fl (k : nat) (bi : BranchInfo) (pc : Z) (b taken : bool) (h' : ThreadHistory) :
  lt_inv p path fl → fl !! k = Some bi → path !! k = Some (pc, b) →
  replayOutcome taken bi (threadHistory p t <| th_pathHist := bi_pathHist bi |> <| ptGhist := bi_ptGhist bi |> <| gHist := bi_ptGhist bi |>) = Ok h' →
  moved t p (on_thread t h' p) → lt_inv (on_thread t h' p) ((pc, taken) :: drop (S k) path) (drop k fl).
Proof using.
  intros Hi Hk Hp E (H' & Hg & _). pose proof (inv_bounds _ _ _ Hi) as [Hm Hs]. pose proof (inv_thread _ _ _ Hi) as Ht. destruct Hi as [H E1 E2 Hbs Hf].
  destruct (follows_replay size M Hm Hs (banks p) taken (threadHistory p t) path fl k bi pc b Ht Hf Hk Hp) as (h1 & Eh & _ & Hf1). rewrite E in Eh. injection Eh as <-.
  split; [done|done|done| |cbn; by rewrite fn_lookup_insert]. apply Forall_drop. eapply Forall_impl; [exact Hbs|]. intros b'. by apply bi_ok_geom.
Qed.

(** The youngest branch is where the history points. *)
Lemma rewind_youngest p path fl (bi : BranchInfo) :
  lt_inv p path (bi :: fl) → threadHistory p t <| th_pathHist := bi_pathHist bi |> <| ptGhist := bi_ptGhist bi |> <| gHist := bi_ptGhist bi |> = threadHistory p t.
Proof using.
  intros Hi. pose proof (inv_thread _ _ _ Hi) as Ht. destruct (fo_marks _ _ _ _ _ (li_follows _ _ _ Hi) 0 bi eq_refl) as [Eq Hr]. pose proof (th_pt _ _ _ _ Ht) as Hpt. rewrite Z.add_0_r, Z.mod_small in Eq by lia.
  rewrite Eq, (re_ph _ _ _ _ Hr), drop_0, <- (fo_ph _ _ _ _ _ (li_follows _ _ _ Hi)). pose proof (th_ptr _ _ _ _ Ht) as Eg. destruct (threadHistory p t). cbn in *. by rewrite Eg.
Qed.

Lemma live_ok p (fl : list Flight) : Forall (bi_ok p) (objects fl) → Forall (bi_ok p) (live fl).
Proof using.
  unfold objects, live. rewrite !Forall_fmap, !Forall_forall. intros H x [_ Hx]%list_elem_of_filter. by apply H.
Qed.
Lemma objects_squashed (young old : list Flight) : objects (squashed young ++ old) = objects (young ++ old).
Proof using. unfold objects, squashed. rewrite !fmap_app. f_equal. rewrite <- list_fmap_compose. by apply list_fmap_ext. Qed.
Lemma inv_prefix p path fl old : lt_inv p path (fl ++ old) → lt_inv p path fl.
Proof using. intros [I1 I2 I3 I4 I5]. split; try done; [by apply Forall_app in I4 as [? _]|by eapply follows_prefix]. Qed.

Lemma lt_run_inv p path fl : lt_par_ok middle a → lt_run p path fl → lt_inv p path (objects fl).
Proof using.
  intros Hpar. induction 1 as [p E|p path fl pc b bi p' _ IH Hfl E|p path fl pc bi p' _ IH Hfl E|p path fl pc b bi p' _ IH E|p path fl bi pc b p' _ IH E
    |p path young old p' _ IH E|p path fl bi _ IH|p path young bi old pc b taken p1 p' _ IH Hp E1 E].
  - destruct (LTAGE_new_ok middle a Hpar) as (p' & E' & Hw & Es & Em & Hf). rewrite E in E'. injection E' as <-. by split.
  - destruct (push_ok p t pc true id (li_wf _ _ _ IH)) as (b' & bi0 & p0 & bi' & h' & E1 & Ht & _ & E2 & Hm & Hb & Hgh). change (lt_lookup t pc p = Ok (b, Some bi, p')) in E. unfold lt_lookup in E. rewrite E1 in E. cbn [mbind res_bind] in E. cbn [id] in E2. rewrite E2 in E.
    cbn in E. rewrite fn_lookup_insert, Hgh, Z.eqb_refl in E. cbn in E. injection E as <- <- <-. pose proof Ht as (_ & Hg & _). apply (inv_push p0 path (objects fl) pc b' bi0); [by eapply inv_trained|unfold objects; by rewrite length_fmap|done| |by rewrite Hg].
    destruct Hm as (Hm1 & Hm2 & Hm3). split; [done|]. split; [congruence|]. intros t' Ht'. cbn. by rewrite fn_lookup_insert_ne.
  - destruct (push_ok p t pc false (λ _, true) (li_wf _ _ _ IH)) as (b' & bi0 & p0 & bi' & h' & E1 & Ht & _ & E2 & Hm & Hb & Hgh). change (lt_uncondBranch t pc p = Ok (Some bi, p')) in E. unfold lt_uncondBranch in E. rewrite E1 in E. cbn [mbind res_bind] in E. rewrite E2 in E.
    cbn in E. rewrite fn_lookup_insert, Hgh, Z.eqb_refl in E. cbn in E. injection E as <- <-. pose proof Ht as (_ & Hg & _). apply (inv_push p0 path (objects fl) pc true bi0); [by eapply inv_trained|unfold objects; by rewrite length_fmap|done| |by rewrite Hg].
    destruct Hm as (Hm1 & Hm2 & Hm3). split; [done|]. split; [congruence|]. intros t' Ht'. cbn. by rewrite fn_lookup_insert_ne.
  - pose proof (li_fl _ _ _ IH) as Hbs. apply Forall_cons in Hbs as [Hb _]. destruct (lt_btbUpdate_ok p t pc bi (li_wf _ _ _ IH) Hb) as (h' & E' & Er & Hm). change (lt_btbUpdate t pc (Some bi) p = Ok p') in E. rewrite E' in E. injection E as <-.
    rewrite <- (rewind_youngest p _ _ bi IH) in Er. by apply (inv_replay p _ _ 0 bi pc b false h' IH eq_refl eq_refl Er Hm).
  - unfold objects in IH. rewrite fmap_app in IH. pose proof (li_fl _ _ _ IH) as Hbs. apply Forall_app in Hbs as [_ Hb]. apply Forall_cons in Hb as [Hb _].
    destruct (lt_commit_ok p t pc b bi (li_wf _ _ _ IH) Hb) as (p2 & E' & Ht). change (lt_update t pc b (Some bi) false p = Ok p') in E. rewrite E' in E. injection E as <-.
    eapply inv_prefix, inv_trained; [exact IH|exact Ht].
  - rewrite objects_squashed. eapply inv_squashes; [exact IH| |exact E]. apply live_ok. pose proof (li_fl _ _ _ IH) as Hbs. unfold objects in Hbs. rewrite fmap_app in Hbs.
    by apply Forall_app in Hbs as [? _].
  - unfold objects in IH. rewrite fmap_app in IH. by eapply inv_prefix.
  - pose proof (li_fl _ _ _ IH) as Hbs. unfold objects in Hbs. rewrite fmap_app in Hbs. apply Forall_app in Hbs as [Hy _].
    pose proof (inv_squashes _ _ _ _ _ IH (live_ok _ _ Hy) E1) as Hi1. pose proof (li_fl _ _ _ Hi1) as Hbs1. unfold objects in Hbs1. rewrite fmap_app in Hbs1. apply Forall_app in Hbs1 as [_ Hb]. apply Forall_cons in Hb as [Hb _].
    destruct (lt_repair_ok p1 t taken bi (li_wf _ _ _ Hi1) Hb) as (h' & p2 & E' & Er & Hm & Ht & _). change (lt_repair t taken bi p1 = Ok p') in E. rewrite E' in E. injection E as <-. apply (inv_trained (on_thread t h' p1)); [|done].
    assert (Hd : objects ((bi, true) :: old) = drop (length young) (objects (young ++ (bi, true) :: old))).
    { unfold objects. by rewrite <- fmap_drop, drop_app_length. }
    rewrite Hd. apply (inv_replay p1 path (objects (young ++ (bi, true) :: old)) (length young) bi pc b taken h' Hi1); [|done|done|done].
    unfold objects. by rewrite list_lookup_fmap, list_lookup_middle.
Qed.

Lemma at_path_comp (path : list bool) (fs : list FoldedHistory) (i : Z) (f : FoldedHistory) :
  at_path path fs = fs → 1 ≤ i → vget fs i = Ok f → comp f = fold_history (compLength f) (origLength f) path.
Proof using.
  intros E Hi [_ Hf]%vget_ok. destruct (Z.to_nat i) as [|k] eqn:Ek; [lia|]. rewrite <- E in Hf. destruct fs as [|f0 fs]; [done|]. cbn [at_path] in Hf. rewrite lookup_cons, list_lookup_fmap in Hf.
  destruct (fs !! k) as [f'|]; [|done]. by injection Hf as <-.
Qed.

(** C39: The histories are those of the path.  In every run of a thread with fewer branches in
    flight than the buffer has room for, whatever was mispredicted and repaired and however
    often the buffer rolled over, the buffer holds the last [maxHist] outcomes of the
    path, every folded history is the exclusive or of the outcomes it covers, each at its
    age modulo the width, and the path history is that of the path.  The path consists of
    the branches predicted; a correction replaces what is younger than the corrected branch
    by its outcome, while a squash without a correction leaves the squashed branches in it. *)
Theorem ltage_histories_follow_path p path fl :
  lt_par_ok middle a → lt_run p path fl →
  let h := threadHistory p t in
  (∀ i, 0 ≤ i ≤ M → vget (globalHistory h) (ptGhist h + i) = Ok (outcome (snd <$> path) (Z.to_nat i)))
  ∧ (∀ i f, 1 ≤ i → vget (computeIndices h) i = Ok f ∨ vget (computeTags0 h) i = Ok f ∨ vget (computeTags1 h) i = Ok f →
       comp f = fold_history (compLength f) (origLength f) (snd <$> path))
  ∧ th_pathHist h = path_history path.
Proof using.
  intros Hpar Hrun. destruct (li_follows _ _ _ (lt_run_inv p path fl Hpar Hrun)) as [F1 F2 F3 F4 F5 _ _]. split; [done|]. split; [|done].
  intros i f Hi [Hf|[Hf|Hf]]; [by apply (at_path_comp _ _ i f F2)|by apply (at_path_comp _ _ i f F3)|by apply (at_path_comp _ _ i f F4)].
Qed.
End runs.

(** ** Prediction and training *)
Section laws.
Context {env : LTAGEEnv}.

(** C40: A lookup returns, and predicts with the longest match: among the tables whose entry
    has the tag of the branch and its history, the longest one decides, or, while its counter
    is weak and alternates have been doing no worse, the next longest (the bimodal table
    when there is none); a confident loop entry overrides both while the loop predictor is
    trusted. *)
Theorem ltage_longest_match p (t : nat) (pc : Z) :
  ltage_wf p → ∃ b bi p', lt_lookup t pc p = Ok (b, Some bi, p') ∧ ltage_wf p' ∧ predicted p t pc b bi.
Proof using. intros H. destruct (lt_lookup_ok p t pc H) as (b & bi & p' & E & (Hw & _) & _ & Hp). by exists b, bi, p'. Qed.

Lemma alloc_loop_effect (bi : BranchInfo) (taken : bool) (fuel : nat) (i : Z) p p' :
  ltage_wf p → cond_ok p bi → 1 ≤ i → i + Z.of_nat fuel ≤ nHistoryTables p + 1 → alloc_loop fuel i taken bi p = Ok p' →
  ∀ j x y e, vget (bi_tableIndices bi) j = Ok x → vget (bi_tableTags bi) j = Ok y → tage_at j x p = Ok e →
    tage_at j x p' = Ok (if (i <=? j) && (j <? i + Z.of_nat fuel) && (te_u e =? 0) then MkTageEntry (if taken then 0 else -1) (u16 y) 0 else e).
Proof using.
  revert i p. induction fuel as [|fuel IH]; intros i p H Hb Hi Hf E j x y e Hx Hy He; cbn [alloc_loop] in E.
  - injection E as <-. rewrite He. destruct (Z.leb_spec i j), (Z.ltb_spec j (i + Z.of_nat 0)); cbn [andb]; done || lia.
  - destruct (co_idx _ _ Hb i) as (xi & Hxi & Hin); [lia|]. destruct (co_tag _ _ Hb i) as (yi & Hyi); [lia|]. rewrite Hxi, Hyi in E. cbn [mbind res_bind] in E.
    edestruct (on_tage_ok p H i xi) as (ei & e' & p1 & Hei & Ef & E1 & Ht & He' & _ & Hother); [done| |rewrite E1 in E; cbn [mbind res_bind] in E].
    { intros e0 He0. eexists. split; [done|]. pose proof (gw_bits p H) as Hbits. pose proof (Z.pow_pos_nonneg 2 (tagTableCounterBits p - 1) ltac:(lia) ltac:(lia)).
      destruct (te_u e0 =? 0); [|done]. pose proof (Z.mod_pos_bound yi (2 ^ 16) ltac:(lia)). unfold u16. split_and!; cbn; try destruct taken; lia. }
    pose proof Ht as (H1 & Hg & _). pose proof Hg as Hg'. injection Hg' as _ _ En _ _ _. destruct (Z.eq_dec j i) as [->|Hne].
    + rewrite Hxi in Hx. injection Hx as <-. rewrite Hyi in Hy. injection Hy as <-. rewrite He in Hei. injection Hei as <-. injection Ef as <-.
      rewrite (IH (i + 1) p1 H1 ltac:(by apply (cond_ok_geom p)) ltac:(lia) ltac:(lia) E i xi yi _ Hxi Hyi He'). rewrite (proj2 (Z.leb_gt (i + 1) i)), Z.leb_refl, (proj2 (Z.ltb_lt i (i + Z.of_nat (S fuel)))) by lia. done.
    + rewrite (IH (i + 1) p1 H1 ltac:(by apply (cond_ok_geom p)) ltac:(lia) ltac:(lia) E j x y e Hx Hy); [|by rewrite Hother].
      replace ((i + 1 <=? j) && (j <? i + 1 + Z.of_nat fuel)) with ((i <=? j) && (j <? i + Z.of_nat (S fuel))); [done|]. apply eq_true_iff_eq. rewrite !andb_true_iff, !Z.leb_le, !Z.ltb_lt. lia.
Qed.

(** A misprediction claims an entry in every longer table that has one to spare, not in
    one: from the first candidate table on, each table whose entry is not useful gets the
    tag of the branch and a weak counter for the outcome; the others keep theirs, but for
    the candidate's usefulness, which is dropped when no table had an entry to spare. *)
Theorem ltage_allocates_all_free p p' (nrand : Z) (taken : bool) (bi : BranchInfo) :
  ltage_wf p → cond_ok p bi → hitBank bi < nHistoryTables p → allocTage nrand taken bi p = Ok p' →
  let X := start_bank nrand (hitBank bi) (nHistoryTables p) in
  hitBank bi < X ≤ nHistoryTables p ∧
  ∀ j x y e, X ≤ j ≤ nHistoryTables p → vget (bi_tableIndices bi) j = Ok x → vget (bi_tableTags bi) j = Ok y → tage_at j x p = Ok e → te_u e = 0 →
    tage_at j x p' = Ok (MkTageEntry (if taken then 0 else -1) (u16 y) 0).
Proof using.
  intros H Hb Hh E X. pose proof (co_hit _ _ Hb) as Hch. pose proof (gw_n p H) as Hn. pose proof (start_bank_range nrand (hitBank bi) (nHistoryTables p) ltac:(lia)) as HX. fold X in HX. split; [lia|].
  intros j x y e Hj Hx Hy He Hu. unfold allocTage in E. destruct (min_useful_ok p bi (banks p) 1 H Hb) as [m Em]; [lia|]. rewrite Em in E. cbn [mbind res_bind] in E. fold X in E.
  destruct (co_idx _ _ Hb X) as (xX & HxX & Hin); [lia|]. rewrite HxX in E. cbn [mbind res_bind] in E.
  assert (∃ p1, (if 0 <? m then on_tage X xX (λ e, Ok (e <| te_u := 0 |>)) p else Ok p) = Ok p1 ∧ trained p p1 ∧ tage_at j x p1 = Ok e) as (p1 & E1 & Ht & He1).
  { destruct (0 <? m); [|exists p; split; [done|split; [by apply trained_refl|done]]]. edestruct (on_tage_ok p H X xX) as (e0 & e' & p1 & He0 & Ef & E1 & Ht & He' & _ & Hother); [done| |rewrite E1; exists p1; split; [done|]; split; [done|]].
    - intros e0 (? & ? & ?). eexists. split; [done|]. split_and!; cbn; lia.
    - destruct (Z.eq_dec j X) as [->|]; [|by rewrite Hother]. rewrite HxX in Hx. injection Hx as <-. rewrite He' . rewrite He in He0. injection He0 as <-. injection Ef as <-. destruct e; cbn in *. by subst. }
  rewrite E1 in E. cbn [mbind res_bind] in E. pose proof Ht as (H1 & Hg & _). pose proof Hg as Hg'. injection Hg' as _ _ En _ _ _.
  rewrite (alloc_loop_effect bi taken (Z.to_nat (nHistoryTables p1 - X + 1)) X p1 p' H1 ltac:(by apply (cond_ok_geom p)) ltac:(lia) ltac:(lia) E j x y e Hx Hy He1).
  rewrite (proj2 (Z.leb_le X j)), (proj2 (Z.ltb_lt _ _)), (proj2 (Z.eqb_eq (te_u e) 0)) by lia. done.
Qed.

(** The loop predictor is blind above [2^(logSizeLoopPred + 14)] (4 MB with the default
    size): entries keep 16 bits of the tag, the lookup compares all of it, so a branch
    there never hits and its prediction is that of the tagged tables. *)
Theorem ltage_loop_blind p (t : nat) (pc : Z) (b : bool) (bi : BranchInfo) p' :
  ltage_wf p → 2 ^ (logSizeLoopPred p + 14) ≤ pc < 2 ^ (logSizeLoopPred p + 29) → lt_lookup t pc p = Ok (b, Some bi, p') →
  loopHit bi < 0 ∧ b = tagePred bi.
Proof using.
  intros H Hpc E. destruct (lt_lookup_ok p t pc H) as (b' & bi' & p1 & E' & _ & _ & Hp). rewrite E in E'. injection E' as <- <- <-. destruct Hp as [_ _ Hl Hf]. destruct (gw_logs p H) as [_ Hlog].
  destruct (Z.leb_spec 0 (loopHit bi)) as [Hh|Hh]; [|split; [done|]; by rewrite Hf, Hl, andb_false_r]. exfalso. destruct Hl as (e & He & Htag & _).
  destruct (gw_ltable p H) as [_ Ho]. apply vget_ok in He as [_ He]. destruct (Forall_lookup_1 _ _ _ _ Ho He) as (_ & _ & _ & _ & Hr & _).
  assert (Hsh : 2 ^ 16 ≤ Z.shiftr pc (logSizeLoopPred p - 2) < 2 ^ 31).
  { rewrite Z.shiftr_div_pow2 by lia. pose proof (Z.pow_pos_nonneg 2 (logSizeLoopPred p - 2) ltac:(lia) ltac:(lia)). split.
    - apply Z.div_le_lower_bound; [lia|]. rewrite <- Z.pow_add_r by lia. replace (logSizeLoopPred p - 2 + 16) with (logSizeLoopPred p + 14) by lia. lia.
    - apply Z.div_lt_upper_bound; [lia|]. rewrite <- Z.pow_add_r by lia. replace (logSizeLoopPred p - 2 + 31) with (logSizeLoopPred p + 29) by lia. lia. }
  unfold s32 in Htag. rewrite Z.mod_small in Htag by lia. lia.
Qed.

(** A squash alone leaves the outcome of the squashed branch in the history. *)
Lemma ltage_squash_keeps_history p p1 p2 (t : nat) (pc : Z) (b : bool) (bi : BranchInfo) :
  ltage_wf p → lt_lookup t pc p = Ok (b, Some bi, p1) → lt_squash t (Some bi) p1 = Ok p2 →
  ptGhist (threadHistory p2 t) = next_slot (histBufferSize p) (maxHist p) (ptGhist (threadHistory p t)) ∧ ptGhist (threadHistory p2 t) ≠ ptGhist (threadHistory p t).
Proof using.
  intros H E1 E2. destruct (push_ok p t pc true id H) as (b' & bi0 & p0 & bi' & h' & E & Ht & _ & E' & Hm & Hb & Hgh). unfold lt_lookup in E1. rewrite E in E1. cbn [mbind res_bind] in E1. cbn [id] in E'. rewrite E' in E1.
  cbn in E1. rewrite fn_lookup_insert, Hgh, Z.eqb_refl in E1. cbn in E1. injection E1 as <- <- <-. pose proof Hm as (H1 & Hg1 & _). destruct (lt_squash_ok (on_thread t h' p0) t bi' H1) as (p3 & E3 & _ & _ & Hh3); [by apply Hb|].
  rewrite E2 in E3. injection E3 as <-. rewrite Hh3. cbn. rewrite fn_lookup_insert. destruct Ht as (H0 & Hg & Hth). injection Hg as _ _ En Es Em _.
  pose proof (gw_hists p H t) as Hh. pose proof (gw_hist p H) as Hgh'. unfold updateHistories in E'. rewrite Hth in E'.
  destruct (updateGHist_ok (histBufferSize p) (maxHist p) ltac:(lia) ltac:(lia) (banks p) b' p0 (threadHistory p t) Hh Es Em) as (l & h1 & Eu & Hh1 & Ept & _). rewrite Eu in E'. cbn [mbind res_bind] in E'.
  match type of E' with context [refold ?h] => destruct (refold_total (histBufferSize p) (maxHist p) (banks p) h) as (h2 & Er & _ & Ep & _); [destruct Hh1; by split|] end.
  rewrite Er in E'. cbn [mbind res_bind] in E'. injection E' as _ Eh. apply (f_equal (λ f, f t)) in Eh. rewrite !fn_lookup_insert in Eh. subst h2. rewrite Ep. cbn. rewrite Ept.
  split; [done|]. unfold next_slot. pose proof (th_pt _ _ _ _ Hh). destruct (Z.eqb_spec (ptGhist (threadHistory p t)) 0); lia.
Qed.
End laws.

(** * A run of the L-TAGE predictor

    Two branches on a small predictor, the older one mispredicted and repaired.  The states
    are used to instantiate the properties of [LTAGEProps.v]. *)
#[local] Instance env0 : LTAGEEnv := {| shift_undefined := λ _ _, 0; lt_random := λ _, 0 |}.
Definition middle0 (_ : Z) : Z := 31.
Definition par0 : LTAGEParams := MkLTAGEParams 2 3 2 2 3 100 2 31 4.

Definition got_lt {A} (d : A) (m : res A) : A := match m with Ok a => a | Err _ => d end.
Definition no_history : ThreadHistory := MkThreadHistory 0 [] 0 0 [] [] [].
Definition blank_lt : LTAGE := MkLTAGE 0 0 0 0 0 0 [] [] [] (λ _, no_history) [] [] [] 0 0 0 0 0.
Definition g0 : LTAGE := Eval vm_compute in got_lt blank_lt (LTAGE_new middle0 par0).
Definition look (pc : Z) (p : LTAGE) : bool * option BranchInfo * LTAGE := got_lt (false, None, blank_lt) (lt_lookup 0 pc p).
Definition b1 : BranchInfo := Eval vm_compute in default (BranchInfo_new 0) (look 65 g0).1.2.
Definition g1 : LTAGE := Eval vm_compute in (look 65 g0).2.
Definition b2 : BranchInfo := Eval vm_compute in default (BranchInfo_new 0) (look 98 g1).1.2.
Definition g2 : LTAGE := Eval vm_compute in (look 98 g1).2.
Definition g3 : LTAGE := Eval vm_compute in got_lt blank_lt (lt_squash 0 (Some b2) g2).
Definition g4 : LTAGE := Eval vm_compute in got_lt blank_lt (lt_update 0 65 true (Some b1) true g3).

Lemma par0_ok : lt_par_ok middle0 par0.
Proof. split; unfold middle0; cbn; lia. Qed.
Lemma g0_new : LTAGE_new middle0 par0 = Ok g0.
Proof. vm_compute. reflexivity. Qed.
Lemma g0_wf : ltage_wf g0.
Proof. destruct (LTAGE_new_ok middle0 par0 par0_ok) as (p & E & Hw & _). rewrite g0_new in E. by injection E as <-. Qed.
Lemma look1 : lt_lookup 0 65 g0 = Ok (false, Some b1, g1).
Proof. vm_compute. reflexivity. Qed.
Lemma look2 : lt_lookup 0 98 g1 = Ok (false, Some b2, g2).
Proof. vm_compute. reflexivity. Qed.

Lemma lt_run4 : lt_run middle0 par0 0 g4 [(65, true)] [(b1, true)].
Proof.
  assert (R1 : lt_run middle0 par0 0 g1 [(65, false)] [(b1, true)]) by (eapply lr_lookup; [apply lr_new, g0_new|cbn; lia|exact look1]).
  assert (R2 : lt_run middle0 par0 0 g2 [(98, false); (65, false)] [(b2, true); (b1, true)]) by (eapply lr_lookup; [exact R1|cbn; lia|exact look2]).
  apply (lr_correct middle0 par0 0 g2 [(98, false); (65, false)] [(b2, true)] b1 [] 65 false true g3 g4 R2); [done|vm_compute; reflexivity..].
Qed.

Lemma ltage_histories_follow_path_witness :
  lt_run middle0 par0 0 g4 [(65, true)] [(b1, true)] ∧ vget (globalHistory (threadHistory g4 0)) (ptGhist (threadHistory g4 0)) = Ok 1 ∧ th_pathHist (threadHistory g4 0) = 1.
Proof.
  split; [exact lt_run4|]. destruct (ltage_histories_follow_path middle0 par0 0 g4 [(65, true)] [(b1, true)] par0_ok lt_run4) as (Hb & _ & Hp).
  split; [rewrite <- (Z.add_0_r (ptGhist _)); apply (Hb 0); cbn; lia|exact Hp].
Defined.

Lemma ltage_longest_match_witness : ltage_wf g0 ∧ ∃ b bi p', lt_lookup 0 65 g0 = Ok (b, Some bi, p') ∧ predicted g0 0 65 b bi.
Proof. split; [exact g0_wf|]. destruct (ltage_longest_match g0 0 65 g0_wf) as (b & bi & p' & E & _ & Hp). by exists b, bi, p'. Defined.

Lemma b1_cond : cond_ok g0 b1.
Proof.
  destruct (lt_lookup_ok g0 0 65 g0_wf) as (b & bi & p' & E & _ & Hb & _). rewrite look1 in E. injection E as <- <- <-.
  apply (bo_cond g0 b1); [by apply Hb|vm_compute; reflexivity].
Qed.
Definition g5 : LTAGE := Eval vm_compute in got_lt blank_lt (allocTage 0 true b1 g0).
Lemma ltage_allocates_all_free_witness :
  allocTage 0 true b1 g0 = Ok g5 ∧ ∃ x1 x2, vget (bi_tableIndices b1) 1 = Ok x1 ∧ vget (bi_tableIndices b1) 2 = Ok x2
    ∧ tage_at 1 x1 g5 = Ok (MkTageEntry 0 1 0) ∧ tage_at 2 x2 g5 = Ok (MkTageEntry 0 1 0).
Proof.
  assert (E : allocTage 0 true b1 g0 = Ok g5) by (vm_compute; reflexivity). split; [exact E|].
  destruct (ltage_allocates_all_free g0 g5 0 true b1 g0_wf b1_cond ltac:(vm_compute; reflexivity) E) as [_ Hall].
  do 2 eexists. split; [vm_compute; reflexivity|]. split; [vm_compute; reflexivity|].
  split; eapply (Hall _ _ 1 TageEntry_new); try (vm_compute; reflexivity); vm_compute; split; discriminate.
Defined.

Definition pc_high : Z := 2 ^ 20 + 1.
Definition bh : BranchInfo := Eval vm_compute in default (BranchInfo_new 0) (look pc_high g0).1.2.
Lemma ltage_loop_blind_witness : ∃ b p', lt_lookup 0 pc_high g0 = Ok (b, Some bh, p') ∧ loopHit bh < 0 ∧ b = tagePred bh.
Proof.
  exists (look pc_high g0).1.1, (look pc_high g0).2. assert (E : lt_lookup 0 pc_high g0 = Ok ((look pc_high g0).1.1, Some bh, (look pc_high g0).2)) by (vm_compute; reflexivity).
  split; [exact E|]. apply (ltage_loop_blind g0 0 pc_high _ bh (look pc_high g0).2 g0_wf); [vm_compute; split; congruence|exact E].
Defined.
