(* ===== verification/BPredRun.v ===== *)
(** * Runs of branch prediction

    A conditional branch, a call and a return on a small tournament predictor, with the
    correction of the branch; and small tables.  The states are used to instantiate the
    properties of [BPredProps.v]. *)

From S2P Require Import Prelude Regs DynInst IntMath Targets BPred LocalBP TournamentBP BPredInv BPredSteps BPredProps.
From stdpp Require Import sorting.
Local Open Scope Z_scope.

Definition branch_inst (l : list StaticInstFlags) : StaticInst := MkStaticInst (flags_of (IsControl :: l)) 1 [] [] 0%N.
Definition i_cond : StaticInst := branch_inst [IsDirectControl; IsCondControl].
Definition i_call : StaticInst := branch_inst [IsDirectControl; IsUncondControl; IsCall].
Definition i_ret : StaticInst := branch_inst [IsIndirectControl; IsUncondControl; IsReturn].
Definition i_cret : StaticInst := branch_inst [IsIndirectControl; IsCondControl; IsReturn].
Definition next_pc (_ : StaticInst) (pc : PCState) : PCState := pc_set (instAddr pc + 4).
Definition no_rand (_ : nat) : Z := 0.
Definition small : BPParams := MkBPParams 1 4 8 4 2 false true true 4 2 8 2.

Definition got {A} (d : A) (m : res A) : A := match m with Ok a => a | Err _ => d end.
Definition t0 : TournamentBP := Eval vm_compute in
  got (MkTournamentBP [] 0 0 0 [] 0 0 [] 0 0 (λ _, 0) 0 0 0 0 [] 0 0 0 0 0 0) (TournamentBP_new 4 2 4 4 2 4 2 2).
Abbreviation TUnit := (BPredUnit TournamentBP TournamentHistory).
Definition blank_btb : DefaultBTB := MkBTB [] 0 0 0 0 0 0 0.
Definition blank_ip : IndirectPredictor := MkIndirect false false 0 0 0 0 0 [] (λ _, MkThreadInfo [] 0) 0.
Definition blank_unit : TUnit := MkBPredUnit (λ _, []) blank_btb (λ _, ras_init 4) false blank_ip t0.

Abbreviation tdo := (do_bop next_pc no_rand).
Definition w0 : TUnit := Eval vm_compute in got blank_unit (BPredUnit_new small t0).
Definition w1 : TUnit := Eval vm_compute in got blank_unit (tdo (BPredict i_cond 1 (pc_set 256) 0) w0).
Definition w2 : TUnit := Eval vm_compute in got blank_unit (tdo (BPredict i_call 2 (pc_set 260) 0) w1).
Definition w3 : TUnit := Eval vm_compute in got blank_unit (tdo (BPredict i_ret 3 (pc_set 512) 0) w2).
Definition w4 : TUnit := Eval vm_compute in got blank_unit (tdo (BCorrect 1 (pc_set 1024) true 0) w3).
Definition w5 : TUnit := Eval vm_compute in got blank_unit (tdo (BCommit 1 0) w4).

Lemma small_ok : par_ok small.
Proof. split; cbn; try lia; done. Qed.
Lemma t0_wf : po_wf t0.
Proof.
  destruct (TournamentBP_new_ok 2 2 2 2 2 2 2 2) as (p & E & Hp); try lia. assert (E' : TournamentBP_new 4 2 4 4 2 4 2 2 = Ok t0) by (vm_compute; reflexivity).
  change (2 ^ 2) with 4 in E. rewrite E in E'. by injection E' as <-.
Qed.

Abbreviation trun := (bp_run next_pc no_rand small t0 0).
Ltac calc := vm_compute; reflexivity.
Ltac young := split; vm_compute; repeat constructor.

Lemma new_w0 : BPredUnit_new small t0 = Ok w0.
Proof. calc. Qed.
Lemma pred_w1 : bp_predict next_pc i_cond 1 (pc_set 256) 0 w0 = Ok (false, pc_set 260, w1).
Proof. calc. Qed.
Lemma pred_w2 : bp_predict next_pc i_call 2 (pc_set 260) 0 w1 = Ok (false, pc_set 264, w2).
Proof. calc. Qed.
Lemma pred_w3 : bp_predict next_pc i_ret 3 (pc_set 512) 0 w2 = Ok (true, uEnd (pc_set 260), w3).
Proof. calc. Qed.
Lemma corr_w4 : bp_correct no_rand 1 (pc_set 1024) true 0 w3 = Ok w4.
Proof. calc. Qed.

(** A step that leaves everything known. *)
Lemma trun_predict (inst : StaticInst) (sn : Z) (pc tgt : PCState) (b : bool) (u u' : TUnit) :
  (∃ path, trun all_known u path) → youngest_branch sn 0 u → bp_predict next_pc inst sn pc 0 u = Ok (b, tgt, u') →
  after_predict inst b u all_known = all_known → predHist u' 0%nat ≠ [] → ∃ path, trun all_known u' path.
Proof.
  intros [path Hr] Hy E Hk Hne. destruct (predHist u' 0%nat) as [|e es] eqn:Eh; [done|]. eexists. rewrite <- Hk. by eapply run_predict.
Qed.

Lemma run_w1 : ∃ path, trun all_known w1 path.
Proof. eapply (trun_predict i_cond 1 (pc_set 256)); [eexists; apply run_new, new_w0|young|apply pred_w1|calc|discriminate]. Qed.
Lemma run_w2 : ∃ path, trun all_known w2 path.
Proof. eapply (trun_predict i_call 2 (pc_set 260)); [apply run_w1|young|apply pred_w2|calc|discriminate]. Qed.
Lemma run_w3 : ∃ path, trun all_known w3 path.
Proof. eapply (trun_predict i_ret 3 (pc_set 512)); [apply run_w2|young|apply pred_w3|calc|discriminate]. Qed.
Lemma run_w4 : ∃ path, trun all_known w4 path.
Proof.
  destruct run_w3 as [path H3]. eexists. assert (Hk : after_correct 0 1 true w3 all_known = all_known) by calc. rewrite <- Hk.
  eapply (run_correct _ _ _ _ _ all_known w3 path 1 (pc_set 1024) true w4); [exact H3|calc|apply corr_w4].
Qed.

(** The corrected branch is in the history, the call and the return are gone. *)
Lemma prediction_follows_path_witness :
  ∃ path, hv_view 0%nat (dirPred w5) = path_view (po_geom t0) (hv_view 0%nat t0) path ∧ tos (bp_RAS w5 0) = path_tos 4 path ∧ (hv_view 0%nat (dirPred w5)).1 = 1.
Proof.
  destruct run_w4 as [path H4]. exists path. assert (H5 : trun all_known w5 path) by (eapply (run_commit _ _ _ _ _ all_known w4 path 1); [exact H4|calc]).
  destruct (prediction_follows_path next_pc no_rand small t0 0 all_known w5 path small_ok t0_wf H5) as [E1 E2].
  split; [exact (E1 eq_refl)|]. split; [exact (E2 eq_refl)|]. vm_compute. reflexivity.
Defined.

Lemma excursion_w3 : excursion next_pc no_rand 0 1 all_known w1 all_known w3.
Proof.
  assert (K2 : after_predict i_call false w1 all_known = all_known) by calc. assert (K3 : after_predict i_ret true w2 all_known = all_known) by calc.
  rewrite <- K3 at 2. eapply (ex_predict _ _ _ _ _ _ _ w2 i_ret 3); [|lia|young|apply pred_w3]. rewrite <- K2 at 2.
  eapply (ex_predict _ _ _ _ _ _ _ w1 i_call 2); [apply ex_start|lia|young|apply pred_w2].
Qed.
Lemma squash_restores_prediction_witness :
  ∃ u', bp_squash 1 0 w3 = Ok u' ∧ hv_view 0%nat (dirPred u') = hv_view 0%nat (dirPred w1) ∧ tos (bp_RAS u' 0) = tos (bp_RAS w1 0).
Proof.
  destruct run_w1 as [path H1].
  destruct (squash_restores_prediction next_pc no_rand small t0 0 all_known w1 path 1 all_known w3 small_ok t0_wf H1) as (u' & E & Hd & Hs).
  - vm_compute. repeat constructor. discriminate.
  - exact excursion_w3.
  - exists u'. split; [exact E|]. split; [exact (Hd eq_refl)|exact (Hs eq_refl)].
Defined.

Lemma reach_w1 : bp_reach next_pc no_rand small t0 w1.
Proof. eapply (reach_op _ _ _ _ (BPredict i_cond 1 (pc_set 256) 0) w0); [apply reach_new, new_w0|young|calc]. Qed.

Lemma bpred_operations_total_witness : ∃ u', tdo (BPredict i_call 2 (pc_set 260) 0) w1 = Ok u' ∧ bp_inv 4 u'.
Proof. apply (bpred_operations_total next_pc no_rand small t0 w1 (BPredict i_call 2 (pc_set 260) 0) small_ok t0_wf reach_w1). young. Defined.

(** ** Tables *)
Lemma ras_squash_restores_witness :
  ∃ r', ras_excursion [AReturn; ACall (pc_set 8); ACall (pc_set 12)] (ras_init 4) = Ok r' ∧ tos r' = 0
    ∧ ∀ k, 0 ≤ k < 3 → ras_slot r' k = ras_slot (ras_init 4) k.
Proof. apply (ras_squash_restores 4). apply ras_init_ok. lia. Defined.

Lemma w0_btb : btb_ok (bp_BTB w0).
Proof. split; vm_compute; try done. Qed.
Lemma btb_update_lookup_witness : ∃ b', btb_update 256 (pc_set 512) 0 (bp_BTB w0) = Ok b' ∧ btb_lookup 256 0 b' = Ok (pc_set 512).
Proof.
  destruct (btb_update_lookup 256 (pc_set 512) 0 (bp_BTB w0) w0_btb) as (b' & E & Hall). exists b'. split; [exact E|].
  pose proof (Hall 256 0%nat) as H. assert (Es : same_slot (bp_BTB w0) 256 0 256 0 = true) by calc. rewrite Es in H. destruct H as [_ H]. apply H. calc.
Defined.

Definition ip1 : IndirectPredictor := recordIndirect 256 0 7 0 (iPred w0).
Lemma ip1_ok : ip_ok ip1.
Proof. apply recordIndirect_ok. destruct (new_inv small t0 small_ok t0_wf) as (u & E & Hi & _). rewrite new_w0 in E. injection E as <-. apply (to_ip _ _ (bi_tables _ _ Hi)). Qed.
Lemma indirect_target_learned_witness :
  ∃ i', recordTarget no_rand 7 5 (pc_set 512) 0 ip1 = Ok i' ∧ ip_lookup 256 5 0 (i' <| threadInfo ::= <[0%nat := threadInfo i' 0 <| pathHist := [] |>]> |>) = Ok (Some (pc_set 512)).
Proof.
  destruct (indirect_target_learned no_rand 7 5 (pc_set 512) 0 ip1 [] (MkHistoryEntry 256 0 7) ip1_ok eq_refl) as (i' & E & _ & El). exists i'. split; [exact E|exact El].
Defined.

Definition l0 : LocalBP := Eval vm_compute in got (MkLocalBP [] 0 0 0 0 0) (LocalBP_new 8 2 2).
Lemma l0_wf : lb_wf l0.
Proof.
  destruct (LocalBP_new_ok 8 2 2) as (p & E & Hp); [lia|lia|done|done|]. assert (E' : LocalBP_new 8 2 2 = Ok l0) by (vm_compute; reflexivity). rewrite E in E'. by injection E' as <-.
Qed.
Lemma l0_ok : po_wf l0.
Proof. exact l0_wf. Qed.
Lemma local_predictor_learns_witness : ∃ p', lb_train 2 0 256 true l0 = Ok p' ∧ lb_lookup 0 256 p' = Ok (true, None, p').
Proof. apply (local_predictor_learns 0 256 true l0 2 l0_wf). vm_compute. discriminate. Defined.

(** ** The flaws, on the local predictor *)
Abbreviation LUnit := (BPredUnit LocalBP ()).
Definition blank_local : LUnit := MkBPredUnit (λ _, []) blank_btb (λ _, ras_init 4) false blank_ip l0.
Abbreviation ldo := (do_bop next_pc no_rand).
Definition x0 : LUnit := Eval vm_compute in got blank_local (BPredUnit_new small l0).
Definition x1 : LUnit := Eval vm_compute in got blank_local (ldo (BPredict i_call 1 (pc_set 256) 0) x0).
Definition x2 : LUnit := Eval vm_compute in got blank_local (ldo (BPredict i_cret 2 (pc_set 512) 0) x1).
Lemma x1_inv : bp_inv 4 x1.
Proof.
  apply (reach_inv next_pc no_rand small l0 x1 small_ok l0_ok). eapply (reach_op _ _ _ _ (BPredict i_call 1 (pc_set 256) 0) x0); [apply reach_new; calc|young|calc].
Qed.
(** The call has moved the top to 1; after the squash it is 0. *)
Lemma corrected_return_loses_stack_witness :
  tos (bp_RAS x1 0) = 1 ∧ ∃ u2 u3, bp_correct no_rand 2 (pc_set 260) true 0 x2 = Ok u2 ∧ bp_squash 1 0 u2 = Ok u3 ∧ tos (bp_RAS u3 0) = 0.
Proof.
  split; [reflexivity|]. apply (corrected_return_loses_stack next_pc no_rand 4 0 x1 x2 i_cret 2 1 (pc_set 512) (pc_set 516) (pc_set 260) x1_inv); [young| |lia|reflexivity|calc].
  vm_compute. repeat constructor. discriminate.
Defined.

(** A counter at its maximum. *)
Definition l3 : LocalBP := Eval vm_compute in got l0 (lb_train 3 0 256 true l0).
Definition y0 : LUnit := Eval vm_compute in got blank_local (BPredUnit_new small l3).
Definition y1 : LUnit := Eval vm_compute in got blank_local (ldo (BPredict i_cond 1 (pc_set 256) 0) y0).
Lemma l3_wf : lb_wf l3.
Proof.
  destruct (table_get _ _ _ _ (lw_ctrs l0 l0_wf) (lb_index_range 256 l0 l0_wf)) as (c & Hc & _). destruct (lb_train_ok 3 0 256 true l0 c l0_wf Hc) as (p & E & Hp & _).
  assert (E' : lb_train 3 0 256 true l0 = Ok l3) by (vm_compute; reflexivity). rewrite E in E'. by injection E' as <-.
Qed.
Lemma l3_ok : po_wf l3.
Proof. exact l3_wf. Qed.
Lemma y0_inv : bp_inv 4 y0.
Proof. apply (reach_inv next_pc no_rand small l3 y0 small_ok l3_ok), reach_new. calc. Qed.
Lemma missed_branch_trained_taken_witness : ∃ u2, bp_commit 1 0 y1 = Ok u2 ∧ lb_update 0 256 true None false (dirPred y1) = Ok (dirPred u2).
Proof. apply (missed_branch_trained_taken next_pc 4 0 y0 y1 i_cond 1 (pc_set 256) (pc_set 260) None l3 y0_inv); [young|calc..]. Defined.

Definition t1 : TournamentBP := Eval vm_compute in t0 <| localHistoryTable := [3; 0; 0; 0] |>.
Lemma t1_wf : tb_wf t1.
Proof. assert (E : t1 = t0 <| globalHistory ::= id |> <| localHistoryTable := [3; 0; 0; 0] |>) by calc. rewrite E. apply tb_wf_hist; [apply t0_wf|done]. Qed.
Definition t2 : TournamentBP := Eval vm_compute in (got (None, t1) (tb_uncondBranch 0 256 t1)).2.
Definition th2 : option TournamentHistory := Eval vm_compute in (got (None, t1) (tb_uncondBranch 0 256 t1)).1.
Definition t3 : TournamentBP := Eval vm_compute in got t1 (tb_btbUpdate 0 256 th2 t2).
Definition t4 : TournamentBP := Eval vm_compute in got t1 (tb_squash 0 th2 t3).
Lemma jump_miss_not_undone_witness : hv_view 0%nat t4 ≠ hv_view 0%nat t1.
Proof. apply (jump_miss_not_undone 0 256 3 th2 t1 t2 t3 t4 t1_wf); [vm_compute; reflexivity|calc..]. Defined.
