(* ===== verification/Fetch.v ===== *)
(** * The fetch stage

    [src/cpu/o3/fetch.hh] and [fetch_impl.hh]: the stage reads cache lines, takes
    instructions (or the micro-operations of a macro-operation) from the decoder, asks the
    branch predictor where to go on, puts the instructions in a queue per thread, and hands
    the queues to decode as long as decode does not stop it; commit and decode redirect it.

    What is outside: the instruction set's decoder ([ISADecoder]), micro-code ROM and
    macro-operations ([romMicroop], [fetchMicroop]), [advancePC], disassembly; the instruction
    TLB ([itb]: the translation is done at once, or later by a call of [finishTranslation]),
    the cache port ([icachePort]: the request is accepted or not) and the memory map.  Wires:
    [FtDecode], [FtCommit], [FtIEW] are read, [toDecode] is written.  Statistics, traces,
    probes and the activity flag are left out. *)

From S2P Require Import Prelude Regs DynInst CPU IQInterface Targets BPred Decode.
From stdpp Require Import strings sorting.
From Stdlib Require Import Ascii.
Local Open Scope Z_scope.

(** ** State *)
Inductive FetchStatus :=
| FtActive
| FtInactive.
Inductive FtThreadStatus :=
| FtRunning
| FtIdle
| FtSquashing
| FtBlocked
| FtFetching
| FtTrapPending
| FtQuiescePending
| FtItlbWait
| FtIcacheWaitResponse
| FtIcacheWaitRetry
| FtIcacheAccessComplete
| FtNoGoodAddr.
#[export] Instance FetchStatus_eq_dec : EqDecision FetchStatus.
Proof. solve_decision. Defined.
#[export] Instance FtThreadStatus_eq_dec : EqDecision FtThreadStatus.
Proof. solve_decision. Defined.

Inductive FetchPriority :=
| SingleThread
| RoundRobin
| Branch
| IQcount
| LSQcount.

(** A [RequestPtr]: two requests are the same if their numbers are. *)
Record IReq := MkIReq { rq_id : nat; rq_tid : nat; rq_vaddr : Z }.
#[export] Instance IReq_eq_dec : EqDecision IReq.
Proof. solve_decision. Defined.

(** [TheISA::Decoder].  [decode] may correct the PC of the instruction it returns. *)
Class ISADecoder (D : Type) := {
  dec_reset : D → D;
  dec_instReady : D → bool;
  dec_needMoreBytes : D → bool;
  dec_moreBytes : PCState → Z → Z → D → D;
  dec_decode : PCState → D → StaticInst * PCState * D;
}.

(** What decode, commit and IEW drove for a thread. *)
Record FtDecode := MkFtDecode { fd_block : bool; fd_unblock : bool; fd_info : DecodeComm }.
Record FtCommit := MkFtCommit {
  fc_squash : bool;
  fc_pc : PCState;
  fc_doneSeqNum : Z;
  fc_squashInst : option InstPtr;
  fc_mispredictInst : option InstPtr;
  fc_branchTaken : bool;
}.
Record FtIEW := MkFtIEW { fi_iqCount : Z; fi_ldstqCount : Z }.

Record Fetch {D P H : Type} := MkFetch {
  ft_status : FetchStatus;
  fetchStatus : nat → FtThreadStatus;
  ft_pc : nat → PCState;
  fetchOffset : nat → Z;
  ft_macroop : nat → option StaticInst;
  decoder : nat → D;
  delayedCommit : nat → bool;
  memReq : nat → option IReq;
  stalls_decode : nat → bool;
  stalls_drain : nat → bool;
  fetchBufferPC : nat → Z;
  fetchBufferValid : nat → bool;
  fetchBuffer : nat → list Z;  (* the line, as [MachInst]s *)
  fetchQueue : nat → list InstPtr;
  priorityList : list nat;
  cacheBlocked : bool;
  retryPkt : option IReq;
  retryTid : option nat;
  interruptPending : bool;
  numInst : Z;
  issuePipelinedIfetch : nat → bool;
  finishTranslationEvent : option (Fault * IReq * Z);
  branchPred : BPredUnit P H;
  toDecode : list InstPtr;
  ft_heap : heap;
  ft_cpu : CPUList;
  globalSeqNum : Z;
  nextInst : nat;  (* the address the next [new DynInst] returns *)
  nextReq : nat;
}.
Arguments Fetch : clear implicits.
#[export] Instance Fetch_eta {D P H} : Updatable (Fetch D P H) := λ r, MkFetch D P H (ft_status r) (fetchStatus r) (ft_pc r)
  (fetchOffset r) (ft_macroop r) (decoder r) (delayedCommit r) (memReq r) (stalls_decode r) (stalls_drain r) (fetchBufferPC r)
  (fetchBufferValid r) (fetchBuffer r) (fetchQueue r) (priorityList r) (cacheBlocked r) (retryPkt r) (retryTid r)
  (interruptPending r) (numInst r) (issuePipelinedIfetch r) (finishTranslationEvent r) (branchPred r) (toDecode r) (ft_heap r)
  (ft_cpu r) (globalSeqNum r) (nextInst r) (nextReq r).

(** ** Addresses *)
(** [~(sizeof(MachInst) - 1)]. *)
Definition PCMask (a : Z) : Z := Z.land a (2 ^ 64 - MachInst_size).
Definition isRomMicroPC (upc : Z) : bool := negb (Z.land (2 ^ 15) upc =? 0).
Definition microPC (p : PCState) : Z := upc_ p.

(** A pointer as a condition. *)
Definition is_Some_b {A} (o : option A) : bool := match o with Some _ => true | None => false end.

(** ** Mnemonics *)
(** [std::isspace]. *)
Definition isspace (c : ascii) : bool :=
  let n := Ascii.nat_of_ascii c in (n =? 32)%nat || ((9 <=? n)%nat && (n <=? 13)%nat).
Fixpoint skip_spaces (m : string) : string :=
  match m with String c m' => if isspace c then skip_spaces m' else m | EmptyString => m end.
(** [m.substr(0, m.find(c))]. *)
Fixpoint until (c : ascii) (m : string) : string :=
  match m with
  | String c' m' => if decide (c' = c) then EmptyString else String c' (until c m')
  | EmptyString => EmptyString
  end.
Definition directBranches : list string := ["CALL_NEAR_I"; "JMP_I"; "JMP_FAR_I"]%string.
Definition branchPrefixes : list string :=
  ["CALL"; "CMP"; "JMP"; "JZ"; "JNZ"; "JB"; "JNB"; "JBE"; "JNBE"; "JS"; "JNS"; "JP"; "JNP"; "JL"; "JNL"; "JLE"; "JNLE";
   "JO"; "JNO"; "JRCX"; "RET"]%string.

Definition CollectMnemoniStats (fl : DebugFlags) (inst : DynInst) (mnemonic_ : string) : DynInst :=
  let mnemonic := skip_spaces mnemonic_ in
  let inst := if bool_decide (until " "%char mnemonic ∈ directBranches)
                 && (CD_Clear_DirectUnconditionalBranches_AtDecode fl && isLastMicroop inst)
              then setResolvedAtDecode inst else inst in
  if (CD_Prioritize_Branch_Execution fl || CD_MarkBranchPrequisites fl) && bool_decide (until "_"%char mnemonic ∈ branchPrefixes)
  then setBranchPrequisite inst else inst.

(** The local variables of the loops of [fetch]. *)
Record FetchLoop := MkFetchLoop {
  fl_thisPC : PCState;
  fl_nextPC : PCState;
  fl_curMacroop : option StaticInst;
  fl_inRom : bool;
  fl_pcOffset : Z;
  fl_blkOffset : Z;
  fl_predictedBranch : bool;
  fl_quiesce : bool;
  fl_status_change : bool;
}.
#[export] Instance FetchLoop_eta : Updatable FetchLoop := λ r, MkFetchLoop (fl_thisPC r) (fl_nextPC r) (fl_curMacroop r) (fl_inRom r)
  (fl_pcOffset r) (fl_blkOffset r) (fl_predictedBranch r) (fl_quiesce r) (fl_status_change r).

Section fetch.
Context {D P H : Type} `{ISADecoder D} `{Predictor P H}.
Abbreviation Fetch := (Fetch D P H).
Context (fl : DebugFlags) (fullSystem : bool) (numThreads : nat) (activeThreads : list nat).
Context (fetchWidth decodeWidth fetchQueueSize fetchBufferSize : Z) (fetchPolicy : FetchPriority) (numFetchingThreads : nat).
Context (draining : bool) (advancePC : StaticInst → PCState → PCState) (rand : nat → Z) (disassemble : StaticInst → Z → string).
Context (fetchMicroop : StaticInst → Z → StaticInst) (romMicroop : Z → option StaticInst → StaticInst) (nopStaticInst : StaticInst).
Context (itb : IReq → option (Fault * Z)) (icachePort : IReq → bool) (isMemAddr : Z → bool).
Implicit Types (s : Fetch).

Definition ft_inst (p : InstPtr) s : res DynInst := deref (ft_heap s !! p).
Definition ft_put (p : InstPtr) (d : DynInst) s : Fetch := s <| ft_heap ::= <[p := d]> |>.
(** [addr & ~fetchBufferMask], the buffer size being a power of two. *)
Definition fetchBufferAlignPC (addr : Z) : Z := Z.land addr (u64 (Z.lnot (fetchBufferSize - 1))).
Definition checkInterrupt s : bool := interruptPending s.

(** ** Squash *)
Definition doSquash (newPC : PCState) (squashInst : option InstPtr) (tid : nat) s : res Fetch :=
  let s := s <| ft_pc ::= <[tid := newPC]> |> <| fetchOffset ::= <[tid := 0]> |> in
  mo ← match squashInst with
       | Some p => d ← ft_inst p s; Ok (if instAddr (pc d) =? instAddr newPC then macroop d else None)
       | None => Ok None
       end;
  let s := s <| ft_macroop ::= <[tid := mo]> |> <| decoder ::= <[tid := dec_reset (decoder s tid)]> |> in
  let s := match fetchStatus s tid with
           | FtIcacheWaitResponse | FtItlbWait => s <| memReq ::= <[tid := None]> |>
           | _ => s
           end in
  s ← (if decide (retryTid s = Some tid) then
         _ ← assert (cacheBlocked s);
         Ok (s <| retryPkt := None |> <| retryTid := None |>)
       else Ok s);
  Ok (s <| fetchStatus ::= <[tid := FtSquashing]> |> <| fetchQueue ::= <[tid := []]> |> <| delayedCommit ::= <[tid := true]> |>).

Definition squashFromDecode (newPC : PCState) (squashInst : option InstPtr) (seq_num : Z) (tid : nat) s : res Fetch :=
  s ← doSquash newPC squashInst tid s;
  '(c, h) ← removeInstsUntil seq_num tid (ft_cpu s) (ft_heap s);
  Ok (s <| ft_cpu := c |> <| ft_heap := h |>).

(** The tail of the thread's part of the ROB is asked for by the CPU. *)
Definition squash (robTail : option InstPtr) (newPC : PCState) (squashInst : option InstPtr) (tid : nat) s : res Fetch :=
  s ← doSquash newPC squashInst tid s;
  '(c, h) ← removeInstsNotInROB robTail tid (ft_cpu s) (ft_heap s);
  Ok (s <| ft_cpu := c |> <| ft_heap := h |>).

(** ** Status *)
Definition checkStall (tid : nat) s : res bool :=
  if stalls_drain s tid then _ ← assert draining; Ok true else Ok false.

Definition updateFetchStatus s : FetchStatus :=
  if existsb (λ tid, match fetchStatus s tid with FtRunning | FtSquashing | FtIcacheAccessComplete => true | _ => false end) activeThreads
  then FtActive else FtInactive.

(** The stall of the thread, from what decode signals. *)
Definition readDecodeSignals (m : FtDecode) (tid : nat) s : res Fetch :=
  let s := if fd_block m then s <| stalls_decode ::= <[tid := true]> |> else s in
  if fd_unblock m then
    _ ← assert (stalls_decode s tid);
    _ ← assert (negb (fd_block m));
    Ok (s <| stalls_decode ::= <[tid := false]> |>)
  else Ok s.

(** The mispredicted instruction, if it is a branch, is corrected; otherwise the predictor
    only forgets what is younger. *)
Definition squashPredictor (mispredicted : bool) (doneSeqNum : Z) (target : PCState) (taken : bool) (tid : nat) s : res Fetch :=
  u ← (if mispredicted then bp_correct rand doneSeqNum target taken tid (branchPred s) else bp_squash doneSeqNum tid (branchPred s));
  Ok (s <| branchPred := u |>).

(** What is left of [checkSignalsAndUpdate] when nothing is squashed. *)
Definition settleStatus (tid : nat) s : res (bool * Fetch) :=
  stall ← checkStall tid s;
  if (stall : bool) && match fetchStatus s tid with
                      | FtIcacheWaitResponse | FtIcacheWaitRetry | FtItlbWait | FtQuiescePending => false
                      | _ => true
                      end
  then Ok (true, s <| fetchStatus ::= <[tid := FtBlocked]> |>)
  else match fetchStatus s tid with
       | FtBlocked | FtSquashing => Ok (true, s <| fetchStatus ::= <[tid := FtRunning]> |>)
       | _ => Ok (false, s)
       end.

Definition checkSignalsAndUpdate (fromDecode : nat → FtDecode) (fromCommit : nat → FtCommit) (robTail : nat → option InstPtr)
    (tid : nat) s : res (bool * Fetch) :=
  s ← readDecodeSignals (fromDecode tid) tid s;
  let c := fromCommit tid in
  if fc_squash c then
    s ← squash (robTail tid) (fc_pc c) (fc_squashInst c) tid s;
    mis ← match fc_mispredictInst c with Some p => d ← ft_inst p s; Ok (isControl d) | None => Ok false end;
    s ← squashPredictor mis (fc_doneSeqNum c) (fc_pc c) (fc_branchTaken c) tid s;
    Ok (true, s)
  else
    s ← (if negb (fc_doneSeqNum c =? 0) then u ← bp_commit (fc_doneSeqNum c) tid (branchPred s); Ok (s <| branchPred := u |>) else Ok s);
    let i := fd_info (fromDecode tid) in
    if di_squash i then
      s ← squashPredictor (di_branchMispredict i) (di_doneSeqNum i) (di_nextPC i) (di_branchTaken i) tid s;
      if decide (fetchStatus s tid = FtSquashing) then settleStatus tid s
      else
        s ← squashFromDecode (di_nextPC i) (di_squashInst i) (di_doneSeqNum i) tid s;
        Ok (true, s)
    else settleStatus tid s.

(** ** Instructions *)
Definition buildInst (tid : nat) (si : StaticInst) (curMacroop : option StaticInst) (thisPC nextPC : PCState) s : res (InstPtr * Fetch) :=
  let seq := globalSeqNum s in
  let s := s <| globalSeqNum := u64 (seq + 1) |> in
  let inst := setTid tid (initVars si seq thisPC nextPC <| macroop := curMacroop |>) in
  let inst := CollectMnemoniStats fl inst (disassemble si (instAddr thisPC)) in
  let inst := if CD_MarkUnsafeIf_AfterBranch fl && canCauseMisprediction inst then setMaySquashOthers inst else inst in
  let p := nextInst s in
  let s := ft_put p inst s <| nextInst := S p |> <| ft_cpu ::= addInst p |> in
  _ ← assert (numInst s <? fetchWidth);
  let s := s <| fetchQueue ::= <[tid := fetchQueue s tid ++ [p]]> |> in
  _ ← assert (Z.of_nat (length (fetchQueue s tid)) <=? fetchQueueSize);
  Ok (p, s <| delayedCommit ::= <[tid := isDelayedCommit inst]> |>).

(** [nextPC], passed by reference, is returned. *)
Definition lookupAndUpdateNextPC (p : InstPtr) (nextPC : PCState) s : res (bool * PCState * Fetch) :=
  inst ← ft_inst p s;
  if negb (isControl inst) then
    let nextPC := advancePC (staticInst inst) nextPC in
    Ok (false, nextPC, ft_put p (setPredTaken false (setPredTarg nextPC inst)) s)
  else
    '(predict_taken, nextPC, u) ← bp_predict advancePC (staticInst inst) (seqNum inst) nextPC (threadNumber inst) (branchPred s);
    Ok (predict_taken, nextPC, ft_put p (setPredTaken predict_taken (setPredTarg nextPC inst)) (s <| branchPred := u |>)).

(** ** Cache lines *)
Definition finishTranslation (flt : Fault) (mem_req : IReq) (paddr : Z) s : res Fetch :=
  let tid := rq_tid mem_req in
  if decide (fetchStatus s tid ≠ FtItlbWait ∨ memReq s tid ≠ Some mem_req) then Ok s
  else if decide (flt = NoFault) then
    if negb (isMemAddr paddr) then Ok (s <| fetchStatus ::= <[tid := FtNoGoodAddr]> |> <| memReq ::= <[tid := None]> |>)
    else
      let s := s <| fetchBufferPC ::= <[tid := rq_vaddr mem_req]> |> <| fetchBufferValid ::= <[tid := false]> |> in
      s ← (if negb (icachePort mem_req) then
             _ ← assert (bool_decide (retryPkt s = None));
             _ ← assert (bool_decide (retryTid s = None));
             Ok (s <| fetchStatus ::= <[tid := FtIcacheWaitRetry]> |> <| retryPkt := Some mem_req |> <| retryTid := Some tid |>
                   <| cacheBlocked := true |>)
           else Ok (s <| fetchStatus ::= <[tid := FtIcacheWaitResponse]> |>));
      Ok (s <| ft_status := updateFetchStatus s |>)
  else if negb (numInst s <? fetchWidth) || negb (Z.of_nat (length (fetchQueue s tid)) <? fetchQueueSize) then
    _ ← assert (bool_decide (finishTranslationEvent s = None));
    Ok (s <| finishTranslationEvent := Some (flt, mem_req, paddr) |>)
  else
    let s := s <| memReq ::= <[tid := None]> |> in
    let fetchPC := ft_pc s tid in
    '(p, s) ← buildInst tid nopStaticInst None fetchPC fetchPC s;
    d ← ft_inst p s;
    let s := ft_put p (setPredTarg fetchPC (setNotAnInst d) <| fault := flt |>) s <| fetchStatus ::= <[tid := FtTrapPending]> |> in
    Ok (s <| ft_status := updateFetchStatus s |>).

(** [FinishTranslationEvent::process]. *)
Definition processFinishTranslation s : res Fetch :=
  match finishTranslationEvent s with
  | None => Ok s
  | Some (flt, mem_req, paddr) =>
      _ ← assert (numInst s <? fetchWidth);
      finishTranslation flt mem_req paddr (s <| finishTranslationEvent := None |>)
  end.

Definition fetchCacheLine (vaddr : Z) (tid : nat) s : res Fetch :=
  if cacheBlocked s then Ok s
  else if checkInterrupt s && negb (delayedCommit s tid) then Ok s
  else
    let mem_req := MkIReq (nextReq s) tid (fetchBufferAlignPC vaddr) in
    let s := s <| nextReq := S (nextReq s) |> <| memReq ::= <[tid := Some mem_req]> |> <| fetchStatus ::= <[tid := FtItlbWait]> |> in
    match itb mem_req with
    | Some (flt, paddr) => finishTranslation flt mem_req paddr s
    | None => Ok s
    end.

Definition processCacheCompletion (mem_req : IReq) (line : list Z) s : res Fetch :=
  let tid := rq_tid mem_req in
  if decide (fetchStatus s tid ≠ FtIcacheWaitResponse ∨ memReq s tid ≠ Some mem_req) then Ok s
  else
    let s := s <| fetchBuffer ::= <[tid := line]> |> <| fetchBufferValid ::= <[tid := true]> |> <| ft_status := FtActive |> in
    stall ← checkStall tid s;
    let st := if stall : bool then FtBlocked else FtIcacheAccessComplete in
    Ok (s <| fetchStatus ::= <[tid := st]> |> <| memReq ::= <[tid := None]> |>).

Definition recvReqRetry s : res Fetch :=
  match retryPkt s with
  | Some pkt =>
      _ ← assert (cacheBlocked s);
      tid ← match retryTid s with Some tid => Ok tid | None => Err AssertFailed end;
      _ ← assert (bool_decide (fetchStatus s tid = FtIcacheWaitRetry));
      Ok (if icachePort pkt
          then s <| fetchStatus ::= <[tid := FtIcacheWaitResponse]> |> <| retryPkt := None |> <| retryTid := None |> <| cacheBlocked := false |>
          else s)
  | None => _ ← assert (bool_decide (retryTid s = None)); Ok (s <| cacheBlocked := false |>)
  end.

(** ** Threads *)
Definition fetchable (st : FtThreadStatus) : bool :=
  match st with FtRunning | FtIcacheAccessComplete | FtIdle => true | _ => false end.

(** The first thread of the priority list that can fetch goes to its end. *)
Fixpoint roundRobin_scan (before after : list nat) s : res (option nat * list nat) :=
  match after with
  | [] => Ok (None, before)
  | high_pri :: after' =>
      _ ← assert (bool_decide (high_pri ≤ numThreads)%nat);
      if fetchable (fetchStatus s high_pri) then Ok (Some high_pri, before ++ after' ++ [high_pri])
      else roundRobin_scan (before ++ [high_pri]) after' s
  end.
Definition roundRobin s : res (option nat * Fetch) :=
  '(t, l) ← roundRobin_scan [] (priorityList s) s;
  Ok (t, s <| priorityList := l |>).

(** [iqCount] and [lsqCount]: the counts in increasing order; a count stands for the last
    thread that has it. *)
Definition byCount (count : nat → Z) s : option nat :=
  let threadMap := foldl (λ (m : gmap Z nat) tid, <[count tid := tid]> m) ∅ activeThreads in
  head (filter (λ tid, fetchable (fetchStatus s tid) = true)
          (omap (λ c, threadMap !! c) (merge_sort Z.le (count <$> activeThreads)))).

Definition getFetchingThread (fromIEW : nat → FtIEW) s : res (option nat * Fetch) :=
  if bool_decide (1 < numThreads)%nat then
    match fetchPolicy with
    | SingleThread => Ok (Some 0%nat, s)
    | RoundRobin => roundRobin s
    | IQcount => Ok (byCount (λ t, fi_iqCount (fromIEW t)) s, s)
    | LSQcount => Ok (byCount (λ t, fi_ldstqCount (fromIEW t)) s, s)
    | Branch => Err Panicked
    end
  else match activeThreads with
       | [] => Ok (None, s)
       | tid :: _ => Ok (if fetchable (fetchStatus s tid) then Some tid else None, s)
       end.

(** ** Fetching *)
Definition fetchAddrOf (thisPC : PCState) (pcOffset : Z) : Z := PCMask (u64 (instAddr thisPC + pcOffset)).
(** An [unsigned], from a difference of addresses. *)
Definition blkOffsetOf (fetchAddr bufferPC : Z) : Z := u32 (u64 (fetchAddr - bufferPC) / MachInst_size).

(** The next static instruction: from the decoder, the ROM or the macro-operation; [None] if
    the decoder needs more bytes.  The flag says that the macro-operation ends. *)
Definition nextStatic (tid : nat) (l : FetchLoop) s : option (StaticInst * bool) * FetchLoop * Fetch :=
  let '(ready, si, l, s) :=
    if is_Some_b (fl_curMacroop l) || fl_inRom l then (true, nopStaticInst, l, s)
    else if dec_instReady (decoder s tid) then
      let '(si, pc, d) := dec_decode (fl_thisPC l) (decoder s tid) in
      let l := l <| fl_thisPC := pc |> in
      let l := if si_flag IsMacroop si then l <| fl_curMacroop := Some si |> else l <| fl_pcOffset := 0 |> in
      (true, si, l, s <| decoder ::= <[tid := d]> |>)
    else (false, nopStaticInst, l, s) in
  if ready then
    match fl_curMacroop l, fl_inRom l with
    | mo, true => let si := romMicroop (microPC (fl_thisPC l)) mo in (Some (si, si_flag IsLastMicroop si), l, s)
    | Some m, false => let si := fetchMicroop m (microPC (fl_thisPC l)) in (Some (si, si_flag IsLastMicroop si), l, s)
    | None, false => (Some (si, false), l, s)
    end
  else (None, l, s).

(** The body of the inner loop; the flag says whether it goes on. *)
Definition fetchOne (tid : nat) (l : FetchLoop) s : res (bool * FetchLoop * Fetch) :=
  match nextStatic tid l s with
  | (None, l, s) => Ok (false, l, s)
  | (Some (si, newMacro), l, s) =>
      '(p, s) ← buildInst tid si (fl_curMacroop l) (fl_thisPC l) (fl_nextPC l) s;
      let s := s <| numInst := numInst s + 1 |> in
      let thisPC := fl_thisPC l in
      '(taken, nextPC, s) ← lookupAndUpdateNextPC p thisPC s;
      let newMacro := newMacro || negb (instAddr thisPC =? instAddr nextPC) in
      let l := l <| fl_predictedBranch := fl_predictedBranch l || branching thisPC || taken |>
                 <| fl_nextPC := nextPC |> <| fl_thisPC := nextPC |> <| fl_inRom := isRomMicroPC (microPC nextPC) |> in
      let l := if newMacro : bool
               then l <| fl_blkOffset := blkOffsetOf (PCMask (instAddr nextPC)) (fetchBufferPC s tid) |>
                      <| fl_pcOffset := 0 |> <| fl_curMacroop := None |>
               else l in
      inst ← ft_inst p s;
      if isQuiesce inst then
        Ok (false, l <| fl_quiesce := true |> <| fl_status_change := true |>, s <| fetchStatus ::= <[tid := FtQuiescePending]> |>)
      else
        Ok ((is_Some_b (fl_curMacroop l) || dec_instReady (decoder s tid))
            && (numInst s <? fetchWidth) && (Z.of_nat (length (fetchQueue s tid)) <? fetchQueueSize), l, s)
  end.
Fixpoint fetchInner (fuel : nat) (tid : nat) (l : FetchLoop) s : res (FetchLoop * Fetch) :=
  match fuel with
  | O => Err OutOfFuel
  | S fuel =>
      '(again, l, s) ← fetchOne tid l s;
      if again : bool then fetchInner fuel tid l s else Ok (l, s)
  end.

(** The bytes the decoder asks for; [None] if the line does not have them. *)
Definition feedDecoder (tid : nat) (l : FetchLoop) s : res (option (FetchLoop * Fetch)) :=
  if negb (fl_inRom l) && negb (is_Some_b (fl_curMacroop l)) && negb (dec_instReady (decoder s tid)) then
    let fetchAddr := fetchAddrOf (fl_thisPC l) (fl_pcOffset l) in
    if negb (fetchBufferValid s tid) || negb (fetchBufferAlignPC fetchAddr =? fetchBufferPC s tid) then Ok None
    else if fetchBufferSize / MachInst_size <=? fl_blkOffset l then Ok None
    else
      inst ← vget (fetchBuffer s tid) (fl_blkOffset l);
      let s := s <| decoder ::= <[tid := dec_moreBytes (fl_thisPC l) fetchAddr inst (decoder s tid)]> |> in
      Ok (Some (if dec_needMoreBytes (decoder s tid)
                then l <| fl_blkOffset := u32 (fl_blkOffset l + 1) |> <| fl_pcOffset := u64 (fl_pcOffset l + MachInst_size) |>
                else l, s))
  else Ok (Some (l, s)).
Fixpoint fetchOuter (fuel inner : nat) (tid : nat) (l : FetchLoop) s : res (FetchLoop * Fetch) :=
  match fuel with
  | O => Err OutOfFuel
  | S fuel =>
      if (numInst s <? fetchWidth) && (Z.of_nat (length (fetchQueue s tid)) <? fetchQueueSize)
         && negb (fl_predictedBranch l) && negb (fl_quiesce l) then
        fed ← feedDecoder tid l s;
        match fed with
        | None => Ok (l, s)
        | Some (l, s) =>
            '(l, s) ← fetchInner inner tid l s;
            fetchOuter fuel inner tid (l <| fl_inRom := isRomMicroPC (microPC (fl_thisPC l)) |>) s
        end
      else Ok (l, s)
  end.

(** Enough rounds: every round of the inner loop makes an instruction, and between two
    instructions the outer loop reads the line at most once. *)
Definition innerFuel : nat := S (Z.to_nat fetchWidth).
Definition outerFuel : nat := S (Z.to_nat fetchWidth) * S (S (Z.to_nat (fetchBufferSize / MachInst_size))).

Definition fetchInsts (tid : nat) (status_change : bool) s : res (bool * Fetch) :=
  let thisPC := ft_pc s tid in
  let pcOffset := fetchOffset s tid in
  let l := MkFetchLoop thisPC thisPC (ft_macroop s tid) (isRomMicroPC (microPC thisPC)) pcOffset
             (blkOffsetOf (fetchAddrOf thisPC pcOffset) (fetchBufferPC s tid)) false false status_change in
  '(l, s) ← fetchOuter outerFuel innerFuel tid l s;
  let s := s <| ft_macroop ::= <[tid := fl_curMacroop l]> |> <| fetchOffset ::= <[tid := fl_pcOffset l]> |>
             <| ft_pc ::= <[tid := fl_thisPC l]> |> in
  let fetchBufferBlockPC := fetchBufferAlignPC (fetchAddrOf (fl_thisPC l) (fl_pcOffset l)) in
  let issue := negb (fetchBufferBlockPC =? fetchBufferPC s tid)
               && match fetchStatus s tid with
                  | FtIcacheWaitResponse | FtItlbWait | FtIcacheWaitRetry | FtQuiescePending => false
                  | _ => true
                  end && negb (is_Some_b (fl_curMacroop l)) in
  Ok (fl_status_change l, s <| issuePipelinedIfetch ::= <[tid := issue]> |>).

(** [fetch]; [None] for the status ends the loop in [tick]. *)
Definition fetch (fromIEW : nat → FtIEW) (status_change : bool) s : res (option bool * Fetch) :=
  '(t, s) ← getFetchingThread fromIEW s;
  match t with
  | None => Ok (None, s)
  | Some tid =>
      let thisPC := ft_pc s tid in
      let fetchAddr := fetchAddrOf thisPC (fetchOffset s tid) in
      match fetchStatus s tid with
      | FtIcacheAccessComplete =>
          '(b, s) ← fetchInsts tid true (s <| fetchStatus ::= <[tid := FtRunning]> |>);
          Ok (Some b, s)
      | FtRunning =>
          if negb (fetchBufferValid s tid && (fetchBufferAlignPC fetchAddr =? fetchBufferPC s tid))
             && negb (isRomMicroPC (microPC thisPC)) && negb (is_Some_b (ft_macroop s tid)) then
            s ← fetchCacheLine fetchAddr tid s;
            Ok (Some status_change, s)
          else if checkInterrupt s && negb (delayedCommit s tid) then Ok (Some status_change, s)
          else '(b, s) ← fetchInsts tid status_change s; Ok (Some b, s)
      | _ => Ok (Some status_change, s)
      end
  end.
Fixpoint fetchThreads (fromIEW : nat → FtIEW) (n : nat) (status_change : bool) s : res (bool * Fetch) :=
  match n with
  | O => Ok (status_change, s)
  | S n =>
      '(b, s) ← fetch fromIEW status_change s;
      match b with Some b => fetchThreads fromIEW n b s | None => Ok (status_change, s) end
  end.

Definition pipelineIcacheAccesses s (tid : nat) : res Fetch :=
  let thisPC := ft_pc s tid in
  if negb (issuePipelinedIfetch s tid) || isRomMicroPC (microPC thisPC) then Ok s
  else
    let fetchAddr := fetchAddrOf thisPC (fetchOffset s tid) in
    if fetchBufferValid s tid && (fetchBufferAlignPC fetchAddr =? fetchBufferPC s tid) then Ok s
    else fetchCacheLine fetchAddr tid s.

(** ** The hand-over to decode *)
Definition available_insts s : Z :=
  foldl (λ n tid, if stalls_decode s tid then n else n + Z.of_nat (length (fetchQueue s tid))) 0 activeThreads.
(** [itr] is the rest of the active threads from the iterator on. *)
Fixpoint sendLoop (fuel : nat) (itr : list nat) (available insts_to_decode : Z) s : res Fetch :=
  if (available =? 0) || (decodeWidth <=? insts_to_decode) then Ok s
  else
    match fuel, itr with
    | O, _ => Err OutOfFuel
    | S _, [] => Err NullDeref
    | S fuel, tid :: rest =>
        let rest := match rest with [] => activeThreads | _ => rest end in
        match stalls_decode s tid, fetchQueue s tid with
        | false, inst :: q =>
            sendLoop fuel rest (available - 1) (insts_to_decode + 1)
              (s <| toDecode := toDecode s ++ [inst] |> <| fetchQueue ::= <[tid := q]> |>)
        | _, _ => sendLoop fuel rest available insts_to_decode s
        end
    end.
(** [start] is the random thread to begin with; a pass over the threads sends something. *)
Definition sendToDecode (start : nat) s : res Fetch :=
  let n := available_insts s in
  sendLoop (length activeThreads * S (Z.to_nat n)) (drop start activeThreads) n 0 s.

(** ** A cycle *)
Definition ftThread (fromDecode : nat → FtDecode) (fromCommit : nat → FtCommit) (robTail : nat → option InstPtr)
    (st : bool * Fetch) (tid : nat) : res (bool * Fetch) :=
  let '(status_change, s) := st in
  '(b, s) ← checkSignalsAndUpdate fromDecode fromCommit robTail tid s;
  Ok (status_change || b, s).
(** [interrupt] is [interruptPending] and [clearInterrupt] of [commitInfo[0]]. *)
Definition ft_tick (fromDecode : nat → FtDecode) (fromCommit : nat → FtCommit) (fromIEW : nat → FtIEW)
    (robTail : nat → option InstPtr) (interrupt : bool * bool) (start : nat) s : res Fetch :=
  let s := s <| toDecode := [] |> <| issuePipelinedIfetch := (λ _, false) |> in
  '(status_change, s) ← mfold (ftThread fromDecode fromCommit robTail) (false, s) activeThreads;
  let s := if fullSystem then
             let s := if interrupt.1 then s <| interruptPending := true |> else s in
             if interrupt.2 then s <| interruptPending := false |> else s
           else s in
  '(status_change, s) ← fetchThreads fromIEW numFetchingThreads status_change s;
  let s := if (status_change : bool) then s <| ft_status := updateFetchStatus s |> else s in
  s ← mfold pipelineIcacheAccesses s (seq 0 numThreads);
  s ← sendToDecode start s;
  Ok (s <| numInst := 0 |>).

(** ** Start-up, draining, threads *)
Definition ft_resetStage (cpuPC : nat → PCState) s : Fetch :=
  foldl (λ s tid, s <| fetchStatus ::= <[tid := FtRunning]> |> <| ft_pc ::= <[tid := cpuPC tid]> |> <| fetchOffset ::= <[tid := 0]> |>
           <| ft_macroop ::= <[tid := None]> |> <| delayedCommit ::= <[tid := false]> |> <| memReq ::= <[tid := None]> |>
           <| stalls_decode ::= <[tid := false]> |> <| stalls_drain ::= <[tid := false]> |> <| fetchBufferPC ::= <[tid := 0]> |>
           <| fetchBufferValid ::= <[tid := false]> |> <| fetchQueue ::= <[tid := []]> |> <| priorityList := priorityList s ++ [tid] |>)
    (s <| numInst := 0 |> <| interruptPending := false |> <| cacheBlocked := false |> <| priorityList := [] |> <| ft_status := FtInactive |>)
    (seq 0 numThreads).
Definition ft_startupStage (cpuPC : nat → PCState) s : res Fetch :=
  _ ← assert (bool_decide (priorityList s = []));
  Ok (ft_resetStage cpuPC s <| ft_status := FtActive |>).
Definition ft_drainResume s : Fetch :=
  foldl (λ s tid, s <| stalls_decode ::= <[tid := false]> |> <| stalls_drain ::= <[tid := false]> |>) s (seq 0 numThreads).
Definition ft_isDrained s : bool :=
  forallb (λ tid, bool_decide (fetchQueue s tid = [])
                  && (bool_decide (fetchStatus s tid = FtIdle)
                      || (bool_decide (fetchStatus s tid = FtBlocked) && stalls_drain s tid))) (seq 0 numThreads)
  && bool_decide (finishTranslationEvent s = None).
Definition ft_drainSanityCheck s : res unit :=
  _ ← assert (ft_isDrained s);
  _ ← assert (bool_decide (retryPkt s = None));
  _ ← assert (bool_decide (retryTid s = None));
  _ ← assert (negb (cacheBlocked s));
  _ ← assert (negb (interruptPending s));
  _ ← mfold (λ _ tid,
        _ ← assert (bool_decide (memReq s tid = None));
        assert (bool_decide (fetchStatus s tid = FtIdle) || stalls_drain s tid)) tt (seq 0 numThreads);
  bp_drainSanityCheck numThreads (branchPred s).
Definition drainStall (tid : nat) s : res Fetch :=
  _ ← assert draining;
  _ ← assert (negb (stalls_drain s tid));
  Ok (s <| stalls_drain ::= <[tid := true]> |>).
Definition wakeFromQuiesce s : Fetch := s <| fetchStatus ::= <[0%nat := FtRunning]> |>.
Definition deactivateThread (tid : nat) s : Fetch :=
  s <| priorityList := match list_find (eq tid) (priorityList s) with Some (i, _) => delete i (priorityList s) | None => priorityList s end |>.
End fetch.
