(* ===== verification/FetchProps.v ===== *)
(** * What fetch makes

    The loops of [fetch] end, and what they make is the path the predictor and the program
    counters describe; the hand-over to decode keeps the order of every thread. *)

From S2P Require Import Prelude Regs DynInst CPU IQInterface IntMath Targets BPred BPredInv BPredSteps Decode DecodeOps Fetch.
Local Open Scope Z_scope.

(** ** What fetch relies on *)
(** The decoder stays at the place it decodes, and after more bytes either has an instruction
    or needs the next bytes. *)
Definition same_place (p q : PCState) : Prop := instAddr q = instAddr p ∧ microPC q = microPC p.
Class DecoderOk (D : Type) `{!ISADecoder D} := {
  dec_place p d si p' d' : dec_decode p d = (si, p', d') → same_place p p';
  dec_progress p a i d : dec_instReady (dec_moreBytes p a i d) = true ∨ dec_needMoreBytes (dec_moreBytes p a i d) = true;
}.

(** ** Paths *)
(** [l] leads from [a] to [b]: every instruction is where the one before it was predicted to
    lead. *)
Fixpoint follows (h : heap) (a : PCState) (l : list InstPtr) (b : PCState) : Prop :=
  match l with
  | [] => a = b
  | p :: l => ∃ d, h !! p = Some d ∧ same_place a (pc d) ∧ follows h (predPC d) l b
  end.
Lemma follows_app (h : heap) (l1 l2 : list InstPtr) : ∀ a b c, follows h a l1 b → follows h b l2 c → follows h a (l1 ++ l2) c.
Proof.
  induction l1 as [|p l1 IH]; intros a b c H1 H2; cbn in *; [by subst|]. destruct H1 as (d & Hd & Hp & H1). exists d. split_and!; [done|done|by eapply IH].
Qed.
Lemma follows_heap (h h' : heap) (l : list InstPtr) : ∀ a b, (∀ p, p ∈ l → h' !! p = h !! p) → follows h a l b → follows h' a l b.
Proof.
  induction l as [|p l IH]; intros a b Hh Hf; cbn in *; [done|]. destruct Hf as (d & Hd & Hp & Hf). exists d. rewrite Hh by left.
  split_and!; [done|done|]. apply IH; [|done]. intros q Hq. apply Hh. by right.
Qed.

Section path.
Context {D P H : Type} `{!ISADecoder D} `{!DecoderOk D} `{!Predictor P H} `{!PredictorOk P H}.
Context (fl : DebugFlags) (fetchWidth fetchQueueSize fetchBufferSize : Z) (advancePC : StaticInst → PCState → PCState).
Context (disassemble : StaticInst → Z → String.string) (fetchMicroop : StaticInst → Z → StaticInst) (romMicroop : Z → option StaticInst → StaticInst).
Context (nopStaticInst : StaticInst) (n : Z).
Implicit Types (s : Fetch D P H).

(** What building instructions needs: a predictor in order with only older branches, fresh
    addresses and sequence numbers left. *)
Record makes s : Prop := {
  mk_bp : bp_inv n (branchPred s);
  mk_young : ∀ t, youngest_branch (globalSeqNum s) t (branchPred s);
  mk_fresh : ∀ p, is_Some (ft_heap s !! p) → (p < nextInst s)%nat;
  mk_seq : 0 ≤ globalSeqNum s ∧ globalSeqNum s + (fetchWidth - numInst s) < 2 ^ 64;
  mk_num : 0 ≤ numInst s ≤ fetchWidth;
}.
Definition room (tid : nat) s : Prop := numInst s < fetchWidth ∧ Z.of_nat (length (fetchQueue s tid)) < fetchQueueSize.

(** An instruction fetch made: as yet unsquashed, of the thread, numbered, and predicted taken
    only if it is a branch. *)
Definition made (tid : nat) (seq : Z) (d : DynInst) : Prop :=
  threadNumber d = tid ∧ seqNum d = seq ∧ isSquashed d = false ∧ fault d = NoFault ∧ (readPredTaken d = true → isControl d = true).

(** [k] instructions were made for the thread. *)
Record fetched (tid k : nat) s s' : Prop := {
  fe_queue : fetchQueue s' tid = fetchQueue s tid ++ seq (nextInst s) k;
  fe_queues : ∀ t, t ≠ tid → fetchQueue s' t = fetchQueue s t;
  fe_num : numInst s' = numInst s + Z.of_nat k;
  fe_seq : globalSeqNum s' = globalSeqNum s + Z.of_nat k;
  fe_next : nextInst s' = (nextInst s + k)%nat;
  fe_list : cpu_instList (ft_cpu s') = cpu_instList (ft_cpu s) ++ seq (nextInst s) k;
  fe_old : ∀ p, (p < nextInst s)%nat → ft_heap s' !! p = ft_heap s !! p;
  fe_new : ∀ i, (i < k)%nat → ∃ d, ft_heap s' !! (nextInst s + i)%nat = Some d ∧ made tid (globalSeqNum s + Z.of_nat i) d;
  fe_stalls : stalls_decode s' = stalls_decode s;
  fe_sent : toDecode s' = toDecode s;
  fe_pc : ft_pc s' = ft_pc s;
  fe_buffer : (fetchBufferPC s', fetchBufferValid s', fetchBuffer s') = (fetchBufferPC s, fetchBufferValid s, fetchBuffer s);
}.
Lemma fetched_refl (tid : nat) s : fetched tid 0 s s.
Proof.
  split; cbn; rewrite ?app_nil_r; try done; lia.
Qed.
Lemma fetched_trans (tid j k : nat) s s1 s' : fetched tid j s s1 → fetched tid k s1 s' → fetched tid (j + k) s s'.
Proof.
  intros [A1 A1' A2 A3 A4 A5 A6 A7 A8 A9 A10 A11] [B1 B1' B2 B3 B4 B5 B6 B7 B8 B9 B10 B11]. split; try (etrans; [eassumption|done]).
  - by rewrite B1, A1, A4, seq_app, app_assoc.
  - intros t Ht. by rewrite B1', A1'.
  - lia.
  - lia.
  - lia.
  - by rewrite B5, A5, A4, seq_app, app_assoc.
  - intros p Hp. rewrite B6 by lia. by apply A6.
  - intros i Hi. destruct (decide (i < j)%nat) as [Hlt|Hge].
    + destruct (A7 i Hlt) as (d & Hd & Hm). exists d. split; [|done]. rewrite B6 by lia. done.
    + destruct (B7 (i - j)%nat ltac:(lia)) as (d & Hd & Hm). exists d. rewrite A4, A3 in *.
      replace (nextInst s + i)%nat with (nextInst s + j + (i - j))%nat by lia. split; [done|].
      replace (globalSeqNum s + Z.of_nat i) with (globalSeqNum s + Z.of_nat j + Z.of_nat (i - j)) by lia. done.
Qed.

(** ** One instruction *)
Lemma readPredTaken_set (b : bool) (d : DynInst) : readPredTaken (setPredTaken b d) = b.
Proof. unfold readPredTaken, setPredTaken, get_fl, fl_assign. cbn. destruct b; [rewrite bit_get_set|rewrite bit_get_reset]; rewrite N.eqb_refl; [done|apply andb_false_r]. Qed.

(** The object [buildInst] creates. *)
Lemma newInst_ok (tid : nat) (si : StaticInst) (mo : option StaticInst) (sn : Z) (p0 p1 : PCState) (m : String.string) :
  let d0 := CollectMnemoniStats fl (setTid tid (initVars si sn p0 p1 <| macroop := mo |>)) m in
  let d := if CD_MarkUnsafeIf_AfterBranch fl && canCauseMisprediction d0 then setMaySquashOthers d0 else d0 in
  threadNumber d = tid ∧ seqNum d = sn ∧ isSquashed d = false ∧ fault d = NoFault ∧ pc d = p0 ∧ staticInst d = si ∧ readPredTaken d = false.
Proof.
  assert (Hset : ∀ st (d : DynInst), st ≠ Squashed → (threadNumber d = tid ∧ seqNum d = sn ∧ isSquashed d = false ∧ fault d = NoFault ∧ pc d = p0 ∧ staticInst d = si ∧ readPredTaken d = false) →
    let d := st_set st d in threadNumber d = tid ∧ seqNum d = sn ∧ isSquashed d = false ∧ fault d = NoFault ∧ pc d = p0 ∧ staticInst d = si ∧ readPredTaken d = false).
  { intros st d Hst (? & ? & Hs & ? & ? & ? & ?) d'. split_and!; try done. rewrite <- Hs. by apply get_st_set_ne. }
  unfold CollectMnemoniStats. cbn zeta. destruct (_ && canCauseMisprediction _); [apply (Hset MaySquashOthers); [done|]|];
    (destruct ((_ || _) && _); [apply (Hset BranchPrequisite); [done|]|]); (destruct (_ && (_ && _)); [apply (Hset ResolvedAtDecode); [done|]|]); by split_and!.
Qed.

Lemma buildInst_ok (tid : nat) (si : StaticInst) (mo : option StaticInst) (p0 p1 : PCState) s :
  makes s → room tid s →
  ∃ d s1, buildInst fl fetchWidth fetchQueueSize disassemble tid si mo p0 p1 s = Ok (nextInst s, s1)
    ∧ s1 = s <| globalSeqNum := globalSeqNum s + 1 |> <| ft_heap ::= <[nextInst s := d]> |> <| nextInst := S (nextInst s) |>
             <| ft_cpu ::= addInst (nextInst s) |> <| fetchQueue ::= <[tid := fetchQueue s tid ++ [nextInst s]]> |>
             <| delayedCommit ::= <[tid := isDelayedCommit d]> |>
    ∧ threadNumber d = tid ∧ seqNum d = globalSeqNum s ∧ isSquashed d = false ∧ fault d = NoFault ∧ pc d = p0 ∧ staticInst d = si ∧ readPredTaken d = false.
Proof.
  intros [_ _ _ [Hg Hw] _] [Hn Hq]. unfold buildInst. cbn zeta.
  pose proof (newInst_ok tid si mo (globalSeqNum s) p0 p1 (disassemble si (instAddr p0))) as Hd. cbn zeta in Hd. revert Hd.
  set (d := if CD_MarkUnsafeIf_AfterBranch fl && _ then _ else _). intros Hd. exists d.
  assert (E1 : (numInst s <? fetchWidth) = true) by (by apply Z.ltb_lt). cbn -[d]. rewrite E1. cbn -[d]. rewrite fn_lookup_insert.
  rewrite length_app. cbn -[d]. assert (E2 : (Z.of_nat (length (fetchQueue s tid) + 1) <=? fetchQueueSize) = true) by (apply Z.leb_le; lia).
  rewrite E2. cbn -[d]. eexists. split; [reflexivity|]. split; [|exact Hd]. unfold u64. rewrite Z.mod_small by lia. done.
Qed.

(** The predictor is asked for the branches only. *)
Lemma lookup_ok (p : InstPtr) (d : DynInst) (p0 : PCState) s :
  bp_inv n (branchPred s) → (∀ t, youngest_branch (seqNum d) t (branchPred s)) → ft_heap s !! p = Some d →
  ∃ b nextPC u, lookupAndUpdateNextPC advancePC p p0 s
      = Ok (b, nextPC, s <| branchPred := u |> <| ft_heap ::= <[p := setPredTaken b (setPredTarg nextPC d)]> |>)
    ∧ (b = true → isControl d = true) ∧ bp_inv n u ∧ ∀ t, youngest_branch (seqNum d + 1) t u.
Proof.
  intros Hb Hy Hd. unfold lookupAndUpdateNextPC, ft_inst. rewrite Hd. cbn [deref mbind res_bind].
  assert (Hlt : ∀ (l : list (PredictorHistory H)) sn, Forall (λ e, ph_seqNum e < sn) l → Forall (λ e, ph_seqNum e < sn + 1) l).
  { intros l sn Hl. eapply Forall_impl; [|exact Hl]. intros. cbn in *. lia. }
  assert (Hlt' : ∀ (l : list HistoryEntry) sn, Forall (λ x, ip_seqNum x < sn) l → Forall (λ x, ip_seqNum x < sn + 1) l).
  { intros l sn Hl. eapply Forall_impl; [|exact Hl]. intros. cbn in *. lia. }
  destruct (isControl d) eqn:Ec; cbn [negb].
  - destruct (predict_inv advancePC n (staticInst d) (seqNum d) p0 (threadNumber d) _ Hb (Hy _)) as (b & tgt & e & u' & E & Hb' & Hp).
    rewrite E. cbn [mbind res_bind]. exists b, tgt, u'. split_and!; try done. destruct Hp as [P1 P2 _ _ _ _ _ _ _ _ [x P11] P12 _ _ _ _ _].
    intros t. destruct (Hy t) as [Y1 Y2]. destruct (decide (t = threadNumber d)) as [->|Hne]; split.
    + rewrite P1, fn_lookup_insert. constructor; [lia|by apply Hlt].
    + rewrite P11. apply Forall_app. split; [by apply Hlt'|]. destruct (wasIndirect e); repeat constructor. cbn. lia.
    + rewrite P1, fn_lookup_insert_ne by done. by apply Hlt.
    + rewrite P12 by done. by apply Hlt'.
  - exists false, (advancePC (staticInst d) p0), (branchPred s). split_and!; [by destruct s|done|done|]. intros t. destruct (Hy t). split; auto.
Qed.

(** The source of the next instruction. *)
Lemma nextStatic_ok (tid : nat) (l : FetchLoop) s :
  let ready := is_Some_b (fl_curMacroop l) || fl_inRom l || dec_instReady (decoder s tid) in
  ∃ o l' dc, nextStatic fetchMicroop romMicroop nopStaticInst tid l s = (o, l', s <| decoder := dc |>)
    ∧ is_Some_b o = ready ∧ (o = None → l' = l) ∧ same_place (fl_thisPC l) (fl_thisPC l') ∧ fl_blkOffset l' = fl_blkOffset l.
Proof.
  unfold nextStatic. cbn zeta. assert (Es : s <| decoder := decoder s |> = s) by (by destruct s).
  destruct (is_Some_b (fl_curMacroop l) || fl_inRom l) eqn:Ei; cbn [orb].
  - destruct (fl_curMacroop l) as [m|] eqn:Em, (fl_inRom l) eqn:Er; try done; (eexists _, l, (decoder s); rewrite Es; by split_and!).
  - apply orb_false_iff in Ei as [Em Er]. destruct (dec_instReady (decoder s tid)); [|exists None, l, (decoder s); rewrite Es; by split_and!].
    destruct (dec_decode (fl_thisPC l) (decoder s tid)) as [[si p'] d'] eqn:Ed. pose proof (dec_place _ _ _ _ _ Ed) as Hp.
    destruct (fl_curMacroop l) eqn:Em'; [done|]. destruct (si_flag IsMacroop si); cbn; rewrite ?Em', ?Er; eexists _, _, _; by split_and!.
Qed.

Lemma makes_decoder s dc : makes s → makes (s <| decoder := dc |>).
Proof. intros [H1 H2 H3 H4 H5]. by split. Qed.

(** An instruction built, predicted and counted. *)
Lemma fetchBuild_ok (tid : nat) (si : StaticInst) (mo : option StaticInst) (p0 p1 : PCState) s :
  makes s → room tid s →
  ∃ s1 b nextPC s2, buildInst fl fetchWidth fetchQueueSize disassemble tid si mo p0 p1 s = Ok (nextInst s, s1)
    ∧ lookupAndUpdateNextPC advancePC (nextInst s) p0 (s1 <| numInst := numInst s1 + 1 |>) = Ok (b, nextPC, s2)
    ∧ fetched tid 1 s s2 ∧ makes s2 ∧ decoder s2 = decoder s
    ∧ ∃ d, ft_heap s2 !! nextInst s = Some d ∧ pc d = p0 ∧ predPC d = nextPC.
Proof.
  intros Hm Hr. destruct (buildInst_ok tid si mo p0 p1 s Hm Hr) as (d & s1 & E1 & Es1 & D1 & D2 & D3 & D4 & D5 & D6 & D7).
  pose proof Hm as [M1 M2 M3 M4 M5]. destruct Hr as [R1 R2]. set (s1' := s1 <| numInst := numInst s1 + 1 |>).
  assert (F : branchPred s1' = branchPred s ∧ ft_heap s1' = <[nextInst s := d]> (ft_heap s)) by (unfold s1'; by rewrite Es1). destruct F as [F1 F2].
  destruct (lookup_ok (nextInst s) d p0 s1') as (b & nextPC & u & E2 & L1 & L2 & L3).
  { by rewrite F1. } { intros t. by rewrite F1, D2. } { rewrite F2. apply lookup_insert_eq. }
  exists s1, b, nextPC, (s1' <| branchPred := u |> <| ft_heap ::= <[nextInst s := setPredTaken b (setPredTarg nextPC d)]> |>).
  assert (Hh : ∀ p, p ≠ nextInst s → ft_heap (s1' <| branchPred := u |> <| ft_heap ::= <[nextInst s := setPredTaken b (setPredTarg nextPC d)]> |>) !! p = ft_heap s !! p).
  { intros p Hp. change (<[nextInst s := setPredTaken b (setPredTarg nextPC d)]> (ft_heap s1') !! p = ft_heap s !! p). rewrite F2, !lookup_insert_ne by done. done. }
  split; [done|]. split; [exact E2|]. split; [|split; [|split]].
  - split.
    1-6: unfold s1'; rewrite Es1; cbn; rewrite ?fn_lookup_insert; done || lia || (intros t Ht; by rewrite fn_lookup_insert_ne).
    + intros p Hp. apply Hh. lia.
    + intros i Hi. assert (i = 0%nat) as -> by lia. rewrite Nat.add_0_r, Z.add_0_r. eexists. split; [apply lookup_insert_eq|].
      split_and!; try done. rewrite readPredTaken_set. done.
    + unfold s1'. by rewrite Es1.
    + unfold s1'. by rewrite Es1.
    + unfold s1'. by rewrite Es1.
    + unfold s1'. by rewrite Es1.
  - assert (G : globalSeqNum s1' = globalSeqNum s + 1 ∧ numInst s1' = numInst s + 1 ∧ nextInst s1' = S (nextInst s)) by (unfold s1'; by rewrite Es1).
    destruct G as (G1 & G2 & G3). split; [done|..].
    + intros t. change (youngest_branch (globalSeqNum s1') t u). rewrite G1, <- D2. apply L3.
    + intros p Hp. change (p < nextInst s1')%nat. rewrite G3. destruct (decide (p = nextInst s)) as [->|Hne]; [lia|]. specialize (M3 p). rewrite <- Hh in M3 by done. specialize (M3 Hp). lia.
    + change (0 ≤ globalSeqNum s1' ∧ globalSeqNum s1' + (fetchWidth - numInst s1') < 2 ^ 64). rewrite G1, G2. lia.
    + change (0 ≤ numInst s1' ≤ fetchWidth). rewrite G2. lia.
  - unfold s1'. by rewrite Es1.
  - eexists. split; [apply lookup_insert_eq|]. by split.
Qed.

Lemma fetchOne_ok (tid : nat) (l : FetchLoop) s :
  makes s → room tid s →
  ∃ again l' s' k, fetchOne fl fetchWidth fetchQueueSize advancePC disassemble fetchMicroop romMicroop nopStaticInst tid l s = Ok (again, l', s')
    ∧ fetched tid k s s' ∧ makes s' ∧ follows (ft_heap s') (fl_thisPC l) (seq (nextInst s) k) (fl_thisPC l')
    ∧ (again = true → room tid s') ∧ (0 ≤ fl_blkOffset l → 0 ≤ fl_blkOffset l')
    ∧ (k = 0%nat ∧ l' = l ∧ s' = s <| decoder := decoder s' |> ∧ dec_instReady (decoder s tid) = false ∧ again = false ∧ is_Some_b (fl_curMacroop l) || fl_inRom l = false ∨ k = 1%nat).
Proof.
  intros Hm Hr. unfold fetchOne. destruct (nextStatic_ok tid l s) as (o & l1 & dc & E & Ho & Hl & Hp & Hb). cbn zeta in Ho. rewrite E.
  destruct o as [[si nm]|].
  2: { exists false, l1, (s <| decoder := dc |>), 0%nat. rewrite (Hl eq_refl). symmetry in Ho. apply orb_false_iff in Ho as [Ho1 Ho2].
       split_and!; try done; [|by apply makes_decoder|by left]. by destruct (fetched_refl tid s). }
  set (s0 := s <| decoder := dc |>). destruct (fetchBuild_ok tid si (fl_curMacroop l1) (fl_thisPC l1) (fl_nextPC l1) s0) as (s1 & b & np & s2 & E1 & E2 & F & Hm2 & Hdc & d & Hd & Hpc & Hpp).
  { by apply makes_decoder. } { done. }
  rewrite E1. cbn [mbind res_bind]. change (nextInst s) with (nextInst s0). rewrite E2. cbn [mbind res_bind]. unfold ft_inst. rewrite Hd. cbn [deref mbind res_bind].
  set (l2 := l1 <| fl_predictedBranch := _ |> <| fl_nextPC := _ |> <| fl_thisPC := _ |> <| fl_inRom := _ |>).
  set (l3 := if (_ || _) then _ else l2).
  assert (L3 : fl_thisPC l3 = np ∧ (0 ≤ fl_blkOffset l → 0 ≤ fl_blkOffset l3)).
  { unfold l3. destruct (nm || negb (instAddr (fl_thisPC l1) =? instAddr np)); cbn; [split; [done|]; intros _; apply u32_range|]. by rewrite Hb. } destruct L3 as [L3 L4].
  assert (Hf : follows (ft_heap s2) (fl_thisPC l) (seq (nextInst s) 1) np) by (cbn; exists d; split_and!; [done|by rewrite Hpc|done]).
  destruct (isQuiesce d).
  - exists false, (l3 <| fl_quiesce := true |> <| fl_status_change := true |>), (s2 <| fetchStatus ::= <[tid := FtQuiescePending]> |>), 1%nat.
    split; [done|]. split; [destruct F; by split|]. split; [destruct Hm2; by split|]. split; [cbn; rewrite L3; exact Hf|]. split_and!; [done|done|by right].
  - eexists _, l3, s2, 1%nat. split; [reflexivity|]. split; [destruct F; by split|]. split; [done|]. split; [by rewrite L3|].
    split_and!; [|done|by right]. intros [[_ Hn%Z.ltb_lt]%andb_true_iff Hq%Z.ltb_lt]%andb_true_iff. by split.
Qed.

Lemma fetched_path (tid j k : nat) (a b c : PCState) s s1 s' :
  fetched tid j s s1 → fetched tid k s1 s' → follows (ft_heap s1) a (seq (nextInst s) j) b → follows (ft_heap s') b (seq (nextInst s1) k) c →
  follows (ft_heap s') a (seq (nextInst s) (j + k)) c.
Proof.
  intros F1 F2 H1 H2. rewrite seq_app. eapply follows_app; [|rewrite <- (fe_next _ _ _ _ F1); exact H2].
  eapply follows_heap; [|exact H1]. intros p Hp%elem_of_seq. apply (fe_old _ _ _ _ F2). rewrite (fe_next _ _ _ _ F1). lia.
Qed.
Lemma room_queue (tid k : nat) s s' : room tid s → fetched tid k s s' → (k ≤ 1)%nat → Z.of_nat (length (fetchQueue s' tid)) ≤ fetchQueueSize.
Proof. intros [_ Hq] F Hk. rewrite (fe_queue _ _ _ _ F), length_app, length_seq. lia. Qed.

(** ** The loops *)
(** The instructions a loop makes, from the PC in its variables on. *)
Record progress (tid k : nat) (l l' : FetchLoop) s s' : Prop := {
  pg_fetched : fetched tid k s s';
  pg_makes : makes s';
  pg_path : follows (ft_heap s') (fl_thisPC l) (seq (nextInst s) k) (fl_thisPC l');
  pg_block : 0 ≤ fl_blkOffset l → 0 ≤ fl_blkOffset l';
  pg_queue : Z.of_nat (length (fetchQueue s' tid)) ≤ fetchQueueSize;
}.
Lemma progress_trans (tid j k : nat) (l l1 l' : FetchLoop) s s1 s' :
  progress tid j l l1 s s1 → progress tid k l1 l' s1 s' → progress tid (j + k) l l' s s'.
Proof. intros [A1 A2 A3 A4 A5] [B1 B2 B3 B4 B5]. split; [by eapply fetched_trans|done|by eapply fetched_path|auto|done]. Qed.

Definition idle (tid : nat) (l l' : FetchLoop) s s' : Prop :=
  l' = l ∧ s' = s <| decoder := decoder s' |> ∧ dec_instReady (decoder s tid) = false ∧ is_Some_b (fl_curMacroop l) || fl_inRom l = false.

Lemma fetchInner_ok (tid fuel : nat) : ∀ (l : FetchLoop) s,
  makes s → room tid s → fetchWidth - numInst s < Z.of_nat fuel →
  ∃ l' s' k, fetchInner fl fetchWidth fetchQueueSize advancePC disassemble fetchMicroop romMicroop nopStaticInst fuel tid l s = Ok (l', s')
    ∧ progress tid k l l' s s' ∧ (k = 0%nat ∧ idle tid l l' s s' ∨ (1 ≤ k)%nat).
Proof.
  induction fuel as [|fuel IH]; intros l s Hm Hr Hf; [destruct Hm as [_ _ _ _ ?]; lia|]. cbn [fetchInner].
  destruct (fetchOne_ok tid l s Hm Hr) as (again & l1 & s1 & k & E & F & Hm1 & Hp & Hag & Hb & Hk). rewrite E. cbn [mbind res_bind].
  assert (Hpg : progress tid k l l1 s s1) by (split; try done; eapply room_queue; [exact Hr|exact F|destruct Hk as [(-> & _)| ->]; lia]).
  destruct again.
  - destruct Hk as [(_ & _ & _ & _ & ? & _)| ->]; [done|].
    destruct (IH l1 s1 Hm1 (Hag eq_refl)) as (l' & s' & k' & E' & Hp' & Hk'); [rewrite (fe_num _ _ _ _ F); lia|].
    exists l', s', (1 + k')%nat. split; [done|]. split; [by eapply progress_trans|right; lia].
  - exists l1, s1, k. split; [done|]. split; [done|]. destruct Hk as [(-> & K1 & K2 & K3 & _ & K4)| ->]; [left; by split_and!|by right].
Qed.

(** What the line must hold when it is valid. *)
Definition line_ok (tid : nat) s : Prop :=
  fetchBufferValid s tid = true → Z.of_nat (length (fetchBuffer s tid)) = fetchBufferSize / MachInst_size.

Lemma feedDecoder_ok (tid : nat) (l : FetchLoop) s :
  line_ok tid s → 0 ≤ fl_blkOffset l → fetchBufferSize / MachInst_size < 2 ^ 32 →
  feedDecoder fetchBufferSize tid l s = Ok None
  ∨ ∃ l' dc, feedDecoder fetchBufferSize tid l s = Ok (Some (l', s <| decoder := dc |>)) ∧ fl_thisPC l' = fl_thisPC l ∧ fl_curMacroop l' = fl_curMacroop l
      ∧ fl_inRom l' = fl_inRom l ∧ fl_predictedBranch l' = fl_predictedBranch l ∧ fl_quiesce l' = fl_quiesce l ∧ 0 ≤ fl_blkOffset l'
      ∧ (dec_instReady (dc tid) = true ∨ is_Some_b (fl_curMacroop l) || fl_inRom l = true
         ∨ fl_blkOffset l' = fl_blkOffset l + 1 ∧ fl_blkOffset l < fetchBufferSize / MachInst_size).
Proof.
  intros Hlo Hb HN. unfold feedDecoder. assert (Es : s <| decoder := decoder s |> = s) by (by destruct s).
  destruct (negb (fl_inRom l)) eqn:Er; cbn [andb].
  2: { right. exists l, (decoder s). rewrite Es. apply negb_false_iff in Er. split_and!; try done. right. left. by rewrite Er, orb_true_r. }
  destruct (negb (is_Some_b (fl_curMacroop l))) eqn:Em; cbn [andb].
  2: { right. exists l, (decoder s). rewrite Es. apply negb_false_iff in Em. split_and!; try done. right. left. by rewrite Em. }
  destruct (dec_instReady (decoder s tid)) eqn:Ed; cbn [andb negb].
  { right. exists l, (decoder s). rewrite Es. split_and!; try done. by left. }
  destruct (negb (fetchBufferValid s tid) || _) eqn:Ev; [by left|]. apply orb_false_iff in Ev as [Ev%negb_false_iff _].
  destruct (Z.leb_spec (fetchBufferSize / MachInst_size) (fl_blkOffset l)) as [|Hlt]; [by left|right].
  destruct (vget_in_range (fetchBuffer s tid) (fl_blkOffset l)) as [i Ei]; [rewrite Hlo by done; lia|].
  rewrite Ei. cbn [mbind res_bind]. set (dc := <[tid := dec_moreBytes (fl_thisPC l) (fetchAddrOf (fl_thisPC l) (fl_pcOffset l)) i (decoder s tid)]> (decoder s)).
  assert (Edc : dc tid = dec_moreBytes (fl_thisPC l) (fetchAddrOf (fl_thisPC l) (fl_pcOffset l)) i (decoder s tid)) by apply fn_lookup_insert.
  eexists _, dc. split; [reflexivity|]. change (decoder (s <| decoder ::= _ |>) tid) with (dc tid). rewrite Edc. destruct (dec_needMoreBytes _) eqn:En; cbn.
  - rewrite u32_small by lia. split_and!; try done; [lia|]. right. right. lia.
  - split_and!; try done. left. destruct (dec_progress (fl_thisPC l) (fetchAddrOf (fl_thisPC l) (fl_pcOffset l)) i (decoder s tid)); congruence.
Qed.

(** Every round of the outer loop makes an instruction or reads on in the line. *)
Definition rounds (l : FetchLoop) s : Z :=
  let N := fetchBufferSize / MachInst_size in (fetchWidth - numInst s) * (N + 1) + (N - Z.min N (fl_blkOffset l)).

Lemma fetched_line (tid k : nat) s s' : fetched tid k s s' → line_ok tid s → line_ok tid s'.
Proof. intros F Hl. pose proof (fe_buffer _ _ _ _ F) as E. injection E as E1 E2 E3. unfold line_ok. by rewrite E2, E3. Qed.
Lemma fetched_decoder (tid k : nat) (dc : nat → D) s s' : fetched tid k (s <| decoder := dc |>) s' → fetched tid k s s'.
Proof. by intros [? ? ? ? ? ? ? ? ? ? ? ?]. Qed.
Lemma progress_refl (tid : nat) (l : FetchLoop) s : makes s → Z.of_nat (length (fetchQueue s tid)) ≤ fetchQueueSize → progress tid 0 l l s s.
Proof. intros Hm Hq. split; try done. apply fetched_refl. Qed.

Lemma fetchOuter_ok (tid inner fuel : nat) : ∀ (l : FetchLoop) s,
  makes s → Z.of_nat (length (fetchQueue s tid)) ≤ fetchQueueSize → line_ok tid s → 0 ≤ fl_blkOffset l →
  0 ≤ fetchBufferSize / MachInst_size < 2 ^ 32 → fetchWidth < Z.of_nat inner → rounds l s < Z.of_nat fuel →
  ∃ l' s' k, fetchOuter fl fetchWidth fetchQueueSize fetchBufferSize advancePC disassemble fetchMicroop romMicroop nopStaticInst fuel inner tid l s = Ok (l', s')
    ∧ progress tid k l l' s s'.
Proof.
  induction fuel as [|fuel IH]; intros l s Hm Hq Hl Hb HN Hi Hf.
  { unfold rounds in Hf. destruct Hm as [_ _ _ _ [? ?]]. assert (0 ≤ (fetchWidth - numInst s) * (fetchBufferSize / MachInst_size + 1)) by (apply Z.mul_nonneg_nonneg; lia). lia. }
  cbn [fetchOuter]. destruct (_ && _ && _ && _) eqn:Eg; [|exists l, s, 0%nat; split; [done|by apply progress_refl]].
  repeat (apply andb_true_iff in Eg as [Eg ?]). apply Z.ltb_lt in Eg. assert (Hr : room tid s) by (split; [done|by apply Z.ltb_lt]).
  destruct (feedDecoder_ok tid l s Hl Hb (proj2 HN)) as [E|(l1 & dc & E & T1 & T2 & T3 & T4 & T5 & T6 & T7)]; rewrite E; cbn [mbind res_bind].
  { exists l, s, 0%nat. split; [done|by apply progress_refl]. }
  destruct (fetchInner_ok tid inner l1 (s <| decoder := dc |>)) as (l2 & s2 & k & E2 & Hp & Hk); [by apply makes_decoder|done|destruct Hm as [_ _ _ _ ?]; cbn; lia|].
  rewrite E2. cbn [mbind res_bind]. set (l3 := l2 <| fl_inRom := _ |>). destruct Hp as [F M2 Hpath Hbk Hqq]. apply fetched_decoder in F.
  assert (Hp3 : progress tid k l l3 s s2) by (split; try done; [unfold l3; cbn; by rewrite <- T1|intros _; by apply Hbk]).
  destruct (IH l3 s2) as (l' & s' & k' & E' & Hp'); try done.
  - by eapply fetched_line.
  - by apply Hbk.
  - unfold rounds in *. rewrite (fe_num _ _ _ _ F). change (fl_blkOffset l3) with (fl_blkOffset l2). set (N := fetchBufferSize / MachInst_size) in *.
    destruct Hk as [(-> & -> & _ & K3 & K4)|Hk].
    + destruct T7 as [T7|[T7|[T7 T8]]]; [cbn in K3; congruence|rewrite T2, T3 in K4; congruence|]. lia.
    + assert ((fetchWidth - (numInst s + Z.of_nat k)) * (N + 1) ≤ (fetchWidth - numInst s - 1) * (N + 1)) by (apply Z.mul_le_mono_nonneg_r; lia).
      specialize (Hbk T6). lia.
  - exists l', s', (k + k')%nat. split; [done|by eapply progress_trans].
Qed.

Lemma fuel_enough (l : FetchLoop) s : 0 ≤ numInst s ≤ fetchWidth → 0 ≤ fl_blkOffset l → 0 ≤ fetchBufferSize / MachInst_size →
  fetchWidth < Z.of_nat (innerFuel fetchWidth) ∧ rounds l s < Z.of_nat (outerFuel fetchWidth fetchBufferSize).
Proof.
  intros Hn Hb HN. unfold rounds, innerFuel, outerFuel. set (N := fetchBufferSize / MachInst_size) in *. rewrite Nat2Z.inj_mul, !Nat2Z.inj_succ, !Z2Nat.id by lia.
  split; [lia|]. assert ((fetchWidth - numInst s) * (N + 1) ≤ fetchWidth * (N + 1)) by (apply Z.mul_le_mono_nonneg_r; lia). lia.
Qed.
End path.

(** C22: fetch follows its predictions.  From a state whose branch predictor is in order, the
    loops of [fetch] end and none of its assertions fails: they make at most as many
    instructions as are left of the width and fit into the queue, append them to the queue of
    the thread and to the CPU's list, number them consecutively, and mark only branches as
    predicted taken.  The instructions form a path from the PC the thread was at to the PC it
    is left at: each is where the one before it is predicted to lead. *)
Theorem fetch_follows_prediction {D P H : Type} `{!ISADecoder D} `{!DecoderOk D} `{!Predictor P H} `{!PredictorOk P H}
    (fl : DebugFlags) (fetchWidth fetchQueueSize fetchBufferSize : Z) (advancePC : StaticInst → PCState → PCState)
    (disassemble : StaticInst → Z → String.string) (fetchMicroop : StaticInst → Z → StaticInst)
    (romMicroop : Z → option StaticInst → StaticInst) (nopStaticInst : StaticInst) (n : Z)
    (tid : nat) (b : bool) (s : Fetch D P H) :
  makes fetchWidth n s → Z.of_nat (length (fetchQueue s tid)) ≤ fetchQueueSize → line_ok fetchBufferSize tid s →
  0 ≤ fetchBufferSize / MachInst_size < 2 ^ 32 →
  ∃ b' s' k, fetchInsts fl fetchWidth fetchQueueSize fetchBufferSize advancePC disassemble fetchMicroop romMicroop nopStaticInst tid b s = Ok (b', s')
    ∧ numInst s' = numInst s + Z.of_nat k ∧ numInst s' ≤ fetchWidth
    ∧ fetchQueue s' tid = fetchQueue s tid ++ seq (nextInst s) k ∧ Z.of_nat (length (fetchQueue s' tid)) ≤ fetchQueueSize
    ∧ (∀ t, t ≠ tid → fetchQueue s' t = fetchQueue s t)
    ∧ cpu_instList (ft_cpu s') = cpu_instList (ft_cpu s) ++ seq (nextInst s) k
    ∧ (∀ p, (p < nextInst s)%nat → ft_heap s' !! p = ft_heap s !! p)
    ∧ (∀ i, (i < k)%nat → ∃ d, ft_heap s' !! (nextInst s + i)%nat = Some d ∧ made tid (globalSeqNum s + Z.of_nat i) d)
    ∧ follows (ft_heap s') (ft_pc s tid) (seq (nextInst s) k) (ft_pc s' tid)
    ∧ makes fetchWidth n s'.
Proof.
  intros Hm Hq Hl HN. unfold fetchInsts. set (l0 := MkFetchLoop _ _ _ _ _ _ _ _ _).
  assert (Hb0 : 0 ≤ fl_blkOffset l0) by apply u32_range.
  destruct (fuel_enough fetchWidth fetchBufferSize l0 s) as [Hi Ho]; [by destruct Hm|done|lia|].
  destruct (fetchOuter_ok fl fetchWidth fetchQueueSize fetchBufferSize advancePC disassemble fetchMicroop romMicroop nopStaticInst n tid
              (innerFuel fetchWidth) (outerFuel fetchWidth fetchBufferSize) l0 s Hm Hq Hl Hb0 HN Hi Ho) as (l' & s' & k & E & [F M2 Hpath _ Hqq]).
  rewrite E. cbn [mbind res_bind]. eexists _, _, k. split; [reflexivity|]. pose proof F as [F1 F1' F2 F3 F4 F5 F6 F7 F8 F9 F10 F11].
  pose proof M2 as [_ _ _ _ [_ Hn]]. cbn. rewrite fn_lookup_insert. split_and!; try done. destruct M2. by split.
Qed.

(** ** The hand-over to decode *)
Section handover.
Context {D P H : Type} (active : list nat) (decodeWidth : Z).
Implicit Types (s : Fetch D P H).

Definition ready_of s (t : nat) : Z := if stalls_decode s t then 0 else Z.of_nat (length (fetchQueue s t)).
Definition ready_in (l : list nat) s : Z := foldr (λ t n, ready_of s t + n) 0 l.
Lemma ready_cons (t : nat) (l : list nat) s : ready_in (t :: l) s = ready_of s t + ready_in l s.
Proof. done. Qed.
Lemma available_ready s : available_insts active s = ready_in active s.
Proof.
  unfold available_insts. assert (E : ∀ l z, foldl (λ n tid, if stalls_decode s tid then n else n + Z.of_nat (length (fetchQueue s tid))) z l = z + ready_in l s); [|by rewrite E].
  induction l as [|t l IH]; intros z; [cbn; lia|]. rewrite ready_cons. cbn [foldl]. rewrite IH. unfold ready_of. destruct (stalls_decode s t); lia.
Qed.
Lemma ready_nonneg (l : list nat) s : 0 ≤ ready_in l s.
Proof. induction l as [|t l IH]; [done|]. rewrite ready_cons. unfold ready_of. destruct (stalls_decode s t); lia. Qed.
Lemma ready_some (l : list nat) s : 0 < ready_in l s → ∃ i t p q, l !! i = Some t ∧ stalls_decode s t = false ∧ fetchQueue s t = p :: q.
Proof.
  induction l as [|t l IH]; [cbn; lia|]. rewrite ready_cons. intros Hp. destruct (stalls_decode s t) eqn:Es, (fetchQueue s t) as [|p q] eqn:Eq;
    unfold ready_of in Hp; rewrite ?Es, ?Eq in Hp; try (destruct IH as (i & t' & p' & q' & Hi & Hr); [cbn in Hp; lia|]; by exists (S i), t', p', q').
  by exists 0%nat, t, p, q.
Qed.

(** A step of the loop. *)
Definition popped (tid : nat) (p : InstPtr) (q : list InstPtr) s : Fetch D P H :=
  s <| toDecode := toDecode s ++ [p] |> <| fetchQueue ::= <[tid := q]> |>.
Lemma ready_popped (l : list nat) (tid : nat) (p : InstPtr) (q : list InstPtr) s :
  NoDup l → stalls_decode s tid = false → fetchQueue s tid = p :: q → tid ∈ l → ready_in l (popped tid p q s) = ready_in l s - 1.
Proof.
  intros Hnd Hs Hq Hin. assert (Hne : ∀ l', tid ∉ l' → ready_in l' (popped tid p q s) = ready_in l' s).
  { induction l' as [|t l' IH]; intros Hn; [done|]. apply not_elem_of_cons in Hn as [Hn1 Hn2]. rewrite !ready_cons, IH by done. unfold ready_of. cbn. by rewrite fn_lookup_insert_ne. }
  induction Hnd as [|t l Hnt Hnd IH]; [by apply not_elem_of_nil in Hin|]. rewrite !ready_cons. apply elem_of_cons in Hin as [<-|Hin].
  - rewrite Hne by done. unfold ready_of. cbn. rewrite Hs, fn_lookup_insert, Hq. cbn. lia.
  - rewrite IH by done. unfold ready_of. cbn. rewrite fn_lookup_insert_ne by (by intros ->). lia.
Qed.

(** What was sent, with the thread it was sent for. *)
Record handed (sent : list (nat * InstPtr)) s s' : Prop := {
  ho_sent : toDecode s' = toDecode s ++ sent.*2;
  ho_queue : ∀ t, fetchQueue s t = (filter (λ x, x.1 = t) sent).*2 ++ fetchQueue s' t;
  ho_stalled : ∀ t p, (t, p) ∈ sent → stalls_decode s t = false ∧ t ∈ active;
  ho_rest : s' = s <| toDecode := toDecode s' |> <| fetchQueue := fetchQueue s' |>;
}.
Lemma handed_nil s : handed [] s s.
Proof. split; cbn; rewrite ?app_nil_r; try done; [by intros t p ?%not_elem_of_nil|by destruct s]. Qed.
Lemma handed_cons (tid : nat) (p : InstPtr) (q : list InstPtr) (sent : list (nat * InstPtr)) s s' :
  stalls_decode s tid = false → fetchQueue s tid = p :: q → tid ∈ active → handed sent (popped tid p q s) s' → handed ((tid, p) :: sent) s s'.
Proof.
  intros Hs Hq Hin [A1 A2 A3 A4]. split.
  - rewrite A1. cbn. by rewrite <- app_assoc.
  - intros t. specialize (A2 t). cbn in A2. rewrite filter_cons. destruct (decide (tid = t)) as [<-|Hne].
    + rewrite fn_lookup_insert in A2. rewrite decide_True by done. cbn. by rewrite Hq, A2.
    + rewrite fn_lookup_insert_ne in A2 by done. rewrite decide_False by done. done.
  - intros t p' [E|Hin']%elem_of_cons; [by injection E as -> ->|by apply (A3 t p')].
  - rewrite A4. done.
Qed.

(** The iterator, as a position, and the threads from there to one that can send. *)
Lemma drop_next (i : nat) (t : nat) (rest : list nat) :
  (i < length active)%nat → drop i active = t :: rest →
  ∃ i', i' = (S i mod length active)%nat ∧ match rest with [] => active | _ => rest end = drop i' active ∧ (i' < length active)%nat ∧ active !! i = Some t.
Proof.
  intros Hi Ed. assert (Hrest : rest = drop (S i) active) by (rewrite <- Nat.add_1_r, <- drop_drop, Ed; done).
  assert (Hl : active !! i = Some t) by (rewrite <- (Nat.add_0_r i), <- lookup_drop, Ed; done).
  exists (S i mod length active)%nat. split; [done|]. destruct (decide (S i = length active)) as [He|Hne].
  - rewrite He, Nat.Div0.mod_same. rewrite drop_ge in Hrest by lia. subst rest. split_and!; [by rewrite drop_0|lia|done].
  - rewrite Nat.mod_small by lia. split_and!; [|lia|done]. destruct rest; [|done]. apply (f_equal length) in Hrest. rewrite length_drop in Hrest. cbn in Hrest. lia.
Qed.

(** From position [i], a thread [k] steps ahead can send, and the fuel lasts. *)
Definition ahead (i : nat) (fuel : nat) s : Prop :=
  0 < ready_in active s → ∃ (k t p : nat) (q : list InstPtr), (k < length active)%nat ∧ active !! ((i + k) mod length active)%nat = Some t
    ∧ stalls_decode s t = false ∧ fetchQueue s t = p :: q ∧ Z.of_nat k + Z.of_nat (length active) * (ready_in active s - 1) < Z.of_nat fuel.
Lemma ahead_some (i fuel : nat) s : (i < length active)%nat → Z.of_nat (length active) * ready_in active s ≤ Z.of_nat fuel → ahead i fuel s.
Proof.
  intros Hi Hf Hr. destruct (ready_some _ _ Hr) as (j & t & p & q & Hj & Hs & Hq). pose proof (lookup_lt_Some _ _ _ Hj) as Hjl. set (m := length active) in *.
  exists ((j + (m - i)) mod m)%nat, t, p, q. assert (Hk : ((j + (m - i)) mod m < m)%nat) by (apply Nat.mod_upper_bound; lia).
  split_and!; try done.
  - rewrite Nat.Div0.add_mod_idemp_r. replace (i + (j + (m - i)))%nat with (j + 1 * m)%nat by lia. rewrite Nat.Div0.mod_add, Nat.mod_small by done. done.
  - rewrite Z.mul_sub_distr_l. lia.
Qed.

Lemma sendLoop_ok (fuel : nat) : ∀ (i : nat) (k : Z) s,
  NoDup active → (i < length active)%nat → ahead i fuel s →
  ∃ sent s', sendLoop active decodeWidth fuel (drop i active) (ready_in active s) k s = Ok s'
    ∧ handed sent s s' ∧ Z.of_nat (length sent) = Z.min (ready_in active s) (Z.max 0 (decodeWidth - k)).
Proof.
  induction fuel as [|fuel IH]; intros i k s Hnd Hi Ha; cbn [sendLoop]; pose proof (ready_nonneg active s) as Hnn.
  all: destruct (Z.eqb_spec (ready_in active s) 0) as [E0|N0]; [exists [], s; split; [done|]; split; [apply handed_nil|cbn; lia]|].
  all: destruct (Z.leb_spec decodeWidth k) as [Hw|Hw]; [exists [], s; split; [done|]; split; [apply handed_nil|cbn; lia]|].
  all: destruct (Ha ltac:(lia)) as (d & t & p & q & Hd & Ht & Hs & Hq & Hf); cbn [orb].
  { assert (0 ≤ Z.of_nat (length active) * (ready_in active s - 1)) by (apply Z.mul_nonneg_nonneg; lia). lia. }
  destruct (drop i active) as [|t0 rest] eqn:Ed; [apply (f_equal length) in Ed; rewrite length_drop in Ed; cbn in Ed; lia|].
  destruct (drop_next _ _ _ Hi Ed) as (i' & Ei' & Er & Hi' & Ht0). rewrite Er.
  assert (Hstep : (stalls_decode s t0 = true ∨ fetchQueue s t0 = []) →
    ∃ sent s', sendLoop active decodeWidth fuel (drop i' active) (ready_in active s) k s = Ok s'
      ∧ handed sent s s' ∧ Z.of_nat (length sent) = Z.min (ready_in active s) (Z.max 0 (decodeWidth - k))).
  { intros Hno. apply IH; [done|done|]. intros _. destruct d as [|d].
    - rewrite Nat.add_0_r, Nat.mod_small in Ht by done. assert (t = t0) as -> by congruence. destruct Hno; congruence.
    - exists d, t, p, q. split_and!; try done; try lia. rewrite <- Ht. f_equal. rewrite Ei', Nat.Div0.add_mod_idemp_l. f_equal. lia. }
  destruct (stalls_decode s t0) eqn:Es0; [by apply Hstep; left|]. destruct (fetchQueue s t0) as [|p0 q0] eqn:Eq0; [by apply Hstep; right|].
  assert (Hin : t0 ∈ active) by (by apply list_elem_of_lookup_2 in Ht0). pose proof (ready_popped active t0 p0 q0 s Hnd Es0 Eq0 Hin) as Hrp.
  destruct (IH i' (k + 1) (popped t0 p0 q0 s) Hnd Hi') as (sent & s' & E & Hh & Hl).
  { apply ahead_some; [done|]. rewrite Hrp. lia. }
  fold (popped t0 p0 q0 s). rewrite Hrp in E, Hl. rewrite E. exists ((t0, p0) :: sent), s'. split; [done|]. split; [by apply (handed_cons _ _ q0)|]. cbn. lia.
Qed.
End handover.

(** C24: the hand-over to decode ends and is fair to the order.  Starting at any active thread,
    the loop sends exactly as many instructions as are ready in the queues of the threads
    that decode does not stall, up to the width; it sends nothing of a stalled thread, and
    what it sends of a thread is the front of that thread's queue, in order. *)
Theorem fetch_hands_over {D P H : Type} (active : list nat) (decodeWidth : Z) (start : nat) (s : Fetch D P H) :
  NoDup active → (start < length active)%nat →
  ∃ sent s', sendToDecode active decodeWidth start s = Ok s' ∧ handed active sent s s'
    ∧ Z.of_nat (length sent) = Z.min (available_insts active s) (Z.max 0 decodeWidth).
Proof.
  intros Hnd Hs. unfold sendToDecode. rewrite available_ready. pose proof (ready_nonneg active s).
  destruct (sendLoop_ok active decodeWidth (length active * S (Z.to_nat (ready_in active s))) start 0 s Hnd Hs) as (sent & s' & E & Hh & Hl).
  { apply ahead_some; [done|]. rewrite Nat2Z.inj_mul, Nat2Z.inj_succ, Z2Nat.id by done. lia. }
  rewrite Z.sub_0_r in Hl. by exists sent, s'.
Qed.

(** ** What the rest of a cycle leaves alone *)
(** The queues hold the thread's own instructions; addresses above [nextInst] are free. *)
Record queues_ok {D P H : Type} (s : Fetch D P H) : Prop := {
  qo_owned : ∀ t, owned (ft_heap s) t (fetchQueue s t);
  qo_fresh : ∀ p, is_Some (ft_heap s !! p) → (p < nextInst s)%nat;
}.
(** No stall is changed and nothing is sent; instructions stay with their threads. *)
Record calm {D P H : Type} (s s' : Fetch D P H) : Prop := {
  cm_stalls : stalls_decode s' = stalls_decode s;
  cm_sent : toDecode s' = toDecode s;
  cm_queues : queues_ok s → queues_ok s';
  cm_threads : queues_ok s → ∀ p d, ft_heap s !! p = Some d → ∃ d', ft_heap s' !! p = Some d' ∧ threadNumber d' = threadNumber d;
}.
#[export] Instance calm_po {D P H} : PreOrder (@calm D P H).
Proof.
  split; [by intros s; split; eauto|]. intros s1 s2 s3 [A1 A2 A3 A4] [B1 B2 B3 B4]. split; [congruence|congruence|auto|].
  intros Hq p d Hd. destruct (A4 Hq p d Hd) as (d' & Hd' & E). destruct (B4 (A3 Hq) p d' Hd') as (d'' & Hd'' & E'). exists d''. split; [done|congruence].
Qed.

Section calm.
Context {D P H : Type} `{!ISADecoder D} `{!Predictor P H}.
Implicit Types (s : Fetch D P H).

(** Fields that are not those of [calm]. *)
Lemma calm_same s s' :
  stalls_decode s' = stalls_decode s → toDecode s' = toDecode s → ft_heap s' = ft_heap s → nextInst s' = nextInst s →
  (∀ t, fetchQueue s' t = fetchQueue s t ∨ fetchQueue s' t = []) → calm s s'.
Proof.
  intros E1 E2 E3 E4 E5. split; [done|done| |].
  - intros [Q1 Q2]. split; rewrite E3; [|by rewrite E4]. intros t. destruct (E5 t) as [E|E]; rewrite E; [done|by intros p ?%not_elem_of_nil].
  - intros _ p d Hd. rewrite E3. by exists d.
Qed.
Lemma calm_kept (M : nat → Prop) c (h : heap) s : kept M (ft_heap s) h → calm s (s <| ft_cpu := c |> <| ft_heap := h |>).
Proof.
  intros Hk. split; [done|done| |].
  - intros [Q1 Q2]. split; cbn; [intros t; by eapply owned_kept|]. intros p Hp. apply Q2. specialize (Hk p). destruct Hp as [d Hd]. rewrite Hd in Hk. by destruct (ft_heap s !! p).
  - intros _ p d Hd. destruct (kept_lookup _ _ _ _ _ Hk Hd) as (d' & Hd' & _ & Et & _). by exists d'.
Qed.
Lemma calm_put (p : InstPtr) (d d' : DynInst) s : ft_heap s !! p = Some d → threadNumber d' = threadNumber d → calm s (ft_put p d' s).
Proof.
  intros Hd Et. assert (Hl : ∀ q e, ft_heap s !! q = Some e → ∃ e', <[p := d']> (ft_heap s) !! q = Some e' ∧ threadNumber e' = threadNumber e).
  { intros q e He. destruct (decide (q = p)) as [->|Hne]; [rewrite lookup_insert_eq; exists d'; split; [done|congruence]|rewrite lookup_insert_ne by done; by exists e]. }
  split; [done|done| |intros _; exact Hl]. intros [Q1 Q2]. split; cbn.
  - intros t q Hq. destruct (Q1 t q Hq) as (e & He & Ht). destruct (Hl q e He) as (e' & He' & Et'). exists e'. split; [done|congruence].
  - intros q Hq. apply Q2. destruct (decide (q = p)) as [->|Hne]; [by exists d|by rewrite lookup_insert_ne in Hq].
Qed.

Lemma doSquash_calm (newPC : PCState) (si : option InstPtr) (tid : nat) s s' : doSquash newPC si tid s = Ok s' → calm s s'.
Proof.
  unfold doSquash. intros E. apply bind_ok in E as (mo & _ & E). cbn zeta in E. apply bind_ok in E as (s1 & E1 & E). injection E as <-.
  match type of E1 with context [retryTid ?x] => set (s0 := x) in E1 end.
  assert (H0 : calm s s0) by (unfold s0; cbn; destruct (fetchStatus s tid); apply calm_same; auto). etrans; [exact H0|].
  assert (H1 : calm s0 s1).
  { case_decide; [apply bind_ok in E1 as (? & _ & E1)|]; injection E1 as <-; apply calm_same; auto. }
  etrans; [exact H1|]. apply calm_same; try done. intros t. cbn. destruct (decide (tid = t)) as [<-|]; [right; by rewrite fn_lookup_insert|left; by rewrite fn_lookup_insert_ne].
Qed.
Lemma removeNotInROB_kept (e : InstPtr) (tid : nat) (back : list InstPtr) : ∀ c c' h h',
  removeNotInROB_loop e tid back c h = Ok (c', h') → kept (eq tid) h h'.
Proof.
  induction back as [|p back IH]; intros c c' h h' E; cbn in E; [done|]. case_decide; [by injection E as _ <-|].
  apply bind_ok in E as ([c1 h1] & E1 & E). etrans; [by eapply squashInstIt_kept|by eapply IH].
Qed.
Lemma removeInstsNotInROB_kept (tl : option InstPtr) (tid : nat) c c' h h' : removeInstsNotInROB tl tid c h = Ok (c', h') → kept (eq tid) h h'.
Proof.
  unfold removeInstsNotInROB. intros E. destruct (cpu_instList c) as [|f l]; [by injection E as _ <-|]. destruct tl; [by eapply removeNotInROB_kept|].
  apply bind_ok in E as ([c1 h1] & E1 & E). etrans; [by eapply removeNotInROB_kept|by eapply squashInstIt_kept].
Qed.
Lemma squash_calm (tl : option InstPtr) (newPC : PCState) (si : option InstPtr) (tid : nat) s s' : squash tl newPC si tid s = Ok s' → calm s s'.
Proof.
  unfold squash. intros E. apply bind_ok in E as (s1 & E1 & E). apply bind_ok in E as ([c h] & E2 & E). injection E as <-.
  etrans; [by eapply doSquash_calm|]. eapply calm_kept. by eapply removeInstsNotInROB_kept.
Qed.
Lemma squashFromDecode_calm (newPC : PCState) (si : option InstPtr) (sn : Z) (tid : nat) s s' : squashFromDecode newPC si sn tid s = Ok s' → calm s s'.
Proof.
  unfold squashFromDecode. intros E. apply bind_ok in E as (s1 & E1 & E). apply bind_ok in E as ([c h] & E2 & E). injection E as <-.
  etrans; [by eapply doSquash_calm|]. eapply calm_kept. unfold removeInstsUntil in E2. apply bind_ok in E2 as (? & _ & E2). by eapply removeUntil_kept.
Qed.
Lemma settleStatus_calm (dr b : bool) (tid : nat) s s' : settleStatus dr tid s = Ok (b, s') → calm s s'.
Proof.
  unfold settleStatus. intros E. apply bind_ok in E as (st & _ & E). destruct (st && _); [injection E as _ <-; apply calm_same; auto|].
  destruct (fetchStatus s tid); injection E as _ <-; apply calm_same; auto.
Qed.
Lemma squashPredictor_calm (rand : nat → Z) (m : bool) (sn : Z) (tgt : PCState) (tk : bool) (tid : nat) s s' :
  squashPredictor rand m sn tgt tk tid s = Ok s' → calm s s'.
Proof. unfold squashPredictor. intros E. apply bind_ok in E as (u & _ & E). injection E as <-. apply calm_same; auto. Qed.

Section make.
Context (fl : DebugFlags) (fetchWidth fetchQueueSize fetchBufferSize : Z) (advancePC : StaticInst → PCState → PCState).
Context (disassemble : StaticInst → Z → String.string) (fetchMicroop : StaticInst → Z → StaticInst) (romMicroop : Z → option StaticInst → StaticInst).
Context (nopStaticInst : StaticInst) (itb : IReq → option (Fault * Z)) (icachePort : IReq → bool) (isMemAddr : Z → bool) (active : list nat).

Lemma buildInst_calm (tid : nat) (si : StaticInst) (mo : option StaticInst) (p0 p1 : PCState) (p : InstPtr) s s' :
  buildInst fl fetchWidth fetchQueueSize disassemble tid si mo p0 p1 s = Ok (p, s') → calm s s'.
Proof.
  unfold buildInst. cbn zeta. set (d := if CD_MarkUnsafeIf_AfterBranch fl && _ then _ else _).
  assert (Ht : threadNumber d = tid) by apply (newInst_ok fl tid si mo (globalSeqNum s) p0 p1 (disassemble si (instAddr p0))).
  intros E. apply bind_ok in E as (? & _ & E). apply bind_ok in E as (? & _ & E). injection E as _ <-.
  assert (Hl : queues_ok s → ∀ q e, ft_heap s !! q = Some e → <[nextInst s := d]> (ft_heap s) !! q = Some e).
  { intros [_ Q2] q e He. rewrite lookup_insert_ne; [done|]. intros <-. specialize (Q2 (nextInst s) ltac:(by exists e)). lia. }
  split; [done|done| |intros Hq q e He; exists e; split; [by apply Hl|done]].
  intros Hq. pose proof Hq as [Q1 Q2]. split; cbn -[d].
  - intros t q. destruct (decide (tid = t)) as [<-|Hne].
    + rewrite fn_lookup_insert. intros [Hin|Hin]%elem_of_app; [destruct (Q1 tid q Hin) as (e & He & Et); exists e; split; [by apply Hl|done]|].
      apply list_elem_of_singleton in Hin as ->. exists d. split; [apply lookup_insert_eq|done].
    + rewrite fn_lookup_insert_ne by done. intros Hin. destruct (Q1 t q Hin) as (e & He & Et). exists e. split; [by apply Hl|done].
  - intros q Hin. destruct (decide (q = nextInst s)) as [->|Hne]; [lia|]. rewrite lookup_insert_ne in Hin by done. specialize (Q2 q Hin). lia.
Qed.
Lemma lookup_calm (p : InstPtr) (p0 p1 : PCState) (b : bool) s s' : lookupAndUpdateNextPC advancePC p p0 s = Ok (b, p1, s') → calm s s'.
Proof.
  unfold lookupAndUpdateNextPC, ft_inst. intros E. apply bind_ok in E as (d & Hd%deref_ok & E). destruct (negb (isControl d)).
  - injection E as _ _ <-. by apply (calm_put _ d).
  - apply bind_ok in E as ([[b' p'] u] & _ & E). injection E as _ _ <-. etrans; [|by apply (calm_put _ d)]. apply calm_same; auto.
Qed.
Lemma finishTranslation_calm (flt : Fault) (rq : IReq) (pa : Z) s s' :
  finishTranslation fl active fetchWidth fetchQueueSize disassemble nopStaticInst icachePort isMemAddr flt rq pa s = Ok s' → calm s s'.
Proof.
  unfold finishTranslation. intros E. case_decide; [injection E as <-; done|]. case_decide.
  - destruct (negb (isMemAddr pa)); [injection E as <-; apply calm_same; auto|]. apply bind_ok in E as (s1 & E1 & E). injection E as <-.
    transitivity s1; [|apply calm_same; auto]. destruct (negb (icachePort rq)); repeat (apply bind_ok in E1 as (? & _ & E1)); injection E1 as <-; apply calm_same; auto.
  - destruct (_ || _); [apply bind_ok in E as (? & _ & E); injection E as <-; apply calm_same; auto|].
    apply bind_ok in E as ([p s1] & E1 & E). apply bind_ok in E as (d & Hd & E). injection E as <-. apply deref_ok in Hd.
    etrans; [|etrans; [eapply buildInst_calm, E1|]]; [apply calm_same; auto|]. etrans; [eapply (calm_put p d); [exact Hd|]|apply calm_same; auto]. done.
Qed.
Lemma fetchCacheLine_calm (a : Z) (tid : nat) s s' :
  fetchCacheLine fl active fetchWidth fetchQueueSize fetchBufferSize disassemble nopStaticInst itb icachePort isMemAddr a tid s = Ok s' → calm s s'.
Proof.
  unfold fetchCacheLine. intros E. destruct (cacheBlocked s); [by injection E as <-|]. destruct (_ && _); [by injection E as <-|].
  match type of E with match itb ?r with _ => _ end = _ => destruct (itb r) as [[flt pa]|] end; [|injection E as <-; apply calm_same; auto].
  etrans; [|by eapply finishTranslation_calm]. apply calm_same; auto.
Qed.

Lemma nextStatic_calm (tid : nat) (l l' : FetchLoop) o s s' :
  nextStatic fetchMicroop romMicroop nopStaticInst tid l s = (o, l', s') → calm s s'.
Proof.
  unfold nextStatic. intros E. destruct (_ || fl_inRom l) eqn:E0.
  - destruct (fl_curMacroop l), (fl_inRom l); injection E as _ _ <-; done.
  - destruct (dec_instReady (decoder s tid)); [|by injection E as _ _ <-]. destruct (dec_decode _ _) as [[si p] d].
    destruct (si_flag IsMacroop si); cbn in E; destruct (fl_curMacroop l), (fl_inRom l); injection E as _ _ <-; apply calm_same; auto.
Qed.
Lemma fetchOne_calm (tid : nat) (l l' : FetchLoop) (b : bool) s s' :
  fetchOne fl fetchWidth fetchQueueSize advancePC disassemble fetchMicroop romMicroop nopStaticInst tid l s = Ok (b, l', s') → calm s s'.
Proof.
  unfold fetchOne. destruct (nextStatic _ _ _ tid l s) as [[o l1] s1] eqn:E0. intros E. etrans; [by eapply nextStatic_calm|].
  destruct o as [[si nm]|]; [|by injection E as _ _ <-]. apply bind_ok in E as ([p s2] & E1 & E). etrans; [by eapply buildInst_calm|].
  apply bind_ok in E as ([[tk np] s3] & E2 & E). transitivity (s2 <| numInst := numInst s2 + 1 |>); [apply calm_same; auto|]. etrans; [by eapply lookup_calm|].
  apply bind_ok in E as (d & _ & E). destruct (isQuiesce d); injection E as _ _ <-; [|done]. apply calm_same; auto.
Qed.
Lemma fetchInner_calm (tid fuel : nat) : ∀ (l l' : FetchLoop) s s',
  fetchInner fl fetchWidth fetchQueueSize advancePC disassemble fetchMicroop romMicroop nopStaticInst fuel tid l s = Ok (l', s') → calm s s'.
Proof.
  induction fuel as [|fuel IH]; intros l l' s s' E; cbn in E; [done|]. apply bind_ok in E as ([[b l1] s1] & E1 & E).
  etrans; [by eapply fetchOne_calm|]. destruct b; [by eapply IH|by injection E as _ <-].
Qed.
Lemma fetchOuter_calm (tid inner fuel : nat) : ∀ (l l' : FetchLoop) s s',
  fetchOuter fl fetchWidth fetchQueueSize fetchBufferSize advancePC disassemble fetchMicroop romMicroop nopStaticInst fuel inner tid l s = Ok (l', s') → calm s s'.
Proof.
  induction fuel as [|fuel IH]; intros l l' s s' E; cbn [fetchOuter] in E; [done|]. destruct (_ && _ && _ && _); [|by injection E as _ <-].
  apply bind_ok in E as (fed & E1 & E). destruct fed as [[l1 s1]|]; [|by injection E as _ <-]. transitivity s1.
  { unfold feedDecoder in E1. destruct (_ && _ && _); [|injection E1 as _ <-; done]. destruct (_ || _); [done|]. destruct (_ <=? _); [done|].
    apply bind_ok in E1 as (i & _ & E1). injection E1 as _ <-. apply calm_same; auto. }
  apply bind_ok in E as ([l2 s2] & E2 & E). etrans; [by eapply fetchInner_calm|by eapply IH].
Qed.
Lemma fetchInsts_calm (tid : nat) (b b' : bool) s s' :
  fetchInsts fl fetchWidth fetchQueueSize fetchBufferSize advancePC disassemble fetchMicroop romMicroop nopStaticInst tid b s = Ok (b', s') → calm s s'.
Proof.
  unfold fetchInsts. intros E. apply bind_ok in E as ([l s1] & E1 & E). injection E as _ <-. etrans; [by eapply fetchOuter_calm|]. apply calm_same; auto.
Qed.

Context (numThreads : nat) (fetchPolicy : FetchPriority) (fromIEW : nat → FtIEW).
Lemma fetch_calm (b : bool) (b' : option bool) s s' :
  fetch fl numThreads active fetchWidth fetchQueueSize fetchBufferSize fetchPolicy advancePC disassemble fetchMicroop romMicroop nopStaticInst
    itb icachePort isMemAddr fromIEW b s = Ok (b', s') → calm s s'.
Proof.
  unfold fetch. intros E. apply bind_ok in E as ([t s1] & E1 & E). transitivity s1.
  { unfold getFetchingThread, roundRobin in E1. destruct (bool_decide _).
    - destruct fetchPolicy; try (injection E1 as _ <-; done); [|done]. apply bind_ok in E1 as ([o l] & _ & E1). injection E1 as _ <-. apply calm_same; auto.
    - destruct active; injection E1 as _ <-; done. }
  destruct t as [tid|]; [|by injection E as _ <-]. destruct (fetchStatus s1 tid); try (injection E as _ <-; done).
  - destruct (_ && _ && _); [apply bind_ok in E as (s2 & E2 & E); injection E as _ <-; by eapply fetchCacheLine_calm|].
    destruct (_ && _); [by injection E as _ <-|]. apply bind_ok in E as ([b2 s2] & E2 & E). injection E as _ <-. by eapply fetchInsts_calm.
  - apply bind_ok in E as ([b2 s2] & E2 & E). injection E as _ <-. etrans; [|by eapply fetchInsts_calm]. apply calm_same; auto.
Qed.
Lemma fetchThreads_calm (k : nat) : ∀ (b b' : bool) s s',
  fetchThreads fl numThreads active fetchWidth fetchQueueSize fetchBufferSize fetchPolicy advancePC disassemble fetchMicroop romMicroop nopStaticInst
    itb icachePort isMemAddr fromIEW k b s = Ok (b', s') → calm s s'.
Proof.
  induction k as [|k IH]; intros b b' s s' E; cbn in E; [by injection E as _ <-|]. apply bind_ok in E as ([o s1] & E1 & E).
  etrans; [by eapply fetch_calm|]. destruct o; [by eapply IH|by injection E as _ <-].
Qed.
Lemma pipeline_calm (l : list nat) : ∀ s s',
  mfold (pipelineIcacheAccesses fl active fetchWidth fetchQueueSize fetchBufferSize disassemble nopStaticInst itb icachePort isMemAddr) s l = Ok s' → calm s s'.
Proof.
  induction l as [|t l IH]; intros s s' E; cbn in E; [by injection E as <-|]. apply bind_ok in E as (s1 & E1 & E). etrans; [|by eapply IH].
  unfold pipelineIcacheAccesses in E1. destruct (_ || _); [by injection E1 as <-|]. destruct (_ && _); [by injection E1 as <-|by eapply fetchCacheLine_calm].
Qed.
End make.
End calm.
