(* ===== verification/FetchLink.v ===== *)
(** * Fetch and decode together

    Decode's skid buffer has room for [(fetchToDecodeDelay + 1) * fetchWidth] instructions
    per thread, and fetch stops when decode tells it to.  A cycle of both stages is closed
    here: fetch reads the signals decode wrote [decodeToFetchDelay] cycles ago, what it
    sends arrives [fetchToDecodeDelay] cycles later, and the other stages do what they
    like with the instructions as long as those stay with their threads. *)

From S2P Require Import Prelude Regs DynInst CPU IQInterface Targets BPred Decode DecodeOps DecodeProps Fetch FetchProps.
From stdpp Require Import list.
Local Open Scope Z_scope.

(** What fetch makes of a stall and the signals for a thread. *)
Definition read_flag (m : FtDecode) (stall : bool) : res bool :=
  let stall := if fd_block m then true else stall in
  if fd_unblock m then _ ← assert stall; _ ← assert (negb (fd_block m)); Ok false else Ok stall.
(** The stalls of a thread in the cycles to come, from the signals that are under way. *)
Fixpoint flags (t : nat) (stall : bool) (ms : list (nat → FtDecode)) : res (list bool) :=
  match ms with
  | [] => Ok []
  | m :: ms => x ← read_flag (m t) stall; xs ← flags t x ms; Ok (x :: xs)
  end.
Lemma flags_snoc (t : nat) (m : nat → FtDecode) (ms : list (nat → FtDecode)) : ∀ stall xs y z,
  flags t stall ms = Ok xs → last (stall :: xs) = Some y → read_flag (m t) y = Ok z → flags t stall (ms ++ [m]) = Ok (xs ++ [z]).
Proof.
  induction ms as [|m' ms IH]; intros stall xs y z E Hl Hz; cbn in E |- *.
  - injection E as <-. injection Hl as ->. by rewrite Hz.
  - apply bind_ok in E as (x & Ex & E). apply bind_ok in E as (xs' & E' & E). injection E as <-. rewrite Ex. cbn.
    rewrite last_cons_cons in Hl. by rewrite (IH x xs' y z E' Hl Hz).
Qed.
Lemma flags_length (t : nat) (ms : list (nat → FtDecode)) : ∀ stall xs, flags t stall ms = Ok xs → length xs = length ms.
Proof.
  induction ms as [|m ms IH]; intros stall xs E; cbn in E; [by injection E as <-|]. apply bind_ok in E as (x & _ & E).
  apply bind_ok in E as (xs' & E' & E). injection E as <-. cbn. f_equal. by eapply IH.
Qed.

Section signals.
Context {D P H : Type} `{!ISADecoder D} `{!Predictor P H}.
Implicit Types (s : Fetch D P H).

Lemma readDecodeSignals_flag (m : FtDecode) (tid : nat) s s' :
  readDecodeSignals m tid s = Ok s' →
  s' = s <| stalls_decode := stalls_decode s' |> ∧ read_flag m (stalls_decode s tid) = Ok (stalls_decode s' tid)
  ∧ ∀ t, t ≠ tid → stalls_decode s' t = stalls_decode s t.
Proof.
  unfold readDecodeSignals, read_flag. intros E. destruct (fd_block m), (fd_unblock m); cbn in E; rewrite ?fn_lookup_insert in E; cbn in E; try done.
  - injection E as <-. cbn. rewrite fn_lookup_insert. split_and!; [done|done|]. intros t Ht. by rewrite fn_lookup_insert_ne.
  - apply bind_ok in E as (? & Hs & E). injection E as <-. cbn. rewrite Hs. cbn. rewrite fn_lookup_insert. split_and!; [done|done|]. intros t Ht. by rewrite fn_lookup_insert_ne.
  - injection E as <-. split_and!; [by destruct s|done|done].
Qed.
Lemma readDecodeSignals_total (m : FtDecode) (tid : nat) s : is_ok (read_flag m (stalls_decode s tid)) = true → ∃ s', readDecodeSignals m tid s = Ok s'.
Proof.
  unfold readDecodeSignals, read_flag. destruct (fd_block m), (fd_unblock m); cbn; rewrite ?fn_lookup_insert; cbn; try done; try by eexists.
  destruct (stalls_decode s tid); cbn; [by eexists|done].
Qed.

Lemma calm_stalls (f : nat → bool) s s' : calm s s' → calm (s <| stalls_decode := f |>) (s' <| stalls_decode := f |>).
Proof.
  assert (Hq : ∀ x : Fetch D P H, queues_ok (x <| stalls_decode := f |>) ↔ queues_ok x) by (intros x; split; intros [Q1 Q2]; by split).
  intros [C1 C2 C3 C4]. split; [done|done| |]; rewrite !Hq; done.
Qed.
Lemma checkSignals_calm (dr : bool) (rand : nat → Z) (fromDecode : nat → FtDecode) (fromCommit : nat → FtCommit) (robTail : nat → option InstPtr)
    (tid : nat) (b : bool) s s' :
  checkSignalsAndUpdate dr rand fromDecode fromCommit robTail tid s = Ok (b, s') →
  ∃ s1, readDecodeSignals (fromDecode tid) tid s = Ok s1 ∧ calm s1 s'.
Proof.
  unfold checkSignalsAndUpdate. intros E. apply bind_ok in E as (s1 & E1 & E). exists s1. split; [done|]. destruct (fc_squash (fromCommit tid)).
  - apply bind_ok in E as (s2 & E2 & E). apply bind_ok in E as (m & _ & E). apply bind_ok in E as (s3 & E3 & E). injection E as _ <-.
    etrans; [by eapply squash_calm|by eapply squashPredictor_calm].
  - apply bind_ok in E as (s2 & E2 & E). transitivity s2.
    { destruct (negb _); [apply bind_ok in E2 as (u & _ & E2)|]; injection E2 as <-; [apply calm_same; auto|done]. }
    destruct (di_squash _); [|by eapply settleStatus_calm]. apply bind_ok in E as (s3 & E3 & E). etrans; [by eapply squashPredictor_calm|].
    case_decide; [by eapply settleStatus_calm|]. apply bind_ok in E as (s4 & E4 & E). injection E as _ <-. by eapply squashFromDecode_calm.
Qed.
Lemma signals_calm (dr : bool) (rand : nat → Z) (fromDecode : nat → FtDecode) (fromCommit : nat → FtCommit) (robTail : nat → option InstPtr)
    (l : list nat) : ∀ (b b' : bool) s s',
  mfold (ftThread dr rand fromDecode fromCommit robTail) (b, s) l = Ok (b', s') → NoDup l →
  calm (s <| stalls_decode := stalls_decode s' |>) s'
  ∧ (∀ t, t ∈ l → read_flag (fromDecode t) (stalls_decode s t) = Ok (stalls_decode s' t)) ∧ ∀ t, t ∉ l → stalls_decode s' t = stalls_decode s t.
Proof.
  induction l as [|tid l IH]; intros b b' s s' E Hnd; cbn in E.
  { injection E as _ <-. split_and!; [|by intros t ?%not_elem_of_nil|done]. by replace (s <| stalls_decode := stalls_decode s |>) with s by (by destruct s). }
  apply NoDup_cons in Hnd as [Hnt Hnd]. apply bind_ok in E as ([b1 s1] & E1 & E). unfold ftThread in E1. apply bind_ok in E1 as ([b2 s2] & E1 & E2). injection E2 as <- <-.
  apply checkSignals_calm in E1 as (s0 & E0 & C0). apply readDecodeSignals_flag in E0 as (Es0 & F0 & O0). apply IH in E as (C & F & O); [|done].
  pose proof (cm_stalls _ _ C0) as Est. split_and!.
  - etrans; [|exact C]. eapply calm_stalls in C0. rewrite Es0 in C0. exact C0.
  - intros t [->|Ht]%elem_of_cons; [by rewrite O, Est by done|]. rewrite <- F by done. rewrite Est, O0 by (by intros ->). done.
  - intros t [Ht Hl]%not_elem_of_cons. rewrite O, Est, O0 by done. done.
Qed.
End signals.

(** ** The system *)
(** The configuration of both stages, and the parameters of the instruction set, TLB and
    caches. *)
Record LinkConfig := MkLinkConfig {
  lk_flags : DebugFlags;
  lk_fullSystem : bool;
  lk_numThreads : nat;
  lk_active : list nat;
  lk_fetchWidth : Z;
  lk_decodeWidth : Z;
  lk_queueSize : Z;
  lk_bufferSize : Z;
  lk_policy : FetchPriority;
  lk_numFetching : nat;
  lk_delay : nat;  (* fetchToDecodeDelay *)
  lk_back : nat;  (* decodeToFetchDelay, less the one cycle every signal takes *)
  lk_advancePC : StaticInst → PCState → PCState;
  lk_branchTarget : StaticInst → PCState → PCState;
  lk_rand : nat → Z;
  lk_disassemble : StaticInst → Z → String.string;
  lk_fetchMicroop : StaticInst → Z → StaticInst;
  lk_romMicroop : Z → option StaticInst → StaticInst;
  lk_nop : StaticInst;
}.
(** [skidBufferMax] of decode. *)
Definition skidBufferMax (g : LinkConfig) : Z := (Z.of_nat (lk_delay g) + 1) * lk_fetchWidth g.

(** What the other stages and the memory do in a cycle. *)
Record LinkEnv := MkLinkEnv {
  en_heap : heap;
  en_cpu : CPUList;
  en_commit : nat → FtCommit;
  en_iew : nat → FtIEW;
  en_robTail : nat → option InstPtr;
  en_interrupt : bool * bool;
  en_start : nat;
  en_draining : bool;
  en_itb : IReq → option (Fault * Z);
  en_icache : IReq → bool;
  en_isMemAddr : Z → bool;
  en_cycle : Z;
  en_decode : nat → DcIn;
}.

(** The instructions on their way to decode, and the signals of decode's earlier cycles on
    their way to fetch; those of the last cycle are still decode's own. *)
Record Link {D P H : Type} := MkLink {
  ln_fetch : Fetch D P H;
  ln_decode : Decode;
  ln_pipe : list (list InstPtr);
  ln_wires : list (nat → FtDecode);
}.
Arguments Link : clear implicits.
Arguments MkLink {D P H}.

Section link.
Context {D P H : Type} `{!ISADecoder D} `{!Predictor P H} (g : LinkConfig).
Implicit Types (L : Link D P H) (e : LinkEnv) (s : Fetch D P H).

(** The wires from decode to fetch. *)
Definition wires (d : Decode) (t : nat) : FtDecode := MkFtDecode (decodeBlock d t) (decodeUnblock d t) (decodeInfo d t).

Definition signals L : list (nat → FtDecode) := ln_wires L ++ [wires (ln_decode L)].
(** What fetch reads in this cycle. *)
Definition incoming L : nat → FtDecode := default (wires (ln_decode L)) (head (signals L)).

Definition fetch_cycle e (m : nat → FtDecode) s : res (Fetch D P H) :=
  ft_tick (lk_flags g) (lk_fullSystem g) (lk_numThreads g) (lk_active g) (lk_fetchWidth g) (lk_decodeWidth g) (lk_queueSize g) (lk_bufferSize g)
    (lk_policy g) (lk_numFetching g) (en_draining e) (lk_advancePC g) (lk_rand g) (lk_disassemble g) (lk_fetchMicroop g) (lk_romMicroop g)
    (lk_nop g) (en_itb e) (en_icache e) (en_isMemAddr e) m (en_commit e) (en_iew e) (en_robTail e) (en_interrupt e) (en_start e)
    (s <| ft_heap := en_heap e |> <| ft_cpu := en_cpu e |>).
Definition decode_cycle e (arrive : list InstPtr) (d : Decode) : res Decode :=
  tick (lk_flags g) (lk_branchTarget g) (lk_fullSystem g) (en_cycle e) (lk_decodeWidth g) (skidBufferMax g) (lk_active g) (en_decode e) arrive d.
(** Fetch's cycle is over: what arrives at decode, and the state decode starts from. *)
Definition arriving (pipe : list (list InstPtr)) (s' : Fetch D P H) : list InstPtr := default [] (head (pipe ++ [toDecode s'])).
Definition handed_to (d : Decode) (s' : Fetch D P H) : Decode := d <| dc_heap := ft_heap s' |> <| dc_cpu := ft_cpu s' |>.
Definition link_step e L : res (Link D P H) :=
  f ← fetch_cycle e (incoming L) (ln_fetch L);
  d ← decode_cycle e (arriving (ln_pipe L) f) (handed_to (ln_decode L) f);
  Ok (MkLink f d (tail (ln_pipe L ++ [toDecode f])) (tail (signals L))).

(** Instructions stay, with their threads. *)
Definition evolves (h h' : heap) : Prop := ∀ p d, h !! p = Some d → ∃ d', h' !! p = Some d' ∧ threadNumber d' = threadNumber d.
Record env_ok e L : Prop := {
  eo_heap : evolves (dc_heap (ln_decode L)) (en_heap e);
  eo_fresh : ∀ p, is_Some (en_heap e !! p) → (p < nextInst (ln_fetch L))%nat;
  eo_start : (en_start e < length (lk_active g))%nat;
}.
(** What decode needs besides room: a known CPU list, and rename's side of the handshake. *)
Record others_ok e (arrive : list InstPtr) (d : Decode) : Prop := {
  oo_takes : ∀ t, t ∈ lk_active g → takes (dc_cpu d) (dc_heap d) t (dc_skid d t ++ arrivals (dc_heap d) t arrive);
  oo_listed : listed (dc_cpu d) (dc_heap d);
  oo_rename : ∀ t, t ∈ lk_active g → rename_keeps (en_decode e) d t;
}.

(** Both stages as they start. *)
Definition link_init L : Prop :=
  ln_pipe L = replicate (lk_delay g) []
  ∧ length (ln_wires L) = lk_back g ∧ (∀ m t, m ∈ ln_wires L → fd_block (m t) = false ∧ fd_unblock (m t) = false)
  ∧ (∀ t, fetchQueue (ln_fetch L) t = [] ∧ stalls_decode (ln_fetch L) t = false)
  ∧ ∀ t, dc_insts (ln_decode L) t = [] ∧ dc_skid (ln_decode L) t = [] ∧ decodeStatus (ln_decode L) t = DcIdle
         ∧ decodeBlock (ln_decode L) t = false ∧ decodeUnblock (ln_decode L) t = false.
Inductive reachable : Link D P H → Prop :=
| R_init L : link_init L → reachable L
| R_step e L L' : reachable L → env_ok e L → (∀ f, fetch_cycle e (incoming L) (ln_fetch L) = Ok f → listed (ft_cpu f) (ft_heap f)) →
    link_step e L = Ok L' → reachable L'.

(** ** A cycle of fetch *)
Lemma evolves_trans (h1 h2 h3 : heap) : evolves h1 h2 → evolves h2 h3 → evolves h1 h3.
Proof. intros H1 H2 p d Hd. destruct (H1 p d Hd) as (d' & Hd' & E). destruct (H2 p d' Hd') as (d'' & Hd'' & E'). exists d''. split; [done|congruence]. Qed.
Lemma evolves_kept (M : nat → Prop) (h h' : heap) : kept M h h' → evolves h h'.
Proof. intros Hk p d Hd. destruct (kept_lookup _ _ _ _ _ Hk Hd) as (d' & Hd' & _ & E & _). by exists d'. Qed.
Lemma evolves_present (h h' : heap) (l : list InstPtr) : evolves h h' → present h l → present h' l.
Proof. intros He Hp p Hin. destruct (Hp p Hin) as [d Hd]. destruct (He p d Hd) as (d' & Hd' & _). by exists d'. Qed.
Lemma evolves_owned (h h' : heap) (t : nat) (l : list InstPtr) : evolves h h' → owned h t l → owned h' t l.
Proof. intros He Ho p Hp. destruct (Ho p Hp) as (d & Hd & Et). destruct (He p d Hd) as (d' & Hd' & E). exists d'. split; [done|congruence]. Qed.
Lemma evolves_arrivals (h h' : heap) (t : nat) (l : list InstPtr) : evolves h h' → present h l → arrivals h' t l = arrivals h t l.
Proof.
  intros He Hp. apply filter_same. intros p Hin. destruct (Hp p Hin) as [d Hd]. destruct (He p d Hd) as (d' & Hd' & E).
  unfold of_thread. by rewrite Hd, Hd', E.
Qed.

Lemma fetch_cycle_ok e (m : nat → FtDecode) s (f : Fetch D P H) :
  fetch_cycle e m s = Ok f → NoDup (lk_active g) → (en_start e < length (lk_active g))%nat →
  queues_ok (s <| ft_heap := en_heap e |> <| ft_cpu := en_cpu e |>) →
  (∀ t, t ∈ lk_active g → read_flag (m t) (stalls_decode s t) = Ok (stalls_decode f t))
  ∧ queues_ok f ∧ evolves (en_heap e) (ft_heap f) ∧ Z.of_nat (length (toDecode f)) ≤ Z.max 0 (lk_decodeWidth g)
  ∧ present (ft_heap f) (toDecode f) ∧ ∀ t, stalls_decode f t = true → arrivals (ft_heap f) t (toDecode f) = [].
Proof.
  unfold fetch_cycle, ft_tick. intros E Hnd Hst Hq. set (s0 := s <| ft_heap := en_heap e |> <| ft_cpu := en_cpu e |>) in *.
  apply bind_ok in E as ([b1 s1] & E1 & E). apply signals_calm in E1 as (C1 & F1 & O1); [|done].
  set (s1' := if lk_fullSystem g then _ else s1) in E. assert (C1' : calm s1 s1').
  { unfold s1'. destruct (lk_fullSystem g), (en_interrupt e) as [[] []]; cbn; done || (apply calm_same; auto). }
  apply bind_ok in E as ([b2 s2] & E2 & E). apply fetchThreads_calm in E2 as C2.
  set (s2' := if b2 then s2 <| ft_status := updateFetchStatus (lk_active g) s2 |> else s2) in E. assert (C2' : calm s2 s2') by (unfold s2'; destruct b2; [apply calm_same; auto|done]).
  apply bind_ok in E as (s3 & E3 & E). apply pipeline_calm in E3 as C3. apply bind_ok in E as (s4 & E4 & E). injection E as <-.
  assert (C : calm (s0 <| toDecode := [] |> <| issuePipelinedIfetch := λ _, false |> <| stalls_decode := stalls_decode s1 |>) s3) by (etrans; [exact C1|]; etrans; [exact C1'|]; etrans; [exact C2|]; by etrans).
  destruct C as [C4 C5 C6 C7]. cbn in C4, C5, C7. assert (Hq0 : queues_ok (s0 <| toDecode := [] |> <| issuePipelinedIfetch := λ _, false |> <| stalls_decode := stalls_decode s1 |>)) by (destruct Hq; by split).
  destruct (fetch_hands_over (lk_active g) (lk_decodeWidth g) (en_start e) s3 Hnd Hst) as (sent & s4' & E4' & [S1 S2 S3 S4] & Hl). rewrite E4 in E4'. injection E4' as <-.
  pose proof (C6 Hq0) as [Q1 Q2]. assert (Hh4 : ft_heap s4 = ft_heap s3 ∧ stalls_decode s4 = stalls_decode s3 ∧ nextInst s4 = nextInst s3) by (by rewrite S4).
  destruct Hh4 as (Hh4 & Hs4 & Hn4). cbn. rewrite Hh4, Hs4, C4, S1, C5. cbn.
  assert (Hsent : ∀ p, p ∈ sent.*2 → ∃ t dd, stalls_decode s1 t = false ∧ ft_heap s3 !! p = Some dd ∧ threadNumber dd = t).
  { intros p ([t p'] & -> & Hin)%list_elem_of_fmap. destruct (S3 t p' Hin) as [Hst' _]. destruct (Q1 t p') as (dd & Hdd & Et); [|by exists t, dd; rewrite C4 in Hst'].
    rewrite S2. apply elem_of_app. left. apply list_elem_of_fmap. exists (t, p'). split; [done|]. by apply list_elem_of_filter. }
  split_and!.
  - intros t Ht. by apply F1.
  - split; cbn; [|by rewrite Hh4, Hn4]. intros t p Hp. rewrite Hh4. apply Q1. rewrite S2. apply elem_of_app. by right.
  - intros p dd Hdd. by apply C7.
  - rewrite length_fmap. lia.
  - intros p Hp. destruct (Hsent p Hp) as (t & dd & _ & Hdd & _). by exists dd.
  - intros t Ht. unfold arrivals. apply elem_of_nil_inv. intros p [Hp Hin]%list_elem_of_filter. destruct (Hsent p Hin) as (t' & dd & Hs' & Hdd & Et).
    unfold of_thread in Hp. rewrite Hdd in Hp. apply bool_decide_eq_true in Hp. congruence.
Qed.

(** ** The invariant *)
(** The thread's instructions on their way. *)
Definition on_way (h : heap) (t : nat) (pipe : list (list InstPtr)) : nat := sum_list ((λ a, length (arrivals h t a)) <$> pipe).
Lemma on_way_evolves (h h' : heap) (t : nat) (pipe : list (list InstPtr)) :
  evolves h h' → (∀ a, a ∈ pipe → present h a) → on_way h' t pipe = on_way h t pipe.
Proof.
  intros He Hp. unfold on_way. f_equal. apply list_fmap_ext. intros i a Ha. f_equal. apply evolves_arrivals; [done|]. apply Hp. by apply list_elem_of_lookup_2 in Ha.
Qed.
Lemma on_way_bound (h : heap) (t w : nat) (pipe : list (list InstPtr)) :
  (∀ a, a ∈ pipe → (length a ≤ w)%nat) → (on_way h t pipe ≤ length pipe * w)%nat.
Proof.
  intros Hw. unfold on_way. induction pipe as [|a pipe IH]; cbn; [lia|]. assert (length (arrivals h t a) ≤ length a)%nat by apply length_filter.
  assert (length a ≤ w)%nat by (apply Hw; left). specialize (IH ltac:(intros; apply Hw; by right)). lia.
Qed.

(** The width, as a number of instructions. *)
Definition width : nat := Z.to_nat (lk_decodeWidth g).
(** The room the skid buffer needs: fetch may send in every cycle until decode's signal
    arrives, and what it sent is still on its way. *)
Definition need : nat := (S (lk_delay g + lk_back g) * width)%nat.
(** [xs] are fetch's stalls in the cycles to come, the last one decode's present wish; in
    those without a stall fetch sends up to [width] instructions. *)
Record room_inv L (t : nat) (xs : list bool) : Prop := {
  ri_flags : flags t (stalls_decode (ln_fetch L) t) (signals L) = Ok xs;
  ri_held : last xs = Some (held (ln_decode L) t);
  ri_room : (length (dc_skid (ln_decode L) t) + on_way (dc_heap (ln_decode L)) t (ln_pipe L) + countb negb xs * width ≤ need)%nat;
}.
Record link_inv L : Prop := {
  li_delay : length (ln_pipe L) = lk_delay g;
  li_back : length (ln_wires L) = lk_back g;
  li_pipe : ∀ a, a ∈ ln_pipe L → present (dc_heap (ln_decode L)) a ∧ (length a ≤ width)%nat;
  li_queues : ∀ t, owned (dc_heap (ln_decode L)) t (fetchQueue (ln_fetch L) t);
  li_settled : ∀ t, t ∈ lk_active g → settled (ln_decode L) t;
  li_room : ∀ t, t ∈ lk_active g → ∃ xs, room_inv L t xs;
}.
(** A thread decode does not hold needs no room of its own. *)
Lemma free_room (h : heap) (t : nat) (pipe : list (list InstPtr)) (xs : list bool) :
  (∀ a, a ∈ pipe → (length a ≤ width)%nat) → length pipe = lk_delay g → length xs = S (lk_back g) →
  (on_way h t pipe + countb negb xs * width ≤ need)%nat.
Proof.
  intros Hp Hd Hx. pose proof (on_way_bound h t width pipe Hp). pose proof (countb_le_length negb xs). unfold need.
  rewrite Hd in *. rewrite Hx in *. nia.
Qed.

Lemma silent_flags (t : nat) (ms : list (nat → FtDecode)) (m : nat → FtDecode) :
  (∀ m', m' ∈ ms ++ [m] → fd_block (m' t) = false ∧ fd_unblock (m' t) = false) →
  flags t false (ms ++ [m]) = Ok (replicate (S (length ms)) false).
Proof.
  intros Hm. induction ms as [|m' ms IH]; cbn.
  - destruct (Hm m ltac:(left)) as [E1 E2]. unfold read_flag. by rewrite E1, E2.
  - destruct (Hm m' ltac:(left)) as [E1 E2]. unfold read_flag at 1. rewrite E1, E2. cbn. rewrite IH; [done|]. intros x Hx. apply Hm. by right.
Qed.
Lemma init_inv L : link_init L → link_inv L.
Proof.
  intros (Hp & Hb & Hs & Hf & Hd). assert (Hrep : ∀ a, a ∈ ln_pipe L → a = []) by (rewrite Hp; intros a [? _]%elem_of_replicate; done).
  split.
  - by rewrite Hp, length_replicate.
  - done.
  - intros a ->%Hrep. split; [by intros p ?%not_elem_of_nil|cbn; lia].
  - intros t. destruct (Hf t) as [-> _]. by intros p ?%not_elem_of_nil.
  - intros t _. destruct (Hd t) as (E1 & E2 & E3 & _). split; [done|apply dc_wf_status; right; by rewrite E2, E3|rewrite E2; by intros p ?%not_elem_of_nil].
  - intros t _. destruct (Hd t) as (_ & E2 & E3 & E4 & E5), (Hf t) as [_ E6]. exists (replicate (S (length (ln_wires L))) false). split.
    + rewrite E6. apply silent_flags. intros m' [Hm|Hm]%elem_of_app; [by apply Hs|by apply list_elem_of_singleton in Hm as ->].
    + rewrite replicate_S_end, last_snoc. unfold held. by rewrite E3.
    + rewrite E2. apply free_room; [intros a ->%Hrep; cbn; lia|by rewrite Hp, length_replicate|rewrite length_replicate; lia].
Qed.

Lemma signals_head L : signals L = incoming L :: tail (signals L).
Proof. unfold incoming, signals. by destruct (ln_wires L). Qed.
(** After fetch's cycle: what is on its way fits, with what fetch may still send. *)
Lemma after_fetch e L (f : Fetch D P H) :
  NoDup (lk_active g) → link_inv L → env_ok e L → fetch_cycle e (incoming L) (ln_fetch L) = Ok f →
  let pipe := ln_pipe L ++ [toDecode f] in
  queues_ok f ∧ evolves (dc_heap (ln_decode L)) (ft_heap f) ∧ (∀ a, a ∈ pipe → present (ft_heap f) a ∧ (length a ≤ width)%nat)
  ∧ (∀ t, t ∈ lk_active g → ∃ xs, flags t (stalls_decode f t) (tail (signals L)) = Ok xs
       ∧ last (stalls_decode f t :: xs) = Some (held (ln_decode L) t)
       ∧ (length (dc_skid (ln_decode L) t) + on_way (ft_heap f) t pipe + countb negb xs * width ≤ need)%nat).
Proof.
  intros Hnd [I1 I2 I3 I4 I5 I6] [V1 V2 V3] E pipe. apply fetch_cycle_ok in E as (F1 & F2 & F3 & F4 & F5 & F6); [|done|done|].
  2: { split; cbn; [|done]. intros t. by eapply evolves_owned. }
  assert (Hev : evolves (dc_heap (ln_decode L)) (ft_heap f)) by (by eapply evolves_trans).
  assert (Hpipe : ∀ a, a ∈ pipe → present (ft_heap f) a ∧ (length a ≤ width)%nat).
  { intros a [Ha|Ha]%elem_of_app; [destruct (I3 a Ha); split; [by eapply evolves_present|done]|]. apply list_elem_of_singleton in Ha as ->. split; [done|]. unfold width. lia. }
  split_and!; [done|done|done|]. intros t Ht. destruct (I6 t Ht) as (xs & [R1 R2 R3]). rewrite signals_head in R1. cbn [flags] in R1.
  rewrite (F1 t Ht) in R1. cbn in R1. apply bind_ok in R1 as (xs' & R1 & E). injection E as <-. exists xs'. split; [done|]. split; [done|].
  unfold pipe, on_way. rewrite fmap_app, sum_list_with_app. cbn [fmap list_fmap sum_list]. fold (on_way (ft_heap f) t (ln_pipe L)).
  rewrite (on_way_evolves (dc_heap (ln_decode L))) by (done || (intros a Ha; by apply I3)). cbn [countb] in R3.
  destruct (stalls_decode f t) eqn:Es; cbn in R3.
  - rewrite (F6 t Es). cbn. lia.
  - assert (length (arrivals (ft_heap f) t (toDecode f)) ≤ length (toDecode f))%nat by apply length_filter.
    assert (length (toDecode f) ≤ width)%nat by (unfold width; lia). cbn. lia.
Qed.

Lemma pipe_head L (f : Fetch D P H) : ln_pipe L ++ [toDecode f] = arriving (ln_pipe L) f :: tail (ln_pipe L ++ [toDecode f]).
Proof. unfold arriving. by destruct (ln_pipe L). Qed.
Lemma handed_settled L (f : Fetch D P H) (t : nat) :
  evolves (dc_heap (ln_decode L)) (ft_heap f) → settled (ln_decode L) t → settled (handed_to (ln_decode L) f) t.
Proof. intros He [S1 S2 S3]. split; [done|done|]. by eapply evolves_owned. Qed.
(** The flag fetch will have, from the signals of a cycle. *)
Lemma sig_flag (b0 : bool) (d : Decode) (t : nat) : sig b0 d t → read_flag (wires d t) b0 = Ok (held d t).
Proof.
  intros [G1 G2 G3 G4]. unfold read_flag, wires. cbn. rewrite G1. destruct (decodeBlock d t); [by rewrite G2|]. destruct (decodeUnblock d t); [by rewrite G3|done].
Qed.

Lemma link_step_inv e L L' :
  NoDup (lk_active g) → link_inv L → env_ok e L → (∀ f, fetch_cycle e (incoming L) (ln_fetch L) = Ok f → listed (ft_cpu f) (ft_heap f)) →
  link_step e L = Ok L' → link_inv L'.
Proof.
  intros Hnd Hi He Hls E. unfold link_step in E. apply bind_ok in E as (f & Ef & E). apply bind_ok in E as (d & Ed & E). injection E as <-.
  specialize (Hls f Ef). destruct (after_fetch e L f Hnd Hi He Ef) as (A1 & A2 & A3 & A4). cbn zeta in *. rewrite pipe_head in A3.
  assert (Hset : ∀ t, t ∈ lk_active g → settled (handed_to (ln_decode L) f) t) by (intros t Ht; apply handed_settled; [done|]; by apply (li_settled _ Hi)).
  assert (Hk : evolves (ft_heap f) (dc_heap d)) by (eapply evolves_kept, (tick_kept _ _ _ _ _ _ _ _ _ (handed_to (ln_decode L) f) d Ed Hnd Hset); exact Hls).
  assert (Ht3 : ∀ t, t ∈ lk_active g → settled d t ∧ sig (held (ln_decode L) t) d t
     ∧ (length (dc_skid d t) ≤ length (dc_skid (ln_decode L) t) + length (arrivals (ft_heap f) t (arriving (ln_pipe L) f)))%nat).
  { intros t Ht. apply (tick_settled _ _ _ _ _ _ _ _ _ (handed_to (ln_decode L) f) d t Ed Hnd Hset); done. }
  assert (Hback : length (tail (signals L)) = lk_back g).
  { pose proof (f_equal length (signals_head L)) as Hl. unfold signals at 1 in Hl. rewrite length_app in Hl. cbn in Hl. pose proof (li_back _ Hi). lia. }
  assert (Hdelay : length (tail (ln_pipe L ++ [toDecode f])) = lk_delay g).
  { pose proof (f_equal length (pipe_head L f)) as Hl. rewrite length_app in Hl. cbn in Hl. pose proof (li_delay _ Hi). lia. }
  split; cbn [ln_pipe ln_decode ln_fetch ln_wires]; [done|done| | | |].
  - intros a Ha. destruct (A3 a ltac:(by right)) as [Hp Hw]. split; [by eapply evolves_present|done].
  - intros t. eapply evolves_owned; [exact Hk|]. apply (qo_owned _ A1).
  - intros t Ht. by apply Ht3.
  - intros t Ht. destruct (Ht3 t Ht) as ([_ [Hw _] _] & Hsig & Hs). destruct (A4 t Ht) as (xs & X1 & X2 & X3).
    rewrite pipe_head in X3. unfold on_way in X3. rewrite fmap_cons in X3. cbn [sum_list] in X3.
    fold (on_way (ft_heap f) t (tail (ln_pipe L ++ [toDecode f]))) in X3. pose proof (flags_length _ _ _ _ X1) as Hlx. rewrite Hback in Hlx.
    exists (xs ++ [held d t]). split; cbn [ln_pipe ln_decode ln_fetch ln_wires].
    + apply (flags_snoc t (wires d) (tail (signals L)) _ xs (held (ln_decode L) t)); [done|done|]. by apply sig_flag.
    + by rewrite last_snoc.
    + rewrite (on_way_evolves (ft_heap f)); [|done|intros a Ha; apply A3; by right]. destruct (held d t) eqn:Eheld.
      * rewrite countb_app. cbn. cbn in X3, Hs. lia.
      * rewrite (Hw eq_refl). apply free_room; [intros a Ha; apply A3; by right|done|rewrite length_app, Hlx; cbn; lia].
Qed.
Lemma link_reachable_inv L : NoDup (lk_active g) → reachable L → link_inv L.
Proof. intros Hnd. induction 1; [by apply init_inv|by eapply link_step_inv]. Qed.
End link.

(** C21: the skid buffer never overflows.  Signals reach fetch [lk_back + 1] cycles after decode
    sent them (decodeToFetchDelay), instructions reach decode after [lk_delay] cycles
    (fetchToDecodeDelay).  If [(lk_delay + 1 + lk_back) * decodeWidth] is at most
    [skidBufferMax = (lk_delay + 1) * fetchWidth] (for a delay of one: decode is at most as wide
    as fetch), then in every state fetch and decode reach together: the signals under way never
    fail fetch's assertions and in the end leave fetch stalled exactly for the threads decode
    holds; and after any cycle of fetch, decode's cycle ends without a failed assertion
    (whatever the stage was doing), and no skid buffer holds more than [skidBufferMax]
    instructions.  Of the other stages this takes ([others_ok]) that rename lets a thread go on
    only after it stopped it, that only branches are predicted taken, and that the CPU's list
    has every instruction not squashed, in order. *)
Theorem skid_never_overflows {D P H : Type} `{!ISADecoder D} `{!Predictor P H} (g : LinkConfig) (e : LinkEnv)
    (L : Link D P H) (f : Fetch D P H) :
  NoDup (lk_active g) → 0 ≤ lk_decodeWidth g → (Z.of_nat (lk_delay g) + 1 + Z.of_nat (lk_back g)) * lk_decodeWidth g ≤ skidBufferMax g →
  reachable g L → env_ok g e L →
  (∀ t, t ∈ lk_active g → (∃ s', readDecodeSignals (incoming L t) t (ln_fetch L) = Ok s')
     ∧ ∃ xs, flags t (stalls_decode (ln_fetch L) t) (signals L) = Ok xs ∧ last xs = Some (held (ln_decode L) t))
  ∧ (fetch_cycle g e (incoming L) (ln_fetch L) = Ok f →
     let arrive := arriving (ln_pipe L) f in let d := handed_to (ln_decode L) f in
     others_ok g e arrive d →
     ∃ d', decode_cycle g e arrive d = Ok d' ∧ ∀ t, t ∈ lk_active g → Z.of_nat (length (dc_skid d' t)) ≤ skidBufferMax g).
Proof.
  intros Hnd H0 Hw Hr He. pose proof (link_reachable_inv g L Hnd Hr) as Hi. split.
  - intros t Ht. destruct (li_room _ _ Hi t Ht) as (xs & [R1 R2 _]). split; [|by exists xs]. apply readDecodeSignals_total.
    rewrite signals_head in R1. cbn in R1. apply bind_ok in R1 as (x & -> & _). done.
  - intros Ef arrive d [O1 O2 O3]. destruct (after_fetch g e L f Hnd Hi He Ef) as (A1 & A2 & A3 & A4). cbn zeta in *. rewrite pipe_head in A3. fold arrive in A3.
    assert (Hset : ∀ t, t ∈ lk_active g → settled d t) by (intros t Ht; apply handed_settled; [done|]; by apply (li_settled _ _ Hi)).
    assert (Hroom : ∀ t, t ∈ lk_active g → Z.of_nat (length (dc_skid d t) + length (arrivals (dc_heap d) t arrive)) ≤ skidBufferMax g).
    { intros t Ht. destruct (A4 t Ht) as (xs & _ & _ & Hb). rewrite pipe_head in Hb. unfold on_way in Hb. rewrite fmap_cons in Hb. cbn [sum_list] in Hb.
      assert (Z.of_nat (need g) ≤ skidBufferMax g).
      { etrans; [|exact Hw]. unfold need, width. rewrite Nat2Z.inj_mul, Z2Nat.id by done. apply Z.eq_le_incl. f_equal. lia. }
      change (dc_skid d t) with (dc_skid (ln_decode L) t). change (dc_heap d) with (ft_heap f). fold arrive in Hb. unfold id in Hb. lia. }
    destruct (tick_total (lk_flags g) (lk_branchTarget g) (lk_fullSystem g) (en_cycle e) (lk_decodeWidth g) (skidBufferMax g) (lk_active g) (en_decode e) arrive d Hnd Hset) as [d' E].
    { split; try done. apply A3. left. }
    exists d'. split; [done|]. intros t Ht. destruct (tick_settled _ _ _ _ _ _ _ _ _ d d' t E Hnd Hset O2 Ht) as (_ & _ & Hs). specialize (Hroom t Ht). lia.
Qed.
