(* ===== verification/FetchRun.v ===== *)
(** * Runs of the front end

    Fetch and decode connected, with a decoder that turns every word into a [nop]; decode
    alone with a mispredicted branch; the CPU's list and a time buffer.  The states
    instantiate the properties of [CPU.v], [DecodeProps.v], [FetchProps.v] and [FetchLink.v]. *)

From S2P Require Import Prelude Regs DynInst CPU IQInterface IntMath Targets BPred TournamentBP BPredInv BPredSteps BPredProps BPredRun Decode DecodeOps DecodeProps Fetch FetchProps FetchLink.
Local Open Scope Z_scope.

(** ** The system *)
Definition nop_si : StaticInst := MkStaticInst (flags_of [IsNop]) 0 [] [] 0%N.
#[local] Instance nop_decoder : ISADecoder unit := {|
  dec_reset := id; dec_instReady := λ _, true; dec_needMoreBytes := λ _, false;
  dec_moreBytes := λ _ _ _, id; dec_decode := λ p d, (nop_si, p, d) |}.
#[local] Instance nop_decoder_ok : DecoderOk unit.
Proof. split; [intros p d si p' d' E; by injection E as _ <- _|intros; by left]. Qed.

Abbreviation FUnit := (Fetch unit TournamentBP TournamentHistory).
Abbreviation FLink := (Link unit TournamentBP TournamentHistory).
Definition config_back (fw dw : Z) (back : nat) : LinkConfig :=
  MkLinkConfig no_flags false 1 [0%nat] fw dw 8 64 SingleThread 1 1 back (λ _ p, uEnd p) (λ _ p, p) no_rand (λ _ _, String.EmptyString) (λ m _, m) (λ _ _, nop_si) nop_si.
Definition config (fw dw : Z) : LinkConfig := config_back fw dw 0.
Definition ft0 : FUnit :=
  MkFetch unit TournamentBP TournamentHistory FtActive (λ _, FtRunning) (λ _, pc_set 0) (λ _, 0) (λ _, None) (λ _, tt) (λ _, false) (λ _, None)
    (λ _, false) (λ _, false) (λ _, 0) (λ _, true) (λ _, [0; 0; 0; 0; 0; 0; 0; 0]) (λ _, []) [0%nat] false None None false 0 (λ _, false) None
    w0 [] ∅ (MkCPUList [] [] false) 1 1 1.
Definition dc0 : Decode :=
  MkDecode DcInactive (λ _, DcIdle) (λ _, []) (λ _, []) (λ _, false) [] (λ _, false) (λ _, false) (λ _, no_comm) ∅ (MkCPUList [] [] false).
Definition lk0 (g : LinkConfig) : FLink := MkLink ft0 dc0 [[]] (replicate (lk_back g) (wires dc0)).

(** The other stages leave the instructions as they are; rename sends [m]. *)
Definition quiet_commit : FtCommit := MkFtCommit false (pc_set 0) 0 None None false.
Definition env (m : DcIn) (L : FLink) : LinkEnv :=
  MkLinkEnv (dc_heap (ln_decode L)) (dc_cpu (ln_decode L)) (λ _, quiet_commit) (λ _, MkFtIEW 0 0) (λ _, None) (false, false) 0 false (λ _, None) (λ _, true)
    (λ _, true) 0 (λ _, m).
Definition silent : DcIn := MkDcIn false false false.
Definition blocks : DcIn := MkDcIn true false false.
Definition resumes : DcIn := MkDcIn false true false.
Definition go (g : LinkConfig) (L : FLink) (m : DcIn) : FLink := match link_step g (env m L) L with Ok L' => L' | Err _ => L end.
Definition runs (g : LinkConfig) (l : list DcIn) : FLink := foldl (go g) (lk0 g) l.

(** *** Checking the conditions of a cycle by computation *)
Fixpoint sorted_b (h : heap) (l : list InstPtr) : bool :=
  match l with p :: l => forallb (λ q, seq_in h p <? seq_in h q) l && sorted_b h l | [] => true end.
Definition listed_b (c : CPUList) (h : heap) : bool :=
  bool_decide (NoDup (cpu_instList c)) && forallb (λ p, is_Some_b (h !! p)) (cpu_instList c) && sorted_b h (cpu_instList c).
Definition takes_b (c : CPUList) (h : heap) (t : nat) (l : list InstPtr) : bool :=
  forallb (λ p, match h !! p with
                | Some d => bool_decide (threadNumber d = t) && bool_decide (p ∈ cpu_instList c) && negb (readPredTaken d)
                | None => false
                end) l.
Definition fresh_b (L : FLink) : bool := bool_decide (map_Forall (λ p _, (p < nextInst (ln_fetch L))%nat) (dc_heap (ln_decode L))).
Definition step_ok (g : LinkConfig) (m : DcIn) (L : FLink) : bool :=
  fresh_b L
  && match fetch_cycle g (env m L) (incoming L) (ln_fetch L) with Ok f => listed_b (ft_cpu f) (ft_heap f) | Err _ => false end
  && is_ok (link_step g (env m L) L).
Fixpoint all_ok (g : LinkConfig) (l : list DcIn) (L : FLink) : bool :=
  match l with [] => true | m :: l => step_ok g m L && all_ok g l (go g L m) end.

Lemma listed_b_ok c h : listed_b c h = true → listed c h.
Proof.
  unfold listed_b. intros [[H1%bool_decide_eq_true H2]%andb_true_iff H3]%andb_true_iff. rewrite forallb_forall in H2. split_and!; [done| |].
  - intros p Hp%list_elem_of_In. specialize (H2 p Hp). destruct (h !! p); [by eexists|done].
  - revert H3. generalize (cpu_instList c). intros l. induction l as [|p l IH]; cbn; [constructor|]. intros [Hp Hl]%andb_true_iff.
    constructor; [by apply IH|]. apply Forall_forall. intros q Hq. rewrite forallb_forall in Hp. by apply Z.ltb_lt, Hp.
Qed.
Lemma takes_b_ok c h (t : nat) (l : list InstPtr) : takes_b c h t l = true → takes c h t l.
Proof.
  unfold takes_b. rewrite forallb_forall. intros Hl p Hp%list_elem_of_In. specialize (Hl p Hp). destruct (h !! p) as [d|]; [|done].
  apply andb_true_iff in Hl as [Hl H3%negb_true_iff]. apply andb_true_iff in Hl as [H1 H2].
  apply bool_decide_eq_true in H1, H2. exists d. split; [done|]. split; [done|]. intros _. split; [done|congruence].
Qed.
Lemma env_fine (g : LinkConfig) (m : DcIn) (L : FLink) : lk_active g = [0%nat] → fresh_b L = true → env_ok g (env m L) L.
Proof.
  intros Ha H1%bool_decide_eq_true. split; cbn; [|by intros p [d Hd]; apply (H1 p d)|rewrite Ha; cbn; lia].
  intros p d Hd. by exists d.
Qed.
Lemma go_reach (g : LinkConfig) (m : DcIn) (L : FLink) : lk_active g = [0%nat] → step_ok g m L = true → reachable g L → reachable g (go g L m).
Proof.
  intros Ha Hok Hr. apply andb_true_iff in Hok as [[H1 H2]%andb_true_iff H3]. pose proof (env_fine g m L Ha H1) as He. unfold go.
  destruct (is_ok_spec _ H3) as [L' E]. rewrite E. eapply R_step; [exact Hr|exact He| |exact E]. intros f Ef. rewrite Ef in H2. by apply listed_b_ok.
Qed.
Lemma runs_reach (g : LinkConfig) (l : list DcIn) : lk_active g = [0%nat] → lk_delay g = 1%nat → all_ok g l (lk0 g) = true → reachable g (runs g l).
Proof.
  intros Ha Hd. assert (H0 : reachable g (lk0 g)).
  { apply R_init; split_and!; [by rewrite Hd|by apply length_replicate|by intros m t [-> _]%elem_of_replicate|done|done]. } unfold runs. revert H0. generalize (lk0 g).
  induction l as [|m l IH]; intros L H0; cbn [all_ok foldl]; [done|]. intros [H1 H2]%andb_true_iff. apply IH; [|done]. by apply go_reach.
Qed.

(** *** Witnesses *)
Definition f_of (g : LinkConfig) (m : DcIn) (L : FLink) : FUnit :=
  match fetch_cycle g (env m L) (incoming L) (ln_fetch L) with Ok f => f | Err _ => ft0 end.
Lemma f_of_ok (g : LinkConfig) (m : DcIn) (L : FLink) :
  is_ok (fetch_cycle g (env m L) (incoming L) (ln_fetch L)) = true → fetch_cycle g (env m L) (incoming L) (ln_fetch L) = Ok (f_of g m L).
Proof. unfold f_of. by destruct (fetch_cycle g (env m L) (incoming L) (ln_fetch L)). Qed.
(** The conditions on the other stages, when rename is silent. *)
Definition rest_b (L : FLink) (f : FUnit) : bool :=
  let d := handed_to (ln_decode L) f in
  takes_b (dc_cpu d) (dc_heap d) 0 (dc_skid d 0%nat ++ arrivals (dc_heap d) 0 (arriving (ln_pipe L) f)) && listed_b (dc_cpu d) (dc_heap d).
Lemma rest_fine (g : LinkConfig) (L : FLink) (f : FUnit) : lk_active g = [0%nat] → rest_b L f = true →
  others_ok g (env silent L) (arriving (ln_pipe L) f) (handed_to (ln_decode L) f).
Proof.
  intros Ha [H1 H2]%andb_true_iff. split; [|by apply listed_b_ok|done]. rewrite Ha. intros t ->%list_elem_of_singleton. by apply takes_b_ok.
Qed.

(** Rename stops decode and lets it go on: what arrives next goes through. *)
Definition lkA : FLink := runs (config 2 2) [silent; blocks; resumes].
Lemma skid_never_overflows_witness :
  let f := f_of (config 2 2) silent lkA in
  reachable (config 2 2) lkA ∧ dc_skid (ln_decode (runs (config 2 2) [silent; blocks])) 0 = [1; 2]%nat
  ∧ ∃ d', decode_cycle (config 2 2) (env silent lkA) (arriving (ln_pipe lkA) f) (handed_to (ln_decode lkA) f) = Ok d'
          ∧ Z.of_nat (length (dc_skid d' 0%nat)) ≤ 4.
Proof.
  cbn zeta. assert (Hr : reachable (config 2 2) lkA) by (apply runs_reach; [done|done|vm_compute; reflexivity]).
  split; [exact Hr|]. split; [vm_compute; reflexivity|].
  destruct (skid_never_overflows (config 2 2) (env silent lkA) lkA (f_of (config 2 2) silent lkA)) as [_ H2].
  - apply NoDup_singleton.
  - cbn. lia.
  - vm_compute. done.
  - exact Hr.
  - apply env_fine; [done|vm_compute; reflexivity].
  - destruct H2 as (d' & E & Hd).
    + apply f_of_ok. vm_compute. reflexivity.
    + apply rest_fine; [done|vm_compute; reflexivity].
    + exists d'. split; [exact E|]. apply (Hd 0%nat). left.
Defined.

(** Decode wider than fetch: instructions pile up in fetch's queue while decode is stopped,
    then come faster than [skidBufferMax] allows for, and decode's assertion fails. *)
Definition lkB : FLink := runs (config 1 2) [silent; blocks; silent; silent; silent; resumes; silent; blocks].
Lemma skid_overflows_when_wider :
  let f := f_of (config 1 2) silent lkB in let d := handed_to (ln_decode lkB) f in let arrive := arriving (ln_pipe lkB) f in
  reachable (config 1 2) lkB ∧ env_ok (config 1 2) (env silent lkB) lkB
  ∧ fetch_cycle (config 1 2) (env silent lkB) (incoming lkB) (ln_fetch lkB) = Ok f ∧ others_ok (config 1 2) (env silent lkB) arrive d
  ∧ decode_cycle (config 1 2) (env silent lkB) arrive d = Err AssertFailed.
Proof.
  cbn zeta. assert (Hr : reachable (config 1 2) lkB) by (apply runs_reach; [done|done|vm_compute; reflexivity]).
  split_and!; [exact Hr|apply env_fine; [done|vm_compute; reflexivity]|apply f_of_ok; vm_compute; reflexivity|apply rest_fine; [done|vm_compute; reflexivity]|].
  vm_compute. reflexivity.
Qed.

(** Signals that take two cycles: the room [skidBufferMax] allows for is one cycle short,
    and decode's assertion fails although both stages are equally wide. *)
Definition lkC : FLink := runs (config_back 2 2 1) [silent; blocks; silent].
Lemma skid_overflows_with_slow_signals :
  let g := config_back 2 2 1 in
  let f := f_of g silent lkC in let d := handed_to (ln_decode lkC) f in let arrive := arriving (ln_pipe lkC) f in
  reachable g lkC ∧ env_ok g (env silent lkC) lkC
  ∧ fetch_cycle g (env silent lkC) (incoming lkC) (ln_fetch lkC) = Ok f ∧ others_ok g (env silent lkC) arrive d
  ∧ decode_cycle g (env silent lkC) arrive d = Err AssertFailed.
Proof.
  cbn zeta. assert (Hr : reachable (config_back 2 2 1) lkC) by (apply runs_reach; [done|done|vm_compute; reflexivity]).
  split_and!; [exact Hr|apply env_fine; [done|vm_compute; reflexivity]|apply f_of_ok; vm_compute; reflexivity|apply rest_fine; [done|vm_compute; reflexivity]|].
  vm_compute. reflexivity.
Qed.

(** Fetch from its first state. *)
Lemma w0_inv : bp_inv 4 w0.
Proof. destruct (new_inv small t0 small_ok t0_wf) as (u & E & Hu & _). rewrite new_w0 in E. by injection E as <-. Qed.
Lemma ft0_makes : makes 2 4 ft0.
Proof.
  split; cbn.
  - exact w0_inv.
  - intros t. split; vm_compute; constructor.
  - intros p [d Hd]. by rewrite lookup_empty in Hd.
  - lia.
  - lia.
Qed.
Lemma fetch_follows_prediction_witness :
  ∃ b s', fetchInsts no_flags 2 8 64 (λ _ p, uEnd p) (λ _ _, String.EmptyString) (λ m _, m) (λ _ _, nop_si) nop_si 0 false ft0 = Ok (b, s')
    ∧ fetchQueue s' 0 = [1; 2]%nat ∧ follows (ft_heap s') (pc_set 0) [1; 2]%nat (ft_pc s' 0) ∧ ft_pc s' 0 = pc_set 16.
Proof.
  destruct (fetch_follows_prediction no_flags 2 8 64 (λ _ p, uEnd p) (λ _ _, String.EmptyString) (λ m _, m) (λ _ _, nop_si) nop_si 4 0 false ft0 ft0_makes)
    as (b & s' & k & E & _ & _ & Hq & _ & _ & _ & _ & _ & Hf & _); [cbn; lia|by intros _|split; vm_compute; congruence|].
  exists b, s'. assert (Hk : fetchQueue s' 0 = [1; 2]%nat ∧ ft_pc s' 0 = pc_set 16) by (revert E; vm_compute; intros E; injection E as <- <-; split; reflexivity).
  destruct Hk as [Hk Hp]. split; [exact E|]. split; [exact Hk|]. rewrite Hk in Hq. cbn in Hq. change (nextInst ft0) with 1%nat in Hf. rewrite <- Hq in Hf. by split.
Defined.

(** Two instructions in the queue, and decode one wide. *)
Definition ft2 : FUnit := ft0 <| fetchQueue := (λ t, if decide (t = 0%nat) then [7; 8]%nat else []) |>.
Lemma fetch_hands_over_witness :
  ∃ sent s', sendToDecode [0%nat] 1 0 ft2 = Ok s' ∧ handed [0%nat] sent ft2 s' ∧ toDecode s' = [7%nat] ∧ fetchQueue s' 0 = [8%nat].
Proof.
  destruct (fetch_hands_over [0%nat] 1 0 ft2) as (sent & s' & E & Hh & _); [apply NoDup_singleton|cbn; lia|].
  exists sent, s'. split; [exact E|]. split; [exact Hh|]. vm_compute in E. injection E as <-. split; reflexivity.
Defined.

(** ** Decode alone *)
(** A direct jump predicted to fall through, and the next instruction, arrive. *)
Definition jmp_si : StaticInst := MkStaticInst (flags_of [IsControl; IsDirectControl; IsUncondControl]) 1 [] [] 0%N.
Definition hp : heap := <[1%nat := initVars jmp_si 1 (pc_set 0) (pc_set 8)]> (<[2%nat := initVars nop_si 2 (pc_set 8) (pc_set 16)]> ∅).
Definition dcJ : Decode := dc0 <| dc_heap := hp |> <| dc_cpu := MkCPUList [1; 2]%nat [] false |>.
Definition to_64 (_ : StaticInst) (_ : PCState) : PCState := pc_set 64.
Definition dcK : Decode := match tick no_flags to_64 false 0 2 4 [0%nat] (λ _, silent) [1; 2]%nat dcJ with Ok d => d | Err _ => dc0 end.
Lemma dcK_ok : tick no_flags to_64 false 0 2 4 [0%nat] (λ _, silent) [1; 2]%nat dcJ = Ok dcK.
Proof. unfold dcK. vm_compute. reflexivity. Qed.
Lemma dcJ_settled (t : nat) : settled dcJ t.
Proof. split; [done|by apply dc_wf_status; right|by intros p ?%not_elem_of_nil]. Qed.
Lemma decode_delivers_in_order_witness :
  ∃ taken : nat → list nat, toRename dcK = live hp (taken 0%nat) ∧ toRename dcK = [1%nat] ∧ dead (dc_heap dcK) 2 = true ∧ di_nextPC (decodeInfo dcK 0%nat) = pc_set 64.
Proof.
  destruct (decode_delivers_in_order no_flags to_64 false 0 2 4 [0%nat] (λ _, silent) [1; 2]%nat dcJ dcK) as (taken & E & _ & _).
  - apply NoDup_singleton.
  - intros t _. apply dcJ_settled.
  - apply listed_b_ok. vm_compute. reflexivity.
  - exact dcK_ok.
  - exists taken. split; [|split; [|split]]; [|vm_compute; reflexivity..]. rewrite E. cbn. by rewrite app_nil_r.
Defined.

(** ** The CPU's list and time buffers *)
Lemma removed_exactly_witness :
  ∃ c1 h1 c2, removeInstsUntil 1 0 (dc_cpu dcJ) hp = Ok (c1, h1) ∧ cleanUpRemovedInsts c1 = Ok c2 ∧ cpu_instList c2 = [1%nat].
Proof.
  destruct (removed_exactly 1 0 (dc_cpu dcJ) hp) as (c1 & h1 & c2 & E1 & E2 & E3 & _); [apply listed_b_ok; vm_compute; reflexivity|done|done|].
  exists c1, h1, c2. split; [exact E1|]. split; [exact E2|]. rewrite E3. vm_compute. reflexivity.
Defined.
(** A stage writes two cycles ahead; the value is there two cycles later. *)
Definition tb_run : list (tb_op (T := Z)) := [TbWrite 2 (λ _, 9); TbAdvance; TbWrite 0 (λ _, 4); TbAdvance].
Lemma timebuf_refines_stream_witness :
  ∃ b, (b0 ← TimeBuffer_new 0 1 2; mfold (tb_step 0) b0 tb_run) = Ok b ∧ tb_access 0 b = Ok 9 ∧ tb_access (-1) b = Ok 4.
Proof.
  destruct (timebuf_refines_stream 0 1 2 tb_run) as (b & E & Ha); [lia|lia|lia|repeat constructor; cbn; lia|].
  exists b. split; [exact E|]. cbn in Ha. split; [rewrite (Ha 0) by lia|rewrite (Ha (-1)) by lia]; reflexivity.
Defined.
